(* ===== verification/_CoqProject ===== *)
-Q . S2P
Prelude.v
Text.v
Json.v
Regex.v
Catalog.v
Types.v
Router.v
Fallback.v
Redis.v
Quota.v
QuotaCancel.v
Cooldown.v
Ledger.v
Cache.v
Gateway.v
Stream.v
GatewayExamples.v
Admission.v
RateLimiter.v
Totp.v
Auth.v
AuthProps.v
Resilience.v
CacheManager.v
ModelCatalog.v
JobQueue.v
Oidc.v
Webhooks.v
WebhookProps.v
Ingestion.v
Retrieval.v
RetrievalProps.v
Coordinator.v
HotTier.v
EndUserLimits.v
StreamBuffer.v
Replicas.v
Threads.v
ThreadLog.v
ThreadProps.v
ThreadFork.v
ThreadTotal.v
ThreadExamples.v
AuditTrail.v
ThreadMutation.v
SessionTokens.v
Context.v
Tenant.v
TextScan.v
OutputSchema.v
Guardrails.v
GuardrailProps.v
Governance.v
ConfigVersions.v
Moderation.v
Orchestration.v
OrchestrationProps.v
TurnExamples.v
Summarizer.v
SummaryQuality.v
Compaction.v
Memory.v
MemoryProps.v
Quality.v
QualityProps.v
Archive.v
ArchiveProps.v
ConversationRoute.v
RouteProps.v
RouteExamples.v
ConversationStream.v
StreamProps.v
StreamExamples.v
