(* ===== verification/Prelude.v ===== *)
(** * Agent Studio: a verified model of the backend

    The repository is a multi-tenant service that runs AI agents: a model
    gateway, durable conversation threads, their compaction into summaries,
    sessions of end users, background jobs and an audit trail
    (Python, backend/app/).  This library translates the parts of it that
    carry state and decisions into executable definitions and proves what
    makes them correct.  Theorems about faults, concurrency and limits are
    stated about the definitions as they are, so several of them describe
    behaviour a reader of the code would not expect.

    ** Conventions

    - A method that mutates state or raises is an [io S E A]: a function of the
      state to an outcome ([Ret] or [Raise]) and the next state.  As in Python,
      what was written before an exception stays, unless the code runs inside
      a database transaction ([Threads.get_session]), which restores the
      tables.
    - Floats are exact rationals ([Q]); Python integers are [Z]; a column the
      database stores in 32 bits is written out as such
      ([StreamBuffer.int4]).  Text is ASCII.  JSON values are [Json.json],
      dictionaries keep their insertion order.
    - A file states its unit of time in its own header (seconds, milliseconds
      or microseconds); a clock is an argument or part of the state.
    - Redis, the SHA-256 digest, Fernet, language models, embeddings, the
      random source of [uuid4] and [json.loads] are not in the repository:
      they are parameters, with the documented laws the code relies on as
      class fields or hypotheses (Redis.v, JobQueue.v, StreamBuffer.v), and
      an instance for each that runs the examples.  A Redis connection has a
      schedule of faults: each command is served, lost, or run with its reply
      lost.
    - Lua scripts under backend/app run as one atomic step.
    - A loop without a structural measure takes fuel: pagination and snapshots
      take the number of rows of the tables (a page that is not empty
      advances the cursor), the merge of summaries its own depth bound, the
      generate loop of a turn three rounds (one compaction, one exhausted tool
      budget), the graph of a turn its recursion limit, and the Redis retries
      the attempts the code counts.  Theorems say the result
      is the one of the code, never only that a result is right if it comes.
    - Log lines and metrics are not modelled.

    ** Parts

    The model gateway (backend/app/gateway/).  Catalog.v (catalog.py: prices
    and windows), Types.v (types.py), Router.v (router.py: candidates, scores
    and the decision), Fallback.v (fallback.py: failure classes and their
    targets), Quota.v (quota.py: the two scripts, reserve, reconcile, alerts),
    Cooldown.v (cooldown.py), Ledger.v (ledger.py), Cache.v (cache.py: exact
    and semantic cache), Gateway.v (service.py, the request path [generate]
    with its fallback chain and the settlement), Stream.v (service.py,
    [_stream_impl], as a generator whose consumer may close it after any
    event), Admission.v (admission.py).  GatewayExamples.v runs a gateway on
    concrete stores.  Theorems: a request settles its reservation once however
    it ends; a stream emits one terminal event; deployments are tried at most
    once; concurrent reservations stay within the budget; admissions stay
    within the limits and leak nothing without faults; the chosen deployment
    has the best score; invalidation reaches both caches.

    Resilience (backend/app/infrastructure/patterns/).  RateLimiter.v
    (rate_limiter.py), Resilience.v (circuit_breaker.py, retry.py),
    CacheManager.v (infrastructure/cache/manager.py behind the breaker, and
    idempotency.py over it).  Theorems: the rate a bucket admits, when the
    breaker opens, how often a call is retried, what a cached value or a
    stored response is read back as, and that misses open the breaker.

    Threads (backend/app/infrastructure/db/threads.py).  Threads.v is the
    store: tables with the constraints of models.py, a transaction per call,
    history reads through Replicas.v (replicas.py).  ThreadLog.v proves what
    each call does to the tables, ThreadProps.v the theorems over any history
    of calls (contiguous and append-only logs, deduplication, pagination,
    read-your-writes), ThreadFork.v forks, ThreadTotal.v that an append to an
    existing thread returns, ThreadExamples.v concrete histories.
    AuditTrail.v is the hash-chained audit trail (repositories.py).
    ThreadMutation.v is regenerate, fork and edit (session/service.py) over
    the store, the conversations and the trail.

    Sessions (backend/app/session/).  Coordinator.v (coordinator.py: one
    generation per thread, by local and Redis locks), SessionTokens.v
    (tokens.py and the repositories it calls), EndUserLimits.v (limits.py),
    HotTier.v (hot_tier.py).  Theorems: the distributed lock is exclusive, a
    minted token resolves until it is revoked or expires and never again
    afterwards, open sessions stay within the cap.

    Streams and jobs (backend/app/infrastructure/).  StreamBuffer.v
    (stream/buffer.py, overflow.py) and JobQueue.v (queue/manager.py, with the
    sweep of application/cleanup/service.py and the scheduler of
    worker/main.py).  Theorems: a replay returns the stream in order through
    overflow and the loss of Redis; the queue refines three first-in
    first-out lanes; a job is read back as it was written; retries end.

    Compaction (backend/app/application/compaction/).  Context.v
    (context/assembler.py and estimator.py: the prompt within the token
    budget), Summarizer.v (service.py: the summary schema, chunk and merge),
    SummaryQuality.v (eval.py: fact retention), Compaction.v (breaker.py,
    service.py, refresh.py: triggers, snapshot, the atomic swap and its
    fallback).  Theorems: a prompt fits the window and carries no unredacted
    turn; chunks partition the head and fit the window; a compaction that
    fails changes no table; a swap appends one layer and keeps the checkpoint
    well formed.

    Tenants and turns (backend/app/domain/, governance/, modules/,
    application/).  Tenant.v (domain/tenant, domain/policy,
    modules/tenant_config: configurations, their cache and files, policy rules
    and their evaluation), Governance.v (governance/, api/routes/surfaces.py:
    surfaces, the tool registry and its gate, compiled configurations,
    evidence, canaries, tenant-scoped keys), ConfigVersions.v (the versions of
    a configuration, canaries and their monitor, rollbacks, and the routes
    that drive them: repositories.py, worker/canary_monitor.py), Moderation.v (the moderation
    window over a stream, the faithfulness check), Orchestration.v
    (application/orchestration/service.py: every node of a turn over a record
    of hooks, the graph and its recursion limit), OrchestrationProps.v and
    TurnExamples.v.  Theorems: a turn whose budgets fit the recursion limit
    ends by itself; what it answers without a handoff passed verification, the
    threshold and the policy; a round of tools ends in every interleaving with
    one result for each call, and nothing runs that the gate refused; the
    decision of a policy; the exact condition under which a tool is allowed;
    what a moderated stream releases; who a canary is served to and what a
    rollback restores.  ModelCatalog.v is the allowlist of a
    tenant's models and its cost ceiling (modules/model_catalog/service.py).

    Authentication.  Text.v is how the language reads an integer and splits
    text, Totp.v the second factor (modules/security/totp.py), Auth.v
    the principals, the keys and sessions with their tables, the checks of a
    role and of a tenant, and the routes that manage keys and factors
    (api/dependencies/auth.py, repositories.py, api/routes/), Oidc.v single
    sign-on (modules/sso/oidc.py and its routes; the identity provider and
    its keys are parameters).  The files above check access with
    [Auth.assert_tenant_access].  Theorems (AuthProps.v, Oidc.v): whom
    [require_api_key] lets in; a revoked key opens nothing; a delegated
    administrator stays in its tenants and scopes; a factor that is armed is
    asked for, and its token is read back; a session of single sign-on names
    a user whose token was verified.

    Guardrails (backend/app/modules/guardrails/).  Regex.v is the part of the
    language's [re] the patterns use, with its specification; TextScan.v the
    safety values (domain/safety) and the two layers that run on patterns
    (regex_fastpath.py, jailbreak.py); OutputSchema.v the schemas of answers
    (guardrails_ai.py); Guardrails.v the configuration (config.py), the layers
    over third-party models (classifier.py, nemo_rails.py, pii_engine.py), the
    spotlighting of retrieved text (spotlighting.py) and the orchestrator with
    a breaker per layer, its two gates and its registry (orchestrator.py).
    Theorems (GuardrailProps.v): the input gate fails closed; an open breaker
    closes it for good; both modes of execution agree; what the fast path
    passes.  The parser of patterns takes fuel linear in the text
    ([Regex.parse_enough]), a schema twice its depth
    ([OutputSchema.rail_enough]).

    The conversation endpoints (backend/app/api/routes/conversations.py).
    ConversationRoute.v is [process_conversation] with what both endpoints
    share: the coordinator and the admission gate of the files above around
    the turn of Orchestration.v, and a record of services over an abstract
    state for the repositories and adapters.  ConversationStream.v is
    [stream_conversation] as a generator over the buffer of StreamBuffer.v and
    the window of Moderation.v: the queue between its tasks is a list of
    arrivals, each with what the tasks did meanwhile, and the client leaves at
    any frame.  It can also be cancelled while it waits for the queue;
    cancellation inside another call is not modelled.  Theorems (RouteProps.v,
    StreamProps.v; runs in RouteExamples.v, StreamExamples.v): the lease and
    the slot are given back however a request or a stream ends; an answer not
    handed off is for the principal's tenant and passed every check; a retry
    replays the answer; the frames of a stream follow a grammar; a client that
    stays gets one terminal frame; the deltas are the validator's verdicts in
    order.

    Webhooks (backend/app/modules/webhooks/, worker/handlers.py,
    api/routes/webhooks.py).  Webhooks.v is the tables of subscriptions,
    events, deliveries and the outbox with their repositories, the signer, the
    deliverer and the handler of a delivery, the publisher and the relay over
    the queue of JobQueue.v, and the routes; the response of a receiver is a
    parameter.  Theorems (WebhookProps.v): the receiver's check accepts what
    the signer signs, and nothing else is sent; a drain leaves no row pending,
    and on healthy connections enqueues each wanted delivery once and in
    order; a row that failed, or whose relay came on the same day as another,
    is never sent.

    Retrieval (backend/app/application/ingestion/, application/retrieval/,
    modules/rag/service.py).  Ingestion.v is the four chunkers and the
    ingestion of a document; Retrieval.v the in-memory vector store, the
    search of a tenant, the lexical index, rank fusion, the rerankers, the
    service with its cache and the metrics of the recall evaluations.
    Theorems (Ingestion.v, RetrievalProps.v): the chunks of fixed size cover
    the text, and when cutting never ends; recursive chunks fit or the text is
    refused; an ingestion gives its slot back; the lexical search is the
    reference search of the stored documents; what fusion returns; no answer
    holds another tenant's document.  The runs at the end of RetrievalProps.v
    show what the cache and the lexical channel ignore.  The loop of the
    fixed-size chunker takes fuel one more than the length of the text: each
    step of a loop that ends advances by at least one
    ([Ingestion.fixed_size_covers]).

    Memory (backend/app/application/memory/, infrastructure/db/memory.py).
    Memory.v is the table of facts over the thread store of Threads.v, the
    extractor, the extraction of a thread, the relevance of a fact and the
    worker's job.  Theorems (MemoryProps.v): an extraction adds nothing but
    cleaned facts of its thread; when a rerun is free; why a sweep never
    drains; what was erased stays unread.  The page walk takes the rows of
    all databases as fuel, as the count of Compaction.v does.

    Quality monitoring (worker/quality_monitor.py).  Quality.v is the rubric,
    the reading of the judge's reply, the drift windows, the monitoring job
    and the check of a compaction's facts; the judge is a parameter.  Theorems
    (QualityProps.v): a reply that is read scores each dimension between
    nothing and one; a window holds the last scores; how the counts of a run
    relate.  The pair a run judges is found in a tail read the other way
    round: a thread that begins with a question is never judged.

    Archives (application/archive/service.py, governance/residency.py,
    infrastructure/storage/manager.py, worker/retention.py).  Archive.v is the
    archive and the restore of a thread, the sweep, their jobs and the objects
    they store, over the thread store of Threads.v.  Theorems
    (ArchiveProps.v): the keys of two threads differ; however an archive, a
    restore or a sweep ends, each archived thread keeps a copy that a restore
    from its region accepts.  The runs show a restore from another region and
    a damaged local copy.

    ** Not modelled

    The administration routes and request validation, the adapters of
    third-party services (models, the database vector store, ticketing, DLP,
    mail and SMS), the listing of objects, metrics and settings: input and output, or
    libraries the sources only call.  The evaluations and the red team score
    with language models outside the serving path. *)

From Stdlib Require Export Ascii String ZArith QArith Qround Lqa Lia.
From stdpp Require Export base tactics list strings gmap fin_maps sorting pretty.

Declare Scope studio_scope.
Delimit Scope studio_scope with studio.
Open Scope studio_scope.
Open Scope Z_scope.

Create HintDb studio discriminated.
Create Rewrite HintDb studio.

(** ** Effects: state threading with exceptions

    A method of the program that touches mutable state and may raise is a
    state transformer.  As in Python, the state changes made before an
    exception is raised persist. *)

Inductive outcome (E A : Type) : Type :=
| Ret (a : A)
| Raise (e : E).
Arguments Ret {E A} a.
Arguments Raise {E A} e.

Definition io (S E A : Type) : Type := S -> outcome E A * S.

#[export] Instance io_ret {S E} : MRet (io S E) := fun A a s => (Ret a, s).
#[export] Instance io_bind {S E} : MBind (io S E) := fun A B f c s =>
  match c s with
  | (Ret a, s') => f a s'
  | (Raise e, s') => (Raise e, s')
  end.

Definition throw {S E A} (e : E) : io S E A := fun s => (Raise e, s).
Definition get_st {S E} : io S E S := fun s => (Ret s, s).
Definition modify {S E} (f : S -> S) : io S E unit := fun s => (Ret tt, f s).

(** [try: c  except e: h e] *)
Definition try_catch {S E E' A} (c : io S E A) (h : E -> io S E' A) : io S E' A :=
  fun s => match c s with
           | (Ret a, s') => (Ret a, s')
           | (Raise e, s') => h e s'
           end.

(** Runs a computation of one component inside a larger state, given the
    component's field and its update. *)
Definition lift {W S E E' A} (get : W -> S) (put : S -> W -> W) (inj : E -> E')
    (c : io S E A) : io W E' A :=
  fun w => match c (get w) with
           | (Ret a, s') => (Ret a, put s' w)
           | (Raise e, s') => (Raise (inj e), put s' w)
           end.

(** [for x in l: f x] *)
Fixpoint for_each {S E X} (f : X -> io S E unit) (l : list X) : io S E unit :=
  match l with
  | [] => mret tt
  | x :: l' => _ ← f x; for_each f l'
  end.

(** ** Python strings (ASCII text) *)

Definition is_space (a : ascii) : bool :=
  let n := Ascii.nat_of_ascii a in
  ((9 <=? n) && (n <=? 13) || (28 <=? n) && (n <=? 32))%nat.

Definition lower_char (a : ascii) : ascii :=
  let n := Ascii.nat_of_ascii a in
  if ((65 <=? n) && (n <=? 90))%nat then Ascii.ascii_of_nat (n + 32) else a.

(** [s.lower()] *)
Fixpoint lower (s : string) : string :=
  match s with
  | EmptyString => EmptyString
  | String a s' => String (lower_char a) (lower s')
  end.

Definition upper_char (a : ascii) : ascii :=
  let n := Ascii.nat_of_ascii a in
  if ((97 <=? n) && (n <=? 122))%nat then Ascii.ascii_of_nat (n - 32) else a.

(** [s.upper()] *)
Fixpoint upper (s : string) : string :=
  match s with
  | EmptyString => EmptyString
  | String a s' => String (upper_char a) (upper s')
  end.

Fixpoint lstrip (s : string) : string :=
  match s with
  | EmptyString => EmptyString
  | String a s' => if is_space a then lstrip s' else s
  end.

(** [s.strip()] *)
Definition strip (s : string) : string :=
  String.rev (lstrip (String.rev (lstrip s))).

(** [needle in hay] *)
Fixpoint contains (needle hay : string) : bool :=
  String.prefix needle hay ||
  match hay with
  | EmptyString => false
  | String _ hay' => contains needle hay'
  end.

(** [s.split(c, 1)]: the text before and after the first [c], if any. *)
Fixpoint split_once (c : ascii) (s : string) : option (string * string) :=
  match s with
  | EmptyString => None
  | String a s' =>
      if decide (a = c) then Some (EmptyString, s')
      else match split_once c s' with
           | Some (l, r) => Some (String a l, r)
           | None => None
           end
  end.

(** Truthiness of a Python string. *)
Definition truthy (s : string) : bool :=
  match s with EmptyString => false | _ => true end.
Definition truthy_opt (o : option string) : bool :=
  match o with Some s => truthy s | None => false end.

(** ** Comparisons of rationals *)

Definition Qltb (x y : Q) : bool := negb (Qle_bool y x).
Definition Qmaxb (x y : Q) : Q := if Qle_bool x y then y else x.
Definition Qminb (x y : Q) : Q := if Qle_bool x y then x else y.

(** [int(x)]: truncation towards zero. *)
Definition py_int (q : Q) : Z := Z.quot (Qnum q) (Zpos (Qden q)).

Infix "<=?q" := Qle_bool (at level 68, no associativity) : studio_scope.
Infix "<?q" := Qltb (at level 68, no associativity) : studio_scope.

(** ** Python's [sorted]: a stable insertion sort

    [leb x y] says that [x] may stand before [y]; for [reverse=True] the
    code's order is the converse one, and equal elements keep their order in
    both cases. *)

Section sorting.
Context {A : Type} (leb : A -> A -> bool).

Fixpoint insert_by (new : A) (sorted : list A) : list A :=
  match sorted with
  | [] => [new]
  | y :: rest => if leb new y then new :: y :: rest else y :: insert_by new rest
  end.

Definition sort_by (l : list A) : list A := foldr insert_by [] l.

End sorting.

(** ** Order-preserving accumulation without repetition *)

Section extend_new.
Context {A : Type} `{EqDecision A}.

(** [for c in l: if c not in acc: acc.append(c)] *)
Definition extend_new (acc l : list A) : list A :=
  foldl (fun acc c => if decide (c ∈ acc) then acc else acc ++ [c]) acc l.

End extend_new.

(** The greatest element of a list of integers, [0] for the empty one. *)
Definition max_or_zero (l : list Z) : Z := foldr Z.max 0 l.

(** ** Partial correctness of effectful code *)

Definition triple {S E A} (P : S -> Prop) (c : io S E A)
    (R : A -> S -> Prop) (X : E -> S -> Prop) : Prop :=
  forall s, P s -> match c s with
                   | (Ret a, s') => R a s'
                   | (Raise e, s') => X e s'
                   end.

(** ** Tactics *)

Ltac destruct_innermost test :=
  lazymatch test with
  | context [match _ with _ => _ end] => fail
  | _ => let E := fresh "E" in destruct test eqn:E
  end.

(** Case analysis on the innermost stuck test of the goal. *)
Ltac case_test :=
  match goal with
  | |- context [match ?test with _ => _ end] => destruct_innermost test
  end.

(** The same in a hypothesis. *)
Ltac case_test_in H :=
  match type of H with
  | context [match ?test with _ => _ end] => destruct_innermost test
  end.

(** Case analysis on the bits of a character. *)
Ltac each_char a :=
  let b0 := fresh in let b1 := fresh in let b2 := fresh in let b3 := fresh in
  let b4 := fresh in let b5 := fresh in let b6 := fresh in let b7 := fresh in
  destruct a as [b0 b1 b2 b3 b4 b5 b6 b7]; destruct b0, b1, b2, b3, b4, b5, b6, b7.

(** Turns boolean tests on integers and rationals into propositions. *)
Ltac to_prop :=
  repeat match goal with
  | T : (_ <? _)%Z = _ |- _ => apply Z.ltb_lt in T || apply Z.ltb_ge in T
  | T : (_ <=? _)%Z = _ |- _ => apply Z.leb_le in T || apply Z.leb_gt in T
  | T : (_ =? _)%Z = _ |- _ => apply Z.eqb_eq in T || apply Z.eqb_neq in T
  | T : negb _ = _ |- _ => apply negb_true_iff in T || apply negb_false_iff in T
  | T : orb _ _ = false |- _ => apply orb_false_iff in T as [? ?]
  | T : andb _ _ = true |- _ => apply andb_prop in T as [? ?]
  end.

(** ** Lemmas on rationals *)

Lemma Qltb_true x y : x <?q y = true <-> (x < y)%Q.
Proof.
  unfold Qltb. rewrite negb_true_iff.
  split; intros H.
  - apply Qnot_le_lt. intros Hle. apply Qle_bool_iff in Hle. congruence.
  - destruct (y <=?q x) eqn:E; [|done].
    apply Qle_bool_iff in E. lra.
Qed.

Lemma Qltb_false x y : x <?q y = false <-> (y <= x)%Q.
Proof.
  unfold Qltb. rewrite negb_false_iff. apply Qle_bool_iff.
Qed.

Lemma Qleb_false x y : x <=?q y = false <-> (y < x)%Q.
Proof.
  rewrite <- Qltb_true. unfold Qltb. by rewrite negb_true_iff.
Qed.

Lemma Qmaxb_spec x y : (x <= Qmaxb x y /\ y <= Qmaxb x y)%Q.
Proof.
  unfold Qmaxb. destruct (x <=?q y) eqn:E.
  - apply Qle_bool_iff in E. split; lra.
  - apply Qleb_false in E. split; lra.
Qed.

Lemma Qmaxb_r x y : (x <= y)%Q -> (Qmaxb x y == y)%Q.
Proof.
  intros H. unfold Qmaxb. destruct (x <=?q y) eqn:E; [lra|].
  apply Qleb_false in E. lra.
Qed.

#[export] Instance Qleb_proper : Proper (Qeq ==> Qeq ==> eq) Qle_bool.
Proof. intros x x' Hx y y' Hy. by rewrite Hx, Hy. Qed.

#[export] Instance Qmaxb_proper : Proper (Qeq ==> Qeq ==> Qeq) Qmaxb.
Proof.
  intros x x' Hx y y' Hy. unfold Qmaxb. rewrite Hx, Hy at 1. by destruct (x' <=?q y').
Qed.

Lemma Qminb_spec x y : (Qminb x y <= x /\ Qminb x y <= y)%Q.
Proof.
  unfold Qminb. destruct (x <=?q y) eqn:E.
  - apply Qle_bool_iff in E. split; lra.
  - apply Qleb_false in E. split; lra.
Qed.

Lemma Qminb_glb x y z : (z <= x)%Q -> (z <= y)%Q -> (z <= Qminb x y)%Q.
Proof. intros ??. unfold Qminb. by destruct (x <=?q y). Qed.

#[export] Hint Resolve Qminb_glb : studio.

(** [to_prop] for rationals. *)
Ltac q_prop :=
  repeat match goal with
  | H : _ <=?q _ = true |- _ => apply Qle_bool_iff in H
  | H : _ <=?q _ = false |- _ => apply Qleb_false in H
  | H : _ <?q _ = true |- _ => apply Qltb_true in H
  | H : _ <?q _ = false |- _ => apply Qltb_false in H
  end.

(** ** Lemmas on the stable sort *)

Section sorting_lemmas.
Context {A : Type} (leb : A -> A -> bool).
Abbreviation le := (fun x y => leb x y = true).

Lemma insert_by_perm x l : insert_by leb x l ≡ₚ x :: l.
Proof.
  induction l as [|y l IH]; simpl; [done|].
  destruct (leb x y); [done|].
  rewrite IH. apply Permutation_swap.
Qed.

Lemma sort_by_perm l : sort_by leb l ≡ₚ l.
Proof.
  induction l as [|x rest IH]; [done|]. cbn [sort_by foldr]. by rewrite insert_by_perm, IH.
Qed.

Lemma elem_of_sort_by x l : x ∈ sort_by leb l <-> x ∈ l.
Proof. by rewrite sort_by_perm. Qed.

Lemma length_sort_by l : length (sort_by leb l) = length l.
Proof. apply Permutation_length, sort_by_perm. Qed.

Lemma NoDup_sort_by l : NoDup l -> NoDup (sort_by leb l).
Proof. by rewrite sort_by_perm. Qed.

Context (leb_total : forall x y, leb x y = true \/ leb y x = true).
Context (leb_trans : forall a b c, leb a b = true -> leb b c = true -> leb a c = true).

Lemma insert_by_sorted x l :
  StronglySorted le l -> StronglySorted le (insert_by leb x l).
Proof.
  induction 1 as [|y l Hs IH Hy]; simpl; [repeat constructor|].
  destruct (leb x y) eqn:E.
  - constructor; [by constructor|]. constructor; [done|].
    eapply Forall_impl; [exact Hy|]. simpl. intros z Hz. by eapply leb_trans.
  - constructor; [done|]. rewrite insert_by_perm. constructor; [|done].
    destruct (leb_total x y); [congruence|done].
Qed.

Lemma sort_by_sorted l : StronglySorted le (sort_by leb l).
Proof. induction l; simpl; [constructor|by apply insert_by_sorted]. Qed.

(** A sorted list is left as it is. *)
Lemma sort_by_id l : StronglySorted le l -> sort_by leb l = l.
Proof.
  induction 1 as [|x l Hs IH Hx]; [done|]. cbn [sort_by foldr]. fold (sort_by leb l). rewrite IH.
  destruct l as [|y l]; [done|]. cbn [insert_by]. apply Forall_cons in Hx as [Hx _]. by rewrite Hx.
Qed.

(** An element nothing has to stand behind goes to the end. *)
Lemma sort_by_snoc l m :
  Forall (fun x => leb x m = true) l -> sort_by leb (l ++ [m]) = sort_by leb l ++ [m].
Proof.
  induction 1 as [|x l Hx _ IH]; [done|]. cbn [sort_by foldr app].
  fold (sort_by leb (l ++ [m])). fold (sort_by leb l). rewrite IH. clear IH.
  generalize (sort_by leb l). intros acc. induction acc as [|y acc IH]; simpl; [by rewrite Hx|].
  destruct (leb x y); [done|]. simpl. by rewrite IH.
Qed.

(** Stability: elements that a property groups and that are all equal for
    the order keep the order they had. *)
Lemma insert_by_filter (p : A -> bool) x l :
  (forall y, p x = true -> p y = true -> leb x y = true) ->
  List.filter p (insert_by leb x l) = List.filter p (x :: l).
Proof.
  intros Hp. induction l as [|y l IH]; [done|].
  cbn [insert_by]. destruct (leb x y) eqn:E; [done|].
  cbn [List.filter] in *. rewrite IH.
  destruct (p x) eqn:Ex, (p y) eqn:Ey; try done.
  by rewrite Hp in E.
Qed.

Lemma sort_by_filter (p : A -> bool) l :
  (forall x y, p x = true -> p y = true -> leb x y = true) ->
  List.filter p (sort_by leb l) = List.filter p l.
Proof.
  intros Hp. induction l as [|x l IH]; [done|].
  cbn [sort_by foldr]. fold (sort_by leb l).
  rewrite insert_by_filter by auto. cbn [List.filter]. by rewrite IH.
Qed.

End sorting_lemmas.

(** ** Lemmas on accumulation without repetition *)

Section extend_new_lemmas.
Context {A : Type} `{EqDecision A}.
Implicit Types l acc : list A.

Lemma extend_new_cons acc x l :
  extend_new acc (x :: l) = extend_new (if decide (x ∈ acc) then acc else acc ++ [x]) l.
Proof. done. Qed.

Lemma elem_of_extend_new acc l x : x ∈ extend_new acc l <-> x ∈ acc \/ x ∈ l.
Proof.
  revert acc. induction l as [|y l IH]; intros acc; [set_solver|].
  rewrite extend_new_cons, IH. case_decide; set_solver.
Qed.

Lemma NoDup_extend_new acc l : NoDup acc -> NoDup (extend_new acc l).
Proof.
  revert acc. induction l as [|y l IH]; intros acc Hacc; [done|].
  rewrite extend_new_cons. apply IH. case_decide; [done|].
  apply NoDup_app. split_and!; [done|set_solver|apply NoDup_singleton].
Qed.

Lemma extend_new_prefix acc l : acc `prefix_of` extend_new acc l.
Proof.
  revert acc. induction l as [|y l IH]; intros acc; [done|].
  rewrite extend_new_cons. case_decide; [apply IH|].
  etrans; [|apply IH]. by apply prefix_app_r.
Qed.

Lemma extend_new_NoDup acc l : NoDup (acc ++ l) -> extend_new acc l = acc ++ l.
Proof.
  revert acc. induction l as [|y l IH]; intros acc Hnd; [by rewrite app_nil_r|].
  rewrite extend_new_cons. rewrite decide_False.
  - rewrite IH; by rewrite <- app_assoc.
  - apply NoDup_app in Hnd as (_ & Hd & _). intros Hy. apply (Hd y Hy). set_solver.
Qed.

End extend_new_lemmas.

#[export] Hint Resolve NoDup_extend_new NoDup_nil_2 : studio.
#[export] Hint Rewrite @elem_of_extend_new : studio.

Lemma Forall_keep {A} (P : A -> Prop) (f : A -> bool) l : Forall P l -> Forall P (List.filter f l).
Proof. induction 1 as [|x l Hx _ IH]; [constructor|]. cbn. destruct (f x); [by constructor|done]. Qed.

Lemma max_or_zero_spec l : 0 <= max_or_zero l /\ Forall (fun x => x <= max_or_zero l) l.
Proof.
  induction l as [|x l [IH0 IH]]; simpl; [done|].
  fold (max_or_zero l). split; [lia|]. constructor; [lia|].
  eapply Forall_impl; [exact IH|]. simpl. lia.
Qed.

Lemma max_or_zero_mem l : l = [] \/ max_or_zero l ∈ l \/ max_or_zero l = 0.
Proof.
  induction l as [|x l IH]; [by left|right]. simpl. fold (max_or_zero l).
  destruct (Z.max_spec x (max_or_zero l)) as [[_ ->]|[_ ->]]; [|set_solver].
  destruct IH as [->|[?|?]]; [by right|left; set_solver|by right].
Qed.

(** ** Frames

    [Preserves R c]: whatever [c] returns or raises, it takes a state to one
    that [R] relates to it; found by instance search. *)

Class Preserves {S E A} (R : S -> S -> Prop) (c : io S E A) : Prop := preserves : forall s, R s (c s).2.

(** Walks through the tests of a computation, then searches. *)
Ltac preserve := repeat case_match; try apply _.

Section preserves.
Context {S : Type} (R : S -> S -> Prop) `{HR : !PreOrder R}.

#[export] Instance preserves_ret {E A} (a : A) : Preserves R (mret a : io S E A).
Proof. intros s. cbn. reflexivity. Qed.
#[export] Instance preserves_throw {E A} (e : E) : Preserves R (throw e : io S E A).
Proof. intros s. cbn. reflexivity. Qed.
#[export] Instance preserves_get {E} : Preserves R (get_st : io S E S).
Proof. intros s. cbn. reflexivity. Qed.
#[export] Instance preserves_bind {E A B} (c : io S E A) (f : A -> io S E B) :
  Preserves R c -> (forall a, Preserves R (f a)) -> Preserves R (c ≫= f).
Proof.
  intros Hc Hf s. specialize (Hc s). unfold mbind, io_bind. destruct (c s) as [[a|e] s']; [|exact Hc].
  etrans; [exact Hc|apply Hf].
Qed.
#[export] Instance preserves_try {E E' A} (c : io S E A) (h : E -> io S E' A) :
  Preserves R c -> (forall e, Preserves R (h e)) -> Preserves R (try_catch c h).
Proof.
  intros Hc Hh s. specialize (Hc s). unfold try_catch. destruct (c s) as [[a|e] s']; [exact Hc|].
  etrans; [exact Hc|apply Hh].
Qed.
#[export] Instance preserves_for_each {E X} (f : X -> io S E unit) l :
  (forall x, Preserves R (f x)) -> Preserves R (for_each f l).
Proof. intros Hf. induction l; cbn [for_each]; apply _. Qed.

Lemma preserves_modify {E} (f : S -> S) : (forall s, R s (f s)) -> Preserves R (modify f : io S E unit).
Proof. intros Hf s. apply Hf. Qed.

Lemma preserves_lift {W E E' A} (get : W -> S) (put : S -> W -> W) (inj : E -> E') (c : io S E A) (R' : W -> W -> Prop) :
  (forall w s, R (get w) s -> R' w (put s w)) -> Preserves R c -> Preserves R' (lift get put inj c).
Proof. intros H Hc w. specialize (Hc (get w)). unfold lift. destruct (c (get w)) as [[a|e] s]; by apply H. Qed.
End preserves.

(** ** Rules for [triple] *)

Section triples.
Context {S E : Type}.
Implicit Types P : S -> Prop.
Implicit Types X : E -> S -> Prop.

Lemma triple_ret {A} (a : A) P (R : A -> S -> Prop) X :
  (forall s, P s -> R a s) -> triple P (mret a) R X.
Proof. intros H s Hs. by apply H. Qed.

Lemma triple_throw {A} (e : E) P (R : A -> S -> Prop) X :
  (forall s, P s -> X e s) -> triple P (throw e) R X.
Proof. intros H s Hs. by apply H. Qed.

Lemma triple_modify (f : S -> S) P (R : unit -> S -> Prop) X :
  (forall s, P s -> R tt (f s)) -> triple P (modify f) R X.
Proof. intros H s Hs. by apply H. Qed.

Lemma triple_bind {A B} (c : io S E A) (f : A -> io S E B) P R R' X :
  triple P c R' X -> (forall a, triple (R' a) (f a) R X) -> triple P (c ≫= f) R X.
Proof.
  intros Hc Hf s Hs. specialize (Hc s Hs).
  unfold mbind, io_bind. destruct (c s) as [[a|e] s']; [by apply Hf|done].
Qed.

(** What does not depend on the state is a premise. *)
Lemma triple_and {A} (Q : Prop) (c : io S E A) P R X :
  (Q -> triple P c R X) -> triple (fun s => Q /\ P s) c R X.
Proof. intros H s [HQ HP]. by apply H. Qed.

Lemma triple_try {E' A} (c : io S E A) (h : E -> io S E' A) P R X (X' : E' -> S -> Prop) :
  triple P c R X -> (forall e, triple (X e) (h e) R X') -> triple P (try_catch c h) R X'.
Proof.
  intros Hc Hh s Hs. specialize (Hc s Hs).
  unfold try_catch. destruct (c s) as [[a|e] s']; [done|by apply Hh].
Qed.

Lemma triple_conseq {A} (c : io S E A) P P' R R' X X' :
  triple P' c R' X' ->
  (forall s, P s -> P' s) -> (forall a s, R' a s -> R a s) -> (forall e s, X' e s -> X e s) ->
  triple P c R X.
Proof.
  intros Hc HP HR HX s Hs. specialize (Hc s (HP s Hs)).
  destruct (c s) as [[a|e] s']; auto.
Qed.

(** The loop rule: [I done s] describes the state once the items of [done]
    have been handled. *)
Lemma triple_for_each_from {Y} (f : Y -> io S E unit) (I : list Y -> S -> Prop) X l pre post :
  (forall pre x post, l = pre ++ x :: post ->
     triple (I pre) (f x) (fun _ => I (pre ++ [x])) X) ->
  l = pre ++ post ->
  triple (I pre) (for_each f post) (fun _ => I l) X.
Proof.
  intros Hf. revert pre. induction post as [|y post IH]; intros pre Hl.
  - rewrite app_nil_r in Hl. subst. by apply triple_ret.
  - eapply triple_bind; [by eapply Hf|]. intros []. apply IH.
    by rewrite Hl, <- app_assoc.
Qed.

Lemma triple_for_each {Y} (f : Y -> io S E unit) (I : list Y -> S -> Prop) X l :
  (forall pre x post, l = pre ++ x :: post ->
     triple (I pre) (f x) (fun _ => I (pre ++ [x])) X) ->
  triple (I []) (for_each f l) (fun _ => I l) X.
Proof. intros Hf. by eapply triple_for_each_from. Qed.

End triples.

(** The first element found splits the list. *)
Lemma find_some_split {A} (p : A -> bool) l x :
  List.find p l = Some x ->
  exists before after, l = before ++ x :: after /\
    Forall (fun y => p y = false) before /\ p x = true.
Proof.
  induction l as [|y l IH]; simpl; [done|].
  destruct (p y) eqn:Ey.
  - intros [= ->]. by exists [], l.
  - intros (before & after & -> & Hb & Hx)%IH.
    exists (y :: before), after. by split_and!; [|constructor|].
Qed.

(** In a sorted list, the first element satisfying a test is the least one. *)
Lemma find_first_sorted {A} (R : A -> A -> Prop) (p : A -> bool) l x y :
  StronglySorted R l -> List.find p l = Some x -> y ∈ l -> p y = true -> y = x \/ R x y.
Proof.
  induction 1 as [|z l Hs IH Hz]; simpl; [done|].
  destruct (p z) eqn:Ez.
  - intros [= ->] [->|Hy]%elem_of_cons _; [by left|right].
    rewrite Forall_forall in Hz. by apply Hz.
  - intros Hf [->|Hy]%elem_of_cons Hp; [congruence|auto].
Qed.

(** ** Order on strings *)

Lemma ascii_compare_trans a b c o :
  Ascii.compare a b = o -> Ascii.compare b c = o -> Ascii.compare a c = o.
Proof.
  unfold Ascii.compare. destruct o.
  - rewrite !N.compare_eq_iff. congruence.
  - rewrite !N.compare_lt_iff. lia.
  - rewrite !N.compare_gt_iff. lia.
Qed.

Lemma string_compare_lt_trans s1 s2 s3 :
  String.compare s1 s2 = Lt -> String.compare s2 s3 = Lt -> String.compare s1 s3 = Lt.
Proof.
  revert s2 s3. induction s1 as [|a s1 IH]; intros [|b s2] [|c s3]; simpl; try done.
  destruct (Ascii.compare a b) eqn:Eab, (Ascii.compare b c) eqn:Ebc; try done.
  - rewrite (ascii_compare_trans a b c Eq Eab Ebc). apply IH.
  - apply Ascii.compare_eq_iff in Eab as ->. by rewrite Ebc.
  - apply Ascii.compare_eq_iff in Ebc as <-. by rewrite Eab.
  - by rewrite (ascii_compare_trans a b c Lt Eab Ebc).
Qed.

Lemma string_leb_trans s1 s2 s3 :
  String.leb s1 s2 = true -> String.leb s2 s3 = true -> String.leb s1 s3 = true.
Proof.
  unfold String.leb.
  destruct (String.compare s1 s2) eqn:E12; [|..]; try done;
    destruct (String.compare s2 s3) eqn:E23; try done; intros _ _.
  - apply String.compare_eq_iff in E12 as ->. by rewrite E23.
  - apply String.compare_eq_iff in E12 as ->. by rewrite E23.
  - apply String.compare_eq_iff in E23 as <-. by rewrite E12.
  - by rewrite (string_compare_lt_trans s1 s2 s3).
Qed.

#[export] Hint Resolve string_leb_trans : studio.

Lemma string_length_app a b : String.length (a +:+ b) = (String.length a + String.length b)%nat.
Proof.
  induction a as [|x a IH]; [done|].
  change (S (String.length (a +:+ b)) = S (String.length a + String.length b)). by rewrite IH.
Qed.

Lemma string_app_cons x a b : String x a +:+ b = String x (a +:+ b).
Proof. done. Qed.
Lemma string_app_nil a : EmptyString +:+ a = a.
Proof. done. Qed.

Lemma string_app_nil_r a : a +:+ EmptyString = a.
Proof. induction a as [|x a IH]; [done|]. by rewrite string_app_cons, IH. Qed.

Lemma string_app_assoc a b c : (a +:+ b) +:+ c = a +:+ (b +:+ c).
Proof.
  induction a as [|x a IH]; [done|].
  change (String x ((a +:+ b) +:+ c) = String x (a +:+ b +:+ c)). by rewrite IH.
Qed.

(** ** The last of a nonempty list *)

Lemma last_cons_default {A} (l : list A) (x d : A) : List.last (x :: l) d = List.last l x.
Proof.
  revert x d. induction l as [|y l IH]; intros x d; [done|].
  change (List.last (y :: l) d = List.last (y :: l) x). by rewrite !IH.
Qed.

Lemma sorted_last_le (l : list Z) (x : Z) : Sorted Z.le (x :: l) -> x <= List.last l x.
Proof.
  revert x. induction l as [|y l IH]; intros x Hs; [done|].
  inversion Hs as [|?? Hs' Hh]; subst. inversion Hh; subst.
  rewrite last_cons_default. specialize (IH y Hs'). lia.
Qed.

(** ** Strings of a fixed length at the end *)

Lemma string_app_inv_length a b c d :
  a +:+ b = c +:+ d -> String.length b = String.length d -> a = c /\ b = d.
Proof.
  revert c. induction a as [|x a IH]; intros [|y c] H Hl.
  - done.
  - exfalso. change (b = String y (c +:+ d)) in H. subst b. simpl in Hl.
    rewrite string_length_app in Hl. lia.
  - exfalso. change (String x (a +:+ b) = d) in H. subst d. simpl in Hl.
    rewrite string_length_app in Hl. lia.
  - change (String x (a +:+ b) = String y (c +:+ d)) in H. injection H as -> H.
    destruct (IH c H Hl) as [-> ->]. done.
Qed.

Lemma string_app_prefix_length a b c d :
  String.length a = String.length c -> a +:+ b = c +:+ d -> a = c.
Proof.
  revert c. induction a as [|x a IH]; intros [|y c] Hl H; try done.
  change (String x (a +:+ b) = String y (c +:+ d)) in H. injection H as -> H.
  simpl in Hl. by rewrite (IH c) by (done || lia).
Qed.

Lemma string_length_take n s : (n <= String.length s)%nat -> String.length (String.substring 0 n s) = n.
Proof.
  revert s. induction n as [|n IH]; intros s Hn; [by destruct s|].
  destruct s as [|a s]; simpl in *; [lia|]. by rewrite IH by lia.
Qed.

(** ** Association lists by key *)

Lemma map_keys_same {A B} `{EqDecision A} (k : A) (v : B) (l : list (A * B)) :
  (map (fun x => if decide (fst x = k) then (k, v) else x) l).*1 = l.*1.
Proof.
  induction l as [|[a b] l IH]; [done|]. cbn [map fmap list_fmap fst]. f_equal; [|exact IH].
  case_decide; simpl; congruence.
Qed.

Lemma filter_keys_sublist {A B} (f : A * B -> bool) (l : list (A * B)) :
  (List.filter f l).*1 `sublist_of` l.*1.
Proof.
  induction l as [|x l IH]; [done|]. cbn [List.filter]. destruct (f x); cbn [fmap list_fmap].
  - by apply sublist_skip.
  - by apply sublist_cons.
Qed.

Lemma NoDup_fst_inj {A B} (l : list (A * B)) (k : A) (a b : B) :
  NoDup l.*1 -> (k, a) ∈ l -> (k, b) ∈ l -> a = b.
Proof.
  intros Hn Ha Hb.
  assert (Hk : forall l : list (A * B), forall k v, (k, v) ∈ l -> k ∈ l.*1).
  { intros l' k' v Hv. apply list_elem_of_fmap. by exists (k', v). }
  induction l as [|[k' v] l IH]; [by apply not_elem_of_nil in Ha|].
  cbn [fmap list_fmap fst] in Hn. apply NoDup_cons in Hn as [Hnot Hn].
  apply elem_of_cons in Ha as [Ea|Ha]; apply elem_of_cons in Hb as [Eb|Hb]; simplify_eq; auto.
  - destruct Hnot. by eapply Hk.
  - destruct Hnot. by eapply Hk.
Qed.

(** ** Filters that keep all or nothing *)

Lemma filter_none {A} (f : A -> bool) l : (forall x, In x l -> f x = false) -> List.filter f l = [].
Proof.
  induction l as [|x l IH]; intros Hf; [done|]. cbn [List.filter].
  rewrite (Hf x) by by left. apply IH. intros y Hy. apply Hf. by right.
Qed.

Lemma filter_all {A} (f : A -> bool) l : (forall x, In x l -> f x = true) -> List.filter f l = l.
Proof.
  induction l as [|x l IH]; intros Hf; [done|]. cbn [List.filter].
  rewrite (Hf x) by by left. f_equal. apply IH. intros y Hy. apply Hf. by right.
Qed.

(** The rows with the key of a row, when keys are unique. *)
Lemma filter_unique {A B} `{EqDecision B} (f : A -> B) l x :
  NoDup (map f l) -> x ∈ l -> List.filter (fun y => bool_decide (f y = f x)) l = [x].
Proof.
  induction l as [|y l IH]; cbn; [by intros _ ?%not_elem_of_nil|].
  intros [Hy Hl]%NoDup_cons [->|Hx]%elem_of_cons.
  - rewrite bool_decide_true by done. f_equal. apply filter_none. intros z Hz.
    apply bool_decide_eq_false. intros E. apply Hy. rewrite <- E. apply list_elem_of_fmap.
    exists z. split; [done|by apply list_elem_of_In].
  - rewrite bool_decide_false; [by apply IH|]. intros E. apply Hy. rewrite E.
    apply list_elem_of_fmap. by exists x.
Qed.

Lemma StronglySorted_weaken {A} (R R' : A -> A -> Prop) l :
  (forall x y, R x y -> R' x y) -> StronglySorted R l -> StronglySorted R' l.
Proof.
  intros HR. induction 1 as [|x l Hs IH Hx]; constructor; [done|].
  eapply Forall_impl; [exact Hx|]. intros y. apply HR.
Qed.

Lemma StronglySorted_snoc {A} (R : A -> A -> Prop) l x :
  StronglySorted R l -> Forall (fun y => R y x) l -> StronglySorted R (l ++ [x]).
Proof.
  induction 1 as [|y l Hs IH Hy]; intros Hx; [by repeat constructor|].
  apply Forall_cons in Hx as [Hyx Hx]. cbn [app]. constructor; [by apply IH|].
  apply Forall_app. split; [done|by constructor].
Qed.
