(* ===== verification/Text.v ===== *)
(** * Reading text: [int(s)], [s.split(sep)] and printed numbers

    What the readers of headers, tokens and cursors share: Python's reading of
    an integer, the pieces between separators, and the laws that make printing
    and reading inverse to each other. *)

From S2P Require Import Prelude.

(** ** Characters *)

Fixpoint all_chars (p : ascii -> bool) (s : string) : bool :=
  match s with
  | EmptyString => true
  | String a s => p a && all_chars p s
  end.

Definition is_digit_char (a : ascii) : bool :=
  let n := Ascii.nat_of_ascii a in ((48 <=? n) && (n <=? 57))%nat.

Definition digit_value (a : ascii) : Z := Z.of_nat (Ascii.nat_of_ascii a) - 48.

Definition is_hex_char (a : ascii) : bool :=
  let n := Ascii.nat_of_ascii a in is_digit_char a || ((97 <=? n) && (n <=? 102))%nat.

Definition isnt (c a : ascii) : bool := negb (bool_decide (a = c)).

(** The longest runs of characters that satisfy [p], what [re.findall] of a
    class with [+] gives; [run] is what was read of the current one. *)
Fixpoint runs_of (p : ascii -> bool) (run s : string) : list string :=
  let emit := if truthy run then [run] else [] in
  match s with
  | EmptyString => emit
  | String a s' => if p a then runs_of p (run +:+ String a EmptyString) s' else emit ++ runs_of p EmptyString s'
  end.

(** ** [int(s)] *)

(** Digits with single underscores between them. *)
Fixpoint read_digits (acc : Z) (after_digit : bool) (s : string) : option Z :=
  match s with
  | EmptyString => if after_digit then Some acc else None
  | String a s =>
      if is_digit_char a then read_digits (10 * acc + digit_value a) true s
      else if bool_decide (a = "_"%char) && after_digit then read_digits acc false s else None
  end.

(** [None]: ValueError. *)
Definition int_of_string (s : string) : option Z :=
  match strip s with
  | String "-" r => Z.opp <$> read_digits 0 false r
  | String "+" r => read_digits 0 false r
  | r => read_digits 0 false r
  end.

(** [s.split(c)] *)
Fixpoint split_on (c : ascii) (s : string) : list string :=
  match s with
  | EmptyString => [EmptyString]
  | String a s' =>
      if decide (a = c) then EmptyString :: split_on c s'
      else match split_on c s' with
           | x :: l => String a x :: l
           | [] => []
           end
  end.

(** ** Separators of any length *)

(** The pieces of [s.split(sep)]; [skip] characters of a separator are still
    to be passed. *)
Fixpoint split_str (sep : string) (skip : nat) (s : string) : list string :=
  match s with
  | EmptyString => [EmptyString]
  | String a s' =>
      match skip with
      | S k => split_str sep k s'
      | O =>
          if String.prefix sep s then EmptyString :: split_str sep (String.length sep - 1) s'
          else match split_str sep 0 s' with
               | x :: l => String a x :: l
               | [] => []
               end
      end
  end.

(** [s.split(sep)]; [None]: ValueError, the separator is empty. *)
Definition py_split (sep s : string) : option (list string) :=
  if truthy sep then Some (split_str sep 0 s) else None.

(** [s.split()]: the runs without whitespace. *)
Fixpoint words_from (word s : string) : list string :=
  let emit := if truthy word then [word] else [] in
  match s with
  | EmptyString => emit
  | String a s' => if is_space a then emit ++ words_from EmptyString s'
                   else words_from (word +:+ String a EmptyString) s'
  end.
Definition words (s : string) : list string := words_from EmptyString s.

(** [s.rsplit(c, 1)[-1]] *)
Definition after_last (c : ascii) (s : string) : string := List.last (split_on c s) s.

(** ** Laws *)

Lemma all_chars_app p a b : all_chars p (a +:+ b) = all_chars p a && all_chars p b.
Proof. induction a as [|x a IH]; [done|]. rewrite string_app_cons. cbn [all_chars]. by rewrite IH, andb_assoc. Qed.

Lemma all_chars_impl (p q : ascii -> bool) s :
  (forall a, p a = true -> q a = true) -> all_chars p s = true -> all_chars q s = true.
Proof.
  intros H. induction s as [|a s IH]; [done|]. cbn. intros [Ha Hs]%andb_true_iff. by rewrite H, IH.
Qed.

Lemma split_on_app c a b : all_chars (isnt c) a = true -> split_on c (a +:+ String c b) = a :: split_on c b.
Proof.
  induction a as [|x a IH].
  - intros _. rewrite string_app_nil. cbn. by rewrite decide_True.
  - rewrite string_app_cons. cbn. intros [Hx Ha]%andb_true_iff. rewrite decide_False by (intros ->; unfold isnt in Hx; by rewrite bool_decide_eq_true_2 in Hx).
    by rewrite IH.
Qed.

Lemma split_on_none c a : all_chars (isnt c) a = true -> split_on c a = [a].
Proof.
  induction a as [|x a IH]; [done|]. cbn. intros [Hx Ha]%andb_true_iff.
  rewrite decide_False by (intros ->; unfold isnt in Hx; by rewrite bool_decide_eq_true_2 in Hx). by rewrite IH.
Qed.

(** The pieces put together again. *)
Fixpoint join_with (c : ascii) (l : list string) : string :=
  match l with
  | [] => EmptyString
  | [x] => x
  | x :: l => x +:+ String c (join_with c l)
  end.

Lemma split_on_join c s : join_with c (split_on c s) = s /\ split_on c s <> [].
Proof.
  induction s as [|a s [IH Hne]]; [done|]. cbn. case_decide as Ha.
  - subst. destruct (split_on c s) as [|x l]; [done|]. cbn in *. by rewrite IH.
  - destruct (split_on c s) as [|x l]; [done|]. split; [|done]. destruct l; cbn in *; by rewrite <- IH.
Qed.

Lemma split_once_app c a b : all_chars (isnt c) a = true -> split_once c (a +:+ String c b) = Some (a, b).
Proof.
  induction a as [|x a IH].
  - intros _. rewrite string_app_nil. cbn. by rewrite decide_True.
  - rewrite string_app_cons. cbn. intros [Hx Ha]%andb_true_iff. rewrite decide_False by (intros ->; unfold isnt in Hx; by rewrite bool_decide_eq_true_2 in Hx).
    by rewrite IH.
Qed.

(** *** Printed numbers *)

Lemma pretty_char_digit n : (n < 10)%N -> is_digit_char (pretty_N_char n) = true /\ digit_value (pretty_N_char n) = Z.of_N n.
Proof.
  intros H. destruct n as [|p]; [done|]. do 4 (destruct p as [p|p|]; try done; try lia).
Qed.

Lemma read_pretty_go n s b : read_digits 0 b (pretty_N_go n s) = read_digits (Z.of_N n) (b || bool_decide (0 < n)%N) s.
Proof.
  revert s. induction (N.lt_wf_0 n) as [n _ IH]. intros s.
  destruct (decide (n = 0)%N) as [->|Hn]; [by rewrite orb_false_r|].
  rewrite pretty_N_go_step by lia. rewrite IH by (apply N.div_lt; lia). cbn [read_digits].
  destruct (pretty_char_digit (n mod 10)) as [-> ->]; [by apply N.mod_lt|].
  rewrite (bool_decide_eq_true_2 (0 < n)%N) by lia. rewrite orb_true_r. f_equal.
  pose proof (N.div_mod n 10). lia.
Qed.

Lemma pretty_N_digits (n : N) : read_digits 0 false (pretty n) = Some (Z.of_N n).
Proof.
  unfold pretty, pretty_N. case_decide as Hn; [by subst|].
  rewrite read_pretty_go, bool_decide_eq_true_2 by lia. done.
Qed.

Lemma pretty_go_chars p n s :
  (forall k, (k < 10)%N -> p (pretty_N_char k) = true) -> all_chars p s = true -> all_chars p (pretty_N_go n s) = true.
Proof.
  intros Hp. revert s. induction (N.lt_wf_0 n) as [n _ IH]. intros s Hs.
  destruct (decide (n = 0)%N) as [->|Hn]; [done|].
  rewrite pretty_N_go_step by lia. apply IH; [apply N.div_lt; lia|]. cbn. rewrite Hs, Hp; [done|by apply N.mod_lt].
Qed.

Lemma pretty_N_chars p (n : N) : (forall a, is_digit_char a = true -> p a = true) -> all_chars p (pretty n) = true.
Proof.
  intros Hp. unfold pretty, pretty_N. case_decide; [cbn; by rewrite Hp|].
  apply pretty_go_chars; [|done]. intros k Hk. apply Hp. by apply pretty_char_digit.
Qed.

(** The characters of a printed integer: digits and the minus sign. *)
Lemma pretty_Z_chars p (z : Z) :
  (forall a, is_digit_char a = true -> p a = true) -> p "-"%char = true -> all_chars p (pretty z) = true.
Proof.
  intros Hp Hm. destruct z as [|q|q]; [cbn; by rewrite Hp|by apply (pretty_N_chars p (Npos q))|].
  change (pretty (Zneg q)) with (String "-" (pretty (Npos q))). cbn [all_chars]. rewrite Hm. by apply pretty_N_chars.
Qed.

Lemma rev_app s acc : String.rev_app s acc = String.rev_app s EmptyString +:+ acc.
Proof.
  revert acc. induction s as [|a s IH]; intros acc; [done|]. cbn. rewrite IH, (IH (String a EmptyString)).
  by rewrite string_app_assoc.
Qed.

Lemma rev_chars p s : all_chars p (String.rev s) = all_chars p s.
Proof.
  unfold String.rev. induction s as [|a s IH]; [done|]. cbn. rewrite rev_app, all_chars_app, IH. cbn.
  rewrite andb_true_r. apply andb_comm.
Qed.

Lemma lstrip_none s : all_chars (fun a => negb (is_space a)) s = true -> lstrip s = s.
Proof. destruct s as [|a s]; [done|]. cbn. by destruct (is_space a). Qed.

Lemma rev_rev s : String.rev (String.rev s) = s.
Proof.
  unfold String.rev. assert (forall s acc, String.rev_app (String.rev_app s acc) EmptyString = String.rev_app acc EmptyString +:+ s) as H.
  { clear s. induction s as [|a s IH]; intros acc; cbn [String.rev_app]; [by rewrite string_app_nil_r|].
    rewrite IH. cbn [String.rev_app]. rewrite (rev_app acc (String a EmptyString)). by rewrite string_app_assoc. }
  rewrite H. done.
Qed.

Lemma strip_none s : all_chars (fun a => negb (is_space a)) s = true -> strip s = s.
Proof. intros H. unfold strip. rewrite (lstrip_none s) by done. rewrite lstrip_none, rev_rev; [done|]. by rewrite rev_chars. Qed.

Lemma digit_not_space a : is_digit_char a = true -> negb (is_space a) = true.
Proof.
  unfold is_digit_char, is_space. cbn zeta. intros [H%Nat.leb_le _]%andb_true_iff.
  apply negb_true_iff, orb_false_iff; split; apply andb_false_iff; right; apply Nat.leb_gt; lia.
Qed.

(** Reading a printed integer gives it back. *)
Lemma int_of_pretty (z : Z) : int_of_string (pretty z) = Some z.
Proof.
  unfold int_of_string. rewrite strip_none by (apply pretty_Z_chars; [exact digit_not_space|done]).
  destruct z as [|p|p]; [done| |].
  - change (pretty (Zpos p)) with (pretty (Npos p)). pose proof (pretty_N_digits (Npos p)) as H.
    pose proof (pretty_N_chars is_digit_char (Npos p) (fun _ h => h)) as Hc.
    destruct (pretty (Npos p)) as [|a s]; [done|]. cbn in Hc. apply andb_true_iff in Hc as [Ha _].
    by each_char a.
  - change (pretty (Zneg p)) with (String "-" (pretty (Npos p))). cbn [int_of_string].
    by rewrite (pretty_N_digits (Npos p)).
Qed.
