(* ===== verification/Json.v ===== *)
(** * JSON values and [json.dumps]

    The dictionaries the program passes around (provider messages, tool
    schemas, structured parts) are JSON values; [dumps] is
    [json.dumps(v, sort_keys=True, separators=(",", ":"))] of the language's
    standard library, on ASCII text and integral numbers. *)

From S2P Require Import Prelude.

Inductive json :=
| JNull
| JBool (b : bool)
| JNum (z : Z)
| JStr (s : string)
| JList (l : list json)
| JObj (fields : list (string * json)).

Definition quote_char : ascii := Ascii.ascii_of_nat 34.
Definition backslash_char : ascii := Ascii.ascii_of_nat 92.

Definition hex_digit (n : nat) : ascii :=
  Ascii.ascii_of_nat (if (n <? 10)%nat then 48 + n else 87 + n)%nat.

(** The escape of one character inside a JSON string. *)
Definition escape_char (a : ascii) : string :=
  let n := Ascii.nat_of_ascii a in
  let esc c := String backslash_char (String c EmptyString) in
  if (n =? 34)%nat then esc quote_char
  else if (n =? 92)%nat then esc backslash_char
  else if (n =? 10)%nat then esc "n"%char
  else if (n =? 13)%nat then esc "r"%char
  else if (n =? 9)%nat then esc "t"%char
  else if (n =? 8)%nat then esc "b"%char
  else if (n =? 12)%nat then esc "f"%char
  else if (n <? 32)%nat || (126 <? n)%nat then
    String backslash_char ("u00" +:+
      String (hex_digit (n / 16)) (String (hex_digit (n mod 16)) EmptyString))
  else String a EmptyString.

Fixpoint escape (s : string) : string :=
  match s with
  | EmptyString => EmptyString
  | String a s' => escape_char a +:+ escape s'
  end.

Definition quoted (s : string) : string :=
  String quote_char (escape s +:+ String quote_char EmptyString).

Fixpoint join (sep : string) (l : list string) : string :=
  match l with
  | [] => EmptyString
  | [x] => x
  | x :: l' => x +:+ sep +:+ join sep l'
  end.

Definition field_leb {A} (f1 f2 : string * A) : bool := String.leb f1.1 f2.1.

Fixpoint dumps (v : json) : string :=
  match v with
  | JNull => "null"
  | JBool true => "true"
  | JBool false => "false"
  | JNum z => pretty z
  | JStr s => quoted s
  | JList l => "[" +:+ join "," (map dumps l) +:+ "]"
  | JObj fields =>
      let printed := map (fun '(k, x) => (k, quoted k +:+ ":" +:+ dumps x)) fields in
      "{" +:+ join "," (sort_by field_leb printed).*2 +:+ "}"
  end.

(** Truthiness of a JSON value. *)
Definition json_truthy (v : json) : bool :=
  match v with
  | JNull => false
  | JBool b => b
  | JNum z => negb (z =? 0)
  | JStr s => truthy s
  | JList l => match l with [] => false | _ => true end
  | JObj l => match l with [] => false | _ => true end
  end.

(** [d.get(k)] *)
Fixpoint field (k : string) (items : list (string * json)) : option json :=
  match items with
  | [] => None
  | (key, v) :: rest => if decide (k = key) then Some v else field k rest
  end.

Definition get_field (k : string) (v : json) : option json :=
  match v with JObj l => field k l | _ => None end.

(** [d.get(k)] on a dict of any values. *)
Fixpoint dict_get {A} (k : string) (items : list (string * A)) : option A :=
  match items with
  | [] => None
  | (key, v) :: rest => if decide (key = k) then Some v else dict_get k rest
  end.

(** [d.pop(k, None)] *)
Definition dict_pop {A} (k : string) (l : list (string * A)) : list (string * A) :=
  List.filter (fun p => negb (bool_decide (p.1 = k))) l.

(** [d[k] = v] on a dict. *)
Fixpoint dict_set {A} (k : string) (v : A) (items : list (string * A)) : list (string * A) :=
  match items with
  | [] => [(k, v)]
  | (key, old) :: rest => if decide (key = k) then (k, v) :: rest else (key, old) :: dict_set k v rest
  end.

(** ** Laws of dicts *)

Lemma dict_get_set {A} k (v : A) k' l : dict_get k' (dict_set k v l) = if decide (k' = k) then Some v else dict_get k' l.
Proof.
  induction l as [|[k2 v2] l IH]; cbn; [by repeat case_decide|].
  destruct (decide (k2 = k)); cbn; repeat case_decide; congruence.
Qed.

Lemma dict_get_pop {A} k k' (l : list (string * A)) :
  dict_get k' (dict_pop k l) = if decide (k' = k) then None else dict_get k' l.
Proof.
  unfold dict_pop. induction l as [|[k2 v2] l IH]; cbn; [by case_decide|].
  destruct (bool_decide_reflect (k2 = k)); cbn; repeat case_decide; congruence.
Qed.

Lemma Forall_dict_set {A} (P : string * A -> Prop) k v l : P (k, v) -> Forall P l -> Forall P (dict_set k v l).
Proof.
  intros Hkv. induction 1 as [|[k' v'] l Hx Hl IH]; cbn; [by repeat constructor|]. case_decide; by constructor.
Qed.

Lemma dict_keys_set {A} k (v : A) l :
  map fst (dict_set k v l) = if decide (k ∈ map fst l) then map fst l else map fst l ++ [k].
Proof.
  induction l as [|[k' v'] l IH]; cbn; [done|]. destruct (decide (k' = k)) as [->|Hne]; cbn.
  - rewrite decide_True; [done|apply list_elem_of_here].
  - rewrite IH. case_decide as H1; case_decide as H2; try done; set_solver.
Qed.

Lemma dict_keys_pop {A} k (l : list (string * A)) :
  map fst (dict_pop k l) = List.filter (fun k' => negb (bool_decide (k' = k))) (map fst l).
Proof. unfold dict_pop. induction l as [|[k' v'] l IH]; cbn; [done|]. destruct (negb _); cbn; by rewrite IH. Qed.

Lemma dict_get_elem {A} k (v : A) l : dict_get k l = Some v -> (k, v) ∈ l.
Proof.
  induction l as [|[k' v'] l IH]; cbn; [done|]. case_decide as H; [subst; intros [= ->]; apply list_elem_of_here|].
  intros Hd. apply list_elem_of_further. auto.
Qed.

Lemma dict_elem_get {A} k (v : A) l : NoDup (map fst l) -> (k, v) ∈ l -> dict_get k l = Some v.
Proof.
  induction l as [|[k' v'] l IH]; cbn; [by intros _ ?%elem_of_nil|].
  intros [Hk Hn]%NoDup_cons [[= -> ->]|Hin]%elem_of_cons; [by rewrite decide_True|].
  rewrite decide_False; [auto|]. intros ->. apply Hk. by apply (list_elem_of_fmap_2 fst _ (k, v)).
Qed.

Lemma dict_get_keys {A} k (l : list (string * A)) : is_Some (dict_get k l) <-> k ∈ map fst l.
Proof.
  induction l as [|[k' v'] l IH]; cbn; [split; [by intros [? ?]|by intros ?%elem_of_nil]|].
  rewrite elem_of_cons. case_decide as H; [subst; split; [by left|by eexists]|].
  rewrite IH. split; [by right|]. by intros [->|?].
Qed.

Lemma dict_keys_NoDup {A} k (v : A) l : NoDup (map fst l) -> NoDup (map fst (dict_set k v l)).
Proof.
  intros H. rewrite dict_keys_set. case_decide; [done|]. apply NoDup_app. split_and!; [done| |apply NoDup_singleton].
  set_solver.
Qed.
