(* ===== verification/Regex.v ===== *)
(** * Regular expressions of Python's [re]

    The guardrails compile patterns written as text and call [search].  This
    is the part of the language's standard library they use: [re_compile]
    reads the syntax (alternation, groups, classes, the escapes of white space
    and digits, [?], [*], [+] and a leading [(?i)]; anything else is refused),
    [search] is the leftmost match by backtracking, greedy and first
    alternative first.  [search_spec] relates it to the language of the
    expression. *)

From S2P Require Import Prelude.

Inductive regex :=
| Eps
| Cls (f : ascii -> bool)
| Cat (r1 r2 : regex)
| Alt (r1 r2 : regex)
| Star (r : regex).

(** ** The syntax *)

Section compile.
(** The flag [IGNORECASE]. *)
Context (ignore_case : bool).

Definition char_class (c : ascii) : ascii -> bool := fun a =>
  if ignore_case then bool_decide (lower_char a = lower_char c) else bool_decide (a = c).

Definition newline : ascii := ascii_of_nat 10.
Definition any_char (a : ascii) : bool := negb (bool_decide (a = newline)).
Definition is_digit (a : ascii) : bool :=
  let n := nat_of_ascii a in ((48 <=? n) && (n <=? 57))%nat.
Definition is_alnum (a : ascii) : bool :=
  let n := nat_of_ascii (lower_char a) in is_digit a || ((97 <=? n) && (n <=? 122))%nat.

(** A backslash and a letter. *)
Definition escape_class (c : ascii) : option (ascii -> bool) :=
  match c with
  | "s"%char => Some is_space
  | "S"%char => Some (fun a => negb (is_space a))
  | "d"%char => Some is_digit
  | "D"%char => Some (fun a => negb (is_digit a))
  | _ => if is_alnum c then None else Some (char_class c)
  end.

Definition special (c : ascii) : bool :=
  match c with
  | "."%char | "?"%char | "*"%char | "+"%char | "("%char | ")"%char | "["%char | "]"%char
  | "{"%char | "}"%char | "|"%char | "^"%char | "$"%char | "\"%char => true
  | _ => false
  end.

(** [s] without its first character, if that is [c]. *)
Definition eat (c : ascii) (s : string) : option string :=
  match s with
  | String a s' => if decide (a = c) then Some s' else None
  | EmptyString => None
  end.

(** The first character of [s] is among these. *)
Definition starts (chars : list ascii) (s : string) : bool :=
  match s with String a _ => bool_decide (a ∈ chars) | EmptyString => false end.

(** The inside of a class, up to its bracket. *)
Fixpoint parse_class (s : string) : option ((ascii -> bool) * string) :=
  match s with
  | String c s' =>
      if bool_decide (c = "]"%char) then Some (fun _ => false, s')
      else if special c || bool_decide (c = "-"%char) then None
      else '(f, s'') ← parse_class s'; Some (fun a => char_class c a || f a, s'')
  | EmptyString => None
  end.

(** The quantifier that may follow an item; a second one is refused. *)
Definition parse_quantifier (r : regex) (s : string) : option (regex * string) :=
  let '(r, s') := match eat "?" s, eat "*" s, eat "+" s with
                  | Some s', _, _ => (Alt r Eps, s')
                  | _, Some s', _ => (Star r, s')
                  | _, _, Some s' => (Cat r (Star r), s')
                  | _, _, _ => (r, s)
                  end in
  if starts ["?"; "*"; "+"; "{"]%char s' then None else Some (r, s').

(** One character outside groups and classes. *)
Definition parse_char (s : string) : option (regex * string) :=
  match s with
  | EmptyString => None
  | String "\"%char (String c s) => f ← escape_class c; Some (Cls f, s)
  | String "."%char s => Some (Cls any_char, s)
  | String c s => if special c then None else Some (Cls (char_class c), s)
  end.

Fixpoint parse_alt (fuel : nat) (s : string) : option (regex * string) :=
  match fuel with
  | O => None
  | S fuel =>
      '(r, s) ← parse_cat fuel s;
      match eat "|" s with
      | Some s => '(r', s) ← parse_alt fuel s; Some (Alt r r', s)
      | None => Some (r, s)
      end
  end
with parse_cat (fuel : nat) (s : string) : option (regex * string) :=
  match fuel with
  | O => None
  | S fuel =>
      if bool_decide (s = EmptyString) || starts ["|"; ")"]%char s then Some (Eps, s)
      else
        '(r, s) ← parse_item fuel s;
        '(r, s) ← parse_quantifier r s;
        '(r', s) ← parse_cat fuel s;
        Some (Cat r r', s)
  end
with parse_item (fuel : nat) (s : string) : option (regex * string) :=
  match fuel with
  | O => None
  | S fuel =>
      match eat "(" s, eat "[" s with
      | Some s, _ =>
          if starts ["?"]%char s then None
          else
            '(r, s) ← parse_alt fuel s;
            s ← eat ")" s;
            Some (r, s)
      | _, Some s => '(f, s) ← parse_class s; Some (Cls f, s)
      | _, _ => parse_char s
      end
  end.

(** A nesting level spends three units at most between two characters
    ([parse_enough]). *)
Definition parse_fuel (s : string) : nat := 3 * String.length s + 3.

Definition parse_regex (s : string) : option regex :=
  '(r, s) ← parse_alt (parse_fuel s) s;
  match s with EmptyString => Some r | _ => None end.
End compile.

(** [re.compile] *)
Definition re_compile (s : string) : option regex :=
  match s with
  | String "("%char (String "?"%char (String "i"%char (String ")"%char s))) => parse_regex true s
  | _ => parse_regex false s
  end.

(** ** Matching *)

(** A repetition: one more [step] while it consumes, else the rest [k]. *)
Fixpoint repeat_from (step : string -> (string -> option string) -> option string)
    (k : string -> option string) (n : nat) (s : string) : option string :=
  match n with
  | O => k s
  | S n =>
      match step s (fun s' =>
              if (String.length s' <? String.length s)%nat then repeat_from step k n s' else None) with
      | Some s' => Some s'
      | None => k s
      end
  end.

(** What is left after a match at the start of the text, by backtracking: [k]
    is the rest of the expression. *)
Fixpoint backtrack (r : regex) (s : string) (k : string -> option string) : option string :=
  match r with
  | Eps => k s
  | Cls f => match s with String a s' => if f a then k s' else None | EmptyString => None end
  | Cat r1 r2 => backtrack r1 s (fun s' => backtrack r2 s' k)
  | Alt r1 r2 => match backtrack r1 s k with Some s' => Some s' | None => backtrack r2 s k end
  | Star r => repeat_from (backtrack r) k (String.length s) s
  end.

Definition match_here (r : regex) (s : string) : option string := backtrack r s Some.

(** [search] from position [pos] on: the span of the first match. *)
Fixpoint search_from (r : regex) (pos : Z) (s : string) : option (Z * Z) :=
  match match_here r s with
  | Some rest => Some (pos, pos + Z.of_nat (String.length s - String.length rest))
  | None => match s with String _ s' => search_from r (pos + 1) s' | EmptyString => None end
  end.

Definition search (r : regex) (s : string) : option (Z * Z) := search_from r 0 s.

(** [match.group(0)] *)
Definition slice (s : string) (span : Z * Z) : string :=
  String.substring (Z.to_nat span.1) (Z.to_nat (span.2 - span.1)) s.

(** ** The language of an expression *)

Inductive lang : regex -> string -> Prop :=
| lang_eps : lang Eps EmptyString
| lang_cls f a : f a = true -> lang (Cls f) (String a EmptyString)
| lang_cat r1 r2 s1 s2 : lang r1 s1 -> lang r2 s2 -> lang (Cat r1 r2) (s1 +:+ s2)
| lang_alt_l r1 r2 s : lang r1 s -> lang (Alt r1 r2) s
| lang_alt_r r1 r2 s : lang r2 s -> lang (Alt r1 r2) s
| lang_star_nil r : lang (Star r) EmptyString
| lang_star_cons r s1 s2 : lang r s1 -> lang (Star r) s2 -> lang (Star r) (s1 +:+ s2).

#[export] Hint Constructors lang : studio.

(** ** Lemmas *)

Lemma backtrack_sound r s k x :
  backtrack r s k = Some x -> exists m rest, s = m +:+ rest /\ lang r m /\ k rest = Some x.
Proof.
  revert s k x. induction r as [|f|r1 IH1 r2 IH2|r1 IH1 r2 IH2|r IH]; intros s k x; cbn [backtrack].
  - intros H. exists EmptyString, s. eauto with studio.
  - destruct s as [|a s]; [done|]. destruct (f a) eqn:Ef; [|done]. intros H.
    exists (String a EmptyString), s. eauto with studio.
  - intros (m1 & rest & -> & H1 & (m2 & rest' & -> & H2 & Hk)%IH2)%IH1.
    exists (m1 +:+ m2), rest'. rewrite string_app_assoc. eauto with studio.
  - destruct (backtrack r1 s k) as [y|] eqn:E1.
    + intros [= ->]. apply IH1 in E1 as (m & rest & -> & H1 & Hk). eauto 6 with studio.
    + intros (m & rest & -> & H2 & Hk)%IH2. eauto 6 with studio.
  - generalize (String.length s) as n. intros n. revert s. induction n as [|n IHn]; intros s; cbn [repeat_from].
    { intros H. exists EmptyString, s. eauto with studio. }
    destruct (backtrack r s _) as [y|] eqn:Er.
    + intros [= ->]. apply IH in Er as (m1 & rest & -> & H1 & Hk).
      destruct (_ <? _)%nat; [|done]. apply IHn in Hk as (m2 & rest' & -> & H2 & Hk).
      exists (m1 +:+ m2), rest'. rewrite string_app_assoc. eauto with studio.
    + intros H. exists EmptyString, s. eauto with studio.
Qed.

Lemma repeat_complete r k m rest n :
  (forall s m k, lang r m -> is_Some (k s) -> is_Some (backtrack r (m +:+ s) k)) ->
  lang (Star r) m -> is_Some (k rest) -> (String.length (m +:+ rest) <= n)%nat ->
  is_Some (repeat_from (backtrack r) k n (m +:+ rest)).
Proof.
  intros Hr Hm Hk. revert n. remember (Star r) as e eqn:He.
  induction Hm as [| | | | |r'|r' s1 s2 H1 _ H2 IH]; simplify_eq; intros n Hn.
  - destruct n as [|n]; cbn [repeat_from]; [done|].
    change (EmptyString +:+ rest) with rest. by destruct (backtrack _ _ _).
  - destruct s1 as [|a s1]; [by apply IH|]. specialize (IH eq_refl).
    rewrite string_app_assoc in *. rewrite string_length_app in Hn.
    destruct n as [|n]; cbn [String.length] in Hn; [lia|]. cbn [repeat_from].
    match goal with |- context [backtrack r ?t ?c] => assert (is_Some (backtrack r t c)) as [y ->] end; [|done].
    apply Hr; [done|]. rewrite !string_length_app. cbn [String.length].
    rewrite (proj2 (Nat.ltb_lt _ _)) by lia. apply IH. rewrite string_length_app in *. lia.
Qed.

Lemma backtrack_complete r m s k :
  lang r m -> is_Some (k s) -> is_Some (backtrack r (m +:+ s) k).
Proof.
  revert s m k. induction r as [|f|r1 IH1 r2 IH2|r1 IH1 r2 IH2|r IH]; intros s m k Hm Hk; cbn [backtrack].
  - by inversion Hm.
  - inversion Hm as [|? a Ha| | | | |]; simplify_eq/=. by rewrite Ha.
  - inversion Hm; subst. rewrite string_app_assoc. auto.
  - destruct (backtrack r1 (m +:+ s) k) eqn:E1; [done|]. inversion Hm; subst; [|by apply IH2].
    destruct (IH1 s m k) as [y Hy]; [done..|]. congruence.
  - by apply repeat_complete.
Qed.

(** *** The parser *)

Section parser.
Context (ci : bool).

Lemma eat_shorter c s s' : eat c s = Some s' -> (String.length s' < String.length s)%nat.
Proof. destruct s; cbn; [done|]. case_decide; [|done]. intros [= ->]. lia. Qed.

Lemma parse_class_shorter s f s' :
  parse_class ci s = Some (f, s') -> (String.length s' < String.length s)%nat.
Proof.
  revert f s'. induction s as [|c s IH]; intros f s' H; cbn [parse_class] in H; [done|].
  case_bool_decide; [by simplify_eq/=; lia|]. case_match; [done|].
  destruct (parse_class ci s) as [[g s'']|] eqn:E; [|done]. simplify_eq/=.
  specialize (IH g s' eq_refl). lia.
Qed.

Lemma parse_quantifier_shorter r s r' s' :
  parse_quantifier r s = Some (r', s') -> (String.length s' <= String.length s)%nat.
Proof.
  unfold parse_quantifier. intros H.
  destruct (eat "?" s) eqn:E1; [|destruct (eat "*" s) eqn:E2; [|destruct (eat "+" s) eqn:E3]];
    (destruct (starts _ _); [done|]); simplify_eq; try done;
    match goal with E : eat _ _ = Some _ |- _ => apply eat_shorter in E end; lia.
Qed.

Lemma parse_char_shorter s r s' :
  parse_char ci s = Some (r, s') -> (String.length s' < String.length s)%nat.
Proof.
  destruct s as [|c s]; [done|]. unfold parse_char. intros H.
  repeat (case_match; simplify_eq/=; try lia); destruct (escape_class _ _); simplify_eq/=; lia.
Qed.

(** Reading an option step by step. *)
Ltac step_option H :=
  match type of H with
  | (mbind _ ?o) = Some _ => let x := fresh "x" in let E := fresh "E" in
      destruct o as [x|] eqn:E; [|done]; cbn in H; try destruct x as [? ?]
  end.

Lemma parse_shorter fuel :
  (forall s r s', parse_alt ci fuel s = Some (r, s') -> (String.length s' <= String.length s)%nat) /\
  (forall s r s', parse_cat ci fuel s = Some (r, s') -> (String.length s' <= String.length s)%nat) /\
  (forall s r s', parse_item ci fuel s = Some (r, s') -> (String.length s' < String.length s)%nat).
Proof.
  induction fuel as [|fuel (IHa & IHc & IHi)]; [done|]. split_and!; intros s r s' H.
  - cbn [parse_alt] in H. step_option H. apply IHc in E. destruct (eat "|" s0) eqn:E1; [|by simplify_eq/=].
    apply eat_shorter in E1. step_option H. apply IHa in E0. simplify_eq/=. lia.
  - cbn [parse_cat] in H. destruct (_ || _); [by simplify_eq/=|]. step_option H. apply IHi in E.
    step_option H. apply parse_quantifier_shorter in E0. step_option H. apply IHc in E1. simplify_eq/=. lia.
  - cbn [parse_item] in H. destruct (eat "(" s) eqn:E1; [|destruct (eat "[" s) eqn:E2].
    + apply eat_shorter in E1. destruct (starts _ _); [done|]. step_option H. apply IHa in E. step_option H.
      apply eat_shorter in E0. simplify_eq/=. lia.
    + apply eat_shorter in E2. step_option H. apply parse_class_shorter in E. simplify_eq/=. lia.
    + by apply parse_char_shorter in H.
Qed.

(** What is parsed does not depend on the fuel, if there is enough. *)
Lemma parse_enough f1 :
  (forall s f2, 3 * String.length s + 3 <= f1 -> 3 * String.length s + 3 <= f2 ->
     parse_alt ci f1 s = parse_alt ci f2 s)%nat /\
  (forall s f2, 3 * String.length s + 2 <= f1 -> 3 * String.length s + 2 <= f2 ->
     parse_cat ci f1 s = parse_cat ci f2 s)%nat /\
  (forall s f2, 3 * String.length s + 1 <= f1 -> 3 * String.length s + 1 <= f2 ->
     parse_item ci f1 s = parse_item ci f2 s)%nat.
Proof.
  induction f1 as [|f1 (IHa & IHc & IHi)]; [split_and!; intros; lia|].
  split_and!; intros s [|f2] H1 H2; try lia; cbn [parse_alt parse_cat parse_item].
  - rewrite (IHc s f2) by lia. destruct (parse_cat ci f2 s) as [[r s1]|] eqn:E; [|done]. cbn.
    apply parse_shorter in E. destruct (eat "|" s1) eqn:E1; [|done]. apply eat_shorter in E1.
    by rewrite (IHa s0 f2) by lia.
  - destruct (_ || _); [done|].
    rewrite (IHi s f2) by lia. destruct (parse_item ci f2 s) as [[r s1]|] eqn:E; [|done]. cbn.
    apply parse_shorter in E. destruct (parse_quantifier r s1) as [[r2 s2]|] eqn:E1; [|done]. cbn.
    apply parse_quantifier_shorter in E1. by rewrite (IHc s2 f2) by lia.
  - destruct (eat "(" s) eqn:E1; [|done]. apply eat_shorter in E1. destruct (starts _ _); [done|].
    by rewrite (IHa s0 f2) by lia.
Qed.

End parser.

(** A match here is a prefix in the language, and there is one if any prefix is. *)
Lemma match_here_some r s rest :
  match_here r s = Some rest -> exists m, s = m +:+ rest /\ lang r m.
Proof. intros (m & rest' & -> & Hm & [= ->])%backtrack_sound. eauto. Qed.

Lemma match_here_none r m rest : match_here r (m +:+ rest) = None -> ~ lang r m.
Proof. intros H Hm. destruct (backtrack_complete r m rest Some Hm) as [x Hx]; [done|]. unfold match_here in H. congruence. Qed.

(** The first match at the start of a text is the leftmost of all. *)
Lemma match_here_first r p s m rest :
  s = m +:+ rest -> lang r m ->
  exists pre m post, s = pre +:+ m +:+ post /\ lang r m /\
    p = p + Z.of_nat (String.length pre) /\
    p + Z.of_nat (String.length s - String.length rest) = p + Z.of_nat (String.length m) /\
    forall pre' m' post', s = pre' +:+ m' +:+ post' -> lang r m' ->
      (String.length pre <= String.length pre')%nat.
Proof.
  intros Hs Hm. exists EmptyString, m, rest. assert (String.length s = (String.length m + String.length rest)%nat).
  { by rewrite Hs, string_length_app. }
  cbn [String.length]. split_and!; [done|done|lia|lia|]. intros; lia.
Qed.

Lemma search_from_spec r p s :
  match search_from r p s with
  | Some (i, j) =>
      exists pre m post, s = pre +:+ m +:+ post /\ lang r m /\
        i = p + Z.of_nat (String.length pre) /\ j = i + Z.of_nat (String.length m) /\
        forall pre' m' post', s = pre' +:+ m' +:+ post' -> lang r m' ->
          (String.length pre <= String.length pre')%nat
  | None => forall pre m post, s = pre +:+ m +:+ post -> ~ lang r m
  end.
Proof.
  revert p. induction s as [|a s IH]; intros p; cbn [search_from].
  - destruct (match_here r EmptyString) as [rest|] eqn:E.
    + apply match_here_some in E as (m & Hs & Hm). by eapply match_here_first.
    + intros [|? ?] m post Hs; [|done]. apply match_here_none with post. rewrite <- E. by f_equal.
  - destruct (match_here r (String a s)) as [rest|] eqn:E.
    + apply match_here_some in E as (m & Hs & Hm). by eapply match_here_first.
    + specialize (IH (p + 1)). destruct (search_from r (p + 1) s) as [[i j]|].
      * destruct IH as (pre & m & post & -> & Hm & -> & -> & Hleft).
        exists (String a pre), m, post. cbn [String.length]. split_and!; [done|done|lia|lia|].
        intros [|b pre'] m' post' Hs Hm'.
        { exfalso. revert Hm'. apply match_here_none with post'. rewrite <- E. by f_equal. }
        apply le_n_S. apply Hleft with m' post'; [by injection Hs|done].
      * intros [|b pre] m post Hs; [apply match_here_none with post; rewrite <- E; by f_equal|].
        apply (IH pre m post). by injection Hs.
Qed.

(** ** Properties *)

(** [search] finds a match exactly when some part of the text is in the
    language of the expression; the span it returns is such a part, and none
    starts further left. *)
Theorem search_spec r s :
  match search r s with
  | Some (i, j) =>
      exists pre m post, s = pre +:+ m +:+ post /\ lang r m /\
        i = Z.of_nat (String.length pre) /\ j = i + Z.of_nat (String.length m) /\
        forall pre' m' post', s = pre' +:+ m' +:+ post' -> lang r m' ->
          (String.length pre <= String.length pre')%nat
  | None => forall pre m post, s = pre +:+ m +:+ post -> ~ lang r m
  end.
Proof. exact (search_from_spec r 0 s). Qed.

(** Some part of the text is in the language. *)
Definition occurs (r : regex) (s : string) : Prop :=
  exists pre m post, s = pre +:+ m +:+ post /\ lang r m.

Lemma search_occurs r s : is_Some (search r s) <-> occurs r s.
Proof.
  pose proof (search_from_spec r 0 s) as H. unfold search. destruct (search_from r 0 s) as [[i j]|].
  - destruct H as (pre & m & post & -> & Hm & _). split; [|eauto]. intros _. by exists pre, m, post.
  - split; [by intros []|]. intros (pre & m & post & -> & Hm). destruct (H pre m post eq_refl Hm).
Qed.

Lemma search_absent r s : search r s = None <-> ~ occurs r s.
Proof. rewrite <- search_occurs, eq_None_not_Some. done. Qed.
