(* ===== verification/Catalog.v ===== *)
(** * Model catalog (backend/app/gateway/catalog.py)

    The registry of model facts: context windows and price cards, keyed by the
    normalised [provider:model] pair.  Prices are exact rationals. *)

From S2P Require Import Prelude.

Definition DEFAULT_CONTEXT_WINDOW : Z := 128000.

Definition model_key (provider model : string) : string :=
  lower (strip provider) +:+ ":" +:+ lower (strip model).

Record ModelSpec := {
  provider : string;
  model : string;
  context_window : Z;
  input_price_per_1k : Q;
  output_price_per_1k : Q;
}.

#[export] Instance ModelSpec_eq_dec : EqDecision ModelSpec.
Proof.
  intros [p1 m1 c1 i1 o1] [p2 m2 c2 i2 o2].
  refine (cast_if (decide ((p1, m1, c1) = (p2, m2, c2) /\
    ((Qnum i1, Qden i1), (Qnum o1, Qden o1)) = ((Qnum i2, Qden i2), (Qnum o2, Qden o2)))));
    destruct i1, o1, i2, o2; simpl in *; abstract naive_solver.
Defined.

(** [ModelSpec.key] *)
Definition key (s : ModelSpec) : string := model_key (provider s) (model s).

Definition _SEED_SPECS : list ModelSpec := [
  Build_ModelSpec "openai" "gpt-4o" 128000 2.50 10.00;
  Build_ModelSpec "openai" "gpt-4o-mini" 128000 0.15 0.60;
  Build_ModelSpec "openai" "gpt-4.1" 1000000 2.00 8.00;
  Build_ModelSpec "openai" "gpt-4-turbo" 128000 10.00 30.00;
  Build_ModelSpec "openai" "gpt-4" 8192 30.00 60.00;
  Build_ModelSpec "openai" "o1" 200000 15.00 60.00;
  Build_ModelSpec "openai" "o1-mini" 128000 1.10 4.40;
  Build_ModelSpec "openai" "o3" 200000 2.00 8.00;
  Build_ModelSpec "openai" "o3-mini" 200000 1.10 4.40;
  Build_ModelSpec "openai" "o4-mini" 200000 1.10 4.40;
  Build_ModelSpec "anthropic" "claude-3-5-sonnet" 200000 3.00 15.00;
  Build_ModelSpec "anthropic" "claude-3-5-haiku" 200000 0.80 4.00;
  Build_ModelSpec "anthropic" "claude-3-7-sonnet" 200000 3.00 15.00;
  Build_ModelSpec "anthropic" "claude-3-haiku" 200000 0.25 1.25;
  Build_ModelSpec "anthropic" "claude-sonnet-4" 200000 3.00 15.00;
  Build_ModelSpec "anthropic" "claude-sonnet-4.5" 200000 3.00 15.00;
  Build_ModelSpec "anthropic" "claude-sonnet-4.6" 200000 3.00 15.00;
  Build_ModelSpec "anthropic" "claude-opus-4" 200000 15.00 75.00;
  Build_ModelSpec "anthropic" "claude-opus-4.5" 200000 5.00 25.00;
  Build_ModelSpec "anthropic" "claude-haiku-4.5" 200000 1.00 5.00;
  Build_ModelSpec "google" "gemini-1.5-pro" 1000000 1.25 5.00;
  Build_ModelSpec "google" "gemini-1.5-flash" 1000000 0.075 0.30;
  Build_ModelSpec "google" "gemini-2.0-flash" 1000000 0.10 0.40;
  Build_ModelSpec "google" "gemini-2.5-pro" 1000000 1.25 10.00
].

(** [ModelCatalog._specs] *)
Abbreviation ModelCatalog := (gmap string ModelSpec).

(** [ModelCatalog.register] *)
Definition register (s : ModelSpec) (c : ModelCatalog) : ModelCatalog := <[key s := s]> c.

(** [ModelCatalog.__init__] *)
Definition new_catalog (specs : option (list ModelSpec)) : ModelCatalog :=
  foldl (fun c s => register s c) ∅ (default _SEED_SPECS specs).

(** [ModelCatalog.get] *)
Definition get (c : ModelCatalog) (p m : string) : option ModelSpec := c !! model_key p m.

(** [ModelCatalog.context_window] *)
Definition window_of (c : ModelCatalog) (p m : string) : Z :=
  match get c p m with
  | Some s => context_window s
  | None => DEFAULT_CONTEXT_WINDOW
  end.

(** [ModelCatalog.estimate_cost] *)
Definition estimate_cost (c : ModelCatalog) (p m : string)
    (input_tokens output_tokens : Z) : option Q :=
  match get c p m with
  | None => None
  | Some s => Some (inject_Z input_tokens / 1000 * input_price_per_1k s
                    + inject_Z output_tokens / 1000 * output_price_per_1k s)%Q
  end.

Definition key_leb (s1 s2 : ModelSpec) : bool := String.leb (key s1) (key s2).

(** [ModelCatalog.list_all] *)
Definition list_all (c : ModelCatalog) : list ModelSpec :=
  sort_by key_leb (map_to_list c).*2.

(** [ModelCatalog.upsert] *)
Definition upsert (p m : string) (window : option Z) (price_in price_out : option Q)
    (c : ModelCatalog) : ModelSpec * ModelCatalog :=
  let existing := get c p m in
  let s := {|
    provider := p;
    model := m;
    context_window := match window with
      | Some w => w
      | None => from_option context_window DEFAULT_CONTEXT_WINDOW existing
      end;
    input_price_per_1k := match price_in with
      | Some x => x
      | None => from_option input_price_per_1k 0%Q existing
      end;
    output_price_per_1k := match price_out with
      | Some x => x
      | None => from_option output_price_per_1k 0%Q existing
      end;
  |} in
  (s, register s c).

Definition default_catalog : ModelCatalog := new_catalog None.

(** The state the class maintains: a specification is filed under its own key. *)
Definition catalog_wf (c : ModelCatalog) : Prop := map_Forall (fun k s => k = key s) c.

(** Price cards without negative prices. *)
Definition prices_nonneg (c : ModelCatalog) : Prop :=
  map_Forall (fun _ s => 0 <= input_price_per_1k s /\ 0 <= output_price_per_1k s)%Q c.

(** ** Lemmas *)

Lemma register_wf s c : catalog_wf c -> catalog_wf (register s c).
Proof. intros Hc. by apply map_Forall_insert_2. Qed.

Lemma upsert_wf p m w i o c : catalog_wf c -> catalog_wf (upsert p m w i o c).2.
Proof. apply register_wf. Qed.

Lemma new_catalog_wf specs : catalog_wf (new_catalog specs).
Proof.
  unfold new_catalog. generalize (map_Forall_empty (M := gmap string) (fun k s => k = key s)).
  generalize (∅ : ModelCatalog).
  induction (default _SEED_SPECS specs) as [|s l IH]; intros c Hc; [done|].
  apply IH. by apply register_wf.
Qed.

#[export] Hint Resolve register_wf upsert_wf new_catalog_wf : studio.

Lemma get_wf c p m s : catalog_wf c -> get c p m = Some s -> key s = model_key p m.
Proof. intros Hc Hs. symmetry. exact (Hc _ _ Hs). Qed.

Lemma key_leb_total s1 s2 : key_leb s1 s2 = true \/ key_leb s2 s1 = true.
Proof. apply String.leb_total. Qed.

Lemma key_leb_trans s1 s2 s3 :
  key_leb s1 s2 = true -> key_leb s2 s3 = true -> key_leb s1 s3 = true.
Proof. unfold key_leb. eauto with studio. Qed.

Lemma elem_of_list_all c s : catalog_wf c -> s ∈ list_all c <-> c !! key s = Some s.
Proof.
  intros Hc. unfold list_all. rewrite elem_of_sort_by, list_elem_of_fmap. split.
  - intros ([k s'] & -> & Hin). apply elem_of_map_to_list in Hin.
    simpl. by rewrite <- (Hc _ _ Hin).
  - intros Hs. exists (key s, s). split; [done|]. by apply elem_of_map_to_list.
Qed.

Lemma estimate_cost_nonneg c p m i o q :
  prices_nonneg c -> 0 <= i -> 0 <= o -> estimate_cost c p m i o = Some q -> (0 <= q)%Q.
Proof.
  intros Hc Hi Ho. unfold estimate_cost. destruct (get c p m) as [s|] eqn:Es; [|done].
  intros [= <-]. destruct (Hc _ _ Es) as [Hpi Hpo].
  assert (forall n x : Q, 0 <= n -> 0 <= x -> 0 <= n / 1000 * x)%Q as Hterm.
  { intros n x Hn Hx. apply Qmult_le_0_compat; [|done].
    apply Qle_shift_div_l; lra. }
  assert (0 <= inject_Z i)%Q by (change 0%Q with (inject_Z 0); by rewrite <- Zle_Qle).
  assert (0 <= inject_Z o)%Q by (change 0%Q with (inject_Z 0); by rewrite <- Zle_Qle).
  pose proof (Hterm _ _ H Hpi). pose proof (Hterm _ _ H0 Hpo). lra.
Qed.

#[export] Hint Resolve estimate_cost_nonneg : studio.

(** ** Properties *)

(** upserting a model overrides exactly the fields that are given, keeps
    the other fields of the model's previous specification (or the seed
    defaults when there was none), and leaves every model with another
    normalised key untouched. *)
Theorem upsert_spec c p m w i o :
  let existing := get c p m in
  let s := (upsert p m w i o c).1 in
  let c' := (upsert p m w i o c).2 in
  get c' p m = Some s /\
  context_window s = default (from_option context_window DEFAULT_CONTEXT_WINDOW existing) w /\
  input_price_per_1k s = default (from_option input_price_per_1k 0%Q existing) i /\
  output_price_per_1k s = default (from_option output_price_per_1k 0%Q existing) o /\
  (forall p' m', model_key p' m' <> model_key p m -> get c' p' m' = get c p' m').
Proof.
  simpl. split_and!.
  - unfold get, register. by rewrite lookup_insert_eq.
  - by destruct w.
  - by destruct i.
  - by destruct o.
  - intros p' m' Hne. unfold get, register. by rewrite lookup_insert_ne.
Qed.

(** [list_all] enumerates the catalog: every registered specification once,
    nothing else, in ascending order of the normalised key. *)
Theorem list_all_spec c :
  catalog_wf c ->
  (forall s, s ∈ list_all c <-> get c (provider s) (model s) = Some s) /\
  NoDup (list_all c) /\
  StronglySorted (fun s1 s2 => key_leb s1 s2 = true) (list_all c) /\
  length (list_all c) = size c.
Proof.
  intros Hc. split_and!.
  - intros s. by apply elem_of_list_all.
  - apply NoDup_sort_by, NoDup_fmap_2_strong; [|apply NoDup_map_to_list].
    intros [k1 s1] [k2 s2] H1%elem_of_map_to_list H2%elem_of_map_to_list; simpl.
    intros <-. by rewrite (Hc _ _ H1), (Hc _ _ H2).
  - apply sort_by_sorted; [apply key_leb_total|apply key_leb_trans].
  - unfold list_all. rewrite length_sort_by, length_fmap. apply length_map_to_list.
Qed.
