(* ===== verification/Types.v ===== *)
(** * Gateway contract types (backend/app/gateway/types.py)

    The request and result records of the gateway, its error classes, and the
    tenant-level gateway configuration (the keys documented in
    backend/app/gateway/service.py). *)

From S2P Require Import Prelude Json.

Record GatewayRequest := {
  tenant_id : string;
  messages : list json;
  request_id : string;
  req_provider : string;
  req_model : option string;
  strategy : string;
  tools : list json;
  structured_output : option json;
  surface_id : option string;
  end_user_id : option string;
  conversation_id : option string;
  session_id : option string;
  tiered : bool;
  simple_query : bool;
  estimated_input_tokens : option Z;
  pinned : option string;
}.

(** The dataclass defaults. *)
Definition new_request (tenant : string) (msgs : list json) : GatewayRequest := {|
  tenant_id := tenant;
  messages := msgs;
  request_id := EmptyString;
  req_provider := "openai";
  req_model := None;
  strategy := "cost";
  tools := [];
  structured_output := None;
  surface_id := None;
  end_user_id := None;
  conversation_id := None;
  session_id := None;
  tiered := false;
  simple_query := false;
  estimated_input_tokens := None;
  pinned := None;
|}.

Record RouteDecision := {
  dec_provider : string;
  dec_model : string;
  dec_strategy : string;
  candidates_considered : nat;
  reason : string;
}.

(** Canonical usage counters; an absent key reads as [0]. *)
Record Usage := {
  input_tokens : Z;
  output_tokens : Z;
  reasoning_tokens : Z;
  cached_tokens : Z;
}.

Definition no_usage : Usage := Build_Usage 0 0 0 0.

Record ToolCall := { call_id : string; call_name : string; call_arguments : json }.

Record GatewayResult := {
  content : string;
  res_model : string;
  res_provider : string;
  usage : Usage;
  finish_reason : option string;
  tool_calls : option (list ToolCall);
  routed_via : string;
  attempts : Z;
  cached : bool;
}.

(** The events of [GatewayStreamEvent], by their [type]. *)
Inductive StreamEvent :=
| EvDelta (text : string)
| EvToolStart (index : option Z) (id name : string)
| EvToolDelta (index : option Z) (id : string) (args : option string)
| EvToolEnd (index : option Z) (id name : option string) (arguments : option json)
| EvUsage (u : Usage) (prov mod_ : string)
| EvDone (finish : option string) (u : Usage) (prov mod_ : string)
| EvError (error failure_class : string).

(** The exceptions a gateway call can raise. *)
Inductive gateway_exc :=
| GatewayAdmissionError (retry_after : Q)
| GatewayQuotaExceeded (level : string) (limit_usd projected_usd : Q)
| GatewayConfigurationError (message : string)
| GatewayChainExhausted (prov mod_ reason failure_class : string) (n : Z)
| OtherError (message : string).

(** The tenant-level gateway configuration; an absent key is [None]. *)
Record GatewayCfg := {
  cheap_model : option string;
  fallback_models : option (list string);
  caching : option bool;
  prompt_version : option string;
  cross_family_fallback : option bool;
  quota_platform_usd : option Q;
  quota_tenant_usd : option Q;
  quota_surface_usd : option Q;
  quota_end_user_usd : option Q;
}.

Definition empty_cfg : GatewayCfg :=
  Build_GatewayCfg None None None None None None None None None.

Definition DEFAULT_GATEWAY_CFG : GatewayCfg := {|
  cheap_model := Some "gpt-4o-mini";
  fallback_models := None;
  caching := Some true;
  prompt_version := Some "v1";
  cross_family_fallback := Some true;
  quota_platform_usd := None;
  quota_tenant_usd := None;
  quota_surface_usd := None;
  quota_end_user_usd := None;
|}.

Definition override {A} (base new : option A) : option A :=
  match new with Some x => Some x | None => base end.

(** [cfg = dict(DEFAULT_GATEWAY_CFG); cfg.update(gateway_cfg or {})] *)
Definition effective_cfg (g : GatewayCfg) : GatewayCfg :=
  let d := DEFAULT_GATEWAY_CFG in {|
  cheap_model := override (cheap_model d) (cheap_model g);
  fallback_models := override (fallback_models d) (fallback_models g);
  caching := override (caching d) (caching g);
  prompt_version := override (prompt_version d) (prompt_version g);
  cross_family_fallback := override (cross_family_fallback d) (cross_family_fallback g);
  quota_platform_usd := override (quota_platform_usd d) (quota_platform_usd g);
  quota_tenant_usd := override (quota_tenant_usd d) (quota_tenant_usd g);
  quota_surface_usd := override (quota_surface_usd d) (quota_surface_usd g);
  quota_end_user_usd := override (quota_end_user_usd d) (quota_end_user_usd g);
|}.
