(* ===== verification/Router.v ===== *)
(** * Routing (backend/app/gateway/router.py)

    The pure, in-process router: the ranked candidate list of a request under
    the tenant's strategy, the decision against an availability predicate, and
    the latency tracker.  A deployment is a [provider * model] pair; a score is
    [None] for [float("inf")]. *)

From S2P Require Import Prelude Types Catalog.

Abbreviation deployment := (string * string)%type.

Definition _DEFAULT_FALLBACKS (p : string) : option string :=
  if decide (p = "openai") then Some "gpt-4o-mini"
  else if decide (p = "anthropic") then Some "claude-3-5-haiku"
  else if decide (p = "google") then Some "gemini-2.0-flash"
  else if decide (p = "azure") then Some "gpt-4o-mini"
  else if decide (p = "custom") then Some "gpt-4o-mini"
  else None.

Definition STRATEGY_COST : string := "cost".
Definition STRATEGY_LATENCY : string := "latency".
Definition STRATEGY_QUALITY : string := "quality".
Definition STRATEGY_PINNED : string := "pinned".

Definition is_valid_strategy (s : string) : bool :=
  bool_decide (s ∈ [STRATEGY_COST; STRATEGY_LATENCY; STRATEGY_QUALITY; STRATEGY_PINNED]).

(** ** [LatencyTracker] *)

Record LatencyTracker := { alpha : Q; latencies : gmap string Q }.

Definition new_tracker : LatencyTracker := {| alpha := 0.3; latencies := ∅ |}.

Definition latency_key (p m : string) : string := p +:+ ":" +:+ m.

Definition latency_update (p m : string) (ms : Q) (t : LatencyTracker) : LatencyTracker :=
  {| alpha := alpha t;
     latencies := match latencies t !! latency_key p m with
       | None => <[latency_key p m := ms]> (latencies t)
       | Some prev => <[latency_key p m := (alpha t * ms + (1 - alpha t) * prev)%Q]> (latencies t)
       end |}.

Definition latency_get (p m : string) (t : LatencyTracker) : Q :=
  default 0%Q (latencies t !! latency_key p m).

(** ** Candidate construction *)

Definition deployment_key (p m : string) : string :=
  lower (strip p) +:+ ":" +:+ lower (strip m).

Definition tenant_fallback_candidates (cfg : GatewayCfg) : list string :=
  List.filter truthy (strip <$> default [] (fallback_models cfg)).

Definition default_models (p : string) : option string :=
  if decide (p = "openai") then Some "gpt-4o-mini"
  else if decide (p = "anthropic") then Some "claude-3-5-sonnet"
  else if decide (p = "google") then Some "gemini-2.0-flash"
  else if decide (p = "azure") then Some "gpt-4o-mini"
  else if decide (p = "custom") then Some "gpt-4o-mini"
  else None.

Definition _default_model_for (c : ModelCatalog) (p : string) : string :=
  let listed := match List.find (fun s => String.eqb (provider s) p) (list_all c) with
    | Some s => model s
    | None => default "gpt-4o-mini" (default_models p)
    end in
  match default_models p with
  | Some m => if get c p m then m else listed
  | None => listed
  end.

Definition _split_deployment (entry : string) : deployment :=
  match split_once ":" entry with
  | Some (p, m) => (lower (strip p), strip m)
  | None => (lower (strip entry), strip entry)
  end.

(** Truthiness of an optional integer, as in [x or d]. *)
Definition or_default (x : option Z) (d : Z) : Z :=
  match x with Some n => if n =? 0 then d else n | None => d end.

Section router.
Context (catalog : ModelCatalog) (latency : LatencyTracker) (cheap_model_fallback : string).

(** [Router._score] *)
Definition _score (c : deployment) (r : GatewayRequest) (strat : string) : option Q :=
  if decide (strat = STRATEGY_COST) then
    estimate_cost catalog c.1 c.2 (or_default (estimated_input_tokens r) 1000) 256
  else if decide (strat = STRATEGY_LATENCY) then
    let l := latency_get c.1 c.2 latency in if 0 <?q l then Some l else None
  else Some 0%Q.

Definition score_leb (x y : option Q) : bool :=
  match x, y with
  | _, None => true
  | None, Some _ => false
  | Some a, Some b => a <=?q b
  end.

Definition effective_strategy (r : GatewayRequest) : string :=
  if is_valid_strategy (strategy r) then strategy r else STRATEGY_COST.

Definition preferred (r : GatewayRequest) : deployment :=
  (req_provider r,
   if truthy_opt (req_model r) then default EmptyString (req_model r)
   else _default_model_for catalog (req_provider r)).

Definition cheap_candidate (r : GatewayRequest) (cfg : GatewayCfg) : deployment :=
  let cheap := if truthy_opt (cheap_model cfg) then default EmptyString (cheap_model cfg)
               else cheap_model_fallback in
  if split_once ":" cheap then _split_deployment cheap else (req_provider r, cheap).

(** The candidate list before ranking. *)
Definition unranked (r : GatewayRequest) (cfg : GatewayCfg) : list deployment :=
  let base := preferred r ::
    (if tiered r && simple_query r then [cheap_candidate r cfg] else []) in
  let with_tenant := extend_new base (_split_deployment <$> tenant_fallback_candidates cfg) in
  match _DEFAULT_FALLBACKS (req_provider r) with
  | Some m =>
      if truthy m && negb (bool_decide ((req_provider r, m) ∈ with_tenant))
      then with_tenant ++ [(req_provider r, m)] else with_tenant
  | None => with_tenant
  end.

(** [Router.candidates] *)
Definition candidates (r : GatewayRequest) (cfg : GatewayCfg) : list deployment :=
  let strat := effective_strategy r in
  if truthy_opt (pinned r) then [_split_deployment (default EmptyString (pinned r))]
  else
    let l := unranked r cfg in
    if bool_decide (strat ∈ [STRATEGY_COST; STRATEGY_LATENCY]) && (1 <? length l)%nat
    then sort_by (fun a b => score_leb (_score a r strat) (_score b r strat)) l
    else l.

(** [Router.decide]; [None] is the [IndexError] of [candidates[0]]. *)
Definition decide_route (r : GatewayRequest) (available : string -> string -> bool)
    (cfg : GatewayCfg) : option RouteDecision :=
  let strat := effective_strategy r in
  let cs := candidates r cfg in
  match List.find (fun c => available c.1 c.2) cs with
  | Some (p, m) => Some (Build_RouteDecision p m strat (length cs) "available")
  | None =>
      match cs with
      | (p, m) :: _ => Some (Build_RouteDecision p m strat (length cs) "all_deployments_cooldown")
      | [] => None
      end
  end.

(** ** Lemmas *)

Lemma score_leb_total x y : score_leb x y = true \/ score_leb y x = true.
Proof.
  destruct x as [a|], y as [b|]; simpl; auto.
  destruct (a <=?q b) eqn:E; [by left|right].
  apply Qleb_false in E. apply Qle_bool_iff. lra.
Qed.

Lemma score_leb_trans x y z :
  score_leb x y = true -> score_leb y z = true -> score_leb x z = true.
Proof.
  destruct x as [a|], y as [b|], z as [c|]; simpl; try done.
  rewrite !Qle_bool_iff. lra.
Qed.

Lemma preferred_unranked r cfg : preferred r ∈ unranked r cfg.
Proof.
  unfold unranked. set (base := _ :: _).
  assert (preferred r ∈ extend_new base (_split_deployment <$> tenant_fallback_candidates cfg)).
  { apply elem_of_extend_new. left. subst base. set_solver. }
  destruct (_DEFAULT_FALLBACKS (req_provider r)); [|done].
  case_match; set_solver.
Qed.

Lemma candidates_perm r cfg :
  truthy_opt (pinned r) = false -> candidates r cfg ≡ₚ unranked r cfg.
Proof.
  intros Hp. unfold candidates. rewrite Hp.
  case_match; [apply sort_by_perm|done].
Qed.

Lemma candidates_nonempty r cfg : candidates r cfg <> [].
Proof.
  destruct (truthy_opt (pinned r)) eqn:Hp.
  - unfold candidates. by rewrite Hp.
  - intros Hnil. pose proof (preferred_unranked r cfg) as Hin.
    rewrite <- (candidates_perm r cfg Hp), Hnil in Hin. set_solver.
Qed.

(** Ranking: an earlier candidate never scores worse than a later one. *)
Lemma candidates_ranked r cfg :
  effective_strategy r ∈ [STRATEGY_COST; STRATEGY_LATENCY] ->
  StronglySorted
    (fun a b => score_leb (_score a r (effective_strategy r))
                          (_score b r (effective_strategy r)) = true)
    (candidates r cfg).
Proof.
  intros Hs. unfold candidates. case_match; [repeat constructor|].
  rewrite bool_decide_eq_true_2 by done. simpl. case_match.
  - apply (sort_by_sorted (fun a b => score_leb (_score a r _) (_score b r _))).
    + intros x y. apply score_leb_total.
    + intros x y z. apply score_leb_trans.
  - destruct (unranked r cfg) as [|x [|y l]]; [repeat constructor..|done].
Qed.

End router.

Lemma latency_update_bounds p m ms t lo hi :
  (0 <= alpha t <= 1)%Q -> (lo <= ms <= hi)%Q ->
  map_Forall (fun _ q => lo <= q <= hi)%Q (latencies t) ->
  map_Forall (fun _ q => lo <= q <= hi)%Q (latencies (latency_update p m ms t)).
Proof.
  intros Ha Hms Ht. unfold latency_update; simpl.
  destruct (latencies t !! latency_key p m) as [prev|] eqn:E.
  - apply map_Forall_insert_2; [|done]. specialize (Ht _ _ E). simpl in Ht. split; nra.
  - by apply map_Forall_insert_2.
Qed.

Lemma candidates_elem catalog latency cheap r cfg c :
  truthy_opt (pinned r) = false ->
  c ∈ candidates catalog latency cheap r cfg <->
    c = preferred catalog r \/
    (tiered r = true /\ simple_query r = true /\ c = cheap_candidate cheap r cfg) \/
    (exists e, e ∈ tenant_fallback_candidates cfg /\ c = _split_deployment e) \/
    (exists m, _DEFAULT_FALLBACKS (req_provider r) = Some m /\ c = (req_provider r, m)).
Proof.
  intros Hp. rewrite (candidates_perm catalog latency cheap r cfg Hp). unfold unranked.
  set (l := extend_new _ _).
  assert (Hl : c ∈ l <-> c = preferred catalog r \/
    (tiered r = true /\ simple_query r = true /\ c = cheap_candidate cheap r cfg) \/
    (exists e, e ∈ tenant_fallback_candidates cfg /\ c = _split_deployment e)).
  { subst l. rewrite elem_of_extend_new, elem_of_cons, list_elem_of_fmap.
    destruct (tiered r), (simple_query r); simpl; set_solver. }
  destruct (_DEFAULT_FALLBACKS (req_provider r)) as [m|] eqn:Em; [|naive_solver].
  assert (truthy m = true) as ->.
  { unfold _DEFAULT_FALLBACKS in Em. repeat case_decide; naive_solver. }
  simpl. case_bool_decide; simpl; [|rewrite elem_of_app, list_elem_of_singleton]; naive_solver.
Qed.

(** The decision is one of the candidates. *)
Lemma decide_route_candidate catalog latency cheap r available cfg :
  exists d, decide_route catalog latency cheap r available cfg = Some d /\
    (dec_provider d, dec_model d) ∈ candidates catalog latency cheap r cfg.
Proof.
  unfold decide_route. pose proof (candidates_nonempty catalog latency cheap r cfg) as Hne.
  destruct (List.find _ _) as [[p m]|] eqn:Ef.
  - eexists. split; [done|]. apply List.find_some in Ef as [Hin _]. by apply list_elem_of_In.
  - destruct (candidates _ _ _ _ _) as [|[p m] cs] eqn:Ecs; [done|].
    eexists. split; [done|]. simpl. rewrite elem_of_cons. by left.
Qed.

(** ** Properties *)

(** the router always decides, on one of its candidates.  It picks the first
    candidate, in ranking order, whose deployment is available; when every
    candidate is cooling down it falls back to the best-ranked one and says
    so. *)
Theorem decide_route_spec catalog latency cheap r available cfg :
  exists d, decide_route catalog latency cheap r available cfg = Some d /\
  let cs := candidates catalog latency cheap r cfg in
  (dec_provider d, dec_model d) ∈ cs /\
  candidates_considered d = length cs /\
  ((reason d = "available" /\ available (dec_provider d) (dec_model d) = true /\
    exists before after, cs = before ++ (dec_provider d, dec_model d) :: after /\
      Forall (fun c => available c.1 c.2 = false) before) \/
   (reason d = "all_deployments_cooldown" /\
    Forall (fun c => available c.1 c.2 = false) cs /\
    head cs = Some (dec_provider d, dec_model d))).
Proof.
  unfold decide_route.
  pose proof (candidates_nonempty catalog latency cheap r cfg) as Hne.
  destruct (List.find _ _) as [[p m]|] eqn:Ef.
  - eexists. split; [done|]. simpl.
    destruct (find_some_split _ _ _ Ef) as (before & after & Hcs & Hb & Ha).
    split_and!; [rewrite Hcs; set_solver|done|left; split_and!; [done|done|]].
    exists before, after. by split.
  - pose proof (List.find_none _ _ Ef) as Hnone. simpl in Hnone.
    destruct (candidates _ _ _ _ _) as [|[p m] cs] eqn:Ecs; [done|].
    eexists. split; [done|]. simpl. split_and!; [set_solver|done|right].
    split_and!; [done| |done].
    rewrite Forall_forall. intros c Hc. apply Hnone. by apply list_elem_of_In.
Qed.

(** the decision is optimal.  Under the cost and latency strategies, for a
    request that is not pinned, whenever some candidate is available the chosen
    deployment is available and no available candidate scores strictly better
    (cheaper, respectively faster). *)
Theorem decide_route_optimal catalog latency cheap r available cfg d c :
  let strat := effective_strategy r in
  let score x := _score catalog latency x r strat in
  strat ∈ [STRATEGY_COST; STRATEGY_LATENCY] ->
  decide_route catalog latency cheap r available cfg = Some d ->
  c ∈ candidates catalog latency cheap r cfg ->
  available c.1 c.2 = true ->
  available (dec_provider d) (dec_model d) = true /\
  score_leb (score (dec_provider d, dec_model d)) (score c) = true.
Proof.
  intros strat score Hs Hd Hc Hav. unfold decide_route in Hd.
  destruct (List.find _ _) as [[p m]|] eqn:Ef.
  - injection Hd as <-. simpl.
    pose proof (List.find_some _ _ Ef) as [_ Hp]. split; [done|].
    destruct (find_first_sorted _ _ _ _ _ (candidates_ranked catalog latency cheap r cfg Hs)
      Ef Hc Hav) as [->|Hle]; [|done].
    destruct (score_leb_total (score (p, m)) (score (p, m))); done.
  - apply list_elem_of_In in Hc. pose proof (List.find_none _ _ Ef c Hc). congruence.
Qed.

Lemma decide_route_optimal_witness :
  let r := new_request "t1" [] in
  let available p m := negb (String.eqb m "gpt-4o-mini") in
  let cfg := Build_GatewayCfg None (Some ["google:gemini-2.0-flash"; "openai:gpt-4o"])
    None None None None None None None in
  exists d, decide_route default_catalog new_tracker "gpt-4o-mini" r available cfg = Some d /\
  dec_model d = "gemini-2.0-flash" /\
  score_leb (_score default_catalog new_tracker (dec_provider d, dec_model d) r "cost")
            (_score default_catalog new_tracker ("openai", "gpt-4o") r "cost") = true.
Proof.
  intros r available cfg. eexists. split; [vm_compute; reflexivity|]. split; [reflexivity|].
  apply (decide_route_optimal default_catalog new_tracker "gpt-4o-mini" r available cfg
    (Build_RouteDecision "google" "gemini-2.0-flash" "cost" 3 "available") ("openai", "gpt-4o")).
  - apply list_elem_of_here.
  - vm_compute. reflexivity.
  - apply (bool_decide_unpack _). vm_compute. exact I.
  - reflexivity.
Defined.

(** a pinned request is routed to its pin, whatever the strategy, the
    tenant's fallbacks and the availability of the deployment: no tiering and
    no fallback. *)
Theorem decide_route_pinned catalog latency cheap r available cfg pin :
  pinned r = Some pin -> truthy pin = true ->
  candidates catalog latency cheap r cfg = [_split_deployment pin] /\
  (fun d => (dec_provider d, dec_model d)) <$> decide_route catalog latency cheap r available cfg
    = Some (_split_deployment pin).
Proof.
  intros Hp Ht.
  assert (Hc : candidates catalog latency cheap r cfg = [_split_deployment pin]).
  { unfold candidates. rewrite Hp. simpl. by rewrite Ht. }
  split; [done|]. unfold decide_route. rewrite Hc. simpl.
  destruct (_split_deployment pin) as [p m]. simpl. by destruct (available p m).
Qed.

(** what the candidate list contains: the preferred deployment, the cheap
    model exactly for a simple query of a tiered request, the tenant's
    fallback entries and the provider family's default -- and nothing else. *)
Theorem candidates_spec catalog latency cheap r cfg c :
  truthy_opt (pinned r) = false ->
  c ∈ candidates catalog latency cheap r cfg <->
    c = preferred catalog r \/
    (tiered r = true /\ simple_query r = true /\ c = cheap_candidate cheap r cfg) \/
    (exists e, e ∈ tenant_fallback_candidates cfg /\ c = _split_deployment e) \/
    (exists m, _DEFAULT_FALLBACKS (req_provider r) = Some m /\ c = (req_provider r, m)).
Proof. apply candidates_elem. Qed.

(** with a smoothing factor in the unit interval, the tracked latency of
    every deployment stays between the least and the greatest sample it was
    ever given. *)
Theorem latency_tracker_bounds (samples : list (deployment * Q)) t lo hi :
  (0 <= alpha t <= 1)%Q ->
  map_Forall (fun _ q => lo <= q <= hi)%Q (latencies t) ->
  Forall (fun s => lo <= s.2 <= hi)%Q samples ->
  map_Forall (fun _ q => lo <= q <= hi)%Q
    (latencies (foldl (fun t s => latency_update s.1.1 s.1.2 s.2 t) t samples)).
Proof.
  intros Ha Ht Hs. revert t Ha Ht. induction Hs as [|s l Hs _ IH]; intros t Ha Ht; [done|].
  simpl. apply IH; [done|]. by apply latency_update_bounds.
Qed.

(** the candidate list is not free of repetitions, contrary to the
    docstring of [candidates]: for a simple query of a tiered request the
    cheap model is appended without a membership test, so a request that
    already prefers it lists it twice. *)
Theorem candidates_duplicate :
  let r := {| tenant_id := "t1"; messages := []; request_id := EmptyString; req_provider := "openai";
    req_model := Some "gpt-4o-mini"; strategy := "quality"; tools := [];
    structured_output := None; surface_id := None; end_user_id := None;
    conversation_id := None; session_id := None; tiered := true; simple_query := true;
    estimated_input_tokens := None; pinned := None |} in
  candidates default_catalog new_tracker "gpt-4o-mini" r empty_cfg =
    [("openai", "gpt-4o-mini"); ("openai", "gpt-4o-mini")].
Proof. reflexivity. Qed.
