(* ===== verification/Fallback.v ===== *)
(** * Fallback chains (backend/app/gateway/fallback.py)

    The classification of provider failures by their message, and the ordered
    deployment lists to try for each failure class. *)

From S2P Require Import Prelude Types Catalog Router.

Definition FALLBACK_GENERAL : string := "general".
Definition FALLBACK_CONTENT_POLICY : string := "content_policy".
Definition FALLBACK_CONTEXT_WINDOW : string := "context_window".

Definition _CONTENT_POLICY_MARKERS : list string := [
  "content policy"; "content_policy"; "safety system"; "refused"; "refusal";
  "output blocked"; "output_blocked"; "inappropriate content"; "filtered";
  "blocked by policy"; "violates our policy"; "responses_to_same"; "moderation";
  "policy violation"].

Definition _CONTEXT_WINDOW_MARKERS : list string := [
  "maximum context length"; "context length exceeded"; "context window";
  "prompt is too long"; "input is too long"; "context_length_exceeded";
  "maximum tokens"; "token limit exceeded"; "too many tokens"].

Definition _FAMILY_CROSS_FALLBACK (p : string) : list string :=
  if decide (p = "openai") then ["anthropic"; "google"]
  else if decide (p = "anthropic") then ["openai"; "google"]
  else if decide (p = "google") then ["openai"; "anthropic"]
  else if decide (p = "azure") then ["openai"]
  else if decide (p = "custom") then ["openai"]
  else [].

(** [classify_failure], on the exception's message. *)
Definition classify_failure (message : string) : string :=
  let text := lower message in
  if existsb (fun m => contains m text) _CONTEXT_WINDOW_MARKERS then FALLBACK_CONTEXT_WINDOW
  else if existsb (fun m => contains m text) _CONTENT_POLICY_MARKERS then FALLBACK_CONTENT_POLICY
  else FALLBACK_GENERAL.

Definition is_overflow_failure (message : string) : bool :=
  String.eqb (classify_failure message) FALLBACK_CONTEXT_WINDOW.

(** ** [FallbackChain] *)

Record FallbackChain := {
  chain_request : GatewayRequest;
  chain_candidates : list deployment;
  chain_cfg : GatewayCfg;
  chain_cross : bool;
}.

(** [entry.split(":", 1)[0].strip().lower() == provider] *)
Definition entry_of_family (p : string) (entry : string) : bool :=
  match split_once ":" entry with
  | Some (l, _) => String.eqb (lower (strip l)) p
  | None => false
  end.

Definition cross_family_step (f : FallbackChain) (result : list deployment) (p : string) :
    list deployment :=
  let result := extend_new result
    (List.filter (fun c => String.eqb c.1 p) (chain_candidates f)) in
  if negb (existsb (fun c => String.eqb c.1 p) result) then
    extend_new result
      (_split_deployment <$>
         List.filter (entry_of_family p) (tenant_fallback_candidates (chain_cfg f)))
  else result.

(** [FallbackChain._cross_family] *)
Definition _cross_family (f : FallbackChain) : list deployment :=
  foldl (cross_family_step f) [] (_FAMILY_CROSS_FALLBACK (req_provider (chain_request f))).

Definition window_geb (s1 s2 : ModelSpec) : bool := context_window s2 <=? context_window s1.

Definition spec_deployment (s : ModelSpec) : deployment := (provider s, model s).

(** The loop of [_large_window], which stops at two results. *)
Fixpoint large_window_loop (cs : list deployment) (result : list deployment)
    (specs : list ModelSpec) : list deployment :=
  match specs with
  | [] => result
  | s :: specs' =>
      let c := spec_deployment s in
      if bool_decide (c ∈ cs) || bool_decide (c ∈ result)
      then large_window_loop cs result specs'
      else
        let result' := result ++ [c] in
        if (2 <=? length result')%nat then result' else large_window_loop cs result' specs'
  end.

(** [FallbackChain._large_window] over a catalog; the code reads the default one. *)
Definition large_window_of (catalog : ModelCatalog) (cs : list deployment) : list deployment :=
  large_window_loop cs [] (sort_by window_geb (list_all catalog)).

Definition _large_window (f : FallbackChain) : list deployment :=
  large_window_of default_catalog (chain_candidates f).

(** [FallbackChain.targets] *)
Definition targets (f : FallbackChain) (failure_class : string) : list deployment :=
  extend_new [] (chain_candidates f)
  ++ (if String.eqb failure_class FALLBACK_CONTENT_POLICY && chain_cross f
      then _cross_family f else [])
  ++ (if String.eqb failure_class FALLBACK_CONTEXT_WINDOW then _large_window f else []).

(** [build_fallback_chain] *)
Definition build_fallback_chain (r : GatewayRequest) (cs : list deployment) (cfg : GatewayCfg)
    (cross : option bool) : FallbackChain :=
  {| chain_request := r;
     chain_candidates := cs;
     chain_cfg := cfg;
     chain_cross := match cross with
       | Some b => b
       | None => default true (cross_family_fallback cfg)
       end |}.

(** ** Lemmas *)

Lemma window_geb_total s1 s2 : window_geb s1 s2 = true \/ window_geb s2 s1 = true.
Proof. unfold window_geb. rewrite !Z.leb_le. lia. Qed.

Lemma window_geb_trans s1 s2 s3 :
  window_geb s1 s2 = true -> window_geb s2 s3 = true -> window_geb s1 s3 = true.
Proof. unfold window_geb. rewrite !Z.leb_le. lia. Qed.

Lemma classify_failure_cases m :
  classify_failure m = FALLBACK_CONTEXT_WINDOW \/
  classify_failure m = FALLBACK_CONTENT_POLICY \/ classify_failure m = FALLBACK_GENERAL.
Proof. unfold classify_failure. repeat case_match; auto. Qed.

Lemma cross_family_step_incl f result p c :
  c ∈ cross_family_step f result p ->
  c ∈ result \/ (c.1 = p /\ (c ∈ chain_candidates f \/
    exists e, e ∈ tenant_fallback_candidates (chain_cfg f) /\ c = _split_deployment e)).
Proof.
  assert (Hcs : forall c, c ∈ List.filter (fun c => String.eqb c.1 p) (chain_candidates f) ->
    c.1 = p /\ c ∈ chain_candidates f).
  { intros x Hx. rewrite list_elem_of_In, filter_In in Hx.
    rewrite list_elem_of_In, String.eqb_eq in *. naive_solver. }
  unfold cross_family_step. case_match; rewrite !elem_of_extend_new; [|naive_solver].
  intros [[?|?%Hcs]|Ht]; [naive_solver..|].
  apply list_elem_of_fmap in Ht as (e & -> & He).
  rewrite list_elem_of_In, filter_In in He. destruct He as [He Hp].
  right. split; [|right; exists e; by rewrite list_elem_of_In].
  unfold entry_of_family in Hp. unfold _split_deployment.
  destruct (split_once ":" e) as [[l r]|]; [|done]. by apply String.eqb_eq.
Qed.

Lemma cross_family_incl f c :
  c ∈ _cross_family f ->
  c.1 ∈ _FAMILY_CROSS_FALLBACK (req_provider (chain_request f)) /\
  (c ∈ chain_candidates f \/
   exists e, e ∈ tenant_fallback_candidates (chain_cfg f) /\ c = _split_deployment e).
Proof.
  unfold _cross_family.
  enough (Hgen : forall l acc, c ∈ foldl (cross_family_step f) acc l ->
    c ∈ acc \/ (c.1 ∈ l /\ (c ∈ chain_candidates f \/
      exists e, e ∈ tenant_fallback_candidates (chain_cfg f) /\ c = _split_deployment e))).
  { intros H%Hgen. set_solver. }
  induction l as [|p l IH]; intros acc; simpl; [by left|].
  intros [Hacc|[Hl Hr]]%IH; [|set_solver].
  apply cross_family_step_incl in Hacc as [?|[-> ?]]; set_solver.
Qed.

Lemma family_never_self p : p ∉ _FAMILY_CROSS_FALLBACK p.
Proof. unfold _FAMILY_CROSS_FALLBACK. repeat case_decide; subst; set_solver. Qed.

Lemma large_window_loop_prefix cs result specs :
  result `prefix_of` large_window_loop cs result specs.
Proof.
  revert result. induction specs as [|s specs IH]; intros result; cbn [large_window_loop]; [done|].
  destruct (_ || _); [apply IH|]. case_match; [by eexists|].
  etrans; [by eexists|apply IH].
Qed.

Lemma large_window_loop_incl cs result specs c :
  c ∈ large_window_loop cs result specs ->
  c ∈ result \/ (c ∉ cs /\ exists s, s ∈ specs /\ c = spec_deployment s).
Proof.
  revert result. induction specs as [|s specs IH]; intros result; cbn [large_window_loop]; [by left|].
  destruct (_ || _) eqn:Et; [intros [?|?]%IH; set_solver|].
  apply orb_false_iff in Et as [Hcs%bool_decide_eq_false Hr%bool_decide_eq_false].
  case_match; [set_solver|]. intros [?|?]%IH; set_solver.
Qed.

Lemma large_window_loop_length cs result specs :
  (length result < 2)%nat -> (length (large_window_loop cs result specs) <= 2)%nat.
Proof.
  revert result. induction specs as [|s specs IH]; intros result Hl; cbn [large_window_loop]; [lia|].
  destruct (_ || _); [by apply IH|]. rewrite length_app. cbn [length].
  destruct (Nat.leb_spec 2 (length result + 1)); [rewrite length_app; simpl; lia|].
  apply IH. rewrite length_app. simpl. lia.
Qed.

Lemma large_window_loop_max cs result specs s :
  StronglySorted (fun s1 s2 => window_geb s1 s2 = true) specs ->
  (length result < 2)%nat ->
  s ∈ specs -> spec_deployment s ∉ cs -> spec_deployment s ∉ large_window_loop cs result specs ->
  length (large_window_loop cs result specs) = 2%nat /\
  (forall c, c ∈ large_window_loop cs result specs -> c ∈ result \/
     exists s', s' ∈ specs /\ c = spec_deployment s' /\ context_window s <= context_window s').
Proof.
  intros Hsort. revert result.
  induction Hsort as [|s0 specs Hsort IH Hle]; intros result Hl Hs Hcs; [set_solver|].
  pose proof (large_window_loop_prefix cs (result ++ [spec_deployment s0]) specs) as Hpre.
  rewrite Forall_forall in Hle. cbn [large_window_loop].
  apply elem_of_cons in Hs as [->|Hs].
  - rewrite (bool_decide_eq_false_2 (_ ∈ cs)) by done. simpl.
    destruct (bool_decide_reflect (spec_deployment s0 ∈ result)) as [Hin|_].
    + intros []. by apply (elem_of_prefix result); [|apply large_window_loop_prefix].
    + case_match; intros []; [|eapply elem_of_prefix; [|exact Hpre]]; set_solver.
  - destruct (_ || _); intros Hn.
    + destruct (IH result Hl Hs Hcs Hn) as [? Hc]. split; [done|]. intros c [?|?]%Hc; set_solver.
    + assert (context_window s <= context_window s0) by (by apply Z.leb_le, Hle).
      rewrite length_app in *. cbn [length] in *.
      destruct (Nat.leb_spec 2 (length result + 1)).
      * rewrite length_app. simpl. split; [lia|]. set_solver.
      * assert (Hl' : (length (result ++ [spec_deployment s0]) < 2)%nat)
          by (rewrite length_app; simpl; lia).
        destruct (IH _ Hl' Hs Hcs Hn) as [? Hc]. split; [done|]. intros c [?|?]%Hc; set_solver.
Qed.

Lemma large_window_of_spec catalog cs s :
  let out := large_window_of catalog cs in
  (length out <= 2)%nat /\
  Forall (fun c => c ∉ cs /\
    exists s', s' ∈ list_all catalog /\ c = spec_deployment s') out /\
  (s ∈ list_all catalog -> spec_deployment s ∉ cs -> spec_deployment s ∉ out ->
   length out = 2%nat /\
   Forall (fun c => exists s', s' ∈ list_all catalog /\ c = spec_deployment s' /\
                               context_window s <= context_window s') out).
Proof.
  intros out. set (specs := sort_by window_geb (list_all catalog)).
  assert (Hin : forall s', s' ∈ specs <-> s' ∈ list_all catalog)
    by (intros; apply elem_of_sort_by).
  split_and!; [apply large_window_loop_length; simpl; lia| |].
  - rewrite Forall_forall. intros c Hc.
    apply large_window_loop_incl in Hc as [?%not_elem_of_nil|[? (s' & ? & ?)]]; [done|].
    split; [done|]. exists s'. by rewrite <- Hin.
  - intros Hs Hc Hn. rewrite <- Hin in Hs.
    destruct (large_window_loop_max cs [] specs s) as [Hl Hmax];
      [by apply sort_by_sorted; [apply window_geb_total|apply window_geb_trans]
      |simpl; lia|done..|].
    split; [done|]. rewrite Forall_forall.
    intros c Hc'. apply Hmax in Hc' as [?%not_elem_of_nil|(s' & ? & ?)]; [done|].
    exists s'. by rewrite <- Hin.
Qed.

(** Every target of a chain belongs to its finite universe. *)
Definition chain_universe (f : FallbackChain) : list deployment :=
  extend_new [] (chain_candidates f ++ _cross_family f ++ _large_window f).

Lemma targets_universe f fc c : c ∈ targets f fc -> c ∈ chain_universe f.
Proof.
  unfold targets, chain_universe. generalize (_cross_family f) (_large_window f). intros l1 l2.
  rewrite !elem_of_extend_new, !elem_of_app, !elem_of_extend_new.
  repeat case_match; set_solver.
Qed.

Lemma candidates_in_targets f fc c : c ∈ chain_candidates f -> c ∈ targets f fc.
Proof. intros Hc. unfold targets. rewrite elem_of_app, elem_of_extend_new. auto. Qed.

Lemma NoDup_chain_universe f : NoDup (chain_universe f).
Proof. apply NoDup_extend_new, NoDup_nil_2. Qed.

#[export] Hint Resolve targets_universe NoDup_chain_universe : studio.

(** ** Properties *)

(** the targets of every failure class start with the router's candidates,
    in order and without repetition, so no candidate is lost; a general
    failure tries exactly those. *)
Theorem targets_candidates_first f fc :
  extend_new [] (chain_candidates f) `prefix_of` targets f fc /\
  (forall c, c ∈ chain_candidates f -> c ∈ targets f fc) /\
  targets f FALLBACK_GENERAL = extend_new [] (chain_candidates f) /\
  NoDup (targets f FALLBACK_GENERAL).
Proof.
  unfold targets. split_and!.
  - by eexists.
  - intros c Hc. rewrite elem_of_app, elem_of_extend_new. set_solver.
  - simpl. by rewrite app_nil_r.
  - simpl. rewrite app_nil_r. auto with studio.
Qed.

(** a context-window overflow extends the chain by at most two catalog
    models that are not candidates, and they are the largest ones: a catalog
    model that is neither a candidate nor chosen is left out only when two
    models were chosen, each with a window at least as large. *)
Theorem large_window_spec f s :
  let out := _large_window f in
  targets f FALLBACK_CONTEXT_WINDOW = extend_new [] (chain_candidates f) ++ out /\
  (length out <= 2)%nat /\
  Forall (fun c => c ∉ chain_candidates f /\
    exists s', s' ∈ list_all default_catalog /\ c = spec_deployment s') out /\
  (s ∈ list_all default_catalog -> spec_deployment s ∉ chain_candidates f ->
   spec_deployment s ∉ out -> length out = 2%nat /\
   Forall (fun c => exists s', s' ∈ list_all default_catalog /\ c = spec_deployment s' /\
                               context_window s <= context_window s') out).
Proof.
  split; [done|]. apply large_window_of_spec.
Qed.

(** moving across provider families adds nothing to an unpinned request:
    its tail only repeats deployments of other families that the router's
    candidate list already holds (the tenant's entries are all candidates), so
    the targets of a content-policy refusal repeat deployments -- they are not
    deduplicated as the docstring says -- and are, as a set, those of a general
    failure. *)
Theorem cross_family_redundant catalog latency cheap r cfg cross c :
  truthy_opt (pinned r) = false ->
  let f := build_fallback_chain r (candidates catalog latency cheap r cfg) cfg cross in
  (c ∈ _cross_family f -> c.1 <> req_provider r) /\
  (c ∈ targets f FALLBACK_CONTENT_POLICY <-> c ∈ targets f FALLBACK_GENERAL).
Proof.
  intros Hp f.
  assert (Hincl : c ∈ _cross_family f -> c.1 <> req_provider r /\ c ∈ chain_candidates f).
  { intros (Hfam & Hc)%cross_family_incl. split.
    - intros Heq. rewrite Heq in Hfam. by eapply family_never_self.
    - destruct Hc as [?|Hc]; [done|]. subst f. simpl. apply candidates_elem; [done|]. auto. }
  split; [intros ?; by apply Hincl|].
  unfold targets. cbn [String.eqb FALLBACK_CONTENT_POLICY FALLBACK_GENERAL].
  simpl. rewrite !elem_of_app, !elem_of_extend_new.
  case_match; set_solver.
Qed.

Lemma cross_family_redundant_witness :
  let r := new_request "t1" [] in
  let cfg := Build_GatewayCfg None (Some ["anthropic:claude-3-5-haiku"])
    None None None None None None None in
  let f := build_fallback_chain r
    (candidates default_catalog new_tracker "gpt-4o-mini" r cfg) cfg None in
  targets f FALLBACK_CONTENT_POLICY =
    [("openai", "gpt-4o-mini"); ("anthropic", "claude-3-5-haiku");
     ("anthropic", "claude-3-5-haiku")] /\
  ("anthropic", "claude-3-5-haiku") ∈ _cross_family f /\
  (("anthropic", "claude-3-5-haiku") ∈ targets f FALLBACK_CONTENT_POLICY <->
   ("anthropic", "claude-3-5-haiku") ∈ targets f FALLBACK_GENERAL).
Proof.
  intros r cfg f. split; [vm_compute; reflexivity|]. split.
  - apply (bool_decide_unpack _). vm_compute. exact I.
  - apply (cross_family_redundant default_catalog new_tracker "gpt-4o-mini" r cfg None). reflexivity.
Defined.
