(* ===== verification/Redis.v ===== *)
(** * The Redis server the services talk to

    Redis is not part of the repository: its commands are parameters, and what
    the services rely on is the documented behaviour stated as the laws of the
    classes below.  The instances over finite maps show that the laws can hold,
    and run the witnesses.

    Keys carry an optional expiry instant (milliseconds of the server's clock),
    so the commands on keys take the instant [now] at which the server runs
    them.  A connection delivers commands in order and may fail: a fault
    schedule says, for each command, whether it is served, lost before the
    server ran it, or run by the server with its reply lost; a command without
    a reply raises. *)

From S2P Require Import Prelude.

(** ** Connections *)

Inductive fault := NoFault | LostRequest | LostReply.

#[export] Instance fault_eq_dec : EqDecision fault.
Proof. solve_decision. Defined.

Record redis (St : Type) := { store : St; faults : list fault }.
Arguments Build_redis {St} _ _.
Arguments store {St} _.
Arguments faults {St} _.

(** The exception a command without a reply raises. *)
Inductive redis_exc := RedisError.

Definition redis_call {St A} (f : St -> A * St) : io (redis St) redis_exc A := fun r =>
  match faults r with
  | LostRequest :: fs => (Raise RedisError, Build_redis (store r) fs)
  | LostReply :: fs => (Raise RedisError, Build_redis (f (store r)).2 fs)
  | NoFault :: fs => (Ret (f (store r)).1, Build_redis (f (store r)).2 fs)
  | [] => (Ret (f (store r)).1, Build_redis (f (store r)).2 [])
  end.

(** No command of the schedule fails. *)
Definition healthy {St} (r : redis St) : Prop := Forall (eq NoFault) (faults r).

Lemma redis_call_healthy {St A} (f : St -> A * St) (r : redis St) :
  healthy r ->
  exists fs, redis_call f r = (Ret (f (store r)).1, Build_redis (f (store r)).2 fs) /\
             Forall (eq NoFault) fs.
Proof.
  unfold healthy, redis_call. destruct (faults r) as [|[] fs]; intros H; inversion H; subst.
  - by exists [].
  - by exists fs.
  - done.
  - done.
Qed.

(** Every outcome of a command: it was run or not, and replied or not. *)
Lemma redis_call_cases {St A} (f : St -> A * St) (r : redis St) :
  (exists fs, redis_call f r = (Ret (f (store r)).1, Build_redis (f (store r)).2 fs)) \/
  (exists fs, redis_call f r = (Raise RedisError, Build_redis (f (store r)).2 fs)) \/
  (exists fs, redis_call f r = (Raise RedisError, Build_redis (store r) fs)).
Proof. unfold redis_call. destruct (faults r) as [|[] fs]; eauto. Qed.

(** ** Hashes of numbers (HGET, HSET, HINCRBYFLOAT) *)

Class RedisHash (St : Type) := {
  hget : string -> string -> St -> option Q;
  hset : string -> string -> Q -> St -> St;
  hincrbyfloat : string -> string -> Q -> St -> St;
  hget_hset k f v s k' f' :
    hget k' f' (hset k f v s) = if decide ((k', f') = (k, f)) then Some v else hget k' f' s;
  hget_hincrbyfloat k f d s k' f' :
    hget k' f' (hincrbyfloat k f d s) =
      if decide ((k', f') = (k, f)) then Some (default 0%Q (hget k f s) + d)%Q else hget k' f' s;
}.

Abbreviation hash_map := (gmap (string * string) Q).

#[export] Program Instance hash_map_RedisHash : RedisHash hash_map := {
  hget k f s := s !! (k, f);
  hset k f v s := <[(k, f) := v]> s;
  hincrbyfloat k f d s := <[(k, f) := (default 0%Q (s !! (k, f)) + d)%Q]> s;
}.
Next Obligation. intros. cbv beta. rewrite lookup_insert. repeat case_decide; naive_solver. Qed.
Next Obligation. intros. cbv beta. rewrite lookup_insert. repeat case_decide; naive_solver. Qed.

(** ** Keys with an expiry (SET, GET, DEL, PEXPIRE, KEYS) *)

Definition unexpired {V} (t : Z) (e : option (V * option Z)) : option (V * option Z) :=
  match e with
  | Some (v, Some d) => if t <? d then Some (v, Some d) else None
  | e => e
  end.

Class RedisKV (St V : Type) := {
  (** the visible value of a key and its expiry instant, at time [t] *)
  look : Z -> string -> St -> option (V * option Z);
  redis_set : Z -> string -> V -> option Z -> St -> St;
  redis_del : string -> St -> St;
  redis_pexpire : Z -> string -> Z -> St -> St;
  redis_keys : Z -> string -> St -> list string;
  look_later t t' k s : t <= t' -> look t' k s = unexpired t' (look t k s);
  look_set now t k v ttl s k' : now <= t ->
    look t k' (redis_set now k v ttl s) =
      if decide (k' = k) then unexpired t (Some (v, Z.add now <$> ttl)) else look t k' s;
  look_del t k s k' :
    look t k' (redis_del k s) = if decide (k' = k) then None else look t k' s;
  look_pexpire now t k ttl s k' : now <= t ->
    look t k' (redis_pexpire now k ttl s) =
      if decide (k' = k) then unexpired t ((fun e => (e.1, Some (now + ttl))) <$> look now k s)
      else look t k' s;
  elem_of_redis_keys now p s k :
    k ∈ redis_keys now p s <-> is_Some (look now k s) /\ String.prefix p k = true;
  NoDup_redis_keys now p s : NoDup (redis_keys now p s);
}.

(** GET *)
Definition redis_get {St V} `{RedisKV St V} (now : Z) (k : string) (s : St) : option V :=
  fst <$> look now k s.

(** PTTL *)
Definition redis_pttl {St V} `{RedisKV St V} (now : Z) (k : string) (s : St) : option Z :=
  match look now k s with
  | Some (_, Some d) => Some (d - now)
  | _ => None
  end.

(** An expiry instant that is still read is not over. *)
Lemma live_expiry {St V W} `{RedisKV St V} (now : Z) (k : string) (s : St) (v : W) :
  unexpired now (Some (v, look now k s ≫= snd)) = Some (v, look now k s ≫= snd).
Proof.
  pose proof (look_later now now k s ltac:(lia)) as E.
  destruct (look now k s) as [[v' [d|]]|]; try reflexivity. cbn in E |- *.
  by destruct (now <? d).
Qed.

(** DEL of several keys. *)

Section del_many.
Context {St V : Type} `{RedisKV St V}.

Lemma look_del_many t keys s k :
  look t k (foldr redis_del s keys) = if decide (k ∈ keys) then None else look t k s.
Proof.
  induction keys as [|x keys IH]; [done|]. cbn [foldr].
  rewrite look_del. destruct (decide (k = x)) as [->|Hne].
  - by rewrite decide_True by (apply elem_of_cons; by left).
  - rewrite IH. destruct (decide (k ∈ keys)) as [Hk|Hk].
    + by rewrite decide_True by (apply elem_of_cons; by right).
    + by rewrite decide_False by (rewrite elem_of_cons; naive_solver).
Qed.

(** Deleting every key with a prefix leaves no record under it, ever. *)
Lemma purge_prefix t now pre s k :
  now <= t -> String.prefix pre k = true ->
  look t k (foldr redis_del s (redis_keys now pre s)) = None.
Proof.
  intros Ht Hp. rewrite look_del_many. case_decide as Hk; [done|].
  rewrite (look_later now t) by done.
  rewrite elem_of_redis_keys in Hk. destruct (look now k s) eqn:E; [|done].
  exfalso. apply Hk. split; [by eexists|done].
Qed.

End del_many.

(** ** Counters (INCR, DECR): an absent key counts from zero, the expiry is kept *)

Class RedisCounter (St : Type) `{RedisKV St Z} := {
  redis_incrby : Z -> string -> Z -> St -> St;
  look_incrby now t k d s k' : now <= t ->
    look t k' (redis_incrby now k d s) =
      if decide (k' = k) then
        unexpired t (Some (default 0 (redis_get now k s) + d, look now k s ≫= snd))
      else look t k' s;
}.

(** INCRBY replies with the new value. *)
Definition incr_reply {St} `{RedisCounter St} (now : Z) (k : string) (d : Z) (s : St) : Z * St :=
  (default 0 (redis_get now k s) + d, redis_incrby now k d s).

Abbreviation kv_map V := (gmap string (V * option Z)).

Definition kv_look {V} (t : Z) (k : string) (s : kv_map V) := unexpired t (s !! k).

Lemma unexpired_twice {V} t t' (e : option (V * option Z)) :
  t <= t' -> unexpired t' (unexpired t e) = unexpired t' e.
Proof.
  destruct e as [[v [d|]]|]; simpl; try done. intros Ht.
  destruct (Z.ltb_spec t d); simpl; [done|].
  by destruct (Z.ltb_spec t' d); [lia|].
Qed.

Lemma string_prefix_app p k : String.prefix p (p +:+ k) = true.
Proof.
  induction p as [|a p IH]; simpl; [by destruct k|].
  destruct (ascii_dec a a); done.
Qed.

Lemma string_prefix_inv p k : String.prefix p k = true -> exists r, k = p +:+ r.
Proof.
  revert k. induction p as [|a p IH]; intros k; [by exists k|].
  destruct k as [|b k]; simpl; [done|]. destruct (ascii_dec a b) as [->|]; [|done].
  intros [r ->]%IH. by exists r.
Qed.

#[export] Program Instance kv_map_RedisKV V : RedisKV (kv_map V) V := {
  look := kv_look;
  redis_set now k v ttl s := <[k := (v, Z.add now <$> ttl)]> s;
  redis_del k s := delete k s;
  redis_pexpire now k ttl s :=
    match kv_look now k s with
    | Some (v, _) => <[k := (v, Some (now + ttl))]> s
    | None => delete k s
    end;
  redis_keys now p s :=
    List.filter (fun k => bool_decide (is_Some (kv_look now k s)) && String.prefix p k)
      (map_to_list s).*1;
}.
Next Obligation. intros. symmetry. by apply unexpired_twice. Qed.
Next Obligation.
  intros. unfold kv_look. rewrite lookup_insert. repeat case_decide; naive_solver.
Qed.
Next Obligation.
  intros. unfold kv_look. rewrite lookup_delete. repeat case_decide; naive_solver.
Qed.
Next Obligation.
  intros. unfold kv_look at 1. destruct (kv_look now k s) as [[v e]|] eqn:E.
  - rewrite lookup_insert. repeat case_decide; naive_solver.
  - rewrite lookup_delete. repeat case_decide; naive_solver.
Qed.
Next Obligation.
  intros. rewrite list_elem_of_In, filter_In, <- list_elem_of_In, list_elem_of_fmap.
  rewrite andb_true_iff, bool_decide_eq_true. split; [naive_solver|].
  intros [Hl Hp]. split; [|done]. destruct Hl as [e He]. unfold kv_look in He.
  destruct (s !! k) as [e'|] eqn:Ek; [|done].
  exists (k, e'). split; [done|]. by apply elem_of_map_to_list.
Qed.
Next Obligation. intros. apply NoDup_ListNoDup, List.NoDup_filter, NoDup_ListNoDup, NoDup_fst_map_to_list. Qed.

#[export] Program Instance kv_map_RedisCounter : RedisCounter (kv_map Z) := {
  redis_incrby now k d s :=
    <[k := (default 0 (fst <$> kv_look now k s) + d, kv_look now k s ≫= snd)]> s;
}.
Next Obligation.
  intros. unfold look, redis_get, look; simpl. unfold kv_look at 1.
  rewrite lookup_insert. repeat case_decide; naive_solver.
Qed.

(** ** Services over one connection

    The Redis-backed services share one shape: a connection, whether it was
    made at startup, and whether the degradation was logged. *)

Record managed (St : Type) := {
  m_conn : redis St;
  m_available : bool;
  m_degraded_logged : bool;
}.
Arguments Build_managed {St} _ _ _.
Arguments m_conn {St} _.
Arguments m_available {St} _.
Arguments m_degraded_logged {St} _.

Section managed.
Context {St : Type}.

Definition m_put (r : redis St) (c : managed St) : managed St :=
  {| m_conn := r; m_available := m_available c; m_degraded_logged := m_degraded_logged c |}.

Definition m_run {A} (f : St -> A * St) : io (managed St) redis_exc A :=
  lift m_conn m_put id (redis_call f).

Definition m_log_degraded_once {E} : io (managed St) E unit :=
  modify (fun c => {| m_conn := m_conn c; m_available := m_available c;
                      m_degraded_logged := true |}).

(** The shape of every operation: [off] without Redis, and after a failed
    command, which is logged. *)
Definition guarded {E A} (off : A) (body : io (managed St) redis_exc A) : io (managed St) E A :=
  c ← get_st;
  if negb (m_available c) then mret off
  else try_catch body (fun _ => _ ← m_log_degraded_once; mret off).

Definition m_serving (c : managed St) : Prop := healthy (m_conn c) /\ m_available c = true.

Lemma m_run_serving {A} (f : St -> A * St) c :
  m_serving c ->
  exists c', m_run f c = (Ret (f (store (m_conn c))).1, c') /\ m_serving c' /\
    store (m_conn c') = (f (store (m_conn c))).2.
Proof.
  intros [Hh Ha]. unfold m_run, lift.
  destruct (redis_call_healthy f (m_conn c) Hh) as (fs & -> & Hfs). by eexists.
Qed.

Lemma guarded_serving {E A} (off : A) body c a c' :
  m_available c = true -> body c = (Ret a, c') -> @guarded E A off body c = (Ret a, c').
Proof.
  intros Ha Hb. unfold guarded, mbind, io_bind, get_st, try_catch.
  rewrite Ha. simpl. by rewrite Hb.
Qed.

(** Whatever happens to the body, the operation answers; and it answers with
    the body's value, or [off] without Redis, or [off] after a log. *)
Lemma guarded_cases {E A} (off : A) body c :
  exists a c', @guarded E A off body c = (Ret a, c') /\
    (body c = (Ret a, c') \/
     (a = off /\ (m_available c = false \/ m_degraded_logged c' = true))).
Proof.
  unfold guarded, mbind, io_bind, get_st, try_catch. destruct (m_available c) eqn:Ea; simpl.
  - destruct (body c) as [[a|e] c'].
    + exists a, c'. split; [done|by left].
    + eexists _, _. split; [done|]. right. split; [done|by right].
  - exists off, c. split; [done|]. right. split; [done|by left].
Qed.

(** ** Services that give Redis up

    The services of the session tier flip a flag when a command fails and
    answer [off] from then on: nothing sets the flag again. *)

Definition m_mark_down {E} : io (managed St) E unit :=
  modify (fun c => {| m_conn := m_conn c; m_available := false;
                      m_degraded_logged := m_degraded_logged c |}).

Definition flipping {E A} (off : A) (body : io (managed St) redis_exc A) : io (managed St) E A :=
  c ← get_st;
  if negb (m_available c) then mret off
  else try_catch body (fun _ => _ ← m_mark_down; mret off).

Lemma flipping_serving {E A} (off : A) body c a c' :
  m_available c = true -> body c = (Ret a, c') -> @flipping E A off body c = (Ret a, c').
Proof.
  intros Ha Hb. unfold flipping, mbind, io_bind, get_st, try_catch.
  rewrite Ha. simpl. by rewrite Hb.
Qed.

Lemma flipping_down {E A} (off : A) body c :
  m_available c = false -> @flipping E A off body c = (Ret off, c).
Proof. intros Ha. unfold flipping, mbind, io_bind, get_st. by rewrite Ha. Qed.

(** It always answers: with the body's value, or with [off] and Redis given up. *)
Lemma flipping_cases {E A} (off : A) body c :
  exists a c', @flipping E A off body c = (Ret a, c') /\
    (body c = (Ret a, c') \/ (a = off /\ m_available c' = false)).
Proof.
  unfold flipping, mbind, io_bind, get_st, try_catch. destruct (m_available c) eqn:Ea; simpl.
  - destruct (body c) as [[a|e] c']; [exists a, c'; split; [done|by left]|].
    eexists _, _. split; [done|]. right. by split.
  - exists off, c. split; [done|]. right. by split.
Qed.

End managed.
