(* ===== verification/Quota.v ===== *)
(** * USD quota (backend/app/gateway/quota.py)

    Reservation and reconciliation of USD budgets at the four levels
    platform > tenant > surface > end-user.  The two Lua scripts of the module
    run atomically on the hash of one level; amounts are exact rationals. *)

From S2P Require Import Prelude Types Redis.

Definition _LEVELS : list string := ["platform"; "tenant"; "surface"; "end_user"].

Record QuotaLimits := {
  platform_usd : Q;
  tenant_usd : Q;
  surface_usd : Q;
  end_user_usd : Q;
}.

Definition level_limit (l : QuotaLimits) (level : string) : Q :=
  if decide (level = "platform") then platform_usd l
  else if decide (level = "tenant") then tenant_usd l
  else if decide (level = "surface") then surface_usd l
  else if decide (level = "end_user") then end_user_usd l
  else 0%Q.

(** [quota_limits_from_cfg] of backend/app/gateway/service.py *)
Definition quota_limits_from_cfg (cfg : GatewayCfg) : QuotaLimits := {|
  platform_usd := default 0%Q (quota_platform_usd cfg);
  tenant_usd := default 0%Q (quota_tenant_usd cfg);
  surface_usd := default 0%Q (quota_surface_usd cfg);
  end_user_usd := default 0%Q (quota_end_user_usd cfg);
|}.

Record QuotaConfig := { quota_prefix : string; soft_ratio : Q }.

Definition default_quota_config : QuotaConfig :=
  {| quota_prefix := "neryva:gateway:quota:"; soft_ratio := 0.8 |}.

Record QuotaReservation := {
  resv_request_id : string;
  estimated_usd : Q;
  resv_levels : list string;
  resv_keys : list string;
  resv_window : string;
}.

(** The text an f-string gives to an optional string. *)
Definition str_opt (o : option string) : string := default "None" o.

(** [QuotaService._level_key]; [None] is the [ValueError]. *)
Definition _level_key (cfg : QuotaConfig) (level tenant : string)
    (surface user : option string) (window : string) : option string :=
  let t := quota_prefix cfg +:+ "t:" +:+ tenant in
  if decide (level = "platform") then Some (quota_prefix cfg +:+ "platform:" +:+ window)
  else if decide (level = "tenant") then Some (t +:+ ":" +:+ window)
  else if decide (level = "surface") then Some (t +:+ ":s:" +:+ str_opt surface +:+ ":" +:+ window)
  else if decide (level = "end_user") then Some (t +:+ ":u:" +:+ str_opt user +:+ ":" +:+ window)
  else None.

(** A number of a Lua script's reply reaches the client truncated to an integer. *)
Definition lua_reply (q : Q) : Z := py_int q.

Section quota.
Context {St : Type} `{RedisHash St}.

Definition reserved_of (key : string) (s : St) : Q := default 0%Q (hget key "reserved" s).
Definition spent_of (key : string) (s : St) : Q := default 0%Q (hget key "spent" s).

(** [_RESERVE_LUA] *)
Definition reserve_script (key : string) (limit est : Q) (s : St) : (Z * Z) * St :=
  let reserved := reserved_of key s in
  let spent := spent_of key s in
  if (0 <?q limit) && (limit <?q spent + reserved + est)%Q
  then ((0, lua_reply (spent + reserved)%Q), s)
  else ((1, lua_reply (spent + reserved + est)%Q), hincrbyfloat key "reserved" est s).

(** [_RECONCILE_LUA] *)
Definition reconcile_script (key : string) (est actual : Q) (s : St) : Z * St :=
  let prev := reserved_of key s in
  let s := hset key "reserved" (Qmaxb 0 (prev - est)) s in
  (1, hincrbyfloat key "spent" actual s).

Record QuotaService := {
  conn : redis St;
  redis_available : bool;
  degraded_logged : bool;
  soft_alerts : list (string * Q * Q);
}.

Definition with_conn (q : QuotaService) (r : redis St) : QuotaService :=
  {| conn := r; redis_available := redis_available q; degraded_logged := degraded_logged q;
     soft_alerts := soft_alerts q |}.

Definition run {E A} (inj : redis_exc -> E) (f : St -> A * St) : io QuotaService E A :=
  lift conn (fun r q => with_conn q r) inj (redis_call f).

Definition _log_degraded_once {E} : io QuotaService E unit :=
  modify (fun q => {| conn := conn q; redis_available := redis_available q;
                      degraded_logged := true; soft_alerts := soft_alerts q |}).

Definition soft_alert {E} (level : string) (limit projected : Q) : io QuotaService E unit :=
  modify (fun q => {| conn := conn q; redis_available := redis_available q;
                      degraded_logged := degraded_logged q;
                      soft_alerts := soft_alerts q ++ [(level, limit, projected)] |}).

(** The loop of [reconcile] and [_rollback]: the script is run on each key. *)
Definition settle_loop (keys : list string) (est actual : Q) : io QuotaService redis_exc unit :=
  for_each (fun key => _ ← run id (reconcile_script key est actual); mret tt) keys.

(** [QuotaService._rollback] *)
Definition _rollback {E} (keys : list string) (est : Q) : io QuotaService E unit :=
  q ← get_st;
  if negb (redis_available q) || bool_decide (keys = []) then mret tt
  else try_catch (settle_loop keys est 0) (fun _ => mret tt).

(** How the level loop of [reserve] leaves: over budget, or a failed command
    with the keys acquired so far (the local variable its handler reads). *)
Inductive reserve_exc :=
| Exceeded (level : string) (limit projected : Q)
| Failed (acquired : list string).

(** The level loop of [QuotaService.reserve]. *)
Fixpoint reserve_levels (cfg : QuotaConfig) (limits : QuotaLimits) (tenant : string)
    (surface user : option string) (est : Q) (window : string)
    (acq_levels acq_keys : list string) (levels : list string) :
    io QuotaService reserve_exc (list string * list string) :=
  match levels with
  | [] => mret (acq_levels, acq_keys)
  | level :: levels' =>
      let limit := level_limit limits level in
      if limit <=?q 0 then
        reserve_levels cfg limits tenant surface user est window acq_levels acq_keys levels'
      else
        match _level_key cfg level tenant surface user window with
        | None => throw (Failed acq_keys)
        | Some key =>
            reply ← run (fun _ => Failed acq_keys) (reserve_script key limit est);
            let projected := inject_Z (snd reply) in
            if fst reply =? 0 then
              _ ← _rollback acq_keys est;
              throw (Exceeded level limit projected)
            else
              _ ← (if soft_ratio cfg * limit <=?q projected
                   then soft_alert level limit projected else mret tt);
              reserve_levels cfg limits tenant surface user est window
                (acq_levels ++ [level]) (acq_keys ++ [key]) levels'
        end
  end.

(** [QuotaService.reserve] *)
Definition reserve (cfg : QuotaConfig) (limits : QuotaLimits) (tenant : string)
    (surface user : option string) (est : Q) (request_id window : string) :
    io QuotaService gateway_exc (option QuotaReservation) :=
  if est <=?q 0 then mret None
  else
    q ← get_st;
    if negb (redis_available q) then (_ ← _log_degraded_once; mret None)
    else
      try_catch
        (acq ← reserve_levels cfg limits tenant surface user est window [] [] _LEVELS;
         mret (Some {| resv_request_id := request_id; estimated_usd := est;
                       resv_levels := fst acq; resv_keys := snd acq; resv_window := window |}))
        (fun e => match e with
         | Exceeded level limit projected => throw (GatewayQuotaExceeded level limit projected)
         | Failed acquired =>
             _ ← _rollback acquired est; _ ← _log_degraded_once; mret None
         end).

(** [QuotaService.reconcile] *)
Definition reconcile {E} (r : option QuotaReservation) (actual : Q) : io QuotaService E unit :=
  match r with
  | None => mret tt
  | Some r =>
      if bool_decide (resv_keys r = []) then mret tt
      else
        q ← get_st;
        if negb (redis_available q) then _log_degraded_once
        else
          try_catch (settle_loop (resv_keys r) (estimated_usd r) actual)
            (fun _ => _log_degraded_once)
  end.

(** [QuotaService.release] *)
Definition release {E} (r : option QuotaReservation) : io QuotaService E unit :=
  match r with
  | None => mret tt
  | Some r' => if bool_decide (resv_keys r' = []) then mret tt else reconcile r 0
  end.

(** ** Balances *)

Definition balance (key : string) (s : St) : Q * Q := (reserved_of key s, spent_of key s).

Definition bal_eq (b1 b2 : Q * Q) : Prop := (b1.1 == b2.1)%Q /\ (b1.2 == b2.2)%Q.

#[export] Instance bal_eq_equivalence : Equivalence bal_eq.
Proof.
  split.
  - by split.
  - intros ?? []. split; by symmetry.
  - intros ??? [] []. split; by etrans.
Qed.

Lemma reserved_of_hset k v s k' :
  reserved_of k' (hset k "reserved" v s) = if decide (k' = k) then v else reserved_of k' s.
Proof.
  unfold reserved_of. rewrite hget_hset. repeat case_decide; naive_solver.
Qed.

Lemma spent_of_hset_reserved k v s k' :
  spent_of k' (hset k "reserved" v s) = spent_of k' s.
Proof. unfold spent_of. rewrite hget_hset. by case_decide. Qed.

Lemma reserved_of_hincr k d s k' :
  reserved_of k' (hincrbyfloat k "reserved" d s) =
    if decide (k' = k) then (reserved_of k s + d)%Q else reserved_of k' s.
Proof.
  unfold reserved_of. rewrite hget_hincrbyfloat. repeat case_decide; naive_solver.
Qed.

Lemma spent_of_hincr_reserved k d s k' :
  spent_of k' (hincrbyfloat k "reserved" d s) = spent_of k' s.
Proof. unfold spent_of. rewrite hget_hincrbyfloat. by case_decide. Qed.

Lemma spent_of_hincr k d s k' :
  spent_of k' (hincrbyfloat k "spent" d s) =
    if decide (k' = k) then (spent_of k s + d)%Q else spent_of k' s.
Proof.
  unfold spent_of. rewrite hget_hincrbyfloat. repeat case_decide; naive_solver.
Qed.

Lemma reserved_of_hincr_spent k d s k' :
  reserved_of k' (hincrbyfloat k "spent" d s) = reserved_of k' s.
Proof. unfold reserved_of. rewrite hget_hincrbyfloat. by case_decide. Qed.

Lemma reconcile_script_balance key est actual s k :
  balance k (reconcile_script key est actual s).2 =
    if decide (k = key)
    then (Qmaxb 0 (reserved_of key s - est), (spent_of key s + actual)%Q)
    else balance k s.
Proof.
  unfold balance, reconcile_script; simpl.
  rewrite reserved_of_hincr_spent, reserved_of_hset, spent_of_hincr, !spent_of_hset_reserved.
  by case_decide.
Qed.

Lemma reserve_script_balance key limit est s :
  let '(ok, _, s') := reserve_script key limit est s in
  (ok = 0 /\ s' = s /\ (0 < limit)%Q /\ (limit < spent_of key s + reserved_of key s + est)%Q) \/
  (ok = 1 /\ (forall k, balance k s' =
      if decide (k = key) then ((reserved_of key s + est)%Q, spent_of key s) else balance k s) /\
   ((0 < limit)%Q -> (spent_of key s + reserved_of key s + est <= limit)%Q)).
Proof.
  unfold reserve_script. destruct (_ && _) eqn:Et.
  - left. to_prop. q_prop. done.
  - right. split_and!; [done| |].
    + intros k. unfold balance. rewrite reserved_of_hincr, spent_of_hincr_reserved. by case_decide; subst.
    + intros Hl%Qltb_true. rewrite Hl in Et. simpl in Et. by q_prop.
Qed.

(** ** Holding and settling a balance *)

Definition hold (est : Q) (b : Q * Q) : Q * Q := ((b.1 + est)%Q, b.2).
Definition settle (est actual : Q) (b : Q * Q) : Q * Q :=
  (Qmaxb 0 (b.1 - est), (b.2 + actual)%Q).

#[export] Instance settle_proper est actual : Proper (bal_eq ==> bal_eq) (settle est actual).
Proof.
  intros [r s] [r' s'] [Hr Hs]; simpl in *. split; simpl; [|by rewrite Hs].
  apply Qmaxb_proper; [done|]. by rewrite Hr.
Qed.

#[export] Instance hold_proper est : Proper (bal_eq ==> bal_eq) (hold est).
Proof. intros [r s] [r' s'] [Hr Hs]; simpl in *. split; simpl; [by rewrite Hr|done]. Qed.

(** Settling at no cost undoes a hold. *)
Lemma settle_hold est b : (0 <= b.1)%Q -> bal_eq (settle est 0 (hold est b)) b.
Proof.
  destruct b as [r s]; simpl. intros Hr. split; simpl; [|lra].
  rewrite Qmaxb_r by lra. lra.
Qed.

(** The balances of a service and the other parts of its state. *)
Definition bal (q : QuotaService) (k : string) : Q * Q := balance k (store (conn q)).

Definition serving (q : QuotaService) : Prop := healthy (conn q) /\ redis_available q = true.

Lemma run_serving {E A} inj (f : St -> A * St) q :
  serving q ->
  exists q', @run E A inj f q = (Ret (f (store (conn q))).1, q') /\ serving q' /\
    store (conn q') = (f (store (conn q))).2 /\ soft_alerts q' = soft_alerts q.
Proof.
  intros [Hh Ha]. unfold run, lift.
  destruct (redis_call_healthy f (conn q) Hh) as (fs & -> & Hfs).
  by eexists.
Qed.

(** The loop of [reconcile] and [_rollback] over distinct keys. *)
Lemma settle_keys keys est actual q :
  NoDup keys -> serving q ->
  exists q', settle_loop keys est actual q = (Ret tt, q') /\ serving q' /\
    soft_alerts q' = soft_alerts q /\
    forall k, bal q' k = if decide (k ∈ keys) then settle est actual (bal q k) else bal q k.
Proof.
  intros Hnd. revert q. induction Hnd as [|key keys Hk Hnd IH]; intros q Hq.
  { by exists q. }
  destruct (run_serving id (reconcile_script key est actual) q Hq) as (q1 & Hr & Hq1 & Hs & Ha).
  destruct (IH q1 Hq1) as (q2 & Hr2 & Hq2 & Ha2 & Hb2).
  exists q2. split_and!; [|done|congruence|].
  - unfold settle_loop. cbn [for_each]. unfold mbind, io_bind. rewrite Hr. exact Hr2.
  - intros k. rewrite Hb2. unfold bal. rewrite Hs, reconcile_script_balance.
    destruct (decide (k = key)) as [->|Hne].
    + rewrite decide_False by done. by rewrite decide_True by set_solver.
    + destruct (decide (k ∈ keys)); [by rewrite decide_True by set_solver|].
      by rewrite decide_False by set_solver.
Qed.

(** ** The levels a request is charged at *)

(** The levels with a limit, with their keys. *)
Definition charged (cfg : QuotaConfig) (limits : QuotaLimits) (tenant : string)
    (surface user : option string) (window : string) (levels : list string) :
    list (string * string) :=
  flat_map (fun level =>
    if level_limit limits level <=?q 0 then []
    else match _level_key cfg level tenant surface user window with
         | Some key => [(level, key)]
         | None => []
         end) levels.

(** The four keys of a request differ, whatever the identifiers hold. *)
Lemma level_keys_NoDup cfg tenant surface user window :
  NoDup (omap (fun l => _level_key cfg l tenant surface user window) _LEVELS).
Proof.
  set (t := quota_prefix cfg +:+ "t:" +:+ tenant).
  assert (omap (fun l => _level_key cfg l tenant surface user window) _LEVELS =
    [quota_prefix cfg +:+ "platform:" +:+ window; t +:+ ":" +:+ window;
     t +:+ ":s:" +:+ str_opt surface +:+ ":" +:+ window;
     t +:+ ":u:" +:+ str_opt user +:+ ":" +:+ window]) as -> by done.
  assert (forall a b, String "p" a <> String "t" b) as Hpt by done.
  repeat constructor; rewrite ?elem_of_cons, ?elem_of_nil; unfold t;
    intros Hin; destruct_or?; try done;
    repeat match goal with
    | H : (_ +:+ _) +:+ _ = _ |- _ => rewrite !string_app_assoc in H
    | H : _ = (_ +:+ _) +:+ _ |- _ => rewrite !string_app_assoc in H
    | H : ?p +:+ _ = ?p +:+ _ |- _ => apply (inj (String.append p)) in H
    end; try done;
    match goal with H : _ = _ |- _ =>
      apply (f_equal String.length) in H; rewrite ?string_length_app in H; simpl in H; lia
    end.
Qed.

Lemma charged_sublist cfg limits tenant surface user window ls :
  (charged cfg limits tenant surface user window ls).*2 `sublist_of`
  omap (fun l => _level_key cfg l tenant surface user window) ls.
Proof.
  induction ls as [|l ls IH]; [done|]. cbn [charged flat_map omap list_omap].
  fold (charged cfg limits tenant surface user window ls).
  destruct (_ <=?q 0); simpl; destruct (_level_key _ _ _ _ _ _); simpl; try done.
  - by apply sublist_cons.
  - by apply sublist_skip.
Qed.

Lemma charged_NoDup cfg limits tenant surface user window :
  NoDup (charged cfg limits tenant surface user window _LEVELS).*2.
Proof. eapply sublist_NoDup; [apply level_keys_NoDup|apply charged_sublist]. Qed.

(** ** What the level loop of [reserve] does when every command is served *)

Lemma rollback_serving {E} keys est q :
  NoDup keys -> serving q ->
  exists q', @_rollback E keys est q = (Ret tt, q') /\ serving q' /\
    forall k, bal q' k = if decide (k ∈ keys) then settle est 0 (bal q k) else bal q k.
Proof.
  intros Hnd Hq. unfold _rollback, mbind, io_bind, get_st.
  pose proof Hq as [_ ->]. simpl. case_bool_decide as Hk.
  { subst. by exists q. }
  destruct (settle_keys keys est 0 q Hnd Hq) as (q' & Hr & Hq' & _ & Hb).
  exists q'. split_and!; [|done|done]. unfold try_catch. by rewrite Hr.
Qed.

(** [held b0 est keys q]: the balances [b0] with [est] held on [keys]. *)
Definition held (b0 : string -> Q * Q) (est : Q) (keys : list string) (q : QuotaService) : Prop :=
  forall k, bal_eq (bal q k) (if decide (k ∈ keys) then hold est (b0 k) else b0 k).

Section level_loop.
Context (cfg : QuotaConfig) (limits : QuotaLimits) (tenant : string).
Context (surface user : option string) (est : Q) (window : string).
Context (b0 : string -> Q * Q).
Context (Hb0 : forall k, (0 <= (b0 k).1)%Q).

Abbreviation ch levels := (charged cfg limits tenant surface user window levels).
Abbreviation loop := (reserve_levels cfg limits tenant surface user est window).

(** One limited level: refused and rolled back, or held. *)
Lemma level_step level key acq q :
  _level_key cfg level tenant surface user window = Some key ->
  (0 < level_limit limits level)%Q ->
  NoDup acq -> key ∉ acq -> serving q -> held b0 est acq q ->
  let r := reserve_script key (level_limit limits level) est (store (conn q)) in
  exists q', run (fun _ => Failed acq) (reserve_script key (level_limit limits level) est) q
               = (Ret r.1, q') /\ serving q' /\
    if r.1.1 =? 0
    then held b0 est acq q' /\
         (level_limit limits level < (b0 key).2 + (b0 key).1 + est)%Q
    else held b0 est (acq ++ [key]) q' /\
         ((b0 key).2 + (b0 key).1 + est <= level_limit limits level)%Q.
Proof.
  intros Hk Hl Hnd Hnk Hq Hh r.
  destruct (run_serving (fun _ => Failed acq) (reserve_script key (level_limit limits level) est)
              q Hq) as (q1 & Hr & Hq1 & Hs & _).
  exists q1. split_and!; [done|done|].
  pose proof (reserve_script_balance key (level_limit limits level) est (store (conn q))) as Hsp.
  fold r in Hsp, Hs. destruct r as [[ok rep] s']. simpl in Hs |- *. subst s'.
  pose proof (Hh key) as Hkey. rewrite decide_False in Hkey by done.
  destruct Hkey as [Hr1 Hs1]. unfold bal, balance in Hr1, Hs1. simpl in Hr1, Hs1.
  destruct Hsp as [(-> & Hs' & _ & Hlim)|(-> & Hb & Hlim)]; simpl.
  - split; [|lra]. intros k. unfold bal. rewrite Hs'. apply Hh.
  - split; [|specialize (Hlim Hl); lra]. intros k. unfold bal. rewrite Hb.
    destruct (decide (k = key)) as [->|Hne].
    + rewrite decide_True by set_solver. split; simpl; [by rewrite Hr1|done].
    + specialize (Hh k). destruct (decide (k ∈ acq)).
      * by rewrite decide_True by set_solver.
      * by rewrite decide_False by set_solver.
Qed.

Lemma held_rollback acq q q' :
  held b0 est acq q ->
  (forall k, bal q' k = if decide (k ∈ acq) then settle est 0 (bal q k) else bal q k) ->
  held b0 est [] q'.
Proof.
  intros Hh Hb k. rewrite Hb, (decide_False (P := k ∈ [])) by apply not_elem_of_nil. specialize (Hh k).
  case_decide; [|done]. rewrite Hh. by apply settle_hold.
Qed.

Lemma reserve_levels_spec levels acq_levels acq_keys q :
  Forall (fun l => l ∈ _LEVELS) levels ->
  NoDup (acq_keys ++ (ch levels).*2) -> serving q -> held b0 est acq_keys q ->
  let within key level := ((b0 key).2 + (b0 key).1 + est <= level_limit limits level)%Q in
  exists o q', loop acq_levels acq_keys levels q = (o, q') /\ serving q' /\
    match o with
    | Ret (ls, ks) =>
        ls = acq_levels ++ (ch levels).*1 /\ ks = acq_keys ++ (ch levels).*2 /\
        held b0 est ks q' /\ Forall (fun lk => within lk.2 lk.1) (ch levels)
    | Raise (Exceeded level limit _) =>
        limit = level_limit limits level /\ held b0 est [] q' /\
        exists key, (level, key) ∈ ch levels /\ ~ within key level
    | Raise (Failed _) => False
    end.
Proof.
  simpl. intros HL. revert acq_levels acq_keys q.
  induction HL as [|level levels Hlv HL IH]; intros acq_levels acq_keys q Hnd Hq Hh.
  { eexists _, q. split; [done|]. split; [done|]. simpl. rewrite !app_nil_r. by split_and!; [| | |constructor]. }
  assert (exists key, _level_key cfg level tenant surface user window = Some key) as [key Hk].
  { unfold _LEVELS in Hlv. rewrite !elem_of_cons, elem_of_nil in Hlv.
    destruct_or?; subst; by try eexists. }
  cbn [reserve_levels charged flat_map] in *. fold (ch levels) in *. rewrite Hk in Hnd |- *.
  destruct (level_limit limits level <=?q 0) eqn:Elim; simpl in Hnd |- *.
  { destruct (IH acq_levels acq_keys q) as (o & q' & ? & ? & ?); [done..|]. by exists o, q'. }
  q_prop. apply NoDup_app in Hnd as (Hacq & Hdis & [Hkn Hnd]%NoDup_cons).
  assert (key ∉ acq_keys) as Hnk by (intros Hin; apply (Hdis key Hin); set_solver).
  pose proof (level_step level key acq_keys q Hk Elim Hacq Hnk Hq Hh) as (q1 & Hr & Hq1 & Hcase).
  unfold mbind, io_bind. rewrite Hr. destruct (_ =? 0).
  - destruct Hcase as [Hh1 Hover].
    destruct (@rollback_serving reserve_exc acq_keys est q1 Hacq Hq1) as (q2 & Hr2 & Hq2 & Hb2).
    rewrite Hr2. eexists _, q2. split; [done|]. split; [done|]. simpl.
    split; [done|]. split; [by eapply held_rollback|].
    exists key. split; [set_solver|]. lra.
  - destruct Hcase as [Hh1 Hin]. match goal with |- context [if ?b then soft_alert _ _ _ else _] => set (sa := b) end.
    assert (exists q2, (if sa then soft_alert level (level_limit limits level)
        (inject_Z (reserve_script key (level_limit limits level) est (store (conn q))).1.2)
        else mret tt) q1 = (Ret (E:=reserve_exc) tt, q2) /\ serving q2 /\ conn q2 = conn q1) as (q2 & -> & Hq2 & Hc2).
    { destruct sa; eexists; split; done. }
    destruct (IH (acq_levels ++ [level]) (acq_keys ++ [key]) q2) as (o & q' & Ho & Hq' & Hpost).
    + rewrite <- app_assoc. simpl. apply NoDup_app. split_and!; [done|done|by constructor].
    + done.
    + intros k. unfold bal. rewrite Hc2. apply Hh1.
    + exists o, q'. split; [done|]. split; [done|].
      destruct o as [[ls ks]|[lv lim pr|]]; [| |done].
      * destruct Hpost as (-> & -> & Hh' & Hw). rewrite <- !app_assoc. split; [done|]. split; [done|]. split; [by rewrite <- app_assoc in Hh'|]. by constructor.
      * destruct Hpost as (-> & Hh' & key' & Hin' & Hn). split; [done|]. split; [done|].
        exists key'. split; [set_solver|done].
Qed.

End level_loop.

(** ** Reservations *)

Definition reserved_nonneg (q : QuotaService) : Prop := forall k, (0 <= (bal q k).1)%Q.

Definition unchanged (q q' : QuotaService) : Prop := forall k, bal_eq (bal q' k) (bal q k).

(** [reserve] when every command is served: the hold of [est] on the keys it
    charges, or a refusal that leaves no trace. *)
Lemma reserve_serving cfg limits tenant surface user est rid window q :
  (0 < est)%Q -> reserved_nonneg q -> serving q ->
  let ch := charged cfg limits tenant surface user window _LEVELS in
  exists o q', reserve cfg limits tenant surface user est rid window q = (o, q') /\ serving q' /\
    match o with
    | Ret (Some r) =>
        r = {| resv_request_id := rid; estimated_usd := est; resv_levels := ch.*1;
               resv_keys := ch.*2; resv_window := window |} /\
        held (bal q) est ch.*2 q' /\
        Forall (fun lk => ((bal q' lk.2).1 + (bal q' lk.2).2 <= level_limit limits lk.1)%Q) ch
    | Raise (GatewayQuotaExceeded level limit _) =>
        limit = level_limit limits level /\ unchanged q q' /\
        exists key, (level, key) ∈ ch /\ (limit < (bal q key).1 + (bal q key).2 + est)%Q
    | _ => False
    end.
Proof.
  intros Hest Hnn Hq ch.
  destruct (reserve_levels_spec cfg limits tenant surface user est window (bal q) Hnn _LEVELS
    [] [] q) as (o & q' & Ho & Hq' & Hpost).
  - apply Forall_forall. auto.
  - apply charged_NoDup.
  - done.
  - intros k. by rewrite decide_False by apply not_elem_of_nil.
  - unfold reserve, mbind, io_bind, get_st, try_catch.
    destruct (est <=?q 0) eqn:Ee; [q_prop; lra|]. pose proof Hq as [_ ->]. cbn [negb]. cbv beta iota zeta.
    rewrite Ho. destruct o as [[ls ks]|[lv lim pr|]]; [| |done].
    + destruct Hpost as (-> & -> & Hh & Hw). eexists _, q'. split; [done|]. split; [done|].
      split; [done|]. split; [done|]. fold ch in Hw, Hh. apply Forall_forall. intros [lv k] Hin.
      rewrite Forall_forall in Hw. specialize (Hw _ Hin). specialize (Hh k). simpl in *.
      rewrite decide_True in Hh by (apply list_elem_of_fmap; by exists (lv, k)).
      destruct Hh as [-> ->]. simpl. lra.
    + destruct Hpost as (-> & Hh & key & Hin & Hn). eexists _, q'. split; [done|]. split; [done|].
      split; [done|]. split.
      * intros k. specialize (Hh k). by rewrite decide_False in Hh by apply not_elem_of_nil.
      * exists key. split; [done|]. apply Qnot_le_lt in Hn. lra.
Qed.

(** [reconcile] when every command is served. *)
Lemma reconcile_serving {E} r actual q :
  NoDup (resv_keys r) -> serving q ->
  exists q', @reconcile E (Some r) actual q = (Ret tt, q') /\ serving q' /\
    forall k, bal q' k = if decide (k ∈ resv_keys r)
                         then settle (estimated_usd r) actual (bal q k) else bal q k.
Proof.
  intros Hnd Hq. unfold reconcile. case_bool_decide as Hk.
  { rewrite Hk. by exists q. }
  destruct (settle_keys (resv_keys r) (estimated_usd r) actual q Hnd Hq) as (q' & Hr & Hq' & _ & Hb).
  exists q'. split_and!; [|done|done]. unfold mbind, io_bind, get_st, try_catch.
  pose proof Hq as [_ ->]. simpl. by rewrite Hr.
Qed.

Lemma settle_held est actual b :
  (0 <= b.1)%Q -> bal_eq (settle est actual (hold est b)) (b.1, (b.2 + actual)%Q).
Proof.
  destruct b as [r s]; simpl. intros Hr. split; simpl; [|lra]. rewrite Qmaxb_r by lra. lra.
Qed.

(** ** Interleaved requests on one level

    The scripts of concurrent requests reach the server in some order; a
    request reconciles a hold it was granted. *)

Record ledger_state := {
  lstore : St;
  holds : list Q;        (* estimates granted and not yet reconciled *)
  overrun : Q;           (* what reconciled requests cost beyond their estimates *)
}.

Inductive level_event := EvReserve (est : Q) | EvReconcile (est actual : Q).

Inductive level_step_rel (key : string) (limit : Q) : ledger_state -> level_event -> ledger_state -> Prop :=
| step_granted s est s' rep : (0 < est)%Q ->
    reserve_script key limit est (lstore s) = ((1, rep), s') ->
    level_step_rel key limit s (EvReserve est)
      {| lstore := s'; holds := est :: holds s; overrun := overrun s |}
| step_refused s est s' rep : (0 < est)%Q ->
    reserve_script key limit est (lstore s) = ((0, rep), s') ->
    level_step_rel key limit s (EvReserve est)
      {| lstore := s'; holds := holds s; overrun := overrun s |}
| step_reconcile s est actual pre post : (0 <= actual)%Q ->
    holds s = pre ++ est :: post ->
    level_step_rel key limit s (EvReconcile est actual)
      {| lstore := (reconcile_script key est actual (lstore s)).2; holds := pre ++ post;
         overrun := (overrun s + Qmaxb 0 (actual - est))%Q |}.

Inductive level_reachable (key : string) (limit : Q) (s0 : St) : ledger_state -> Prop :=
| reach_init : level_reachable key limit s0 {| lstore := s0; holds := []; overrun := 0 |}
| reach_step s ev s' : level_reachable key limit s0 s -> level_step_rel key limit s ev s' ->
    level_reachable key limit s0 s'.

Definition Qsum (l : list Q) : Q := foldr Qplus 0%Q l.

Lemma Qsum_app l1 l2 : (Qsum (l1 ++ l2) == Qsum l1 + Qsum l2)%Q.
Proof. induction l1 as [|x l1 IH]; simpl; [lra|]. fold (Qsum (l1 ++ l2)) (Qsum l1). rewrite IH. lra. Qed.

Lemma Qsum_nonneg l : Forall (fun x => 0 < x)%Q l -> (0 <= Qsum l)%Q.
Proof. induction 1 as [|x l Hx _ IH]; simpl; [lra|]. fold (Qsum l). lra. Qed.

Record level_inv (key : string) (limit : Q) (s : ledger_state) : Prop := {
  linv_pos : Forall (fun x => 0 < x)%Q (holds s);
  linv_sum : (reserved_of key (lstore s) == Qsum (holds s))%Q;
  linv_over : (0 <= overrun s)%Q;
  linv_cap : (spent_of key (lstore s) + reserved_of key (lstore s) <= limit + overrun s)%Q;
}.

Lemma level_inv_step key limit s ev s' :
  (0 < limit)%Q -> level_inv key limit s -> level_step_rel key limit s ev s' -> level_inv key limit s'.
Proof.
  intros Hl [Hp Hs Ho Hc] Hst. destruct Hst as [s est s' rep He Hr|s est s' rep He Hr|s est actual pre post Ha Hh].
  - pose proof (reserve_script_balance key limit est (lstore s)) as H'. rewrite Hr in H'.
    destruct H' as [[? _]|(_ & Hb & Hlim)]; [done|]. specialize (Hb key). rewrite decide_True in Hb by done.
    unfold balance in Hb. injection Hb as Hb1 Hb2. specialize (Hlim Hl).
    split; simpl; [by constructor| | |]; rewrite ?Hb1, ?Hb2; fold (Qsum (holds s)); try lra.
  - pose proof (reserve_script_balance key limit est (lstore s)) as H'. rewrite Hr in H'.
    destruct H' as [(_ & -> & _)|[? _]]; [|done]. by split.
  - pose proof (reconcile_script_balance key est actual (lstore s) key) as Hb.
    rewrite decide_True in Hb by done. unfold balance in Hb. injection Hb as Hb1 Hb2.
    rewrite Hh, Forall_app, Forall_cons in Hp. destruct Hp as (Hpre & He & Hpost).
    rewrite Hh, Qsum_app in Hs. simpl in Hs. fold (Qsum post) in Hs.
    pose proof (Qsum_nonneg pre Hpre). pose proof (Qsum_nonneg post Hpost).
    destruct (Qmaxb_spec 0 (actual - est)) as [Hm1 Hm2].
    assert (Qmaxb 0 (reserved_of key (lstore s) - est) == reserved_of key (lstore s) - est)%Q as Hm
      by (apply Qmaxb_r; lra).
    split; simpl; rewrite ?Hb1, ?Hb2, ?Hm, ?Qsum_app; try lra. by apply Forall_app.
Qed.

(** ** When commands fail *)

Lemma reserve_levels_faults cfg limits tenant surface user est window levels als aks q :
  match (reserve_levels cfg limits tenant surface user est window als aks levels q).1 with
  | Ret (ls, ks) =>
      ks = aks ++ (charged cfg limits tenant surface user window levels).*2
  | Raise _ => True
  end.
Proof.
  revert als aks q. induction levels as [|level levels IH]; intros als aks q; simpl.
  { by rewrite app_nil_r. }
  destruct (_ <=?q 0); [apply IH|].
  destruct (_level_key _ _ _ _ _ _) as [key|]; [|done].
  unfold mbind, io_bind, run, lift.
  destruct (redis_call _ _) as [[r|] c]; [|done].
  destruct (_ =? 0); [by destruct (_rollback _ _ _) as [[] ?]|].
  match goal with |- context [if ?b then soft_alert _ _ _ else _] => destruct b end; simpl;
    match goal with |- context [reserve_levels _ _ _ _ _ _ _ ?a ?b _ ?s] =>
      specialize (IH a b s) end;
    destruct (reserve_levels _ _ _ _ _ _ _ _ _ _ _) as [[[]|] ?]; simpl in *; try done;
    by rewrite IH, <- app_assoc.
Qed.

(** The only exception that leaves [reserve] is the refusal. *)
Lemma reserve_outcomes cfg limits tenant surface user est rid window q :
  match reserve cfg limits tenant surface user est rid window q with
  | (Ret None, q') => (est <= 0)%Q \/ degraded_logged q' = true
  | (Ret (Some r), _) => resv_keys r = (charged cfg limits tenant surface user window _LEVELS).*2
  | (Raise e, _) => exists level limit projected, e = GatewayQuotaExceeded level limit projected
  end.
Proof.
  unfold reserve. destruct (est <=?q 0) eqn:Ee; [q_prop; by left|].
  unfold mbind, io_bind, get_st, try_catch.
  destruct (negb _); [by right|].
  pose proof (reserve_levels_faults cfg limits tenant surface user est window _LEVELS [] [] q) as Hf.
  destruct (reserve_levels _ _ _ _ _ _ _ _ _ _ q) as [[[ls ks]|[]] q']; simpl in *.
  - done.
  - eauto.
  - unfold _rollback, mbind, io_bind, get_st, try_catch.
    destruct (_ || _); [by right|]. destruct (settle_loop _ _ _ _) as [[] ?]; by right.
Qed.

Lemma reserve_raises cfg limits tenant surface user est rid window q e q' :
  reserve cfg limits tenant surface user est rid window q = (Raise e, q') ->
  exists level limit projected, e = GatewayQuotaExceeded level limit projected.
Proof.
  intros Hr. pose proof (reserve_outcomes cfg limits tenant surface user est rid window q) as Ho.
  by rewrite Hr in Ho.
Qed.

(** ** Properties *)

(** with every command served, [reserve] either holds the estimate on
    exactly the keys of the limited levels, each of which then stays within
    its limit (spent and reserved together), or raises [GatewayQuotaExceeded]
    for a level whose limit the estimate would have passed, with every
    balance as it was before the call (the levels already charged are rolled
    back). It never gives up enforcement. *)
Theorem reserve_spec cfg limits tenant surface user est rid window q :
  (0 < est)%Q -> reserved_nonneg q -> serving q ->
  let ch := charged cfg limits tenant surface user window _LEVELS in
  match reserve cfg limits tenant surface user est rid window q with
  | (Ret (Some r), q') =>
      resv_keys r = ch.*2 /\ resv_levels r = ch.*1 /\ estimated_usd r = est /\
      held (bal q) est ch.*2 q' /\
      Forall (fun lk => ((bal q' lk.2).1 + (bal q' lk.2).2 <= level_limit limits lk.1)%Q) ch
  | (Raise (GatewayQuotaExceeded level limit _), q') =>
      limit = level_limit limits level /\ unchanged q q' /\
      exists key, (level, key) ∈ ch /\ (limit < (bal q key).1 + (bal q key).2 + est)%Q
  | _ => False
  end.
Proof.
  intros He Hn Hq. destruct (reserve_serving cfg limits tenant surface user est rid window q He Hn Hq)
    as (o & q' & -> & _ & Hpost). destruct o as [[r|]|[]]; try done.
  by destruct Hpost as (-> & ? & ?).
Qed.

(** a reservation that is released, or reconciled, gives the hold back on
    every level it was taken from: the reserved amounts return to what they
    were before the request and the actual cost (nothing for a release) is
    added to the spend of the charged levels and of no other. *)
Theorem reserve_then_reconcile cfg limits tenant surface user est rid window q r q' actual :
  (0 < est)%Q -> reserved_nonneg q -> serving q ->
  reserve cfg limits tenant surface user est rid window q = (Ret (Some r), q') ->
  exists q1 q2,
    @release gateway_exc (Some r) q' = (Ret tt, q1) /\ unchanged q q1 /\
    @reconcile gateway_exc (Some r) actual q' = (Ret tt, q2) /\
    forall k, bal_eq (bal q2 k)
      ((bal q k).1, if decide (k ∈ resv_keys r) then ((bal q k).2 + actual)%Q else (bal q k).2).
Proof.
  intros He Hn Hq Hr.
  destruct (reserve_serving cfg limits tenant surface user est rid window q He Hn Hq)
    as (o & q0 & Hr' & Hq' & Hpost). rewrite Hr in Hr'. injection Hr' as <- <-.
  destruct Hpost as (-> & Hh & _).
  match goal with |- context [reconcile (Some ?x)] => set (r := x) end.
  assert (NoDup (resv_keys r)) as Hnd by apply charged_NoDup.
  destruct (reconcile_serving (E:=gateway_exc) r 0 q' Hnd Hq') as (q1 & Hr1 & _ & Hb1).
  destruct (reconcile_serving (E:=gateway_exc) r actual q' Hnd Hq') as (q2 & Hr2 & _ & Hb2).
  assert (forall c q2, (forall k, bal q2 k = if decide (k ∈ resv_keys r)
      then settle (estimated_usd r) c (bal q' k) else bal q' k) ->
    forall k, bal_eq (bal q2 k)
      ((bal q k).1, if decide (k ∈ resv_keys r) then ((bal q k).2 + c)%Q else (bal q k).2)) as Hset.
  { intros c q3 Hb k. rewrite Hb. specialize (Hh k). change (resv_keys r) with ((charged cfg limits tenant surface user window _LEVELS).*2).
    case_decide; [|rewrite Hh; by destruct (bal q k)]. rewrite Hh. by apply settle_held. }
  unfold release. destruct (bool_decide _) eqn:Ebd.
  - apply bool_decide_eq_true in Ebd.
    exists q', q2. split; [done|]. split; [|split; [done|by apply Hset]].
    intros k. specialize (Hh k). cbn [resv_keys r] in Ebd. rewrite Ebd, decide_False in Hh by apply not_elem_of_nil. done.
  - exists q1, q2. split; [done|]. split; [|split; [done|by apply Hset]].
    intros k. rewrite (Hset 0%Q q1 Hb1 k). destruct (bal q k) as [a b]. split; simpl; [done|].
    case_decide; lra.
Qed.

(** whatever commands fail, enforcement is given up only after the
    degradation was logged: a positive estimate leads to a reservation of
    exactly the charged keys, to [GatewayQuotaExceeded], or to no reservation
    with the degraded flag raised; no other exception leaves [reserve]. *)
Theorem reserve_never_silent cfg limits tenant surface user est rid window q :
  match reserve cfg limits tenant surface user est rid window q with
  | (Ret None, q') => (est <= 0)%Q \/ degraded_logged q' = true
  | (Ret (Some r), _) => resv_keys r = (charged cfg limits tenant surface user window _LEVELS).*2
  | (Raise e, _) => exists level limit projected, e = GatewayQuotaExceeded level limit projected
  end.
Proof. apply reserve_outcomes. Qed.

(** C24: on one level, however the scripts of any number of requests
    interleave, the reserved amount is the sum of the holds granted and not
    yet reconciled, and spent plus reserved stays within the limit up to what
    requests cost beyond their own estimates: concurrent requests cannot
    jointly overrun the budget. *)
Theorem concurrent_budget key limit s0 s :
  (0 < limit)%Q -> (reserved_of key s0 == 0)%Q -> (spent_of key s0 <= limit)%Q ->
  level_reachable key limit s0 s ->
  (reserved_of key (lstore s) == Qsum (holds s))%Q /\
  (spent_of key (lstore s) + reserved_of key (lstore s) <= limit + overrun s)%Q.
Proof.
  intros Hl Hr Hs Hreach. assert (level_inv key limit s) as [] by
    (induction Hreach; [split; simpl; [constructor|lra|lra|lra]|by eapply level_inv_step]).
  done.
Qed.

End quota.
Arguments QuotaService St : clear implicits.

(** ** Witnesses, over the hash map *)

Definition empty_service : QuotaService hash_map :=
  {| conn := Build_redis ∅ []; redis_available := true; degraded_logged := false; soft_alerts := [] |}.

Definition tenant_limits (usd : Q) : QuotaLimits :=
  {| platform_usd := 0; tenant_usd := usd; surface_usd := 0; end_user_usd := 0 |}.

Lemma empty_service_ok : reserved_nonneg empty_service /\ serving empty_service.
Proof. split; [intros k; by unfold bal, balance, reserved_of, hget; simpl; rewrite lookup_empty|]. split; [constructor|done]. Defined.

Lemma reserve_spec_witness : exists q',
  reserve default_quota_config (tenant_limits 10) "t1" None None 4 "r1" "2024-01" empty_service =
    (Ret (Some {| resv_request_id := "r1"; estimated_usd := 4; resv_levels := ["tenant"];
                  resv_keys := ["neryva:gateway:quota:t:t1:2024-01"]; resv_window := "2024-01" |}), q') /\
  held (bal empty_service) 4 ["neryva:gateway:quota:t:t1:2024-01"] q'.
Proof.
  pose proof (reserve_spec default_quota_config (tenant_limits 10) "t1" None None 4 "r1" "2024-01"
    empty_service eq_refl (proj1 empty_service_ok) (proj2 empty_service_ok)) as H.
  destruct (reserve _ _ _ _ _ _ _ _ _) as [o q'] eqn:E. exists q'.
  assert (o = (o, q').1) as Ho by done. rewrite <- E in Ho. vm_compute in Ho. subst o.
  split; [done|]. by destruct H as (_ & _ & _ & Hh & _).
Defined.

Lemma reserve_then_reconcile_witness : exists q1,
  unchanged empty_service q1.
Proof.
  destruct (reserve default_quota_config (tenant_limits 10) "t1" None None 4 "r1" "2024-01" empty_service)
    as [o q'] eqn:E.
  destruct o as [[r|]|e]; [|by apply (f_equal fst) in E; vm_compute in E..].
  destruct (reserve_then_reconcile default_quota_config (tenant_limits 10) "t1" None None 4 "r1"
    "2024-01" empty_service r q' 3 eq_refl (proj1 empty_service_ok)
    (proj2 empty_service_ok) E) as (q1 & _ & _ & H & _). by exists q1.
Defined.

Lemma concurrent_budget_witness : exists s : @ledger_state hash_map,
  holds s = [4%Q] /\ (spent_of "k" (lstore s) + reserved_of "k" (lstore s) <= 10 + overrun s)%Q.
Proof.
  eexists. split; cycle 1.
  - eapply (concurrent_budget "k" 10 ∅); [done|done|done|].
    eapply reach_step; [apply reach_init|]. eapply (step_granted _ _ _ 4); [done|].
    unfold reserve_script; simpl. reflexivity.
  - done.
Defined.

(** the reply of the reservation script is an integer, so for a limit
    below one dollar the projected spend reads as zero: a tenant at 96% of its
    budget raises no soft alert, although the threshold is 80%. *)
Theorem soft_alert_missed :
  let '(o, q') := reserve default_quota_config (tenant_limits 0.9) "t1" None None 0.87 "r1" "w"
                    empty_service in
  (0.8 * 0.9 <= 0.87)%Q /\ (exists r, o = Ret (Some r)) /\ soft_alerts q' = [].
Proof. vm_compute. split; [done|]. split; [by eexists|done]. Qed.
