(* ===== verification/QuotaCancel.v ===== *)
(** * Quota calls cancelled in the middle (backend/app/gateway/quota.py)

    A task that is cancelled while it waits for the reply of its command
    number [k] leaves the commands before it done and that one done or not
    ([served]); the [except Exception] clauses of the service do not see the
    cancellation.  The variants of the operations of Quota.v return [None] when
    they are cancelled, and what the call returns when it ends before its
    command number [k] ([cuts]). *)

From S2P Require Import Prelude Types Redis Quota.

(** The variant [cut] of a call does what the call does, unless it is cut. *)
Definition cuts {S E A} (cut : io S E (option A)) (whole : io S E A) : Prop :=
  forall s, match cut s with
            | (Ret None, _) => True
            | (Ret (Some a), s') => whole s = (Ret a, s')
            | (Raise e, s') => whole s = (Raise e, s')
            end.

Section cancel.
Context {St : Type} `{RedisHash St}.

Abbreviation QuotaService := (QuotaService St).

(** The command in flight when the task is cancelled. *)
Definition in_flight {E A} (served : bool) (f : St -> A * St) : io QuotaService E unit :=
  modify (fun q => if served then with_conn q (Build_redis (f (store (conn q))).2 (faults (conn q))) else q).

Fixpoint settle_cut (k : nat) (served : bool) (keys : list string) (est actual : Q)
    {struct keys} : io QuotaService redis_exc (option unit) :=
  match keys with
  | [] => mret (Some tt)
  | key :: keys =>
      match k with
      | O => _ ← in_flight served (reconcile_script key est actual); mret None
      | S k => _ ← run id (reconcile_script key est actual); settle_cut k served keys est actual
      end
  end.

Definition rollback_cut {E} (k : nat) (served : bool) (keys : list string) (est : Q) :
    io QuotaService E (option unit) :=
  q ← get_st;
  if negb (redis_available q) || bool_decide (keys = []) then mret (Some tt)
  else try_catch (settle_cut k served keys est 0) (fun _ => mret (Some tt)).

(** The level loop; an exception comes with the number of commands left. *)
Fixpoint reserve_levels_cut (k : nat) (served : bool) (cfg : QuotaConfig) (limits : QuotaLimits) (tenant : string)
    (surface user : option string) (est : Q) (window : string)
    (acq_levels acq_keys : list string) (levels : list string) :
    io QuotaService (nat * reserve_exc) (option (list string * list string)) :=
  match levels with
  | [] => mret (Some (acq_levels, acq_keys))
  | level :: levels' =>
      let limit := level_limit limits level in
      if limit <=?q 0 then
        reserve_levels_cut k served cfg limits tenant surface user est window acq_levels acq_keys levels'
      else
        match _level_key cfg level tenant surface user window with
        | None => throw (k, Failed acq_keys)
        | Some key =>
            match k with
            | O => _ ← in_flight served (reserve_script key limit est); mret None
            | S k =>
                reply ← run (fun _ => (k, Failed acq_keys)) (reserve_script key limit est);
                let projected := inject_Z (snd reply) in
                if fst reply =? 0 then
                  undone ← rollback_cut k served acq_keys est;
                  match undone with
                  | None => mret None
                  | Some _ => throw (k, Exceeded level limit projected)
                  end
                else
                  _ ← (if soft_ratio cfg * limit <=?q projected
                       then soft_alert level limit projected else mret tt);
                  reserve_levels_cut k served cfg limits tenant surface user est window
                    (acq_levels ++ [level]) (acq_keys ++ [key]) levels'
            end
        end
  end.

Definition reserve_cut (k : nat) (served : bool) (cfg : QuotaConfig) (limits : QuotaLimits) (tenant : string)
    (surface user : option string) (est : Q) (request_id window : string) :
    io QuotaService gateway_exc (option (option QuotaReservation)) :=
  if est <=?q 0 then mret (Some None)
  else
    q ← get_st;
    if negb (redis_available q) then (_ ← _log_degraded_once; mret (Some None))
    else
      try_catch
        (acq ← reserve_levels_cut k served cfg limits tenant surface user est window [] [] _LEVELS;
         mret ((fun a => Some {| resv_request_id := request_id; estimated_usd := est;
                       resv_levels := fst a; resv_keys := snd a; resv_window := window |}) <$> acq))
        (fun e => match e with
         | (_, Exceeded level limit projected) => throw (GatewayQuotaExceeded level limit projected)
         | (k, Failed acquired) =>
             undone ← rollback_cut k served acquired est;
             match undone with
             | None => mret None
             | Some _ => _ ← _log_degraded_once; mret (Some None)
             end
         end).

Definition reconcile_cut {E} (k : nat) (served : bool) (r : option QuotaReservation) (actual : Q) :
    io QuotaService E (option unit) :=
  match r with
  | None => mret (Some tt)
  | Some r =>
      if bool_decide (resv_keys r = []) then mret (Some tt)
      else
        q ← get_st;
        if negb (redis_available q) then (_ ← _log_degraded_once; mret (Some tt))
        else
          try_catch (settle_cut k served (resv_keys r) (estimated_usd r) actual)
            (fun _ => _ ← _log_degraded_once; mret (Some tt))
  end.

Definition release_cut {E} (k : nat) (served : bool) (r : option QuotaReservation) : io QuotaService E (option unit) :=
  match r with
  | None => mret (Some tt)
  | Some r' => if bool_decide (resv_keys r' = []) then mret (Some tt) else reconcile_cut k served r 0
  end.

(** *** A variant that is not cancelled does what the call does *)

Lemma settle_cut_ends k served keys est actual : cuts (settle_cut k served keys est actual) (settle_loop keys est actual).
Proof.
  revert k. induction keys as [|key keys IH]; intros k q; [done|]. unfold settle_loop. cbn [settle_cut for_each].
  destruct k as [|k]; [done|]. unfold mbind, io_bind. unfold run, lift. destruct (redis_call _ (conn q)) as [[a|e] r1]; [|done]. apply IH.
Qed.

Lemma rollback_cut_ends {E E'} k served keys est q :
  match @rollback_cut E k served keys est q with
  | (Ret None, _) => True
  | (Ret (Some _), q') => @_rollback St _ E' keys est q = (Ret tt, q')
  | (Raise _, _) => False
  end.
Proof.
  unfold rollback_cut, _rollback, mbind, io_bind, get_st. destruct (_ || _); [done|].
  unfold try_catch. pose proof (settle_cut_ends k served keys est 0 q) as Hs.
  destruct (settle_cut k served keys est 0 q) as [[[[]|]|e] q1]; [by rewrite Hs|done|by rewrite Hs].
Qed.

Lemma reserve_levels_cut_ends k served cfg limits tenant surface user est window als aks levels q :
  match reserve_levels_cut k served cfg limits tenant surface user est window als aks levels q with
  | (Ret None, _) => True
  | (Ret (Some a), q') => reserve_levels cfg limits tenant surface user est window als aks levels q = (Ret a, q')
  | (Raise (_, e), q') => reserve_levels cfg limits tenant surface user est window als aks levels q = (Raise e, q')
  end.
Proof.
  revert k als aks q. induction levels as [|level levels IH]; intros k als aks q; [done|].
  cbn [reserve_levels_cut reserve_levels]. destruct (_ <=?q 0); [apply IH|].
  destruct (_level_key _ _ _ _ _ _) as [key|]; [|done]. destruct k as [|k]; [done|].
  unfold mbind, io_bind, run, lift.
  destruct (redis_call _ (conn q)) as [[reply|e] r1]; [|done].
  destruct (reply.1 =? 0).
  - pose proof (rollback_cut_ends (E := nat * reserve_exc) (E' := reserve_exc) k served aks est (with_conn q r1)) as Hr.
    destruct (rollback_cut k served aks est (with_conn q r1)) as [[[a|]|e] q2]; [by rewrite Hr|done|done].
  - destruct (_ <=?q _); apply IH.
Qed.

Lemma reserve_cut_ends k served cfg limits tenant surface user est rid window :
  cuts (reserve_cut k served cfg limits tenant surface user est rid window)
       (reserve cfg limits tenant surface user est rid window).
Proof.
  intros q. unfold reserve_cut, reserve. destruct (_ <=?q 0); [done|]. unfold mbind, io_bind, get_st.
  destruct (negb _); [done|]. unfold try_catch.
  pose proof (reserve_levels_cut_ends k served cfg limits tenant surface user est window [] [] _LEVELS q) as Hl.
  destruct (reserve_levels_cut k served cfg limits tenant surface user est window [] [] _LEVELS q) as [[[a|]|[k' e]] q1];
    [by rewrite Hl|done|]. rewrite Hl. destruct e as [level limit projected|acq]; [done|].
  pose proof (rollback_cut_ends (E := gateway_exc) (E' := gateway_exc) k' served acq est q1) as Hr.
  destruct (rollback_cut k' served acq est q1) as [[[u|]|e] q2]; [by rewrite Hr|done|done].
Qed.

Lemma reconcile_cut_ends {E} k served r actual : cuts (@reconcile_cut E k served r actual) (reconcile r actual).
Proof.
  intros q. unfold reconcile_cut, reconcile. destruct r as [r|]; [|done]. case_bool_decide; [done|].
  unfold mbind, io_bind, get_st. destruct (negb _); [done|]. unfold try_catch.
  pose proof (settle_cut_ends k served (resv_keys r) (estimated_usd r) actual q) as Hs.
  destruct (settle_cut k served _ _ actual q) as [[[[]|]|e] q1]; [by rewrite Hs|done|by rewrite Hs].
Qed.

Lemma reconcile_cut_quiet {E} k served r actual q :
  exists o q', @reconcile_cut E k served r actual q = (Ret o, q').
Proof.
  unfold reconcile_cut. destruct r as [r|]; [|by eexists _, _]. case_bool_decide; [by eexists _, _|].
  unfold mbind, io_bind, get_st. destruct (negb _); [by eexists _, _|]. unfold try_catch.
  destruct (settle_cut k served _ _ actual q) as [[o|e] q1]; by eexists _, _.
Qed.

Lemma release_cut_ends {E} k served r : cuts (@release_cut E k served r) (release r).
Proof.
  intros q. unfold release_cut, release. destruct r as [r|]; [|done]. case_bool_decide; [done|].
  apply reconcile_cut_ends.
Qed.

(** A reservation that is cut returns only when it is cut or done. *)
Lemma reserve_cut_raises k served cfg limits tenant surface user est rid window q e q' :
  reserve_cut k served cfg limits tenant surface user est rid window q = (Raise e, q') ->
  exists l lim pr, e = GatewayQuotaExceeded l lim pr.
Proof.
  intros Hc. pose proof (reserve_cut_ends k served cfg limits tenant surface user est rid window q) as He.
  rewrite Hc in He. by eapply reserve_raises.
Qed.
End cancel.
