(* ===== verification/Cooldown.v ===== *)
(** * Deployment cooldowns and the Redis breaker (backend/app/gateway/cooldown.py)

    [RedisCooldownCache] counts the failures of a deployment in Redis within a
    fixed window that starts at the first one; [RedisDependencyBreaker] is a
    local three-state breaker.  Instants are milliseconds. *)

From S2P Require Import Prelude Redis.

(** ** RedisCooldownCache *)

Record CooldownConfig := {
  cd_prefix : string;
  allowed_fails : Z;
  cooldown_time_seconds : Q;
}.

Definition default_cooldown_config : CooldownConfig :=
  {| cd_prefix := "neryva:gateway:cooldown:"; allowed_fails := 5; cooldown_time_seconds := 60 |}.

Definition cooldown_ms (cfg : CooldownConfig) : Z := py_int (cooldown_time_seconds cfg * 1000).

Section cooldown.
Context {St : Type} `{RedisCounter St}.

Abbreviation RedisCooldownCache := (managed St).

Context (cfg : CooldownConfig).

Definition cd_key (p m : string) : string :=
  cd_prefix cfg +:+ lower (strip p) +:+ ":" +:+ lower (strip m).

(** [_COOLDOWN_FAIL_LUA] *)
Definition cooldown_fail_script (now : Z) (key : string) (ms : Z) (s : St) : Z * St :=
  let '(count, s) := incr_reply now key 1 s in
  (count, if count =? 1 then redis_pexpire now key ms s else s).

Definition record_failure {E} (now : Z) (p m : string) : io RedisCooldownCache E Z :=
  guarded (allowed_fails cfg + 1)
    (m_run (cooldown_fail_script now (cd_key p m) (cooldown_ms cfg))).

Definition record_success {E} (p m : string) : io RedisCooldownCache E unit :=
  guarded tt (m_run (fun s => (tt, redis_del (cd_key p m) s))).

Definition is_available {E} (now : Z) (p m : string) : io RedisCooldownCache E bool :=
  guarded true
    (value ← m_run (fun s => (redis_get now (cd_key p m) s, s));
     mret (match value with
           | None => true
           | Some v => v <? allowed_fails cfg
           end)).

(** [name.partition(":")] *)
Definition partition_colon (name : string) : string * string :=
  default (name, EmptyString) (split_once ":"%char name).

Definition strip_prefix (key : string) : string :=
  String.substring (String.length (cd_prefix cfg)) (String.length key) key.

(** The dictionary of [snapshot], as its insertions in order. *)
Definition snapshot {E} (now : Z) : io RedisCooldownCache E (list (string * Z)) :=
  guarded []
    (keys ← m_run (fun s => (redis_keys now (cd_prefix cfg) s, s));
     if bool_decide (keys = []) then mret []
     else
       values ← m_run (fun s => (map (fun k => redis_get now k s) keys, s));
       mret (omap (fun kv : string * option Z =>
         match kv.2 with
         | None => None
         | Some v => let '(p, m) := partition_colon (strip_prefix kv.1) in
                     Some (p +:+ ":" +:+ m, v)
         end) (zip keys values))).

(** DEL of several keys replies with how many existed. *)
Definition redis_del_many (now : Z) (keys : list string) (s : St) : Z * St :=
  (Z.of_nat (length (List.filter (fun k => bool_decide (is_Some (redis_get now k s))) keys)),
   foldr redis_del s keys).

Definition reset {E} (now : Z) (p m : option string) : io RedisCooldownCache E Z :=
  guarded 0
    (if truthy_opt p && truthy_opt m
     then _ ← m_run (fun s => (tt, redis_del (cd_key (default EmptyString p) (default EmptyString m)) s)); mret 1
     else
       let pattern :=
         if truthy_opt p then cd_prefix cfg +:+ lower (strip (default EmptyString p)) +:+ ":"
         else cd_prefix cfg in
       keys ← m_run (fun s => (redis_keys now pattern s, s));
       if bool_decide (keys = []) then mret 0 else m_run (redis_del_many now keys)).

(** Remaining cooldown in seconds. *)
Definition cooldown_ttl {E} (now : Z) (p m : string) : io RedisCooldownCache E (option Q) :=
  guarded None
    (ttl_ms ← m_run (fun s => (redis_pttl now (cd_key p m) s, s));
     mret (match ttl_ms with
           | None => None
           | Some ms => if ms <? 0 then None else Some (inject_Z ms / 1000)%Q
           end)).

(** ** Lemmas *)

Definition cd_look (t : Z) (p m : string) (c : RedisCooldownCache) : option (Z * option Z) :=
  look t (cd_key p m) (store (m_conn c)).

(** What the failure script leaves under each key. *)
Lemma fail_script_look now key ms s t k :
  now <= t -> 0 < ms ->
  look t k (cooldown_fail_script now key ms s).2 =
    if decide (k = key) then
      unexpired t (match look now key s with
                   | None => Some (1, Some (now + ms))
                   | Some (v, e) => Some (v + 1, if v + 1 =? 1 then Some (now + ms) else e)
                   end)
    else look t k s.
Proof.
  intros Ht Hms. unfold cooldown_fail_script, incr_reply. cbn [snd].
  assert (look now key (redis_incrby now key 1 s) =
    match look now key s with None => Some (1, None) | Some (v, e) => Some (v + 1, e) end) as Hl.
  { rewrite look_incrby by lia. rewrite decide_True by done. unfold redis_get.
    pose proof (look_later now now key s (Z.le_refl now)) as Hid.
    destruct (look now key s) as [[v [d|]]|]; simpl in *; try done.
    by destruct (Z.ltb_spec now d). }
  assert (default 0 (redis_get now key s) + 1 =
    match look now key s with None => 1 | Some (v, _) => v + 1 end) as ->.
  { unfold redis_get. by destruct (look now key s) as [[]|]. }
  destruct (_ =? 1) eqn:E1.
  - rewrite look_pexpire, Hl by done. case_decide; [|by rewrite look_incrby, decide_False].
    destruct (look now key s) as [[v e]|]; simpl; [by rewrite E1|done].
  - rewrite look_incrby by done. case_decide; [|done]. unfold redis_get.
    destruct (look now key s) as [[v e]|]; simpl in *; [by rewrite E1|done].
Qed.

(** The failures of one deployment at the given instants. *)
Definition failures_at {E} (p m : string) (times : list Z) : io RedisCooldownCache E unit :=
  for_each (fun t => _ ← record_failure t p m; mret tt) times.

Lemma record_failure_look {E} now p m c :
  0 < cooldown_ms cfg -> m_serving c ->
  exists a c', @record_failure E now p m c = (Ret a, c') /\ m_serving c' /\
    a = match cd_look now p m c with None => 1 | Some (v, _) => v + 1 end /\
    forall t k, now <= t -> look t k (store (m_conn c')) =
      if decide (k = cd_key p m) then
        unexpired t (match cd_look now p m c with
                     | None => Some (1, Some (now + cooldown_ms cfg))
                     | Some (v, e) => Some (v + 1, if v + 1 =? 1 then Some (now + cooldown_ms cfg) else e)
                     end)
      else look t k (store (m_conn c)).
Proof.
  intros Hms Hc.
  destruct (m_run_serving (cooldown_fail_script now (cd_key p m) (cooldown_ms cfg)) c Hc)
    as (c' & Hr & Hc' & Hs).
  eexists _, c'. split; [apply guarded_serving; [apply Hc|exact Hr]|]. split; [done|]. split.
  - unfold cooldown_fail_script, incr_reply, redis_get, cd_look. simpl.
    by destruct (look now (cd_key p m) _) as [[]|].
  - intros t k Ht. rewrite Hs. by apply fail_script_look.
Qed.

Lemma is_available_look {E} t p m c :
  m_serving c ->
  exists c', @is_available E t p m c =
    (Ret (match cd_look t p m c with None => true | Some (v, _) => v <? allowed_fails cfg end), c').
Proof.
  intros Hc. destruct (m_run_serving (fun s => (redis_get t (cd_key p m) s, s)) c Hc)
    as (c' & Hr & _). exists c'. apply guarded_serving; [apply Hc|].
  unfold mbind, io_bind. rewrite Hr. simpl. unfold redis_get, cd_look.
  by destruct (look t (cd_key p m) _) as [[]|].
Qed.

(** The window of a deployment with failures, once open, collects the later ones. *)
Lemma failures_window {E} p m d times v c last :
  0 < cooldown_ms cfg -> 1 <= v -> m_serving c ->
  Sorted Z.le (last :: times) -> Forall (fun t => t < d) times ->
  (forall t, last <= t -> cd_look t p m c = unexpired t (Some (v, Some d))) ->
  exists c', @failures_at E p m times c = (Ret tt, c') /\ m_serving c' /\
    (forall t, List.last times last <= t ->
       cd_look t p m c' = unexpired t (Some (v + Z.of_nat (length times), Some d))) /\
    (forall t k, k <> cd_key p m -> List.last times last <= t ->
       look t k (store (m_conn c')) = look t k (store (m_conn c))).
Proof.
  intros Hms. revert v c last.
  induction times as [|t1 times IH]; intros v c last Hv Hc Hsort Hlt Hlook.
  { exists c. split_and!; try done. simpl. intros t Ht. by rewrite Hlook, Z.add_0_r. }
  inversion Hsort as [|?? Hsort' Hhd]; subst. inversion Hhd; subst.
  inversion Hlt as [|?? Ht1 Hlt']; subst.
  destruct (@record_failure_look E t1 p m c Hms Hc) as (a & c1 & Hr & Hc1 & _ & Hl1).
  rewrite Hlook in Hl1 by done. simpl in Hl1.
  destruct (Z.ltb_spec t1 d); [|lia]. destruct (Z.eqb_spec (v + 1) 1); [lia|].
  destruct (IH (v + 1) c1 t1) as (c2 & Hr2 & Hc2 & Hl2 & Ho2); [lia|done|done|done| |].
  - intros t Ht. unfold cd_look. rewrite Hl1 by done. by rewrite decide_True.
  - pose proof (last_cons_default times t1 last) as Hlast.
    pose proof (sorted_last_le times t1 Hsort') as Hle.
    exists c2. split_and!; [|done| |].
    + unfold failures_at. cbn [for_each]. unfold mbind, io_bind. rewrite Hr. exact Hr2.
    + intros t. rewrite Hlast. intros Ht. rewrite Hl2 by done.
      by replace (v + Z.of_nat (length (t1 :: times))) with (v + 1 + Z.of_nat (length times)) by (simpl; lia).
    + intros t k Hk. rewrite Hlast. intros Ht. rewrite Ho2 by done. rewrite Hl1 by lia.
      by rewrite decide_False.
Qed.

(** ** Properties *)

(** the cooldown of a deployment: after failures at instants that start
    a fresh window and all fall within it, the deployment is available again
    exactly when fewer failures than allowed were counted or the window,
    measured from the first failure, is over; the availability of every other
    deployment is what it was. *)
Theorem cooldown_window p m t1 times c :
  0 < cooldown_ms cfg -> m_serving c -> cd_look t1 p m c = None ->
  Sorted Z.le (t1 :: times) -> Forall (fun t => t < t1 + cooldown_ms cfg) times ->
  exists c', @failures_at redis_exc p m (t1 :: times) c = (Ret tt, c') /\
    (forall t, List.last times t1 <= t ->
       (@is_available redis_exc t p m c').1 =
         Ret ((Z.of_nat (S (length times)) <? allowed_fails cfg) || (t1 + cooldown_ms cfg <=? t))) /\
    (forall t p' m', cd_key p' m' <> cd_key p m -> List.last times t1 <= t ->
       (@is_available redis_exc t p' m' c').1 = (@is_available redis_exc t p' m' c).1).
Proof.
  intros Hms Hc Hnone Hsort Hlt.
  destruct (@record_failure_look redis_exc t1 p m c Hms Hc) as (a & c1 & Hr & Hc1 & _ & Hl1).
  rewrite Hnone in Hl1.
  pose proof (sorted_last_le times t1 Hsort) as Hle.
  destruct (@failures_window redis_exc p m (t1 + cooldown_ms cfg) times 1 c1 t1)
    as (c2 & Hr2 & Hc2 & Hl2 & Ho2); [done|lia|done|done|done| |].
  { intros t Ht. unfold cd_look. rewrite Hl1 by done. by rewrite decide_True. }
  exists c2. split_and!.
  - unfold failures_at. cbn [for_each]. unfold mbind, io_bind. rewrite Hr. exact Hr2.
  - intros t Ht. destruct (@is_available_look redis_exc t p m c2 Hc2) as [c3 ->].
    rewrite Hl2 by done. simpl. f_equal.
    replace (1 + Z.of_nat (length times)) with (Z.pos (Pos.of_succ_nat (length times))) by lia.
    destruct (Z.ltb_spec t (t1 + cooldown_ms cfg)); simpl.
    + destruct (Z.leb_spec (t1 + cooldown_ms cfg) t); [lia|]. by rewrite orb_false_r.
    + destruct (Z.leb_spec (t1 + cooldown_ms cfg) t); [|lia]. by rewrite orb_true_r.
  - intros t p' m' Hk Ht.
    destruct (@is_available_look redis_exc t p' m' c2 Hc2) as [c3 ->].
    destruct (@is_available_look redis_exc t p' m' c Hc) as [c4 ->].
    unfold cd_look. rewrite Ho2 by done. rewrite Hl1 by lia. by rewrite decide_False.
Qed.

(** availability checks fail open: with Redis absent, or a command of the
    check lost, the deployment counts as available; no operation of the
    cooldown cache ever raises, and an answer that is not the server's is
    given only without Redis or after the degradation was logged. *)
Theorem cooldown_fails_open now p m c :
  exists b c1 n c2 c3,
    @is_available redis_exc now p m c = (Ret b, c1) /\
    @record_failure redis_exc now p m c = (Ret n, c2) /\
    @record_success redis_exc p m c = (Ret tt, c3) /\
    (b = true \/ exists v, redis_get now (cd_key p m) (store (m_conn c)) = Some v /\ allowed_fails cfg <= v) /\
    (n = allowed_fails cfg + 1 /\ (m_available c = false \/ m_degraded_logged c2 = true) \/
     n = default 0 (redis_get now (cd_key p m) (store (m_conn c))) + 1).
Proof.
  destruct (@guarded_cases St redis_exc _ true (value ← m_run (fun s => (redis_get now (cd_key p m) s, s));
     mret (match value with None => true | Some v => v <? allowed_fails cfg end)) c)
    as (b & c1 & H1 & Hb).
  destruct (@guarded_cases St redis_exc _ (allowed_fails cfg + 1)
    (m_run (cooldown_fail_script now (cd_key p m) (cooldown_ms cfg))) c) as (n & c2 & H2 & Hn).
  destruct (@guarded_cases St redis_exc _ tt (m_run (fun s => (tt, redis_del (cd_key p m) s))) c)
    as ([] & c3 & H3 & _).
  exists b, c1, n, c2, c3. split_and!; [exact H1|exact H2|exact H3| |].
  - destruct Hb as [Hb|[-> _]]; [|by left]. unfold mbind, io_bind, m_run, lift in Hb.
    destruct (redis_call_cases (fun s => (redis_get now (cd_key p m) s, s)) (m_conn c))
      as [[fs Hf]|[[fs Hf]|[fs Hf]]]; rewrite Hf in Hb; simpl in Hb; [|done..].
    injection Hb as Hb _. destruct (redis_get now _ _) as [v|]; [|by left].
    destruct (Z.ltb_spec v (allowed_fails cfg)); [by left|right; by exists v].
  - destruct Hn as [Hn|[-> Hl]]; [right|by left]. unfold m_run, lift in Hn.
    destruct (redis_call_cases (cooldown_fail_script now (cd_key p m) (cooldown_ms cfg)) (m_conn c))
      as [[fs Hf]|[[fs Hf]|[fs Hf]]]; rewrite Hf in Hn; simpl in Hn; [|done..].
    by injection Hn as <- _.
Qed.

(** resetting clears: after [reset] of a provider every deployment of that
    provider is available, at any later time; after a recorded success, the
    deployment is; and a full reset makes every deployment available. *)
Theorem reset_makes_available now t p m c :
  now <= t -> truthy p = true -> m_serving c ->
  exists n1 n2 c1 c2 c3,
    @reset redis_exc now (Some p) None c = (Ret n1, c1) /\
    @reset redis_exc now None None c = (Ret n2, c2) /\
    @record_success redis_exc p m c = (Ret tt, c3) /\
    (@is_available redis_exc t p m c1).1 = Ret true /\
    (@is_available redis_exc t p m c2).1 = Ret true /\
    (@is_available redis_exc t p m c3).1 = Ret true.
Proof.
  intros Ht Hp Hc.
  assert (forall pat, String.prefix pat (cd_key p m) = true -> exists n c',
    guarded (E:=redis_exc) 0 (keys ← m_run (fun s => (redis_keys now pat s, s));
       if bool_decide (keys = []) then mret 0 else m_run (redis_del_many now keys)) c = (Ret n, c') /\
    m_serving c' /\ cd_look t p m c' = None) as Hpat.
  { intros pat Hpat.
    destruct (m_run_serving (fun s => (redis_keys now pat s, s)) c Hc) as (c1 & Hr1 & Hc1 & Hs1).
    simpl in Hr1, Hs1.
    pose proof (purge_prefix t now pat (store (m_conn c)) (cd_key p m) Ht Hpat) as Hpurge.
    destruct (bool_decide (redis_keys now pat (store (m_conn c)) = [])) eqn:Ek.
    - exists 0, c1. split; [|split; [done|]].
      + apply guarded_serving; [apply Hc|]. unfold mbind, io_bind. by rewrite Hr1, Ek.
      + apply bool_decide_eq_true in Ek. unfold cd_look. rewrite Hs1. by rewrite Ek in Hpurge.
    - destruct (m_run_serving (redis_del_many now (redis_keys now pat (store (m_conn c)))) c1 Hc1)
        as (c2 & Hr2 & Hc2 & Hs2).
      eexists _, c2. split; [|split; [done|]].
      + apply guarded_serving; [apply Hc|]. unfold mbind, io_bind. rewrite Hr1, Ek. exact Hr2.
      + unfold cd_look. rewrite Hs2, Hs1. exact Hpurge. }
  assert (forall c', m_serving c' -> cd_look t p m c' = None ->
    (@is_available redis_exc t p m c').1 = Ret true) as Hav.
  { intros c' Hc' Hl. destruct (@is_available_look redis_exc t p m c' Hc') as [c4 ->]. by rewrite Hl. }
  destruct (Hpat (cd_prefix cfg +:+ lower (strip p) +:+ ":")) as (n1 & c1 & H1 & Hc1 & Hl1).
  { unfold cd_key. rewrite <- !string_app_assoc. apply string_prefix_app. }
  destruct (Hpat (cd_prefix cfg)) as (n2 & c2 & H2 & Hc2 & Hl2); [apply string_prefix_app|].
  destruct (m_run_serving (fun s => (tt, redis_del (cd_key p m) s)) c Hc) as (c3 & Hr3 & Hc3 & Hs3).
  exists n1, n2, c1, c2, c3. split_and!; [|done| |by apply Hav..|].
  - unfold reset. simpl. rewrite Hp. exact H1.
  - apply guarded_serving; [apply Hc|exact Hr3].
  - apply Hav; [done|]. unfold cd_look. rewrite Hs3. simpl. rewrite look_del. by rewrite decide_True.
Qed.

End cooldown.

(** ** RedisDependencyBreaker *)

Record BreakerConfig := { failure_threshold : Z; recovery_timeout_ms : Z }.

Record RedisDependencyBreaker := {
  consecutive_failures : Z;
  open_since : Z;
  probe_ok : option bool;
}.

Definition new_breaker : RedisDependencyBreaker :=
  {| consecutive_failures := 0; open_since := 0; probe_ok := None |}.

Section breaker.
Context (cfg : BreakerConfig).

Definition is_open (now : Z) (b : RedisDependencyBreaker) : bool :=
  if consecutive_failures b <? failure_threshold cfg then false
  else if now - open_since b <? recovery_timeout_ms cfg then true
  else negb (default false (probe_ok b)).

Definition fast_fail (now : Z) (b : RedisDependencyBreaker) : bool := is_open now b.

Definition record_redis_failure (now : Z) (b : RedisDependencyBreaker) : RedisDependencyBreaker :=
  let was_open := is_open now b in
  let n := consecutive_failures b + 1 in
  {| consecutive_failures := n;
     open_since := if (failure_threshold cfg <=? n) && negb was_open then now else open_since b;
     probe_ok := None |}.

Definition record_redis_success (b : RedisDependencyBreaker) : RedisDependencyBreaker :=
  {| consecutive_failures := 0; open_since := 0; probe_ok := None |}.

(** [probe], given whether the ping succeeds. *)
Definition probe (now : Z) (ping_ok : bool) (b : RedisDependencyBreaker) :
    bool * RedisDependencyBreaker :=
  if ping_ok then (true, record_redis_success b)
  else (false, {| consecutive_failures := consecutive_failures b; open_since := now;
                  probe_ok := Some false |}).

Inductive breaker_event := BFailure | BSuccess | BProbe (ok : bool).

Definition breaker_step (b : RedisDependencyBreaker) (e : Z * breaker_event) :
    RedisDependencyBreaker :=
  match e.2 with
  | BFailure => record_redis_failure e.1 b
  | BSuccess => record_redis_success b
  | BProbe ok => (probe e.1 ok b).2
  end.

Definition breaker_run (events : list (Z * breaker_event)) : RedisDependencyBreaker :=
  foldl breaker_step new_breaker events.

End breaker.

(** ** The breaker *)

(** Failures since the last success; a failed probe counts as none. *)
Definition failures_since (events : list (Z * breaker_event)) : Z :=
  foldl (fun n e => match e.2 with
                    | BFailure => n + 1
                    | BSuccess | BProbe true => 0
                    | BProbe false => n
                    end) 0 events.

Lemma breaker_run_app cfg es e : breaker_run cfg (es ++ [e]) = breaker_step cfg (breaker_run cfg es) e.
Proof. unfold breaker_run. by rewrite foldl_app. Qed.

Lemma breaker_run_inv cfg es :
  consecutive_failures (breaker_run cfg es) = failures_since es /\
  probe_ok (breaker_run cfg es) <> Some true.
Proof.
  induction es as [|[t e] es [IHn IHp]] using rev_ind; [done|].
  rewrite breaker_run_app. unfold failures_since. rewrite foldl_app. fold (failures_since es).
  destruct e as [| |[]]; simpl; by rewrite ?IHn.
Qed.

(** the breaker is open exactly when at least the threshold of failures
    was recorded since the last success (of an operation or of a probe), at
    whatever time it is asked: the recovery timeout alone never lets a
    request through, and a probe that succeeds closes it. *)
Theorem breaker_open_iff cfg es now :
  is_open cfg now (breaker_run cfg es) = (failure_threshold cfg <=? failures_since es).
Proof.
  destruct (breaker_run_inv cfg es) as [Hn Hp]. unfold is_open. rewrite Hn.
  destruct (Z.ltb_spec (failures_since es) (failure_threshold cfg)); symmetry.
  - apply Z.leb_gt. lia.
  - destruct (Z.leb_spec (failure_threshold cfg) (failures_since es)); [|lia].
    destruct (_ <? _); [done|]. by destruct (probe_ok _) as [[]|].
Qed.

(** ** Witnesses *)

Definition empty_cooldowns : managed (kv_map Z) :=
  {| m_conn := Build_redis ∅ []; m_available := true; m_degraded_logged := false |}.

Lemma empty_cooldowns_serving : m_serving empty_cooldowns.
Proof. split; [constructor|done]. Defined.

Lemma cooldown_window_witness : exists c',
  failures_at (E:=redis_exc) default_cooldown_config "openai" "gpt-4o" [0; 1; 2; 3; 4]
    empty_cooldowns = (Ret tt, c') /\
  (is_available (E:=redis_exc) default_cooldown_config 59999 "openai" "gpt-4o" c').1 = Ret false /\
  (is_available (E:=redis_exc) default_cooldown_config 60000 "openai" "gpt-4o" c').1 = Ret true.
Proof.
  destruct (cooldown_window default_cooldown_config "openai" "gpt-4o" 0 [1; 2; 3; 4] empty_cooldowns)
    as (c' & Hr & Ha & _).
  - done.
  - apply empty_cooldowns_serving.
  - done.
  - repeat constructor; done.
  - repeat constructor; done.
  - exists c'. split; [done|]. split; rewrite Ha; done.
Defined.

Lemma reset_makes_available_witness : exists c',
  (is_available (E:=redis_exc) default_cooldown_config 5 "openai" "gpt-4o" c').1 = Ret true.
Proof.
  destruct (reset_makes_available default_cooldown_config 1 5 "openai" "gpt-4o" empty_cooldowns)
    as (n1 & n2 & c1 & c2 & c3 & _ & _ & _ & H & _);
    [done|done|apply empty_cooldowns_serving|]. by exists c1.
Defined.
