(* ===== verification/Ledger.v ===== *)
(** * Cost ledger (backend/app/gateway/ledger.py)

    Spend capture: a record goes to the job queue, or to the database when
    the queue does not take it, or the call raises.  The queue and the
    repository are interfaces; what the ledger relies on is stated as their
    laws.  [sum_usd] aggregates the rows of a calendar month. *)

From S2P Require Import Prelude.

Definition JOB_COST_LEDGER_WRITE : string := "cost_ledger.write".

Record UsageRecord := {
  ur_tenant_id : string;
  ur_provider : string;
  ur_model : string;
  ur_input_tokens : Z;
  ur_output_tokens : Z;
  ur_reasoning_tokens : Z;
  ur_cached_tokens : Z;
  usd : Q;
  ur_surface_id : option string;
  ur_end_user_id : option string;
  ur_conversation_id : option string;
  ur_session_id : option string;
  ur_request_id : string;
}.

(** The job of a write: [Job(type=..., payload=asdict(record), trace_id=...)]. *)
Record LedgerJob := { job_type : string; job_payload : UsageRecord; job_trace_id : string }.

(** What the ledger expects of the queue: a job that is accepted was appended,
    and nothing queued is lost by an enqueue. *)
Class JobSink (J QS : Type) := {
  sink_enqueue : J -> io QS string bool;
  sink_jobs : QS -> list J;
  sink_accepted j q q' : sink_enqueue j q = (Ret true, q') -> sink_jobs q' = sink_jobs q ++ [j];
  sink_kept j q o q' : sink_enqueue j q = (o, q') -> sink_jobs q `prefix_of` sink_jobs q';
}.

(** ** Dates *)

Record date := { year : Z; month : Z; day : Z }.

Definition leap (y : Z) : bool :=
  (y mod 4 =? 0) && (negb (y mod 100 =? 0) || (y mod 400 =? 0)).

Definition days_in_month (y m : Z) : Z :=
  if m =? 2 then (if leap y then 29 else 28)
  else if (m =? 4) || (m =? 6) || (m =? 9) || (m =? 11) then 30 else 31.

Definition valid_date (d : date) : Prop :=
  1 <= month d <= 12 /\ 1 <= day d <= days_in_month (year d) (month d).

Definition next_month (y m : Z) : Z * Z := if m =? 12 then (y + 1, 1) else (y, m + 1).

(** [d + timedelta(days=n)] *)
Fixpoint add_days (fuel : nat) (d : date) (n : Z) : date :=
  let dim := days_in_month (year d) (month d) in
  if day d + n <=? dim then {| year := year d; month := month d; day := day d + n |}
  else
    match fuel with
    | O => d
    | S fuel =>
        let ym := next_month (year d) (month d) in
        add_days fuel {| year := ym.1; month := ym.2; day := 1 |} (n - (dim - day d) - 1)
    end.

Definition date_leb (d1 d2 : date) : bool :=
  (year d1 <? year d2) || (year d1 =? year d2) &&
    ((month d1 <? month d2) || (month d1 =? month d2) && (day d1 <=? day d2)).

Record SpendEvent := { spend : UsageRecord; created_on : date }.

(** What the ledger expects of [SpendEventRepository]: rows are only appended. *)
Class SpendStore (DS : Type) := {
  spend_add : UsageRecord -> io DS string unit;
  spend_rows : DS -> list SpendEvent;
  spend_added r d d' :
    spend_add r d = (Ret tt, d') -> exists t, spend_rows d' = spend_rows d ++ [{| spend := r; created_on := t |}];
  spend_kept r d o d' : spend_add r d = (o, d') -> spend_rows d `prefix_of` spend_rows d';
}.

(** ** CostLedger *)

Section ledger.
Context {QS DS : Type} `{JobSink LedgerJob QS} `{SpendStore DS}.

Record CostLedger := { led_queue : option QS; led_db : option DS }.

Definition put_queue (q : QS) (l : CostLedger) : CostLedger :=
  {| led_queue := Some q; led_db := led_db l |}.
Definition put_db (d : DS) (l : CostLedger) : CostLedger :=
  {| led_queue := led_queue l; led_db := Some d |}.

Definition ledger_job (r : UsageRecord) : LedgerJob :=
  {| job_type := JOB_COST_LEDGER_WRITE; job_payload := r; job_trace_id := ur_request_id r |}.

(** The queue half of [record]: whether the job was taken; an exception of
    the queue is logged. *)
Definition record_enqueue (r : UsageRecord) : io CostLedger string bool := fun l =>
  match led_queue l with
  | None => (Ret false, l)
  | Some q =>
      match sink_enqueue (ledger_job r) q with
      | (Ret ok, q') => (Ret ok, put_queue q' l)
      | (Raise _, q') => (Ret false, put_queue q' l)
      end
  end.

(** The repository half. *)
Definition record_direct (r : UsageRecord) : io CostLedger string unit := fun l =>
  match led_db l with
  | None => (Raise "cost ledger has no write path", l)
  | Some d => match spend_add r d with (o, d') => (o, put_db d' l) end
  end.

(** [CostLedger.record] *)
Definition record (r : UsageRecord) : io CostLedger string unit :=
  ok ← record_enqueue r;
  if (ok : bool) then mret tt else record_direct r.

Definition scope_matches (filter value : option string) : bool :=
  match filter with None => true | Some f => bool_decide (value = Some f) end.

(** [CostLedger.sum_usd] *)
Definition sum_usd (tenant : string) (y m : Z) (surface end_user : option string)
    (l : CostLedger) : outcome string Q :=
  match led_db l with
  | None => Raise "cost ledger has no db for aggregation"
  | Some d =>
      let start := {| year := y; month := m; day := 1 |} in
      let end_ := add_days 3 start 32 in
      let end_ := {| year := year end_; month := month end_; day := 1 |} in
      let rows := List.filter (fun e =>
          bool_decide (ur_tenant_id (spend e) = tenant) &&
          date_leb start (created_on e) && negb (date_leb end_ (created_on e)) &&
          scope_matches surface (ur_surface_id (spend e)) &&
          scope_matches end_user (ur_end_user_id (spend e))) (spend_rows d) in
      Ret (foldr (fun e acc => usd (spend e) + acc) 0 rows)%Q
  end.

(** ** Lemmas *)

Definition pending (l : CostLedger) : list LedgerJob :=
  match led_queue l with Some q => sink_jobs q | None => [] end.
Definition written (l : CostLedger) : list SpendEvent :=
  match led_db l with Some d => spend_rows d | None => [] end.

(** The record reached the queue or the table. *)
Definition captured (r : UsageRecord) (l l' : CostLedger) : Prop :=
  pending l' = pending l ++ [ledger_job r] \/
  exists t, written l' = written l ++ [{| spend := r; created_on := t |}].

Lemma days_in_month_bounds y m : 28 <= days_in_month y m <= 31.
Proof. unfold days_in_month. repeat case_match; lia. Qed.

(** Thirty-two days after the first of a month is in the next month. *)
Lemma first_plus_32 y m :
  1 <= m <= 12 ->
  let e := add_days 3 {| year := y; month := m; day := 1 |} 32 in
  (year e, month e) = next_month y m.
Proof.
  intros Hm. simpl. pose proof (days_in_month_bounds y m).
  destruct (Z.leb_spec (1 + 32) (days_in_month y m)); [lia|].
  pose proof (days_in_month_bounds (next_month y m).1 (next_month y m).2).
  destruct (Z.leb_spec (1 + (32 - (days_in_month y m - 1) - 1))
    (days_in_month (next_month y m).1 (next_month y m).2)); [|lia].
  by destruct (next_month y m).
Qed.

Lemma record_enqueue_spec r l :
  let '(o, l') := record_enqueue r l in
  exists ok, o = Ret ok /\ (ok = true -> pending l' = pending l ++ [ledger_job r]) /\
    pending l `prefix_of` pending l' /\ written l' = written l.
Proof.
  unfold record_enqueue, pending, written. destruct (led_queue l) as [q|] eqn:Eq.
  - destruct (sink_enqueue (ledger_job r) q) as [[ok|] q'] eqn:Es.
    + exists ok. split; [done|]. split; [intros ->; by apply sink_accepted|].
      split; [by eapply sink_kept|done].
    + exists false. split; [done|]. split; [done|]. split; [by eapply sink_kept|done].
  - exists false. by rewrite Eq.
Qed.

Lemma record_direct_spec r l :
  let '(o, l') := record_direct r l in
  (o = Ret tt -> exists t, written l' = written l ++ [{| spend := r; created_on := t |}]) /\
  pending l' = pending l /\ written l `prefix_of` written l'.
Proof.
  unfold record_direct, pending, written. destruct (led_db l) as [d|] eqn:Ed; [|by rewrite Ed].
  destruct (spend_add r d) as [o d'] eqn:Ea. split; [intros ->; by apply spend_added|].
  split; [done|by eapply spend_kept].
Qed.

(** ** Properties *)

(** a spend record is never dropped silently: when [record] returns, the
    record was appended to the job queue or to the spend table; otherwise the
    call raises.  Nothing queued or written before is lost in either case. *)
Theorem record_never_silent r l :
  let '(o, l') := record r l in
  (o = Ret tt -> captured r l l') /\
  pending l `prefix_of` pending l' /\ written l `prefix_of` written l'.
Proof.
  unfold record, mbind, io_bind.
  destruct (record_enqueue r l) as [o1 l1] eqn:E1.
  pose proof (record_enqueue_spec r l) as H1. rewrite E1 in H1.
  destruct H1 as (ok & -> & Ht & Hp & Hw). destruct ok; simpl.
  { split; [intros _; left; auto|]. split; [done|by rewrite Hw]. }
  destruct (record_direct r l1) as [o2 l2] eqn:E2.
  pose proof (record_direct_spec r l1) as H3. rewrite E2 in H3. destruct H3 as (Hd & Hp2 & Hw2).
  rewrite Hp2, <- Hw. unfold captured. rewrite <- Hw. split; [intros Ho; right; by apply Hd|done].
Qed.

(** the window of [sum_usd] is the calendar month asked for: the bound
    computed from "32 days after the first" selects exactly the rows whose
    date has that year and month, leap years included. *)
Theorem sum_usd_month tenant y m l d :
  1 <= m <= 12 -> led_db l = Some d -> Forall (fun e => valid_date (created_on e)) (spend_rows d) ->
  sum_usd tenant y m None None l =
    Ret (foldr (fun e acc => usd (spend e) + acc) 0
      (List.filter (fun e => bool_decide (ur_tenant_id (spend e) = tenant) &&
         (year (created_on e) =? y) && (month (created_on e) =? m)) (spend_rows d)))%Q.
Proof.
  intros Hm Hd Hv. unfold sum_usd. rewrite Hd. f_equal. f_equal.
  pose proof (first_plus_32 y m Hm) as He. cbv zeta in He |- *.
  destruct (add_days 3 _ 32) as [ey em ed]. simpl in He |- *.
  unfold next_month in He. induction Hv as [|e rows [Hem Hed] _ IH]; [done|].
  cbn [List.filter]. rewrite IH. clear IH.
  match goal with |- (if ?a then _ else _) = (if ?b then _ else _) => assert (a = b) as -> end; [|done].
  rewrite !andb_true_r. destruct (bool_decide _); [|done].
  unfold date_leb. cbn [andb orb negb year month day].
  destruct (Z.eqb_spec m 12); injection He as -> ->;
    destruct (created_on e) as [cy cm cd]; cbn [year month day] in *;
    repeat match goal with |- context [?a <? ?b] => destruct (Z.ltb_spec a b); cbn [andb orb negb]
           | |- context [?a <=? ?b] => destruct (Z.leb_spec a b); cbn [andb orb negb]
           | |- context [?a =? ?b] => destruct (Z.eqb_spec a b); cbn [andb orb negb] end;
    try lia; done.
Qed.

End ledger.
Arguments CostLedger QS DS : clear implicits.

(** ** Instances: a queue and a table that may refuse *)

(** The flags say, call by call, whether the service answers; it accepts when
    none is left. *)
Definition flagged_list (A : Type) : Type := list A * list bool.

#[export] Program Instance flagged_queue : JobSink LedgerJob (flagged_list LedgerJob) := {
  sink_enqueue j q := match q.2 with
    | false :: fs => (Ret false, (q.1, fs))
    | true :: fs => (Ret true, (q.1 ++ [j], fs))
    | [] => (Ret true, (q.1 ++ [j], []))
    end;
  sink_jobs q := q.1;
}.
Next Obligation. intros j [l [|[] fs]] q' [= <-]; done. Qed.
Next Obligation. intros j [l [|[] fs]] o q' [= <- <-]; simpl; by try apply prefix_app_r. Qed.

Definition some_day : date := {| year := 2024; month := 2; day := 29 |}.

#[export] Program Instance flagged_table : SpendStore (flagged_list SpendEvent) := {
  spend_add r d := match d.2 with
    | false :: fs => (Raise "database unavailable", (d.1, fs))
    | true :: fs => (Ret tt, (d.1 ++ [{| spend := r; created_on := some_day |}], fs))
    | [] => (Ret tt, (d.1 ++ [{| spend := r; created_on := some_day |}], []))
    end;
  spend_rows d := d.1;
}.
Next Obligation. intros r [l [|[] fs]] d' [= <-]; by eexists. Qed.
Next Obligation. intros r [l [|[] fs]] o d' [= <- <-]; simpl; by try apply prefix_app_r. Qed.

Definition sample_record : UsageRecord :=
  {| ur_tenant_id := "t1"; ur_provider := "openai"; ur_model := "gpt-4o"; ur_input_tokens := 10;
     ur_output_tokens := 5; ur_reasoning_tokens := 0; ur_cached_tokens := 0; usd := 3;
     ur_surface_id := None; ur_end_user_id := None; ur_conversation_id := None;
     ur_session_id := None; ur_request_id := "r1" |}.

Definition sample_ledger : CostLedger (flagged_list LedgerJob) (flagged_list SpendEvent) :=
  {| led_queue := Some ([], [false]);
     led_db := Some ([{| spend := sample_record; created_on := some_day |}], []) |}.

Lemma sum_usd_month_witness : exists q,
  sum_usd "t1" 2024 2 None None sample_ledger = Ret q /\ (q == 3)%Q.
Proof.
  eexists. split.
  - apply (sum_usd_month "t1" 2024 2 sample_ledger
      ([{| spend := sample_record; created_on := some_day |}], [])); [lia|reflexivity|].
    repeat constructor; simpl; unfold days_in_month, leap; simpl; lia.
  - vm_compute. reflexivity.
Defined.
