(* ===== verification/Cache.v ===== *)
(** * Gateway caches (backend/app/gateway/cache.py)

    The exact-match and the semantic response cache, both keyed by tenant,
    and the facade that purges a tenant in both and logs the invalidation.
    A stored entry is the JSON value of its text.  The SHA-256 digest and the
    sentence encoder are parameters. *)

From S2P Require Import Prelude Json Types Redis.

(** ** Entries and their JSON form *)

Record CachedEntry := {
  ce_provider : string;
  ce_model : string;
  ce_content : string;
  ce_usage : Usage;
  ce_finish_reason : option string;
  ce_tool_calls : option (list ToolCall);
}.

Definition json_opt {A} (f : A -> json) (o : option A) : json :=
  match o with Some a => f a | None => JNull end.

Definition usage_to_json (u : Usage) : json := JObj [
  ("input_tokens", JNum (input_tokens u)); ("output_tokens", JNum (output_tokens u));
  ("reasoning_tokens", JNum (reasoning_tokens u)); ("cached_tokens", JNum (cached_tokens u))].

Definition tool_call_to_json (c : ToolCall) : json := JObj [
  ("id", JStr (call_id c)); ("name", JStr (call_name c)); ("arguments", call_arguments c)].

(** [CachedEntry.to_json]: the fields of the dataclass, in order. *)
Definition to_json (e : CachedEntry) : json := JObj [
  ("provider", JStr (ce_provider e));
  ("model", JStr (ce_model e));
  ("content", JStr (ce_content e));
  ("usage", usage_to_json (ce_usage e));
  ("finish_reason", json_opt JStr (ce_finish_reason e));
  ("tool_calls", json_opt (fun l => JList (map tool_call_to_json l)) (ce_tool_calls e))].

Definition as_str (v : json) : option string := match v with JStr s => Some s | _ => None end.
Definition as_num (v : json) : option Z := match v with JNum z => Some z | _ => None end.

(** An optional value: [null] is [None]. *)
Definition as_opt {A} (f : json -> option A) (v : json) : option (option A) :=
  match v with JNull => Some None | _ => Some <$> f v end.

Definition as_list {A} (f : json -> option A) (v : json) : option (list A) :=
  match v with JList l => mapM f l | _ => None end.

Definition usage_from_json (v : json) : option Usage :=
  let n k := default 0 (get_field k v ≫= as_num) in
  match v with
  | JObj _ => Some (Build_Usage (n "input_tokens") (n "output_tokens") (n "reasoning_tokens")
                                (n "cached_tokens"))
  | _ => None
  end.

Definition tool_call_from_json (v : json) : option ToolCall :=
  i ← get_field "id" v ≫= as_str;
  n ← get_field "name" v ≫= as_str;
  a ← get_field "arguments" v;
  Some {| call_id := i; call_name := n; call_arguments := a |}.

Definition entry_fields : list string :=
  ["provider"; "model"; "content"; "usage"; "finish_reason"; "tool_calls"].

(** [CachedEntry.from_json]: the keyword call of the dataclass, which fails on
    a missing or an unexpected field; the last two default to [None]. *)
Definition from_json (v : json) : option CachedEntry :=
  match v with
  | JObj fields =>
      if forallb (fun f => bool_decide (f.1 ∈ entry_fields)) fields then
        p ← get_field "provider" v ≫= as_str;
        m ← get_field "model" v ≫= as_str;
        c ← get_field "content" v ≫= as_str;
        u ← get_field "usage" v ≫= usage_from_json;
        fr ← as_opt as_str (default JNull (get_field "finish_reason" v));
        tc ← as_opt (as_list tool_call_from_json) (default JNull (get_field "tool_calls" v));
        Some {| ce_provider := p; ce_model := m; ce_content := c; ce_usage := u;
                ce_finish_reason := fr; ce_tool_calls := tc |}
      else None
  | _ => None
  end.

(** What is stored is read back. *)
Lemma json_roundtrip e : from_json (to_json e) = Some e.
Proof.
  destruct e as [p m c u fr tc].
  assert (forall l, as_list tool_call_from_json (JList (map tool_call_to_json l)) = Some l) as Hl.
  { simpl. induction l as [|[i n a] l IH]; [done|]. cbn [map mapM]. by rewrite IH. }
  transitivity (fr' ← as_opt as_str (json_opt JStr fr);
    tc' ← as_opt (as_list tool_call_from_json) (json_opt (fun l => JList (map tool_call_to_json l)) tc);
    Some (Build_CachedEntry p m c u fr' tc')); [by destruct u|].
  assert (as_opt as_str (json_opt JStr fr) = Some fr) as -> by by destruct fr.
  destruct tc as [tc|]; [|done].
  assert (as_opt (as_list tool_call_from_json)
    (json_opt (fun l => JList (map tool_call_to_json l)) (Some tc)) = Some (Some tc)) as ->; [|done].
  unfold as_opt, json_opt. by rewrite Hl.
Qed.

(** ** ExactCache *)

Record ExactCacheConfig := { ex_prefix : string; ex_ttl_seconds : Z }.

Definition default_exact_config : ExactCacheConfig :=
  {| ex_prefix := "neryva:gateway:exact:"; ex_ttl_seconds := 300 |}.

(** A value that a decoder refuses raises inside the guarded body. *)
Definition or_raise {St A} (o : option A) : io (managed St) redis_exc A :=
  match o with Some a => mret a | None => throw RedisError end.

Section exact.
Context {St : Type} `{RedisKV St json}.
Context (sha256 : string -> string).
Context (cfg : ExactCacheConfig).

Definition tenant_prefix (tenant : string) : string := ex_prefix cfg +:+ tenant +:+ ":".

Definition exact_key (tenant prompt_version canonical : string) : string :=
  tenant_prefix tenant +:+
  String.substring 0 32 (sha256 (tenant +:+ ":" +:+ prompt_version +:+ ":" +:+ canonical)).

Definition exact_get {E} (now : Z) (tenant prompt_version canonical : string) :
    io (managed St) E (option CachedEntry) :=
  let k := exact_key tenant prompt_version canonical in
  guarded None
    (raw ← m_run (fun s => (redis_get now k s, s));
     match raw with
     | None => mret None
     | Some raw =>
         _ ← m_run (fun s => (tt, redis_pexpire now k (ex_ttl_seconds cfg * 1000) s));
         e ← or_raise (from_json raw);
         mret (Some e)
     end).

Definition exact_set {E} (now : Z) (tenant prompt_version canonical : string)
    (entry : CachedEntry) : io (managed St) E unit :=
  guarded tt
    (m_run (fun s => (tt, redis_set now (exact_key tenant prompt_version canonical) (to_json entry)
                            (Some (ex_ttl_seconds cfg * 1000)) s))).

Definition exact_purge_tenant {E} (now : Z) (tenant : string) : io (managed St) E nat :=
  guarded 0%nat
    (keys ← m_run (fun s => (redis_keys now (tenant_prefix tenant) s, s));
     _ ← (if bool_decide (keys = []) then mret tt
          else m_run (fun s => (tt, foldr redis_del s keys)));
     mret (length keys)).

(** *** Lemmas *)

Lemma exact_get_serving {E} t tenant pv canonical c :
  m_serving c ->
  (@exact_get E t tenant pv canonical c).1 =
    Ret (redis_get t (exact_key tenant pv canonical) (store (m_conn c)) ≫= from_json).
Proof.
  intros Hc. set (k := exact_key tenant pv canonical).
  destruct (m_run_serving (fun s => (redis_get t k s, s)) c Hc) as (c1 & Hr1 & Hc1 & Hs1).
  unfold exact_get, guarded, mbind, io_bind, get_st, try_catch. fold k.
  pose proof Hc as [_ ->]. simpl. rewrite Hr1. simpl.
  destruct (redis_get t k (store (m_conn c))) as [raw|]; [|done].
  destruct (m_run_serving (fun s => (tt, redis_pexpire t k (ex_ttl_seconds cfg * 1000) s)) c1 Hc1)
    as (c2 & Hr2 & _). rewrite Hr2. simpl. by destruct (from_json raw).
Qed.

Context (sha256_long : forall x, (32 <= String.length (sha256 x))%nat).

Lemma exact_key_tenant t1 v1 r1 t2 v2 r2 :
  exact_key t1 v1 r1 = exact_key t2 v2 r2 -> t1 = t2.
Proof.
  unfold exact_key, tenant_prefix. intros Hk.
  apply string_app_inv_length in Hk as [Hk _]; [|by rewrite !string_length_take].
  apply (inj (String.append (ex_prefix cfg))) in Hk.
  by apply string_app_inv_length in Hk as [Hk _].
Qed.

Lemma exact_purge_serving {E} now tenant c :
  m_serving c ->
  let keys := redis_keys now (tenant_prefix tenant) (store (m_conn c)) in
  exists c', @exact_purge_tenant E now tenant c = (Ret (length keys), c') /\ m_serving c' /\
    store (m_conn c') = foldr redis_del (store (m_conn c)) keys.
Proof.
  intros Hc keys.
  destruct (m_run_serving (fun s => (redis_keys now (tenant_prefix tenant) s, s)) c Hc)
    as (c1 & Hr1 & Hc1 & Hs1). simpl in Hr1, Hs1. fold keys in Hr1.
  destruct (bool_decide (keys = [])) eqn:Ek.
  - exists c1. split_and!; [|done|].
    + apply guarded_serving; [apply Hc|]. unfold mbind, io_bind. by rewrite Hr1, Ek.
    + apply bool_decide_eq_true in Ek. by rewrite Hs1, Ek.
  - destruct (m_run_serving (fun s => (tt, foldr redis_del s keys)) c1 Hc1) as (c2 & Hr2 & Hc2 & Hs2).
    exists c2. split_and!; [|done|by rewrite Hs2, Hs1].
    apply guarded_serving; [apply Hc|]. unfold mbind, io_bind. by rewrite Hr1, Ek, Hr2.
Qed.

End exact.

(** ** Sorted sets, for the semantic index *)

Class RedisZSet (St : Type) {V} `{RedisKV St V} := {
  (** members with their scores, by increasing score, at an instant *)
  zmembers : Z -> string -> St -> list (string * Z);
  (** the commands that rewrite a set; its expiry is kept *)
  zwrite : Z -> string -> list (string * Z) -> St -> St;
  zmembers_zwrite now k l s k' :
    zmembers now k' (zwrite now k l s) = if decide (k' = k) then l else zmembers now k' s;
  zmembers_set now k v ttl s k' :
    k' <> k -> zmembers now k' (redis_set now k v ttl s) = zmembers now k' s;
  zmembers_del t k s k' :
    zmembers t k' (redis_del k s) = if decide (k' = k) then [] else zmembers t k' s;
  zmembers_pexpire now k ttl s k' :
    0 < ttl -> zmembers now k' (redis_pexpire now k ttl s) = zmembers now k' s;
  zmembers_later t t' k s :
    t <= t' -> zmembers t' k s = zmembers t k s \/ zmembers t' k s = [];
  look_zwrite t now k l s k' : k' <> k -> look t k' (zwrite now k l s) = look t k' s;
}.

Section zset.
Context {St : Type} `{RedisZSet St}.

Definition zscore_leb (a b : string * Z) : bool := snd a <=? snd b.

Definition zadd (now : Z) (k m : string) (score : Z) (s : St) : St :=
  zwrite now k (sort_by zscore_leb
    (List.filter (fun e => negb (bool_decide (e.1 = m))) (zmembers now k s) ++ [(m, score)])) s.

(** ZREMRANGEBYRANK k 0 (-cap - 1): all but the last [cap] members go. *)
Definition ztrim (now : Z) (k : string) (cap : nat) (s : St) : St :=
  zwrite now k (drop (length (zmembers now k s) - cap) (zmembers now k s)) s.

Definition zrange_all (now : Z) (k : string) (s : St) : list string := (zmembers now k s).*1.
Definition zrevrange_all (now : Z) (k : string) (s : St) : list string := reverse (zmembers now k s).*1.

End zset.

(** ** SemanticCache *)

Record SemanticCacheConfig := {
  sem_prefix : string;
  similarity_threshold : Q;
  per_tenant_capacity : nat;
  sem_ttl_seconds : Z;
}.

Definition default_semantic_config : SemanticCacheConfig :=
  {| sem_prefix := "neryva:gateway:semantic:"; similarity_threshold := 0.92;
     per_tenant_capacity := 500; sem_ttl_seconds := 300 |}.

(** [SemanticCache._cosine] on normalised vectors. *)
Definition _cosine (a b : list Q) : Q :=
  if bool_decide (a = []) || bool_decide (b = []) || negb (length a =? length b)%nat then 0%Q
  else foldr (fun xy acc => fst xy * snd xy + acc)%Q 0%Q (zip a b).

(** The payload of an entry: its vector and the entry's JSON form. *)
Abbreviation sem_value := (list Q * json)%type.

Section choice.
Context (cfg : SemanticCacheConfig).

(** The choice of [find_similar] over what the candidates hold. *)
Definition consider_pure (qv : list Q) (best : option (Q * string))
    (c : string * option sem_value) : option (Q * string) :=
  match snd c with
  | None => best
  | Some data =>
      let score := _cosine qv (fst data) in
      if similarity_threshold cfg <=?q score then
        match best with
        | None => Some (score, fst c)
        | Some b => if fst b <?q score then Some (score, fst c) else best
        end
      else best
  end.

(** The fold keeps a candidate of greatest score among those above the
    threshold. *)
Lemma consider_fold qv l best :
  (forall b, best = Some b -> (similarity_threshold cfg <= fst b)%Q) ->
  match foldl (consider_pure qv) best l with
  | None => best = None /\
      forall id d, (id, Some d) ∈ l -> (_cosine qv (fst d) < similarity_threshold cfg)%Q
  | Some b =>
      (similarity_threshold cfg <= fst b)%Q /\
      (best = Some b \/ exists d, (snd b, Some d) ∈ l /\ fst b = _cosine qv (fst d)) /\
      (forall b0, best = Some b0 -> (fst b0 <= fst b)%Q) /\
      forall id d, (id, Some d) ∈ l -> (_cosine qv (fst d) <= fst b)%Q
  end.
Proof.
  revert best. induction l as [|[id [d|]] l IH]; intros best Hb; cbn [foldl].
  - destruct best as [b|].
    + split; [by apply Hb|]. split; [by left|]. split; [intros b0 [= ->]; lra|].
      intros id d Hin. by apply not_elem_of_nil in Hin.
    + split; [done|]. intros id d Hin. by apply not_elem_of_nil in Hin.
  - set (best' := consider_pure qv best (id, Some d)).
    assert (forall b, best' = Some b -> (similarity_threshold cfg <= fst b)%Q /\
      (best = Some b \/ b = (_cosine qv (fst d), id)) /\ (_cosine qv (fst d) <= fst b)%Q /\
      (forall b0, best = Some b0 -> (fst b0 <= fst b)%Q) \/
      best = Some b /\ (_cosine qv (fst d) < similarity_threshold cfg)%Q) as Hb'.
    { intros b Heq. unfold best', consider_pure in Heq. simpl in Heq.
      destruct (_ <=?q _) eqn:E; q_prop.
      - left. destruct best as [b1|].
        + specialize (Hb b1 eq_refl). destruct (fst b1 <?q _) eqn:E2; q_prop; injection Heq as <-;
            (split; [done|]); simpl.
          * split; [by right|]. split; [lra|]. intros b0 [= ->]. lra.
          * split; [by left|]. split; [lra|]. intros b0 [= ->]. lra.
        + injection Heq as <-. split; [done|]. simpl. split; [by right|]. split; [lra|done].
      - right. done. }
    assert (best' = None -> best = None /\ (_cosine qv (fst d) < similarity_threshold cfg)%Q) as Hn.
    { intros Heq. unfold best', consider_pure in Heq. simpl in Heq.
      destruct (_ <=?q _) eqn:E; q_prop; [|done]. destruct best; [by destruct (_ <?q _)|done]. }
    specialize (IH best'). destruct (foldl (consider_pure qv) best' l) as [b|].
    + destruct IH as (Hth & Hor & Hge & Hall).
      { intros b1 Hb1. destruct (Hb' b1 Hb1) as [(? & _)|[-> _]]; [done|by apply Hb]. }
      split; [done|]. split; [|split].
      * destruct Hor as [Hor|(d' & ? & ?)]; [|right; exists d'; set_solver].
        destruct (Hb' b Hor) as [(_ & [?| ->] & _)|[? _]]; [by left|right|by left].
        exists d. set_solver.
      * intros b0 Hb0. destruct best' as [b1|] eqn:Eb1.
        -- apply Qle_trans with (fst b1); [|by apply Hge].
           destruct (Hb' b1 eq_refl) as [(_ & _ & _ & Hx)|[Hx _]]; [by apply Hx|].
           rewrite Hb0 in Hx. injection Hx as ->. lra.
        -- destruct (Hn eq_refl) as [Hx _]. congruence.
      * intros id' d' [[= -> ->]|Hin]%elem_of_cons; [|by eapply Hall].
        destruct best' as [b1|] eqn:Eb1.
        -- specialize (Hge b1 eq_refl). destruct (Hb' b1 eq_refl) as [(_ & _ & Hx & _)|[_ Hx]]; lra.
        -- destruct (Hn eq_refl) as [_ Hx]. lra.
    + destruct IH as [Hbn Hall].
      { intros b1 Hb1. destruct (Hb' b1 Hb1) as [(? & _)|[-> _]]; [done|by apply Hb]. }
      destruct (Hn Hbn) as [? ?]. split; [done|].
      intros id' d' [[= -> ->]|Hin]%elem_of_cons; [done|by eapply Hall].
  - specialize (IH best Hb). change (consider_pure qv best (id, None)) with best.
    destruct (foldl _ best l) as [b|].
    + destruct IH as (? & Hor & ? & Hall). split; [done|]. split; [|split; [done|]].
      * destruct Hor as [?|(d & ? & ?)]; [by left|right; exists d; set_solver].
      * intros id' d' [[= ->]|Hin]%elem_of_cons; by eapply Hall.
    + destruct IH as [? Hall]. split; [done|].
      intros id' d' [[= ->]|Hin]%elem_of_cons; by eapply Hall.
Qed.

End choice.

Section semantic.
Context {St : Type} `{RedisZSet St (V := sem_value)}.
Context (sha256 : string -> string).
Context (_embed : string -> option (list Q)).
Context (cfg : SemanticCacheConfig).

Definition _index_key (tenant : string) : string := sem_prefix cfg +:+ tenant +:+ ":index".
Definition _entry_key (tenant entry_id : string) : string :=
  sem_prefix cfg +:+ tenant +:+ ":entry:" +:+ entry_id.

(** One candidate of [find_similar]. *)
Definition consider (now : Z) (tenant : string) (qv : list Q) (best : option (Q * string))
    (entry_id : string) : io (managed St) redis_exc (option (Q * string)) :=
  raw ← m_run (fun s => (redis_get now (_entry_key tenant entry_id) s, s));
  mret (match raw with
        | None => best
        | Some data =>
            let score := _cosine qv (fst data) in
            if similarity_threshold cfg <=?q score then
              match best with
              | None => Some (score, entry_id)
              | Some b => if fst b <?q score then Some (score, entry_id) else best
              end
            else best
        end).

Fixpoint best_of (now : Z) (tenant : string) (qv : list Q) (best : option (Q * string))
    (candidates : list string) : io (managed St) redis_exc (option (Q * string)) :=
  match candidates with
  | [] => mret best
  | c :: cs => best ← consider now tenant qv best c; best_of now tenant qv best cs
  end.

Definition find_similar {E} (now : Z) (tenant query_text : string) :
    io (managed St) E (option CachedEntry) :=
  guarded None
    (qv ← or_raise (_embed query_text);
     candidates ← m_run (fun s => (zrevrange_all now (_index_key tenant) s, s));
     best ← best_of now tenant qv None candidates;
     match best with
     | None => mret None
     | Some b =>
         data ← m_run (fun s => (redis_get now (_entry_key tenant (snd b)) s, s));
         _ ← m_run (fun s => (tt, redis_pexpire now (_entry_key tenant (snd b))
                                    (sem_ttl_seconds cfg * 1000) s));
         _ ← m_run (fun s => (tt, redis_pexpire now (_index_key tenant)
                                    (sem_ttl_seconds cfg * 1000) s));
         data ← or_raise data;
         e ← or_raise (from_json (snd data));
         mret (Some e)
     end).

(** The commands of a pipeline run as one transaction. *)
Definition sem_store {E} (now : Z) (tenant query_text : string) (entry : CachedEntry) :
    io (managed St) E unit :=
  guarded tt
    (vector ← or_raise (_embed query_text);
     let entry_id := String.substring 0 16 (sha256 query_text) in
     m_run (fun s =>
       let s := redis_set now (_entry_key tenant entry_id) (vector, to_json entry)
                  (Some (sem_ttl_seconds cfg * 1000)) s in
       let s := zadd now (_index_key tenant) entry_id now s in
       (tt, ztrim now (_index_key tenant) (per_tenant_capacity cfg) s))).

Definition sem_purge_tenant {E} (now : Z) (tenant : string) : io (managed St) E nat :=
  guarded 0%nat
    (entries ← m_run (fun s => (zrange_all now (_index_key tenant) s, s));
     _ ← (if bool_decide (entries = []) then mret tt
          else m_run (fun s => (tt, foldr redis_del s (map (_entry_key tenant) entries))));
     _ ← m_run (fun s => (tt, redis_del (_index_key tenant) s));
     mret (length entries)).

(** *** Lemmas *)

Definition held_value (now : Z) (tenant : string) (s : St) (id : string) : option sem_value :=
  redis_get now (_entry_key tenant id) s.

Lemma best_of_serving now tenant qv ids best c :
  m_serving c ->
  exists c', best_of now tenant qv best ids c =
      (Ret (foldl (consider_pure cfg qv) best
              (map (fun id => (id, held_value now tenant (store (m_conn c)) id)) ids)), c') /\
    m_serving c' /\ store (m_conn c') = store (m_conn c).
Proof.
  revert best c. induction ids as [|id ids IH]; intros best c Hc; [by exists c|].
  destruct (m_run_serving (fun s => (redis_get now (_entry_key tenant id) s, s)) c Hc)
    as (c1 & Hr1 & Hc1 & Hs1). simpl in Hr1, Hs1.
  destruct (IH (consider_pure cfg qv best (id, held_value now tenant (store (m_conn c)) id)) c1 Hc1)
    as (c2 & Hr2 & Hc2 & Hs2).
  exists c2. split_and!; [|done|by rewrite Hs2].
  cbn [best_of map foldl]. unfold consider, mbind, io_bind. rewrite Hr1. simpl. rewrite Hs1 in Hr2.
  exact Hr2.
Qed.

Lemma sem_purge_serving {E} now tenant c :
  m_serving c ->
  exists n c', @sem_purge_tenant E now tenant c = (Ret n, c') /\ m_serving c' /\
    zmembers now (_index_key tenant) (store (m_conn c')) = [].
Proof.
  intros Hc.
  destruct (m_run_serving (fun s => (zrange_all now (_index_key tenant) s, s)) c Hc)
    as (c1 & Hr1 & Hc1 & Hs1). simpl in Hr1.
  set (entries := zrange_all now (_index_key tenant) (store (m_conn c))) in *.
  assert (exists c2, (if bool_decide (entries = []) then mret tt
      else m_run (fun s => (tt, foldr redis_del s (map (_entry_key tenant) entries)))) c1 =
      (Ret (E:=redis_exc) tt, c2) /\ m_serving c2) as (c2 & Hr2 & Hc2).
  { destruct (bool_decide _); [by exists c1|].
    destruct (m_run_serving (fun s => (tt, foldr redis_del s (map (_entry_key tenant) entries))) c1 Hc1)
      as (c2 & Hr2 & Hc2 & _). by exists c2. }
  destruct (m_run_serving (fun s => (tt, redis_del (_index_key tenant) s)) c2 Hc2)
    as (c3 & Hr3 & Hc3 & Hs3).
  exists (length entries), c3. split_and!; [|done|].
  - apply guarded_serving; [apply Hc|]. unfold mbind, io_bind. rewrite Hr1, Hr2, Hr3. done.
  - rewrite Hs3. simpl. rewrite zmembers_del. by rewrite decide_True.
Qed.

End semantic.

(** ** GatewayCache *)

Record InvalidationRow := {
  inv_tenant_id : string;
  inv_scope : string;
  inv_resource_id : option string;
  inv_reason : string;
}.

Section facade.
Context {XS SS : Type} `{RedisKV XS json} `{RedisZSet SS (V := sem_value)}.
Context (sha256 : string -> string) (xcfg : ExactCacheConfig) (scfg : SemanticCacheConfig).

(** The durable log, and whether its writes succeed, call by call. *)
Record GatewayCache := {
  gc_exact : managed XS;
  gc_semantic : managed SS;
  gc_log : option (list InvalidationRow);
  gc_log_faults : list bool;
}.

Definition put_exact (x : managed XS) (c : GatewayCache) : GatewayCache :=
  {| gc_exact := x; gc_semantic := gc_semantic c; gc_log := gc_log c;
     gc_log_faults := gc_log_faults c |}.
Definition put_semantic (x : managed SS) (c : GatewayCache) : GatewayCache :=
  {| gc_exact := gc_exact c; gc_semantic := x; gc_log := gc_log c;
     gc_log_faults := gc_log_faults c |}.

Definition on_exact {E A} (c : io (managed XS) E A) : io GatewayCache E A :=
  lift gc_exact put_exact id c.
Definition on_semantic {E A} (c : io (managed SS) E A) : io GatewayCache E A :=
  lift gc_semantic put_semantic id c.

(** [_log_invalidation]: a failed write is logged and swallowed. *)
Definition _log_invalidation {E} (row : InvalidationRow) : io GatewayCache E unit :=
  modify (fun c =>
    match gc_log c with
    | None => c
    | Some rows =>
        match gc_log_faults c with
        | true :: fs => {| gc_exact := gc_exact c; gc_semantic := gc_semantic c;
                           gc_log := Some rows; gc_log_faults := fs |}
        | fs => {| gc_exact := gc_exact c; gc_semantic := gc_semantic c;
                   gc_log := Some (rows ++ [row]); gc_log_faults := tail fs |}
        end
    end).

Definition get_exact {E} (now : Z) (tenant pv canonical : string) :
    io GatewayCache E (option CachedEntry) :=
  on_exact (exact_get sha256 xcfg now tenant pv canonical).

Definition set_exact {E} (now : Z) (tenant pv canonical : string) (entry : CachedEntry) :
    io GatewayCache E unit :=
  on_exact (exact_set sha256 xcfg now tenant pv canonical entry).

Definition get_semantic {E} _embed (now : Z) (tenant query_text : string) :
    io GatewayCache E (option CachedEntry) :=
  on_semantic (find_similar _embed scfg now tenant query_text).

Definition set_semantic {E} _embed (now : Z) (tenant query_text : string) (entry : CachedEntry) :
    io GatewayCache E unit :=
  on_semantic (sem_store sha256 _embed scfg now tenant query_text entry).

Definition purge_both {E} (now : Z) (tenant : string) (row : InvalidationRow) : io GatewayCache E nat :=
  removed ← on_exact (exact_purge_tenant xcfg now tenant);
  removed2 ← on_semantic (sem_purge_tenant scfg now tenant);
  _ ← _log_invalidation row;
  mret (removed + removed2)%nat.

Definition invalidate_tenant {E} (now : Z) (tenant reason : string) : io GatewayCache E nat :=
  purge_both now tenant {| inv_tenant_id := tenant; inv_scope := "tenant";
                           inv_resource_id := None; inv_reason := reason |}.

Definition invalidate_resource {E} (now : Z) (tenant resource reason : string) :
    io GatewayCache E nat :=
  purge_both now tenant {| inv_tenant_id := tenant; inv_scope := "resource";
                           inv_resource_id := Some resource; inv_reason := reason |}.

End facade.
Arguments GatewayCache XS SS : clear implicits.

(** ** A store with values and sorted sets *)

Abbreviation zsets := (gmap string (list (string * Z) * option Z)).
Abbreviation zstore V := (kv_map V * zsets)%type.

Definition zlive (t : Z) (e : list (string * Z) * option Z) : bool :=
  match e.2 with Some d => t <? d | None => true end.

Definition zlook (t : Z) (k : string) (z : zsets) : list (string * Z) :=
  match z !! k with
  | Some e => if zlive t e then e.1 else []
  | None => []
  end.

Definition zput (now : Z) (k : string) (l : list (string * Z)) (z : zsets) : zsets :=
  <[k := (l, match z !! k with
             | Some e => if zlive now e then e.2 else None
             | None => None
             end)]> z.

Definition zexpire (now : Z) (k : string) (ttl : Z) (z : zsets) : zsets :=
  alter (fun e => if zlive now e then (e.1, Some (now + ttl)) else e) k z.

#[export] Program Instance zstore_RedisKV V : RedisKV (zstore V) V := {
  look t k s := look t k s.1;
  redis_set now k v ttl s := (redis_set now k v ttl s.1, delete k s.2);
  redis_del k s := (redis_del k s.1, delete k s.2);
  redis_pexpire now k ttl s := (redis_pexpire now k ttl s.1, zexpire now k ttl s.2);
  redis_keys now p s := redis_keys now p s.1;
}.
Next Obligation. intros. by apply look_later. Qed.
Next Obligation. intros. by apply look_set. Qed.
Next Obligation. intros. apply look_del. Qed.
Next Obligation. intros. by apply look_pexpire. Qed.
Next Obligation. intros. apply elem_of_redis_keys. Qed.
Next Obligation. intros. apply NoDup_redis_keys. Qed.

#[export] Program Instance zstore_RedisZSet V : RedisZSet (zstore V) := {
  zmembers t k s := zlook t k s.2;
  zwrite now k l s := (s.1, zput now k l s.2);
}.
Next Obligation.
  intros V now k l [s z] k'. unfold zlook, zput; simpl. rewrite lookup_insert.
  repeat case_decide; simplify_eq; try done. unfold zlive at 1. simpl.
  destruct (z !! k) as [[l' [d|]]|]; unfold zlive; simpl; try done.
  by destruct (now <? d) eqn:E; rewrite ?E.
Qed.
Next Obligation. intros. unfold zlook; simpl. by rewrite lookup_delete_ne. Qed.
Next Obligation.
  intros V t k [s z] k'. unfold zlook; simpl. rewrite lookup_delete. repeat case_decide; naive_solver.
Qed.
Next Obligation.
  intros V now k ttl [s z] k' Httl. cbn. unfold zlook, zexpire. rewrite lookup_alter.
  case_decide; subst; [|done]. destruct (z !! k') as [e|]; simpl; [|done].
  destruct (zlive now e) eqn:E; [|by rewrite E]. unfold zlive. simpl.
  destruct (Z.ltb_spec now (now + ttl)); [done|lia].
Qed.
Next Obligation.
  intros V t t' k [s z] Ht. unfold zlook, zlive; simpl. destruct (z !! k) as [[l [d|]]|]; simpl; auto.
  destruct (Z.ltb_spec t' d); [|by right]. left. by destruct (Z.ltb_spec t d); [|lia].
Qed.
Next Obligation. done. Qed.

(** ** Properties *)

Section properties.
Context {XS SS : Type} `{RedisKV XS json} `{RedisZSet SS (V := sem_value)}.
Context (sha256 : string -> string) (sha256_long : forall x, (32 <= String.length (sha256 x))%nat).
Context (xcfg : ExactCacheConfig) (scfg : SemanticCacheConfig).

(** the exact cache: an entry that is stored is what a lookup of the same
    request returns until its time to live is over, and nothing is returned
    afterwards; and storing for one tenant changes no lookup of another
    tenant, whatever the requests (keys of different tenants never meet,
    whatever characters the identifiers hold). *)
Theorem exact_cache_spec now tenant pv canonical e c :
  m_serving c ->
  exists c', @exact_set XS _ sha256 xcfg redis_exc now tenant pv canonical e c = (Ret tt, c') /\
    (forall t, now <= t -> (exact_get (E:=redis_exc) sha256 xcfg t tenant pv canonical c').1 =
       Ret (if t <? now + ex_ttl_seconds xcfg * 1000 then Some e else None)) /\
    (forall t tenant' pv' canonical', now <= t -> tenant' <> tenant ->
       (exact_get (E:=redis_exc) sha256 xcfg t tenant' pv' canonical' c').1 =
       (exact_get (E:=redis_exc) sha256 xcfg t tenant' pv' canonical' c).1).
Proof.
  intros Hc.
  destruct (m_run_serving (fun s => (tt, redis_set now (exact_key sha256 xcfg tenant pv canonical)
    (to_json e) (Some (ex_ttl_seconds xcfg * 1000)) s)) c Hc) as (c' & Hr & Hc' & Hs).
  exists c'. split; [apply guarded_serving; [apply Hc|exact Hr]|]. simpl in Hs.
  split; intros t; [intros Ht|intros tenant' pv' canonical' Ht Hne];
    rewrite !exact_get_serving by done; rewrite Hs; unfold redis_get; rewrite look_set by done.
  - rewrite decide_True by done. cbn [unexpired fmap option_fmap option_map].
    destruct (Z.ltb_spec t (now + ex_ttl_seconds xcfg * 1000)); [|done].
    change (Ret (E:=redis_exc) (from_json (to_json e)) = Ret (Some e)). by rewrite json_roundtrip.
  - rewrite decide_False; [done|]. intros Hk. apply Hne. by eapply exact_key_tenant.
Qed.

(** the semantic cache returns the entry of a candidate of the tenant's
    index whose similarity reaches the threshold and is the greatest of all
    candidates, and returns nothing only when no candidate reaches it. *)
Theorem find_similar_best _embed now tenant text qv c :
  _embed text = Some qv -> m_serving c ->
  let ids := zrevrange_all now (_index_key scfg tenant) (store (m_conn c)) in
  let value id := held_value scfg now tenant (store (m_conn c)) id in
  (forall id d, id ∈ ids -> value id = Some d -> is_Some (from_json d.2)) ->
  exists r, (find_similar (E:=redis_exc) _embed scfg now tenant text c).1 = Ret r /\
    match r with
    | None => forall id d, id ∈ ids -> value id = Some d ->
        (_cosine qv d.1 < similarity_threshold scfg)%Q
    | Some e => exists id d, id ∈ ids /\ value id = Some d /\ from_json d.2 = Some e /\
        (similarity_threshold scfg <= _cosine qv d.1)%Q /\
        forall id' d', id' ∈ ids -> value id' = Some d' -> (_cosine qv d'.1 <= _cosine qv d.1)%Q
    end.
Proof.
  intros He Hc ids value Hdec.
  destruct (m_run_serving (fun s => (zrevrange_all now (_index_key scfg tenant) s, s)) c Hc)
    as (c1 & Hr1 & Hc1 & Hs1). simpl in Hr1, Hs1. fold ids in Hr1.
  destruct (best_of_serving scfg now tenant qv ids None c1 Hc1) as (c2 & Hr2 & Hc2 & Hs2).
  pose proof (consider_fold scfg qv
    (map (fun id => (id, held_value scfg now tenant (store (m_conn c1)) id)) ids) None) as Hf.
  assert (forall id d, (id, Some d) ∈
      map (fun id => (id, held_value scfg now tenant (store (m_conn c1)) id)) ids <->
      id ∈ ids /\ value id = Some d) as Hin.
  { intros id d. rewrite Hs1. change (map ?f ids) with (f <$> ids). rewrite list_elem_of_fmap.
    unfold value. split.
    - intros (x & [= -> Hv] & Hx). by rewrite Hv.
    - intros [Hi Hv]. exists id. by rewrite Hv. }
  unfold find_similar, guarded, mbind, io_bind, get_st, try_catch.
  pose proof Hc as [_ ->]. cbn [negb]. rewrite He. simpl or_raise. unfold mret, io_ret.
  rewrite Hr1, Hr2. destruct (foldl _ None _) as [[sc id]|] eqn:Ef.
  - destruct Hf as (Hth & [?|(d & Hd & Hsc)] & _ & Hall); [done|done|]. simpl in Hth, Hd, Hsc, Hall |- *.
    apply Hin in Hd as [Hid Hd].
    destruct (m_run_serving (fun s => (redis_get now (_entry_key scfg tenant id) s, s)) c2 Hc2)
      as (c3 & -> & Hc3 & Hs3).
    destruct (m_run_serving (fun s => (tt, redis_pexpire now (_entry_key scfg tenant id)
      (sem_ttl_seconds scfg * 1000) s)) c3 Hc3) as (c4 & -> & Hc4 & _).
    destruct (m_run_serving (fun s => (tt, redis_pexpire now (_index_key scfg tenant)
      (sem_ttl_seconds scfg * 1000) s)) c4 Hc4) as (c5 & -> & Hc5 & _).
    simpl. rewrite Hs2, Hs1. unfold value, held_value in Hd. rewrite Hd. simpl.
    destruct (Hdec id d Hid Hd) as [e Hfe]. rewrite Hfe. simpl.
    exists (Some e). split; [done|]. exists id, d. split_and!; [done..|by rewrite <- Hsc|].
    intros id' d' Hid' Hd'. rewrite <- Hsc. apply (Hall id'). by apply Hin.
  - exists None. split; [done|]. destruct Hf as [_ Hall]; [done|].
    intros id d Hid Hd. apply (Hall id). by apply Hin.
Qed.

(** invalidation leaves nothing to serve: after [invalidate_tenant] (or
    [invalidate_resource]) no later lookup of that tenant, exact or semantic,
    hits; and the invalidation is in the durable log when its write works. *)
Theorem invalidation_clears _embed now tenant scope resource reason c :
  m_serving (gc_exact c) -> m_serving (gc_semantic c) ->
  let row := {| inv_tenant_id := tenant; inv_scope := scope; inv_resource_id := resource;
                inv_reason := reason |} in
  exists n c', purge_both (E:=redis_exc) xcfg scfg now tenant row c = (Ret n, c') /\
    (forall t pv canonical, now <= t ->
       (get_exact (E:=redis_exc) sha256 xcfg t tenant pv canonical c').1 = Ret None) /\
    (forall t text, now <= t ->
       (get_semantic (E:=redis_exc) scfg _embed t tenant text c').1 = Ret None) /\
    (forall rows, gc_log c = Some rows -> gc_log_faults c = [] -> gc_log c' = Some (rows ++ [row])).
Proof.
  intros Hx Hsm row.
  destruct (exact_purge_serving xcfg (E:=redis_exc) now tenant (gc_exact c) Hx) as (x' & Hrx & Hx' & Hsx).
  destruct (sem_purge_serving scfg (E:=redis_exc) now tenant (gc_semantic c) Hsm) as (n2 & s' & Hrs & Hs' & Hms).
  set (c1 := put_semantic s' (put_exact x' c)).
  assert (exists c', _log_invalidation (E:=redis_exc) row c1 = (Ret tt, c') /\ gc_exact c' = x' /\
    gc_semantic c' = s' /\ (forall rows, gc_log c = Some rows -> gc_log_faults c = [] ->
      gc_log c' = Some (rows ++ [row]))) as (c' & Hlog & Hex & Hse & Hrow).
  { eexists. split; [done|]. unfold c1; simpl. destruct (gc_log c) as [rows|]; [|done].
    destruct (gc_log_faults c) as [|[] fs]; simpl; by (split_and!; [..|intros ? [= ->] ?]). }
  eexists _, c'. split; [|split; [|split; [|exact Hrow]]].
  - unfold purge_both, on_exact, on_semantic, lift, mbind, io_bind. rewrite Hrx. cbv beta iota.
    change (gc_semantic (put_exact x' c)) with (gc_semantic c). rewrite Hrs. cbv beta iota.
    fold c1. by rewrite Hlog.
  - intros t pv canonical Ht. unfold get_exact, on_exact, lift. rewrite Hex.
    pose proof (exact_get_serving (E:=redis_exc) sha256 xcfg t tenant pv canonical x' Hx') as Hg.
    destruct (exact_get _ _ _ _ _ _ _) as [o x2]. simpl in Hg. subst o. simpl.
    unfold redis_get. rewrite Hsx, purge_prefix; [done|done|]. apply string_prefix_app.
  - intros t text Ht. unfold get_semantic, on_semantic, lift. rewrite Hse.
    unfold find_similar, guarded, mbind, io_bind, get_st, try_catch.
    pose proof Hs' as [_ ->]. cbn [negb]. destruct (_embed text) as [qv|]; [|done]. simpl or_raise.
    unfold mret, io_ret.
    destruct (m_run_serving (fun s => (zrevrange_all t (_index_key scfg tenant) s, s)) s' Hs')
      as (s2 & Hr2 & _). rewrite Hr2. simpl. unfold zrevrange_all.
    assert (zmembers t (_index_key scfg tenant) (store (m_conn s')) = []) as ->; [|done].
    destruct (zmembers_later now t (_index_key scfg tenant) (store (m_conn s')) Ht) as [->| ->]; done.
Qed.

End properties.

(** ** Witnesses *)

(** A digest long enough for the keys. *)
Definition pad_digest (s : string) : string := s +:+ "00000000000000000000000000000000".

Lemma pad_digest_long x : (32 <= String.length (pad_digest x))%nat.
Proof. unfold pad_digest. rewrite string_length_app. simpl. lia. Qed.

Definition empty_exact : managed (kv_map json) :=
  {| m_conn := Build_redis ∅ []; m_available := true; m_degraded_logged := false |}.
Definition empty_semantic : managed (zstore sem_value) :=
  {| m_conn := Build_redis (∅, ∅) []; m_available := true; m_degraded_logged := false |}.

Lemma empty_exact_serving : m_serving empty_exact.
Proof. split; [constructor|done]. Defined.
Lemma empty_semantic_serving : m_serving empty_semantic.
Proof. split; [constructor|done]. Defined.

Definition sample_entry : CachedEntry :=
  {| ce_provider := "openai"; ce_model := "gpt-4o"; ce_content := "hi"; ce_usage := no_usage;
     ce_finish_reason := Some "stop"; ce_tool_calls := None |}.

Lemma exact_cache_spec_witness : exists c' : managed (kv_map json),
  (exact_get (E:=redis_exc) pad_digest default_exact_config 299999 "t1" "v1" "q" c').1 =
    Ret (Some sample_entry) /\
  (exact_get (E:=redis_exc) pad_digest default_exact_config 300000 "t1" "v1" "q" c').1 = Ret None.
Proof.
  destruct (exact_cache_spec pad_digest pad_digest_long default_exact_config 0 "t1" "v1" "q"
    sample_entry empty_exact empty_exact_serving) as (c' & _ & Hg & _).
  exists c'. split; by rewrite Hg.
Defined.

(** A store holding two entries of a tenant, at similarities 0.95 and 1. *)
Definition two_entries : managed (zstore sem_value) :=
  let key id := _entry_key default_semantic_config "t1" id in
  {| m_conn := Build_redis (
       <[key "a" := (([1; 0]%Q, to_json sample_entry), None)]>
         (<[key "b" := (([0.95; 0.3]%Q, to_json sample_entry), None)]> ∅),
       {[ _index_key default_semantic_config "t1" := ([("a", 1); ("b", 2)], None) ]}) [];
     m_available := true; m_degraded_logged := false |}.

Lemma find_similar_best_witness :
  exists e, (find_similar (E:=redis_exc) (fun _ => Some [1; 0]%Q) default_semantic_config 5 "t1" "x"
    two_entries).1 = Ret (Some e).
Proof.
  assert (m_serving two_entries) as Hs by (split; [constructor|done]).
  assert (zrevrange_all 5 (_index_key default_semantic_config "t1") (store (m_conn two_entries))
    = ["b"; "a"]) as Hids by (vm_compute; reflexivity).
  destruct (find_similar_best default_semantic_config (fun _ => Some [1; 0]%Q) 5 "t1" "x" [1; 0]%Q
    two_entries eq_refl Hs) as ([e|] & Hr & Hspec).
  - intros id d Hid Hv. rewrite Hids in Hid.
    rewrite !elem_of_cons, elem_of_nil in Hid. destruct Hid as [->|[->|[]]];
      vm_compute in Hv; injection Hv as <-; by eexists.
  - by exists e.
  - exfalso. specialize (Hspec "a" ([1; 0]%Q, to_json sample_entry)).
    assert (_cosine [1; 0]%Q [1; 0]%Q < similarity_threshold default_semantic_config)%Q as Hlt.
    { apply Hspec; [rewrite Hids; set_solver|vm_compute; reflexivity]. }
    vm_compute in Hlt. discriminate Hlt.
Defined.

Lemma invalidation_clears_witness : exists n c' (c : GatewayCache (kv_map json) (zstore sem_value)),
  purge_both (E:=redis_exc) default_exact_config default_semantic_config 0 "t1"
    {| inv_tenant_id := "t1"; inv_scope := "tenant"; inv_resource_id := None; inv_reason := "r" |} c
    = (Ret n, c') /\
  gc_log c' = Some [{| inv_tenant_id := "t1"; inv_scope := "tenant"; inv_resource_id := None;
                       inv_reason := "r" |}].
Proof.
  set (c := {| gc_exact := empty_exact; gc_semantic := two_entries; gc_log := Some [];
               gc_log_faults := [] |}).
  destruct (invalidation_clears pad_digest default_exact_config default_semantic_config
    (fun _ => None) 0 "t1" "tenant" None "r" c empty_exact_serving) as (n & c' & Hr & _ & _ & Hl).
  - split; [constructor|done].
  - exists n, c', c. split; [done|]. by apply (Hl []).
Defined.
