(* ===== verification/Gateway.v ===== *)
(** * Gateway (backend/app/gateway/service.py)

    The request path over the components: candidates, quota reservation,
    exact cache, availability snapshot, execution with the fallback chain,
    cooldown accounting, settlement, cost ledger and cache store.  Providers
    are an oracle that may answer each call by the whole history of calls;
    key resolution and adapter construction are parameters.  Metrics are not
    modelled. *)

From S2P Require Import Prelude Json Catalog Types Router Fallback Redis Quota Cooldown Ledger Cache.

Definition json_opt_truthy (o : option json) : bool :=
  match o with Some v => json_truthy v | None => false end.

(** [_request_key] *)
Definition _request_key (r : GatewayRequest) : string :=
  dumps (JObj [("messages", JList (messages r)); ("tools", JList (tools r));
               ("structured_output", json_opt id (structured_output r))]).

(** One message of [_to_llm_messages]. *)
Definition to_llm_message (m : json) : json :=
  let md := default JNull (get_field "metadata" m) in
  JObj [("role", default (JStr "user") (get_field "role" m));
        ("content", default (JStr EmptyString) (get_field "content" m));
        ("metadata", if json_truthy md then md else JObj [])].

Definition _to_llm_messages (l : list json) : list json := map to_llm_message l.

(** ** Providers *)

(** An adapter as the gateway caches it: the factory's arguments, and the two
    settings refreshed on each use. *)
Record Adapter := {
  ad_provider : string;
  ad_model : string;
  ad_api_key : string;
  ad_tools : list json;
  ad_structured_output : option json;
}.

Record LLMResponse := {
  resp_content : string;
  resp_model : string;
  resp_usage : Usage;
  resp_finish_reason : option string;
  resp_tool_calls : option (list ToolCall);
}.

(** How a chat call ends, after so many milliseconds. *)
Inductive chat_reply :=
| ChatOk (r : LLMResponse)
| ChatRaise (message : string)
| ChatQuota (level : string) (limit projected : Q).

(** The events of an adapter's stream. *)
Inductive adapter_event :=
| ADelta (content : option string)
| AToolStart (index : option Z) (id name : option string)
| AToolDelta (index : option Z) (id name arguments : option string)
| AToolEnd (index : option Z) (id name : option string)
| AUsage (u : option Usage)
| ADone (finish : option string) (u : option Usage)
| AError (error : option string)
| AOther.

(** What awaiting the next event gives; the end of the list is the end of the
    stream. *)
Inductive stream_item :=
| SEvent (e : adapter_event)
| SRaise (message : string)
| SCancelled.

(** A call to a provider: the deployment it is made for, the adapter and what
    is sent. *)
Record call := {
  call_deployment : deployment;
  call_adapter : Adapter;
  call_messages : list json;
}.

Record Providers := {
  prov_chat : list call -> call -> Z * chat_reply;
  prov_stream : list call -> call -> Z * list stream_item;
}.

Record ProviderCallError := {
  failure_class : string;
  err_provider : string;
  err_model : string;
  cause : string;
}.

(** What is fixed while a request runs: the component configurations, the
    providers, the adapter factory (which may raise), the tenant and the
    quota window. *)
Record GatewayEnv := {
  env_catalog : ModelCatalog;
  env_cheap_model : string;
  env_cooldown : CooldownConfig;
  env_quota : QuotaConfig;
  env_exact : ExactCacheConfig;
  env_sha256 : string -> string;
  env_providers : Providers;
  env_adapter_factory : string -> string -> GatewayRequest -> string -> outcome string Adapter;
  env_tenant : string;
  env_window : string;
}.

(** ** State *)

Section gateway.
Context {CS QS XS SS JQ DB : Type}.
Context `{RedisCounter CS} `{RedisHash QS} `{RedisKV XS json} `{RedisZSet SS (V := sem_value)}.
Context `{JobSink LedgerJob JQ} `{SpendStore DB}.

Record Gateway := {
  g_cooldowns : managed CS;
  g_quota : QuotaService QS;
  g_cache : GatewayCache XS SS;
  g_ledger : CostLedger JQ DB;
  g_latency : LatencyTracker;
  g_adapters : gmap string Adapter;
  g_calls : list call;
  g_now : Z;
}.

Definition put_cooldowns (x : managed CS) (g : Gateway) : Gateway :=
  {| g_cooldowns := x; g_quota := g_quota g; g_cache := g_cache g; g_ledger := g_ledger g;
     g_latency := g_latency g; g_adapters := g_adapters g; g_calls := g_calls g; g_now := g_now g |}.
Definition put_quota (x : QuotaService QS) (g : Gateway) : Gateway :=
  {| g_cooldowns := g_cooldowns g; g_quota := x; g_cache := g_cache g; g_ledger := g_ledger g;
     g_latency := g_latency g; g_adapters := g_adapters g; g_calls := g_calls g; g_now := g_now g |}.
Definition put_cache (x : GatewayCache XS SS) (g : Gateway) : Gateway :=
  {| g_cooldowns := g_cooldowns g; g_quota := g_quota g; g_cache := x; g_ledger := g_ledger g;
     g_latency := g_latency g; g_adapters := g_adapters g; g_calls := g_calls g; g_now := g_now g |}.
Definition put_ledger (x : CostLedger JQ DB) (g : Gateway) : Gateway :=
  {| g_cooldowns := g_cooldowns g; g_quota := g_quota g; g_cache := g_cache g; g_ledger := x;
     g_latency := g_latency g; g_adapters := g_adapters g; g_calls := g_calls g; g_now := g_now g |}.
Definition put_latency (x : LatencyTracker) (g : Gateway) : Gateway :=
  {| g_cooldowns := g_cooldowns g; g_quota := g_quota g; g_cache := g_cache g; g_ledger := g_ledger g;
     g_latency := x; g_adapters := g_adapters g; g_calls := g_calls g; g_now := g_now g |}.
Definition put_adapters (x : gmap string Adapter) (g : Gateway) : Gateway :=
  {| g_cooldowns := g_cooldowns g; g_quota := g_quota g; g_cache := g_cache g; g_ledger := g_ledger g;
     g_latency := g_latency g; g_adapters := x; g_calls := g_calls g; g_now := g_now g |}.
(** A provider call of a duration: it joins the history and time passes. *)
Definition add_call (c : call) (ms : Z) (g : Gateway) : Gateway :=
  {| g_cooldowns := g_cooldowns g; g_quota := g_quota g; g_cache := g_cache g; g_ledger := g_ledger g;
     g_latency := g_latency g; g_adapters := g_adapters g; g_calls := g_calls g ++ [c];
     g_now := g_now g + ms |}.

Definition on_cooldowns {E A} (f : Z -> io (managed CS) E A) : io Gateway E A := fun g =>
  lift g_cooldowns put_cooldowns id (f (g_now g)) g.
Definition on_quota {E A} (c : io (QuotaService QS) E A) : io Gateway E A :=
  lift g_quota put_quota id c.
Definition on_cache {E A} (f : Z -> io (GatewayCache XS SS) E A) : io Gateway E A := fun g =>
  lift g_cache put_cache id (f (g_now g)) g.
Definition on_ledger {A} (c : io (CostLedger JQ DB) string A) : io Gateway gateway_exc A :=
  lift g_ledger put_ledger OtherError c.

Context (env : GatewayEnv).
Abbreviation catalog := (env_catalog env).
Abbreviation cheap_model_fallback := (env_cheap_model env).
Abbreviation ccfg := (env_cooldown env).
Abbreviation qcfg := (env_quota env).
Abbreviation xcfg := (env_exact env).
Abbreviation sha256 := (env_sha256 env).
Abbreviation providers := (env_providers env).
Abbreviation adapter_factory := (env_adapter_factory env).
Abbreviation tenant := (env_tenant env).
Abbreviation window := (env_window env).

(** [Gateway._get_adapter] *)
Definition _get_adapter (p m : string) (r : GatewayRequest) (api_key : string) :
    io Gateway string Adapter := fun g =>
  let key := tenant +:+ ":" +:+ p +:+ ":" +:+ m in
  match g_adapters g !! key with
  | None =>
      match adapter_factory p m r api_key with
      | Ret a => (Ret a, put_adapters (<[key := a]> (g_adapters g)) g)
      | Raise e => (Raise e, g)
      end
  | Some a =>
      let a := {| ad_provider := ad_provider a; ad_model := ad_model a; ad_api_key := ad_api_key a;
                  ad_tools := tools r; ad_structured_output := structured_output r |} in
      (Ret a, put_adapters (<[key := a]> (g_adapters g)) g)
  end.

Definition router_candidates (r : GatewayRequest) (cfg : GatewayCfg) : io Gateway gateway_exc (list deployment) :=
  fun g => (Ret (candidates catalog (g_latency g) cheap_model_fallback r cfg), g).

(** The availability snapshot of [_decide]. *)
Fixpoint snapshot_of (cs : list deployment) (acc : gmap deployment bool) :
    io Gateway gateway_exc (gmap deployment bool) :=
  match cs with
  | [] => mret acc
  | c :: cs =>
      b ← on_cooldowns (fun now => is_available ccfg now c.1 c.2);
      snapshot_of cs (<[c := b]> acc)
  end.

(** [Gateway._decide] *)
Definition _decide (r : GatewayRequest) (cfg : GatewayCfg) : io Gateway gateway_exc RouteDecision :=
  cs ← router_candidates r cfg;
  snap ← snapshot_of cs ∅;
  g ← get_st;
  match decide_route catalog (g_latency g) cheap_model_fallback r
          (fun p m => default true (snap !! (p, m))) cfg with
  | Some d => mret d
  | None => throw (OtherError "list index out of range")
  end.

(** [Gateway._estimate_max_spend] *)
Definition _estimate_max_spend (cs : list deployment) (r : GatewayRequest) : Q :=
  match estimated_input_tokens r with
  | None | Some 0 => 0%Q
  | Some n =>
      match omap (fun c : deployment => estimate_cost catalog c.1 c.2 n 1024) cs with
      | [] => 0%Q
      | x :: costs => foldl Qmaxb x costs
      end
  end.

(** [Gateway._result_usd] *)
Definition _result_usd (res : GatewayResult) : Q :=
  default 0%Q (estimate_cost catalog (res_provider res) (res_model res)
                 (input_tokens (usage res)) (output_tokens (usage res))).

(** [Gateway._attempt]: a result, or the failure of the deployment; only a
    quota refusal raises. *)
Definition _attempt (r : GatewayRequest) (api_key p m : string) :
    io Gateway gateway_exc (GatewayResult + ProviderCallError) := fun g =>
  let failed msg := inr {| failure_class := classify_failure msg; err_provider := p;
                           err_model := m; cause := msg |} in
  match _get_adapter p m r api_key g with
  | (Raise msg, g) => (Ret (failed msg), g)
  | (Ret a, g) =>
      let c := {| call_deployment := (p, m); call_adapter := a; call_messages := _to_llm_messages (messages r) |} in
      let '(ms, reply) := prov_chat providers (g_calls g) c in
      let g := add_call c ms g in
      match reply with
      | ChatRaise msg => (Ret (failed msg), g)
      | ChatQuota level limit projected => (Raise (GatewayQuotaExceeded level limit projected), g)
      | ChatOk resp =>
          (Ret (inl {| content := resp_content resp;
                       res_model := if truthy (resp_model resp) then resp_model resp else m;
                       res_provider := p;
                       usage := resp_usage resp;
                       finish_reason := resp_finish_reason resp;
                       tool_calls := resp_tool_calls resp;
                       routed_via := p +:+ ":" +:+ m;
                       attempts := 1;
                       cached := false |}),
           put_latency (latency_update p m (inject_Z ms) (g_latency g)) g)
      end
  end.

Definition cacheable (r : GatewayRequest) (cfg : GatewayCfg) : bool :=
  default true (caching cfg) && bool_decide (length (tools r) = 0%nat) &&
  negb (json_opt_truthy (structured_output r)).

Definition prompt_version_of (cfg : GatewayCfg) : string := default "v1" (prompt_version cfg).

Definition usage_record (r : GatewayRequest) (res : GatewayResult) : UsageRecord := {|
  ur_tenant_id := tenant_id r; ur_provider := res_provider res; ur_model := res_model res;
  ur_input_tokens := input_tokens (usage res); ur_output_tokens := output_tokens (usage res);
  ur_reasoning_tokens := reasoning_tokens (usage res);
  ur_cached_tokens := cached_tokens (usage res); usd := _result_usd res;
  ur_surface_id := surface_id r; ur_end_user_id := end_user_id r;
  ur_conversation_id := conversation_id r; ur_session_id := session_id r;
  ur_request_id := request_id r |}.

Definition to_cached_entry (res : GatewayResult) : CachedEntry := {|
  ce_provider := res_provider res; ce_model := res_model res; ce_content := content res;
  ce_usage := usage res; ce_finish_reason := finish_reason res; ce_tool_calls := tool_calls res |}.

(** [Gateway._after_success] *)
Definition _after_success (r : GatewayRequest) (cfg : GatewayCfg) (res : GatewayResult) :
    io Gateway gateway_exc unit :=
  _ ← try_catch (on_ledger (record (usage_record r res))) (fun _ : gateway_exc => mret tt);
  if cacheable r cfg then
    try_catch (on_cache (fun now => set_exact sha256 xcfg now (tenant_id r) (prompt_version_of cfg)
                                      (_request_key r) (to_cached_entry res)))
              (fun _ : gateway_exc => mret tt)
  else mret tt.

(** [Gateway._from_cache] *)
Definition _from_cache (e : CachedEntry) : GatewayResult := {|
  content := ce_content e; res_model := ce_model e; res_provider := ce_provider e;
  usage := ce_usage e; finish_reason := ce_finish_reason e; tool_calls := ce_tool_calls e;
  routed_via := "cache:" +:+ ce_provider e +:+ ":" +:+ ce_model e; attempts := 0; cached := true |}.

(** ** The fallback loop *)

(** [targets.pop(0)] until a deployment that was not tried. *)
Fixpoint next_target (seen targets : list deployment) : option deployment :=
  match targets with
  | [] => None
  | t :: targets' => if decide (t ∈ seen) then next_target seen targets' else Some t
  end.

Definition remaining (chain : FallbackChain) (fc : string) (seen : list deployment) : list deployment :=
  List.filter (fun t => negb (bool_decide (t ∈ seen))) (targets chain fc).

Inductive chain_result :=
| ChainDone (res : GatewayResult)
| ChainFailed (last : option ProviderCallError) (n : nat)
| ChainNoFuel.

(** The [while targets] loop of [_execute_chain]. *)
Fixpoint chain_loop (fuel : nat) (r : GatewayRequest) (cfg : GatewayCfg) (api_key : string)
    (resv : option QuotaReservation) (chain : FallbackChain) (seen ts : list deployment)
    (last : option ProviderCallError) (n : nat) : io Gateway gateway_exc chain_result :=
  match next_target seen ts with
  | None => mret (ChainFailed last n)
  | Some (p, m) =>
      match fuel with
      | O => mret ChainNoFuel
      | S fuel =>
          let seen := seen ++ [(p, m)] in
          out ← _attempt r api_key p m;
          match out with
          | inl res =>
              _ ← on_cooldowns (fun _ => record_success ccfg p m);
              _ ← on_quota (reconcile resv (_result_usd res));
              _ ← _after_success r cfg res;
              mret (ChainDone res)
          | inr err =>
              _ ← on_cooldowns (fun now => record_failure ccfg now p m);
              chain_loop fuel r cfg api_key resv chain seen
                (remaining chain (failure_class err) seen) (Some err) (S n)
          end
      end
  end.

(** Every deployment the loop can try. *)
Definition loop_universe (chain : FallbackChain) (d : RouteDecision) : list deployment :=
  (dec_provider d, dec_model d) :: chain_universe chain.

(** [Gateway._execute_chain] *)
Definition _execute_chain (r : GatewayRequest) (cfg : GatewayCfg) (api_key : string)
    (resv : option QuotaReservation) : io Gateway gateway_exc GatewayResult :=
  d ← _decide r cfg;
  cs ← router_candidates r cfg;
  let chain := build_fallback_chain r cs cfg (Some (default true (cross_family_fallback cfg))) in
  out ← try_catch
    (chain_loop (length (loop_universe chain d)) r cfg api_key resv chain []
       [(dec_provider d, dec_model d)] None 0)
    (fun e : gateway_exc => _ ← on_quota (release resv); throw e);
  match out with
  | ChainDone res => mret res
  | ChainFailed last n =>
      _ ← on_quota (release resv);
      match last with
      | Some e => throw (GatewayChainExhausted (err_provider e) (err_model e) (cause e)
                           (failure_class e) (Z.of_nat n))
      | None => throw (GatewayConfigurationError "no deployments to try")
      end
  | ChainNoFuel => throw (OtherError "fallback loop did not end")
  end.

(** [Gateway.generate]; [key] is how the key resolver ends. *)
Definition generate (r : GatewayRequest) (key : outcome gateway_exc string) (gateway_cfg : GatewayCfg) :
    io Gateway gateway_exc GatewayResult :=
  let cfg := effective_cfg gateway_cfg in
  cs ← router_candidates r cfg;
  resv ← on_quota (reserve qcfg (quota_limits_from_cfg cfg) tenant (surface_id r) (end_user_id r)
                     (_estimate_max_spend cs r) (request_id r) window);
  hit ← (if cacheable r cfg
         then on_cache (fun now => get_exact sha256 xcfg now tenant (prompt_version_of cfg) (_request_key r))
         else mret None);
  match hit with
  | Some e => _ ← on_quota (release resv); mret (_from_cache e)
  | None =>
      match key with
      | Raise e => throw e
      | Ret api_key => _execute_chain r cfg api_key resv
      end
  end.

(** ** Lemmas *)

Implicit Types g : Gateway.

(** Operations that never raise. *)
Definition quiet {S E A} (c : io S E A) : Prop := forall s, exists a s', c s = (Ret a, s').

Lemma guarded_quiet {St E A} (off : A) (body : io (managed St) redis_exc A) :
  quiet (guarded (E:=E) off body).
Proof. intros c. destruct (guarded_cases (E:=E) off body c) as (a & c' & Heq & _). eauto. Qed.

Lemma reconcile_quiet {E} resv actual : quiet (@reconcile QS _ E resv actual).
Proof.
  intros q. unfold reconcile. destruct resv as [rv|]; [|by eexists _, _].
  case_bool_decide; [by eexists _, _|]. unfold mbind, io_bind, get_st.
  destruct (negb _); [by eexists _, _|]. unfold try_catch.
  destruct (settle_loop _ _ _ q) as [[[]|] q']; by eexists _, _.
Qed.

Lemma release_quiet {E} resv : quiet (@release QS _ E resv).
Proof.
  intros q. unfold release. destruct resv as [rv|]; [|by eexists _, _].
  case_bool_decide; [by eexists _, _|]. apply reconcile_quiet.
Qed.

(** Releasing is reconciling at no cost. *)
Lemma release_reconcile {E} resv q : @release QS _ E resv q = @reconcile QS _ E resv 0 q.
Proof.
  unfold release. destruct resv as [rv|]; [|done].
  case_bool_decide as Hk; [|done]. unfold reconcile. by rewrite bool_decide_eq_true_2.
Qed.

Lemma on_cooldowns_quiet {E A} (f : Z -> io (managed CS) E A) g :
  (forall now, quiet (f now)) -> exists a x, on_cooldowns f g = (Ret a, put_cooldowns x g).
Proof.
  intros Hf. unfold on_cooldowns, lift. destruct (Hf (g_now g) (g_cooldowns g)) as (a & x & ->). eauto.
Qed.

Lemma on_cooldowns_record_success {E} p m g :
  exists x, on_cooldowns (fun _ => record_success ccfg p m) g = (Ret (E:=E) tt, put_cooldowns x g).
Proof.
  destruct (on_cooldowns_quiet (E:=E) (fun _ => record_success ccfg p m) g) as ([] & x & Heq);
    [intros; apply guarded_quiet|]. eauto.
Qed.

Lemma on_cooldowns_record_failure {E} p m g :
  exists n x, on_cooldowns (fun now => record_failure ccfg now p m) g
    = (Ret (E:=E) n, put_cooldowns x g).
Proof. apply on_cooldowns_quiet. intros. apply guarded_quiet. Qed.

Lemma on_quota_reconcile {E} resv cost g :
  on_quota (reconcile resv cost) g
    = (Ret (E:=E) tt, put_quota (reconcile (E:=E) resv cost (g_quota g)).2 g).
Proof.
  unfold on_quota, lift. by destruct (reconcile_quiet (E:=E) resv cost (g_quota g)) as ([] & q & ->).
Qed.

Lemma on_quota_release {E} resv g :
  on_quota (release resv) g = (Ret (E:=E) tt, put_quota (release (E:=E) resv (g_quota g)).2 g).
Proof.
  unfold on_quota, lift. by destruct (release_quiet (E:=E) resv (g_quota g)) as ([] & q & ->).
Qed.

Lemma reconcile_state {E E'} resv cost q :
  (@reconcile QS _ E resv cost q).2 = (@reconcile QS _ E' resv cost q).2.
Proof.
  unfold reconcile. destruct resv as [rv|]; [|done]. case_bool_decide; [done|].
  unfold mbind, io_bind, get_st. destruct (negb _); [done|]. unfold try_catch.
  by destruct (settle_loop _ _ _ q) as [[[]|] q'].
Qed.

(** What an operation may touch: the quota, the ledger, the calls and the
    latencies are as before. *)
Definition same_accounts g g' : Prop :=
  g_quota g' = g_quota g /\ g_ledger g' = g_ledger g.

Lemma snapshot_spec cs acc g :
  exists snap x, snapshot_of cs acc g = (Ret snap, put_cooldowns x g).
Proof.
  revert acc g. induction cs as [|c cs IH]; intros acc g; [by exists acc, (g_cooldowns g); destruct g|].
  destruct (on_cooldowns_quiet (E:=gateway_exc) (fun now => is_available ccfg now c.1 c.2) g)
    as (b & x & Heq); [intros; apply guarded_quiet|].
  destruct (IH (<[c := b]> acc) (put_cooldowns x g)) as (snap & x' & Heq').
  exists snap, x'. cbn [snapshot_of]. unfold mbind, io_bind. rewrite Heq. exact Heq'.
Qed.

Lemma decide_spec r cfg g :
  exists d x, _decide r cfg g = (Ret d, put_cooldowns x g) /\
    (dec_provider d, dec_model d) ∈ candidates catalog (g_latency g) cheap_model_fallback r cfg.
Proof.
  unfold _decide, router_candidates, mbind, io_bind, get_st.
  destruct (snapshot_spec (candidates catalog (g_latency g) cheap_model_fallback r cfg) ∅ g)
    as (snap & x & ->).
  destruct (decide_route_candidate catalog (g_latency (put_cooldowns x g)) cheap_model_fallback r
    (fun p m => default true (snap !! (p, m))) cfg) as (d & -> & Hd).
  by exists d, x.
Qed.

Lemma get_adapter_spec p m r api_key g :
  exists o g', _get_adapter p m r api_key g = (o, g') /\ same_accounts g g' /\ g_calls g' = g_calls g.
Proof.
  unfold _get_adapter. destruct (g_adapters g !! _); [by eexists _, _|].
  destruct (adapter_factory _ _ _ _); by eexists _, _.
Qed.

(** One attempt calls at most one provider, for its own deployment, and
    leaves the accounts alone. *)
Lemma attempt_spec r api_key p m g :
  exists o g', _attempt r api_key p m g = (o, g') /\ same_accounts g g' /\
    (exists new, g_calls g' = g_calls g ++ new /\ map call_deployment new `sublist_of` [(p, m)]) /\
    match o with
    | Ret (inl res) => res_provider res = p /\ cached res = false /\
        (exists c, g_calls g' = g_calls g ++ [c] /\ call_deployment c = (p, m))
    | Ret (inr err) => err_provider err = p /\ err_model err = m /\
        failure_class err = classify_failure (cause err)
    | Raise e => exists l lim pr, e = GatewayQuotaExceeded l lim pr
    end.
Proof.
  unfold _attempt.
  destruct (get_adapter_spec p m r api_key g) as ([a|msg] & g1 & -> & [Hq Hl] & Hc).
  - destruct (prov_chat providers _ _) as [ms [resp|msg|l lim pr]]; eexists _, _;
      (split; [done|]; split; [done|]; split; [eexists; simpl; rewrite Hc; by split|]);
      simpl; rewrite ?Hc; eauto 6.
  - eexists _, g1. split; [done|]. split; [done|]. split; [|done].
    exists []. rewrite app_nil_r. split; [done|apply sublist_nil_l].
Qed.

Lemma after_success_spec r cfg res g :
  exists g', _after_success r cfg res g = (Ret tt, g') /\ g_quota g' = g_quota g /\
    g_calls g' = g_calls g /\ g_ledger g' = (record (usage_record r res) (g_ledger g)).2.
Proof.
  unfold _after_success, mbind, io_bind, try_catch, on_ledger, lift.
  destruct (record (usage_record r res) (g_ledger g)) as [[[]|e] l']; simpl;
    (destruct (cacheable r cfg); [|by eexists]);
    unfold on_cache, lift; destruct (set_exact _ _ _ _ _ _ _ _) as [[[]|] x]; by eexists.
Qed.

Lemma next_target_spec seen ts t : next_target seen ts = Some t -> t ∈ ts /\ t ∉ seen.
Proof.
  induction ts as [|x ts IH]; simpl; [done|]. case_decide as Hx.
  - intros [? ?]%IH. split; [by right|done].
  - intros [= ->]. split; [by left|done].
Qed.

Lemma remaining_targets chain fc seen t : t ∈ remaining chain fc seen -> t ∈ targets chain fc.
Proof. unfold remaining. rewrite !list_elem_of_In, List.filter_In. tauto. Qed.

(** A list without repetition inside another is no longer. *)
Lemma NoDup_incl_length {A} (l1 l2 : list A) :
  NoDup l1 -> (forall x, x ∈ l1 -> x ∈ l2) -> (length l1 <= length l2)%nat.
Proof.
  intros Hnd Hincl. apply submseteq_length. by apply NoDup_submseteq.
Qed.

(** The last call was for a deployment of the provider. *)
Definition last_call (new : list call) (p : string) : Prop :=
  exists pre c m, new = pre ++ [c] /\ call_deployment c = (p, m).

(** How the accounts stand when the loop ends. *)
Definition loop_post (r : GatewayRequest) (resv : option QuotaReservation)
    (last : option ProviderCallError) (n : nat) (tried : list deployment) g g'
    (o : outcome gateway_exc chain_result) : Prop :=
  match o with
  | Ret (ChainDone res) =>
      g_quota g' = (reconcile (E:=gateway_exc) resv (_result_usd res) (g_quota g)).2 /\
      g_ledger g' = (record (usage_record r res) (g_ledger g)).2 /\
      cached res = false
  | Ret (ChainFailed l k) =>
      same_accounts g g' /\ k = (n + length tried)%nat /\
      match tried with
      | [] => l = last
      | _ => exists e, l = Some e /\ (err_provider e, err_model e) ∈ tried /\
               failure_class e = classify_failure (cause e)
      end
  | Ret ChainNoFuel => False
  | Raise e => same_accounts g g' /\ exists l lim pr, e = GatewayQuotaExceeded l lim pr
  end.

Lemma chain_loop_spec fuel r cfg api_key resv chain U : 
  (forall fc t, t ∈ targets chain fc -> t ∈ U) ->
  forall seen ts last n g,
  (forall t, t ∈ ts -> t ∈ U) -> NoDup seen -> (forall t, t ∈ seen -> t ∈ U) ->
  (length U <= fuel + length seen)%nat ->
  exists o g' tried, chain_loop fuel r cfg api_key resv chain seen ts last n g = (o, g') /\
    NoDup (seen ++ tried) /\ (forall t, t ∈ tried -> t ∈ U) /\ head tried = next_target seen ts /\
    (exists new, g_calls g' = g_calls g ++ new /\ map call_deployment new `sublist_of` tried /\
       match o with Ret (ChainDone res) => last_call new (res_provider res) | _ => True end) /\
    loop_post r resv last n tried g g' o.
Proof.
  intros HU. induction fuel as [|fuel IH]; intros seen ts last n g Hts Hnd Hseen Hfuel;
    cbn [chain_loop]; destruct (next_target seen ts) as [[p m]|] eqn:Ent.
  2, 4: (eexists _, g, []; split; [done|]; rewrite !app_nil_r; split; [done|];
    split; [intros t Ht; by apply not_elem_of_nil in Ht|]; split; [done|];
    split; [exists []; by rewrite app_nil_r|]; simpl; split; [done|]; split; [lia|done]).
  all: apply next_target_spec in Ent as Ht; destruct Ht as [Htin Htn];
    assert (NoDup (seen ++ [(p, m)])) as Hnd' by
      (apply NoDup_app; split; [done|]; split;
         [intros x Hx ->%list_elem_of_singleton; done|apply NoDup_singleton]);
    assert (forall t, t ∈ seen ++ [(p, m)] -> t ∈ U) as Hseen' by
      (intros t [?| ->%list_elem_of_singleton]%elem_of_app; auto);
    pose proof (NoDup_incl_length _ _ Hnd' Hseen') as Hlen; rewrite length_app in Hlen; simpl in Hlen;
    try lia.
  destruct (attempt_spec r api_key p m g) as (o & g1 & Ha & [Hq1 Hl1] & (new1 & Hc1 & Hn1) & Hpost).
  unfold mbind, io_bind. rewrite Ha. destruct o as [[res|err]|e].
  - destruct (on_cooldowns_record_success (E:=gateway_exc) p m g1) as (x & ->).
    rewrite on_quota_reconcile.
    set (g2 := put_quota _ (put_cooldowns x g1)).
    destruct (after_success_spec r cfg res g2) as (g3 & Has & Hq3 & Hc3 & Hl3). rewrite Has.
    eexists _, g3, [(p, m)]. split; [done|]. split; [done|].
    split; [intros t ->%list_elem_of_singleton; auto|]. split; [done|].
    destruct Hpost as (Hp & Hch & c & Hcc & Hd).
    split; [exists [c]; rewrite Hc3; split; [exact Hcc|]; rewrite Hc1 in Hcc;
            apply app_inv_head in Hcc as ->; split; [done|]; by exists [], c, m; rewrite Hp|].
    simpl. rewrite Hq3, Hl3. simpl. rewrite Hq1, Hl1. split; [done|]. split; [done|].
    done.
  - destruct (on_cooldowns_record_failure (E:=gateway_exc) p m g1) as (k & x & ->).
    destruct (IH (seen ++ [(p, m)]) (remaining chain (failure_class err) (seen ++ [(p, m)]))
      (Some err) (S n) (put_cooldowns x g1)) as
      (o & g2 & tried & Hr & Hnd2 & HU2 & Hhd & (new2 & Hc2 & Hn2 & Hlc2) & Hp2).
    + intros t Ht. eapply HU. by eapply remaining_targets.
    + done.
    + done.
    + rewrite length_app. simpl. lia.
    + exists o, g2, ((p, m) :: tried). split; [exact Hr|].
      rewrite <- app_assoc in Hnd2. split; [exact Hnd2|].
      split; [intros t [->|?]%elem_of_cons; auto|]. split; [done|].
      split.
      { exists (new1 ++ new2). simpl in Hc2. rewrite Hc2, Hc1, app_assoc. split; [done|].
        rewrite map_app. change ((p, m) :: tried) with ([(p, m)] ++ tried).
        split; [by apply sublist_app|]. destruct o as [[res| |]|]; try done.
        destruct Hlc2 as (pre & c & m' & -> & Hcd). exists (new1 ++ pre), c, m'.
        by rewrite app_assoc. }
      destruct Hpost as (He1 & He2 & He3).
      destruct o as [[res|l k'|]|e']; simpl in Hp2 |- *; rewrite ?Hq1, ?Hl1 in Hp2; try done.
      * unfold same_accounts in *. simpl in Hp2. rewrite Hq1, Hl1 in Hp2.
        destruct Hp2 as ([? ?] & -> & Hl). split; [done|]. split; [lia|].
        destruct tried as [|t0 tried].
        -- exists err. rewrite He1, He2, Hl. split; [done|]. split; [by left|done].
        -- destruct Hl as (e0 & -> & Hin & ?). exists e0. split; [done|]. split; [by right|done].
      * unfold same_accounts in *. simpl in Hp2. by rewrite Hq1, Hl1 in Hp2.
  - eexists _, g1, [(p, m)]. split; [done|]. split; [done|].
    split; [intros t ->%list_elem_of_singleton; auto|]. split; [done|].
    split; [by exists new1|]. by simpl.
Qed.

(** The chain of a request in a state. *)
Definition chain_of (r : GatewayRequest) (cfg : GatewayCfg) g : FallbackChain :=
  build_fallback_chain r (candidates catalog (g_latency g) cheap_model_fallback r cfg) cfg
    (Some (default true (cross_family_fallback cfg))).

Definition chain_post (r : GatewayRequest) (resv : option QuotaReservation)
    (tried : list deployment) g g' (o : outcome gateway_exc GatewayResult) : Prop :=
  match o with
  | Ret res =>
      g_quota g' = (reconcile (E:=gateway_exc) resv (_result_usd res) (g_quota g)).2 /\
      g_ledger g' = (record (usage_record r res) (g_ledger g)).2 /\
      cached res = false
  | Raise (GatewayChainExhausted p m reason fc n) =>
      g_quota g' = (release (E:=gateway_exc) resv (g_quota g)).2 /\ g_ledger g' = g_ledger g /\
      (p, m) ∈ tried /\ n = Z.of_nat (length tried) /\ fc = classify_failure reason
  | Raise (GatewayQuotaExceeded _ _ _) =>
      g_quota g' = (release (E:=gateway_exc) resv (g_quota g)).2 /\ g_ledger g' = g_ledger g
  | Raise _ => False
  end.

Lemma execute_chain_spec r cfg api_key resv g :
  exists o g' tried, _execute_chain r cfg api_key resv g = (o, g') /\
    NoDup tried /\ (forall t, t ∈ tried -> t ∈ chain_universe (chain_of r cfg g)) /\
    (exists new, g_calls g' = g_calls g ++ new /\ map call_deployment new `sublist_of` tried /\
       match o with Ret res => last_call new (res_provider res) | _ => True end) /\
    chain_post r resv tried g g' o.
Proof.
  unfold _execute_chain, mbind, io_bind.
  destruct (decide_spec r cfg g) as (d & x & -> & Hd). unfold router_candidates.
  change (g_latency (put_cooldowns x g)) with (g_latency g). fold (chain_of r cfg g).
  set (chain := chain_of r cfg g) in *. set (g1 := put_cooldowns x g).
  assert (Hdu : (dec_provider d, dec_model d) ∈ chain_universe chain).
  { apply (targets_universe chain FALLBACK_GENERAL). apply candidates_in_targets. exact Hd. }
  destruct (chain_loop_spec (length (loop_universe chain d)) r cfg api_key resv chain
    (loop_universe chain d)) with (seen := @nil deployment) (ts := [(dec_provider d, dec_model d)])
    (last := @None ProviderCallError) (n := 0%nat) (g := g1)
    as (o & g2 & tried & Hr & Hnd & HU & Hhd & (new & Hc & Hn & Hlc) & Hpost).
  - intros fc t Ht. unfold loop_universe. apply elem_of_cons. right. by eapply targets_universe.
  - intros t ->%list_elem_of_singleton. unfold loop_universe. apply elem_of_cons. by left.
  - apply NoDup_nil_2.
  - intros t Ht. by apply not_elem_of_nil in Ht.
  - simpl. lia.
  - assert (forall t, t ∈ tried -> t ∈ chain_universe chain) as HU'.
    { intros t Ht. apply HU in Ht. unfold loop_universe in Ht.
      apply elem_of_cons in Ht as [->|?]; done. }
    simpl in Hnd, Hhd. unfold try_catch. rewrite Hr.
    destruct o as [[res|l k|]|e]; simpl in Hpost; [| |done|].
    + eexists _, g2, tried. split; [done|]. split; [done|]. split; [done|]. split; [by exists new|].
      by simpl.
    + destruct Hpost as ([Hq Hl] & -> & He). destruct tried as [|t0 tried]; [done|].
      destruct He as (e & -> & Hin & Hfc). rewrite on_quota_release.
      eexists _, _, (t0 :: tried). split; [done|]. split; [done|]. split; [done|].
      split; [by exists new|]. simpl. by rewrite Hq, Hl.
    + destruct Hpost as ([Hq Hl] & l & lim & pr & ->). rewrite on_quota_release.
      eexists _, _, tried. split; [done|]. split; [done|]. split; [done|].
      split; [by exists new|]. simpl. by rewrite Hq, Hl.
Qed.

(** The exact-cache lookup touches nothing else. *)
Lemma cache_lookup_spec r cfg g :
  exists hit g', (if cacheable r cfg
      then on_cache (fun now => get_exact sha256 xcfg now tenant (prompt_version_of cfg) (_request_key r))
      else mret None) g = (Ret (E:=gateway_exc) hit, g') /\ g_quota g' = g_quota g /\
    g_ledger g' = g_ledger g /\ g_calls g' = g_calls g /\ g_latency g' = g_latency g.
Proof.
  destruct (cacheable r cfg); [|by exists None, g].
  unfold on_cache, lift, get_exact, on_exact, lift, exact_get.
  match goal with |- context [guarded ?off ?b ?s] =>
    destruct (guarded_quiet (E:=gateway_exc) off b s) as (a & s' & ->) end.
  by eexists _, _.
Qed.

(** ** Properties *)

(** C1: [generate] settles every reservation exactly once and accounts for
    every success: the quota state it leaves is the one after the
    reservation, reconciled with the cost of the result, or released when the
    answer came from the cache or the chain failed; the cost ledger got
    exactly the record of a result that was generated.  The one exception is
    a failing key resolver, after which the hold is left in place. *)
Theorem generate_settles_once r key gcfg g :
  let cfg := effective_cfg gcfg in
  let est := _estimate_max_spend (candidates catalog (g_latency g) cheap_model_fallback r cfg) r in
  let '(rv, q1) := reserve qcfg (quota_limits_from_cfg cfg) tenant (surface_id r) (end_user_id r)
                     est (request_id r) window (g_quota g) in
  let '(o, g') := generate r key gcfg g in
  match rv with
  | Raise e => o = Raise e /\ g_quota g' = q1 /\ g_ledger g' = g_ledger g /\ g_calls g' = g_calls g
  | Ret resv =>
      match o with
      | Ret res =>
          if cached res
          then g_quota g' = (release (E:=gateway_exc) resv q1).2 /\ g_ledger g' = g_ledger g /\
               g_calls g' = g_calls g
          else g_quota g' = (reconcile (E:=gateway_exc) resv (_result_usd res) q1).2 /\
               g_ledger g' = (record (usage_record r res) (g_ledger g)).2
      | Raise e =>
          g_ledger g' = g_ledger g /\
          match key with
          | Raise e' => e = e' /\ g_quota g' = q1 /\ g_calls g' = g_calls g
          | Ret _ => g_quota g' = (release (E:=gateway_exc) resv q1).2
          end
      end
  end.
Proof.
  intros cfg est. unfold generate. fold cfg. unfold router_candidates, mbind, io_bind.
  fold est. unfold on_quota at 1, lift at 1.
  destruct (reserve _ _ _ _ _ _ _ _ (g_quota g)) as [[resv|e] q1]; [|done].
  set (g1 := put_quota q1 g).
  destruct (cache_lookup_spec r cfg g1) as (hit & g2 & -> & Hq2 & Hl2 & Hc2 & _).
  destruct hit as [e|].
  - rewrite on_quota_release, Hq2. simpl. by rewrite Hl2, Hc2.
  - destruct key as [api_key|e]; [|simpl; by rewrite Hq2, Hl2, Hc2].
    destruct (execute_chain_spec r cfg api_key resv g2)
      as (o & g3 & tried & -> & _ & _ & _ & Hpost).
    destruct o as [res|e]; simpl in Hpost.
    + destruct Hpost as (-> & -> & ->). by rewrite Hq2, Hl2.
    + destruct e; try done; destruct Hpost as (-> & -> & _) || destruct Hpost as [-> ->];
        by rewrite Hq2, Hl2.
Qed.

(** the fallback loop ends, tries no deployment twice and nothing outside
    the request's chain: the provider calls of [generate] are for distinct
    deployments of the candidate list and its fallbacks; a result comes from
    the last deployment called, and when every target failed the
    [GatewayChainExhausted] raised names a deployment that was tried, counts
    the attempts and classifies its message. *)
Theorem generate_tries_each_once r key gcfg g :
  let cfg := effective_cfg gcfg in
  let '(o, g') := generate r key gcfg g in
  exists new tried, g_calls g' = g_calls g ++ new /\ map call_deployment new `sublist_of` tried /\
    NoDup tried /\ (forall t, t ∈ tried -> t ∈ chain_universe (chain_of r cfg g)) /\
    match o with
    | Ret res => if cached res then new = [] else last_call new (res_provider res)
    | Raise (GatewayChainExhausted p m why fc n) =>
        key = Raise (GatewayChainExhausted p m why fc n) \/
        ((p, m) ∈ tried /\ n = Z.of_nat (length tried) /\ fc = classify_failure why)
    | Raise _ => True
    end.
Proof.
  intros cfg. unfold generate. fold cfg. unfold router_candidates, mbind, io_bind.
  unfold on_quota at 1, lift at 1.
  destruct (reserve _ _ _ _ _ _ _ _ (g_quota g)) as [[resv|e] q1] eqn:Er; [|].
  2: { exists [], []. rewrite app_nil_r. split; [done|]. split; [done|].
    split; [apply NoDup_nil_2|]. split; [intros t Ht; by apply not_elem_of_nil in Ht|].
    apply reserve_raises in Er as (l & lim & pr & ->). done. }
  set (g1 := put_quota q1 g).
  destruct (cache_lookup_spec r cfg g1) as (hit & g2 & -> & Hq2 & Hl2 & Hc2 & Hla2).
  assert (forall o, match o with Ret res => cached res = true | Raise (GatewayChainExhausted _ _ _ _ _ as e) => key = Raise e | Raise _ => True end ->
    forall g', g_calls g' = g_calls g ->
    exists new tried, g_calls g' = g_calls g ++ new /\ map call_deployment new `sublist_of` tried /\
    NoDup tried /\ (forall t, t ∈ tried -> t ∈ chain_universe (chain_of r cfg g)) /\
    match o with
    | Ret res => if cached res then new = [] else last_call new (res_provider res)
    | Raise (GatewayChainExhausted p m why fc n) =>
        key = Raise (GatewayChainExhausted p m why fc n) \/
        ((p, m) ∈ tried /\ n = Z.of_nat (length tried) /\ fc = classify_failure why)
    | Raise _ => True
    end) as Hquick.
  { intros o Ho g' Hg'. exists [], []. rewrite app_nil_r. split; [done|]. split; [done|].
    split; [apply NoDup_nil_2|]. split; [intros t Ht; by apply not_elem_of_nil in Ht|].
    destruct o as [res|[]]; [by rewrite Ho|done..|by left|done]. }
  destruct hit as [e|].
  - rewrite on_quota_release. by apply Hquick.
  - destruct key as [api_key|e]; [|apply Hquick; [by destruct e|done]].
    destruct (execute_chain_spec r cfg api_key resv g2)
      as (o & g3 & tried & -> & Hnd & HU & (new & Hnew & Hsub & Hlast) & Hpost).
    exists new, tried. rewrite Hnew, Hc2. split; [done|]. split; [done|]. split; [done|].
    split. { intros t Ht. apply HU in Ht. unfold chain_of in Ht |- *. by rewrite Hla2 in Ht. }
    destruct o as [res|e]; simpl in Hpost.
    + destruct Hpost as (_ & _ & ->). exact Hlast.
    + destruct e; try done. right. tauto.
Qed.

(** an adapter outlives the key it was made with: once a deployment's
    adapter is in the gateway's cache, every later request of the tenant gets
    it with the first key, whatever key was resolved for that request; only
    the tools and the output schema are refreshed. *)
Theorem adapter_keeps_first_key p m r key1 a g g' r' key2 :
  _get_adapter p m r key1 g = (Ret a, g') ->
  exists a' g'', _get_adapter p m r' key2 g' = (Ret a', g'') /\
    ad_api_key a' = ad_api_key a /\ ad_tools a' = tools r' /\
    ad_structured_output a' = structured_output r'.
Proof.
  unfold _get_adapter. intros Hg.
  assert (g_adapters g' !! (tenant +:+ ":" +:+ p +:+ ":" +:+ m) = Some a) as Ha.
  { destruct (g_adapters g !! _) as [a0|].
    - injection Hg as <- <-. apply lookup_insert_eq.
    - destruct (adapter_factory p m r key1); [|done]. injection Hg as -> <-. apply lookup_insert_eq. }
  rewrite Ha. by eexists _, _.
Qed.

End gateway.
Arguments Gateway CS QS XS SS JQ DB : clear implicits.
