(* ===== verification/Stream.v ===== *)
(** * Streaming (backend/app/gateway/service.py, [_stream_impl])

    The streaming path as a generator: it yields events to a consumer that may
    close it after any of them, while the provider's stream may fail, or be
    cancelled, between any two of its events.  Fallback is transparent only
    before the first byte. *)

From S2P Require Import Prelude Json Catalog Types Router Fallback Redis Quota Cooldown Ledger Cache Gateway.

(** How the body is left: an exception of the gateway, a failed deployment,
    any other exception, or the cancellation of the consumer's task (closing
    the generator included). *)
Inductive stream_exc :=
| SGateway (e : gateway_exc)
| SFail (e : ProviderCallError)
| SPlain (message : string)
| SAbort
| SNoFuel.

(** Partial tool calls, by index. *)
Record tool_entry := { te_id : string; te_name : string; te_args : string }.
Definition new_entry : tool_entry := {| te_id := EmptyString; te_name := EmptyString; te_args := EmptyString |}.

(** What one attempt accumulates. *)
Record attempt_state := {
  at_usage : Usage;
  at_finish : option string;
  at_parts : list string;
  at_tools : gmap Z tool_entry;
}.
Definition new_attempt : attempt_state :=
  {| at_usage := no_usage; at_finish := None; at_parts := []; at_tools := ∅ |}.

Definition or_text (o : option string) (d : string) : string :=
  if truthy_opt o then default EmptyString o else d.

Section decode.
Context (json_loads : string -> option json).

(** [Gateway._decode_args] *)
Definition _decode_args (raw : string) : option json :=
  if truthy raw then
    match json_loads raw with Some (JObj l) => Some (JObj l) | _ => None end
  else Some (JObj []).

(** The loop of [_finalize_tool_calls]; [None] leaves it early. *)
Fixpoint finalize_entries (entries : list (Z * tool_entry)) : option (list ToolCall) :=
  match entries with
  | [] => Some []
  | (_, e) :: entries =>
      if truthy (te_id e) && truthy (te_name e) then
        args ← _decode_args (te_args e);
        calls ← finalize_entries entries;
        Some ({| call_id := te_id e; call_name := te_name e; call_arguments := args |} :: calls)
      else None
  end.

(** [Gateway._finalize_tool_calls] *)
Definition _finalize_tool_calls (acc : gmap Z tool_entry) : option (list ToolCall) :=
  match finalize_entries (sort_by (fun a b => fst a <=? fst b) (map_to_list acc)) with
  | Some [] | None => None
  | Some calls => Some calls
  end.

Definition named (id name : option string) (e : tool_entry) : tool_entry :=
  {| te_id := or_text id (te_id e); te_name := or_text name (te_name e); te_args := te_args e |}.

Definition with_tool (i : Z) (e : tool_entry) (a : attempt_state) : attempt_state :=
  {| at_usage := at_usage a; at_finish := at_finish a; at_parts := at_parts a;
     at_tools := <[i := e]> (at_tools a) |}.

Definition with_usage (u : option Usage) (a : attempt_state) : attempt_state :=
  {| at_usage := default (at_usage a) u; at_finish := at_finish a; at_parts := at_parts a;
     at_tools := at_tools a |}.

(** [_handle]: one event of the provider, as the new accumulator, whether a
    byte disables the failover, and the event to yield; or the error it
    reports. *)
Definition _handle (a : attempt_state) (ev : adapter_event) :
    string + (attempt_state * bool * option StreamEvent) :=
  match ev with
  | ADelta (Some c) =>
      if truthy c then
        inr ({| at_usage := at_usage a; at_finish := at_finish a; at_parts := at_parts a ++ [c];
                at_tools := at_tools a |}, true, Some (EvDelta c))
      else inr (a, false, None)
  | ADelta None => inr (a, false, None)
  | AToolStart index id name =>
      let i := default 0 index in
      let e := named id name (default new_entry (at_tools a !! i)) in
      inr (with_tool i e a, true, Some (EvToolStart index (te_id e) (te_name e)))
  | AToolDelta index id name args =>
      let i := default 0 index in
      let e := named id name (default new_entry (at_tools a !! i)) in
      let e := {| te_id := te_id e; te_name := te_name e;
                  te_args := if truthy_opt args then te_args e +:+ default EmptyString args
                             else te_args e |} in
      inr (with_tool i e a, false, Some (EvToolDelta index (te_id e) args))
  | AToolEnd index id name =>
      let i := default 0 index in
      match at_tools a !! i with
      | Some e =>
          let e := named id name e in
          inr (with_tool i e a, false,
               Some (EvToolEnd index (Some (te_id e)) (Some (te_name e)) (_decode_args (te_args e))))
      | None =>
          inr (a, false,
               Some (EvToolEnd index (if truthy_opt id then id else None)
                       (if truthy_opt name then name else None) (_decode_args EmptyString)))
      end
  | AUsage u => inr (with_usage u a, false, None)
  | ADone fr u =>
      let a := with_usage u a in
      inr ({| at_usage := at_usage a; at_finish := fr; at_parts := at_parts a;
              at_tools := at_tools a |}, false, None)
  | AError e => inl (or_text e "stream error")
  | AOther => inr (a, false, None)
  end.

End decode.

Section stream.
Context {CS QS XS SS JQ DB : Type}.
Context `{RedisCounter CS} `{RedisHash QS} `{RedisKV XS json} `{RedisZSet SS (V := sem_value)}.
Context `{JobSink LedgerJob JQ} `{SpendStore DB}.

(** The generator: the gateway it runs in, the events yielded so far (each
    with the number of provider calls made before it), the variables its
    handlers share, whether an upstream stream is open, and how many more
    events the consumer takes before it closes the generator. *)
Record generator := {
  st_gw : Gateway CS QS XS SS JQ DB;
  st_out : list (nat * StreamEvent);
  st_resv : option QuotaReservation;
  st_finalized : bool;
  st_emitted : bool;
  st_upstream : bool;
  st_budget : option nat;
}.

Definition put_gw (x : Gateway CS QS XS SS JQ DB) (s : generator) : generator :=
  {| st_gw := x; st_out := st_out s; st_resv := st_resv s; st_finalized := st_finalized s;
     st_emitted := st_emitted s; st_upstream := st_upstream s; st_budget := st_budget s |}.
Definition put_resv (x : option QuotaReservation) (s : generator) : generator :=
  {| st_gw := st_gw s; st_out := st_out s; st_resv := x; st_finalized := st_finalized s;
     st_emitted := st_emitted s; st_upstream := st_upstream s; st_budget := st_budget s |}.
Definition set_finalized (s : generator) : generator :=
  {| st_gw := st_gw s; st_out := st_out s; st_resv := st_resv s; st_finalized := true;
     st_emitted := st_emitted s; st_upstream := st_upstream s; st_budget := st_budget s |}.
Definition set_emitted (s : generator) : generator :=
  {| st_gw := st_gw s; st_out := st_out s; st_resv := st_resv s; st_finalized := st_finalized s;
     st_emitted := true; st_upstream := st_upstream s; st_budget := st_budget s |}.
Definition set_upstream (b : bool) (s : generator) : generator :=
  {| st_gw := st_gw s; st_out := st_out s; st_resv := st_resv s; st_finalized := st_finalized s;
     st_emitted := st_emitted s; st_upstream := b; st_budget := st_budget s |}.
Definition deliver (ev : StreamEvent) (s : generator) : generator :=
  {| st_gw := st_gw s; st_out := st_out s ++ [(length (g_calls (st_gw s)), ev)];
     st_resv := st_resv s; st_finalized := st_finalized s; st_emitted := st_emitted s;
     st_upstream := st_upstream s; st_budget := pred <$> st_budget s |}.

Definition on_gw {E A} (inj : E -> stream_exc) (c : io (Gateway CS QS XS SS JQ DB) E A) :
    io generator stream_exc A := lift st_gw put_gw inj c.

(** [yield ev]: the consumer closes the generator when it has taken its last
    event. *)
Definition yield (ev : StreamEvent) : io generator stream_exc unit :=
  _ ← modify (deliver ev);
  s ← get_st;
  if bool_decide (st_budget s = Some 0%nat) then throw SAbort else mret tt.

(** [stream.aclose()] *)
Definition aclose : io generator stream_exc unit := modify (set_upstream false).

(** [_release]: at most one release, and none after a settlement. *)
Definition release_once : io generator stream_exc unit :=
  s ← get_st;
  if st_finalized s then mret tt
  else _ ← modify set_finalized; on_gw SGateway (on_quota (release (st_resv s))).

Context (env : GatewayEnv).
Context (json_loads : string -> option json).
(** [str(e)] of a gateway exception *)
Context (exc_text : gateway_exc -> string).

Abbreviation catalog := (env_catalog env).

(** The events of a stream that was opened. *)
Fixpoint consume (p m : string) (items : list stream_item) (a : attempt_state) :
    io generator stream_exc attempt_state :=
  match items with
  | [] => _ ← modify (set_upstream false); mret a
  | SCancelled :: _ => throw SAbort
  | SRaise msg :: _ => _ ← modify (set_upstream false); throw (SPlain msg)
  | SEvent ev :: items =>
      match _handle json_loads a ev with
      | inl msg => throw (SFail {| failure_class := classify_failure msg; err_provider := p;
                                   err_model := m; cause := msg |})
      | inr (a, byte, out) =>
          _ ← (if (byte : bool) then modify set_emitted else mret tt);
          _ ← (match out with Some ev => yield ev | None => mret tt end);
          consume p m items a
      end
  end.

(** The [try] of one deployment: an empty stream raises [StopAsyncIteration]. *)
Definition open_stream (r : GatewayRequest) (p m : string) (ad : Adapter) :
    io generator stream_exc attempt_state :=
  s ← get_st;
  let g := st_gw s in
  let c := {| call_deployment := (p, m); call_adapter := ad;
              call_messages := _to_llm_messages (messages r) |} in
  let '(ms, items) := prov_stream (env_providers env) (g_calls g) c in
  _ ← modify (fun s => set_upstream true (put_gw (add_call c ms g) s));
  match items with
  | [] => _ ← modify (set_upstream false); throw (SPlain EmptyString)
  | _ => consume p m items new_attempt
  end.

(** [str(e)] of a [ProviderCallError] *)
Definition error_text (e : ProviderCallError) : string :=
  err_provider e +:+ ":" +:+ err_model e +:+ " " +:+ failure_class e +:+ ": " +:+ cause e.

(** The deployment's failure that an exception of the attempt stands for, and
    its text. *)
Definition as_failure (p m : string) (e : stream_exc) : ProviderCallError * string :=
  let plain msg := ({| failure_class := classify_failure msg; err_provider := p; err_model := m;
                       cause := msg |}, msg) in
  match e with
  | SFail e => (e, error_text e)
  | SPlain msg => plain msg
  | SGateway e => plain (exc_text e)
  | SAbort | SNoFuel => plain EmptyString
  end.

Definition stream_attempt (r : GatewayRequest) (p m : string) (ad : Adapter) :
    io generator stream_exc (attempt_state + ProviderCallError * string) :=
  try_catch (a ← open_stream r p m ad; mret (inl a))
    (fun e => match e with
     | SAbort => _ ← aclose; _ ← release_once; throw SAbort
     | _ => _ ← on_gw SGateway (on_cooldowns (fun now => record_failure (env_cooldown env) now p m));
            mret (inr (as_failure p m e))
     end).

Definition stream_result (p m : string) (n : nat) (a : attempt_state) : GatewayResult := {|
  content := String.concat EmptyString (at_parts a);
  res_model := m;
  res_provider := p;
  usage := at_usage a;
  finish_reason := at_finish a;
  tool_calls := _finalize_tool_calls json_loads (at_tools a);
  routed_via := p +:+ ":" +:+ m;
  attempts := Z.of_nat n;
  cached := false;
|}.

(** What follows a stream that ended well. *)
Definition stream_success (r : GatewayRequest) (cfg : GatewayCfg) (p m : string) (n : nat)
    (ms : Q) (a : attempt_state) : io generator stream_exc unit :=
  _ ← on_gw SGateway (on_cooldowns (fun _ => record_success (env_cooldown env) p m));
  _ ← on_gw SGateway (modify (fun g => put_latency (latency_update p m ms (g_latency g)) g));
  let res := stream_result p m n a in
  s ← get_st;
  _ ← on_gw SGateway (on_quota (reconcile (st_resv s) (_result_usd env res)));
  _ ← modify set_finalized;
  _ ← on_gw SGateway (_after_success env r cfg res);
  _ ← yield (EvUsage (at_usage a) p m);
  yield (EvDone (at_finish a) (at_usage a) p m).

(** The [while targets] loop of [_stream_impl]. *)
Fixpoint stream_loop (fuel : nat) (r : GatewayRequest) (cfg : GatewayCfg) (api_key : string)
    (chain : FallbackChain) (seen ts : list deployment) (last : option ProviderCallError) :
    io generator stream_exc unit :=
  match next_target seen ts with
  | None =>
      _ ← release_once;
      throw (SGateway (match last with
        | Some e => GatewayChainExhausted (err_provider e) (err_model e) (cause e) (failure_class e)
                      (Z.of_nat (length seen))
        | None => GatewayChainExhausted "unknown" "unknown" "no deployments" "general"
                    (Z.of_nat (length seen))
        end))
  | Some (p, m) =>
      match fuel with
      | O => throw SNoFuel
      | S fuel =>
          let seen := seen ++ [(p, m)] in
          ad ← on_gw SPlain (_get_adapter env p m r api_key);
          start ← get_st;
          res ← stream_attempt r p m ad;
          match res with
          | inl a =>
              s ← get_st;
              stream_success r cfg p m (length seen)
                (inject_Z (g_now (st_gw s) - g_now (st_gw start))) a
          | inr (err, text) =>
              s ← get_st;
              if st_emitted s then
                _ ← yield (EvError text (failure_class err)); release_once
              else
                stream_loop fuel r cfg api_key chain seen
                  (remaining chain (failure_class err) seen) (Some err)
          end
      end
  end.

(** The body of the outer [try]. *)
Definition stream_body (r : GatewayRequest) (key : outcome gateway_exc string) (cfg : GatewayCfg) :
    io generator stream_exc unit :=
  cs ← on_gw SGateway (router_candidates env r cfg);
  resv ← on_gw SGateway (on_quota (reserve (env_quota env) (quota_limits_from_cfg cfg)
           (env_tenant env) (surface_id r) (end_user_id r) (_estimate_max_spend env cs r)
           (request_id r) (env_window env)));
  _ ← modify (put_resv resv);
  match key with
  | Raise e => throw (SGateway e)
  | Ret api_key =>
      d ← on_gw SGateway (_decide env r cfg);
      let chain := build_fallback_chain r cs cfg (Some (default true (cross_family_fallback cfg))) in
      stream_loop (length (loop_universe chain d)) r cfg api_key chain []
        [(dec_provider d, dec_model d)] None
  end.

(** [Gateway.stream], with the generator [_stream_impl] it returns. *)
Definition stream (r : GatewayRequest) (key : outcome gateway_exc string) (gateway_cfg : GatewayCfg) :
    io generator stream_exc unit :=
  try_catch (stream_body r key (effective_cfg gateway_cfg))
    (fun e => match e with
     | SAbort => _ ← aclose; _ ← release_once; throw SAbort
     | SNoFuel => throw SNoFuel
     | SGateway (GatewayQuotaExceeded l lim pr as e) =>
         _ ← release_once; yield (EvError (exc_text e) "quota_exceeded")
     | SGateway (GatewayConfigurationError msg as e) =>
         _ ← release_once; yield (EvError (exc_text e) "configuration")
     | SGateway (GatewayChainExhausted p m why fc n as e) => yield (EvError (exc_text e) fc)
     | SGateway e => _ ← release_once; yield (EvError (exc_text e) "general")
     | SFail e => _ ← release_once; yield (EvError (error_text e) "general")
     | SPlain msg => _ ← release_once; yield (EvError msg "general")
     end).

(** A generator before its first event, for a consumer that closes it after
    [budget] events, or never. *)
Definition start_stream (g : Gateway CS QS XS SS JQ DB) (budget : option nat) : generator :=
  {| st_gw := g; st_out := []; st_resv := None; st_finalized := false; st_emitted := false;
     st_upstream := false; st_budget := budget |}.

(** ** Lemmas *)

Definition is_terminal (ev : StreamEvent) : bool :=
  match ev with EvDone _ _ _ _ | EvError _ _ => true | _ => false end.

(** A byte of the answer, after which the code refuses to fail over. *)
Definition is_byte (ev : StreamEvent) : bool :=
  match ev with EvDelta _ | EvToolStart _ _ _ => true | _ => false end.

Section invariant.
Context (r : GatewayRequest) (resv : option QuotaReservation).
Context (q1 : QuotaService QS) (l0 : CostLedger JQ DB).

Abbreviation settle_of cost := ((reconcile (E:=gateway_exc) resv cost q1).2).

(** The reservation was settled once: given back, or reconciled with the cost
    of the result the ledger got. *)
Definition settled (s : generator) : Prop :=
  (g_quota (st_gw s) = settle_of 0%Q /\ g_ledger (st_gw s) = l0) \/
  exists res, g_quota (st_gw s) = settle_of (_result_usd env res) /\
    g_ledger (st_gw s) = (record (usage_record env r res) l0).2.

Definition accounts (s : generator) : Prop :=
  if st_finalized s then settled s
  else g_quota (st_gw s) = q1 /\ g_ledger (st_gw s) = l0.

(** Bytes come from the last provider called, and are known to the failover. *)
Definition bytes_ok (s : generator) : Prop :=
  Forall (fun ie => is_byte ie.2 = true -> ie.1 = length (g_calls (st_gw s)) /\ st_emitted s = true)
    (st_out s).

(** No terminal event yet; or exactly one, the last. *)
Definition shape (term : bool) (out : list (nat * StreamEvent)) : Prop :=
  if term then exists pre ie, out = pre ++ [ie] /\ is_terminal ie.2 = true /\
                 Forall (fun x => is_terminal x.2 = false) pre
  else Forall (fun x => is_terminal x.2 = false) out.

Record inv (fin term : bool) (s : generator) : Prop := {
  inv_resv : st_resv s = resv;
  inv_fin : st_finalized s = fin;
  inv_accounts : accounts s;
  inv_bytes : bytes_ok s;
  inv_shape : shape term (st_out s);
}.

(** Steps in the gateway that leave the accounts and the calls alone. *)
Lemma inv_put_gw fin term s g :
  inv fin term s -> same_accounts (st_gw s) g -> g_calls g = g_calls (st_gw s) ->
  inv fin term (put_gw g s).
Proof.
  intros [Hr Hf Ha Hb Hs] [Hq Hl] Hc. split; try done.
  - unfold accounts, settled in *. simpl. by rewrite Hq, Hl.
  - unfold bytes_ok in *. simpl. by rewrite Hc.
Qed.

Lemma triple_yield fin ev (P : generator -> Prop) :
  (forall s, P s -> P (deliver ev s)) ->
  triple (fun s => inv fin false s /\ P s /\ (is_byte ev = true -> st_emitted s = true)) (yield ev)
    (fun _ s => inv fin (is_terminal ev) s /\ P s)
    (fun e s => e = SAbort /\ inv fin (is_terminal ev) s).
Proof.
  intros HP s ([Hr Hf Ha Hb Hsh] & HPs & Hbyte). unfold yield, mbind, io_bind, modify, get_st.
  assert (inv fin (is_terminal ev) (deliver ev s)) as Hinv.
  { split; try done.
    - unfold bytes_ok in *. simpl. apply Forall_app. split; [exact Hb|]. constructor; [|constructor].
      simpl. auto.
    - simpl in *. destruct (is_terminal ev) eqn:Et.
      + by eexists _, _.
      + apply Forall_app. split; [done|]. by constructor. }
  case_bool_decide; simpl; auto.
Qed.

Lemma triple_release fin term (P : generator -> Prop) X :
  (forall s g, P s -> P (put_gw g (set_finalized s))) ->
  triple (fun s => inv fin term s /\ P s) release_once (fun _ s => inv true term s /\ (P s)) X.
Proof.
  intros HP s [[Hr Hf Ha Hb Hsh] HPs]. unfold release_once, mbind, io_bind, get_st, modify.
  destruct (st_finalized s) eqn:Efin; simpl; [by subst|].
  unfold on_gw, lift. simpl. rewrite on_quota_release. split; [|by apply HP].
  unfold accounts in Ha. rewrite Efin in Ha. destruct Ha as [Hq Hl].
  split; try done. unfold accounts, settled. simpl. left. rewrite Hr, Hq. split; [|done].
  by rewrite release_reconcile.
Qed.

Lemma inv_upstream fin term b s : inv fin term s -> inv fin term (set_upstream b s).
Proof. by intros [Hr Hf Ha Hb Hs]. Qed.

Lemma inv_set_emitted fin term s : inv fin term s -> inv fin term (set_emitted s).
Proof.
  intros [Hr Hf Ha Hb Hs]. split; try done. unfold bytes_ok in *.
  eapply Forall_impl; [exact Hb|]. simpl. intros ie Hi Hbyte. split; [by apply Hi|done].
Qed.

Lemma handle_byte a ev a' b out :
  _handle json_loads a ev = inr (a', b, Some out) -> is_terminal out = false /\ (is_byte out = true -> b = true).
Proof.
  destruct ev as [[c|]| | | | | | | ]; simpl; try case_match; intros; simplify_eq; simpl; try done.
Qed.

(** Consuming a stream: the reservation stays open and no terminal event is
    yielded, however the stream ends. *)
Lemma consume_triple p m items a :
  triple (inv false false) (consume p m items a) (fun _ => inv false false)
    (fun e s => inv false false s /\ match e with SGateway _ | SNoFuel => False | _ => True end).
Proof.
  revert a. induction items as [|[ev|msg|] items IH]; intros a; cbn [consume].
  - intros s Hs. by apply inv_upstream.
  - destruct (_handle json_loads a ev) as [msg|[[a' byte] out]] eqn:Eh; [intros s Hs; by split|].
    eapply triple_bind with (R' := fun _ s => inv false false s /\ (byte = true -> st_emitted s = true)).
    { destruct byte; intros s Hs; [|done]. split; [by apply inv_set_emitted|done]. }
    intros _. eapply triple_bind with (R' := fun _ => inv false false); [|intros _; apply IH].
    destruct out as [out|]; [|intros s [Hs _]; exact Hs].
    destruct (handle_byte _ _ _ _ _ Eh) as [Ht Hb].
    pose proof (triple_yield false out (fun _ => True) (fun _ H => H)) as Hy. rewrite Ht in Hy.
    eapply triple_conseq; [exact Hy| | |].
    + intros s [Hs He]. split; [done|]. split; [done|]. intros Hbyte. auto.
    + by intros _ s [Hs _].
    + by intros e s [-> Hs].
  - intros s Hs. split; [by apply inv_upstream|done].
  - intros s Hs. by split.
Qed.

Lemma open_stream_triple p m ad :
  triple (fun s => inv false false s /\ st_emitted s = false) (open_stream r p m ad)
    (fun _ => inv false false)
    (fun e s => inv false false s /\ match e with SGateway _ | SNoFuel => False | _ => True end).
Proof.
  intros s [Hs He]. unfold open_stream, mbind, io_bind, get_st, modify.
  destruct (prov_stream _ _ _) as [ms items].
  set (s1 := set_upstream true _).
  assert (inv false false s1) as Hs1.
  { destruct Hs as [Hr Hf Ha Hb Hsh]. split; try done. unfold bytes_ok in *. simpl.
    eapply Forall_impl; [exact Hb|]. simpl. intros ie Hi Hbyte. destruct (Hi Hbyte). congruence. }
  destruct items as [|i items].
  - split; [by apply inv_upstream|done].
  - exact (consume_triple p m (i :: items) new_attempt s1 Hs1).
Qed.

Lemma record_failure_triple {A} p m (a : A) X :
  triple (inv false false)
    (_ ← on_gw SGateway (on_cooldowns (fun now => record_failure (env_cooldown env) now p m)); mret a)
    (fun _ => inv false false) X.
Proof.
  intros s Hs. unfold mbind, io_bind, on_gw, lift.
  destruct (on_cooldowns_record_failure env (E:=gateway_exc) p m (st_gw s)) as (n & x & ->).
  by apply inv_put_gw.
Qed.

Lemma stream_attempt_triple p m ad :
  triple (fun s => inv false false s /\ st_emitted s = false) (stream_attempt r p m ad)
    (fun _ => inv false false)
    (fun e s => e = SAbort /\ inv true false s).
Proof.
  unfold stream_attempt. eapply triple_try.
  - eapply triple_bind; [apply open_stream_triple|]. intros a s Hs. exact Hs.
  - intros e. destruct e as [e|e|msg| |]; [by intros s [_ []]| | | |by intros s [_ []]].
    1, 2: eapply triple_conseq; [apply (record_failure_triple p m _ (fun _ _ => False))|by intros s [Hs _]|done|done].
    eapply triple_bind with (R' := fun _ => inv false false).
    { intros s [Hs _]. by apply inv_upstream. }
    intros _. eapply triple_bind with (R' := fun _ s => inv true false s /\ True).
    { eapply triple_conseq; [apply (triple_release false false (fun _ => True))| | |]; try done.
      instantiate (1 := fun _ _ => False). done. }
    intros _ s [Hs _]. by split.
Qed.

Lemma stream_success_triple cfg p m n ms a :
  triple (inv false false) (stream_success r cfg p m n ms a) (fun _ => inv true true)
    (fun e s => e = SAbort /\ exists term, inv true term s).
Proof.
  unfold stream_success. intros s Hs. unfold mbind at 1, io_bind at 1, on_gw at 1, lift at 1.
  destruct (on_cooldowns_record_success env (E:=gateway_exc) p m (st_gw s)) as (x & ->).
  set (s1 := put_gw _ s). assert (inv false false s1) as Hs1 by (by apply inv_put_gw).
  unfold mbind at 1, io_bind at 1, on_gw at 1, lift at 1, modify at 1.
  set (s2 := put_gw _ s1). assert (inv false false s2) as Hs2 by (by apply inv_put_gw).
  unfold mbind at 1, io_bind at 1, get_st at 1, mbind at 1, io_bind at 1, on_gw at 1, lift at 1.
  rewrite on_quota_reconcile. unfold mbind at 1, io_bind at 1, modify at 1.
  unfold mbind at 1, io_bind at 1, on_gw at 1, lift at 1.
  set (res := stream_result p m n a). set (s3 := set_finalized _).
  destruct (after_success_spec env r cfg res (st_gw s3)) as (g4 & -> & Hq4 & Hc4 & Hl4).
  set (s4 := put_gw g4 s3).
  assert (inv true false s4) as Hs4.
  { destruct Hs2 as [Hr Hf Ha Hb Hsh]. unfold accounts in Ha. rewrite Hf in Ha. destruct Ha as [Hq Hl].
    split; try done.
    - unfold accounts, settled. simpl. right. exists res. rewrite Hq4, Hl4. simpl.
      simpl in Hr, Hq, Hl. by rewrite Hr, Hq, Hl.
    - unfold bytes_ok in *. simpl in *. by rewrite Hc4. }
  pose proof (triple_yield true (EvUsage (at_usage a) p m) (fun _ => True) (fun _ H => H) s4) as Hy1.
  pose proof (triple_yield true (EvDone (at_finish a) (at_usage a) p m) (fun _ => True) (fun _ H => H)) as Hy2.
  unfold mbind at 1, io_bind at 1. simpl in Hy1, Hy2.
  destruct (yield _ s4) as [[[]|e] s5]; destruct Hy1 as [? ?]; try (by split; [done|split; [done|intros [=]]]).
  - specialize (Hy2 s5). destruct (yield _ s5) as [[[]|e] s6];
      destruct Hy2 as [? ?]; try done; try (by split; [done|split; [done|intros [=]]]). eauto.
  - eauto.
Qed.

Definition loop_exit (e : stream_exc) (s : generator) : Prop :=
  match e with
  | SAbort => exists fin term, inv fin term s
  | SGateway (GatewayChainExhausted _ _ _ _ _) => inv true false s
  | SGateway _ | SPlain _ => inv false false s
  | SFail _ | SNoFuel => False
  end.

Lemma stream_loop_triple fuel cfg api_key chain U :
  (forall fc t, t ∈ targets chain fc -> t ∈ U) ->
  forall seen ts last, (forall t, t ∈ ts -> t ∈ U) -> NoDup seen -> (forall t, t ∈ seen -> t ∈ U) ->
  (length U <= fuel + length seen)%nat ->
  triple (fun s => inv false false s /\ st_emitted s = false)
    (stream_loop fuel r cfg api_key chain seen ts last) (fun _ => inv true true) loop_exit.
Proof.
  intros HU. induction fuel as [|fuel IH]; intros seen ts last Hts Hnd Hseen Hfuel;
    cbn [stream_loop]; destruct (next_target seen ts) as [[p m]|] eqn:Ent.
  2, 4: eapply triple_bind with (R' := fun _ s => inv true false s /\ True);
    [eapply triple_conseq; [apply (triple_release false false (fun _ => True) (fun _ _ => False))| | |];
       [done|by intros s [Hs _]|done|done]|];
    intros _ s [Hs _]; by destruct last.
  all: apply next_target_spec in Ent as [Htin Htn];
    assert (NoDup (seen ++ [(p, m)])) as Hnd' by
      (apply NoDup_app; split; [done|]; split;
         [intros x Hx ->%list_elem_of_singleton; done|apply NoDup_singleton]);
    assert (forall t, t ∈ seen ++ [(p, m)] -> t ∈ U) as Hseen' by
      (intros t [?| ->%list_elem_of_singleton]%elem_of_app; auto);
    pose proof (NoDup_incl_length _ _ Hnd' Hseen') as Hlen; rewrite length_app in Hlen; simpl in Hlen;
    try lia.
  eapply triple_bind with (R' := fun _ s => inv false false s /\ st_emitted s = false).
  { intros s [Hs He]. unfold on_gw, lift.
    destruct (get_adapter_spec env p m r api_key (st_gw s)) as (o & g' & -> & Hacc & Hc).
    assert (inv false false (put_gw g' s)) by (by apply inv_put_gw). destruct o; done. }
  intros ad. eapply triple_bind with (R' := fun _ s => inv false false s /\ st_emitted s = false);
    [intros s Hs; exact Hs|].
  intros start. eapply triple_bind with (R' := fun _ => inv false false).
  { eapply triple_conseq; [apply stream_attempt_triple| | |]; [done|done|].
    intros e s [-> Hs]. by exists true, false. }
  intros [a|[err text]]; (eapply triple_bind with (R' := fun b s => inv false false s /\ b = s);
    [intros s Hs; by split|]); intros s0.
  - eapply triple_conseq; [apply stream_success_triple| | |]; [by intros s [Hs _]|done|].
    intros e s (-> & term & Hs). by exists true, term.
  - destruct (st_emitted s0) eqn:Ee.
    + eapply triple_bind with (R' := fun _ s => inv false true s /\ True).
      * eapply triple_conseq; [apply (triple_yield false (EvError text (failure_class err)) (fun _ => True))| | |];
          [done|by intros s [Hs _]|done|].
        intros e s [-> Hs]. by exists false, true.
      * intros _. eapply triple_conseq;
          [apply (triple_release false true (fun _ => True) (fun _ _ => False))| | |]; try done.
        by intros _ s [Hs _].
    + eapply triple_conseq; [apply IH| | |]; [|done|done| | |done|done].
      * intros t Ht. eapply HU. by eapply remaining_targets.
      * rewrite length_app. simpl. lia.
      * intros s [Hs ->]. done.
Qed.

End invariant.

Definition key_ok (key : outcome gateway_exc string) : Prop :=
  match key with Raise (GatewayChainExhausted _ _ _ _ _) => False | _ => True end.

Definition given {A} (o : outcome gateway_exc (option A)) : option A :=
  match o with Ret x => x | Raise _ => None end.

(** The body, from a generator that has not started. *)
Lemma stream_body_spec r key cfg g budget :
  key_ok key ->
  let est := _estimate_max_spend env (candidates (env_catalog env) (g_latency g) (env_cheap_model env) r cfg) r in
  let '(rv, q1) := reserve (env_quota env) (quota_limits_from_cfg cfg) (env_tenant env) (surface_id r)
                     (end_user_id r) est (request_id r) (env_window env) (g_quota g) in
  let '(o, s) := stream_body r key cfg (start_stream g budget) in
  match o with
  | Ret _ => inv r (given rv) q1 (g_ledger g) true true s
  | Raise e => loop_exit r (given rv) q1 (g_ledger g) e s
  end.
Proof.
  intros Hkey est. unfold stream_body, mbind at 1, io_bind at 1, on_gw at 1, lift at 1, router_candidates.
  cbn [st_gw start_stream put_gw]. fold est.
  unfold mbind at 1, io_bind at 1, on_gw at 1, lift at 1, on_quota at 1, lift at 1.
  cbn [st_gw start_stream put_gw].
  destruct (reserve _ _ _ _ _ _ _ _ (g_quota g)) as [[resv|e] q1] eqn:Er; cbn [given].
  2: { apply reserve_raises in Er as (l & lim & pr & ->).
    split; simpl; try done; by constructor. }
  unfold mbind at 1, io_bind at 1, modify at 1. set (s1 := put_resv resv _).
  assert (inv r resv q1 (g_ledger g) false false s1 /\ st_emitted s1 = false) as Hs1.
  { split; [|done]. split; try done; by constructor. }
  destruct key as [api_key|e].
  2: { simpl. destruct Hs1 as [Hs1 _]. by destruct e. }
  unfold mbind at 1, io_bind at 1, on_gw at 1, lift at 1.
  destruct (decide_spec env r cfg (st_gw s1)) as (d & x & -> & Hd).
  set (s2 := put_gw _ s1).
  assert (inv r resv q1 (g_ledger g) false false s2 /\ st_emitted s2 = false) as Hs2.
  { destruct Hs1 as [Hs1 He]. split; [|done]. by apply inv_put_gw. }
  match goal with |- context [stream_loop ?n r cfg api_key ?chain [] ?ts None s2] =>
    pose proof (stream_loop_triple r resv q1 (g_ledger g) n cfg api_key chain (loop_universe chain d)) as Hl;
    set (ch := chain) in *
  end.
  specialize (Hl (fun fc t Ht => proj2 (elem_of_cons _ _ _) (or_intror (targets_universe ch fc t Ht)))
    [] [(dec_provider d, dec_model d)] None).
  apply Hl; [|apply NoDup_nil_2| |simpl; lia|done].
  - intros t ->%list_elem_of_singleton. unfold loop_universe. apply elem_of_cons. by left.
  - intros t Ht. by apply not_elem_of_nil in Ht.
Qed.

(** The whole generator: it ends after its terminal event with everything
    settled, or is aborted, and then everything is settled too and no
    upstream stream is left open. *)
Lemma stream_spec r key gcfg g budget :
  key_ok key ->
  let cfg := effective_cfg gcfg in
  let est := _estimate_max_spend env (candidates (env_catalog env) (g_latency g) (env_cheap_model env) r cfg) r in
  let '(rv, q1) := reserve (env_quota env) (quota_limits_from_cfg cfg) (env_tenant env) (surface_id r)
                     (end_user_id r) est (request_id r) (env_window env) (g_quota g) in
  let '(o, s) := stream r key gcfg (start_stream g budget) in
  (o = Ret tt /\ inv r (given rv) q1 (g_ledger g) true true s) \/
  (o = Raise SAbort /\ (exists term, inv r (given rv) q1 (g_ledger g) true term s) /\
   (st_upstream s = false \/ shape true (st_out s))).
Proof.
  intros Hkey cfg est.
  pose proof (stream_body_spec r key cfg g budget Hkey) as Hb. fold est in Hb. cbv zeta in Hb. fold est in Hb.
  destruct (reserve _ _ _ _ _ _ _ _ (g_quota g)) as [rv q1].
  unfold stream, try_catch. fold cfg.
  destruct (stream_body r key cfg (start_stream g budget)) as [[[]|e] s]; [by left|].
  set (resv := given rv) in *. set (l0 := g_ledger g) in *.
  assert (forall fin ev s, is_terminal ev = true -> inv r resv q1 l0 fin false s -> fin = true ->
    match yield ev s with (o, s') =>
      (o = Ret tt /\ inv r resv q1 l0 true true s') \/
      (o = Raise SAbort /\ (exists term, inv r resv q1 l0 true term s') /\
       (st_upstream s' = false \/ shape true (st_out s'))) end) as Hyield.
  { intros fin ev s' Ht Hi ->.
    pose proof (triple_yield r resv q1 l0 true ev (fun _ => True) (fun _ _ => I) s') as Hy.
    rewrite Ht in Hy. destruct (yield ev s') as [[[]|e'] s2]; destruct Hy as [Hy1 Hy2];
      try (by split; [done|split; [done|by destruct ev]]); [by left|].
    subst. right. split; [done|]. split; [by eexists|]. right. apply Hy2. }
  assert (forall fin term ev, is_terminal ev = true -> inv r resv q1 l0 fin term s -> term = false ->
    match (_ ← release_once; yield ev) s with (o, s') =>
      (o = Ret tt /\ inv r resv q1 l0 true true s') \/
      (o = Raise SAbort /\ (exists term, inv r resv q1 l0 true term s') /\
       (st_upstream s' = false \/ shape true (st_out s'))) end) as Hrel.
  { intros fin term ev Ht Hi ->.
    pose proof (triple_release r resv q1 l0 fin false (fun _ => True) (fun _ _ => False) (fun _ _ _ => I) s (conj Hi I)) as Hr.
    unfold mbind, io_bind. destruct (release_once s) as [[[]|e'] s2]; [|done].
    apply (Hyield true ev); [done|apply Hr|done]. }
  destruct e as [e|e|msg| |]; simpl in Hb; try done.
  - destruct e; first [by apply (Hrel false false)|by apply (Hyield true)].
  - by apply (Hrel false false).
  - destruct Hb as (fin & term & Hi). unfold mbind, io_bind, aclose, modify.
    pose proof (triple_release r resv q1 l0 fin term (fun s => st_upstream s = false)
      (fun _ _ => False) (fun s g H => H) (set_upstream false s)) as Hr.
    destruct (release_once (set_upstream false s)) as [[[]|e'] s2].
    + right. destruct Hr as [Hr1 Hr2]; [split; [by apply inv_upstream|done]|].
      split; [done|]. split; [by eexists|by left].
    + destruct Hr. split; [by apply inv_upstream|done].
Qed.

(** ** Properties *)


(** a stream that is consumed to the end yields exactly one terminal event
    ([done] or [error]), the last one; one that is left early yielded at most
    one, never followed by another event, and an upstream stream that was
    still open is closed. *)
Theorem stream_one_terminal r key gcfg g budget :
  key_ok key ->
  let '(o, s) := stream r key gcfg (start_stream g budget) in
  match o with
  | Ret _ => shape true (st_out s)
  | Raise e => e = SAbort /\ (shape true (st_out s) \/ shape false (st_out s) /\ st_upstream s = false)
  end.
Proof.
  intros Hkey. pose proof (stream_spec r key gcfg g budget Hkey) as Hsp. cbv zeta in Hsp.
  destruct (reserve _ _ _ _ _ _ _ _ (g_quota g)) as [rv q1].
  destruct (stream r key gcfg _) as [o s].
  destruct Hsp as [[-> [_ _ _ _ Hsh]]|[-> [[term [_ _ _ _ Hsh]] Hor]]]; [done|].
  split; [done|]. destruct Hor as [?|?]; [|by left]. destruct term; auto.
Qed.

(** failover is transparent only before the first byte: every text delta
    and tool start of a stream was yielded after the last provider call, so
    the bytes of one stream come from one provider. *)
Theorem stream_single_provider r key gcfg g budget :
  key_ok key ->
  let '(o, s) := stream r key gcfg (start_stream g budget) in
  Forall (fun ie => is_byte ie.2 = true -> ie.1 = length (g_calls (st_gw s))) (st_out s).
Proof.
  intros Hkey. pose proof (stream_spec r key gcfg g budget Hkey) as Hsp. cbv zeta in Hsp.
  destruct (reserve _ _ _ _ _ _ _ _ (g_quota g)) as [rv q1].
  destruct (stream r key gcfg _) as [o s].
  assert (bytes_ok s) as Hb by (destruct Hsp as [[_ [_ _ _ ? _]]|[_ [[term [_ _ _ ? _]] _]]]; done).
  eapply Forall_impl; [exact Hb|]. simpl. intros ie Hi Hbyte. by apply Hi.
Qed.

End stream.
Arguments generator CS QS XS SS JQ DB : clear implicits.
