(* ===== verification/GatewayExamples.v ===== *)
(** * A gateway on concrete stores

    An environment with the finite-map stores, a scripted provider and a
    permissive key resolver, on which the properties of the gateway are
    instantiated and the behaviours worth a note are run. *)

From S2P Require Import Prelude Json Catalog Types Router Fallback Redis Quota Cooldown Ledger Cache Gateway Stream.

Abbreviation test_gateway :=
  (Gateway (kv_map Z) hash_map (kv_map json) (zstore sem_value) (flagged_list LedgerJob)
     (flagged_list SpendEvent)).

Definition fresh_gateway : test_gateway := {|
  g_cooldowns := empty_cooldowns;
  g_quota := empty_service;
  g_cache := {| gc_exact := empty_exact; gc_semantic := empty_semantic; gc_log := Some [];
                gc_log_faults := [] |};
  g_ledger := {| led_queue := Some ([], []); led_db := Some ([], []) |};
  g_latency := new_tracker;
  g_adapters := ∅;
  g_calls := [];
  g_now := 0;
|}.

Definition plain_adapter (p m : string) (r : GatewayRequest) (api_key : string) : outcome string Adapter :=
  Ret {| ad_provider := p; ad_model := m; ad_api_key := api_key; ad_tools := tools r;
         ad_structured_output := structured_output r |}.

Definition test_env (chat : list call -> call -> Z * chat_reply)
    (streams : list call -> call -> Z * list stream_item) : GatewayEnv := {|
  env_catalog := default_catalog;
  env_cheap_model := "gpt-4o-mini";
  env_cooldown := default_cooldown_config;
  env_quota := default_quota_config;
  env_exact := default_exact_config;
  env_sha256 := pad_digest;
  env_providers := {| prov_chat := chat; prov_stream := streams |};
  env_adapter_factory := plain_adapter;
  env_tenant := "t1";
  env_window := "2024-01";
|}.

Definition ok_usage : Usage := Build_Usage 100 20 0 0.

(** The first provider fails, the later ones answer. *)
Definition flaky_chat (history : list call) (c : call) : Z * chat_reply :=
  match history with
  | [] => (10, ChatRaise "rate limit")
  | _ => (10, ChatOk {| resp_content := "hi"; resp_model := EmptyString; resp_usage := ok_usage;
                        resp_finish_reason := Some "stop"; resp_tool_calls := None |})
  end.

Definition flaky_stream (history : list call) (c : call) : Z * list stream_item :=
  match history with
  | [] => (10, [SEvent (AToolDelta (Some 0) (Some "call_1") None (Some "half")); SRaise "overloaded"])
  | _ => (10, [SEvent (ADelta (Some "hi")); SEvent (ADone (Some "stop") (Some ok_usage))])
  end.

Definition no_json (s : string) : option json := None.

Definition two_models : GatewayCfg :=
  Build_GatewayCfg None (Some ["anthropic:claude-3-5-haiku"]) (Some true) None None None
    (Some 10%Q) None None.

Definition sized_request : GatewayRequest := {|
  tenant_id := "t1"; messages := [JObj [("role", JStr "user"); ("content", JStr "hello")]];
  request_id := "r1"; req_provider := "openai"; req_model := Some "gpt-4o-mini";
  strategy := "quality"; tools := []; structured_output := None; surface_id := None;
  end_user_id := None; conversation_id := None; session_id := None; tiered := false;
  simple_query := false; estimated_input_tokens := Some 1000; pinned := None |}.

Definition flaky_env : GatewayEnv := test_env flaky_chat flaky_stream.

(** The failed deployment is replaced by the next one of the chain. *)
Example flaky_generate :
  match generate flaky_env sized_request (Ret "key") two_models fresh_gateway with
  | (Ret res, g) => res_provider res = "anthropic" /\
      map call_deployment (g_calls g) =
        [("openai", "gpt-4o-mini"); ("anthropic", "claude-3-5-haiku")]
  | _ => False
  end.
Proof. vm_compute. split; reflexivity. Qed.

Definition run_stream (budget : option nat) :=
  stream flaky_env no_json (fun _ => "error") sized_request (Ret "key") two_models
    (start_stream fresh_gateway budget).

(** a partial tool call does not count as a byte: a stream whose provider
    fails after a [tool_use_delta] was yielded fails over silently, so the
    consumer gets a fragment of one provider's tool call followed by another
    provider's answer, and a normal end. *)
Theorem tool_delta_then_failover :
  let '(o, s) := run_stream None in
  o = Ret tt /\
  st_out s = [(1%nat, EvToolDelta (Some 0) "call_1" (Some "half"));
              (2%nat, EvDelta "hi");
              (2%nat, EvUsage ok_usage "anthropic" "claude-3-5-haiku");
              (2%nat, EvDone (Some "stop") ok_usage "anthropic" "claude-3-5-haiku")].
Proof. vm_compute. split; reflexivity. Qed.

(** a key resolver that fails leaves the hold in place: [generate] raises
    and the tenant's reserved amount stays at the estimate (no expiry is set on
    it either), although no provider was called. *)
Theorem key_failure_leaks_hold :
  let '(o, g) := generate flaky_env sized_request (Raise (GatewayConfigurationError "no key"))
                   two_models fresh_gateway in
  o = Raise (GatewayConfigurationError "no key") /\ g_calls g = [] /\
  (0 < (bal (g_quota g) "neryva:gateway:quota:t:t1:2024-01").1)%Q /\
  (bal (g_quota fresh_gateway) "neryva:gateway:quota:t:t1:2024-01").1 = 0%Q.
Proof. vm_compute. repeat split. Qed.

(** ** Witnesses *)


Lemma stream_one_terminal_witness :
  match run_stream (Some 1%nat) with
  | (Raise e, s) => e = SAbort /\ shape false (st_out s) /\ st_upstream s = false
  | (Ret _, _) => False
  end.
Proof.
  pose proof (stream_one_terminal flaky_env no_json (fun _ => "error") sized_request (Ret "key")
    two_models fresh_gateway (Some 1%nat) I) as H.
  fold (run_stream (Some 1%nat)) in H.
  assert (length (st_out (run_stream (Some 1%nat)).2) = 1%nat /\
          map (fun ie => is_terminal ie.2) (st_out (run_stream (Some 1%nat)).2) = [false] /\
          (run_stream (Some 1%nat)).1 = Raise SAbort) as (Hl & Hn & Ho) by (vm_compute; repeat split).
  destruct (run_stream (Some 1%nat)) as [o s]. simpl in *. subst o. destruct H as [_ [H|[H1 H2]]].
  - exfalso. destruct H as (pre & ie & Hout & Ht & _). rewrite Hout in Hn, Hl.
    rewrite length_app in Hl. simpl in Hl. destruct pre; [|simpl in Hl; lia]. simpl in Hn. congruence.
  - done.
Defined.

Lemma stream_single_provider_witness :
  Forall (fun ie => is_byte ie.2 = true -> ie.1 = 2%nat) (st_out (run_stream None).2).
Proof.
  pose proof (stream_single_provider flaky_env no_json (fun _ => "error") sized_request (Ret "key")
    two_models fresh_gateway None I) as H.
  fold (run_stream None) in H.
  assert (length (g_calls (st_gw (run_stream None).2)) = 2%nat) as Hl by (vm_compute; reflexivity).
  destruct (run_stream None) as [o s]. simpl in Hl. by rewrite Hl in H.
Defined.

Lemma adapter_keeps_first_key_witness :
  exists (g : test_gateway) a', (_get_adapter flaky_env "openai" "gpt-4o" sized_request "new-key" g).1 = Ret (E:=string) a' /\
    ad_api_key a' = "old-key".
Proof.
  set (g' := (_get_adapter flaky_env "openai" "gpt-4o" sized_request "old-key" fresh_gateway).2).
  destruct (adapter_keeps_first_key flaky_env "openai" "gpt-4o" sized_request "old-key"
    {| ad_provider := "openai"; ad_model := "gpt-4o"; ad_api_key := "old-key"; ad_tools := [];
       ad_structured_output := None |} fresh_gateway g' sized_request "new-key" eq_refl)
    as (a' & g'' & Hr & Hk & _).
  exists g', a'. by rewrite Hr.
Defined.
