(* ===== verification/Admission.v ===== *)
(** * Admission control (backend/app/gateway/admission.py)

    In-flight generations are bounded per tenant and on the platform by local
    semaphores, and per tenant across workers by a Redis counter with a lease.
    A semaphore is its number of free slots; waiting for a slot ends with one
    or with the timeout, so an acquisition fails when none is free. *)

From S2P Require Import Prelude Redis.

Record AdmissionConfig := {
  adm_prefix : string;
  max_concurrent_per_tenant : Z;
  max_concurrent_platform : Z;
  wait_seconds : Q;
  lease_seconds : Z;
}.

Definition default_admission_config : AdmissionConfig :=
  {| adm_prefix := "neryva:admission:"; max_concurrent_per_tenant := 5;
     max_concurrent_platform := 50; wait_seconds := 5; lease_seconds := 300 |}.

(** The exceptions of [admit] and [release]: the refusal, or a lost command. *)
Inductive admission_exc :=
| AdmissionLimitExceeded (retry_after : Q)
| AdmissionRedisError.

Record AdmissionHandle := { h_tenant_id : string; h_released : bool }.

Section admission.
Context {St : Type} `{RedisCounter St}.
Context (cfg : AdmissionConfig).

Record ConcurrencyGate := {
  adm_conn : redis St;
  adm_redis_available : bool;
  platform_semaphore : Z;
  tenant_semaphores : gmap string Z;
}.

Definition adm_put (r : redis St) (g : ConcurrencyGate) : ConcurrencyGate :=
  {| adm_conn := r; adm_redis_available := adm_redis_available g;
     platform_semaphore := platform_semaphore g; tenant_semaphores := tenant_semaphores g |}.

Definition adm_run {A} (f : St -> A * St) : io ConcurrencyGate admission_exc A :=
  lift adm_conn adm_put (fun _ => AdmissionRedisError) (redis_call f).

(** [ConcurrencyGate.__init__] on a connection *)
Definition new_gate (r : redis St) (available : bool) : ConcurrencyGate :=
  {| adm_conn := r; adm_redis_available := available;
     platform_semaphore := max_concurrent_platform cfg; tenant_semaphores := ∅ |}.

(** [_tenant_semaphore]: created full on first use. *)
Definition _tenant_semaphore (tenant : string) (g : ConcurrencyGate) : Z :=
  default (max_concurrent_per_tenant cfg) (tenant_semaphores g !! tenant).

(** [d] slots are given back to (or taken from) a tenant's semaphore. *)
Definition add_tenant (tenant : string) (d : Z) (g : ConcurrencyGate) : ConcurrencyGate :=
  {| adm_conn := adm_conn g; adm_redis_available := adm_redis_available g;
     platform_semaphore := platform_semaphore g;
     tenant_semaphores := <[tenant := _tenant_semaphore tenant g + d]> (tenant_semaphores g) |}.

Definition add_platform (d : Z) (g : ConcurrencyGate) : ConcurrencyGate :=
  {| adm_conn := adm_conn g; adm_redis_available := adm_redis_available g;
     platform_semaphore := platform_semaphore g + d; tenant_semaphores := tenant_semaphores g |}.

Definition adm_key (tenant : string) : string := adm_prefix cfg +:+ tenant.

(** INCR and EXPIRE run as one transaction; the reply is the new count. *)
Definition incr_with_lease (now : Z) (key : string) (s : St) : Z * St :=
  let '(count, s) := incr_reply now key 1 s in
  (count, redis_pexpire now key (lease_seconds cfg * 1000) s).

Definition _acquire_redis_slot (now : Z) (tenant : string) : io ConcurrencyGate admission_exc bool :=
  g ← get_st;
  if negb (adm_redis_available g) then mret true
  else
    count ← adm_run (incr_with_lease now (adm_key tenant));
    if max_concurrent_per_tenant cfg <? count then
      _ ← adm_run (incr_reply now (adm_key tenant) (-1)); mret false
    else mret true.

Definition _release_redis_slot (now : Z) (tenant : string) : io ConcurrencyGate admission_exc unit :=
  g ← get_st;
  if negb (adm_redis_available g) then mret tt
  else _ ← adm_run (incr_reply now (adm_key tenant) (-1)); mret tt.

(** [ConcurrencyGate.admit] *)
Definition gate_admit (now : Z) (tenant : string) : io ConcurrencyGate admission_exc AdmissionHandle :=
  g ← get_st;
  if _tenant_semaphore tenant g <=? 0 then throw (AdmissionLimitExceeded (wait_seconds cfg))
  else
    _ ← modify (add_tenant tenant (-1));
    g ← get_st;
    if platform_semaphore g <=? 0 then
      _ ← modify (add_tenant tenant 1);
      throw (AdmissionLimitExceeded (wait_seconds cfg))
    else
      _ ← modify (add_platform (-1));
      ok ← _acquire_redis_slot now tenant;
      if negb ok then
        _ ← modify (add_platform 1);
        _ ← modify (add_tenant tenant 1);
        throw (AdmissionLimitExceeded 1)
      else mret {| h_tenant_id := tenant; h_released := false |}.

(** [AdmissionHandle.release]: the handle is marked before anything else. *)
Definition release_handle (now : Z) (h : AdmissionHandle) :
    io ConcurrencyGate admission_exc unit * AdmissionHandle :=
  if h_released h then (mret tt, h)
  else
    (_ ← _release_redis_slot now (h_tenant_id h);
     _ ← modify (add_platform 1);
     modify (add_tenant (h_tenant_id h) 1),
     {| h_tenant_id := h_tenant_id h; h_released := true |}).

(** ** Runs of a gate

    Requests are admitted and leave in any order, at any time. *)

Inductive gate_step : ConcurrencyGate * list string -> ConcurrencyGate * list string -> Prop :=
| gate_admitted now tenant g g' live :
    gate_admit now tenant g = (Ret {| h_tenant_id := tenant; h_released := false |}, g') ->
    gate_step (g, live) (g', tenant :: live)
| gate_refused now tenant g g' e live :
    gate_admit now tenant g = (Raise e, g') -> gate_step (g, live) (g', live)
| gate_left now tenant g g' o pre post :
    (release_handle now {| h_tenant_id := tenant; h_released := false |}).1 g = (o, g') ->
    gate_step (g, pre ++ tenant :: post) (g', pre ++ post).

Inductive gate_reachable (g0 : ConcurrencyGate) : ConcurrencyGate * list string -> Prop :=
| gate_init : gate_reachable g0 (g0, [])
| gate_next s s' : gate_reachable g0 s -> gate_step s s' -> gate_reachable g0 s'.

Definition live_of (tenant : string) (live : list string) : Z :=
  Z.of_nat (length (List.filter (fun t => bool_decide (t = tenant)) live)).

(** ** Lemmas *)

Lemma live_of_cons t tenant live :
  live_of t (tenant :: live) = (if decide (tenant = t) then 1 else 0) + live_of t live.
Proof.
  unfold live_of. simpl. case_bool_decide; case_decide; simpl; try done; lia.
Qed.

Lemma live_of_middle t tenant pre post :
  live_of t (pre ++ tenant :: post) = (if decide (tenant = t) then 1 else 0) + live_of t (pre ++ post).
Proof.
  unfold live_of. rewrite !List.filter_app, !length_app. simpl.
  case_bool_decide; case_decide; simpl; try done; lia.
Qed.

Lemma tenant_semaphore_add tenant d g t :
  _tenant_semaphore t (add_tenant tenant d g) =
    _tenant_semaphore t g + (if decide (t = tenant) then d else 0).
Proof.
  unfold _tenant_semaphore at 1, add_tenant. simpl. rewrite lookup_insert.
  repeat case_decide; simplify_eq/=; try done. by rewrite Z.add_0_r.
Qed.

(** The Redis half of an admission or a release leaves the semaphores alone. *)
Definition same_slots (g g' : ConcurrencyGate) : Prop :=
  platform_semaphore g' = platform_semaphore g /\ tenant_semaphores g' = tenant_semaphores g /\
  adm_redis_available g' = adm_redis_available g.

Lemma adm_run_slots {A} (f : St -> A * St) g : same_slots g (adm_run f g).2.
Proof. unfold adm_run, lift. by destruct (redis_call f (adm_conn g)) as [[]]. Qed.

Lemma acquire_slot_slots now tenant g : same_slots g (_acquire_redis_slot now tenant g).2.
Proof.
  unfold _acquire_redis_slot, mbind, io_bind, get_st. destruct (negb _); [done|].
  pose proof (adm_run_slots (incr_with_lease now (adm_key tenant)) g) as H1.
  destruct (adm_run _ g) as [[count|] g1]; [|done]. destruct (_ <? _); [|done].
  pose proof (adm_run_slots (incr_reply now (adm_key tenant) (-1)) g1) as H2.
  destruct (adm_run _ g1) as [[] g2]; unfold same_slots in *; simpl in *; intuition congruence.
Qed.

Lemma release_slot_slots now tenant g : same_slots g (_release_redis_slot now tenant g).2.
Proof.
  unfold _release_redis_slot, mbind, io_bind, get_st. destruct (negb _); [done|].
  pose proof (adm_run_slots (incr_reply now (adm_key tenant) (-1)) g) as H1.
  by destruct (adm_run _ g) as [[] g1].
Qed.

Lemma same_slots_tenant g g' t : same_slots g g' -> _tenant_semaphore t g' = _tenant_semaphore t g.
Proof. unfold _tenant_semaphore. by intros (_ & -> & _). Qed.

(** Free slots and live requests never exceed the bounds together. *)
Definition slots_ok (s : ConcurrencyGate * list string) : Prop :=
  let '(g, live) := s in
  0 <= platform_semaphore g /\
  platform_semaphore g + Z.of_nat (length live) <= max_concurrent_platform cfg /\
  forall t, 0 <= _tenant_semaphore t g /\
            _tenant_semaphore t g + live_of t live <= max_concurrent_per_tenant cfg.

(** They fill the bounds exactly when no slot was lost. *)
Definition slots_exact (s : ConcurrencyGate * list string) : Prop :=
  let '(g, live) := s in
  platform_semaphore g + Z.of_nat (length live) = max_concurrent_platform cfg /\
  forall t, _tenant_semaphore t g + live_of t live = max_concurrent_per_tenant cfg.

(** What [admit] does to the semaphores: one slot of each for a handle, none
    for a refusal; a lost command takes them and gives no handle. *)
Lemma admit_slots now tenant g :
  let '(o, g') := gate_admit now tenant g in
  adm_redis_available g' = adm_redis_available g /\
  match o with
  | Ret h => h = {| h_tenant_id := tenant; h_released := false |} /\
      0 < _tenant_semaphore tenant g /\ 0 < platform_semaphore g /\
      platform_semaphore g' = platform_semaphore g - 1 /\
      forall t, _tenant_semaphore t g' = _tenant_semaphore t g - (if decide (t = tenant) then 1 else 0)
  | Raise (AdmissionLimitExceeded _) =>
      platform_semaphore g' = platform_semaphore g /\
      forall t, _tenant_semaphore t g' = _tenant_semaphore t g
  | Raise AdmissionRedisError =>
      0 < _tenant_semaphore tenant g /\ 0 < platform_semaphore g /\
      platform_semaphore g' = platform_semaphore g - 1 /\
      forall t, _tenant_semaphore t g' = _tenant_semaphore t g - (if decide (t = tenant) then 1 else 0)
  end.
Proof.
  unfold gate_admit, mbind, io_bind, get_st, modify, throw.
  destruct (Z.leb_spec (_tenant_semaphore tenant g) 0); [done|].
  destruct (Z.leb_spec (platform_semaphore (add_tenant tenant (-1) g)) 0) as [Hp|Hp]; simpl in Hp.
  { split; [done|]. split; [done|]. intros t. rewrite !tenant_semaphore_add. case_decide; lia. }
  set (g1 := add_platform (-1) (add_tenant tenant (-1) g)).
  assert (forall t, _tenant_semaphore t g1 =
    _tenant_semaphore t g - (if decide (t = tenant) then 1 else 0)) as Hg1.
  { intros t. change (_tenant_semaphore t g1) with (_tenant_semaphore t (add_tenant tenant (-1) g)).
    rewrite tenant_semaphore_add. case_decide; lia. }
  pose proof (acquire_slot_slots now tenant g1) as Hs.
  destruct (_acquire_redis_slot now tenant g1) as [[ok|e] g2] eqn:Ea; simpl in Hs.
  - pose proof Hs as (Hp2 & _ & Ha2). simpl in Hp2, Ha2. destruct ok; simpl.
    + split; [done|]. split; [done|]. split; [lia|]. split; [lia|]. split; [lia|].
      intros t. by rewrite (same_slots_tenant _ _ _ Hs).
    + split; [done|]. split; [lia|]. intros t. rewrite tenant_semaphore_add.
      change (_tenant_semaphore t (add_platform 1 g2)) with (_tenant_semaphore t g2).
      rewrite (same_slots_tenant _ _ _ Hs), Hg1. case_decide; lia.
  - pose proof Hs as (Hp2 & _ & Ha2). simpl in Hp2, Ha2.
    assert (e = AdmissionRedisError) as ->.
    { revert Ea. unfold _acquire_redis_slot, mbind, io_bind, get_st, adm_run, lift.
      destruct (negb _); [done|].
      destruct (redis_call _ _) as [[count|[]] r1]; [|by intros [= <-]].
      destruct (_ <? _); [|done]. destruct (redis_call _ _) as [[v|[]] r2]; [done|by intros [= <-]]. }
    split; [done|]. split; [lia|]. split; [lia|]. split; [lia|].
    intros t. by rewrite (same_slots_tenant _ _ _ Hs).
Qed.

Lemma release_slots now tenant g :
  let '(o, g') := (release_handle now {| h_tenant_id := tenant; h_released := false |}).1 g in
  match o with
  | Ret _ => platform_semaphore g' = platform_semaphore g + 1 /\
      forall t, _tenant_semaphore t g' = _tenant_semaphore t g + (if decide (t = tenant) then 1 else 0)
  | Raise _ => same_slots g g' /\ adm_redis_available g = true
  end.
Proof.
  simpl. unfold mbind, io_bind, modify.
  pose proof (release_slot_slots now tenant g) as Hs.
  destruct (_release_redis_slot now tenant g) as [[[]|e] g1] eqn:Er; simpl in Hs.
  - pose proof Hs as (Hp & _). split; [simpl; lia|]. intros t. rewrite tenant_semaphore_add.
    change (_tenant_semaphore t (add_platform 1 g1)) with (_tenant_semaphore t g1).
    by rewrite (same_slots_tenant _ _ _ Hs).
  - split; [done|]. revert Er. unfold _release_redis_slot, mbind, io_bind, get_st.
    by destruct (adm_redis_available g).
Qed.

Lemma slots_ok_step s s' : slots_ok s -> gate_step s s' -> slots_ok s'.
Proof.
  intros Hok Hst. destruct Hst as [now tenant g g' live Ha|now tenant g g' e live Ha
    |now tenant g g' o pre post Hr]; destruct Hok as (Hp0 & Hp & Ht).
  - pose proof (admit_slots now tenant g) as Hs. rewrite Ha in Hs.
    destruct Hs as (_ & _ & Hpos & Hppos & Hp' & Ht'). cbn [slots_ok]. simpl length.
    rewrite Hp'. split; [lia|]. split; [lia|]. intros t. specialize (Ht t). rewrite Ht', live_of_cons.
    repeat case_decide; subst; try done; lia.
  - pose proof (admit_slots now tenant g) as Hs. rewrite Ha in Hs. destruct Hs as (_ & Hs).
    destruct e as [ra|].
    + destruct Hs as [Hp' Ht']. cbn [slots_ok]. rewrite Hp'. split; [done|]. split; [done|].
      intros t. rewrite Ht'. apply Ht.
    + destruct Hs as (Hpos & Hppos & Hp' & Ht'). cbn [slots_ok]. rewrite Hp'.
      split; [lia|]. split; [lia|]. intros t. specialize (Ht t). rewrite Ht'. case_decide; subst; lia.
  - pose proof (release_slots now tenant g) as Hs. rewrite Hr in Hs. rewrite length_app in Hp. simpl in Hp.
    cbn [slots_ok]. rewrite length_app. destruct o as [[]|e].
    + destruct Hs as [Hp' Ht']. rewrite Hp'. split; [lia|]. split; [lia|].
      intros t. specialize (Ht t). rewrite live_of_middle in Ht. rewrite Ht'.
      repeat case_decide; subst; try done; lia.
    + destruct Hs as [Hs _]. pose proof Hs as (-> & _). split; [lia|]. split; [lia|].
      intros t. specialize (Ht t). rewrite live_of_middle in Ht. rewrite (same_slots_tenant _ _ _ Hs).
      repeat case_decide; lia.
Qed.

Lemma reachable_slots_ok r available s :
  0 <= max_concurrent_platform cfg -> 0 <= max_concurrent_per_tenant cfg ->
  gate_reachable (new_gate r available) s -> slots_ok s.
Proof.
  intros Hp Ht. induction 1 as [|s s' _ IH Hst]; [|by eapply slots_ok_step].
  split; [done|]. split; [simpl; lia|]. intros t. unfold _tenant_semaphore, live_of. simpl.
  rewrite lookup_empty. simpl. lia.
Qed.

(** Without Redis no command can be lost, so no slot is. *)
Lemma slots_exact_step s s' :
  slots_exact s /\ adm_redis_available s.1 = false -> gate_step s s' ->
  slots_exact s' /\ adm_redis_available s'.1 = false.
Proof.
  intros [Hex Hav] Hst. destruct Hst as [now tenant g g' live Ha|now tenant g g' e live Ha
    |now tenant g g' o pre post Hr]; destruct Hex as [Hp Ht]; simpl in Hav.
  - pose proof (admit_slots now tenant g) as Hs. rewrite Ha in Hs.
    destruct Hs as (Hav' & _ & _ & _ & Hp' & Ht'). simpl. split; [|congruence]. split; [lia|].
    intros t. specialize (Ht t). rewrite Ht', live_of_cons. repeat case_decide; subst; try done; lia.
  - pose proof (admit_slots now tenant g) as Hs. rewrite Ha in Hs.
    assert (e <> AdmissionRedisError) as He.
    { intros ->. revert Ha. unfold gate_admit, mbind, io_bind, get_st, modify, throw.
      destruct (_ <=? 0); [done|]. destruct (_ <=? 0); [done|].
      unfold _acquire_redis_slot, mbind, io_bind, get_st. simpl. by rewrite Hav. }
    destruct e as [ra|]; [|done]. destruct Hs as (Hav' & Hp' & Ht'). simpl. split; [|congruence].
    rewrite Hp'. split; [done|]. intros t. rewrite Ht'. apply Ht.
  - pose proof (release_slots now tenant g) as Hs. rewrite Hr in Hs.
    destruct o as [[]|e]; [|destruct Hs as [_ Hs]; congruence]. destruct Hs as [Hp' Ht'].
    assert (adm_redis_available g' = false) as Hav'.
    { simpl in Hr. unfold mbind, io_bind, modify in Hr. pose proof (release_slot_slots now tenant g) as Hs.
      destruct (_release_redis_slot now tenant g) as [[[]|] g1]; [|done]. injection Hr as <-.
      destruct Hs as (_ & _ & Hs). simpl in *. congruence. }
    simpl. split; [|done]. rewrite length_app in Hp |- *. simpl in Hp. split; [lia|].
    intros t. specialize (Ht t). rewrite live_of_middle in Ht. rewrite Ht'.
    repeat case_decide; subst; try done; lia.
Qed.

Lemma admit_refused_full now tenant g :
  adm_redis_available g = false ->
  match gate_admit now tenant g with
  | (Raise _, _) => _tenant_semaphore tenant g <= 0 \/ platform_semaphore g <= 0
  | _ => True
  end.
Proof.
  intros Hav. unfold gate_admit, mbind, io_bind, get_st, modify, throw.
  destruct (Z.leb_spec (_tenant_semaphore tenant g) 0); [by left|].
  destruct (Z.leb_spec (platform_semaphore (add_tenant tenant (-1) g)) 0); [by right|].
  unfold _acquire_redis_slot, mbind, io_bind, get_st. simpl. by rewrite Hav.
Qed.

(** ** Properties *)

(** ** Several workers on one server

    Each worker has a gate of its own, with its own connection and its own lost
    commands; the counters of the server are shared.  An admission or a release
    takes one instant of the server.  A request in flight is its worker, its
    tenant and the instant it was admitted. *)

Definition attach_gate (s : St) (g : ConcurrencyGate) : ConcurrencyGate :=
  adm_put (Build_redis s (faults (adm_conn g))) g.

Record flight := { fl_worker : nat; fl_tenant : string; fl_since : Z }.

Record workers := {
  wk_now : Z;
  wk_store : St;
  wk_gates : list ConcurrencyGate;
  wk_live : list flight;
}.

Definition lease_ms : Z := lease_seconds cfg * 1000.

(** The gate of the worker [p] has run at the instant [now]. *)
Definition worked (p : nat) (g : ConcurrencyGate) (now : Z) (live : list flight) (w : workers) : workers :=
  {| wk_now := now; wk_store := store (adm_conn g); wk_gates := <[p := g]> (wk_gates w); wk_live := live |}.

(** No request in flight has outlived the lease of its tenant's counter. *)
Definition leased (now : Z) (w : workers) : bool := forallb (fun x => now <? fl_since x + lease_ms) (wk_live w).

Inductive workers_step (w : workers) : workers -> Prop :=
| wk_admitted p g g' now tenant h : wk_gates w !! p = Some g -> wk_now w <= now ->
    gate_admit now tenant (attach_gate (wk_store w) g) = (Ret h, g') ->
    workers_step w (worked p g' now ({| fl_worker := p; fl_tenant := h_tenant_id h; fl_since := now |} :: wk_live w) w)
| wk_refused p g g' now tenant e : wk_gates w !! p = Some g -> wk_now w <= now ->
    gate_admit now tenant (attach_gate (wk_store w) g) = (Raise e, g') ->
    workers_step w (worked p g' now (wk_live w) w)
| wk_left x g g' now o pre post : wk_gates w !! fl_worker x = Some g -> wk_now w <= now ->
    wk_live w = pre ++ x :: post ->
    (release_handle now {| h_tenant_id := fl_tenant x; h_released := false |}).1 (attach_gate (wk_store w) g) = (o, g') ->
    workers_step w (worked (fl_worker x) g' now (pre ++ post) w).

(** A run, and whether every request was still within its lease at each step. *)
Inductive workers_reachable (w0 : workers) : bool -> workers -> Prop :=
| wk_init : workers_reachable w0 true w0
| wk_next b w w' : workers_reachable w0 b w -> workers_step w w' ->
    workers_reachable w0 (b && leased (wk_now w') w) w'.

(** The requests in flight of a tenant, over all workers, and on one. *)
Definition flights (tenant : string) (l : list flight) : list flight :=
  List.filter (fun x => bool_decide (fl_tenant x = tenant)) l.
Definition on_worker (p : nat) (l : list flight) : list string :=
  map fl_tenant (List.filter (fun x => bool_decide (fl_worker x = p)) l).

(** New gates on a server whose counters are not negative. *)
Definition new_workers (w : workers) : Prop :=
  wk_live w = [] /\ Forall (fun g => exists r available, g = new_gate r available) (wk_gates w)
  /\ forall tenant, 0 <= default 0 (redis_get (wk_now w) (adm_key tenant) (wk_store w)).

(** *** Each worker *)

Definition workers_ok (w : workers) : Prop :=
  forall p g, wk_gates w !! p = Some g -> slots_ok (g, on_worker p (wk_live w)).

Lemma slots_ok_attach s g live : slots_ok (g, live) -> slots_ok (attach_gate s g, live).
Proof. done. Qed.

Lemma on_worker_cons p x l : on_worker p (x :: l) = (if decide (fl_worker x = p) then [fl_tenant x] else []) ++ on_worker p l.
Proof. unfold on_worker. cbn. by case_bool_decide; case_decide. Qed.
Lemma on_worker_app p l l' : on_worker p (l ++ l') = on_worker p l ++ on_worker p l'.
Proof. unfold on_worker. by rewrite List.filter_app, map_app. Qed.

Lemma admitted_handle now tenant g h g' : gate_admit now tenant g = (Ret h, g') ->
  h = {| h_tenant_id := tenant; h_released := false |}.
Proof. intros Ha. pose proof (admit_slots now tenant g) as Hs. rewrite Ha in Hs. tauto. Qed.

Lemma workers_ok_step w w' : workers_ok w -> workers_step w w' -> workers_ok w'.
Proof.
  intros Hok Hst q g1 Hg1. destruct Hst as [p g g' now tenant h Hg _ Ha|p g g' now tenant e Hg _ Ha|x g g' now o pre post Hg _ Hl Hr];
    cbn [worked wk_gates wk_live wk_store] in Hg1 |- *.
  - apply admitted_handle in Ha as Eh. subst h. rewrite on_worker_cons. cbn [fl_worker fl_tenant h_tenant_id]. destruct (decide (p = q)) as [<-|Hne].
    + rewrite list_lookup_insert_eq in Hg1 by (by eapply lookup_lt_Some). injection Hg1 as <-.
      eapply (slots_ok_step _ _ (slots_ok_attach (wk_store w) g _ (Hok p g Hg))). by apply (gate_admitted now).
    + rewrite list_lookup_insert_ne in Hg1 by done. by apply Hok.
  - destruct (decide (p = q)) as [<-|Hne].
    + rewrite list_lookup_insert_eq in Hg1 by (by eapply lookup_lt_Some). injection Hg1 as <-.
      eapply (slots_ok_step _ _ (slots_ok_attach (wk_store w) g _ (Hok p g Hg))). by eapply (gate_refused now).
    + rewrite list_lookup_insert_ne in Hg1 by done. by apply Hok.
  - specialize (Hok q). rewrite Hl, on_worker_app, on_worker_cons in Hok. rewrite on_worker_app.
    destruct (decide (fl_worker x = q)) as [<-|Hne]; cbn in Hok.
    + rewrite list_lookup_insert_eq in Hg1 by (by eapply lookup_lt_Some). injection Hg1 as <-.
      eapply (slots_ok_step _ _ (slots_ok_attach (wk_store w) g _ (Hok g Hg))). by eapply (gate_left now).
    + rewrite list_lookup_insert_ne in Hg1 by done. by apply Hok.
Qed.

(** *** The shared counter *)

(** The counter of a tenant covers its requests in flight, and outlives them. *)
Definition covers (now : Z) (tenant : string) (s : St) (l : list flight) : Prop :=
  match look now (adm_key tenant) s with
  | None => l = []
  | Some (c, e) => Z.of_nat (length l) <= c
      /\ match e with Some d => Forall (fun x => fl_since x + lease_ms <= d) l | None => True end
  end.

Definition counted (w : workers) : Prop :=
  Forall (fun x => fl_since x <= wk_now w) (wk_live w)
  /\ Forall (fun g => adm_redis_available g = true) (wk_gates w)
  /\ forall tenant, covers (wk_now w) tenant (wk_store w) (flights tenant (wk_live w))
       /\ Z.of_nat (length (flights tenant (wk_live w))) <= Z.max 0 (max_concurrent_per_tenant cfg).

Lemma adm_key_inj t t' : adm_key t = adm_key t' -> t = t'.
Proof.
  unfold adm_key. induction (adm_prefix cfg) as [|a p IH]; [done|]. cbn. intros H1. apply IH. by injection H1.
Qed.

Lemma covers_later now now' tenant s l : now <= now' -> Forall (fun x => now' < fl_since x + lease_ms) l ->
  covers now tenant s l -> covers now' tenant s l.
Proof.
  intros Hle Hl. unfold covers. rewrite (look_later now now') by done.
  destruct (look now _ s) as [[c [d|]]|]; cbn; [|done..]. intros [Hc Hd]. destruct (Z.ltb_spec now' d); [done|].
  destruct l as [|x l]; [done|]. apply Forall_cons in Hl as [Hx _]. apply Forall_cons in Hd as [Hd _]. lia.
Qed.

Lemma Forall_sublist {A} (P : A -> Prop) l l' : sublist l' l -> Forall P l -> Forall P l'.
Proof. induction 1; rewrite ?Forall_cons; naive_solver. Qed.

Lemma covers_drop now tenant s l l' : sublist l' l -> covers now tenant s l -> covers now tenant s l'.
Proof.
  intros Hsub. unfold covers. destruct (look now _ s) as [[c e]|].
  - intros [Hc Hd]. split; [apply sublist_length in Hsub; lia|]. destruct e; [|done]. by eapply Forall_sublist.
  - intros ->. by apply sublist_nil_r in Hsub.
Qed.

Lemma covers_perm now tenant s l l' : l ≡ₚ l' -> covers now tenant s l -> covers now tenant s l'.
Proof.
  intros Hp. unfold covers. destruct (look now _ s) as [[c e]|].
  - intros [Hc Hd]. split; [by rewrite <- Hp|]. destruct e; [by rewrite <- Hp|done].
  - intros ->. by apply Permutation_nil_l in Hp.
Qed.

Lemma covers_same now tenant s s' l : look now (adm_key tenant) s' = look now (adm_key tenant) s ->
  covers now tenant s l -> covers now tenant s' l.
Proof. unfold covers. by intros ->. Qed.

(** The counting transaction covers one request more, and so does its reply. *)
Lemma covers_incr now tenant s l x : 0 < lease_ms -> covers now tenant s l -> fl_since x <= now ->
  Forall (fun y => fl_since y <= now) l ->
  covers now tenant (incr_with_lease now (adm_key tenant) s).2 (x :: l)
  /\ Z.of_nat (length (x :: l)) <= (incr_with_lease now (adm_key tenant) s).1.
Proof.
  intros Hms Hc Hx Hl. unfold incr_with_lease, incr_reply. cbn [fst snd].
  assert (Hn : Z.of_nat (length (x :: l)) <= default 0 (redis_get now (adm_key tenant) s) + 1).
  { unfold covers in Hc. unfold redis_get. destruct (look now _ s) as [[c e]|]; cbn [length fmap option_fmap option_map default fst].
    - destruct Hc as [Hc _]. cbn. lia.
    - subst l. cbn. lia. }
  split; [|exact Hn]. unfold covers. rewrite look_pexpire by lia. rewrite decide_True by done.
  rewrite look_incrby by lia. rewrite decide_True by done. rewrite live_expiry. cbn. fold lease_ms.
  destruct (Z.ltb_spec now (now + lease_ms)); [|lia]. split; [exact Hn|].
  constructor; [lia|]. eapply Forall_impl; [exact Hl|]. cbn. lia.
Qed.

Lemma covers_decr now tenant s l x : covers now tenant s (x :: l) ->
  covers now tenant (incr_reply now (adm_key tenant) (-1) s).2 l.
Proof.
  unfold covers, incr_reply. cbn [snd]. rewrite look_incrby by lia. rewrite decide_True by done. rewrite live_expiry.
  unfold redis_get. destruct (look now _ s) as [[c e]|]; cbn; [|done]. intros [Hc Hd]. split; [lia|].
  destruct e; [|done]. by apply Forall_cons in Hd as [_ Hd].
Qed.

Lemma incr_other now tenant t s : t <> tenant ->
  look now (adm_key t) (incr_with_lease now (adm_key tenant) s).2 = look now (adm_key t) s
  /\ look now (adm_key t) (incr_reply now (adm_key tenant) (-1) s).2 = look now (adm_key t) s.
Proof.
  intros Hne. assert (adm_key t <> adm_key tenant) by (intros E; by apply adm_key_inj in E).
  unfold incr_with_lease, incr_reply. cbn [fst snd]. rewrite look_pexpire by lia. rewrite !look_incrby by lia.
  by rewrite !decide_False.
Qed.

(** A command of a gate: run or not, and replied or not. *)
Lemma adm_run_cases {A} (f : St -> A * St) g :
  let '(o, g') := adm_run f g in
  (store (adm_conn g') = store (adm_conn g) \/ store (adm_conn g') = (f (store (adm_conn g))).2)
  /\ forall a, o = Ret a -> a = (f (store (adm_conn g))).1 /\ store (adm_conn g') = (f (store (adm_conn g))).2.
Proof.
  unfold adm_run, lift. destruct (redis_call_cases f (adm_conn g)) as [[fs ->]|[[fs ->]|[fs ->]]]; cbn; split; auto;
    by intros a [= <-].
Qed.

(** What an admission or a release does to the server: the counters of other
    tenants stay, the tenant's goes on covering its requests, and covers one
    more when a request is admitted. *)
Lemma slot_covers now tenant g l : 0 < lease_ms -> adm_redis_available g = true ->
  let s := store (adm_conn g) in
  let '(o, g') := _acquire_redis_slot now tenant g in
  let s' := store (adm_conn g') in
  (forall t, t <> tenant -> look now (adm_key t) s' = look now (adm_key t) s)
  /\ (covers now tenant s l -> Forall (fun y => fl_since y <= now) l ->
      covers now tenant s' l
      /\ (o = Ret true -> forall p, covers now tenant s' ({| fl_worker := p; fl_tenant := tenant; fl_since := now |} :: l)
            /\ Z.of_nat (S (length l)) <= max_concurrent_per_tenant cfg)).
Proof.
  intros Hms Hav. unfold _acquire_redis_slot, mbind, io_bind, get_st. rewrite Hav. cbn [negb].
  pose proof (adm_run_cases (incr_with_lease now (adm_key tenant)) g) as H1.
  destruct (adm_run _ g) as [[count|e] g1]; destruct H1 as [Hst Hr].
  - destruct (Hr count eq_refl) as [Ecount E1]. destruct (max_concurrent_per_tenant cfg <? count) eqn:Em; to_prop.
    + pose proof (adm_run_cases (incr_reply now (adm_key tenant) (-1)) g1) as H2.
      destruct (adm_run _ g1) as [[n|e] g2]; destruct H2 as [Hst2 _]; cbn; rewrite E1 in Hst2.
      all: split; [intros t Ht; destruct (incr_other now tenant t (store (adm_conn g)) Ht) as [Ei _];
                   destruct (incr_other now tenant t (incr_with_lease now (adm_key tenant) (store (adm_conn g))).2 Ht) as [_ Ed];
                   destruct Hst2 as [->| ->]; congruence|].
      all: intros Hc Hl; split; [|done]; pose (x := {| fl_worker := 0; fl_tenant := tenant; fl_since := now |});
           destruct (covers_incr now tenant _ l x Hms Hc (Z.le_refl _) Hl) as [Hi _].
      all: destruct Hst2 as [->| ->]; [eapply covers_drop; [|exact Hi]; by apply sublist_cons|by eapply covers_decr].
    + cbn. rewrite E1. split; [intros t Ht; apply (incr_other now tenant t _ Ht)|]. intros Hc Hl.
      assert (Hx : forall p, covers now tenant (incr_with_lease now (adm_key tenant) (store (adm_conn g))).2
          ({| fl_worker := p; fl_tenant := tenant; fl_since := now |} :: l) /\ Z.of_nat (S (length l)) <= max_concurrent_per_tenant cfg).
      { intros p. destruct (covers_incr now tenant _ l {| fl_worker := p; fl_tenant := tenant; fl_since := now |} Hms Hc (Z.le_refl _) Hl)
          as [Hi Hn]. split; [exact Hi|]. cbn [length] in Hn. lia. }
      split; [|intros _; exact Hx]. destruct (Hx 0%nat) as [Hx0 _]. eapply covers_drop; [|exact Hx0]. by apply sublist_cons.
  - cbn. split; [intros t Ht; destruct (incr_other now tenant t (store (adm_conn g)) Ht) as [Ei _]; destruct Hst as [->| ->]; congruence|].
    intros Hc Hl. split; [|done]. destruct Hst as [->| ->]; [done|].
    pose (x := {| fl_worker := 0; fl_tenant := tenant; fl_since := now |}).
    destruct (covers_incr now tenant _ l x Hms Hc (Z.le_refl _) Hl) as [Hi _]. eapply covers_drop; [|exact Hi]. by apply sublist_cons.
Qed.

Lemma admit_covers now tenant g l : 0 < lease_ms -> adm_redis_available g = true ->
  let s := store (adm_conn g) in
  let '(o, g') := gate_admit now tenant g in
  let s' := store (adm_conn g') in
  (forall t, t <> tenant -> look now (adm_key t) s' = look now (adm_key t) s)
  /\ (covers now tenant s l -> Forall (fun y => fl_since y <= now) l ->
      covers now tenant s' l
      /\ ((exists h, o = Ret h) -> forall p, covers now tenant s' ({| fl_worker := p; fl_tenant := tenant; fl_since := now |} :: l)
            /\ Z.of_nat (S (length l)) <= max_concurrent_per_tenant cfg)).
Proof.
  intros Hms Hav. unfold gate_admit, mbind, io_bind, get_st, modify, throw.
  destruct (_ <=? 0); [split; [done|]; intros Hc _; split; [done|by intros [h Hh]]|].
  destruct (_ <=? 0); [split; [done|]; intros Hc _; split; [done|by intros [h Hh]]|].
  set (g1 := add_platform (-1) (add_tenant tenant (-1) g)).
  pose proof (slot_covers now tenant g1 l Hms Hav) as Hs.
  destruct (_acquire_redis_slot now tenant g1) as [[[]|e] g2]; destruct Hs as [Ho Hs]; cbn in Ho, Hs |- *; (split; [exact Ho|]);
    intros Hc Hl; destruct (Hs Hc Hl) as [H1 H2]; (split; [exact H1|]); try by intros [h Hh].
  intros _. by apply H2.
Qed.

Lemma release_covers now tenant g x l : adm_redis_available g = true ->
  let s := store (adm_conn g) in
  let '(o, g') := (release_handle now {| h_tenant_id := tenant; h_released := false |}).1 g in
  let s' := store (adm_conn g') in
  (forall t, t <> tenant -> look now (adm_key t) s' = look now (adm_key t) s)
  /\ (covers now tenant s (x :: l) -> covers now tenant s' l).
Proof.
  intros Hav. cbn [release_handle h_released h_tenant_id fst]. unfold _release_redis_slot, mbind, io_bind, get_st, modify. rewrite Hav. cbn [negb].
  pose proof (adm_run_cases (incr_reply now (adm_key tenant) (-1)) g) as H1.
  destruct (adm_run _ g) as [[n|e] g1]; destruct H1 as [Hst _]; cbn.
  all: split; [intros t Ht; destruct (incr_other now tenant t (store (adm_conn g)) Ht) as [_ Ed]; destruct Hst as [->| ->]; congruence|].
  all: intros Hc; destruct Hst as [->| ->]; [eapply covers_drop; [|exact Hc]; by apply sublist_cons|by eapply covers_decr].
Qed.

Lemma release_available now tenant g :
  adm_redis_available ((release_handle now {| h_tenant_id := tenant; h_released := false |}).1 g).2 = adm_redis_available g.
Proof.
  cbn [release_handle h_released h_tenant_id fst]. unfold mbind, io_bind, modify. pose proof (release_slot_slots now tenant g) as (_ & _ & Hs).
  by destruct (_release_redis_slot now tenant g) as [[[]|e] g1].
Qed.

Lemma flights_cons tenant x l : flights tenant (x :: l) = (if decide (fl_tenant x = tenant) then [x] else []) ++ flights tenant l.
Proof. unfold flights. cbn. by case_bool_decide; case_decide. Qed.
Lemma flights_middle tenant x pre post : flights tenant (pre ++ x :: post)
  ≡ₚ (if decide (fl_tenant x = tenant) then [x] else []) ++ flights tenant (pre ++ post).
Proof.
  unfold flights. rewrite !List.filter_app. cbn. case_bool_decide; case_decide; try done. cbn. by rewrite Permutation_middle.
Qed.
Lemma flights_Forall P tenant l : Forall P l -> Forall P (flights tenant l).
Proof. apply Forall_keep. Qed.

Lemma counted_later now w : counted w -> wk_now w <= now -> leased now w = true ->
  Forall (fun x => fl_since x <= now) (wk_live w)
  /\ forall tenant, covers now tenant (wk_store w) (flights tenant (wk_live w)).
Proof.
  intros (Hsince & _ & Hc) Hle Ht. split; [eapply Forall_impl; [exact Hsince|]; cbn; lia|].
  intros tenant. eapply covers_later; [exact Hle| |apply Hc]. apply flights_Forall, List.Forall_forall.
  intros x Hx. unfold leased in Ht. rewrite forallb_forall in Ht. specialize (Ht x Hx). cbn in Ht. lia.
Qed.

Lemma counted_step w w' : 0 < lease_ms -> counted w -> workers_step w w' -> leased (wk_now w') w = true -> counted w'.
Proof.
  intros Hms Hcnt Hst Hlease. pose proof (fun now => counted_later now w Hcnt) as Hin. destruct Hcnt as (Hsince & Hav & Hc).
  destruct Hst as [p g g' now tenant h Hg Hnow Ha|p g g' now tenant e Hg Hnow Ha|x g g' now o pre post Hg Hnow Hl Hr];
    destruct (Hin now Hnow Hlease) as [Hs Hcov]; clear Hin; unfold counted; cbn [worked wk_now wk_live wk_gates wk_store];
    (assert (Hg1 : adm_redis_available g = true) by (by eapply (Forall_lookup_1 _ _ _ _ Hav Hg))).
  - apply admitted_handle in Ha as Eh. subst h.
    pose proof (admit_slots now tenant (attach_gate (wk_store w) g)) as Hav'. rewrite Ha in Hav'. destruct Hav' as [Hav' _].
    pose proof (admit_covers now tenant (attach_gate (wk_store w) g) (flights tenant (wk_live w)) Hms Hg1) as Hcv.
    rewrite Ha in Hcv. cbn in Hcv. destruct Hcv as [Ho Hcv]. destruct (Hcv (Hcov tenant) (flights_Forall _ _ _ Hs)) as [_ Hx].
    destruct (Hx ltac:(by eexists) p) as [Hx1 Hx2]. split; [by constructor|]. split; [apply Forall_insert; [done|by rewrite Hav']|].
    intros t. rewrite flights_cons. cbn. destruct (decide (tenant = t)) as [<-|Hne]; cbn.
    + split; [exact Hx1|]. lia.
    + split; [|apply Hc]. eapply covers_same; [by apply Ho|apply Hcov].
  - pose proof (admit_slots now tenant (attach_gate (wk_store w) g)) as Hav'. rewrite Ha in Hav'. destruct Hav' as [Hav' _].
    pose proof (admit_covers now tenant (attach_gate (wk_store w) g) (flights tenant (wk_live w)) Hms Hg1) as Hcv.
    rewrite Ha in Hcv. cbn in Hcv. destruct Hcv as [Ho Hcv]. destruct (Hcv (Hcov tenant) (flights_Forall _ _ _ Hs)) as [Hx _].
    split; [done|]. split; [apply Forall_insert; [done|by rewrite Hav']|]. intros t. split; [|apply Hc].
    destruct (decide (t = tenant)) as [->|Hne]; [exact Hx|]. eapply covers_same; [by apply Ho|apply Hcov].
  - pose proof (release_available now (fl_tenant x) (attach_gate (wk_store w) g)) as Hav'. rewrite Hr in Hav'. cbn in Hav'.
    pose proof (release_covers now (fl_tenant x) (attach_gate (wk_store w) g) x (flights (fl_tenant x) (pre ++ post)) Hg1) as Hcv.
    rewrite Hr in Hcv. cbn in Hcv. destruct Hcv as [Ho Hcv]. rewrite Hl in Hs, Hcov.
    split; [rewrite <- (Permutation_middle pre post x) in Hs; by apply Forall_cons in Hs as [_ Hs]|].
    split; [apply Forall_insert; [done|by rewrite Hav']|]. intros t. specialize (Hc t). rewrite Hl in Hc.
    pose proof (flights_middle t x pre post) as Hm. split.
    + destruct (decide (fl_tenant x = t)) as [<-|Hne].
      * apply Hcv. eapply covers_perm; [|apply Hcov]. exact Hm.
      * eapply covers_same; [by apply Ho|]. eapply covers_perm; [|apply Hcov]. exact Hm.
    + destruct Hc as [_ Hc]. rewrite Hm, length_app in Hc. lia.
Qed.

(** C26: however requests come and go over the workers, and whatever Redis
    commands are lost: on each worker the requests in flight never exceed the
    platform's bound, nor those of a tenant its own; and while every worker
    has Redis and no request outlives the lease of the counter, the requests
    of a tenant over all the workers together never exceed the tenant's
    bound. *)
Theorem admission_bounds w0 b w : 0 <= max_concurrent_platform cfg -> 0 <= max_concurrent_per_tenant cfg -> 0 < lease_ms ->
  new_workers w0 -> workers_reachable w0 b w ->
  (forall p, (p < length (wk_gates w0))%nat ->
     Z.of_nat (length (on_worker p (wk_live w))) <= max_concurrent_platform cfg
     /\ forall tenant, live_of tenant (on_worker p (wk_live w)) <= max_concurrent_per_tenant cfg)
  /\ (Forall (fun g => adm_redis_available g = true) (wk_gates w0) -> b = true ->
     forall tenant, Z.of_nat (length (flights tenant (wk_live w))) <= max_concurrent_per_tenant cfg).
Proof.
  intros Hp Ht Hms (Hlive & Hgates & Hctr) Hr. split.
  - assert (Hok : workers_ok w /\ length (wk_gates w) = length (wk_gates w0)).
    { induction Hr as [|b w w' _ [IH1 IH2] Hst]; cycle 1.
      { split; [by eapply workers_ok_step|]. by destruct Hst; cbn; rewrite length_insert. }
      split; [|done]. intros p g Hg. rewrite Hlive. destruct (Forall_lookup_1 _ _ _ _ Hgates Hg) as (r & av & ->).
      by apply (reachable_slots_ok r av _ Hp Ht), gate_init. }
    destruct Hok as [Hok Hlen]. intros p Hlt. rewrite <- Hlen in Hlt. apply lookup_lt_is_Some_2 in Hlt as [g Hg].
    destruct (Hok p g Hg) as (H1 & H2 & H3). split; [lia|]. intros tenant. specialize (H3 tenant). lia.
  - intros Hav Hb. assert (Hc : counted w).
    { induction Hr as [|b w w' _ IH Hst]; [|apply andb_true_iff in Hb as [Hb Hl]; eapply counted_step; eauto]. split; [by rewrite Hlive|]. split; [done|].
      intros tenant. rewrite Hlive. split; [|cbn; lia]. specialize (Hctr tenant). unfold covers, redis_get in *.
      destruct (look _ _ _) as [[c e]|]; [|done]. split; [exact Hctr|]. by destruct e. }
    intros tenant. destruct Hc as (_ & _ & Hc). destruct (Hc tenant) as [_ Hbd]. lia.
Qed.

(** without Redis no slot is ever lost: free slots and requests in flight
    add up to the bounds in every reachable state, so a refusal means that
    the bound is reached. *)
Theorem admission_no_leak r g live tenant now :
  0 <= max_concurrent_platform cfg -> 0 <= max_concurrent_per_tenant cfg ->
  gate_reachable (new_gate r false) (g, live) ->
  slots_exact (g, live) /\
  match gate_admit now tenant g with
  | (Ret _, _) => Z.of_nat (length live) < max_concurrent_platform cfg /\
                  live_of tenant live < max_concurrent_per_tenant cfg
  | (Raise _, _) => Z.of_nat (length live) = max_concurrent_platform cfg \/
                    live_of tenant live = max_concurrent_per_tenant cfg
  end.
Proof.
  intros Hp Ht Hreach.
  assert (slots_ok (g, live)) as Hok.
  { apply (reachable_slots_ok r false); done. }
  assert (slots_exact (g, live) /\ adm_redis_available g = false) as [Hex Hav].
  { change (slots_exact (g, live) /\ adm_redis_available (g, live).1 = false).
    clear Hok. induction Hreach as [|s s' _ IH Hst].
    - split; [|done]. split; [simpl; lia|]. intros t. unfold _tenant_semaphore, live_of. simpl.
      rewrite lookup_empty. simpl. lia.
    - by eapply slots_exact_step. }
  split; [done|]. destruct Hex as [Hep Het], Hok as (Hp0 & _ & Hte). specialize (Het tenant).
  specialize (Hte tenant). pose proof (admit_refused_full now tenant g Hav) as Hf.
  pose proof (admit_slots now tenant g) as Hs.
  destruct (gate_admit now tenant g) as [[h|e] g']; [destruct Hs as (_ & _ & ? & ? & _); lia|lia].
Qed.

End admission.

(** ** Witnesses and two leaks *)

Definition small_config : AdmissionConfig :=
  {| adm_prefix := "neryva:admission:"; max_concurrent_per_tenant := 1;
     max_concurrent_platform := 2; wait_seconds := 5; lease_seconds := 300 |}.

Definition gate_on (faults : list fault) (available : bool) : @ConcurrencyGate (kv_map Z) :=
  new_gate small_config (Build_redis ∅ faults) available.

Definition admit_result (now : Z) (g : @ConcurrencyGate (kv_map Z)) := (gate_admit small_config now "t1" g).1.

(** Two workers on one server, where a tenant may have one request in flight:
    while the first worker serves it, the second refuses another. *)
Module TwoWorkers.
Definition start : workers (St := kv_map Z) :=
  {| wk_now := 0; wk_store := ∅; wk_gates := [gate_on [] true; gate_on [] true]; wk_live := [] |}.

Lemma start_new : new_workers small_config start.
Proof.
  split; [done|]. split; [repeat constructor; by eexists _, true|]. intros tenant. unfold redis_get. cbn.
  unfold kv_look. by rewrite lookup_empty.
Qed.

Definition served : flight := {| fl_worker := 0; fl_tenant := "t1"; fl_since := 7 |}.
Definition after_first : workers (St := kv_map Z) :=
  worked 0 (gate_admit small_config 7 "t1" (attach_gate ∅ (gate_on [] true))).2 7 [served] start.
Definition after_second : workers (St := kv_map Z) :=
  worked 1 (gate_admit small_config 9 "t1" (attach_gate (wk_store after_first) (gate_on [] true))).2 9 [served] after_first.

Lemma second_reached : workers_reachable small_config start true after_second.
Proof.
  apply (wk_next small_config start true after_first after_second); [apply (wk_next small_config start true start after_first); [apply wk_init|]|].
  - apply (wk_admitted small_config start 0 (gate_on [] true) _ 7 "t1" {| h_tenant_id := "t1"; h_released := false |});
      [reflexivity|done|reflexivity].
  - apply (wk_refused small_config after_first 1 (gate_on [] true) _ 9 "t1" (AdmissionLimitExceeded 1));
      [reflexivity|done|reflexivity].
Qed.
End TwoWorkers.

Lemma admission_bounds_witness : let w := TwoWorkers.after_second in
  (forall p, (p < 2)%nat -> Z.of_nat (length (on_worker p (wk_live w))) <= 2
     /\ forall tenant, live_of tenant (on_worker p (wk_live w)) <= 1)
  /\ forall tenant, Z.of_nat (length (flights tenant (wk_live w))) <= 1.
Proof.
  destruct (admission_bounds small_config TwoWorkers.start true TwoWorkers.after_second ltac:(done) ltac:(done)
    ltac:(done) TwoWorkers.start_new TwoWorkers.second_reached) as [H1 H2].
  split; [exact H1|]. apply H2; [by repeat constructor|done].
Defined.

Lemma admission_no_leak_witness :
  match gate_admit small_config 0 "t1" (gate_on [] false) with
  | (Ret _, _) => True
  | (Raise _, _) => False
  end.
Proof.
  pose proof (admission_no_leak small_config (Build_redis ∅ [] : redis (kv_map Z)) _ [] "t1" 0
    ltac:(done) ltac:(done) (gate_init small_config _)) as [_ H].
  fold (gate_on [] false) in H.
  destruct (gate_admit small_config 0 "t1" (gate_on [] false)) as [[h|e] g']; [exact I|].
  simpl in H. destruct H as [H|H]; discriminate H.
Defined.

(** a Redis command that fails during [admit] loses a slot of both
    semaphores for good: with a bound of one, one lost reply makes every later
    admission of the tenant fail although nothing is in flight. *)
Theorem admission_fault_leaks_slot :
  let '(o, g) := gate_admit small_config 0 "t1" (gate_on [LostRequest] true) in
  o = Raise AdmissionRedisError /\
  (forall now, gate_admit small_config now "t1" g = (Raise (AdmissionLimitExceeded 5), g)).
Proof. split; [reflexivity|]. intros now. reflexivity. Qed.

(** the lease of the shared counter expires under a long generation, and
    the release then decrements a fresh key to minus one: afterwards the
    counter admits two requests of the tenant at once (on two workers) where
    the bound is one. *)
Theorem admission_counter_negative :
  let acquire now r := (_acquire_redis_slot small_config now "t1"
                          (new_gate small_config r true : @ConcurrencyGate (kv_map Z))) in
  let release now r := (_release_redis_slot small_config now "t1"
                          (new_gate small_config r true : @ConcurrencyGate (kv_map Z))) in
  let '(a1, g1) := acquire 0 (Build_redis ∅ []) in
  let '(_, g2) := release 300001 (adm_conn g1) in
  let '(a2, g3) := acquire 300002 (adm_conn g2) in
  let '(a3, g4) := acquire 300003 (adm_conn g3) in
  a1 = Ret true /\ a2 = Ret true /\ a3 = Ret true.
Proof. vm_compute. repeat split. Qed.
