(* ===== verification/RateLimiter.v ===== *)
(** * Rate limiter (backend/app/infrastructure/patterns/rate_limiter.py)

    A token bucket per key: in Redis through a script, and in process memory
    when Redis fails.  Amounts and instants are rationals; the memory path
    reads a clock in seconds, the Redis path passes the script an instant in
    milliseconds. *)

From S2P Require Import Prelude Redis.

Record RateLimitConfig := {
  max_requests : Q;
  window_seconds : Q;
  burst_multiplier : Q;
  key_prefix : string;
}.

Definition default_rate_config : RateLimitConfig :=
  {| max_requests := 100; window_seconds := 60; burst_multiplier := 3 # 2; key_prefix := "neryva:rl:" |}.

Record _Bucket := { tokens : Q; last_refill : Q }.

Inductive rate_exc := RateLimitExceeded (key : string) (limit : Q) (reset_at : Q).

Section limiter.
(** The hash of a bucket, whose two fields are always written together. *)
Context {St : Type} `{RedisKV St _Bucket}.
Context (cfg : RateLimitConfig).

(** [_TOKEN_BUCKET_LUA] *)
Definition bucket_script (now : Z) (key : string) (max window cost now_arg : Q) (s : St) :
    (bool * Q) * St :=
  let t :=
    match redis_get now key s with
    | Some b =>
        if (window <=?q now_arg - last_refill b)%Q then max
        else Qminb max (tokens b + (now_arg - last_refill b) * (max / window))%Q
    | None => max
    end in
  let ok := cost <=?q t in
  let t := if ok then (t - cost)%Q else t in
  let ttl := Qfloor (window * 1000) in
  ((ok, t), redis_pexpire now key ttl (redis_set now key {| tokens := t; last_refill := now_arg |} None s)).

(** The limiter: the connection if one was configured, whether its script was
    registered at startup, the in-process buckets and the degraded flag. *)
Record RateLimiter := {
  rl_conn : option (redis St);
  buckets : gmap string _Bucket;
  degraded : bool;
}.

Definition rl_set_degraded (b : bool) (l : RateLimiter) : RateLimiter :=
  {| rl_conn := rl_conn l; buckets := buckets l; degraded := b |}.

Definition rl_run {A} (f : St -> A * St) : io RateLimiter redis_exc A := fun l =>
  match rl_conn l with
  | None => (Raise RedisError, l)
  | Some c =>
      let '(o, c) := redis_call f c in
      (o, {| rl_conn := Some c; buckets := buckets l; degraded := degraded l |})
  end.

(** The two clocks: [now] is the server's instant in milliseconds, equal to
    [time.time() * 1000] of the caller; [mono] is [time.monotonic()]. *)
Record instant := { now_ms : Z; mono : Q }.

Definition rl_key (key : string) : string := key_prefix cfg +:+ key.

(** [_try_redis_reconnect] *)
Definition _try_redis_reconnect {E} : io RateLimiter E unit :=
  l ← get_st;
  if negb (degraded l) then mret tt
  else try_catch (_ ← rl_run (fun s => (tt, s)); modify (rl_set_degraded false)) (fun _ => mret tt).

Definition _redis_acquire (t : instant) (key : string) (cost : Q) : io RateLimiter redis_exc bool :=
  r ← rl_run (bucket_script (now_ms t) (rl_key key) (max_requests cfg) (window_seconds cfg) cost
                (inject_Z (now_ms t)));
  mret (fst r).

(** The bucket after its refill, and the answer, of [_memory_acquire]. *)
Definition bucket_take (b : _Bucket) (now cost : Q) : bool * _Bucket :=
  let refill := ((now - last_refill b) * (max_requests cfg / window_seconds cfg))%Q in
  let t := Qminb (tokens b + refill) (max_requests cfg * burst_multiplier cfg) in
  if cost <=?q t then (true, {| tokens := t - cost; last_refill := now |})
  else (false, {| tokens := t; last_refill := now |}).

Definition full_bucket (now : Q) : _Bucket := {| tokens := max_requests cfg; last_refill := now |}.

Definition _memory_acquire {E} (t : instant) (key : string) (cost : Q) : io RateLimiter E bool := fun l =>
  let b := default (full_bucket (mono t)) (buckets l !! key) in
  let '(ok, b) := bucket_take b (mono t) cost in
  (Ret ok, {| rl_conn := rl_conn l; buckets := <[key := b]> (buckets l); degraded := degraded l |}).

(** [RateLimiter.acquire] *)
Definition acquire {E} (t : instant) (key : string) (cost : Q) : io RateLimiter E bool :=
  l ← get_st;
  match rl_conn l with
  | None => _memory_acquire t key cost
  | Some _ =>
      _ ← _try_redis_reconnect;
      try_catch (_redis_acquire t key cost)
        (fun _ => _ ← modify (rl_set_degraded true); _memory_acquire t key cost)
  end.

Definition acquire_or_raise (t : instant) (key : string) (cost : Q) : io RateLimiter rate_exc unit :=
  allowed ← acquire t key cost;
  if (allowed : bool) then mret tt
  else throw (RateLimitExceeded key (max_requests cfg) (mono t + window_seconds cfg)).

Definition acquire_multi_or_raise (t : instant) (keys : list string) (cost : Q) :
    io RateLimiter rate_exc unit :=
  for_each (fun key => acquire_or_raise t key cost) keys.

Definition get_remaining {E} (t : instant) (key : string) : io RateLimiter E Q :=
  let memory := (l ← get_st;
                 mret (default (max_requests cfg) (tokens <$> buckets l !! key))) in
  l ← get_st;
  match rl_conn l with
  | None => memory
  | Some _ =>
      try_catch
        (b ← rl_run (fun s => (redis_get (now_ms t) (rl_key key) s, s));
         mret (match b with
               | None => max_requests cfg
               | Some b =>
                   if (window_seconds cfg * 1000 <=?q inject_Z (now_ms t) - last_refill b)%Q
                   then max_requests cfg
                   else Qmaxb 0 (Qminb (max_requests cfg) (tokens b))
               end))
        (fun _ : redis_exc => memory)
  end.

(** [RateLimiter.reset] *)
Definition rl_reset {E} (key : string) : io RateLimiter E unit :=
  l ← get_st;
  _ ← match rl_conn l with
      | None => mret tt
      | Some _ => try_catch (rl_run (fun s => (tt, redis_del (rl_key key) s))) (fun _ => mret tt)
      end;
  modify (fun l => {| rl_conn := rl_conn l; buckets := delete key (buckets l); degraded := degraded l |}).

(** ** Lemmas *)

Definition rate : Q := (max_requests cfg / window_seconds cfg)%Q.
Definition capacity : Q := (max_requests cfg * burst_multiplier cfg)%Q.

(** The answers to a sequence of requests (instant, cost) on one bucket. *)
Fixpoint take_all (b : _Bucket) (reqs : list (Q * Q)) : list bool * _Bucket :=
  match reqs with
  | [] => ([], b)
  | (now, cost) :: reqs =>
      let '(ok, b) := bucket_take b now cost in
      let '(oks, b) := take_all b reqs in
      (ok :: oks, b)
  end.

(** The cost that was let through. *)
Fixpoint granted (oks : list bool) (reqs : list (Q * Q)) : Q :=
  match oks, reqs with
  | ok :: oks, (_, cost) :: reqs => ((if ok then cost else 0) + granted oks reqs)%Q
  | _, _ => 0%Q
  end.

(** The instants do not decrease from [t0] on. *)
Fixpoint in_order (t0 : Q) (reqs : list (Q * Q)) : Prop :=
  match reqs with
  | [] => True
  | (now, _) :: reqs => (t0 <= now)%Q /\ in_order now reqs
  end.

Definition last_instant (t0 : Q) (reqs : list (Q * Q)) : Q := List.last (map fst reqs) t0.

Lemma last_instant_cons t0 now cost reqs :
  last_instant t0 ((now, cost) :: reqs) = last_instant now reqs.
Proof. unfold last_instant. simpl map. apply last_cons_default. Qed.

Lemma in_order_last t0 reqs : in_order t0 reqs -> (t0 <= last_instant t0 reqs)%Q.
Proof.
  revert t0. induction reqs as [|[now cost] reqs IH]; intros t0 Ho; [unfold last_instant; simpl; lra|].
  destruct Ho as [Ht Ho]. rewrite last_instant_cons. specialize (IH now Ho). lra.
Qed.

Context (Hmax : (0 < max_requests cfg)%Q) (Hwin : (0 < window_seconds cfg)%Q).

Lemma rate_pos : (0 < rate)%Q.
Proof. unfold rate. apply Qlt_shift_div_l; lra. Qed.

(** One request: what is granted is paid by the bucket and its refill. *)
Lemma bucket_take_spec b now cost :
  (0 <= cost)%Q -> (last_refill b <= now)%Q ->
  let '(ok, b') := bucket_take b now cost in
  ((if ok then cost else 0) + tokens b' <= tokens b + rate * (now - last_refill b))%Q /\
  last_refill b' = now /\
  ((0 <= tokens b)%Q -> (0 <= capacity)%Q -> (0 <= tokens b' <= capacity)%Q) /\
  (ok = false -> (tokens b' < cost)%Q).
Proof.
  intros Hc Ht. unfold bucket_take. fold rate. fold capacity.
  pose proof rate_pos as Hr.
  destruct (Qminb_spec (tokens b + (now - last_refill b) * rate) capacity) as [H1 H2].
  assert (0 <= (now - last_refill b) * rate)%Q as Hpos by (apply Qmult_le_0_compat; lra).
  set (t := Qminb _ _) in *.
  assert ((0 <= tokens b)%Q -> (0 <= capacity)%Q -> (0 <= t)%Q) as Ht0.
  { intros. unfold t. apply Qminb_glb; lra. }
  destruct (cost <=?q t) eqn:E; q_prop; simpl; (split; [lra|]); (split; [done|]); (split; [|done || (intros _; lra)]);
    intros; specialize (Ht0 ltac:(done) ltac:(done)); lra.
Qed.

Lemma take_all_spec b reqs :
  Forall (fun r => 0 <= r.2)%Q reqs -> in_order (last_refill b) reqs ->
  (0 <= tokens b)%Q -> (0 <= capacity)%Q ->
  let '(oks, b') := take_all b reqs in
  (granted oks reqs + tokens b' <=
     tokens b + rate * (last_instant (last_refill b) reqs - last_refill b))%Q /\ (0 <= tokens b')%Q.
Proof.
  intros Hcost. revert b. induction Hcost as [|[now cost] reqs Hc _ IH]; intros b Ho Htok Hcap.
  { unfold last_instant. simpl. split; lra. }
  destruct Ho as [Ht Ho]. cbn [take_all]. simpl in Hc.
  pose proof (bucket_take_spec b now cost Hc Ht) as H1. destruct (bucket_take b now cost) as [ok b1].
  destruct H1 as (H1 & Hl1 & Hb1 & _). specialize (Hb1 Htok Hcap).
  rewrite <- Hl1 in Ho. specialize (IH b1 Ho ltac:(lra) Hcap).
  destruct (take_all b1 reqs) as [oks b2]. destruct IH as [IH Hb2]. split; [|done].
  rewrite last_instant_cons. cbn [granted]. rewrite Hl1 in IH.
  set (T := last_instant now reqs) in *. pose proof rate_pos.
  assert (rate * (T - last_refill b) == rate * (now - last_refill b) + rate * (T - now))%Q as -> by ring.
  lra.
Qed.

(** ** Properties *)

(** the in-process bucket enforces the rate: whatever requests are made
    on a key, at whatever instants, what is let through since the bucket was
    created is at most its initial allowance plus the configured rate times
    the elapsed time, and a refusal means that the bucket held less than the
    cost. *)
Theorem memory_bucket_rate t0 reqs :
  Forall (fun r => 0 <= r.2)%Q reqs -> in_order t0 reqs -> (0 <= burst_multiplier cfg)%Q ->
  let '(oks, b) := take_all (full_bucket t0) reqs in
  (granted oks reqs <= max_requests cfg +
     max_requests cfg / window_seconds cfg * (last_instant t0 reqs - t0))%Q /\
  forall now cost, (last_refill b <= now)%Q -> (0 <= cost)%Q ->
    (bucket_take b now cost).1 = false ->
    (tokens (bucket_take b now cost).2 < cost)%Q.
Proof.
  intros Hc Ho Hb.
  assert (0 <= capacity)%Q as Hcap by (apply Qmult_le_0_compat; lra).
  pose proof (take_all_spec (full_bucket t0) reqs Hc Ho ltac:(simpl; lra) Hcap) as Hs.
  destruct (take_all (full_bucket t0) reqs) as [oks b]. simpl in Hs. destruct Hs as [Hs Hb'].
  split; [fold rate; lra|]. intros now cost Hnow Hcost Hno.
  pose proof (bucket_take_spec b now cost Hcost Hnow) as Ht.
  destruct (bucket_take b now cost) as [ok b2]. destruct Ht as (_ & _ & _ & Hlt). by apply Hlt.
Qed.

(** losing Redis never blocks a request nor goes unnoticed: [acquire]
    never raises; when its script cannot be run it answers from the
    in-process bucket and leaves the limiter degraded; when the script ran,
    its answer is returned. *)
Theorem acquire_degrades t key cost l :
  exists ok l', @acquire rate_exc t key cost l = (Ret ok, l') /\
    match rl_conn l with
    | None => (Ret (E:=rate_exc) ok, l') = _memory_acquire t key cost l
    | Some _ =>
        (exists l1, _redis_acquire t key cost l1 = (Ret ok, l')) \/
        (degraded l' = true /\ ok = (bucket_take (default (full_bucket (mono t)) (buckets l !! key)) (mono t) cost).1)
    end.
Proof.
  unfold acquire. unfold mbind at 1, io_bind at 1, get_st at 1.
  destruct (rl_conn l) as [c|] eqn:Ec.
  2: { unfold _memory_acquire. destruct (bucket_take _ _ _) as [ok b]. eauto. }
  assert (exists l1, @_try_redis_reconnect rate_exc l = (Ret tt, l1) /\ buckets l1 = buckets l)
    as (l1 & Hl1 & Hb1).
  { unfold _try_redis_reconnect, mbind, io_bind, get_st. destruct (negb _); [by exists l|].
    unfold try_catch, rl_run. rewrite Ec. destruct (redis_call _ c) as [[[]|] c']; by eexists. }
  unfold mbind at 1, io_bind at 1. rewrite Hl1. unfold try_catch.
  destruct (_redis_acquire t key cost l1) as [[ok|e] l2] eqn:Er.
  - exists ok, l2. split; [done|]. left. eauto.
  - assert (buckets l2 = buckets l1) as Hb2.
    { revert Er. unfold _redis_acquire, rl_run, mbind, io_bind.
      destruct (rl_conn l1) as [c1|]; [|by intros ?; simplify_eq/=].
      destruct (redis_call _ c1) as [[a|] c']; by intros ?; simplify_eq/=. }
    unfold mbind, io_bind, modify, _memory_acquire. simpl. rewrite Hb2, Hb1.
    destruct (bucket_take _ _ _) as [ok b] eqn:Eb. eexists _, _. split; [done|]. right. done.
Qed.

(** the script refills a bucket completely once its window, a number of
    seconds, has passed in the caller's instants, which are milliseconds: with
    100 requests per 60 s, a client that used its 100 requests is served 100
    more after 60 ms. *)
Theorem redis_bucket_refills_in_ms now key s :
  let spent := bucket_script now key (max_requests cfg) (window_seconds cfg) (max_requests cfg)
                 (inject_Z now) s in
  forall later, (window_seconds cfg <= inject_Z (later - now))%Q -> 
  later < now + Qfloor (window_seconds cfg * 1000) -> now <= later ->
  fst (bucket_script later key (max_requests cfg) (window_seconds cfg) (max_requests cfg)
         (inject_Z later) (snd spent)) = (true, (max_requests cfg - max_requests cfg)%Q).
Proof.
  intros spent later Hw Hl Hle.
  set (ttl := Qfloor (window_seconds cfg * 1000)) in *.
  assert (exists tk, snd spent = redis_pexpire now key ttl
    (redis_set now key {| tokens := tk; last_refill := inject_Z now |} None s)) as [tk ->] by (by eexists).
  unfold bucket_script, redis_get. cbn [fst].
  rewrite look_pexpire by done. rewrite decide_True by done. rewrite look_set by lia.
  rewrite decide_True by done. cbn [unexpired fmap option_fmap option_map fst].
  destruct (Z.ltb_spec later (now + ttl)); [|lia]. cbn [fmap option_fmap option_map fst last_refill].
  assert (window_seconds cfg <=?q inject_Z later - inject_Z now = true) as ->.
  { apply Qle_bool_iff. unfold inject_Z, Qminus, Qplus, Qopp, Qle in *. simpl in *. lia. }
  assert (max_requests cfg <=?q max_requests cfg = true) as -> by (apply Qle_bool_iff; lra). done.
Qed.

End limiter.
Arguments RateLimiter St : clear implicits.

(** ** Witnesses *)

Lemma memory_bucket_rate_witness :
  let reqs := [(0, 100); (1, 2); (30, 50)]%Q in
  (granted (take_all default_rate_config (full_bucket default_rate_config 0) reqs).1 reqs
     <= 100 + 100 / 60 * (30 - 0))%Q.
Proof.
  intros reqs.
  pose proof (memory_bucket_rate default_rate_config ltac:(done) ltac:(done) 0 reqs) as H.
  destruct (take_all default_rate_config (full_bucket default_rate_config 0) reqs) as [oks b].
  destruct H as [H _]; [repeat constructor; done|repeat split; done|done|exact H].
Defined.

Lemma redis_bucket_refills_in_ms_witness :
  fst (bucket_script 60 "k" 100 60 100 60 (snd (bucket_script 0 "k" 100 60 100 0
    (∅ : kv_map _Bucket)))) = (true, (100 - 100)%Q).
Proof.
  apply (redis_bucket_refills_in_ms default_rate_config 0 "k" (∅ : kv_map _Bucket) 60);
    vm_compute; congruence.
Defined.
