(* ===== verification/Totp.v ===== *)
(** * One-time passwords (backend/app/modules/security/totp.py)

    Secrets as Base32 text and codes from a keyed digest, whose 20 bytes are a
    parameter.  Bytes are integers below 256. *)

From S2P Require Import Prelude Text.

(** ** Digits of a base *)

(** The [n] digits of [v], most significant first. *)
Fixpoint to_digits (base : Z) (n : nat) (v : Z) : list Z :=
  match n with
  | O => []
  | S n => to_digits base n (v / base) ++ [v mod base]
  end.

Definition of_digits (base : Z) (l : list Z) : Z := foldl (fun acc d => base * acc + d) 0 l.

Lemma of_digits_snoc base l d : of_digits base (l ++ [d]) = base * of_digits base l + d.
Proof. unfold of_digits. by rewrite foldl_app. Qed.

Lemma length_to_digits base n v : length (to_digits base n v) = n.
Proof. revert v. induction n as [|n IH]; intros v; [done|]. cbn. rewrite length_app, IH. cbn. lia. Qed.

Lemma to_digits_range base n v : 0 < base -> Forall (fun d => 0 <= d < base) (to_digits base n v).
Proof.
  intros Hb. revert v. induction n as [|n IH]; intros v; [constructor|]. cbn. apply Forall_app. split; [done|].
  repeat constructor; apply Z.mod_pos_bound; lia.
Qed.

Lemma to_of_digits base l :
  0 < base -> Forall (fun d => 0 <= d < base) l -> to_digits base (length l) (of_digits base l) = l.
Proof.
  intros Hb. induction l as [|d l IH] using rev_ind; [done|]. intros [Hl Hd]%Forall_app.
  inversion Hd; subst. rewrite length_app. cbn [length]. rewrite Nat.add_1_r. cbn [to_digits]. rewrite of_digits_snoc.
  assert ((base * of_digits base l + d) / base = of_digits base l /\ (base * of_digits base l + d) mod base = d)
    as [-> ->]; [|by rewrite IH].
  split; symmetry; [by apply Z.div_unique with d; [left|]|by apply Z.mod_unique with (of_digits base l); [left|]].
Qed.

Lemma of_digits_range base l :
  0 < base -> Forall (fun d => 0 <= d < base) l -> 0 <= of_digits base l < base ^ Z.of_nat (length l).
Proof.
  intros Hb. induction l as [|d l IH] using rev_ind; [done|]. intros [Hl Hd]%Forall_app. specialize (IH Hl).
  inversion Hd; subst. rewrite of_digits_snoc, length_app. cbn [length]. rewrite Nat2Z.inj_add, Z.pow_add_r by lia.
  change (Z.of_nat 1) with 1. rewrite Z.pow_1_r. nia.
Qed.

Lemma of_to_digits base n v : 0 < base -> 0 <= v < base ^ Z.of_nat n -> of_digits base (to_digits base n v) = v.
Proof.
  intros Hb. revert v. induction n as [|n IH]; intros v Hv.
  - cbn in *. change (of_digits base []) with 0. lia.
  - cbn [to_digits]. rewrite of_digits_snoc. rewrite Nat2Z.inj_succ, Z.pow_succ_r in Hv by lia.
    rewrite IH; [pose proof (Z.div_mod v base); lia|]. split; [apply Z.div_pos; lia|].
    apply Z.div_lt_upper_bound; lia.
Qed.

(** ** Base32 (RFC 4648) *)

Definition b32_char (d : Z) : ascii := Ascii.ascii_of_nat (Z.to_nat (if d <? 26 then 65 + d else 24 + d)).

Definition b32_value (a : ascii) : option Z :=
  let n := Z.of_nat (Ascii.nat_of_ascii a) in
  if (65 <=? n) && (n <=? 90) then Some (n - 65)
  else if (50 <=? n) && (n <=? 55) then Some (n - 24)
  else None.

Fixpoint text_of (l : list ascii) : string :=
  match l with [] => EmptyString | a :: l => String a (text_of l) end.
Fixpoint chars_of (s : string) : list ascii :=
  match s with EmptyString => [] | String a s => a :: chars_of s end.

(** [base64.b32encode(raw).decode("ascii").rstrip("=")] *)
Definition b32encode (raw : list Z) : string :=
  let bits := (8 * length raw)%nat in
  let chars := ((bits + 4) / 5)%nat in
  text_of (map b32_char (to_digits 32 chars (of_digits 256 raw * 2 ^ Z.of_nat (5 * chars - bits)))).

(** [generate_secret] *)
Definition generate_secret (token_bytes : list Z) : string := b32encode token_bytes.

(** [_key_from_b32]; [None]: binascii.Error, on a character of another
    alphabet or a length no encoding has.  Bits left over are dropped. *)
Definition _key_from_b32 (secret_b32 : string) : option (list Z) :=
  let cs := chars_of (upper (strip secret_b32)) in
  if bool_decide ((length cs mod 8)%nat ∈ [1; 3; 6]%nat) then None
  else
    vs ← mapM b32_value cs;
    let bytes := (5 * length vs / 8)%nat in
    Some (to_digits 256 bytes (of_digits 32 vs / 2 ^ Z.of_nat (5 * length vs - 8 * bytes))).

(** ** Codes *)

Definition _PERIOD_SECONDS : Z := 30.
Definition _DIGITS : nat := 6.

(** [s.zfill(n)] of text without a sign. *)
Definition zfill (n : nat) (s : string) : string :=
  text_of (repeat "0"%char (n - String.length s)) +:+ s.

Section codes.
(** HMAC-SHA1 of the counter's eight bytes. *)
Context (hmac_sha1 : list Z -> Z -> list Z).

Definition _hotp (key : list Z) (counter : Z) (digits : nat) : string :=
  let digest := hmac_sha1 key counter in
  let offset := Z.to_nat (Z.land (List.last digest 0) 15) in
  let code := Z.land (of_digits 256 (firstn 4 (skipn offset digest))) (2 ^ 31 - 1) mod 10 ^ Z.of_nat digits in
  zfill digits (pretty code).

(** [now] in seconds since the epoch; [None]: binascii.Error, or struct.error
    on a negative counter. *)
Definition totp_code (secret_b32 : string) (drift : Z) (now : Q) : option string :=
  let counter := py_int (now / inject_Z _PERIOD_SECONDS) + drift in
  key ← _key_from_b32 secret_b32;
  if counter <? 0 then None else Some (_hotp key counter _DIGITS).

Fixpoint any_code (secret code : string) (now : Q) (drifts : list Z) : option bool :=
  match drifts with
  | [] => Some false
  | d :: drifts =>
      c ← totp_code secret d now;
      if bool_decide (c = code) then Some true else any_code secret code now drifts
  end.

(** [None]: an exception of [totp_code]. *)
Definition verify_totp (secret_b32 code : string) (now : Q) : option bool :=
  let code := strip code in
  if negb (truthy code && all_chars is_digit_char code) || negb (String.length code =? _DIGITS)%nat then Some false
  else any_code secret_b32 code now [-1; 0; 1].
End codes.

(** ** Properties *)

Lemma b32_char_value d : 0 <= d < 32 -> b32_value (b32_char d) = Some d.
Proof.
  intros [Hl Hr]. unfold b32_char, b32_value.
  destruct (Z.ltb_spec d 26); rewrite Ascii.nat_ascii_embedding by lia; rewrite Z2Nat.id by lia.
  - replace ((65 <=? 65 + d) && (65 + d <=? 90)) with true by lia. f_equal. lia.
  - replace ((65 <=? 24 + d) && (24 + d <=? 90)) with false by lia.
    replace ((50 <=? 24 + d) && (24 + d <=? 55)) with true by lia. f_equal. lia.
Qed.

Lemma mapM_b32 l : Forall (fun d => 0 <= d < 32) l -> mapM b32_value (map b32_char l) = Some l.
Proof.
  induction 1 as [|d l Hd _ IH]; [done|]. cbn. rewrite b32_char_value by done. cbn. by rewrite IH.
Qed.

Lemma chars_of_text l : chars_of (text_of l) = l.
Proof. induction l; cbn; congruence. Qed.

Definition b32_alphabet (a : ascii) : bool := match b32_value a with Some _ => true | None => false end.

Lemma text_of_chars p l : Forall (fun a => p a = true) l -> all_chars p (text_of l) = true.
Proof. induction 1 as [|a l Ha _ IH]; [done|]. cbn. by rewrite Ha. Qed.

Lemma b32_kept a : b32_alphabet a = true -> upper_char a = a /\ negb (is_space a) = true.
Proof. each_char a; by intros H; try discriminate H. Qed.

Lemma upper_kept s : all_chars b32_alphabet s = true -> upper s = s.
Proof.
  induction s as [|a s IH]; [done|]. cbn. intros [Ha Hs]%andb_true_iff. by rewrite (proj1 (b32_kept a Ha)), IH.
Qed.

Lemma chars_of_length s : length (chars_of s) = String.length s.
Proof. induction s; cbn; congruence. Qed.

(** A secret is read back as the bytes it was generated from. *)
Theorem secret_read_back raw :
  Forall (fun b => 0 <= b < 256) raw -> _key_from_b32 (generate_secret raw) = Some raw.
Proof.
  intros Hraw. unfold _key_from_b32, generate_secret, b32encode.
  set (bits := (8 * length raw)%nat). set (chars := ((bits + 4) / 5)%nat).
  set (v := of_digits 256 raw * 2 ^ Z.of_nat (5 * chars - bits)).
  assert (bits <= 5 * chars < bits + 5)%nat as Hc.
  { pose proof (Nat.div_mod (bits + 4) 5 ltac:(lia)) as H.
    pose proof (Nat.mod_upper_bound (bits + 4) 5 ltac:(lia)). fold chars in H. lia. }
  pose proof (to_digits_range 32 chars v ltac:(lia)) as Hr.
  set (ds := to_digits 32 chars v) in *.
  assert (length ds = chars) as Hlen by apply length_to_digits.
  assert (all_chars b32_alphabet (text_of (map b32_char ds)) = true) as Hall.
  { apply text_of_chars, Forall_map, (Forall_impl _ _ _ Hr). intros d Hd. unfold b32_alphabet.
    by rewrite b32_char_value. }
  rewrite strip_none by (by eapply all_chars_impl; [intros a Ha; apply (b32_kept a Ha)|]).
  rewrite upper_kept by done. rewrite chars_of_text, length_map, Hlen, mapM_b32 by done. cbn [mbind option_bind].
  assert (length raw = 5 * chars / 8)%nat as Hbytes.
  { unfold bits in Hc. apply Nat.div_unique with (5 * chars - 8 * length raw)%nat; lia. }
  rewrite bool_decide_eq_false_2.
  - rewrite Hlen, <- Hbytes. f_equal. fold bits. rewrite <- (to_of_digits 256 raw) at 2 by (lia || done). f_equal.
    unfold ds. rewrite of_to_digits; [|lia|].
    + unfold v. rewrite Z.div_mul; [done|]. apply Z.pow_nonzero; lia.
    + pose proof (of_digits_range 256 raw ltac:(lia) Hraw) as Hv. unfold v.
      replace (32 ^ Z.of_nat chars) with (256 ^ Z.of_nat (length raw) * 2 ^ Z.of_nat (5 * chars - bits)).
      * split; [apply Z.mul_nonneg_nonneg; [lia|apply Z.pow_nonneg; lia]|].
        apply Z.mul_lt_mono_pos_r; [apply Z.pow_pos_nonneg; lia|lia].
      * change 256 with (2 ^ 8). change 32 with (2 ^ 5). rewrite <- !Z.pow_mul_r by lia.
        rewrite <- Z.pow_add_r by lia. f_equal. unfold bits. lia.
  - intros Hin. pose proof (Nat.div_mod chars 8 ltac:(lia)) as Hd. unfold bits in Hc. set_unfold.
    destruct_or! Hin; rewrite Hin in Hd; lia.
Qed.

(** *** Codes have six digits *)

Lemma pretty_go_length n s : String.length (pretty_N_go n s) = (String.length (pretty_N_go n EmptyString) + String.length s)%nat.
Proof.
  revert s. induction (N.lt_wf_0 n) as [n _ IH]. intros s. destruct (decide (n = 0)%N) as [->|Hn]; [done|].
  rewrite !(pretty_N_go_step n) by lia. assert (n / 10 < n)%N as Hlt by (apply N.div_lt; lia).
  rewrite (IH _ Hlt (String _ s)), (IH _ Hlt (String _ EmptyString)). cbn. lia.
Qed.

Lemma pretty_N_length (n : N) (k : nat) : (0 < k)%nat -> (n < 10 ^ N.of_nat k)%N -> (String.length (pretty n) <= k)%nat.
Proof.
  intros Hk. unfold pretty, pretty_N. case_decide as Hz; [by cbn|]. clear Hz Hk. revert n.
  induction k as [|k IH]; intros n Hn.
  - change (10 ^ N.of_nat 0)%N with 1%N in Hn. assert (n = 0%N) as -> by lia. rewrite pretty_N_go_0. apply Nat.le_0_l.
  - destruct (decide (n = 0)%N) as [->|Hz]; [rewrite pretty_N_go_0; apply Nat.le_0_l|]. rewrite pretty_N_go_step by lia.
    rewrite pretty_go_length. cbn [String.length]. assert (n `div` 10 < 10 ^ N.of_nat k)%N as H.
    { apply N.Div0.div_lt_upper_bound. rewrite Nat2N.inj_succ, N.pow_succ_r in Hn by lia. lia. }
    apply IH in H. lia.
Qed.

Lemma text_of_length l : String.length (text_of l) = length l.
Proof. induction l; cbn; congruence. Qed.

(** Every code has as many digits as it should. *)
Theorem hotp_shape hmac_sha1 key counter digits :
  (0 < digits)%nat ->
  String.length (_hotp hmac_sha1 key counter digits) = digits /\
  all_chars is_digit_char (_hotp hmac_sha1 key counter digits) = true.
Proof.
  intros Hd. unfold _hotp. set (v := Z.land _ _). set (code := v mod _).
  assert (0 <= code < 10 ^ Z.of_nat digits) as Hcode by (apply Z.mod_pos_bound, Z.pow_pos_nonneg; lia).
  assert (pretty code = pretty (Z.to_N code)) as ->.
  { destruct code as [|p|p]; [done|done|lia]. }
  assert (String.length (pretty (Z.to_N code)) <= digits)%nat as Hl.
  { apply pretty_N_length; [done|]. apply N2Z.inj_lt. rewrite Z2N.id, N2Z.inj_pow, nat_N_Z by lia. lia. }
  unfold zfill. rewrite string_length_app, text_of_length, repeat_length. split; [lia|].
  rewrite all_chars_app, (pretty_N_chars is_digit_char) by done. rewrite andb_true_r.
  apply text_of_chars, List.Forall_forall. intros a Ha. by apply repeat_spec in Ha as ->.
Qed.

Lemma py_int_nonneg q : (0 <= q)%Q -> 0 <= py_int q.
Proof. intros H. unfold py_int. unfold Qle in H. cbn in H. apply Z.quot_pos; lia. Qed.

Lemma period_later (q : Q) : (30 <= q)%Q -> 1 <= py_int (q / 30).
Proof.
  intros H. unfold py_int. destruct q as [n d]. unfold Qle in H. cbn in H. unfold Qdiv, Qmult, Qinv. cbn [Qnum Qden].
  apply Z.quot_le_lower_bound; lia.
Qed.

(** A code is accepted while the clock is in its period or one next to it, and
    otherwise only when the digests of two periods give the same code. *)
Theorem totp_window hmac_sha1 raw (t now : Q) :
  Forall (fun b => 0 <= b < 256) raw -> (0 <= t)%Q -> (30 <= now)%Q ->
  exists code, totp_code hmac_sha1 (generate_secret raw) 0 t = Some code /\
    (Z.abs (py_int (now / 30) - py_int (t / 30)) <= 1 ->
       verify_totp hmac_sha1 (generate_secret raw) code now = Some true) /\
    (verify_totp hmac_sha1 (generate_secret raw) code now = Some true ->
       exists d, -1 <= d <= 1 /\
         _hotp hmac_sha1 raw (py_int (now / 30) + d) 6 = _hotp hmac_sha1 raw (py_int (t / 30)) 6).
Proof.
  intros Hraw Ht Hnow. apply period_later in Hnow.
  assert (0 <= py_int (t / 30)) as Hk by (apply py_int_nonneg; apply Qle_shift_div_l; lra).
  unfold totp_code. rewrite secret_read_back by done. cbn [mbind option_bind].
  change (inject_Z _PERIOD_SECONDS) with 30%Q.
  set (n := py_int (now / 30)) in *. set (k := py_int (t / 30)) in *. rewrite Z.add_0_r.
  replace (k <? 0) with false by lia.
  destruct (hotp_shape hmac_sha1 raw k _DIGITS) as [Hlen Hdig]; [by apply Nat.ltb_lt|].
  eexists. split; [reflexivity|].
  set (code := _hotp hmac_sha1 raw k _DIGITS) in *.
  assert (verify_totp hmac_sha1 (generate_secret raw) code now
          = any_code hmac_sha1 (generate_secret raw) code now [-1; 0; 1]) as ->.
  { unfold verify_totp. rewrite strip_none by (eapply all_chars_impl; [exact digit_not_space|done]).
    rewrite Hdig, Hlen, Nat.eqb_refl. by destruct code. }
  cbn [any_code]. unfold totp_code. rewrite secret_read_back by done. cbn [mbind option_bind].
  change (inject_Z _PERIOD_SECONDS) with 30%Q. fold n.
  replace (n + -1 <? 0) with false by lia. replace (n + 0 <? 0) with false by lia.
  replace (n + 1 <? 0) with false by lia. cbn [mbind option_bind]. split.
  - intros H. assert (k = n + -1 \/ k = n + 0 \/ k = n + 1) as Hor by lia.
    unfold code. destruct_or! Hor; rewrite <- Hor; repeat case_bool_decide; done.
  - repeat case_bool_decide; intros ?; [exists (-1)|exists 0|exists 1|done]; by (split; [lia|]).
Qed.

(** ** Witnesses *)

Module TotpSample.
Definition raw : list Z := [72; 101; 108; 108; 111; 33; 222; 173; 190; 239; 0; 1; 2; 3; 4; 5; 6; 7; 8; 255].
(** A digest that depends on the counter. *)
Definition digest (key : list Z) (counter : Z) : list Z := map (fun b => (b + counter) mod 256) key.
Lemma raw_bytes : Forall (fun b => 0 <= b < 256) raw.
Proof. repeat constructor; discriminate. Qed.
End TotpSample.

Lemma secret_read_back_witness : _key_from_b32 (generate_secret TotpSample.raw) = Some TotpSample.raw.
Proof. exact (secret_read_back TotpSample.raw TotpSample.raw_bytes). Defined.

Lemma hotp_shape_witness : String.length (_hotp TotpSample.digest TotpSample.raw 9 6) = 6%nat.
Proof. apply (hotp_shape TotpSample.digest TotpSample.raw 9 6). lia. Defined.

Lemma totp_window_witness :
  exists code, totp_code TotpSample.digest (generate_secret TotpSample.raw) 0 59 = Some code /\
    verify_totp TotpSample.digest (generate_secret TotpSample.raw) code 80 = Some true.
Proof.
  destruct (totp_window TotpSample.digest TotpSample.raw 59 80 TotpSample.raw_bytes) as (code & Hc & Ha & _);
    [discriminate|discriminate|].
  exists code. split; [exact Hc|]. apply Ha. discriminate.
Defined.
