(* ===== verification/Auth.v ===== *)
(** * Authentication of operators (backend/app/api/dependencies/auth.py)

    API keys and their roles, privileged operator sessions, tenant scoping and
    the second factor: the dependencies of auth.py, the repositories they call
    (infrastructure/db/repositories.py), the routes that manage keys
    (api/routes/conversations.py) and the ones that enroll a second factor
    (api/routes/operator_auth.py).  Requests pass the rate limiter of
    RateLimiter.v.  Instants are seconds; digests, encryption and the random
    source are parameters; a call of a repository is one transaction. *)

From S2P Require Import Prelude Text Json Redis RateLimiter Totp.

(** ** Roles *)

Definition ROLE_SUPER_ADMIN : string := "super_admin".
Definition ROLE_TENANT_ADMIN : string := "tenant_admin".
Definition ROLE_OPERATOR : string := "operator".
Definition ROLE_AUDITOR : string := "auditor".

Definition ALL_ROLES : list string := [ROLE_SUPER_ADMIN; ROLE_TENANT_ADMIN; ROLE_OPERATOR; ROLE_AUDITOR].

Definition ROLE_PERMISSIONS : list (string * list string) := [
  (ROLE_SUPER_ADMIN,
    ["tenants:read"; "tenants:write"; "conversations:read"; "conversations:write"; "api_keys:manage"; "audit:read";
     "escalations:read"; "escalations:write"; "webhooks:read"; "webhooks:write"; "knowledge:write"; "evals:run";
     "policies:read"; "policies:write"; "models:read"; "models:write"; "evals:read"; "billing:read"; "tools:read";
     "tools:write"; "prompts:read"; "prompts:write"]);
  (ROLE_TENANT_ADMIN,
    ["tenants:read"; "conversations:read"; "conversations:write"; "escalations:read"; "escalations:write";
     "webhooks:read"; "webhooks:write"; "knowledge:write"; "evals:run"; "api_keys:manage"; "policies:read";
     "policies:write"; "models:read"; "models:write"; "evals:read"; "billing:read"; "tools:read"; "tools:write";
     "prompts:read"; "prompts:write"]);
  (ROLE_OPERATOR, ["conversations:read"; "escalations:read"; "escalations:write"]);
  (ROLE_AUDITOR, ["tenants:read"; "audit:read"])].

Definition KEY_PREFIX : string := "nrv_live_".
Definition OPERATOR_TOKEN_PREFIX : string := "nry_ops_".

(** A principal; its tenant is a UUID. *)
Record ApiKeyPrincipal := {
  key_id : string;
  pr_name : string;
  pr_role : string;
  pr_tenant_id : option string;
  pr_scopes : list string;
}.

Definition permissions_of (role : string) : list string :=
  match List.find (fun rp => bool_decide (rp.1 = role)) ROLE_PERMISSIONS with Some rp => rp.2 | None => [] end.

Definition has_permission (permission : string) (p : ApiKeyPrincipal) : bool :=
  bool_decide (permission ∈ permissions_of (pr_role p)) || bool_decide ("*"%string ∈ pr_scopes p).

(** ** UUIDs *)

(** The canonical text of 32 hexadecimal digits. *)
Definition hyphenate (h : string) : string :=
  String.substring 0 8 h +:+ "-" +:+ String.substring 8 4 h +:+ "-" +:+ String.substring 12 4 h +:+ "-"
  +:+ String.substring 16 4 h +:+ "-" +:+ String.substring 20 12 h.

Fixpoint drop_char (c : ascii) (s : string) : string :=
  match s with
  | EmptyString => EmptyString
  | String a s => if decide (a = c) then drop_char c s else String a (drop_char c s)
  end.

(** [str(UUID(s))]; [None]: ValueError.  The forms with braces and prefixes,
    which nothing here writes, are left out. *)
Definition uuid_of_string (s : string) : option string :=
  let h := lower (drop_char "-" s) in
  if (String.length h =? 32)%nat && all_chars is_hex_char h then Some (hyphenate h) else None.

(** ** Rows *)

Record ApiKeyRow := {
  ak_id : string;
  ak_name : string;
  ak_hash : string;
  ak_prefix : string;
  ak_role : string;
  ak_tenant_id : option string;
  ak_scopes : list string;
  ak_expires_at : option Q;
  ak_revoked : bool;
  ak_last_used_at : option Q;
  ak_usage_count : Z;
  ak_mfa_secret : option string;
  ak_mfa_enabled : bool;
  ak_created_at : Q;
}.

Record OperatorSessionRow := {
  os_id : string;
  os_token_hash : string;
  os_name : string;
  os_role : string;
  os_tenant_id : option string;
  os_scopes : list string;
  os_idp_sub : option string;
  os_auth_method : string;
  os_expires_at : Q;
  os_revoked_at : option Q;
  os_created_at : Q;
}.

Definition set_revoked (r : ApiKeyRow) : ApiKeyRow := {|
  ak_id := ak_id r; ak_name := ak_name r; ak_hash := ak_hash r; ak_prefix := ak_prefix r; ak_role := ak_role r;
  ak_tenant_id := ak_tenant_id r; ak_scopes := ak_scopes r; ak_expires_at := ak_expires_at r; ak_revoked := true;
  ak_last_used_at := ak_last_used_at r; ak_usage_count := ak_usage_count r; ak_mfa_secret := ak_mfa_secret r;
  ak_mfa_enabled := ak_mfa_enabled r; ak_created_at := ak_created_at r |}.
Definition set_mfa (secret : option string) (enabled : bool) (r : ApiKeyRow) : ApiKeyRow := {|
  ak_id := ak_id r; ak_name := ak_name r; ak_hash := ak_hash r; ak_prefix := ak_prefix r; ak_role := ak_role r;
  ak_tenant_id := ak_tenant_id r; ak_scopes := ak_scopes r; ak_expires_at := ak_expires_at r;
  ak_revoked := ak_revoked r; ak_last_used_at := ak_last_used_at r; ak_usage_count := ak_usage_count r;
  ak_mfa_secret := secret; ak_mfa_enabled := enabled; ak_created_at := ak_created_at r |}.
Definition add_usage (delta : Z) (at_ : Q) (r : ApiKeyRow) : ApiKeyRow := {|
  ak_id := ak_id r; ak_name := ak_name r; ak_hash := ak_hash r; ak_prefix := ak_prefix r; ak_role := ak_role r;
  ak_tenant_id := ak_tenant_id r; ak_scopes := ak_scopes r; ak_expires_at := ak_expires_at r;
  ak_revoked := ak_revoked r; ak_last_used_at := Some at_; ak_usage_count := ak_usage_count r + delta;
  ak_mfa_secret := ak_mfa_secret r; ak_mfa_enabled := ak_mfa_enabled r; ak_created_at := ak_created_at r |}.

(** An audit record, without its chain. *)
Record auth_note := {
  note_action : string;
  note_resource : string;
  note_resource_id : option string;
  note_tenant : option string;
  note_actor : option string;
  note_details : list (string * json);
}.

(** ** Configuration and state *)

Record AuthSettings := {
  AUTH_ENABLED : bool;
  API_KEY_HEADER : string;
  MFA_SIGNING_KEY : string;               (* the configured key, or the one of the key file *)
  MFA_PROOF_TTL_SECONDS : Q;
  OPERATOR_SESSION_TTL_SECONDS : Q;
  MFA_ISSUER : string;
  rate_limits : RateLimitConfig;
}.

Record auth_world (St : Type) := {
  auth_limiter : RateLimiter St;
  api_keys : list ApiKeyRow;
  operator_sessions : list OperatorSessionRow;
  auth_trail : list auth_note;
  touched : list string;                  (* last-active touches scheduled *)
  auth_now : Q;
  auth_mono : Q;
  auth_drawn : nat;                       (* random values drawn *)
}.
Arguments auth_limiter {St}. Arguments api_keys {St}. Arguments operator_sessions {St}. Arguments auth_trail {St}.
Arguments touched {St}. Arguments auth_now {St}. Arguments auth_mono {St}. Arguments auth_drawn {St}.

Inductive auth_exc :=
| HTTPError (code : Z) (detail : string)
| BadUUID                                 (* ValueError of UUID(...) *)
| KeyIntegrityError                       (* a unique constraint of the database *)
| BadSecret                               (* a stored secret that is not Base32 *).

Record auth_request := {
  header_key : option string;             (* the header named by API_KEY_HEADER *)
  header_authorization : string;
  header_mfa : string;                    (* X-MFA-Proof *)
}.

Section auth.
Context {St : Type} `{RedisKV St _Bucket}.
Context (settings : AuthSettings).
(** SHA-256 and HMAC-SHA256 in hexadecimal, HMAC-SHA1 in bytes. *)
Context (sha256 : string -> string) (hmac_sha256 : string -> string -> string) (hmac_sha1 : list Z -> Z -> list Z).
(** The [n]-th value drawn: [uuid4], [token_hex(24)] and [token_bytes(20)]. *)
Context (uuid4 token_hex : nat -> string) (token_bytes : nat -> list Z).
(** Fernet under the master key; [None]: the key is missing, or was changed. *)
Context (encrypt_secret decrypt_secret : string -> option string).
(** [str] of a float. *)
Context (float_text : Q -> string).

Abbreviation world := (auth_world St).
Abbreviation auth A := (io world auth_exc A).

Definition with_limiter (l : RateLimiter St) (w : world) : world := {|
  auth_limiter := l; api_keys := api_keys w; operator_sessions := operator_sessions w; auth_trail := auth_trail w;
  touched := touched w; auth_now := auth_now w; auth_mono := auth_mono w; auth_drawn := auth_drawn w |}.
Definition with_keys (l : list ApiKeyRow) (w : world) : world := {|
  auth_limiter := auth_limiter w; api_keys := l; operator_sessions := operator_sessions w; auth_trail := auth_trail w;
  touched := touched w; auth_now := auth_now w; auth_mono := auth_mono w; auth_drawn := auth_drawn w |}.
Definition with_sessions (l : list OperatorSessionRow) (w : world) : world := {|
  auth_limiter := auth_limiter w; api_keys := api_keys w; operator_sessions := l; auth_trail := auth_trail w;
  touched := touched w; auth_now := auth_now w; auth_mono := auth_mono w; auth_drawn := auth_drawn w |}.
Definition with_trail (l : list auth_note) (w : world) : world := {|
  auth_limiter := auth_limiter w; api_keys := api_keys w; operator_sessions := operator_sessions w; auth_trail := l;
  touched := touched w; auth_now := auth_now w; auth_mono := auth_mono w; auth_drawn := auth_drawn w |}.
Definition with_touched (l : list string) (w : world) : world := {|
  auth_limiter := auth_limiter w; api_keys := api_keys w; operator_sessions := operator_sessions w;
  auth_trail := auth_trail w; touched := l; auth_now := auth_now w; auth_mono := auth_mono w;
  auth_drawn := auth_drawn w |}.
Definition with_drawn (n : nat) (w : world) : world := {|
  auth_limiter := auth_limiter w; api_keys := api_keys w; operator_sessions := operator_sessions w;
  auth_trail := auth_trail w; touched := touched w; auth_now := auth_now w; auth_mono := auth_mono w;
  auth_drawn := n |}.

Definition draw {A} (f : nat -> A) : auth A := fun w => (Ret (f (auth_drawn w)), with_drawn (S (auth_drawn w)) w).

Definition note (action resource : string) (id tenant actor : option string) (details : list (string * json)) :
    auth unit :=
  modify (fun w => with_trail (auth_trail w ++ [{| note_action := action; note_resource := resource;
    note_resource_id := id; note_tenant := tenant; note_actor := actor; note_details := details |}]) w).

(** ** Repositories *)

Definition has_hash (h : string) (r : ApiKeyRow) : bool := bool_decide (ak_hash r = h).
Definition is_key (id : string) (r : ApiKeyRow) : bool := bool_decide (ak_id r = id).

Definition key_by_hash (h : string) (l : list ApiKeyRow) : option ApiKeyRow := List.find (has_hash h) l.
Definition key_by_id (id : string) (l : list ApiKeyRow) : option ApiKeyRow := List.find (is_key id) l.

(** Assigns to the rows of a filter; the number of rows. *)
Definition update_keys (p : ApiKeyRow -> bool) (f : ApiKeyRow -> ApiKeyRow) : auth Z := fun w =>
  (Ret (Z.of_nat (length (List.filter p (api_keys w)))),
   with_keys (map (fun r => if p r then f r else r) (api_keys w)) w).

(** [ApiKeyRepository.create]: the id and the hash are unique. *)
Definition key_create (name key_hash prefix role : string) (tenant : option string) (scopes : list string)
    (expires_at : option Q) : auth ApiKeyRow :=
  id ← draw uuid4;
  w ← get_st;
  let r := {| ak_id := id; ak_name := name; ak_hash := key_hash; ak_prefix := prefix; ak_role := role;
              ak_tenant_id := tenant; ak_scopes := scopes; ak_expires_at := expires_at; ak_revoked := false;
              ak_last_used_at := None; ak_usage_count := 0; ak_mfa_secret := None; ak_mfa_enabled := false;
              ak_created_at := auth_now w |} in
  if existsb (fun r' => is_key id r' || has_hash key_hash r') (api_keys w) then throw KeyIntegrityError
  else _ ← modify (with_keys (api_keys w ++ [r])); mret r.

Definition get_by_hash (h : string) : auth (option ApiKeyRow) := fun w => (Ret (key_by_hash h (api_keys w)), w).
Definition get_by_id (id : string) : auth (option ApiKeyRow) := fun w => (Ret (key_by_id id (api_keys w)), w).

Definition update_mfa (id : string) (secret : option string) (enabled : bool) : auth bool :=
  n ← update_keys (is_key id) (set_mfa secret enabled); mret (0 <? n).

(** Newest first; rows are stored in the order of their creation. *)
Definition key_list_all : auth (list ApiKeyRow) := fun w => (Ret (rev (api_keys w)), w).

Definition key_revoke (id : string) : auth bool := n ← update_keys (is_key id) set_revoked; mret (0 <? n).

Definition revoke_all_for_tenant (tenant : string) : auth Z :=
  update_keys (fun r => bool_decide (ak_tenant_id r = Some tenant) && negb (ak_revoked r)) set_revoked.

Definition touch_usage (id : string) : auth unit := fun w =>
  (update_keys (is_key id) (add_usage 1 (auth_now w)) ;; mret tt) w.

(** One transaction: [fromisoformat] of a malformed instant rolls it back,
    which is the caller's concern; the entries carry instants. *)
Definition apply_last_active_batch (entries : list (string * Z * Q)) : auth Z :=
  _ ← for_each (fun '(id, delta, at_) =>
        _ ← update_keys (fun r => is_key id r && negb (ak_revoked r)) (add_usage delta at_); mret tt) entries;
  mret (Z.of_nat (length entries)).

Definition count_active : auth Z := fun w =>
  (Ret (Z.of_nat (length (List.filter (fun r => negb (ak_revoked r)) (api_keys w)))), w).

(** [OperatorSessionRepository.create]: the raw token and its row. *)
Definition session_create (name role : string) (tenant : option string) (scopes : option (list string))
    (idp_sub : option string) (auth_method : string) (ttl_seconds : option Q) : auth (string * OperatorSessionRow) :=
  raw ← draw (fun n => OPERATOR_TOKEN_PREFIX +:+ token_hex n);
  id ← draw uuid4;
  w ← get_st;
  let ttl := match ttl_seconds with
             | Some t => if Qeq_bool t 0 then OPERATOR_SESSION_TTL_SECONDS settings else t
             | None => OPERATOR_SESSION_TTL_SECONDS settings
             end in
  let r := {| os_id := id; os_token_hash := sha256 raw; os_name := name; os_role := role; os_tenant_id := tenant;
              os_scopes := match scopes with Some (s :: l) => s :: l | _ => ["*"%string] end; os_idp_sub := idp_sub;
              os_auth_method := auth_method; os_expires_at := (auth_now w + ttl)%Q; os_revoked_at := None;
              os_created_at := auth_now w |} in
  if existsb (fun r' => bool_decide (os_id r' = id) || bool_decide (os_token_hash r' = sha256 raw)) (operator_sessions w)
  then throw KeyIntegrityError
  else _ ← modify (with_sessions (operator_sessions w ++ [r])); mret (raw, r).

Definition session_by_hash (h : string) (l : list OperatorSessionRow) : option OperatorSessionRow :=
  List.find (fun r => bool_decide (os_token_hash r = h)) l.

Definition revoke_session_row (at_ : Q) (r : OperatorSessionRow) : OperatorSessionRow := {|
  os_id := os_id r; os_token_hash := os_token_hash r; os_name := os_name r; os_role := os_role r;
  os_tenant_id := os_tenant_id r; os_scopes := os_scopes r; os_idp_sub := os_idp_sub r;
  os_auth_method := os_auth_method r; os_expires_at := os_expires_at r; os_revoked_at := Some at_;
  os_created_at := os_created_at r |}.

Definition session_revoke (id : string) : auth bool := fun w =>
  (Ret (existsb (fun r => bool_decide (os_id r = id)) (operator_sessions w)),
   with_sessions (map (fun r => if bool_decide (os_id r = id) then revoke_session_row (auth_now w) r else r)
                    (operator_sessions w)) w).

Definition session_list_active (limit : nat) : auth (list OperatorSessionRow) := fun w =>
  (Ret (firstn limit (List.filter (fun r => match os_revoked_at r with None => true | _ => false end)
          (rev (operator_sessions w)))), w).

(** ** The dependencies *)

Definition hash_api_key (k : string) : string := sha256 k.

(** The raw key, the prefix that is shown, and the hash. *)
Definition generate_api_key : auth (string * string * string) :=
  raw ← draw (fun n => KEY_PREFIX +:+ token_hex n);
  mret (raw, String.substring 0 (String.length KEY_PREFIX + 8) raw, hash_api_key raw).

Definition rate_text (e : rate_exc) : string :=
  let '(RateLimitExceeded k limit reset) := e in
  "Rate limit exceeded for '" +:+ k +:+ "': " +:+ pretty (py_int limit) +:+ " per window, resets at "
  +:+ float_text reset.

(** [_rate_limiter.acquire_or_raise(key)], as a 429. *)
Definition limited (key : string) : auth unit := fun w =>
  let t := {| now_ms := Qfloor (auth_now w * 1000); mono := auth_mono w |} in
  match acquire_or_raise (rate_limits settings) t key 1 (auth_limiter w) with
  | (Ret _, l) => (Ret tt, with_limiter l w)
  | (Raise e, l) => (Raise (HTTPError 429 (rate_text e)), with_limiter l w)
  end.

Definition principal_tenant (tenant : option string) : auth (option string) :=
  match tenant with
  | Some t => if truthy t then match uuid_of_string t with Some u => mret (Some u) | None => throw BadUUID end
              else mret None
  | None => mret None
  end.

Definition BEARER : string := "Bearer ".

Definition operator_principal (r : OperatorSessionRow) : auth ApiKeyPrincipal :=
  tenant ← principal_tenant (os_tenant_id r);
  mret {| key_id := os_id r; pr_name := os_name r; pr_role := os_role r; pr_tenant_id := tenant;
          pr_scopes := os_scopes r |}.

Definition _resolve_operator_session (rq : auth_request) : auth (option ApiKeyPrincipal) :=
  let a := header_authorization rq in
  if negb (String.prefix BEARER a) then mret None
  else
    let token := strip (String.substring (String.length BEARER) (String.length a) a) in
    if negb (String.prefix OPERATOR_TOKEN_PREFIX token) then mret None
    else
      let h := hash_api_key token in
      _ ← limited h;
      w ← get_st;
      match session_by_hash h (operator_sessions w) with
      | None => throw (HTTPError 401 "Invalid operator session")
      | Some r =>
          match os_revoked_at r with
          | Some _ => throw (HTTPError 401 "Operator session revoked")
          | None => if (os_expires_at r <?q auth_now w)%Q then throw (HTTPError 401 "Operator session expired")
                    else p ← operator_principal r; mret (Some p)
          end
      end.

Definition development : ApiKeyPrincipal := {|
  key_id := "dev"; pr_name := "development"; pr_role := ROLE_SUPER_ADMIN; pr_tenant_id := None;
  pr_scopes := ["*"%string] |}.

Definition auth_failure (id : option string) (reason : string) : auth unit :=
  note "auth.failure" "api_key" id None id [("reason", JStr reason)].

Definition key_principal (r : ApiKeyRow) : auth ApiKeyPrincipal :=
  tenant ← principal_tenant (ak_tenant_id r);
  mret {| key_id := ak_id r; pr_name := ak_name r; pr_role := ak_role r; pr_tenant_id := tenant;
          pr_scopes := ak_scopes r |}.

Definition expired (now : Q) (t : option Q) : bool := match t with Some t => (t <?q now)%Q | None => false end.

Definition get_principal (rq : auth_request) : auth ApiKeyPrincipal :=
  if negb (AUTH_ENABLED settings) then mret development
  else if negb (truthy_opt (header_key rq)) then
    operator ← _resolve_operator_session rq;
    match operator with
    | Some p => mret p
    | None => throw (HTTPError 401 ("Missing " +:+ API_KEY_HEADER settings +:+ " header"))
    end
  else
    let h := hash_api_key (default EmptyString (header_key rq)) in
    _ ← limited h;
    record ← get_by_hash h;
    match record with
    | None => _ ← auth_failure None "unknown_key"; throw (HTTPError 401 "Invalid API key")
    | Some r =>
        w ← get_st;
        if ak_revoked r then _ ← auth_failure (Some (ak_id r)) "revoked"; throw (HTTPError 401 "API key revoked")
        else if expired (auth_now w) (ak_expires_at r) then
          _ ← auth_failure (Some (ak_id r)) "expired"; throw (HTTPError 401 "API key expired")
        else
          _ ← modify (fun w => with_touched (touched w ++ [ak_id r]) w);
          key_principal r
    end.

Definition permitted (permission : string) (p : ApiKeyPrincipal) : auth unit :=
  if has_permission permission p then mret tt
  else throw (HTTPError 403 ("Role '" +:+ pr_role p +:+ "' lacks permission '" +:+ permission +:+ "'")).

Definition require_permission (permission : string) (rq : auth_request) : auth ApiKeyPrincipal :=
  p ← get_principal rq; _ ← permitted permission p; mret p.

Definition require_operator (rq : auth_request) : auth ApiKeyPrincipal :=
  p ← get_principal rq;
  if bool_decide (pr_role p ∈ [ROLE_SUPER_ADMIN; ROLE_TENANT_ADMIN; ROLE_OPERATOR]) then mret p
  else throw (HTTPError 403 ("Role '" +:+ pr_role p +:+ "' cannot access operator surfaces")).

(** ** Proofs of the second factor *)

(** [int(expires_at.timestamp())] *)
Definition sign_mfa_proof (key : string) (expires_at : Q) : string :=
  let e := pretty (py_int expires_at) in
  key +:+ "." +:+ e +:+ "." +:+ hmac_sha256 (MFA_SIGNING_KEY settings) (key +:+ "|" +:+ e).

(** The years 1 to 9999, outside of which [fromtimestamp] raises. *)
Definition in_calendar (t : Z) : bool := (-62135596800 <=? t) && (t <=? 253402300799).

Definition verify_mfa_proof (now : Q) (proof key : string) : bool :=
  match split_on "." proof with
  | [claimed; exp_part; _] =>
      if negb (bool_decide (claimed = key)) then false
      else match int_of_string exp_part with
           | None => false
           | Some e =>
               in_calendar e
               && ((now <=?q inject_Z e) && (inject_Z e <=?q now + MFA_PROOF_TTL_SECONDS settings)%Q)
               && bool_decide (sign_mfa_proof key (inject_Z e) = proof)
           end
  | _ => false
  end.

Definition mfa_gate (rq : auth_request) (p : ApiKeyPrincipal) : auth unit :=
  record ← get_by_id (key_id p);
  match record with
  | None => mret tt
  | Some r =>
      w ← get_st;
      if negb (ak_mfa_enabled r) then mret tt
      else if negb (truthy (header_mfa rq)) then throw (HTTPError 403 "mfa_required")
      else if negb (verify_mfa_proof (auth_now w) (header_mfa rq) (key_id p)) then throw (HTTPError 403 "mfa_required")
      else mret tt
  end.

Definition require_mfa_proof (rq : auth_request) : auth ApiKeyPrincipal :=
  p ← get_principal rq; _ ← mfa_gate rq p; mret p.

(** Both dependencies on one request, which share one [get_principal]. *)
Definition privileged (permission : string) (rq : auth_request) : auth ApiKeyPrincipal :=
  p ← get_principal rq; _ ← permitted permission p; _ ← mfa_gate rq p; mret p.

(** ** Enrolling (operator_auth.py) *)

Definition mfa_status (rq : auth_request) : auth (bool * bool) :=
  p ← get_principal rq;
  record ← get_by_id (key_id p);
  match record with
  | None => mret (false, true)
  | Some r => mret (ak_mfa_enabled r, false)
  end.

Definition mfa_setup (rq : auth_request) : auth string :=
  p ← require_operator rq;
  record ← get_by_id (key_id p);
  match record with
  | None => throw (HTTPError 400 "MFA is managed by the identity provider for this session")
  | Some _ =>
      secret ← draw (fun n => generate_secret (token_bytes n));
      match encrypt_secret secret with
      | None => throw (HTTPError 503 "Secret encryption unavailable (master key not provisioned)")
      | Some e => _ ← update_mfa (key_id p) (Some e) false; mret secret
      end
  end.

Definition bad_totp : auth_exc := HTTPError 403 "Invalid TOTP code".

(** Decrypts the stored secret and checks a code against it. *)
Definition check_code (encrypted code : string) : auth unit :=
  w ← get_st;
  match decrypt_secret encrypted with
  | None => throw (HTTPError 500 "Stored MFA secret cannot be decrypted (master key rotated?)")
  | Some secret =>
      match verify_totp hmac_sha1 secret code (auth_now w) with
      | None => throw BadSecret
      | Some false => throw bad_totp
      | Some true => mret tt
      end
  end.

Definition mfa_confirm (rq : auth_request) (code : string) : auth unit :=
  p ← require_operator rq;
  record ← get_by_id (key_id p);
  match record ≫= ak_mfa_secret with
  | None => throw (HTTPError 400 "No pending MFA enrollment; call /auth/mfa/setup first")
  | Some e =>
      if negb (truthy e) then throw (HTTPError 400 "No pending MFA enrollment; call /auth/mfa/setup first")
      else
        _ ← check_code e code;
        _ ← update_mfa (key_id p) (Some e) true;
        note "mfa.enabled" "api_key" (Some (key_id p)) None (Some (key_id p)) []
  end.

(** The proof and its expiry. *)
Definition mfa_proof (rq : auth_request) (code : string) : auth (string * Q) :=
  p ← require_operator rq;
  record ← get_by_id (key_id p);
  let refused := HTTPError 400 "MFA is not enabled for this key" in
  match record with
  | None => throw refused
  | Some r =>
      match ak_mfa_secret r with
      | None => throw refused
      | Some e =>
          if negb (truthy e) || negb (ak_mfa_enabled r) then throw refused
          else
            _ ← check_code e code;
            w ← get_st;
            let expires := (auth_now w + MFA_PROOF_TTL_SECONDS settings)%Q in
            mret (sign_mfa_proof (key_id p) expires, expires)
      end
  end.

Definition mfa_disable (rq : auth_request) : auth unit :=
  p ← require_operator rq;
  record ← get_by_id (key_id p);
  let enabled := match record with Some r => ak_mfa_enabled r | None => false end in
  if negb enabled then _ ← update_mfa (key_id p) None false; mret tt
  else
    w ← get_st;
    if negb (truthy (header_mfa rq)) || negb (verify_mfa_proof (auth_now w) (header_mfa rq) (key_id p))
    then throw (HTTPError 403 "mfa_required")
    else
      _ ← update_mfa (key_id p) None false;
      note "mfa.disabled" "api_key" (Some (key_id p)) None (Some (key_id p)) [].

(** ** Managing keys (conversations.py) *)

Record ApiKeyCreateRequest := {
  cr_name : string;
  cr_role : string;
  cr_tenant_id : option string;
  cr_expires_at : option Q;
}.

(** The tenant a key may be created for, by whom. *)
Definition effective_tenant (p : ApiKeyPrincipal) (r : ApiKeyCreateRequest) : auth (option string) :=
  match pr_tenant_id p with
  | None => mret (cr_tenant_id r)
  | Some t =>
      if match cr_tenant_id r with Some t' => negb (bool_decide (t' = t)) | None => false end
      then throw (HTTPError 403 "Delegated admin can only create keys for their own tenant")
      else if bool_decide (cr_role r = ROLE_SUPER_ADMIN)
      then throw (HTTPError 403 "Delegated admin cannot create super_admin keys")
      else mret (Some t)
  end.

(** The route for an authorized principal: the raw key, shown once, and the row. *)
Definition create_key_as (p : ApiKeyPrincipal) (r : ApiKeyCreateRequest) : auth (string * ApiKeyRow) :=
  if negb (bool_decide (cr_role r ∈ ALL_ROLES))
  then throw (HTTPError 422 "role must be one of: super_admin, tenant_admin, operator, auditor")
  else
    tenant ← effective_tenant p r;
    k ← generate_api_key;
    let '(raw, prefix, h) := k in
    row ← key_create (cr_name r) h prefix (cr_role r) tenant [] (cr_expires_at r);
    _ ← note "api_key.created" "api_key" (Some (ak_id row)) (ak_tenant_id row) (Some (key_id p))
          [("name", JStr (cr_name r)); ("role", JStr (cr_role r))];
    mret (raw, row).

Definition create_api_key (rq : auth_request) (r : ApiKeyCreateRequest) : auth (string * ApiKeyRow) :=
  p ← privileged "api_keys:manage" rq;
  create_key_as p r.

Definition list_api_keys (rq : auth_request) : auth (list ApiKeyRow) :=
  p ← require_permission "api_keys:manage" rq;
  rows ← key_list_all;
  match pr_tenant_id p with
  | Some t => mret (List.filter (fun r => bool_decide (ak_tenant_id r = Some t)) rows)
  | None => mret rows
  end.

Definition key_not_found (id : string) : auth_exc := HTTPError 404 ("API key not found: " +:+ id).

Definition revoke_key_as (p : ApiKeyPrincipal) (id : string) : auth unit :=
  rows ← key_list_all;
  match key_by_id id rows with
  | None => throw (key_not_found id)
  | Some target =>
      if match pr_tenant_id p with
         | Some t => negb (bool_decide (ak_tenant_id target = Some t))
         | None => false
         end
      then throw (HTTPError 403 "Delegated admin can only revoke keys of their own tenant")
      else
        revoked ← key_revoke id;
        if negb revoked then throw (key_not_found id)
        else note "api_key.revoked" "api_key" (Some id) None (Some (key_id p)) []
  end.

Definition revoke_api_key (rq : auth_request) (id : string) : auth unit :=
  p ← privileged "api_keys:manage" rq;
  revoke_key_as p id.
End auth.

(** ** Tenant scoping *)

(** What a route passes for the tenant of a request: its parameter is
    declared [UUID] or [str]. *)
Inductive tenant_arg := AsUUID (t : string) | AsText (t : string).

(** [principal.tenant_id is None or principal.tenant_id == tenant_id]: a UUID
    never equals a text. *)
Definition tenant_allowed (p : ApiKeyPrincipal) (a : tenant_arg) : bool :=
  match pr_tenant_id p, a with
  | None, _ => true
  | Some t, AsUUID t' => bool_decide (t = t')
  | Some _, AsText _ => false
  end.

Definition other_tenant : auth_exc := HTTPError 403 "API key is scoped to a different tenant".

Definition assert_tenant_access {S} (p : ApiKeyPrincipal) (a : tenant_arg) : io S auth_exc unit :=
  if tenant_allowed p a then mret tt else throw other_tenant.
