(* ===== verification/AuthProps.v ===== *)
(** * What authentication guarantees

    Theorems about Auth.v over any sequence of its operations: who is let in,
    that a revoked key stays out, what an administrator of one tenant can
    reach, and what the second factor is worth. *)

From S2P Require Import Prelude Text Json Redis RateLimiter Totp Auth.

Section props.
Context {St : Type} {HR : RedisKV St _Bucket}.
Context (settings : AuthSettings).
Context (sha256 : string -> string) (hmac_sha256 : string -> string -> string) (hmac_sha1 : list Z -> Z -> list Z).
Context (uuid4 token_hex : nat -> string) (token_bytes : nat -> list Z).
Context (encrypt_secret decrypt_secret : string -> option string) (float_text : Q -> string).

Abbreviation world := (auth_world St).
Abbreviation auth A := (io world auth_exc A).
Abbreviation get_principal := (get_principal settings sha256 float_text (St := St)).
Abbreviation require_operator := (require_operator settings sha256 float_text (St := St)).
Abbreviation privileged := (privileged settings sha256 hmac_sha256 float_text (St := St)).
Abbreviation create_key_as := (create_key_as sha256 uuid4 token_hex (St := St)).
Abbreviation create_api_key := (create_api_key settings sha256 hmac_sha256 uuid4 token_hex float_text (St := St)).
Abbreviation revoke_api_key := (revoke_api_key settings sha256 hmac_sha256 float_text (St := St)).
Abbreviation mfa_setup := (mfa_setup settings sha256 token_bytes encrypt_secret float_text (St := St)).
Abbreviation mfa_confirm := (mfa_confirm settings sha256 hmac_sha1 decrypt_secret float_text (St := St)).
Abbreviation mfa_proof := (mfa_proof settings sha256 hmac_sha256 hmac_sha1 decrypt_secret float_text (St := St)).
Abbreviation mfa_disable := (mfa_disable settings sha256 hmac_sha256 float_text (St := St)).
Abbreviation session_create := (session_create settings sha256 uuid4 token_hex (St := St)).

(** ** What a computation does to the keys *)

(** Keys are only ever added, and what is stored of one only changes in its
    counters, its second factor and, for good, its revocation. *)
Definition grows (r r' : ApiKeyRow) : Prop :=
  ak_id r' = ak_id r /\ ak_hash r' = ak_hash r /\ ak_role r' = ak_role r /\ ak_tenant_id r' = ak_tenant_id r /\
  ak_scopes r' = ak_scopes r /\ ak_expires_at r' = ak_expires_at r /\ (ak_revoked r = true -> ak_revoked r' = true).

Definition keys_grow (l l' : list ApiKeyRow) : Prop :=
  exists old added, l' = old ++ added /\ Forall2 grows l old /\ (NoDup (map ak_hash l) -> NoDup (map ak_hash l')).

#[export] Instance grows_refl : Reflexive grows.
Proof. intros r. by split_and!. Qed.
#[export] Instance grows_trans : Transitive grows.
Proof. intros a b c Hab Hbc. unfold grows in *. destruct_and!. split_and!; try congruence; eauto. Qed.

#[export] Instance keys_grow_refl : Reflexive keys_grow.
Proof. intros l. exists l, []. rewrite app_nil_r. split_and!; [done|reflexivity|done]. Qed.

#[export] Instance keys_grow_trans : Transitive keys_grow.
Proof.
  intros l1 l2 l3 (o2 & a2 & -> & H12 & N12) (o3 & a3 & -> & H23 & N23).
  apply Forall2_app_inv_l in H23 as (o & a & Ho & Ha & ->). exists o, (a ++ a3).
  rewrite app_assoc. split_and!; [done| |by auto]. by etrans.
Qed.

(** [grow c]: however [c] ends, the keys have grown. *)
Definition grow {A} (c : auth A) : Prop := forall w, keys_grow (api_keys w) (api_keys (c w).2).
Definition keeps {A} (c : auth A) : Prop := forall w, api_keys (c w).2 = api_keys w.

Lemma keeps_grow {A} (c : auth A) : keeps c -> grow c.
Proof. intros Hc w. by rewrite Hc. Qed.

Lemma grow_bind {A B} (c : auth A) (f : A -> auth B) : grow c -> (forall a, grow (f a)) -> grow (c ≫= f).
Proof.
  intros Hc Hf w. specialize (Hc w). unfold mbind, io_bind. destruct (c w) as [[a|e] w']; [|exact Hc].
  etrans; [exact Hc|apply Hf].
Qed.

Lemma keeps_bind {A B} (c : auth A) (f : A -> auth B) : keeps c -> (forall a, keeps (f a)) -> keeps (c ≫= f).
Proof.
  intros Hc Hf w. specialize (Hc w). unfold mbind, io_bind. destruct (c w) as [[a|e] w']; [|exact Hc].
  by rewrite Hf.
Qed.

Lemma keeps_ret {A} (a : A) : keeps (mret a). Proof. done. Qed.
Lemma keeps_throw {A} e : keeps (throw e : auth A). Proof. done. Qed.
Lemma keeps_get : keeps get_st. Proof. done. Qed.
Lemma keeps_modify f : (forall w, api_keys (f w) = api_keys w) -> keeps (modify f). Proof. intros Hf w. apply Hf. Qed.
Lemma keeps_draw {A} (f : nat -> A) : keeps (draw f). Proof. done. Qed.
Lemma keeps_note a b c d e f : keeps (note a b c d e f). Proof. done. Qed.
Lemma keeps_limited k : keeps (limited settings float_text k).
Proof. intros w. unfold limited. destruct (acquire_or_raise _ _ _ _ _) as [[?|?] ?]; reflexivity. Qed.

Hint Resolve keeps_ret keeps_throw keeps_get keeps_draw keeps_note keeps_limited keeps_bind keeps_grow grow_bind : auth.

(** Walks through a computation whose steps the database knows. *)
Ltac walk :=
  repeat match goal with
  | |- keeps (_ ≫= _) => apply keeps_bind; [|intros ?]
  | |- grow (_ ≫= _) => apply grow_bind; [|intros ?]
  | |- context [match ?x with _ => _ end] => destruct x
  | |- keeps (modify _) => apply keeps_modify; done
  end; auto with auth.

Lemma keeps_principal_tenant t : keeps (principal_tenant t).
Proof. unfold principal_tenant. walk. Qed.
Lemma keeps_operator_principal r : keeps (operator_principal r).
Proof. unfold operator_principal. walk. apply keeps_principal_tenant. Qed.
Lemma keeps_key_principal r : keeps (key_principal r).
Proof. unfold key_principal. walk. apply keeps_principal_tenant. Qed.
Lemma keeps_by_hash h : keeps (get_by_hash h). Proof. done. Qed.
Lemma keeps_by_id i : keeps (get_by_id i). Proof. done. Qed.
Lemma keeps_list : keeps key_list_all. Proof. done. Qed.
Lemma keeps_failure i s : keeps (auth_failure i s). Proof. done. Qed.
Lemma keeps_permitted a p : keeps (permitted a p). Proof. unfold permitted. walk. Qed.
Hint Resolve keeps_principal_tenant keeps_operator_principal keeps_key_principal keeps_by_hash keeps_by_id keeps_list
  keeps_failure keeps_permitted : auth.

Lemma keeps_resolve rq : keeps (_resolve_operator_session settings sha256 float_text rq).
Proof. unfold _resolve_operator_session. walk. Qed.
Hint Resolve keeps_resolve : auth.

(** Authenticating a request changes no key. *)
Lemma keeps_get_principal rq : keeps (get_principal rq).
Proof. unfold Auth.get_principal. walk. Qed.
Lemma keeps_mfa_gate rq p : keeps (mfa_gate settings hmac_sha256 rq p).
Proof. unfold mfa_gate. walk. Qed.
Hint Resolve keeps_get_principal keeps_mfa_gate : auth.
Lemma keeps_require_operator rq : keeps (require_operator rq).
Proof. unfold Auth.require_operator. walk. Qed.
Lemma keeps_privileged a rq : keeps (privileged a rq).
Proof. unfold Auth.privileged. walk. Qed.
Lemma keeps_check_code e c : keeps (check_code hmac_sha1 decrypt_secret e c (St := St)).
Proof. unfold check_code. walk. Qed.
Hint Resolve keeps_require_operator keeps_privileged keeps_check_code : auth.

Lemma grow_update p f : (forall r, grows r (f r)) -> grow (update_keys p f).
Proof.
  intros Hf w. assert (forall r, grows r (if p r then f r else r)) as Hg by (intros r; destruct (p r); [apply Hf|reflexivity]).
  unfold update_keys. cbn. exists (map (fun r => if p r then f r else r) (api_keys w)), [].
  rewrite app_nil_r. split_and!; [done| |].
  - apply Forall2_fmap_r, Forall_Forall2_diag, Forall_true. exact Hg.
  - rewrite map_map. intros Hn. replace (map _ (api_keys w)) with (map ak_hash (api_keys w)); [done|].
    apply map_ext. intros r. by destruct (Hg r) as (_ & -> & _).
Qed.

Lemma grows_revoked r : grows r (set_revoked r). Proof. by split_and!. Qed.
Lemma grows_mfa s b r : grows r (set_mfa s b r). Proof. by split_and!. Qed.
Lemma grows_usage d t r : grows r (add_usage d t r). Proof. by split_and!. Qed.
Hint Resolve grow_update grows_revoked grows_mfa grows_usage : auth.

Lemma grow_add r (w : world) :
  existsb (fun r' => is_key (ak_id r) r' || has_hash (ak_hash r) r') (api_keys w) = false ->
  keys_grow (api_keys w) (api_keys w ++ [r]).
Proof.
  intros Hex. exists (api_keys w), [r]. split_and!; [done|reflexivity|]. intros Hn. rewrite map_app. cbn.
  apply NoDup_app. split_and!; [done| |apply NoDup_singleton].
  intros h Hh ->%list_elem_of_singleton. apply list_elem_of_fmap in Hh as (r' & Hr' & Hin).
  assert (existsb (fun r' => is_key (ak_id r) r' || has_hash (ak_hash r) r') (api_keys w) = true); [|congruence].
  apply existsb_exists. exists r'. split; [by apply list_elem_of_In|]. unfold has_hash.
  rewrite (bool_decide_eq_true_2 (ak_hash r' = ak_hash r)) by done. apply orb_true_r.
Qed.

Lemma grow_create_row n h pre role t sc e : grow (key_create uuid4 n h pre role t sc e (St := St)).
Proof.
  intros w. unfold key_create, mbind, io_bind, draw, get_st. cbn.
  destruct (existsb _ (api_keys w)) eqn:Hex; [reflexivity|].
  cbv [modify mret io_ret]. cbn. by apply (grow_add _ w).
Qed.
Hint Resolve grow_create_row : auth.

Lemma grow_update_mfa id x b : grow (update_mfa id x b (St := St)).
Proof. unfold update_mfa. walk. Qed.
Lemma grow_revoke id : grow (key_revoke id (St := St)).
Proof. unfold key_revoke. walk. Qed.
Lemma grow_revoke_all t : grow (revoke_all_for_tenant t (St := St)).
Proof. unfold revoke_all_for_tenant. auto with auth. Qed.
Lemma grow_touch id : grow (touch_usage id (St := St)).
Proof. intros w. unfold touch_usage. apply (grow_bind (update_keys (is_key id) (add_usage 1 (auth_now w)))); auto with auth. Qed.
Lemma grow_batch l : grow (apply_last_active_batch l (St := St)).
Proof.
  unfold apply_last_active_batch. apply grow_bind; [|auto with auth].
  induction l as [|[[i d] t] l IH]; cbn [for_each]; walk.
Qed.
Hint Resolve grow_update_mfa grow_revoke grow_revoke_all grow_touch grow_batch : auth.

Lemma keeps_effective p r : keeps (effective_tenant p r (St := St)).
Proof. unfold effective_tenant. walk. Qed.
Lemma keeps_generate : keeps (generate_api_key sha256 token_hex (St := St)).
Proof. unfold generate_api_key. walk. Qed.
Hint Resolve keeps_effective keeps_generate : auth.
Lemma grow_create_as p r : grow (create_key_as p r).
Proof. unfold Auth.create_key_as. walk. Qed.
Lemma grow_revoke_as p id : grow (revoke_key_as p id (St := St)).
Proof. unfold revoke_key_as. walk. Qed.
Lemma keeps_session a b c d e f g : keeps (session_create a b c d e f g).
Proof. unfold Auth.session_create. walk. Qed.
Hint Resolve grow_create_as grow_revoke_as keeps_session : auth.

(** ** Operations *)

(** Everything the program does to this state, the passing of time and the
    fate of the limiter's connection. *)
Inductive auth_op :=
| Authenticate (rq : auth_request)
| CreateKey (rq : auth_request) (r : ApiKeyCreateRequest)
| RevokeKey (rq : auth_request) (id : string)
| RevokeTenant (tenant : string)
| Touch (id : string)
| FlushTouches (entries : list (string * Z * Q))
| SetupMfa (rq : auth_request)
| ConfirmMfa (rq : auth_request) (code : string)
| ProveMfa (rq : auth_request) (code : string)
| DisableMfa (rq : auth_request)
| MintSession (name role : string) (tenant : option string) (idp_sub : option string)
| RevokeSession (id : string)
| Pass (seconds : Q)
| Limiter (l : RateLimiter St).

Definition run_op (o : auth_op) (w : world) : world :=
  match o with
  | Authenticate rq => (get_principal rq w).2
  | CreateKey rq r => (create_api_key rq r w).2
  | RevokeKey rq id => (revoke_api_key rq id w).2
  | RevokeTenant t => (revoke_all_for_tenant t w).2
  | Touch id => (touch_usage id w).2
  | FlushTouches l => (apply_last_active_batch l w).2
  | SetupMfa rq => (mfa_setup rq w).2
  | ConfirmMfa rq c => (mfa_confirm rq c w).2
  | ProveMfa rq c => (mfa_proof rq c w).2
  | DisableMfa rq => (mfa_disable rq w).2
  | MintSession n r t i => (session_create n r t None i "oidc" None w).2
  | RevokeSession id => (session_revoke id w).2
  | Pass d => {| auth_limiter := auth_limiter w; api_keys := api_keys w; operator_sessions := operator_sessions w;
                 auth_trail := auth_trail w; touched := touched w; auth_now := (auth_now w + d)%Q;
                 auth_mono := (auth_mono w + d)%Q; auth_drawn := auth_drawn w |}
  | Limiter l => with_limiter l w
  end.

Definition run_ops (l : list auth_op) (w : world) : world := foldl (fun w o => run_op o w) w l.

Lemma run_op_grows o w : keys_grow (api_keys w) (api_keys (run_op o w)).
Proof.
  destruct o as [rq|rq r|rq id|t|id|l|rq|rq c|rq c|rq|n r t i|id|d|l]; cbn [run_op];
    try reflexivity; try (by apply keeps_grow; auto with auth); auto with auth.
  - assert (grow (create_api_key rq r)) as Hg; [|apply Hg]. unfold Auth.create_api_key. walk.
  - assert (grow (revoke_api_key rq id)) as Hg; [|apply Hg]. unfold Auth.revoke_api_key. walk.
  - by apply grow_revoke_all.
  - by apply grow_touch.
  - by apply grow_batch.
  - assert (grow (mfa_setup rq)) as Hg; [|apply Hg]. unfold Auth.mfa_setup. walk.
  - assert (grow (mfa_confirm rq c)) as Hg; [|apply Hg]. unfold Auth.mfa_confirm. walk.
  - assert (grow (mfa_proof rq c)) as Hg; [|apply Hg]. unfold Auth.mfa_proof. walk.
  - assert (grow (mfa_disable rq)) as Hg; [|apply Hg]. unfold Auth.mfa_disable. walk.
Qed.

Lemma run_ops_grow l : forall w, keys_grow (api_keys w) (api_keys (run_ops l w)).
Proof.
  induction l as [|o l IH]; intros w; [reflexivity|]. cbn. etrans; [apply run_op_grows|apply IH].
Qed.

(** ** Who is let in *)

(** The tenant of a principal, from the column of its row. *)
Definition bound_as (column : option string) (t : option string) : Prop :=
  match column with
  | Some s => if truthy s then exists u, uuid_of_string s = Some u /\ t = Some u else t = None
  | None => t = None
  end.

(** The token of an Authorization header. *)
Definition bearer (rq : auth_request) : option string :=
  let a := header_authorization rq in
  if String.prefix BEARER a then Some (strip (String.substring (String.length BEARER) (String.length a) a)) else None.

(** The credentials of a request, as the tables have them. *)
Inductive credential (w : world) (rq : auth_request) : ApiKeyPrincipal -> Prop :=
| by_key k r t :
    header_key rq = Some k -> truthy k = true -> r ∈ api_keys w -> ak_hash r = sha256 k -> ak_revoked r = false ->
    expired (auth_now w) (ak_expires_at r) = false -> bound_as (ak_tenant_id r) t ->
    credential w rq {| key_id := ak_id r; pr_name := ak_name r; pr_role := ak_role r; pr_tenant_id := t;
                       pr_scopes := ak_scopes r |}
| by_session token r t :
    truthy_opt (header_key rq) = false -> bearer rq = Some token -> String.prefix OPERATOR_TOKEN_PREFIX token = true ->
    r ∈ operator_sessions w -> os_token_hash r = sha256 token -> os_revoked_at r = None ->
    (auth_now w <= os_expires_at r)%Q -> bound_as (os_tenant_id r) t ->
    credential w rq {| key_id := os_id r; pr_name := os_name r; pr_role := os_role r; pr_tenant_id := t;
                       pr_scopes := os_scopes r |}.

Lemma principal_tenant_spec c (w : world) t :
  bound_as c t <-> principal_tenant c w = (Ret t, w).
Proof.
  unfold principal_tenant, bound_as. destruct c as [s|]; [destruct (truthy s)|].
  - destruct (uuid_of_string s) as [u|]; split; [intros (u' & [= <-] & ->)|intros [= <-]|intros (u' & [=] & _)|]; eauto; done.
  - split; [by intros ->|by intros [= <-]].
  - split; [by intros ->|by intros [= <-]].
Qed.

Lemma principal_tenant_state c (w : world) o w' : principal_tenant c w = (o, w') -> w' = w.
Proof. unfold principal_tenant. repeat case_match; intros [=]; congruence. Qed.

(** The limiter answers, and changes nothing the credentials are in. *)
Lemma limited_keeps k (w : world) o w' :
  limited settings float_text k w = (o, w') ->
  api_keys w' = api_keys w /\ operator_sessions w' = operator_sessions w /\ auth_now w' = auth_now w.
Proof. unfold limited. destruct (acquire_or_raise _ _ _ _ _) as [[?|?] ?]; intros [= <- <-]; done. Qed.

Lemma find_elem {A} (f : A -> bool) l x : List.find f l = Some x -> x ∈ l /\ f x = true.
Proof. intros H%List.find_some. by rewrite <- list_elem_of_In in H. Qed.

(** The row a unique column finds. *)
Lemma find_unique {A} (f : A -> string) h l x :
  NoDup (map f l) -> x ∈ l -> f x = h -> List.find (fun y => bool_decide (f y = h)) l = Some x.
Proof.
  intros Hn Hx Hf. induction l as [|y l IH]; [by apply elem_of_nil in Hx|]. cbn in *. apply NoDup_cons in Hn as [Hy Hn].
  apply elem_of_cons in Hx as [->|Hx]; [by rewrite bool_decide_eq_true_2|].
  rewrite bool_decide_eq_false_2; [by apply IH|]. intros Hyf. apply Hy. rewrite Hyf, <- Hf.
  apply list_elem_of_fmap. by exists x.
Qed.

Definition unique_hashes (w : world) : Prop :=
  NoDup (map ak_hash (api_keys w)) /\ NoDup (map os_token_hash (operator_sessions w)).

(** What a request with a key comes to, once the limiter let it pass. *)
Lemma key_route rq k (w : world) p w' :
  AUTH_ENABLED settings = true -> header_key rq = Some k -> truthy k = true ->
  get_principal rq w = (Ret p, w') ->
  exists w1 r, limited settings float_text (sha256 k) w = (Ret tt, w1) /\
    key_by_hash (sha256 k) (api_keys w) = Some r /\ ak_revoked r = false /\
    expired (auth_now w) (ak_expires_at r) = false /\ exists t, bound_as (ak_tenant_id r) t /\
    p = {| key_id := ak_id r; pr_name := ak_name r; pr_role := ak_role r; pr_tenant_id := t; pr_scopes := ak_scopes r |}.
Proof.
  intros Hen Hk Htk. unfold Auth.get_principal. rewrite Hen, Hk. cbn [negb truthy_opt default from_option id]. rewrite Htk. cbn [negb].
  unfold hash_api_key, mbind, io_bind at 1. destruct (limited _ _ _ w) as [[[]|?] w1] eqn:El; [|done].
  destruct (limited_keeps _ _ _ _ El) as (Hkeys & _ & Hnow).
  unfold get_by_hash, io_bind at 1. rewrite Hkeys. destruct (key_by_hash _ _) as [r|] eqn:Er; [|done].
  unfold get_st, io_bind at 1. rewrite Hnow.
  destruct (ak_revoked r) eqn:Erev; [done|]. destruct (expired _ _) eqn:Eexp; [done|].
  unfold modify, io_bind at 1, key_principal, mbind, io_bind. set (w2 := with_touched _ w1).
  destruct (principal_tenant (ak_tenant_id r) w2) as [[t|?] w3] eqn:Et; [|done]. intros [= <- <-].
  exists w1, r. split_and!; try done. exists t. split; [|done].
  pose proof (principal_tenant_state _ _ _ _ Et) as ->. by apply principal_tenant_spec in Et.
Qed.

Lemma session_route rq w p w' :
  AUTH_ENABLED settings = true -> truthy_opt (header_key rq) = false -> get_principal rq w = (Ret p, w') ->
  credential w rq p.
Proof.
  intros Hen Hk. unfold Auth.get_principal. rewrite Hen, Hk. cbn [negb].
  unfold mbind, io_bind at 1, _resolve_operator_session.
  destruct (String.prefix BEARER (header_authorization rq)) eqn:Eb; [|done]. cbn [negb].
  set (token := strip _). destruct (String.prefix OPERATOR_TOKEN_PREFIX token) eqn:Ep; [|done]. cbn [negb].
  unfold hash_api_key, mbind, io_bind at 1. destruct (limited _ _ _ w) as [[[]|?] w1] eqn:El; [|done].
  destruct (limited_keeps _ _ _ _ El) as (_ & Hss & Hnow).
  unfold get_st, io_bind at 1. rewrite Hss, Hnow. destruct (session_by_hash _ _) as [r|] eqn:Er; [|done].
  destruct (os_revoked_at r) eqn:Erev; [done|]. destruct (os_expires_at r <?q auth_now w)%Q eqn:Eexp; [done|].
  unfold io_bind at 1, operator_principal, mbind, io_bind.
  destruct (principal_tenant (os_tenant_id r) w1) as [[t|?] w2] eqn:Et; [|done]. intros [= <- <-].
  apply find_elem in Er as [Hin Hh]. apply bool_decide_eq_true in Hh.
  pose proof (principal_tenant_state _ _ _ _ Et) as ->. apply principal_tenant_spec in Et.
  apply (by_session w rq token); try done; [unfold bearer; by rewrite Eb|]. by apply Qltb_false.
Qed.

Lemma Forall2_partner {A B} (R : A -> B -> Prop) l l' x : Forall2 R l l' -> x ∈ l -> exists y, y ∈ l' /\ R x y.
Proof.
  induction 1 as [|a b l l' Hab _ IH]; [by intros ?%elem_of_nil|]. intros [->|Hx]%elem_of_cons.
  - exists b. split; [by left|done].
  - destruct (IH Hx) as (y & Hy & Hr). exists y. split; [by right|done].
Qed.

(** a request is let in exactly with credentials the tables hold: the hash of
    a key that is neither revoked nor expired, or of the bearer token of such
    an operator session, with the role, the scopes and the tenant of that
    row; and with them it is, if the rate limiter lets it pass. *)
Theorem let_in_spec rq w :
  AUTH_ENABLED settings = true -> unique_hashes w ->
  (forall p w', get_principal rq w = (Ret p, w') -> credential w rq p) /\
  (forall p, credential w rq p -> (forall h, exists w1, limited settings float_text h w = (Ret tt, w1)) ->
     exists w', get_principal rq w = (Ret p, w')).
Proof.
  intros Hen [Hnk Hns]. split.
  - intros p w' Hp. destruct (header_key rq) as [k|] eqn:Hk; [destruct (truthy k) eqn:Htk|].
    + destruct (key_route rq k w p w' Hen Hk Htk Hp) as (w1 & r & _ & Hr & Hrev & Hexp & t & Ht & ->).
      apply find_elem in Hr as [Hin Hh]. apply bool_decide_eq_true in Hh. by apply (by_key w rq k).
    + apply (session_route rq w p w'); [done| |done]. by rewrite Hk.
    + apply (session_route rq w p w'); [done| |done]. by rewrite Hk.
  - intros p Hc Hl. unfold Auth.get_principal. rewrite Hen. cbn [negb].
    destruct Hc as [k r t Hk Htk Hin Hh Hrev Hexp Ht|token r t Hk Hb Hpre Hin Hh Hrev Hexp Ht].
    + rewrite Hk. cbn [truthy_opt default from_option id]. rewrite Htk. cbn [negb].
      unfold hash_api_key, mbind, io_bind at 1. destruct (Hl (sha256 k)) as [w1 El]. rewrite El.
      destruct (limited_keeps _ _ _ _ El) as (Hkeys & _ & Hnow). unfold get_by_hash, io_bind at 1. rewrite Hkeys.
      unfold key_by_hash, has_hash. rewrite (find_unique ak_hash _ _ r) by done.
      unfold get_st, io_bind at 1. rewrite Hnow, Hrev, Hexp. unfold modify, io_bind at 1, key_principal, mbind, io_bind.
      rewrite (proj1 (principal_tenant_spec _ _ _) Ht). by eexists.
    + rewrite Hk. cbn [negb]. unfold mbind, io_bind at 1, _resolve_operator_session. unfold bearer in Hb.
      destruct (String.prefix BEARER (header_authorization rq)); [|done]. apply (f_equal (default EmptyString)) in Hb. cbn [default from_option id] in Hb. cbn [negb]. rewrite Hb, Hpre. cbn [negb].
      unfold hash_api_key, mbind, io_bind at 1. destruct (Hl (sha256 token)) as [w1 El]. rewrite El.
      destruct (limited_keeps _ _ _ _ El) as (_ & Hss & Hnow). unfold get_st, io_bind at 1. rewrite Hss, Hnow.
      unfold session_by_hash. rewrite (find_unique os_token_hash _ _ r) by done. rewrite Hrev.
      replace (os_expires_at r <?q auth_now w)%Q with false by (symmetry; by apply Qltb_false).
      unfold io_bind at 1, operator_principal, mbind, io_bind.
      rewrite (proj1 (principal_tenant_spec _ _ _) Ht). by eexists.
Qed.

(** C21: a revoked key never authenticates again, whatever the program does
    afterwards. *)
Theorem revoked_key_dead ops rq k r w :
  AUTH_ENABLED settings = true -> NoDup (map ak_hash (api_keys w)) -> r ∈ api_keys w -> ak_revoked r = true ->
  header_key rq = Some k -> truthy k = true -> sha256 k = ak_hash r ->
  exists e w', get_principal rq (run_ops ops w) = (Raise e, w').
Proof.
  intros Hen Hn Hin Hrev Hk Htk Hh. destruct (get_principal rq (run_ops ops w)) as [[p|e] w'] eqn:Hp; [|by eexists _, _].
  destruct (key_route rq k _ p w' Hen Hk Htk Hp) as (w1 & r2 & _ & Hr2 & Hrev2 & _).
  apply find_elem in Hr2 as [Hin2 Hh2]. apply bool_decide_eq_true in Hh2.
  destruct (run_ops_grow ops w) as (old & added & Hkeys & Hold & Hn'). specialize (Hn' Hn).
  destruct (Forall2_partner _ _ _ _ Hold Hin) as (r' & Hr' & Hgrows).
  destruct Hgrows as (_ & Hhash & _ & _ & _ & _ & Hgr). specialize (Hgr Hrev).
  assert (r' ∈ api_keys (run_ops ops w)) as Hin' by (rewrite Hkeys; apply elem_of_app; by left).
  pose proof (find_unique ak_hash (ak_hash r) _ r' Hn' Hin' Hhash) as E1.
  pose proof (find_unique ak_hash (ak_hash r) _ r2 Hn' Hin2 ltac:(congruence)) as E2. congruence.
Qed.

(** ** Delegated administration *)

Inductive admin_call :=
| Create (r : ApiKeyCreateRequest)
| Revoke (id : string).

Definition run_call (pc : ApiKeyPrincipal * admin_call) (w : world) : world :=
  match pc.2 with
  | Create r => (create_key_as pc.1 r w).2
  | Revoke id => (revoke_key_as pc.1 id w).2
  end.

(** What an administrator of the tenant [t] may have done to the keys. *)
Definition kept_or_revoked (t : string) (r r' : ApiKeyRow) : Prop :=
  r' = r \/ (ak_tenant_id r = Some t /\ r' = set_revoked r).
Definition minted (t : string) (r : ApiKeyRow) : Prop :=
  ak_tenant_id r = Some t /\ ak_role r <> ROLE_SUPER_ADMIN /\ ak_scopes r = [].
Definition confined (t : string) (l l' : list ApiKeyRow) : Prop :=
  exists old added, l' = old ++ added /\ Forall2 (kept_or_revoked t) l old /\ Forall (minted t) added.

Lemma kept_or_revoked_refl t l : Forall2 (kept_or_revoked t) l l.
Proof. apply Forall_Forall2_diag, Forall_true. intros r. by left. Qed.

Lemma confined_refl t l : confined t l l.
Proof. exists l, []. rewrite app_nil_r. split_and!; [done|apply kept_or_revoked_refl|constructor]. Qed.

Lemma confined_trans t l1 l2 l3 : confined t l1 l2 -> confined t l2 l3 -> confined t l1 l3.
Proof.
  intros (o2 & a2 & -> & H12 & M2) (o3 & a3 & -> & H23 & M3).
  apply Forall2_app_inv_l in H23 as (o & a & Ho & Ha & ->). exists o, (a ++ a3). rewrite app_assoc. split_and!; [done| |].
  - clear -H12 Ho. revert o Ho. induction H12 as [|x y l l' Hxy _ IH]; intros o Ho.
    + apply Forall2_nil_inv_l in Ho as ->. constructor.
    + apply Forall2_cons_inv_l in Ho as (z & o' & Hyz & Ho' & ->). constructor; [|by apply IH].
      destruct Hxy as [->|[Ht ->]], Hyz as [->|[Ht' ->]]; [by left|by right|by right|by right].
  - apply Forall_app. split; [|done]. clear -M2 Ha. induction Ha as [|x y l l' Hxy _ IH]; [constructor|].
    inversion M2; subst. constructor; [|by apply IH]. by destruct Hxy as [->|[_ ->]].
Qed.

Lemma create_confined t p r (w : world) :
  pr_tenant_id p = Some t -> confined t (api_keys w) (api_keys (create_key_as p r w).2).
Proof.
  intros Hp. unfold Auth.create_key_as. destruct (negb (bool_decide (cr_role r ∈ ALL_ROLES))); [apply confined_refl|].
  unfold mbind, io_bind at 1, effective_tenant. rewrite Hp.
  destruct (match cr_tenant_id r with Some _ => _ | None => _ end); [apply confined_refl|].
  case_bool_decide as Hrole; [apply confined_refl|]. cbn [mret io_ret].
  unfold generate_api_key, key_create, mbind, io_bind, draw, get_st, mret, io_ret. cbn.
  destruct (existsb _ (api_keys w)); [apply confined_refl|]. cbn.
  exists (api_keys w). eexists. split_and!; [reflexivity|apply kept_or_revoked_refl|].
  repeat constructor. done.
Qed.

Lemma revoke_confined t p id (w : world) :
  pr_tenant_id p = Some t -> NoDup (map ak_id (api_keys w)) ->
  confined t (api_keys w) (api_keys (revoke_key_as p id w).2).
Proof.
  intros Hp Hn. unfold revoke_key_as, mbind, io_bind at 1, key_list_all.
  destruct (key_by_id id (rev (api_keys w))) as [r|] eqn:Er; [|apply confined_refl]. rewrite Hp.
  destruct (negb (bool_decide (ak_tenant_id r = Some t))) eqn:Et; [apply confined_refl|].
  apply negb_false_iff, bool_decide_eq_true in Et. apply find_elem in Er as [Hin Hid].
  apply bool_decide_eq_true in Hid. apply list_elem_of_In, in_rev, list_elem_of_In in Hin.
  exists (map (fun r => if is_key id r then set_revoked r else r) (api_keys w)), []. rewrite app_nil_r.
  split_and!; [| |constructor].
  - unfold key_revoke, update_keys, mbind, io_bind, mret, io_ret. cbn. by destruct (negb _).
  - apply Forall2_fmap_r, Forall_Forall2_diag, Forall_forall. intros x Hx.
    change (kept_or_revoked t x (if is_key id x then set_revoked x else x)). destruct (is_key id x) eqn:Hxid; [|by left]. apply bool_decide_eq_true in Hxid.
    right. split; [|done]. rewrite <- Et. f_equal.
    pose proof (find_unique ak_id id _ x Hn Hx Hxid). pose proof (find_unique ak_id id _ r Hn Hin Hid). congruence.
Qed.

Lemma ids_kept pc (w : world) : NoDup (map ak_id (api_keys w)) -> NoDup (map ak_id (api_keys (run_call pc w))).
Proof.
  intros Hn. destruct pc as [p [r|id]]; unfold run_call; cbn [fst snd].
  - unfold Auth.create_key_as. destruct (negb (bool_decide (cr_role r ∈ ALL_ROLES))); [done|].
    unfold mbind, io_bind at 1. pose proof (keeps_effective p r w) as He.
    destruct (effective_tenant p r w) as [[te|?] w1]; cbn [snd] in He; [|cbn [snd]; by rewrite He].
    unfold generate_api_key, key_create, mbind, io_bind, draw, get_st, mret, io_ret. cbn. rewrite He.
    destruct (existsb _ (api_keys w)) eqn:Hex; [change (NoDup (map ak_id (api_keys w1))); by rewrite He|]. cbn. rewrite map_app. cbn.
    apply NoDup_app. split_and!; [done| |apply NoDup_singleton].
    intros x Hx ->%list_elem_of_singleton. apply list_elem_of_fmap in Hx as (r' & Hr' & Hin).
    apply not_true_iff_false in Hex. apply Hex, existsb_exists. exists r'. split; [by apply list_elem_of_In|].
    unfold is_key. rewrite <- Hr'. by rewrite bool_decide_eq_true_2.
  - assert (map ak_id (api_keys (revoke_key_as p id w).2) = map ak_id (api_keys w)) as ->; [|done].
    unfold revoke_key_as, mbind, io_bind at 1, key_list_all.
    destruct (key_by_id id (rev (api_keys w))) as [r|]; [|done].
    destruct (match pr_tenant_id p with Some _ => _ | None => _ end); [done|].
    unfold key_revoke, update_keys, mbind, io_bind, mret, io_ret. cbn.
    assert (map ak_id (map (fun r => if is_key id r then set_revoked r else r) (api_keys w)) = map ak_id (api_keys w)) as Hm.
    { rewrite map_map. apply map_ext. intros x. by destruct (is_key id x). }
    by destruct (negb _).
Qed.

(** C20: administrators bound to a tenant reach nothing outside of it: whatever
    sequence of calls they make, the keys of other tenants stay as they were,
    and the keys they mint are bound to their tenant, are no super
    administrator's and carry no scopes. *)
Theorem delegated_confined t calls (w : world) :
  NoDup (map ak_id (api_keys w)) -> Forall (fun pc => pr_tenant_id pc.1 = Some t) calls ->
  confined t (api_keys w) (api_keys (foldl (fun w pc => run_call pc w) w calls)).
Proof.
  intros Hn Hcalls. revert w Hn. induction Hcalls as [|pc calls Hp _ IH]; intros w Hn; [apply confined_refl|]. cbn.
  apply confined_trans with (api_keys (run_call pc w)); [|by apply IH, ids_kept].
  destruct pc as [p [r|id]]; [by apply create_confined|by apply revoke_confined].
Qed.

(** ** The second factor *)

Section proofs.
Context (Hhex : forall k m, all_chars is_hex_char (hmac_sha256 k m) = true).

Abbreviation sign := (sign_mfa_proof settings hmac_sha256).
Abbreviation verify := (verify_mfa_proof settings hmac_sha256).

Definition no_dot (s : string) : bool := all_chars (isnt "."%char) s.

Lemma hex_no_dot a : is_hex_char a = true -> isnt "."%char a = true.
Proof. each_char a; by intros H; try discriminate H. Qed.

Lemma digit_no_dot a : is_digit_char a = true -> isnt "."%char a = true.
Proof. intros H. apply hex_no_dot. unfold is_hex_char. by rewrite H. Qed.

Lemma proof_parts k e :
  no_dot k = true ->
  split_on "." (sign k e) = [k; pretty (py_int e); hmac_sha256 (MFA_SIGNING_KEY settings) (k +:+ "|" +:+ pretty (py_int e))].
Proof.
  intros Hk. unfold sign_mfa_proof. cbv zeta.
  change ("." +:+ ?x) with (String "." x).
  rewrite split_on_app by done. change ("." +:+ ?x) with (String "." x).
  rewrite split_on_app by (apply pretty_Z_chars; [exact digit_no_dot|done]).
  rewrite split_on_none; [done|]. eapply all_chars_impl; [exact hex_no_dot|apply Hhex].
Qed.

Lemma py_int_inject e : py_int (inject_Z e) = e.
Proof. unfold py_int. cbn. apply Z.quot_1_r. Qed.

(** A proof signed for a key is accepted for that key exactly from now on
    until its second, and for no longer ahead than its lifetime. *)
Theorem mfa_proof_roundtrip now k e :
  no_dot k = true -> in_calendar (py_int e) = true ->
  verify now (sign k e) k = (now <=?q inject_Z (py_int e)) && (inject_Z (py_int e) <=?q now + MFA_PROOF_TTL_SECONDS settings)%Q.
Proof.
  intros Hk Hcal. unfold verify_mfa_proof. rewrite proof_parts by done. rewrite bool_decide_eq_true_2 by done. cbn [negb].
  rewrite int_of_pretty, Hcal. cbn [andb]. rewrite (bool_decide_eq_true_2 (sign k (inject_Z (py_int e)) = sign k e)).
  - apply andb_true_r.
  - unfold sign_mfa_proof. by rewrite py_int_inject.
Qed.

(** What is accepted for a key was signed for it, and is fresh. *)
Lemma verified_signed now proof k :
  verify now proof k = true ->
  exists e, proof = sign k (inject_Z e) /\ (now <= inject_Z e)%Q /\ (inject_Z e <= now + MFA_PROOF_TTL_SECONDS settings)%Q.
Proof.
  unfold verify_mfa_proof. destruct (split_on "." proof) as [|c [|ex [|sg [|]]]]; try done.
  destruct (bool_decide (c = k)); [|done]. cbn [negb]. destruct (int_of_string ex) as [e|]; [|done].
  intros [[_ [Hl Hr]%andb_true_iff]%andb_true_iff Hs]%andb_true_iff. apply bool_decide_eq_true in Hs.
  exists e. split_and!; [done| |]; by apply Qle_bool_iff.
Qed.

(** C22: a key with a second factor passes the gate only with a proof that was
    signed for this key and has not run out; a proof signed for another key
    is worth nothing. *)
Theorem second_factor rq p (w w' : world) r :
  key_by_id (key_id p) (api_keys w) = Some r -> ak_mfa_enabled r = true ->
  mfa_gate settings hmac_sha256 rq p w = (Ret tt, w') ->
  w' = w /\ exists e, header_mfa rq = sign (key_id p) (inject_Z e) /\
    (auth_now w <= inject_Z e)%Q /\ (inject_Z e <= auth_now w + MFA_PROOF_TTL_SECONDS settings)%Q /\
    forall other e', no_dot other = true -> no_dot (key_id p) = true ->
      header_mfa rq = sign other e' -> other = key_id p.
Proof.
  intros Hr Hen. unfold mfa_gate, mbind, io_bind, get_by_id, get_st. rewrite Hr, Hen. cbn [negb].
  destruct (truthy (header_mfa rq)); [|done]. cbn [negb].
  destruct (verify (auth_now w) (header_mfa rq) (key_id p)) eqn:Hv; [|done]. cbn [negb]. intros [= <-].
  split; [done|]. apply verified_signed in Hv as (e & He & Hl & Hu). exists e. split_and!; [done..|].
  intros other e' Ho Hk Heq. rewrite He in Heq. apply (f_equal (split_on ".")) in Heq.
  rewrite !proof_parts in Heq by done. congruence.
Qed.
End proofs.

(** Asking for a new secret switches the second factor off: no proof is asked
    for, neither then nor afterwards. *)
Theorem setup_disarms rq p (w w1 : world) r secret enc :
  get_principal rq w = (Ret p, w1) -> pr_role p ∈ [ROLE_SUPER_ADMIN; ROLE_TENANT_ADMIN; ROLE_OPERATOR] ->
  key_by_id (key_id p) (api_keys w) = Some r ->
  secret = generate_secret (token_bytes (auth_drawn w1)) -> encrypt_secret secret = Some enc ->
  exists w2, mfa_setup rq w = (Ret secret, w2) /\
    forall rq', mfa_gate settings hmac_sha256 rq' p w2 = (Ret tt, w2).
Proof.
  intros Hp Hrole Hr Hs Henc. pose proof (keeps_get_principal rq w) as Hk. rewrite Hp in Hk. cbn in Hk.
  unfold Auth.mfa_setup, Auth.require_operator, mbind, io_bind. rewrite Hp. rewrite bool_decide_eq_true_2 by done.
  cbn [mret io_ret]. unfold get_by_id. rewrite Hk, Hr. cbv beta iota zeta delta [draw]. rewrite <- Hs, Henc.
  eexists. split; [reflexivity|]. intros rq'. unfold mfa_gate, mbind, io_bind, get_by_id, get_st.
  match goal with |- context [key_by_id ?i ?l] => destruct (key_by_id i l) as [r'|] eqn:E; [|done] end. apply find_elem in E as [Hin Hid].
  apply list_elem_of_In, in_map_iff in Hin as (x & <- & Hx).
  destruct (is_key (key_id p) x) eqn:Ex; [done|]. congruence.
Qed.

(** ** Sessions from single sign-on *)

(** A session minted without scopes, as single sign-on does, may do anything,
    whatever its role. *)
Theorem sso_session_unlimited name role tenant sub method ttl (w w' : world) raw r permission :
  session_create name role tenant None sub method ttl w = (Ret (raw, r), w') ->
  os_role r = role /\ r ∈ operator_sessions w' /\
  forall p (w1 w2 : world), operator_principal r w1 = (Ret p, w2) -> has_permission permission p = true.
Proof.
  unfold Auth.session_create, mbind, io_bind, draw, get_st. cbn. destruct (existsb _ _); [done|].
  cbv [modify mret io_ret]. cbn. intros [= <- <- <-]. split; [done|]. split.
  - cbn. apply elem_of_app. right. by apply list_elem_of_singleton.
  - intros p w1 w2. unfold operator_principal, mbind, io_bind. destruct (principal_tenant _ _) as [[t|] ?]; [|done].
    intros [= <- <-]. unfold has_permission. cbn [pr_scopes os_scopes]. apply orb_true_r.
Qed.
End props.

(** A route whose tenant is declared as text refuses every principal that is
    bound to a tenant, its own included. *)
Theorem text_routes_refuse {S} p t t' (s : S) :
  pr_tenant_id p = Some t -> assert_tenant_access p (AsText t') s = (Raise other_tenant, s).
Proof. intros Hp. unfold assert_tenant_access, tenant_allowed. by rewrite Hp. Qed.

(** ** Examples and witnesses *)

Module AuthSample.
Definition settings : AuthSettings := {|
  AUTH_ENABLED := true; API_KEY_HEADER := "X-API-Key"; MFA_SIGNING_KEY := "k"; MFA_PROOF_TTL_SECONDS := 60;
  OPERATOR_SESSION_TTL_SECONDS := 28800; MFA_ISSUER := "Neryva"; rate_limits := default_rate_config |}.

Definition sha256 (s : string) : string := "#" +:+ s.
Fixpoint hex (s : string) : string :=
  match s with
  | EmptyString => EmptyString
  | String a s => String (hex_digit (Ascii.nat_of_ascii a / 16)) (String (hex_digit (Ascii.nat_of_ascii a mod 16)) (hex s))
  end.
Definition hmac (k m : string) : string := hex (k +:+ m).
Definition digest (_ : list Z) (n : Z) : list Z := repeat n 20.
Definition uuid4 (n : nat) : string := "id" +:+ pretty n.
Definition token_hex (n : nat) : string := pretty n.
Definition token_bytes (_ : nat) : list Z := repeat 7 20.
Definition seal (s : string) : option string := Some ("!" +:+ s).
Definition open_ (s : string) : option string := match s with String _ s => Some s | _ => None end.
Definition float_text (_ : Q) : string := "0.0".

Definition t1 : string := "00000000-0000-4000-8000-000000000001".
Definition t2 : string := "00000000-0000-4000-8000-000000000002".

Definition key (id raw role : string) (tenant : option string) (secret : option string) : ApiKeyRow := {|
  ak_id := id; ak_name := id; ak_hash := sha256 raw; ak_prefix := "nrv_live_"; ak_role := role; ak_tenant_id := tenant;
  ak_scopes := []; ak_expires_at := None; ak_revoked := false; ak_last_used_at := None; ak_usage_count := 0;
  ak_mfa_secret := secret; ak_mfa_enabled := match secret with Some _ => true | None => false end; ak_created_at := 0 |}.

Definition world (l : list ApiKeyRow) : auth_world (kv_map _Bucket) := {|
  auth_limiter := {| rl_conn := None; buckets := ∅; degraded := false |}; api_keys := l; operator_sessions := [];
  auth_trail := []; touched := []; auth_now := 1000; auth_mono := 0; auth_drawn := 0 |}.

Definition with_key (k : string) : auth_request :=
  {| header_key := Some k; header_authorization := EmptyString; header_mfa := EmptyString |}.

Definition get_principal := get_principal settings sha256 float_text (St := kv_map _Bucket).
Definition create_api_key := create_api_key settings sha256 hmac uuid4 token_hex float_text (St := kv_map _Bucket).
Definition mfa_setup := mfa_setup settings sha256 token_bytes seal float_text (St := kv_map _Bucket).
Definition session_create := session_create settings sha256 uuid4 token_hex (St := kv_map _Bucket).

Lemma hex_digit_hex n : (n < 16)%nat -> is_hex_char (hex_digit n) = true.
Proof. intros H. do 16 (destruct n as [|n]; [done|]). lia. Qed.

Lemma hmac_hex k m : all_chars is_hex_char (hmac k m) = true.
Proof.
  unfold hmac. induction (k +:+ m) as [|a s IH]; [done|]. cbn [hex all_chars].
  pose proof (Ascii.nat_ascii_bounded a). rewrite !hex_digit_hex, IH; [done| |].
  - apply Nat.mod_upper_bound. lia.
  - apply Nat.Div0.div_lt_upper_bound. lia.
Qed.
End AuthSample.

(** An administrator's key that is bound to no tenant mints a super
    administrator's. *)
Example unbound_admin_mints_super_admin :
  let w := AuthSample.world [AuthSample.key "k" "secret" ROLE_TENANT_ADMIN None None] in
  match AuthSample.create_api_key (AuthSample.with_key "secret")
          {| cr_name := "root"; cr_role := ROLE_SUPER_ADMIN; cr_tenant_id := None; cr_expires_at := None |} w with
  | (Ret (_, r), _) => ak_role r = ROLE_SUPER_ADMIN /\ ak_tenant_id r = None
  | _ => False
  end.
Proof. vm_compute. split; reflexivity. Qed.

(** A key created for a tenant that is not a UUID fails every request. *)
Example malformed_tenant_breaks_key :
  (AuthSample.get_principal (AuthSample.with_key "secret")
     (AuthSample.world [AuthSample.key "k" "secret" ROLE_OPERATOR (Some "acme") None])).1 = Raise BadUUID.
Proof. vm_compute. reflexivity. Qed.

Lemma let_in_spec_witness :
  exists w', AuthSample.get_principal (AuthSample.with_key "secret")
    (AuthSample.world [AuthSample.key "k" "secret" ROLE_OPERATOR None None]) =
    (Ret {| key_id := "k"; pr_name := "k"; pr_role := ROLE_OPERATOR; pr_tenant_id := None; pr_scopes := [] |}, w').
Proof.
  set (w := AuthSample.world _).
  destruct (let_in_spec AuthSample.settings AuthSample.sha256 AuthSample.float_text
    (AuthSample.with_key "secret") w) as [_ H]; [done|split; [apply NoDup_singleton|constructor]|].
  apply H.
  - apply (by_key AuthSample.sha256 w (AuthSample.with_key "secret") "secret"
             (AuthSample.key "k" "secret" ROLE_OPERATOR None None)); try done. by left.
  - intros h. unfold limited, acquire_or_raise, acquire, mbind, io_bind, get_st. cbn. by eexists.
Defined.

Definition revoked_world : auth_world (kv_map _Bucket) :=
  AuthSample.world [set_revoked (AuthSample.key "k" "secret" ROLE_OPERATOR None None)].

Lemma revoked_key_dead_witness :
  exists e w', AuthSample.get_principal (AuthSample.with_key "secret")
    (run_ops AuthSample.settings AuthSample.sha256 AuthSample.hmac AuthSample.digest AuthSample.uuid4
       AuthSample.token_hex AuthSample.token_bytes AuthSample.seal AuthSample.open_ AuthSample.float_text
       [Touch "k"; Pass 5; SetupMfa (AuthSample.with_key "secret")] revoked_world) = (Raise e, w').
Proof.
  apply (revoked_key_dead AuthSample.settings AuthSample.sha256 AuthSample.hmac AuthSample.digest AuthSample.uuid4
           AuthSample.token_hex AuthSample.token_bytes AuthSample.seal AuthSample.open_ AuthSample.float_text
           [Touch "k"; Pass 5; SetupMfa (AuthSample.with_key "secret")] (AuthSample.with_key "secret") "secret"
           (set_revoked (AuthSample.key "k" "secret" ROLE_OPERATOR None None)) revoked_world);
    try reflexivity; [apply NoDup_singleton|by left].
Defined.

Definition delegate : ApiKeyPrincipal := {|
  key_id := "a"; pr_name := "a"; pr_role := ROLE_TENANT_ADMIN; pr_tenant_id := Some AuthSample.t1; pr_scopes := [] |}.
Definition two_tenants : auth_world (kv_map _Bucket) :=
  AuthSample.world [AuthSample.key "a" "s1" ROLE_TENANT_ADMIN (Some AuthSample.t1) None;
                    AuthSample.key "b" "s2" ROLE_TENANT_ADMIN (Some AuthSample.t2) None].
Definition delegate_calls : list (ApiKeyPrincipal * admin_call) :=
  [(delegate, Create {| cr_name := "n"; cr_role := ROLE_OPERATOR; cr_tenant_id := None; cr_expires_at := None |});
   (delegate, Revoke "b"); (delegate, Revoke "a")].

Lemma delegated_confined_witness :
  confined AuthSample.t1 (api_keys two_tenants)
    (api_keys (foldl (fun w pc => run_call AuthSample.sha256 AuthSample.uuid4 AuthSample.token_hex pc w)
                 two_tenants delegate_calls)).
Proof.
  apply (delegated_confined AuthSample.sha256 AuthSample.uuid4 AuthSample.token_hex).
  - repeat constructor; set_solver.
  - by repeat constructor.
Defined.

Lemma mfa_proof_roundtrip_witness :
  verify_mfa_proof AuthSample.settings AuthSample.hmac 1000
    (sign_mfa_proof AuthSample.settings AuthSample.hmac "k" (2085 # 2)) "k" = true.
Proof.
  rewrite (mfa_proof_roundtrip AuthSample.settings AuthSample.hmac AuthSample.hmac_hex 1000 "k" (2085 # 2)); reflexivity.
Defined.

Definition protected_world : auth_world (kv_map _Bucket) :=
  AuthSample.world [AuthSample.key "k" "secret" ROLE_TENANT_ADMIN None (Some "!A")].
Definition protected_key : ApiKeyPrincipal := {|
  key_id := "k"; pr_name := "k"; pr_role := ROLE_TENANT_ADMIN; pr_tenant_id := None; pr_scopes := [] |}.

Lemma second_factor_witness :
  exists e, sign_mfa_proof AuthSample.settings AuthSample.hmac "k" 1042
    = sign_mfa_proof AuthSample.settings AuthSample.hmac "k" (inject_Z e) /\ (1000 <= inject_Z e)%Q.
Proof.
  destruct (second_factor AuthSample.settings AuthSample.hmac AuthSample.hmac_hex
    {| header_key := None; header_authorization := EmptyString;
       header_mfa := sign_mfa_proof AuthSample.settings AuthSample.hmac "k" 1042 |}
    protected_key protected_world protected_world (AuthSample.key "k" "secret" ROLE_TENANT_ADMIN None (Some "!A")))
    as (_ & e & He & Hl & _); [reflexivity|reflexivity|vm_compute; reflexivity|].
  exists e. by split.
Defined.

Lemma setup_disarms_witness :
  exists w1 w2 secret, AuthSample.get_principal (AuthSample.with_key "secret") protected_world = (Ret protected_key, w1) /\
    AuthSample.mfa_setup (AuthSample.with_key "secret") protected_world = (Ret secret, w2) /\
    mfa_gate AuthSample.settings AuthSample.hmac (AuthSample.with_key "secret") protected_key w2 = (Ret tt, w2).
Proof.
  destruct (AuthSample.get_principal (AuthSample.with_key "secret") protected_world) as [[p|e] w1] eqn:E; [|by vm_compute in E].
  assert (p = protected_key) as -> by (vm_compute in E; by injection E as <-).
  destruct (setup_disarms AuthSample.settings AuthSample.sha256 AuthSample.hmac AuthSample.token_bytes AuthSample.seal
    AuthSample.float_text (AuthSample.with_key "secret") protected_key protected_world w1
    (AuthSample.key "k" "secret" ROLE_TENANT_ADMIN None (Some "!A"))
    (generate_secret (AuthSample.token_bytes (auth_drawn w1)))
    ("!" +:+ generate_secret (AuthSample.token_bytes (auth_drawn w1)))) as (w2 & Hs & Hg);
    [exact E|by right; left|reflexivity|reflexivity|reflexivity|].
  exists w1, w2. eexists. split; [done|]. split; [exact Hs|apply Hg].
Defined.

Lemma sso_session_unlimited_witness :
  match AuthSample.session_create "eve" ROLE_AUDITOR None None (Some "sub") "oidc" None (AuthSample.world []) with
  | (Ret (_, r), _) => os_role r = ROLE_AUDITOR /\
      forall p (w1 w2 : auth_world (kv_map _Bucket)), operator_principal r w1 = (Ret p, w2) ->
        has_permission "api_keys:manage" p = true
  | _ => False
  end.
Proof.
  destruct (AuthSample.session_create _ _ _ _ _ _ _ _) as [[[raw r]|e] w'] eqn:E; [|by vm_compute in E].
  destruct (sso_session_unlimited AuthSample.settings AuthSample.sha256 AuthSample.uuid4 AuthSample.token_hex "eve"
    ROLE_AUDITOR None (Some "sub") "oidc" None (AuthSample.world []) w' raw r "api_keys:manage" E) as (Hr & _ & Hp).
  by split.
Defined.

Lemma text_routes_refuse_witness :
  assert_tenant_access delegate (AsText AuthSample.t1) tt = (Raise other_tenant, tt).
Proof. apply (text_routes_refuse delegate AuthSample.t1 AuthSample.t1 tt). reflexivity. Defined.
