(* ===== verification/Resilience.v ===== *)
(** * Circuit breaker and retry (backend/app/infrastructure/patterns/)

    [CircuitBreaker] of circuit_breaker.py as a state machine whose calls
    begin and end at different instants (several may be in flight), and
    [retry_async] of retry.py over an oracle for the attempts. *)

From S2P Require Import Prelude.

(** ** CircuitBreaker *)

Inductive CircuitState := CLOSED | OPEN | HALF_OPEN.

#[export] Instance circuit_state_eq_dec : EqDecision CircuitState.
Proof. solve_decision. Defined.

Record CircuitBreakerConfig := {
  failure_threshold : Z;
  recovery_timeout : Q;
  half_open_max_calls : Z;
  consecutive_successes_to_close : Z;
}.

Definition default_breaker_config : CircuitBreakerConfig :=
  {| failure_threshold := 5; recovery_timeout := 30; half_open_max_calls := 3;
     consecutive_successes_to_close := 2 |}.

Record CircuitBreaker := {
  state : CircuitState;
  failure_count : Z;
  success_count : Z;
  half_open_calls : Z;
  last_failure_time : Q;
}.

Definition new_circuit_breaker : CircuitBreaker :=
  {| state := CLOSED; failure_count := 0; success_count := 0; half_open_calls := 0;
     last_failure_time := 0 |}.

(** The exception of a refused call. *)
Inductive breaker_exc := CircuitBreakerOpenError (until : Q).

Section circuit.
Context (cfg : CircuitBreakerConfig).

(** The guard of [call], run before the wrapped function at [now]. *)
Definition call_guard (now : Q) : io CircuitBreaker breaker_exc unit := fun b =>
  let opened :=
    if decide (state b = OPEN) then
      if (recovery_timeout cfg <=?q now - last_failure_time b)%Q
      then inr {| state := HALF_OPEN; failure_count := failure_count b; success_count := 0;
                  half_open_calls := 0; last_failure_time := last_failure_time b |}
      else inl (CircuitBreakerOpenError (last_failure_time b + recovery_timeout cfg))
    else inr b in
  match opened with
  | inl e => (Raise e, b)
  | inr b =>
      if bool_decide (state b = HALF_OPEN) && (half_open_max_calls cfg <=? half_open_calls b)
      then (Raise (CircuitBreakerOpenError (now + 5)), b)
      else (Ret tt, b)
  end.

(** [_record_success] *)
Definition _record_success (b : CircuitBreaker) : CircuitBreaker :=
  match state b with
  | HALF_OPEN =>
      let n := success_count b + 1 in
      if consecutive_successes_to_close cfg <=? n
      then {| state := CLOSED; failure_count := 0; success_count := 0; half_open_calls := 0;
              last_failure_time := last_failure_time b |}
      else {| state := HALF_OPEN; failure_count := failure_count b; success_count := n;
              half_open_calls := half_open_calls b; last_failure_time := last_failure_time b |}
  | CLOSED =>
      {| state := CLOSED; failure_count := 0; success_count := success_count b;
         half_open_calls := half_open_calls b; last_failure_time := last_failure_time b |}
  | OPEN => b
  end.

(** [_record_failure] at [now] *)
Definition _record_failure (now : Q) (b : CircuitBreaker) : CircuitBreaker :=
  match state b with
  | HALF_OPEN =>
      {| state := OPEN; failure_count := failure_count b; success_count := 0; half_open_calls := 0;
         last_failure_time := now |}
  | CLOSED =>
      let n := failure_count b + 1 in
      {| state := if failure_threshold cfg <=? n then OPEN else CLOSED; failure_count := n;
         success_count := success_count b; half_open_calls := half_open_calls b;
         last_failure_time := now |}
  | OPEN =>
      {| state := OPEN; failure_count := failure_count b; success_count := success_count b;
         half_open_calls := half_open_calls b; last_failure_time := now |}
  end.

(** [CircuitBreaker.call] of a function that ends at [later]. *)
Definition call {E A} (now later : Q) (fn : outcome E A) :
    CircuitBreaker -> (breaker_exc + outcome E A) * CircuitBreaker := fun b =>
  match call_guard now b with
  | (Raise e, b) => (inl e, b)
  | (Ret _, b) =>
      match fn with
      | Ret a => (inr (Ret a), _record_success b)
      | Raise e => (inr (Raise e), _record_failure later b)
      end
  end.

(** Calls in flight at once: guards and ends in any order. *)
Inductive circuit_event := EvGuard (now : Q) | EvSuccess | EvFailure (now : Q).

Definition circuit_step (b : CircuitBreaker) (e : circuit_event) : CircuitBreaker :=
  match e with
  | EvGuard now => (call_guard now b).2
  | EvSuccess => _record_success b
  | EvFailure now => _record_failure now b
  end.

Definition circuit_run (events : list circuit_event) : CircuitBreaker :=
  foldl circuit_step new_circuit_breaker events.

(** *** Lemmas *)

Lemma circuit_run_app es e : circuit_run (es ++ [e]) = circuit_step (circuit_run es) e.
Proof. unfold circuit_run. by rewrite foldl_app. Qed.

Record circuit_inv (b : CircuitBreaker) : Prop := {
  ci_half_calls : half_open_calls b = 0;
  ci_failures : 0 <= failure_count b;
  ci_closed : state b = CLOSED -> failure_count b < failure_threshold cfg;
  ci_successes : 0 <= success_count b;
  ci_half : state b = HALF_OPEN -> success_count b < consecutive_successes_to_close cfg;
}.

Lemma circuit_inv_step b e :
  0 < consecutive_successes_to_close cfg -> 0 < failure_threshold cfg ->
  circuit_inv b -> circuit_inv (circuit_step b e).
Proof.
  intros Hc Hf [H1 H2 H3 H4 H5]. destruct b as [st fc sc hc lt]. simpl in *. subst hc.
  destruct e as [now| |now]; simpl.
  - unfold call_guard. simpl. destruct st; simpl.
    + by split.
    + destruct (_ <=?q _); simpl; [|by split]. destruct (_ <=? 0); simpl; by split.
    + destruct (_ <=? 0); by split.
  - unfold _record_success. destruct st; simpl.
    + split; simpl; done || lia.
    + by split.
    + destruct (Z.leb_spec (consecutive_successes_to_close cfg) (sc + 1)); split; simpl; done || lia.
  - unfold _record_failure. destruct st; simpl.
    + destruct (Z.leb_spec (failure_threshold cfg) (fc + 1)); split; simpl; done || lia.
    + by split.
    + by split.
Qed.

(** Failures in a row while closed. *)
Definition fails (times : list Q) : list circuit_event := map EvFailure times.

Lemma fails_closed times b :
  state b = CLOSED -> circuit_inv b ->
  let b' := foldl circuit_step b (fails times) in
  state b' = (if failure_threshold cfg <=? failure_count b + Z.of_nat (length times)
              then (if bool_decide (times = []) then CLOSED else OPEN) else CLOSED).
Proof.
  intros Hst Hinv. simpl. revert b Hst Hinv.
  assert (forall times b, state b = OPEN -> state (foldl circuit_step b (fails times)) = OPEN) as Hopen.
  { induction times0 as [|t ts IH]; intros b Hb; [done|]. apply IH. simpl. unfold _record_failure.
    by rewrite Hb. }
  induction times as [|t ts IH]; intros b Hst Hinv.
  { simpl. rewrite Z.add_0_r. by case_match. }
  cbn [fails map foldl]. fold (fails ts). rewrite bool_decide_eq_false_2 by done.
  set (b1 := circuit_step b (EvFailure t)).
  assert (failure_count b1 = failure_count b + 1 /\
    state b1 = if failure_threshold cfg <=? failure_count b + 1 then OPEN else CLOSED) as [Hc1 Hs1].
  { unfold b1. simpl. unfold _record_failure. by rewrite Hst. }
  destruct (Z.leb_spec (failure_threshold cfg) (failure_count b + 1)).
  - rewrite Hopen by done. destruct (Z.leb_spec (failure_threshold cfg)
      (failure_count b + Z.of_nat (length (t :: ts)))); [done|]. simpl length in *. lia.
  - rewrite IH; [|done|].
    + rewrite Hc1. replace (failure_count b + Z.of_nat (length (t :: ts)))
        with (failure_count b + 1 + Z.of_nat (length ts)) by (simpl length; lia).
      destruct (Z.leb_spec (failure_threshold cfg) (failure_count b + 1 + Z.of_nat (length ts))); [|done].
      case_bool_decide as Hts; [|done]. subst. simpl in *. lia.
    + destruct Hinv as [H1 H2 H3 H4 H5]. unfold b1. simpl. unfold _record_failure. rewrite Hst.
      destruct (Z.leb_spec (failure_threshold cfg) (failure_count b + 1)); [lia|].
      split; simpl; done || lia.
Qed.

(** *** Properties *)

(** the breaker opens exactly at its threshold: from the initial state,
    or after any success while closed, consecutive failures open it when, and
    only when, there are at least as many as configured. *)
Theorem circuit_opens_at_threshold es times :
  0 < failure_threshold cfg -> 0 < consecutive_successes_to_close cfg ->
  state (circuit_run es) = CLOSED ->
  state (circuit_run (es ++ EvSuccess :: fails times)) =
    if failure_threshold cfg <=? Z.of_nat (length times) then OPEN else CLOSED.
Proof.
  intros Hf Hc Hst.
  assert (circuit_inv (circuit_run es)) as Hinv.
  { clear Hst. induction es as [|e es IH] using rev_ind; [by split|].
    rewrite circuit_run_app. by apply circuit_inv_step. }
  unfold circuit_run in *. rewrite foldl_app. cbn [foldl].
  set (b := circuit_step _ EvSuccess).
  assert (state b = CLOSED /\ failure_count b = 0 /\ circuit_inv b) as (Hs & Hfc & Hb).
  { split_and!; [| |by apply circuit_inv_step]; unfold b; simpl; unfold _record_success; by rewrite Hst. }
  rewrite fails_closed by done. rewrite Hfc. rewrite Z.add_0_l.
  destruct (Z.leb_spec (failure_threshold cfg) (Z.of_nat (length times))); [|done].
  case_bool_decide; [|done]. subst. simpl in *. lia.
Qed.

(** an open breaker refuses every call until the recovery timeout has
    passed since the last failure, without changing state; from then on a call
    goes through half-open, and a failure at that point opens it again for a
    full timeout. *)
Theorem circuit_open_refuses {E A} b now later (fn : outcome E A) :
  state b = OPEN -> 0 < half_open_max_calls cfg ->
  ((now - last_failure_time b < recovery_timeout cfg)%Q ->
     call now later fn b = (inl (CircuitBreakerOpenError (last_failure_time b + recovery_timeout cfg)), b)) /\
  ((recovery_timeout cfg <= now - last_failure_time b)%Q ->
     (call now later fn b).1 = inr fn /\
     forall e, fn = Raise e ->
       state (call now later fn b).2 = OPEN /\ last_failure_time (call now later fn b).2 = later).
Proof.
  intros Hst Hh. unfold call, call_guard. rewrite decide_True by done. split; intros Ht.
  - assert (recovery_timeout cfg <=?q now - last_failure_time b = false)%Q as ->; [|done].
    by apply Qleb_false.
  - assert (recovery_timeout cfg <=?q now - last_failure_time b = true)%Q as -> by by apply Qle_bool_iff.
    simpl. destruct (Z.leb_spec (half_open_max_calls cfg) 0); [lia|]. simpl.
    destruct fn as [a|e]; simpl; split; try done.
Qed.

(** the cap on half-open calls never applies: the counter it is compared
    with is 0 in every state the breaker reaches, whatever calls are made, so
    while half-open no call is refused, however many are in flight. *)
Theorem half_open_cap_dead es now :
  0 < failure_threshold cfg -> 0 < consecutive_successes_to_close cfg -> 0 < half_open_max_calls cfg ->
  half_open_calls (circuit_run es) = 0 /\
  (state (circuit_run es) = HALF_OPEN -> (call_guard now (circuit_run es)).1 = Ret tt).
Proof.
  intros Hf Hc Hh. assert (circuit_inv (circuit_run es)) as Hinv.
  { induction es as [|e es IH] using rev_ind; [by split|].
    rewrite circuit_run_app. by apply circuit_inv_step. }
  split; [apply Hinv|]. intros Hst. unfold call_guard. rewrite Hst. simpl.
  rewrite (ci_half_calls _ Hinv). rewrite Hst. simpl.
  by destruct (Z.leb_spec (half_open_max_calls cfg) 0); [lia|].
Qed.

End circuit.

(** ** Retry *)

(** How one attempt ends: a value, or an exception of one of the classes the
    loop distinguishes. *)
Inductive attempt (A : Type) :=
| Succeeds (a : A)
| FailsNonRetryable (e : string)
| FailsRetryable (e : string)
| FailsOther (e : string).
Arguments Succeeds {A} a.
Arguments FailsNonRetryable {A} e.
Arguments FailsRetryable {A} e.
Arguments FailsOther {A} e.

Inductive retry_exc :=
| RetryExhaustedError (attempts : nat) (last_error : option string)
| Propagated (e : string).

Record ExponentialBackoff := { min_delay : Q; max_delay : Q; jitter : Q; multiplier : Q }.

Definition default_backoff : ExponentialBackoff :=
  {| min_delay := 1; max_delay := 60; jitter := 0.1; multiplier := 2 |}.

(** [ExponentialBackoff.delay], given the draw of [random.uniform]. *)
Definition backoff_base (b : ExponentialBackoff) (n : nat) : Q :=
  Qminb (min_delay b * multiplier b ^ Z.of_nat n) (max_delay b).

Definition backoff_delay (b : ExponentialBackoff) (uniform : Q -> Q -> Q) (n : nat) : Q :=
  let d := backoff_base b n in
  (d + uniform (- (d * jitter b)) (d * jitter b))%Q.

(** [retry_async] from attempt [n] on, with [todo] attempts to go; the result,
    and the attempts made with the delays slept in between. *)
Fixpoint retry_from {A} (b : ExponentialBackoff) (uniform : nat -> Q -> Q -> Q) (max_attempts : nat)
    (fn : nat -> attempt A) (last : option string) (n todo : nat) :
    outcome retry_exc A * (nat * list Q) :=
  match todo with
  | O => (Raise (RetryExhaustedError max_attempts last), (n, []))
  | S todo =>
      match fn n with
      | Succeeds a => (Ret a, (S n, []))
      | FailsNonRetryable e | FailsOther e => (Raise (Propagated e), (S n, []))
      | FailsRetryable e =>
          if (n =? max_attempts - 1)%nat
          then (Raise (RetryExhaustedError max_attempts (Some e)), (S n, []))
          else
            let '(o, (k, ds)) := retry_from b uniform max_attempts fn (Some e) (S n) todo in
            (o, (k, backoff_delay b (uniform n) n :: ds))
      end
  end.

Definition retry_async {A} (b : ExponentialBackoff) (uniform : nat -> Q -> Q -> Q) (max_attempts : nat)
    (fn : nat -> attempt A) : outcome retry_exc A * (nat * list Q) :=
  retry_from b uniform max_attempts fn None 0 max_attempts.

Lemma retry_from_spec {A} b uniform (fn : nat -> attempt A) max last n todo :
  (n + todo = max)%nat -> (0 < todo)%nat ->
  let '(o, (k, ds)) := retry_from b uniform max fn last n todo in
  (n < k <= max)%nat /\ length ds = (k - S n)%nat /\
  (forall i, (n <= i < k - 1)%nat -> exists e, fn i = FailsRetryable e) /\
  match o with
  | Ret a => fn (k - 1)%nat = Succeeds a
  | Raise (Propagated e) => fn (k - 1)%nat = FailsNonRetryable e \/ fn (k - 1)%nat = FailsOther e
  | Raise (RetryExhaustedError m e) => m = max /\ k = max /\
      exists e', e = Some e' /\ fn (k - 1)%nat = FailsRetryable e'
  end.
Proof.
  revert last n. induction todo as [|todo IH]; intros last n Hn Hl; [lia|]. simpl.
  destruct (fn n) as [a|e|e|e] eqn:Ef.
  1, 2, 4: (split; [lia|]; split; [simpl; lia|]; split; [intros i Hi; lia|];
    replace (S n - 1)%nat with n by lia; auto).
  destruct (Nat.eqb_spec n (max - 1)).
  - split; [lia|]. split; [simpl; lia|]. split; [intros i Hi; lia|]. split; [done|]. split; [lia|].
    exists e. split; [done|]. by replace (S n - 1)%nat with n by lia.
  - specialize (IH (Some e) (S n) ltac:(lia) ltac:(lia)).
    destruct (retry_from _ _ _ _ _ (S n) todo) as [o [k ds]].
    destruct IH as (Hk & Hds & Hall & Ho). split; [lia|]. split; [simpl; lia|]. split; [|done].
    intros i Hi. destruct (Nat.eq_dec i n) as [->|]; [eauto|]. apply Hall. lia.
Qed.

(** [retry_async] calls its function at most the configured number of
    times and at least once, retries only after retryable failures, sleeps
    once between two attempts, and ends as its last attempt does: with the
    value, with the exception of a failure that is not retried, or with
    [RetryExhaustedError] after the last attempt allowed. *)
Theorem retry_spec {A} b uniform (fn : nat -> attempt A) max :
  (0 < max)%nat ->
  let '(o, (k, ds)) := retry_async b uniform max fn in
  (0 < k <= max)%nat /\ length ds = (k - 1)%nat /\
  (forall i, (i < k - 1)%nat -> exists e, fn i = FailsRetryable e) /\
  match o with
  | Ret a => fn (k - 1)%nat = Succeeds a
  | Raise (Propagated e) => fn (k - 1)%nat = FailsNonRetryable e \/ fn (k - 1)%nat = FailsOther e
  | Raise (RetryExhaustedError m e) => m = max /\ k = max /\
      exists e', e = Some e' /\ fn (k - 1)%nat = FailsRetryable e'
  end.
Proof.
  intros Hmax. unfold retry_async.
  pose proof (retry_from_spec b uniform fn max None 0 max eq_refl Hmax) as Hs.
  destruct (retry_from _ _ _ _ _ _ _) as [o [k ds]]. destruct Hs as (? & ? & Hall & ?).
  split; [done|]. split; [done|]. split; [|done]. intros i Hi. apply Hall. lia.
Qed.

(** ** Witnesses *)

Lemma circuit_opens_at_threshold_witness :
  state (circuit_run default_breaker_config ([EvFailure 1] ++ EvSuccess :: fails [2; 3; 4; 5; 6]%Q)) = OPEN.
Proof. rewrite circuit_opens_at_threshold by done. reflexivity. Defined.

Lemma circuit_open_refuses_witness :
  let b := circuit_run default_breaker_config (fails [1; 2; 3; 4; 5]%Q) in
  call default_breaker_config 34 36 (Ret (E := string) tt) b = (inl (CircuitBreakerOpenError (5 + 30)), b).
Proof. intros b. by apply (circuit_open_refuses default_breaker_config b 34 36 (Ret (E := string) tt)). Defined.

Lemma half_open_cap_dead_witness :
  (call_guard default_breaker_config 40
     (circuit_run default_breaker_config (fails [1; 2; 3; 4; 5]%Q ++ [EvGuard 35]))).1 = Ret tt.
Proof. by apply (half_open_cap_dead default_breaker_config). Defined.

Lemma retry_spec_witness :
  (fst (snd (retry_async default_backoff (fun _ _ _ => 0%Q) 3
     (fun n => if (n <? 2)%nat then FailsRetryable "timeout" else Succeeds n))) <= 3)%nat.
Proof.
  pose proof (retry_spec default_backoff (fun _ _ _ => 0%Q)
    (fun n => if (n <? 2)%nat then FailsRetryable "timeout" else Succeeds n) 3 ltac:(lia)) as H.
  destruct (retry_async _ _ _ _) as [o [k ds]]. simpl. lia.
Defined.
