(* ===== verification/CacheManager.v ===== *)
(** * The cache manager (backend/app/infrastructure/cache/manager.py) and the
      idempotency guard (infrastructure/patterns/idempotency.py)

    Reads and writes go to Redis through a circuit breaker, and to a
    dictionary of the process without Redis or when the call fails.  Times are
    milliseconds; the breaker counts seconds.  Values survive the round trip
    through JSON. *)

From S2P Require Import Prelude Json Redis Resilience.

(** A cached value: JSON, or a number with a fraction. *)
Inductive cached :=
| CJson (v : json)
| CNum (q : Q).

Definition is_null (v : cached) : bool := match v with CJson JNull => true | _ => false end.

Record CacheConfig := {
  default_ttl : Z;
  cache_prefix : string;
  breaker_config : CircuitBreakerConfig;
}.

Definition default_cache_config : CacheConfig := {|
  default_ttl := 3600; cache_prefix := "neryva:";
  breaker_config := {| failure_threshold := 3; recovery_timeout := 15; half_open_max_calls := 3;
                       consecutive_successes_to_close := 2 |} |}.

Record CacheEntry := { ce_value : cached; ce_ttl : Z }.

(** What a call behind the breaker raises: the failure of a command, a miss,
    or the breaker's refusal; the caller sees [TypeError] too. *)
Inductive cache_exc :=
| CRedis
| CacheMiss
| BadValue
| BreakerOpen
| TypeError.

(** The exception of a command, for the cache. *)
Definition of_redis (_ : redis_exc) : cache_exc := CRedis.

Section cache.
Context {St : Type} `{KV : RedisKV St cached}.
Context (cfg : CacheConfig).

Record CacheManager := {
  cm_client : option (redis St);
  cm_breaker : CircuitBreaker;
  cm_local : gmap string CacheEntry;
}.

Definition new_cache_manager (c : option (redis St)) : CacheManager :=
  {| cm_client := c; cm_breaker := new_circuit_breaker; cm_local := ∅ |}.

Definition with_client (c : option (redis St)) (m : CacheManager) : CacheManager :=
  {| cm_client := c; cm_breaker := cm_breaker m; cm_local := cm_local m |}.
Definition with_breaker (b : CircuitBreaker) (m : CacheManager) : CacheManager :=
  {| cm_client := cm_client m; cm_breaker := b; cm_local := cm_local m |}.
Definition with_local (l : gmap string CacheEntry) (m : CacheManager) : CacheManager :=
  {| cm_client := cm_client m; cm_breaker := cm_breaker m; cm_local := l |}.

Definition seconds (ms : Z) : Q := inject_Z ms / 1000.

Abbreviation cache := (io CacheManager cache_exc).

Definition _key (key : string) : string := cache_prefix cfg +:+ key.

(** A command of the client; without one, nothing reaches this. *)
Definition command {A} (f : St -> A * St) : cache A := fun m =>
  match cm_client m with
  | None => (Raise CRedis, m)
  | Some c =>
      let '(r, c) := redis_call f c in
      (match r with Ret a => Ret a | Raise e => Raise (of_redis e) end, with_client (Some c) m)
  end.

(** [self._circuit_breaker.call(fn)] *)
Definition behind_breaker {A} (now : Z) (fn : cache A) : cache A := fun m =>
  match call_guard (breaker_config cfg) (seconds now) (cm_breaker m) with
  | (Raise _, b) => (Raise BreakerOpen, with_breaker b m)
  | (Ret _, b) =>
      match fn (with_breaker b m) with
      | (Ret a, m) => (Ret a, with_breaker (_record_success (breaker_config cfg) (cm_breaker m)) m)
      | (Raise e, m) =>
          (Raise e, with_breaker (_record_failure (breaker_config cfg) (seconds now) (cm_breaker m)) m)
      end
  end.

(** [try: ... except Exception: pass], then the fallback. *)
Definition or_local {E A} (now : Z) (fn : cache A) (fallback : io CacheManager E A) : io CacheManager E A :=
  m ← get_st;
  match cm_client m with
  | None => fallback
  | Some _ => try_catch (behind_breaker now fn) (fun _ => fallback)
  end.

(** *** Reading and writing *)

Definition _redis_get (now : Z) (key : string) : cache cached :=
  v ← command (fun s => (redis_get now (_key key) s, s));
  match v with None => throw CacheMiss | Some v => mret v end.

Definition local_get (key : string) (d : option cached) (m : CacheManager) : option cached :=
  match cm_local m !! key with Some e => Some (ce_value e) | None => d end.

(** [None] is Python's; a stored null reads as the default. *)
Definition get {E} (now : Z) (key : string) (d : option cached) : io CacheManager E (option cached) :=
  or_local now
    (v ← _redis_get now key; mret (if is_null v then d else Some v))
    (m ← get_st; mret (local_get key d m)).

Definition _redis_set (now : Z) (key : string) (v : cached) (ttl : Z) : cache unit :=
  command (fun s => (tt, redis_set now (_key key) v (Some (ttl * 1000)) s)).

Definition set {E} (now : Z) (key : string) (v : cached) (ttl : option Z) : io CacheManager E bool :=
  let ttl := default (default_ttl cfg) ttl in
  or_local now
    (_ ← _redis_set now key v ttl; mret true)
    (_ ← modify (fun m => with_local (<[key := {| ce_value := v; ce_ttl := ttl |}]> (cm_local m)) m); mret true).

Definition delete {E} (now : Z) (key : string) : io CacheManager E bool :=
  or_local now
    (_ ← command (fun s => (tt, redis_del (_key key) s)); mret true)
    (m ← get_st;
     _ ← modify (fun m => with_local (base.delete key (cm_local m)) m);
     mret (bool_decide (is_Some (cm_local m !! key)))).

Definition exists_ {E} (now : Z) (key : string) : io CacheManager E bool :=
  or_local now
    (command (fun s => (bool_decide (is_Some (redis_get now (_key key) s)), s)))
    (m ← get_st; mret (bool_decide (is_Some (cm_local m !! key)))).

(** [INCRBY]: an absent key counts from zero, the expiry is kept, a value that
    is no integer is an error. *)
Definition integer_of (v : cached) : option Z :=
  match v with
  | CJson (JNum z) => Some z
  | CNum q => if (Z.pos (Qden (Qred q)) =? 1) then Some (Qnum (Qred q)) else None
  | _ => None
  end.

Definition incrby (now : Z) (key : string) (d : Z) (s : St) : option Z * St :=
  match look now key s with
  | None => (Some d, redis_set now key (CJson (JNum d)) None s)
  | Some (v, e) =>
      match integer_of v with
      | None => (None, s)
      | Some z => (Some (z + d), redis_set now key (CJson (JNum (z + d))) ((fun t => t - now) <$> e) s)
      end
  end.

Definition increment {E} (now : Z) (key : string) (amount : Z) : io CacheManager E (option Z) :=
  or_local now
    (r ← command (incrby now (_key key) amount);
     match r with Some z => mret (Some z) | None => throw BadValue end)
    (mret None).

(** *** Locks, computed values, prefixes *)

(** A lock that is held makes the second attempt await [time.sleep], which
    returns nothing to await. *)
Definition acquire_lock (now : Z) (key : string) (ttl max_retries : Z) : cache bool :=
  m ← get_st;
  match cm_client m with
  | None => mret true
  | Some _ =>
      let lock_key := _key key +:+ ":lock" in
      if max_retries <=? 0 then mret false
      else
        held ← command (fun s =>
                 match look now lock_key s with
                 | Some _ => (true, s)
                 | None => (false, redis_set now lock_key (CJson (JNum 1)) None s)
                 end);
        if (held : bool) then throw TypeError
        else _ ← command (fun s => (tt, redis_pexpire now lock_key (ttl * 1000) s)); mret true
  end.

Definition release_lock (key : string) : cache unit :=
  m ← get_st;
  match cm_client m with
  | None => mret tt
  | Some _ => command (fun s => (tt, redis_del (_key key +:+ ":lock") s))
  end.

Definition get_or_compute {E} (now : Z) (key : string) (compute_fn : io CacheManager E cached) (ttl : option Z) :
    io CacheManager E cached :=
  c ← get now key None;
  match c with
  | Some v => mret v
  | None => v ← compute_fn; _ ← set now key v ttl; mret v
  end.

Definition clear_by_prefix (now : Z) (prefix : string) : cache Z :=
  m ← get_st;
  match cm_client m with
  | None =>
      let keys := List.filter (String.prefix prefix) (map_to_list (cm_local m)).*1 in
      _ ← modify (fun m => with_local (filter (fun x => String.prefix prefix x.1 = false) (cm_local m)) m);
      mret (Z.of_nat (length keys))
  | Some _ =>
      keys ← command (fun s => (redis_keys now (_key prefix) s, s));
      match keys with
      | [] => mret 0
      | keys => _ ← command (fun s => (tt, foldr redis_del s keys)); mret (Z.of_nat (length keys))
      end
  end.

(** ** Idempotency keys *)

Section idempotency.
Context (digest : string -> string) (ttl_seconds : Z).

Definition idem_key (key scope : string) : string :=
  if truthy scope then "idem:" +:+ scope +:+ ":" +:+ digest key else "idem:" +:+ digest key.

Definition response_of (v : cached) : option (list (string * json)) :=
  match v with
  | CJson (JObj l) => if bool_decide (is_Some (field "status_code" l)) then Some l else None
  | _ => None
  end.

(** A value that is no stored response is deleted. *)
Definition get_response {E} (now : Z) (key scope : string) :
    io CacheManager E (option (list (string * json))) :=
  v ← get now (idem_key key scope) None;
  match v with
  | None => mret None
  | Some v =>
      match response_of v with
      | Some l => mret (Some l)
      | None => _ ← delete now (idem_key key scope); mret None
      end
  end.

Definition store_response {E} (now : Z) (key : string) (status_code : Z) (body : json) (scope : string) :
    io CacheManager E unit :=
  _ ← set now (idem_key key scope) (CJson (JObj [("status_code", JNum status_code); ("body", body)]))
        (Some ttl_seconds);
  mret tt.
End idempotency.
End cache.

Arguments CacheManager St : clear implicits.

(** ** Theorems *)

Section theorems.
Context {St : Type} `{KV : RedisKV St cached}.
Context (cfg : CacheConfig).
Implicit Types m : CacheManager St.

(** Redis answers and the breaker lets calls through. *)
Record serving m (c : redis St) : Prop := {
  sv_client : cm_client m = Some c;
  sv_healthy : healthy c;
  sv_closed : Resilience.state (cm_breaker m) = CLOSED;
}.

Lemma guard_closed now b : Resilience.state b = CLOSED -> call_guard (breaker_config cfg) now b = (Ret tt, b).
Proof. intros Hb. unfold call_guard. rewrite decide_False by congruence. by rewrite bool_decide_false by congruence. Qed.

Lemma cache_command_serving {A} (f : St -> A * St) m c : cm_client m = Some c -> healthy c ->
  exists c', command f m = (Ret (f (store c)).1, with_client (Some c') m)
    /\ healthy c' /\ store c' = (f (store c)).2.
Proof.
  intros Hc Hh. unfold command. rewrite Hc. destruct (redis_call_healthy f c Hh) as (fs & -> & Hfs). by eexists.
Qed.

(** A call behind a closed breaker is the call, and its success counted. *)
Lemma or_local_success {E A} now fn (fb : io (CacheManager St) E A) m c a m' : serving m c ->
  fn m = (Ret a, m') ->
  or_local cfg now fn fb m = (Ret a, with_breaker (_record_success (breaker_config cfg) (cm_breaker m')) m').
Proof.
  intros [Hc _ Hb] Hfn. unfold or_local, mbind, io_bind, get_st. rewrite Hc. unfold try_catch, behind_breaker.
  rewrite guard_closed by done. assert (Em : with_breaker (cm_breaker m) m = m) by by destruct m.
  by rewrite Em, Hfn.
Qed.

Lemma success_closed b : Resilience.state b = CLOSED ->
  Resilience.state (_record_success (breaker_config cfg) b) = CLOSED.
Proof. intros Hb. unfold _record_success. by rewrite Hb. Qed.

Lemma set_serving {E} now key v ttl m c : serving m c ->
  exists m' c', set (E := E) cfg now key v ttl m = (Ret true, m') /\ serving m' c'
  /\ store c' = redis_set now (_key cfg key) v (Some (default (default_ttl cfg) ttl * 1000)) (store c).
Proof.
  intros Hs. unfold set. destruct (cache_command_serving (fun s => (tt, redis_set now (_key cfg key) v
    (Some (default (default_ttl cfg) ttl * 1000)) s)) m c) as (c' & Ec & Hh & Hst); [apply Hs..|].
  erewrite or_local_success; [|exact Hs|unfold _redis_set, mbind, io_bind; by rewrite Ec].
  eexists _, c'. split_and!; [done| |exact Hst]. split; [done|done|]. apply success_closed, Hs.
Qed.

Lemma get_serving {E} now key d m c v : serving m c -> redis_get now (_key cfg key) (store c) = Some v ->
  exists m' c', get (E := E) cfg now key d m = (Ret (if is_null v then d else Some v), m') /\ serving m' c'
  /\ store c' = store c.
Proof.
  intros Hs Hv. unfold get.
  destruct (cache_command_serving (fun s => (redis_get now (_key cfg key) s, s)) m c) as (c' & Ec & Hh & Hst); [apply Hs..|].
  erewrite or_local_success; [|exact Hs|unfold _redis_get, mbind, io_bind; rewrite Ec; cbn [fst]; by rewrite Hv].
  eexists _, c'. split_and!; [done| |exact Hst]. split; [done|done|]. apply success_closed, Hs.
Qed.

Lemma set_then_look now t ttl key v (s : St) : now <= t < now + ttl * 1000 ->
  redis_get t key (redis_set now key v (Some (ttl * 1000)) s) = Some v.
Proof.
  intros Ht. unfold redis_get. rewrite look_set, decide_True by (done || lia). cbn.
  destruct (Z.ltb_spec t (now + ttl * 1000)); [done|lia].
Qed.

(** What a write stores is what a read returns until its time is over, with
    Redis; and without Redis for ever, since nothing looks at the time of a
    local entry. *)
Theorem cache_roundtrip {E} now t key v ttl d m : is_null v = false ->
  ((exists c, serving m c) -> now <= t < now + default (default_ttl cfg) ttl * 1000 ->
     (get (E := E) cfg t key d (set (E := E) cfg now key v ttl m).2).1 = Ret (Some v))
  /\ (cm_client m = None -> (get (E := E) cfg t key d (set (E := E) cfg now key v ttl m).2).1 = Ret (Some v)).
Proof.
  intros Hv. split.
  - intros [c Hs] Ht. destruct (set_serving (E := E) now key v ttl m c Hs) as (m1 & c1 & -> & Hs1 & Hst). cbn [snd].
    destruct (get_serving (E := E) t key d m1 c1 v Hs1) as (m2 & c2 & -> & _).
    + rewrite Hst. by apply set_then_look.
    + by rewrite Hv.
  - intros Hc. unfold set, get, or_local, mbind, io_bind, get_st. rewrite Hc. cbn. rewrite Hc.
    unfold local_get. cbn. by rewrite lookup_insert_eq.
Qed.

(** A response stored under a key is the one a retry reads until its time is
    over. *)
Theorem idempotent_replay {E} digest ttl now t key status body scope m c :
  serving m c -> now <= t < now + ttl * 1000 ->
  (get_response (E := E) cfg digest t key scope
     (store_response (E := E) cfg digest ttl now key status body scope m).2).1
  = Ret (Some [("status_code", JNum status); ("body", body)]).
Proof.
  intros Hs Ht.
  destruct (set_serving (E := E) now (idem_key digest key scope)
              (CJson (JObj [("status_code", JNum status); ("body", body)])) (Some ttl) m c Hs) as (m1 & c1 & E1 & Hs1 & Hst).
  assert (Es : store_response (E := E) cfg digest ttl now key status body scope m = (Ret tt, m1))
    by (unfold store_response, mbind, io_bind; by rewrite E1).
  rewrite Es. cbn [snd]. unfold get_response, mbind, io_bind.
  destruct (get_serving (E := E) t (idem_key digest key scope) None m1 c1 _ Hs1
              ltac:(rewrite Hst; by apply set_then_look)) as (m2 & c2 & -> & _).
  reflexivity.
Qed.

(** *** A miss is a failure *)

Lemma get_miss {E} now key d m c : serving m c -> redis_get now (_key cfg key) (store c) = None ->
  exists m' c', get (E := E) cfg now key d m = (Ret (local_get key d m), m') /\ cm_client m' = Some c'
  /\ healthy c' /\ store c' = store c /\ cm_local m' = cm_local m
  /\ cm_breaker m' = _record_failure (breaker_config cfg) (seconds now) (cm_breaker m).
Proof.
  intros [Hc Hh Hb] Hv. unfold get, or_local, mbind at 1, io_bind at 1, get_st at 1. rewrite Hc.
  unfold try_catch, behind_breaker. rewrite guard_closed by done.
  assert (Em : with_breaker (cm_breaker m) m = m) by by destruct m. rewrite Em.
  destruct (cache_command_serving (fun s => (redis_get now (_key cfg key) s, s)) m c Hc Hh) as (c' & Ec & Hh' & Hst).
  unfold _redis_get, mbind, io_bind. rewrite Ec. cbn [fst]. rewrite Hv. unfold throw.
  eexists _, c'. by split_and!.
Qed.

Lemma get_open {E} now key d m : is_Some (cm_client m) -> Resilience.state (cm_breaker m) = OPEN ->
  (seconds now - last_failure_time (cm_breaker m) < recovery_timeout (breaker_config cfg))%Q ->
  get (E := E) cfg now key d m = (Ret (local_get key d m), m).
Proof.
  intros [c Hc] Hb Ht. unfold get, or_local, mbind at 1, io_bind at 1, get_st at 1. rewrite Hc.
  unfold try_catch, behind_breaker, call_guard. rewrite Hb, decide_True by done.
  assert (E1 : (recovery_timeout (breaker_config cfg) <=?q seconds now - last_failure_time (cm_breaker m))%Q = false).
  { apply not_true_iff_false. intros H1%Qle_bool_iff. lra. }
  rewrite E1. assert (Em : with_breaker (cm_breaker m) m = m) by by destruct m.
  unfold mbind, io_bind, get_st. by rewrite Em.
Qed.

(** Reading keys that are not there opens the breaker: after as many misses as
    it still tolerates failures, no read reaches Redis until the recovery time
    has passed, whatever Redis holds. *)
Theorem misses_open_breaker {E} now keys m c : serving m c ->
  Forall (fun k => redis_get now (_key cfg k) (store c) = None) keys -> keys <> [] ->
  failure_threshold (breaker_config cfg) = failure_count (cm_breaker m) + Z.of_nat (length keys) ->
  let m' := (for_each (fun k => _ ← get (E := E) cfg now k None; mret tt) keys m).2 in
  forall t key d, (seconds t - seconds now < recovery_timeout (breaker_config cfg))%Q ->
  get (E := E) cfg t key d m' = (Ret (local_get key d m), m').
Proof.
  intros Hs Hk Hne Hn m' t key d Ht.
  assert (Hrun : is_Some (cm_client m') /\ cm_local m' = cm_local m /\ Resilience.state (cm_breaker m') = OPEN
    /\ last_failure_time (cm_breaker m') = seconds now).
  { unfold m'. clear m' Ht. revert m c Hs Hk Hn. induction keys as [|k keys IH]; [done|]. intros m c Hs Hk Hn.
    apply Forall_cons in Hk as [Hk1 Hk].
    destruct (get_miss (E := E) now k None m c Hs Hk1) as (m1 & c1 & E0 & Hc1 & Hh1 & Hs1 & Hl1 & Hb1).
    assert (Estep : forall l, for_each (fun k => _ ← get (E := E) cfg now k None; mret tt) (k :: l) m
      = for_each (fun k => _ ← get (E := E) cfg now k None; mret tt) l m1).
    { intros l. cbn [for_each]. unfold mbind, io_bind. by rewrite E0. }
    rewrite Estep. clear Estep.
    assert (Hb : Resilience.state (cm_breaker m) = CLOSED) by apply Hs.
    unfold _record_failure in Hb1. rewrite Hb in Hb1. cbn [length] in Hn.
    destruct keys as [|k' keys].
    - cbn. rewrite Hc1, Hl1, Hb1. split_and!; [by eexists|done| |done]. cbn [Resilience.state].
      destruct (_ <=? _) eqn:Ec; [done|]. to_prop. cbn in Hn. lia.
    - destruct (IH ltac:(done) m1 c1) as (? & E1 & ? & ?); [|by rewrite Hs1| |].
      + split; [done|done|]. rewrite Hb1. cbn [Resilience.state length] in Hn |- *. destruct (_ <=? _) eqn:Ec; [|done]. to_prop. lia.
      + rewrite Hb1. cbn [failure_count]. cbn [length] in *. lia.
      + split_and!; [done|by rewrite E1|done|done]. }
  destruct Hrun as (Hc & Hl & Hb & Hlast). rewrite get_open by (done || by rewrite Hlast).
  unfold local_get. by rewrite Hl.
Qed.
(** *** What a key holds

    The tier a cache reads while it is answering: Redis, or the process
    without one.  Calls on other keys leave it, whatever the breaker does. *)

Definition holds (t : Z) (key : string) (v : cached) m : Prop :=
  match cm_client m with
  | None => local_get key None m = Some v
  | Some c => redis_get t (_key cfg key) (store c) = Some v
  end.

(** Redis, if there is one, loses nothing and the breaker lets calls through. *)
Definition answering m : Prop :=
  match cm_client m with None => True | Some c => healthy c /\ Resilience.state (cm_breaker m) = CLOSED end.

Lemma answering_cases m : answering m -> cm_client m = None \/ exists c, serving m c.
Proof.
  unfold answering. destruct (cm_client m) as [c|] eqn:E; [|by left]. intros [H1 H2]. right. by exists c.
Qed.

Definition leaves {E A} (t : Z) (key : string) (c : io (CacheManager St) E A) : Prop :=
  forall v m, holds t key v m -> holds t key v (c m).2.

Lemma leaves_bind {E A B} t key (c : io (CacheManager St) E A) (f : A -> io _ E B) :
  leaves t key c -> (forall a, leaves t key (f a)) -> leaves t key (c ≫= f).
Proof.
  intros Hc Hf v m Hm. specialize (Hc v m Hm). unfold mbind, io_bind.
  destruct (c m) as [[a|e] m1]; [by apply Hf|done].
Qed.

Lemma leaves_ret {E A} t key (a : A) : leaves t key (mret a : io (CacheManager St) E A).
Proof. by intros v m Hm. Qed.
Lemma leaves_throw {E A} t key e : leaves t key (throw e : io (CacheManager St) E A).
Proof. by intros v m Hm. Qed.
Lemma leaves_get_st {E} t key : leaves t key (get_st : io (CacheManager St) E _).
Proof. by intros v m Hm. Qed.

Lemma leaves_command {A} t key (f : St -> A * St) :
  (forall s, redis_get t (_key cfg key) (f s).2 = redis_get t (_key cfg key) s) -> leaves t key (command f).
Proof.
  intros Hf v m Hm. unfold command. unfold holds in Hm. destruct (cm_client m) as [c|] eqn:Hc; cycle 1.
  { unfold holds. cbn [snd]. by rewrite Hc. }
  destruct (redis_call_cases f c) as [[fs ->]|[[fs ->]|[fs ->]]]; cbn; by rewrite ?Hf.
Qed.

Lemma leaves_breaker {A} now t key (fn : io (CacheManager St) cache_exc A) :
  leaves t key fn -> leaves t key (behind_breaker cfg now fn).
Proof.
  intros Hfn v m Hm. unfold behind_breaker. destruct (call_guard _ _ _) as [[[]|e] b]; [|exact Hm].
  specialize (Hfn v (with_breaker b m) Hm). by destruct (fn _) as [[a|e] m1].
Qed.

Lemma leaves_or_local {E A} now t key (fn : io (CacheManager St) cache_exc A) (fb : io (CacheManager St) E A) :
  leaves t key fn -> leaves t key fb -> leaves t key (or_local cfg now fn fb).
Proof.
  intros Hfn Hfb. apply leaves_bind; [apply leaves_get_st|]. intros m0. destruct (cm_client m0); [|done].
  intros v m Hm. unfold try_catch. pose proof (leaves_breaker now t key fn Hfn v m Hm) as H1.
  destruct (behind_breaker _ _ _ m) as [[a|e] m1]; [done|by apply Hfb].
Qed.

Lemma leaves_local {E A} t key (f : CacheManager St -> gmap string CacheEntry) (a : CacheManager St -> A) :
  (forall m, f m !! key = cm_local m !! key) ->
  leaves t key (fun m => (Ret (a m), with_local (f m) m) : outcome E A * _).
Proof. intros Hf v m Hm. unfold holds, local_get in *. cbn. rewrite Hf. exact Hm. Qed.

Lemma _key_inj k k' : _key cfg k = _key cfg k' -> k = k'.
Proof.
  unfold _key. induction (cache_prefix cfg) as [|a p IH]; [done|]. cbn. intros H. apply IH. by injection H.
Qed.

Lemma leaves_get {E} now t key k d : leaves t key (get (E := E) cfg now k d).
Proof.
  apply leaves_or_local.
  - apply leaves_bind; [|intros ?; apply leaves_ret]. apply leaves_bind; [by apply leaves_command|].
    intros []; [apply leaves_ret|apply leaves_throw].
  - apply leaves_bind; [apply leaves_get_st|intros ?; apply leaves_ret].
Qed.

Lemma leaves_set {E} now t key k v ttl : now <= t -> k <> key -> leaves t key (set (E := E) cfg now k v ttl).
Proof.
  intros Ht Hk. apply leaves_or_local.
  - apply leaves_bind; [|intros ?; apply leaves_ret]. apply leaves_command. intros s. unfold redis_get. cbn.
    rewrite look_set by done. rewrite decide_False; [done|]. intros He. by apply _key_inj in He.
  - apply leaves_bind; [|intros ?; apply leaves_ret].
    apply (leaves_local t key (fun m => <[k := _]> (cm_local m)) (fun _ => tt)). intros m. by rewrite lookup_insert_ne.
Qed.

Lemma leaves_delete {E} now t key k : k <> key -> leaves t key (delete (E := E) cfg now k).
Proof.
  intros Hk. apply leaves_or_local.
  - apply leaves_bind; [|intros ?; apply leaves_ret]. apply leaves_command. intros s. unfold redis_get. cbn.
    rewrite look_del, decide_False; [done|]. intros He. by apply _key_inj in He.
  - apply leaves_bind; [apply leaves_get_st|intros m0]. apply leaves_bind; [|intros ?; apply leaves_ret].
    apply (leaves_local t key (fun m => base.delete k (cm_local m)) (fun _ => tt)). intros m. by rewrite lookup_delete_ne.
Qed.

Lemma leaves_increment {E} now t key k n : now <= t -> k <> key -> leaves t key (increment (E := E) cfg now k n).
Proof.
  intros Ht Hk. apply leaves_or_local; [|apply leaves_ret]. apply leaves_bind.
  - apply leaves_command. intros s. unfold redis_get, incrby.
    destruct (look now (_key cfg k) s) as [[v e]|]; [destruct (integer_of v)|]; [|done|]; cbn;
      rewrite look_set by done; (rewrite decide_False; [done|]; intros He; by apply _key_inj in He).
  - intros []; [apply leaves_ret|apply leaves_throw].
Qed.

Lemma leaves_get_response {E} digest now t key k scope : idem_key digest k scope <> key ->
  leaves t key (get_response (E := E) cfg digest now k scope).
Proof.
  intros Hk. apply leaves_bind; [apply leaves_get|]. intros [v|]; [|apply leaves_ret].
  destruct (response_of v); [apply leaves_ret|]. apply leaves_bind; [by apply leaves_delete|intros ?; apply leaves_ret].
Qed.

Lemma leaves_store_response {E} digest ttl now t key k status body scope : now <= t -> idem_key digest k scope <> key ->
  leaves t key (store_response (E := E) cfg digest ttl now k status body scope).
Proof. intros Ht Hk. apply leaves_bind; [by apply leaves_set|intros ?; apply leaves_ret]. Qed.

(** *** Stored responses, while the cache is answering *)

Definition stored_response (status : Z) (body : json) : cached :=
  CJson (JObj [("status_code", JNum status); ("body", body)]).

Lemma store_response_holds {E} digest ttl now t k status body scope m : answering m ->
  cm_client m = None \/ now <= t < now + ttl * 1000 ->
  holds t (idem_key digest k scope) (stored_response status body)
    (store_response (E := E) cfg digest ttl now k status body scope m).2.
Proof.
  intros Ha Ht. unfold store_response, mbind at 1, io_bind at 1. apply answering_cases in Ha as [Hc|[c Hs]].
  - unfold set, or_local, mbind, io_bind, get_st. rewrite Hc. unfold holds. cbn. rewrite Hc.
    unfold local_get. cbn. by rewrite lookup_insert_eq.
  - destruct Ht as [Ht|Ht]; [by destruct Hs; congruence|].
    destruct (set_serving (E := E) now (idem_key digest k scope) (stored_response status body) (Some ttl) m c Hs)
      as (m' & c' & Es & Hs' & Hst). unfold stored_response in Es. rewrite Es. unfold holds. cbn.
    rewrite (sv_client _ _ Hs'), Hst. by apply set_then_look.
Qed.

Lemma get_response_holds {E} digest now k scope status body m : answering m ->
  holds now (idem_key digest k scope) (stored_response status body) m ->
  exists m', get_response (E := E) cfg digest now k scope m
             = (Ret (Some [("status_code", JNum status); ("body", body)]), m')
    /\ forall t key v, holds t key v m -> holds t key v m'.
Proof.
  intros Ha Hh. unfold get_response, mbind at 1, io_bind at 1. unfold holds in Hh.
  apply answering_cases in Ha as [Hc|[c Hs]].
  - rewrite Hc in Hh. unfold get, or_local, mbind, io_bind, get_st. rewrite Hc, Hh. by exists m.
  - rewrite (sv_client _ _ Hs) in Hh.
    pose proof (fun t key v => leaves_get (E := E) now t key (idem_key digest k scope) None v m) as Hl.
    destruct (get_serving (E := E) now (idem_key digest k scope) None m c _ Hs Hh) as (m' & c' & Eg & Hs' & Hst).
    rewrite Eg in Hl |- *. exists m'. by split.
Qed.

(** *** Few failures

    A miss counts as a failure: an answering cache with its failures and what
    its Redis holds. *)

Definition counting m (n : Z) (s : St) : Prop :=
  exists c, serving m c /\ failure_count (cm_breaker m) = n /\ store c = s.

Definition tolerates (n : Z) : Prop := n < failure_threshold (breaker_config cfg).

Lemma counting_answering m n s : counting m n s -> answering m.
Proof. intros (c & [Hc Hh Hb] & _). unfold answering. by rewrite Hc. Qed.

(** One command on an answering cache: a success clears the count, a failure is
    counted and the fallback taken. *)
Lemma or_local_counts {E A B} now (f : St -> A * St) (g : A -> cache_exc + B) (fb : io (CacheManager St) E B) m n s :
  counting m n s -> match g (f s).1 with inr _ => True | inl _ => tolerates (n + 1) end ->
  exists m', counting m' (match g (f s).1 with inr _ => 0 | inl _ => n + 1 end) (f s).2
    /\ or_local cfg now (a ← command f; match g a with inr b => mret b | inl e => throw e end) fb m
       = match g (f s).1 with inr b => (Ret b, m') | inl _ => fb m' end.
Proof.
  intros (c & Hs & <- & <-) Hn. pose proof Hs as [Hc Hh Hb].
  assert (Em : with_breaker (cm_breaker m) m = m) by by destruct m.
  destruct (cache_command_serving f m c Hc Hh) as (c' & Ec & Hh' & Hst).
  unfold or_local, mbind at 1, io_bind at 1, get_st at 1. rewrite Hc. unfold try_catch, behind_breaker.
  rewrite guard_closed, Em by done. unfold mbind, io_bind. rewrite Ec. destruct (g (f (store c)).1) as [e|b]; cbn.
  - unfold tolerates in Hn. eexists. split; [|reflexivity]. exists c'. unfold _record_failure. cbn. rewrite Hb.
    split_and!; [|done|done].
    split; [done|done|]. cbn. destruct (_ <=? _) eqn:El; [|done]. to_prop. lia.
  - eexists. split; [|reflexivity]. exists c'. unfold _record_success. cbn. rewrite Hb. by split_and!.
Qed.

Lemma get_counts {E} now key d m n s : counting m n s ->
  (redis_get now (_key cfg key) s = None -> tolerates (n + 1)) ->
  exists v m', get (E := E) cfg now key d m = (Ret v, m')
    /\ counting m' (match redis_get now (_key cfg key) s with Some _ => 0 | None => n + 1 end) s.
Proof.
  intros Hm Hn.
  assert (Hn' : match (match redis_get now (_key cfg key) s with Some v => inr (if is_null v then d else Some v) | None => inl CacheMiss end)
    with inr _ => True | inl _ => tolerates (n + 1) end) by (destruct (redis_get _ _ s); auto).
  destruct (or_local_counts (E := E) now (fun s => (redis_get now (_key cfg key) s, s))
    (fun v => match v with Some v => inr (if is_null v then d else Some v) | None => inl CacheMiss end)
    (m ← get_st; mret (local_get key d m)) m n s Hm Hn') as (m' & Hm' & E0). cbn [fst snd] in *.
  assert (Eg : get (E := E) cfg now key d m = match redis_get now (_key cfg key) s with
    | Some v => (Ret (if is_null v then d else Some v), m') | None => (Ret (local_get key d m'), m') end).
  { destruct (redis_get now (_key cfg key) s); rewrite <- E0 || (change (Ret (local_get key d m'), m') with
      ((m ← get_st; mret (local_get key d m)) m' : outcome E _ * _); rewrite <- E0); unfold get, or_local, _redis_get;
    unfold mbind, io_bind, get_st; destruct (cm_client m); try done; unfold try_catch, behind_breaker;
    destruct (call_guard _ _ _) as [[]]; try done; destruct (command _ _) as [[[]|]]; done. }
  rewrite Eg. destruct (redis_get _ _ s); by eexists _, m'.
Qed.

Lemma set_counts {E} now key v ttl m n s : counting m n s ->
  exists m', set (E := E) cfg now key v ttl m = (Ret true, m')
    /\ counting m' 0 (redis_set now (_key cfg key) v (Some (default (default_ttl cfg) ttl * 1000)) s).
Proof.
  intros Hm. unfold set.
  destruct (or_local_counts (E := E) now (fun s => (tt, redis_set now (_key cfg key) v (Some (default (default_ttl cfg) ttl * 1000)) s))
    (fun _ => inr true) (_ ← modify (fun m => with_local (<[key := {| ce_value := v; ce_ttl := default (default_ttl cfg) ttl |}]> (cm_local m)) m); mret true)
    m n s Hm I) as (m' & Hm' & E0). by exists m'.
Qed.

(** A counter that is no number fails, and is there. *)
Lemma increment_counts {E} now key k m n s : counting m n s -> tolerates (n + 1) ->
  exists o m' n' s', increment (E := E) cfg now key k m = (Ret o, m') /\ counting m' n' s'
    /\ (n' = 0 \/ n' = n + 1 /\ is_Some (redis_get now (_key cfg key) s')).
Proof.
  intros Hm Hn. unfold increment.
  assert (Hn' : match (match (incrby now (_key cfg key) k s).1 with Some z => inr (Some z) | None => inl BadValue end)
    with inr _ => True | inl _ => tolerates (n + 1) end) by (destruct (incrby _ _ _ s).1; auto).
  destruct (or_local_counts (E := E) now (incrby now (_key cfg key) k)
    (fun r => match r with Some z => inr (Some z) | None => inl BadValue end) (mret None) m n s Hm Hn') as (m' & Hm' & E0).
  assert (Ei : forall c, c = or_local (E := E) cfg now (r ← command (incrby now (_key cfg key) k);
      match (match r with Some z => inr (Some z) | None => inl BadValue end) with inr b => mret b | inl e => throw e end) (mret None) ->
    or_local cfg now (r ← command (incrby now (_key cfg key) k); match r with Some z => mret (Some z) | None => throw BadValue end)
      (mret None) m = c m).
  { intros c ->. unfold or_local, mbind, io_bind, get_st. destruct (cm_client m); [|done]. unfold try_catch, behind_breaker.
    destruct (call_guard _ _ _) as [[]]; [|done]. by destruct (command _ _) as [[[]|]]. }
  rewrite (Ei _ eq_refl), E0. unfold incrby in *. unfold redis_get.
  destruct (look now (_key cfg key) s) as [[v e]|] eqn:El; [destruct (integer_of v)|]; cbn [fst snd] in *.
  - do 4 eexists. split_and!; [done|exact Hm'|by left].
  - do 4 eexists. split_and!; [done|exact Hm'|]. right. split; [done|]. rewrite El. by eexists.
  - do 4 eexists. split_and!; [done|exact Hm'|by left].
Qed.
(** A cache that goes on answering after one miss. *)
Definition reliable m : Prop := cm_client m = None \/ exists n s, counting m n s /\ tolerates (n + 2) /\ tolerates 2.

Lemma holds_earlier now t key v m : now <= t -> holds t key v m -> holds now key v m.
Proof.
  intros Ht. unfold holds. destruct (cm_client m) as [c|]; [|done]. unfold redis_get.
  rewrite (look_later now t) by done. by destruct (look now _ _) as [[v' [d|]]|]; cbn; [case_match|..].
Qed.

Lemma no_client_get {E} now key d m : cm_client m = None -> cm_client (get (E := E) cfg now key d m).2 = None.
Proof. intros Hc. unfold get, or_local, mbind, io_bind, get_st. by rewrite Hc. Qed.
Lemma no_client_set {E} now key v ttl m : cm_client m = None -> cm_client (set (E := E) cfg now key v ttl m).2 = None.
Proof. intros Hc. unfold set, or_local, mbind, io_bind, get_st. by rewrite Hc. Qed.
Lemma no_client_delete {E} now key m : cm_client m = None -> cm_client (delete (E := E) cfg now key m).2 = None.
Proof. intros Hc. unfold delete, or_local, mbind, io_bind, get_st. by rewrite Hc. Qed.
Lemma no_client_increment {E} now key n m : cm_client m = None -> cm_client (increment (E := E) cfg now key n m).2 = None.
Proof. intros Hc. unfold increment, or_local, mbind, io_bind, get_st. by rewrite Hc. Qed.

Lemma no_client_answering m : cm_client m = None -> answering m.
Proof. intros Hc. unfold answering. by rewrite Hc. Qed.

Lemma delete_counts {E} now key m n s : counting m n s ->
  exists m', delete (E := E) cfg now key m = (Ret true, m') /\ counting m' 0 (redis_del (_key cfg key) s).
Proof.
  intros Hm. unfold delete.
  destruct (or_local_counts (E := E) now (fun s => (tt, redis_del (_key cfg key) s)) (fun _ => inr true)
    (m ← get_st; _ ← modify (fun m => with_local (base.delete key (cm_local m)) m);
     mret (bool_decide (is_Some (cm_local m !! key)))) m n s Hm I) as (m' & Hm' & E0). by exists m'.
Qed.

Lemma get_response_counts {E} digest now key scope m n s : counting m n s -> tolerates (n + 1) ->
  exists o m' n' s', get_response (E := E) cfg digest now key scope m = (Ret o, m') /\ counting m' n' s'
    /\ (n' = 0 \/ n' = n + 1).
Proof.
  intros Hm Hn. unfold get_response, mbind at 1, io_bind at 1.
  destruct (get_counts (E := E) now (idem_key digest key scope) None m n s Hm (fun _ => Hn)) as (v & m1 & -> & H1).
  assert (Hn1 : (match redis_get now (_key cfg (idem_key digest key scope)) s with Some _ => 0 | None => n + 1 end = 0
    \/ match redis_get now (_key cfg (idem_key digest key scope)) s with Some _ => 0 | None => n + 1 end = n + 1))
    by (destruct (redis_get _ _ s); auto).
  destruct v as [v|]; [|by do 4 eexists]. destruct (response_of v); [by do 4 eexists|].
  destruct (delete_counts (E := E) now (idem_key digest key scope) m1 _ s H1) as (m2 & E2 & H2).
  unfold mbind, io_bind. rewrite E2. do 4 eexists. split_and!; [done|exact H2|by left].
Qed.

(** After the look-up of a key the cache bears one more failure. *)
Definition resilient m : Prop := cm_client m = None \/ exists n s, counting m n s /\ tolerates (n + 1) /\ tolerates 1.

Lemma get_response_resilient {E} digest now key scope m : reliable m ->
  resilient (get_response (E := E) cfg digest now key scope m).2.
Proof.
  intros [Hc|(n & s & Hm & Hn & H2)].
  - left. unfold get_response, mbind at 1, io_bind at 1.
    pose proof (no_client_get (E := E) now (idem_key digest key scope) None m Hc) as H1.
    destruct (get _ _ _ _ m) as [[[v|]|e] m1]; cbn in H1; try done. destruct (response_of v); [done|].
    pose proof (no_client_delete (E := E) now (idem_key digest key scope) m1 H1) as H3.
    unfold mbind, io_bind. by destruct (delete _ _ _ m1) as [[]].
  - right. unfold tolerates in *.
    destruct (get_response_counts (E := E) digest now key scope m n s Hm) as (o & m' & n' & s' & E0 & Hm' & Hn');
      [unfold tolerates; lia|].
    rewrite E0. exists n', s'. split; [exact Hm'|]. destruct Hn' as [->| ->]; lia.
Qed.

Lemma resilient_answering m : resilient m -> answering m.
Proof. intros [Hc|(n & s & Hm & _)]; [by apply no_client_answering|by eapply counting_answering]. Qed.
Lemma reliable_resilient m : reliable m -> resilient m.
Proof. intros [Hc|(n & s & Hm & Hn & H2)]; [by left|right]. exists n, s. unfold tolerates in *. split_and!; [done|lia..]. Qed.

End theorems.

(** ** Concrete caches *)

Module CacheSample.
Definition cfg : CacheConfig := default_cache_config.
Definition over (faults : list fault) (s : kv_map cached) : CacheManager (kv_map cached) :=
  new_cache_manager (Some (Build_redis s faults)).
Definition stored : kv_map cached := {["neryva:k" := (CJson (JStr "v"), None)]}.
Definition up : CacheManager (kv_map cached) := over [] stored.

Lemma up_serving : serving up (Build_redis stored []).
Proof. split; [done|constructor|done]. Defined.

Definition read (now : Z) (key : string) (m : CacheManager (kv_map cached)) :=
  get (E := Empty_set) cfg now key None m.
End CacheSample.

Lemma cache_roundtrip_witness :
  let m := CacheSample.up in
  ((exists c, serving m c) -> 5 <= 9004 < 5 + default (default_ttl CacheSample.cfg) (Some 9) * 1000 ->
     (get (E := Empty_set) CacheSample.cfg 9004 "a" None
        (set (E := Empty_set) CacheSample.cfg 5 "a" (CNum 2) (Some 9) m).2).1 = Ret (Some (CNum 2)))
  /\ (cm_client m = None ->
      (get (E := Empty_set) CacheSample.cfg 9004 "a" None
         (set (E := Empty_set) CacheSample.cfg 5 "a" (CNum 2) (Some 9) m).2).1 = Ret (Some (CNum 2))).
Proof. apply (cache_roundtrip (E := Empty_set) CacheSample.cfg 5 9004 "a" (CNum 2) (Some 9) None CacheSample.up). done. Defined.

Lemma idempotent_replay_witness :
  (get_response (E := Empty_set) CacheSample.cfg id 86000000 "key" "conv:acme"
     (store_response (E := Empty_set) CacheSample.cfg id 86400 0 "key" 200 (JStr "hello") "conv:acme" CacheSample.up).2).1
  = Ret (Some [("status_code", JNum 200); ("body", JStr "hello")]).
Proof.
  apply (idempotent_replay (E := Empty_set) CacheSample.cfg id 86400 0 86000000 "key" 200 (JStr "hello") "conv:acme"
           CacheSample.up (Build_redis CacheSample.stored []) CacheSample.up_serving). lia.
Defined.

(** Three reads of keys that are not there, and the stored key is not found
    fourteen seconds later. *)
Lemma misses_open_breaker_witness :
  let m' := (for_each (fun k => _ ← get (E := Empty_set) CacheSample.cfg 1000 k None; mret tt) ["a"; "b"; "c"]
               CacheSample.up).2 in
  (CacheSample.read 1000 "k" CacheSample.up).1 = Ret (Some (CJson (JStr "v")))
  /\ get (E := Empty_set) CacheSample.cfg 15000 "k" None m' = (Ret None, m').
Proof.
  split; [vm_compute; reflexivity|].
  apply (misses_open_breaker (E := Empty_set) CacheSample.cfg 1000 ["a"; "b"; "c"] CacheSample.up
           (Build_redis CacheSample.stored []) CacheSample.up_serving).
  - repeat constructor.
  - done.
  - vm_compute. reflexivity.
  - vm_compute. reflexivity.
Defined.

(** What was written to the process while Redis was down is read again after
    the key has gone from Redis. *)
Example stale_local_value :
  let put t v m := (set (E := Empty_set) CacheSample.cfg t "a" (CJson (JStr v)) (Some 1) m).2 in
  let m := put 2 "new" (put 1 "old" (CacheSample.over [LostRequest] ∅)) in
  (CacheSample.read 3 "a" m).1 = Ret (Some (CJson (JStr "new")))
  /\ (CacheSample.read 5000 "a" m).1 = Ret (Some (CJson (JStr "old"))).
Proof. vm_compute. done. Qed.

(** A lock that is held is not waited for: the second attempt raises. *)
Example contended_lock_raises :
  let m := (acquire_lock CacheSample.cfg 1 "a" 30 10 CacheSample.up) in
  m.1 = Ret true /\ (acquire_lock CacheSample.cfg 2 "a" 30 10 m.2).1 = Raise TypeError.
Proof. vm_compute. done. Qed.
