(* ===== verification/ModelCatalog.v ===== *)
(** * The models of a tenant (backend/app/modules/model_catalog/service.py, and
      ModelCatalogRepository of infrastructure/db/repositories.py)

    The allowlist with its fallback, and the daily cost ceiling, which is
    counted in the cache. *)

From S2P Require Import Prelude Json Redis Resilience CacheManager.

Record ModelEntry := {
  me_id : string;
  me_tenant_id : string;
  me_provider : string;
  me_model : string;
  me_enabled : bool;
  cost_ceiling_per_1k : Q;
  fallback_order : Z;
}.

(** ** The repository *)

Definition entry_leb (a b : ModelEntry) : bool :=
  (fallback_order a <? fallback_order b)
  || (fallback_order a =? fallback_order b) && String.leb (me_model a) (me_model b).

Definition list_by_tenant (tenant : string) (t : list ModelEntry) : list ModelEntry :=
  sort_by entry_leb (List.filter (fun e => bool_decide (me_tenant_id e = tenant)) t).

(** A second row for a pair violates the unique constraint. *)
Definition create (id tenant provider model : string) (ceiling : Q) (order : Z) (t : list ModelEntry) :
    option ModelEntry * list ModelEntry :=
  if existsb (fun e => bool_decide (me_tenant_id e = tenant) && bool_decide (me_provider e = provider)
                       && bool_decide (me_model e = model)) t then (None, t)
  else
    let e := {| me_id := id; me_tenant_id := tenant; me_provider := provider; me_model := model;
                me_enabled := true; cost_ceiling_per_1k := ceiling; fallback_order := order |} in
    (Some e, t ++ [e]).

Definition is_entry (id tenant : string) (e : ModelEntry) : bool :=
  bool_decide (me_id e = id) && bool_decide (me_tenant_id e = tenant).

Definition enable_entry (b : bool) (e : ModelEntry) : ModelEntry := {|
  me_id := me_id e; me_tenant_id := me_tenant_id e; me_provider := me_provider e; me_model := me_model e;
  me_enabled := b; cost_ceiling_per_1k := cost_ceiling_per_1k e; fallback_order := fallback_order e |}.

Definition set_enabled (id tenant : string) (b : bool) (t : list ModelEntry) : option ModelEntry * list ModelEntry :=
  (enable_entry b <$> List.find (is_entry id tenant) t,
   map (fun e => if is_entry id tenant e then enable_entry b e else e) t).

Definition delete_entry (id tenant : string) (t : list ModelEntry) : bool * list ModelEntry :=
  (existsb (is_entry id tenant) t, List.filter (fun e => negb (is_entry id tenant e)) t).

(** ** The service *)

Inductive model_exc :=
| ModelNotAllowed (provider model tenant : string)
| CostCeilingExceeded (provider model : string) (ceiling used : Q).

(** [min(enabled, key=fallback_order)]: the first of the least. *)
Fixpoint least (l : list ModelEntry) (best : ModelEntry) : ModelEntry :=
  match l with
  | [] => best
  | e :: l => least l (if fallback_order e <? fallback_order best then e else best)
  end.
Definition first_least (l : list ModelEntry) : option ModelEntry :=
  match l with [] => None | e :: l => Some (least l e) end.

Definition is_pair (provider model : string) (e : ModelEntry) : bool :=
  bool_decide (me_provider e = provider) && bool_decide (me_model e = model).

Definition resolve_model (tenant provider model : string) (t : list ModelEntry) : (string * string) + model_exc :=
  match list_by_tenant tenant t with
  | [] => inl (provider, model)
  | entries =>
      let enabled := List.filter me_enabled entries in
      match List.find (is_pair provider model) enabled with
      | Some _ => inl (provider, model)
      | None =>
          match first_least enabled with
          | None => inr (ModelNotAllowed provider model tenant)
          | Some e => inl (me_provider e, me_model e)
          end
      end
  end.

Definition estimate_tokens (texts : list string) : Z :=
  Z.max 1 (Z.of_nat (sum_list_with String.length texts) / 4).

Section ceiling.
Context {St : Type} `{KV : RedisKV St cached} (cfg : CacheConfig).

(** [(await cache.get(key, 0)) or 0] as a number. *)
Definition number_of (v : option cached) : Q :=
  match v with
  | Some (CNum q) => q
  | Some (CJson (JNum z)) => inject_Z z
  | _ => 0
  end.

Definition cost_key (tenant provider model : string) : string :=
  "modelcost:" +:+ tenant +:+ ":" +:+ provider +:+ ":" +:+ model.

Definition check_cost_ceiling (now : Z) (tenant provider model : string) (estimated_tokens window_seconds : Z)
    (t : list ModelEntry) : io (CacheManager St) model_exc unit :=
  match List.find (fun e => me_enabled e && is_pair provider model e) (list_by_tenant tenant t) with
  | None => mret tt
  | Some e =>
      let ceiling := cost_ceiling_per_1k e in
      if ceiling <=?q 0 then mret tt
      else
        let key := cost_key tenant provider model in
        let increment := (inject_Z estimated_tokens / 1000 * ceiling)%Q in
        counted ← CacheManager.increment cfg now key (py_int (increment * 1000));
        raw ← CacheManager.get cfg now key (Some (CJson (JNum 0)));
        match (counted : option Z) with
        | Some _ =>
            let used := (number_of raw / 1000)%Q in
            if ceiling <?q used then throw (CostCeilingExceeded provider model ceiling used)
            else _ ← CacheManager.set cfg now key (default (CJson (JNum 0)) raw) (Some window_seconds); mret tt
        | None =>
            let used := ((number_of raw + increment * 1000) / 1000)%Q in
            if ceiling <?q used then throw (CostCeilingExceeded provider model ceiling used)
            else _ ← CacheManager.set cfg now key (CNum (number_of raw + increment * 1000)) (Some window_seconds);
                 mret tt
        end
  end.
End ceiling.

(** ** Theorems *)

Lemma least_spec l best : let e := least l best in
  (e = best \/ e ∈ l) /\ fallback_order e <= fallback_order best
  /\ Forall (fun x => fallback_order e <= fallback_order x) l.
Proof.
  revert best. induction l as [|x l IH]; intros best; cbn; [by split_and!; [left|lia|]|].
  set (b := if fallback_order x <? fallback_order best then x else best).
  destruct (IH b) as (Hin & Hle & Hall).
  assert (Hb : (b = best \/ b = x) /\ fallback_order b <= fallback_order best /\ fallback_order b <= fallback_order x).
  { unfold b. destruct (Z.ltb_spec (fallback_order x) (fallback_order best)); split_and!; auto; lia. }
  destruct Hb as (Hb & H1 & H2). split_and!; [|lia|constructor; [lia|done]].
  rewrite elem_of_cons. destruct Hin as [->|Hin]; [destruct Hb as [->| ->]|]; auto.
Qed.

(** Every row of a tenant, and no other, is listed. *)
Lemma elem_of_list_by_tenant tenant t e : e ∈ list_by_tenant tenant t <-> e ∈ t /\ me_tenant_id e = tenant.
Proof.
  unfold list_by_tenant. rewrite elem_of_sort_by, !list_elem_of_In, filter_In, bool_decide_eq_true. done.
Qed.

(** A tenant without a catalog runs what it asks for.  With one, it runs what
    it asks for when the catalog enables it, else an enabled entry of the
    least fallback order; only a catalog with nothing enabled is refused. *)
Theorem resolve_model_spec tenant provider model t :
  match resolve_model tenant provider model t with
  | inl (p, m) =>
      (p = provider /\ m = model
       /\ ((forall e, e ∈ t -> me_tenant_id e <> tenant)
           \/ exists e, e ∈ t /\ me_tenant_id e = tenant /\ me_enabled e = true /\ me_provider e = p /\ me_model e = m))
      \/ (exists e, e ∈ t /\ me_tenant_id e = tenant /\ me_enabled e = true /\ me_provider e = p /\ me_model e = m
          /\ (forall x, x ∈ t -> me_tenant_id x = tenant -> me_enabled x = true ->
                fallback_order e <= fallback_order x /\ (me_provider x, me_model x) <> (provider, model)))
  | inr e => e = ModelNotAllowed provider model tenant
      /\ (exists x, x ∈ t /\ me_tenant_id x = tenant)
      /\ (forall x, x ∈ t -> me_tenant_id x = tenant -> me_enabled x = false)
  end.
Proof.
  unfold resolve_model. pose proof (elem_of_list_by_tenant tenant t) as Hin.
  destruct (list_by_tenant tenant t) as [|e0 rest] eqn:El.
  { left. split_and!; [done|done|]. left. intros e He Ht. by apply (not_elem_of_nil e), Hin. }
  set (entries := e0 :: rest) in *.
  assert (Hen : forall e, In e (List.filter me_enabled entries) <-> e ∈ t /\ me_tenant_id e = tenant /\ me_enabled e = true).
  { intros e. rewrite filter_In, <- list_elem_of_In, Hin. tauto. }
  destruct (List.find (is_pair provider model) _) as [e|] eqn:Ef.
  - apply List.find_some in Ef as [He Hp]. apply Hen in He as (H1 & H2 & H3). unfold is_pair in Hp.
    apply andb_true_iff in Hp as [?%bool_decide_eq_true ?%bool_decide_eq_true].
    left. split_and!; [done|done|]. right. exists e. tauto.
  - destruct (List.filter me_enabled entries) as [|x l] eqn:Efl; cbn [first_least].
    + split_and!; [done| |].
      * exists e0. apply Hin. by left.
      * intros x Hx Ht. destruct (me_enabled x) eqn:Ex; [|done]. destruct (proj2 (Hen x)); auto.
    + destruct (least_spec l x) as (Hl & Hle & Hall). set (e := least l x) in *. right. exists e.
      assert (Hie : In e (x :: l)) by (destruct Hl as [->|Hl]; [by left|right; by apply list_elem_of_In]).
      apply Hen in Hie as (H1 & H2 & H3). split_and!; try done. intros y Hy Hyt Hye.
      assert (Hyi : In y (x :: l)) by (by apply Hen). split.
      * destruct Hyi as [->|Hyi]; [done|]. rewrite Forall_forall in Hall. apply Hall. by apply list_elem_of_In.
      * intros [= E1 E2]. pose proof (List.find_none _ _ Ef y Hyi) as Hn. unfold is_pair in Hn.
        by rewrite !bool_decide_true in Hn.
Qed.

(** *** The ceiling *)

(** Without Redis, the counter of a pair. *)
Definition spent {St} (key : string) (m : CacheManager St) : Q := number_of (local_get key (Some (CJson (JNum 0))) m).

(** The checks of several requests, as long as they pass. *)
Fixpoint check_all {St} `{RedisKV St cached} (cfg : CacheConfig) (tenant provider model : string) (window : Z)
    (t : list ModelEntry) (requests : list (Z * Z)) : io (CacheManager St) model_exc unit :=
  match requests with
  | [] => mret tt
  | (now, tokens) :: requests =>
      _ ← check_cost_ceiling cfg now tenant provider model tokens window t;
      check_all cfg tenant provider model window t requests
  end.

(** What the ceiling's counting does to the cache: other keys keep what they
    hold, and an answering cache that can bear a failure goes on answering. *)

Section ceiling_cache.
Context {St : Type} `{KV : RedisKV St cached} (cfg : CacheConfig).
Context (tenant provider model : string) (tokens window : Z) (t : list ModelEntry).

Lemma ceiling_leaves now at_ key : now <= at_ -> cost_key tenant provider model <> key ->
  leaves cfg at_ key (check_cost_ceiling (St := St) cfg now tenant provider model tokens window t).
Proof.
  intros Ht Hk. unfold check_cost_ceiling. destruct (List.find _ _); [|apply leaves_ret].
  destruct (_ <=?q _); [apply leaves_ret|]. apply leaves_bind; [by apply leaves_increment|intros counted].
  apply leaves_bind; [apply leaves_get|intros raw].
  destruct counted; (destruct (_ <?q _); [apply leaves_throw|]);
    (apply leaves_bind; [by apply leaves_set|intros ?; apply leaves_ret]).
Qed.

Lemma ceiling_counts now m n s : counting (St := St) m n s -> tolerates cfg (n + 1) -> tolerates cfg 1 ->
  answering (check_cost_ceiling cfg now tenant provider model tokens window t m).2.
Proof.
  intros Hm Hn H1. unfold check_cost_ceiling. destruct (List.find _ _); [|by eapply counting_answering].
  destruct (_ <=?q _); [by eapply counting_answering|].
  destruct (increment_counts (E := model_exc) cfg now (cost_key tenant provider model)
    (py_int (inject_Z tokens / 1000 * cost_ceiling_per_1k m0 * 1000)) m n s Hm Hn) as (o & m1 & n1 & s1 & E1 & Hm1 & Hn1).
  unfold mbind at 1, io_bind at 1. rewrite E1.
  destruct (get_counts (E := model_exc) cfg now (cost_key tenant provider model) (Some (CJson (JNum 0))) m1 n1 s1 Hm1)
    as (raw & m2 & E2 & Hm2).
  { intros Hnone. destruct Hn1 as [->|[_ [v Hv]]]; [done|]. by rewrite Hv in Hnone. }
  unfold mbind at 1, io_bind at 1. rewrite E2. pose proof (counting_answering _ _ _ Hm2) as Ha.
  destruct o; (destruct (_ <?q _); [done|]); unfold mbind, io_bind;
    (edestruct (set_counts (E := model_exc) cfg now (cost_key tenant provider model)) as (m3 & E3 & Hm3); [exact Hm2|]);
    rewrite E3; by eapply counting_answering.
Qed.
Lemma ceiling_no_client now m : cm_client m = None ->
  cm_client (check_cost_ceiling (St := St) cfg now tenant provider model tokens window t m).2 = None.
Proof.
  intros Hc. unfold check_cost_ceiling. destruct (List.find _ _) as [e|]; [|done]. destruct (_ <=?q _); [done|].
  set (key := cost_key tenant provider model).
  pose proof (no_client_increment (E := model_exc) cfg now key (py_int (inject_Z tokens / 1000 * cost_ceiling_per_1k e * 1000)) m Hc) as H1.
  unfold mbind at 1, io_bind at 1. destruct (increment _ _ _ _ m) as [[o|x] m1]; [|done].
  pose proof (no_client_get (E := model_exc) cfg now key (Some (CJson (JNum 0))) m1 H1) as H2.
  unfold mbind at 1, io_bind at 1. destruct (get _ _ _ _ m1) as [[raw|x] m2]; [|done].
  destruct o; (destruct (_ <?q _); [done|]); unfold mbind, io_bind;
    match goal with |- context [set ?c ?n ?k ?v ?w m2] =>
      pose proof (no_client_set (E := model_exc) c n k v w m2 H2) as H3; by destruct (set c n k v w m2) as [[]] end.
Qed.

Lemma ceiling_answering now m : resilient cfg m ->
  answering (check_cost_ceiling (St := St) cfg now tenant provider model tokens window t m).2.
Proof.
  intros [Hc|(n & s & Hm & Hn & H1)]; [by apply no_client_answering, ceiling_no_client|by eapply ceiling_counts].
Qed.
End ceiling_cache.

Section ceiling_theorem.
Context {St : Type} `{KV : RedisKV St cached} (cfg : CacheConfig).
Context (tenant provider model : string) (t : list ModelEntry) (e : ModelEntry).
Context (Hfind : List.find (fun e => me_enabled e && is_pair provider model e) (list_by_tenant tenant t) = Some e).
Context (Hpos : (0 < cost_ceiling_per_1k e)%Q).
Abbreviation key := (cost_key tenant provider model).

Lemma check_step now n w (m : CacheManager St) total : cm_client m = None ->
  (spent key m == cost_ceiling_per_1k e * inject_Z total)%Q ->
  exists m', check_cost_ceiling cfg now tenant provider model n w t m
    = (if total + n <=? 1000 then Ret tt
       else Raise (CostCeilingExceeded provider model (cost_ceiling_per_1k e)
                     ((spent key m + inject_Z n / 1000 * cost_ceiling_per_1k e * 1000) / 1000)), m')
  /\ cm_client m' = None
  /\ (total + n <= 1000 -> (spent key m' == cost_ceiling_per_1k e * inject_Z (total + n))%Q).
Proof.
  intros Hc Hs. unfold check_cost_ceiling. rewrite Hfind.
  assert (E0 : (cost_ceiling_per_1k e <=?q 0)%Q = false) by (apply Qleb_false; exact Hpos).
  rewrite E0. unfold increment, get, or_local, mbind, io_bind, get_st. rewrite Hc. cbn [mret io_ret]. rewrite Hc.
  unfold mret, io_ret. cbv beta iota.
  change (number_of (local_get key (Some (CJson (JNum 0))) m)) with (spent key m).
  set (c := cost_ceiling_per_1k e) in *. set (used := ((spent key m + inject_Z n / 1000 * c * 1000) / 1000)%Q).
  assert (Hu : (used == c * inject_Z (total + n) / 1000)%Q).
  { unfold used. rewrite Hs, inject_Z_plus. field. }
  assert (Hcmp : c <?q used = negb (total + n <=? 1000)).
  { destruct (Z.leb_spec (total + n) 1000) as [Hle|Hgt]; cbn.
    - apply Qltb_false. rewrite Hu. assert (H1 : (inject_Z (total + n) <= 1000)%Q) by (change 1000%Q with (inject_Z 1000); by rewrite <- Zle_Qle).
      assert (H2 : (c * inject_Z (total + n) <= c * 1000)%Q) by (apply Qmult_le_l; done).
      apply Qle_shift_div_r; [reflexivity|]. exact H2.
    - apply Qltb_true. rewrite Hu. assert (H1 : (1000 < inject_Z (total + n))%Q) by (change 1000%Q with (inject_Z 1000); by rewrite <- Zlt_Qlt).
      assert (H2 : (c * 1000 < c * inject_Z (total + n))%Q) by (apply Qmult_lt_l; done).
      apply Qlt_shift_div_l; [reflexivity|]. exact H2. }
  rewrite Hcmp. destruct (Z.leb_spec (total + n) 1000) as [Hle|Hgt]; cbn [negb].
  - unfold set, or_local, mbind, io_bind, get_st. rewrite Hc. eexists. split_and!; [done|done|]. intros _.
    unfold spent, local_get. cbn. rewrite lookup_insert_eq. cbn. fold (spent key m).
    rewrite inject_Z_plus, Hs. field.
  - eexists. split_and!; [done|done|lia].
Qed.

(** Without Redis, whatever the ceiling of a pair, the tokens of a tenant that
    pass in the life of the process are a thousand: the requests all pass
    exactly when their tokens are at most that many. *)
Theorem ceiling_is_a_thousand_tokens w requests (m : CacheManager St) : cm_client m = None ->
  cm_local m !! key = None -> Forall (fun r => 0 < r.2) requests ->
  ((check_all cfg tenant provider model w t requests m).1 = Ret tt
   <-> sum_list_with (fun r => Z.to_nat r.2) requests <= 1000)%nat.
Proof.
  intros Hc Hl Hn.
  assert (Hgen : forall total m, cm_client m = None -> 0 <= total <= 1000 ->
    (spent key m == cost_ceiling_per_1k e * inject_Z total)%Q ->
    ((check_all cfg tenant provider model w t requests m).1 = Ret tt
     <-> total + Z.of_nat (sum_list_with (fun r => Z.to_nat r.2) requests) <= 1000)).
  { clear m Hc Hl. induction Hn as [|[now n] requests Hn1 Hn IH]; intros total m Hc Ht Hs; cbn [check_all sum_list_with].
    - cbn. split; [lia|done].
    - cbn in Hn1. unfold mbind, io_bind. destruct (check_step now n w m total Hc Hs) as (m' & -> & Hc' & Hs').
      cbn [snd]. destruct (Z.leb_spec (total + n) 1000) as [Hle|Hgt].
      + rewrite (IH (total + n)); [|done|lia|by apply Hs']. lia.
      + split; [done|lia]. }
  rewrite (Hgen 0 m Hc ltac:(lia)); [split; intros ?; lia|]. unfold spent, local_get. rewrite Hl. change (number_of _) with (inject_Z 0). ring.
Qed.
End ceiling_theorem.

(** ** Concrete catalogs *)

Module CatalogSample.
Definition rows : list ModelEntry :=
  (set_enabled "3" "t" false (create "3" "t" "p" "off" 0 0
    (create "2" "t" "p" "big" 50 2 (create "1" "t" "p" "small" 2 1 []).2).2).2).2.
Definition local : CacheManager (kv_map cached) := new_cache_manager None.
Definition checks (model : string) (tokens : list Z) : outcome model_exc unit :=
  (check_all default_cache_config "t" "p" model 86400 rows (map (fun n => (0, n)) tokens) local).1.
End CatalogSample.

(** A disabled model falls back; dear or cheap, the thousand and first token of
    the day is refused. *)
Example catalog_sample :
  resolve_model "t" "p" "off" CatalogSample.rows = inl ("p", "small")
  /\ CatalogSample.checks "small" [600; 400] = Ret tt /\ CatalogSample.checks "big" [600; 400] = Ret tt
  /\ (exists u, CatalogSample.checks "small" [600; 401] = Raise (CostCeilingExceeded "p" "small" 2 u))
  /\ (exists u, CatalogSample.checks "big" [600; 401] = Raise (CostCeilingExceeded "p" "big" 50 u)).
Proof. vm_compute. split_and!; try done; by eexists. Qed.

Lemma ceiling_is_a_thousand_tokens_witness :
  CatalogSample.checks "big" [600; 401] = Ret tt
  <-> (sum_list_with (fun r : Z * Z => Z.to_nat r.2) [(0, 600)%Z; (0, 401)%Z] <= 1000)%nat.
Proof.
  unfold CatalogSample.checks. cbn [map].
  eapply (ceiling_is_a_thousand_tokens default_cache_config "t" "p" "big" CatalogSample.rows _ eq_refl eq_refl 86400
            [(0, 600); (0, 401)] CatalogSample.local eq_refl eq_refl).
  repeat constructor.
Defined.
