(* ===== verification/JobQueue.v ===== *)
(** * Job queue (backend/app/infrastructure/queue/manager.py)

    Jobs in three priority lists and their schedules over Redis, or in one
    in-process list without it; idempotency keys, retries, dead letters and
    their drain, the sweep of cleanup/service.py and the scheduler of
    worker/main.py.  A job on a list is its JSON value.  Instants are seconds;
    [local_offset] is the offset of the process's time zone, which
    [datetime.timestamp()] applies to the naive UTC instants of jobs. *)

From S2P Require Import Prelude Json Redis Resilience.

(** ** Redis lists, sorted sets and keys

    What the queue relies on: each command acts on the data as documented. *)

Record queue_data := {
  q_lists : gmap string (list json);            (* head first; no list is empty *)
  q_zsets : gmap string (list (json * Q));
  q_keys : gmap string Z;                       (* expiry instants, in milliseconds *)
}.

Definition list_at (k : string) (d : queue_data) : list json := default [] (q_lists d !! k).
Definition zset_at (k : string) (d : queue_data) : list (json * Q) := default [] (q_zsets d !! k).

Definition put_list (k : string) (l : list json) (d : queue_data) : queue_data := {|
  q_lists := match l with [] => delete k (q_lists d) | _ => <[k := l]> (q_lists d) end;
  q_zsets := q_zsets d; q_keys := q_keys d |}.
Definition put_zset (k : string) (l : list (json * Q)) (d : queue_data) : queue_data := {|
  q_lists := q_lists d; q_zsets := <[k := l]> (q_zsets d); q_keys := q_keys d |}.

#[export] Instance json_eq_dec : EqDecision json.
Proof.
  refine (fix go (v v' : json) : Decision (v = v') :=
    match v, v' with
    | JNull, JNull => left eq_refl
    | JBool b, JBool b' => cast_if (decide (b = b'))
    | JNum z, JNum z' => cast_if (decide (z = z'))
    | JStr s, JStr s' => cast_if (decide (s = s'))
    | JList l, JList l' => cast_if ((fix go_list (l l' : list json) : Decision (l = l') :=
        match l, l' with
        | [], [] => left eq_refl
        | x :: l, x' :: l' => cast_if_and (go x x') (go_list l l')
        | _, _ => right _
        end) l l')
    | JObj l, JObj l' => cast_if ((fix go_obj (l l' : list (string * json)) : Decision (l = l') :=
        match l, l' with
        | [], [] => left eq_refl
        | (k, x) :: l, (k', x') :: l' => cast_if_and3 (decide (k = k')) (go x x') (go_obj l l')
        | _, _ => right _
        end) l l')
    | _, _ => right _
    end); abstract naive_solver.
Defined.

Definition spec_lpush (k : string) (v : json) (d : queue_data) : queue_data := put_list k (v :: list_at k d) d.
Definition spec_rpop (k : string) (d : queue_data) : option json * queue_data :=
  match last (list_at k d) with
  | Some v => (Some v, put_list k (removelast (list_at k d)) d)
  | None => (None, d)
  end.
Definition spec_ltrim (k : string) (n : nat) (d : queue_data) : queue_data := put_list k (drop n (list_at k d)) d.
Definition spec_zadd (k : string) (v : json) (score : Q) (d : queue_data) : queue_data :=
  put_zset k (List.filter (fun e => negb (bool_decide (e.1 = v))) (zset_at k d) ++ [(v, score)]) d.
Definition spec_zrem (k : string) (v : json) (d : queue_data) : queue_data :=
  put_zset k (List.filter (fun e => negb (bool_decide (e.1 = v))) (zset_at k d)) d.
Definition key_live (now : Z) (k : string) (d : queue_data) : bool :=
  match q_keys d !! k with Some t => now <? t | None => false end.
Definition spec_setnx (now : Z) (k : string) (ttl : Z) (d : queue_data) : bool * queue_data :=
  if key_live now k d then (false, d)
  else (true, {| q_lists := q_lists d; q_zsets := q_zsets d; q_keys := <[k := now + ttl]> (q_keys d) |}).
(** The members with a score in an interval. *)
Definition in_score (lo hi : Q) (l : list (json * Q)) : list (json * Q) :=
  List.filter (fun e => (lo <=?q e.2) && (e.2 <=?q hi)) l.

Class RedisQueue (St : Type) := {
  view : St -> queue_data;
  q_lpush : string -> json -> St -> St;
  q_rpop : string -> St -> option json * St;
  q_ltrim : string -> nat -> St -> St;
  q_zadd : string -> json -> Q -> St -> St;
  q_zrem : string -> json -> St -> St;
  q_zrangebyscore : string -> Q -> Q -> St -> list json;
  q_setnx : Z -> string -> Z -> St -> bool * St;
  (** SCAN returns every key once or more. *)
  q_scan : (string -> bool) -> St -> list string;
  view_lpush k v s : view (q_lpush k v s) = spec_lpush k v (view s);
  view_rpop k s : (q_rpop k s).1 = (spec_rpop k (view s)).1 /\ view (q_rpop k s).2 = (spec_rpop k (view s)).2;
  view_ltrim k n s : view (q_ltrim k n s) = spec_ltrim k n (view s);
  view_zadd k v q s : view (q_zadd k v q s) = spec_zadd k v q (view s);
  view_zrem k v s : view (q_zrem k v s) = spec_zrem k v (view s);
  zrange_members k lo hi s : q_zrangebyscore k lo hi s ≡ₚ map fst (in_score lo hi (zset_at k (view s)));
  view_setnx now k ttl s :
    (q_setnx now k ttl s).1 = (spec_setnx now k ttl (view s)).1
    /\ view (q_setnx now k ttl s).2 = (spec_setnx now k ttl (view s)).2;
  elem_of_scan p s k : k ∈ q_scan p s <-> p k = true /\ list_at k (view s) <> [];
}.

(** ** Jobs *)

Record Job := {
  j_id : string;
  j_type : string;
  j_payload : list (string * json);
  priority : Z;
  scheduled_at : option Q;
  created_at : Q;
  retries : Z;
  max_retries : Z;
  j_error : option string;
  trace_id : string;
}.

Definition with_payload (p : list (string * json)) (j : Job) : Job := {|
  j_id := j_id j; j_type := j_type j; j_payload := p; priority := priority j; scheduled_at := scheduled_at j;
  created_at := created_at j; retries := retries j; max_retries := max_retries j; j_error := j_error j;
  trace_id := trace_id j |}.
(** [job.error = ...; job.retries += 1] *)
Definition failed_once (e : string) (j : Job) : Job := {|
  j_id := j_id j; j_type := j_type j; j_payload := j_payload j; priority := priority j;
  scheduled_at := scheduled_at j; created_at := created_at j; retries := retries j + 1;
  max_retries := max_retries j; j_error := Some e; trace_id := trace_id j |}.
Definition rescheduled (at_ : Q) (j : Job) : Job := {|
  j_id := j_id j; j_type := j_type j; j_payload := j_payload j; priority := priority j;
  scheduled_at := Some at_; created_at := created_at j; retries := retries j;
  max_retries := max_retries j; j_error := j_error j; trace_id := trace_id j |}.
Definition revived (j : Job) : Job := {|
  j_id := j_id j; j_type := j_type j; j_payload := j_payload j; priority := priority j;
  scheduled_at := scheduled_at j; created_at := created_at j; retries := 0;
  max_retries := max_retries j; j_error := None; trace_id := trace_id j |}.

Record QueueConfig := {
  prefix : string;
  dead_letter_prefix : string;
  retry_min_delay : Q;
  poll_interval : Q;
  idempotency_ttl_seconds : Z;
  breaker_config : CircuitBreakerConfig;
}.

Definition DEFAULT_QUEUE_CONFIG : QueueConfig := {|
  prefix := "neryva:queue:"; dead_letter_prefix := "neryva:dead:"; retry_min_delay := 1; poll_interval := 1;
  idempotency_ttl_seconds := 86400;
  breaker_config := {| failure_threshold := 3; recovery_timeout := 15; half_open_max_calls := 3;
                       consecutive_successes_to_close := 2 |} |}.

Inductive queue_exc :=
| RedisDown
| CircuitOpen
| AttributeError            (* no in-memory queue was created *)
| BadJob
(** Not an exception: a BRPOP without a timeout, until a job is pushed on the list. *)
| BlocksOn (key : string).

(** ** The manager *)

Record QueueManager (St W : Type) := {
  client : option (redis St);
  in_memory : option (list json);               (* _in_memory_queue *)
  idem_seen : gset string;
  idem_processed : gset string;
  dead_letters : list json;
  circuit : CircuitBreaker;
  outside : W;                                  (* what the handlers act on *)
}.
Arguments client {St W}. Arguments in_memory {St W}. Arguments idem_seen {St W}.
Arguments idem_processed {St W}. Arguments dead_letters {St W}. Arguments circuit {St W}. Arguments outside {St W}.

Section serialization.
Context (isoformat : Q -> string) (fromisoformat : string -> option Q).

Definition opt_str (o : option string) : json := match o with Some s => JStr s | None => JNull end.

Definition _serialize_job (j : Job) : json := JObj [
  ("id", JStr (j_id j)); ("type", JStr (j_type j)); ("payload", JObj (j_payload j));
  ("priority", JNum (priority j)); ("scheduled_at", opt_str (isoformat <$> scheduled_at j));
  ("created_at", JStr (isoformat (created_at j))); ("retries", JNum (retries j));
  ("max_retries", JNum (max_retries j)); ("error", opt_str (j_error j)); ("trace_id", JStr (trace_id j))].

Definition str_of (v : option json) : option string := match v with Some (JStr s) => Some s | _ => None end.
Definition num_of (d : Z) (v : option json) : Z := match v with Some (JNum z) => z | _ => d end.

(** [None]: a missing field or a malformed date raises. *)
Definition _deserialize_job (v : json) : option Job :=
  id ← str_of (get_field "id" v);
  ty ← str_of (get_field "type" v);
  created ← str_of (get_field "created_at" v) ≫= fromisoformat;
  scheduled ← match str_of (get_field "scheduled_at" v) with
              | Some s => if truthy s then Some <$> fromisoformat s else Some None
              | None => Some None
              end;
  Some {| j_id := id; j_type := ty;
          j_payload := match get_field "payload" v with Some (JObj p) => p | _ => [] end;
          priority := num_of 0 (get_field "priority" v); scheduled_at := scheduled; created_at := created;
          retries := num_of 0 (get_field "retries" v); max_retries := num_of 3 (get_field "max_retries" v);
          j_error := str_of (get_field "error" v);
          trace_id := default EmptyString (str_of (get_field "trace_id" v)) |}.
End serialization.

Section manager.
Context (isoformat : Q -> string) (fromisoformat : string -> option Q) (local_offset : Q).
Context (config : QueueConfig) {St W : Type} {HQ : RedisQueue St}.

Abbreviation manager := (QueueManager St W).
(** A handler acts on the manager, whose queue is also its own, and outside. *)
Context (handlers : gmap string (list (string * json) -> io manager string unit)) (uniform : Q -> Q -> Q).
Abbreviation queue A := (io manager queue_exc A).
Abbreviation serialize := (_serialize_job isoformat).
Abbreviation deserialize := (_deserialize_job fromisoformat).

Definition with_client (r : redis St) (q : manager) : manager := {|
  client := Some r; in_memory := in_memory q; idem_seen := idem_seen q; idem_processed := idem_processed q;
  dead_letters := dead_letters q; circuit := circuit q; outside := outside q |}.
Definition with_memory (l : list json) (q : manager) : manager := {|
  client := client q; in_memory := Some l; idem_seen := idem_seen q; idem_processed := idem_processed q;
  dead_letters := dead_letters q; circuit := circuit q; outside := outside q |}.
Definition with_seen (x : gset string) (q : manager) : manager := {|
  client := client q; in_memory := in_memory q; idem_seen := x; idem_processed := idem_processed q;
  dead_letters := dead_letters q; circuit := circuit q; outside := outside q |}.
Definition with_processed (x : gset string) (q : manager) : manager := {|
  client := client q; in_memory := in_memory q; idem_seen := idem_seen q; idem_processed := x;
  dead_letters := dead_letters q; circuit := circuit q; outside := outside q |}.
Definition with_dead (l : list json) (q : manager) : manager := {|
  client := client q; in_memory := in_memory q; idem_seen := idem_seen q; idem_processed := idem_processed q;
  dead_letters := l; circuit := circuit q; outside := outside q |}.
Definition with_circuit (b : CircuitBreaker) (q : manager) : manager := {|
  client := client q; in_memory := in_memory q; idem_seen := idem_seen q; idem_processed := idem_processed q;
  dead_letters := dead_letters q; circuit := b; outside := outside q |}.
Definition with_outside (w : W) (q : manager) : manager := {|
  client := client q; in_memory := in_memory q; idem_seen := idem_seen q; idem_processed := idem_processed q;
  dead_letters := dead_letters q; circuit := circuit q; outside := w |}.

(** A command of the client; without one, [None] has no such method. *)
Definition command {A} (f : St -> A * St) : queue A := fun q =>
  match client q with
  | None => (Raise AttributeError, q)
  | Some r => match redis_call f r with
              | (Ret a, r') => (Ret a, with_client r' q)
              | (Raise _, r') => (Raise RedisDown, with_client r' q)
              end
  end.

(** The instant [now] in the server's milliseconds. *)
Definition ms (now : Q) : Z := Qfloor (now * 1000).

(** [await self._circuit_breaker.call(...)] *)
Definition guarded {A} (now : Q) (c : queue A) : queue A := fun q =>
  match call_guard (breaker_config config) now (circuit q) with
  | (Raise _, b) => (Raise CircuitOpen, with_circuit b q)
  | (Ret _, b) =>
      match c (with_circuit b q) with
      | (Ret a, q') => (Ret a, with_circuit (_record_success (breaker_config config) (circuit q')) q')
      | (Raise e, q') => (Raise e, with_circuit (_record_failure (breaker_config config) now (circuit q')) q')
      end
  end.

Definition _queue_key (p : Z) : string :=
  prefix config +:+ (if 0 <? p then "high" else if p <? 0 then "low" else "default").
Definition _dead_key (job_type : string) : string := dead_letter_prefix config +:+ job_type.

(** ** Enqueue *)

Definition _claim_idempotency (now : Q) (key : string) : queue bool :=
  q ← get_st;
  match client q with
  | Some _ => command (q_setnx (ms now) (prefix config +:+ "idem:" +:+ key) (1000 * idempotency_ttl_seconds config))
  | None =>
      if decide (key ∈ idem_seen q) then mret false
      else _ ← modify (with_seen ({[key]} ∪ idem_seen q)); mret true
  end.

(** [job.scheduled_at.timestamp()] *)
Definition timestamp (t : Q) : Q := (t - local_offset)%Q.

Definition _redis_enqueue (now : Q) (j : Job) : queue unit :=
  let key := _queue_key (priority j) in
  match scheduled_at j with
  | Some t => if now <?q t
              then command (fun s => (tt, q_zadd (key +:+ ":scheduled") (serialize j) (timestamp t) s))
              else command (fun s => (tt, q_lpush key (serialize j) s))
  | None => command (fun s => (tt, q_lpush key (serialize j) s))
  end.

Definition enqueue (now : Q) (j : Job) (idempotency_key : option string) : queue bool :=
  claimed ← (match idempotency_key with
             | Some k => if truthy k then _claim_idempotency now k else mret true
             | None => mret true
             end);
  if negb claimed then mret true
  else
    let j := match idempotency_key with
             | Some k => if truthy k then with_payload (dict_set "_idem" (JStr k) (j_payload j)) j else j
             | None => j
             end in
    q ← get_st;
    match client q, in_memory q with
    | Some _, _ => try_catch (_ ← guarded now (_redis_enqueue now j); mret true) (fun _ => mret false)
    | None, Some l => _ ← modify (with_memory (l ++ [serialize j])); mret true
    | None, None => throw AttributeError
    end.

(** ** Dequeue *)

(** One transaction moves the due jobs of a priority to its list. *)
Definition _move_scheduled (now : Q) (key : string) : queue unit :=
  jobs ← command (fun s => (q_zrangebyscore (key +:+ ":scheduled") 0 now s, s));
  match jobs with
  | [] => mret tt
  | _ => command (fun s => (tt, foldl (fun s v => q_zrem (key +:+ ":scheduled") v (q_lpush key v s)) s jobs))
  end.

Definition queue_keys : list string := [_queue_key 1; _queue_key 0; _queue_key (-1)].

Definition _move_scheduled_jobs (now : Q) : queue unit := for_each (_move_scheduled now) queue_keys.

(** What others do to the lanes while a worker waits: a job is pushed on the
    list of a priority, or taken off it. *)
Inductive traffic := Pushed (p : Z) (v : json) | Taken (p : Z).

Definition other_command (t : traffic) (s : St) : St :=
  match t with
  | Pushed p v => q_lpush (_queue_key p) v s
  | Taken p => (q_rpop (_queue_key p) s).2
  end.

(** BRPOP takes an item at once, or else the first one that is pushed on the
    list before the timeout; [wait] is what others do until then. *)
Fixpoint brpop (k : string) (wait : list traffic) (s : St) : option json * St :=
  match q_rpop k s with
  | (Some v, s) => (Some v, s)
  | (None, s) => match wait with
                 | [] => (None, s)
                 | t :: wait => brpop k wait (other_command t s)
                 end
  end.

(** [for queue_key in ...: brpop(queue_key, timeout=int(timeout))]; what
    others do during the wait on each list is [others]. *)
Fixpoint pop_first (others : string -> list traffic) (timeout : Q) (keys : list string) : queue (option json) :=
  match keys with
  | [] => mret None
  | k :: ks =>
      v ← command (brpop k (others k));
      match v with
      | Some v => mret (Some v)
      | None => if py_int timeout =? 0 then throw (BlocksOn k) else pop_first others timeout ks
      end
  end.

Definition _redis_dequeue (others : string -> list traffic) (now timeout : Q) : queue (option Job) :=
  _ ← _move_scheduled_jobs now;
  v ← pop_first others timeout queue_keys;
  match v with
  | None => mret None
  | Some v => match deserialize v with Some j => mret (Some j) | None => throw BadJob end
  end.

Definition dequeue (others : string -> list traffic) (now timeout : Q) : queue (option Job) :=
  q ← get_st;
  match client q, in_memory q with
  | Some _, _ => try_catch (guarded now (_redis_dequeue others now timeout))
                   (fun e => match e with BlocksOn k => throw (BlocksOn k) | _ => mret None end)
  | None, Some (v :: l) =>
      _ ← modify (with_memory l);
      match deserialize v with Some j => mret (Some j) | None => throw BadJob end
  | None, Some [] => mret None
  | None, None => throw AttributeError
  end.

(** ** Processing *)

Definition _send_to_dead_letter (j : Job) : queue unit :=
  q ← get_st;
  match client q with
  | None => modify (with_dead (dead_letters q ++ [serialize j]))
  | Some _ => try_catch (command (fun s => (tt, q_lpush (_dead_key (j_type j)) (serialize j) s)))
                (fun _ => mret tt)
  end.

(** The idempotency key a payload carries. *)
Definition idem_key (j : Job) : option string :=
  match str_of (field "_idem" (j_payload j)) with
  | Some k => if truthy k then Some k else None
  | None => None
  end.

Definition already_processed (j : Job) (q : manager) : bool :=
  match idem_key j with Some k => bool_decide (k ∈ idem_processed q) | None => false end.

Definition mark_processed (j : Job) (q : manager) : manager :=
  match idem_key j with Some k => with_processed ({[k]} ∪ idem_processed q) q | None => q end.

Definition retry_delay (n : Z) : Q :=
  backoff_delay {| min_delay := retry_min_delay config; max_delay := 60; jitter := 0.1; multiplier := 2 |}
    uniform (Z.to_nat n).

(** [try: await handler(...)]: the text of the exception, if there was one. *)
Definition handler_error (c : io manager string unit) : queue (option string) := fun q =>
  match c q with
  | (Ret _, q) => (Ret None, q)
  | (Raise e, q) => (Ret (Some e), q)
  end.

Definition process_job (now : Q) (j : Job) : queue bool :=
  q ← get_st;
  if already_processed j q then mret true
  else
    match handlers !! j_type j with
    | None => _ ← _send_to_dead_letter j; mret false
    | Some handler =>
        error ← handler_error (handler (j_payload j));
        match error with
        | None => _ ← modify (mark_processed j); mret true
        | Some e =>
            let j := failed_once e j in
            if retries j <? max_retries j then
              _ ← enqueue now (rescheduled (now + retry_delay (retries j)) j) None; mret false
            else _ ← _send_to_dead_letter j; mret false
        end
    end.

(** One turn of [process_loop]: what was processed, if anything. *)
Definition process_turn (others : string -> list traffic) (now : Q) : queue (option bool) :=
  j ← dequeue others now (poll_interval config);
  match j with
  | None => mret None
  | Some j => ok ← process_job now j; mret (Some ok)
  end.

(** ** Inspection and drain *)

Definition get_queue_length (p : Z) : queue Z :=
  q ← get_st;
  match client q, in_memory q with
  | Some _, _ => command (fun s => (Z.of_nat (length (list_at (_queue_key p) (view s))), s))
  | None, Some l => mret (Z.of_nat (length l))
  | None, None => throw AttributeError
  end.

(** The lists of dead letters: of one type, or all; job types hold no pattern
    characters. *)
Definition is_dead_key (job_type : option string) (k : string) : bool :=
  match job_type with
  | Some t => if truthy t then bool_decide (k = _dead_key t) else String.prefix (dead_letter_prefix config) k
  | None => String.prefix (dead_letter_prefix config) k
  end.

Definition of_type (t : string) (v : json) : bool :=
  match deserialize v with Some j => bool_decide (j_type j = t) | None => false end.

Definition get_dead_letter_count (job_type : option string) : queue Z :=
  q ← get_st;
  match client q with
  | None =>
      mret (Z.of_nat (length (match job_type with
                              | Some t => if truthy t then List.filter (of_type t) (dead_letters q)
                                          else dead_letters q
                              | None => dead_letters q
                              end)))
  | Some _ =>
      keys ← command (fun s => (q_scan (is_dead_key job_type) s, s));
      foldr (fun k rest => n ← command (fun s => (Z.of_nat (length (list_at k (view s))), s));
                           m ← rest; mret (n + m)) (mret 0) keys
  end.

(** In memory and for one type: the drained items and the remaining ones. *)
Fixpoint drain_type (t : string) (room : nat) (items : list json) : list json * list json :=
  match items with
  | [] => ([], [])
  | v :: vs =>
      if of_type t v && (0 <? room)%nat then
        let '(out, rest) := drain_type t (pred room) vs in (v :: out, rest)
      else let '(out, rest) := drain_type t room vs in (out, v :: rest)
  end.

Definition parse_all (l : list json) : queue (list Job) :=
  match mapM deserialize l with Some js => mret js | None => throw BadJob end.

(** Over Redis: up to [limit] items of each list until enough were taken. *)
Fixpoint drain_lists (limit : nat) (drained : list Job) (keys : list string) : queue (list Job) :=
  match keys with
  | [] => mret drained
  | k :: ks =>
      items ← command (fun s => (take limit (list_at k (view s)), s));
      js ← (match items with
            | [] => mret []
            | _ => _ ← command (fun s => (tt, q_ltrim k (length items) s)); parse_all items
            end);
      if (limit <=? length (drained ++ js))%nat then mret (drained ++ js)
      else drain_lists limit (drained ++ js) ks
  end.

(** For limits of one or more. *)
Definition drain_dead_letter (job_type : option string) (limit : nat) : queue (list Job) :=
  q ← get_st;
  match client q with
  | None =>
      let '(out, rest) := match job_type with
                          | Some t => if truthy t then drain_type t limit (dead_letters q)
                                      else (take limit (dead_letters q), drop limit (dead_letters q))
                          | None => (take limit (dead_letters q), drop limit (dead_letters q))
                          end in
      js ← parse_all out;
      _ ← modify (with_dead rest);
      mret js
  | Some _ =>
      keys ← (match job_type with
              | Some t => if truthy t then mret [_dead_key t] else command (fun s => (q_scan (is_dead_key None) s, s))
              | None => command (fun s => (q_scan (is_dead_key None) s, s))
              end);
      js ← drain_lists limit [] keys;
      mret (take limit js)
  end.

(** [CleanupService.sweep_dead_letter]: how many were drained and requeued. *)
Fixpoint requeue_all (now : Q) (js : list Job) : queue Z :=
  match js with
  | [] => mret 0
  | j :: js' =>
      if truthy (j_type j) then
        ok ← enqueue now (revived j) None;
        n ← requeue_all now js';
        mret (n + if ok : bool then 1 else 0)
      else requeue_all now js'
  end.

Definition sweep_dead_letter (now : Q) (job_type : option string) (limit : nat) (requeue : bool) : queue (Z * Z) :=
  drained ← drain_dead_letter job_type limit;
  requeued ← (if requeue then requeue_all now drained else mret 0);
  mret (Z.of_nat (length drained), requeued).

(** ** The scheduler of the worker *)

Record schedule_entry := { sc_name : string; sc_type : string; sc_payload : list (string * json); sc_interval : Q }.

Definition window_index (now : Q) (e : schedule_entry) : Z := Qfloor (now / sc_interval e).

Definition schedule_key (e : schedule_entry) (window : Z) : string :=
  "schedule:" +:+ sc_name e +:+ ":" +:+ pretty window.

(** One pass over the entries, with the window each last ran in. *)
Fixpoint schedule_pass (now : Q) (new_id : nat -> string) (last_run : gmap string Z) (entries : list schedule_entry)
  : queue (gmap string Z) :=
  match entries with
  | [] => mret last_run
  | e :: es =>
      let window := window_index now e in
      if decide (last_run !! sc_name e = Some window) then schedule_pass now new_id last_run es
      else
        _ ← enqueue now {| j_id := new_id (length es); j_type := sc_type e; j_payload := sc_payload e; priority := 0;
                           scheduled_at := None; created_at := now; retries := 0; max_retries := 3;
                           j_error := None; trace_id := EmptyString |} (Some (schedule_key e window));
        schedule_pass now new_id (<[sc_name e := window]> last_run) es
  end.
End manager.

(** ** Serialization *)

Section serialization_lemmas.
Context (isoformat : Q -> string) (fromisoformat : string -> option Q).

Lemma job_read_back (Hiso : forall t, truthy (isoformat t) = true /\ fromisoformat (isoformat t) = Some t) (j : Job) :
  _deserialize_job fromisoformat (_serialize_job isoformat j) = Some j.
Proof.
  destruct j as [id ty pl pr sc cr re mx er tr]. set (j := Build_Job _ _ _ _ _ _ _ _ _ _).
  unfold _deserialize_job. set (v := _serialize_job isoformat j).
  change (get_field "id" v) with (Some (JStr id)). change (get_field "type" v) with (Some (JStr ty)).
  change (get_field "created_at" v) with (Some (JStr (isoformat cr))).
  change (get_field "scheduled_at" v) with (Some (opt_str (isoformat <$> sc))).
  change (get_field "payload" v) with (Some (JObj pl)). change (get_field "priority" v) with (Some (JNum pr)).
  change (get_field "retries" v) with (Some (JNum re)). change (get_field "max_retries" v) with (Some (JNum mx)).
  change (get_field "error" v) with (Some (opt_str er)). change (get_field "trace_id" v) with (Some (JStr tr)).
  cbn. destruct (Hiso cr) as [_ ->]. cbn.
  destruct sc as [t|]; cbn; [destruct (Hiso t) as [-> ->]; cbn|]; by destruct er.
Qed.

(** A job survives its way through the queue: reading back what was written
    gives the same job, if [fromisoformat] reads what [isoformat] writes. *)
Theorem job_roundtrip (j : Job) :
  (forall t, truthy (isoformat t) = true /\ fromisoformat (isoformat t) = Some t) ->
  _deserialize_job fromisoformat (_serialize_job isoformat j) = Some j.
Proof. intros Hiso. by apply job_read_back. Qed.
End serialization_lemmas.

(** ** The lanes of the Redis queue *)

Lemma append_inj_l (p a b : string) : p +:+ a = p +:+ b -> a = b.
Proof. induction p as [|c p IH]; [done|]. cbn. intros [= E]. by apply IH. Qed.

Lemma list_at_put k l d k' : list_at k' (put_list k l d) = if decide (k' = k) then l else list_at k' d.
Proof.
  unfold list_at, put_list. cbn. destruct l as [|v l]; [rewrite lookup_delete|rewrite lookup_insert];
    repeat case_decide; naive_solver.
Qed.

Lemma zset_at_put_list k l d k' : zset_at k' (put_list k l d) = zset_at k' d.
Proof. done. Qed.

Section lanes.
Context (isoformat : Q -> string) (fromisoformat : string -> option Q) (local_offset : Q).
Context (config : QueueConfig) {St W : Type} {HQ : RedisQueue St}.

Abbreviation manager := (QueueManager St W).
Abbreviation serialize := (_serialize_job isoformat).
Abbreviation deserialize := (_deserialize_job fromisoformat).
Abbreviation enqueue := (enqueue isoformat local_offset config (W := W)).
Abbreviation dequeue := (dequeue fromisoformat config (W := W)).

(** Redis answers and the breaker is closed. *)
Definition serving (q : manager) (d : queue_data) : Prop :=
  exists r, client q = Some r /\ healthy r /\ view (store r) = d /\ state (circuit q) = CLOSED.

(** What waits in a lane, first to be delivered first. *)
Definition lane (p : Z) (d : queue_data) : list json := rev (list_at (_queue_key config p) d).

Definition delivery (d : queue_data) : list json := lane 1 d ++ lane 0 d ++ lane (-1) d.

(** Nothing scheduled is due. *)
Definition none_due (now : Q) (d : queue_data) : Prop :=
  Forall (fun k => in_score 0 now (zset_at (k +:+ ":scheduled") d) = []) (queue_keys config).

Lemma queue_key_class p : _queue_key config p = _queue_key config (Z.sgn p).
Proof.
  unfold _queue_key. f_equal.
  destruct (Z.sgn_spec p) as [[? ->]|[[<- ->]|[? ->]]]; repeat case_match; to_prop; try done; lia.
Qed.

Lemma queue_key_inj p p' : _queue_key config p = _queue_key config p' -> Z.sgn p = Z.sgn p'.
Proof.
  unfold _queue_key. intros E%append_inj_l.
  destruct (Z.sgn_spec p) as [[? ->]|[[? ->]|[? ->]]], (Z.sgn_spec p') as [[? ->]|[[? ->]|[? ->]]]; try done;
    repeat case_match; to_prop; try done; lia.
Qed.

Lemma command_serving {A} (f : St -> A * St) (q : manager) d :
  serving q d ->
  exists s q', view s = d /\ command f q = (Ret (f s).1, q') /\ serving q' (view (f s).2).
Proof.
  intros (r & Hc & Hh & Hv & Hs). exists (store r). unfold command. rewrite Hc.
  destruct (redis_call_healthy f r Hh) as (fs & -> & Hfs). eexists. split_and!; [done|reflexivity|].
  eexists. split_and!; [reflexivity|exact Hfs|done|exact Hs].
Qed.

Lemma closed_guard now b : state b = CLOSED -> call_guard (breaker_config config) now b = (Ret tt, b).
Proof. destruct b as [st ? ? ? ?]. cbn. by intros ->. Qed.

Lemma guarded_closed {A} now (c : io manager queue_exc A) (q : manager) a q' d :
  state (circuit q) = CLOSED -> c q = (Ret a, q') -> serving q' d ->
  exists q'', guarded config now c q = (Ret a, q'') /\ serving q'' d.
Proof.
  intros Hs Hc (r & Hcl & Hh & Hv & Hs'). unfold guarded.
  rewrite closed_guard by done. assert (Hq : with_circuit (circuit q) q = q) by (by destruct q). rewrite Hq, Hc.
  eexists. split; [reflexivity|]. exists r. split_and!; [done|done|done|]. cbn.
  unfold _record_success. by rewrite Hs'.
Qed.

Lemma serving_closed q d : serving q d -> state (circuit q) = CLOSED.
Proof. by intros (r & _ & _ & _ & ?). Qed.

Lemma redis_enqueue_serving now (j : Job) (q : manager) d :
  serving q d -> (forall t, scheduled_at j = Some t -> (t <= now)%Q) ->
  exists q', _redis_enqueue isoformat local_offset config now j q = (Ret tt, q')
    /\ serving q' (spec_lpush (_queue_key config (priority j)) (serialize j) d).
Proof.
  intros Hq Hnow. unfold _redis_enqueue. set (key := _queue_key config (priority j)).
  destruct (command_serving (fun s => (tt, q_lpush key (serialize j) s)) q d Hq) as (s & q' & <- & E & Hq').
  cbn in Hq'. rewrite view_lpush in Hq'. exists q'. split; [|done].
  destruct (scheduled_at j) as [t|]; [|exact E]. specialize (Hnow t eq_refl).
  destruct (now <?q t) eqn:En; [q_prop; lra|exact E].
Qed.

(** An enqueue without an idempotency key of a job that is not scheduled for
    later. *)
Lemma enqueue_serving now (j : Job) (q : manager) d :
  serving q d -> (forall t, scheduled_at j = Some t -> (t <= now)%Q) ->
  exists q', enqueue now j None q = (Ret true, q')
    /\ serving q' (spec_lpush (_queue_key config (priority j)) (serialize j) d).
Proof.
  intros Hq Hnow. destruct (redis_enqueue_serving now j q d Hq Hnow) as (q1 & E1 & Hq1).
  destruct (guarded_closed now _ q tt q1 _ (serving_closed _ _ Hq) E1 Hq1) as (q2 & E2 & Hq2).
  exists q2. split; [|done]. destruct Hq as (r & Hc & _). unfold JobQueue.enqueue.
  cbv [mbind io_bind mret io_ret get_st]. cbn [negb]. rewrite Hc. unfold try_catch. by rewrite E2.
Qed.

Lemma lane_lpush p p' v d :
  lane p' (spec_lpush (_queue_key config p) v d) = if decide (Z.sgn p' = Z.sgn p) then lane p' d ++ [v] else lane p' d.
Proof.
  unfold lane, spec_lpush. rewrite list_at_put. case_decide as Hk; case_decide as Hs; try done.
  - by rewrite Hk.
  - by apply queue_key_inj in Hk.
  - destruct Hk. by rewrite queue_key_class, Hs, <- queue_key_class.
Qed.

Lemma lane_rpop p p' d :
  lane p' (spec_rpop (_queue_key config p) d).2 = if decide (Z.sgn p' = Z.sgn p) then tail (lane p' d) else lane p' d.
Proof.
  unfold lane, spec_rpop. destruct (last _) as [v|] eqn:El; cbn [snd].
  - rewrite list_at_put. case_decide as Hk; case_decide as Hs; try done.
    + rewrite Hk. destruct (list_at _ d) as [|x l] using rev_ind; [done|].
      by rewrite removelast_last, rev_app_distr.
    + by apply queue_key_inj in Hk.
    + destruct Hk. by rewrite queue_key_class, Hs, <- queue_key_class.
  - apply last_None in El. case_decide as Hs; [|done].
    rewrite (queue_key_class p'), Hs, <- queue_key_class, El. done.
Qed.

Lemma rpop_lane p d : (spec_rpop (_queue_key config p) d).1 = head (lane p d).
Proof.
  unfold lane, spec_rpop. destruct (list_at _ d) as [|x l] using rev_ind; [done|].
  by rewrite last_snoc, rev_app_distr.
Qed.

Lemma zset_at_rpop k k' d : zset_at k' (spec_rpop k d).2 = zset_at k' d.
Proof. unfold spec_rpop. by destruct (last _). Qed.

Lemma move_scheduled_serving now keys (q : manager) d :
  serving q d -> Forall (fun k => in_score 0 now (zset_at (k +:+ ":scheduled") d) = []) keys ->
  exists q', for_each (_move_scheduled now) keys q = (Ret tt, q') /\ serving q' d.
Proof.
  intros Hq Hnone. revert q Hq. induction Hnone as [|k ks Hk _ IH]; intros q Hq; cbn [for_each]; [by exists q|].
  unfold mbind at 1, io_bind at 1, _move_scheduled, mbind at 1, io_bind at 1.
  destruct (command_serving (fun s => (q_zrangebyscore (k +:+ ":scheduled") 0 now s, s)) q d Hq)
    as (s & q' & Hs & -> & Hq'). cbn [fst snd] in *.
  pose proof (zrange_members (k +:+ ":scheduled") 0 now s) as Hz. rewrite Hs, Hk in Hz.
  apply Permutation_nil_r in Hz. rewrite Hz. rewrite Hs in Hq'. by apply IH.
Qed.

(** *** The specification: three first-in first-out lanes *)

Definition lanes := Z -> list json.

Definition push_lane (p : Z) (v : json) (L : lanes) : lanes :=
  fun p' => if decide (Z.sgn p' = Z.sgn p) then L p' ++ [v] else L p'.
Definition take_lane (p : Z) (L : lanes) : lanes :=
  fun p' => if decide (Z.sgn p' = Z.sgn p) then tail (L p') else L p'.

Definition lane_traffic (t : traffic) (L : lanes) : lanes :=
  match t with Pushed p v => push_lane p v L | Taken p => take_lane p L end.

(** The first of a lane, or the first to arrive on it while others act. *)
Fixpoint await_lane (p : Z) (wait : list traffic) (L : lanes) : option json * lanes :=
  match L p with
  | v :: _ => (Some v, take_lane p L)
  | [] => match wait with
          | [] => (None, L)
          | t :: wait => await_lane p wait (lane_traffic t L)
          end
  end.

(** The lanes in turn: each one is waited on before the next is looked at. *)
Fixpoint serve_lanes (others : Z -> list traffic) (ps : list Z) (L : lanes) : option json * lanes :=
  match ps with
  | [] => (None, L)
  | p :: ps => match await_lane p (others p) L with
               | (Some v, L') => (Some v, L')
               | (None, L') => serve_lanes others ps L'
               end
  end.

Definition waits_of (others : string -> list traffic) (p : Z) : list traffic := others (_queue_key config p).

(** The lists of [d] hold the lanes [L]. *)
Definition holds_lanes (L : lanes) (d : queue_data) : Prop := forall p, lane p d = L p.

Lemma holds_taken L p d : holds_lanes L d ->
  (spec_rpop (_queue_key config p) d).1 = head (L p) /\ holds_lanes (take_lane p L) (spec_rpop (_queue_key config p) d).2.
Proof.
  intros HL. split; [by rewrite rpop_lane, HL|]. intros p'. rewrite lane_rpop. unfold take_lane. by rewrite HL.
Qed.

Lemma take_empty_lane L p : L p = [] -> (forall p', Z.sgn p' = Z.sgn p -> L p' = L p) -> forall p', take_lane p L p' = L p'.
Proof. intros He Hs p'. unfold take_lane. case_decide as Hp; [|done]. by rewrite (Hs p' Hp), He. Qed.

Lemma lane_sgn p p' d : Z.sgn p = Z.sgn p' -> lane p d = lane p' d.
Proof. intros Hs. unfold lane. by rewrite (queue_key_class p), Hs, <- queue_key_class. Qed.

Lemma other_command_lanes L t (s : St) : holds_lanes L (view s) -> holds_lanes (lane_traffic t L) (view (other_command config t s)).
Proof.
  intros HL. destruct t as [p v|p]; cbn [other_command lane_traffic].
  - rewrite view_lpush. intros p'. rewrite lane_lpush. unfold push_lane. by rewrite HL.
  - destruct (view_rpop (_queue_key config p) s) as [_ ->]. by apply holds_taken.
Qed.

Lemma brpop_lanes p wait : forall L (s : St), holds_lanes L (view s) ->
  (brpop config (_queue_key config p) wait s).1 = (await_lane p wait L).1
  /\ holds_lanes (await_lane p wait L).2 (view (brpop config (_queue_key config p) wait s).2).
Proof.
  induction wait as [|t wait IH]; intros L s HL; cbn [brpop await_lane].
  all: destruct (view_rpop (_queue_key config p) s) as [H1 H2]; destruct (holds_taken L p _ HL) as [H3 H4]; rewrite H3 in H1;
    rewrite <- H2 in H4; destruct (q_rpop (_queue_key config p) s) as [o s']; cbn [fst snd] in *; subst o.
  all: destruct (L p) as [|v l] eqn:El; cbn [head fst snd]; [|done].
  all: assert (HL' : holds_lanes L (view s')) by
    (intros p'; rewrite H4; apply take_empty_lane; [done|]; intros p'' Hp; rewrite <- !HL; by apply lane_sgn).
  - done.
  - apply IH. by apply other_command_lanes.
Qed.

Lemma pop_first_serving others timeout ps : forall (q : manager) d L,
  serving q d -> holds_lanes L d -> py_int timeout <> 0 ->
  exists q' d', pop_first config others timeout (map (_queue_key config) ps) q
      = (Ret (serve_lanes (waits_of others) ps L).1, q')
    /\ serving q' d' /\ holds_lanes (serve_lanes (waits_of others) ps L).2 d'.
Proof.
  induction ps as [|p ps IH]; intros q d L Hq HL Ht; cbn [map pop_first serve_lanes]; [by exists q, d|].
  unfold mbind, io_bind. change (others (_queue_key config p)) with (waits_of others p).
  destruct (command_serving (brpop config (_queue_key config p) (waits_of others p)) q d Hq) as (s & q' & Hs & -> & Hq').
  subst d. destruct (brpop_lanes p (waits_of others p) L s HL) as [H1 H2]. rewrite H1.
  destruct (await_lane p (waits_of others p) L) as [[v|] L']; cbn [fst snd] in *.
  - by eexists _, _.
  - replace (py_int timeout =? 0) with false by (symmetry; by apply Z.eqb_neq). by eapply IH.
Qed.

Lemma serve_quiet others L : (forall p, others p = []) ->
  let '(o, L') := serve_lanes others [1; 0; -1] L in
  o = head (L 1 ++ L 0 ++ L (-1)) /\ L' 1 ++ L' 0 ++ L' (-1) = tail (L 1 ++ L 0 ++ L (-1)).
Proof.
  intros Hn. cbn [serve_lanes]. rewrite !Hn. cbn [await_lane]. unfold take_lane.
  destruct (L 1) as [|v1 l1] eqn:E1; [|by cbn; rewrite E1].
  destruct (L 0) as [|v0 l0] eqn:E0; [|by cbn; rewrite E1, E0].
  destruct (L (-1)) as [|v2 l2] eqn:E2; [|by cbn; rewrite E1, E0, E2]. by rewrite E1, E0, E2.
Qed.

(** C36: While Redis answers and the breaker is closed, the Redis lists implement three
    first-in first-out lanes: an accepted job that is not for later and has no
    idempotency key goes to the end of the lane of its priority and changes no
    other lane; a dequeue with a timeout of a second or more, when nothing
    scheduled is due, serves the lanes high, default, low in turn: the first
    of the lane, or when it is empty the first that others push on it during
    the wait, and only then the next lane, which the others' pushes and
    takings have changed.  Its result is the job served, if it can be read.
    When others do nothing during the waits, that is the first waiting job in
    the order of priorities, and nothing only when all lanes are empty. *)
Theorem lanes_refined (now timeout : Q) (q : manager) (d : queue_data) (L : lanes) :
  serving q d -> holds_lanes L d ->
  (forall j, (forall t, scheduled_at j = Some t -> (t <= now)%Q) ->
     exists q' d', enqueue now j None q = (Ret true, q') /\ serving q' d'
       /\ holds_lanes (push_lane (priority j) (serialize j) L) d')
  /\ (forall others o L', none_due now d -> 0 < py_int timeout ->
      serve_lanes (waits_of others) [1; 0; -1] L = (o, L') -> (forall v, o = Some v -> is_Some (deserialize v)) ->
      exists q' d', dequeue others now timeout q = (Ret (o ≫= deserialize), q')
        /\ serving q' d' /\ holds_lanes L' d'
        /\ ((forall k, others k = []) -> o = head (delivery d) /\ delivery d' = tail (delivery d))).
Proof.
  intros Hq HL. split.
  - intros j Hnow. destruct (enqueue_serving now j q d Hq Hnow) as (q' & E & Hq'). exists q'. eexists.
    split_and!; [exact E|exact Hq'|]. intros p. rewrite lane_lpush. unfold push_lane. by rewrite HL.
  - intros others o L' Hdue Ht Hs Hread. unfold JobQueue.dequeue. cbv [mbind io_bind get_st]. pose proof Hq as (r & Hc & _). rewrite Hc.
    destruct (move_scheduled_serving now (queue_keys config) q d Hq Hdue) as (q1 & E1 & Hq1).
    destruct (pop_first_serving others timeout [1; 0; -1] q1 d L Hq1 HL ltac:(lia)) as (q2 & d2 & E2 & Hq2 & HL2).
    rewrite Hs in E2, HL2. cbn [fst snd] in E2, HL2.
    assert (E : _redis_dequeue fromisoformat config others now timeout q = (Ret (o ≫= deserialize), q2)).
    { unfold _redis_dequeue, _move_scheduled_jobs. cbv [mbind io_bind]. rewrite E1. cbn [map] in E2.
      change (queue_keys config) with [_queue_key config 1; _queue_key config 0; _queue_key config (-1)]. rewrite E2.
      destruct o as [v|]; [|done]. destruct (Hread v eq_refl) as [j Hj].
      cbn [option_bind]. by rewrite Hj. }
    destruct (guarded_closed now _ q _ q2 _ (serving_closed _ _ Hq) E Hq2) as (q3 & E3 & Hq3).
    exists q3, d2. split_and!; [|exact Hq3|exact HL2|]; [unfold try_catch; by rewrite E3|].
    intros Hquiet. pose proof (serve_quiet (waits_of others) L (fun p => Hquiet _)) as Hserve. rewrite Hs in Hserve.
    unfold delivery. rewrite !HL, !HL2. exact Hserve.
Qed.

(** ** Idempotency keys *)

Lemma claim_serving now k (q : manager) d :
  serving q d ->
  exists q', _claim_idempotency config now k q
    = (Ret (spec_setnx (ms now) (prefix config +:+ "idem:" +:+ k) (1000 * idempotency_ttl_seconds config) d).1, q')
    /\ serving q' (spec_setnx (ms now) (prefix config +:+ "idem:" +:+ k) (1000 * idempotency_ttl_seconds config) d).2.
Proof.
  intros Hq. unfold _claim_idempotency, mbind, io_bind, get_st. pose proof Hq as (r & Hc & _). rewrite Hc.
  set (f := q_setnx _ _ _). destruct (command_serving f q d Hq) as (s & q' & Hs & E & Hq').
  destruct (view_setnx (ms now) (prefix config +:+ "idem:" +:+ k) (1000 * idempotency_ttl_seconds config) s) as [H1 H2].
  fold f in H1, H2. rewrite H1, Hs in E. rewrite H2, Hs in Hq'. by exists q'.
Qed.

(** Enqueueing leaves what is outside of the queue alone. *)
Definition same_outside (q q' : manager) : Prop := outside q' = outside q.

#[export] Instance same_outside_preorder : PreOrder same_outside.
Proof. split; [done|]. intros a b c ? ?. unfold same_outside in *. congruence. Qed.

#[export] Instance command_outside {A} (f : St -> A * St) : Preserves same_outside (command f).
Proof. intros q. unfold command. destruct (client q); [|done]. by destruct (redis_call f r) as [[?|?] ?]. Qed.

#[export] Instance guarded_outside {A} now (c : io manager queue_exc A) :
  Preserves same_outside c -> Preserves same_outside (guarded config now c).
Proof.
  intros Hc q. unfold guarded. destruct (call_guard _ _ _) as [[?|?] b]; [|done].
  specialize (Hc (with_circuit b q)). destruct (c (with_circuit b q)) as [[?|?] ?]; exact Hc.
Qed.

#[export] Instance enqueue_outside now j k : Preserves same_outside (enqueue now j k).
Proof.
  assert (Hs : forall f : manager -> manager, (forall q, outside (f q) = outside q) ->
    Preserves same_outside (modify f : io manager queue_exc unit)) by (intros f Hf q; apply Hf).
  assert (Hr : forall j, Preserves same_outside (_redis_enqueue isoformat local_offset config now j)).
  { intros j'. unfold _redis_enqueue. preserve. }
  assert (Hc : forall k, Preserves same_outside (_claim_idempotency (W := W) config now k)).
  { intros k'. unfold _claim_idempotency. apply preserves_bind; [apply _..|]. intros q.
    preserve; apply preserves_bind; try apply _; by apply Hs. }
  unfold JobQueue.enqueue. apply preserves_bind; [apply _|preserve|]. intros c. destruct (negb c); [apply _|].
  apply preserves_bind; [apply _..|]. intros q. preserve; apply preserves_bind; try apply _; by apply Hs.
Qed.

Definition idem_redis_key (k : string) : string := prefix config +:+ "idem:" +:+ k.

(** What an enqueue with a key writes on a healthy connection. *)
Definition spec_enqueue (now : Q) (j : Job) (k : string) (d : queue_data) : queue_data :=
  if key_live (ms now) (idem_redis_key k) d then d
  else spec_lpush (_queue_key config (priority j))
         (serialize (with_payload (dict_set "_idem" (JStr k) (j_payload j)) j))
         (spec_setnx (ms now) (idem_redis_key k) (1000 * idempotency_ttl_seconds config) d).2.

Lemma enqueue_keyed (now : Q) (j : Job) (k : string) (q : manager) (d : queue_data) :
  truthy k = true -> serving q d -> (forall t, scheduled_at j = Some t -> (t <= now)%Q) ->
  exists q', enqueue now j (Some k) q = (Ret true, q') /\ serving q' (spec_enqueue now j k d).
Proof.
  intros Hk Hq Hnow. destruct (claim_serving now k q d Hq) as (q0 & E0 & Hq0). fold (idem_redis_key k) in E0, Hq0.
  unfold JobQueue.enqueue, spec_enqueue. cbv [mbind io_bind mret io_ret get_st]. rewrite Hk, E0.
  unfold spec_setnx in *. destruct (key_live (ms now) (idem_redis_key k) d); cbn [fst snd negb] in *; [by exists q0|].
  set (j1 := with_payload (dict_set "_idem" (JStr k) (j_payload j)) j).
  destruct (redis_enqueue_serving now j1 q0 _ Hq0 Hnow) as (q1 & E1 & Hq1).
  destruct (guarded_closed now _ q0 tt q1 _ (serving_closed _ _ Hq0) E1 Hq1) as (q2 & E2 & Hq2).
  exists q2. split; [|exact Hq2]. pose proof Hq0 as (r & Hc & _). rewrite Hc. unfold try_catch. by rewrite E2.
Qed.

Lemma lane_spec_enqueue now j k d p :
  lane p (spec_enqueue now j k d)
  = if key_live (ms now) (idem_redis_key k) d then lane p d
    else if decide (Z.sgn p = Z.sgn (priority j))
         then lane p d ++ [serialize (with_payload (dict_set "_idem" (JStr k) (j_payload j)) j)] else lane p d.
Proof.
  unfold spec_enqueue. destruct (key_live _ _ d) eqn:Hl; [done|]. rewrite lane_lpush.
  unfold lane, list_at, spec_setnx. by rewrite Hl.
Qed.

Lemma key_live_spec_enqueue now later j k k' d :
  0 < idempotency_ttl_seconds config ->
  ms later < ms now + 1000 * idempotency_ttl_seconds config ->
  key_live (ms later) (idem_redis_key k') (spec_enqueue now j k d)
  = if key_live (ms now) (idem_redis_key k) d then key_live (ms later) (idem_redis_key k') d
    else if decide (k = k') then true else key_live (ms later) (idem_redis_key k') d.
Proof.
  intros Ht Hl. unfold spec_enqueue. destruct (key_live _ _ d) eqn:E; [done|].
  unfold key_live, spec_lpush, put_list, spec_setnx. rewrite E. cbn. case_decide as Hk.
  - subst. rewrite lookup_insert_eq. by apply Z.ltb_lt.
  - rewrite lookup_insert_ne; [done|]. unfold idem_redis_key. by intros ?%append_inj_l%append_inj_l.
Qed.

(** With an idempotency key a job is enqueued at most once while the key
    lives: the first call puts the job at the end of its lane, and every later
    call with the key before it expires is answered as accepted and writes
    nothing. *)
Theorem enqueue_once (now : Q) (j : Job) (k : string) (q : manager) (d : queue_data) :
  truthy k = true -> serving q d -> key_live (ms now) (prefix config +:+ "idem:" +:+ k) d = false ->
  (forall t, scheduled_at j = Some t -> (t <= now)%Q) ->
  exists q1 d1, enqueue now j (Some k) q = (Ret true, q1) /\ serving q1 d1
    /\ (forall p, lane p d1
        = if decide (Z.sgn p = Z.sgn (priority j))
          then lane p d ++ [serialize (with_payload (dict_set "_idem" (JStr k) (j_payload j)) j)]
          else lane p d)
    /\ forall later j', ms later < ms now + 1000 * idempotency_ttl_seconds config ->
         exists q2, enqueue later j' (Some k) q1 = (Ret true, q2) /\ serving q2 d1.
Proof.
  intros Hk Hq Hlive Hnow. destruct (enqueue_keyed now j k q d Hk Hq Hnow) as (q1 & E1 & Hq1).
  exists q1. eexists. split_and!; [exact E1|exact Hq1| |].
  - intros p. rewrite lane_spec_enqueue. unfold idem_redis_key. by rewrite Hlive.
  - intros later j' Hlater. destruct (claim_serving later k q1 _ Hq1) as (q3 & E3 & Hq3).
    assert (Hl1 : key_live (ms later) (idem_redis_key k) (spec_enqueue now j k d) = true).
    { unfold spec_enqueue. fold (idem_redis_key k) in Hlive. rewrite Hlive.
      unfold key_live, spec_lpush, put_list, spec_setnx. rewrite Hlive. cbn. rewrite lookup_insert_eq.
      by apply Z.ltb_lt. }
    fold (idem_redis_key k) in E3, Hq3. unfold spec_setnx in E3, Hq3. rewrite Hl1 in E3, Hq3. exists q3.
    split; [|exact Hq3]. unfold JobQueue.enqueue. cbv [mbind io_bind mret io_ret]. by rewrite Hk, E3.
Qed.

(** The key is claimed before the job is written: when the write fails, the
    call reports failure, and every retry before the key expires is answered
    as accepted although the job is on no list. *)
Theorem claim_outlives_failure (now later : Q) (j j' : Job) (k : string) (q : manager) (r : redis St) :
  truthy k = true -> client q = Some r -> faults r = [NoFault; LostRequest] -> state (circuit q) = CLOSED ->
  key_live (ms now) (prefix config +:+ "idem:" +:+ k) (view (store r)) = false ->
  scheduled_at j = None -> ms later < ms now + 1000 * idempotency_ttl_seconds config ->
  exists q1 q2 r2, enqueue now j (Some k) q = (Ret false, q1) /\ enqueue later j' (Some k) q1 = (Ret true, q2)
    /\ client q2 = Some r2
    /\ forall p, lane p (view (store r2)) = lane p (view (store r)).
Proof.
  intros Hk Hc Hf Hs Hlive Hsch Hlater. set (key := prefix config +:+ "idem:" +:+ k) in *.
  set (ttl := 1000 * idempotency_ttl_seconds config) in *. set (f := q_setnx (ms now) key ttl).
  destruct (view_setnx (ms now) key ttl (store r)) as [H1 H2]. fold f in H1, H2.
  unfold spec_setnx in H1, H2. rewrite Hlive in H1, H2. cbn [fst snd] in H1, H2.
  set (q0 := with_client (Build_redis (f (store r)).2 [LostRequest]) q).
  assert (E0 : _claim_idempotency config now k q = (Ret true, q0)).
  { unfold _claim_idempotency. cbv [mbind io_bind get_st]. rewrite Hc. fold key ttl f. unfold command. rewrite Hc.
    unfold redis_call. by rewrite Hf, H1. }
  set (j1 := with_payload (dict_set "_idem" (JStr k) (j_payload j)) j).
  set (r1 := Build_redis (f (store r)).2 []).
  assert (E1 : exists b, guarded config now (_redis_enqueue isoformat local_offset config now j1) q0
                 = (Raise RedisDown, with_circuit b (with_client r1 q0))).
  { unfold guarded. change (circuit q0) with (circuit q). rewrite closed_guard by done.
    unfold _redis_enqueue. change (scheduled_at j1) with (scheduled_at j). rewrite Hsch. by eexists. }
  destruct E1 as [b E1]. set (q1 := with_circuit b (with_client r1 q0)) in *.
  set (g := q_setnx (ms later) key ttl).
  destruct (view_setnx (ms later) key ttl (store r1)) as [H3 H4]. fold g in H3, H4.
  assert (Hl : key_live (ms later) key (view (store r1)) = true).
  { change (store r1) with (f (store r)).2. rewrite H2. unfold key_live. cbn. rewrite lookup_insert_eq.
    by apply Z.ltb_lt. }
  unfold spec_setnx in H3, H4. rewrite Hl in H3, H4. cbn [fst snd] in H3, H4.
  exists q1, (with_client (Build_redis (g (store r1)).2 []) q1), (Build_redis (g (store r1)).2 []). split_and!.
  - unfold JobQueue.enqueue. cbv [mbind io_bind mret io_ret get_st]. rewrite Hk, E0. cbn [negb client q0 with_client].
    unfold try_catch. fold j1. by rewrite E1.
  - unfold JobQueue.enqueue. cbv [mbind io_bind mret io_ret]. rewrite Hk.
    assert (E3 : _claim_idempotency config later k q1
                 = (Ret false, with_client (Build_redis (g (store r1)).2 []) q1)).
    { unfold _claim_idempotency, mbind, io_bind, get_st. change (client q1) with (Some r1).
      unfold command. change (client q1) with (Some r1). unfold redis_call. cbn [faults r1]. fold key ttl g.
      by rewrite H3. }
    by rewrite E3.
  - done.
  - intros p. cbn [store]. rewrite H4. change (store r1) with (f (store r)).2. by rewrite H2.
Qed.

End lanes.

(** ** The in-memory queue *)

Section memory.
Context (isoformat : Q -> string) (fromisoformat : string -> option Q) (local_offset : Q).
Context (Hiso : forall t, truthy (isoformat t) = true /\ fromisoformat (isoformat t) = Some t).
Context (config : QueueConfig) {St W : Type} {HQ : RedisQueue St}.

Abbreviation manager := (QueueManager St W).
Abbreviation serialize := (_serialize_job isoformat).
Abbreviation deserialize := (_deserialize_job fromisoformat).

Context (handlers : gmap string (list (string * json) -> io manager string unit)) (uniform : Q -> Q -> Q).

Abbreviation process_job := (process_job isoformat local_offset config handlers uniform).
Abbreviation process_turn := (process_turn isoformat fromisoformat local_offset config handlers uniform).

(** Turns of the loop, one per instant, until the queue is empty; without
    Redis nobody else serves the queue. *)
Fixpoint work (times : list Q) : io manager queue_exc (list bool) :=
  match times with
  | [] => mret []
  | now :: times =>
      r ← process_turn (fun _ => []) now;
      match r with
      | None => mret []
      | Some ok => rest ← work times; mret (ok :: rest)
      end
  end.

(** *** What becomes of a job *)

Inductive verdict := Done | Retried (j : Job) | Buried (j : Job).

Definition went_well (v : verdict) : bool := match v with Done => true | _ => false end.
Definition again (v : verdict) : list Job := match v with Retried j => [j] | _ => [] end.
Definition buried (v : verdict) : list Job := match v with Buried j => [j] | _ => [] end.

(** The state [q] at the end of a handler's call, which has put the jobs [new]
    on the queue. *)
Inductive fate (now : Q) (q : manager) (j : Job) : list Job -> verdict -> Prop :=
| fate_known : already_processed j q = true -> fate now q j [] Done
| fate_unknown : already_processed j q = false -> handlers !! j_type j = None -> fate now q j [] (Buried j)
| fate_done h q' new : already_processed j q = false -> handlers !! j_type j = Some h ->
    h (j_payload j) q = (Ret tt, q') -> in_memory q' = (fun l => l ++ map serialize new) <$> in_memory q ->
    fate now q j new Done
| fate_retried h q' new e : already_processed j q = false -> handlers !! j_type j = Some h ->
    h (j_payload j) q = (Raise e, q') -> in_memory q' = (fun l => l ++ map serialize new) <$> in_memory q ->
    retries j + 1 < max_retries j ->
    fate now q j new (Retried (rescheduled (now + retry_delay config uniform (retries j + 1)) (failed_once e j)))
| fate_buried h q' new e : already_processed j q = false -> handlers !! j_type j = Some h ->
    h (j_payload j) q = (Raise e, q') -> in_memory q' = (fun l => l ++ map serialize new) <$> in_memory q ->
    max_retries j <= retries j + 1 ->
    fate now q j new (Buried (failed_once e j)).

(** One turn: the job served, the jobs its handler put on the queue, and what
    became of it. *)
Record turn := { t_job : Job; t_new : list Job; t_verdict : verdict }.

(** The turns that lead from a state of the manager to another: each serves
    the first job of the queue; behind the others come the jobs its handler
    added and then, for a retry, the job itself; a buried job goes to the end
    of the dead letters, which nothing else touches. *)
Inductive history : manager -> list turn -> manager -> Prop :=
| no_turn q : history q [] q
| next_turn now q q1 q2 j l new v turns :
    in_memory q = Some (map serialize (j :: l)) ->
    fate now (with_memory (map serialize l) q) j new v ->
    process_turn (fun _ => []) now q = (Ret (Some (went_well v)), q1) ->
    in_memory q1 = Some (map serialize (l ++ new ++ again v)) ->
    dead_letters q1 = dead_letters q ++ map serialize (buried v) ->
    history q1 turns q2 ->
    history q ({| t_job := j; t_new := new; t_verdict := v |} :: turns) q2.

(** A job apart from its tries. *)
Definition root (j : Job) : Job := {|
  j_id := j_id j; j_type := j_type j; j_payload := j_payload j; priority := priority j; scheduled_at := None;
  created_at := created_at j; retries := 0; max_retries := max_retries j; j_error := None; trace_id := trace_id j |}.

Definition added (turns : list turn) : list Job := flat_map t_new turns.
Definition done_jobs (turns : list turn) : list Job :=
  map t_job (List.filter (fun t => went_well (t_verdict t)) turns).
Definition dead_jobs (turns : list turn) : list Job := flat_map (fun t => buried (t_verdict t)) turns.

(** Why a job is with the dead letters. *)
Definition given_up (j : Job) : Prop :=
  handlers !! j_type j = None \/ max_retries j <= retries j /\ exists e, j_error j = Some e.

(** *** The work that is left *)

(** How often a job can still be tried. *)
Definition attempts_left (j : Job) : nat := Z.to_nat (Z.max 1 (max_retries j - retries j)).

Section weights.
(** What one call for a job may cost, in turns, by the type and the payload,
    and the turns that what is outside can still cause. *)
Context (weight : string -> list (string * json) -> nat) (pending : W -> nat).

Definition work_left (js : list Job) : nat :=
  foldr (fun j n => attempts_left j * weight (j_type j) (j_payload j) + n)%nat 0%nat js.

(** A handler leaves the client and the dead letters alone and may add jobs to
    the queue, whose work its own weight or what it took from outside covers. *)
Definition bounded_handler (t : string) (h : list (string * json) -> io manager string unit) : Prop :=
  forall p q l, client q = None -> in_memory q = Some l ->
  exists new, client (h p q).2 = None /\ in_memory (h p q).2 = Some (l ++ map serialize new)
    /\ dead_letters (h p q).2 = dead_letters q
    /\ (work_left new + pending (outside (h p q).2) < weight t p + pending (outside q))%nat.

Context (Hweight : forall t p, (1 <= weight t p)%nat).
Context (Hhandlers : map_Forall bounded_handler handlers).

Lemma work_left_app js js' : work_left (js ++ js') = (work_left js + work_left js')%nat.
Proof. unfold work_left. induction js as [|j js IH]; cbn; [done|]. rewrite IH. lia. Qed.

Lemma dead_memory j (q : manager) : client q = None ->
  _send_to_dead_letter isoformat config j q = (Ret tt, with_dead (dead_letters q ++ [serialize j]) q).
Proof. intros Hc. unfold _send_to_dead_letter. cbv [mbind io_bind get_st]. by rewrite Hc. Qed.

Lemma process_job_memory now j (q : manager) l :
  client q = None -> in_memory q = Some (map serialize l) ->
  exists new v q', process_job now j q = (Ret (went_well v), q') /\ client q' = None /\ fate now q j new v
    /\ in_memory q' = Some (map serialize (l ++ new ++ again v))
    /\ dead_letters q' = dead_letters q ++ map serialize (buried v)
    /\ (work_left (new ++ again v) + pending (outside q') < work_left [j] + pending (outside q))%nat.
Proof.
  intros Hc Hm. unfold JobQueue.process_job. cbv [mbind io_bind mret io_ret get_st handler_error].
  assert (Hpos : (1 <= attempts_left j)%nat) by (unfold attempts_left; lia).
  pose proof (Hweight (j_type j) (j_payload j)) as Hw.
  assert (Hj : work_left [j] = (attempts_left j * weight (j_type j) (j_payload j))%nat) by (unfold work_left; cbn; lia).
  destruct (already_processed j q) eqn:Ea.
  { exists [], Done, q. split_and!; [done|done|by constructor| | |]; cbn; rewrite ?app_nil_r; [done|done|nia]. }
  destruct (handlers !! j_type j) as [h|] eqn:Eh.
  2:{ rewrite dead_memory by done. exists [], (Buried j). eexists.
      split_and!; [reflexivity|done|by constructor| | |]; cbn; rewrite ?app_nil_r; [done|done|nia]. }
  destruct (Hhandlers _ _ Eh (j_payload j) q _ Hc Hm) as (new & Hc' & Hm' & Hd' & Hwork).
  rewrite <- map_app in Hm'.
  assert (Hm2 : in_memory (h (j_payload j) q).2 = (fun l => l ++ map serialize new) <$> in_memory q)
    by (rewrite Hm', Hm, map_app; done).
  destruct (h (j_payload j) q) as [[[]|e] q1] eqn:E; cbn [snd] in *; cbv [modify].
  - exists new, Done. eexists. split_and!; [reflexivity|unfold mark_processed; by destruct (idem_key j)|by eapply fate_done| | |].
    + unfold mark_processed. rewrite app_nil_r. by destruct (idem_key j).
    + unfold mark_processed. cbn. rewrite app_nil_r. by destruct (idem_key j).
    + unfold mark_processed. cbn [again]. rewrite app_nil_r, Hj.
      assert (outside (match idem_key j with Some k => with_processed ({[k]} ∪ idem_processed q1) q1 | None => q1 end)
              = outside q1) as -> by by destruct (idem_key j). nia.
  - set (j1 := failed_once e j). change (retries j1) with (retries j + 1). change (max_retries j1) with (max_retries j).
    destruct (retries j + 1 <? max_retries j) eqn:Er; to_prop.
    + set (j2 := rescheduled _ j1). unfold enqueue. cbv [mbind io_bind mret io_ret get_st]. cbn [negb].
      rewrite Hc', Hm'. cbv [modify]. exists new, (Retried j2). eexists.
      split_and!; [reflexivity|done|by eapply fate_retried| |cbn; by rewrite app_nil_r|].
      * cbn. by rewrite !map_app, <- !app_assoc.
      * cbn [again outside with_memory]. rewrite work_left_app, Hj.
        assert (work_left [j2] = ((attempts_left j - 1) * weight (j_type j) (j_payload j))%nat) as ->; [|nia].
        unfold work_left. cbn. unfold attempts_left. cbn. assert (Z.to_nat (Z.max 1 (max_retries j - (retries j + 1)))
          = (Z.to_nat (Z.max 1 (max_retries j - retries j)) - 1)%nat) as -> by lia. lia.
    + rewrite dead_memory by done. exists new, (Buried j1). eexists.
      split_and!; [reflexivity|done|by eapply fate_buried| | |].
      * cbn. by rewrite app_nil_r.
      * cbn. by rewrite Hd'.
      * cbn [again outside with_dead]. rewrite app_nil_r, Hj. nia.
Qed.

Lemma fate_given_up now q j new v : fate now q j new v -> Forall given_up (buried v).
Proof.
  destruct 1 as [|_ Hh| | |h q' new e _ _ _ _ Hr]; try done; cbn; apply Forall_singleton; [by left|].
  right. split; [cbn; lia|by eexists].
Qed.

Lemma accounts_add {A} (done buried_ again_ l new add don dead : list A) :
  l ++ new ++ again_ ++ add ≡ₚ don ++ dead ->
  ((done ++ buried_ ++ again_) ++ l) ++ new ++ add ≡ₚ (done ++ don) ++ buried_ ++ dead.
Proof.
  intros Hp. transitivity (done ++ buried_ ++ (l ++ new ++ again_ ++ add)); [|rewrite Hp; solve_Permutation].
  solve_Permutation.
Qed.

Lemma work_spec times : forall js (q : manager),
  client q = None -> in_memory q = Some (map serialize js) ->
  (work_left js + pending (outside q) <= length times)%nat ->
  exists turns q', work times q = (Ret (map (fun t => went_well (t_verdict t)) turns), q')
    /\ history q turns q' /\ in_memory q' = Some []
    /\ (length turns <= work_left js + pending (outside q))%nat
    /\ dead_letters q' = dead_letters q ++ map serialize (dead_jobs turns)
    /\ map root (js ++ added turns) ≡ₚ map root (done_jobs turns ++ dead_jobs turns)
    /\ Forall given_up (dead_jobs turns).
Proof.
  induction times as [|now times IH]; intros js q Hc Hm Hn; cbn [work].
  { assert (js = []) as ->.
    { destruct js as [|j js]; [done|]. unfold work_left in Hn. cbn in Hn. pose proof (Hweight (j_type j) (j_payload j)).
      assert (1 <= attempts_left j)%nat by (unfold attempts_left; lia). nia. }
    exists [], q. split_and!; try done; [constructor|cbn; lia|cbn; by rewrite app_nil_r]. }
  destruct js as [|j js].
  { unfold mbind, io_bind, JobQueue.process_turn, dequeue, get_st, mbind, io_bind. rewrite Hc, Hm. cbn [map].
    exists [], q. split_and!; try done; [constructor|cbn; lia|cbn; by rewrite app_nil_r]. }
  destruct (process_job_memory now j (with_memory (map serialize js) q) js Hc eq_refl)
    as (new & v & q1 & E & Hc1 & Hfate & Hm1 & Hd1 & Hw1). cbn [dead_letters outside with_memory] in Hd1, Hw1.
  assert (Et : process_turn (fun _ => []) now q = (Ret (Some (went_well v)), q1)).
  { unfold JobQueue.process_turn, dequeue, get_st, mbind, io_bind. rewrite Hc, Hm. cbn [map].
    unfold modify. rewrite (job_read_back isoformat fromisoformat Hiso j). unfold mret at 1, io_ret at 1. by rewrite E. }
  assert (Hwj : work_left (j :: js) = (work_left [j] + work_left js)%nat) by (unfold work_left; cbn; lia).
  destruct (IH (js ++ new ++ again v) q1 Hc1 Hm1) as (turns & q2 & E2 & Hh & Hm2 & Hl & Hd2 & Hacc & Hgu).
  { cbn [length] in Hn. rewrite Hwj in Hn. rewrite work_left_app. lia. }
  exists ({| t_job := j; t_new := new; t_verdict := v |} :: turns), q2.
  split_and!; [|by eapply next_turn|done|..].
  - unfold mbind at 1, io_bind at 1. rewrite Et. unfold mbind, io_bind. by rewrite E2.
  - cbn [length]. rewrite work_left_app in Hl. lia.
  - rewrite Hd2, Hd1, <- app_assoc, <- map_app. done.
  - assert (Hroot : map root (done_jobs [{| t_job := j; t_new := new; t_verdict := v |}] ++ buried v ++ again v) = [root j]).
    { inversion Hfate; subst; done. }
    change (added (_ :: turns)) with (new ++ added turns).
    assert (done_jobs ({| t_job := j; t_new := new; t_verdict := v |} :: turns)
      = done_jobs [{| t_job := j; t_new := new; t_verdict := v |}] ++ done_jobs turns) as ->.
    { unfold done_jobs. cbn. by destruct (went_well v). }
    change (dead_jobs (_ :: turns)) with (buried v ++ dead_jobs turns). rewrite !map_app in *. cbn [map].
    change (root j :: map root js) with ([root j] ++ map root js). rewrite <- Hroot.
    apply accounts_add. by rewrite <- !app_assoc in Hacc.
  - apply Forall_app. split; [|exact Hgu]. by eapply fate_given_up.
Qed.
End weights.

(** C37: Retries end.  Let each handler, of whatever type, leave the client
    and the dead letters alone and add to the queue only jobs whose work its
    own weight, or what it took from outside, covers (the handlers that
    enqueue follow-up jobs do; the cleanup handler, which drains the dead
    letters, does not).  Then the loop over an in-memory queue empties it
    within the work of its jobs.  Each turn serves the first job: a job whose
    key was processed, or whose handler returns, is done; one whose handler
    raises is put at the end with one more try counted while tries are left,
    and else with the dead letters, as is one without a handler.  Every job
    that was on the queue or was added by a handler was so done or is, apart
    from its tries, one of the dead letters added, each of which has no
    handler or no try left. *)
Theorem retries_end weight pending (times : list Q) (js : list Job) (q : manager) :
  (forall t p, (1 <= weight t p)%nat) -> map_Forall (bounded_handler weight pending) handlers ->
  client q = None -> in_memory q = Some (map serialize js) ->
  (work_left weight js + pending (outside q) <= length times)%nat ->
  exists turns q', work times q = (Ret (map (fun t => went_well (t_verdict t)) turns), q')
    /\ history q turns q' /\ in_memory q' = Some []
    /\ (length turns <= work_left weight js + pending (outside q))%nat
    /\ dead_letters q' = dead_letters q ++ map serialize (dead_jobs turns)
    /\ map root (js ++ added turns) ≡ₚ map root (done_jobs turns ++ dead_jobs turns)
    /\ Forall given_up (dead_jobs turns).
Proof. intros Hw Hh Hc Hm Hn. by apply (work_spec weight pending Hw Hh). Qed.

(** *** Drains *)

Lemma parse_serialized (js : list Job) (q : manager) :
  parse_all fromisoformat (map serialize js) q = (Ret js, q).
Proof.
  unfold parse_all. assert (E : mapM deserialize (map serialize js) = Some js).
  { apply mapM_Some. induction js as [|j js IH]; constructor; [by apply job_read_back|done]. }
  by rewrite E.
Qed.

Lemma of_type_serialized t j : of_type fromisoformat t (serialize j) = bool_decide (j_type j = t).
Proof. unfold of_type. by rewrite job_read_back. Qed.

Lemma drain_type_serialized t room js :
  exists out rest, drain_type fromisoformat t room (map serialize js) = (map serialize out, map serialize rest)
    /\ out ++ rest ≡ₚ js /\ (length out <= room)%nat /\ Forall (fun j => j_type j = t) out.
Proof.
  revert room. induction js as [|j js IH]; intros room; cbn [map drain_type].
  { exists [], []. split_and!; [done|done|cbn; lia|done]. }
  rewrite of_type_serialized. destruct (_ && _) eqn:E.
  - apply andb_true_iff in E as [Ht Hr]. apply bool_decide_eq_true in Ht. apply Nat.ltb_lt in Hr.
    destruct (IH (pred room)) as (out & rest & -> & Hp & Hl & Hf). exists (j :: out), rest.
    split_and!; [done|by cbn; rewrite Hp|cbn; lia|by constructor].
  - destruct (IH room) as (out & rest & -> & Hp & Hl & Hf). exists out, (j :: rest).
    split_and!; [done|by rewrite <- Permutation_middle, Hp|done|done].
Qed.

(** Without Redis a drain loses nothing: what it returns, at most the limit
    and of the type asked for, and what stays are the dead letters there were. *)
Theorem memory_drain_conserves (job_type : option string) (limit : nat) (js : list Job) (q : manager) :
  client q = None -> dead_letters q = map serialize js ->
  exists out rest q', drain_dead_letter fromisoformat config job_type limit q = (Ret out, q')
    /\ dead_letters q' = map serialize rest /\ out ++ rest ≡ₚ js /\ (length out <= limit)%nat
    /\ forall t, job_type = Some t -> truthy t = true -> Forall (fun j => j_type j = t) out.
Proof.
  intros Hc Hd. unfold drain_dead_letter. cbv [mbind io_bind get_st]. rewrite Hc, Hd.
  assert (Htake : exists out rest, (take limit (map serialize js), drop limit (map serialize js))
    = (map serialize out, map serialize rest) /\ out ++ rest ≡ₚ js /\ (length out <= limit)%nat).
  { exists (take limit js), (drop limit js). split_and!.
    - change (map serialize ?l) with (serialize <$> l). by rewrite fmap_take, fmap_drop.
    - by rewrite take_drop.
    - rewrite length_take. lia. }
  destruct job_type as [t|]; [destruct (truthy t) eqn:Et|].
  - destruct (drain_type_serialized t limit js) as (out & rest & -> & Hp & Hl & Hf).
    rewrite parse_serialized. cbv [modify mret io_ret]. eexists out, rest, _. split; [reflexivity|].
    split_and!; [done|done|done|]. by intros t' [= <-] _.
  - destruct Htake as (out & rest & E & Hp & Hl). injection E as -> ->. rewrite parse_serialized.
    cbv [modify mret io_ret]. eexists out, rest, _. split; [reflexivity|].
    split_and!; [done|done|done|]. intros t' [= <-]. congruence.
  - destruct Htake as (out & rest & E & Hp & Hl). injection E as -> ->. rewrite parse_serialized.
    cbv [modify mret io_ret]. eexists out, rest, _. split; [reflexivity|]. by split_and!.
Qed.
End memory.

(** ** Redis with maps, and runs *)

#[export] Program Instance queue_data_RedisQueue : RedisQueue queue_data := {
  view d := d;
  q_lpush := spec_lpush;
  q_rpop := spec_rpop;
  q_ltrim := spec_ltrim;
  q_zadd := spec_zadd;
  q_zrem := spec_zrem;
  q_zrangebyscore k lo hi d := map fst (in_score lo hi (zset_at k d));
  q_setnx := spec_setnx;
  q_scan p d := List.filter (fun k => p k && negb (bool_decide (list_at k d = []))) (map fst (map_to_list (q_lists d)));
}.
Next Obligation. done. Qed.
Next Obligation. done. Qed.
Next Obligation. done. Qed.
Next Obligation. done. Qed.
Next Obligation. done. Qed.
Next Obligation. done. Qed.
Next Obligation. done. Qed.
Next Obligation.
  intros p s k. rewrite list_elem_of_In, filter_In, <- list_elem_of_In, andb_true_iff, negb_true_iff,
    bool_decide_eq_false. split; [tauto|]. intros [Hp Hl]. split; [|done].
  unfold list_at in Hl. destruct (q_lists s !! k) as [l|] eqn:E; [|done].
  apply list_elem_of_fmap. exists (k, l). split; [done|]. by apply elem_of_map_to_list.
Qed.

(** An injective text for an instant. *)
Fixpoint digits (p : positive) : string :=
  match p with xH => "1" | xO p => String "0" (digits p) | xI p => String "2" (digits p) end.
Fixpoint undigits (s : string) : option positive :=
  match s with
  | EmptyString => None
  | String a s' =>
      if decide (a = "0"%char) then xO <$> undigits s'
      else if decide (a = "2"%char) then xI <$> undigits s'
      else match s' with EmptyString => Some xH | _ => None end
  end.
Definition iso_text (t : Q) : string := digits (encode (Qnum t, Qden t)).
Definition iso_read (s : string) : option Q :=
  p ← undigits s; '(n, d) ← decode (A := Z * positive) p; Some (n # d).

Lemma undigits_digits p : undigits (digits p) = Some p.
Proof. induction p as [p IH|p IH|]; cbn; [by rewrite IH|by rewrite IH|done]. Qed.

Lemma iso_inverse t : truthy (iso_text t) = true /\ iso_read (iso_text t) = Some t.
Proof.
  split; [unfold iso_text; by destruct (encode _)|]. unfold iso_read, iso_text. rewrite undigits_digits.
  cbn [mbind option_bind]. rewrite decode_encode. by destruct t.
Qed.

Module QueueSample.
Definition job (id ty : string) (p : Z) : Job := {|
  j_id := id; j_type := ty; j_payload := []; priority := p; scheduled_at := None; created_at := 0;
  retries := 0; max_retries := 3; j_error := None; trace_id := EmptyString |}.
Definition empty : queue_data := {| q_lists := ∅; q_zsets := ∅; q_keys := ∅ |}.
Definition over (d : queue_data) (fs : list fault) : QueueManager queue_data nat := {|
  client := Some {| store := d; faults := fs |}; in_memory := None; idem_seen := ∅; idem_processed := ∅;
  dead_letters := []; circuit := new_circuit_breaker; outside := 0%nat |}.
Definition inside (js : list Job) : QueueManager queue_data nat := {|
  client := None; in_memory := Some (map (_serialize_job iso_text) js); idem_seen := ∅; idem_processed := ∅;
  dead_letters := []; circuit := new_circuit_breaker; outside := 0%nat |}.
Definition config := DEFAULT_QUEUE_CONFIG.
Definition enqueue (now : Q) := JobQueue.enqueue iso_text 0 config (St := queue_data) (W := nat) now.
Definition quiet : string -> list traffic := fun _ => [].
Definition dequeue := JobQueue.dequeue iso_read config (St := queue_data) (W := nat).
(** A handler that counts its calls and fails, one that succeeds, and one that
    enqueues a follow-up job under a key. *)
Definition bad (p : list (string * json)) : io (QueueManager queue_data nat) string unit :=
  fun q => (Raise "boom", with_outside (S (outside q)) q).
Definition good (p : list (string * json)) : io (QueueManager queue_data nat) string unit := fun q => (Ret tt, q).
Definition follow (p : list (string * json)) : io (QueueManager queue_data nat) string unit :=
  fun q => match enqueue 0 (job "f" "good" 0) (Some "follow:1") q with
           | (Ret _, q) => (Ret tt, q)
           | (Raise _, q) => (Raise "enqueue", q)
           end.
Definition handlers : gmap string (list (string * json) -> io (QueueManager queue_data nat) string unit) :=
  <["bad" := bad]> (<["good" := good]> (<["follow" := follow]> ∅)).
(** A follow-up may be tried three times, for one turn each. *)
Definition weight (t : string) (p : list (string * json)) : nat := if decide (t = "follow") then 4 else 1.

Lemma handlers_bounded : map_Forall (bounded_handler iso_text weight (fun _ : nat => 0%nat)) handlers.
Proof.
  unfold handlers. repeat apply map_Forall_insert_2; [..|apply map_Forall_empty]; intros p q l Hc Hm.
  - exists []. split_and!; try done; [cbn; by rewrite app_nil_r|unfold weight; by case_decide; cbn; lia].
  - exists []. split_and!; try done; [cbn; by rewrite app_nil_r|unfold weight; by case_decide; cbn; lia].
  - unfold follow, enqueue, JobQueue.enqueue, _claim_idempotency, mbind, io_bind, get_st, mret, io_ret, modify. cbn [truthy].
    rewrite Hc. destruct (decide _); cbn [negb with_seen client in_memory].
    + exists []. split_and!; try done; [cbn; by rewrite app_nil_r|unfold weight; by case_decide; cbn; lia].
    + rewrite Hc, Hm. eexists [_]. split_and!; try done. apply Nat.ltb_lt; vm_compute; reflexivity.
Qed.
Definition process := process_job iso_text 0 config (St := queue_data) handlers (fun _ _ => 0%Q).

Lemma over_serving d : serving (over d []) d.
Proof. eexists. split_and!; [reflexivity|constructor|reflexivity|reflexivity]. Qed.
End QueueSample.

(** Without a fraction of a second to wait, BRPOP waits for ever: with a poll
    interval below one second the loop never reaches the default lane while
    the high lane is empty. *)
Example short_poll_starves_lanes :
  let q := QueueSample.over (spec_lpush (_queue_key QueueSample.config 0)
             (_serialize_job iso_text (QueueSample.job "j" "good" 0)) QueueSample.empty) [] in
  (QueueSample.dequeue QueueSample.quiet 0 (1 # 2) q).1 = Raise (BlocksOn "neryva:queue:high")
  /\ (QueueSample.dequeue QueueSample.quiet 0 1 q).1 = Ret (Some (QueueSample.job "j" "good" 0)).
Proof. split; vm_compute; reflexivity. Qed.

(** A drain over Redis takes whole pages of several lists and returns only the
    limit: the second job is on no list and not returned. *)
Example redis_drain_loses :
  let dead t id := spec_lpush ("neryva:dead:" +:+ t) (_serialize_job iso_text (QueueSample.job id t 0)) in
  let q := QueueSample.over (dead "a" "1" (dead "b" "2" (dead "b" "3" QueueSample.empty))) [] in
  let '(r, q') := drain_dead_letter iso_read QueueSample.config None 2 q in
  match r with Ret js => length js = 2%nat | _ => False end
  /\ fst (get_dead_letter_count iso_read QueueSample.config None q') = Ret 0.
Proof. vm_compute. split; reflexivity. Qed.

(** A failed job whose requeue fails is on no list. *)
Example requeue_failure_loses_job :
  let q := QueueSample.over QueueSample.empty [LostRequest] in
  let '(r, q') := QueueSample.process 0 (QueueSample.job "j" "bad" 0) q in
  r = Ret false /\ match client q' with Some c => store c = QueueSample.empty | None => False end.
Proof. vm_compute. split; reflexivity. Qed.

(** A retry is scheduled with the local reading of a UTC instant: five hours
    west of Greenwich it is due five hours late. *)
Example retry_delayed_by_time_zone :
  let '(_, q) := JobQueue.process_job iso_text (-18000) QueueSample.config (St := queue_data)
                   QueueSample.handlers (fun _ _ => 0%Q) 0 (QueueSample.job "j" "bad" 0)
                   (QueueSample.over QueueSample.empty []) in
  (QueueSample.dequeue QueueSample.quiet 17000 1 q).1 = Ret None
  /\ match (QueueSample.dequeue QueueSample.quiet 18002 1 q).1 with Ret (Some j) => retries j = 1 | _ => False end.
Proof. vm_compute. split; reflexivity. Qed.

Lemma job_roundtrip_witness :
  _deserialize_job iso_read (_serialize_job iso_text (QueueSample.job "j" "good" 1)) = Some (QueueSample.job "j" "good" 1).
Proof. apply job_roundtrip. exact iso_inverse. Defined.

(** A worker that waits on the high lane while others push: the high job that
    arrives in time is served before the low one that was there. *)
Lemma lanes_refined_witness :
  let sent id p := _serialize_job iso_text (QueueSample.job id "good" p) in
  let d := spec_lpush (_queue_key QueueSample.config (-1)) (sent "j" (-1)) QueueSample.empty in
  let others k := if decide (k = "neryva:queue:high") then [Pushed 0 (sent "d" 0); Pushed 1 (sent "h" 1)] else [] in
  exists q' d', QueueSample.dequeue others 0 1 (QueueSample.over d []) = (Ret (Some (QueueSample.job "h" "good" 1)), q')
    /\ serving q' d' /\ lane QueueSample.config 0 d' = [sent "d" 0] /\ lane QueueSample.config (-1) d' = [sent "j" (-1)].
Proof.
  cbn zeta. set (d := spec_lpush _ _ _). set (others := fun k : string => _).
  set (L := fun p => lane QueueSample.config p d).
  destruct (lanes_refined iso_text iso_read 0 QueueSample.config 0 1 (QueueSample.over d []) d L
           (QueueSample.over_serving d) (fun p => eq_refl)) as [_ Hserve].
  destruct (Hserve others _ _ ltac:(repeat constructor) ltac:(done) (surjective_pairing _)) as (q' & d' & E & Hs & HL & _).
  { intros v Hv. vm_compute in Hv. injection Hv as <-. vm_compute. by eexists. }
  exists q', d'. split; [unfold QueueSample.dequeue; rewrite E; vm_compute; reflexivity|]. split; [exact Hs|].
  rewrite !HL. split; vm_compute; reflexivity.
Defined.

Lemma enqueue_once_witness :
  exists q1 d1, QueueSample.enqueue 0 (QueueSample.job "j" "good" 0) (Some "k") (QueueSample.over QueueSample.empty [])
      = (Ret true, q1) /\ serving q1 d1
    /\ exists q2, QueueSample.enqueue 86399 (QueueSample.job "j2" "good" 0) (Some "k") q1 = (Ret true, q2)
         /\ serving q2 d1.
Proof.
  destruct (enqueue_once iso_text 0 QueueSample.config 0 (QueueSample.job "j" "good" 0) "k"
              (QueueSample.over QueueSample.empty []) QueueSample.empty)
    as (q1 & d1 & E & Hs & _ & Hl); [reflexivity|apply QueueSample.over_serving|reflexivity|discriminate|].
  exists q1, d1. split; [exact E|]. split; [exact Hs|]. apply Hl. reflexivity.
Defined.

Lemma claim_outlives_failure_witness :
  exists q1 q2 r2, QueueSample.enqueue 0 (QueueSample.job "j" "good" 0) (Some "k")
                     (QueueSample.over QueueSample.empty [NoFault; LostRequest]) = (Ret false, q1)
    /\ QueueSample.enqueue 60 (QueueSample.job "j" "good" 0) (Some "k") q1 = (Ret true, q2)
    /\ client q2 = Some r2
    /\ forall p, lane QueueSample.config p (view (store r2)) = lane QueueSample.config p QueueSample.empty.
Proof.
  exact (claim_outlives_failure iso_text 0 QueueSample.config 0 60 (QueueSample.job "j" "good" 0)
           (QueueSample.job "j" "good" 0) "k" (QueueSample.over QueueSample.empty [NoFault; LostRequest])
           {| store := QueueSample.empty; faults := [NoFault; LostRequest] |}
           eq_refl eq_refl eq_refl eq_refl eq_refl eq_refl eq_refl).
Defined.

Lemma retries_end_witness :
  let js := [QueueSample.job "1" "bad" 0; QueueSample.job "2" "follow" 0; QueueSample.job "3" "unknown" 0] in
  exists turns q',
    work iso_text iso_read 0 QueueSample.config QueueSample.handlers (fun _ _ => 0%Q) (repeat 0%Q 18)
      (QueueSample.inside js) = (Ret (map (fun t => went_well (t_verdict t)) turns), q')
    /\ in_memory q' = Some [] /\ (length turns <= 18)%nat
    /\ map root (js ++ added turns) ≡ₚ map root (done_jobs turns ++ dead_jobs turns).
Proof.
  cbn zeta. set (js := [_; _; _]).
  destruct (retries_end iso_text iso_read 0 iso_inverse QueueSample.config QueueSample.handlers (fun _ _ => 0%Q)
           QueueSample.weight (fun _ => 0%nat) (repeat 0%Q 18) js (QueueSample.inside js)) as (turns & q' & E & _ & Hm & Hl & _ & Hacc & _);
    [intros t p; unfold QueueSample.weight; case_decide; lia|apply QueueSample.handlers_bounded|reflexivity|reflexivity|by vm_compute; lia|].
  exists turns, q'. split; [exact E|]. split; [exact Hm|]. split; [exact Hl|exact Hacc].
Defined.

Lemma memory_drain_conserves_witness :
  let js := [QueueSample.job "1" "a" 0; QueueSample.job "2" "b" 0] in
  exists out rest q',
    drain_dead_letter iso_read QueueSample.config (Some "b") 5
      (with_dead (map (_serialize_job iso_text) js) (QueueSample.inside [])) = (Ret out, q')
    /\ dead_letters q' = map (_serialize_job iso_text) rest /\ out ++ rest ≡ₚ js /\ (length out <= 5)%nat
    /\ forall t, Some "b" = Some t -> truthy t = true -> Forall (fun j => j_type j = t) out.
Proof.
  apply (memory_drain_conserves iso_text iso_read iso_inverse QueueSample.config (Some "b") 5
           [QueueSample.job "1" "a" 0; QueueSample.job "2" "b" 0]); reflexivity.
Defined.
