(* ===== verification/Oidc.v ===== *)
(** * Single sign-on (backend/app/modules/sso/oidc.py, api/routes/operator_auth.py)

    The client of the identity provider, the verification of its tokens and
    the routes that turn one into an operator session (Auth.v).  The network,
    RSA signatures, Base64 and [json.loads] are parameters.  Instants are
    seconds. *)

From S2P Require Import Prelude Text Json JobQueue Redis RateLimiter Auth.

(** ** Configuration and state *)

Record OidcSettings := {
  OIDC_ENABLED : bool;
  OIDC_DISCOVERY_URL : string;
  OIDC_CLIENT_ID : string;
  OIDC_CLIENT_SECRET : string;
  OIDC_REDIRECT_URI : string;
  OIDC_FRONTEND_REDIRECT : string;
  OIDC_SCOPES : string;
  OIDC_ROLE_CLAIM : string;
  OIDC_ROLE_MAP : list (string * string);
}.

(** [OidcError] and its subclasses, an error the routes do not catch, and the
    errors of the database. *)
Inductive oidc_exc :=
| OidcError (message : string)
| Uncaught
| Refused (e : auth_exc).

Record IdTokenClaims := {
  claim_sub : string;
  claim_email : option string;
  claim_name : option string;
  claim_roles : list string;
}.

Record state_entry := { se_nonce : string; se_expires_at : Q }.
Record code_entry := {
  ce_sub : string;
  ce_name : string;
  ce_role : string;
  ce_expires_at : Q;
}.

Record sso_world (St : Type) := {
  sso_auth : auth_world St;
  sso_discovery : option json;
  sso_jwks : option json;
  sso_jwks_fetched_at : Q;
  state_store : list (string * state_entry);
  code_store : list (string * code_entry);
  sso_calls : nat;                       (* requests made to the provider *)
}.
Arguments sso_auth {St}. Arguments sso_discovery {St}. Arguments sso_jwks {St}. Arguments sso_jwks_fetched_at {St}.
Arguments state_store {St}. Arguments code_store {St}. Arguments sso_calls {St}.

(** A call of the provider and its answer. *)
Inductive http_call := HttpGet (url : json) | HttpPost (url : json) (data : list (string * string)).
Inductive http_answer := HttpJson (status : Z) (body : json) | HttpText (status : Z) | HttpFails.

Definition _JWKS_CACHE_TTL_SECONDS : Q := 600.
Definition _CLOCK_SKEW_SECONDS : Z := 300.
Definition _STATE_TTL_SECONDS : Q := 600.
Definition _CODE_TTL_SECONDS : Q := 60.

(** ** Roles *)

Definition role_priority (role : string) : Z :=
  if bool_decide (role = ROLE_SUPER_ADMIN) then 4
  else if bool_decide (role = ROLE_TENANT_ADMIN) then 3
  else if bool_decide (role = ROLE_OPERATOR) then 2
  else if bool_decide (role = ROLE_AUDITOR) then 1
  else 0.

Definition better_role (roles : list string) (best : option string) (mapped : string * string) : option string :=
  if bool_decide (mapped.1 ∈ roles)
     && match best with None => true | Some b => role_priority b <? role_priority mapped.2 end
  then Some mapped.2 else best.

Definition map_oidc_role (role_map : list (string * string)) (roles : list string) : option string :=
  foldl (better_role roles) None role_map.

Section sso.
Context {St : Type} {HR : RedisKV St _Bucket}.
Context (settings : AuthSettings) (oidc : OidcSettings).
Context (sha256 : string -> string) (uuid4 token_hex token_urlsafe : nat -> string).
(** The [n]-th call of the provider. *)
Context (http : nat -> http_call -> http_answer).
(** [base64.urlsafe_b64decode] with padding added, [json.loads] of it, [str]
    of a JSON value, [urlencode] of parameters; [None]: ValueError. *)
Context (_b64url_decode : string -> option string) (decode_json : string -> option json) (py_str : json -> string)
  (urlencode : list (string * string) -> string).
(** PKCS1v15 with SHA-256 under a modulus and an exponent; HMAC-SHA256 in bytes. *)
Context (rsa_verify : json -> json -> string -> string -> bool) (hmac_bytes : string -> string -> string).

Abbreviation world := (sso_world St).
Abbreviation sso A := (io world oidc_exc A).

Definition with_auth (a : auth_world St) (w : world) : world := {|
  sso_auth := a; sso_discovery := sso_discovery w; sso_jwks := sso_jwks w; sso_jwks_fetched_at := sso_jwks_fetched_at w;
  state_store := state_store w; code_store := code_store w; sso_calls := sso_calls w |}.
Definition with_states (l : list (string * state_entry)) (w : world) : world := {|
  sso_auth := sso_auth w; sso_discovery := sso_discovery w; sso_jwks := sso_jwks w;
  sso_jwks_fetched_at := sso_jwks_fetched_at w; state_store := l; code_store := code_store w; sso_calls := sso_calls w |}.
Definition with_codes (l : list (string * code_entry)) (w : world) : world := {|
  sso_auth := sso_auth w; sso_discovery := sso_discovery w; sso_jwks := sso_jwks w;
  sso_jwks_fetched_at := sso_jwks_fetched_at w; state_store := state_store w; code_store := l; sso_calls := sso_calls w |}.
Definition with_discovery (d : json) (w : world) : world := {|
  sso_auth := sso_auth w; sso_discovery := Some d; sso_jwks := sso_jwks w;
  sso_jwks_fetched_at := sso_jwks_fetched_at w; state_store := state_store w; code_store := code_store w;
  sso_calls := sso_calls w |}.
Definition with_jwks (j : json) (at_ : Q) (w : world) : world := {|
  sso_auth := sso_auth w; sso_discovery := sso_discovery w; sso_jwks := Some j; sso_jwks_fetched_at := at_;
  state_store := state_store w; code_store := code_store w; sso_calls := sso_calls w |}.

Definition on_auth {A} (c : io (auth_world St) auth_exc A) : sso A := lift sso_auth with_auth Refused c.

Definition sso_now : sso Q := fun w => (Ret (auth_now (sso_auth w)), w).
Definition sso_draw {A} (f : nat -> A) : sso A := on_auth (draw f).

Definition request (c : http_call) : sso http_answer := fun w =>
  (Ret (http (sso_calls w) c),
   {| sso_auth := sso_auth w; sso_discovery := sso_discovery w; sso_jwks := sso_jwks w;
      sso_jwks_fetched_at := sso_jwks_fetched_at w; state_store := state_store w; code_store := code_store w;
      sso_calls := S (sso_calls w) |}).

(** [response.json()] of an answer with status 200. *)
Definition body_of (a : http_answer) (not_200 : Z -> string) : sso json :=
  match a with
  | HttpFails => throw Uncaught
  | HttpText s => if s =? 200 then throw Uncaught else throw (OidcError (not_200 s))
  | HttpJson s v => if s =? 200 then mret v else throw (OidcError (not_200 s))
  end.

(** ** The client *)

Definition _require_configured : sso unit :=
  if negb (OIDC_ENABLED oidc) || negb (truthy (OIDC_DISCOVERY_URL oidc))
  then throw (OidcError "OIDC SSO is not configured on this deployment")
  else if negb (truthy (OIDC_CLIENT_ID oidc)) then throw (OidcError "OIDC_CLIENT_ID is not set")
  else mret tt.

Definition required_fields : list string := ["issuer"; "authorization_endpoint"; "token_endpoint"; "jwks_uri"].

Definition has_field (v : json) (k : string) : bool := match get_field k v with Some _ => true | None => false end.
(** [document[k]] of a field that is there. *)
Definition member (k : string) (v : json) : json := default JNull (get_field k v).

Definition discovery : sso json :=
  _ ← _require_configured;
  w ← get_st;
  match sso_discovery w with
  | Some d => mret d
  | None =>
      a ← request (HttpGet (JStr (OIDC_DISCOVERY_URL oidc)));
      d ← body_of a (fun s => "OIDC discovery failed (HTTP " +:+ pretty s +:+ ")");
      match List.filter (fun k => negb (has_field d k)) required_fields with
      | [] => _ ← modify (with_discovery d); mret d
      | missing => throw (OidcError ("OIDC discovery document missing: " +:+ join ", " missing))
      end
  end.

Definition authorization_url (state nonce : string) : sso string :=
  d ← discovery;
  mret (py_str (member "authorization_endpoint" d) +:+ "?" +:+ urlencode [
    ("response_type", "code"); ("client_id", OIDC_CLIENT_ID oidc); ("redirect_uri", OIDC_REDIRECT_URI oidc);
    ("scope", OIDC_SCOPES oidc); ("state", state); ("nonce", nonce)]).

(** The id_token; the body is not used. *)
Definition exchange_code (code : string) : sso string :=
  d ← discovery;
  if negb (truthy (OIDC_CLIENT_SECRET oidc)) then throw (OidcError "OIDC_CLIENT_SECRET is not set")
  else
    a ← request (HttpPost (member "token_endpoint" d) [
          ("grant_type", "authorization_code"); ("code", code); ("redirect_uri", OIDC_REDIRECT_URI oidc);
          ("client_id", OIDC_CLIENT_ID oidc); ("client_secret", OIDC_CLIENT_SECRET oidc)]);
    body ← body_of a (fun s => "OIDC token endpoint returned HTTP " +:+ pretty s);
    match get_field "id_token" body with
    | Some v => if negb (json_truthy v) then throw (OidcError "OIDC token response missing id_token")
                else match v with JStr t => mret t | _ => throw Uncaught end
    | None => throw (OidcError "OIDC token response missing id_token")
    end.

Definition _jwks : sso json :=
  w ← get_st;
  let now := auth_now (sso_auth w) in
  match sso_jwks w with
  | Some j => if (_JWKS_CACHE_TTL_SECONDS <?q now - sso_jwks_fetched_at w)%Q then
                d ← discovery; a ← request (HttpGet (member "jwks_uri" d));
                j ← body_of a (fun s => "JWKS fetch failed (HTTP " +:+ pretty s +:+ ")");
                _ ← modify (with_jwks j now); mret j
              else mret j
  | None =>
      d ← discovery; a ← request (HttpGet (member "jwks_uri" d));
      j ← body_of a (fun s => "JWKS fetch failed (HTTP " +:+ pretty s +:+ ")");
      _ ← modify (with_jwks j now); mret j
  end.

(** The first RSA key of a set with the token's [kid], if it names one. *)
Definition usable_key (kid : option json) (candidate : json) : bool :=
  bool_decide (get_field "kty" candidate = Some (JStr "RSA"))
  && match kid with None | Some JNull => true | Some k => bool_decide (get_field "kid" candidate = Some k) end
  && has_field candidate "n" && has_field candidate "e".

Definition jwks_keys (j : json) : list json := match get_field "keys" j with Some (JList l) => l | _ => [] end.

Definition bad_signature : oidc_exc := OidcError "id_token signature invalid".

(** [await self._jwks()]: [__init__] gives the instance an attribute [_jwks]
    that hides the method, and what it holds cannot be called (TypeError). *)
Definition call_jwks : sso json := throw Uncaught.

Definition _verify_rs256 (signature content : string) (kid : option json) : sso unit :=
  j ← call_jwks;
  match List.find (usable_key kid) (jwks_keys j) with
  | None => throw (OidcError "no matching RSA JWK for id_token kid")
  | Some k =>
      match _b64url_decode signature with
      | None => throw Uncaught
      | Some s => if rsa_verify (member "n" k) (member "e" k) s content then mret tt else throw bad_signature
      end
  end.

Definition _verify_hs256 (signature content : string) : sso unit :=
  if negb (truthy (OIDC_CLIENT_SECRET oidc)) then throw (OidcError "HS256 id_token requires OIDC_CLIENT_SECRET")
  else
    match _b64url_decode signature with
    | None => throw Uncaught
    | Some s => if bool_decide (hmac_bytes (OIDC_CLIENT_SECRET oidc) content = s) then mret tt else throw bad_signature
    end.

(** [isinstance(v, (int, float))]; floats with a fraction are left out. *)
Definition number_of (v : option json) : option Z :=
  match v with
  | Some (JNum z) => Some z
  | Some (JBool b) => Some (if b then 1 else 0)
  | _ => None
  end.

(** [CLIENT_ID not in (audience or [])] of what a token names; [None]: TypeError. *)
Definition names_audience (id : string) (aud : option json) : option bool :=
  match aud with
  | Some (JStr s) => Some (bool_decide (s = id))
  | Some (JList l) => Some (bool_decide (JStr id ∈ l))
  | Some (JObj l) => Some (bool_decide (id ∈ l.*1))
  | Some (JNum z) => if z =? 0 then Some false else None
  | Some (JBool b) => if b then None else Some false
  | Some JNull | None => Some false
  end.

Definition _extract_roles (raw : option json) : list string :=
  match raw with
  | Some (JStr s) => List.filter truthy (map strip (split_on "," s))
  | Some (JList l) => map (fun v => match v with JStr s => s | v => py_str v end)
                        (List.filter json_truthy l)
  | _ => []
  end.

Definition text_claim (k : string) (payload : json) : option string := str_of (get_field k payload).

(** The claims of a payload whose signature was verified. *)
Definition check_claims (payload : json) (nonce : string) : sso IdTokenClaims :=
  now ← sso_now;
  match number_of (get_field "exp" payload) with
  | None => throw (OidcError "id_token expired")
  | Some exp =>
      if (inject_Z exp <?q now)%Q then throw (OidcError "id_token expired")
      else
        match number_of (get_field "iat" payload) with
        | None => throw (OidcError "id_token issued in the future")
        | Some iat =>
            if (now + inject_Z _CLOCK_SKEW_SECONDS <?q inject_Z iat)%Q
            then throw (OidcError "id_token issued in the future")
            else
              d ← discovery;
              if negb (bool_decide (get_field "iss" payload = Some (member "issuer" d)))
              then throw (OidcError "id_token issuer mismatch")
              else
                match names_audience (OIDC_CLIENT_ID oidc) (get_field "aud" payload) with
                | None => throw Uncaught
                | Some false => throw (OidcError "id_token audience mismatch")
                | Some true =>
                    if negb (bool_decide (get_field "nonce" payload = Some (JStr nonce)))
                    then throw (OidcError "id_token nonce mismatch")
                    else
                      match get_field "sub" payload with
                      | Some v =>
                          if json_truthy v
                          then mret {| claim_sub := match v with JStr s => s | v => py_str v end; claim_email := text_claim "email" payload;
                                       claim_name := text_claim "name" payload;
                                       claim_roles := _extract_roles (get_field (OIDC_ROLE_CLAIM oidc) payload) |}
                          else throw (OidcError "id_token missing sub")
                      | None => throw (OidcError "id_token missing sub")
                      end
                end
        end
  end.

Definition is_object (v : json) : bool := match v with JObj _ => true | _ => false end.

(** An email or a name that is not a text counts as missing. *)
Definition verify_id_token (id_token nonce : string) : sso IdTokenClaims :=
  match split_on "." id_token with
  | [h; b; signature] =>
      match decode_json h, decode_json b with
      | Some header, Some payload =>
          if negb (is_object header) || negb (is_object payload) then throw Uncaught
          else
            let content := h +:+ "." +:+ b in
            _ ← (match get_field "alg" header with
                 | Some (JStr a) =>
                     if bool_decide (a = "RS256") then _verify_rs256 signature content (get_field "kid" header)
                     else if bool_decide (a = "HS256") then _verify_hs256 signature content
                     else throw (OidcError ("unsupported id_token alg '" +:+ a +:+ "' (support: RS256, HS256)"))
                 | a => throw (OidcError ("unsupported id_token alg '" +:+ py_str (default JNull a)
                                          +:+ "' (support: RS256, HS256)"))
                 end);
            check_claims payload nonce
      | _, _ => throw (OidcError "id_token not JSON")
      end
  | _ => throw (OidcError "malformed id_token")
  end.

(** ** The routes *)

Definition pop {A} (k : string) (l : list (string * A)) : option A * list (string * A) :=
  (snd <$> List.find (fun e => bool_decide (e.1 = k)) l, List.filter (fun e => negb (bool_decide (e.1 = k))) l).

Definition _prune_stores : sso unit :=
  now ← sso_now;
  modify (fun w => with_codes (List.filter (fun e => negb (ce_expires_at e.2 <?q now)%Q) (code_store w))
                     (with_states (List.filter (fun e => negb (se_expires_at e.2 <?q now)%Q) (state_store w)) w)).

Definition oidc_status : bool := OIDC_ENABLED oidc && truthy (OIDC_DISCOVERY_URL oidc).

(** A redirection to the provider. *)
Definition oidc_authorize : sso string :=
  state ← sso_draw token_urlsafe;
  nonce ← sso_draw token_urlsafe;
  url ← try_catch (authorization_url state nonce)
          (fun e => match e with OidcError m => throw (Refused (HTTPError 404 m)) | e => throw e end);
  _ ← _prune_stores;
  now ← sso_now;
  _ ← modify (fun w => with_states (dict_set state {| se_nonce := nonce; se_expires_at := (now + _STATE_TTL_SECONDS)%Q |}
                                      (state_store w)) w);
  mret url.

(** What the callback tells the frontend: an error, or a one-time code. *)
Inductive callback_result := CallbackError (e : string) | CallbackCode (code : string).

(** The claims of a code from the provider; [None]: the exchange failed. *)
Definition claims_of_code (code nonce : string) : sso (option IdTokenClaims) :=
  try_catch (t ← exchange_code code; c ← verify_id_token t nonce; mret (Some c))
    (fun e => match e with OidcError _ => mret None | e => throw e end).

Definition first_text (a b : option string) (c : string) : string :=
  if truthy_opt a then default EmptyString a else if truthy_opt b then default EmptyString b else c.

Definition oidc_callback (code state error : option string) : sso callback_result :=
  if truthy_opt error then mret (CallbackError (urlencode [("error", default EmptyString error)]))
  else
    w ← get_st;
    let '(entry, rest) := pop (if truthy_opt state then default EmptyString state else EmptyString) (state_store w) in
    _ ← modify (with_states rest);
    match entry with
    | None => mret (CallbackError "invalid_state")
    | Some entry =>
        now ← sso_now;
        if (se_expires_at entry <?q now)%Q then mret (CallbackError "state_expired")
        else if negb (truthy_opt code) then mret (CallbackError "missing_code")
        else
          claims ← claims_of_code (default EmptyString code) (se_nonce entry);
          match claims with
          | None => mret (CallbackError "exchange_failed")
          | Some c =>
              match map_oidc_role (OIDC_ROLE_MAP oidc) (claim_roles c) with
              | None => mret (CallbackError "role_denied")
              | Some role =>
                  k ← sso_draw token_urlsafe;
                  _ ← _prune_stores;
                  now ← sso_now;
                  _ ← modify (fun w => with_codes (dict_set k
                        {| ce_sub := claim_sub c; ce_name := first_text (claim_name c) (claim_email c) (claim_sub c);
                           ce_role := role; ce_expires_at := (now + _CODE_TTL_SECONDS)%Q |} (code_store w)) w);
                  mret (CallbackCode k)
              end
          end
    end.

(** The bearer token of the session and its row. *)
Definition oidc_exchange (code : string) : sso (string * OperatorSessionRow) :=
  w ← get_st;
  let '(entry, rest) := pop code (code_store w) in
  _ ← modify (with_codes rest);
  now ← sso_now;
  match entry with
  | None => throw (Refused (HTTPError 401 "Invalid or expired exchange code"))
  | Some e =>
      if (ce_expires_at e <?q now)%Q then throw (Refused (HTTPError 401 "Invalid or expired exchange code"))
      else
        tr ← on_auth (session_create settings sha256 uuid4 token_hex (ce_name e) (ce_role e) None None
                        (Some (ce_sub e)) "oidc" None);
        let '(token, r) := tr in
        _ ← on_auth (note "auth.oidc_login" "operator_session" (Some (os_id r)) None (Some (os_id r))
                       [("idp_sub", JStr (ce_sub e)); ("role", JStr (ce_role e))]);
        mret (token, r)
  end.
End sso.

(** ** Lemmas *)

Lemma better_role_spec roles best mapped r :
  better_role roles best mapped = Some r ->
  (r = mapped.2 /\ mapped.1 ∈ roles) \/ best = Some r.
Proof.
  unfold better_role. case_bool_decide as Hin; [|by right]. destruct best as [b|]; cbn.
  - destruct (role_priority b <? role_priority mapped.2); [intros [= <-]; by left|by right].
  - intros [= <-]. by left.
Qed.

(** the role of a login is one the configuration maps from a role the
    provider gave, and none of those it maps has a higher priority; without
    one the login is refused. *)
Theorem mapped_role_highest role_map roles :
  match map_oidc_role role_map roles with
  | Some r => (exists idp, (idp, r) ∈ role_map /\ idp ∈ roles) /\
      forall idp r', (idp, r') ∈ role_map -> idp ∈ roles -> role_priority r' <= role_priority r
  | None => forall idp r', (idp, r') ∈ role_map -> idp ∉ roles
  end.
Proof.
  unfold map_oidc_role. induction role_map as [|m l IH] using rev_ind.
  - cbn. intros idp r' []%elem_of_nil.
  - rewrite foldl_app. cbn [foldl]. set (best := foldl (better_role roles) None l) in *.
    unfold better_role. case_bool_decide as Hin; cbn [andb].
    + destruct best as [b|].
      * destruct IH as [(idp & Hl & Hr) Hmax]. destruct (Z.ltb_spec (role_priority b) (role_priority m.2)).
        -- split; [exists m.1; split; [apply elem_of_app; right; destruct m; by left|done]|].
           intros idp' r' [Hl'|Hl']%elem_of_app Hr'; [specialize (Hmax idp' r' Hl' Hr'); lia|].
           apply list_elem_of_singleton in Hl' as <-. cbn. lia.
        -- split; [exists idp; split; [apply elem_of_app; by left|done]|].
           intros idp' r' [Hl'|Hl']%elem_of_app Hr'; [by apply (Hmax idp')|].
           apply list_elem_of_singleton in Hl' as <-. cbn in *. lia.
      * split; [exists m.1; split; [apply elem_of_app; right; destruct m; by left|done]|].
        intros idp' r' [Hl'|Hl']%elem_of_app Hr'; [by apply IH in Hl'|].
        apply list_elem_of_singleton in Hl' as <-. cbn. lia.
    + destruct best as [b|].
      * destruct IH as [(idp & Hl & Hr) Hmax]. split; [exists idp; split; [apply elem_of_app; by left|done]|].
        intros idp' r' [Hl'|Hl']%elem_of_app Hr'; [by apply (Hmax idp')|].
        apply list_elem_of_singleton in Hl' as <-. by cbn in *.
      * intros idp' r' [Hl'|Hl']%elem_of_app; [by apply (IH _ r')|].
        apply list_elem_of_singleton in Hl' as <-. by cbn in *.
Qed.

(** ** Only verified tokens make sessions *)

Section sso_props.
Context {St : Type} {HR : RedisKV St _Bucket}.
Context (settings : AuthSettings) (oidc : OidcSettings).
Context (sha256 : string -> string) (uuid4 token_hex token_urlsafe : nat -> string).
Context (http : nat -> http_call -> http_answer).
Context (_b64url_decode : string -> option string) (decode_json : string -> option json) (py_str : json -> string)
  (urlencode : list (string * string) -> string).
Context (rsa_verify : json -> json -> string -> string -> bool) (hmac_bytes : string -> string -> string).

Abbreviation world := (sso_world St).
Abbreviation discovery := (discovery oidc http (St := St)).
Abbreviation exchange_code := (exchange_code oidc http (St := St)).
Abbreviation check_claims := (check_claims oidc http py_str (St := St)).
Abbreviation verify_id_token := (verify_id_token oidc http _b64url_decode decode_json py_str rsa_verify hmac_bytes (St := St)).
Abbreviation claims_of_code := (claims_of_code oidc http _b64url_decode decode_json py_str rsa_verify hmac_bytes (St := St)).
Abbreviation oidc_authorize := (oidc_authorize oidc token_urlsafe http py_str urlencode (St := St)).
Abbreviation oidc_callback :=
  (oidc_callback oidc token_urlsafe http _b64url_decode decode_json py_str urlencode rsa_verify hmac_bytes (St := St)).
Abbreviation oidc_exchange := (oidc_exchange settings sha256 uuid4 token_hex (St := St)).

(** What the provider published. *)
Definition provider_document (d : json) : Prop :=
  exists n, http n (HttpGet (JStr (OIDC_DISCOVERY_URL oidc))) = HttpJson 200 d.

(** The cached document is one the provider published. *)
Definition honest (w : world) : Prop := forall d, sso_discovery w = Some d -> provider_document d.

(** Nothing but the caches and the count of calls changed. *)
Definition steady (a : auth_world St) (s : list (string * state_entry)) (c : list (string * code_entry)) (w : world) : Prop :=
  honest w /\ sso_auth w = a /\ state_store w = s /\ code_store w = c.

(** The signature of a token, with the secret the client shares with the
    provider. *)
Definition signed (h b signature : string) : Prop :=
  truthy (OIDC_CLIENT_SECRET oidc) = true /\
  _b64url_decode signature = Some (hmac_bytes (OIDC_CLIENT_SECRET oidc) (h +:+ "." +:+ b)).

(** The token endpoint of the provider gave [t] for the code. *)
Definition delivered (code t : string) : Prop :=
  exists n d body, provider_document d /\
    http n (HttpPost (member "token_endpoint" d) [
      ("grant_type", "authorization_code"); ("code", code); ("redirect_uri", OIDC_REDIRECT_URI oidc);
      ("client_id", OIDC_CLIENT_ID oidc); ("client_secret", OIDC_CLIENT_SECRET oidc)]) = HttpJson 200 body /\
    get_field "id_token" body = Some (JStr t).

(** The token given for a code that makes claims at the instant [now], for a
    login with a nonce. *)
Definition genuine (now : Q) (code nonce : string) (c : IdTokenClaims) : Prop :=
  exists t h b signature payload exp d,
    delivered code t /\ split_on "." t = [h; b; signature] /\ signed h b signature /\ decode_json b = Some payload /\ number_of (get_field "exp" payload) = Some exp /\
    (now <= inject_Z exp)%Q /\ provider_document d /\ get_field "iss" payload = Some (member "issuer" d) /\
    names_audience (OIDC_CLIENT_ID oidc) (get_field "aud" payload) = Some true /\
    get_field "nonce" payload = Some (JStr nonce) /\
    claim_roles c = _extract_roles py_str (get_field (OIDC_ROLE_CLAIM oidc) payload) /\
    exists v, get_field "sub" payload = Some v /\ json_truthy v = true /\
      claim_sub c = match v with JStr s => s | v => py_str v end.

Abbreviation keeps a s c := (fun (_ : oidc_exc) => steady a s c).

Lemma steady_request a s c call :
  triple (steady a s c) (request http call) (fun r w => steady a s c w /\ exists n, r = http n call) (keeps a s c).
Proof. intros w Hw. cbn. split; [exact Hw|]. by eexists. Qed.

Lemma steady_body a s c P r f :
  triple (fun w => steady a s c w /\ P r) (body_of r f) (fun v w => steady a s c w /\ r = HttpJson 200 v) (keeps a s c).
Proof.
  intros w [Hw _]. unfold body_of. destruct r as [st v|st|]; cbn; [|by destruct (st =? 200)|done].
  destruct (Z.eqb_spec st 200) as [->|]; cbn; done.
Qed.

Lemma discovery_ok a s c :
  triple (steady a s c) discovery (fun d w => steady a s c w /\ provider_document d) (keeps a s c).
Proof.
  unfold Oidc.discovery. intros w Hw. unfold mbind, io_bind at 1, _require_configured.
  destruct (_ || _); [done|]. destruct (negb (truthy (OIDC_CLIENT_ID oidc))); [done|]. unfold mret, io_ret at 1, get_st, io_bind at 1.
  destruct (sso_discovery w) as [d|] eqn:Ed; [split; [done|]; by apply Hw|].
  unfold io_bind at 1. pose proof (steady_request a s c (HttpGet (JStr (OIDC_DISCOVERY_URL oidc))) w Hw) as Hr.
  destruct (request _ _ w) as [[r|e] w1]; [|done]. destruct Hr as [Hw1 [n Hn]].
  unfold io_bind at 1. pose proof (steady_body a s c (fun _ => True) r
    (fun s => "OIDC discovery failed (HTTP " +:+ pretty s +:+ ")") w1 (conj Hw1 I)) as Hb.
  destruct (body_of _ _ w1) as [[d|e] w2]; [|done]. destruct Hb as [Hw2 Hd].
  assert (provider_document d) as Hdoc by (exists n; congruence).
  destruct (List.filter _ _) as [|m l]; [|done]. unfold io_bind, modify, mret, io_ret. split; [|done].
  destruct Hw2 as (Hh & H). split; [|done]. intros d' [= <-]. done.
Qed.

Lemma hs256_ok a s c h b signature :
  triple (steady a s c) (_verify_hs256 oidc _b64url_decode hmac_bytes signature (h +:+ "." +:+ b) (St := St))
    (fun _ w => steady a s c w /\ signed h b signature) (keeps a s c).
Proof.
  unfold _verify_hs256. intros w Hw. destruct (truthy (OIDC_CLIENT_SECRET oidc)) eqn:Et; [|done]. cbn [negb].
  destruct (_b64url_decode signature) as [sb|] eqn:Es; [|done]. case_bool_decide as Hs; [|done]. subst sb.
  split; [done|]. by split.
Qed.

(** The claims of a token [t], checked at [now]. *)
Definition verified (now : Q) (nonce t : string) (c : IdTokenClaims) : Prop :=
  forall code, delivered code t -> genuine now code nonce c.

(** What the checks of a payload establish. *)
Definition sound_claims (now : Q) (nonce : string) (payload : json) (cl : IdTokenClaims) : Prop :=
  exists exp d, number_of (get_field "exp" payload) = Some exp /\ (now <= inject_Z exp)%Q /\ provider_document d /\
    get_field "iss" payload = Some (member "issuer" d) /\
    names_audience (OIDC_CLIENT_ID oidc) (get_field "aud" payload) = Some true /\
    get_field "nonce" payload = Some (JStr nonce) /\
    claim_roles cl = _extract_roles py_str (get_field (OIDC_ROLE_CLAIM oidc) payload) /\
    exists v, get_field "sub" payload = Some v /\ json_truthy v = true /\
      claim_sub cl = match v with JStr s => s | v => py_str v end.

Lemma check_claims_ok a s c payload nonce :
  triple (steady a s c) (check_claims payload nonce)
    (fun cl w => steady a s c w /\ sound_claims (auth_now a) nonce payload cl) (keeps a s c).
Proof.
  intros w Hw. unfold Oidc.check_claims, mbind, io_bind at 1, sso_now.
  assert (auth_now (sso_auth w) = auth_now a) as -> by (by destruct Hw as (_ & -> & _)).
  destruct (number_of (get_field "exp" payload)) as [exp|] eqn:Eexp; [|done].
  destruct (inject_Z exp <?q auth_now a)%Q eqn:Elt; [done|].
  destruct (number_of (get_field "iat" payload)) as [iat|]; [|done]. destruct (_ <?q inject_Z iat)%Q; [done|].
  unfold io_bind at 1. pose proof (discovery_ok a s c w Hw) as Hd.
  destruct (discovery w) as [[d|e] w1]; [|done]. destruct Hd as [Hw1 Hdoc].
  case_bool_decide as Hiss; [|done]. cbn [negb].
  destruct (names_audience _ _) as [[]|] eqn:Ha; [|done|done]. case_bool_decide as Hn; [|done]. cbn [negb].
  destruct (get_field "sub" payload) as [v|] eqn:Esub; [|done]. destruct (json_truthy v) eqn:Ev; [|done].
  split; [done|]. exists exp, d. split_and!; try done; [by apply Qltb_false|]. by exists v.
Qed.

Lemma verify_ok a s c t nonce :
  triple (steady a s c) (verify_id_token t nonce)
    (fun cl w => steady a s c w /\ verified (auth_now a) nonce t cl) (keeps a s c).
Proof.
  unfold Oidc.verify_id_token. destruct (split_on "." t) as [|h [|b [|signature [|]]]] eqn:Et; try by apply triple_throw.
  destruct (decode_json h) as [header|]; [|by apply triple_throw].
  destruct (decode_json b) as [payload|] eqn:Eb; [|by apply triple_throw].
  destruct (_ || _); [by apply triple_throw|].
  eapply triple_bind with (R' := fun _ w => steady a s c w /\ signed h b signature).
  - destruct (get_field "alg" header) as [[| | |alg| |]|]; try by apply triple_throw.
    case_bool_decide; [by apply triple_throw|]. case_bool_decide; [apply hs256_ok|]. by apply triple_throw.
  - intros []. intros w [Hw Hs]. pose proof (check_claims_ok a s c payload nonce w Hw) as Hc.
    destruct (check_claims payload nonce w) as [[cl|e] w1]; [|done]. destruct Hc as [Hw1 (exp & d & H1 & H2 & H3 & H4)].
    split; [done|]. intros code Hd. by exists t, h, b, signature, payload, exp, d.
Qed.

Lemma exchange_ok a s c code :
  triple (steady a s c) (exchange_code code) (fun t w => steady a s c w /\ delivered code t) (keeps a s c).
Proof.
  unfold Oidc.exchange_code. eapply triple_bind; [apply discovery_ok|]. intros d.
  destruct (negb _); [apply triple_throw; by intros ? []|]. intros w [Hw Hd]. unfold mbind, io_bind at 1.
  pose proof (steady_request a s c (HttpPost (member "token_endpoint" d) [
    ("grant_type", "authorization_code"); ("code", code); ("redirect_uri", OIDC_REDIRECT_URI oidc);
    ("client_id", OIDC_CLIENT_ID oidc); ("client_secret", OIDC_CLIENT_SECRET oidc)]) w Hw) as Hr.
  destruct (request _ _ w) as [[r|e] w1]; [|done]. destruct Hr as [Hw1 [n Hn]]. unfold io_bind at 1.
  pose proof (steady_body a s c (fun _ => True) r
    (fun s => "OIDC token endpoint returned HTTP " +:+ pretty s) w1 (conj Hw1 I)) as Hb.
  destruct (body_of _ _ w1) as [[body|e] w2]; [|done]. destruct Hb as [Hw2 Hb].
  destruct (get_field "id_token" body) as [[| | |t| |]|] eqn:Et; try done; destruct (negb _); try done.
  split; [done|]. exists n, d, body. split_and!; [done|congruence|done].
Qed.

Lemma claims_ok a s c code nonce :
  triple (steady a s c) (claims_of_code code nonce)
    (fun o w => steady a s c w /\ forall cl, o = Some cl -> genuine (auth_now a) code nonce cl) (keeps a s c).
Proof.
  unfold Oidc.claims_of_code. eapply triple_try with (X := keeps a s c).
  - eapply triple_bind; [apply exchange_ok|]. intros t. intros w [Hw Ht]. unfold mbind, io_bind.
    pose proof (verify_ok a s c t nonce w Hw) as Hv. destruct (verify_id_token t nonce w) as [[cl|e] w1]; [|done].
    destruct Hv as [Hw1 Hg]. split; [done|]. intros cl' [= <-]. by apply Hg.
  - intros [m| |e]; [apply triple_ret; by split|by apply triple_throw|by apply triple_throw].
Qed.

(** *** Logins over any history *)

Inductive sso_op :=
| StartLogin
| FinishLogin (code state error : option string)
| Redeem (code : string)
| Later (seconds : Q).

Definition run_sso (o : sso_op) (w : world) : world :=
  match o with
  | StartLogin => (oidc_authorize w).2
  | FinishLogin c s e => (oidc_callback c s e w).2
  | Redeem c => (oidc_exchange c w).2
  | Later d => with_auth {| auth_limiter := auth_limiter (sso_auth w); api_keys := api_keys (sso_auth w);
      operator_sessions := operator_sessions (sso_auth w); auth_trail := auth_trail (sso_auth w);
      touched := touched (sso_auth w); auth_now := (auth_now (sso_auth w) + d)%Q;
      auth_mono := (auth_mono (sso_auth w) + d)%Q; auth_drawn := auth_drawn (sso_auth w) |} w
  end.

Lemma pop_elem {A} k (l : list (string * A)) e : fst (pop k l) = Some e -> (k, e) ∈ l.
Proof.
  unfold pop. cbn. destruct (List.find _ l) as [[k' e']|] eqn:E; [|done]. intros [= <-].
  apply List.find_some in E as [Hin Hk]. apply bool_decide_eq_true in Hk. cbn in *. subst k'. by apply list_elem_of_In.
Qed.

Section stores.
Context (PS : string * state_entry -> Prop) (PC : string * code_entry -> Prop) (PB : OperatorSessionRow -> Prop).

(** What holds of the logins begun, the codes handed out and the sessions made. *)
Definition sso_inv (old : list OperatorSessionRow) (w : world) : Prop :=
  honest w /\ Forall PS (state_store w) /\ Forall PC (code_store w) /\
  exists added, operator_sessions (sso_auth w) = old ++ added /\ Forall PB added.

Lemma prune_inv old w : sso_inv old w -> sso_inv old (_prune_stores w).2.
Proof.
  intros (Hh & Hn & Hc & Hs). unfold _prune_stores, mbind, io_bind, sso_now, modify. cbn.
  split; [done|]. split; [by apply Forall_keep|]. split; [by apply Forall_keep|done].
Qed.

Lemma prune_auth (w : world) : sso_auth (_prune_stores w).2 = sso_auth w.
Proof. done. Qed.

Lemma authorize_inv old w : sso_inv old w ->
  PS (token_urlsafe (auth_drawn (sso_auth w)), {| se_nonce := token_urlsafe (S (auth_drawn (sso_auth w)));
        se_expires_at := (auth_now (sso_auth w) + _STATE_TTL_SECONDS)%Q |}) ->
  sso_inv old (oidc_authorize w).2.
Proof.
  intros Hw Hnew. unfold Oidc.oidc_authorize, sso_draw, on_auth, lift, draw, mbind, io_bind at 1. cbn [sso_auth with_auth].
  unfold io_bind at 1. cbn [sso_auth with_auth]. set (st := token_urlsafe (auth_drawn (sso_auth w))) in *.
  set (nonce := token_urlsafe _). set (w1 := with_auth _ _).
  assert (sso_inv old w1) as Hw1 by exact Hw.
  unfold io_bind at 1, try_catch, authorization_url, mbind, io_bind at 1.
  destruct Hw1 as (Hh & Hn & Hc & Hs).
  pose proof (discovery_ok (sso_auth w1) (state_store w1) (code_store w1) w1 (conj Hh (conj eq_refl (conj eq_refl eq_refl)))) as Hd.
  destruct (discovery w1) as [[d|e] w2].
  - destruct Hd as [(Hh2 & Ea & Es & Ec) _]. unfold mret, io_ret, io_bind at 1.
    assert (sso_inv old w2) as Hw2 by (unfold sso_inv; rewrite Ea, Es, Ec; done).
    pose proof (prune_inv old w2 Hw2) as Hp. pose proof (prune_auth w2) as Hpa.
    destruct (_prune_stores w2) as [[[]|e] w3] eqn:Ep; [|done].
    cbn [snd] in Hp, Hpa. destruct Hp as (Hh3 & Hn3 & Hc3 & Hs3). unfold io_bind, sso_now, modify. cbn.
    split; [done|]. split; [|by split]. apply Forall_dict_set; [|done]. rewrite Hpa, Ea. exact Hnew.
  - destruct Hd as (Hh2 & Ea & Es & Ec).
    assert (sso_inv old w2) as Hw2 by (unfold sso_inv; rewrite Ea, Es, Ec; done). by destruct e.
Qed.

Lemma with_states_inv old l w : sso_inv old w -> Forall PS l -> sso_inv old (with_states l w).
Proof. intros (Hh & _ & Hc & Hs) Hl. by split_and!. Qed.

(** The code a callback hands out, for the login whose state it brings. *)
Lemma callback_inv old code state error w : sso_inv old w ->
  (forall e cl role, truthy_opt error = false -> PS (default EmptyString state, e) ->
     (auth_now (sso_auth w) <= se_expires_at e)%Q -> truthy_opt code = true ->
     genuine (auth_now (sso_auth w)) (default EmptyString code) (se_nonce e) cl ->
     map_oidc_role (OIDC_ROLE_MAP oidc) (claim_roles cl) = Some role ->
     PC (token_urlsafe (auth_drawn (sso_auth w)),
         {| ce_sub := claim_sub cl; ce_name := first_text (claim_name cl) (claim_email cl) (claim_sub cl); ce_role := role;
            ce_expires_at := (auth_now (sso_auth w) + _CODE_TTL_SECONDS)%Q |})) ->
  sso_inv old (oidc_callback code state error w).2.
Proof.
  intros Hw Hnew. unfold Oidc.oidc_callback. destruct (truthy_opt error) eqn:Ee; [done|].
  unfold mbind, io_bind at 1, get_st. set (key := if truthy_opt state then _ else _).
  assert (Ekey : key = default EmptyString state).
  { unfold key. destruct (truthy_opt state) eqn:Et; [done|]. by destruct state as [[|]|]. }
  destruct (pop key (state_store w)) as [entry rest] eqn:Epop.
  unfold io_bind at 1, modify at 1.
  assert (Forall PS rest) as Hrest.
  { unfold pop in Epop. injection Epop as _ <-. by apply Forall_keep, Hw. }
  pose proof (with_states_inv old rest w Hw Hrest) as Hw1. set (w1 := with_states rest w) in *.
  destruct entry as [e|]; [|done]. unfold io_bind at 1, sso_now at 1. destruct (_ <?q _)%Q eqn:El; [done|].
  apply Qltb_false in El. destruct (negb (truthy_opt code)) eqn:Ecode; [done|]. apply negb_false_iff in Ecode.
  assert (PS (default EmptyString state, e)) as Hn.
  { pose proof (pop_elem key (state_store w) e) as Hin. rewrite Epop in Hin. specialize (Hin eq_refl). rewrite <- Ekey.
    destruct Hw as (_ & Hf & _). rewrite Forall_forall in Hf. by apply (Hf _ Hin). }
  unfold io_bind at 1. destruct Hw1 as (Hh & Hns & Hc & Hs).
  pose proof (claims_ok (sso_auth w1) (state_store w1) (code_store w1) (default EmptyString code) (se_nonce e) w1
    (conj Hh (conj eq_refl (conj eq_refl eq_refl)))) as Hcl.
  destruct (claims_of_code _ _ w1) as [[o|x] w2].
  - destruct Hcl as [(Hh2 & Ea & Es & Ec) Hg]. assert (sso_inv old w2) as Hw2 by (unfold sso_inv; rewrite Ea, Es, Ec; done).
    destruct o as [cl|]; [|done]. destruct (map_oidc_role _ _) as [role|] eqn:Er; [|done].
    unfold io_bind at 1, sso_draw, on_auth, lift, draw. cbn [snd fst]. set (w3 := with_auth _ w2).
    assert (sso_inv old w3) as Hw3 by exact Hw2. unfold io_bind at 1. pose proof (prune_inv old w3 Hw3) as Hp.
    pose proof (prune_auth w3) as Hpa. destruct (_prune_stores w3) as [[[]|x] w4] eqn:Ep; [|done]. cbn [snd] in Hp, Hpa.
    destruct Hp as (Hh4 & Hn4 & Hc4 & Hs4). unfold io_bind, sso_now, modify, mret, io_ret. cbn.
    split; [done|]. split; [done|]. split; [|done]. apply Forall_dict_set; [|done].
    rewrite Hpa, Ea. cbn. rewrite Ea. apply (Hnew e cl role); try done. by apply Hg.
  - destruct Hcl as (Hh2 & Ea & Es & Ec). unfold sso_inv. cbn. rewrite Ea, Es, Ec. done.
Qed.

(** The session made of a code. *)
Lemma redeem_inv old code w : sso_inv old w ->
  (forall e r, PC (code, e) -> (auth_now (sso_auth w) <= ce_expires_at e)%Q -> os_role r = ce_role e ->
     os_idp_sub r = Some (ce_sub e) -> os_auth_method r = "oidc" -> os_tenant_id r = None ->
     os_created_at r = auth_now (sso_auth w) -> PB r) ->
  sso_inv old (oidc_exchange code w).2.
Proof.
  intros (Hh & Hn & Hc & (added & Hs & Hb)) Hnew. unfold Oidc.oidc_exchange, mbind, io_bind at 1, get_st.
  destruct (pop code (code_store w)) as [entry rest] eqn:Epop.
  assert (Forall PC rest) as Hrest.
  { unfold pop in Epop. injection Epop as _ <-. by apply Forall_keep. }
  unfold io_bind at 1, modify. set (w1 := with_codes rest w).
  assert (sso_inv old w1) as Hw1 by (split_and!; try done; by exists added).
  unfold io_bind at 1, sso_now at 1. destruct entry as [e|]; [|done]. destruct (_ <?q _)%Q eqn:El; [done|].
  apply Qltb_false in El. assert (PC (code, e)) as He.
  { pose proof (pop_elem code (code_store w) e) as Hin. rewrite Epop in Hin. specialize (Hin eq_refl).
    rewrite Forall_forall in Hc. by apply (Hc _ Hin). }
  unfold session_create, on_auth, lift, mbind, io_bind, draw, get_st. cbn.
  destruct (existsb _ _); [split_and!; try done; by exists added|]. cbn. split_and!; try done. cbn.
  rewrite Hs, <- app_assoc. eexists. split; [reflexivity|]. apply Forall_app. split; [done|]. repeat constructor.
  by apply (Hnew e).
Qed.
End stores.

(** *** A history and its logins *)

Section history.
Context (w0 : world).

(** The world and the instant before the [n]-th operation. *)
Definition before (ops : list sso_op) (n : nat) : world := foldl (fun w o => run_sso o w) w0 (take n ops).
Definition clock (ops : list sso_op) (n : nat) : Q := auth_now (sso_auth (before ops n)).
(** The [k]-th random text drawn by the [n]-th operation. *)
Definition drawn (ops : list sso_op) (n k : nat) : string := token_urlsafe (auth_drawn (sso_auth (before ops n)) + k).

(** The [i]-th operation began a login with this state and this nonce. *)
Definition began (ops : list sso_op) (i : nat) (state nonce : string) : Prop :=
  ops !! i = Some StartLogin /\ state = drawn ops i 0 /\ nonce = drawn ops i 1.

(** The [j]-th operation was a callback with the state of a login begun here
    at most [_STATE_TTL_SECONDS] before, and the provider gave, for its code, a
    token genuine at that instant and for that login's nonce. *)
Definition vouched (ops : list sso_op) (j : nat) (cl : IdTokenClaims) : Prop :=
  exists i code state error nonce, (i < j)%nat /\ began ops i (default EmptyString state) nonce
    /\ ops !! j = Some (FinishLogin (Some code) state error) /\ truthy_opt error = false
    /\ (clock ops j <= clock ops i + _STATE_TTL_SECONDS)%Q /\ genuine (clock ops j) code nonce cl.

(** A session: made when the code of such a callback was brought back, at most
    [_CODE_TTL_SECONDS] after it, for the subject of the token and with the
    role mapped from the token's roles. *)
Definition backed (ops : list sso_op) (r : OperatorSessionRow) : Prop :=
  exists j k cl, (j < k)%nat /\ vouched ops j cl /\ ops !! k = Some (Redeem (drawn ops j 0))
    /\ (clock ops k <= clock ops j + _CODE_TTL_SECONDS)%Q
    /\ map_oidc_role (OIDC_ROLE_MAP oidc) (claim_roles cl) = Some (os_role r)
    /\ os_idp_sub r = Some (claim_sub cl) /\ os_auth_method r = "oidc" /\ os_tenant_id r = None
    /\ os_created_at r = clock ops k.

Definition state_of_login (ops : list sso_op) (x : string * state_entry) : Prop :=
  exists i, began ops i x.1 (se_nonce x.2) /\ se_expires_at x.2 = (clock ops i + _STATE_TTL_SECONDS)%Q.
Definition code_of_callback (ops : list sso_op) (x : string * code_entry) : Prop :=
  exists j cl, vouched ops j cl /\ x.1 = drawn ops j 0 /\ ce_sub x.2 = claim_sub cl
    /\ map_oidc_role (OIDC_ROLE_MAP oidc) (claim_roles cl) = Some (ce_role x.2)
    /\ ce_expires_at x.2 = (clock ops j + _CODE_TTL_SECONDS)%Q.

(** What happened stays true of a longer history. *)

Lemma before_snoc ops o n : (n <= length ops)%nat -> before (ops ++ [o]) n = before ops n.
Proof. intros Hn. unfold before. rewrite take_app. replace (n - length ops)%nat with 0%nat by lia. by rewrite app_nil_r. Qed.

Lemma began_snoc ops o i state nonce : began ops i state nonce -> began (ops ++ [o]) i state nonce.
Proof.
  intros (Hi & Hs & Hn). pose proof (lookup_lt_Some _ _ _ Hi) as Hl. split; [by rewrite lookup_app_l|].
  unfold drawn in *. by rewrite before_snoc by lia.
Qed.

Lemma clock_snoc ops o n : (n <= length ops)%nat -> clock (ops ++ [o]) n = clock ops n.
Proof. intros Hn. unfold clock. by rewrite before_snoc. Qed.

Lemma vouched_snoc ops o j cl : vouched ops j cl -> vouched (ops ++ [o]) j cl.
Proof.
  intros (i & code & state & error & nonce & Hij & Hb & Hj & He & Ht & Hg). pose proof (lookup_lt_Some _ _ _ Hj) as Hl.
  exists i, code, state, error, nonce. rewrite !clock_snoc by lia. split_and!; [done|by apply began_snoc| |done..].
  by rewrite lookup_app_l.
Qed.

Lemma vouched_lt ops j cl : vouched ops j cl -> (j < length ops)%nat.
Proof. intros (i & code & state & error & nonce & _ & _ & Hj & _). by eapply lookup_lt_Some. Qed.

Lemma backed_snoc ops o r : backed ops r -> backed (ops ++ [o]) r.
Proof.
  intros (j & k & cl & Hjk & Hv & Hk & Ht & Hr). pose proof (lookup_lt_Some _ _ _ Hk) as Hl.
  exists j, k, cl. unfold drawn in *. rewrite !clock_snoc, before_snoc by lia.
  split_and!; [done|by apply vouched_snoc|by rewrite lookup_app_l|done|apply Hr..].
Qed.

Lemma state_snoc ops o x : state_of_login ops x -> state_of_login (ops ++ [o]) x.
Proof.
  intros (i & Hb & He). exists i. pose proof (lookup_lt_Some _ _ _ (proj1 Hb)). rewrite clock_snoc by lia.
  split; [by apply began_snoc|done].
Qed.

Lemma code_snoc ops o x : code_of_callback ops x -> code_of_callback (ops ++ [o]) x.
Proof.
  intros (j & cl & Hv & H). pose proof (vouched_lt _ _ _ Hv). exists j, cl. unfold drawn in *.
  rewrite clock_snoc, before_snoc by lia. split; [by apply vouched_snoc|done].
Qed.

Definition history_inv (ops : list sso_op) : world -> Prop :=
  sso_inv (state_of_login ops) (code_of_callback ops) (backed ops) (operator_sessions (sso_auth w0)).

Lemma history_snoc ops o w : history_inv ops w -> history_inv (ops ++ [o]) w.
Proof.
  intros (Hh & Hs & Hc & (added & Ea & Hb)). split_and!; [done| | |exists added; split; [done|]];
    (eapply Forall_impl; [eassumption|]); intros; first [by apply state_snoc|by apply code_snoc|by apply backed_snoc].
Qed.

Lemma history_step ops o : let w := before ops (length ops) in history_inv ops w -> history_inv (ops ++ [o]) (run_sso o w).
Proof.
  intros w Hw. apply (history_snoc _ o) in Hw. set (n := length ops).
  assert (Hn : (ops ++ [o]) !! n = Some o) by apply list_lookup_middle, eq_refl.
  assert (Ew : before (ops ++ [o]) n = w) by (apply before_snoc; lia).
  destruct o as [|code state error|code|d]; cbn [run_sso].
  - apply authorize_inv; [exact Hw|]. exists n. unfold began, drawn, clock. rewrite Ew, Nat.add_0_r, Nat.add_1_r. done.
  - apply callback_inv; [exact Hw|]. intros e cl role He (i & Hb & Hexp) Hlate Hcode Hg Hr.
    destruct code as [code|]; [|done]. cbn in Hb, Hexp, Hg.
    assert (Hi : (i < n)%nat).
    { pose proof (lookup_lt_Some _ _ _ (proj1 Hb)) as Hl. rewrite length_app in Hl. cbn in Hl.
      destruct (decide (i = n)) as [->|]; [|unfold n in *; lia]. destruct Hb as [Hb _]. rewrite Hn in Hb. done. }
    exists n, cl. unfold drawn, clock at 1. rewrite Ew, Nat.add_0_r. split_and!; [|done..].
    exists i, code, state, error, (se_nonce e). unfold clock at 1 3. rewrite Ew. split_and!; try done.
    by rewrite <- Hexp.
  - apply redeem_inv; [exact Hw|]. intros e r (j & cl & Hv & Hk & Hsub & Hr & Hexp) Hlate Erole Eidp Em Et Ec.
    cbn in Hk, Hsub, Hr, Hexp. exists j, n, cl. unfold clock at 1 3. rewrite Ew, <- Hk, Erole, Eidp, Hsub, <- Hexp.
    pose proof (vouched_lt _ _ _ Hv) as Hl. rewrite length_app in Hl. cbn in Hl.
    split_and!; try done. destruct (decide (j = n)) as [->|]; [|unfold n in *; lia].
    destruct Hv as (? & ? & ? & ? & ? & _ & _ & Hv & _). rewrite Hn in Hv. done.
  - exact Hw.
Qed.

(** C23: every operator session single sign-on makes, over any history, is the
    end of a login of that history: a login was begun, with a state and a nonce
    drawn for it; a callback brought that state within its time to live, and
    for the callback's code the provider's token endpoint gave a token that was
    genuine at that very instant (signed with the shared secret, not expired,
    from this issuer, for this client and for that nonce); and the session was
    made when the one-time code drawn for that callback was brought back within
    its time to live, for the subject of the token, with the role mapped from
    the token's roles. *)
Theorem sso_sessions_vouched ops : honest w0 -> state_store w0 = [] -> code_store w0 = [] ->
  exists added, operator_sessions (sso_auth (foldl (fun w o => run_sso o w) w0 ops))
    = operator_sessions (sso_auth w0) ++ added /\ Forall (backed ops) added.
Proof.
  intros Hh Hs Hc. assert (H : history_inv ops (before ops (length ops))).
  { induction ops as [|o ops IH] using rev_ind.
    - change (history_inv [] w0). split_and!; [done|by rewrite Hs|by rewrite Hc|]. exists []. by rewrite app_nil_r.
    - assert (E : before (ops ++ [o]) (length (ops ++ [o])) = run_sso o (before ops (length ops))).
      { unfold before. by rewrite !take_ge, foldl_app. }
      rewrite E. by apply history_step. }
  destruct H as (_ & _ & _ & H). unfold before in H. by rewrite take_ge in H by done.
Qed.
End history.

(** A token signed with RSA, as the providers named in the documentation do, is
    never accepted, and the login fails with an error the route does not
    catch. *)
Theorem rs256_never_verified h b signature nonce header payload (w : world) :
  all_chars (isnt "."%char) h = true -> all_chars (isnt "."%char) b = true -> all_chars (isnt "."%char) signature = true ->
  decode_json h = Some header -> decode_json b = Some payload -> is_object header = true -> is_object payload = true ->
  get_field "alg" header = Some (JStr "RS256") ->
  verify_id_token (h +:+ String "." (b +:+ String "." signature)) nonce w = (Raise Uncaught, w).
Proof.
  intros Hh Hb Hs Eh Eb Oh Ob Ha. unfold Oidc.verify_id_token. rewrite !split_on_app, split_on_none by done.
  by rewrite Eh, Eb, Oh, Ob, Ha.
Qed.

(** An exchange code is worth one attempt. *)
Theorem code_redeemed_once code (w : world) :
  exists e, (oidc_exchange code (oidc_exchange code w).2).1 = Raise e.
Proof.
  assert (fst (pop code (code_store (oidc_exchange code w).2)) = None) as Hgone.
  { assert (code_store (oidc_exchange code w).2 = (pop code (code_store w)).2) as ->.
    { unfold Oidc.oidc_exchange, mbind, io_bind at 1, get_st. destruct (pop code (code_store w)) as [entry rest].
      unfold io_bind, modify, sso_now. cbn. destruct entry as [e|]; [|done]. destruct (_ <?q _)%Q; [done|].
      unfold session_create, on_auth, lift, mbind, io_bind, draw, get_st. cbn. by destruct (existsb _ _). }
    unfold pop. cbn. apply fmap_None. destruct (List.find _ (List.filter _ _)) as [x|] eqn:E; [|done].
    apply List.find_some in E as [Hin Hx]. apply filter_In in Hin as [_ Hf]. by rewrite Hx in Hf. }
  set (w1 := (oidc_exchange code w).2) in *. unfold Oidc.oidc_exchange, mbind, io_bind at 1, get_st.
  destruct (pop code (code_store w1)) as [entry rest]. cbn in Hgone. subst entry. by eexists.
Qed.
End sso_props.

(** ** A login *)

Module SsoSample.
Definition auth : AuthSettings := {|
  AUTH_ENABLED := true; API_KEY_HEADER := "X-API-Key"; MFA_SIGNING_KEY := "k"; MFA_PROOF_TTL_SECONDS := 60;
  OPERATOR_SESSION_TTL_SECONDS := 28800; MFA_ISSUER := "Neryva"; rate_limits := default_rate_config |}.
Definition oidc : OidcSettings := {|
  OIDC_ENABLED := true; OIDC_DISCOVERY_URL := "https://idp"; OIDC_CLIENT_ID := "studio"; OIDC_CLIENT_SECRET := "shared";
  OIDC_REDIRECT_URI := "https://studio/callback"; OIDC_FRONTEND_REDIRECT := "https://studio/login"; OIDC_SCOPES := "openid";
  OIDC_ROLE_CLAIM := "roles"; OIDC_ROLE_MAP := [("readers", ROLE_AUDITOR); ("staff", ROLE_OPERATOR)] |}.

Definition document : json := JObj [("issuer", JStr "https://idp"); ("authorization_endpoint", JStr "https://idp/auth");
  ("token_endpoint", JStr "https://idp/token"); ("jwks_uri", JStr "https://idp/keys")].
Definition http (_ : nat) (c : http_call) : http_answer :=
  match c with
  | HttpGet _ => HttpJson 200 document
  | HttpPost _ _ => HttpJson 200 (JObj [("id_token", JStr "h.b.s")])
  end.
Definition tokens (n : nat) : string := "t" +:+ pretty n.
Definition decode (s : string) : option json :=
  if bool_decide (s = "h"%string) then Some (JObj [("alg", JStr "HS256")])
  else Some (JObj [("exp", JNum 2000); ("iat", JNum 1000); ("iss", JStr "https://idp"); ("aud", JStr "studio");
                   ("nonce", JStr "t1"); ("sub", JStr "alice"); ("roles", JStr "readers, staff")]).
Definition sha256 (s : string) : string := "#" +:+ s.
Definition hmac (_ _ : string) : string := "s".
Definition rsa (_ _ : json) (_ _ : string) : bool := false.
Definition query (_ : list (string * string)) : string := "q".
Definition as_text (_ : json) : string := "v".

Definition start : sso_world (kv_map _Bucket) := {|
  sso_auth := {| auth_limiter := {| rl_conn := None; buckets := ∅; degraded := false |}; api_keys := [];
                 operator_sessions := []; auth_trail := []; touched := []; auth_now := 1000; auth_mono := 0; auth_drawn := 0 |};
  sso_discovery := None; sso_jwks := None; sso_jwks_fetched_at := 0; state_store := []; code_store := []; sso_calls := 0 |}.

Definition login (ops : list sso_op) : sso_world (kv_map _Bucket) :=
  foldl (fun w o => run_sso auth oidc sha256 tokens tokens tokens http Some decode as_text query rsa hmac o w) start ops.
Definition ops : list sso_op := [StartLogin; FinishLogin (Some "code") (Some "t0") None; Redeem "t2"; Redeem "t2"].
End SsoSample.

(** The login of a reader and staff member makes one session, of an operator. *)
Example login_makes_one_session :
  map (fun r => (os_name r, os_role r, os_scopes r)) (operator_sessions (sso_auth (SsoSample.login SsoSample.ops)))
  = [("alice"%string, ROLE_OPERATOR, ["*"%string])].
Proof. vm_compute. reflexivity. Qed.

Lemma sso_sessions_vouched_witness :
  exists added, operator_sessions (sso_auth (foldl (fun w o => run_sso SsoSample.auth SsoSample.oidc SsoSample.sha256
      SsoSample.tokens SsoSample.tokens SsoSample.tokens SsoSample.http Some SsoSample.decode SsoSample.as_text
      SsoSample.query SsoSample.rsa SsoSample.hmac o w) SsoSample.start SsoSample.ops))
    = operator_sessions (sso_auth SsoSample.start) ++ added /\
    Forall (backed SsoSample.auth SsoSample.oidc SsoSample.sha256 SsoSample.tokens SsoSample.tokens SsoSample.tokens
      SsoSample.http Some SsoSample.decode SsoSample.as_text SsoSample.query SsoSample.rsa SsoSample.hmac
      SsoSample.start SsoSample.ops) added.
Proof.
  apply (sso_sessions_vouched SsoSample.auth SsoSample.oidc SsoSample.sha256 SsoSample.tokens SsoSample.tokens
    SsoSample.tokens SsoSample.http Some SsoSample.decode SsoSample.as_text SsoSample.query SsoSample.rsa SsoSample.hmac
    SsoSample.start SsoSample.ops); [intros ? [=]|reflexivity|reflexivity].
Defined.

Lemma rs256_never_verified_witness :
  verify_id_token SsoSample.oidc SsoSample.http Some
    (fun s => if bool_decide (s = "h"%string) then Some (JObj [("alg", JStr "RS256")]) else Some (JObj []))
    SsoSample.as_text SsoSample.rsa SsoSample.hmac ("h" +:+ String "." ("b" +:+ String "." "s")) "t1" SsoSample.start
  = (Raise Uncaught, SsoSample.start).
Proof.
  apply (rs256_never_verified SsoSample.oidc SsoSample.http Some
    (fun s => if bool_decide (s = "h"%string) then Some (JObj [("alg", JStr "RS256")]) else Some (JObj []))
    SsoSample.as_text SsoSample.rsa SsoSample.hmac "h" "b" "s" "t1" (JObj [("alg", JStr "RS256")]) (JObj []) SsoSample.start);
    reflexivity.
Defined.
