(* ===== verification/Webhooks.v ===== *)
(** * Webhooks (backend/app/modules/webhooks/)

    Signed deliveries to the subscriptions of a tenant: the signature
    (signer.py), the repository of subscriptions, events and deliveries
    (infrastructure/db/repositories.py) and the outbox (outbox.py), the
    publisher and the relay over the job queue of JobQueue.v (publisher.py,
    relay.py), one delivery (deliverer.py, [handle_webhook_deliver] of
    worker/handlers.py) and the routes (api/routes/webhooks.py,
    [_publish_webhook_event] of api/routes/conversations.py).

    A call of a repository is one transaction over a connection that may fail
    as one to Redis does: served, lost, or committed with its reply lost.
    Rows are kept in the order of their creation, without their instants;
    widths of columns are not checked.  HMAC-SHA256, [uuid4], the text of an
    exception and the subscribers are parameters.  Instants are seconds. *)

From S2P Require Import Prelude Text Json Redis Resilience JobQueue RateLimiter Auth.

(** ** Signatures *)

(** [json.dumps(v)] *)
Fixpoint json_dumps (v : json) : string :=
  match v with
  | JNull => "null"
  | JBool true => "true"
  | JBool false => "false"
  | JNum z => pretty z
  | JStr s => quoted s
  | JList l => "[" +:+ join ", " (map json_dumps l) +:+ "]"
  | JObj fields => "{" +:+ join ", " (map (fun '(k, x) => quoted k +:+ ": " +:+ json_dumps x) fields) +:+ "}"
  end.

Section signer.
Context (hmac_sha256 : string -> string -> string).

(** [timestamp] or [time.time()], which is [now]. *)
Definition sign_payload (secret body : string) (timestamp : option Z) (now : Q) : Z * string :=
  let ts := match timestamp with Some t => t | None => py_int now end in
  (ts, hmac_sha256 secret (pretty ts +:+ "." +:+ body)).

Definition signature_header (secret body : string) (timestamp : option Z) (now : Q) : string :=
  let '(ts, digest) := sign_payload secret body timestamp now in
  "t=" +:+ pretty ts +:+ ",v1=" +:+ digest.

(** [dict(pair.split("=", 1) for pair in header.split(","))]; a piece without
    the sign raises. *)
Definition header_parts (header : string) : option (list (string * string)) :=
  foldl (fun d pair => d ← d; kv ← split_once "=" pair; Some (dict_set kv.1 kv.2 d)) (Some []) (split_on "," header).

Definition part (k : string) (d : list (string * string)) : option string :=
  snd <$> List.find (fun kv => bool_decide (kv.1 = k)) d.

Definition verify_signature (secret body header : string) (tolerance_seconds : Z) (now : Q) : bool :=
  match (parts ← header_parts header; ts ← part "t" parts ≫= int_of_string; provided ← part "v1" parts;
         Some (ts, provided)) with
  | None => false
  | Some (ts, provided) =>
      if tolerance_seconds <? Z.abs (py_int now - ts) then false
      else bool_decide ((sign_payload secret body (Some ts) now).2 = provided)
  end.
End signer.

(** ** Tables *)

Record WebhookSubscription := {
  ws_id : string;
  ws_tenant_id : string;
  ws_url : string;
  ws_secret : string;
  ws_events : list string;
  ws_active : bool;
}.

Record WebhookEvent := {
  we_id : string;
  we_tenant_id : string;
  we_type : string;
  we_payload : list (string * json);
  we_delivered_to : list string;
}.

Record WebhookDelivery := {
  wd_id : string;
  wd_event_id : string;
  wd_subscription_id : string;
  wd_tenant_id : option string;
  wd_status : string;
  wd_http_status : option Z;
  wd_error : option string;
  wd_attempts : Z;
}.

Definition STATUS_PENDING : string := "pending".
Definition STATUS_PUBLISHED : string := "published".
Definition STATUS_FAILED : string := "failed".
Definition DEFAULT_OUTBOX_BATCH : Z := 50.

Record EventOutbox := {
  eo_id : string;
  eo_tenant_id : string;
  eo_type : string;
  eo_payload : list (string * json);
  eo_session_id : option string;
  eo_status : string;
  eo_attempts : Z;
  eo_last_error : option string;
  eo_event_id : string;
}.

Record hook_tables := {
  webhook_subscriptions : list WebhookSubscription;
  webhook_events : list WebhookEvent;
  webhook_deliveries : list WebhookDelivery;
  event_outbox : list EventOutbox;
}.

Definition set_subscriptions (l : list WebhookSubscription) (t : hook_tables) : hook_tables := {|
  webhook_subscriptions := l; webhook_events := webhook_events t; webhook_deliveries := webhook_deliveries t;
  event_outbox := event_outbox t |}.
Definition set_events (l : list WebhookEvent) (t : hook_tables) : hook_tables := {|
  webhook_subscriptions := webhook_subscriptions t; webhook_events := l; webhook_deliveries := webhook_deliveries t;
  event_outbox := event_outbox t |}.
Definition set_deliveries (l : list WebhookDelivery) (t : hook_tables) : hook_tables := {|
  webhook_subscriptions := webhook_subscriptions t; webhook_events := webhook_events t; webhook_deliveries := l;
  event_outbox := event_outbox t |}.
Definition set_outbox (l : list EventOutbox) (t : hook_tables) : hook_tables := {|
  webhook_subscriptions := webhook_subscriptions t; webhook_events := webhook_events t;
  webhook_deliveries := webhook_deliveries t; event_outbox := l |}.

(** A request sent to a subscriber. *)
Record post := { p_url : string; p_headers : list (string * string); p_content : string }.

Record hooks := {
  db : redis hook_tables;
  drawn : nat;                            (* values of [uuid4] drawn *)
  posts : list post;                      (* the requests sent, oldest first *)
}.

Definition set_db (d : redis hook_tables) (w : hooks) : hooks := {| db := d; drawn := drawn w; posts := posts w |}.

Inductive hook_exc :=
| DatabaseDown
| BadQuery                                (* a query the database or its driver refuses *)
| QueueRaised (e : queue_exc)
| ValueError (message : string)
| Refused (e : auth_exc).

Abbreviation hook A := (io hooks hook_exc A).

(** [async with self.db.get_session() as session]: what the body raises rolls
    the transaction back. *)
Definition transaction {A} (body : io hook_tables hook_exc A) : hook A := fun w =>
  match body (store (db w)) with
  | (Raise e, _) => (Raise e, w)
  | (Ret a, t) =>
      match redis_call (fun _ => (a, t)) (db w) with
      | (Ret a, d) => (Ret a, set_db d w)
      | (Raise _, d) => (Raise DatabaseDown, set_db d w)
      end
  end.

Section webhooks.
Context (hmac_sha256 : string -> string -> string) (uuid4 : nat -> string) (exc_text : hook_exc -> string).
(** [datetime.isoformat] of an instant in UTC. *)
Context (iso_utc : Q -> string).
(** The subscribers: the [n]-th request is answered with a status, or fails. *)
Context (respond : nat -> post -> string + Z).

(** An id; the code draws one only for a row it adds, which no result shows. *)
Definition new_id : hook string := fun w =>
  (Ret (uuid4 (drawn w)), {| db := db w; drawn := S (drawn w); posts := posts w |}).

(** ** The repository *)

Definition owned (id tenant : string) (s : WebhookSubscription) : bool :=
  bool_decide (ws_id s = id) && bool_decide (ws_tenant_id s = tenant).

Definition create_subscription (tenant url secret : string) (events : list string) : hook WebhookSubscription :=
  id ← new_id;
  let s := {| ws_id := id; ws_tenant_id := tenant; ws_url := url; ws_secret := secret; ws_events := events;
              ws_active := true |} in
  transaction (fun t => (Ret s, set_subscriptions (webhook_subscriptions t ++ [s]) t)).

Definition subscriptions_of (tenant : string) (t : hook_tables) : list WebhookSubscription :=
  List.filter (fun s => bool_decide (ws_tenant_id s = tenant)) (webhook_subscriptions t).

Definition list_subscriptions (tenant : string) : hook (list WebhookSubscription) :=
  transaction (fun t => (Ret (subscriptions_of tenant t), t)).

(** No tenant: [tenant_id IS NULL], which holds of no row. *)
Definition get_subscription (id : string) (tenant : option string) : hook (option WebhookSubscription) :=
  transaction (fun t =>
    (Ret (match tenant with Some n => List.find (owned id n) (webhook_subscriptions t) | None => None end), t)).

Definition with_active (a : bool) (s : WebhookSubscription) : WebhookSubscription := {|
  ws_id := ws_id s; ws_tenant_id := ws_tenant_id s; ws_url := ws_url s; ws_secret := ws_secret s;
  ws_events := ws_events s; ws_active := a |}.

Definition set_subscription_active (id tenant : string) (active : bool) : hook (option WebhookSubscription) :=
  transaction (fun t =>
    (Ret (with_active active <$> List.find (owned id tenant) (webhook_subscriptions t)),
     set_subscriptions (map (fun s => if owned id tenant s then with_active active s else s)
                          (webhook_subscriptions t)) t)).

Definition delete_subscription (id tenant : string) : hook bool :=
  transaction (fun t =>
    (Ret (existsb (owned id tenant) (webhook_subscriptions t)),
     set_subscriptions (List.filter (fun s => negb (owned id tenant s)) (webhook_subscriptions t)) t)).

Definition is_event (id : string) (e : WebhookEvent) : bool := bool_decide (we_id e = id).

Definition record_event (id tenant event_type : string) (payload : list (string * json)) : hook WebhookEvent :=
  transaction (fun t =>
    match List.find (is_event id) (webhook_events t) with
    | Some e => (Ret e, t)
    | None =>
        let e := {| we_id := id; we_tenant_id := tenant; we_type := event_type; we_payload := payload;
                    we_delivered_to := [] |} in
        (Ret e, set_events (webhook_events t ++ [e]) t)
    end).

Definition get_event (id : string) : hook (option WebhookEvent) :=
  transaction (fun t => (Ret (List.find (is_event id) (webhook_events t)), t)).

(** [LIMIT n]; the database refuses a negative one. *)
Definition limited_to {A} (limit : Z) (l : list A) : io hook_tables hook_exc (list A) :=
  if limit <? 0 then throw BadQuery else mret (firstn (Z.to_nat limit) l).

(** An empty filter does not filter. *)
Definition matches (o : option string) (v : string) : bool :=
  match o with Some s => if truthy s then bool_decide (v = s) else true | None => true end.

Definition list_events (tenant event_type : option string) (limit : Z) : hook (list WebhookEvent) :=
  transaction (fun t =>
    limited_to limit (List.filter (fun e => matches tenant (we_tenant_id e) && matches event_type (we_type e))
                        (rev (webhook_events t))) t).

Definition add_delivered (s : string) (e : WebhookEvent) : WebhookEvent := {|
  we_id := we_id e; we_tenant_id := we_tenant_id e; we_type := we_type e; we_payload := we_payload e;
  we_delivered_to := if decide (s ∈ we_delivered_to e) then we_delivered_to e else we_delivered_to e ++ [s] |}.

Definition mark_delivered (event_id subscription_id : string) : hook unit :=
  transaction (fun t =>
    (Ret tt, set_events (map (fun e => if is_event event_id e then add_delivered subscription_id e else e)
                           (webhook_events t)) t)).

Definition record_delivery (event_id subscription_id : string) (tenant : option string) (status : string)
    (http_status : option Z) (error : option string) (attempts : Z) : hook WebhookDelivery :=
  id ← new_id;
  let d := {| wd_id := id; wd_event_id := event_id; wd_subscription_id := subscription_id; wd_tenant_id := tenant;
              wd_status := status; wd_http_status := http_status; wd_error := error; wd_attempts := attempts |} in
  transaction (fun t => (Ret d, set_deliveries (webhook_deliveries t ++ [d]) t)).

Definition list_deliveries (event_id : option string) (limit : Z) : hook (list WebhookDelivery) :=
  transaction (fun t =>
    limited_to limit (List.filter (fun d => matches event_id (wd_event_id d)) (rev (webhook_deliveries t))) t).

(** Erasure of a tenant: the deliveries of its events go with them. *)
Definition delete_by_tenant (tenant : string) : hook Z :=
  transaction (fun t =>
    let of_tenant e := bool_decide (we_tenant_id e = tenant) in
    let ids := map we_id (List.filter of_tenant (webhook_events t)) in
    let gone d := bool_decide (wd_event_id d ∈ ids) in
    (Ret (Z.of_nat (length (subscriptions_of tenant t))
          + Z.of_nat (length (List.filter of_tenant (webhook_events t)))
          + Z.of_nat (length (List.filter gone (webhook_deliveries t)))),
     {| webhook_subscriptions :=
          List.filter (fun s => negb (bool_decide (ws_tenant_id s = tenant))) (webhook_subscriptions t);
        webhook_events := List.filter (fun e => negb (of_tenant e)) (webhook_events t);
        webhook_deliveries := List.filter (fun d => negb (gone d)) (webhook_deliveries t);
        event_outbox := event_outbox t |})).

(** ** The outbox *)

Definition for_event (id : string) (r : EventOutbox) : bool := bool_decide (eo_event_id r = id).

(** Whether the event was recorded before; two rows of one event raise. *)
Definition outbox_record (event_id tenant event_type : string) (payload : list (string * json))
    (session_id : option string) : hook bool :=
  id ← new_id;
  transaction (fun t =>
    match List.filter (for_event event_id) (event_outbox t) with
    | [] =>
        let r := {| eo_id := id; eo_tenant_id := tenant; eo_type := event_type; eo_payload := payload;
                    eo_session_id := session_id; eo_status := STATUS_PENDING; eo_attempts := 0;
                    eo_last_error := None; eo_event_id := event_id |} in
        (Ret false, set_outbox (event_outbox t ++ [r]) t)
    | [_] => (Ret true, t)
    | _ => (Raise BadQuery, t)
    end).

Definition is_pending (r : EventOutbox) : bool := bool_decide (eo_status r = STATUS_PENDING).

Definition list_pending (limit : Z) : hook (list EventOutbox) :=
  transaction (fun t => limited_to limit (List.filter is_pending (event_outbox t)) t).

Definition attempted (status : string) (error : option string) (r : EventOutbox) : EventOutbox := {|
  eo_id := eo_id r; eo_tenant_id := eo_tenant_id r; eo_type := eo_type r; eo_payload := eo_payload r;
  eo_session_id := eo_session_id r; eo_status := status; eo_attempts := eo_attempts r + 1;
  eo_last_error := match error with Some e => Some e | None => eo_last_error r end; eo_event_id := eo_event_id r |}.

(** Assigns to the rows of an event. *)
Definition mark (event_id : string) (f : EventOutbox -> EventOutbox) (t : hook_tables) : hook_tables :=
  set_outbox (map (fun r => if for_event event_id r then f r else r) (event_outbox t)) t.

Definition mark_published (event_id : string) : hook unit :=
  transaction (fun t => (Ret tt, mark event_id (attempted STATUS_PUBLISHED None) t)).

Definition mark_failed (event_id error : string) : hook unit :=
  transaction (fun t => (Ret tt, mark event_id (attempted STATUS_FAILED (Some (String.substring 0 512 error))) t)).

Definition count_pending : hook Z :=
  transaction (fun t => (Ret (Z.of_nat (length (List.filter is_pending (event_outbox t)))), t)).

(** ** One delivery *)

Record DeliveryResult := { dr_success : bool; dr_http_status : option Z; dr_error : option string }.

Record WebhookEnvelope := {
  en_event_id : string;
  en_event_type : string;
  en_tenant_id : option string;
  en_data : list (string * json);
  en_occurred_at : string;
}.

(** [WebhookEnvelope.body] *)
Definition body (e : WebhookEnvelope) : string := json_dumps (JObj [
  ("event_id", JStr (en_event_id e)); ("event_type", JStr (en_event_type e));
  ("tenant_id", opt_str (en_tenant_id e)); ("occurred_at", JStr (en_occurred_at e)); ("data", JObj (en_data e))]).

(** [WebhookDeliverer.deliver] *)
Definition deliver (now : Q) (url secret : string) (e : WebhookEnvelope) : hook DeliveryResult := fun w =>
  let b := body e in
  let headers := [
    ("Content-Type", "application/json"); ("User-Agent", "Neryva-Agent-Studio/1.0");
    ("X-Neryva-Event-Id", en_event_id e); ("X-Neryva-Event-Type", en_event_type e);
    ("X-Neryva-Timestamp", en_occurred_at e);
    ("X-Neryva-Signature", signature_header hmac_sha256 secret b None now)] in
  let p := {| p_url := url; p_headers := headers; p_content := b |} in
  let w' := {| db := db w; drawn := drawn w; posts := posts w ++ [p] |} in
  (Ret (match respond (length (posts w)) p with
        | inl error => {| dr_success := false; dr_http_status := None; dr_error := Some error |}
        | inr s =>
            if (200 <=? s) && (s <? 300) then
              {| dr_success := true; dr_http_status := Some s; dr_error := None |}
            else
              let error := if (400 <=? s) && (s <? 500)
                           then "subscriber rejected payload (HTTP " +:+ pretty s +:+ ")"
                           else "transient failure (HTTP " +:+ pretty s +:+ ")" in
              {| dr_success := false; dr_http_status := Some s; dr_error := Some error |}
        end), w').

(** The values of a payload are texts, as the publisher writes them; any other
    counts as absent. *)
Definition handle_webhook_deliver (now : Q) (payload : list (string * json)) : hook unit :=
  let tenant := str_of (field "tenant_id" payload) in
  match str_of (field "event_id" payload), str_of (field "subscription_id" payload) with
  | Some eid, Some sid =>
      if negb (truthy eid) || negb (truthy sid)
      then throw (ValueError "webhook.deliver requires payload['event_id'] and payload['subscription_id']")
      else
        event ← get_event eid;
        match event with
        | None => throw (ValueError ("webhook event not found: " +:+ eid))
        | Some event =>
            subscription ← get_subscription sid tenant;
            match subscription with
            | None => throw (ValueError ("webhook subscription not found: " +:+ sid))
            | Some s =>
                if negb (ws_active s) then mret tt
                else
                  result ← deliver now (ws_url s) (ws_secret s)
                    {| en_event_id := eid; en_event_type := we_type event; en_tenant_id := tenant;
                       en_data := we_payload event; en_occurred_at := iso_utc now |};
                  _ ← record_delivery eid sid tenant (if dr_success result then "success" else "failed")
                        (dr_http_status result) (dr_error result) 1;
                  _ ← (if dr_success result then mark_delivered eid sid else mret tt);
                  if dr_success result then mret tt
                  else throw (ValueError (match dr_error result with
                                          | Some e => if truthy e then e else "webhook delivery failed"
                                          | None => "webhook delivery failed"
                                          end))
            end
        end
  | _, _ => throw (ValueError "webhook.deliver requires payload['event_id'] and payload['subscription_id']")
  end.

(** ** The publisher and the relay, over the queue *)

Section relay.
Context (isoformat : Q -> string) (local_offset : Q) (config : QueueConfig) {St : Type} {HQ : RedisQueue St}.

Abbreviation manager := (QueueManager St hooks).
Abbreviation relaying A := (io manager hook_exc A).

Definition in_hooks {A} (c : hook A) : relaying A := lift outside with_outside id c.
Definition on_queue {A} (c : io manager queue_exc A) : relaying A := lift id (fun q _ => q) QueueRaised c.

Definition JOB_WEBHOOK_DELIVER : string := "webhook.deliver".
Definition JOB_OUTBOX_RELAY : string := "outbox.relay".

(** [Job(type=..., payload=...)] *)
Definition new_job (id : string) (now : Q) (ty : string) (payload : list (string * json)) : Job := {|
  j_id := id; j_type := ty; j_payload := payload; priority := 0; scheduled_at := None; created_at := now;
  retries := 0; max_retries := 3; j_error := None; trace_id := EmptyString |}.

Definition delivery_payload (event_id tenant : string) (s : WebhookSubscription) : list (string * json) := [
  ("event_id", JStr event_id); ("subscription_id", JStr (ws_id s)); ("tenant_id", JStr tenant)].

Definition delivery_key (event_id : string) (s : WebhookSubscription) : string :=
  "webhook:" +:+ event_id +:+ ":" +:+ ws_id s.

(** One delivery job; what [enqueue] answers is ignored. *)
Definition enqueue_delivery (now : Q) (event_id tenant : string) (s : WebhookSubscription) : relaying unit :=
  id ← in_hooks new_id;
  _ ← on_queue (enqueue isoformat local_offset config now
        (new_job id now JOB_WEBHOOK_DELIVER (delivery_payload event_id tenant s)) (Some (delivery_key event_id s)));
  mret tt.

Definition wants (event_type : string) (s : WebhookSubscription) : bool :=
  ws_active s && bool_decide (event_type ∈ ws_events s).

(** [{"session_id": session_id, **data}] *)
Definition event_payload (session_id : option string) (data : list (string * json)) : list (string * json) :=
  foldl (fun d kv => dict_set kv.1 kv.2 d) [("session_id", opt_str session_id)] data.

Definition publish (now : Q) (event_type tenant : string) (data : list (string * json)) (session_id event_id : option string) :
    relaying (option string) :=
  subscriptions ← in_hooks (list_subscriptions tenant);
  let matching := List.filter (wants event_type) subscriptions in
  match matching with
  | [] => mret None
  | _ =>
      eid ← (match event_id with
             | Some e => if truthy e then mret e else in_hooks new_id
             | None => in_hooks new_id
             end);
      _ ← in_hooks (record_event eid tenant event_type (event_payload session_id data));
      _ ← for_each (enqueue_delivery now eid tenant) matching;
      mret (Some eid)
  end.

(** One row of a batch, and whether it was published; the row is marked
    whether or not a subscription matched. *)
Definition relay_row (now : Q) (r : EventOutbox) : relaying bool :=
  try_catch
    (_ ← publish now (eo_type r) (eo_tenant_id r) (eo_payload r) (eo_session_id r) (Some (eo_event_id r));
     _ ← in_hooks (mark_published (eo_event_id r));
     mret true)
    (fun e => _ ← in_hooks (mark_failed (eo_event_id r) (exc_text e)); mret false).

Fixpoint relay_rows (now : Q) (rows : list EventOutbox) (published : Z) : relaying Z :=
  match rows with
  | [] => mret published
  | r :: rows => ok ← relay_row now r; relay_rows now rows (if ok : bool then published + 1 else published)
  end.

Definition drain (now : Q) (limit : Z) : relaying Z :=
  rows ← in_hooks (list_pending limit); relay_rows now rows 0.

(** [int(payload.get("limit", 50))] *)
Definition limit_of (payload : list (string * json)) : option Z :=
  match field "limit" payload with
  | None => Some 50
  | Some (JNum z) => Some z
  | Some (JBool b) => Some (Z.b2z b)
  | Some (JStr s) => int_of_string s
  | Some _ => None
  end.

(** Run by the worker beside its queue: not one of the handlers of JobQueue.v,
    which see only what is outside of it. *)
Definition handle_outbox_relay (now : Q) (payload : list (string * json)) : relaying unit :=
  match limit_of payload with
  | None => throw (ValueError "limit")
  | Some n => _ ← drain now n; mret tt
  end.

Definition enqueue_outbox_relay (now : Q) (limit : Z) : relaying bool :=
  id ← in_hooks new_id;
  on_queue (enqueue isoformat local_offset config now (new_job id now JOB_OUTBOX_RELAY [("limit", JNum limit)])
              (Some "outbox.relay")).

Definition ignoring {A} (c : relaying A) : relaying unit := try_catch (_ ← c; mret tt) (fun _ => mret tt).

(** [_publish_webhook_event] of the conversation routes *)
Definition _publish_webhook_event (now : Q) (event_type tenant : string) (data : list (string * json)) (session_id : string) :
    relaying unit :=
  ignoring (
    event_id ← in_hooks new_id;
    _ ← in_hooks (outbox_record event_id tenant event_type data (Some session_id));
    _ ← ignoring (enqueue_outbox_relay now 50);
    ignoring (drain now 50)).

(** ** The routes; the principal has the permission of the route *)

Definition allow (p : ApiKeyPrincipal) (tenant : string) : relaying unit :=
  lift id (fun q _ => q) Refused (assert_tenant_access p (AsText tenant)).

Definition not_found (what : string) : hook_exc := Refused (HTTPError 404 what).

Definition list_webhook_subscriptions (p : ApiKeyPrincipal) (tenant : string) : relaying (list WebhookSubscription) :=
  _ ← allow p tenant; in_hooks (list_subscriptions tenant).

(** A validated request: its [active] is not read. *)
Record WebhookSubscriptionRequest := {
  wr_tenant_id : string;
  wr_url : string;
  wr_secret : string;
  wr_events : list string;
  wr_active : bool;
}.

Definition create_webhook_subscription (p : ApiKeyPrincipal) (rq : WebhookSubscriptionRequest) :
    relaying WebhookSubscription :=
  _ ← allow p (wr_tenant_id rq);
  in_hooks (create_subscription (wr_tenant_id rq) (wr_url rq) (wr_secret rq) (wr_events rq)).

Definition delete_webhook_subscription (p : ApiKeyPrincipal) (id tenant : string) : relaying unit :=
  _ ← allow p tenant;
  deleted ← in_hooks (delete_subscription id tenant);
  if deleted : bool then mret tt else throw (not_found "Subscription not found").

Definition list_webhook_events (p : ApiKeyPrincipal) (tenant event_type : option string) (limit : Z) :
    relaying (list WebhookEvent) :=
  _ ← (match tenant with Some t => if truthy t then allow p t else mret tt | None => mret tt end);
  in_hooks (list_events tenant event_type limit).

(** The event of a route that names one. *)
Definition event_for (p : ApiKeyPrincipal) (event_id : string) : relaying WebhookEvent :=
  event ← in_hooks (get_event event_id);
  match event with
  | None => throw (not_found "Event not found")
  | Some e => _ ← (if truthy (we_tenant_id e) then allow p (we_tenant_id e) else mret tt); mret e
  end.

Definition list_webhook_deliveries (p : ApiKeyPrincipal) (event_id : string) : relaying (list WebhookDelivery) :=
  _ ← event_for p event_id; in_hooks (list_deliveries (Some event_id) 100).

(** The number of matching subscriptions. *)
Definition replay_webhook_event (now : Q) (p : ApiKeyPrincipal) (event_id : string) : relaying Z :=
  event ← event_for p event_id;
  subscriptions ← in_hooks (list_subscriptions (we_tenant_id event));
  match List.filter (wants (we_type event)) subscriptions with
  | [] => throw (not_found "No active subscription matches this event")
  | matching =>
      _ ← for_each (enqueue_delivery now event_id (we_tenant_id event)) matching;
      mret (Z.of_nat (length matching))
  end.

End relay.
End webhooks.
