(* ===== verification/WebhookProps.v ===== *)
(** * Webhooks: what the definitions of Webhooks.v do

    Signatures are read back and bind the body; the outbox under any faults of
    the database and the queue; what a publication enqueues; whom a delivery
    reaches. *)

From S2P Require Import Prelude Text Json Redis Resilience JobQueue RateLimiter Auth Webhooks.

(** ** Signatures *)

Section signature_lemmas.
Context (hmac_sha256 : string -> string -> string).
Context (hmac_hex : forall k m, all_chars is_hex_char (hmac_sha256 k m) = true).

Lemma digit_isnt c a : is_digit_char a = true -> is_digit_char c = false -> isnt c a = true.
Proof. intros Ha Hc. unfold isnt. case_bool_decide; [congruence|done]. Qed.

Lemma hex_isnt c a : is_hex_char a = true -> is_hex_char c = false -> isnt c a = true.
Proof. intros Ha Hc. unfold isnt. case_bool_decide; [congruence|done]. Qed.

Lemma header_read (ts : Z) (digest : string) :
  all_chars is_hex_char digest = true ->
  header_parts ("t=" +:+ pretty ts +:+ ",v1=" +:+ digest) = Some [("t", pretty ts); ("v1", digest)]%string.
Proof.
  intros Hd. unfold header_parts.
  assert (Ht : all_chars (isnt ",") ("t=" +:+ pretty ts) = true).
  { rewrite all_chars_app. cbn. apply pretty_Z_chars; [|done]. intros a Ha. by apply digit_isnt. }
  assert (Hv : all_chars (isnt ",") ("v1=" +:+ digest) = true).
  { rewrite all_chars_app. cbn. eapply all_chars_impl; [|exact Hd]. intros a Ha. by apply hex_isnt. }
  replace ("t=" +:+ pretty ts +:+ ",v1=" +:+ digest) with (("t=" +:+ pretty ts) +:+ String ","%char ("v1=" +:+ digest))
    by by rewrite string_app_assoc.
  rewrite split_on_app by done. rewrite split_on_none by done. cbn [foldl].
  change ("t=" +:+ pretty ts) with ("t" +:+ String "="%char (pretty ts)).
  change ("v1=" +:+ digest) with ("v1" +:+ String "="%char digest).
  by rewrite !split_once_app.
Qed.

Lemma verify_header (secret secret' body body' : string) (ts tolerance : Z) (sent now : Q) :
  verify_signature hmac_sha256 secret' body' (signature_header hmac_sha256 secret body (Some ts) sent) tolerance now
  = (Z.abs (py_int now - ts) <=? tolerance)
    && bool_decide (hmac_sha256 secret' (pretty ts +:+ "." +:+ body') = hmac_sha256 secret (pretty ts +:+ "." +:+ body)).
Proof.
  unfold verify_signature, signature_header, sign_payload. rewrite header_read by apply hmac_hex.
  set (digest := hmac_sha256 secret _). cbv [mbind option_bind].
  change (part "t" [("t", pretty ts); ("v1", digest)]%string) with (Some (pretty ts)).
  change (part "v1" [("t", pretty ts); ("v1", digest)]%string) with (Some digest).
  cbv beta iota. rewrite int_of_pretty, Z.ltb_antisym. by destruct (_ <=? _).
Qed.
(** A signature header is accepted exactly when it is at most the
    tolerance away from the receiver's clock and the digest it carries is the
    one of the body received under the receiver's secret: what was sent is
    accepted, and another body or secret only with a collision of the digest. *)
Theorem signature_roundtrip (secret secret' body body' : string) (ts tolerance : Z) (sent now : Q) :
  verify_signature hmac_sha256 secret' body' (signature_header hmac_sha256 secret body (Some ts) sent) tolerance now
  = (Z.abs (py_int now - ts) <=? tolerance)
    && bool_decide (hmac_sha256 secret' (pretty ts +:+ "." +:+ body') = hmac_sha256 secret (pretty ts +:+ "." +:+ body)).
Proof. apply verify_header. Qed.
End signature_lemmas.

(** ** Transactions *)

Lemma transaction_cases {A} (body : io hook_tables hook_exc A) (w : hooks) :
  let '(r, w') := transaction body w in
  posts w' = posts w /\ drawn w' = drawn w
  /\ match r with
     | Ret a => body (store (db w)) = (Ret a, store (db w'))
     | Raise _ => store (db w') = store (db w)
                  \/ exists a, body (store (db w)) = (Ret a, store (db w'))
     end.
Proof.
  unfold transaction. destruct (body (store (db w))) as [[a|e] t] eqn:E; [|by split_and!; [..|left]].
  destruct (redis_call_cases (fun _ => (a, t)) (db w)) as [[fs ->]|[[fs ->]|[fs ->]]]; cbn; split_and!; eauto.
Qed.

Lemma transaction_healthy {A} (body : io hook_tables hook_exc A) (w : hooks) a t :
  healthy (db w) -> body (store (db w)) = (Ret a, t) ->
  exists d, transaction body w = (Ret a, set_db d w) /\ healthy d /\ store d = t.
Proof.
  intros Hh E. unfold transaction. rewrite E.
  destruct (redis_call_healthy (fun _ => (a, t)) (db w) Hh) as (fs & -> & Hfs). cbn. by eexists.
Qed.

(** ** The outbox *)

(** What a row keeps, and that it is never pending again. *)
Definition row_later (r r' : EventOutbox) : Prop :=
  eo_id r' = eo_id r /\ eo_event_id r' = eo_event_id r /\ eo_tenant_id r' = eo_tenant_id r /\ eo_type r' = eo_type r
  /\ eo_payload r' = eo_payload r /\ eo_session_id r' = eo_session_id r /\ eo_attempts r <= eo_attempts r'
  /\ (is_pending r = false -> is_pending r' = false).

#[export] Instance row_later_preorder : PreOrder row_later.
Proof.
  split; [intros r; by split_and!|]. intros a b c Hab Hbc. unfold row_later in *. destruct_and!.
  split_and!; try congruence; [lia|auto].
Qed.

Definition rows_later (w w' : hooks) : Prop :=
  Forall2 row_later (event_outbox (store (db w))) (event_outbox (store (db w'))).

#[export] Instance rows_later_preorder : PreOrder rows_later.
Proof. split; [intros w; unfold rows_later; reflexivity|]. intros a b c ? ?. unfold rows_later in *. by etrans. Qed.

Definition none_pending (id : string) (w : hooks) : Prop :=
  Forall (fun r => eo_event_id r = id -> is_pending r = false) (event_outbox (store (db w))).

Lemma none_pending_later id w w' : rows_later w w' -> none_pending id w -> none_pending id w'.
Proof.
  unfold rows_later, none_pending. intros H. induction H as [|r r' l l' Hr _ IH]; [done|].
  intros [H1 H2]%Forall_cons. constructor; [|auto]. destruct Hr as (_ & -> & _ & _ & _ & _ & _ & Hr). auto.
Qed.

Lemma transaction_later {A} (body : io hook_tables hook_exc A) :
  (forall t a t', body t = (Ret a, t') -> Forall2 row_later (event_outbox t) (event_outbox t')) ->
  Preserves rows_later (transaction body).
Proof.
  intros Hb w. pose proof (transaction_cases body w) as H. destruct (transaction body w) as [[a|e] w']; cbn;
    destruct H as (_ & _ & H); [by eapply Hb|]. destruct H as [Hs|[a Hs]]; [|by eapply Hb].
  unfold rows_later. by rewrite Hs.
Qed.

Lemma attempted_later status e r : status <> STATUS_PENDING -> row_later r (attempted status e r).
Proof.
  intros Hs. split_and!; try done; [cbn; lia|]. intros _. unfold is_pending. cbn. by apply bool_decide_eq_false_2.
Qed.

Lemma mark_later id f t :
  (forall r, row_later r (f r)) -> Forall2 row_later (event_outbox t) (event_outbox (mark id f t)).
Proof.
  intros Hf. unfold mark. cbn. induction (event_outbox t) as [|r l IH]; cbn; constructor; [|done].
  destruct (for_event id r); [apply Hf|reflexivity].
Qed.

Section relaying.
Context (uuid4 : nat -> string) (exc_text : hook_exc -> string) (isoformat : Q -> string).
Context (local_offset : Q) (config : QueueConfig) {St : Type} {HQ : RedisQueue St}.

Abbreviation manager := (QueueManager St hooks).
Abbreviation publish := (publish uuid4 isoformat local_offset config).
Abbreviation drain := (drain uuid4 exc_text isoformat local_offset config).
Abbreviation relay_row := (relay_row uuid4 exc_text isoformat local_offset config).
Abbreviation relay_rows := (relay_rows uuid4 exc_text isoformat local_offset config).
Abbreviation enqueue_delivery := (enqueue_delivery uuid4 isoformat local_offset config).

Definition relay_later (q q' : manager) : Prop := rows_later (outside q) (outside q').

#[local] Instance relay_later_preorder : PreOrder relay_later.
Proof. split; [intros q; unfold relay_later; reflexivity|]. intros a b c ? ?. unfold relay_later in *. by etrans. Qed.

Lemma in_hooks_later {A} (c : io hooks hook_exc A) : Preserves rows_later c -> Preserves relay_later (in_hooks (St := St) c).
Proof. apply preserves_lift. by intros q w. Qed.

Lemma on_queue_later {A} (c : io manager queue_exc A) : Preserves same_outside c -> Preserves relay_later (on_queue c).
Proof. apply preserves_lift. intros q q' H. unfold relay_later. cbn in H. unfold same_outside in H. rewrite H. reflexivity. Qed.

#[local] Instance new_id_later : Preserves rows_later (new_id uuid4).
Proof. intros w. unfold rows_later. cbn. reflexivity. Qed.
#[local] Instance list_subscriptions_later tn : Preserves rows_later (list_subscriptions tn).
Proof. apply transaction_later. by intros t a t' [= _ <-]. Qed.
#[local] Instance record_event_later a b c d : Preserves rows_later (record_event a b c d).
Proof. apply transaction_later. intros t x t'. case_match; by intros [= _ <-]. Qed.
#[local] Instance mark_published_later id : Preserves rows_later (mark_published id).
Proof. apply transaction_later. intros t x t' [= _ <-]. apply mark_later. intros r. by apply attempted_later. Qed.
#[local] Instance mark_failed_later id e : Preserves rows_later (mark_failed id e).
Proof. apply transaction_later. intros t x t' [= _ <-]. apply mark_later. intros r. by apply attempted_later. Qed.
#[local] Hint Extern 1 (Preserves relay_later (in_hooks _)) => apply in_hooks_later : typeclass_instances.
#[local] Hint Extern 1 (Preserves relay_later (on_queue _)) => apply on_queue_later : typeclass_instances.

#[local] Instance enqueue_delivery_later now e tn s : Preserves relay_later (enqueue_delivery now e tn s).
Proof. unfold Webhooks.enqueue_delivery. apply _. Qed.
#[local] Instance publish_later now ty tn data sid eid : Preserves relay_later (publish now ty tn data sid eid).
Proof. unfold Webhooks.publish. apply preserves_bind; [apply _..|]. intros subs. preserve. Qed.
#[local] Instance relay_row_later now r : Preserves relay_later (relay_row now r).
Proof. unfold Webhooks.relay_row. apply _. Qed.
#[local] Instance relay_rows_later now rows n : Preserves relay_later (relay_rows now rows n).
Proof. revert n. induction rows; intros n; cbn [Webhooks.relay_rows]; apply _. Qed.

Lemma mark_settles id f t :
  (forall r, is_pending (f r) = false) ->
  Forall (fun r => eo_event_id r = id -> is_pending r = false) (event_outbox (mark id f t)).
Proof.
  intros Hf. unfold mark. cbn. induction (event_outbox t) as [|r l IH]; cbn; constructor; [|done].
  unfold for_event. case_bool_decide as E; [intros _; apply Hf|done].
Qed.

Lemma marked_settled id f (q : manager) b q' :
  in_hooks (transaction (fun t => (Ret tt, mark id f t))) q = (Ret b, q') ->
  (forall r, is_pending (f r) = false) -> none_pending id (outside q').
Proof.
  intros E Hf. unfold in_hooks, lift in E.
  pose proof (transaction_cases (fun t => (Ret tt, mark id f t)) (outside q)) as H.
  destruct (transaction _ (outside q)) as [[[]|e] w'] eqn:Et; [|done]. injection E as <- <-.
  destruct H as (_ & _ & [= H]). unfold none_pending. cbn. rewrite <- H. by apply mark_settles.
Qed.

Lemma relay_row_settles now r (q : manager) b q' :
  relay_row now r q = (Ret b, q') -> none_pending (eo_event_id r) (outside q').
Proof.
  unfold Webhooks.relay_row, try_catch. unfold mbind, io_bind.
  destruct (publish now _ _ _ _ _ q) as [[p|e] q1].
  - destruct (in_hooks (mark_published _) q1) as [[[]|e] q2] eqn:E2.
    + intros [= _ <-]. by eapply marked_settled.
    + destruct (in_hooks (mark_failed _ _) q2) as [[[]|e'] q3] eqn:E3; intros [= _ <-]. by eapply marked_settled.
  - destruct (in_hooks (mark_failed _ _) q1) as [[[]|e'] q3] eqn:E3; intros [= _ <-]. by eapply marked_settled.
Qed.

Lemma relay_rows_settle now rows : forall n (q : manager) m q',
  relay_rows now rows n q = (Ret m, q') ->
  Forall (fun r => none_pending (eo_event_id r) (outside q')) rows /\ n <= m <= n + Z.of_nat (length rows).
Proof.
  induction rows as [|r rows IH]; intros n q m q'; cbn [Webhooks.relay_rows].
  { intros [= <- <-]. split; [done|cbn; lia]. }
  unfold mbind at 1, io_bind at 1. destruct (relay_row now r q) as [[b|e] q1] eqn:E1; [|done].
  intros E. destruct (IH _ _ _ _ E) as [Hs Hn]. split.
  - constructor; [|done]. eapply none_pending_later; [|by eapply relay_row_settles].
    pose proof (relay_rows_later now rows (if b then n + 1 else n) q1) as H. by rewrite E in H.
  - cbn [length]. destruct b; lia.
Qed.

(** Whatever fails, a drain that returns leaves no row of its batch
    pending: the first [limit] rows that were pending are published or failed,
    it counts at most them, and every row of the outbox keeps its contents
    and, once it is not pending, is never pending again.  So a row whose
    publication failed is not retried by any later drain. *)
Theorem drain_settles (now : Q) (limit : Z) (q q' : manager) (n : Z) :
  drain now limit q = (Ret n, q') ->
  let before := event_outbox (store (db (outside q))) in
  let batch := firstn (Z.to_nat limit) (List.filter is_pending before) in
  Forall2 row_later before (event_outbox (store (db (outside q'))))
  /\ 0 <= n <= Z.of_nat (length batch)
  /\ forall r r', r ∈ batch -> r' ∈ event_outbox (store (db (outside q'))) -> eo_event_id r' = eo_event_id r ->
       is_pending r' = false.
Proof.
  unfold Webhooks.drain, list_pending. unfold mbind, io_bind, in_hooks at 1, lift.
  set (body := fun t => limited_to limit (List.filter is_pending (event_outbox t)) t).
  pose proof (transaction_cases body (outside q)) as H.
  destruct (transaction body (outside q)) as [[rows|e] w1]; [|done].
  destruct H as (_ & _ & H). unfold body, limited_to in H. destruct (limit <? 0); [done|]. injection H as Hrows Hw1.
  set (before := event_outbox (store (db (outside q)))) in *. set (batch := firstn _ _) in *.
  rewrite <- Hrows. intros E.
  destruct (relay_rows_settle _ _ _ _ _ _ E) as [Hs Hn]. split_and!; [|lia|lia|].
  - pose proof (relay_rows_later now batch 0 (with_outside w1 q)) as Hl. rewrite E in Hl.
    unfold relay_later, rows_later in Hl. cbn in Hl. by rewrite <- Hw1 in Hl.
  - intros r r' Hr Hr' Hid. rewrite Forall_forall in Hs. specialize (Hs r Hr). unfold none_pending in Hs.
    rewrite Forall_forall in Hs. by apply Hs.
Qed.

(** ** Publishing on healthy connections *)

Abbreviation serving := (JobQueue.serving (W := hooks)).
Abbreviation idem_at := (idem_redis_key config).

Definition running (q : manager) (d : queue_data) (t : hook_tables) : Prop :=
  serving q d /\ healthy (db (outside q)) /\ store (db (outside q)) = t.

Lemma in_hooks_running {A} (body : io hook_tables hook_exc A) (q : manager) d t a t' :
  running q d t -> body t = (Ret a, t') ->
  exists q', in_hooks (transaction body) q = (Ret a, q') /\ running q' d t'.
Proof.
  intros (Hs & Hh & Ht) E. subst t. destruct (transaction_healthy body (outside q) a t' Hh E) as (d' & E' & Hh' & Ht').
  unfold in_hooks, lift. rewrite E'. eexists. split; [reflexivity|]. by split_and!.
Qed.

Lemma new_id_running (q : manager) d t :
  running q d t -> exists id q', in_hooks (new_id uuid4) q = (Ret id, q') /\ running q' d t.
Proof. intros (Hs & Hh & Ht). eexists _, _. split; [reflexivity|]. by split_and!. Qed.

Lemma enqueue_running now j k (q : manager) d t :
  truthy k = true -> scheduled_at j = None -> running q d t ->
  exists q', on_queue (enqueue isoformat local_offset config now j (Some k)) q = (Ret true, q')
    /\ running q' (spec_enqueue isoformat config now j k d) t.
Proof.
  intros Hk Hj (Hs & Hh & Ht).
  destruct (enqueue_keyed isoformat local_offset config now j k q d Hk Hs) as (q' & E & Hs'); [by rewrite Hj|].
  pose proof (enqueue_outside isoformat local_offset config now j (Some k) q) as Ho. rewrite E in Ho.
  unfold on_queue, lift. change (id q) with q. rewrite E. exists q'. split; [done|].
  unfold same_outside in Ho. cbn in Ho. split; [done|]. by rewrite Ho.
Qed.

(** The payloads waiting in a lane. *)
Definition payloads (p : Z) (d : queue_data) : list (option json) := map (get_field "payload") (lane config p d).

Definition queued_payload (eid tn : string) (s : WebhookSubscription) : option json :=
  Some (JObj (delivery_payload eid tn s ++ [("_idem", JStr (delivery_key eid s))]))%string.

Definition window (now later : Q) : Prop := ms now <= ms later < ms now + 1000 * idempotency_ttl_seconds config.

(** What the deliveries of an event to [ss] do to the queue. *)
Definition deliveries_queued (now : Q) (eid tn : string) (ss : list WebhookSubscription) (d d' : queue_data) : Prop :=
  payloads 0 d' = payloads 0 d
    ++ map (queued_payload eid tn) (List.filter (fun s => negb (key_live (ms now) (idem_at (delivery_key eid s)) d)) ss)
  /\ (forall p, Z.sgn p <> 0 -> lane config p d' = lane config p d)
  /\ (forall later, window now later -> forall s, s ∈ ss -> key_live (ms now) (idem_at (delivery_key eid s)) d = false ->
        key_live (ms later) (idem_at (delivery_key eid s)) d' = true).

Lemma delivery_key_inj eid s s' : delivery_key eid s = delivery_key eid s' -> ws_id s = ws_id s'.
Proof. unfold delivery_key. by intros ?%append_inj_l%append_inj_l%append_inj_l. Qed.

Lemma for_each_deliveries now eid tn ss : forall (q : manager) d t,
  0 < idempotency_ttl_seconds config -> NoDup (map ws_id ss) -> running q d t ->
  exists q' d', for_each (enqueue_delivery now eid tn) ss q = (Ret tt, q') /\ running q' d' t
    /\ deliveries_queued now eid tn ss d d'
    /\ forall later k, window now later -> k ∉ map (delivery_key eid) ss ->
         key_live (ms later) (idem_at k) d' = key_live (ms later) (idem_at k) d.
Proof.
  intros q d t Ht. revert q d. induction ss as [|s ss IH]; intros q d Hn Hq; cbn [for_each].
  { exists q, d. split_and!; [done..| |done]. unfold deliveries_queued. cbn. rewrite app_nil_r. split_and!; [done..|].
    intros ? ? s []%elem_of_nil. }
  apply NoDup_cons in Hn as [Hs Hn]. unfold mbind, io_bind. unfold Webhooks.enqueue_delivery at 1. unfold mbind, io_bind.
  destruct (new_id_running q d t Hq) as (id & q1 & -> & Hq1).
  set (j := new_job id now JOB_WEBHOOK_DELIVER (delivery_payload eid tn s)).
  destruct (enqueue_running now j (delivery_key eid s) q1 d t) as (q2 & E2 & Hq2); [done..|].
  rewrite E2. cbv [mret io_ret]. set (d2 := spec_enqueue _ _ _ _ _ d) in *.
  destruct (IH q2 d2 Hn Hq2) as (q3 & d3 & E3 & Hq3 & (Hp & Hl & Hw) & Hk).
  exists q3, d3. split; [exact E3|]. split; [exact Hq3|].
  assert (Hlive : forall later k', window now later -> key_live (ms later) (idem_at k') d2
    = if key_live (ms now) (idem_at (delivery_key eid s)) d then key_live (ms later) (idem_at k') d
      else if decide (delivery_key eid s = k') then true else key_live (ms later) (idem_at k') d).
  { intros later k' [_ Hlater]. by apply key_live_spec_enqueue. }
  assert (Hwn : window now now) by (unfold window; lia).
  assert (Hne : forall s', s' ∈ ss -> delivery_key eid s <> delivery_key eid s').
  { intros s' Hs' E%delivery_key_inj. apply Hs. rewrite E. by apply list_elem_of_fmap_2. }
  split; [split_and!|].
  - rewrite Hp. unfold payloads. unfold d2 at 1. rewrite lane_spec_enqueue.
    assert (Hf : List.filter (fun s' => negb (key_live (ms now) (idem_at (delivery_key eid s')) d2)) ss
      = List.filter (fun s' => negb (key_live (ms now) (idem_at (delivery_key eid s')) d)) ss).
    { apply List.filter_ext_in. intros s' Hs'%list_elem_of_In. rewrite Hlive by done.
      rewrite decide_False by auto. by case_match. }
    rewrite Hf. cbn [List.filter]. destruct (key_live (ms now) (idem_at (delivery_key eid s)) d); cbn [negb]; [done|].
    rewrite decide_True by done. rewrite map_app, <- app_assoc. cbn [map]. done.
  - intros p Hpn. rewrite Hl by done. unfold d2. rewrite lane_spec_enqueue. case_match; [done|]. by rewrite decide_False.
  - intros later Hlater s' [->|Hs']%elem_of_cons Hd.
    + rewrite Hk by (done || (intros (s' & E & Hs')%list_elem_of_fmap; by eapply Hne)).
      rewrite Hlive by done. rewrite Hd. by rewrite decide_True.
    + apply Hw; [done..|]. rewrite Hlive by done. rewrite decide_False by auto. by case_match.
  - intros later k Hlater Hki. rewrite Hk by (done || set_solver). rewrite Hlive by done.
    rewrite decide_False by set_solver. by case_match.
Qed.

Definition matching (ty tn : string) (t : hook_tables) : list WebhookSubscription :=
  List.filter (wants ty) (subscriptions_of tn t).

Lemma matching_ids ty tn t : NoDup (map ws_id (webhook_subscriptions t)) -> NoDup (map ws_id (matching ty tn t)).
Proof.
  unfold matching, subscriptions_of. intros Hn. assert (Hf : forall p l, NoDup (map ws_id l) -> NoDup (map ws_id (List.filter p l))).
  { intros p l. induction l as [|s l IH]; [done|]. cbn. intros [Hs Hl]%NoDup_cons. destruct (p s); cbn; [|auto].
    apply NoDup_cons. split; [|auto]. intros (s' & E & Hs')%list_elem_of_fmap. apply Hs.
    rewrite E. apply list_elem_of_fmap_2. apply list_elem_of_In, List.filter_In in Hs' as [? _]. by apply list_elem_of_In. }
  by apply Hf, Hf.
Qed.

(** The tables with an event, recorded once. *)
Definition with_event (eid tn ty : string) (payload : list (string * json)) (t : hook_tables) : hook_tables :=
  match List.find (is_event eid) (webhook_events t) with
  | Some _ => t
  | None => set_events (webhook_events t ++ [{| we_id := eid; we_tenant_id := tn; we_type := ty; we_payload := payload;
                                                we_delivered_to := [] |}]) t
  end.

Lemma record_running eid tn ty payload (q : manager) d t :
  running q d t ->
  exists e q', in_hooks (record_event eid tn ty payload) q = (Ret e, q') /\ running q' d (with_event eid tn ty payload t).
Proof.
  intros Hq. unfold with_event. destruct (List.find (is_event eid) (webhook_events t)) as [e|] eqn:E.
  - eexists. eapply in_hooks_running; [exact Hq|]. cbn. by rewrite E.
  - eexists. eapply in_hooks_running; [exact Hq|]. cbn. by rewrite E.
Qed.

Lemma publish_running now ty tn data sid eid (q : manager) d t :
  truthy eid = true -> 0 < idempotency_ttl_seconds config -> running q d t ->
  NoDup (map ws_id (webhook_subscriptions t)) ->
  exists q' d', publish now ty tn data sid (Some eid) q
      = (Ret (match matching ty tn t with [] => None | _ => Some eid end), q')
    /\ running q' d' (match matching ty tn t with [] => t | _ => with_event eid tn ty (event_payload sid data) t end)
    /\ deliveries_queued now eid tn (matching ty tn t) d d'
    /\ forall later k, window now later -> k ∉ map (delivery_key eid) (matching ty tn t) ->
         key_live (ms later) (idem_at k) d' = key_live (ms later) (idem_at k) d.
Proof.
  intros He Ht Hq Hn. unfold Webhooks.publish, mbind, io_bind.
  destruct (in_hooks_running (fun t => (Ret (subscriptions_of tn t), t)) q d t _ _ Hq eq_refl) as (q1 & E1 & Hq1).
  unfold list_subscriptions. rewrite E1. fold (matching ty tn t).
  pose proof (matching_ids ty tn t Hn) as Hm. destruct (matching ty tn t) as [|s ss].
  - exists q1, d. do 2 (split; [done|]). split; [|done]. unfold deliveries_queued. cbn. rewrite app_nil_r.
    split_and!; [done..|]. intros ? ? s []%elem_of_nil.
  - rewrite He. cbv [mret io_ret].
    destruct (record_running eid tn ty (event_payload sid data) q1 d t Hq1) as (e & q2 & E2 & Hq2). rewrite E2.
    destruct (for_each_deliveries now eid tn (s :: ss) q2 d _ Ht Hm Hq2) as (q3 & d3 & E3 & Hq3 & Hd & Hk).
    rewrite E3. by exists q3, d3.
Qed.

(** On healthy connections a publication records its event once and
    enqueues one delivery for each active subscription of the tenant that
    wants the event and whose idempotency key is not live, in their order at
    the end of the default lane; the keys then live for their time, so that
    publishing or replaying the event meanwhile enqueues nothing.  Without a
    matching subscription nothing is recorded at all. *)
Theorem publish_enqueues (now : Q) (ty tn : string) (data : list (string * json)) (sid : option string) (eid : string)
    (q : manager) (d : queue_data) (t : hook_tables) :
  truthy eid = true -> 0 < idempotency_ttl_seconds config -> running q d t ->
  NoDup (map ws_id (webhook_subscriptions t)) ->
  exists q' d' t', publish now ty tn data sid (Some eid) q
      = (Ret (match matching ty tn t with [] => None | _ => Some eid end), q')
    /\ running q' d' t' /\ deliveries_queued now eid tn (matching ty tn t) d d'
    /\ t' = match matching ty tn t with [] => t | _ => with_event eid tn ty (event_payload sid data) t end.
Proof.
  intros He Ht Hq Hn. destruct (publish_running now ty tn data sid eid q d t He Ht Hq Hn) as (q' & d' & E & Hq' & Hd & _).
  exists q', d'. eexists. by split_and!.
Qed.











(** While the keys of its deliveries live, the replay route answers with
    the number of matching subscriptions and enqueues nothing: the tables and
    the queue are as they were. *)
Theorem replay_is_silent (now : Q) (p : ApiKeyPrincipal) (e : WebhookEvent) (eid : string) (q : manager)
    (d : queue_data) (t : hook_tables) :
  running q d t -> pr_tenant_id p = None -> List.find (is_event eid) (webhook_events t) = Some e ->
  matching (we_type e) (we_tenant_id e) t <> [] ->
  Forall (fun s => key_live (ms now) (idem_at (delivery_key eid s)) d = true) (matching (we_type e) (we_tenant_id e) t) ->
  exists q', replay_webhook_event uuid4 isoformat local_offset config now p eid q
      = (Ret (Z.of_nat (length (matching (we_type e) (we_tenant_id e) t))), q') /\ running q' d t.
Proof.
  intros Hq Hp He Hm Hlive. unfold replay_webhook_event, event_for, allow. unfold mbind, io_bind.
  destruct (in_hooks_running (fun t => (Ret (List.find (is_event eid) (webhook_events t)), t)) q d t _ _ Hq eq_refl)
    as (q1 & E1 & Hq1).
  unfold get_event. rewrite E1, He.
  assert (Ha : forall q : manager, (if truthy (we_tenant_id e)
      then lift id (fun q _ => q) Refused (assert_tenant_access p (AsText (we_tenant_id e))) else mret tt) q
    = (Ret tt, q) :> outcome hook_exc unit * manager).
  { intros q0. unfold lift, assert_tenant_access, tenant_allowed. rewrite Hp. by destruct (truthy _). }
  rewrite Ha. cbv [mret io_ret].
  destruct (in_hooks_running (fun t => (Ret (subscriptions_of (we_tenant_id e) t), t)) q1 d t _ _ Hq1 eq_refl)
    as (q2 & E2 & Hq2).
  unfold list_subscriptions. rewrite E2. fold (matching (we_type e) (we_tenant_id e) t).
  set (ss := matching (we_type e) (we_tenant_id e) t) in *.
  assert (Hs : forall ss (q : manager), running q d t ->
    Forall (fun s => key_live (ms now) (idem_at (delivery_key eid s)) d = true) ss ->
    exists q', for_each (enqueue_delivery now eid (we_tenant_id e)) ss q = (Ret tt, q') /\ running q' d t).
  { clear. intros ss. induction ss as [|s ss IH]; intros q Hq Hl; cbn [for_each]; [by exists q|].
    apply Forall_cons in Hl as [Hs Hl]. unfold mbind, io_bind. unfold Webhooks.enqueue_delivery at 1.
    unfold mbind, io_bind. destruct (new_id_running q d t Hq) as (id & q1 & -> & Hq1).
    destruct (enqueue_running now (new_job id now JOB_WEBHOOK_DELIVER (delivery_payload eid (we_tenant_id e) s))
      (delivery_key eid s) q1 d t) as (q2 & -> & Hq2); [done..|].
    unfold spec_enqueue in Hq2. rewrite Hs in Hq2. by apply IH. }
  destruct (Hs ss q2 Hq2 Hlive) as (q3 & E3 & Hq3). destruct ss as [|s ss]; [done|]. rewrite E3. by exists q3.
Qed.

(** ** One delivery *)

Context (hmac_sha256 : string -> string -> string) (iso_utc : Q -> string) (respond : nat -> post -> string + Z).

Abbreviation handle := (handle_webhook_deliver hmac_sha256 uuid4 iso_utc respond).

Context (hmac_hex : forall k m, all_chars is_hex_char (hmac_sha256 k m) = true).

(** The request of an envelope to a subscription. *)
Definition addressed (now : Q) (payload : list (string * json)) (t : hook_tables) (p : post) : Prop :=
  exists eid sid tn e s,
    str_of (field "event_id" payload) = Some eid /\ str_of (field "subscription_id" payload) = Some sid
    /\ str_of (field "tenant_id" payload) = Some tn
    /\ List.find (is_event eid) (webhook_events t) = Some e
    /\ s ∈ webhook_subscriptions t /\ ws_id s = sid /\ ws_tenant_id s = tn /\ ws_active s = true
    /\ p_url p = ws_url s
    /\ p_content p = body {| en_event_id := eid; en_event_type := we_type e; en_tenant_id := Some tn;
                             en_data := we_payload e; en_occurred_at := iso_utc now |}
    /\ (exists header, ("X-Neryva-Signature"%string, header) ∈ p_headers p)
    /\ forall header tolerance, ("X-Neryva-Signature"%string, header) ∈ p_headers p -> 0 <= tolerance ->
         verify_signature hmac_sha256 (ws_secret s) (p_content p) header tolerance now = true.

Lemma deliver_addressed now payload t eid sid tn e s w :
  str_of (field "event_id" payload) = Some eid -> str_of (field "subscription_id" payload) = Some sid ->
  str_of (field "tenant_id" payload) = Some tn ->
  List.find (is_event eid) (webhook_events t) = Some e ->
  List.find (owned sid tn) (webhook_subscriptions t) = Some s -> ws_active s = true ->
  let '(r, w') := deliver hmac_sha256 respond now (ws_url s) (ws_secret s)
    {| en_event_id := eid; en_event_type := we_type e; en_tenant_id := Some tn; en_data := we_payload e;
       en_occurred_at := iso_utc now |} w in
  db w' = db w /\ (exists dr, r = Ret dr) /\ exists p, posts w' = posts w ++ [p] /\ addressed now payload t p.
Proof.
  intros H1 H2 H3 He Hs Ha. unfold deliver. cbv zeta. split; [done|]. split; [by eexists|]. eexists. split; [reflexivity|].
  apply List.find_some in Hs as [Hin [Hid Htn]%andb_true_iff]. apply bool_decide_eq_true in Hid, Htn.
  exists eid, sid, tn, e, s. cbn [p_headers p_content p_url].
  do 4 (split; [done|]). split; [by apply list_elem_of_In|]. do 5 (split; [done|]).
  split; [eexists; do 5 apply elem_of_cons, or_intror; by left|].
  intros header tol Hh Ht. do 5 (apply elem_of_cons in Hh as [Hh|Hh]; [discriminate Hh|]).
  apply list_elem_of_singleton in Hh. apply (f_equal snd) in Hh. cbn [snd] in Hh. subst header.
  match goal with |- verify_signature _ _ _ (signature_header _ ?k ?b None _) _ _ = _ =>
    change (signature_header hmac_sha256 k b None now) with (signature_header hmac_sha256 k b (Some (py_int now)) now) end.
  rewrite verify_header by done. rewrite Z.sub_diag, bool_decide_eq_true_2 by done.
  destruct (Z.leb_spec (Z.abs 0) tol); [done|cbn in *; lia].
Qed.

Lemma transaction_posts {A} (b : io hook_tables hook_exc A) (w : hooks) : posts (transaction b w).2 = posts w.
Proof. pose proof (transaction_cases b w) as H. destruct (transaction b w) as [r w']. by destruct H. Qed.

(** A read changes no table, and its answer is of the tables. *)
Lemma transaction_read {A} (f : hook_tables -> A) (w : hooks) :
  let '(r, w') := transaction (fun t => (Ret (f t), t)) w in
  posts w' = posts w /\ store (db w') = store (db w) /\ forall a, r = Ret a -> a = f (store (db w)).
Proof.
  pose proof (transaction_cases (fun t => (Ret (f t), t)) w) as H. destruct (transaction _ w) as [[a|e] w'];
    destruct H as (Hp & _ & H); split; [done| |done|].
  - injection H as <- ->. split; [done|]. by intros a [= <-].
  - split; [|done]. destruct H as [->|[a [= _ ->]]]; done.
Qed.

Lemma record_posts a b c d e f n w : posts (record_delivery uuid4 a b c d e f n w).2 = posts w.
Proof.
  unfold record_delivery, mbind, io_bind, new_id. by rewrite transaction_posts.
Qed.

(** C13: Whatever fails, the handler of a delivery sends at most one request,
    and only for a stored event to an active subscription of the job's tenant:
    to its URL, with the envelope of the event and a signature header, the one
    it carries being accepted by the receiver's check. *)
Theorem delivery_signed (now : Q) (payload : list (string * json)) (w w' : hooks) (r : outcome hook_exc unit) :
  handle now payload w = (r, w') ->
  posts w' = posts w \/ exists p, posts w' = posts w ++ [p] /\ addressed now payload (store (db w)) p.
Proof.
  unfold handle_webhook_deliver. destruct (str_of (field "event_id" payload)) as [eid|] eqn:H1; [|by intros [= <- <-]; left].
  destruct (str_of (field "subscription_id" payload)) as [sid|] eqn:H2; [|by intros [= <- <-]; left].
  destruct (_ || _); [by intros [= <- <-]; left|]. unfold mbind, io_bind. unfold get_event.
  pose proof (transaction_read (fun t => List.find (is_event eid) (webhook_events t)) w) as R1.
  destruct (transaction _ w) as [[[e|]|x] w1]; destruct R1 as (P1 & T1 & V1);
    [|by intros [= <- <-]; left..]. specialize (V1 _ eq_refl).
  set (tenant := str_of (field "tenant_id" payload)). unfold get_subscription.
  pose proof (transaction_read (fun t => match tenant with Some n => List.find (owned sid n) (webhook_subscriptions t)
    | None => None end) w1) as R2.
  destruct (transaction _ w1) as [[[s|]|x] w2]; destruct R2 as (P2 & T2 & V2);
    [|intros [= <- <-]; left; congruence..]. specialize (V2 _ eq_refl).
  destruct tenant as [tn|] eqn:H3; [|done]. rewrite T1 in V2, T2. rewrite <- P1, <- P2.
  destruct (ws_active s) eqn:Ha; cbn [negb]; [|intros [= <- <-]; by left].
  pose proof (deliver_addressed now payload (store (db w)) eid sid tn e s w2 H1 H2 H3 (eq_sym V1) (eq_sym V2) Ha) as D.
  destruct (deliver _ _ _ _ _ _ w2) as [r3 w3]. destruct D as (_ & [dr ->] & p & Hp & Haddr).
  intros E. right. exists p. split; [|exact Haddr]. rewrite <- Hp.
  pose proof (record_posts eid sid (Some tn) (if dr_success dr then "success" else "failed") (dr_http_status dr)
    (dr_error dr) 1 w3) as P4.
  destruct (record_delivery _ _ _ _ _ _ _ _ w3) as [[x|x] w4]; cbn in P4; [|injection E as <- <-; done].
  rewrite <- P4. destruct (dr_success dr).
  - pose proof (transaction_posts (fun t => (Ret tt : outcome hook_exc unit, set_events (map (fun e => if is_event eid e then add_delivered sid e else e)
                           (webhook_events t)) t)) w4) as P5.
    unfold mark_delivered in E. destruct (transaction _ w4) as [[[]|y] w5]; injection E as <- <-; done.
  - injection E as <- <-. done.
Qed.
End relaying.

(** ** Runs *)

Module HookSample.
Definition digest (k m : string) : string := "beef".
Definition iso (t : Q) : string := "1970-01-01".
Definition text (e : hook_exc) : string := "error".
Definition id_of (n : nat) : string := "id-" +:+ pretty (Z.of_nat n).
Definition respond (n : nat) (p : post) : string + Z := if (n =? 0)%nat then inr 204 else inr 410.

Definition sub : WebhookSubscription := {|
  ws_id := "s1"; ws_tenant_id := "t1"; ws_url := "https://a.example/hook"; ws_secret := "0123456789abcdef";
  ws_events := ["conversation.completed"]; ws_active := true |}%string.
Definition row (id : string) : EventOutbox := {|
  eo_id := "r-" +:+ id; eo_tenant_id := "t1"; eo_type := "conversation.completed"; eo_payload := [("n", JNum 1)];
  eo_session_id := Some "c1"; eo_status := STATUS_PENDING; eo_attempts := 0; eo_last_error := None;
  eo_event_id := id |}.
Definition event : WebhookEvent := {|
  we_id := "e1"; we_tenant_id := "t1"; we_type := "conversation.completed"; we_payload := [("n", JNum 1)];
  we_delivered_to := [] |}%string.
Definition tables (rows : list EventOutbox) : hook_tables := {|
  webhook_subscriptions := [sub]; webhook_events := []; webhook_deliveries := []; event_outbox := rows |}.
Definition stored : hook_tables := {|
  webhook_subscriptions := [sub]; webhook_events := [event]; webhook_deliveries := []; event_outbox := [] |}.
Definition world (t : hook_tables) (fs : list fault) : hooks := {|
  db := {| store := t; faults := fs |}; drawn := 0; posts := [] |}.
Definition over (d : queue_data) (t : hook_tables) (fs : list fault) : QueueManager queue_data hooks := {|
  client := Some {| store := d; faults := [] |}; in_memory := None; idem_seen := ∅; idem_processed := ∅;
  dead_letters := []; circuit := new_circuit_breaker; outside := world t fs |}.
Definition live_key : queue_data := {|
  q_lists := ∅; q_zsets := ∅; q_keys := {["neryva:queue:idem:webhook:e1:s1" := 1000]} |}%string.

Definition config := DEFAULT_QUEUE_CONFIG.
Definition drain (now : Q) (limit : Z) := Webhooks.drain id_of text iso 0 config (St := queue_data) now limit.
Definition publish (now : Q) := Webhooks.publish id_of iso 0 config (St := queue_data) now.
Definition handle := handle_webhook_deliver digest id_of iso respond.
Definition payload : list (string * json) := delivery_payload "e1" "t1" sub.

Lemma over_running d t : running (over d t []) d t.
Proof. split; [|split; [constructor|done]]. eexists. split_and!; [reflexivity|constructor|reflexivity|reflexivity]. Qed.

Lemma digest_hex k m : all_chars is_hex_char (digest k m) = true.
Proof. reflexivity. Qed.
End HookSample.

(** One failed query while a row is published marks it failed: nothing is
    queued, and no later drain looks at it again. *)
Example failed_query_drops_event :
  let '(r1, q1) := HookSample.drain 0 50 (HookSample.over QueueSample.empty (HookSample.tables [HookSample.row "e1"])
                                            [NoFault; LostRequest]) in
  let '(r2, q2) := HookSample.drain 60 50 q1 in
  r1 = Ret 0 /\ r2 = Ret 0 /\ map eo_status (event_outbox (store (db (outside q2)))) = [STATUS_FAILED]
  /\ webhook_events (store (db (outside q2))) = [] /\ client q2 = Some {| store := QueueSample.empty; faults := [] |}.
Proof. vm_compute. by split_and!. Qed.

(** A request that was accepted is sent again when recording it fails. *)
Example delivered_twice :
  let '(r1, w1) := HookSample.handle 0 HookSample.payload (HookSample.world HookSample.stored [NoFault; NoFault; LostRequest]) in
  let '(r2, w2) := HookSample.handle 60 HookSample.payload w1 in
  r1 = Raise DatabaseDown /\ length (posts w2) = 2%nat.
Proof. vm_compute. by split_and!. Qed.

(** A rejection with a 4xx status raises like any other failure, so that the
    queue retries it. *)
Example rejection_raises :
  exists m w, (handle_webhook_deliver HookSample.digest HookSample.id_of HookSample.iso (fun _ _ => inr 400) 0 HookSample.payload
     (HookSample.world HookSample.stored [])) = (Raise (ValueError m), w).
Proof. eexists _, _. vm_compute. reflexivity. Qed.

(** The relay's own idempotency key: it is queued once a day. *)
Example relay_queued_once :
  let q := HookSample.over QueueSample.empty (HookSample.tables []) [] in
  let '(r1, q1) := enqueue_outbox_relay HookSample.id_of HookSample.iso 0 HookSample.config 0 50 q in
  let '(r2, q2) := enqueue_outbox_relay HookSample.id_of HookSample.iso 0 HookSample.config 3600 50 q1 in
  r1 = Ret true /\ r2 = Ret true
  /\ length (lane HookSample.config 0 (view (default QueueSample.empty (store <$> client q2)))) = 1%nat.
Proof. vm_compute. by split_and!. Qed.

(** ** Witnesses *)

Lemma signature_roundtrip_witness :
  verify_signature HookSample.digest "k" "b" (signature_header HookSample.digest "k" "b" (Some 100) 0) 300 400
  = (Z.abs (py_int 400 - 100) <=? 300) && bool_decide ("beef" = "beef")%string.
Proof. exact (signature_roundtrip HookSample.digest HookSample.digest_hex "k" "k" "b" "b" 100 300 0 400). Defined.

Definition drained := HookSample.drain 0 50 (HookSample.over QueueSample.empty
  (HookSample.tables [HookSample.row "e1"; HookSample.row "e2"]) [NoFault; LostRequest]).

Lemma drain_settles_witness :
  drained.1 = Ret 1 /\ Forall2 row_later [HookSample.row "e1"; HookSample.row "e2"]
                         (event_outbox (store (db (outside drained.2)))).
Proof.
  split; [vm_compute; reflexivity|].
  apply (drain_settles HookSample.id_of HookSample.text HookSample.iso 0 HookSample.config 0 50
    (HookSample.over QueueSample.empty (HookSample.tables [HookSample.row "e1"; HookSample.row "e2"]) [NoFault; LostRequest])
    drained.2 1).
  vm_compute. reflexivity.
Defined.

Lemma publish_enqueues_witness :
  let t := HookSample.tables [] in
  exists q' d' t', HookSample.publish 0 "conversation.completed" "t1" [("n", JNum 1)] (Some "c1") (Some "e1")
      (HookSample.over QueueSample.empty t []) = (Ret (Some "e1"), q')
    /\ running q' d' t'
    /\ deliveries_queued HookSample.config 0 "e1" "t1" [HookSample.sub] QueueSample.empty d'
    /\ t' = with_event "e1" "t1" "conversation.completed" (event_payload (Some "c1") [("n", JNum 1)]) t.
Proof.
  intros t. apply (publish_enqueues HookSample.id_of HookSample.iso 0 HookSample.config 0 "conversation.completed" "t1"
    [("n", JNum 1)] (Some "c1") "e1" (HookSample.over QueueSample.empty t []) QueueSample.empty t)%string.
  - reflexivity.
  - reflexivity.
  - apply HookSample.over_running.
  - apply NoDup_singleton.
Defined.


Lemma replay_is_silent_witness :
  let p := {| key_id := "k"; pr_name := "n"; pr_role := ROLE_SUPER_ADMIN; pr_tenant_id := None; pr_scopes := [] |}%string in
  exists q', replay_webhook_event HookSample.id_of HookSample.iso 0 HookSample.config 0 p "e1"
      (HookSample.over HookSample.live_key HookSample.stored []) = (Ret 1, q')
    /\ running q' HookSample.live_key HookSample.stored.
Proof.
  intros p. apply (replay_is_silent HookSample.id_of HookSample.iso 0 HookSample.config 0 p HookSample.event "e1"
    (HookSample.over HookSample.live_key HookSample.stored []) HookSample.live_key HookSample.stored).
  - apply HookSample.over_running.
  - reflexivity.
  - reflexivity.
  - discriminate.
  - constructor; [reflexivity|constructor].
Defined.

Definition handled := HookSample.handle 0 HookSample.payload (HookSample.world HookSample.stored []).

Lemma delivery_signed_witness :
  posts handled.2 = []
  \/ exists p, posts handled.2 = [p]
       /\ addressed HookSample.digest HookSample.iso 0 HookSample.payload HookSample.stored p.
Proof.
  apply (delivery_signed HookSample.id_of HookSample.digest HookSample.iso HookSample.respond HookSample.digest_hex 0
    HookSample.payload (HookSample.world HookSample.stored []) handled.2 handled.1).
  vm_compute. reflexivity.
Defined.
