(* ===== verification/Ingestion.v ===== *)
(** * Ingestion of documents (backend/app/application/ingestion/service.py)

    The format of a source, the four ways to cut a text into chunks, and the
    service with its jobs, the hashes it deduplicates by and its count of
    active jobs.  SHA-256 and [uuid4] are parameters; instants are seconds.
    Sizes are natural numbers. *)

From S2P Require Import Prelude Text.

(** ** Data *)

Inductive DocumentStatus := PENDING | PROCESSING | INDEXED | FAILED.
Inductive ChunkingStrategy := FIXED_SIZE | SENTENCE | PARAGRAPH | RECURSIVE.

Record chunk := { c_id : string; c_content : string; start_offset : Z; end_offset : Z }.

Record IngestionJob := {
  ij_id : string;
  ij_tenant_id : option string;
  ij_document_id : string;
  ij_source : string;
  ij_content : string;
  ij_metadata : list (string * string);
  ij_status : DocumentStatus;
  ij_chunks : list chunk;
  ij_error : option string;
  ij_created_at : Q;
  ij_completed_at : option Q;
}.

Record IngestionConfig := {
  chunking_strategy : ChunkingStrategy;
  chunk_size : nat;
  chunk_overlap : nat;
  separators : list string;
  max_document_size : Z;
  supported_formats : list string;
  max_concurrent_jobs : Z;
  deduplication_enabled : bool;
  (** The callback raises the message it returns. *)
  progress_callback : option (string -> nat -> nat -> option string);
}.

Definition line_feed : ascii := Ascii.ascii_of_nat 10.
Definition newline : string := String line_feed EmptyString.

Definition DEFAULT_SEPARATORS : list string := [newline +:+ newline; newline; ". "; " "; EmptyString].
Definition SUPPORTED_FORMATS : list string := ["txt"; "md"; "pdf"; "docx"; "html"; "json"; "csv"]%string.

Definition DEFAULT_INGESTION : IngestionConfig := {|
  chunking_strategy := RECURSIVE; chunk_size := 512; chunk_overlap := 50; separators := DEFAULT_SEPARATORS;
  max_document_size := 10 * 1024 * 1024; supported_formats := SUPPORTED_FORMATS; max_concurrent_jobs := 10;
  deduplication_enabled := true; progress_callback := None |}.

Inductive ingest_exc :=
| IngestionError (message source : string)
| UnsupportedFormat (format : string)
| DocumentTooLarge (size max_size : Z)
| DuplicateDocument (document_id : string)
(** Not an exception: the chunker never returns. *)
| RunsForever.

(** ** Chunks *)

(** What a chunker does: it returns, raises ValueError, or does not end. *)
Inductive chunking := Chunks (l : list chunk) | Raises (message : string) | Endless.

Definition chunk_id (n : nat) : string := "chunk-" +:+ pretty (Z.of_nat n).
Definition len (s : string) : nat := String.length s.

(** The [while] loop; a step that does not advance never ends. *)
Fixpoint fixed_size_loop (fuel : nat) (content : string) (size overlap : nat) (start : Z) (n : nat) : option (list chunk) :=
  match fuel with
  | O => None
  | S fuel =>
      if start <? Z.of_nat (len content) then
        let stop := Z.min (start + Z.of_nat size) (Z.of_nat (len content)) in
        let c := {| c_id := chunk_id n;
                    c_content := String.substring (Z.to_nat start) (Z.to_nat (stop - start)) content;
                    start_offset := start; end_offset := stop |} in
        cons c <$> fixed_size_loop fuel content size overlap (start + (Z.of_nat size - Z.of_nat overlap)) (S n)
      else Some []
  end.

Definition _chunk_fixed_size (content : string) (size overlap : nat) : chunking :=
  match fixed_size_loop (S (len content)) content size overlap 0 0 with
  | Some l => Chunks l
  | None => Endless
  end.

(** [re.split(r"(?<=[.!?])\s+", s)]: [after] an end of sentence, [within] the
    whitespace of a cut. *)
Definition ends_sentence (a : ascii) : bool := bool_decide (a ∈ ["."; "!"; "?"]%char).

Fixpoint split_sentences (after within : bool) (s : string) : list string :=
  match s with
  | EmptyString => [EmptyString]
  | String a s' =>
      if within && is_space a then split_sentences false true s'
      else if after && is_space a then EmptyString :: split_sentences false true s'
      else match split_sentences (ends_sentence a) false s' with
           | x :: l => String a x :: l
           | [] => []
           end
  end.

(** The loop of the chunkers by sentence and by paragraph: pieces are put
    together with [glue] while their lengths, without it, fit; [trim] is what
    is done to a chunk that is stored. *)
Fixpoint gather (glue : string) (trim : string -> string) (size : nat) (pieces : list string) (current : string)
    (n offset : nat) : list chunk :=
  let stored :=
    if truthy current
    then [{| c_id := chunk_id n; c_content := trim current; start_offset := Z.of_nat offset;
             end_offset := Z.of_nat (offset + len current) |}]
    else [] in
  match pieces with
  | [] => stored
  | p :: pieces =>
      if (len current + len p <=? size)%nat
      then gather glue trim size pieces (if truthy current then current +:+ glue +:+ p else p) n offset
      else stored ++ gather glue trim size pieces p (n + length stored) (offset + len current)
  end.

Definition _chunk_by_sentence (content : string) (size : nat) : chunking :=
  Chunks (gather " " strip size (split_sentences false false content) EmptyString 0 0).

Definition _chunk_by_paragraph (content : string) (size : nat) : chunking :=
  let paragraphs := List.filter truthy (map strip (split_str (newline +:+ newline) 0 content)) in
  Chunks (gather (newline +:+ newline) id size paragraphs EmptyString 0 0).

(** One separator: the pieces of a split that is too long, put together again
    while they fit. *)
Fixpoint merge_parts (sep : string) (size : nat) (parts : list string) (current : string) : list string :=
  let emit := if truthy current then [current] else [] in
  match parts with
  | [] => emit
  | p :: parts =>
      if (len current + len p <=? size)%nat
      then merge_parts sep size parts (if truthy current then current +:+ sep +:+ p else p)
      else emit ++ merge_parts sep size parts p
  end.

Definition split_one (sep : string) (size : nat) (s : string) : option (list string) :=
  if (len s <=? size)%nat then Some [s]
  else parts ← py_split sep s; Some (merge_parts sep size parts EmptyString).

Fixpoint split_all (seps : list string) (size : nat) (splits : list string) : option (list string) :=
  match seps with
  | [] => Some splits
  | sep :: seps => next ← mapM (split_one sep size) splits; split_all seps size (mjoin next)
  end.

(** [prev[-overlap:] if len(prev) > overlap else prev] *)
Definition tail_of (overlap : nat) (s : string) : string := String.substring (len s - overlap) overlap s.

Fixpoint overlapped (overlap : nat) (prev : option string) (splits : list string) (n : nat) (start : Z) : list chunk :=
  match splits with
  | [] => []
  | s :: splits =>
      let s := match prev with
               | Some p => if (0 <? overlap)%nat then (if (overlap <? len p)%nat then tail_of overlap p else p) +:+ s else s
               | None => s
               end in
      {| c_id := chunk_id n; c_content := s; start_offset := start; end_offset := start + Z.of_nat (len s) |}
      :: overlapped overlap (Some s) splits (S n)
           (start + (Z.of_nat (len s) - match prev with Some _ => Z.of_nat overlap | None => 0 end))
  end.

Definition _chunk_recursive (content : string) (size overlap : nat) (seps : list string) : chunking :=
  match split_all seps size [content] with
  | Some splits => Chunks (overlapped overlap None splits 0 0)
  | None => Raises "empty separator"
  end.

Definition _chunk_document (c : IngestionConfig) (content : string) : chunking :=
  if negb (truthy content) then Chunks []
  else match chunking_strategy c with
       | FIXED_SIZE => _chunk_fixed_size content (chunk_size c) (chunk_overlap c)
       | SENTENCE => _chunk_by_sentence content (chunk_size c)
       | PARAGRAPH => _chunk_by_paragraph content (chunk_size c)
       | RECURSIVE => _chunk_recursive content (chunk_size c) (chunk_overlap c) (separators c)
       end.

(** ** The service *)

Record IngestionService := {
  jobs : list IngestionJob;                (* by insertion *)
  content_hashes : list string;
  active_jobs : Z;
  ing_drawn : nat;
}.

Definition set_jobs (l : list IngestionJob) (s : IngestionService) : IngestionService := {|
  jobs := l; content_hashes := content_hashes s; active_jobs := active_jobs s; ing_drawn := ing_drawn s |}.
Definition set_active (n : Z) (s : IngestionService) : IngestionService := {|
  jobs := jobs s; content_hashes := content_hashes s; active_jobs := n; ing_drawn := ing_drawn s |}.
Definition add_hash (h : string) (s : IngestionService) : IngestionService := {|
  jobs := jobs s; content_hashes := content_hashes s ++ [h]; active_jobs := active_jobs s; ing_drawn := ing_drawn s |}.

Definition new_service : IngestionService := {| jobs := []; content_hashes := []; active_jobs := 0; ing_drawn := 0 |}.

Definition job_is (id : string) (j : IngestionJob) : bool := bool_decide (ij_id j = id).

Definition set_result (st : DocumentStatus) (chunks : list chunk) (error : option string) (at_ : Q) (j : IngestionJob) :
    IngestionJob := {|
  ij_id := ij_id j; ij_tenant_id := ij_tenant_id j; ij_document_id := ij_document_id j; ij_source := ij_source j;
  ij_content := ij_content j; ij_metadata := ij_metadata j; ij_status := st; ij_chunks := chunks; ij_error := error;
  ij_created_at := ij_created_at j; ij_completed_at := Some at_ |}.

Section ingestion.
Context (config : IngestionConfig) (sha256 : string -> string) (uuid4 : nat -> string).

Abbreviation ingestion A := (io IngestionService ingest_exc A).

Definition supported (f : string) : bool := bool_decide (f ∈ supported_formats config).

Definition _detect_format (source : string) (content : option string) : string :=
  let ext := if contains "." source then lower (after_last "." source) else EmptyString in
  let starts p := match content with Some c => truthy c && String.prefix p (strip c) | None => false end in
  if supported ext then ext
  else if starts "{" then "json"
  else if starts "<" then "html"
  else if truthy ext then ext else "txt".

Definition _compute_content_hash (content source : string) : string :=
  sha256 (source +:+ ":" +:+ String.substring 0 5000 content).
Definition _generate_document_id (content source : string) : string :=
  String.substring 0 32 (sha256 (source +:+ ":" +:+ String.substring 0 1000 content)).

(** Assigns to the job of an id. *)
Definition update_job (id : string) (f : IngestionJob -> IngestionJob) : ingestion unit :=
  modify (fun s => set_jobs (map (fun j => if job_is id j then f j else j) (jobs s)) s).

(** [self._jobs[job.id] = job] *)
Definition store_job (j : IngestionJob) : ingestion unit :=
  modify (fun s => set_jobs (if existsb (job_is (ij_id j)) (jobs s)
                             then map (fun j' => if job_is (ij_id j) j' then j else j') (jobs s)
                             else jobs s ++ [j]) s).

(** The body of the [try]: the chunks, or the message of what was raised. *)
Definition process (id content : string) (hash : option string) (now : Q) : ingestion (list chunk + string) :=
  _ ← (match hash with Some h => modify (add_hash h) | None => mret tt end);
  match _chunk_document config content with
  | Endless => throw RunsForever
  | Raises m => mret (inr m)
  | Chunks l =>
      _ ← update_job id (set_result INDEXED l None now);
      match progress_callback config with
      | Some f => match f id (length l) (length l) with Some m => mret (inr m) | None => mret (inl l) end
      | None => mret (inl l)
      end
  end.

(** The job as the call returns it. *)
Definition find_job (id : string) : ingestion (option IngestionJob) := fun s =>
  (Ret (List.find (job_is id) (jobs s)), s).

Definition ingest_document (now : Q) (content source : string) (tenant : option string) (document_id : option string)
    (metadata : option (list (string * string))) : ingestion (option IngestionJob) :=
  let fmt := _detect_format source (Some content) in
  if negb (supported fmt) then throw (UnsupportedFormat fmt)
  else if max_document_size config <? Z.of_nat (len content)
  then throw (DocumentTooLarge (Z.of_nat (len content)) (max_document_size config))
  else
    let hash := if deduplication_enabled config then Some (_compute_content_hash content source) else None in
    s ← get_st;
    match hash with
    | Some h => if decide (h ∈ content_hashes s) then throw (DuplicateDocument (String.substring 0 16 h)) else mret tt
    | None => mret tt
    end ;;
    (if max_concurrent_jobs config <=? active_jobs s then throw (IngestionError "Max concurrent jobs reached" source)
     else mret tt) ;;
    let id := uuid4 (ing_drawn s) in
    let job := {| ij_id := id; ij_tenant_id := tenant;
                  ij_document_id := match document_id with
                                    | Some d => if truthy d then d else _generate_document_id content source
                                    | None => _generate_document_id content source
                                    end;
                  ij_source := source; ij_content := content; ij_metadata := default [] metadata;
                  ij_status := PROCESSING; ij_chunks := []; ij_error := None; ij_created_at := now;
                  ij_completed_at := None |} in
    modify (fun s => {| jobs := jobs s; content_hashes := content_hashes s; active_jobs := active_jobs s;
                        ing_drawn := S (ing_drawn s) |}) ;;
    store_job job ;;
    modify (fun s => set_active (active_jobs s + 1) s) ;;
    r ← process id content hash now;
    match r with
    | inl _ => modify (fun s => set_active (active_jobs s - 1) s) ;; find_job id
    | inr m =>
        update_job id (fun j => set_result FAILED (ij_chunks j) (Some m) now j) ;;
        modify (fun s => set_active (active_jobs s - 1) s) ;;
        throw (IngestionError m source)
    end.

Definition get_job_status (id : string) (s : IngestionService) : option IngestionJob := List.find (job_is id) (jobs s).

Definition list_jobs (tenant : option string) (s : IngestionService) : list IngestionJob :=
  let js := match tenant with
            | Some t => if truthy t then List.filter (fun j => bool_decide (ij_tenant_id j = Some t)) (jobs s) else jobs s
            | None => jobs s
            end in
  sort_by (fun a b => ij_created_at b <=?q ij_created_at a) js.

Definition has_status (st : DocumentStatus) (j : IngestionJob) : bool :=
  match st, ij_status j with
  | PENDING, PENDING | PROCESSING, PROCESSING | INDEXED, INDEXED | FAILED, FAILED => true
  | _, _ => false
  end.

(** (total, indexed, failed, processing, chunks, active) *)
Definition get_job_statistics (s : IngestionService) : Z * Z * Z * Z * Z * Z :=
  let count st := Z.of_nat (length (List.filter (has_status st) (jobs s))) in
  (Z.of_nat (length (jobs s)), count INDEXED, count FAILED, count PROCESSING,
   foldr (fun j n => Z.of_nat (length (ij_chunks j)) + n) 0 (jobs s), active_jobs s).
End ingestion.

(** ** Chunks of a fixed size *)

Lemma substring_nil n s : (String.length s <= n)%nat -> forall m, String.substring n m s = EmptyString.
Proof.
  revert n. induction s as [|a s IH]; intros [|n] H m; cbn in *; try lia; destruct m; try done; apply IH; lia.
Qed.

Lemma get_substring s : forall n m p, (p < m)%nat -> String.get p (String.substring n m s) = String.get (p + n) s.
Proof.
  induction s as [|a s IH]; intros n m p Hp; cbn.
  - destruct n, m; cbn; try lia; by destruct p.
  - destruct n as [|n].
    + destruct m as [|m]; [lia|]. destruct p as [|p]; [done|]. cbn. rewrite IH by lia. by rewrite Nat.add_0_r.
    + rewrite IH by lia. destruct p; cbn; [done|]. f_equal. lia.
Qed.

(** Where the [k]-th chunk lies. *)
Definition cut_at (content : string) (size step k : nat) : chunk :=
  let start := Z.of_nat (k * step) in
  let stop := Z.min (start + Z.of_nat size) (Z.of_nat (len content)) in
  {| c_id := chunk_id k; c_content := String.substring (k * step) (Z.to_nat (stop - start)) content;
     start_offset := start; end_offset := stop |}.

Lemma fixed_size_loop_spec content size overlap fuel : forall k,
  (overlap < size)%nat -> (0 < fuel)%nat -> (len content < k * (size - overlap) + fuel)%nat ->
  exists m, fixed_size_loop fuel content size overlap (Z.of_nat (k * (size - overlap))) k
      = Some (map (cut_at content size (size - overlap)) (seq k m))
    /\ (len content <= (k + m) * (size - overlap))%nat
    /\ forall i, (k <= i < k + m)%nat -> (i * (size - overlap) < len content)%nat.
Proof.
  induction fuel as [|fuel IH]; intros k Ho Hpos Hf.
  - lia.
  - cbn [fixed_size_loop]. destruct (Z.ltb_spec (Z.of_nat (k * (size - overlap))) (Z.of_nat (len content))) as [Hl|Hl].
    + destruct (IH (S k)) as (m & E & Hm & Hi); [done|nia|nia|]. exists (S m).
      replace (Z.of_nat (k * (size - overlap)) + (Z.of_nat size - Z.of_nat overlap))
        with (Z.of_nat (S k * (size - overlap))) by nia.
      rewrite E. split_and!; [|nia|].
      * cbn. unfold cut_at at 2. by rewrite Nat2Z.id.
      * intros i Hik. destruct (decide (i = k)) as [->|]; [lia|]. apply Hi. lia.
    + exists 0%nat. split_and!; [done|nia|intros; lia].
Qed.

(** When the overlap is smaller than the size, cutting by size ends and
    the chunks are the ones that start at every multiple of their difference
    inside the text, each the text between its offsets and at most the size
    long; together they cover every character. *)
Theorem fixed_size_covers (content : string) (size overlap : nat) :
  (overlap < size)%nat ->
  exists m, _chunk_fixed_size content size overlap
      = Chunks (map (cut_at content size (size - overlap)) (seq 0 m))
    /\ (forall k, (k < m)%nat <-> (k * (size - overlap) < len content)%nat)
    /\ forall p a, String.get p content = Some a ->
         exists k, (k < m)%nat /\ let c := cut_at content size (size - overlap) k in
           start_offset c <= Z.of_nat p < end_offset c
           /\ String.get (p - Z.to_nat (start_offset c)) (c_content c) = Some a.
Proof.
  intros Ho. set (step := (size - overlap)%nat). assert (Hstep : (0 < step)%nat) by lia.
  destruct (fixed_size_loop_spec content size overlap (S (len content)) 0 Ho) as (m & E & Hm & Hi); [lia..|].
  fold step in E, Hm, Hi. cbn [Nat.mul] in E. exists m. split; [|split].
  - unfold _chunk_fixed_size. change 0 with (Z.of_nat 0). by rewrite E.
  - intros k. split; [intros; apply Hi; lia|]. intros Hk. destruct (decide (k < m)%nat); [done|]. nia.
  - intros p a Hp. assert (Hlen : (p < len content)%nat).
    { clear -Hp. unfold len. revert p Hp. induction content as [|b s IH]; intros [|p] Hp; cbn in *; try done; [lia|].
      apply IH in Hp. lia. }
    pose proof (Nat.div_mod p step) as Hdiv. pose proof (Nat.mod_upper_bound p step) as Hmod.
    exists (p / step)%nat. split; [nia|]. cbn. split; [nia|]. rewrite Nat2Z.id, get_substring by nia.
    rewrite <- Hp. f_equal. nia.
Qed.

(** An overlap as large as the size never advances: no number of turns of the
    loop suffices. *)
Theorem fixed_size_endless (content : string) (size overlap : nat) :
  content <> EmptyString -> (size <= overlap)%nat ->
  (forall fuel, fixed_size_loop fuel content size overlap 0 0 = None) /\ _chunk_fixed_size content size overlap = Endless.
Proof.
  intros Hc Ho. assert (H : forall fuel start n, start <= 0 -> fixed_size_loop fuel content size overlap start n = None).
  { induction fuel as [|fuel IH]; intros start n Hs; [done|]. cbn [fixed_size_loop].
    destruct (Z.ltb_spec start (Z.of_nat (len content))) as [_|Hl]; [rewrite IH by lia; done|].
    destruct content; [done|]. cbn in Hl. lia. }
  split; [intros fuel; by apply H|]. unfold _chunk_fixed_size. by rewrite H.
Qed.

(** ** The recursive chunker *)

(** [w] is part of [s]. *)
Definition holds (w s : string) : Prop := exists a b, s = a +:+ w +:+ b.

Lemma prefix_app p s : String.prefix p s = true -> exists r, s = p +:+ r.
Proof.
  revert s. induction p as [|x p IH]; intros s H; [by exists s|]. destruct s as [|y s]; [done|]. cbn in H.
  destruct (ascii_dec x y) as [->|]; [|done]. destruct (IH s H) as [r ->]. by exists r.
Qed.

(** No character of [sep] is one of [w]. *)
Definition avoids (sep w : string) : Prop := forall a, all_chars (isnt a) sep = true \/ all_chars (isnt a) w = true.

Lemma avoids_tail x sep w : avoids (String x sep) w -> avoids sep w.
Proof. intros H a. destruct (H a) as [Ha|]; [left|by right]. cbn in Ha. by apply andb_true_iff in Ha as [_ ?]. Qed.

Lemma isnt_self a s : all_chars (isnt a) (String a s) = false.
Proof. cbn. unfold isnt. by rewrite bool_decide_eq_true_2. Qed.

(** A separator that begins before [w] also ends before it. *)
Lemma prefix_before sep a w b :
  truthy w = true -> avoids sep w -> String.prefix sep (a +:+ w +:+ b) = true -> (len sep <= len a)%nat.
Proof.
  intros Hw. revert a. induction sep as [|x sep IH]; intros a Hav Hp; [cbn; lia|].
  destruct a as [|y a].
  - destruct w as [|c w]; [done|]. rewrite string_app_nil, string_app_cons in Hp. cbn in Hp.
    destruct (ascii_dec x c) as [->|]; [|done]. destruct (Hav c) as [H|H]; by rewrite isnt_self in H.
  - rewrite string_app_cons in Hp. cbn in Hp. destruct (ascii_dec x y); [|done].
    apply avoids_tail in Hav. specialize (IH a Hav Hp). unfold len in *. cbn. lia.
Qed.

Lemma split_str_nonnil sep k s : split_str sep k s <> [].
Proof.
  revert k. induction s as [|a s IH]; intros k; [done|]. cbn [split_str]. destruct k; [|apply IH].
  case_match; [done|]. specialize (IH 0%nat). by destruct (split_str sep 0 s).
Qed.

(** A word no separator touches stays in one piece. *)
Lemma split_str_holds sep w b : truthy w = true -> truthy sep = true -> avoids sep w -> forall a k,
  (k <= len a)%nat -> exists x, x ∈ split_str sep k (a +:+ w +:+ b) /\ holds w x.
Proof.
  intros Hw Hsep Hav. assert (Hword : forall v u, (exists u0, u0 +:+ v = w) -> exists x l, split_str sep 0 (v +:+ u) = x :: l
    /\ exists c, x = v +:+ c).
  { induction v as [|x v IH]; intros u Hv.
    - rewrite string_app_nil. destruct (split_str sep 0 u) as [|x l] eqn:E; [by apply split_str_nonnil in E|].
      exists x, l. split; [done|]. by exists x.
    - rewrite string_app_cons. cbn [split_str]. destruct (String.prefix sep (String x (v +:+ u))) eqn:Ep.
      + destruct sep as [|y sep]; [done|]. cbn in Ep. destruct (ascii_dec y x) as [->|]; [|done].
        destruct Hv as [u0 Hv]. destruct (Hav x) as [H|H]; [by rewrite isnt_self in H|].
        rewrite <- Hv, all_chars_app in H. apply andb_true_iff in H as [_ H]. by rewrite isnt_self in H.
      + destruct (IH u) as (y & l & -> & c & ->).
        { destruct Hv as [u0 <-]. exists (u0 +:+ String x EmptyString). by rewrite string_app_assoc. }
        eexists _, _. split; [done|]. exists c. done. }
  induction a as [|x a IH]; intros k Hk.
  - assert (k = 0%nat) as -> by (cbn in Hk; lia). rewrite string_app_nil.
    destruct (Hword w b) as (x & l & -> & c & ->); [by exists EmptyString|].
    eexists. split; [apply list_elem_of_here|]. exists EmptyString, c. by rewrite string_app_nil.
  - rewrite string_app_cons. cbn [split_str]. destruct k as [|k].
    + destruct (String.prefix sep (String x (a +:+ w +:+ b))) eqn:Ep.
      * rewrite <- string_app_cons in Ep. apply prefix_before in Ep; [|done..].
        destruct (IH (String.length sep - 1)%nat) as (y & Hy & Hh); [cbn in *; unfold len in *; lia|].
        exists y. split; [|done]. by apply list_elem_of_further.
      * destruct (IH 0%nat) as (y & Hy & Hh); [lia|].
        destruct (split_str sep 0 (a +:+ w +:+ b)) as [|z l]; [by apply elem_of_nil in Hy|].
        apply elem_of_cons in Hy as [->|Hy]; [|exists y; split; [by apply list_elem_of_further|done]].
        exists (String x z). split; [apply list_elem_of_here|]. destruct Hh as (c & d & ->). by exists (String x c), d.
    + apply IH. unfold len in *. cbn in Hk. lia.
Qed.

Lemma holds_app w c s d : holds w s -> holds w (c +:+ s +:+ d).
Proof. intros (a & b & ->). exists (c +:+ a), (b +:+ d). by rewrite !string_app_assoc. Qed.

(** Putting parts together keeps every part. *)
Lemma merge_parts_holds sep size w parts : truthy w = true -> forall current,
  holds w current \/ (exists x, x ∈ parts /\ holds w x) -> exists y, y ∈ merge_parts sep size parts current /\ holds w y.
Proof.
  intros Hw. assert (Hne : forall s, holds w s -> truthy s = true).
  { intros s (a & b & ->). destruct a, w; done. }
  induction parts as [|p parts IH]; intros current H; cbn [merge_parts].
  - destruct H as [H|(x & []%elem_of_nil & _)]. rewrite (Hne _ H). exists current. split; [apply list_elem_of_here|done].
  - case_match.
    + apply IH. destruct H as [H|(x & [->|Hx]%elem_of_cons & Hh)]; [left|left|right; by exists x].
      * rewrite (Hne _ H). pose proof (holds_app w EmptyString current (sep +:+ p) H) as Ha. by rewrite string_app_nil in Ha.
      * case_match; [|done]. pose proof (holds_app w (current +:+ sep) p EmptyString Hh) as Ha.
        by rewrite string_app_nil_r, string_app_assoc in Ha.
    + destruct H as [H|(x & [->|Hx]%elem_of_cons & Hh)].
      * rewrite (Hne _ H). exists current. split; [apply list_elem_of_here|done].
      * destruct (IH p) as (y & Hy & ?); [by left|]. exists y. split; [|done]. apply elem_of_app. by right.
      * destruct (IH p) as (y & Hy & ?); [right; by exists x|]. exists y. split; [|done]. apply elem_of_app. by right.
Qed.

Lemma split_one_holds sep size w s parts :
  truthy w = true -> avoids sep w -> holds w s -> split_one sep size s = Some parts ->
  exists x, x ∈ parts /\ holds w x.
Proof.
  intros Hw Hav Hs. unfold split_one, py_split. case_match; [intros [= <-]; exists s; split; [apply list_elem_of_here|done]|].
  destruct (truthy sep) eqn:Hsep; [|done]. cbn. intros [= <-]. destruct Hs as (a & b & ->).
  destruct (split_str_holds sep w b Hw Hsep Hav a 0) as (x & Hx & Hh); [lia|].
  apply merge_parts_holds; [done|]. right. by exists x.
Qed.

Lemma split_all_None seps size w splits :
  truthy w = true -> (size < len w)%nat -> (forall sep, sep ∈ seps -> avoids sep w) ->
  (exists s, s ∈ splits /\ holds w s) -> split_all (seps ++ [EmptyString]) size splits = None.
Proof.
  intros Hw Hlen. revert splits. induction seps as [|sep seps IH]; intros splits Hav (s & Hs & Hh); cbn [app split_all].
  - destruct (mapM (split_one EmptyString size) splits) as [next|] eqn:E; [|done].
    apply mapM_Some in E. apply list_elem_of_lookup in Hs as [i Hi].
    destruct (Forall2_lookup_l _ _ _ _ _ E Hi) as (parts & _ & Hp).
    unfold split_one in Hp. destruct Hh as (a & b & ->). unfold len in Hp. rewrite !string_length_app in Hp.
    fold (len w) in Hp. destruct (Nat.leb_spec (String.length a + (len w + String.length b)) size); [lia|done].
  - destruct (mapM (split_one sep size) splits) as [next|] eqn:E; [|done]. cbn. apply IH.
    { intros sep' Hs'. apply Hav. by apply list_elem_of_further. }
    apply mapM_Some in E. apply list_elem_of_lookup in Hs as [i Hi].
    destruct (Forall2_lookup_l _ _ _ _ _ E Hi) as (parts & Hpi & Hp).
    destruct (split_one_holds sep size w s parts) as (x & Hx & Hhx); [done|apply Hav, list_elem_of_here|done|done|].
    exists x. split; [|done]. apply list_elem_of_join. exists parts. split; [done|]. by eapply list_elem_of_lookup_2.
Qed.

(** A word without the characters of the default separators. *)
Definition unbroken (w : string) : bool := all_chars (fun a => isnt " " a && isnt line_feed a && isnt "." a) w.

Lemma unbroken_avoids w sep : unbroken w = true -> sep ∈ [newline +:+ newline; newline; ". "; " "]%string -> avoids sep w.
Proof.
  intros Hw Hs a. assert (Hc : forall c, c ∈ [" "; line_feed; "."]%char -> all_chars (isnt c) w = true).
  { intros c Hc. eapply all_chars_impl; [|exact Hw]. intros x Hx. apply andb_true_iff in Hx as [[H1 H2]%andb_true_iff H3].
    repeat (apply elem_of_cons in Hc as [->|Hc]; [done|]). by apply elem_of_nil in Hc. }
  destruct (decide (a ∈ [" "; line_feed; "."]%char)) as [Ha|Ha]; [right; by apply Hc|left].
  assert (Hne : forall c, c ∈ [" "; line_feed; "."]%char -> isnt a c = true).
  { intros c Hin. unfold isnt. rewrite bool_decide_eq_false_2; [done|]. intros ->. done. }
  do 4 (apply elem_of_cons in Hs as [->|Hs];
    [unfold newline; rewrite ?string_app_cons, ?string_app_nil; cbn [all_chars]; rewrite !Hne by set_solver; done|]).
  by apply elem_of_nil in Hs.
Qed.

Lemma split_all_fits seps size splits next :
  split_all (seps ++ [EmptyString]) size splits = Some next -> Forall (fun s => (len s <= size)%nat) next.
Proof.
  revert splits. induction seps as [|sep seps IH]; intros splits; cbn [app split_all];
    (destruct (mapM _ splits) as [parts|] eqn:E; [|done]); [|by apply IH].
  intros [= <-]. apply mapM_Some in E. induction E as [|s p splits parts Hp _ IHE]; [constructor|].
  cbn. apply Forall_app. split; [|exact IHE]. unfold split_one in Hp. destruct (Nat.leb_spec (len s) size); [|done].
  injection Hp as <-. by repeat constructor.
Qed.

Lemma length_substring s : forall n m, (String.length (String.substring n m s) <= m)%nat.
Proof.
  induction s as [|a s IH]; intros n m; [destruct n, m; cbn; lia|].
  destruct n as [|n]; [destruct m as [|m]; cbn; [lia|specialize (IH 0%nat m); lia]|apply IH].
Qed.

Lemma overlapped_fits overlap size splits : Forall (fun s => (len s <= size)%nat) splits -> forall prev n start,
  Forall (fun c => (len (c_content c) <= size + overlap)%nat) (overlapped overlap prev splits n start).
Proof.
  induction 1 as [|s splits Hs _ IH]; intros prev n start; cbn [overlapped]; constructor; [|apply IH].
  cbn [c_content]. destruct prev as [p|]; [|lia]. destruct (0 <? overlap)%nat; [|lia].
  unfold len in *. rewrite string_length_app. destruct (Nat.ltb_spec overlap (String.length p)); [|lia].
  unfold tail_of, len. pose proof (length_substring p (String.length p - overlap) overlap). lia.
Qed.

(** C27: With the default separators the recursive chunker always ends, and no
    chunk is longer than the size and the overlap together; but a text that
    holds a longer word without spaces, line breaks or full stops is refused:
    the last separator is empty, and splitting by it raises. *)
Theorem recursive_fits_or_raises (content : string) (size overlap : nat) :
  match _chunk_recursive content size overlap DEFAULT_SEPARATORS with
  | Chunks l => Forall (fun c => (len (c_content c) <= size + overlap)%nat) l
                /\ forall w, unbroken w = true -> holds w content -> (len w <= size)%nat
  | Raises m => m = "empty separator"%string
  | Endless => False
  end.
Proof.
  unfold _chunk_recursive. change DEFAULT_SEPARATORS with ([newline +:+ newline; newline; ". "; " "]%string ++ [EmptyString]).
  destruct (split_all _ size [content]) as [splits|] eqn:E; [|done]. split.
  - apply overlapped_fits. by eapply split_all_fits.
  - intros w Hw Hh. destruct (Nat.leb_spec (len w) size) as [|Hl]; [done|].
    assert (truthy w = true) as Ht by (destruct w; [cbn in Hl; lia|done]).
    rewrite (split_all_None _ size w) in E; [done|done|done|by intros; apply unbroken_avoids|].
    exists content. split; [apply list_elem_of_here|done].
Qed.

(** ** The service *)

Section service.
Context (config : IngestionConfig) (sha256 : string -> string) (uuid4 : nat -> string).

Abbreviation ingest := (ingest_document config sha256 uuid4).

Lemma process_active id content hash now s :
  let '(r, s') := process config id content hash now s in
  active_jobs s' = active_jobs s /\ (forall e, r = Raise e -> e = RunsForever)
  /\ content_hashes s' = content_hashes s ++ match hash with Some h => [h] | None => [] end.
Proof.
  unfold process, update_job. cbv [mbind io_bind modify mret io_ret throw].
  destruct hash as [h|]; destruct (_chunk_document config content); try destruct (progress_callback config) as [f|];
    try destruct (f _ _ _); cbn; rewrite ?app_nil_r;
    (split; [done|]; split; [by intros e [=]|done]).
Qed.

(** However a call of the service ends, it gives its place among the
    active jobs back, and what it raised is an error of the service; only a
    chunker that never ends keeps the place. *)
Theorem ingest_gives_back (now : Q) (content source : string) (tenant document_id : option string)
    (metadata : option (list (string * string))) (s : IngestionService) :
  let '(r, s') := ingest now content source tenant document_id metadata s in
  active_jobs s' = active_jobs s + match r with Raise RunsForever => 1 | _ => 0 end.
Proof.
  unfold ingest_document. set (fmt := _detect_format _ _ _). destruct (negb (supported config fmt)); [cbn; lia|].
  destruct (max_document_size config <? Z.of_nat (len content)); [cbn; lia|]. cbv zeta.
  set (hash := if deduplication_enabled config then _ else None).
  cbv [mbind io_bind get_st]. set (dup := match hash with Some h => _ | None => _ end).
  assert (Hdup : dup s = (Ret tt, s) \/ exists h, dup s = (Raise (DuplicateDocument h), s)).
  { unfold dup. destruct hash as [h|]; [|by left]. case_decide; [right; by eexists|by left]. }
  destruct Hdup as [->|[h ->]]; [|cbn; lia]. cbv beta iota.
  destruct (max_concurrent_jobs config <=? active_jobs s); [cbn; lia|]. cbv [mret io_ret modify store_job throw]. cbv beta iota.
  match goal with |- context [process config ?i content hash now ?s0] =>
    pose proof (process_active i content hash now s0) as Hp; destruct (process config i content hash now s0) as [[[l|m]|e] s1]
  end; destruct Hp as (Ha & He & _); cbn in Ha |- *; rewrite ?Ha; try lia.
  rewrite (He e eq_refl). lia.
Qed.

Lemma ingest_remembers now content source tenant document_id metadata s :
  deduplication_enabled config = true -> supported config (_detect_format config source (Some content)) = true ->
  Z.of_nat (len content) <= max_document_size config -> active_jobs s < max_concurrent_jobs config ->
  _compute_content_hash sha256 content source
    ∈ content_hashes (ingest now content source tenant document_id metadata s).2.
Proof.
  intros Hd Hs Hl Ha. unfold ingest_document. rewrite Hs, Hd. cbn [negb].
  destruct (Z.ltb_spec (max_document_size config) (Z.of_nat (len content))); [lia|]. cbv zeta.
  set (h := _compute_content_hash sha256 content source). cbv [mbind io_bind get_st].
  destruct (decide (h ∈ content_hashes s)); [done|]. cbv [mret io_ret]. cbv beta iota.
  destruct (Z.leb_spec (max_concurrent_jobs config) (active_jobs s)); [lia|]. cbv [mret io_ret modify store_job throw]. cbv beta iota.
  match goal with |- context [process config ?i content ?hh now ?s0] =>
    pose proof (process_active i content hh now s0) as Hp; destruct (process config i content hh now s0) as [[[l|m]|e] s1]
  end; destruct Hp as (_ & _ & Hh); cbn in Hh |- *; rewrite Hh; apply elem_of_app; right; apply list_elem_of_here.
Qed.

(** With deduplication, once a document was given to the chunker, whether
    it was indexed or failed, every document of the same source that agrees
    with it on the first 5000 characters is refused as a duplicate: one that
    failed cannot be tried again, and a longer one that differs later is
    lost. *)
Theorem tried_is_duplicate (now later : Q) (content content' source : string) (tenant tenant' id id' : option string)
    (metadata metadata' : option (list (string * string))) (s : IngestionService) :
  deduplication_enabled config = true -> active_jobs s < max_concurrent_jobs config ->
  (forall c, c ∈ [content; content'] -> supported config (_detect_format config source (Some c)) = true
                                        /\ Z.of_nat (len c) <= max_document_size config) ->
  String.substring 0 5000 content = String.substring 0 5000 content' ->
  let s' := (ingest now content source tenant id metadata s).2 in
  ingest later content' source tenant' id' metadata' s'
  = (Raise (DuplicateDocument (String.substring 0 16 (_compute_content_hash sha256 content source))), s').
Proof.
  intros Hd Ha Hc Hp s'. destruct (Hc content) as [H1 H2]; [apply list_elem_of_here|].
  destruct (Hc content') as [H3 H4]; [apply list_elem_of_further, list_elem_of_here|].
  pose proof (ingest_remembers now content source tenant id metadata s Hd H1 H2 Ha) as Hin. fold s' in Hin.
  assert (Hh : _compute_content_hash sha256 content' source = _compute_content_hash sha256 content source)
    by (unfold _compute_content_hash; by rewrite Hp).
  unfold ingest_document. rewrite H3, Hd. cbn [negb].
  destruct (Z.ltb_spec (max_document_size config) (Z.of_nat (len content'))); [lia|]. cbv zeta.
  cbv [mbind io_bind get_st]. rewrite Hh. by rewrite decide_True.
Qed.
End service.

(** ** Runs *)

Module IngestionSample.
Definition sha (s : string) : string := "0123456789abcdef" +:+ s.
Definition id_of (n : nat) : string := "job-" +:+ pretty (Z.of_nat n).
Definition small (st : ChunkingStrategy) (size overlap : nat) : IngestionConfig := {|
  chunking_strategy := st; chunk_size := size; chunk_overlap := overlap; separators := DEFAULT_SEPARATORS;
  max_document_size := 100; supported_formats := SUPPORTED_FORMATS; max_concurrent_jobs := 1;
  deduplication_enabled := true; progress_callback := None |}.
Definition ingest (c : IngestionConfig) (text : string) (s : IngestionService) :=
  ingest_document c sha id_of 0 text "a.txt" None None None s.
Definition texts (c : chunking) : list string := match c with Chunks l => map c_content l | _ => [] end.
End IngestionSample.

(** The chunks overlap what came before them, and joined parts may be longer
    than the size by the separators between them. *)
Example sentences_cut :
  IngestionSample.texts (_chunk_by_sentence "One two. Three! Four five six." 16) = ["One two. Three!"; "Four five six."]%string.
Proof. vm_compute. reflexivity. Qed.
Example recursive_cut :
  IngestionSample.texts (_chunk_recursive "aaa bbb ccc ddd" 7 2 DEFAULT_SEPARATORS) = ["aaa bbb"; "bbccc ddd"]%string.
Proof. vm_compute. reflexivity. Qed.

(** A word longer than the size fails the document, which is a duplicate from
    then on. *)
Example long_word_is_lost :
  let c := IngestionSample.small RECURSIVE 5 1 in
  let '(r1, s1) := IngestionSample.ingest c "see aaaaaaaaaa" new_service in
  let '(r2, s2) := IngestionSample.ingest c "see aaaaaaaaaa" s1 in
  r1 = Raise (IngestionError "empty separator" "a.txt") /\ map ij_status (jobs s1) = [FAILED]
  /\ r2 = Raise (DuplicateDocument "0123456789abcdef").
Proof. vm_compute. by split_and!. Qed.

(** ** Witnesses *)

Lemma fixed_size_covers_witness :
  exists m, _chunk_fixed_size "abcdefgh" 4 1 = Chunks (map (cut_at "abcdefgh" 4 3) (seq 0 m)) /\ m = 3%nat.
Proof.
  destruct (fixed_size_covers "abcdefgh" 4 1 ltac:(lia)) as (m & E & Hm & _). exists m. split; [exact E|].
  destruct (Hm 2%nat) as [_ H2]. destruct (Hm 3%nat) as [H3 _]. cbn in H2, H3.
  destruct (decide (3 < m)%nat) as [Hlt|]; [specialize (H3 Hlt); lia|]. specialize (H2 ltac:(lia)). lia.
Defined.

Lemma fixed_size_endless_witness : _chunk_fixed_size "abc" 2 2 = Endless.
Proof. apply (fixed_size_endless "abc" 2 2); [discriminate|lia]. Defined.

Lemma tried_is_duplicate_witness :
  let c := IngestionSample.small RECURSIVE 5 1 in
  let s' := (ingest_document c IngestionSample.sha IngestionSample.id_of 0 "see aaaaaaaaaa" "a.txt" None None None new_service).2 in
  ingest_document c IngestionSample.sha IngestionSample.id_of 60 "see aaaaaaaaaa" "a.txt" None None None s'
  = (Raise (DuplicateDocument "0123456789abcdef"), s').
Proof.
  apply (tried_is_duplicate (IngestionSample.small RECURSIVE 5 1) IngestionSample.sha IngestionSample.id_of 0 60
    "see aaaaaaaaaa" "see aaaaaaaaaa" "a.txt" None None None None None None new_service).
  - reflexivity.
  - reflexivity.
  - intros c [->|[->|[]%elem_of_nil]%elem_of_cons]%elem_of_cons; split; vm_compute; done.
  - reflexivity.
Defined.
