(* ===== verification/Retrieval.v ===== *)
(** * Retrieval (backend/app/application/retrieval/, modules/rag/service.py)

    The in-memory vector store (adapters/vectorstore/provider.py), the lexical
    index and its fusion with the vector search (hybrid.py), the rerankers
    (rerankers.py), the metrics of the recall evaluations (metrics.py) and the
    retrieval service with its cache (service.py).  Embeddings, the square
    root, the logarithm, the format of a score, the order of a set and
    cross-encoders are parameters; instants are seconds, tenants are UUIDs in
    their canonical text. *)

From S2P Require Import Prelude Text Json.

(** ** Documents *)

Record VectorDocument := {
  vd_id : string;
  vd_content : string;
  vd_embedding : list Q;
  vd_metadata : list (string * json);
}.

Record VectorSearchResult := { sr_document : VectorDocument; sr_score : Q }.

Record VectorSearchConfig := { vs_top_k : nat; vs_threshold : Q; vs_filter : list (string * json) }.

(** What is searched for. *)
Record KnowledgeQuery := {
  kq_text : string;
  kq_tenant_id : option string;
  kq_allowed_sources : list string;
  kq_filters : list (string * json);
}.

(** Sorted by decreasing score, equal scores in their order. *)
Definition by_score {A} (score : A -> Q) (l : list A) : list A := sort_by (fun a b => score b <=?q score a) l.

Definition sum_by {A} (f : A -> Q) (l : list A) : Q := foldr (fun x acc => (f x + acc)%Q) 0%Q l.

Section values.
(** [str] of a list or a dict. *)
Context (repr : json -> string).

(** [str(v)] *)
Definition py_str (v : json) : string :=
  match v with
  | JNull => "None"
  | JBool true => "True"
  | JBool false => "False"
  | JNum z => pretty z
  | JStr s => s
  | v => repr v
  end.

(** [str(d.get(k))] *)
Definition str_get (k : string) (d : list (string * json)) : string := py_str (default JNull (dict_get k d)).

Definition is_source_allowed (q : KnowledgeQuery) (source : string) : bool :=
  match kq_allowed_sources q with [] => true | l => bool_decide (source ∈ l) end.

(** ** The in-memory vector store *)

Context (sqrt : Q -> Q).

Definition _cosine_similarity (a b : list Q) : Q :=
  if match a, b with [], _ | _, [] => true | _, _ => negb (bool_decide (length a = length b)) end then 0%Q
  else
    let dot := sum_by (fun p => p.1 * p.2)%Q (zip a b) in
    let norm_a := sum_by (fun x => x * x)%Q a in
    let norm_b := sum_by (fun x => x * x)%Q b in
    if Qeq_bool norm_a 0 || Qeq_bool norm_b 0 then 0%Q else (dot / (sqrt norm_a * sqrt norm_b))%Q.

Definition _matches_filter (metadata filter : list (string * json)) : bool :=
  forallb (fun kv => bool_decide (str_get kv.1 metadata = py_str kv.2)) filter.

(** Documents by id, in the order of their insertion. *)
Definition store := list (string * VectorDocument).

Definition add_documents (docs : list VectorDocument) (s : store) : list string * store :=
  (map vd_id docs, foldl (fun s d => dict_set (vd_id d) d s) s docs).

Definition search (query : list Q) (c : VectorSearchConfig) (s : store) : list VectorSearchResult :=
  let scored := omap (fun d => if _matches_filter (vd_metadata d) (vs_filter c)
                               then let score := _cosine_similarity query (vd_embedding d) in
                                    if vs_threshold c <=?q score then Some {| sr_document := d; sr_score := score |} else None
                               else None) (map snd s) in
  firstn (vs_top_k c) (by_score sr_score scored).

Definition delete_documents (ids : list string) (s : store) : store := foldl (fun s id => dict_pop id s) s ids.

(** A numeric [stored_at] before the cutoff, if one is given. *)
Definition stored_before (before : option Z) (metadata : list (string * json)) : bool :=
  match before with
  | None => true
  | Some t => match dict_get "stored_at" metadata with
              | Some (JNum z) => z <? t
              | Some (JBool b) => Z.b2z b <? t
              | _ => false
              end
  end.

Definition delete_matching (filter : list (string * json)) (before : option Z) (s : store) : Z * store :=
  let gone d := _matches_filter (vd_metadata d) filter && stored_before before (vd_metadata d) in
  (Z.of_nat (length (List.filter (fun kv => gone kv.2) s)), List.filter (fun kv => negb (gone kv.2)) s).

Definition get_document (id : string) (s : store) : option VectorDocument := dict_get id s.

(** ** [RAGService] *)

(** [dict.update] *)
Definition dict_update {A} (d new : list (string * A)) : list (string * A) :=
  foldl (fun d kv => dict_set kv.1 kv.2 d) d new.

(** The embedding model; [None]: it raises. *)
Context (embed : string -> option (list Q)).

Record KnowledgeDocument := {
  kd_id : string;
  kd_content : string;
  kd_source : string;
  kd_created_at : option string;         (* as [isoformat] prints it *)
  kd_metadata : list (string * json);
}.

Definition json_opt (o : option string) : json := match o with Some s => JStr s | None => JNull end.

Definition vector_document (tenant : option string) (d : KnowledgeDocument) (embedding : list Q) : VectorDocument := {|
  vd_id := kd_id d; vd_content := kd_content d; vd_embedding := embedding;
  vd_metadata := dict_update [("tenant_id", json_opt tenant); ("source", JStr (kd_source d));
                              ("created_at", json_opt (kd_created_at d))] (kd_metadata d) |}.

(** The ids; [None]: the model raised and nothing was stored. *)
Definition rag_add_documents (tenant : option string) (docs : list KnowledgeDocument) (s : store) :
    option (list string) * store :=
  match mapM embed (map kd_content docs) with
  | None => (None, s)
  | Some es => let '(ids, s') := add_documents (zip_with (vector_document tenant) docs es) s in (Some ids, s')
  end.

Definition tenant_filter (own queried : option string) : list (string * json) :=
  match own, queried with
  | Some t, _ => [("tenant_id", JStr t)]
  | None, Some t => [("tenant_id", JStr t)]
  | None, None => []
  end.

(** [RAGService.search] of a service of a tenant *)
Definition rag_search (own : option string) (q : KnowledgeQuery) (top_k : nat) (threshold : Q) (s : store) :
    option (list VectorSearchResult) :=
  query ← embed (kq_text q);
  let results := search query {| vs_top_k := top_k; vs_threshold := threshold;
                                 vs_filter := dict_update (tenant_filter own (kq_tenant_id q)) (kq_filters q) |} s in
  Some (match kq_allowed_sources q with
        | [] => results
        | _ => List.filter (fun r => is_source_allowed q (py_str (default (JStr EmptyString)
                                                                    (dict_get "source" (vd_metadata (sr_document r)))))) results
        end).

(** ** The lexical index *)

(** [re.findall("[a-z0-9]+", text.lower())] *)
Definition is_token_char (a : ascii) : bool :=
  is_digit_char a || let n := Ascii.nat_of_ascii a in ((97 <=? n) && (n <=? 122))%nat.

Definition tokenize (text : string) : list string := runs_of is_token_char EmptyString (lower text).

Record stored_doc := { sd_text : string; sd_tenant : string; sd_metadata : list (string * json) }.

Record BM25Index := {
  bm_k1 : Q;
  bm_b : Q;
  bm_docs : list (string * stored_doc);
  bm_len : list (string * Z);
  bm_freq : list (string * list (string * Z));
  bm_avgdl : Q;
  bm_n : Z;
}.

Definition new_index : BM25Index := {|
  bm_k1 := 3 # 2; bm_b := 3 # 4; bm_docs := []; bm_len := []; bm_freq := []; bm_avgdl := 0; bm_n := 0 |}.

(** Every posting of a document goes; a term without postings goes too. *)
Definition drop_postings (id : string) (freq : list (string * list (string * Z))) : list (string * list (string * Z)) :=
  List.filter (fun tp => negb (bool_decide (length tp.2 = 0%nat))) (map (fun tp => (tp.1, dict_pop id tp.2)) freq).

Definition _remove (id : string) (x : BM25Index) : bool * BM25Index :=
  match dict_get id (bm_docs x) with
  | None => (false, x)
  | Some _ =>
      let length := default 0 (dict_get id (bm_len x)) in
      (true, {| bm_k1 := bm_k1 x; bm_b := bm_b x; bm_docs := dict_pop id (bm_docs x); bm_len := dict_pop id (bm_len x);
                bm_freq := drop_postings id (bm_freq x);
                bm_avgdl := if 1 <? bm_n x
                            then ((bm_avgdl x * inject_Z (bm_n x) - inject_Z length) / inject_Z (bm_n x - 1))%Q else 0%Q;
                bm_n := bm_n x - 1 |})
  end.

(** One more occurrence of a term. *)
Definition count_term (id : string) (freq : list (string * list (string * Z))) (t : string) :
    list (string * list (string * Z)) :=
  let per_doc := default [] (dict_get t freq) in
  dict_set t (dict_set id (default 0 (dict_get id per_doc) + 1) per_doc) freq.

Definition upsert (id text : string) (tenant : option string) (metadata : option (list (string * json))) (x : BM25Index) :
    BM25Index :=
  let x := (_remove id x).2 in
  let tokens := tokenize text in
  let n := bm_n x + 1 in
  {| bm_k1 := bm_k1 x; bm_b := bm_b x;
     bm_docs := dict_set id {| sd_text := text; sd_tenant := default EmptyString tenant;
                               sd_metadata := default [] metadata |} (bm_docs x);
     bm_len := dict_set id (Z.of_nat (length tokens)) (bm_len x);
     bm_freq := foldl (count_term id) (bm_freq x) tokens;
     bm_avgdl := if n =? 0 then 0%Q
                 else ((bm_avgdl x * inject_Z (n - 1) + inject_Z (Z.of_nat (length tokens))) / inject_Z n)%Q;
     bm_n := n |}.

Definition remove (id : string) (x : BM25Index) : bool * BM25Index := _remove id x.

(** The natural logarithm, and the order in which a set is iterated. *)
Context (ln : Q -> Q) (set_order : list string -> list string).

Definition idf (x : BM25Index) (df : Z) : Q :=
  ln (1 + (inject_Z (bm_n x - df) + (1 # 2)) / (inject_Z df + (1 # 2)))%Q.

Definition term_score (x : BM25Index) (i : Q) (id : string) (count : Z) : Q :=
  let len := inject_Z (default 0 (dict_get id (bm_len x))) in
  let denom := (inject_Z count + bm_k1 x * (1 - bm_b x + bm_b x * len / bm_avgdl x))%Q in
  (i * (inject_Z count * (bm_k1 x + 1)) / denom)%Q.

(** [tenant_id is not None and self._docs[doc_id][1] != tenant_id] *)
Definition of_tenant (x : BM25Index) (tenant : option string) (id : string) : bool :=
  match tenant with
  | None => true
  | Some t => match dict_get id (bm_docs x) with Some d => bool_decide (sd_tenant d = t) | None => false end
  end.

Definition add_term (x : BM25Index) (tenant : option string) (scores : list (string * Q)) (t : string) : list (string * Q) :=
  let postings := default [] (dict_get t (bm_freq x)) in
  let df := Z.of_nat (length postings) in
  if df =? 0 then scores
  else foldl (fun scores p => if of_tenant x tenant p.1
                              then dict_set p.1 (default 0 (dict_get p.1 scores) + term_score x (idf x df) p.1 p.2)%Q scores
                              else scores) scores postings.

Definition bm25_search (x : BM25Index) (query : string) (tenant : option string) (top_k : nat) : list (string * Q) :=
  match tokenize query with
  | [] => []
  | terms => if bm_n x =? 0 then []
             else firstn top_k (by_score snd (foldl (add_term x tenant) [] (set_order (remove_dups terms))))
  end.

Definition document (id : string) (x : BM25Index) : option stored_doc := dict_get id (bm_docs x).

(** Chunks by their ids and texts. *)
Definition index_chunks (chunks : list (string * string)) (tenant document_id source : string) (x : BM25Index) :
    Z * BM25Index :=
  (Z.of_nat (length chunks),
   foldl (fun x c => upsert (document_id +:+ ":" +:+ c.1) c.2 (Some tenant)
                       (Some [("tenant_id", JStr tenant); ("document_id", JStr document_id); ("source", JStr source)]) x)
         x chunks).

(** ** Fusion *)

(** One channel: its ids by rank, each worth [1 / (k + rank)]. *)
Definition add_ranks (k : Z) (fused : list (string * Q)) (ids : list string) : list (string * Q) :=
  foldl (fun f p => dict_set p.2 (default 0 (dict_get p.2 f) + 1 / inject_Z (k + Z.of_nat p.1))%Q f)
        fused (zip (seq 1 (length ids)) ids).

Definition lexical_result (id : string) (d : stored_doc) : VectorSearchResult := {|
  sr_document := {| vd_id := id; vd_content := sd_text d; vd_embedding := [];
                    vd_metadata := dict_set "tenant_id" (JStr (sd_tenant d)) (sd_metadata d) |};
  sr_score := 0 |}.

Definition add_payload (index : option BM25Index) (payload : list (string * VectorSearchResult)) (id : string) :
    list (string * VectorSearchResult) :=
  match dict_get id payload, index with
  | None, Some x => match document id x with
                    | Some d => dict_set id (lexical_result id d) payload
                    | None => payload
                    end
  | _, _ => payload
  end.

Definition with_score (s : Q) (r : VectorSearchResult) : VectorSearchResult := {|
  sr_document := sr_document r; sr_score := s |}.

Definition reciprocal_rank_fusion (vector : list VectorSearchResult) (lexical : list (string * Q)) (k : Z)
    (index : option BM25Index) : list VectorSearchResult :=
  let ids := map (fun r => vd_id (sr_document r)) vector in
  let fused := add_ranks k (add_ranks k [] ids) (map fst lexical) in
  let payload := foldl (fun p r => dict_set (vd_id (sr_document r)) r p) [] vector in
  let payload := foldl (add_payload index) payload (map fst lexical) in
  omap (fun p => with_score p.2 <$> dict_get p.1 payload) (by_score snd fused).

(** ** Rerankers *)

(** [score_batch]; [None]: it raises. *)
Definition Reranker := string -> list string -> option (list Q).

(** [set(text.lower().split())] *)
Definition term_set (text : string) : list string := remove_dups (words (lower text)).

Definition overlap (query text : list string) : Z := Z.of_nat (length (List.filter (fun t => bool_decide (t ∈ text)) query)).

Definition keyword_score (query : list string) (text : string) : Q :=
  (inject_Z (overlap query (term_set text)) / inject_Z (Z.of_nat (length query)))%Q.

(** The prediction of a cross-encoder, zeros when it raises. *)
Definition CrossEncoderReranker (predict : string -> list string -> option (list Q)) : Reranker := fun query texts =>
  match texts with
  | [] => Some []
  | _ => Some (default (repeat 0%Q (length texts)) (predict query texts))
  end.

Definition ScoreFusionReranker : Reranker := fun query texts =>
  match term_set query with
  | [] => Some (repeat 1%Q (length texts))
  | terms => Some (map (keyword_score terms) texts)
  end.

Definition apply_rerank (results : list VectorSearchResult) (query : string) (r : option Reranker) : list VectorSearchResult :=
  match results, r with
  | [], _ | _, None => results
  | _, Some r =>
      match r query (map (fun x => vd_content (sr_document x)) results) with
      | Some scores => if bool_decide (length scores = length results)
                       then map fst (by_score snd (zip results scores)) else results
      | None => results
      end
  end.

(** [score_fusion_rerank]; [_simple_rerank] is the same at the default
    weights. *)
Definition score_fusion_rerank (vector_weight lexical_weight : Q) (results : list VectorSearchResult) (query : string) :
    list VectorSearchResult :=
  let terms := term_set query in
  by_score (fun r => match terms with
                     | [] => sr_score r
                     | _ => (sr_score r * vector_weight
                             + keyword_score terms (vd_content (sr_document r)) * lexical_weight)%Q
                     end) results.

Definition _simple_rerank (results : list VectorSearchResult) (query : string) : list VectorSearchResult :=
  match term_set query with [] => results | _ => score_fusion_rerank (7 # 10) (3 # 10) results query end.

(** ** Contexts *)

(** [f"{score:.2f}"] *)
Context (two_digits : Q -> string).

Definition newline : string := String (Ascii.ascii_of_nat 10) EmptyString.

Definition source_of (d : VectorDocument) : string := py_str (default (JStr "Unknown") (dict_get "source" (vd_metadata d))).

Definition numbered (l : list VectorSearchResult) : list (string * VectorSearchResult) :=
  zip (map (fun n => pretty (Z.of_nat n)) (seq 1 (length l))) l.

Definition _build_context (l : list VectorSearchResult) : string :=
  join (newline +:+ newline) (map (fun '(i, r) =>
    "[Source " +:+ i +:+ ": " +:+ source_of (sr_document r) +:+ "] (Score: " +:+ two_digits (sr_score r) +:+ ")" +:+ newline
    +:+ vd_content (sr_document r)) (numbered l)).

(** [RAGService.retrieve_context] *)
Definition retrieve_context (own : option string) (query : string) (top_k : nat) (threshold : Q) (s : store) : option string :=
  results ← rag_search own {| kq_text := query; kq_tenant_id := None; kq_allowed_sources := []; kq_filters := [] |}
                       top_k threshold s;
  Some (join (newline +:+ newline) (map (fun '(i, r) =>
    "[Source " +:+ i +:+ "] (Score: " +:+ two_digits (sr_score r) +:+ ")" +:+ newline +:+ vd_content (sr_document r))
    (numbered results))).

Definition _build_spotlight_context (l : list VectorSearchResult) : string :=
  join (newline +:+ newline) (map (fun '(i, r) =>
    "<<BEGIN_SOURCE_" +:+ i +:+ ">>" +:+ newline
    +:+ "[Source " +:+ i +:+ ": " +:+ source_of (sr_document r) +:+ ", Relevance: " +:+ two_digits (sr_score r) +:+ "]" +:+ newline
    +:+ vd_content (sr_document r) +:+ newline +:+ "<<END_SOURCE_" +:+ i +:+ ">>") (numbered l)).

(** ** The service *)

Record RetrievalConfig := {
  rc_top_k : nat;
  rc_threshold : Q;
  rc_spotlighting : bool;
  rc_filter_by_tenant : bool;
  rc_max_context : nat;
}.

Record RetrievalServiceConfig := {
  rs_defaults : RetrievalConfig;
  cache_ttl_seconds : Q;
  hybrid_lexical_k : nat;
}.

(** A result; the threshold and the latency in its metadata are left out. *)
Record RetrievalResult := {
  rr_query : string;
  rr_results : list VectorSearchResult;
  rr_context : string;
  rr_total : Z;
  rr_filtered : Z;
  rr_metadata : list (string * json);
}.

Record retrieval := {
  documents : store;
  retrieval_cache : list (string * (RetrievalResult * Q));
  lexical_index : option BM25Index;
}.

(** The embedding model raised. *)
Inductive retrieval_exc := EmbeddingFailed.

Context (config : RetrievalServiceConfig) (own_tenant : option string) (reranker : option Reranker).

Abbreviation retrieving A := (io retrieval retrieval_exc A).

Definition set_cache (l : list (string * (RetrievalResult * Q))) (w : retrieval) : retrieval := {|
  documents := documents w; retrieval_cache := l; lexical_index := lexical_index w |}.

(** [f"{tenant_id}:{query_text.strip()}"] *)
Definition cache_key (tenant : option string) (query : string) : string :=
  (match tenant with Some t => t | None => "None" end) +:+ ":" +:+ strip query.

Definition of_this_tenant (tenant : string) (r : VectorSearchResult) : bool :=
  match dict_get "tenant_id" (vd_metadata (sr_document r)) with
  | Some (JStr t) => bool_decide (t = tenant)
  | _ => false
  end.

(** The wall clock at a cache lookup; [custom_config] replaces the defaults. *)
Definition retrieve (now : Q) (query : string) (tenant : option string) (filters : list (string * json))
    (custom : option RetrievalConfig) (skip_cache : bool) (allowed_sources : list string) : retrieving RetrievalResult :=
  if negb (truthy query) || negb (truthy (strip query))
  then mret {| rr_query := query; rr_results := []; rr_context := EmptyString; rr_total := 0; rr_filtered := 0; rr_metadata := [] |}
  else
    let key := cache_key tenant query in
    w ← get_st;
    let cached := if skip_cache then None else
      match dict_get key (retrieval_cache w) with
      | Some (r, at_) => if (now - at_ <?q cache_ttl_seconds config)%Q then Some r else None
      | None => None
      end in
    match cached with
    | Some r => mret r
    | None =>
        let c := default (rs_defaults config) custom in
        match rag_search own_tenant {| kq_text := query; kq_tenant_id := tenant; kq_allowed_sources := allowed_sources;
                                       kq_filters := filters |} (rc_top_k c) (rc_threshold c) (documents w) with
        | None => throw EmbeddingFailed
        | Some results =>
            let filtered := match tenant with
                            | Some t => if rc_filter_by_tenant c then List.filter (of_this_tenant t) results else results
                            | None => results
                            end in
            let context := match filtered with
                           | [] => _build_context filtered
                           | _ => if rc_spotlighting c then _build_spotlight_context filtered else _build_context filtered
                           end in
            let context := if (negb (rc_max_context c =? 0) && (rc_max_context c <? String.length context))%nat
                           then String.substring 0 (rc_max_context c) context +:+ newline +:+ "... [truncated]"
                           else context in
            let r := {| rr_query := query; rr_results := filtered; rr_context := context;
                        rr_total := Z.of_nat (length results); rr_filtered := Z.of_nat (length filtered);
                        rr_metadata := [("top_k", JNum (Z.of_nat (rc_top_k c)))] |} in
            _ ← modify (fun w => set_cache (dict_set key (r, now) (retrieval_cache w)) w);
            mret r
        end
    end.

(** [RetrievalConfig(top_k=..., score_threshold=0.2)] *)
Definition wide (top_k : nat) : RetrievalConfig := {|
  rc_top_k := top_k; rc_threshold := 1 # 5; rc_spotlighting := true; rc_filter_by_tenant := true; rc_max_context := 4096 |}.

Definition retrieve_with_reranking (now : Q) (query : string) (tenant : option string) (top_k : nat) : retrieving RetrievalResult :=
  initial ← retrieve now query tenant [] (Some (wide (top_k * 3))) false [];
  let reranked := match reranker with
                  | Some _ => apply_rerank (rr_results initial) query reranker
                  | None => _simple_rerank (rr_results initial) query
                  end in
  let final := firstn top_k reranked in
  mret {| rr_query := query; rr_results := final; rr_context := _build_spotlight_context final;
          rr_total := rr_total initial; rr_filtered := Z.of_nat (length final);
          rr_metadata := [("reranked", JBool true); ("candidates_evaluated", JNum (Z.of_nat (length reranked)))] |}.

Definition retrieve_hybrid (now : Q) (query : string) (tenant : option string) (top_k : nat) (allowed_sources : list string) :
    retrieving RetrievalResult :=
  v ← retrieve now query tenant [] (Some (wide (Nat.max (top_k * 3) (hybrid_lexical_k config)))) false allowed_sources;
  w ← get_st;
  let '(final, metadata) :=
    match lexical_index w with
    | None => (firstn top_k (rr_results v), [("hybrid", JBool false); ("reason", JStr "no_lexical_index")])
    | Some x =>
        let lexical := bm25_search x query tenant (hybrid_lexical_k config) in
        let fused := reciprocal_rank_fusion (rr_results v) lexical 60 (Some x) in
        let fused := match reranker with Some _ => apply_rerank fused query reranker | None => fused end in
        (firstn top_k fused,
         [("hybrid", JBool true); ("vector_candidates", JNum (Z.of_nat (length (rr_results v))));
          ("lexical_candidates", JNum (Z.of_nat (length lexical)))])
    end in
  mret {| rr_query := query; rr_results := final; rr_context := _build_spotlight_context final;
          rr_total := Z.of_nat (length final); rr_filtered := Z.of_nat (length final); rr_metadata := metadata |}.

(** The results whose ids were not seen, in their order. *)
Definition add_unseen (all l : list VectorSearchResult) : list VectorSearchResult :=
  foldl (fun all r => if existsb (fun r' => bool_decide (vd_id (sr_document r') = vd_id (sr_document r))) all
                      then all else all ++ [r]) all l.

Fixpoint query_all (now : Q) (tenant : option string) (queries : list string) (all : list VectorSearchResult) :
    retrieving (list VectorSearchResult) :=
  match queries with
  | [] => mret all
  | q :: queries => r ← retrieve now q tenant [] None true []; query_all now tenant queries (add_unseen all (rr_results r))
  end.

Definition multi_query_retrieval (now : Q) (query : string) (tenant : option string) (variations : list string) (top_k : nat) :
    retrieving RetrievalResult :=
  all ← query_all now tenant (query :: variations) [];
  let final := firstn top_k (by_score sr_score all) in
  mret {| rr_query := query; rr_results := final; rr_context := _build_spotlight_context final;
          rr_total := Z.of_nat (length all); rr_filtered := Z.of_nat (length final);
          rr_metadata := [("multi_query", JBool true); ("variations", JNum (Z.of_nat (S (length variations))))] |}.

Definition invalidate_cache (tenant : option string) : retrieving Z := fun w =>
  let kept := match tenant with
              | Some t => List.filter (fun kv => negb (String.prefix (t +:+ ":") kv.1)) (retrieval_cache w)
              | None => []
              end in
  (Ret (Z.of_nat (length (retrieval_cache w)) - Z.of_nat (length kept)), set_cache kept w).
End values.

(** ** Metrics of the recall evaluations *)

Definition relevant_in (relevant : list string) (id : string) : bool := bool_decide (id ∈ relevant).

Definition top (k : option nat) (ids : list string) : list string := match k with Some k => firstn k ids | None => ids end.

Definition ratio (a b : nat) : Q := (inject_Z (Z.of_nat a) / inject_Z (Z.of_nat b))%Q.

(** [relevant] is a set: it has no duplicates. *)
Definition recall_at_k (ids relevant : list string) (k : option nat) : Q :=
  match relevant with
  | [] => 0%Q
  | _ => ratio (length (List.filter (relevant_in relevant) (top k ids))) (length relevant)
  end.

Definition precision_at_k (ids relevant : list string) (k : option nat) : Q :=
  match top k ids with
  | [] => 0%Q
  | l => ratio (length (List.filter (relevant_in relevant) l)) (length l)
  end.

Definition dcg (relevant ids : list string) : Q :=
  sum_by (fun p => if relevant_in relevant p.2 then 1 / inject_Z (Z.of_nat p.1) else 0)%Q (zip (seq 1 (length ids)) ids).

Definition ndcg_at_k (ids relevant : list string) (k : option nat) : Q :=
  match top k ids with
  | [] => 0%Q
  | l => let ideal := dcg relevant (firstn (length l) (sort_by String.leb relevant)) in
         if (0 <?q ideal)%Q then (dcg relevant l / ideal)%Q else 0%Q
  end.

(** The reciprocal rank of the first hit. *)
Fixpoint first_hit (relevant ids : list string) (rank : nat) : Q :=
  match ids with
  | [] => 0
  | id :: ids => if relevant_in relevant id then (1 / inject_Z (Z.of_nat rank))%Q else first_hit relevant ids (S rank)
  end.

Definition mean_reciprocal_rank (lists : list (list string)) (relevant : list string) : Q :=
  match lists with
  | [] => 0%Q
  | _ => (sum_by (fun ids => first_hit relevant ids 1) lists / inject_Z (Z.of_nat (length lists)))%Q
  end.
