(* ===== verification/RetrievalProps.v ===== *)
(** * Retrieval: what the definitions of Retrieval.v do

    The lexical index agrees with its documents through every change and its
    search with a reference computed from them; what fusion and reranking
    keep; what a tenant is given, and what the cache of the service ignores. *)

From S2P Require Import Prelude Text Json Retrieval.

(** ** Order by score *)

Section by_score.
Context {A : Type} (score : A -> Q).

Lemma by_score_perm (l : list A) : by_score score l ≡ₚ l.
Proof. apply sort_by_perm. Qed.

Lemma by_score_sorted (l : list A) : StronglySorted (fun a b => score b <= score a)%Q (by_score score l).
Proof.
  unfold by_score. assert (H : StronglySorted (fun a b => (score b <=?q score a) = true)
    (sort_by (fun a b => score b <=?q score a) l)).
  { apply sort_by_sorted.
    - intros x y. rewrite !Qle_bool_iff. destruct (Qlt_le_dec (score x) (score y)); [right; by apply Qlt_le_weak|by left].
    - intros x y z. rewrite !Qle_bool_iff. intros ? ?. by eapply Qle_trans. }
  induction H as [|x l' Hs IH Hx]; constructor; [done|]. eapply Forall_impl; [exact Hx|].
  intros y. cbn. by rewrite Qle_bool_iff.
Qed.
End by_score.

(** ** The lexical index *)

Definition occurrences (t : string) (tokens : list string) : Z :=
  Z.of_nat (length (List.filter (fun t' => bool_decide (t' = t)) tokens)).

(** How often a term occurs in a document, if it does. *)
Definition posting (freq : list (string * list (string * Z))) (t id : string) : option Z :=
  p ← dict_get t freq; dict_get id p.

Definition some_count (n : Z) : option Z := if n =? 0 then None else Some n.

Definition doc_tokens (d : stored_doc) : list string := tokenize (sd_text d).

Definition total_length (docs : list (string * stored_doc)) : Z :=
  foldr (fun kd n => Z.of_nat (length (doc_tokens kd.2)) + n) 0 docs.

(** The tables of an index are the ones its documents determine. *)
Record exact (x : BM25Index) : Prop := {
  ex_docs : NoDup (map fst (bm_docs x));
  ex_len id : dict_get id (bm_len x) = (fun d => Z.of_nat (length (doc_tokens d))) <$> dict_get id (bm_docs x);
  ex_terms : NoDup (map fst (bm_freq x));
  ex_ids : Forall (fun tp => NoDup (map fst tp.2)) (bm_freq x);
  ex_freq t id : posting (bm_freq x) t id = d ← dict_get id (bm_docs x); some_count (occurrences t (doc_tokens d));
  ex_n : bm_n x = Z.of_nat (length (bm_docs x));
  ex_avg : (bm_avgdl x * inject_Z (bm_n x) == inject_Z (total_length (bm_docs x)))%Q;
}.

Lemma posting_count id freq t t0 id' :
  posting (count_term id freq t0) t id'
  = if decide (t = t0 /\ id' = id) then Some (default 0 (posting freq t0 id) + 1) else posting freq t id'.
Proof.
  unfold posting, count_term. rewrite dict_get_set. destruct (decide (t = t0)) as [->|Ht].
  - cbn. rewrite dict_get_set. destruct (decide (id' = id)) as [->|Hid].
    + rewrite decide_True by done. by destruct (dict_get t0 freq).
    + rewrite decide_False by tauto. by destruct (dict_get t0 freq).
  - rewrite decide_False by tauto. done.
Qed.

Lemma occurrences_cons t t0 l : occurrences t (t0 :: l) = (if decide (t0 = t) then 1 else 0) + occurrences t l.
Proof. unfold occurrences. cbn. case_bool_decide; case_decide; cbn; try done; lia. Qed.

Lemma occurrences_nonneg t l : 0 <= occurrences t l.
Proof. unfold occurrences. lia. Qed.

Lemma posting_counts id t id' tokens : forall freq,
  posting (foldl (count_term id) freq tokens) t id'
  = if decide (id' = id)
    then match posting freq t id with
         | Some n => Some (n + occurrences t tokens)
         | None => some_count (occurrences t tokens)
         end
    else posting freq t id'.
Proof.
  induction tokens as [|t0 tokens IH]; intros freq; cbn [foldl].
  - case_decide as H; [subst|done]. destruct (posting freq t id); cbn; [f_equal; unfold occurrences; cbn; lia|done].
  - rewrite IH, !posting_count, occurrences_cons. pose proof (occurrences_nonneg t tokens) as Hn.
    destruct (decide (id' = id)) as [->|Hid]; [|by rewrite decide_False by tauto].
    destruct (decide (t0 = t)) as [->|Ht].
    + rewrite decide_True by done. destruct (posting freq t id); cbn; [f_equal; lia|].
      unfold some_count. destruct (Z.eqb_spec (1 + occurrences t tokens) 0); [lia|]. done.
    + rewrite decide_False by (intros [? ?]; congruence). destruct (posting freq t id); cbn; [f_equal; lia|done].
Qed.

Lemma count_term_tables id freq t :
  NoDup (map fst freq) -> Forall (fun tp => NoDup (map fst tp.2)) freq ->
  NoDup (map fst (count_term id freq t)) /\ Forall (fun tp => NoDup (map fst tp.2)) (count_term id freq t).
Proof.
  intros Hn Hf. unfold count_term. split; [by apply dict_keys_NoDup|]. apply Forall_dict_set; [|done]. cbn.
  apply dict_keys_NoDup. destruct (dict_get t freq) as [p|] eqn:E; cbn; [|constructor].
  apply dict_get_elem in E. rewrite Forall_forall in Hf. by apply (Hf _ E).
Qed.

Lemma count_terms_tables id tokens : forall freq,
  NoDup (map fst freq) -> Forall (fun tp => NoDup (map fst tp.2)) freq ->
  NoDup (map fst (foldl (count_term id) freq tokens))
  /\ Forall (fun tp => NoDup (map fst tp.2)) (foldl (count_term id) freq tokens).
Proof.
  induction tokens as [|t tokens IH]; intros freq Hn Hf; cbn [foldl]; [done|]. apply IH; by apply count_term_tables.
Qed.

Lemma NoDup_keep {A} (f : A -> bool) l : NoDup l -> NoDup (List.filter f l).
Proof.
  induction 1 as [|x l Hx _ IH]; [constructor|]. cbn. destruct (f x); [|done]. constructor; [|done].
  intros Hin%list_elem_of_In%List.filter_In. apply Hx, list_elem_of_In. tauto.
Qed.

#[local] Arguments dict_pop : simpl never.

Lemma posting_drop id freq t id' : NoDup (map fst freq) ->
  posting (drop_postings id freq) t id' = if decide (id' = id) then None else posting freq t id'.
Proof.
  unfold posting, drop_postings. induction freq as [|[t0 p] freq IH]; cbn; intros Hn; [by case_decide|].
  apply NoDup_cons in Hn as [Ht Hn]. specialize (IH Hn).
  assert (Hnone : t0 = t -> dict_get t (List.filter (fun tp => negb (bool_decide (length tp.2 = 0%nat)))
    (map (fun tp => (tp.1, dict_pop id tp.2)) freq)) = None).
  { intros ->. destruct (dict_get t _) as [q|] eqn:E; [|done]. exfalso. apply Ht.
    apply dict_get_elem, list_elem_of_In, List.filter_In in E as [E _]. apply List.in_map_iff in E as ([t1 p1] & [= <- _] & Hin).
    apply list_elem_of_In in Hin. by apply (list_elem_of_fmap_2 fst _ (t1, p1)). }
  case_bool_decide as Hp; cbn [negb dict_get].
  - destruct (decide (t0 = t)) as [->|Hne].
    + rewrite Hnone by done. cbn [option_bind mbind].
      pose proof (dict_get_pop id id' p) as Hd. cbn [snd] in Hp. apply length_zero_iff_nil in Hp. rewrite Hp in Hd.
      cbn in Hd. case_decide; done.
    + exact IH.
  - destruct (decide (t0 = t)) as [->|Hne]; [|exact IH]. cbn. by rewrite dict_get_pop.
Qed.

Lemma drop_tables id freq :
  NoDup (map fst freq) -> Forall (fun tp => NoDup (map fst tp.2)) freq ->
  NoDup (map fst (drop_postings id freq)) /\ Forall (fun tp => NoDup (map fst tp.2)) (drop_postings id freq).
Proof.
  intros Hn Hf. unfold drop_postings. split.
  - assert (Hm : forall (l : list (string * list (string * Z))) g, NoDup (map fst l) -> NoDup (map fst (List.filter g l))).
    { intros l g. induction l as [|tp l IH]; [done|]. cbn. intros [H1 H2]%NoDup_cons. destruct (g tp); cbn; [|auto].
      constructor; [|auto]. intros (tp' & E & Hin)%list_elem_of_fmap. apply H1. rewrite E.
      apply list_elem_of_fmap_2. apply list_elem_of_In, List.filter_In in Hin as [Hin _]. by apply list_elem_of_In. }
    apply Hm. rewrite map_map. exact Hn.
  - apply Forall_keep, Forall_map. eapply Forall_impl; [exact Hf|]. intros [t p]. cbn. rewrite dict_keys_pop. apply NoDup_keep.
Qed.

Lemma inject_nonzero z : z <> 0 -> ~ (inject_Z z == 0)%Q.
Proof. intros Hz E. unfold Qeq in E. cbn in E. lia. Qed.

(** ** Every change keeps the index exact *)

Lemma remove_exact id x : exact x -> exact (_remove id x).2.
Proof.
  intros H. unfold _remove. destruct (dict_get id (bm_docs x)) as [d|] eqn:Ed; [|done]. cbn [snd].
  destruct (drop_tables id (bm_freq x) (ex_terms x H) (ex_ids x H)) as [Ht Hi].
  assert (Hlen : default 0 (dict_get id (bm_len x)) = Z.of_nat (length (doc_tokens d))) by (by rewrite (ex_len x H), Ed).
  assert (Hpop : length (bm_docs x) = S (length (dict_pop id (bm_docs x)))
      /\ total_length (bm_docs x) = total_length (dict_pop id (bm_docs x)) + Z.of_nat (length (doc_tokens d))).
  { pose proof (ex_docs x H) as Hn. clear -Ed Hn. unfold dict_pop. induction (bm_docs x) as [|[k v] l IH]; [done|].
    cbn in *. apply NoDup_cons in Hn as [Hk Hn]. case_decide as Hki.
    - injection Ed as ->. subst. rewrite bool_decide_eq_true_2 by done. cbn.
      assert (Hf : List.filter (fun p : string * stored_doc => negb (bool_decide (p.1 = id))) l = l).
      { apply filter_all. intros [k' v'] Hin%list_elem_of_In. cbn. rewrite bool_decide_eq_false_2; [done|]. intros ->.
        apply Hk. by apply (list_elem_of_fmap_2 fst _ (id, v')). }
      rewrite Hf. split; [done|]. unfold total_length. cbn. lia.
    - destruct (IH Ed Hn) as [H1 H2]. rewrite bool_decide_eq_false_2 by done. cbn. split; [by rewrite H1|].
      unfold total_length in *. cbn. lia. }
  destruct Hpop as [Hc Hsum]. pose proof (ex_n x H) as Hnx. pose proof (ex_avg x H) as Ha. split; cbn [bm_docs bm_len bm_freq bm_n bm_avgdl].
  - rewrite dict_keys_pop. apply NoDup_keep, (ex_docs x H).
  - intros id'. rewrite !dict_get_pop, (ex_len x H). by case_decide.
  - exact Ht.
  - exact Hi.
  - intros t id'. rewrite posting_drop by apply (ex_terms x H). rewrite (ex_freq x H), dict_get_pop. by case_decide.
  - lia.
  - rewrite Hlen. destruct (Z.ltb_spec 1 (bm_n x)).
    + rewrite Ha, Hsum, inject_Z_plus. field. apply inject_nonzero. lia.
    + assert (Hz : dict_pop id (bm_docs x) = []) by (destruct (dict_pop id (bm_docs x)); [done|cbn in Hc; lia]).
      rewrite Hz. unfold total_length. cbn. ring.
Qed.

Lemma removed_absent id x : exact x -> dict_get id (bm_docs (_remove id x).2) = None.
Proof.
  intros H. unfold _remove. destruct (dict_get id (bm_docs x)) as [d|] eqn:Ed; [|done]. cbn. rewrite dict_get_pop. by rewrite decide_True.
Qed.

Lemma dict_set_absent {A} k (v : A) l : dict_get k l = None -> dict_set k v l = l ++ [(k, v)].
Proof.
  induction l as [|[k' v'] l IH]; cbn; [done|]. case_decide; [done|]. intros E. by rewrite IH.
Qed.

Lemma total_length_snoc l id d : total_length (l ++ [(id, d)]) = total_length l + Z.of_nat (length (doc_tokens d)).
Proof. unfold total_length. induction l as [|kd l IH]; cbn [app foldr snd]; [lia|]. rewrite IH. lia. Qed.

(** Adding and replacing a document: its postings are the occurrences of the
    terms in its text, its length the text's. *)
Lemma upsert_exact (id text : string) (tenant : option string) (metadata : option (list (string * json))) (x : BM25Index) :
  exact x -> exact (upsert id text tenant metadata x).
Proof.
  intros H0. unfold upsert.
  pose proof (remove_exact id x H0) as H. pose proof (removed_absent id x H0) as Hno.
  set (y := (_remove id x).2) in *. clearbody y. clear H0 x.
  destruct (count_terms_tables id (tokenize text) (bm_freq y) (ex_terms y H) (ex_ids y H)) as [Ht Hi].
  set (d := {| sd_text := text; sd_tenant := default EmptyString tenant; sd_metadata := default [] metadata |}).
  pose proof (ex_n y H) as Hny. pose proof (ex_avg y H) as Ha. split; cbn [bm_docs bm_len bm_freq bm_n bm_avgdl].
  - apply dict_keys_NoDup, (ex_docs y H).
  - intros id'. rewrite !dict_get_set, (ex_len y H). by case_decide.
  - exact Ht.
  - exact Hi.
  - intros t id'. rewrite posting_counts, dict_get_set, !(ex_freq y H). case_decide as Hid; [|done].
    rewrite Hno. cbn. done.
  - rewrite dict_set_absent by done. rewrite length_app. cbn. lia.
  - rewrite dict_set_absent by done.
    rewrite total_length_snoc, (inject_Z_plus (total_length _)). change (doc_tokens d) with (tokenize text).
    destruct (Z.eqb_spec (bm_n y + 1) 0); [lia|].
    setoid_rewrite <- Ha. replace (bm_n y + 1 - 1) with (bm_n y) by lia. field. apply inject_nonzero. lia.
Qed.

Lemma new_index_exact : exact new_index.
Proof. split; try done; constructor. Qed.

(** What a holder of an index does to it. *)
Inductive index_change :=
| Upserted (id text : string) (tenant : option string) (metadata : option (list (string * json)))
| Removed (id : string)
| Indexed (chunks : list (string * string)) (tenant document_id source : string).

Definition changed (x : BM25Index) (c : index_change) : BM25Index :=
  match c with
  | Upserted id text tenant metadata => upsert id text tenant metadata x
  | Removed id => (remove id x).2
  | Indexed chunks tenant document_id source => (index_chunks chunks tenant document_id source x).2
  end.

Definition built (l : list index_change) : BM25Index := foldl changed new_index l.

Lemma changed_exact x c : exact x -> exact (changed x c).
Proof.
  destruct c as [id text tenant metadata|id|chunks tenant doc source]; cbn [changed].
  - apply upsert_exact.
  - apply remove_exact.
  - unfold index_chunks. cbn [snd]. revert x. induction chunks as [|c chunks IH]; intros x Hx; cbn [foldl]; [done|].
    by apply IH, upsert_exact.
Qed.

Lemma built_exact l : exact (built l).
Proof.
  unfold built. generalize new_index_exact. generalize new_index as x.
  induction l as [|c l IH]; intros x Hx; cbn [foldl]; [done|]. by apply IH, changed_exact.
Qed.

(** ** The search against its definition *)

Section reference.
Context (ln : Q -> Q) (set_order : list string -> list string) (order_perm : forall l, set_order l ≡ₚ l).

Definition occurs (t : string) (d : stored_doc) : bool := 0 <? occurrences t (doc_tokens d).

(** Okapi BM25 of one term in one document, from the documents alone. *)
Definition okapi (x : BM25Index) (t : string) (d : stored_doc) : Q :=
  let docs := bm_docs x in
  let n := Z.of_nat (length docs) in
  let df := Z.of_nat (length (List.filter (fun kd => occurs t kd.2) docs)) in
  let c := occurrences t (doc_tokens d) in
  let mean := (inject_Z (total_length docs) / inject_Z n)%Q in
  if c =? 0 then 0%Q
  else (ln (1 + (inject_Z (n - df) + (1 # 2)) / (inject_Z df + (1 # 2))) * (inject_Z c * (bm_k1 x + 1))
        / (inject_Z c + bm_k1 x * (1 - bm_b x + bm_b x * inject_Z (Z.of_nat (length (doc_tokens d))) / mean)))%Q.

Lemma posting_occurs x t id : exact x ->
  is_Some (posting (bm_freq x) t id) <-> exists d, dict_get id (bm_docs x) = Some d /\ occurs t d = true.
Proof.
  intros H. rewrite (ex_freq x H). unfold occurs, some_count. destruct (dict_get id (bm_docs x)) as [d|]; cbn.
  - pose proof (occurrences_nonneg t (doc_tokens d)). split.
    + intros [n Hn]. exists d. split; [done|]. destruct (Z.eqb_spec (occurrences t (doc_tokens d)) 0); [done|].
      apply Z.ltb_lt. lia.
    + intros (d' & [= <-] & Ho%Z.ltb_lt). destruct (Z.eqb_spec (occurrences t (doc_tokens d)) 0); [lia|by eexists].
  - split; [by intros [? ?]|]. by intros (? & ? & _).
Qed.

Lemma postings_df x t : exact x ->
  length (default [] (dict_get t (bm_freq x))) = length (List.filter (fun kd => occurs t kd.2) (bm_docs x)).
Proof.
  intros H. set (p := default [] (dict_get t (bm_freq x))).
  rewrite <- (length_map fst p), <- (length_map fst (List.filter _ _)). apply Permutation_length.
  assert (Hp : NoDup (map fst p)).
  { unfold p. destruct (dict_get t (bm_freq x)) as [l|] eqn:E; [|constructor]. apply dict_get_elem in E.
    pose proof (ex_ids x H) as Hi. rewrite Forall_forall in Hi. by apply (Hi _ E). }
  assert (Hd : forall l : list (string * stored_doc), NoDup (map fst l) ->
    NoDup (map fst (List.filter (fun kd => occurs t kd.2) l))).
  { intros l. induction l as [|kd l IH]; [done|]. cbn. intros [H1 H2]%NoDup_cons. destruct (occurs t kd.2); cbn; [|auto].
    constructor; [|auto]. intros (kd' & E & Hin)%list_elem_of_fmap. apply H1. rewrite E. apply list_elem_of_fmap_2.
    apply list_elem_of_In, List.filter_In in Hin as [Hin _]. by apply list_elem_of_In. }
  apply NoDup_Permutation; [done|apply Hd, (ex_docs x H)|]. intros id. rewrite <- dict_get_keys.
  assert (Hpost : dict_get id p = posting (bm_freq x) t id).
  { unfold p, posting. by destruct (dict_get t (bm_freq x)). }
  rewrite Hpost, posting_occurs by done. split.
  - intros (d & Hg & Ho). apply dict_get_elem in Hg. apply list_elem_of_fmap. exists (id, d). split; [done|].
    apply list_elem_of_In, List.filter_In. split; [by apply list_elem_of_In|done].
  - intros ([id' d] & -> & Hin)%list_elem_of_fmap. apply list_elem_of_In, List.filter_In in Hin as [Hin Ho].
    exists d. split; [|done]. apply dict_elem_get; [apply (ex_docs x H)|by apply list_elem_of_In].
Qed.

Definition score_of (scores : list (string * Q)) (id : string) : Q := default 0%Q (dict_get id scores).

(** One pass over postings with distinct ids. *)
Lemma fold_postings (ok : string -> bool) (f : string -> Z -> Q) (p : list (string * Z)) : NoDup (map fst p) -> forall scores id,
  let scores' := foldl (fun s q => if ok q.1 then dict_set q.1 (default 0 (dict_get q.1 s) + f q.1 q.2)%Q s else s) scores p in
  dict_get id scores'
  = match dict_get id p with
    | Some n => if ok id then Some (score_of scores id + f id n)%Q else dict_get id scores
    | None => dict_get id scores
    end.
Proof.
  induction p as [|[k n] p IH]; intros Hn scores id; cbn [foldl dict_get fst snd]; [done|].
  cbn [map fst] in Hn. apply NoDup_cons in Hn as [Hk Hn]. cbn zeta in IH. rewrite IH by done.
  assert (Hnone : k = id -> dict_get id p = None).
  { intros ->. destruct (dict_get id p) eqn:E; [|done]. exfalso. apply Hk, dict_get_keys. by eexists. }
  destruct (decide (k = id)) as [->|Hne].
  - rewrite Hnone by done. destruct (ok id); [|done]. rewrite dict_get_set. by rewrite decide_True.
  - destruct (ok k); [|done]. unfold score_of. rewrite dict_get_set. rewrite decide_False by congruence. done.
Qed.

Lemma fold_keys (ok : string -> bool) (f : string -> Z -> Q) (p : list (string * Z)) : forall scores,
  NoDup (map fst scores) ->
  NoDup (map fst (foldl (fun s q => if ok q.1 then dict_set q.1 (default 0 (dict_get q.1 s) + f q.1 q.2)%Q s else s) scores p)).
Proof.
  induction p as [|q p IH]; intros scores Hn; cbn [foldl]; [done|]. apply IH. destruct (ok q.1); [|done].
  by apply dict_keys_NoDup.
Qed.

Definition tenant_doc (tenant : option string) (d : stored_doc) : bool :=
  match tenant with None => true | Some t => bool_decide (sd_tenant d = t) end.

Lemma mean_length x : exact x -> bm_n x <> 0 ->
  (bm_avgdl x == inject_Z (total_length (bm_docs x)) / inject_Z (Z.of_nat (length (bm_docs x))))%Q.
Proof.
  intros H Hn. pose proof (ex_avg x H) as Ha. rewrite <- (ex_n x H). setoid_rewrite <- Ha. field. by apply inject_nonzero.
Qed.

Lemma term_score_okapi x t id d n : exact x -> dict_get id (bm_docs x) = Some d -> posting (bm_freq x) t id = Some n ->
  (term_score x (idf ln x (Z.of_nat (length (default [] (dict_get t (bm_freq x)))))) id n == okapi x t d)%Q.
Proof.
  intros H Hd Hp. rewrite (ex_freq x H), Hd in Hp. cbn in Hp. unfold some_count in Hp. unfold okapi.
  destruct (occurrences t (doc_tokens d) =? 0); [done|]. injection Hp as <-.
  assert (Hn : bm_n x <> 0).
  { rewrite (ex_n x H). destruct (bm_docs x); [done|]. cbn. lia. }
  unfold term_score, idf. rewrite (ex_len x H), Hd, (postings_df x t H), (ex_n x H). cbn [fmap option_fmap option_map default].
  unfold Qdiv at 1. unfold Qdiv at 4. apply Qmult_comp; [reflexivity|]. apply Qinv_comp.
  apply Qplus_comp; [reflexivity|]. apply Qmult_comp; [reflexivity|]. apply Qplus_comp; [reflexivity|].
  apply Qdiv_comp; [reflexivity|]. by apply mean_length.
Qed.

Definition contribution (x : BM25Index) (tenant : option string) (t id : string) : Q :=
  match dict_get id (bm_docs x) with
  | Some d => if tenant_doc tenant d then okapi x t d else 0%Q
  | None => 0%Q
  end.

Lemma of_tenant_doc x tenant id d : dict_get id (bm_docs x) = Some d -> of_tenant x tenant id = tenant_doc tenant d.
Proof. intros Hd. unfold of_tenant, tenant_doc. destruct tenant; [|done]. by rewrite Hd. Qed.

Lemma add_term_get x tenant scores t id : exact x ->
  dict_get id (add_term ln x tenant scores t)
  = match posting (bm_freq x) t id with
    | Some n => if of_tenant x tenant id
                then Some (score_of scores id
                           + term_score x (idf ln x (Z.of_nat (length (default [] (dict_get t (bm_freq x)))))) id n)%Q
                else dict_get id scores
    | None => dict_get id scores
    end.
Proof.
  intros H. unfold add_term, posting. destruct (dict_get t (bm_freq x)) as [p|] eqn:E; cbn [mbind option_bind].
  - change (default [] (Some p)) with p. assert (Hp : NoDup (map fst p)).
    { apply dict_get_elem in E. pose proof (ex_ids x H) as Hi. rewrite Forall_forall in Hi. by apply (Hi _ E). }
    destruct (Z.eqb_spec (Z.of_nat (length p)) 0) as [Hz|_].
    + destruct p; [done|]. cbn in Hz. lia.
    + exact (fold_postings (of_tenant x tenant) (term_score x (idf ln x (Z.of_nat (length p)))) p Hp scores id).
  - done.
Qed.

Lemma add_term_score x tenant scores t id : exact x ->
  (score_of (add_term ln x tenant scores t) id == score_of scores id + contribution x tenant t id)%Q.
Proof.
  intros H. unfold score_of at 1. rewrite add_term_get by done. unfold contribution.
  destruct (posting (bm_freq x) t id) as [n|] eqn:Ep.
  - assert (Ho : is_Some (posting (bm_freq x) t id)) by (by eexists). apply posting_occurs in Ho as (d & Hd & _); [|done].
    rewrite (of_tenant_doc x tenant id d Hd), Hd. destruct (tenant_doc tenant d); cbn [default].
    + rewrite (term_score_okapi x t id d n H Hd Ep). reflexivity.
    + fold (score_of scores id). by rewrite Qplus_0_r.
  - fold (score_of scores id). destruct (dict_get id (bm_docs x)) as [d|] eqn:Hd; [|by rewrite Qplus_0_r].
    rewrite (ex_freq x H), Hd in Ep. cbn in Ep. unfold some_count in Ep. unfold okapi.
    destruct (occurrences t (doc_tokens d) =? 0); [|done]. destruct (tenant_doc tenant d); by rewrite Qplus_0_r.
Qed.

(** The documents of the tenant in which one of the terms occurs. *)
Definition hit (x : BM25Index) (tenant : option string) (terms : list string) (id : string) : Prop :=
  exists d, dict_get id (bm_docs x) = Some d /\ tenant_doc tenant d = true /\ exists t, t ∈ terms /\ occurs t d = true.

Definition reference_score (x : BM25Index) (tenant : option string) (terms : list string) (id : string) : Q :=
  sum_by (fun t => contribution x tenant t id) terms.

Lemma add_terms_spec x tenant terms : exact x -> forall scores,
  NoDup (map fst scores) ->
  let scores' := foldl (add_term ln x tenant) scores terms in
  NoDup (map fst scores')
  /\ forall id, (score_of scores' id == score_of scores id + reference_score x tenant terms id)%Q
       /\ (is_Some (dict_get id scores') <-> is_Some (dict_get id scores) \/ hit x tenant terms id).
Proof.
  intros H. induction terms as [|t terms IH]; intros scores Hn; cbn [foldl].
  - split; [done|]. intros id. unfold reference_score. cbn. split; [by rewrite Qplus_0_r|]. split; [by left|].
    intros [?|(d & _ & _ & t & []%elem_of_nil & _)]; done.
  - destruct (IH (add_term ln x tenant scores t)) as [Hn' Hid].
    { unfold add_term. case_match; [done|]. by apply fold_keys. }
    split; [exact Hn'|]. intros id. destruct (Hid id) as [Hs Hi]. split.
    + rewrite Hs, (add_term_score x tenant scores t id H). unfold reference_score, sum_by. cbn [foldr]. ring.
    + rewrite Hi, add_term_get by done. split.
      * intros [Ha|(d & Hd & Ht & t' & Hin & Ho)]; [|right; exists d; split_and!; [done..|]; exists t'; split; [by right|done]].
        destruct (posting (bm_freq x) t id) eqn:Ep; [|by left]. destruct (of_tenant x tenant id) eqn:Et; [|by left].
        right. assert (Hsome : is_Some (posting (bm_freq x) t id)) by (by eexists).
        apply posting_occurs in Hsome as (d & Hd & Ho); [|done]. exists d. rewrite (of_tenant_doc x tenant id d Hd) in Et.
        split_and!; [done..|]. exists t. split; [by left|done].
      * intros [Ha|(d & Hd & Ht & t' & [->|Hin]%elem_of_cons & Ho)].
        -- left. destruct (posting _ t id); [|done]. destruct (of_tenant _ _ _); [by eexists|done].
        -- left. assert (Hsome : is_Some (posting (bm_freq x) t id)) by (apply posting_occurs; [done|by exists d]).
           destruct Hsome as [n ->]. rewrite (of_tenant_doc x tenant id d Hd), Ht. by eexists.
        -- right. exists d. split_and!; [done..|]. by exists t'.
Qed.

Lemma sum_by_perm {A} (f : A -> Q) l l' : l ≡ₚ l' -> (sum_by f l == sum_by f l')%Q.
Proof.
  unfold sum_by. induction 1 as [|a l l' _ IH|a b l|l1 l2 l3 _ IH1 _ IH2]; cbn [foldr]; [reflexivity| |ring|].
  - by rewrite IH.
  - by rewrite IH1.
Qed.

Lemma firstn_sorted {A} (R : A -> A -> Prop) n l x y : StronglySorted R l -> x ∈ firstn n l -> y ∈ skipn n l -> R x y.
Proof.
  intros Hs. rewrite <- (firstn_skipn n l) in Hs. revert Hs. generalize (firstn n l) as a, (skipn n l) as b.
  induction a as [|z a IH]; intros b Hs Hx Hy; [by apply elem_of_nil in Hx|]. inversion_clear Hs as [|? ? Ha Hz].
  apply elem_of_cons in Hx as [->|Hx]; [|by eapply IH].
  rewrite Forall_forall in Hz. apply Hz, elem_of_app. by right.
Qed.

(** What a search promises: hits are documents of the tenant in which a term
    occurs, each once, with their reference scores, best first; a document is
    left out only when the list is full of others that score at least as
    much. *)
Definition reference_hits (x : BM25Index) (tenant : option string) (terms : list string) (top_k : nat)
    (hits : list (string * Q)) : Prop :=
  StronglySorted (fun a b => b.2 <= a.2)%Q hits /\ NoDup (map fst hits) /\ (length hits <= top_k)%nat
  /\ (forall id s, (id, s) ∈ hits -> hit x tenant terms id /\ (s == reference_score x tenant terms id)%Q)
  /\ (forall id, hit x tenant terms id -> id ∈ map fst hits \/
        length hits = top_k /\ Forall (fun h => reference_score x tenant terms id <= h.2)%Q hits).

Lemma no_hits x tenant terms top_k : (forall id, ~ hit x tenant terms id) -> reference_hits x tenant terms top_k [].
Proof.
  intros Hno. unfold reference_hits. split_and!; [constructor|constructor|cbn; lia|by intros ? ? ?%elem_of_nil|].
  intros id Hid. by destruct (Hno id).
Qed.

Lemma search_exact x query tenant top_k : exact x ->
  reference_hits x tenant (remove_dups (tokenize query)) top_k (bm25_search ln set_order x query tenant top_k).
Proof.
  intros H. unfold bm25_search. set (terms := remove_dups (tokenize query)).
  destruct (tokenize query) as [|t ts] eqn:Eq.
  { apply no_hits. intros id (d & _ & _ & t & Ht & _). unfold terms in Ht. by apply elem_of_nil in Ht. }
  destruct (Z.eqb_spec (bm_n x) 0) as [Hz|Hz].
  { apply no_hits. intros id (d & Hd & _). rewrite (ex_n x H) in Hz. by destruct (bm_docs x). }
  change (remove_dups (t :: ts)) with terms. set (ranked := by_score snd (foldl (add_term ln x tenant) [] (set_order terms))).
  clearbody terms. clear Eq.
  destruct (add_terms_spec x tenant (set_order terms) H [] ltac:(constructor)) as [Hn Hid].
  set (scores := foldl (add_term ln x tenant) [] (set_order terms)) in *.
  pose proof (by_score_sorted snd scores) as Hsort. fold ranked in Hsort.
  pose proof (by_score_perm snd scores) as Hperm. fold ranked in Hperm.
  assert (Hkeys : NoDup (map fst ranked)) by (by rewrite Hperm).
  assert (Href : forall id, (reference_score x tenant (set_order terms) id == reference_score x tenant terms id)%Q).
  { intros id. apply sum_by_perm, order_perm. }
  assert (Hhit : forall id, hit x tenant (set_order terms) id <-> hit x tenant terms id).
  { intros id. unfold hit. setoid_rewrite order_perm. done. }
  assert (Hin : forall id s, (id, s) ∈ ranked -> hit x tenant terms id /\ (s == reference_score x tenant terms id)%Q).
  { intros id s Hin. rewrite Hperm in Hin. apply dict_elem_get in Hin; [|done]. destruct (Hid id) as [Hs Hi]. split.
    - apply Hhit. destruct Hi as [Hi _]. destruct Hi as [[? [=]]|?]; [by eexists|done].
    - rewrite <- Href. unfold score_of in Hs. rewrite Hin in Hs. cbn [default] in Hs. rewrite Hs. cbn. ring. }
  split_and!.
  - rewrite <- (firstn_skipn top_k ranked) in Hsort. by apply StronglySorted_app in Hsort as (_ & ? & _).
  - rewrite <- (firstn_skipn top_k ranked), map_app in Hkeys. by apply NoDup_app in Hkeys as (? & _).
  - apply firstn_le_length.
  - intros id s Hf. apply Hin. rewrite <- (firstn_skipn top_k ranked). apply elem_of_app. by left.
  - intros id Hh. destruct (Hid id) as [Hs Hi]. destruct Hi as [_ Hi].
    destruct Hi as [s Hg]; [right; by apply Hhit|]. apply dict_get_elem in Hg. rewrite <- Hperm in Hg.
    destruct (Hin id s Hg) as [_ Es]. rewrite <- (firstn_skipn top_k ranked) in Hg. apply elem_of_app in Hg as [Hg|Hg].
    + left. by apply (list_elem_of_fmap_2 fst _ (id, s)).
    + right. split.
      * assert (top_k < length ranked)%nat; [|by rewrite length_firstn; lia].
        destruct (Nat.lt_ge_cases top_k (length ranked)) as [|Hge]; [done|].
        rewrite skipn_all2 in Hg by done. by apply elem_of_nil in Hg.
      * apply Forall_forall. intros h Hf. rewrite <- Es. exact (firstn_sorted _ top_k ranked h (id, s) Hsort Hf Hg).
Qed.

(** C29: However an index came about — by adding, replacing and removing
    documents, or by indexing their chunks — its search is the reference: its
    hits are documents of the tenant in which a term of the query occurs, each
    once, with the score Okapi BM25 gives them from the stored texts, best
    first; it leaves such a document out only when the list is full of
    documents that score at least as much. *)
Theorem bm25_is_reference (l : list index_change) (query : string) (tenant : option string) (top_k : nat) :
  let x := built l in
  let terms := remove_dups (tokenize query) in
  let hits := bm25_search ln set_order x query tenant top_k in
  StronglySorted (fun a b => b.2 <= a.2)%Q hits /\ NoDup (map fst hits) /\ (length hits <= top_k)%nat
  /\ (forall id s, (id, s) ∈ hits -> hit x tenant terms id /\ (s == reference_score x tenant terms id)%Q)
  /\ (forall id, hit x tenant terms id -> id ∈ map fst hits \/
        length hits = top_k /\ Forall (fun h => reference_score x tenant terms id <= h.2)%Q hits).
Proof. intros x terms hits. apply search_exact, built_exact. Qed.
End reference.

(** ** Fusion *)

(** The reciprocal ranks of an id in a channel whose first rank is [n]. *)
Fixpoint rank_value (k : Z) (n : nat) (ids : list string) (id : string) : Q :=
  match ids with
  | [] => 0
  | i :: ids => ((if decide (i = id) then 1 / inject_Z (k + Z.of_nat n) else 0) + rank_value k (S n) ids id)%Q
  end.

Lemma add_ranks_spec k ids : forall n f, NoDup (map fst f) ->
  let f' := foldl (fun f p => dict_set p.2 (default 0 (dict_get p.2 f) + 1 / inject_Z (k + Z.of_nat p.1))%Q f) f
              (zip (seq n (length ids)) ids) in
  NoDup (map fst f')
  /\ forall id, (score_of f' id == score_of f id + rank_value k n ids id)%Q
       /\ (id ∈ map fst f' <-> id ∈ map fst f \/ id ∈ ids).
Proof.
  induction ids as [|i ids IH]; intros n f Hn; cbn [length seq zip zip_with foldl rank_value fst snd].
  - split; [done|]. intros id. split; [by rewrite Qplus_0_r|]. split; [by left|]. by intros [?|?%elem_of_nil].
  - set (f1 := dict_set i _ f). destruct (IH (S n) f1) as [Hn' Hid]; [by apply dict_keys_NoDup|].
    split; [exact Hn'|]. intros id. destruct (Hid id) as [Hs Hk]. split.
    + rewrite Hs. unfold f1, score_of. cbn [fst snd]. rewrite dict_get_set. case_decide as E1; case_decide as E2; try congruence.
      * subst. cbn -[Z.of_nat Qplus Qdiv]. ring.
      * ring.
    + rewrite Hk. unfold f1. cbn [fst snd]. rewrite dict_keys_set. case_decide as Ei; set_solver.
Qed.

(** Where a fused document comes from: the vector channel, or the index when
    only the lexical channel has it. *)
Definition fused_from (vector : list VectorSearchResult) (lexical : list (string * Q)) (index : option BM25Index)
    (r : VectorSearchResult) : Prop :=
  let ids := map (fun r => vd_id (sr_document r)) vector in
  (exists r0, r0 ∈ vector /\ sr_document r = sr_document r0)
  \/ exists x d, index = Some x /\ document (vd_id (sr_document r)) x = Some d /\ vd_id (sr_document r) ∉ ids
       /\ vd_id (sr_document r) ∈ map fst lexical /\ sr_document r = sr_document (lexical_result (vd_id (sr_document r)) d).

Lemma vector_payload vector : forall p id r,
  dict_get id (foldl (fun p r => dict_set (vd_id (sr_document r)) r p) p vector) = Some r ->
  (r ∈ vector /\ vd_id (sr_document r) = id) \/ dict_get id p = Some r.
Proof.
  induction vector as [|r0 vector IH]; intros p id r; cbn [foldl]; [by right|].
  intros [[Hr Hid]|Hd]%IH; [left; split; [by apply list_elem_of_further|done]|].
  rewrite dict_get_set in Hd. case_decide as E; [|by right]. injection Hd as <-. left. split; [apply list_elem_of_here|done].
Qed.

Lemma vector_payload_keys vector : forall p id,
  id ∈ map fst (foldl (fun p r => dict_set (vd_id (sr_document r)) r p) p vector)
  <-> id ∈ map fst p \/ id ∈ map (fun r => vd_id (sr_document r)) vector.
Proof.
  induction vector as [|r0 vector IH]; intros p id; cbn [foldl map]; [set_solver|].
  rewrite IH, dict_keys_set. case_decide; set_solver.
Qed.

Lemma add_payload_get index p i id r : dict_get id (add_payload index p i) = Some r ->
  dict_get id p = Some r
  \/ id = i /\ dict_get id p = None /\ exists x d, index = Some x /\ document id x = Some d /\ r = lexical_result id d.
Proof.
  unfold add_payload. destruct (dict_get i p) eqn:Ei; [by left|]. destruct index as [x|]; [|by left].
  destruct (document i x) as [d|] eqn:Ed; [|by left]. rewrite dict_get_set. case_decide as E; [|by left].
  intros [= <-]. subst. right. split_and!; [done|done|]. by exists x, d.
Qed.

Lemma add_payload_keeps index p i id r : dict_get id p = Some r -> dict_get id (add_payload index p i) = Some r.
Proof.
  intros Hd. unfold add_payload. destruct (dict_get i p) eqn:Ei; [done|]. destruct index as [x|]; [|done].
  destruct (document i x); [|done]. rewrite dict_get_set. case_decide; [subst; congruence|done].
Qed.

Lemma lexical_payload index lex : forall p id r,
  dict_get id (foldl (add_payload index) p lex) = Some r ->
  dict_get id p = Some r
  \/ id ∈ lex /\ dict_get id p = None /\ exists x d, index = Some x /\ document id x = Some d /\ r = lexical_result id d.
Proof.
  induction lex as [|i lex IH]; intros p id r; cbn [foldl]; [by left|].
  intros [Hd|(Hin & Hno & H)]%IH.
  - apply add_payload_get in Hd as [?|(-> & ? & ?)]; [by left|right]. split_and!; [apply list_elem_of_here|done|done].
  - right. split_and!; [by apply list_elem_of_further| |done].
    destruct (dict_get id p) as [r'|] eqn:E; [|done]. by rewrite (add_payload_keeps index p i id r' E) in Hno.
Qed.

Lemma lexical_payload_keeps index lex : forall p id r, dict_get id p = Some r ->
  dict_get id (foldl (add_payload index) p lex) = Some r.
Proof. induction lex as [|i lex IH]; intros p id r Hd; cbn [foldl]; [done|]. by apply IH, add_payload_keeps. Qed.

Lemma lexical_payload_has x lex : forall p id, id ∈ lex -> is_Some (document id x) ->
  is_Some (dict_get id (foldl (add_payload (Some x)) p lex)).
Proof.
  induction lex as [|i lex IH]; intros p id; cbn [foldl]; [by intros ?%elem_of_nil|].
  intros [->|Hin]%elem_of_cons [d Hd]; [|apply IH; [done|by eexists]].
  destruct (dict_get i (add_payload (Some x) p i)) as [r|] eqn:E; [exists r; by apply lexical_payload_keeps|].
  unfold add_payload in E. destruct (dict_get i p) eqn:Ei; [congruence|]. rewrite Hd, dict_get_set, decide_True in E by done. done.
Qed.

Lemma fused_payload vector lexical index id r :
  dict_get id (foldl (add_payload index) (foldl (fun p r => dict_set (vd_id (sr_document r)) r p) [] vector) (map fst lexical)) = Some r ->
  vd_id (sr_document r) = id /\ fused_from vector lexical index r.
Proof.
  intros [Hd|(Hin & Hno & x & d & Hx & Hd & ->)]%lexical_payload.
  - apply vector_payload in Hd as [[Hr Hid]|?]; [|done]. split; [done|]. left. by exists r.
  - split; [done|]. right. exists x, d. split_and!; try done. intros Hids.
    assert (id ∈ map fst (foldl (fun p r => dict_set (vd_id (sr_document r)) r p) [] vector)) as Hk
      by (apply vector_payload_keys; by right).
    apply dict_get_keys in Hk as [? Hk]. congruence.
Qed.

Lemma fused_from_score vector lexical index s r :
  fused_from vector lexical index r -> fused_from vector lexical index (with_score s r).
Proof. done. Qed.

Lemma fusion_from vector lexical k index r :
  r ∈ reciprocal_rank_fusion vector lexical k index -> fused_from vector lexical index r.
Proof.
  unfold reciprocal_rank_fusion. rewrite list_elem_of_omap. intros (p & _ & E).
  destruct (dict_get p.1 _) as [r0|] eqn:Eg; [|done]. injection E as <-. apply fused_from_score.
  by apply fused_payload in Eg as [_ ?].
Qed.

(** Fusion returns each document of either channel once, best first: the
    score of a document is the sum of its reciprocal ranks in the two
    channels, its contents are those of the vector channel when it is there,
    and every document of the vector channel, and every lexical hit the index
    still stores, is among them. *)
Theorem fusion_spec (vector : list VectorSearchResult) (lexical : list (string * Q)) (k : Z) (index : option BM25Index) :
  let ids := map (fun r => vd_id (sr_document r)) vector in
  let out := reciprocal_rank_fusion vector lexical k index in
  StronglySorted (fun a b => sr_score b <= sr_score a)%Q out
  /\ NoDup (map (fun r => vd_id (sr_document r)) out)
  /\ (forall r, r ∈ out -> fused_from vector lexical index r
        /\ (sr_score r == rank_value k 1 ids (vd_id (sr_document r))
                          + rank_value k 1 (map fst lexical) (vd_id (sr_document r)))%Q)
  /\ (forall id, id ∈ ids \/ (id ∈ map fst lexical /\ exists x, index = Some x /\ is_Some (document id x)) ->
        id ∈ map (fun r => vd_id (sr_document r)) out).
Proof.
  intros ids out. unfold reciprocal_rank_fusion in out. fold ids in out.
  set (payload := foldl (add_payload index) _ _) in out.
  destruct (add_ranks_spec k ids 1 [] ltac:(constructor)) as [N1 S1].
  fold (add_ranks k [] ids) in N1, S1. cbn zeta in N1, S1.
  destruct (add_ranks_spec k (map fst lexical) 1 (add_ranks k [] ids) N1) as [N2 S2]. cbn zeta in N2, S2.
  fold (add_ranks k (add_ranks k [] ids) (map fst lexical)) in N2, S2.
  set (fused := add_ranks k (add_ranks k [] ids) (map fst lexical)) in *.
  pose proof (by_score_sorted snd fused) as Hs. pose proof (by_score_perm snd fused) as Hp.
  set (ordered := by_score snd fused) in *.
  assert (Hpay : forall id r, dict_get id payload = Some r -> vd_id (sr_document r) = id /\ fused_from vector lexical index r)
    by (intros id r; apply fused_payload).
  assert (Hout : forall r, r ∈ out <-> exists p r0, p ∈ ordered /\ dict_get p.1 payload = Some r0 /\ r = with_score p.2 r0).
  { intros r. unfold out. rewrite list_elem_of_omap. split.
    - intros (p & Hin & E). destruct (dict_get p.1 payload) as [r0|] eqn:Eg; [|done]. injection E as <-. by exists p, r0.
    - intros (p & r0 & Hin & Eg & ->). exists p. split; [done|]. by rewrite Eg. }
  assert (Hids : forall l, map (fun r => vd_id (sr_document r)) (omap (fun p => with_score p.2 <$> dict_get p.1 payload) l)
    = List.filter (fun id => bool_decide (is_Some (dict_get id payload))) (map fst l)).
  { induction l as [|p l IH]; [done|]. cbn. destruct (dict_get p.1 payload) as [r0|] eqn:E; cbn.
    - rewrite IH. f_equal. by apply Hpay in E as [-> _].
    - exact IH. }
  assert (Hkeys : map (fun r => vd_id (sr_document r)) out
    = List.filter (fun id => bool_decide (is_Some (dict_get id payload))) (map fst ordered)).
  { apply Hids. }
  split_and!.
  - unfold out. clear -Hs. induction Hs as [|p l _ IH Hp]; [constructor|]. cbn [omap list_omap].
    destruct (dict_get p.1 payload) as [r0|]; cbn [fmap option_fmap option_map]; [|done]. constructor; [done|].
    apply Forall_forall. intros r (q & Hq & E)%list_elem_of_omap. destruct (dict_get q.1 payload); [|done].
    injection E as <-. rewrite Forall_forall in Hp. by apply Hp.
  - rewrite Hkeys. apply NoDup_keep. by rewrite Hp.
  - intros r Hr. apply Hout in Hr as ([id s] & r0 & Hin & Eg & ->). apply Hpay in Eg as [Hid Hf]. cbn in *. split.
    + exact Hf.
    + rewrite Hp in Hin. apply dict_elem_get in Hin; [|done]. rewrite Hid. destruct (S2 id) as [E2 _]. destruct (S1 id) as [E1 _].
      unfold score_of at 1 in E2. rewrite Hin in E2. cbn [default] in E2. rewrite E2, E1. unfold score_of. cbn. ring.
  - intros id Hid. rewrite Hkeys. apply list_elem_of_In, List.filter_In. split.
    + apply list_elem_of_In. rewrite Hp. apply S2. destruct Hid as [Hid|[Hid _]]; [left; apply S1; by right|by right].
    + apply bool_decide_eq_true. destruct Hid as [Hid|(Hid & x & -> & Hx)]; [|by apply lexical_payload_has].
      assert (Hk : is_Some (dict_get id (foldl (fun p r => dict_set (vd_id (sr_document r)) r p) [] vector)))
        by (apply dict_get_keys, vector_payload_keys; by right).
      destruct Hk as [r Hk]. exists r. by apply lexical_payload_keeps.
Qed.

(** ** Reranking *)

Lemma zip_fst_perm {A B} (l : list A) (m : list B) (l' : list (A * B)) :
  length m = length l -> l' ≡ₚ zip l m -> map fst l' ≡ₚ l.
Proof. intros Hl ->. change (map fst (zip l m)) with (fst <$> zip l m). by rewrite fst_zip by lia. Qed.

Lemma apply_rerank_perm results query r : apply_rerank results query r ≡ₚ results.
Proof.
  unfold apply_rerank. destruct results as [|x results]; [done|]. destruct r as [r|]; [|done].
  case_match; [|done]. case_bool_decide as Hl; [|done]. apply (zip_fst_perm _ _ _ Hl), by_score_perm.
Qed.

Lemma simple_rerank_perm results query : _simple_rerank results query ≡ₚ results.
Proof. unfold _simple_rerank. case_match; [done|]. apply by_score_perm. Qed.

(** ** Tenants *)

(** A tenant id the separator of the cache keys does not occur in. *)
Definition tenant_ok (t : string) : Prop := all_chars (isnt ":"%char) t = true /\ t <> "None".

Definition tenant_ok_opt (o : option string) : Prop := match o with Some t => tenant_ok t | None => True end.

Definition belongs (t : string) (r : VectorSearchResult) : Prop := of_this_tenant t r = true.

(** What a tenant is answered is its own. *)
Definition answer_scoped (tenant : option string) (l : list VectorSearchResult) : Prop :=
  forall t, tenant = Some t -> Forall (belongs t) l.

(** So is what the cache holds under its keys. *)
Definition cache_scoped (w : retrieval) : Prop :=
  Forall (fun e => forall t query, tenant_ok t -> e.1 = cache_key (Some t) query -> Forall (belongs t) (rr_results e.2.1))
         (retrieval_cache w).

Lemma cache_key_tenant tenant t q q' :
  tenant_ok_opt tenant -> tenant_ok t -> cache_key tenant q = cache_key (Some t) q' -> tenant = Some t.
Proof.
  intros Ho [Ht Hnone] E. unfold cache_key in E. rewrite !string_app_cons, !string_app_nil in E.
  assert (Hc : all_chars (isnt ":"%char) (match tenant with Some t => t | None => "None" end) = true)
    by (destruct tenant as [t'|]; [apply Ho|done]).
  apply (f_equal (split_once ":"%char)) in E. rewrite !split_once_app in E by done.
  destruct tenant as [t'|]; injection E; congruence.
Qed.

Lemma answer_perm tenant l l' : l ≡ₚ l' -> answer_scoped tenant l -> answer_scoped tenant l'.
Proof. intros Hp H t Ht. rewrite <- Hp. by apply H. Qed.

Lemma answer_firstn tenant n l : answer_scoped tenant l -> answer_scoped tenant (firstn n l).
Proof. intros H t Ht. by apply Forall_take, H. Qed.

Lemma answer_unseen tenant all l : answer_scoped tenant all -> answer_scoped tenant l -> answer_scoped tenant (add_unseen all l).
Proof.
  intros Ha Hl t Ht. specialize (Ha t Ht). specialize (Hl t Ht). unfold add_unseen. revert all Ha.
  induction Hl as [|r l Hr _ IH]; intros all Ha; cbn [foldl]; [done|]. apply IH. case_match; [done|].
  apply Forall_app. by split; [|constructor].
Qed.

Lemma add_term_tenant ln x tenant scores t :
  Forall (fun p => of_tenant x tenant p.1 = true) scores ->
  Forall (fun p => of_tenant x tenant p.1 = true) (add_term ln x tenant scores t).
Proof.
  unfold add_term. generalize (default [] (dict_get t (bm_freq x))) as l. intros l. generalize (Z.of_nat (length l)) as df.
  intros df Hs. destruct (df =? 0); [done|]. revert scores Hs.
  induction l as [|p l IH]; intros scores Hs; cbn [foldl]; [done|].
  apply IH. destruct (of_tenant x tenant p.1) eqn:E; [by apply Forall_dict_set|done].
Qed.

(** A lexical hit of a tenant's search is a document of the tenant. *)
Lemma lexical_of_tenant ln set_order x query tenant k id :
  id ∈ map fst (bm25_search ln set_order x query tenant k) -> of_tenant x tenant id = true.
Proof.
  unfold bm25_search. intros Hin. destruct (tokenize query) as [|t ts]; [by apply elem_of_nil in Hin|].
  destruct (bm_n x =? 0); [by apply elem_of_nil in Hin|].
  assert (Hall : forall terms scores, Forall (fun p => of_tenant x tenant p.1 = true) scores ->
    Forall (fun p => of_tenant x tenant p.1 = true) (foldl (add_term ln x tenant) scores terms)).
  { induction terms as [|t' terms IH]; intros scores Hs; cbn [foldl]; [done|]. by apply IH, add_term_tenant. }
  apply list_elem_of_fmap in Hin as (p & -> & Hin). specialize (Hall (set_order (remove_dups (t :: ts))) [] ltac:(constructor)).
  rewrite Forall_forall in Hall. apply Hall. rewrite <- by_score_perm with (score := snd).
  rewrite <- (firstn_skipn k). apply elem_of_app. by left.
Qed.

Lemma fusion_scoped ln set_order x query tenant k v :
  answer_scoped tenant v ->
  answer_scoped tenant (reciprocal_rank_fusion v (bm25_search ln set_order x query tenant k) 60 (Some x)).
Proof.
  intros Hv t ->. apply Forall_forall. intros r Hr. apply fusion_from in Hr as [(r0 & Hr0 & E)|(y & d & [= <-] & Hd & _ & Hl & E)].
  - specialize (Hv t eq_refl). rewrite Forall_forall in Hv. unfold belongs, of_this_tenant. rewrite E. by apply Hv.
  - apply lexical_of_tenant in Hl. unfold belongs, of_this_tenant. rewrite E. cbn [lexical_result sr_document vd_metadata].
    rewrite dict_get_set, decide_True by done. unfold of_tenant, document in *. by rewrite Hd in Hl.
Qed.

Section service.
Context (repr : json -> string) (sqrt ln : Q -> Q) (embed : string -> option (list Q)) (set_order : list string -> list string)
  (two_digits : Q -> string) (config : RetrievalServiceConfig) (own : option string) (reranker : option Reranker).

(** What a service is asked. *)
Inductive request :=
| Retrieve (query : string) (tenant : option string) (filters : list (string * json)) (custom : option RetrievalConfig)
    (skip_cache : bool) (allowed : list string)
| Reranked (query : string) (tenant : option string) (top_k : nat)
| Hybrid (query : string) (tenant : option string) (top_k : nat) (allowed : list string)
| MultiQuery (query : string) (tenant : option string) (variations : list string) (top_k : nat).

Definition asked_by (q : request) : option string :=
  match q with Retrieve _ t _ _ _ _ | Reranked _ t _ | Hybrid _ t _ _ | MultiQuery _ t _ _ => t end.

Definition serve (now : Q) (q : request) : io retrieval retrieval_exc RetrievalResult :=
  match q with
  | Retrieve query t filters custom skip allowed =>
      retrieve repr sqrt embed two_digits config own now query t filters custom skip allowed
  | Reranked query t k => retrieve_with_reranking repr sqrt embed two_digits config own reranker now query t k
  | Hybrid query t k allowed => retrieve_hybrid repr sqrt embed ln set_order two_digits config own reranker now query t k allowed
  | MultiQuery query t variations k => multi_query_retrieval repr sqrt embed two_digits config own now query t variations k
  end.

(** Filtering by tenant is on. *)
Definition filters_by_tenant (q : request) : Prop :=
  match q with
  | Retrieve _ _ _ custom _ _ => rc_filter_by_tenant (default (rs_defaults config) custom) = true
  | MultiQuery _ _ _ _ => rc_filter_by_tenant (rs_defaults config) = true
  | _ => True
  end.

(** What happens to a service: questions, invalidations, and changes of its
    documents and its index by whoever else holds them. *)
Inductive event :=
| Asked (now : Q) (q : request)
| Invalidated (tenant : option string)
| Changed (docs : store) (index : option BM25Index).

Definition happens (e : event) (w : retrieval) : retrieval :=
  match e with
  | Asked now q => (serve now q w).2
  | Invalidated t => (invalidate_cache t w).2
  | Changed d x => {| documents := d; retrieval_cache := retrieval_cache w; lexical_index := x |}
  end.

Definition event_ok (e : event) : Prop :=
  match e with Asked _ q => tenant_ok_opt (asked_by q) /\ filters_by_tenant q | _ => True end.

Abbreviation scoped c tenant :=
  (triple cache_scoped c (fun r w => answer_scoped tenant (rr_results r) /\ cache_scoped w) (fun _ => cache_scoped)).

Lemma retrieve_scoped now query tenant filters custom skip allowed :
  tenant_ok_opt tenant -> rc_filter_by_tenant (default (rs_defaults config) custom) = true ->
  scoped (retrieve repr sqrt embed two_digits config own now query tenant filters custom skip allowed) tenant.
Proof.
  intros Ht Hf. unfold retrieve. case_match; [by apply triple_ret; intros w Hw; split; [intros ? ?; constructor|]|]. intros w Hw. unfold mbind at 1, io_bind at 1, get_st at 1. lazy beta iota zeta.
  match goal with |- context [if skip then None else ?m] => destruct (if skip then None else m) as [r|] eqn:Ec end; lazy beta iota zeta.
  - split; [|done]. intros t ->. destruct skip; [done|]. destruct (dict_get _ _) as [[r' at_]|] eqn:Ed; [|done].
    case_match; [|done]. injection Ec as ->. apply dict_get_elem in Ed. unfold cache_scoped in Hw.
    rewrite Forall_forall in Hw. exact (Hw _ Ed t query Ht eq_refl).
  - destruct (rag_search _ _ _ _ _ _ _ _) as [results|]; [|done]. cbn.
    assert (Ha : answer_scoped tenant (match tenant with
      | Some t => if rc_filter_by_tenant (default (rs_defaults config) custom) then List.filter (of_this_tenant t) results else results
      | None => results end)).
    { intros t ->. rewrite Hf. apply Forall_forall. intros r Hr. by apply list_elem_of_In, List.filter_In in Hr as [_ ?]. }
    split; [exact Ha|]. unfold cache_scoped. cbn. apply Forall_dict_set; [|done].
    intros t query' Hok E. cbn in *. apply Ha. by apply (cache_key_tenant tenant t query query').
Qed.

Lemma query_all_scoped now tenant queries : forall all,
  tenant_ok_opt tenant -> rc_filter_by_tenant (rs_defaults config) = true -> answer_scoped tenant all ->
  triple cache_scoped (query_all repr sqrt embed two_digits config own now tenant queries all)
    (fun l w => answer_scoped tenant l /\ cache_scoped w) (fun _ => cache_scoped).
Proof.
  induction queries as [|q queries IH]; intros all Ht Hf Ha; cbn [query_all]; [by apply triple_ret|].
  eapply triple_bind; [by apply retrieve_scoped|]. intros r w [Hr Hw].
  exact (IH (add_unseen all (rr_results r)) Ht Hf (answer_unseen _ _ _ Ha Hr) w Hw).
Qed.

Lemma serve_scoped now q : tenant_ok_opt (asked_by q) -> filters_by_tenant q -> scoped (serve now q) (asked_by q).
Proof.
  intros Ht Hf. destruct q as [query t filters custom skip allowed|query t k|query t k allowed|query t variations k];
    cbn [serve asked_by filters_by_tenant] in *.
  - by apply retrieve_scoped.
  - eapply triple_bind; [by apply retrieve_scoped|]. intros r w [Hr Hw]. split; [|done]. cbn. apply answer_firstn.
    apply (answer_perm _ (rr_results r)); [|done].
    destruct reranker; [by rewrite apply_rerank_perm|by rewrite simple_rerank_perm].
  - eapply triple_bind; [by apply retrieve_scoped|]. intros r w [Hr Hw].
    unfold mbind, io_bind, get_st. cbn -[bm25_search reciprocal_rank_fusion apply_rerank].
    destruct (lexical_index w) as [x|]; split; try done; apply answer_firstn; [|done].
    destruct reranker; [|by apply fusion_scoped].
    eapply answer_perm; [symmetry; apply apply_rerank_perm|by apply fusion_scoped].
  - eapply triple_bind; [by apply query_all_scoped; [..|intros ? ?; constructor]|]. intros l w [Hl Hw]. split; [|done].
    cbn. apply answer_firstn. apply (answer_perm _ l); [by rewrite by_score_perm|done].
Qed.

Lemma happens_scoped e w : event_ok e -> cache_scoped w -> cache_scoped (happens e w).
Proof.
  intros He Hw. destruct e as [now q|tenant|d x]; cbn [happens]; [|cbn|done].
  - pose proof (serve_scoped now q (proj1 He) (proj2 He) w Hw) as Hs.
    destruct (serve now q w) as [[r|e] w']; [apply Hs|exact Hs].
  - unfold cache_scoped. cbn. destruct tenant; [by apply Forall_keep|constructor].
Qed.

Definition history (l : list event) (w : retrieval) : retrieval := foldl (fun w e => happens e w) w l.

Lemma history_scoped l w : Forall event_ok l -> cache_scoped w -> cache_scoped (history l w).
Proof.
  intros Hl. revert w. induction Hl as [|e l He _ IH]; intros w Hw; [done|]. exact (IH _ (happens_scoped e w He Hw)).
Qed.

(** C40: While every question filters by tenant, whatever was asked before and
    however the documents and the index change in between, no answer of the
    service — plain, reranked, hybrid or of several queries, fresh or cached —
    holds a document of another tenant than the one that asked. *)
Theorem answers_tenant_scoped (docs : store) (index : option BM25Index) (l : list event) (now : Q) (q : request)
    (r : RetrievalResult) (tenant : string) :
  Forall event_ok l -> event_ok (Asked now q) -> asked_by q = Some tenant ->
  (serve now q (history l {| documents := docs; retrieval_cache := []; lexical_index := index |})).1 = Ret r ->
  Forall (fun d => of_this_tenant tenant d = true) (rr_results r).
Proof.
  intros Hl [Ht Hf] Hq Hr.
  pose proof (history_scoped l {| documents := docs; retrieval_cache := []; lexical_index := index |} Hl ltac:(constructor)) as Hw.
  pose proof (serve_scoped now q Ht Hf _ Hw) as Hs. destruct (serve now q _) as [[r'|e] w']; [|done].
  injection Hr as ->. by apply Hs.
Qed.
End service.

(** ** Metrics *)

Lemma ratio_le_one a b : (a <= b)%nat -> (ratio a b <= 1)%Q.
Proof.
  intros H. unfold ratio. destruct b as [|b]; [by replace a with 0%nat by lia|].
  apply Qle_shift_div_r; [by rewrite <- (Zlt_Qlt 0); lia|]. rewrite Qmult_1_l, <- Zle_Qle. lia.
Qed.

Lemma precision_le_one ids relevant k : (precision_at_k ids relevant k <= 1)%Q.
Proof.
  unfold precision_at_k. case_match; [discriminate|]. apply ratio_le_one. apply List.filter_length_le.
Qed.

(** Recall is at most one when no id is returned twice. *)
Lemma recall_le_one ids relevant k : NoDup ids -> (recall_at_k ids relevant k <= 1)%Q.
Proof.
  intros Hn. unfold recall_at_k. destruct relevant as [|r rs]; [discriminate|]. apply ratio_le_one.
  apply List.NoDup_incl_length.
  - apply NoDup_ListNoDup, NoDup_keep. unfold top. destruct k as [k|]; [|done].
    rewrite <- (firstn_skipn k ids) in Hn. by apply NoDup_app in Hn as [? _].
  - intros id [_ H]%List.filter_In. unfold relevant_in in H. apply bool_decide_eq_true in H. by apply list_elem_of_In.
Qed.

(** Otherwise it counts the id each time. *)
Example recall_counts_twice : (recall_at_k ["a"; "a"] ["a"] (Some 2%nat) == 2)%Q.
Proof. reflexivity. Qed.

(** ** Concrete runs *)

Definition some_config : RetrievalServiceConfig := {|
  rs_defaults := {| rc_top_k := 5; rc_threshold := 0; rc_spotlighting := true; rc_filter_by_tenant := true; rc_max_context := 0 |};
  cache_ttl_seconds := 300; hybrid_lexical_k := 20 |}.

Definition secret_doc : VectorDocument := {|
  vd_id := "d1"; vd_content := "refund codes"; vd_embedding := [1%Q];
  vd_metadata := [("tenant_id", JStr "t1"); ("source", JStr "secret")] |}.

Definition indexed : BM25Index :=
  upsert "d2" "refund policy" (Some "t1") (Some [("source", JStr "secret")])
    (upsert "d3" "refund of another tenant" (Some "t2") None new_index).

Definition a_service : retrieval := {|
  documents := [("d1", secret_doc)]; retrieval_cache := []; lexical_index := Some indexed |}.

(** Every text is embedded alike, the functions on numbers are the identity,
    and there is no reranker. *)
Definition serve_plainly := serve (fun _ => EmptyString) (fun q => q) (fun q => q) (fun _ => Some [1%Q]) (fun l => l)
  (fun _ => EmptyString) some_config None None.

Definition served_ids (o : outcome retrieval_exc RetrievalResult * retrieval) : list string :=
  match o.1 with Ret r => map (fun r => vd_id (sr_document r)) (rr_results r) | Raise _ => [] end.

Definition from_public : request := Retrieve "refund" (Some "t1") [] None false ["public"].

(** The sources a caller may read decide what a fresh answer holds; *)
Example sources_respected : served_ids (serve_plainly 0 from_public a_service) = [].
Proof. reflexivity. Qed.

(** a cached one holds what the first caller of the tenant was given. *)
Example cache_ignores_sources :
  let w := (serve_plainly 0 (Retrieve "refund" (Some "t1") [] None false []) a_service).2 in
  served_ids (serve_plainly 1 from_public w) = ["d1"].
Proof. reflexivity. Qed.

(** The lexical channel of a hybrid answer does not read the sources. *)
Example lexical_ignores_sources :
  served_ids (serve_plainly 0 (Hybrid "refund" (Some "t1") 5 ["public"]) a_service) = ["d2"].
Proof. vm_compute. reflexivity. Qed.

(** A document that names another tenant in its metadata is stored under it. *)
Example metadata_names_tenant :
  let d := {| kd_id := "d"; kd_content := "x"; kd_source := "s"; kd_created_at := None; kd_metadata := [("tenant_id", JStr "t2")] |} in
  dict_get "tenant_id" (vd_metadata (vector_document (Some "t1") d [])) = Some (JStr "t2").
Proof. reflexivity. Qed.

(** Nothing asked for, everything deleted. *)
Example empty_filter_deletes_all : delete_matching (fun _ => EmptyString) [] None (documents a_service) = (1, []).
Proof. reflexivity. Qed.

Definition some_changes : list index_change :=
  [Upserted "d3" "refund of another tenant" (Some "t2") None;
   Upserted "d2" "an old policy" (Some "t1") None;
   Indexed [("0", "shipping")] "t1" "doc" "faq";
   Upserted "d2" "refund policy" (Some "t1") (Some [("source", JStr "secret")]);
   Removed "doc:0"].

(** The index finds the document of the tenant. *)
Lemma bm25_is_reference_witness :
  map fst (bm25_search (fun q => q) (fun l => l) (built some_changes) "refund" (Some "t1") 5) = ["d2"]
  /\ (forall id s, (id, s) ∈ bm25_search (fun q => q) (fun l => l) (built some_changes) "refund" (Some "t1") 5 ->
        hit (built some_changes) (Some "t1") (remove_dups (tokenize "refund")) id
        /\ (s == reference_score (fun q => q) (built some_changes) (Some "t1") (remove_dups (tokenize "refund")) id)%Q).
Proof.
  split; [by vm_compute|].
  apply (bm25_is_reference (fun q => q) (fun l => l) (fun l => reflexivity l) some_changes "refund" (Some "t1") 5).
Defined.

Lemma answers_tenant_scoped_witness :
  Forall (fun d => of_this_tenant "t1" d = true)
    (match (serve_plainly 1 (Hybrid "refund" (Some "t1") 5 [])
              (history (fun _ => EmptyString) (fun q => q) (fun q => q) (fun _ => Some [1%Q]) (fun l => l) (fun _ => EmptyString)
                 some_config None None [Asked 0 (Retrieve "refund" (Some "t2") [] None false [])] a_service)).1 with
     | Ret r => rr_results r
     | Raise _ => []
     end).
Proof.
  destruct (serve_plainly 1 _ _) as [[r|e] w] eqn:E; [|constructor].
  apply (answers_tenant_scoped (fun _ => EmptyString) (fun q => q) (fun q => q) (fun _ => Some [1%Q]) (fun l => l)
    (fun _ => EmptyString) some_config None None [("d1", secret_doc)] (Some indexed)
    [Asked 0 (Retrieve "refund" (Some "t2") [] None false [])] 1 (Hybrid "refund" (Some "t1") 5 []) r "t1").
  - constructor; [|constructor]. by vm_compute.
  - by vm_compute.
  - reflexivity.
  - unfold serve_plainly, a_service in E. by rewrite E.
Defined.
