(* ===== verification/Coordinator.v ===== *)
(** * Session coordinator (backend/app/session/coordinator.py)

    At most one generation runs per thread: a local lock per thread in each
    process, and across processes a Redis lock with a lease (SET NX PX, and
    compare-and-delete and compare-and-renew scripts). *)

From S2P Require Import Prelude Redis.

Record CoordinatorConfig := { co_prefix : string; co_lease_seconds : Z; co_wait_seconds : Q }.

Definition default_coordinator_config : CoordinatorConfig :=
  {| co_prefix := "neryva:threadlock:"; co_lease_seconds := 120; co_wait_seconds := 15 |}.

Inductive coordinator_exc := CoordinatorBusy (local : bool).

Record CoordinatorLease := {
  l_key : string;
  l_token : string;
  l_redis_held : bool;
  l_released : bool;
}.

Section coordinator.
Context {St : Type} `{RedisKV St string}.
Context (cfg : CoordinatorConfig).

(** SET key token NX PX *)
Definition set_nx (now : Z) (key token : string) (px : Z) (s : St) : bool * St :=
  match redis_get now key s with
  | None => (true, redis_set now key token (Some px) s)
  | Some _ => (false, s)
  end.

(** [_RELEASE_LUA] *)
Definition release_script (now : Z) (key token : string) (s : St) : Z * St :=
  if decide (redis_get now key s = Some token) then (1, redis_del key s) else (0, s).

(** [_RENEW_LUA] *)
Definition renew_script (now : Z) (key token : string) (px : Z) (s : St) : Z * St :=
  if decide (redis_get now key s = Some token) then (1, redis_pexpire now key px s) else (0, s).

(** One process: its connection (the client may be missing), whether it takes
    Redis for available, and the keys whose local lock is held. *)
Record ThreadCoordinator := {
  co_redis : option (redis St);
  co_available : bool;
  local_locks : gset string;
}.

Definition co_run {A} (f : St -> A * St) : io ThreadCoordinator redis_exc A := fun c =>
  match co_redis c with
  | None => (Raise RedisError, c)
  | Some r =>
      let '(o, r) := redis_call f r in
      (o, {| co_redis := Some r; co_available := co_available c; local_locks := local_locks c |})
  end.

Definition set_co_available (b : bool) (c : ThreadCoordinator) : ThreadCoordinator :=
  {| co_redis := co_redis c; co_available := b; local_locks := local_locks c |}.
Definition set_locks (l : gset string) (c : ThreadCoordinator) : ThreadCoordinator :=
  {| co_redis := co_redis c; co_available := co_available c; local_locks := l |}.

Definition _lock_key (tenant thread : string) : string := co_prefix cfg +:+ tenant +:+ ":" +:+ thread.

Definition lease_ms : Z := co_lease_seconds cfg * 1000.

(** One attempt of [_acquire_redis_lock]: whether the server set the key;
    [None]: the command failed. *)
Definition try_redis_lock {E} (now : Z) (key token : string) : io ThreadCoordinator E (option bool) :=
  try_catch (b ← co_run (set_nx now key token lease_ms); mret (Some b))
    (fun _ => _ ← modify (set_co_available false); mret None).

(** [_acquire_redis_lock]: one attempt at each of the instants before the
    deadline; a failed command degrades to the local lock alone. *)
Fixpoint _acquire_redis_lock {E} (key token : string) (polls : list Z) : io ThreadCoordinator E bool :=
  match polls with
  | [] => mret false
  | now :: polls =>
      r ← try_redis_lock now key token;
      match r with
      | Some true | None => mret true
      | Some false => _acquire_redis_lock key token polls
      end
  end.

(** [_release_redis_lock] *)
Definition _release_redis_lock {E} (now : Z) (key token : string) : io ThreadCoordinator E unit :=
  c ← get_st;
  if negb (co_available c) then mret tt
  else try_catch (_ ← co_run (release_script now key token); mret tt) (fun _ => mret tt).

(** One round of [_renew_loop]: whether the loop goes on. *)
Definition renew_once {E} (now : Z) (l : CoordinatorLease) : io ThreadCoordinator E bool :=
  try_catch (r ← co_run (renew_script now (l_key l) (l_token l) lease_ms); mret (negb (r =? 0)))
            (fun _ => mret false).

(** [local_lock.acquire()] under the timeout, which ends the wait for a lock
    that is held; [local_lock.release()]. *)
Definition _local_lock_acquire (key : string) : io ThreadCoordinator coordinator_exc unit :=
  c ← get_st;
  if decide (key ∈ local_locks c) then throw (CoordinatorBusy true)
  else modify (fun c => set_locks ({[key]} ∪ local_locks c) c).
Definition _local_lock_release {E} (key : string) : io ThreadCoordinator E unit :=
  modify (fun c => set_locks (local_locks c ∖ {[key]}) c).

(** [ThreadCoordinator.acquire] *)
Definition acquire (tenant thread token : string) (polls : list Z) :
    io ThreadCoordinator coordinator_exc CoordinatorLease :=
  let key := _lock_key tenant thread in
  _ ← _local_lock_acquire key;
  redis_held ← _acquire_redis_lock key token polls;
  if negb redis_held then
    _ ← _local_lock_release key;
    throw (CoordinatorBusy false)
  else mret {| l_key := key; l_token := token; l_redis_held := redis_held; l_released := false |}.

(** [CoordinatorLease.release] *)
Definition lease_release {E} (now : Z) (l : CoordinatorLease) :
    io ThreadCoordinator E unit * CoordinatorLease :=
  if l_released l then (mret tt, l)
  else
    (_ ← (if l_redis_held l then _release_redis_lock now (l_key l) (l_token l) else mret tt);
     _local_lock_release (l_key l),
     {| l_key := l_key l; l_token := l_token l; l_redis_held := l_redis_held l; l_released := true |}).

(** ** One process: leases come and go *)

Inductive process_step : ThreadCoordinator * list string -> ThreadCoordinator * list string -> Prop :=
| ps_acquired tenant thread token polls c c' l live :
    acquire tenant thread token polls c = (Ret l, c') ->
    process_step (c, live) (c', l_key l :: live)
| ps_busy tenant thread token polls c c' e live :
    acquire tenant thread token polls c = (Raise e, c') -> process_step (c, live) (c', live)
| ps_released now l c c' o pre post : l_released l = false ->
    (lease_release (E:=coordinator_exc) now l).1 c = (o, c') ->
    process_step (c, pre ++ l_key l :: post) (c', pre ++ post)
| ps_renewed now l c live :
    process_step (c, live) ((renew_once (E:=coordinator_exc) now l c).2, live).

Inductive process_reachable (c0 : ThreadCoordinator) : ThreadCoordinator * list string -> Prop :=
| pr_init : process_reachable c0 (c0, [])
| pr_step s s' : process_reachable c0 s -> process_step s s' -> process_reachable c0 s'.

(** ** Several processes on one server

    Each process is a coordinator of its own, with its own connection and its
    own lost commands; the store of the server is shared.  An acquisition takes
    its local lock, then polls the server while the others go on, then holds a
    lease or gives up.  A lease is written down with the instant it ends on the
    server unless renewed, and with whether the server granted it. *)

Definition attach (s : St) (c : ThreadCoordinator) : ThreadCoordinator :=
  {| co_redis := (fun r => Build_redis s (faults r)) <$> co_redis c; co_available := co_available c;
     local_locks := local_locks c |}.
Definition server_of (s : St) (c : ThreadCoordinator) : St :=
  match co_redis c with Some r => store r | None => s end.

Record attempt := { at_proc : nat; at_key : string; at_token : string }.
Record held := { hd_proc : nat; hd_lease : CoordinatorLease; hd_ends : Z; hd_granted : bool }.

Record fleet := {
  fl_now : Z;
  fl_store : St;
  fl_procs : list ThreadCoordinator;
  fl_waiting : list attempt;
  fl_held : list held;
}.

Definition attempt_of (h : held) : attempt :=
  {| at_proc := hd_proc h; at_key := l_key (hd_lease h); at_token := l_token (hd_lease h) |}.
(** Who holds a local lock, and for which key. *)
Definition attempts (s : fleet) : list attempt := fl_waiting s ++ map attempt_of (fl_held s).

(** The process [p] has run up to the instant [now]. *)
Definition ran (p : nat) (c : ThreadCoordinator) (now : Z) (s : fleet) : fleet :=
  {| fl_now := now; fl_store := server_of (fl_store s) c; fl_procs := <[p := c]> (fl_procs s);
     fl_waiting := fl_waiting s; fl_held := fl_held s |}.
Definition put_waiting (l : list attempt) (s : fleet) : fleet :=
  {| fl_now := fl_now s; fl_store := fl_store s; fl_procs := fl_procs s; fl_waiting := l; fl_held := fl_held s |}.
Definition put_held (l : list held) (s : fleet) : fleet :=
  {| fl_now := fl_now s; fl_store := fl_store s; fl_procs := fl_procs s; fl_waiting := fl_waiting s; fl_held := l |}.

Definition lease_of (a : attempt) : CoordinatorLease :=
  {| l_key := at_key a; l_token := at_token a; l_redis_held := true; l_released := false |}.

(** What a poll's reply makes of the attempt. *)
Definition polled (a : attempt) (now : Z) (reply : option bool) (pre post : list attempt) (s : fleet) : fleet :=
  match reply with
  | Some false => s
  | r => put_waiting (pre ++ post)
           (put_held ({| hd_proc := at_proc a; hd_lease := lease_of a; hd_ends := now + lease_ms;
                         hd_granted := bool_decide (r = Some true) |} :: fl_held s) s)
  end.

Inductive fleet_step (s : fleet) : fleet -> Prop :=
| fs_wait now : fl_now s <= now ->
    fleet_step s {| fl_now := now; fl_store := fl_store s; fl_procs := fl_procs s; fl_waiting := fl_waiting s;
                    fl_held := fl_held s |}
| fs_begin a c c' : fl_procs s !! at_proc a = Some c -> at_token a ∉ map at_token (attempts s) ->
    _local_lock_acquire (at_key a) (attach (fl_store s) c) = (Ret tt, c') ->
    fleet_step s (put_waiting (a :: fl_waiting s) (ran (at_proc a) c' (fl_now s) s))
| fs_busy p key c c' e : fl_procs s !! p = Some c ->
    _local_lock_acquire key (attach (fl_store s) c) = (Raise e, c') -> fleet_step s (ran p c' (fl_now s) s)
| fs_poll a c c' now reply pre post : fl_procs s !! at_proc a = Some c -> fl_waiting s = pre ++ a :: post ->
    fl_now s <= now ->
    try_redis_lock (E := coordinator_exc) now (at_key a) (at_token a) (attach (fl_store s) c) = (Ret reply, c') ->
    fleet_step s (polled a now reply pre post (ran (at_proc a) c' now s))
| fs_give_up a c c' pre post : fl_procs s !! at_proc a = Some c -> fl_waiting s = pre ++ a :: post ->
    _local_lock_release (E := coordinator_exc) (at_key a) (attach (fl_store s) c) = (Ret tt, c') ->
    fleet_step s (put_waiting (pre ++ post) (ran (at_proc a) c' (fl_now s) s))
| fs_release h c c' now pre post : fl_procs s !! hd_proc h = Some c -> fl_held s = pre ++ h :: post ->
    fl_now s <= now ->
    (lease_release (E := coordinator_exc) now (hd_lease h)).1 (attach (fl_store s) c) = (Ret tt, c') ->
    fleet_step s (put_held (pre ++ post) (ran (hd_proc h) c' now s))
| fs_renew h c c' now b pre post : fl_procs s !! hd_proc h = Some c -> fl_held s = pre ++ h :: post ->
    fl_now s <= now ->
    renew_once (E := coordinator_exc) now (hd_lease h) (attach (fl_store s) c) = (Ret b, c') ->
    fleet_step s (put_held (pre ++ {| hd_proc := hd_proc h; hd_lease := hd_lease h;
                                      hd_ends := if b : bool then now + lease_ms else hd_ends h;
                                      hd_granted := hd_granted h |} :: post) (ran (hd_proc h) c' now s)).

Definition fresh_fleet (s : fleet) : Prop :=
  fl_waiting s = [] /\ fl_held s = [] /\ Forall (fun c => local_locks c = ∅) (fl_procs s).

Inductive fleet_reachable (s0 : fleet) : fleet -> Prop :=
| fr_init : fleet_reachable s0 s0
| fr_step s s' : fleet_reachable s0 s -> fleet_step s s' -> fleet_reachable s0 s'.

(** ** Lemmas *)

(** The Redis half never touches the local locks. *)
Lemma co_run_locks {A} (f : St -> A * St) c :
  local_locks (co_run f c).2 = local_locks c /\ co_available (co_run f c).2 = co_available c.
Proof. unfold co_run. destruct (co_redis c) as [r|]; [|done]. by destruct (redis_call f r) as [[]]. Qed.

Lemma acquire_redis_lock_locks {E} key token polls c :
  exists b c', @_acquire_redis_lock E key token polls c = (Ret b, c') /\ local_locks c' = local_locks c.
Proof.
  revert c. induction polls as [|now polls IH]; intros c; [by eexists _, _|].
  cbn [_acquire_redis_lock]. unfold try_redis_lock, mbind, io_bind, try_catch, modify.
  pose proof (co_run_locks (set_nx now key token lease_ms) c) as [Hl _].
  destruct (co_run (set_nx now key token lease_ms) c) as [[[]|] c1]; simpl in *.
  - by eexists _, _.
  - destruct (IH c1) as (b & c' & -> & Hc'). eexists _, _. split; [done|]. congruence.
  - by eexists _, _.
Qed.

Lemma acquire_spec tenant thread token polls c :
  let key := _lock_key tenant thread in
  let '(o, c') := acquire tenant thread token polls c in
  match o with
  | Ret l => key ∉ local_locks c /\ l_key l = key /\ local_locks c' = {[key]} ∪ local_locks c
  | Raise _ => local_locks c' = local_locks c
  end.
Proof.
  simpl. unfold acquire, _local_lock_acquire, _local_lock_release, mbind, io_bind, get_st, modify, throw.
  case_decide as Hk; [done|].
  destruct (acquire_redis_lock_locks (E:=coordinator_exc) (_lock_key tenant thread) token polls
    (set_locks ({[_lock_key tenant thread]} ∪ local_locks c) c)) as (b & c' & -> & Hc').
  simpl in Hc'. destruct b; simpl; [done|]. rewrite Hc'. set_solver.
Qed.

Lemma release_locks {E} now l c :
  l_released l = false ->
  let '(o, c') := (lease_release (E:=E) now l).1 c in
  o = Ret tt /\ local_locks c' = local_locks c ∖ {[l_key l]}.
Proof.
  intros Hl. unfold lease_release. rewrite Hl. simpl. unfold mbind, io_bind, modify.
  assert (exists c1, (if l_redis_held l then _release_redis_lock (E:=E) now (l_key l) (l_token l)
    else mret tt) c = (Ret tt, c1) /\ local_locks c1 = local_locks c) as (c1 & -> & Hc1).
  { destruct (l_redis_held l); [|by eexists]. unfold _release_redis_lock, mbind, io_bind, get_st, try_catch.
    destruct (negb _); [by eexists|].
    pose proof (co_run_locks (release_script now (l_key l) (l_token l)) c) as [Hr _].
    destruct (co_run _ c) as [[a|] c1]; by eexists. }
  simpl. by rewrite Hc1.
Qed.

Definition process_inv (s : ThreadCoordinator * list string) : Prop :=
  NoDup s.2 /\ forall k, k ∈ local_locks s.1 <-> k ∈ s.2.

Lemma process_inv_step s s' : process_inv s -> process_step s s' -> process_inv s'.
Proof.
  intros [Hnd Hk] Hst. destruct Hst as [tenant thread token polls c c' l live Ha
    |tenant thread token polls c c' e live Ha|now l c c' o pre post Hl Hr|now l c live]; simpl in *.
  - pose proof (acquire_spec tenant thread token polls c) as Hs. rewrite Ha in Hs. simpl in Hs.
    destruct Hs as (Hn & -> & Hl). split; simpl; [constructor; [by rewrite <- Hk|done]|].
    intros k. rewrite Hl, elem_of_union, elem_of_singleton, elem_of_cons, Hk. done.
  - pose proof (acquire_spec tenant thread token polls c) as Hs. rewrite Ha in Hs. simpl in Hs.
    split; simpl; [done|]. intros k. by rewrite Hs.
  - pose proof (release_locks (E:=coordinator_exc) now l c Hl) as Hs. rewrite Hr in Hs. destruct Hs as [_ Hs].
    rewrite <- Permutation_middle in Hnd. apply NoDup_cons in Hnd as [Hni Hnd].
    split; simpl; [done|]. intros k. rewrite Hs, elem_of_difference, elem_of_singleton, Hk.
    rewrite <- Permutation_middle, elem_of_cons. split; [tauto|].
    intros Hin. split; [by right|]. intros ->. done.
  - split; simpl; [done|]. intros k. rewrite <- Hk. unfold renew_once, try_catch, mbind, io_bind.
    pose proof (co_run_locks (renew_script now (l_key l) (l_token l) lease_ms) c) as [Hr _].
    destruct (co_run _ c) as [[a|] c1]; simpl in *; by rewrite Hr.
Qed.

(** ** Properties *)

(** *** The invariant of a fleet *)

Definition slot (a : attempt) : nat * string := (at_proc a, at_key a).

(** A lease in order: while it has not ended, what the server granted is its. *)
Definition in_order (s : fleet) (h : held) : Prop :=
  l_released (hd_lease h) = false /\ l_redis_held (hd_lease h) = true /\ hd_ends h <= fl_now s + lease_ms
  /\ (hd_granted h = true -> forall t, fl_now s <= t < hd_ends h ->
      redis_get t (l_key (hd_lease h)) (fl_store s) = Some (l_token (hd_lease h)))
  /\ (hd_granted h = false -> forall c, fl_procs s !! hd_proc h = Some c -> co_available c = false).

Record fleet_inv (s : fleet) : Prop := {
  fi_tokens : NoDup (map at_token (attempts s));
  fi_slots : NoDup (map slot (attempts s));
  fi_locks : forall p c k, fl_procs s !! p = Some c -> k ∈ local_locks c <-> (p, k) ∈ map slot (attempts s);
  fi_held : Forall (in_order s) (fl_held s);
}.

Lemma fresh_fleet_inv s : fresh_fleet s -> fleet_inv s.
Proof.
  intros (Hw & Hh & Hl). split; unfold attempts; rewrite ?Hw, ?Hh; cbn; try constructor.
  - rewrite Forall_forall in Hl. apply list_elem_of_lookup_2 in H0. rewrite (Hl _ H0). set_solver.
  - by intros ?%elem_of_nil.
Qed.

(** What is read later is there now. *)
Lemma get_later now t k (s : St) v : now <= t -> redis_get t k s = Some v -> redis_get now k s = Some v.
Proof.
  intros Ht. unfold redis_get. rewrite (look_later now t) by done.
  destruct (look now k s) as [[v' [d|]]|]; cbn; [by destruct (t <? d)|done..].
Qed.

(** The commands leave a key that holds another's token. *)
Lemma set_nx_leaves now t k token k' v s : now <= t -> redis_get t k' s = Some v ->
  redis_get t k' (set_nx now k token lease_ms s).2 = Some v.
Proof.
  intros Ht Hv. unfold set_nx. destruct (redis_get now k s) eqn:E; [done|]. cbn. unfold redis_get in *. rewrite look_set by done.
  case_decide as Hk; [|done]. subst k'. pose proof (get_later now t k s v Ht Hv) as Hn. unfold redis_get in Hn. congruence.
Qed.

Lemma set_nx_granted now t k token s : now <= t < now + lease_ms -> (set_nx now k token lease_ms s).1 = true ->
  redis_get t k (set_nx now k token lease_ms s).2 = Some token.
Proof.
  intros Ht. unfold set_nx. destruct (redis_get now k s) eqn:E; [done|]. intros _. cbn. unfold redis_get.
  rewrite look_set, decide_True by (done || lia). cbn. by destruct (Z.ltb_spec t (now + lease_ms)); [|lia].
Qed.

Lemma release_leaves now t k token k' v s : now <= t -> v <> token -> redis_get t k' s = Some v ->
  redis_get t k' (release_script now k token s).2 = Some v.
Proof.
  intros Ht Hne Hv. unfold release_script. case_decide as E; [|done]. cbn. unfold redis_get in *. rewrite look_del.
  case_decide as Hk; [|done]. subst k'. pose proof (get_later now t k s v Ht Hv) as Hn. unfold redis_get in Hn. congruence.
Qed.

Lemma renew_leaves now t k token k' v s : now <= t < now + lease_ms -> redis_get t k' s = Some v ->
  redis_get t k' (renew_script now k token lease_ms s).2 = Some v.
Proof.
  intros Ht Hv. unfold renew_script. case_decide as E; [|done]. cbn. pose proof Hv as Hv'. unfold redis_get in Hv |- *.
  rewrite look_pexpire by lia. case_decide as Hk; [|done]. subst k'.
  apply (get_later now) in Hv'; [|lia]. unfold redis_get in Hv'. destruct (look now k s) as [[v' e]|]; [|done].
  injection Hv' as ->. cbn. by destruct (Z.ltb_spec t (now + lease_ms)); [|lia].
Qed.

Lemma renew_renewed now t k token s : now <= t < now + lease_ms -> (renew_script now k token lease_ms s).1 <> 0 ->
  redis_get t k (renew_script now k token lease_ms s).2 = Some token.
Proof.
  intros Ht. unfold renew_script. case_decide as E; [|done]. intros _. cbn. unfold redis_get in *.
  rewrite look_pexpire, decide_True by (done || lia). destruct (look now k s) as [[v' e]|]; [|done]. injection E as ->. cbn.
  by destruct (Z.ltb_spec t (now + lease_ms)); [|lia].
Qed.

(** A command of an attached process: run or not, and replied or not. *)
Lemma attached_cases {A} (f : St -> A * St) s c :
  let '(o, c') := co_run f (attach s c) in
  local_locks c' = local_locks c /\ co_available c' = co_available c
  /\ (server_of s c' = s \/ server_of s c' = (f s).2)
  /\ (forall a, o = Ret a -> a = (f s).1 /\ server_of s c' = (f s).2).
Proof.
  unfold co_run, attach, server_of. cbn. destruct (co_redis c) as [r|]; cbn; [|split_and!; by auto].
  destruct (redis_call_cases f (Build_redis s (faults r))) as [[fs ->]|[[fs ->]|[fs ->]]]; cbn; split_and!; auto;
    by intros a [= <-].
Qed.

Lemma in_order_ran s h p c c' now : fl_procs s !! p = Some c -> fl_now s <= now ->
  (co_available c' = true -> co_available c = true) ->
  (forall t, now <= t < hd_ends h -> redis_get t (l_key (hd_lease h)) (fl_store s) = Some (l_token (hd_lease h)) ->
     redis_get t (l_key (hd_lease h)) (server_of (fl_store s) c') = Some (l_token (hd_lease h))) ->
  in_order s h -> in_order (ran p c' now s) h.
Proof.
  intros Hp Hnow Hav Hst (H1 & H2 & H3 & H4 & H5). split_and!; try done; cbn.
  - lia.
  - intros Hg t Ht. apply Hst; [done|]. apply H4; [done|lia].
  - intros Hg c1 Hc1. destruct (decide (hd_proc h = p)) as [E|E].
    + rewrite E, list_lookup_insert_eq in Hc1 by (by eapply lookup_lt_Some). injection Hc1 as <-.
      specialize (H5 Hg c). rewrite E in H5. specialize (H5 Hp). destruct (co_available c'); naive_solver.
    + rewrite list_lookup_insert_ne in Hc1 by done. by apply H5.
Qed.

(** The local locks after a process has run. *)
Lemma locks_ran s s' p c c' : fleet_inv s -> fl_procs s !! p = Some c -> fl_procs s' = <[p := c']> (fl_procs s) ->
  (forall q k, q <> p -> (q, k) ∈ map slot (attempts s') <-> (q, k) ∈ map slot (attempts s)) ->
  (forall k, k ∈ local_locks c' <-> (p, k) ∈ map slot (attempts s')) ->
  forall q c1 k, fl_procs s' !! q = Some c1 -> k ∈ local_locks c1 <-> (q, k) ∈ map slot (attempts s').
Proof.
  intros Hi Hp Eprocs Hother Hown q c1 k Hq. rewrite Eprocs in Hq. destruct (decide (q = p)) as [->|E].
  - rewrite list_lookup_insert_eq in Hq by (by eapply lookup_lt_Some). injection Hq as <-. apply Hown.
  - rewrite list_lookup_insert_ne in Hq by done. rewrite Hother by done. by eapply fi_locks.
Qed.

(** The attempts of a state with one added, kept or removed. *)
Lemma inv_same s s' p c c' : fleet_inv s -> fl_procs s !! p = Some c -> fl_procs s' = <[p := c']> (fl_procs s) ->
  local_locks c' = local_locks c -> attempts s' ≡ₚ attempts s -> Forall (in_order s') (fl_held s') -> fleet_inv s'.
Proof.
  intros Hi Hp Eprocs El Ea Hh. split.
  - rewrite Ea. apply Hi.
  - rewrite Ea. apply Hi.
  - apply (locks_ran s s' p c c'); [done..| |].
    + intros q k _. by rewrite Ea.
    + intros k. rewrite El, Ea. by eapply fi_locks.
  - done.
Qed.

Lemma inv_removed s s' p c c' a : fleet_inv s -> fl_procs s !! p = Some c -> fl_procs s' = <[p := c']> (fl_procs s) ->
  attempts s ≡ₚ a :: attempts s' -> at_proc a = p -> local_locks c' = local_locks c ∖ {[at_key a]} ->
  Forall (in_order s') (fl_held s') -> fleet_inv s'.
Proof.
  intros Hi Hp Eprocs Ea Eproc El Hh. pose proof (fi_slots _ Hi) as Hs. pose proof (fi_tokens _ Hi) as Ht.
  rewrite Ea in Hs, Ht. cbn in Hs, Ht. apply NoDup_cons in Hs as [Hn Hs]. apply NoDup_cons in Ht as [_ Ht].
  split; [done|done| |done]. apply (locks_ran s s' p c c'); [done..| |].
  - intros q k Hq. rewrite Ea. cbn. rewrite elem_of_cons. split; [by right|]. intros [E|E]; [|done].
    unfold slot in E. congruence.
  - intros k. rewrite El, elem_of_difference, elem_of_singleton, (fi_locks _ Hi p c k Hp), Ea. cbn. rewrite elem_of_cons.
    unfold slot at 1. rewrite Eproc. split.
    + intros [[E|E] Hk]; [congruence|done].
    + intros E. split; [by right|]. intros ->. apply Hn. unfold slot at 1. by rewrite Eproc.
Qed.

Lemma begin_inv s a c c' : fleet_inv s -> fl_procs s !! at_proc a = Some c -> at_token a ∉ map at_token (attempts s) ->
  _local_lock_acquire (at_key a) (attach (fl_store s) c) = (Ret tt, c') ->
  fleet_inv (put_waiting (a :: fl_waiting s) (ran (at_proc a) c' (fl_now s) s)).
Proof.
  intros Hi Hp Hfresh Ha. unfold _local_lock_acquire, mbind, io_bind, get_st, modify, throw in Ha. cbn in Ha.
  case_decide as Hk; [done|]. injection Ha as <-. rewrite (fi_locks _ Hi _ _ _ Hp) in Hk.
  set (c' := set_locks _ _). set (s' := put_waiting _ _).
  assert (Ea : attempts s' = a :: attempts s) by done. split.
  - rewrite Ea. cbn. apply NoDup_cons. split; [done|apply Hi].
  - rewrite Ea. cbn. apply NoDup_cons. split; [done|apply Hi].
  - apply (locks_ran s s' (at_proc a) c c'); [done..| |].
    + intros q k Hq. rewrite Ea. cbn. rewrite elem_of_cons. split; [|by right]. intros [E|E]; [|done]. unfold slot in E. congruence.
    + intros k. rewrite Ea. cbn. rewrite elem_of_union, elem_of_singleton, elem_of_cons, (fi_locks _ Hi _ _ _ Hp). unfold slot at 2.
      naive_solver congruence.
  - cbn. eapply Forall_impl; [apply Hi|]. intros h. apply (in_order_ran s h _ c c' (fl_now s) Hp); [lia|done|].
    intros t _ Hg. unfold server_of, c'. cbn. by destruct (co_redis c).
Qed.

Lemma busy_inv s p key c c' e : fleet_inv s -> fl_procs s !! p = Some c ->
  _local_lock_acquire key (attach (fl_store s) c) = (Raise e, c') -> fleet_inv (ran p c' (fl_now s) s).
Proof.
  intros Hi Hp Ha. unfold _local_lock_acquire, mbind, io_bind, get_st, modify, throw in Ha. cbn in Ha.
  case_decide; [|done]. injection Ha as _ <-. apply (inv_same s _ p c (attach (fl_store s) c)); [done..|].
  cbn. eapply Forall_impl; [apply Hi|]. intros h. apply (in_order_ran s h _ c _ (fl_now s) Hp); [lia|done|].
  intros t _ Hg. unfold server_of, attach. cbn. by destruct (co_redis c).
Qed.

Lemma attempt_of_lease a e g :
  attempt_of {| hd_proc := at_proc a; hd_lease := lease_of a; hd_ends := e; hd_granted := g |} = a.
Proof. by destruct a. Qed.

Lemma attempts_poll a pre post (held : list held) : (pre ++ a :: post) ++ map attempt_of held ≡ₚ (pre ++ post) ++ a :: map attempt_of held.
Proof. rewrite <- (Permutation_middle pre post a). cbn. by rewrite Permutation_middle. Qed.

Lemma poll_inv s a c c' now reply pre post : 0 < lease_ms -> fleet_inv s -> fl_procs s !! at_proc a = Some c ->
  fl_waiting s = pre ++ a :: post -> fl_now s <= now ->
  try_redis_lock (E := coordinator_exc) now (at_key a) (at_token a) (attach (fl_store s) c) = (Ret reply, c') ->
  fleet_inv (polled a now reply pre post (ran (at_proc a) c' now s)).
Proof.
  intros Hms Hi Hp Hw Hnow Ht. unfold try_redis_lock, try_catch, mbind, io_bind, modify in Ht.
  pose proof (attached_cases (set_nx now (at_key a) (at_token a) lease_ms) (fl_store s) c) as Hc.
  assert (Hkeep : forall c1 h, (server_of (fl_store s) c1 = fl_store s
      \/ server_of (fl_store s) c1 = (set_nx now (at_key a) (at_token a) lease_ms (fl_store s)).2) ->
    (co_available c1 = true -> co_available c = true) -> in_order s h -> in_order (ran (at_proc a) c1 now s) h).
  { intros c1 h Hst Hav. apply in_order_ran with (c := c); [done..|]. intros t Hr Hg.
    destruct Hst as [-> | ->]; [done|]. apply set_nx_leaves; [lia|done]. }
  assert (Hother : forall c1, (server_of (fl_store s) c1 = fl_store s
      \/ server_of (fl_store s) c1 = (set_nx now (at_key a) (at_token a) lease_ms (fl_store s)).2) ->
    (co_available c1 = true -> co_available c = true) -> Forall (in_order (ran (at_proc a) c1 now s)) (fl_held s)).
  { intros c1 Hst Hav. eapply Forall_impl; [apply Hi|]. intros h. by apply Hkeep. }
  destruct (co_run _ _) as [[b|e] c1]; destruct Hc as (Hl & Hav & Hst & Hr); cbn in Ht; injection Ht as <- <-.
  - destruct (Hr b eq_refl) as [Eb Es]. destruct b; cycle 1.
    + apply (inv_same s _ (at_proc a) c c1); try done. apply Hother; [done|congruence].
    + eapply (inv_same s _ (at_proc a) c c1); [done..| |].
      * unfold attempts. cbn [polled put_waiting put_held ran fl_waiting fl_held map]. rewrite attempt_of_lease, Hw.
        symmetry. apply attempts_poll.
      * cbn. constructor; [|apply Hother; [done|congruence]]. split_and!; cbn; try done; try lia.
        intros _ t Hrange. rewrite Es. apply set_nx_granted; [lia|congruence].
  - set (c2 := set_co_available false c1).
    assert (Es2 : server_of (fl_store s) c2 = server_of (fl_store s) c1) by done.
    eapply (inv_same s _ (at_proc a) c c2); [done..| |].
    + unfold attempts. cbn [polled put_waiting put_held ran fl_waiting fl_held map]. rewrite attempt_of_lease, Hw.
        symmetry. apply attempts_poll.
    + cbn. constructor; [|apply Hother; [by rewrite Es2|done]]. split_and!; cbn; try done; try lia.
      intros _ c3 Hc3. rewrite list_lookup_insert_eq in Hc3 by (by eapply lookup_lt_Some). by injection Hc3 as <-.
Qed.

Lemma give_up_inv s a c c' pre post : fleet_inv s -> fl_procs s !! at_proc a = Some c -> fl_waiting s = pre ++ a :: post ->
  _local_lock_release (E := coordinator_exc) (at_key a) (attach (fl_store s) c) = (Ret tt, c') ->
  fleet_inv (put_waiting (pre ++ post) (ran (at_proc a) c' (fl_now s) s)).
Proof.
  intros Hi Hp Hw [= <-]. set (c' := set_locks _ _).
  apply (inv_removed s _ (at_proc a) c c' a); [done..| |done|done|].
  - unfold attempts. cbn. by rewrite Hw, <- (Permutation_middle pre post a).
  - cbn. eapply Forall_impl; [apply Hi|]. intros h. apply (in_order_ran s h _ c c' (fl_now s) Hp); [lia|done|].
    intros t _ Hg. unfold server_of, c'. cbn. by destruct (co_redis c).
Qed.

(** Two leases carry two tokens. *)
Lemma tokens_apart s h pre post h' : fleet_inv s -> fl_held s = pre ++ h :: post -> h' ∈ pre ++ post ->
  l_token (hd_lease h') <> l_token (hd_lease h).
Proof.
  intros Hi Eh Hin. pose proof (fi_tokens _ Hi) as Hn. unfold attempts in Hn. rewrite Eh, map_app in Hn.
  apply NoDup_app in Hn as (_ & _ & Hn). rewrite <- (Permutation_middle pre post h) in Hn. cbn in Hn.
  apply NoDup_cons in Hn as [Hn _]. intros E. apply Hn. rewrite <- E.
  change (map ?f ?l) with (f <$> l). apply list_elem_of_fmap. exists (attempt_of h'). split; [done|].
  apply list_elem_of_fmap. by exists h'.
Qed.

Lemma release_inv s h c c' now pre post : fleet_inv s -> fl_procs s !! hd_proc h = Some c ->
  fl_held s = pre ++ h :: post -> fl_now s <= now ->
  (lease_release (E := coordinator_exc) now (hd_lease h)).1 (attach (fl_store s) c) = (Ret tt, c') ->
  fleet_inv (put_held (pre ++ post) (ran (hd_proc h) c' now s)).
Proof.
  intros Hi Hp Eh Hnow Hr. pose proof (fi_held _ Hi) as Hh. rewrite Eh in Hh.
  assert (Hin : in_order s h) by (rewrite Forall_forall in Hh; apply Hh, elem_of_app; right; left).
  destruct Hin as (Hrel & Hred & _). unfold lease_release in Hr. rewrite Hrel, Hred in Hr. cbn [fst] in Hr.
  assert (Hst : local_locks c' = local_locks c ∖ {[at_key (attempt_of h)]} /\ co_available c' = co_available c
    /\ (server_of (fl_store s) c' = fl_store s
        \/ server_of (fl_store s) c' = (release_script now (l_key (hd_lease h)) (l_token (hd_lease h)) (fl_store s)).2)).
  { revert Hr. unfold _release_redis_lock, _local_lock_release, mbind, io_bind, get_st, try_catch, modify.
    destruct (negb _).
    - intros [= <-]. cbn. split_and!; [done..|]. left. unfold server_of. cbn. by destruct (co_redis c).
    - pose proof (attached_cases (release_script now (l_key (hd_lease h)) (l_token (hd_lease h))) (fl_store s) c) as Hc.
      destruct (co_run _ _) as [[b|e] c1]; destruct Hc as (Hl & Hav & Hst & _); intros [= <-]; cbn; rewrite Hl; by split_and!. }
  destruct Hst as (Hl & Hav & Hst). apply (inv_removed s _ (hd_proc h) c c' (attempt_of h)); [done..| |done|done|].
  - unfold attempts. cbn [put_held ran fl_waiting fl_held]. rewrite Eh, <- (Permutation_middle pre post h). cbn.
    by rewrite <- Permutation_middle.
  - cbn. rewrite Forall_forall. intros h' Hin'. rewrite <- (Permutation_middle pre post h) in Hh. apply Forall_cons in Hh as [_ Hh].
    rewrite Forall_forall in Hh. refine (in_order_ran s h' _ c c' now Hp Hnow _ _ (Hh h' Hin')); [congruence|].
    intros t Ht Hg. destruct Hst as [-> | ->]; [done|]. apply release_leaves; [lia| |done]. by eapply tokens_apart.
Qed.

Lemma renew_inv s h c c' now b pre post : fleet_inv s -> fl_procs s !! hd_proc h = Some c ->
  fl_held s = pre ++ h :: post -> fl_now s <= now ->
  renew_once (E := coordinator_exc) now (hd_lease h) (attach (fl_store s) c) = (Ret b, c') ->
  fleet_inv (put_held (pre ++ {| hd_proc := hd_proc h; hd_lease := hd_lease h;
      hd_ends := if b : bool then now + lease_ms else hd_ends h; hd_granted := hd_granted h |} :: post) (ran (hd_proc h) c' now s)).
Proof.
  intros Hi Hp Eh Hnow Hr. pose proof (fi_held _ Hi) as Hh. rewrite Eh in Hh.
  unfold renew_once, try_catch, mbind, io_bind in Hr.
  pose proof (attached_cases (renew_script now (l_key (hd_lease h)) (l_token (hd_lease h)) lease_ms) (fl_store s) c) as Hc.
  destruct (co_run _ _) as [o c1] eqn:Erun. destruct Hc as (Hl & Hav & Hst & Hrep).
  assert (Hb : c1 = c' /\ (b = true -> exists r, o = Ret r /\ r <> 0)).
  { destruct o as [r|e]; injection Hr as <- <-; split; try done. intros E. exists r. split; [done|].
    destruct (Z.eqb_spec r 0); done. }
  destruct Hb as [-> Hb].
  assert (Hkeep : forall h', in_order s h' -> in_order (ran (hd_proc h) c' now s) h').
  { intros h' Ho. refine (in_order_ran s h' _ c c' now Hp Hnow _ _ Ho); [congruence|]. intros t Ht Hg.
    destruct Hst as [-> | ->]; [done|]. apply renew_leaves; [|done]. destruct Ho as (_ & _ & He & _). lia. }
  eapply (inv_same s _ (hd_proc h) c c'); [done..| |].
  - unfold attempts. cbn [put_held ran fl_waiting fl_held]. rewrite Eh, !map_app. done.
  - cbn. apply Forall_app in Hh as [H1 H2]. apply Forall_cons in H2 as [H2 H3]. apply Forall_app. split.
    { eapply Forall_impl; [exact H1|]. intros h'. apply Hkeep. }
    constructor; [|eapply Forall_impl; [exact H3|]; intros h'; apply Hkeep].
    destruct (Hkeep h H2) as (K1 & K2 & K3 & K4 & K5). destruct b; [|by split_and!].
    split_and!; cbn; try done. intros _ t Ht. destruct (Hb eq_refl) as (r & -> & Hr0). destruct (Hrep r eq_refl) as [-> Es].
    cbn in Es. rewrite Es. apply renew_renewed; [lia|done].
Qed.

Lemma fleet_inv_step s s' : 0 < lease_ms -> fleet_inv s -> fleet_step s s' -> fleet_inv s'.
Proof.
  intros Hms Hi Hst. destruct Hst.
  - destruct Hi as [H1 H2 H3 H4]. split; [done..|]. eapply Forall_impl; [exact H4|]. intros h (K1 & K2 & K3 & K4 & K5).
    split_and!; cbn; try done; [lia|]. intros Hg t Ht. apply K4; [done|lia].
  - by eapply begin_inv.
  - by eapply busy_inv.
  - by eapply poll_inv.
  - by eapply give_up_inv.
  - by eapply release_inv.
  - by eapply renew_inv.
Qed.

Lemma fleet_reachable_inv s0 s : 0 < lease_ms -> fresh_fleet s0 -> fleet_reachable s0 s -> fleet_inv s.
Proof. intros Hms H0. induction 1 as [|s s' _ IH Hst]; [by apply fresh_fleet_inv|by eapply fleet_inv_step]. Qed.

(** *** [acquire] is steps of the fleet *)

Lemma attach_ran s p c' now : attach (fl_store (ran p c' now s)) c' = c'.
Proof. unfold attach, ran, server_of. cbn. destruct c' as [[[st fs]|] av l]; done. Qed.

Inductive steps : fleet -> fleet -> Prop :=
| steps_none s : steps s s
| steps_next s s' s'' : fleet_step s s' -> steps s' s'' -> steps s s''.

Lemma reachable_steps s0 s s' : fleet_reachable s0 s -> steps s s' -> fleet_reachable s0 s'.
Proof. intros Hr Hs. induction Hs as [|s s1 s2 H1 _ IH]; [done|]. apply IH. by eapply fr_step. Qed.

Lemma steps_snoc s s' s'' : steps s s' -> fleet_step s' s'' -> steps s s''.
Proof. induction 1 as [|s s1 s2 H1 _ IH]; intros H2; [by eapply steps_next; [|constructor]|]. eapply steps_next; [done|by apply IH]. Qed.

(** The process [p] alone has run, to [c'], with these attempts and leases. *)
Definition after (s : fleet) (p : nat) (c' : ThreadCoordinator) (w : list attempt) (l : list held) (s' : fleet) : Prop :=
  fl_procs s' = <[p := c']> (fl_procs s) /\ attach (fl_store s') c' = c' /\ fl_waiting s' = w /\ fl_held s' = l.

Lemma after_ran s p c1 c' now w l s' : after (ran p c1 now s) p c' w l s' -> after s p c' w l s'.
Proof. intros (E1 & E2). split; [|done]. rewrite E1. cbn. by rewrite list_insert_insert_eq. Qed.

Lemma ran_lookup s p c c1 now : fl_procs s !! p = Some c -> fl_procs (ran p c1 now s) !! p = Some c1.
Proof. intros Hp. cbn. apply list_lookup_insert_eq. by eapply lookup_lt_Some. Qed.

Lemma polls_are_steps a polls : forall s c w, fl_procs s !! at_proc a = Some c -> attach (fl_store s) c = c ->
  fl_waiting s = a :: w -> Sorted Z.le (fl_now s :: polls) ->
  match _acquire_redis_lock (E := coordinator_exc) (at_key a) (at_token a) polls c with
  | (Ret true, c') => exists s' h, steps s s' /\ after s (at_proc a) c' w (h :: fl_held s) s'
      /\ hd_proc h = at_proc a /\ hd_lease h = lease_of a
  | (Ret false, c') => exists s', steps s s' /\ after s (at_proc a) c' (a :: w) (fl_held s) s'
  | (Raise _, _) => True
  end.
Proof.
  induction polls as [|now polls IH]; intros s c w Hp Ec Hw Hsort; cbn [_acquire_redis_lock].
  - exists s. split; [constructor|]. split_and!; try done. by rewrite list_insert_id.
  - apply Sorted_inv in Hsort as [Hsort Hnow]. apply HdRel_inv in Hnow. unfold mbind, io_bind.
    destruct (try_redis_lock (E := coordinator_exc) now (at_key a) (at_token a) c) as [[reply|e] c1] eqn:Et; [|done].
    assert (Hpoll : fleet_step s (polled a now reply [] w (ran (at_proc a) c1 now s))).
    { apply (fs_poll s a c c1 now reply [] w Hp Hw Hnow). by rewrite Ec. }
    assert (Hgrant : forall h, after s (at_proc a) c1 w (h :: fl_held s)
      (put_waiting w (put_held (h :: fl_held s) (ran (at_proc a) c1 now s)))).
    { intros h. split_and!; try done. apply (attach_ran s (at_proc a) c1 now). }
    destruct reply as [[]|]; cbn [polled] in Hpoll; cycle 1.
    + set (s1 := ran (at_proc a) c1 now s) in *.
      specialize (IH s1 c1 w (ran_lookup s _ c c1 now Hp) (attach_ran s _ c1 now) Hw Hsort).
      destruct (_acquire_redis_lock _ _ _ c1) as [[[]|e] c']; [| |done].
      * destruct IH as (s' & h & Hs & Ha & Hh). exists s', h. split; [by eapply steps_next|].
        split; [by eapply after_ran|done].
      * destruct IH as (s' & Hs & Ha). exists s'. split; [by eapply steps_next|by eapply after_ran].
    + eexists _, _. split; [eapply steps_next; [exact Hpoll|constructor]|]. split; [apply Hgrant|done].
    + eexists _, _. split; [eapply steps_next; [exact Hpoll|constructor]|]. split; [apply Hgrant|done].
Qed.

Lemma acquire_is_steps tenant thread p s c token polls : fl_procs s !! p = Some c ->
  token ∉ map at_token (attempts s) -> Sorted Z.le (fl_now s :: polls) ->
  let '(o, c') := acquire tenant thread token polls (attach (fl_store s) c) in
  exists s', steps s s' /\
  match o with
  | Ret l => exists h, after s p c' (fl_waiting s) (h :: fl_held s) s' /\ hd_proc h = p /\ hd_lease h = l
      /\ l_key l = _lock_key tenant thread /\ l_token l = token
  | Raise _ => after s p c' (fl_waiting s) (fl_held s) s'
  end.
Proof.
  intros Hp Hfresh Hsort. unfold acquire. set (a := {| at_proc := p; at_key := _lock_key tenant thread; at_token := token |}).
  unfold mbind at 1, io_bind at 1.
  destruct (_local_lock_acquire (_lock_key tenant thread) (attach (fl_store s) c)) as [[[]|e] c1] eqn:El; cycle 1.
  { exists (ran p c1 (fl_now s) s). split; [eapply steps_next; [by eapply fs_busy|constructor]|].
    split_and!; try done. apply (attach_ran s p c1 (fl_now s)). }
  assert (Hbegin : fleet_step s (put_waiting (a :: fl_waiting s) (ran p c1 (fl_now s) s))).
  { by apply (fs_begin s a c c1 Hp Hfresh). }
  set (s1 := put_waiting _ _) in *. unfold mbind at 1, io_bind at 1.
  pose proof (polls_are_steps a polls s1 c1 (fl_waiting s) (ran_lookup s p c c1 (fl_now s) Hp)
    (attach_ran s p c1 (fl_now s)) eq_refl Hsort) as Hpolls. cbn [at_key at_token a] in Hpolls.
  destruct (_acquire_redis_lock _ _ _ c1) as [[[]|e] c2] eqn:Er; cbn [negb].
  - destruct Hpolls as (s' & h & Hs & Ha & Hh1 & Hh2). exists s'. split; [by eapply steps_next|].
    exists h. split_and!; try done. exact (after_ran s p c1 c2 (fl_now s) _ _ s' Ha).
  - destruct Hpolls as (s2 & Hs & (E1 & E2 & E3 & E4)).
    unfold mbind, io_bind. destruct (_local_lock_release (E := coordinator_exc) (_lock_key tenant thread) c2) as [[[]|e] c3] eqn:Eg; [|done].
    assert (Hp2 : fl_procs s2 !! p = Some c2).
    { rewrite E1. cbn. apply list_lookup_insert_eq. rewrite length_insert. by eapply lookup_lt_Some. }
    exists (put_waiting ([] ++ fl_waiting s) (ran p c3 (fl_now s2) s2)). split.
    + eapply steps_next; [exact Hbegin|]. eapply steps_snoc; [exact Hs|].
      apply (fs_give_up s2 a c2 c3 [] (fl_waiting s)); [done|done|]. by rewrite E2.
    + split_and!; try done; [|apply (attach_ran s2 p c3 (fl_now s2))]. cbn. rewrite E1. cbn. by rewrite !list_insert_insert_eq.
  - pose proof (acquire_redis_lock_locks (E := coordinator_exc) (_lock_key tenant thread) token polls c1) as (b & c' & E & _). congruence.
Qed.

Lemma map_NoDup_inj {A B} (f : A -> B) l x y : NoDup (map f l) -> x ∈ l -> y ∈ l -> f x = f y -> x = y.
Proof.
  induction l as [|z l IH]; cbn; [by intros _ ?%elem_of_nil|]. rewrite NoDup_cons, !elem_of_cons. intros [Hn Hl] Hx Hy E.
  assert (Hin : forall u, u ∈ l -> f u ∈ map f l) by (intros u Hu; apply list_elem_of_fmap; by exists u).
  destruct Hx as [->|Hx], Hy as [->|Hy]; [done| | |by apply IH].
  - exfalso. apply Hn. rewrite E. by apply Hin.
  - exfalso. apply Hn. rewrite <- E. by apply Hin.
Qed.

(** C25: mutual exclusion between processes that share a Redis server, whatever
    commands each of them loses and however their acquisitions, polls,
    renewals and releases interleave: two leases of one thread are never in one
    process, and if neither has ended, one of the two processes has lost a
    command and declared itself degraded to its local locks.  While no
    process is degraded, at most one lease of a thread has not ended.  Every
    call of [acquire] is such steps: the lease it returns is one of the
    fleet's, and a call that raises leaves the fleet's leases and attempts as
    they were. *)
Theorem lock_exclusive s0 s : 0 < lease_ms -> fresh_fleet s0 -> fleet_reachable s0 s ->
  (forall h1 h2 c1 c2, h1 ∈ fl_held s -> h2 ∈ fl_held s -> h1 <> h2 -> l_key (hd_lease h1) = l_key (hd_lease h2) ->
     fl_procs s !! hd_proc h1 = Some c1 -> fl_procs s !! hd_proc h2 = Some c2 ->
     hd_proc h1 <> hd_proc h2
     /\ (hd_ends h1 <= fl_now s \/ hd_ends h2 <= fl_now s \/ co_available c1 = false \/ co_available c2 = false))
  /\ (forall tenant thread p c token polls, fl_procs s !! p = Some c ->
     token ∉ map at_token (attempts s) -> Sorted Z.le (fl_now s :: polls) ->
     let '(o, c') := acquire tenant thread token polls (attach (fl_store s) c) in
     exists s', fleet_reachable s0 s' /\
     match o with
     | Ret l => exists h, after s p c' (fl_waiting s) (h :: fl_held s) s' /\ hd_proc h = p /\ hd_lease h = l
         /\ l_key l = _lock_key tenant thread /\ l_token l = token
     | Raise _ => after s p c' (fl_waiting s) (fl_held s) s'
     end).
Proof.
  intros Hms H0 Hr. split.
  - pose proof (fleet_reachable_inv s0 s Hms H0 Hr) as Hi. intros h1 h2 c1 c2 H1 H2 Hne Hk Hc1 Hc2.
    assert (Hslot : NoDup (map (fun h => slot (attempt_of h)) (fl_held s))).
    { pose proof (fi_slots _ Hi) as Hn. unfold attempts in Hn. rewrite map_app, map_map in Hn. by apply NoDup_app in Hn as (_ & _ & Hn). }
    assert (Htok : NoDup (map (fun h => l_token (hd_lease h)) (fl_held s))).
    { pose proof (fi_tokens _ Hi) as Hn. unfold attempts in Hn. rewrite map_app, map_map in Hn. by apply NoDup_app in Hn as (_ & _ & Hn). }
    split.
    + intros Ep. apply Hne. eapply (map_NoDup_inj (fun h => slot (attempt_of h))); [exact Hslot|done|done|].
      unfold slot, attempt_of. cbn. by rewrite Ep, Hk.
    + pose proof (fi_held _ Hi) as Hh. rewrite Forall_forall in Hh.
      destruct (Hh h1 H1) as (_ & _ & _ & G1 & D1), (Hh h2 H2) as (_ & _ & _ & G2 & D2).
      destruct (hd_granted h1); [|right; right; left; by apply D1].
      destruct (hd_granted h2); [|right; right; right; by apply D2].
      destruct (decide (hd_ends h1 <= fl_now s)); [by left|]. destruct (decide (hd_ends h2 <= fl_now s)); [by right; left|].
      exfalso. apply Hne. apply (map_NoDup_inj _ _ _ _ Htok H1 H2).
      specialize (G1 eq_refl (fl_now s) ltac:(lia)). specialize (G2 eq_refl (fl_now s) ltac:(lia)). rewrite Hk in G1. congruence.
  - intros tenant thread p c token polls Hp Hf Hs.
    pose proof (acquire_is_steps tenant thread p s c token polls Hp Hf Hs) as Ha.
    destruct (acquire _ _ _ _ _) as [o c']. destruct Ha as (s' & Hst & Ha). exists s'. split; [by eapply reachable_steps|done].
Qed.

(** within one process, whatever Redis does, no two leases of a thread are
    live at once, and a local lock is held exactly while its lease is live: no
    acquisition that fails, and no release whatever its commands do, leaves a
    thread locked. *)
Theorem local_lock_exact c0 c live :
  local_locks c0 = ∅ -> process_reachable c0 (c, live) ->
  NoDup live /\ (forall k, k ∈ local_locks c <-> k ∈ live) /\
  forall tenant thread token polls,
    _lock_key tenant thread ∈ live ->
    acquire tenant thread token polls c = (Raise (CoordinatorBusy true), c).
Proof.
  intros H0 Hreach.
  assert (process_inv (c, live)) as [Hnd Hk].
  { induction Hreach as [|s s' _ IH Hst]; [|by eapply process_inv_step].
    split; simpl; [constructor|]. intros k. rewrite H0. set_solver. }
  simpl in *. split; [done|]. split; [done|]. intros tenant thread token polls Hin.
  unfold acquire, _local_lock_acquire, mbind, io_bind, get_st, throw. by rewrite decide_True by (by apply Hk).
Qed.

End coordinator.
Arguments ThreadCoordinator St : clear implicits.

(** ** Witnesses, and a lock left behind *)

Definition local_coordinator : ThreadCoordinator (kv_map string) :=
  {| co_redis := None; co_available := false; local_locks := ∅ |}.

Lemma local_lock_exact_witness : exists c,
  acquire default_coordinator_config "t1" "c1" "u2" [1] c = (Raise (CoordinatorBusy true), c).
Proof.
  eexists.
  eapply (local_lock_exact default_coordinator_config local_coordinator _ ["neryva:threadlock:t1:c1"]).
  - reflexivity.
  - eapply pr_step; [apply pr_init|].
    refine (ps_acquired default_coordinator_config "t1" "c1" "u1" [0] _ _
      {| l_key := "neryva:threadlock:t1:c1"; l_token := "u1"; l_redis_held := true;
         l_released := false |} [] _). reflexivity.
  - simpl. left.
Defined.

(** Two processes on one server; the second one loses its first command, and
    goes on without the server. *)
Module TwoProcesses.
Definition proc (faults : list fault) : ThreadCoordinator (kv_map string) :=
  {| co_redis := Some (Build_redis ∅ faults); co_available := true; local_locks := ∅ |}.
Definition start : fleet (St := kv_map string) :=
  {| fl_now := 0; fl_store := ∅; fl_procs := [proc []; proc [LostRequest]]; fl_waiting := []; fl_held := [] |}.
Definition ask (p : nat) (token : string) : attempt := {| at_proc := p; at_key := "k"; at_token := token |}.
Definition lease (p : nat) (token : string) (ends : Z) (granted : bool) : held :=
  {| hd_proc := p; hd_lease := lease_of (ask p token); hd_ends := ends; hd_granted := granted |}.

Lemma start_fresh : fresh_fleet start.
Proof. split; [done|]. split; [done|]. by repeat constructor. Qed.

Definition both : fleet (St := kv_map string) := {|
  fl_now := 9; fl_store := {["k" := ("u1", Some 120005)]};
  fl_procs := [{| co_redis := Some (Build_redis {["k" := ("u1", Some 120005)]} []); co_available := true; local_locks := {["k"]} |};
               {| co_redis := Some (Build_redis {["k" := ("u1", Some 120005)]} []); co_available := false; local_locks := {["k"]} |}];
  fl_waiting := []; fl_held := [lease 1 "u2" 120009 false; lease 0 "u1" 120005 true] |}.

Lemma both_reached : fleet_reachable default_coordinator_config start both.
Proof.
  eapply fr_step; [eapply fr_step; [eapply fr_step; [eapply fr_step; [apply fr_init|]|]|]|].
  - apply (fs_begin _ _ (ask 0 "u1") (proc [])); [done|apply not_elem_of_nil|reflexivity].
  - eapply (fs_poll _ _ (ask 0 "u1") _ _ 5 (Some true) [] []); [reflexivity|reflexivity|done|reflexivity].
  - eapply (fs_begin _ _ (ask 1 "u2")); [reflexivity| |reflexivity].
    cbn. intros [?|[]%elem_of_nil]%elem_of_cons. done.
  - refine (eq_rect _ (fleet_step default_coordinator_config _) _ both _); [|shelve].
    eapply (fs_poll _ _ (ask 1 "u2") _ _ 9 None [] []); [reflexivity|reflexivity|done|reflexivity].
    Unshelve. vm_compute. reflexivity.
Qed.
End TwoProcesses.

Lemma lock_exclusive_witness : let s := TwoProcesses.both in exists c1 c2,
  fl_procs s !! 0%nat = Some c1 /\ fl_procs s !! 1%nat = Some c2
  /\ (0 <> 1)%nat /\ (120005 <= 9 \/ 120009 <= 9 \/ co_available c1 = false \/ co_available c2 = false).
Proof.
  eexists _, _. split; [reflexivity|]. split; [reflexivity|].
  apply (proj1 (lock_exclusive default_coordinator_config TwoProcesses.start TwoProcesses.both ltac:(done)
    TwoProcesses.start_fresh TwoProcesses.both_reached) (TwoProcesses.lease 0 "u1" 120005 true)
    (TwoProcesses.lease 1 "u2" 120009 false)).
  - right. left.
  - left.
  - intros H. discriminate H.
  - reflexivity.
  - reflexivity.
  - reflexivity.
Defined.

(** after one lost command the coordinator keeps taking Redis locks but
    never releases one again: it marks Redis unavailable, goes on with SET NX,
    which succeeds, and skips the release script, so the key of a generation
    that ended stays until its lease runs out and the next acquisition of the
    thread is refused as busy. *)
Theorem lock_left_behind :
  let cfg := default_coordinator_config in
  let c0 : ThreadCoordinator (kv_map string) :=
    {| co_redis := Some (Build_redis ∅ [LostRequest]); co_available := true; local_locks := ∅ |} in
  let use t token c := match acquire cfg "t1" "c1" token [t] c with
                       | (Ret l, c) => (Ret tt, (lease_release (E:=coordinator_exc) (t + 1) l).1 c)
                       | (Raise e, c) => (Raise e, (Ret tt, c))
                       end in
  let '(o1, (_, c1)) := use 0 "u1" c0 in
  let '(o2, (_, c2)) := use 1000 "u2" c1 in
  let '(o3, (_, c3)) := use 2000 "u3" c2 in
  o1 = Ret tt /\ o2 = Ret tt /\ o3 = Raise (CoordinatorBusy false).
Proof. vm_compute. repeat split. Qed.
