(* ===== verification/HotTier.v ===== *)
(** * Hot tier (backend/app/session/hot_tier.py)

    The last turns of a thread and its running summary, kept in Redis with a
    time to live; the caller falls back to Postgres on a miss. *)

From S2P Require Import Prelude Json Redis.

(** The stored JSON object. *)
Record tail_payload := { tail : list json; summary : option json }.

Record TailConfig := { tc_prefix : string; tc_ttl_seconds : Z; tc_tail_size : Z }.

Definition default_tail_config : TailConfig :=
  {| tc_prefix := "neryva:thread:tail:"; tc_ttl_seconds := 86400; tc_tail_size := 10 |}.

(** [l[-n:]] *)
Definition py_suffix {A} (n : Z) (l : list A) : list A :=
  if n =? 0 then l
  else if 0 <? n then drop (length l - Z.to_nat n) l
  else drop (Z.to_nat (- n)) l.

Section hot_tier.
Context {St : Type} `{RedisKV St tail_payload}.
Context (cfg : TailConfig).

Definition _key (tenant_id thread_id : string) : string :=
  tc_prefix cfg +:+ tenant_id +:+ ":" +:+ thread_id.

Definition tail_ttl_ms : Z := tc_ttl_seconds cfg * 1000.

(** The read of the existing block happens only without a new one. *)
Definition cache_tail {E} (now : Z) (tenant_id thread_id : string) (l : list json)
    (new_summary : option json) : io (managed St) E bool :=
  let key := _key tenant_id thread_id in
  flipping false (
    existing ← (match new_summary with
                | None => m_run (fun s => (redis_get now key s, s))
                | Some _ => mret None
                end);
    let payload := {| tail := py_suffix (tc_tail_size cfg) l;
                      summary := match new_summary with
                                 | Some b => Some b
                                 | None => existing ≫= summary
                                 end |} in
    _ ← m_run (fun s => (tt, redis_set now key payload (Some tail_ttl_ms) s));
    mret true).

Definition get_tail {E} (now : Z) (tenant_id thread_id : string)
  : io (managed St) E (option tail_payload) :=
  let key := _key tenant_id thread_id in
  flipping None (
    raw ← m_run (fun s => (redis_get now key s, s));
    match raw with
    | None => mret None
    | Some p =>
        _ ← m_run (fun s => (tt, redis_pexpire now key tail_ttl_ms s));
        mret (Some p)
    end).

Definition invalidate {E} (tenant_id thread_id : string) : io (managed St) E bool :=
  flipping false (
    _ ← m_run (fun s => (tt, redis_del (_key tenant_id thread_id) s));
    mret true).

(** ** Lemmas *)

(** The summary a write leaves: the new one, or the one that was there. *)
Definition summary_after (now : Z) (key : string) (new_summary : option json) (s : St) : option json :=
  match new_summary with
  | Some b => Some b
  | None => redis_get now key s ≫= summary
  end.

Lemma cache_tail_serving {E} now tn th l b c :
  m_serving c ->
  exists c', cache_tail (E := E) now tn th l b c = (Ret true, c') /\ m_serving c' /\
    store (m_conn c') =
      redis_set now (_key tn th)
        {| tail := py_suffix (tc_tail_size cfg) l;
           summary := summary_after now (_key tn th) b (store (m_conn c)) |}
        (Some tail_ttl_ms) (store (m_conn c)).
Proof.
  intros Hs. assert (Ha : m_available c = true) by apply Hs.
  unfold cache_tail, summary_after. destruct b as [b|].
  - destruct (m_run_serving (fun s => (tt, redis_set now (_key tn th)
      {| tail := py_suffix (tc_tail_size cfg) l; summary := Some b |} (Some tail_ttl_ms) s)) c Hs)
      as (c1 & H1 & Hs1 & Hst).
    exists c1. split; [|by split]. apply flipping_serving; [done|].
    unfold mbind, io_bind. cbn [mret io_ret]. by rewrite H1.
  - destruct (m_run_serving (fun s => (redis_get now (_key tn th) s, s)) c Hs) as (c1 & H1 & Hs1 & Hst1).
    cbn [fst snd] in H1, Hst1.
    destruct (m_run_serving (fun s => (tt, redis_set now (_key tn th)
      {| tail := py_suffix (tc_tail_size cfg) l;
         summary := redis_get now (_key tn th) (store (m_conn c)) ≫= summary |} (Some tail_ttl_ms) s)) c1 Hs1)
      as (c2 & H2 & Hs2 & Hst2).
    exists c2. split; [|split; [done|by rewrite Hst2, Hst1]]. apply flipping_serving; [done|].
    unfold mbind at 1, io_bind at 1. rewrite H1. unfold mbind at 1, io_bind at 1. by rewrite H2.
Qed.

Lemma get_tail_serving {E} now tn th c :
  m_serving c ->
  exists c', get_tail (E := E) now tn th c = (Ret (redis_get now (_key tn th) (store (m_conn c))), c')
    /\ m_serving c'
    /\ store (m_conn c') = (if redis_get now (_key tn th) (store (m_conn c))
                            then redis_pexpire now (_key tn th) tail_ttl_ms (store (m_conn c))
                            else store (m_conn c)).
Proof.
  intros Hs. assert (Ha : m_available c = true) by apply Hs. unfold get_tail.
  destruct (m_run_serving (fun s => (redis_get now (_key tn th) s, s)) c Hs) as (c1 & H1 & Hs1 & Hst1).
  cbn [fst snd] in H1, Hst1.
  destruct (redis_get now (_key tn th) (store (m_conn c))) as [p|] eqn:Ep.
  - destruct (m_run_serving (fun s => (tt, redis_pexpire now (_key tn th) tail_ttl_ms s)) c1 Hs1)
      as (c2 & H2 & Hs2 & Hst2).
    exists c2. split; [|split; [done|by rewrite Hst2, Hst1]]. apply flipping_serving; [done|].
    unfold mbind at 1, io_bind at 1. rewrite H1. unfold mbind at 1, io_bind at 1. by rewrite H2.
  - exists c1. split; [|by split]. apply flipping_serving; [done|].
    unfold mbind at 1, io_bind at 1. by rewrite H1.
Qed.

Lemma get_after_set now t k p s :
  now <= t ->
  redis_get t k (redis_set now k p (Some tail_ttl_ms) s) = (if t <? now + tail_ttl_ms then Some p else None).
Proof.
  intros Ht. unfold redis_get. rewrite look_set by done. rewrite decide_True by done. cbn.
  by destruct (t <? now + tail_ttl_ms).
Qed.

(** ** Properties *)

(** The hot tail: what is cached is what a read gets until the time to live
    is over, the window being the newest messages and the summary the given
    one or, failing that, the one that was there; a read starts the time to
    live again; and the cache of another thread is not touched. *)
Theorem cached_tail_is_read (now : Z) (tn th : string) (l : list json) (b : option json) (c : managed St) :
  m_serving c ->
  let p := {| tail := py_suffix (tc_tail_size cfg) l;
              summary := summary_after now (_key tn th) b (store (m_conn c)) |} in
  exists c', @cache_tail redis_exc now tn th l b c = (Ret true, c')
    /\ (forall t, now <= t ->
          fst (@get_tail redis_exc t tn th c') = Ret (if t <? now + tail_ttl_ms then Some p else None))
    /\ (forall t t', now <= t < now + tail_ttl_ms -> t <= t' < t + tail_ttl_ms ->
          fst (@get_tail redis_exc t' tn th (snd (@get_tail redis_exc t tn th c'))) = Ret (Some p))
    /\ (forall t tn' th', now <= t -> _key tn' th' <> _key tn th ->
          fst (@get_tail redis_exc t tn' th' c') = fst (@get_tail redis_exc t tn' th' c)).
Proof.
  intros Hs. cbn zeta.
  destruct (@cache_tail_serving redis_exc now tn th l b c Hs) as (c' & Hc & Hs' & Hst).
  set (p := {| tail := _; summary := _ |}) in *. exists c'. split_and!; [done| | |].
  - intros t Ht. destruct (@get_tail_serving redis_exc t tn th c' Hs') as (c2 & -> & _ & _).
    cbn [fst]. by rewrite Hst, get_after_set.
  - intros t t' Ht Ht'. destruct (@get_tail_serving redis_exc t tn th c' Hs') as (c2 & -> & Hs2 & Hst2).
    cbn [snd]. destruct (@get_tail_serving redis_exc t' tn th c2 Hs2) as (c3 & -> & _ & _). cbn [fst].
    assert (Hg : redis_get t (_key tn th) (store (m_conn c')) = Some p).
    { rewrite Hst, get_after_set by lia. by replace (t <? now + tail_ttl_ms) with true by lia. }
    rewrite Hg in Hst2. rewrite Hst2. unfold redis_get in *. rewrite look_pexpire by lia.
    rewrite decide_True by done. destruct (look t (_key tn th) (store (m_conn c'))) as [[v e]|]; [|done].
    simplify_eq/=. by replace (t' <? t + tail_ttl_ms) with true by lia.
  - intros t tn' th' Ht Hne. destruct (@get_tail_serving redis_exc t tn' th' c' Hs') as (c2 & -> & _ & _).
    destruct (@get_tail_serving redis_exc t tn' th' c Hs) as (c3 & -> & _ & _). cbn [fst].
    rewrite Hst. unfold redis_get. rewrite look_set by done. by rewrite decide_False.
Qed.

(** Once a command has failed, the cache is bypassed for good: every call
    answers as without Redis and sends no command, however healthy the
    connection is by then. *)
Theorem tail_cache_never_heals (c : managed St) (now : Z) (tn th : string) (l : list json) (b : option json) :
  m_available c = false ->
  @cache_tail redis_exc now tn th l b c = (Ret false, c)
  /\ @get_tail redis_exc now tn th c = (Ret None, c)
  /\ @invalidate redis_exc tn th c = (Ret false, c).
Proof. intros Ha. split_and!; by apply flipping_down. Qed.

End hot_tier.

Lemma positive_tail_capped {A} (n : Z) (l : list A) :
  0 < n -> Z.of_nat (length (py_suffix n l)) <= n /\ py_suffix n l `suffix_of` l.
Proof.
  intros Hn. unfold py_suffix. rewrite (proj2 (Z.eqb_neq n 0)) by lia.
  rewrite (proj2 (Z.ltb_lt 0 n)) by done. split; [rewrite length_drop; lia|].
  exists (take (length l - Z.to_nat n) l). symmetry. apply take_drop.
Qed.

(** ** Witnesses *)

Definition empty_tails : managed (kv_map tail_payload) := Build_managed (Build_redis ∅ []) true false.

Lemma empty_tails_serving : m_serving empty_tails.
Proof. split; [constructor|done]. Qed.

Lemma cached_tail_is_read_witness :
  let cfg := {| tc_prefix := "p:"; tc_ttl_seconds := 10; tc_tail_size := 2 |} in
  exists c', cache_tail cfg (E := redis_exc) 0 "t1" "thr" [JNum 1; JNum 2; JNum 3] (Some (JStr "s")) empty_tails
             = (Ret true, c')
    /\ fst (get_tail cfg (E := redis_exc) 9999 "t1" "thr" c')
       = Ret (Some {| tail := [JNum 2; JNum 3]; summary := Some (JStr "s") |})
    /\ fst (get_tail cfg (E := redis_exc) 10000 "t1" "thr" c') = Ret None.
Proof.
  cbn zeta. set (cfg := Build_TailConfig _ _ _).
  destruct (cached_tail_is_read cfg 0 "t1" "thr" [JNum 1; JNum 2; JNum 3] (Some (JStr "s")) empty_tails
              empty_tails_serving) as (c' & Hc & Hg & _).
  exists c'. split_and!; [exact Hc|apply (Hg 9999); lia|apply (Hg 10000); lia].
Defined.
