(* ===== verification/EndUserLimits.v ===== *)
(** * End-user limits (backend/app/session/limits.py)

    Per end user: the request rate (the shared rate limiter), a counter of
    active sessions with a lease, and a spend counter.  Every limit is open
    without Redis. *)

From S2P Require Import Prelude Redis RateLimiter.

Record EndUserLimitsConfig := {
  eu_max_requests : Q;
  eu_window_seconds : Q;
  max_concurrent_sessions : Z;
  session_lease_seconds : Z;
  spend_cap_tokens : Q;
  eu_prefix : string;
}.

Definition default_limits_config : EndUserLimitsConfig := {|
  eu_max_requests := 300; eu_window_seconds := 60; max_concurrent_sessions := 5;
  session_lease_seconds := 3600; spend_cap_tokens := 0; eu_prefix := "neryva:eu:" |}.

Section limits.
Context {Ss Sq Sb : Type} `{RedisCounter Ss} `{RedisKV Sq Q} `{RedisKV Sb _Bucket}.
Context (cfg : EndUserLimitsConfig).

(** The server holds the session counters and the spend counters under
    different keys. *)
Abbreviation limits := (managed (Ss * Sq)).

Definition limiter_config : RateLimitConfig := {|
  max_requests := eu_max_requests cfg; window_seconds := eu_window_seconds cfg;
  burst_multiplier := burst_multiplier default_rate_config;
  key_prefix := "neryva:rl:eu:" |}.

Definition _sessions_key (tenant_id end_user_id : string) : string :=
  eu_prefix cfg +:+ "sessions:" +:+ tenant_id +:+ ":" +:+ end_user_id.
Definition _spend_key (tenant_id end_user_id : string) : string :=
  eu_prefix cfg +:+ "spend:" +:+ tenant_id +:+ ":" +:+ end_user_id.

Definition session_ms : Z := session_lease_seconds cfg * 1000.

Definition on_sessions {A} (f : Ss -> A * Ss) : io limits redis_exc A :=
  m_run (fun s => ((f s.1).1, ((f s.1).2, s.2))).
Definition on_spend {A} (f : Sq -> A * Sq) : io limits redis_exc A :=
  m_run (fun s => ((f s.2).1, (s.1, (f s.2).2))).

Definition check_rate {E} (t : instant) (tenant_id end_user_id : string) (cost : Q)
  : io (@RateLimiter Sb) E bool :=
  RateLimiter.acquire limiter_config t (tenant_id +:+ ":" +:+ end_user_id) cost.

Definition enter_session {E} (now : Z) (tenant_id end_user_id : string) : io limits E bool :=
  let key := _sessions_key tenant_id end_user_id in
  flipping true (
    count ← on_sessions (incr_reply now key 1);
    _ ← (if count =? 1 then on_sessions (fun s => (tt, redis_pexpire now key session_ms s))
         else mret tt);
    if (0 <? max_concurrent_sessions cfg) && (max_concurrent_sessions cfg <? count) then
      _ ← on_sessions (incr_reply now key (-1));
      mret false
    else mret true).

Definition leave_session {E} (now : Z) (tenant_id end_user_id : string) : io limits E unit :=
  let key := _sessions_key tenant_id end_user_id in
  flipping tt (
    count ← on_sessions (incr_reply now key (-1));
    if count <=? 0 then on_sessions (fun s => (tt, redis_del key s)) else mret tt).

(** INCRBYFLOAT keeps the expiry of the key. *)
Definition redis_incrbyfloat (now : Z) (key : string) (d : Q) (s : Sq) : Sq :=
  redis_set now key (default 0%Q (redis_get now key s) + d)%Q (redis_pttl now key s) s.

Definition record_spend {E} (now : Z) (tenant_id end_user_id : string) (amount : Q) : io limits E unit :=
  let key := _spend_key tenant_id end_user_id in
  flipping tt (
    _ ← on_spend (fun s => (tt, redis_incrbyfloat now key amount s));
    on_spend (fun s => (tt, redis_pexpire now key session_ms s))).

Definition check_spend_cap {E} (now : Z) (tenant_id end_user_id : string) : io limits E bool :=
  if spend_cap_tokens cfg <=?q 0 then mret true
  else
    flipping true (
      raw ← on_spend (fun s => (redis_get now (_spend_key tenant_id end_user_id) s, s));
      mret (default 0%Q raw <?q spend_cap_tokens cfg)).

(** ** The sessions of one user

    The calls that follow one another on a user's counter, at instants that
    do not decrease, with the sessions that are open. *)
Inductive user_sessions (tn eu : string) (c0 : limits) (t0 : Z) : limits -> Z -> Z -> Prop :=
| us_init : user_sessions tn eu c0 t0 c0 t0 0
| us_enter c now live t b c' :
    user_sessions tn eu c0 t0 c now live -> now <= t ->
    @enter_session redis_exc t tn eu c = (Ret b, c') ->
    user_sessions tn eu c0 t0 c' t (if b : bool then live + 1 else live)
| us_leave c now live t c' :
    user_sessions tn eu c0 t0 c now live -> now <= t -> 0 < live ->
    @leave_session redis_exc t tn eu c = (Ret tt, c') ->
    user_sessions tn eu c0 t0 c' t (live - 1).

(** ** Lemmas *)

Lemma on_sessions_serving {A} (f : Ss -> A * Ss) c :
  m_serving c ->
  exists c', on_sessions f c = (Ret (f (store (m_conn c)).1).1, c') /\ m_serving c'
    /\ store (m_conn c') = ((f (store (m_conn c)).1).2, (store (m_conn c)).2).
Proof. apply (m_run_serving (fun s => ((f s.1).1, ((f s.1).2, s.2)))). Qed.

Lemma on_spend_serving {A} (f : Sq -> A * Sq) c :
  m_serving c ->
  exists c', on_spend f c = (Ret (f (store (m_conn c)).2).1, c') /\ m_serving c'
    /\ store (m_conn c') = ((store (m_conn c)).1, (f (store (m_conn c)).2).2).
Proof. apply (m_run_serving (fun s => ((f s.2).1, (s.1, (f s.2).2)))). Qed.

(** What a user's counter holds, seen until [t1]. *)
Definition counter_at (key : string) (from t1 n : Z) (s : Ss) : Prop :=
  exists d, t1 <= d /\ forall t, from <= t < t1 ->
    look t key s = if n =? 0 then None else Some (n, Some d).

Lemma counter_incr key from now t1 n d s :
  from <= now < t1 -> 0 < n -> n + d <> 0 ->
  counter_at key from t1 n s -> counter_at key now t1 (n + d) (redis_incrby now key d s).
Proof.
  intros Hnow Hn Hnd (e & He & Hl). exists e. split; [done|]. intros t Ht.
  rewrite look_incrby by lia. rewrite decide_True by done. unfold redis_get.
  rewrite Hl by lia. rewrite (proj2 (Z.eqb_neq n 0)), (proj2 (Z.eqb_neq (n + d) 0)) by lia.
  cbn. by replace (t <? e) with true by lia.
Qed.

Lemma counter_value key from now t1 n s :
  from <= now < t1 -> counter_at key from t1 n s -> default 0 (redis_get now key s) = n.
Proof.
  intros Hnow (e & He & Hl). unfold redis_get. rewrite Hl by done.
  destruct (n =? 0) eqn:E; [|done]. to_prop. by subst.
Qed.

Lemma counter_first key from now t1 s :
  from <= now < t1 -> t1 <= now + session_ms -> counter_at key from t1 0 s ->
  counter_at key now t1 1 (redis_pexpire now key session_ms (redis_incrby now key 1 s)).
Proof.
  intros Hnow Hms (e & He & Hl). exists (now + session_ms). split; [done|]. intros t Ht.
  rewrite look_pexpire by lia. rewrite decide_True by done.
  rewrite look_incrby by lia. rewrite decide_True by done. unfold redis_get.
  rewrite Hl by lia. cbn. by replace (t <? now + session_ms) with true by lia.
Qed.

Lemma counter_gone key now t1 s : counter_at key now t1 0 (redis_del key s).
Proof. exists t1. split; [done|]. intros t Ht. rewrite look_del. by rewrite decide_True. Qed.

Lemma enter_serving {E} now tn eu c from t1 n :
  m_serving c -> from <= now < t1 -> t1 <= now + session_ms -> 0 <= n ->
  0 < max_concurrent_sessions cfg -> n <= max_concurrent_sessions cfg ->
  counter_at (_sessions_key tn eu) from t1 n (store (m_conn c)).1 ->
  exists c', @enter_session E now tn eu c = (Ret (n <? max_concurrent_sessions cfg), c')
    /\ m_serving c'
    /\ counter_at (_sessions_key tn eu) now t1
         (if n <? max_concurrent_sessions cfg then n + 1 else n) (store (m_conn c')).1.
Proof.
  intros Hs Hnow Hms Hn Hmax Hle Hc. assert (Ha : m_available c = true) by apply Hs.
  set (key := _sessions_key tn eu) in *.
  destruct (on_sessions_serving (incr_reply now key 1) c Hs) as (c1 & Hr1 & Hs1 & Hst1).
  cbn [fst snd incr_reply] in Hr1, Hst1.
  rewrite (counter_value _ _ _ _ _ _ Hnow Hc) in Hr1.
  assert (Henter : exists c2 : limits,
    (if n + 1 =? 1 then on_sessions (fun s => (tt, redis_pexpire now key session_ms s)) else mret tt) c1
      = (Ret tt, c2) /\ m_serving c2 /\ counter_at key now t1 (n + 1) (store (m_conn c2)).1).
  { destruct (n + 1 =? 1) eqn:E1; to_prop.
    - destruct (on_sessions_serving (fun s => (tt, redis_pexpire now key session_ms s)) c1 Hs1)
        as (c2 & Hr2 & Hs2 & Hst2).
      exists c2. split_and!; [done|done|]. rewrite Hst2, Hst1. cbn [fst snd].
      assert (n = 0) as -> by lia. by eapply counter_first.
    - exists c1. split_and!; [done|done|]. rewrite Hst1. cbn [fst].
      eapply counter_incr; [exact Hnow|lia|lia|exact Hc]. }
  destruct Henter as (c2 & Hr2 & Hs2 & Hc2).
  assert (Htest : (0 <? max_concurrent_sessions cfg) && (max_concurrent_sessions cfg <? n + 1)
                  = negb (n <? max_concurrent_sessions cfg)) by lia.
  destruct (n <? max_concurrent_sessions cfg) eqn:Elt.
  - exists c2. split; [|done]. apply flipping_serving; [done|].
    fold key. unfold mbind, io_bind. rewrite Hr1, Hr2. by rewrite Htest.
  - destruct (on_sessions_serving (incr_reply now key (-1)) c2 Hs2) as (c3 & Hr3 & Hs3 & Hst3).
    exists c3. split_and!; [|done|].
    + apply flipping_serving; [done|].
      fold key. unfold mbind, io_bind. rewrite Hr1, Hr2, Htest. cbn [negb]. by rewrite Hr3.
    + rewrite Hst3. cbn [fst snd incr_reply]. replace n with (n + 1 + -1) by lia.
      to_prop. eapply counter_incr; [|lia|lia|exact Hc2]. lia.
Qed.

Lemma leave_serving {E} now tn eu c from t1 n :
  m_serving c -> from <= now < t1 -> 0 < n ->
  counter_at (_sessions_key tn eu) from t1 n (store (m_conn c)).1 ->
  exists c', @leave_session E now tn eu c = (Ret tt, c') /\ m_serving c'
    /\ counter_at (_sessions_key tn eu) now t1 (n - 1) (store (m_conn c')).1.
Proof.
  intros Hs Hnow Hn Hc. assert (Ha : m_available c = true) by apply Hs.
  set (key := _sessions_key tn eu) in *.
  destruct (on_sessions_serving (incr_reply now key (-1)) c Hs) as (c1 & Hr1 & Hs1 & Hst1).
  cbn [fst snd incr_reply] in Hr1, Hst1.
  rewrite (counter_value _ _ _ _ _ _ Hnow Hc) in Hr1.
  destruct (n + -1 <=? 0) eqn:E1; to_prop.
  - destruct (on_sessions_serving (fun s => (tt, redis_del key s)) c1 Hs1) as (c2 & Hr2 & Hs2 & Hst2).
    exists c2. split_and!; [|done|].
    + apply flipping_serving; [done|]. fold key. unfold mbind, io_bind. rewrite Hr1.
      by replace (n + -1 <=? 0) with true by lia.
    + rewrite Hst2. cbn [fst snd]. assert (n - 1 = 0) as -> by lia. apply counter_gone.
  - exists c1. split_and!; [|done|].
    + apply flipping_serving; [done|]. fold key. unfold mbind, io_bind. rewrite Hr1.
      by replace (n + -1 <=? 0) with false by lia.
    + rewrite Hst1. cbn [fst snd]. replace (n - 1) with (n + -1) by lia.
      eapply counter_incr; [exact Hnow|lia|lia|exact Hc].
Qed.

Lemma user_sessions_later tn eu c0 t0 c now live :
  user_sessions tn eu c0 t0 c now live -> t0 <= now.
Proof. induction 1; lia. Qed.

Lemma user_sessions_inv tn eu c0 t0 c now live :
  m_serving c0 -> look t0 (_sessions_key tn eu) (store (m_conn c0)).1 = None ->
  0 < max_concurrent_sessions cfg ->
  user_sessions tn eu c0 t0 c now live -> now < t0 + session_ms ->
  m_serving c /\ 0 <= live <= max_concurrent_sessions cfg
  /\ counter_at (_sessions_key tn eu) now (t0 + session_ms) live (store (m_conn c)).1.
Proof.
  intros Hs0 Hl0 Hmax Hu. induction Hu as [|c now live t b c' Hu IH Ht Hrun|c now live t c' Hu IH Ht Hpos Hrun];
    intros Hw.
  - split_and!; [done|lia|lia|]. exists (t0 + session_ms). split; [done|]. intros t Ht.
    rewrite (look_later t0) by lia. by rewrite Hl0.
  - destruct IH as (Hs & Hle & Hc); [lia|]. pose proof (user_sessions_later _ _ _ _ _ _ _ Hu).
    destruct (@enter_serving redis_exc t tn eu c now (t0 + session_ms) live) as (c2 & Hr & Hs2 & Hc2);
      [done|lia|lia|lia|done|lia|done|].
    rewrite Hrun in Hr. injection Hr as -> ->. split_and!; [done| | |done]; destruct (_ <? _) eqn:E;
      to_prop; lia.
  - destruct IH as (Hs & Hle & Hc); [lia|].
    destruct (@leave_serving redis_exc t tn eu c now (t0 + session_ms) live) as (c2 & Hr & Hs2 & Hc2);
      [done|lia|lia|done|].
    rewrite Hrun in Hr. injection Hr as ->. split_and!; [done|lia|lia|done].
Qed.

(** ** Properties *)

(** The session cap: while a user's first lease lasts, however sessions open
    and close, never more than the cap are open at once, and a session is
    refused exactly when the cap is reached. *)
Theorem sessions_within_cap (tn eu : string) (c0 c : limits) (t0 now live : Z) :
  m_serving c0 -> look t0 (_sessions_key tn eu) (store (m_conn c0)).1 = None ->
  0 < max_concurrent_sessions cfg ->
  user_sessions tn eu c0 t0 c now live -> now < t0 + session_ms ->
  0 <= live <= max_concurrent_sessions cfg
  /\ forall t, now <= t < t0 + session_ms ->
       exists c', @enter_session redis_exc t tn eu c = (Ret (live <? max_concurrent_sessions cfg), c').
Proof.
  intros Hs0 Hl0 Hmax Hu Hw. destruct (user_sessions_inv _ _ _ _ _ _ _ Hs0 Hl0 Hmax Hu Hw) as (Hs & Hle & Hc).
  pose proof (user_sessions_later _ _ _ _ _ _ _ Hu).
  split; [done|]. intros t Ht.
  destruct (@enter_serving redis_exc t tn eu c now (t0 + session_ms) live) as (c2 & Hr & _); eauto; lia.
Qed.

(** The spend cap: after a spend is recorded, the user is under the cap until
    the lease is over exactly when the total recorded stays below it; then the
    spend is forgotten. *)
Theorem spend_counts_towards_cap (now t : Z) (tn eu : string) (amount : Q) (c : limits) :
  m_serving c -> (0 < spend_cap_tokens cfg)%Q -> now <= t -> 0 < session_ms ->
  exists c', @record_spend redis_exc now tn eu amount c = (Ret tt, c')
    /\ fst (@check_spend_cap redis_exc t tn eu c')
       = Ret (if t <? now + session_ms
              then (default 0 (redis_get now (_spend_key tn eu) (store (m_conn c)).2) + amount
                      <?q spend_cap_tokens cfg)%Q
              else true).
Proof.
  intros Hs Hcap Ht Hms. assert (Ha : m_available c = true) by apply Hs. set (key := _spend_key tn eu).
  destruct (on_spend_serving (fun s => (tt, redis_incrbyfloat now key amount s)) c Hs) as (c1 & Hr1 & Hs1 & Hst1).
  destruct (on_spend_serving (fun s => (tt, redis_pexpire now key session_ms s)) c1 Hs1) as (c2 & Hr2 & Hs2 & Hst2).
  exists c2. split.
  { apply flipping_serving; [done|]. fold key. unfold mbind, io_bind. rewrite Hr1. by rewrite Hr2. }
  unfold check_spend_cap. fold key.
  assert (spend_cap_tokens cfg <=?q 0 = false) as -> by by apply Qleb_false.
  assert (Hg : redis_get t key (store (m_conn c2)).2
               = if t <? now + session_ms
                 then Some (default 0 (redis_get now key (store (m_conn c)).2) + amount)%Q else None).
  { rewrite Hst2. cbn [fst snd]. rewrite Hst1. cbn [fst snd]. unfold redis_get at 1, redis_incrbyfloat.
    rewrite look_pexpire by done. rewrite decide_True by done. rewrite look_set by lia.
    rewrite decide_True by done.
    assert (Hp : unexpired now (Some ((default 0 (redis_get now key (store (m_conn c)).2) + amount)%Q,
                   Z.add now <$> redis_pttl now key (store (m_conn c)).2))
                 = Some ((default 0 (redis_get now key (store (m_conn c)).2) + amount)%Q,
                   Z.add now <$> redis_pttl now key (store (m_conn c)).2)).
    { unfold redis_pttl. destruct (look now key (store (m_conn c)).2) as [[v [d|]]|] eqn:El; try reflexivity.
      pose proof (look_later now now key (store (m_conn c)).2) as Hlt. rewrite El in Hlt.
      specialize (Hlt ltac:(lia)). cbn in Hlt |- *. destruct (now <? d) eqn:Ed; [|discriminate Hlt].
      to_prop. by replace (now <? now + (d - now)) with true by lia. }
    rewrite Hp. cbn. by destruct (t <? now + session_ms). }
  destruct (on_spend_serving (fun s => (redis_get t key s, s)) c2 Hs2) as (c3 & Hr3 & Hs3 & _).
  rewrite Hg in Hr3. cbn [fst snd] in Hr3.
  erewrite flipping_serving; [|apply Hs2|].
  2:{ unfold mbind, io_bind. rewrite Hr3. reflexivity. }
  cbn [fst]. destruct (t <? now + session_ms); [done|]. cbn [default].
  by replace (0 <?q spend_cap_tokens cfg) with true by (symmetry; by apply Qltb_true).
Qed.

End limits.

(** ** Witnesses *)

Definition two_sessions : EndUserLimitsConfig := {|
  eu_max_requests := 300; eu_window_seconds := 60; max_concurrent_sessions := 2;
  session_lease_seconds := 10; spend_cap_tokens := 100; eu_prefix := "eu:" |}.

Definition fresh_limits : managed (kv_map Z * kv_map Q) :=
  Build_managed (Build_redis (∅, ∅) []) true false.

Lemma fresh_limits_serving : m_serving fresh_limits.
Proof. split; [constructor|done]. Qed.

Definition after_enter (t : Z) (c : managed (kv_map Z * kv_map Q)) :=
  snd (enter_session two_sessions (E := redis_exc) t "tn" "u" c).

Lemma sessions_within_cap_witness :
  user_sessions two_sessions "tn" "u" fresh_limits 0 (after_enter 2 (after_enter 1 fresh_limits)) 2 2
  /\ 0 <= 2 <= max_concurrent_sessions two_sessions
  /\ exists c', enter_session two_sessions (E := redis_exc) 9999 "tn" "u"
                  (after_enter 2 (after_enter 1 fresh_limits)) = (Ret false, c').
Proof.
  assert (Hu : user_sessions two_sessions "tn" "u" fresh_limits 0
                 (after_enter 2 (after_enter 1 fresh_limits)) 2 2).
  { apply (us_enter two_sessions "tn" "u" fresh_limits 0 (after_enter 1 fresh_limits) 1 1 2 true);
      [|lia|vm_compute; reflexivity].
    apply (us_enter two_sessions "tn" "u" fresh_limits 0 fresh_limits 0 0 1 true);
      [constructor|lia|vm_compute; reflexivity]. }
  assert (Hn : look 0 (_sessions_key two_sessions "tn" "u") (store (m_conn fresh_limits)).1 = None)
    by (vm_compute; reflexivity).
  split; [exact Hu|].
  destruct (sessions_within_cap two_sessions "tn" "u" fresh_limits _ 0 2 2 fresh_limits_serving Hn
              ltac:(reflexivity) Hu ltac:(reflexivity)) as (Hl & He).
  split; [exact Hl|]. apply (He 9999). change (session_ms two_sessions) with 10000. lia.
Defined.

(** Past the lease the counter starts again while the sessions are still
    open: four sessions with a cap of two. *)
Example lease_expiry_exceeds_cap :
  let c := after_enter 10003 (after_enter 10002 (after_enter 2 (after_enter 1 fresh_limits))) in
  user_sessions two_sessions "tn" "u" fresh_limits 0 c 10003 4.
Proof.
  cbn zeta.
  assert (Hstep : forall c now live t, user_sessions two_sessions "tn" "u" fresh_limits 0 c now live ->
    now <= t -> fst (enter_session two_sessions (E := redis_exc) t "tn" "u" c) = Ret true ->
    user_sessions two_sessions "tn" "u" fresh_limits 0 (after_enter t c) t (live + 1)).
  { intros c now live t Hu Ht He. apply (us_enter two_sessions "tn" "u" _ 0 c now live t true); [done|done|].
    unfold after_enter. destruct (enter_session _ _ _ _ _) as [o c']. cbn in He |- *. by subst. }
  apply (Hstep _ 10002 3); [|lia|vm_compute; reflexivity].
  apply (Hstep _ 2 2); [|lia|vm_compute; reflexivity].
  apply (Hstep _ 1 1); [|lia|vm_compute; reflexivity].
  apply (Hstep _ 0 0); [constructor|lia|vm_compute; reflexivity].
Qed.

Lemma spend_counts_towards_cap_witness :
  exists c', record_spend two_sessions (E := redis_exc) 0 "tn" "u" 100 fresh_limits = (Ret tt, c')
    /\ fst (check_spend_cap two_sessions (E := redis_exc) 9999 "tn" "u" c') = Ret false
    /\ fst (check_spend_cap two_sessions (E := redis_exc) 10000 "tn" "u" c') = Ret true.
Proof.
  destruct (spend_counts_towards_cap two_sessions 0 9999 "tn" "u" 100 fresh_limits fresh_limits_serving
              ltac:(reflexivity) ltac:(lia) ltac:(reflexivity)) as (c' & Hc & Hg).
  exists c'. split_and!; [exact Hc|exact Hg|].
  injection Hc as <-. vm_compute. reflexivity.
Defined.
