(* ===== verification/StreamBuffer.v ===== *)
(** * Stream buffer (backend/app/infrastructure/stream/buffer.py, overflow.py)

    The chunks of a turn, kept for replay in a Redis list with a time to live,
    or in process memory once Redis has failed; beyond a cap the oldest chunks
    move to a Postgres table.  A stored chunk is the JSON value of its text;
    instants are milliseconds, and the process clock and the server's clock
    are read as one. *)

From S2P Require Import Prelude Json Redis.

Record chunk := { c_id : Z; c_type : string; c_data : json }.

(** ** Lists in Redis (RPUSH, LTRIM; LRANGE and LLEN read the value) *)

Class RedisList (St V : Type) `{RedisKV St (list V)} := {
  redis_rpush : Z -> string -> V -> St -> St;
  redis_ltrim : Z -> string -> nat -> St -> St;
  look_rpush now t k v s k' : now <= t ->
    look t k' (redis_rpush now k v s) =
      if decide (k' = k) then
        unexpired t (Some (default [] (redis_get now k s) ++ [v], look now k s ≫= snd))
      else look t k' s;
  (** LTRIM k n -1; a list that becomes empty is removed *)
  look_ltrim now t k n s k' : now <= t ->
    look t k' (redis_ltrim now k n s) =
      if decide (k' = k) then
        unexpired t (e ← look now k s;
                     match drop n e.1 with [] => None | l => Some (l, e.2) end)
      else look t k' s;
}.

Definition kv_ltrim {V} (now : Z) (k : string) (n : nat) (s : kv_map (list V)) : kv_map (list V) :=
  match kv_look now k s with
  | Some (l, e) => match drop n l with [] => delete k s | l' => <[k := (l', e)]> s end
  | None => delete k s
  end.

#[export] Program Instance kv_map_RedisList V : RedisList (kv_map (list V)) V := {
  redis_rpush now k v s :=
    <[k := (default [] (fst <$> kv_look now k s) ++ [v], kv_look now k s ≫= snd)]> s;
  redis_ltrim := kv_ltrim;
}.
Next Obligation.
  intros. unfold redis_get. cbn [look kv_map_RedisKV]. unfold kv_look at 1. rewrite lookup_insert.
  repeat case_decide; naive_solver.
Qed.
Next Obligation.
  intros. cbn [look kv_map_RedisKV]. unfold kv_look at 1, kv_ltrim.
  destruct (kv_look now k s) as [[l e]|]; cbn.
  - destruct (drop n l); [rewrite lookup_delete|rewrite lookup_insert]; repeat case_decide; naive_solver.
  - rewrite lookup_delete. repeat case_decide; naive_solver.
Qed.

(** ** The overflow table *)

Record overflow_row := {
  o_id : string; o_tenant_id : string; o_thread_id : string; o_stream_id : string;
  o_seq : Z; o_event_type : string; o_payload : json;
}.

(** A session of the database: it may fail as a whole, as may its reply; a
    statement that fails rolls it back. *)
Definition db_session {A} (f : list overflow_row -> option (A * list overflow_row)) :
    io (redis (list overflow_row)) redis_exc A :=
  r ← redis_call (fun rows => match f rows with
                              | Some (a, rows') => (Some a, rows')
                              | None => (None, rows)
                              end);
  match r with Some a => mret a | None => throw RedisError end.

(** The column [seq] is a 32-bit INTEGER. *)
Definition int4 (z : Z) : bool := (- 2 ^ 31 <=? z) && (z <? 2 ^ 31).

(** [session.merge]: an UPDATE of the row with this primary key, or an INSERT. *)
Definition merge (r : overflow_row) (rows : list overflow_row) : list overflow_row :=
  if existsb (fun r' => bool_decide (o_id r' = o_id r)) rows
  then map (fun r' => if decide (o_id r' = o_id r) then r else r') rows
  else rows ++ [r].

Definition in_scope (tenant_id thread_id stream_id : string) (r : overflow_row) : bool :=
  bool_decide (o_tenant_id r = tenant_id) && bool_decide (o_thread_id r = thread_id)
  && bool_decide (o_stream_id r = stream_id).

Definition row_leb (r r' : overflow_row) : bool := o_seq r <=? o_seq r'.
Definition chunk_of (r : overflow_row) : chunk :=
  {| c_id := o_seq r; c_type := o_event_type r; c_data := o_payload r |}.

Section overflow.
Context (uuid5 : string -> string).

Definition _row_id (tenant_id thread_id stream_id : string) (seq : Z) : string :=
  uuid5 ("stream-buffer:" +:+ tenant_id +:+ ":" +:+ thread_id +:+ ":" +:+ stream_id +:+ ":" +:+ pretty seq).

Definition overflow_row_of (tenant_id thread_id stream_id : string) (c : chunk) : overflow_row := {|
  o_id := _row_id tenant_id thread_id stream_id (c_id c);
  o_tenant_id := tenant_id; o_thread_id := thread_id; o_stream_id := stream_id;
  o_seq := c_id c; o_event_type := c_type c; o_payload := c_data c |}.

Definition write_chunks (tenant_id thread_id stream_id : string) (chunks : list chunk) :
    io (redis (list overflow_row)) redis_exc Z :=
  match chunks with
  | [] => mret 0
  | _ => db_session (fun rows =>
           if forallb (fun c => int4 (c_id c)) chunks
           then Some (Z.of_nat (length chunks),
                      foldl (fun rows c => merge (overflow_row_of tenant_id thread_id stream_id c) rows)
                            rows chunks)
           else None)
  end.

Definition read_chunks (tenant_id thread_id stream_id : string) (after_seq : Z) :
    io (redis (list overflow_row)) redis_exc (list chunk) :=
  db_session (fun rows =>
    Some (map chunk_of (sort_by row_leb
            (List.filter (fun r => in_scope tenant_id thread_id stream_id r && (after_seq <? o_seq r)) rows)),
          rows)).

Definition overflow_clear (tenant_id thread_id stream_id : string) :
    io (redis (list overflow_row)) redis_exc Z :=
  db_session (fun rows =>
    let gone := in_scope tenant_id thread_id stream_id in
    Some (Z.of_nat (length (List.filter gone rows)), List.filter (fun r => negb (gone r)) rows)).

(** ** The buffer *)

Record mem_entry := { me_seq : Z; me_entries : list chunk; me_ttl : Z }.

Context {St : Type} `{RedisList St chunk}.
Context (buf_prefix : string) (ttl_seconds overflow_max_chunks : Z).

Record StreamBuffer := {
  sb_conn : redis St;
  sb_available : bool;
  sb_memory : gmap string mem_entry;
  sb_seq : Z;
  sb_overflow : option (redis (list overflow_row));
}.

Definition put_conn (r : redis St) (b : StreamBuffer) : StreamBuffer :=
  {| sb_conn := r; sb_available := sb_available b; sb_memory := sb_memory b;
     sb_seq := sb_seq b; sb_overflow := sb_overflow b |}.
Definition put_memory (m : gmap string mem_entry) (b : StreamBuffer) : StreamBuffer :=
  {| sb_conn := sb_conn b; sb_available := sb_available b; sb_memory := m;
     sb_seq := sb_seq b; sb_overflow := sb_overflow b |}.
Definition put_overflow (d : redis (list overflow_row)) (b : StreamBuffer) : StreamBuffer :=
  {| sb_conn := sb_conn b; sb_available := sb_available b; sb_memory := sb_memory b;
     sb_seq := sb_seq b; sb_overflow := Some d |}.
Definition bump (b : StreamBuffer) : StreamBuffer :=
  {| sb_conn := sb_conn b; sb_available := sb_available b; sb_memory := sb_memory b;
     sb_seq := sb_seq b + 1; sb_overflow := sb_overflow b |}.
Definition _mark_redis_down (b : StreamBuffer) : StreamBuffer :=
  {| sb_conn := sb_conn b; sb_available := false; sb_memory := sb_memory b;
     sb_seq := sb_seq b; sb_overflow := sb_overflow b |}.

Definition sb_run {A} (f : St -> A * St) : io StreamBuffer redis_exc A :=
  lift sb_conn put_conn id (redis_call f).

(** A call of the repository, which is there when it is called. *)
Definition on_overflow {A} (c : io (redis (list overflow_row)) redis_exc A) : io StreamBuffer redis_exc A :=
  fun b => match sb_overflow b with
           | None => (Raise RedisError, b)
           | Some d => let '(o, d) := c d in (o, put_overflow d b)
           end.

Definition ttl_ms : Z := ttl_seconds * 1000.

Definition buf_key (tenant_id thread_id stream_id : string) : string :=
  buf_prefix +:+ tenant_id +:+ ":" +:+ thread_id +:+ ":" +:+ stream_id.

(** An expired entry is dropped when it is looked up. *)
Definition _mem_get {E} (now : Z) (key : string) : io StreamBuffer E (option mem_entry) :=
  b ← get_st;
  match sb_memory b !! key with
  | None => mret None
  | Some e =>
      if me_ttl e <? now then _ ← modify (put_memory (delete key (sb_memory b))); mret None
      else mret (Some e)
  end.

Definition set_entry {E} (key : string) (e : mem_entry) : io StreamBuffer E unit :=
  modify (fun b => put_memory (<[key := e]> (sb_memory b)) b).

Definition _mem_append {E} (now : Z) (key : string) (r : chunk) : io StreamBuffer E Z :=
  entry ← _mem_get now key;
  let e := default {| me_seq := c_id r; me_entries := []; me_ttl := now + ttl_ms |} entry in
  _ ← set_entry key {| me_seq := me_seq e; me_entries := me_entries e ++ [r]; me_ttl := now + ttl_ms |};
  mret (c_id r).

Definition _mem_read {E} (now : Z) (key : string) (after : Z) : io StreamBuffer E (list chunk) :=
  entry ← _mem_get now key;
  match entry with
  | None => mret []
  | Some e => mret (List.filter (fun r => after <? c_id r) (me_entries e))
  end.

(** Without the table the chunks are dropped, and so they are when the write
    fails. *)
Definition _spill_overflow {E} (tenant_id thread_id stream_id : string) (spills : list chunk) :
    io StreamBuffer E unit :=
  match spills with
  | [] => mret tt
  | _ =>
      b ← get_st;
      match sb_overflow b with
      | None => mret tt
      | Some _ => try_catch (_ ← on_overflow (write_chunks tenant_id thread_id stream_id spills); mret tt)
                            (fun _ => mret tt)
      end
  end.

(** The Redis branch of [append] past the cap. *)
Definition trim_redis (now : Z) (tenant_id thread_id stream_id : string) : io StreamBuffer redis_exc unit :=
  let key := buf_key tenant_id thread_id stream_id in
  if 0 <? overflow_max_chunks then
    size ← sb_run (fun s => (Z.of_nat (length (default [] (redis_get now key s))), s));
    if negb (size =? 0) && (overflow_max_chunks <? size) then
      let excess := Z.to_nat (size - overflow_max_chunks) in
      spill_raw ← sb_run (fun s => (take excess (default [] (redis_get now key s)), s));
      _ ← sb_run (fun s => (tt, redis_ltrim now key excess s));
      _spill_overflow tenant_id thread_id stream_id spill_raw
    else mret tt
  else mret tt.

Definition append {E} (now : Z) (tenant_id thread_id stream_id event_type : string) (payload : json) :
    io StreamBuffer E Z :=
  _ ← modify bump;
  b ← get_st;
  let seq := sb_seq b in
  let r := {| c_id := seq; c_type := event_type; c_data := payload |} in
  let key := buf_key tenant_id thread_id stream_id in
  if negb (sb_available b) then
    _ ← _mem_append now key r;
    entry ← _mem_get now key;
    spills ← (match entry with
              | Some e =>
                  let n := Z.of_nat (length (me_entries e)) in
                  if (0 <? overflow_max_chunks) && (overflow_max_chunks <? n) then
                    let excess := take (Z.to_nat (n - overflow_max_chunks)) (me_entries e) in
                    _ ← set_entry key {| me_seq := me_seq e;
                                         me_entries := drop (length excess) (me_entries e);
                                         me_ttl := me_ttl e |};
                    mret excess
                  else mret []
              | None => mret []
              end);
    _ ← _spill_overflow tenant_id thread_id stream_id spills;
    mret seq
  else
    try_catch
      (_ ← sb_run (fun s => (tt, redis_rpush now key r s));
       _ ← sb_run (fun s => (tt, redis_pexpire now key ttl_ms s));
       _ ← trim_redis now tenant_id thread_id stream_id;
       mret seq)
      (fun _ => _ ← modify _mark_redis_down; _ ← _mem_append now key r; mret seq).

(** [{r["id"]: r for r in l}] and [d.setdefault(r["id"], r)], the dictionary as
    the list of its values. *)
Definition dict_put (d : list chunk) (r : chunk) : list chunk :=
  if existsb (fun r' => c_id r' =? c_id r) d
  then map (fun r' => if c_id r' =? c_id r then r else r') d else d ++ [r].
Definition setdefault (d : list chunk) (r : chunk) : list chunk :=
  if existsb (fun r' => c_id r' =? c_id r) d then d else d ++ [r].

Definition chunk_leb (r r' : chunk) : bool := c_id r <=? c_id r'.

(** The hot part of [replay]: only the memory branch looks at the event id. *)
Definition read_hot {E} (now : Z) (key : string) (after_event_id : Z) : io StreamBuffer E (list chunk) :=
  b ← get_st;
  if negb (sb_available b) then _mem_read now key after_event_id
  else
    try_catch
      (raw ← sb_run (fun s => (default [] (redis_get now key s), s));
       _ ← (match raw with
            | [] => mret tt
            | _ => sb_run (fun s => (tt, redis_pexpire now key ttl_ms s))
            end);
       mret raw)
      (fun _ => _ ← modify _mark_redis_down; _mem_read now key after_event_id).

Definition replay {E} (now : Z) (tenant_id thread_id stream_id : string) (after_event_id : Z) :
    io StreamBuffer E (list chunk) :=
  hot ← read_hot now (buf_key tenant_id thread_id stream_id) after_event_id;
  b ← get_st;
  overflow ← (match sb_overflow b with
              | None => mret []
              | Some _ => try_catch (on_overflow (read_chunks tenant_id thread_id stream_id after_event_id))
                                    (fun _ => mret [])
              end);
  mret (sort_by chunk_leb (foldl setdefault (foldl dict_put [] overflow) hot)).

Definition mark_terminal {E} (now : Z) (tenant_id thread_id stream_id event_type : string)
    (payload : json) : io StreamBuffer E unit :=
  _ ← append now tenant_id thread_id stream_id event_type payload; mret tt.

Definition is_terminal_chunk (r : chunk) : bool :=
  bool_decide (c_type r = "result") || bool_decide (c_type r = "error").

Definition get_terminal {E} (now : Z) (tenant_id thread_id stream_id : string) :
    io StreamBuffer E (option chunk) :=
  chunks ← replay now tenant_id thread_id stream_id 0;
  mret (List.find is_terminal_chunk (rev chunks)).

Definition pop_memory {E} (key : string) : io StreamBuffer E unit :=
  modify (fun b => put_memory (delete key (sb_memory b)) b).

Definition clear {E} (tenant_id thread_id stream_id : string) : io StreamBuffer E bool :=
  let key := buf_key tenant_id thread_id stream_id in
  b ← get_st;
  ok ← (if negb (sb_available b) then _ ← pop_memory key; mret true
        else
          try_catch
            (_ ← sb_run (fun s => (tt, redis_del key s)); _ ← pop_memory key; mret true)
            (fun _ => _ ← modify _mark_redis_down; _ ← pop_memory key; mret false));
  b ← get_st;
  match sb_overflow b with
  | None => mret ok
  | Some _ =>
      try_catch (_ ← on_overflow (overflow_clear tenant_id thread_id stream_id); mret ok)
                (fun _ => mret false)
  end.

(** ** What a stream holds *)

Definition mem_at (t : Z) (key : string) (m : gmap string mem_entry) : list chunk :=
  match m !! key with
  | Some e => if me_ttl e <? t then [] else me_entries e
  | None => []
  end.

(** The chunks of the hot tier, seen at [t]. *)
Definition hot_at (t : Z) (key : string) (b : StreamBuffer) : list chunk :=
  if sb_available b then default [] (redis_get t key (store (sb_conn b)))
  else mem_at t key (sb_memory b).

Definition rows_of (b : StreamBuffer) : list overflow_row :=
  match sb_overflow b with Some d => store d | None => [] end.

(** No command fails, and a cap comes with a table. *)
Definition sound (b : StreamBuffer) : Prop :=
  (sb_available b = true -> healthy (sb_conn b)) /\
  match sb_overflow b with Some d => healthy d | None => overflow_max_chunks <= 0 end.

(** How many chunks leave the hot tier. *)
Definition excess_of (l : list chunk) : nat :=
  let n := Z.of_nat (length l) in
  if (0 <? overflow_max_chunks) && (overflow_max_chunks <? n) then Z.to_nat (n - overflow_max_chunks)
  else 0%nat.

Definition spill_rows (tn th st : string) (rows : list overflow_row) (l : list chunk) :=
  if forallb (fun c => int4 (c_id c)) l
  then foldl (fun rows c => merge (overflow_row_of tn th st c) rows) rows l else rows.

(** Same hot tier and counter. *)
Definition same_front (b b' : StreamBuffer) : Prop :=
  sb_conn b' = sb_conn b /\ sb_available b' = sb_available b /\ sb_memory b' = sb_memory b
  /\ sb_seq b' = sb_seq b.

(** ** Lemmas on the operations *)

Lemma sb_run_healthy {A} (f : St -> A * St) b :
  healthy (sb_conn b) ->
  exists r, sb_run f b = (Ret (f (store (sb_conn b))).1, put_conn r b) /\ healthy r
    /\ store r = (f (store (sb_conn b))).2.
Proof.
  intros Hh. unfold sb_run, lift. destruct (redis_call_healthy f (sb_conn b) Hh) as (fs & -> & Hfs).
  by eexists.
Qed.

Lemma db_session_healthy {A} (f : list overflow_row -> option (A * list overflow_row)) d :
  healthy d ->
  exists fs, Forall (eq NoFault) fs /\
    db_session f d = match f (store d) with
                     | Some (a, rows) => (Ret a, Build_redis rows fs)
                     | None => (Raise RedisError, Build_redis (store d) fs)
                     end.
Proof.
  intros Hh. unfold db_session, mbind, io_bind.
  destruct (redis_call_healthy (fun rows => match f rows with Some (a, rows') => (Some a, rows') | None => (None, rows) end)
              d Hh) as (fs & -> & Hfs).
  exists fs. split; [done|]. by destruct (f (store d)) as [[a rows]|].
Qed.

Lemma db_session_cases {A} (f : list overflow_row -> option (A * list overflow_row)) d :
  (exists a rows fs, f (store d) = Some (a, rows) /\ db_session f d = (Ret a, Build_redis rows fs))
  \/ (exists a rows fs, f (store d) = Some (a, rows) /\ db_session f d = (Raise RedisError, Build_redis rows fs))
  \/ exists fs, db_session f d = (Raise RedisError, Build_redis (store d) fs).
Proof.
  unfold db_session, mbind, io_bind.
  destruct (redis_call_cases (fun rows => match f rows with Some (a, rows') => (Some a, rows') | None => (None, rows) end) d)
    as [[fs ->]|[[fs ->]|[fs ->]]]; destruct (f (store d)) as [[a rows]|]; cbn; naive_solver.
Qed.

Lemma spill_sound {E} tn th st spills b :
  sound b -> (sb_overflow b = None -> spills = []) ->
  exists b', @_spill_overflow E tn th st spills b = (Ret tt, b') /\ same_front b b' /\ sound b'
    /\ rows_of b' = spill_rows tn th st (rows_of b) spills.
Proof.
  intros [Hc Ho] Hnone. unfold _spill_overflow, spill_rows. destruct spills as [|c spills].
  { exists b. split_and!; done. }
  unfold rows_of in *. unfold mbind, io_bind, get_st.
  destruct (sb_overflow b) as [d|] eqn:Ed; [|by specialize (Hnone eq_refl)].
  unfold try_catch, on_overflow. rewrite Ed. unfold write_chunks.
  destruct (db_session_healthy (fun rows => if forallb (fun c => int4 (c_id c)) (c :: spills)
    then Some (Z.of_nat (length (c :: spills)),
               foldl (fun rows c => merge (overflow_row_of tn th st c) rows) rows (c :: spills))
    else None) d Ho) as (fs & Hfs & ->).
  destruct (forallb _ (c :: spills)); eexists; (split; [reflexivity|]); by split_and!.
Qed.

Lemma mem_get_spec {E} now key b :
  exists m, @_mem_get E now key b
    = (Ret (match sb_memory b !! key with
            | Some e => if me_ttl e <? now then None else Some e
            | None => None end), put_memory m b)
    /\ (forall t k, now <= t -> mem_at t k m = mem_at t k (sb_memory b))
    /\ (forall k, k <> key -> m !! k = sb_memory b !! k).
Proof.
  unfold _mem_get, mbind, io_bind, get_st. destruct (sb_memory b !! key) as [e|] eqn:Ek.
  - destruct (me_ttl e <? now) eqn:Et.
    + exists (delete key (sb_memory b)). split_and!; [done| |].
      * intros t k Ht. unfold mem_at. destruct (decide (k = key)) as [->|Hk].
        -- rewrite lookup_delete, decide_True by done. rewrite Ek. to_prop.
           by replace (me_ttl e <? t) with true by lia.
        -- by rewrite lookup_delete_ne.
      * intros k Hk. by rewrite lookup_delete_ne.
    + exists (sb_memory b). by destruct b.
  - exists (sb_memory b). by destruct b.
Qed.

Lemma mem_append_spec {E} now key r b :
  exists m, @_mem_append E now key r b = (Ret (c_id r), put_memory m b)
    /\ (exists q, m !! key = Some {| me_seq := q; me_entries := mem_at now key (sb_memory b) ++ [r];
                                     me_ttl := now + ttl_ms |})
    /\ (forall k, k <> key -> m !! k = sb_memory b !! k).
Proof.
  unfold _mem_append. destruct (@mem_get_spec E now key b) as (m & Hm & _ & Hk).
  unfold mbind at 1, io_bind at 1. rewrite Hm. unfold mbind, io_bind, set_entry, modify.
  eexists. split; [reflexivity|]. split.
  - cbn. rewrite lookup_insert, decide_True by done. unfold mem_at.
    destruct (sb_memory b !! key) as [e|]; [destruct (me_ttl e <? now)|]; cbn; by eexists.
  - intros k Hne. cbn. rewrite lookup_insert_ne by done. by apply Hk.
Qed.

Lemma mem_read_spec {E} now key after b :
  exists m, @_mem_read E now key after b
    = (Ret (List.filter (fun r => after <? c_id r) (mem_at now key (sb_memory b))), put_memory m b)
    /\ (forall t k, now <= t -> mem_at t k m = mem_at t k (sb_memory b)).
Proof.
  unfold _mem_read, mbind, io_bind. destruct (@mem_get_spec E now key b) as (m & -> & Hm & _).
  exists m. split; [|done]. unfold mem_at.
  destruct (sb_memory b !! key) as [e|]; [destruct (me_ttl e <? now)|]; done.
Qed.

Lemma look_pushed now t k r s :
  now <= t ->
  look t k (redis_pexpire now k ttl_ms (redis_rpush now k r s))
  = unexpired t (Some (default [] (redis_get now k s) ++ [r], Some (now + ttl_ms))).
Proof.
  intros Ht. rewrite look_pexpire by done. rewrite decide_True by done.
  rewrite look_rpush by lia. rewrite decide_True by done. by rewrite live_expiry.
Qed.

Lemma look_other now t k k' r s :
  now <= t -> k' <> k -> look t k' (redis_pexpire now k ttl_ms (redis_rpush now k r s)) = look t k' s.
Proof.
  intros Ht Hk. rewrite look_pexpire by done. rewrite decide_False by done.
  rewrite look_rpush by done. by rewrite decide_False.
Qed.

(** The effect of an append on the hot tier. *)
Definition appended (now : Z) (key : string) (r : chunk) (b b' : StreamBuffer) : Prop :=
  let l := hot_at now key b ++ [r] in
  (forall t, now <= t < now + ttl_ms -> hot_at t key b' = drop (excess_of l) l)
  /\ (forall t k, now <= t -> k <> key -> hot_at t k b' = hot_at t k b).

Lemma hot_front t k b b' : same_front b b' -> hot_at t k b' = hot_at t k b.
Proof. intros (Hc & Ha & Hm & _). unfold hot_at. by rewrite Hc, Ha, Hm. Qed.

Lemma excess_none l : overflow_max_chunks <= 0 -> excess_of l = 0%nat.
Proof. intros Hm. unfold excess_of. by replace (0 <? overflow_max_chunks) with false by lia. Qed.

Lemma append_memory {E} now tn th st ty p b :
  let r := {| c_id := sb_seq b + 1; c_type := ty; c_data := p |} in
  let key := buf_key tn th st in
  let l := hot_at now key b ++ [r] in
  sound b -> 0 < ttl_ms -> sb_available b = false ->
  exists b', @append E now tn th st ty p b = (Ret (sb_seq b + 1), b') /\ sound b'
    /\ sb_available b' = sb_available b /\ sb_seq b' = sb_seq b + 1
    /\ rows_of b' = spill_rows tn th st (rows_of b) (take (excess_of l) l)
    /\ appended now key r b b'.
Proof.
  cbn zeta. intros Hs Httl Ha. set (r := Build_chunk _ _ _). set (key := buf_key tn th st).
  unfold append, mbind at 1, io_bind at 1, modify at 1. unfold mbind at 1, io_bind at 1, get_st at 1.
  cbn [sb_available bump sb_seq]. fold r key. rewrite Ha. cbn [negb].
  destruct (@mem_append_spec E now key r (bump b)) as (m1 & Hm1 & [q Hq] & Hk1).
  cbn [sb_memory bump] in Hq, Hk1. unfold mbind at 1, io_bind at 1. rewrite Hm1.
  assert (Hl : hot_at now key b = mem_at now key (sb_memory b)) by (unfold hot_at; by rewrite Ha).
  rewrite <- Hl in Hq. set (l := hot_at now key b ++ [r]) in *.
  unfold mbind at 1, io_bind at 1, _mem_get, mbind at 1, io_bind at 1, get_st at 1.
  cbn [sb_memory put_memory]. rewrite Hq. cbn [me_ttl].
  replace (now + ttl_ms <? now) with false by lia. cbn [mret io_ret me_entries me_seq me_ttl].
  fold (excess_of l).
  assert (Hmid : exists m2, (if (0 <? overflow_max_chunks) && (overflow_max_chunks <? Z.of_nat (length l))
      then _ ← set_entry (E := E) key {| me_seq := q;
             me_entries := drop (length (take (Z.to_nat (Z.of_nat (length l) - overflow_max_chunks)) l)) l;
             me_ttl := now + ttl_ms |};
           mret (take (Z.to_nat (Z.of_nat (length l) - overflow_max_chunks)) l)
      else mret []) (put_memory m1 (bump b)) = (Ret (take (excess_of l) l), put_memory m2 (bump b))
    /\ (exists q, m2 !! key = Some {| me_seq := q; me_entries := drop (excess_of l) l; me_ttl := now + ttl_ms |})
    /\ (forall k, k <> key -> m2 !! k = sb_memory b !! k)).
  { unfold excess_of. destruct ((0 <? overflow_max_chunks) && _) eqn:Ec.
    - eexists. split; [reflexivity|]. split.
      + exists q. cbn. rewrite lookup_insert, decide_True by done. f_equal. f_equal.
        rewrite length_take. f_equal. apply andb_true_iff in Ec as [? ?]. lia.
      + intros k Hne. cbn. rewrite lookup_insert_ne by done. by apply Hk1.
    - exists m1. split_and!; [done|by exists q|done]. }
  destruct Hmid as (m2 & Hmid & [q' Hq'] & Hk2). unfold mbind at 1, io_bind at 1. rewrite Hmid.
  destruct (@spill_sound E tn th st (take (excess_of l) l) (put_memory m2 (bump b))) as (b' & Hsp & Hf & Hs' & Hr).
  { split; [cbn; by rewrite Ha|apply Hs]. }
  { intros Hn. destruct Hs as [_ Ho]. cbn in Hn. rewrite Hn in Ho. by rewrite excess_none. }
  unfold mbind, io_bind. rewrite Hsp. exists b'. pose proof Hf as (_ & Hfa & _ & Hfs).
  split_and!; [done|done|rewrite Hfa; exact Ha|by rewrite Hfs|done|]. split.
  - intros t Ht. change (hot_at t key b' = drop (excess_of l) l). rewrite (hot_front _ _ _ _ Hf).
    unfold hot_at, mem_at. cbn [sb_available put_memory bump sb_memory].
    rewrite Ha, Hq'. cbn [me_ttl me_entries]. by replace (now + ttl_ms <? t) with false by lia.
  - intros t k Ht Hk. rewrite (hot_front _ _ _ _ Hf). unfold hot_at, mem_at. cbn [sb_available put_memory bump sb_memory].
    by rewrite Ha, Hk2.
Qed.

Lemma trim_redis_spec now tn th st b l :
  let key := buf_key tn th st in
  sound b -> 0 < ttl_ms -> sb_available b = true -> l <> [] ->
  (forall t, now <= t < now + ttl_ms ->
     look t key (store (sb_conn b)) = Some (l, Some (now + ttl_ms))) ->
  exists b', trim_redis now tn th st b = (Ret tt, b')
    /\ sound b' /\ sb_available b' = true /\ sb_seq b' = sb_seq b
    /\ rows_of b' = spill_rows tn th st (rows_of b) (take (excess_of l) l)
    /\ (forall t, now <= t < now + ttl_ms ->
          redis_get t key (store (sb_conn b')) = Some (drop (excess_of l) l))
    /\ (forall t k, now <= t -> k <> key -> look t k (store (sb_conn b')) = look t k (store (sb_conn b))).
Proof.
  cbn zeta. set (key := buf_key tn th st). intros Hs Httl Ha Hl Hlook.
  assert (Hgets : forall t, now <= t < now + ttl_ms -> redis_get t key (store (sb_conn b)) = Some l)
    by (intros t Ht; unfold redis_get; by rewrite Hlook).
  assert (Hget := Hgets now ltac:(lia)). assert (Hh : healthy (sb_conn b)) by by apply Hs.
  unfold trim_redis, excess_of. fold key. destruct (0 <? overflow_max_chunks) eqn:Ecap; cbn [andb].
  2:{ exists b. by split_and!. }
  destruct (sb_run_healthy (fun s => (Z.of_nat (length (default [] (redis_get now key s))), s)) b Hh)
    as (r3 & Hr3 & Hh3 & Hst3).
  cbn [fst snd] in Hr3, Hst3. rewrite Hget in Hr3. cbn [default from_option id] in Hr3.
  unfold mbind at 1, io_bind at 1. rewrite Hr3.
  assert ((Z.of_nat (length l) =? 0) = false) as -> by (destruct l; [done|]; apply Z.eqb_neq; cbn [length]; lia).
  cbn [negb andb]. destruct (overflow_max_chunks <? Z.of_nat (length l)) eqn:Eover.
  2:{ exists (put_conn r3 b). cbn [sb_conn put_conn]. rewrite Hst3.
      split_and!; [done| |done|done|done|done|done]. split; [done|apply Hs]. }
  set (n := Z.to_nat (Z.of_nat (length l) - overflow_max_chunks)).
  destruct (sb_run_healthy (fun s => (take n (default [] (redis_get now key s)), s)) (put_conn r3 b) Hh3)
    as (r4 & Hr4 & Hh4 & Hst4).
  cbn [fst snd sb_conn put_conn] in Hr4, Hst4. rewrite Hst3 in Hst4. rewrite Hst3, Hget in Hr4.
  cbn [default from_option id] in Hr4. cbv zeta. unfold mbind at 1, io_bind at 1. rewrite Hr4.
  destruct (sb_run_healthy (fun s => (tt, redis_ltrim now key n s)) (put_conn r4 (put_conn r3 b)) Hh4)
    as (r5 & Hr5 & Hh5 & Hst5).
  cbn [fst snd sb_conn put_conn] in Hst5. rewrite Hst4 in Hst5. unfold mbind at 1, io_bind at 1. rewrite Hr5.
  destruct (@spill_sound redis_exc tn th st (take n l) (put_conn r5 (put_conn r4 (put_conn r3 b))))
    as (b' & Hsp & Hf & Hs' & Hr').
  { split; [done|apply Hs]. }
  { intros Hn. destruct Hs as [_ Ho]. cbn in Hn. rewrite Hn in Ho. to_prop. lia. }
  exists b'. pose proof Hf as (Hfc & Hfa & _ & Hfs). rewrite Hfc, Hfa, Hfs. cbn [sb_conn put_conn].
  split_and!; [done|done|done|done|done| |].
  - intros t Ht. unfold redis_get. rewrite Hst5, look_ltrim by lia. rewrite decide_True by done.
    rewrite Hlook by lia. cbn. destruct (drop n l) eqn:Ed.
    + apply (f_equal length) in Ed. rewrite length_drop in Ed. cbn in Ed. to_prop. unfold n in Ed. lia.
    + cbn. by replace (t <? now + ttl_ms) with true by lia.
  - intros t k Ht Hk. rewrite Hst5, look_ltrim by done. by rewrite decide_False.
Qed.

Lemma append_redis {E} now tn th st ty p b :
  let r := {| c_id := sb_seq b + 1; c_type := ty; c_data := p |} in
  let key := buf_key tn th st in
  let l := hot_at now key b ++ [r] in
  sound b -> 0 < ttl_ms -> sb_available b = true ->
  exists b', @append E now tn th st ty p b = (Ret (sb_seq b + 1), b') /\ sound b'
    /\ sb_available b' = sb_available b /\ sb_seq b' = sb_seq b + 1
    /\ rows_of b' = spill_rows tn th st (rows_of b) (take (excess_of l) l)
    /\ appended now key r b b'.
Proof.
  cbn zeta. intros Hs Httl Ha. set (r := Build_chunk _ _ _). set (key := buf_key tn th st).
  unfold append, mbind at 1, io_bind at 1, modify at 1. unfold mbind at 1, io_bind at 1, get_st at 1.
  cbn [sb_available bump sb_seq]. fold r key. rewrite Ha. cbn [negb].
  assert (Hl : hot_at now key b = default [] (redis_get now key (store (sb_conn b)))) by (unfold hot_at; by rewrite Ha).
  set (l := hot_at now key b ++ [r]) in *.
  destruct (sb_run_healthy (fun s => (tt, redis_rpush now key r s)) (bump b)) as (r1 & Hr1 & Hh1 & Hst1); [by apply Hs|].
  destruct (sb_run_healthy (fun s => (tt, redis_pexpire now key ttl_ms s)) (put_conn r1 (bump b)))
    as (r2 & Hr2 & Hh2 & Hst2); [done|].
  cbn [fst snd sb_conn put_conn bump] in Hst1, Hst2. rewrite Hst1 in Hst2.
  destruct (trim_redis_spec now tn th st (put_conn r2 (put_conn r1 (bump b))) l)
    as (b' & Htrim & Hs' & Ha' & Hseq & Hrows & Hhot & Hk); [by split; [|apply Hs]|done|done|by destruct (hot_at now key b)| |].
  { intros t Ht. cbn [sb_conn put_conn]. rewrite Hst2. fold key. rewrite look_pushed by lia. rewrite <- Hl. fold l. cbn.
    by replace (t <? now + ttl_ms) with true by lia. }
  exists b'. split_and!; [|done|done|done|done|].
  - unfold try_catch, mbind at 1, io_bind at 1. rewrite Hr1. unfold mbind at 1, io_bind at 1. rewrite Hr2.
    unfold mbind at 1, io_bind at 1. by rewrite Htrim.
  - split.
    + intros t Ht. change (hot_at t key b' = drop (excess_of l) l). unfold hot_at. fold key in Hhot.
      by rewrite Ha', Hhot.
    + intros t k Ht Hne. unfold hot_at. rewrite Ha', Ha. unfold redis_get. rewrite Hk by done.
      cbn [sb_conn put_conn]. by rewrite Hst2, look_other.
Qed.

Lemma append_spec {E} now tn th st ty p b :
  let r := {| c_id := sb_seq b + 1; c_type := ty; c_data := p |} in
  let key := buf_key tn th st in
  let l := hot_at now key b ++ [r] in
  sound b -> 0 < ttl_ms ->
  exists b', @append E now tn th st ty p b = (Ret (sb_seq b + 1), b') /\ sound b'
    /\ sb_available b' = sb_available b /\ sb_seq b' = sb_seq b + 1
    /\ rows_of b' = spill_rows tn th st (rows_of b) (take (excess_of l) l)
    /\ appended now key r b b'.
Proof.
  intros ? ? ? Hs Httl. destruct (sb_available b) eqn:Ha;
    [destruct (@append_redis E now tn th st ty p b Hs Httl Ha) as (b' & Hb)
    |destruct (@append_memory E now tn th st ty p b Hs Httl Ha) as (b' & Hb)];
    exists b'; by rewrite Ha in Hb.
Qed.

(** What a replay merges: the rows after the event id, and the hot tier. *)
Definition replayed (now after : Z) (tn th st : string) (b : StreamBuffer) : list chunk :=
  let hot := hot_at now (buf_key tn th st) b in
  let ov := map chunk_of (sort_by row_leb
              (List.filter (fun r => in_scope tn th st r && (after <? o_seq r)) (rows_of b))) in
  sort_by chunk_leb (foldl setdefault (foldl dict_put [] ov)
    (if sb_available b then hot else List.filter (fun r => after <? c_id r) hot)).

Lemma read_hot_spec {E} now key after b :
  sound b -> 0 < ttl_ms ->
  exists b', @read_hot E now key after b = (Ret (if sb_available b then hot_at now key b
                         else List.filter (fun r => after <? c_id r) (hot_at now key b)), b')
    /\ sound b' /\ sb_available b' = sb_available b /\ sb_seq b' = sb_seq b
    /\ sb_overflow b' = sb_overflow b
    /\ (forall t k, now <= t -> k <> key -> hot_at t k b' = hot_at t k b)
    /\ (forall l d, now < d <= now + ttl_ms -> (forall t, now <= t < d -> hot_at t key b = l) ->
          forall t, now <= t < d -> hot_at t key b' = l).
Proof.
  intros Hs Httl. unfold read_hot, mbind at 1, io_bind at 1, get_st at 1. destruct (sb_available b) eqn:Ha; cbn [negb].
  - assert (Hh : healthy (sb_conn b)) by by apply Hs.
    assert (Hl : hot_at now key b = default [] (redis_get now key (store (sb_conn b)))) by (unfold hot_at; by rewrite Ha).
    destruct (sb_run_healthy (fun s => (default [] (redis_get now key s), s)) b Hh) as (r1 & Hr1 & Hh1 & Hst1).
    cbn [fst snd] in Hr1, Hst1. rewrite <- Hl in Hr1. unfold try_catch, mbind at 1, io_bind at 1. rewrite Hr1.
    destruct (hot_at now key b) as [|x xs] eqn:Ehot.
    + exists (put_conn r1 b). cbn. rewrite Ha. split_and!; [done| |done|done|done| |].
      * split; [done|apply Hs].
      * intros t k Ht Hk. unfold hot_at. cbn. by rewrite Ha, Hst1.
      * intros l d Hd Hc t Ht. rewrite <- (Hc t Ht). unfold hot_at. cbn. by rewrite Ha, Hst1.
    + destruct (sb_run_healthy (fun s => (tt, redis_pexpire now key ttl_ms s)) (put_conn r1 b) Hh1)
        as (r2 & Hr2 & Hh2 & Hst2).
      cbn [fst snd sb_conn put_conn] in Hst2. rewrite Hst1 in Hst2. unfold mbind, io_bind. rewrite Hr2.
      exists (put_conn r2 (put_conn r1 b)). cbn [sb_available put_conn sb_seq sb_overflow]. rewrite Ha.
      split_and!; [done| |done|done|done| |].
      * split; [done|apply Hs].
      * intros t k Ht Hk. unfold hot_at. cbn. rewrite Ha, Hst2. unfold redis_get. rewrite look_pexpire by done.
        by rewrite decide_False.
      * intros l d Hd Hc t Ht. specialize (Hc now ltac:(lia)). rewrite Ehot in Hc. subst l.
        unfold hot_at. cbn [sb_available sb_conn put_conn]. rewrite Ha, Hst2. unfold redis_get in Hl |- *.
        rewrite look_pexpire by lia. rewrite decide_True by done.
        destruct (look now key (store (sb_conn b))) as [[v e]|]; cbn in Hl |- *; [|done].
        replace (t <? now + ttl_ms) with true by lia. by subst.
  - assert (Hhot : forall t k, hot_at t k b = mem_at t k (sb_memory b)) by (intros; unfold hot_at; by rewrite Ha).
    destruct (@mem_read_spec E now key after b) as (m & -> & Hm). exists (put_memory m b).
    assert (Hhot' : forall t k, now <= t -> hot_at t k (put_memory m b) = hot_at t k b).
    { intros t k Ht. unfold hot_at. cbn. by rewrite Ha, Hm. }
    rewrite Hhot. cbn. split_and!; [done| |done|done|done| |].
    + split; [|apply Hs]. cbn. by rewrite Ha.
    + intros t k Ht _. by apply Hhot'.
    + intros l d Hd Hc t Ht. rewrite Hhot' by lia. by apply Hc.
Qed.

Lemma replay_spec {E} now tn th st after b :
  let key := buf_key tn th st in
  sound b -> 0 < ttl_ms ->
  exists b', @replay E now tn th st after b = (Ret (replayed now after tn th st b), b')
    /\ sound b' /\ sb_available b' = sb_available b /\ sb_seq b' = sb_seq b /\ rows_of b' = rows_of b
    /\ (forall t k, now <= t -> k <> key -> hot_at t k b' = hot_at t k b)
    /\ (forall l d, now < d <= now + ttl_ms -> (forall t, now <= t < d -> hot_at t key b = l) ->
          forall t, now <= t < d -> hot_at t key b' = l).
Proof.
  cbn zeta. set (key := buf_key tn th st). intros Hs Httl.
  destruct (@read_hot_spec E now key after b Hs Httl) as (b1 & Hr & Hs1 & Ha1 & Hq1 & Ho1 & Hk1 & Hh1).
  unfold replay, replayed. fold key. unfold mbind at 1, io_bind at 1. rewrite Hr.
  unfold mbind at 1, io_bind at 1, get_st at 1. unfold rows_of. rewrite <- Ho1.
  destruct (sb_overflow b1) as [d|] eqn:Ed.
  - destruct (db_session_healthy (fun rows => Some (map chunk_of (sort_by row_leb
        (List.filter (fun r => in_scope tn th st r && (after <? o_seq r)) rows)), rows)) d) as (fs & Hfs & Hdb).
    { destruct Hs1 as [_ Ho]. by rewrite Ed in Ho. }
    exists (put_overflow (Build_redis (store d) fs) b1). split_and!; [|split|done|done|done|done|done].
    + unfold mbind, io_bind, try_catch, on_overflow, read_chunks. rewrite Ed, Hdb. done.
    + apply Hs1.
    + done.
  - exists b1. rewrite Ed. by split_and!.
Qed.

(** ** Replays in event-id order *)

Definition ascending (l : list chunk) : Prop := StronglySorted (fun r r' => c_id r < c_id r') l.

Lemma ascending_app l l' :
  ascending (l ++ l') <-> ascending l /\ ascending l' /\ forall r r', r ∈ l -> r' ∈ l' -> c_id r < c_id r'.
Proof.
  unfold ascending. induction l as [|x l IH]; cbn [app].
  - split; [intros Hs; split_and!; [constructor|done|set_solver]|by intros (_ & ? & _)].
  - rewrite !StronglySorted_cons, IH, Forall_app, !Forall_forall. set_solver.
Qed.

Lemma not_in_ids (l : list chunk) q : (forall r, r ∈ l -> c_id r <> q) -> existsb (fun r => c_id r =? q) l = false.
Proof.
  intros Hl. apply not_true_is_false. intros (r & Hr & E)%existsb_exists.
  apply list_elem_of_In in Hr. apply (Hl r Hr). lia.
Qed.

Lemma put_all l d : ascending (d ++ l) -> foldl dict_put d l = d ++ l.
Proof.
  revert d. induction l as [|x l IH]; intros d Hs; [by rewrite app_nil_r|]. cbn [foldl].
  assert (dict_put d x = d ++ [x]) as ->.
  { unfold dict_put. rewrite not_in_ids; [done|]. apply ascending_app in Hs as (_ & _ & Hlt).
    intros r Hr. specialize (Hlt r x Hr ltac:(left)). lia. }
  rewrite IH; by rewrite <- app_assoc.
Qed.

Lemma default_all l d : ascending (d ++ l) -> foldl setdefault d l = d ++ l.
Proof.
  revert d. induction l as [|x l IH]; intros d Hs; [by rewrite app_nil_r|]. cbn [foldl].
  assert (setdefault d x = d ++ [x]) as ->.
  { unfold setdefault. rewrite not_in_ids; [done|]. apply ascending_app in Hs as (_ & _ & Hlt).
    intros r Hr. specialize (Hlt r x Hr ltac:(left)). lia. }
  rewrite IH; by rewrite <- app_assoc.
Qed.

Lemma sort_ascending l : ascending l -> sort_by chunk_leb l = l.
Proof.
  intros Hs. apply sort_by_id. eapply StronglySorted_weaken; [|exact Hs]. unfold chunk_leb. intros x y ?. cbn. lia.
Qed.

Lemma sort_rows l : ascending (map chunk_of l) -> sort_by row_leb l = l.
Proof.
  intros Hs. apply sort_by_id. induction l as [|r l IH]; [constructor|].
  apply StronglySorted_cons in Hs as [Hr Hs]. constructor; [by apply IH|].
  apply Forall_forall. intros r' Hr'. rewrite Forall_forall in Hr.
  specialize (Hr (chunk_of r') ltac:(apply list_elem_of_fmap; by exists r')). cbn in Hr.
  unfold row_leb. lia.
Qed.

Lemma ascending_filter (f : chunk -> bool) l : ascending l -> ascending (List.filter f l).
Proof.
  induction 1 as [|x l Hs IH Hx]; [constructor|]. cbn. destruct (f x); [|done]. constructor; [done|].
  rewrite Forall_forall in Hx |- *. intros y Hy. apply Hx.
  apply list_elem_of_In in Hy. apply filter_In in Hy as [Hy _]. by apply list_elem_of_In.
Qed.

Lemma map_chunk_filter after (f : overflow_row -> bool) rows :
  map chunk_of (List.filter (fun r => f r && (after <? o_seq r)) rows)
  = List.filter (fun r => after <? c_id r) (map chunk_of (List.filter f rows)).
Proof.
  induction rows as [|r rows IH]; [done|]. cbn. destruct (f r); cbn; [|exact IH].
  destruct (after <? o_seq r); cbn; by rewrite IH.
Qed.

(** A replay of a stream whose rows come before its hot chunks. *)
Lemma replayed_split now after tn th st b sp :
  map chunk_of (List.filter (in_scope tn th st) (rows_of b)) = sp ->
  ascending (sp ++ hot_at now (buf_key tn th st) b) ->
  replayed now after tn th st b
  = List.filter (fun r => after <? c_id r) sp
    ++ (if sb_available b then hot_at now (buf_key tn th st) b
        else List.filter (fun r => after <? c_id r) (hot_at now (buf_key tn th st) b)).
Proof.
  intros Hsp Hs. unfold replayed. set (hot := hot_at _ _ _) in *.
  assert (Hmap : map chunk_of (List.filter (fun r => in_scope tn th st r && (after <? o_seq r)) (rows_of b))
                 = List.filter (fun r => after <? c_id r) sp) by by rewrite map_chunk_filter, Hsp.
  apply ascending_app in Hs as (Hs1 & Hs2 & Hlt).
  rewrite sort_rows by (rewrite Hmap; by apply ascending_filter). rewrite Hmap.
  assert (Hin : forall r l, r ∈ List.filter (fun r => after <? c_id r) l -> r ∈ l).
  { intros r l Hr. apply list_elem_of_In in Hr. apply filter_In in Hr as [Hr _]. by apply list_elem_of_In. }
  assert (Ha : ascending (List.filter (fun r => after <? c_id r) sp
    ++ (if sb_available b then hot else List.filter (fun r => after <? c_id r) hot))).
  { apply ascending_app. split_and!; [by apply ascending_filter|destruct (sb_available b); [done|by apply ascending_filter]|].
    intros r r' Hr Hr'. apply Hlt; [by apply Hin|destruct (sb_available b); [done|by apply Hin]]. }
  rewrite put_all by (apply ascending_app in Ha as (Ha & _); done). cbn [app].
  rewrite default_all by done. by apply sort_ascending.
Qed.

(** ** A stream in the life of a buffer *)

Section stream.
Context (tn th st : string).

Abbreviation stream_key := (buf_key tn th st).
Abbreviation row_id q := (_row_id tn th st q).

(** The chunks of another stream never take the row id of one of ours. *)
Definition rows_apart (s0 : Z) (tn' th' st' : string) : Prop :=
  forall q q', s0 < q < 2 ^ 31 -> int4 q' = true -> _row_id tn' th' st' q' <> row_id q.

(** What one process does to its buffer while the stream is live, each chunk
    of it within the time to live of the one before ([base]); [l] is what was
    appended to the stream. *)
Inductive stream_run (b0 : StreamBuffer) (t0 : Z) : StreamBuffer -> Z -> Z -> list chunk -> Prop :=
| sr_init : stream_run b0 t0 b0 t0 t0 []
| sr_append b base now l t ty p q b' :
    stream_run b0 t0 b base now l -> now <= t < base + ttl_ms ->
    @append redis_exc t tn th st ty p b = (Ret q, b') ->
    stream_run b0 t0 b' t t (l ++ [{| c_id := q; c_type := ty; c_data := p |}])
| sr_other b base now l t tn' th' st' ty p q b' :
    stream_run b0 t0 b base now l -> now <= t < base + ttl_ms ->
    buf_key tn' th' st' <> stream_key -> rows_apart (sb_seq b0) tn' th' st' ->
    @append redis_exc t tn' th' st' ty p b = (Ret q, b') ->
    stream_run b0 t0 b' base t l
| sr_replay b base now l t tn' th' st' after cs b' :
    stream_run b0 t0 b base now l -> now <= t < base + ttl_ms ->
    @replay redis_exc t tn' th' st' after b = (Ret cs, b') ->
    stream_run b0 t0 b' base t l.

Definition row_ids_distinct (s0 : Z) : Prop :=
  forall q q', s0 < q < 2 ^ 31 -> s0 < q' < 2 ^ 31 -> row_id q = row_id q' -> q = q'.

(** The rows with one of our ids are ours, and ours have such an id. *)
Definition rows_ok (s0 : Z) (rows : list overflow_row) : Prop :=
  forall r, r ∈ rows ->
    (in_scope tn th st r = true -> exists q, s0 < q < 2 ^ 31 /\ o_id r = row_id q)
    /\ (forall q, s0 < q < 2 ^ 31 -> o_id r = row_id q -> in_scope tn th st r = true /\ o_seq r = q).

Lemma in_scope_own c : in_scope tn th st (overflow_row_of tn th st c) = true.
Proof. unfold in_scope. cbn. by rewrite !bool_decide_true. Qed.

Lemma in_scope_key tn' th' st' c :
  buf_key tn' th' st' <> stream_key -> in_scope tn th st (overflow_row_of tn' th' st' c) = false.
Proof.
  intros Hne. apply not_true_is_false. unfold in_scope. cbn. intros E.
  apply andb_true_iff in E as [[E1 E2]%andb_true_iff E3].
  apply bool_decide_eq_true in E1, E2, E3. by subst.
Qed.

Lemma merge_own s0 rows c sp :
  row_ids_distinct s0 -> rows_ok s0 rows -> s0 < c_id c < 2 ^ 31 ->
  map chunk_of (List.filter (in_scope tn th st) rows) = sp -> ascending (sp ++ [c]) ->
  let rows' := merge (overflow_row_of tn th st c) rows in
  rows_ok s0 rows' /\ map chunk_of (List.filter (in_scope tn th st) rows') = sp ++ [c].
Proof.
  intros Hinj Hok Hc Hsp Ha. cbn zeta. unfold merge.
  assert (Hex : existsb (fun r' => bool_decide (o_id r' = o_id (overflow_row_of tn th st c))) rows = false).
  { apply not_true_is_false. intros (r & Hr & E)%existsb_exists. apply bool_decide_eq_true in E.
    destruct (Hok r) as [_ Hr']; [by apply list_elem_of_In|].
    destruct (Hr' (c_id c) Hc E) as [Hin Hq]. apply ascending_app in Ha as (_ & _ & Hlt).
    enough (chunk_of r ∈ sp) as Hsp'.
    { specialize (Hlt (chunk_of r) c Hsp' ltac:(left)). cbn in Hlt. lia. }
    rewrite <- Hsp. apply list_elem_of_fmap. exists r. split; [done|].
    apply list_elem_of_In, filter_In. by split. }
  rewrite Hex. split.
  - intros r [Hr|Hr%list_elem_of_singleton]%elem_of_app; [by apply Hok|]. subst r. rewrite in_scope_own. split.
    + intros _. by exists (c_id c).
    + intros q Hq E. split; [done|]. cbn in E |- *. by apply Hinj.
  - rewrite List.filter_app. cbn [List.filter]. rewrite in_scope_own, map_app, Hsp. cbn. by destruct c.
Qed.

Lemma merge_own_many s0 l rows sp :
  row_ids_distinct s0 -> rows_ok s0 rows -> Forall (fun c => s0 < c_id c < 2 ^ 31) l ->
  map chunk_of (List.filter (in_scope tn th st) rows) = sp -> ascending (sp ++ l) ->
  let rows' := foldl (fun rows c => merge (overflow_row_of tn th st c) rows) rows l in
  rows_ok s0 rows' /\ map chunk_of (List.filter (in_scope tn th st) rows') = sp ++ l.
Proof.
  intros Hinj. revert rows sp. induction l as [|c l IH]; intros rows sp Hok Hl Hsp Ha; cbn [foldl].
  { by rewrite app_nil_r. }
  apply Forall_cons in Hl as [Hc Hl]. rewrite (app_assoc sp [c] l : sp ++ c :: l = _) in Ha |- *.
  destruct (merge_own s0 rows c sp Hinj Hok Hc Hsp) as [Hok' Hsp'];
    [by apply ascending_app in Ha as (? & _)|]. by apply IH.
Qed.

Lemma merge_foreign s0 rows c tn' th' st' :
  rows_apart s0 tn' th' st' -> buf_key tn' th' st' <> stream_key -> int4 (c_id c) = true -> rows_ok s0 rows ->
  let rows' := merge (overflow_row_of tn' th' st' c) rows in
  rows_ok s0 rows'
  /\ List.filter (in_scope tn th st) rows' = List.filter (in_scope tn th st) rows.
Proof.
  intros Hap Hk Hc Hok. cbn zeta. pose proof (in_scope_key tn' th' st' c Hk) as Hout. unfold merge.
  set (row := overflow_row_of tn' th' st' c) in *.
  assert (Hnew : (in_scope tn th st row = true -> exists q, s0 < q < 2 ^ 31 /\ o_id row = row_id q)
     /\ (forall q, s0 < q < 2 ^ 31 -> o_id row = row_id q -> in_scope tn th st row = true /\ o_seq row = q)).
  { rewrite Hout. split; [done|]. intros q Hq E. by destruct (Hap q (c_id c) Hq Hc). }
  destruct (existsb _ rows) eqn:Hex.
  - split.
    + intros r Hr. apply list_elem_of_fmap in Hr as (r0 & -> & Hr0). case_decide; [done|by apply Hok].
    + assert (Hsame : forall r, r ∈ rows -> o_id r = o_id row -> in_scope tn th st r = false).
      { intros r Hr E. apply not_true_is_false. intros Hin.
        destruct (proj1 (Hok r Hr) Hin) as (q & Hq & Eq). apply (Hap q (c_id c) Hq Hc).
        change (o_id row = row_id q). by rewrite <- E. }
      clear Hex Hok. induction rows as [|r rows IH]; [done|]. cbn [map List.filter].
      rewrite IH by set_solver. case_decide as E; [|done]. rewrite Hout. by rewrite (Hsame r ltac:(left) E).
  - split.
    + intros r [Hr|Hr%list_elem_of_singleton]%elem_of_app; [by apply Hok|by subst r].
    + rewrite List.filter_app. cbn [List.filter]. by rewrite Hout, app_nil_r.
Qed.

Lemma spill_foreign s0 rows l tn' th' st' :
  rows_apart s0 tn' th' st' -> buf_key tn' th' st' <> stream_key -> rows_ok s0 rows ->
  rows_ok s0 (spill_rows tn' th' st' rows l)
  /\ List.filter (in_scope tn th st) (spill_rows tn' th' st' rows l) = List.filter (in_scope tn th st) rows.
Proof.
  intros Hap Hk Hok. unfold spill_rows. destruct (forallb _ l) eqn:El; [|done].
  revert rows Hok. induction l as [|c l IH]; intros rows Hok; [done|]. cbn [foldl forallb] in *.
  apply andb_true_iff in El as [Ec El].
  destruct (merge_foreign s0 rows c tn' th' st' Hap Hk Ec Hok) as [Hok' Hf].
  destruct (IH El _ Hok') as [Hok'' Hf']. split; [done|]. by rewrite Hf'.
Qed.

(** ** Under any faults

    What a buffer holds of the stream stays among the chunks of [l]: on the
    list in Redis, in the memory of the process, in the rows of the table. *)

Definition within (now : Z) (l : list chunk) (n : Z) (b : StreamBuffer) : Prop :=
  sb_seq b = n
  /\ (forall c, c ∈ default [] (redis_get now stream_key (store (sb_conn b))) -> c ∈ l)
  /\ (forall c, c ∈ mem_at now stream_key (sb_memory b) -> c ∈ l)
  /\ (forall r, r ∈ rows_of b -> in_scope tn th st r = true -> chunk_of r ∈ l).

Lemma redis_get_later now t k (s : St) c : now <= t -> c ∈ default [] (redis_get t k s) -> c ∈ default [] (redis_get now k s).
Proof.
  intros Ht. unfold redis_get. rewrite (look_later now t) by done.
  destruct (look now k s) as [[v [d|]]|]; cbn; [|done..]. destruct (t <? d); [done|]. by intros ?%not_elem_of_nil.
Qed.

Lemma within_later now t l n b : now <= t -> within now l n b -> within t l n b.
Proof.
  intros Ht (Hn & Hr & Hm & Ho). split_and!; [done| | |done].
  - intros c Hc. by eapply Hr, redis_get_later.
  - intros c Hc. apply Hm. revert Hc. unfold mem_at. destruct (sb_memory b !! stream_key) as [e|]; [|done].
    destruct (Z.ltb_spec (me_ttl e) t), (Z.ltb_spec (me_ttl e) now); try done; [by intros ?%not_elem_of_nil|lia].
Qed.

Lemma within_more now l l' n b : (forall c, c ∈ l -> c ∈ l') -> within now l n b -> within now l' n b.
Proof. intros Hl (Hn & Hr & Hm & Ho). split_and!; auto. Qed.

Section faults.
Context (now : Z) (l : list chunk) (n : Z).
Abbreviation inside := (within now l n).
Abbreviation held cs := (forall c, c ∈ cs -> c ∈ l).
Abbreviation held_in s := (held (default [] (redis_get now stream_key s))).

Lemma sb_run_within {A} (f : St -> A * St) (Q : A -> Prop) :
  (forall s, held_in s -> held_in (f s).2 /\ Q (f s).1) ->
  triple inside (sb_run f) (fun a b => Q a /\ inside b) (fun _ => inside).
Proof.
  intros Hf b (Hn & Hr & Hm & Ho). unfold sb_run, lift. destruct (Hf _ Hr) as [Hr' HQ].
  destruct (redis_call_cases f (sb_conn b)) as [[fs ->]|[[fs ->]|[fs ->]]]; by split_and!.
Qed.

Lemma mem_get_within {E} k X : triple inside (@_mem_get E now k)
  (fun o b => (k = stream_key -> held (match o with Some e => me_entries e | None => [] end)) /\ inside b) X.
Proof.
  intros b (Hn & Hr & Hm & Ho). destruct (@mem_get_spec E now k b) as (m & -> & Hat & _). split.
  - intros -> c Hc. apply Hm. unfold mem_at. destruct (sb_memory b !! stream_key) as [e|]; [|done].
    by destruct (me_ttl e <? now).
  - split_and!; [done|done| |done]. cbn. by rewrite Hat.
Qed.

Lemma set_entry_within {E} k e X : (k = stream_key -> held (me_entries e)) ->
  triple inside (@set_entry E k e) (fun _ => inside) X.
Proof.
  intros He b (Hn & Hr & Hm & Ho). split_and!; [done|done| |done]. cbn. intros c. unfold mem_at.
  destruct (decide (k = stream_key)) as [->|Hk].
  - rewrite lookup_insert_eq. destruct (me_ttl e <? now); [by intros ?%not_elem_of_nil|by apply He].
  - rewrite lookup_insert_ne by done. apply Hm.
Qed.

Lemma mem_append_within {E} k r X : (k = stream_key -> r ∈ l) ->
  triple inside (@_mem_append E now k r) (fun q b => q = c_id r /\ inside b) X.
Proof.
  intros Hr. unfold _mem_append. eapply triple_bind; [apply mem_get_within|]. intros o. apply triple_and. intros Ho. eapply triple_bind; [apply set_entry_within|]; [|intros ?; by apply triple_ret].
  cbn. intros Hk c [Hc|Hc]%elem_of_app; [|apply list_elem_of_singleton in Hc as ->; auto].
  destruct o; [by apply Ho|by apply not_elem_of_nil in Hc].
Qed.

Lemma merged_within tn' th' st' ws : forall rows, (buf_key tn' th' st' = stream_key -> held ws) ->
  (forall r, r ∈ rows -> in_scope tn th st r = true -> chunk_of r ∈ l) ->
  forall r, r ∈ foldl (fun rows c => merge (overflow_row_of tn' th' st' c) rows) rows ws ->
    in_scope tn th st r = true -> chunk_of r ∈ l.
Proof.
  induction ws as [|w ws IH]; intros rows Hsp Ho; [done|]. cbn [foldl]. apply IH; [set_solver|].
  intros r Hr Hin.
  assert (Hnew : in_scope tn th st (overflow_row_of tn' th' st' w) = true -> w ∈ l).
  { intros Hw. destruct (decide (buf_key tn' th' st' = stream_key)) as [E|Hne]; [apply (Hsp E); left|].
    by rewrite in_scope_key in Hw. }
  assert (Hw : r = overflow_row_of tn' th' st' w \/ r ∈ rows).
  { revert Hr. unfold merge. destruct (existsb _ rows); [|intros [Hr|Hr%list_elem_of_singleton]%elem_of_app; auto].
    intros Hr. apply list_elem_of_fmap in Hr as (r0 & -> & Hr0). case_decide; auto. }
  destruct Hw as [->|Hw]; [|by apply Ho]. replace (chunk_of _) with w by by destruct w. by apply Hnew.
Qed.

Lemma spill_within {E} tn' th' st' spills X : (buf_key tn' th' st' = stream_key -> held spills) ->
  triple inside (@_spill_overflow E tn' th' st' spills) (fun _ => inside) X.
Proof.
  intros Hsp b Hb. unfold _spill_overflow. destruct spills as [|c cs]; [done|].
  unfold mbind, io_bind, get_st. destruct (sb_overflow b) as [d|] eqn:Ed; [|done].
  unfold try_catch, on_overflow. rewrite Ed. unfold write_chunks.
  pose proof Hb as (Hn & Hr & Hm & Ho). unfold rows_of in Ho. rewrite Ed in Ho.
  assert (Hput : forall rows fs, (forall r, r ∈ rows -> in_scope tn th st r = true -> chunk_of r ∈ l) ->
    inside (put_overflow (Build_redis rows fs) b)) by (intros rows fs Hrows; by split_and!).
  destruct (db_session_cases (fun rows => if forallb (fun c => int4 (c_id c)) (c :: cs)
    then Some (Z.of_nat (length (c :: cs)), foldl (fun rows c => merge (overflow_row_of tn' th' st' c) rows) rows (c :: cs))
    else None) d) as [(a & rows & fs & Ef & ->)|[(a & rows & fs & Ef & ->)|[fs ->]]]; [..|by apply Hput].
  all: destruct (forallb _ _); [|done]; injection Ef as _ <-; apply Hput; exact (merged_within tn' th' st' _ _ Hsp Ho).
Qed.

Lemma rpush_held k r s : (k = stream_key -> r ∈ l) -> held_in s -> held_in (redis_rpush now k r s).
Proof.
  intros Hr Hs c. unfold redis_get. rewrite look_rpush by lia. case_decide as Hk; [|apply Hs].
  rewrite live_expiry. cbn. rewrite <- Hk in *. intros [Hc|Hc]%elem_of_app; [by apply Hs|].
  apply list_elem_of_singleton in Hc as ->. auto.
Qed.

Lemma pexpire_held k d s : held_in s -> held_in (redis_pexpire now k d s).
Proof.
  intros Hs c. unfold redis_get. rewrite look_pexpire by lia. case_decide as Hk; [|apply Hs].
  specialize (Hs c). unfold redis_get in Hs. rewrite Hk in Hs. destruct (look now k s) as [[v e]|]; cbn; [|by intros ?%not_elem_of_nil].
  destruct (now <? now + d); [exact Hs|by intros ?%not_elem_of_nil].
Qed.

Lemma ltrim_held k m s : held_in s -> held_in (redis_ltrim now k m s).
Proof.
  intros Hs c. unfold redis_get. rewrite look_ltrim by lia. case_decide as Hk; [|apply Hs].
  specialize (Hs c). unfold redis_get in Hs. rewrite Hk in Hs.
  destruct (look now k s) as [[v e]|] eqn:El; cbn [mbind option_bind]; [|by intros ?%not_elem_of_nil].
  cbn [fst snd]. intros Hc. apply Hs. cbn.
  assert (Hc' : c ∈ drop m v).
  { revert Hc. destruct (drop m v) as [|x xs]; [done|]. destruct e as [d|]; cbn; [destruct (now <? d); cbn|]; try done.
    by intros ?%not_elem_of_nil. }
  apply list_elem_of_lookup in Hc' as [i Hi]. rewrite lookup_drop in Hi. by eapply list_elem_of_lookup_2.
Qed.

Lemma trim_within tn' th' st' :
  triple inside (trim_redis now tn' th' st') (fun _ => inside) (fun _ => inside).
Proof.
  unfold trim_redis. destruct (0 <? overflow_max_chunks); [|by apply triple_ret]. eapply triple_bind.
  { apply (sb_run_within _ (fun _ => True)). by intros s Hs. }
  intros size. destruct (negb _ && _); [|intros b [_ Hb]; exact Hb]. eapply triple_bind.
  { eapply triple_conseq; [apply (sb_run_within _ (fun cs => buf_key tn' th' st' = stream_key -> held cs))| | |].
    - intros s Hs. split; [done|]. cbn. intros Hk c Hc. apply Hs. rewrite <- Hk.
      by apply elem_of_take in Hc as (i & Hi & _); eapply list_elem_of_lookup_2.
    - by intros s [_ Hs].
    - intros a s Hs. exact Hs.
    - done. }
  intros spills. apply triple_and. intros Hsp. eapply triple_bind.
  { apply (sb_run_within _ (fun _ => True)). intros s Hs. split; [by apply ltrim_held|done]. }
  intros []. eapply triple_conseq; [by apply (spill_within (E := redis_exc) tn' th' st' spills (fun _ => inside))| | |]; [|done..].
  by intros s [_ Hs].
Qed.
End faults.

(** Whatever fails, an append numbers its chunk with the next id and returns
    it, and what is held of the stream is the chunks it had and, on the
    stream, the new one. *)
Lemma append_within {E} now tn' th' st' ty p l n :
  (buf_key tn' th' st' = stream_key -> {| c_id := n + 1; c_type := ty; c_data := p |} ∈ l) ->
  triple (within now l n) (@append E now tn' th' st' ty p)
    (fun q b => q = n + 1 /\ within now l (n + 1) b) (fun _ _ => False).
Proof.
  intros Hr b Hb. unfold append. unfold mbind at 1, io_bind at 1, modify at 1. unfold mbind at 1, io_bind at 1, get_st at 1.
  assert (Hb1 : within now l (n + 1) (bump b)) by (destruct Hb as (<- & ?); by split).
  assert (Hq : sb_seq (bump b) = n + 1) by apply Hb1. rewrite Hq.
  set (r := {| c_id := n + 1; c_type := ty; c_data := p |}) in *. destruct (negb (sb_available (bump b))); revert Hb1; generalize (bump b); clear b Hb Hq;
    match goal with |- forall s, _ s -> match ?c s with _ => _ end => change (triple (within now l (n + 1)) c
      (fun q b => q = n + 1 /\ within now l (n + 1) b) (fun _ _ => False)) end.
  - eapply triple_bind; [by apply (mem_append_within now l (n + 1) _ r)|]. intros q. apply triple_and. intros _.
    eapply triple_bind; [apply mem_get_within|]. intros entry. apply triple_and. intros He. eapply triple_bind.
    + instantiate (1 := fun spills b => (buf_key tn' th' st' = stream_key -> forall c, c ∈ spills -> c ∈ l) /\ within now l (n + 1) b).
      destruct entry as [e|]; [|apply triple_ret; intros s Hs; split; [by intros _ c ?%not_elem_of_nil|done]].
      destruct (_ && _); [|apply triple_ret; intros s Hs; split; [by intros _ c ?%not_elem_of_nil|done]].
      eapply triple_bind; [apply set_entry_within|].
      * cbn. intros Hk c Hc. apply (He Hk). apply list_elem_of_lookup in Hc as [i Hi]. rewrite lookup_drop in Hi.
        by eapply list_elem_of_lookup_2.
      * intros ?. apply triple_ret. intros s Hs. split; [|done]. intros Hk c Hc. apply (He Hk).
        apply elem_of_take in Hc as (i & Hi & _). by eapply list_elem_of_lookup_2.
    + intros spills. apply triple_and. intros Hsp. eapply triple_bind; [by apply (spill_within now l (n + 1))|]. intros ?. by apply triple_ret.
  - eapply (triple_try _ _ _ _ (fun _ => within now l (n + 1))).
    + eapply triple_bind.
      { apply (sb_run_within now l (n + 1) _ (fun _ => True)). intros s Hs. split; [by apply rpush_held|done]. }
      intros ?. apply triple_and. intros _. eapply triple_bind.
      { apply (sb_run_within now l (n + 1) _ (fun _ => True)). intros s Hs. split; [by apply pexpire_held|done]. }
      intros ?. apply triple_and. intros _. eapply triple_bind; [apply trim_within|]. intros ?. by apply triple_ret.
    + intros e. eapply triple_bind; [by apply (triple_modify _ _ (fun _ => within now l (n + 1)))|]. intros ?.
      eapply triple_bind; [by apply (mem_append_within now l (n + 1) _ r)|]. intros q. apply triple_ret. by intros s [_ Hs].
Qed.

(** *** Replays under any faults *)

Lemma read_hot_within {E} now k after l n X :
  triple (within now l n) (@read_hot E now k after)
    (fun hot b => (k = stream_key -> forall c, c ∈ hot -> c ∈ l) /\ within now l n b) X.
Proof.
  assert (Hmem : forall X, triple (within now l n) (@_mem_read E now k after)
    (fun hot b => (k = stream_key -> forall c, c ∈ hot -> c ∈ l) /\ within now l n b) X).
  { intros X'. unfold _mem_read. eapply triple_bind; [apply mem_get_within|]. intros [e|] b [He Hb]; cbn; (split; [|done]);
      intros Hk c Hc; [|by apply not_elem_of_nil in Hc]. apply (He Hk). apply list_elem_of_In in Hc.
    apply filter_In in Hc as [Hc _]. by apply list_elem_of_In. }
  unfold read_hot. intros b0. unfold mbind at 1, io_bind at 1, get_st at 1. destruct (negb (sb_available b0)); [apply Hmem|].
  revert b0. eapply (triple_try _ _ _ _ (fun _ => within now l n)).
  - eapply triple_bind.
    { apply (sb_run_within now l n _ (fun cs => k = stream_key -> forall c, c ∈ cs -> c ∈ l)). intros s Hs. split; [done|]. by intros ->. }
    intros raw. apply triple_and. intros Hraw. eapply triple_bind.
    { instantiate (1 := fun _ => within now l n). destruct raw; [by apply triple_ret|].
      eapply triple_conseq; [apply (sb_run_within now l n _ (fun _ => True))| | |]; [|done|by intros a s [_ Hs]|done].
      intros s Hs. split; [by apply pexpire_held|done]. }
    intros ?. by apply triple_ret.
  - intros e. eapply triple_bind; [by apply (triple_modify _ _ (fun _ => within now l n))|]. intros ?. apply Hmem.
Qed.

(** The dictionary of a replay: one chunk for an id, each from the tiers. *)
Lemma dict_put_ids d r : NoDup (map c_id d) -> NoDup (map c_id (dict_put d r)).
Proof.
  intros Hd. unfold dict_put. destruct (existsb _ d) eqn:Ex.
  - assert (map c_id (map (fun r' => if c_id r' =? c_id r then r else r') d) = map c_id d) as ->; [|done].
    rewrite map_map. apply map_ext. intros r'. destruct (Z.eqb_spec (c_id r') (c_id r)); congruence.
  - rewrite map_app. cbn. apply NoDup_app. split_and!; [done| |apply NoDup_singleton].
    intros q Hq [=->]%list_elem_of_singleton. apply list_elem_of_fmap in Hq as (r' & E & Hr').
    apply not_true_iff_false in Ex. apply Ex, existsb_exists. exists r'. split; [by apply list_elem_of_In|lia].
Qed.

Lemma setdefault_ids d r : NoDup (map c_id d) -> NoDup (map c_id (setdefault d r)).
Proof.
  intros Hd. unfold setdefault. destruct (existsb _ d) eqn:Ex; [done|].
  pose proof (dict_put_ids d r Hd) as Hp. unfold dict_put in Hp. by rewrite Ex in Hp.
Qed.

Lemma tiers_merged ov hot (l : list chunk) : (forall c, c ∈ ov -> c ∈ l) -> (forall c, c ∈ hot -> c ∈ l) ->
  let cs := sort_by chunk_leb (foldl setdefault (foldl dict_put [] ov) hot) in
  ascending cs /\ forall c, c ∈ cs -> c ∈ l.
Proof.
  intros Hov Hhot. cbn zeta.
  assert (H1 : NoDup (map c_id (foldl dict_put [] ov)) /\ forall c, c ∈ foldl dict_put [] ov -> c ∈ l).
  { assert (Hgen : forall d, NoDup (map c_id d) -> (forall c, c ∈ d -> c ∈ l) ->
      NoDup (map c_id (foldl dict_put d ov)) /\ forall c, c ∈ foldl dict_put d ov -> c ∈ l).
    { clear Hhot. induction ov as [|r ov IH]; intros d Hd Hin; [done|]. cbn [foldl]. apply IH; [set_solver|by apply dict_put_ids|].
      intros c. unfold dict_put. destruct (existsb _ d); [|set_solver].
      intros (r' & -> & Hr')%list_elem_of_fmap. destruct (_ =? _); set_solver. }
    apply Hgen; [constructor|by intros c ?%not_elem_of_nil]. }
  destruct H1 as [Hd Hin]. revert Hd Hin. generalize (foldl dict_put [] ov). clear Hov ov.
  induction hot as [|r hot IH]; intros d Hd Hin; cbn [foldl].
  2:{ apply IH; [set_solver|by apply setdefault_ids|]. intros c. unfold setdefault. destruct (existsb _ d); set_solver. }
  split; [|intros c Hc; apply Hin; by apply elem_of_sort_by in Hc].
  assert (Hs : StronglySorted (fun r r' => chunk_leb r r' = true) (sort_by chunk_leb d)) by (apply sort_by_sorted; unfold chunk_leb; intros; lia).
  assert (Hnd : NoDup (map c_id (sort_by chunk_leb d))) by by rewrite (sort_by_perm chunk_leb d).
  revert Hs Hnd. generalize (sort_by chunk_leb d). clear. unfold ascending. induction l as [|x l IH]; intros Hs Hnd; [constructor|].
  apply StronglySorted_cons in Hs as [Hx Hs]. cbn in Hnd. apply NoDup_cons in Hnd as [Hni Hnd]. apply StronglySorted_cons.
  split; [|by apply IH]. rewrite Forall_forall in Hx |- *. intros y Hy. specialize (Hx y Hy). unfold chunk_leb in Hx.
  assert (c_id x <> c_id y); [|lia]. intros E. apply Hni. rewrite E. apply list_elem_of_fmap. by exists y.
Qed.

Lemma ascending_sublist (l' l : list chunk) : ascending l' -> ascending l -> (forall c, c ∈ l' -> c ∈ l) -> sublist l' l.
Proof.
  revert l'. induction l as [|x l IH]; intros l' Hl' Hl Hin.
  { destruct l' as [|y l']; [constructor|]. specialize (Hin y ltac:(left)). by apply not_elem_of_nil in Hin. }
  destruct l' as [|y l']; [apply sublist_nil_l|]. unfold ascending in *.
  apply StronglySorted_cons in Hl as [Hx Hl]. pose proof Hl' as Hly. apply StronglySorted_cons in Hly as [Hy Hly].
  rewrite Forall_forall in Hx, Hy. pose proof (Hin y ltac:(left)) as [->|Hyl]%elem_of_cons.
  - apply sublist_skip, IH; [done|done|]. intros c Hc. specialize (Hy c Hc). cbn in Hy.
    pose proof (Hin c ltac:(by right)) as [->|]%elem_of_cons; [lia|done].
  - apply sublist_cons, IH; [done|done|]. intros c Hc.
    pose proof (Hin c Hc) as [->|]%elem_of_cons; [|done]. specialize (Hx y ltac:(done)). cbn in Hx.
    apply elem_of_cons in Hc as [->|Hc]; [lia|]. specialize (Hy x Hc). cbn in Hy. lia.
Qed.

Lemma replay_within {E} now tn' th' st' after l n :
  triple (within now l n) (@replay E now tn' th' st' after)
    (fun cs b => ((tn', th', st') = (tn, th, st) -> ascending cs /\ forall c, c ∈ cs -> c ∈ l) /\ within now l n b)
    (fun _ _ => False).
Proof.
  unfold replay. eapply triple_bind; [apply read_hot_within|]. intros hot b [Hhot Hb].
  unfold mbind at 1, io_bind at 1, get_st at 1.
  assert (Hend : forall ov b, ((tn', th', st') = (tn, th, st) -> forall c, c ∈ ov -> c ∈ l) -> within now l n b ->
    ((tn', th', st') = (tn, th, st) -> ascending (sort_by chunk_leb (foldl setdefault (foldl dict_put [] ov) hot))
      /\ forall c, c ∈ sort_by chunk_leb (foldl setdefault (foldl dict_put [] ov) hot) -> c ∈ l) /\ within now l n b).
  { intros ov b1 Hov Hb1. split; [|exact Hb1]. intros Heq. apply tiers_merged; [by apply Hov|]. injection Heq as -> -> ->. by apply Hhot. }
  destruct (sb_overflow b) as [d|] eqn:Ed.
  2:{ unfold mbind, io_bind, mret, io_ret. apply Hend; [by intros _ c ?%not_elem_of_nil|exact Hb]. }
  pose proof Hb as (Hn & Hr & Hm & Ho). unfold rows_of in Ho. rewrite Ed in Ho.
  unfold mbind, io_bind, mret, io_ret, try_catch, on_overflow. rewrite Ed. unfold read_chunks.
  match goal with |- context [db_session ?f d] => destruct (db_session_cases f d)
    as [(a & rows & fs & [= <- <-] & ->)|[(a & rows & fs & [= <- <-] & ->)|[fs ->]]] end.
  2,3: apply Hend; [by intros _ c ?%not_elem_of_nil|by split_and!].
  apply Hend; [|by split_and!]. intros [= -> -> ->] c Hc. apply list_elem_of_fmap in Hc as (r & -> & Hr1).
  apply elem_of_sort_by, list_elem_of_In, filter_In in Hr1 as [Hr1 [Hin _]%andb_true_iff].
  apply Ho; [by apply list_elem_of_In|exact Hin].
Qed.

(** Nothing of the stream is held. *)
Definition unknown (t0 : Z) (b0 : StreamBuffer) : Prop :=
  0 <= sb_seq b0
  /\ (forall t, t0 <= t -> default [] (redis_get t stream_key (store (sb_conn b0))) = [] /\ mem_at t stream_key (sb_memory b0) = [])
  /\ forall r, r ∈ rows_of b0 ->
       in_scope tn th st r = false /\ forall q, sb_seq b0 < q < 2 ^ 31 -> o_id r <> row_id q.

(** A buffer that does not know the stream, and whose commands do not fail. *)
Definition fresh (t0 : Z) (b0 : StreamBuffer) : Prop := sound b0 /\ unknown t0 b0.

Lemma stream_run_within b0 t0 b base now l : unknown t0 b0 -> stream_run b0 t0 b base now l ->
  within now l (sb_seq b) b /\ ascending l /\ Forall (fun c => c_id c <= sb_seq b) l.
Proof.
  intros (_ & Hhot & Hrows) Hrun. induction Hrun as [|b base now l t ty p q b' Hrun (Hw & Ha & Hl) Ht Happ
    |b base now l t tn' th' st' ty p q b' Hrun (Hw & Ha & Hl) Ht Hk Hap Happ
    |b base now l t tn' th' st' after cs b' Hrun (Hw & Ha & Hl) Ht Hrep].
  - split; [|by split; constructor]. split; [done|]. split_and!.
    + intros c. destruct (Hhot t0 ltac:(lia)) as [-> _]. by intros ?%not_elem_of_nil.
    + intros c. destruct (Hhot t0 ltac:(lia)) as [_ ->]. by intros ?%not_elem_of_nil.
    + intros r Hr Hin. destruct (Hrows r Hr) as [Ho _]. congruence.
  - set (r := {| c_id := sb_seq b + 1; c_type := ty; c_data := p |}).
    assert (Hw' : within t (l ++ [r]) (sb_seq b) b).
    { eapply within_more; [|eapply within_later; [|exact Hw]; lia]. intros c Hc. apply elem_of_app. by left. }
    pose proof (append_within (E := redis_exc) t tn th st ty p (l ++ [r]) (sb_seq b)
      (fun _ => proj2 (elem_of_app _ _ _) (or_intror (proj2 (list_elem_of_singleton _ _) eq_refl))) b Hw') as Hpost.
    rewrite Happ in Hpost. destruct Hpost as [-> Hb']. pose proof Hb' as (Hq & _). rewrite Hq. fold r.
    split_and!; [done| |].
    + apply StronglySorted_snoc; [done|]. eapply Forall_impl; [exact Hl|]. cbn. lia.
    + apply Forall_app. split; [eapply Forall_impl; [exact Hl|]; cbn; lia|]. apply Forall_singleton. cbn. lia.
  - assert (Hw' : within t l (sb_seq b) b) by (eapply within_later; [|exact Hw]; lia).
    pose proof (append_within (E := redis_exc) t tn' th' st' ty p l (sb_seq b) ltac:(done) b Hw') as Hpost.
    rewrite Happ in Hpost. destruct Hpost as [_ Hb']. pose proof Hb' as (Hq & _). rewrite Hq.
    split_and!; [done|done|]. eapply Forall_impl; [exact Hl|]. cbn. lia.
  - assert (Hw' : within t l (sb_seq b) b) by (eapply within_later; [|exact Hw]; lia).
    pose proof (replay_within (E := redis_exc) t tn' th' st' after l (sb_seq b) b Hw') as Hpost.
    rewrite Hrep in Hpost. destruct Hpost as [_ Hb']. pose proof Hb' as (Hq & _). by rewrite Hq.
Qed.

(** ** The invariant of a stream *)

Definition stream_inv (s0 : Z) (b : StreamBuffer) (base now : Z) (l : list chunk) : Prop :=
  sound b /\ Forall (fun r => s0 < c_id r <= sb_seq b) l /\ s0 <= sb_seq b /\ ascending l
  /\ rows_ok s0 (rows_of b)
  /\ exists sp hot, l = sp ++ hot /\ map chunk_of (List.filter (in_scope tn th st) (rows_of b)) = sp
       /\ forall t, now <= t < base + ttl_ms -> hot_at t stream_key b = hot.

Context (t0 : Z) (b0 : StreamBuffer).
Context (Httl : 0 < ttl_ms) (Hfresh : fresh t0 b0) (Hids : row_ids_distinct (sb_seq b0)).

Lemma stream_inv_init : stream_inv (sb_seq b0) b0 t0 t0 [].
Proof.
  destruct Hfresh as (Hs & Hq & Hhot & Hrows). split_and!; [done|done|done|constructor| |].
  - intros r Hr. destruct (Hrows r Hr) as [Ho Hne]. rewrite Ho. split; [done|].
    intros q Hq' E. by destruct (Hne q Hq').
  - exists [], []. split_and!; [done| |].
    2:{ intros t Ht. destruct (Hhot t ltac:(lia)) as [H1 H2]. unfold hot_at. by destruct (sb_available b0). }
    rewrite filter_none; [done|]. intros r Hr. apply Hrows. by apply list_elem_of_In.
Qed.

Lemma stream_inv_append b base now l t ty p q b' :
  stream_inv (sb_seq b0) b base now l -> now <= t < base + ttl_ms -> sb_seq b + 1 < 2 ^ 31 ->
  @append redis_exc t tn th st ty p b = (Ret q, b') ->
  stream_inv (sb_seq b0) b' t t (l ++ [{| c_id := q; c_type := ty; c_data := p |}]).
Proof.
  intros (Hs & Hl & Hle & Ha & Hok & sp & hot & -> & Hsp & Hhot) Ht Hmax Happ.
  destruct (@append_spec redis_exc t tn th st ty p b Hs Httl) as (b2 & Hr & Hs' & Hav & Hq & Hrows & Hhot' & _).
  rewrite Happ in Hr. injection Hr as -> ->. rewrite (Hhot t Ht) in Hrows, Hhot'.
  set (r := Build_chunk _ _ _) in *. set (n := excess_of (hot ++ [r])) in *.
  assert (Hlr : Forall (fun r => sb_seq b0 < c_id r <= sb_seq b2) ((sp ++ hot) ++ [r])).
  { apply Forall_app. rewrite Hq. split; [eapply Forall_impl; [exact Hl|cbn; lia]|].
    constructor; [cbn; lia|constructor]. }
  assert (Har : ascending ((sp ++ hot) ++ [r])).
  { apply StronglySorted_snoc; [done|]. eapply Forall_impl; [exact Hl|]. cbn. lia. }
  assert (Hsplit : (sp ++ hot) ++ [r] = (sp ++ take n (hot ++ [r])) ++ drop n (hot ++ [r])).
  { rewrite <- !app_assoc. by rewrite take_drop. }
  assert (Hspill : Forall (fun c => sb_seq b0 < c_id c < 2 ^ 31) (take n (hot ++ [r]))).
  { rewrite Hsplit in Hlr. apply Forall_app in Hlr as [Hlr _]. apply Forall_app in Hlr as [_ Hlr].
    eapply Forall_impl; [exact Hlr|]. cbn. lia. }
  destruct (merge_own_many (sb_seq b0) (take n (hot ++ [r])) (rows_of b) sp Hids Hok Hspill Hsp) as [Hok' Hsp'].
  { rewrite Hsplit in Har. by apply ascending_app in Har as (? & _). }
  assert (Hint : forallb (fun c => int4 (c_id c)) (take n (hot ++ [r])) = true).
  { apply forallb_forall. intros c Hc%list_elem_of_In. rewrite Forall_forall in Hspill.
    destruct Hfresh as (_ & Hpos & _). specialize (Hspill c Hc). cbn in Hspill. unfold int4. lia. }
  unfold spill_rows in Hrows. rewrite Hint in Hrows.
  split_and!; [done|done|lia|done|by rewrite Hrows|].
  exists (sp ++ take n (hot ++ [r])), (drop n (hot ++ [r])). rewrite Hrows. by split_and!.
Qed.

Lemma stream_inv_other b base now l t tn' th' st' ty p q b' :
  stream_inv (sb_seq b0) b base now l -> now <= t < base + ttl_ms ->
  buf_key tn' th' st' <> stream_key -> rows_apart (sb_seq b0) tn' th' st' ->
  @append redis_exc t tn' th' st' ty p b = (Ret q, b') ->
  stream_inv (sb_seq b0) b' base t l.
Proof.
  intros (Hs & Hl & Hle & Ha & Hok & sp & hot & -> & Hsp & Hhot) Ht Hk Hap Happ.
  destruct (@append_spec redis_exc t tn' th' st' ty p b Hs Httl) as (b2 & Hr & Hs' & Hav & Hq & Hrows & _ & Hhot').
  rewrite Happ in Hr. injection Hr as -> ->.
  destruct (spill_foreign (sb_seq b0) (rows_of b) (take (excess_of (hot_at t (buf_key tn' th' st') b ++
    [{| c_id := sb_seq b + 1; c_type := ty; c_data := p |}])) (hot_at t (buf_key tn' th' st') b ++
    [{| c_id := sb_seq b + 1; c_type := ty; c_data := p |}])) tn' th' st' Hap Hk Hok) as [Hok' Hf].
  rewrite <- Hrows in Hok', Hf. split_and!; [done| |lia|done|done|].
  - eapply Forall_impl; [exact Hl|]. cbn. lia.
  - exists sp, hot. rewrite Hf. split_and!; [done|done|]. intros t' Ht'.
    rewrite Hhot' by first [lia|done]. apply Hhot. lia.
Qed.

Lemma stream_inv_replay b base now l t tn' th' st' after cs b' :
  stream_inv (sb_seq b0) b base now l -> now <= t < base + ttl_ms -> base <= now ->
  @replay redis_exc t tn' th' st' after b = (Ret cs, b') ->
  stream_inv (sb_seq b0) b' base t l.
Proof.
  intros (Hs & Hl & Hle & Ha & Hok & sp & hot & -> & Hsp & Hhot) Ht Hbase Hrep.
  destruct (@replay_spec redis_exc t tn' th' st' after b Hs Httl) as (b2 & Hr & Hs' & Hav & Hq & Hrows & Hne & Heq).
  rewrite Hrep in Hr. injection Hr as -> ->. rewrite <- Hq in Hl, Hle. rewrite <- Hrows in Hsp, Hok.
  split_and!; [done|done|done|done|done|]. exists sp, hot. split_and!; [done|done|]. intros t' Ht'.
  destruct (decide (buf_key tn' th' st' = stream_key)) as [E|E].
  - rewrite <- E. apply (Heq hot (base + ttl_ms)); [lia| |lia]. intros u Hu. rewrite E. apply Hhot. lia.
  - rewrite Hne by first [lia|congruence]. apply Hhot. lia.
Qed.

Lemma stream_run_sound b base now l : stream_run b0 t0 b base now l -> sound b.
Proof.
  intros Hrun. induction Hrun as [|b base now l t ty p q b' Hrun IH Ht Happ
    |b base now l t tn' th' st' ty p q b' Hrun IH Ht Hk Hap Happ
    |b base now l t tn' th' st' after cs b' Hrun IH Ht Hrep].
  - apply Hfresh.
  - destruct (@append_spec redis_exc t tn th st ty p b IH Httl) as (b2 & Hr & Hs & _).
    rewrite Happ in Hr. by injection Hr as -> ->.
  - destruct (@append_spec redis_exc t tn' th' st' ty p b IH Httl) as (b2 & Hr & Hs & _).
    rewrite Happ in Hr. by injection Hr as -> ->.
  - destruct (@replay_spec redis_exc t tn' th' st' after b IH Httl) as (b2 & Hr & Hs & _).
    rewrite Hrep in Hr. by injection Hr as -> ->.
Qed.

Lemma append_counter now tn' th' st' ty p b q b' :
  sound b -> @append redis_exc now tn' th' st' ty p b = (Ret q, b') -> sb_seq b' = sb_seq b + 1.
Proof.
  intros Hs Happ. destruct (@append_spec redis_exc now tn' th' st' ty p b Hs Httl) as (b2 & Hr & _ & _ & Hq & _).
  rewrite Happ in Hr. by injection Hr as -> ->.
Qed.

Lemma stream_run_inv b base now l :
  stream_run b0 t0 b base now l -> sb_seq b < 2 ^ 31 ->
  base <= now /\ stream_inv (sb_seq b0) b base now l.
Proof.
  intros Hrun. induction Hrun as [|b base now l t ty p q b' Hrun IH Ht Happ
    |b base now l t tn' th' st' ty p q b' Hrun IH Ht Hk Hap Happ
    |b base now l t tn' th' st' after cs b' Hrun IH Ht Hrep]; intros Hmax.
  - split; [lia|]. apply stream_inv_init.
  - pose proof (append_counter _ _ _ _ _ _ _ _ _ (stream_run_sound _ _ _ _ Hrun) Happ).
    destruct IH as [Hb Hinv]; [lia|]. split; [lia|].
    eapply stream_inv_append; [exact Hinv|done|lia|exact Happ].
  - pose proof (append_counter _ _ _ _ _ _ _ _ _ (stream_run_sound _ _ _ _ Hrun) Happ).
    destruct IH as [Hb Hinv]; [lia|]. split; [lia|].
    eapply stream_inv_other; [exact Hinv|done|exact Hk|exact Hap|exact Happ].
  - destruct (@replay_spec redis_exc t tn' th' st' after b (stream_run_sound _ _ _ _ Hrun) Httl)
      as (b2 & Hr & _ & _ & Hq & _).
    assert (Hr' := Hr). rewrite Hrep in Hr'. injection Hr' as -> ->.
    destruct IH as [Hb Hinv]; [lia|]. split; [lia|].
    eapply stream_inv_replay; [exact Hinv|done|done|exact Hrep].
Qed.

(** What a replay returns: the rows, then the hot tier. *)
Lemma run_replay b base now l t after :
  stream_run b0 t0 b base now l -> sb_seq b < 2 ^ 31 -> now <= t < base + ttl_ms ->
  exists sp hot b', l = sp ++ hot /\ map chunk_of (List.filter (in_scope tn th st) (rows_of b)) = sp
    /\ @replay redis_exc t tn th st after b
       = (Ret (List.filter (fun r => after <? c_id r) sp
               ++ (if sb_available b then hot else List.filter (fun r => after <? c_id r) hot)), b').
Proof.
  intros Hrun Hmax Ht.
  destruct (stream_run_inv _ _ _ _ Hrun Hmax) as [_ (Hs & _ & _ & Ha & _ & sp & hot & -> & Hsp & Hhot)].
  assert (Hhot' := Hhot t Ht).
  destruct (@replay_spec redis_exc t tn th st after b Hs Httl) as (b2 & Hr & _).
  exists sp, hot, b2. split_and!; [done|done|]. rewrite Hr.
  rewrite (replayed_split t after tn th st b sp Hsp) by by rewrite Hhot'. by rewrite Hhot'.
Qed.

Lemma replay_from_start b base now l t :
  stream_run b0 t0 b base now l -> sb_seq b < 2 ^ 31 -> now <= t < base + ttl_ms ->
  exists b', @replay redis_exc t tn th st 0 b = (Ret l, b').
Proof.
  intros Hrun Hmax Ht. destruct (run_replay _ _ _ _ t 0 Hrun Hmax Ht) as (sp & hot & b' & -> & _ & ->).
  destruct (stream_run_inv _ _ _ _ Hrun Hmax) as [_ (_ & Hl & _)]. exists b'. f_equal. f_equal.
  assert (Hall : forall l', (forall r, r ∈ l' -> r ∈ sp ++ hot) -> List.filter (fun r => 0 <? c_id r) l' = l').
  { intros l' Hin. apply filter_all. intros r Hr%list_elem_of_In. rewrite Forall_forall in Hl.
    specialize (Hl r (Hin r Hr)). cbn in Hl. destruct Hfresh as (_ & Hpos & _). lia. }
  rewrite (Hall sp) by set_solver. destruct (sb_available b); [done|]. by rewrite (Hall hot) by set_solver.
Qed.

(** ** Properties *)

(** The terminal event is the last [result] or [error] appended, and none
    while there is none. *)
Theorem terminal_is_last b base now l t :
  stream_run b0 t0 b base now l -> sb_seq b < 2 ^ 31 -> now <= t < base + ttl_ms ->
  fst (@get_terminal redis_exc t tn th st b) = Ret (List.find is_terminal_chunk (rev l)).
Proof.
  intros Hrun Hmax Ht. unfold get_terminal, mbind, io_bind.
  by destruct (replay_from_start _ _ _ _ t Hrun Hmax Ht) as (b' & ->).
Qed.

(** Redis returns the whole hot window whatever the event id: a client that
    reconnects gets again every chunk it has acknowledged. *)
Theorem redis_replay_ignores_event_id b base now l t after :
  stream_run b0 t0 b base now l -> sb_seq b < 2 ^ 31 -> now <= t < base + ttl_ms ->
  sb_available b = true -> sb_overflow b = None ->
  fst (@replay redis_exc t tn th st after b) = Ret l.
Proof.
  intros Hrun Hmax Ht Hav Hno. destruct (run_replay _ _ _ _ t after Hrun Hmax Ht) as (sp & hot & b' & -> & Hsp & ->).
  unfold rows_of in Hsp. rewrite Hno in Hsp. cbn in Hsp. subst sp. by rewrite Hav.
Qed.

End stream.

(** C38: However appends to the stream, appends to other streams and replays
    follow one another, with the cap spilling chunks to the table or not, and
    whatever commands of Redis or of the table fail: a replay answers, the
    chunks appended have ascending ids, and it returns some of them, each at
    most once and in order.  When no command fails, a replay from the start
    within the time to live returns exactly the chunks appended, as long as the
    ids fit the table's 32-bit column; from an event id, the process memory
    returns exactly the later chunks. *)
Theorem replay_returns_stream (tn th st : string) b0 t0 b base now l t after :
  0 < ttl_ms -> unknown tn th st t0 b0 -> stream_run tn th st b0 t0 b base now l -> now <= t ->
  ascending l
  /\ (exists cs, fst (@replay redis_exc t tn th st after b) = Ret cs /\ sublist cs l)
  /\ (sound b0 -> row_ids_distinct tn th st (sb_seq b0) -> sb_seq b < 2 ^ 31 -> t < base + ttl_ms ->
      fst (@replay redis_exc t tn th st 0 b) = Ret l
      /\ (sb_available b = false ->
          fst (@replay redis_exc t tn th st after b) = Ret (List.filter (fun r => after <? c_id r) l))).
Proof.
  intros Httl Hun Hrun Ht. destruct (stream_run_within tn th st b0 t0 b base now l Hun Hrun) as (Hw & Ha & _).
  split; [exact Ha|]. split.
  - pose proof (replay_within (E := redis_exc) tn th st t tn th st after l (sb_seq b) b (within_later _ _ _ _ _ _ _ _ Ht Hw)) as Hpost.
    destruct (replay t tn th st after b) as [[cs|e] b']; [|done]. exists cs. split; [done|].
    destruct Hpost as [Hcs _]. destruct (Hcs eq_refl) as [Hasc Hin]. by apply ascending_sublist.
  - intros Hs Hids Hmax Hlive. split.
    + by destruct (replay_from_start tn th st t0 b0 Httl (conj Hs Hun) Hids _ _ _ _ t Hrun Hmax (conj Ht Hlive)) as (b' & ->).
    + intros Hav. destruct (run_replay tn th st t0 b0 Httl (conj Hs Hun) Hids _ _ _ _ t after Hrun Hmax (conj Ht Hlive))
        as (sp & hot & b' & -> & _ & ->).
      cbn [fst]. by rewrite Hav, List.filter_app.
Qed.

(** A cleared stream is empty. *)
Theorem clear_forgets (tn th st : string) b now t after :
  sound b -> 0 < ttl_ms -> now <= t ->
  exists b', @clear redis_exc tn th st b = (Ret true, b')
    /\ fst (@replay redis_exc t tn th st after b') = Ret [].
Proof.
  intros Hs Httl Ht. set (key := buf_key tn th st).
  assert (Hfirst : exists b1, (if negb (sb_available b) then _ ← pop_memory (E := redis_exc) key; mret true
      else try_catch
             (_ ← sb_run (fun s => (tt, redis_del key s)); _ ← pop_memory key; mret true)
             (fun _ => _ ← modify _mark_redis_down; _ ← pop_memory key; mret false)) b = (Ret true, b1)
    /\ sound b1 /\ sb_overflow b1 = sb_overflow b /\ hot_at t key b1 = []).
  { destruct (sb_available b) eqn:Ha; cbn [negb].
    - destruct (sb_run_healthy (fun s => (tt, redis_del key s)) b (proj1 Hs Ha)) as (r & Hr & Hh & Hst).
      unfold try_catch, mbind at 1, io_bind at 1. rewrite Hr. eexists. split; [reflexivity|].
      split_and!; [by split; [|apply Hs]|done|]. unfold hot_at. cbn. rewrite Ha, Hst. cbn.
      unfold redis_get. rewrite look_del. by rewrite decide_True.
    - eexists. split; [reflexivity|]. split_and!; [|done|].
      + split; [cbn; by rewrite Ha|apply Hs].
      + unfold hot_at, mem_at. cbn. rewrite Ha. by rewrite lookup_delete, decide_True. }
  destruct Hfirst as (b1 & Hfirst & Hs1 & Ho1 & Hhot1).
  unfold clear. fold key. unfold mbind at 1, io_bind at 1, get_st at 1.
  unfold mbind at 1, io_bind at 1. rewrite Hfirst. unfold mbind at 1, io_bind at 1, get_st at 1.
  assert (Hend : forall b2, sound b2 -> hot_at t key b2 = [] ->
    List.filter (in_scope tn th st) (rows_of b2) = [] -> fst (@replay redis_exc t tn th st after b2) = Ret []).
  { intros b2 Hs2 Hhot2 Hrows2. destruct (@replay_spec redis_exc t tn th st after b2 Hs2 Httl) as (b3 & -> & _).
    cbn [fst]. rewrite (replayed_split t after tn th st b2 []); fold key; rewrite ?Hhot2, ?Hrows2; [|done|constructor].
    by destruct (sb_available b2). }
  destruct (sb_overflow b1) as [d|] eqn:Ed.
  - destruct (db_session_healthy (fun rows => Some (Z.of_nat (length (List.filter (in_scope tn th st) rows)),
      List.filter (fun r => negb (in_scope tn th st r)) rows)) d) as (fs & Hfs & Hdb).
    { destruct Hs1 as [_ Ho]. by rewrite Ed in Ho. }
    unfold try_catch, mbind, io_bind, on_overflow, overflow_clear. rewrite Ed, Hdb.
    eexists. split; [reflexivity|]. apply Hend; [split; [apply Hs1|done]|done|].
    cbn. apply filter_none. intros r Hr. apply filter_In in Hr as [_ Hr]. by apply negb_true_iff in Hr.
  - exists b1. split; [done|]. apply Hend; [done|done|]. unfold rows_of. by rewrite Ed.
Qed.

End overflow.

(** ** A buffer at work

    A cap of two chunks, an empty table, and a digest that is its text. *)

Section examples.

Definition text_id (s : string) : string := s.

Definition new_buffer (available table : bool) (fs : list fault) (seq : Z) : @StreamBuffer (kv_map (list chunk)) := {|
  sb_conn := Build_redis ∅ fs; sb_available := available; sb_memory := ∅; sb_seq := seq;
  sb_overflow := if table then Some (Build_redis [] []) else None |}.

Definition put_delta (t : Z) (n : Z) (b : @StreamBuffer (kv_map (list chunk))) :=
  append text_id "buf:" 10 2 (E := redis_exc) t "tn" "th" "s" "delta" (JNum n) b.

Definition replay_at (t : Z) (after : Z) (b : @StreamBuffer (kv_map (list chunk))) :=
  fst (replay "buf:" 10 (E := redis_exc) t "tn" "th" "s" after b).

Definition delta (q n : Z) : chunk := {| c_id := q; c_type := "delta"; c_data := JNum n |}.

Lemma text_row_ids_distinct s0 : row_ids_distinct text_id "tn" "th" "s" s0.
Proof. intros q q' _ _ E. injection E. apply (inj pretty). Qed.

Lemma new_buffer_fresh available t0 : fresh text_id "buf:" 2 "tn" "th" "s" t0 (new_buffer available true [] 5).
Proof.
  split; [by split; [intros _|]; constructor|]. split; [done|]. split.
  - intros t _. split; [|done]. by destruct available.
  - intros r Hr. by apply not_elem_of_nil in Hr.
Qed.

Definition deltas (available : bool) (l : list (Z * Z)) : @StreamBuffer (kv_map (list chunk)) :=
  foldl (fun b '(t, n) => (put_delta t n b).2) (new_buffer available true [] 5) l.

Abbreviation ex_run available :=
  (stream_run text_id "buf:" 10 2 "tn" "th" "s" (new_buffer available true [] 5) 0).

Lemma put_delta_run available b base now l t n q :
  ex_run available b base now l -> now <= t < base + 10000 -> (put_delta t n b).1 = Ret q ->
  ex_run available (put_delta t n b).2 t t (l ++ [delta q n]).
Proof.
  intros Hrun Ht Hq. eapply (sr_append text_id "buf:" 10 2 "tn" "th" "s"); [exact Hrun|exact Ht|].
  rewrite <- Hq. apply surjective_pairing.
Qed.

Definition three_deltas (available : bool) := deltas available [(0, 10); (1, 20); (2, 30)].

Lemma three_deltas_run available :
  ex_run available (three_deltas available) 2 2 [delta 6 10; delta 7 20; delta 8 30].
Proof.
  pose proof (sr_init text_id "buf:" 10 2 "tn" "th" "s" (new_buffer available true [] 5) 0) as H0.
  pose proof (put_delta_run available _ _ _ _ 0 10 6 H0 ltac:(lia) ltac:(by destruct available)) as H1.
  pose proof (put_delta_run available _ _ _ _ 1 20 7 H1 ltac:(lia) ltac:(by destruct available)) as H2.
  exact (put_delta_run available _ _ _ _ 2 30 8 H2 ltac:(lia) ltac:(by destruct available)).
Qed.

(** A buffer whose fourth command fails: the first chunk stays in Redis, the
    second goes to the process, and only that is replayed. *)
Definition losing : @StreamBuffer (kv_map (list chunk)) := new_buffer true true [NoFault; NoFault; NoFault; LostRequest] 5.
Definition two_deltas := (put_delta 1 20 (put_delta 0 10 losing).2).2.

Lemma losing_unknown : unknown text_id "buf:" "tn" "th" "s" 0 losing.
Proof. split_and!; [done|done|]. intros r Hr. by apply not_elem_of_nil in Hr. Qed.

Lemma two_deltas_run :
  stream_run text_id "buf:" 10 2 "tn" "th" "s" losing 0 two_deltas 1 1 [delta 6 10; delta 7 20].
Proof.
  apply (sr_append text_id "buf:" 10 2 "tn" "th" "s" losing 0 (put_delta 0 10 losing).2 0 0 [delta 6 10] 1 "delta" (JNum 20) 7);
    [|done|vm_compute; reflexivity].
  apply (sr_append text_id "buf:" 10 2 "tn" "th" "s" losing 0 losing 0 0 [] 0 "delta" (JNum 10) 6);
    [apply sr_init|done|vm_compute; reflexivity].
Qed.

Lemma replay_returns_stream_witness :
  replay_at 9 0 (three_deltas true) = Ret [delta 6 10; delta 7 20; delta 8 30]
  /\ replay_at 9 6 (three_deltas false) = Ret [delta 7 20; delta 8 30]
  /\ exists cs, replay_at 9 0 two_deltas = Ret cs /\ sublist cs [delta 6 10; delta 7 20].
Proof.
  assert (Hq : forall a, sb_seq (three_deltas a) < 2 ^ 31) by (intros []; vm_compute; reflexivity).
  assert (Httl : 0 < ttl_ms 10) by reflexivity.
  assert (Hf : forall a, fresh text_id "buf:" 2 "tn" "th" "s" 0 (new_buffer a true [] 5)) by (intros a; apply new_buffer_fresh).
  destruct (replay_returns_stream text_id "buf:" 10 2 "tn" "th" "s" _ 0 _ _ _ _ 9 0 Httl (proj2 (Hf true)) (three_deltas_run true)
    ltac:(lia)) as (_ & _ & Hredis).
  destruct (replay_returns_stream text_id "buf:" 10 2 "tn" "th" "s" _ 0 _ _ _ _ 9 6 Httl (proj2 (Hf false)) (three_deltas_run false)
    ltac:(lia)) as (_ & _ & Hmemory).
  destruct (replay_returns_stream text_id "buf:" 10 2 "tn" "th" "s" _ 0 _ _ _ _ 9 0 Httl losing_unknown two_deltas_run
    ltac:(lia)) as (_ & Hlost & _).
  destruct (Hredis (proj1 (Hf true)) (text_row_ids_distinct 5) (Hq true) ltac:(unfold ttl_ms; lia)) as [H1 _].
  destruct (Hmemory (proj1 (Hf false)) (text_row_ids_distinct 5) (Hq false) ltac:(unfold ttl_ms; lia)) as [_ H2].
  split_and!; [exact H1|exact (H2 ltac:(reflexivity))|exact Hlost].
Defined.

(** One failed command, and what Redis held is no longer replayed. *)
Example failure_hides_redis_chunks :
  let b := (put_delta 1 20 (put_delta 0 10 (new_buffer true false [NoFault; NoFault; NoFault; LostRequest] 5)).2).2 in
  replay_at 2 0 b = Ret [delta 7 20].
Proof. vm_compute. reflexivity. Qed.

(** Past 2^31 milliseconds the spilled chunks do not fit the column and are
    lost. *)
Example overflow_lost_past_int4 :
  let b0 := new_buffer true true [] (2 ^ 31) in
  let b := (put_delta 2 30 (put_delta 1 20 (put_delta 0 10 b0).2).2).2 in
  replay_at 3 0 b = Ret [delta (2 ^ 31 + 2) 20; delta (2 ^ 31 + 3) 30].
Proof. vm_compute. reflexivity. Qed.

End examples.
