(* ===== verification/Replicas.v ===== *)
(** * Read routing (backend/app/infrastructure/db/replicas.py)

    The router that serves history reads from replicas and keeps a window in
    which a key written by this process is read back from the primary.  An
    engine is its position in the list of replica URLs; whether a probe of an
    engine succeeds is an argument of the operations that probe. *)

From S2P Require Import Prelude.

Definition _MAX_TRACKED_WRITE_KEYS : nat := 10000.

Record ReplicaRouter := {
  replica_urls : list string;
  window_seconds : Q;
  rr_replicas : list nat;                 (* _replicas *)
  rr_unavailable : list nat;              (* _unavailable, a set *)
  rr_index : nat;
  last_write : list (string * Q);         (* _last_write, in insertion order *)
}.

Definition new_router (urls : list string) (window : Q) : ReplicaRouter := {|
  replica_urls := List.filter truthy urls; window_seconds := window; rr_replicas := [];
  rr_unavailable := []; rr_index := 0; last_write := [] |}.

Definition configured (r : ReplicaRouter) : bool :=
  match replica_urls r with [] => false | _ => true end.

Definition with_unavailable (u : list nat) (r : ReplicaRouter) : ReplicaRouter := {|
  replica_urls := replica_urls r; window_seconds := window_seconds r;
  rr_replicas := rr_replicas r; rr_unavailable := u; rr_index := rr_index r;
  last_write := last_write r |}.
Definition with_last_write (l : list (string * Q)) (r : ReplicaRouter) : ReplicaRouter := {|
  replica_urls := replica_urls r; window_seconds := window_seconds r;
  rr_replicas := rr_replicas r; rr_unavailable := rr_unavailable r; rr_index := rr_index r;
  last_write := l |}.

(** [self._unavailable.add(id(engine))] and [discard]. *)
Definition set_add (e : nat) (l : list nat) : list nat := if decide (e ∈ l) then l else e :: l.
Definition set_discard (e : nat) (l : list nat) : list nat := List.filter (fun x => negb (x =? e)%nat) l.

Definition initialize (ping : nat -> bool) (r : ReplicaRouter) : ReplicaRouter :=
  let engines := seq 0 (length (replica_urls r)) in
  {| replica_urls := replica_urls r; window_seconds := window_seconds r;
     rr_replicas := rr_replicas r ++ engines;
     rr_unavailable :=
       foldl (fun u e => if ping e then u else set_add e u) (rr_unavailable r) engines;
     rr_index := rr_index r; last_write := last_write r |}.

Definition close (r : ReplicaRouter) : ReplicaRouter := {|
  replica_urls := replica_urls r; window_seconds := window_seconds r; rr_replicas := [];
  rr_unavailable := []; rr_index := rr_index r; last_write := last_write r |}.

Inductive replica_health := RHealthy | RDegraded.

Definition health_check (ping : nat -> bool) (r : ReplicaRouter) : replica_health * ReplicaRouter :=
  if negb (configured r) then (RHealthy, r)
  else
    let u := foldl (fun u e => if ping e then set_discard e u else set_add e u)
               (rr_unavailable r) (rr_replicas r) in
    (match List.filter ping (rr_replicas r) with [] => RDegraded | _ => RHealthy end,
     with_unavailable u r).

(** ** The read-your-writes window *)

(** [d[k] = v]: an existing key keeps its place. *)
Fixpoint dict_put (k : string) (v : Q) (entries : list (string * Q)) : list (string * Q) :=
  match entries with
  | [] => [(k, v)]
  | (key, old) :: rest => if decide (key = k) then (k, v) :: rest else (key, old) :: dict_put k v rest
  end.

Fixpoint dict_find (k : string) (entries : list (string * Q)) : option Q :=
  match entries with
  | [] => None
  | (key, v) :: rest => if decide (key = k) then Some v else dict_find k rest
  end.

(** [for key in keys: if not key: continue; self._last_write[key] = now] *)
Definition put_keys (now : Q) (keys : list string) (l : list (string * Q)) : list (string * Q) :=
  foldl (fun l k => if truthy k then dict_put k now l else l) l keys.

Definition mark_write (now : Q) (keys : list string) (r : ReplicaRouter) : ReplicaRouter :=
  if negb (configured r) then r
  else
    let l := put_keys now keys (last_write r) in
    with_last_write (drop (length l - _MAX_TRACKED_WRITE_KEYS) l) r.

Definition _within_window (now : Q) (keys : list string) (r : ReplicaRouter) : bool :=
  existsb (fun k => truthy k &&
                    match dict_find k (last_write r) with
                    | Some written_at => (now - written_at)%Q <?q window_seconds r
                    | None => false
                    end) keys.

Definition replica_eligible (now : Q) (keys : list string) (r : ReplicaRouter) : bool :=
  if negb (configured r) then false
  else if match rr_replicas r with [] => true | _ => false end
          || (length (rr_replicas r) <=? length (rr_unavailable r))%nat then false
  else negb (_within_window now keys r).

(** [None] is the [RuntimeError] "no healthy replica". *)
Definition _next_replica (r : ReplicaRouter) : option nat * ReplicaRouter :=
  let candidates := List.filter (fun e => negb (bool_decide (e ∈ rr_unavailable r))) (rr_replicas r) in
  match candidates with
  | [] => (None, r)
  | _ => (candidates !! (rr_index r mod length candidates)%nat,
          {| replica_urls := replica_urls r; window_seconds := window_seconds r;
             rr_replicas := rr_replicas r; rr_unavailable := rr_unavailable r;
             rr_index := S (rr_index r); last_write := last_write r |})
  end.

(** Where a read session goes. *)
Inductive read_target := Primary | Replica (e : nat) | NoHealthyReplica.

Definition read_route (now : Q) (keys : list string) (r : ReplicaRouter)
  : read_target * ReplicaRouter :=
  if replica_eligible now keys r then
    match _next_replica r with
    | (Some e, r') => (Replica e, r')
    | (None, r') => (NoHealthyReplica, r')
    end
  else (Primary, r).

(** A read session's failures: the replica's error is recorded and raised
    again; [run] is what the database at the target answers, [None] for a
    connection-level [DBAPIError]. *)
Inductive read_error := DBAPIError | NoHealthyReplicaError.

Definition get_read_session {A} (run : read_target -> option A) (now : Q) (keys : list string)
  : io ReplicaRouter read_error A := fun r =>
  match read_route now keys r with
  | (NoHealthyReplica, r') => (Raise NoHealthyReplicaError, r')
  | (Primary, r') =>
      match run Primary with
      | Some a => (Ret a, r')
      | None => (Raise DBAPIError, r')
      end
  | (Replica e, r') =>
      match run (Replica e) with
      | Some a => (Ret a, r')
      | None => (Raise DBAPIError, with_unavailable (set_add e (rr_unavailable r')) r')
      end
  end.

(** ** Lemmas on the dict *)

Lemma dict_put_length k v l : (length l <= length (dict_put k v l) <= S (length l))%nat.
Proof.
  induction l as [|[k' v'] l IH]; simpl; [lia|]. case_decide; simpl; lia.
Qed.

Lemma dict_find_put k k' v l :
  dict_find k (dict_put k' v l) = if decide (k' = k) then Some v else dict_find k l.
Proof.
  induction l as [|[k0 v0] l IH]; simpl.
  - by repeat case_decide.
  - repeat case_decide; simpl; repeat case_decide; simplify_eq; try done; congruence.
Qed.

Lemma put_keys_find now k keys l :
  truthy k = true ->
  dict_find k (put_keys now keys l) = if decide (k ∈ keys) then Some now else dict_find k l.
Proof.
  intros Hk. revert l. unfold put_keys.
  induction keys as [|k' keys IH]; intros l; [by rewrite decide_False by apply not_elem_of_nil|].
  cbn [foldl]. rewrite IH. destruct (decide (k ∈ keys)) as [Hin|Hin].
  - rewrite (decide_True (P := k ∈ k' :: keys)); [done|]. by apply elem_of_cons; right.
  - destruct (truthy k') eqn:Hk'.
    + rewrite dict_find_put. destruct (decide (k' = k)) as [->|Hne].
      * rewrite decide_True; [done|]. apply elem_of_cons; by left.
      * rewrite decide_False; [done|]. intros [?|?]%elem_of_cons; congruence.
    + rewrite decide_False; [done|]. intros [?|?]%elem_of_cons; congruence.
Qed.

Lemma read_route_primary now keys r :
  _within_window now keys r = true -> read_route now keys r = (Primary, r).
Proof.
  intros H. unfold read_route, replica_eligible. rewrite H.
  destruct (negb _); [done|]. by destruct (_ || _).
Qed.

Lemma dict_put_new k v l : dict_find k l = None -> dict_put k v l = l ++ [(k, v)].
Proof.
  induction l as [|[k' v'] l IH]; simpl; [done|]. case_decide; [done|]. intros ?. by rewrite IH.
Qed.

Lemma dict_find_snoc k k' v l :
  dict_find k (l ++ [(k', v)]) =
  match dict_find k l with Some w => Some w | None => if decide (k' = k) then Some v else None end.
Proof. induction l as [|[k0 v0] l IH]; simpl; [done|]. destruct (decide (k0 = k)); [done|exact IH]. Qed.

Lemma within_window_marked now now' k keys keys' r :
  truthy k = true -> k ∈ keys -> k ∈ keys' ->
  (length (put_keys now keys (last_write r)) <= _MAX_TRACKED_WRITE_KEYS)%nat ->
  configured r = true ->
  (now' - now)%Q <?q window_seconds r = true ->
  _within_window now' keys' (mark_write now keys r) = true.
Proof.
  intros Hk Hin Hin' Hlen Hc Hw. unfold mark_write, _within_window. rewrite Hc. cbn [negb].
  replace (length (put_keys now keys (last_write r)) - _MAX_TRACKED_WRITE_KEYS)%nat with 0%nat by lia.
  rewrite drop_0. cbn [last_write with_last_write window_seconds].
  apply existsb_exists. exists k. split; [by apply list_elem_of_In|].
  by rewrite Hk, put_keys_find, decide_True by done.
Qed.

Lemma next_replica_available r e r' :
  _next_replica r = (Some e, r') -> e ∈ rr_replicas r /\ e ∉ rr_unavailable r.
Proof.
  unfold _next_replica. set (c := List.filter _ _). destruct c as [|e0 c'] eqn:Ec; [done|].
  intros [= He _]. apply list_elem_of_lookup_2 in He. rewrite <- Ec in He.
  apply list_elem_of_In, filter_In in He as [Hin Hb].
  split; [by apply list_elem_of_In|]. by case_bool_decide.
Qed.

(** ** Properties *)

(** Read-your-writes: for as long as the window of a write lasts, a read
    for one of its keys goes to the primary whatever the replicas hold,
    provided the write did not overflow the bounded table of keys. *)
Lemma read_route_marked (now now' : Q) (k : string) (keys keys' : list string) (r : ReplicaRouter) :
  truthy k = true -> k ∈ keys -> k ∈ keys' ->
  (length (put_keys now keys (last_write r)) <= _MAX_TRACKED_WRITE_KEYS)%nat ->
  (now' - now < window_seconds r)%Q ->
  let r' := mark_write now keys r in
  read_route now' keys' r' = (Primary, r').
Proof.
  intros Hk Hin Hin' Hlen Hw. cbn zeta. apply Qltb_true in Hw.
  destruct (configured r) eqn:Hc.
  - by eapply read_route_primary, within_window_marked.
  - unfold read_route, replica_eligible, mark_write. by rewrite Hc; cbn [negb]; rewrite Hc.
Qed.

(** The key table is bounded by dropping its oldest insertions, and a
    rewrite does not move a key: with a full table, writing its first key
    again and then any new key loses the first one, so a read of what was
    just written goes to a replica. *)
Theorem rewritten_key_evicted (now : Q) (k0 k1 : string) (v : Q) (l : list (string * Q)) (r : ReplicaRouter) :
  configured r = true -> truthy k0 = true -> truthy k1 = true -> k0 <> k1 ->
  last_write r = (k0, v) :: l ->
  length (last_write r) = _MAX_TRACKED_WRITE_KEYS ->
  dict_find k0 l = None -> dict_find k1 l = None ->
  let r' := mark_write now [k1] (mark_write now [k0] r) in
  _within_window now [k0] r' = false.
Proof.
  intros Hc Hk0 Hk1 Hne Hl Hlen H0 H1. cbn zeta.
  assert (Hr : mark_write now [k0] r = with_last_write ((k0, now) :: l) r).
  { unfold mark_write, put_keys. rewrite Hc, Hl. cbn [negb foldl]. rewrite Hk0. simpl dict_put.
    rewrite decide_True by done. rewrite Hl in Hlen.
    change (length ((k0, now) :: l)) with (length ((k0, v) :: l)). by rewrite Hlen, Nat.sub_diag. }
  rewrite Hr. unfold mark_write, put_keys, configured in *. cbn [replica_urls with_last_write last_write].
  rewrite Hc. cbn [negb foldl]. rewrite Hk1. simpl dict_put. rewrite decide_False by congruence.
  rewrite dict_put_new by done. rewrite Hl in Hlen. cbn [length] in *.
  rewrite length_app. cbn [length].
  replace (S (length l + 1) - _MAX_TRACKED_WRITE_KEYS)%nat with 1%nat by lia.
  unfold _within_window. cbn [existsb drop last_write with_last_write]. rewrite drop_0.
  rewrite dict_find_snoc, H0, decide_False by congruence. by rewrite andb_false_r.
Qed.

(** A read never uses an engine known to be down, and an engine whose read
    fails is marked; but the failing read itself raises: it is not served by
    the primary. *)
Theorem replica_failure_raises {A} (run : read_target -> option A) (now : Q) (keys : list string)
    (r r1 : ReplicaRouter) (e : nat) :
  read_route now keys r = (Replica e, r1) -> run (Replica e) = None ->
  e ∈ rr_replicas r /\ e ∉ rr_unavailable r /\
  exists r2, get_read_session run now keys r = (Raise DBAPIError, r2) /\ e ∈ rr_unavailable r2.
Proof.
  intros Hr Hrun.
  assert (Hn : _next_replica r = (Some e, r1)).
  { unfold read_route in Hr. destruct (replica_eligible _ _ _); [|done].
    destruct (_next_replica r) as [[e'|] r'] eqn:En; [|done]. by simplify_eq. }
  destruct (next_replica_available _ _ _ Hn) as [? ?]. split_and!; [done|done|].
  unfold get_read_session. rewrite Hr, Hrun. eexists. split; [done|].
  cbn [rr_unavailable with_unavailable]. unfold set_add. case_decide; [done|].
  apply elem_of_cons; by left.
Qed.

(** ** Witnesses *)

Definition sample_router : ReplicaRouter :=
  initialize (fun e => true) (new_router ["postgres://r0"; "postgres://r1"] 5).

Lemma replica_failure_raises_witness :
  exists r2, get_read_session (A := nat) (fun t => None) 0 ["t1"] sample_router = (Raise DBAPIError, r2)
    /\ 0%nat ∈ rr_unavailable r2.
Proof.
  destruct (replica_failure_raises (A := nat) (fun t => None) 0 ["t1"] sample_router
              (snd (read_route 0 ["t1"] sample_router)) 0) as (_ & _ & H); [done|done|exact H].
Defined.

(** A full table: the keys [a], [k0], [k1], ... *)
Definition full_rest : list (string * Q) :=
  map (fun i => ("k" +:+ pretty i, 0%Q)) (seq 0 (pred _MAX_TRACKED_WRITE_KEYS)).

Lemma full_rest_absent (k : string) n m :
  String.prefix "k" k = false ->
  dict_find k (map (fun i => ("k" +:+ pretty i, 0%Q)) (seq n m)) = None.
Proof.
  intros Hk. revert n. induction m as [|m IH]; intros n; [done|].
  cbn [seq map dict_find]. rewrite decide_False; [done|]. 
  intros <-. change ("k" +:+ pretty n) with (String "k" (pretty n)) in Hk.
  simpl in Hk. by destruct (pretty n).
Qed.

Lemma rewritten_key_evicted_witness :
  let r := with_last_write (("a", 0%Q) :: full_rest) sample_router in
  _within_window 1 ["a"] (mark_write 1 ["b"] (mark_write 1 ["a"] r)) = false.
Proof.
  apply (rewritten_key_evicted 1 "a" "b" 0 full_rest
           (with_last_write (("a", 0%Q) :: full_rest) sample_router));
    [reflexivity|reflexivity|reflexivity|discriminate|reflexivity| |by apply full_rest_absent
    |by apply full_rest_absent].
  cbn [last_write with_last_write length]. unfold full_rest. by rewrite length_map, length_seq.
Defined.
