(* ===== verification/Threads.v ===== *)
(** * Thread store (backend/app/infrastructure/db/threads.py)

    The durable append-only log: threads, messages, message parts and thread
    events as tables with the constraints models.py declares (primary keys,
    the unique columns, the foreign keys), a transaction per call that is
    rolled back when the call raises, and history reads routed by the
    replica router.  The messages table holds the rows that belong to a
    thread.  The random source of [uuid4] and the clock are part of the
    world; a datetime is a rational number of seconds. *)

From S2P Require Import Prelude Json Replicas.

Definition TEXT_PART_TYPE : string := "text".
Definition TOOL_RESULT_PART_TYPE : string := "tool_result".
Definition TOOL_RESULT_PLACEHOLDER : string := "[tool result cleared; re-fetch on demand]".

(** ** Tables *)

Record ThreadModel := {
  t_id : string;
  t_tenant_id : string;
  t_conversation_id : string;
  t_surface_id : option string;
  t_end_user_id : option string;
  t_status : string;
  summary_block : option json;
  summary_position : option Z;
  summary_version : Z;
  forked_from : option string;
  archived : bool;
  t_created_at : Q;
  t_updated_at : Q;
}.

Record MessageModel := {
  m_id : string;
  m_conversation_id : string;
  m_tenant_id : string;
  m_thread_id : string;
  m_seq : Z;
  m_request_id : option string;
  parent_message_id : option string;
  m_surface_id : option string;
  m_end_user_id : option string;
  role : string;
  content : string;
  redacted_content : string;
  metadata_json : list (string * json);
  m_created_at : Q;
}.

Record MessagePartModel := {
  p_id : string;
  p_message_id : string;
  p_thread_id : string;
  p_tenant_id : string;
  part_type : string;
  part_index : Z;
  p_content : json;
  p_redacted_content : json;
  p_created_at : Q;
}.

Record ThreadEventModel := {
  e_id : string;
  e_thread_id : string;
  e_tenant_id : string;
  e_seq : Z;
  event_type : string;
  e_request_id : option string;
  payload : list (string * json);
  e_created_at : Q;
}.

Record database := {
  conversations : list string;            (* the ids of the conversations table *)
  threads : list ThreadModel;
  messages : list MessageModel;
  parts : list MessagePartModel;
  events : list ThreadEventModel;
}.

Inductive store_exc :=
| ThreadNotFoundError (thread_id : string)
| MessageNotFoundError (message_id : string)
| ForkPointOutOfRange (at_seq : Z)
| IntegrityError
| MultipleResultsFound
| ReadFailed (e : read_error).

(** The primary, the contents of the replicas ([None]: unreachable), the
    router, the random source and how much of it was used, and the clock. *)
Record world := {
  db : database;
  replica_dbs : list (option database);
  router : ReplicaRouter;
  uuids : nat -> string;
  used : nat;
  now : Q;
}.

Definition with_db (d : database) (w : world) : world := {|
  db := d; replica_dbs := replica_dbs w; router := router w; uuids := uuids w;
  used := used w; now := now w |}.
Definition with_router (r : ReplicaRouter) (w : world) : world := {|
  db := db w; replica_dbs := replica_dbs w; router := r; uuids := uuids w;
  used := used w; now := now w |}.

Definition with_threads (l : list ThreadModel) (d : database) : database := {|
  conversations := conversations d; threads := l; messages := messages d; parts := parts d;
  events := events d |}.
Definition with_messages (l : list MessageModel) (d : database) : database := {|
  conversations := conversations d; threads := threads d; messages := l; parts := parts d;
  events := events d |}.
Definition with_parts (l : list MessagePartModel) (d : database) : database := {|
  conversations := conversations d; threads := threads d; messages := messages d; parts := l;
  events := events d |}.
Definition with_events (l : list ThreadEventModel) (d : database) : database := {|
  conversations := conversations d; threads := threads d; messages := messages d;
  parts := parts d; events := l |}.

Abbreviation store A := (io world store_exc A).

(** [str(uuid4())] *)
Definition uuid4 : store string := fun w =>
  (Ret (uuids w (used w)),
   {| db := db w; replica_dbs := replica_dbs w; router := router w; uuids := uuids w;
      used := S (used w); now := now w |}).

(** [async with self.db.get_session()]: commit, or roll back and raise. *)
Definition get_session {A} (c : store A) : store A := fun w =>
  match c w with
  | (Ret a, w') => (Ret a, w')
  | (Raise e, w') => (Raise e, with_db (db w) w')
  end.

Definition query {A} (q : database -> A) : store A := fun w => (Ret (q (db w)), w).

(** [async with self._read_session(...)]: the query runs where the router
    sends it. *)
Definition _read_session {A} (keys : list string) (q : database -> A) : store A := fun w =>
  let run t := match t with
               | Replica e => q <$> (default None (replica_dbs w !! e))
               | _ => Some (q (db w))
               end in
  match get_read_session run (now w) keys (router w) with
  | (Ret a, r) => (Ret a, with_router r w)
  | (Raise e, r) => (Raise (ReadFailed e), with_router r w)
  end.

Definition mark (keys : list string) : store unit :=
  modify (fun w => with_router (mark_write (now w) keys (router w)) w).

(** [scalar_one_or_none()] *)
Definition scalar_one_or_none {A} (l : list A) : store (option A) :=
  match l with
  | [] => mret None
  | [x] => mret (Some x)
  | _ => throw MultipleResultsFound
  end.

(** [SELECT max(...)], NULL when no row matches. *)
Definition sql_max (l : list Z) : option Z :=
  match l with [] => None | x :: l' => Some (foldr Z.max x l') end.

(** ** Inserts, with the constraints of the tables *)

Definition opt_same (a b : option string) : bool :=
  match a, b with Some x, Some y => bool_decide (x = y) | _, _ => false end.

Definition insert_thread (t : ThreadModel) : store unit := fun w =>
  if existsb (fun t' => bool_decide (t_id t' = t_id t)) (threads (db w)) then (Raise IntegrityError, w)
  else (Ret tt, with_db (with_threads (threads (db w) ++ [t]) (db w)) w).

(** models.py: primary key, [uq_messages_thread_seq], the unique
    [ix_messages_request_id], the foreign key to conversations. *)
Definition message_conflict (m m' : MessageModel) : bool :=
  bool_decide (m_id m' = m_id m)
  || bool_decide (m_thread_id m' = m_thread_id m) && (m_seq m' =? m_seq m)
  || opt_same (m_request_id m') (m_request_id m).

Definition insert_message (m : MessageModel) : store unit := fun w =>
  if existsb (message_conflict m) (messages (db w))
     || negb (bool_decide (m_conversation_id m ∈ conversations (db w)))
  then (Raise IntegrityError, w)
  else (Ret tt, with_db (with_messages (messages (db w) ++ [m]) (db w)) w).

(** [uq_message_parts_message_index] and the foreign keys. *)
Definition part_conflict (p p' : MessagePartModel) : bool :=
  bool_decide (p_id p' = p_id p)
  || bool_decide (p_message_id p' = p_message_id p) && (part_index p' =? part_index p).

Definition insert_part (p : MessagePartModel) : store unit := fun w =>
  if existsb (part_conflict p) (parts (db w))
     || negb (existsb (fun m => bool_decide (m_id m = p_message_id p)) (messages (db w)))
     || negb (existsb (fun t => bool_decide (t_id t = p_thread_id p)) (threads (db w)))
  then (Raise IntegrityError, w)
  else (Ret tt, with_db (with_parts (parts (db w) ++ [p]) (db w)) w).

(** [uq_thread_events_thread_seq] and the foreign key. *)
Definition event_conflict (e e' : ThreadEventModel) : bool :=
  bool_decide (e_id e' = e_id e)
  || bool_decide (e_thread_id e' = e_thread_id e) && (e_seq e' =? e_seq e).

Definition insert_event (e : ThreadEventModel) : store unit := fun w =>
  if existsb (event_conflict e) (events (db w))
     || negb (existsb (fun t => bool_decide (t_id t = e_thread_id e)) (threads (db w)))
  then (Raise IntegrityError, w)
  else (Ret tt, with_db (with_events (events (db w) ++ [e]) (db w)) w).

(** ** Selections *)

Definition is_thread (tenant_id thread_id : string) (t : ThreadModel) : bool :=
  bool_decide (t_tenant_id t = tenant_id) && bool_decide (t_id t = thread_id).

Definition select_thread (tenant_id thread_id : string) (d : database) : list ThreadModel :=
  List.filter (is_thread tenant_id thread_id) (threads d).

Definition in_thread (tenant_id thread_id : string) (m : MessageModel) : bool :=
  bool_decide (m_thread_id m = thread_id) && bool_decide (m_tenant_id m = tenant_id).

Definition by_seq (m m' : MessageModel) : bool := m_seq m <=? m_seq m'.

(** The messages of a thread, in ascending sequence. *)
Definition log (tenant_id thread_id : string) (d : database) : list MessageModel :=
  sort_by by_seq (List.filter (in_thread tenant_id thread_id) (messages d)).

Definition message_seqs (thread_id : string) (d : database) : list Z :=
  map m_seq (List.filter (fun m => bool_decide (m_thread_id m = thread_id)) (messages d)).

Definition event_seqs (thread_id : string) (d : database) : list Z :=
  map e_seq (List.filter (fun e => bool_decide (e_thread_id e = thread_id)) (events d)).

Definition _max_message_seq (thread_id : string) (d : database) : Z :=
  default 0 (sql_max (message_seqs thread_id d)).

(** Despite its name: the greatest event sequence plus one. *)
Definition _max_event_seq (thread_id : string) (d : database) : Z :=
  default 0 (sql_max (event_seqs thread_id d)) + 1.

(** [.limit(n)] *)
Definition sql_limit {A} (n : Z) (l : list A) : list A := take (Z.to_nat n) l.

(** The row locked by [with_for_update()], or [ThreadNotFoundError]. *)
Definition lock_thread (tenant_id thread_id : string) : store ThreadModel :=
  found ← query (select_thread tenant_id thread_id);
  row ← scalar_one_or_none found;
  match row with
  | Some t => mret t
  | None => throw (ThreadNotFoundError thread_id)
  end.

Definition opt_json (o : option string) : json :=
  match o with Some s => JStr s | None => JNull end.

(** [session.add(ThreadEventModel(id=str(uuid4()), ...))] *)
Definition add_event (tenant_id thread_id : string) (seq : Z) (type : string)
    (request_id : option string) (data : list (string * json)) : store ThreadEventModel :=
  id ← uuid4;
  w ← get_st;
  let e := {| e_id := id; e_thread_id := thread_id; e_tenant_id := tenant_id; e_seq := seq;
              event_type := type; e_request_id := request_id; payload := data;
              e_created_at := now w |} in
  _ ← insert_event e;
  mret e.

(** ** Thread lifecycle *)

Definition get_thread (tenant_id thread_id : string) : store (option ThreadModel) :=
  get_session (found ← query (select_thread tenant_id thread_id); scalar_one_or_none found).

Definition create_thread (tenant_id conversation_id : string)
    (surface_id end_user_id request_id : option string) : store (option ThreadModel) :=
  thread_id ← uuid4;
  _ ← get_session (
    w ← get_st;
    _ ← insert_thread {| t_id := thread_id; t_tenant_id := tenant_id;
          t_conversation_id := conversation_id; t_surface_id := surface_id;
          t_end_user_id := end_user_id; t_status := "active"; summary_block := None;
          summary_position := None; summary_version := 0; forked_from := None;
          archived := false; t_created_at := now w; t_updated_at := now w |};
    _ ← add_event tenant_id thread_id 1 "thread.created" request_id
          [("conversation_id", JStr conversation_id)];
    mark [tenant_id; conversation_id; thread_id]);
  get_thread tenant_id thread_id.

Definition get_or_create_for_conversation (tenant_id conversation_id : string)
    (surface_id end_user_id : option string) : store (option ThreadModel) :=
  row ← get_session (
    found ← query (fun d => List.filter (fun t => bool_decide (t_tenant_id t = tenant_id)
                              && bool_decide (t_conversation_id t = conversation_id)) (threads d));
    scalar_one_or_none found);
  match row with
  | Some t => mret (Some t)
  | None => create_thread tenant_id conversation_id surface_id end_user_id None
  end.

(** [order_by(created_at.desc())] *)
Definition newest_first (t t' : ThreadModel) : bool := t_created_at t' <=?q t_created_at t.
Definition oldest_first (t t' : ThreadModel) : bool := t_created_at t <=?q t_created_at t'.

Definition threads_page (tenant_id : string) (end_user_id : option string) (limit : Z)
    (before : option string) (d : database) : list ThreadModel :=
  let rows := List.filter (fun t => bool_decide (t_tenant_id t = tenant_id)) (threads d) in
  let rows := if truthy_opt end_user_id
              then List.filter (fun t => bool_decide (t_end_user_id t = end_user_id)) rows
              else rows in
  let rows :=
    match before with
    | Some b =>
        if truthy b then
          match List.find (fun t => bool_decide (t_id t = b)) (threads d) with
          | Some bt => List.filter (fun t => t_created_at t <?q t_created_at bt) rows
          | None => rows
          end
        else rows
    | None => rows
    end in
  sql_limit limit (sort_by newest_first rows).

Definition list_threads (tenant_id : string) (end_user_id : option string) (limit : Z)
    (before : option string) : store (list ThreadModel) :=
  _read_session [tenant_id] (threads_page tenant_id end_user_id limit before).

(** The rows a deletion removes, and those that reference a removed thread
    with [ON DELETE CASCADE]: events and parts; [messages.thread_id] carries
    no foreign key. *)
Definition delete_by_end_user (tenant_id end_user_id : string) : store Z :=
  get_session (
    w ← get_st;
    let gone t := bool_decide (t_tenant_id t = tenant_id)
                  && bool_decide (t_end_user_id t = Some end_user_id) in
    let ids := map t_id (List.filter gone (threads (db w))) in
    let kept id := negb (bool_decide (id ∈ ids)) in
    _ ← modify (fun w => with_db
          {| conversations := conversations (db w);
             threads := List.filter (fun t => negb (gone t)) (threads (db w));
             messages := messages (db w);
             parts := List.filter (fun p => kept (p_thread_id p)) (parts (db w));
             events := List.filter (fun e => kept (e_thread_id e)) (events (db w)) |} w);
    _ ← mark [tenant_id];
    mret (Z.of_nat (length ids))).

(** ** Appends *)

Record extra_part := {
  x_part_type : string;
  x_content : option json;
  x_redacted_content : option json;
}.

(** [a or b] on strings. *)
Definition or_else (a : option string) (b : string) : string :=
  match a with Some s => if truthy s then s else b | None => b end.

Definition message_parts (content : string) (redacted_content : option string)
    (extra_parts : list extra_part) : list (string * json * json) :=
  (TEXT_PART_TYPE, JObj [("text", JStr content)],
   JObj [("text", JStr (or_else redacted_content content))])
  :: map (fun x => (x_part_type x, default (JObj []) (x_content x),
                    default (default (JObj []) (x_content x)) (x_redacted_content x))) extra_parts.

(** [for index, part in enumerate(parts): session.add(MessagePartModel(...))] *)
Fixpoint add_parts (tenant_id thread_id message_id : string) (index : Z)
    (l : list (string * json * json)) : store unit :=
  match l with
  | [] => mret tt
  | (ty, c, rc) :: l' =>
      id ← uuid4;
      w ← get_st;
      _ ← insert_part {| p_id := id; p_message_id := message_id; p_thread_id := thread_id;
            p_tenant_id := tenant_id; part_type := ty; part_index := index; p_content := c;
            p_redacted_content := rc; p_created_at := now w |};
      add_parts tenant_id thread_id message_id (index + 1) l'
  end.

Record append_args := {
  a_role : string;
  a_content : string;
  a_redacted_content : option string;
  a_conversation_id : string;
  a_request_id : option string;
  a_parent_message_id : option string;
  a_surface_id : option string;
  a_end_user_id : option string;
  a_metadata : option (list (string * json));
  a_extra_parts : list extra_part;
}.

Definition select_request (tenant_id : string) (request_id : option string) (d : database)
  : list MessageModel :=
  List.filter (fun m => bool_decide (m_tenant_id m = tenant_id)
                        && opt_same (m_request_id m) request_id) (messages d).

(** The write half of [append_message]: everything after the request-id test. *)
Definition append_new (tenant_id thread_id : string) (a : append_args) : store MessageModel :=
  _ ← lock_thread tenant_id thread_id;
  last ← query (_max_message_seq thread_id);
  event_seq ← query (_max_event_seq thread_id);
  id ← uuid4;
  w ← get_st;
  let m := {| m_id := id; m_conversation_id := a_conversation_id a; m_tenant_id := tenant_id;
              m_thread_id := thread_id; m_seq := last + 1; m_request_id := a_request_id a;
              parent_message_id := a_parent_message_id a; m_surface_id := a_surface_id a;
              m_end_user_id := a_end_user_id a; role := a_role a; content := a_content a;
              redacted_content := or_else (a_redacted_content a) (a_content a);
              metadata_json := default [] (a_metadata a); m_created_at := now w |} in
  _ ← insert_message m;
  _ ← add_parts tenant_id thread_id id 0
        (message_parts (a_content a) (a_redacted_content a) (a_extra_parts a));
  _ ← add_event tenant_id thread_id event_seq "message.appended" (a_request_id a)
        [("message_id", JStr id); ("role", JStr (a_role a));
         ("parent_message_id", opt_json (a_parent_message_id a))];
  _ ← mark [tenant_id; thread_id; id];
  mret m.

(** Returns the message and the [deduped] marker. *)
Definition append_message (tenant_id thread_id : string) (a : append_args)
  : store (MessageModel * bool) :=
  get_session (
    existing ← (if truthy_opt (a_request_id a) then
                  found ← query (select_request tenant_id (a_request_id a));
                  scalar_one_or_none found
                else mret None);
    match existing with
    | Some m => mret (m, true)
    | None => m ← append_new tenant_id thread_id a; mret (m, false)
    end).

Definition append_event (tenant_id thread_id : string) (type : string)
    (data : list (string * json)) (request_id : option string) : store ThreadEventModel :=
  get_session (
    _ ← lock_thread tenant_id thread_id;
    last ← query (fun d => default 0 (sql_max (event_seqs thread_id d)));
    e ← add_event tenant_id thread_id (last + 1) type request_id data;
    _ ← mark [tenant_id; thread_id];
    mret e).

(** ** Reads *)

Definition get_message (tenant_id message_id : string) : store (option MessageModel) :=
  get_session (
    found ← query (fun d => List.filter (fun m => bool_decide (m_tenant_id m = tenant_id)
                              && bool_decide (m_id m = message_id)) (messages d));
    scalar_one_or_none found).

Definition after (after_seq : option Z) (m : MessageModel) : bool :=
  match after_seq with Some a => a <? m_seq m | None => true end.

(** A page and [has_more]: one more row than the limit is fetched. *)
Definition messages_page (tenant_id thread_id : string) (after_seq : option Z) (limit : Z)
    (d : database) : list MessageModel * bool :=
  let rows := sql_limit (limit + 1)
                (List.filter (after after_seq) (log tenant_id thread_id d)) in
  (sql_limit limit rows, limit <? Z.of_nat (length rows)).

Definition list_messages (tenant_id thread_id : string) (after_seq : option Z) (limit : Z)
  : store (list MessageModel * bool) :=
  _read_session [tenant_id; thread_id] (messages_page tenant_id thread_id after_seq limit).

Definition tail_page (tenant_id thread_id : string) (from_seq : option Z) (limit : Z)
    (d : database) : list MessageModel :=
  let rows := List.filter (in_thread tenant_id thread_id) (messages d) in
  let rows := match from_seq with
              | Some f => List.filter (fun m => m_seq m <=? f) rows
              | None => rows
              end in
  rev (sql_limit limit (sort_by (fun m m' => m_seq m' <=? m_seq m) rows)).

Definition read_tail (tenant_id thread_id : string) (from_seq : option Z) (limit : Z)
  : store (list MessageModel) :=
  _read_session [tenant_id; thread_id] (tail_page tenant_id thread_id from_seq limit).

(** The join of a thread with its greatest sequence and the lag behind its
    summary, NULL when it has no message or no summary. *)
Definition lag_of (d : database) (t : ThreadModel) : option (Z * Z) :=
  match summary_position t, sql_max (message_seqs (t_id t) d) with
  | Some p, Some latest => Some (latest, latest - p)
  | _, _ => None
  end.

Definition stale_threads (since_seq_delta limit : Z) (d : database) : list (ThreadModel * Z) :=
  let joined := omap (fun t => (fun '(latest, lag) => (t, latest, lag)) <$> lag_of d t) (threads d) in
  let rows := List.filter (fun '(t, _, lag) =>
                bool_decide (t_status t = "active") && negb (archived t)
                && (since_seq_delta <=? lag)) joined in
  map (fun '(t, latest, _) => (t, latest))
    (sql_limit limit (sort_by (fun '(_, _, l1) '(_, _, l2) => l2 <=? l1) rows)).

Definition list_threads_stale_for_compaction (since_seq_delta limit : Z)
  : store (list (ThreadModel * Z)) :=
  get_session (query (stale_threads since_seq_delta limit)).

Definition list_parts (tenant_id message_id : string) : store (list MessagePartModel) :=
  _read_session [tenant_id; message_id] (fun d =>
    sort_by (fun p p' => part_index p <=? part_index p')
      (List.filter (fun p => bool_decide (p_tenant_id p = tenant_id)
                             && bool_decide (p_message_id p = message_id)) (parts d))).

Definition list_events (tenant_id thread_id : string) (after_seq : option Z) (limit : Z)
  : store (list ThreadEventModel) :=
  _read_session [tenant_id; thread_id] (fun d =>
    sql_limit limit (List.filter (fun e => match after_seq with Some a => a <? e_seq e | None => true end)
      (sort_by (fun e e' => e_seq e <=? e_seq e')
        (List.filter (fun e => bool_decide (e_thread_id e = thread_id)
                               && bool_decide (e_tenant_id e = tenant_id)) (events d))))).

Definition list_threads_archivable (tenant_id : string) (older_than_days limit : Z)
  : store (list ThreadModel) :=
  w ← get_st;
  let cutoff := (now w - inject_Z (86400 * older_than_days))%Q in
  _read_session [tenant_id; tenant_id] (fun d =>
    sql_limit limit (sort_by oldest_first
      (List.filter (fun t => bool_decide (t_tenant_id t = tenant_id) && negb (archived t)
                             && (t_created_at t <?q cutoff)) (threads d)))).

(** ** Mutations that append an event *)

Definition update_thread (tenant_id thread_id : string) (f : ThreadModel -> ThreadModel)
  : store unit :=
  modify (fun w => with_db (with_threads
    (map (fun t => if is_thread tenant_id thread_id t then f t else t) (threads (db w))) (db w)) w).

Definition set_summary_fields (block : json) (position version : Z) (at_ : Q) (t : ThreadModel)
  : ThreadModel := {|
  t_id := t_id t; t_tenant_id := t_tenant_id t; t_conversation_id := t_conversation_id t;
  t_surface_id := t_surface_id t; t_end_user_id := t_end_user_id t; t_status := t_status t;
  summary_block := Some block; summary_position := Some position; summary_version := version;
  forked_from := forked_from t; archived := archived t; t_created_at := t_created_at t;
  t_updated_at := at_ |}.

Definition set_archived_field (b : bool) (at_ : Q) (t : ThreadModel) : ThreadModel := {|
  t_id := t_id t; t_tenant_id := t_tenant_id t; t_conversation_id := t_conversation_id t;
  t_surface_id := t_surface_id t; t_end_user_id := t_end_user_id t; t_status := t_status t;
  summary_block := summary_block t; summary_position := summary_position t;
  summary_version := summary_version t; forked_from := forked_from t; archived := b;
  t_created_at := t_created_at t; t_updated_at := at_ |}.

Record summary_result := {
  sr_version : Z;
  sr_position : Z;
  sr_event : ThreadEventModel;
  sr_part : MessagePartModel;
}.

Definition set_summary (tenant_id thread_id : string) (block : json) (position : Z)
    (boundary_message_id : string) (request_id : option string) (degraded : bool)
  : store summary_result :=
  get_session (
    row ← lock_thread tenant_id thread_id;
    let new_version := summary_version row + 1 in
    w ← get_st;
    _ ← update_thread tenant_id thread_id (set_summary_fields block position new_version (now w));
    next ← query (_max_event_seq thread_id);
    e ← add_event tenant_id thread_id (next + 1) "compaction" request_id
          [("summary_version", JNum new_version); ("position", JNum position);
           ("boundary_message_id", JStr boundary_message_id); ("degraded", JBool degraded)];
    last ← query (fun d => default 0 (sql_max (map part_index
              (List.filter (fun p => bool_decide (p_message_id p = boundary_message_id)) (parts d)))));
    id ← uuid4;
    let p := {| p_id := id; p_message_id := boundary_message_id; p_thread_id := thread_id;
                p_tenant_id := tenant_id; part_type := "compaction"; part_index := last + 1;
                p_content := JObj [("summary", default (JObj []) (get_field "payload" block));
                                   ("degraded", JBool degraded)];
                p_redacted_content := JObj [("summary", default (JStr EmptyString) (get_field "content" block));
                                            ("degraded", JBool degraded)];
                p_created_at := now w |} in
    _ ← insert_part p;
    _ ← mark [tenant_id; thread_id];
    mret {| sr_version := new_version; sr_position := position; sr_event := e; sr_part := p |}).

Definition set_archived (tenant_id thread_id : string) (b : bool) (request_id : option string)
  : store ThreadEventModel :=
  get_session (
    _ ← lock_thread tenant_id thread_id;
    w ← get_st;
    _ ← update_thread tenant_id thread_id (set_archived_field b (now w));
    next ← query (_max_event_seq thread_id);
    e ← add_event tenant_id thread_id (next + 1) (if b then "thread.archive" else "thread.restore")
          request_id [("archived", JBool b)];
    _ ← mark [tenant_id; thread_id];
    mret e).

(** *** Tool results *)

Definition json_truthy (j : json) : bool :=
  match j with
  | JNull => false
  | JBool b => b
  | JNum z => negb (z =? 0)
  | JStr s => truthy s
  | JList l => match l with [] => false | _ => true end
  | JObj l => match l with [] => false | _ => true end
  end.

(** [(content or {}).get("cleared")] *)
Definition cleared (p : MessagePartModel) : bool :=
  json_truthy (default JNull (get_field "cleared" (p_content p))).

(** The sequence of the message a part belongs to (the join on [messages.id],
    a primary key). *)
Definition message_of (d : database) (p : MessagePartModel) : option MessageModel :=
  List.find (fun m => bool_decide (m_id m = p_message_id p)) (messages d).

Definition is_tool_result (tenant_id thread_id : string) (p : MessagePartModel) : bool :=
  bool_decide (p_tenant_id p = tenant_id) && bool_decide (p_thread_id p = thread_id)
  && bool_decide (part_type p = TOOL_RESULT_PART_TYPE).

Definition list_tool_result_seqs (tenant_id thread_id : string) : store (list Z) :=
  _read_session [tenant_id; thread_id] (fun d =>
    extend_new [] (omap (fun p => m_seq <$> message_of d p)
      (List.filter (fun p => is_tool_result tenant_id thread_id p && negb (cleared p)) (parts d)))).

Definition eligible (tenant_id thread_id : string) (threshold : Z) (d : database)
    (p : MessagePartModel) : bool :=
  is_tool_result tenant_id thread_id p
  && match message_of d p with Some m => m_seq m <=? threshold | None => false end
  && negb (cleared p).

Definition clear_part (placeholder : string) (p : MessagePartModel) : MessagePartModel :=
  let tool_use_id := default JNull (get_field "tool_use_id" (p_content p)) in {|
  p_id := p_id p; p_message_id := p_message_id p; p_thread_id := p_thread_id p;
  p_tenant_id := p_tenant_id p; part_type := part_type p; part_index := part_index p;
  p_content := JObj [("tool_use_id", tool_use_id); ("cleared", JBool true)];
  p_redacted_content := JObj [("tool_use_id", tool_use_id); ("cleared", JBool true);
                              ("placeholder", JStr placeholder)];
  p_created_at := p_created_at p |}.

(** Assigning the columns of the selected parts. *)
Definition update_parts (sel : MessagePartModel -> bool) (f : MessagePartModel -> MessagePartModel)
  : store unit :=
  modify (fun w => with_db (with_parts
    (map (fun p => if sel p then f p else p) (parts (db w))) (db w)) w).

(** The counts [cleared] and [messages_affected], and the event if one was
    written. *)
Definition clear_tool_results (tenant_id thread_id : string) (keep_recent_turns : Z)
    (placeholder : string) (request_id : option string)
  : store (Z * Z * option ThreadEventModel) :=
  get_session (
    _ ← lock_thread tenant_id thread_id;
    latest ← query (_max_message_seq thread_id);
    d ← query id;
    let el := eligible tenant_id thread_id (latest - keep_recent_turns) d in
    let found := List.filter el (parts d) in
    match found with
    | [] => mret (0, 0, None)
    | _ =>
        let n := Z.of_nat (length found) in
        let affected := Z.of_nat (length (extend_new [] (map p_message_id found))) in
        _ ← update_parts el (clear_part placeholder);
        next ← query (_max_event_seq thread_id);
        e ← add_event tenant_id thread_id (next + 1) "tool_result.clear" request_id
              [("cleared", JNum n); ("messages_affected", JNum affected);
               ("keep_recent_turns", JNum keep_recent_turns)];
        _ ← mark [tenant_id; thread_id];
        mret (n, affected, Some e)
    end).

(** *** Forks *)

Fixpoint copy_parts (tenant_id new_thread_id new_id : string) (l : list MessagePartModel)
  : store unit :=
  match l with
  | [] => mret tt
  | p :: l' =>
      id ← uuid4;
      w ← get_st;
      _ ← insert_part {| p_id := id; p_message_id := new_id; p_thread_id := new_thread_id;
            p_tenant_id := tenant_id; part_type := part_type p; part_index := part_index p;
            p_content := p_content p; p_redacted_content := p_redacted_content p;
            p_created_at := now w |};
      copy_parts tenant_id new_thread_id new_id l'
  end.

(** The copy of one message: a new id, the parent replaced by its copy. *)
Definition forked_message (tenant_id source_thread_id new_thread_id conversation_id new_id : string)
    (at_seq : Z) (id_map : gmap string string) (m : MessageModel) : MessageModel := {|
  m_id := new_id; m_conversation_id := conversation_id; m_tenant_id := tenant_id;
  m_thread_id := new_thread_id; m_seq := m_seq m; m_request_id := None;
  parent_message_id := match parent_message_id m with
                       | Some p => if truthy p then id_map !! p else None
                       | None => None
                       end;
  m_surface_id := m_surface_id m; m_end_user_id := m_end_user_id m; role := role m;
  content := content m; redacted_content := redacted_content m;
  metadata_json := dict_set "forked_at_seq" (JNum at_seq)
                     (dict_set "forked_from" (JStr source_thread_id) (metadata_json m));
  m_created_at := m_created_at m |}.

Fixpoint copy_messages (tenant_id source_thread_id new_thread_id conversation_id : string)
    (at_seq : Z) (id_map : gmap string string) (l : list MessageModel) : store unit :=
  match l with
  | [] => mret tt
  | m :: l' =>
      new_id ← uuid4;
      let id_map := <[m_id m := new_id]> id_map in
      _ ← insert_message (forked_message tenant_id source_thread_id new_thread_id
            conversation_id new_id at_seq id_map m);
      ps ← query (fun d => List.filter (fun p => bool_decide (p_tenant_id p = tenant_id)
                             && bool_decide (p_message_id p = m_id m)) (parts d));
      _ ← copy_parts tenant_id new_thread_id new_id ps;
      copy_messages tenant_id source_thread_id new_thread_id conversation_id at_seq id_map l'
  end.

Definition fork_thread (tenant_id source_thread_id : string) (at_seq : Z)
    (conversation_id : string) (request_id : option string) : store (option ThreadModel) :=
  new_thread_id ← uuid4;
  _ ← get_session (
    source ← lock_thread tenant_id source_thread_id;
    source_messages ← query (fun d =>
      List.filter (fun m => m_seq m <=? at_seq) (log tenant_id source_thread_id d));
    max_seq ← query (_max_message_seq source_thread_id);
    _ ← (if (0 <? at_seq) && match source_messages with [] => true | _ => false end
         then throw (ForkPointOutOfRange at_seq) else mret tt);
    _ ← (if max_seq <? at_seq then throw (ForkPointOutOfRange at_seq) else mret tt);
    w ← get_st;
    _ ← insert_thread {| t_id := new_thread_id; t_tenant_id := tenant_id;
          t_conversation_id := conversation_id; t_surface_id := t_surface_id source;
          t_end_user_id := t_end_user_id source; t_status := "active"; summary_block := None;
          summary_position := None; summary_version := 0; forked_from := None;
          archived := false; t_created_at := now w; t_updated_at := now w |};
    _ ← add_event tenant_id new_thread_id 1 "thread.created" request_id
          [("conversation_id", JStr conversation_id); ("forked_from", JStr source_thread_id)];
    _ ← add_event tenant_id new_thread_id 2 "thread.forked" request_id
          [("source_thread_id", JStr source_thread_id); ("at_seq", JNum at_seq)];
    _ ← copy_messages tenant_id source_thread_id new_thread_id conversation_id at_seq ∅
          source_messages;
    last ← query (fun d => default 0 (sql_max (event_seqs source_thread_id d)));
    _ ← add_event tenant_id source_thread_id (last + 1) "thread.forked" request_id
          [("new_thread_id", JStr new_thread_id); ("at_seq", JNum at_seq)];
    _ ← mark [tenant_id; new_thread_id];
    mark [tenant_id; source_thread_id]);
  get_thread tenant_id new_thread_id.

(** ** Archive *)

Record thread_dump := {
  du_thread : ThreadModel;
  du_messages : list MessageModel;
  du_parts : list MessagePartModel;
  du_events : list ThreadEventModel;
}.

Definition dump_of (tenant_id thread_id : string) (d : database) (t : ThreadModel) : thread_dump := {|
  du_thread := t;
  du_messages := log tenant_id thread_id d;
  du_parts := sort_by (fun p p' => part_index p <=? part_index p')
                (List.filter (fun p => bool_decide (p_thread_id p = thread_id)
                                       && bool_decide (p_tenant_id p = tenant_id)) (parts d));
  du_events := sort_by (fun e e' => e_seq e <=? e_seq e')
                 (List.filter (fun e => bool_decide (e_thread_id e = thread_id)
                                        && bool_decide (e_tenant_id e = tenant_id)) (events d)) |}.

Definition dump_thread (tenant_id thread_id : string) : store (option thread_dump) :=
  _read_session [tenant_id; thread_id] (fun d =>
    match select_thread tenant_id thread_id d with
    | t :: _ => Some (dump_of tenant_id thread_id d t)
    | [] => None
    end).
