(* ===== verification/ThreadLog.v ===== *)
(** * The thread log: invariants and behaviour of the store of Threads.v

    Every call is followed through by one of two devices: [Respects R c],
    solved by instance search, for what a call never does to the tables, and
    the rules of [triple] for the calls that write messages. *)

From S2P Require Import Prelude Json Replicas Threads.

(** ** What a computation does to the world, as a preorder *)

Class Respects {A} (R : world -> world -> Prop) (c : store A) : Prop :=
  respects : forall w, R w (snd (c w)).

(** A relation a rolled back session also satisfies. *)
Class Rollback (R : world -> world -> Prop) : Prop :=
  rollback : forall w w', R w w' -> R w (with_db (db w) w').

(** The random source is only consumed. *)
Definition supply_le (w w' : world) : Prop := uuids w' = uuids w /\ (used w <= used w')%nat.

(** What the log's invariant depends on: the messages and the owner of each
    thread. *)
Definition thread_keys (d : database) : list (string * string) :=
  map (fun t => (t_id t, t_tenant_id t)) (threads d).

Definition same_shape (w w' : world) : Prop :=
  supply_le w w' /\ messages (db w') = messages (db w)
  /\ thread_keys (db w') = thread_keys (db w).

(** No message is changed or removed. *)
Definition appends (w w' : world) : Prop := messages (db w) `prefix_of` messages (db w').

#[export] Instance supply_le_preorder : PreOrder supply_le.
Proof.
  split; [intros w; split; [done|lia]|].
  intros w1 w2 w3 [? ?] [? ?]. split; [congruence|lia].
Qed.
#[export] Instance same_shape_preorder : PreOrder same_shape.
Proof.
  split; [by intros w; split_and!; [reflexivity| |]|]. intros w1 w2 w3 (? & ? & ?) (? & ? & ?).
  split_and!; [by etrans|congruence|congruence].
Qed.
#[export] Instance appends_preorder : PreOrder appends.
Proof. split; [intros w; unfold appends; done|]. intros w1 w2 w3 ? ?. unfold appends in *. by etrans. Qed.

#[export] Instance supply_le_rollback : Rollback supply_le.
Proof. intros w w' H. exact H. Qed.
#[export] Instance same_shape_rollback : Rollback same_shape.
Proof. intros w w' (? & ? & ?). by split_and!. Qed.
#[export] Instance appends_rollback : Rollback appends.
Proof. intros w w' _. unfold appends. done. Qed.

Section respects.
Context (R : world -> world -> Prop) `{!PreOrder R}.

#[export] Instance respects_ret {A} (a : A) : Respects R (mret a : store A).
Proof. intros w. by simpl. Qed.
#[export] Instance respects_throw {A} (e : store_exc) : Respects R (throw e : store A).
Proof. intros w. by simpl. Qed.
#[export] Instance respects_get : Respects R (get_st : store world).
Proof. intros w. by simpl. Qed.
#[export] Instance respects_query {A} (q : database -> A) : Respects R (query q).
Proof. intros w. by simpl. Qed.

#[export] Instance respects_bind {A B} (c : store A) (f : A -> store B) :
  Respects R c -> (forall a, Respects R (f a)) -> Respects R (c ≫= f).
Proof.
  intros Hc Hf w. unfold mbind, io_bind. specialize (Hc w).
  destruct (c w) as [[a|e] w']; [|done]. etrans; [exact Hc|apply Hf].
Qed.

#[export] Instance respects_session {A} (c : store A) :
  Rollback R -> Respects R c -> Respects R (get_session c).
Proof.
  intros Hr Hc w. unfold get_session. specialize (Hc w).
  destruct (c w) as [[a|e] w']; [done|by apply Hr].
Qed.

#[export] Instance respects_scalar {A} (l : list A) : Respects R (scalar_one_or_none l).
Proof. destruct l as [|x [|y l]]; apply _. Qed.

End respects.

(** Follows the structure of a computation down to its primitives. *)
Ltac solve_respects :=
  repeat lazymatch goal with
  | |- Respects _ (mbind _ _) => simple apply respects_bind; [try typeclasses eauto..| |intros ?]
  | |- Respects _ (get_session _) => simple apply respects_session; [try typeclasses eauto..|]
  | |- Respects _ (match ?x with _ => _ end) => destruct x
  | |- Respects _ (lock_thread _ _) => unfold lock_thread
  | |- Respects _ _ => typeclasses eauto
  | |- PreOrder _ => typeclasses eauto
  | |- Rollback _ => typeclasses eauto
  end.

(** The primitives: [same_shape] is the strongest of the three. *)
Lemma respects_weaken {A} (R R' : world -> world -> Prop) (c : store A) :
  (forall w w', R w w' -> R' w w') -> Respects R c -> Respects R' c.
Proof. intros H Hc w. apply H, Hc. Qed.

Lemma same_shape_appends w w' : same_shape w w' -> appends w w'.
Proof. intros (_ & H & _). unfold appends. by rewrite H. Qed.
Lemma same_shape_supply w w' : same_shape w w' -> supply_le w w'.
Proof. by intros (? & _). Qed.

#[export] Instance uuid4_shape : Respects same_shape uuid4.
Proof. intros w. split_and!; [split; simpl; [done|lia]|done|done]. Qed.
#[export] Instance mark_shape keys : Respects same_shape (mark keys).
Proof. intros w. done. Qed.
#[export] Instance insert_event_shape e : Respects same_shape (insert_event e).
Proof. intros w. unfold insert_event. by case_match. Qed.
#[export] Instance insert_part_shape p : Respects same_shape (insert_part p).
Proof. intros w. unfold insert_part. by case_match. Qed.
#[export] Instance update_parts_shape sel f : Respects same_shape (update_parts sel f).
Proof. done. Qed.

#[export] Instance shape_supply {A} (c : store A) : Respects same_shape c -> Respects supply_le c | 20.
Proof. apply respects_weaken, same_shape_supply. Qed.
#[export] Instance shape_appends {A} (c : store A) : Respects same_shape c -> Respects appends c | 20.
Proof. apply respects_weaken, same_shape_appends. Qed.

Lemma thread_keys_update (p : ThreadModel -> bool) f d :
  (forall t, t_id (f t) = t_id t /\ t_tenant_id (f t) = t_tenant_id t) ->
  thread_keys (with_threads (map (fun t => if p t then f t else t) (threads d)) d) = thread_keys d.
Proof.
  intros Hf. unfold thread_keys. cbn [threads with_threads]. rewrite map_map. apply map_ext.
  intros t. destruct (p t); [|done]. by destruct (Hf t) as [-> ->].
Qed.

#[export] Instance update_summary_shape t th b p v q :
  Respects same_shape (update_thread t th (set_summary_fields b p v q)).
Proof. intros w. split_and!; [done|done|]. by apply thread_keys_update. Qed.
#[export] Instance update_archived_shape t th b q :
  Respects same_shape (update_thread t th (set_archived_field b q)).
Proof. intros w. split_and!; [done|done|]. by apply thread_keys_update. Qed.

#[export] Instance lock_thread_shape t th : Respects same_shape (lock_thread t th).
Proof. solve_respects. Qed.
#[export] Instance add_event_shape t th s ty r d : Respects same_shape (add_event t th s ty r d).
Proof. unfold add_event. solve_respects. Qed.
#[export] Instance add_parts_shape t th m i l : Respects same_shape (add_parts t th m i l).
Proof. revert i. induction l as [|[[ty c] rc] l IH]; intros i; simpl; solve_respects. Qed.
#[export] Instance copy_parts_shape t th m l : Respects same_shape (copy_parts t th m l).
Proof. induction l; simpl; solve_respects. Qed.

#[export] Instance insert_thread_supply t : Respects supply_le (insert_thread t).
Proof. intros w. unfold insert_thread. by case_match. Qed.
#[export] Instance insert_message_supply m : Respects supply_le (insert_message m).
Proof. intros w. unfold insert_message. by case_match. Qed.
#[export] Instance insert_thread_appends t : Respects appends (insert_thread t).
Proof. intros w. unfold insert_thread, appends. by case_match. Qed.
#[export] Instance insert_message_appends m : Respects appends (insert_message m).
Proof. intros w. unfold insert_message, appends. case_match; [done|]. by apply prefix_app_r. Qed.
#[export] Instance copy_messages_supply t s n c a im l : Respects supply_le (copy_messages t s n c a im l).
Proof. revert im. induction l; intros im; simpl; solve_respects. Qed.
#[export] Instance copy_messages_appends t s n c a im l : Respects appends (copy_messages t s n c a im l).
Proof. revert im. induction l; intros im; simpl; solve_respects. Qed.

(** *** The calls *)

#[export] Instance get_thread_shape t th : Respects same_shape (get_thread t th).
Proof. unfold get_thread. solve_respects. Qed.
#[export] Instance create_thread_appends t c s e r : Respects appends (create_thread t c s e r).
Proof. unfold create_thread. solve_respects. Qed.
#[export] Instance get_or_create_appends t c s e : Respects appends (get_or_create_for_conversation t c s e).
Proof. unfold get_or_create_for_conversation. solve_respects. Qed.
#[export] Instance delete_appends t e : Respects appends (delete_by_end_user t e).
Proof.
  intros w. unfold appends, delete_by_end_user, get_session, query, get_st, modify, mark, mbind, io_bind.
  done.
Qed.
#[export] Instance append_new_appends t th a : Respects appends (append_new t th a).
Proof. unfold append_new. solve_respects. Qed.
#[export] Instance append_message_appends t th a : Respects appends (append_message t th a).
Proof. unfold append_message. solve_respects. Qed.
#[export] Instance append_event_shape t th ty d r : Respects same_shape (append_event t th ty d r).
Proof. unfold append_event. solve_respects. Qed.
#[export] Instance set_summary_shape t th b p m r dg : Respects same_shape (set_summary t th b p m r dg).
Proof. unfold set_summary. solve_respects. Qed.
#[export] Instance set_archived_shape t th b r : Respects same_shape (set_archived t th b r).
Proof. unfold set_archived. solve_respects. Qed.
#[export] Instance clear_shape t th k p r : Respects same_shape (clear_tool_results t th k p r).
Proof. unfold clear_tool_results. solve_respects. Qed.
#[export] Instance fork_appends t s a c r : Respects appends (fork_thread t s a c r).
Proof. unfold fork_thread. solve_respects. Qed.

(** ** Sequences 1, 2, ..., n *)

Definition upto (n : nat) : list Z := map Z.of_nat (seq 1 n).
Definition contiguous (l : list Z) : Prop := l ≡ₚ upto (length l).

Lemma length_upto n : length (upto n) = n.
Proof. unfold upto. by rewrite length_map, length_seq. Qed.

Lemma elem_of_upto n z : z ∈ upto n <-> 1 <= z <= Z.of_nat n.
Proof.
  unfold upto. rewrite list_elem_of_In, in_map_iff. split.
  - intros (k & <- & Hk%in_seq). lia.
  - intros H. exists (Z.to_nat z). split; [lia|]. apply in_seq. lia.
Qed.

Lemma upto_S n : upto (S n) = upto n ++ [Z.of_nat n + 1].
Proof. unfold upto. rewrite seq_S, map_app. simpl. do 2 f_equal. lia. Qed.

Lemma upto_sorted n : StronglySorted Z.le (upto n).
Proof.
  unfold upto. generalize 1%nat. induction n as [|n IH]; intros k; simpl; [constructor|].
  constructor; [apply IH|]. apply Forall_forall. intros z (j & <- & Hj%in_seq)%list_elem_of_In%in_map_iff.
  lia.
Qed.

Lemma sql_max_spec l z :
  sql_max l = Some z -> z ∈ l /\ Forall (fun x => x <= z) l.
Proof.
  destruct l as [|x l]; [done|]. intros [= <-]. simpl.
  induction l as [|y l [IHm IHa]]; simpl; [split; [apply elem_of_cons; by left|by repeat constructor]|].
  set (m := foldr Z.max x l) in *. apply Forall_cons in IHa as [Hx Ha]. split.
  - destruct (Z.max_spec y m) as [[_ ->]|[_ ->]].
    + apply elem_of_cons in IHm as [->|Hm]; [apply elem_of_cons; by left|].
      by repeat (apply elem_of_cons; right).
    + apply elem_of_cons; right. apply elem_of_cons; by left.
  - repeat constructor; [lia|lia|]. eapply Forall_impl; [exact Ha|]. simpl. lia.
Qed.

Lemma contiguous_max l : contiguous l -> default 0 (sql_max l) = Z.of_nat (length l).
Proof.
  intros Hc. destruct (sql_max l) as [z|] eqn:Ez; [|by destruct l]. simpl.
  apply sql_max_spec in Ez as [Hz Ha].
  assert (Hin : forall y, y ∈ l <-> 1 <= y <= Z.of_nat (length l)).
  { intros y. rewrite <- elem_of_upto. by apply elem_of_Permutation_proper. }
  apply Hin in Hz as Hz'. assert (Hn : Z.of_nat (length l) ∈ l) by (apply Hin; lia).
  clear Hz.
  rewrite Forall_forall in Ha. specialize (Ha _ Hn). simpl in Ha. lia.
Qed.

Lemma contiguous_snoc l : contiguous l -> contiguous (l ++ [Z.of_nat (length l) + 1]).
Proof.
  unfold contiguous. intros Hc. rewrite length_app. cbn [length].
  rewrite Nat.add_1_r, upto_S. by apply Permutation_app.
Qed.

Lemma contiguous_nil : contiguous [].
Proof. constructor. Qed.

(** Sorting a contiguous list gives 1, 2, ..., n. *)
Lemma contiguous_sorted l l' :
  contiguous l -> l' ≡ₚ l -> StronglySorted Z.le l' -> l' = upto (length l).
Proof.
  intros Hc Hp Hs. eapply (StronglySorted_unique Z.le); [done|apply upto_sorted|].
  by rewrite Hp.
Qed.

(** ** The invariant of the log *)

Record log_inv (w : world) : Prop := {
  inv_contiguous : forall th, contiguous (message_seqs th (db w));
  inv_owner : forall m tn, m ∈ messages (db w) ->
    (m_thread_id m, tn) ∈ thread_keys (db w) -> tn = m_tenant_id m;
  inv_keys : NoDup (thread_keys (db w)).*1;
  inv_random : Inj eq eq (uuids w);
  inv_fresh : forall n, (used w <= n)%nat ->
    uuids w n ∉ (thread_keys (db w)).*1 /\ uuids w n ∉ map m_thread_id (messages (db w));
}.

Lemma message_seqs_eq th d d' : messages d' = messages d -> message_seqs th d' = message_seqs th d.
Proof. unfold message_seqs. by intros ->. Qed.

Lemma log_inv_shape w w' : same_shape w w' -> log_inv w -> log_inv w'.
Proof.
  intros ((Hu & Hn) & Hm & Hk) [Hc Ho Hd Hi Hf].
  constructor; rewrite ?Hm, ?Hk, ?Hu; try done.
  - intros th. by rewrite (message_seqs_eq th (db w)).
  - intros n ?. apply Hf. lia.
Qed.

Lemma log_inv_rollback w w' : supply_le w w' -> log_inv w -> log_inv (with_db (db w) w').
Proof. intros Hs. apply log_inv_shape. by split_and!. Qed.

(** The rules: what leaves the shape alone keeps every fact about the shape;
    a session that raises leaves the invariant. *)
Definition stable (P : world -> Prop) : Prop := forall w w', same_shape w w' -> P w -> P w'.

Lemma triple_shape {A} (c : store A) P :
  stable P -> Respects same_shape c -> triple P c (fun _ => P) (fun _ _ => True).
Proof.
  intros Hst Hr w Hw. pose proof (Hr w) as Hs.
  destruct (c w) as [[a|e] w']; [by eapply Hst|done].
Qed.

(** One such computation in front of the rest. *)
Ltac shape_step HP := eapply triple_bind; [apply (triple_shape _ _ HP); solve_respects|]; intros ?.

Definition keeps_inv {A} (c : store A) : Prop :=
  triple log_inv c (fun _ => log_inv) (fun _ => log_inv).

Lemma keeps_inv_shape {A} (c : store A) `{!Respects same_shape c} : keeps_inv c.
Proof.
  intros w Hw. pose proof (respects (R := same_shape) (c := c) w) as Hs.
  destruct (c w) as [[a|e] w']; by eapply log_inv_shape.
Qed.

Lemma keeps_inv_session {A} P (c : store A) :
  Respects supply_le c -> triple P c (fun _ => log_inv) (fun _ _ => True) -> (forall w, P w -> log_inv w) ->
  triple P (get_session c) (fun _ => log_inv) (fun _ => log_inv).
Proof.
  intros Hr Hc HP w Hw. specialize (Hc w Hw). unfold get_session.
  pose proof (Hr w) as Hs.
  destruct (c w) as [[a|e] w']; [done|]. apply log_inv_rollback; [exact Hs|auto].
Qed.

Lemma keeps_inv_bind {A B} (c : store A) (f : A -> store B) :
  keeps_inv c -> (forall a, keeps_inv (f a)) -> keeps_inv (c ≫= f).
Proof. intros Hc Hf. eapply triple_bind; [exact Hc|exact Hf]. Qed.

(** *** Inserting the next message of a thread *)

Definition owned (th tn : string) (w : world) : Prop :=
  log_inv w /\ (th, tn) ∈ thread_keys (db w).

Lemma owned_stable th tn : stable (owned th tn).
Proof.
  intros w w' Hs [Hi Hk]. split; [by eapply log_inv_shape|].
  destruct Hs as (_ & _ & ->). exact Hk.
Qed.

Lemma message_seqs_snoc th m d :
  message_seqs th (with_messages (messages d ++ [m]) d) =
  message_seqs th d ++ (if bool_decide (m_thread_id m = th) then [m_seq m] else []).
Proof.
  unfold message_seqs. cbn [messages with_messages].
  rewrite List.filter_app, map_app. cbn [List.filter]. by case_bool_decide.
Qed.

Lemma triple_insert_message m :
  triple (fun w => owned (m_thread_id m) (m_tenant_id m) w
                   /\ m_seq m = _max_message_seq (m_thread_id m) (db w) + 1)
    (insert_message m)
    (fun _ w => owned (m_thread_id m) (m_tenant_id m) w
                /\ _max_message_seq (m_thread_id m) (db w) = m_seq m)
    (fun _ _ => True).
Proof.
  intros w [[[Hc Ho Hd Hi Hf] Hk] Hs]. unfold insert_message. destruct (_ || _); [done|].
  unfold _max_message_seq in Hs. rewrite contiguous_max in Hs by apply Hc.
  assert (Hc' : forall th, contiguous (message_seqs th (with_messages (messages (db w) ++ [m]) (db w)))).
  { intros th. rewrite message_seqs_snoc. case_bool_decide as Ht; [|by rewrite app_nil_r].
    subst th. rewrite Hs. by apply contiguous_snoc. }
  split; [split; [constructor|done]|].
  - done.
  - cbn [db with_db messages with_messages]. intros m' tn [Hm'| ->%list_elem_of_singleton]%elem_of_app Hk'.
    + by eapply Ho.
    + apply (NoDup_fst_inj _ _ _ _ Hd Hk' Hk).
  - done.
  - done.
  - cbn [db with_db messages with_messages used uuids]. intros n Hn. destruct (Hf n Hn) as [H1 H2].
    split; [exact H1|]. rewrite map_app. intros [?|He%list_elem_of_singleton]%elem_of_app; [done|].
    apply H1. simpl in He. rewrite He. apply list_elem_of_fmap. by exists (m_thread_id m, m_tenant_id m).
  - cbn [db with_db]. unfold _max_message_seq. rewrite contiguous_max by apply Hc'.
    rewrite message_seqs_snoc, bool_decide_true, length_app by done. simpl. lia.
Qed.

(** *** A new thread row *)

Definition unseen (th : string) (w : world) : Prop :=
  log_inv w /\ th ∉ (thread_keys (db w)).*1 /\ th ∉ map m_thread_id (messages (db w))
  /\ forall n, (used w <= n)%nat -> uuids w n <> th.

Lemma unseen_stable th : stable (unseen th).
Proof.
  intros w w' Hs (Hi & Hk & Hm & Hu). pose proof Hs as ((Eu & En) & Em & Ek).
  split_and!; [by eapply log_inv_shape|by rewrite Ek|by rewrite Em|].
  intros n ?. rewrite Eu. apply Hu. lia.
Qed.

Lemma triple_uuid4_unseen :
  triple log_inv uuid4 (fun th => unseen th) (fun _ _ => False).
Proof.
  intros w Hw. unfold uuid4. pose proof Hw as [_ _ _ Hi Hf]. split_and!.
  - eapply log_inv_shape; [|exact Hw]. apply (uuid4_shape w).
  - by apply Hf.
  - by apply Hf.
  - intros n Hn E. apply Hi in E. simpl in Hn. lia.
Qed.

Lemma message_seqs_unseen th d : th ∉ map m_thread_id (messages d) -> message_seqs th d = [].
Proof.
  unfold message_seqs. induction (messages d) as [|m l IH]; [done|].
  cbn [map List.filter]. intros [Hne Hl]%not_elem_of_cons. rewrite bool_decide_false by done.
  by apply IH.
Qed.

Lemma triple_insert_thread t :
  triple (unseen (t_id t)) (insert_thread t)
    (fun _ w => owned (t_id t) (t_tenant_id t) w /\ _max_message_seq (t_id t) (db w) = 0)
    (fun _ _ => True).
Proof.
  intros w ([Hc Ho Hd Hi Hf] & Hk & Hm & Hu). unfold insert_thread. destruct (existsb _ _); [done|].
  assert (Ek : thread_keys (with_threads (threads (db w) ++ [t]) (db w))
               = thread_keys (db w) ++ [(t_id t, t_tenant_id t)]).
  { unfold thread_keys. cbn [threads with_threads]. by rewrite map_app. }
  split; [split; [constructor|]|]; cbn [db with_db messages with_threads uuids used].
  - done.
  - rewrite Ek. intros m tn Hm' [Hk'|[= Et _]%list_elem_of_singleton]%elem_of_app.
    + by eapply Ho.
    + destruct Hm. rewrite <- Et. apply list_elem_of_fmap. by exists m.
  - rewrite Ek, fmap_app. apply NoDup_app. split_and!; [done| |apply NoDup_singleton].
    intros k Hk' Hk''%list_elem_of_singleton. simpl in Hk''. by subst.
  - done.
  - intros n Hn. destruct (Hf n Hn) as [H1 H2]. split; [|done].
    rewrite Ek, fmap_app. intros [?|He%list_elem_of_singleton]%elem_of_app; [done|].
    by apply (Hu n Hn).
  - rewrite Ek. apply elem_of_app. right. by apply list_elem_of_singleton.
  - unfold _max_message_seq. by rewrite message_seqs_unseen.
Qed.

(** *** The calls keep the invariant *)

Lemma is_thread_spec tn th t : is_thread tn th t = true <-> t_tenant_id t = tn /\ t_id t = th.
Proof. unfold is_thread. by rewrite andb_true_iff, !bool_decide_eq_true. Qed.

Lemma select_thread_owned tn th d t l :
  select_thread tn th d = t :: l -> (th, tn) ∈ thread_keys d.
Proof.
  intros Hsel. assert (Ht : In t (select_thread tn th d)) by (rewrite Hsel; by left).
  apply filter_In in Ht as [Ht [<- <-]%is_thread_spec].
  apply list_elem_of_fmap. exists t. split; [done|]. by apply list_elem_of_In.
Qed.

Lemma triple_lock_thread tn th :
  triple log_inv (lock_thread tn th) (fun t w => owned th tn w) (fun _ => log_inv).
Proof.
  intros w Hw. unfold lock_thread, query, mbind, io_bind.
  destruct (select_thread tn th (db w)) as [|t [|t' l]] eqn:E; cbn; [done| |done].
  split; [done|]. by eapply select_thread_owned.
Qed.

Lemma triple_query {A} (q : database -> A) P :
  triple P (query q) (fun a w => P w /\ a = q (db w)) (fun _ _ => True).
Proof. intros w Hw. done. Qed.

Lemma triple_any_error {A} (c : store A) P R X : triple P c R X -> triple P c R (fun _ _ => True).
Proof. intros H. by eapply (triple_conseq c P P R R (fun _ _ => True) X); [exact H|..]. Qed.

Lemma max_stable th n : stable (fun w => _max_message_seq th (db w) = n).
Proof. intros w w' (_ & Hm & _). unfold _max_message_seq. by rewrite (message_seqs_eq th (db w) (db w') Hm). Qed.

Lemma stable_and P Q : stable P -> stable Q -> stable (fun w => P w /\ Q w).
Proof. intros HP HQ w w' Hs [? ?]. split; [by eapply HP|by eapply HQ]. Qed.

Lemma append_new_inv tn th a :
  triple log_inv (append_new tn th a) (fun _ => log_inv) (fun _ _ => True).
Proof.
  unfold append_new.
  eapply triple_bind; [exact (triple_any_error _ _ _ _ (triple_lock_thread tn th))|]. intros t.
  eapply triple_bind; [apply triple_query|]. intros last.
  set (P := fun w => owned th tn w /\ _max_message_seq th (db w) = last).
  assert (HP : stable P) by (apply stable_and; [apply owned_stable|apply max_stable]).
  eapply triple_bind with (R' := fun _ => P).
  { eapply triple_conseq; [apply (triple_shape _ P HP); solve_respects| |done|done].
    intros w [? ->]. by split. }
  intros es. shape_step HP.
  eapply triple_bind with (R' := fun _ => P); [intros w Hw; exact Hw|]. intros w0.
  eapply triple_bind with (R' := fun _ => owned th tn).
  { eapply triple_conseq; [apply triple_insert_message| | |done].
    - intros w [Ho <-]. split; [exact Ho|done].
    - by intros _ w [? _]. }
  intros ?. shape_step (owned_stable th tn).
  shape_step (owned_stable th tn).
  shape_step (owned_stable th tn).
  apply triple_ret. by intros w [? _].
Qed.

#[export] Instance append_new_supply tn th a : Respects supply_le (append_new tn th a).
Proof. unfold append_new. solve_respects. Qed.

Lemma append_message_inv tn th a : keeps_inv (append_message tn th a).
Proof.
  unfold append_message. apply (keeps_inv_session log_inv); [solve_respects| |done].
  eapply triple_bind with (R' := fun _ => log_inv).
  { eapply triple_any_error, keeps_inv_shape. solve_respects. }
  intros [m|]; [by apply triple_ret|].
  eapply triple_bind; [apply append_new_inv|]. intros m. by apply triple_ret.
Qed.

Lemma create_thread_inv tn c s e r : keeps_inv (create_thread tn c s e r).
Proof.
  unfold create_thread, keeps_inv.
  eapply triple_bind with (R' := fun th => unseen th).
  { eapply triple_conseq; [apply triple_uuid4_unseen|done|done|done]. }
  intros th. eapply triple_bind with (R' := fun _ => log_inv).
  2:{ intros ?. apply keeps_inv_shape, _. }
  apply keeps_inv_session; [solve_respects| |by intros w [? _]].
  eapply triple_bind with (R' := fun _ => unseen th); [intros w Hw; exact Hw|]. intros w0.
  eapply triple_bind with (R' := fun _ => owned th tn).
  { eapply triple_conseq; [apply triple_insert_thread|done|by intros ? w [? _]|done]. }
  intros ?. shape_step (owned_stable th tn).
  eapply triple_conseq; [apply (triple_shape _ _ (owned_stable th tn)); solve_respects|done|by intros ? w [? _]|done].
Qed.

Lemma get_or_create_inv tn c s e : keeps_inv (get_or_create_for_conversation tn c s e).
Proof.
  apply keeps_inv_bind; [apply keeps_inv_shape; solve_respects|].
  intros [t|]; [by apply triple_ret|apply create_thread_inv].
Qed.

Lemma thread_keys_filter f d :
  thread_keys (with_threads (List.filter f (threads d)) d) `sublist_of` thread_keys d.
Proof.
  unfold thread_keys. cbn [threads with_threads]. induction (threads d) as [|t l IH]; [done|].
  cbn [List.filter map]. destruct (f t); [by apply sublist_skip|by apply sublist_cons].
Qed.

Lemma delete_inv tn e : keeps_inv (delete_by_end_user tn e).
Proof.
  intros w [Hc Ho Hd Hi Hf]. unfold delete_by_end_user.
  set (gone := fun t : ThreadModel => bool_decide (t_tenant_id t = tn) && bool_decide (t_end_user_id t = Some e)).
  cbn. fold gone.
  pose proof (thread_keys_filter (fun t => negb (gone t)) (db w)) as Hs.
  pose proof (fmap_sublist fst _ _ Hs) as Hs'.
  constructor; cbn [db with_db messages uuids used]; try done.
  - intros m tn' Hm Hk. apply (Ho m); [done|]. by eapply elem_of_sublist.
  - by eapply sublist_NoDup.
  - intros n Hn. destruct (Hf n Hn) as [H1 H2]. split; [|done].
    intros Hin. apply H1. by eapply elem_of_sublist.
Qed.

(** *** Forks *)

Lemma filter_owner tn th w :
  owned th tn w ->
  List.filter (in_thread tn th) (messages (db w))
  = List.filter (fun m => bool_decide (m_thread_id m = th)) (messages (db w)).
Proof.
  intros [[_ Ho _ _ _] Hk]. apply filter_ext_in. intros m Hm. unfold in_thread.
  case_bool_decide as Ht; [|done]. apply bool_decide_true. subst th. symmetry.
  apply (Ho m); [by apply list_elem_of_In|done].
Qed.

Lemma map_sorted_seq l :
  StronglySorted (fun m m' => by_seq m m' = true) l -> StronglySorted Z.le (map m_seq l).
Proof.
  induction 1 as [|m l Hs IH Hm]; simpl; constructor; [done|].
  apply Forall_map. eapply Forall_impl; [exact Hm|]. intros m' H. by apply Z.leb_le.
Qed.

(** The log of a thread reads 1, 2, ..., n. *)
Lemma log_seqs tn th w :
  owned th tn w -> map m_seq (log tn th (db w)) = upto (length (message_seqs th (db w))).
Proof.
  intros Hw. pose proof Hw as [[Hc _ _ _ _] _]. apply contiguous_sorted; [by apply Hc| |].
  - unfold log. rewrite filter_owner by done. unfold message_seqs.
    apply Permutation_map, sort_by_perm.
  - apply map_sorted_seq, sort_by_sorted; unfold by_seq.
    + intros m m'. rewrite !Z.leb_le. lia.
    + intros m m' m''. rewrite !Z.leb_le. lia.
Qed.

Lemma length_log tn th w :
  owned th tn w -> length (log tn th (db w)) = length (message_seqs th (db w)).
Proof. intros Hw. rewrite <- (length_map m_seq), log_seqs by done. apply length_upto. Qed.

Lemma filter_upto at_ n :
  List.filter (fun z => z <=? at_) (upto n) = upto (Nat.min (Z.to_nat at_) n).
Proof.
  induction n as [|n IH]; [by rewrite Nat.min_0_r|].
  rewrite upto_S, List.filter_app, IH. cbn [List.filter].
  destruct (Z.of_nat n + 1 <=? at_) eqn:E; to_prop.
  - replace (Nat.min (Z.to_nat at_) (S n)) with (S n) by lia.
    replace (Nat.min (Z.to_nat at_) n) with n by lia. by rewrite upto_S.
  - replace (Nat.min (Z.to_nat at_) (S n)) with (Nat.min (Z.to_nat at_) n) by lia.
    by rewrite app_nil_r.
Qed.

Lemma map_filter_seq (p : Z -> bool) l :
  map m_seq (List.filter (fun m => p (m_seq m)) l) = List.filter p (map m_seq l).
Proof. induction l as [|m l IH]; simpl; [done|]. destruct (p (m_seq m)); simpl; by rewrite IH. Qed.

Lemma fork_source_seqs tn th at_ w :
  owned th tn w ->
  map m_seq (List.filter (fun m => m_seq m <=? at_) (log tn th (db w)))
  = upto (Nat.min (Z.to_nat at_) (length (message_seqs th (db w)))).
Proof. intros Hw. by rewrite (map_filter_seq (fun z => z <=? at_)), log_seqs, filter_upto. Qed.

(** Messages whose sequence numbers run on from [k]. *)
Fixpoint runs_from (k : Z) (l : list MessageModel) : Prop :=
  match l with
  | [] => True
  | m :: l' => m_seq m = k + 1 /\ runs_from (k + 1) l'
  end.

Lemma runs_from_upto l n : map m_seq l = upto n -> runs_from 0 l.
Proof.
  unfold upto. change 0 with (Z.of_nat 0). generalize 0%nat at 1 2. revert n.
  induction l as [|m l IH]; intros [|n] k; simpl; try done.
  intros [= Hm Hl]. split; [lia|].
  replace (Z.of_nat k + 1) with (Z.of_nat (S k)) by lia. by eapply IH.
Qed.

Lemma copy_messages_inv tn src new conv at_ im l k :
  runs_from k l ->
  triple (fun w => owned new tn w /\ _max_message_seq new (db w) = k)
    (copy_messages tn src new conv at_ im l)
    (fun _ => owned new tn) (fun _ _ => True).
Proof.
  revert im k. induction l as [|m l IH]; intros im k Hl.
  { apply triple_ret. by intros w [? _]. }
  destruct Hl as [Hm Hl]. cbn [copy_messages].
  set (P := fun w => owned new tn w /\ _max_message_seq new (db w) = k).
  assert (HP : forall j, stable (fun w => owned new tn w /\ _max_message_seq new (db w) = j))
    by (intros j; apply stable_and; [apply owned_stable|apply max_stable]).
  shape_step (HP k).
  eapply triple_bind with
    (R' := fun _ w => owned new tn w /\ _max_message_seq new (db w) = k + 1).
  { eapply triple_conseq; [apply triple_insert_message| | |done].
    - intros w [Ho Hk]. split; [exact Ho|]. simpl. lia.
    - intros ? w [Ho Hk]. split; [exact Ho|]. simpl in Hk. lia. }
  intros ?. shape_step (HP (k + 1)).
  shape_step (HP (k + 1)).
  by apply IH.
Qed.

Lemma fork_inv tn src at_ conv r : keeps_inv (fork_thread tn src at_ conv r).
Proof.
  unfold fork_thread, keeps_inv.
  eapply triple_bind with (R' := fun th => unseen th).
  { eapply triple_conseq; [apply triple_uuid4_unseen|done|done|done]. }
  intros new. eapply triple_bind with (R' := fun _ => log_inv).
  2:{ intros ?. apply keeps_inv_shape, _. }
  apply keeps_inv_session; [solve_respects| |by intros w [? _]].
  set (P := fun w => unseen new w /\ owned src tn w).
  assert (HP : stable P) by (apply stable_and; [apply unseen_stable|apply owned_stable]).
  eapply triple_bind with (R' := fun _ => P).
  { intros w Hw. pose proof (triple_lock_thread tn src w (proj1 Hw)) as Hl.
    pose proof (respects (R := same_shape) (c := lock_thread tn src) w) as Hs.
    destruct (lock_thread tn src w) as [[t|e] w']; [|done].
    split; [by eapply unseen_stable|done]. }
  intros source.
  eapply triple_bind with (R' := fun ms w => P w /\ exists n, map m_seq ms = upto n).
  { intros w Hw. simpl. split; [exact Hw|]. eexists. by apply fork_source_seqs, Hw. }
  intros ms. set (Q := fun w => P w /\ exists n, map m_seq ms = upto n).
  assert (HQ : stable Q) by (apply stable_and; [exact HP|by intros ? ?]).
  do 3 shape_step HQ.
  eapply triple_bind with (R' := fun _ => Q); [intros w Hw; exact Hw|]. intros w0.
  set (N := fun w => owned new tn w /\ _max_message_seq new (db w) = 0).
  assert (HN : stable N) by (apply stable_and; [apply owned_stable|apply max_stable]).
  set (N' := fun w => N w /\ exists n, map m_seq ms = upto n).
  assert (HN' : stable N') by (apply stable_and; [exact HN|by intros ? ?]).
  eapply triple_bind with (R' := fun _ => N').
  { intros w [[Hw _] Hn]. match goal with |- match insert_thread ?t w with _ => _ end =>
      pose proof (triple_insert_thread t w Hw) as Ht'; destruct (insert_thread t w) as [[[]|e] w'] end;
      [by split|done]. }
  intros ?. do 2 shape_step HN'.
  eapply triple_bind with (R' := fun _ => owned new tn).
  { intros w [Hw [n Hn]]. eapply copy_messages_inv; [by eapply runs_from_upto|exact Hw]. }
  intros ?. do 3 shape_step (owned_stable new tn).
  eapply triple_conseq; [apply (triple_shape _ _ (owned_stable new tn)); solve_respects|done|by intros ? w [? _]|done].
Qed.
