(* ===== verification/ThreadProps.v ===== *)
(** * What the thread store promises

    The theorems about the calls of Threads.v over any history of calls:
    contiguous append-only logs, request deduplication, forks, pagination,
    the reclaiming of tool results and the replica window. *)

From S2P Require Import Prelude Json Replicas Threads ThreadLog.

(** ** Histories *)

Inductive step (w : world) : world -> Prop :=
| step_create tn c s e r : step w (snd (create_thread tn c s e r w))
| step_get_or_create tn c s e : step w (snd (get_or_create_for_conversation tn c s e w))
| step_delete tn e : step w (snd (delete_by_end_user tn e w))
| step_append tn th a : step w (snd (append_message tn th a w))
| step_event tn th ty d r : step w (snd (append_event tn th ty d r w))
| step_summary tn th b p m r dg : step w (snd (set_summary tn th b p m r dg w))
| step_archived tn th b r : step w (snd (set_archived tn th b r w))
| step_clear tn th k p r : step w (snd (clear_tool_results tn th k p r w))
| step_fork tn th at_ c r : step w (snd (fork_thread tn th at_ c r w))
| step_read {A} keys (q : database -> A) : step w (snd (_read_session keys q w))
(** The rest of the process: other users of the random source, the clock, the
    replicas, the conversations table. *)
| step_env n q rs cs : (used w <= n)%nat ->
    step w {| db := {| conversations := cs; threads := threads (db w); messages := messages (db w);
                       parts := parts (db w); events := events (db w) |};
              replica_dbs := rs; router := router w; uuids := uuids w; used := n; now := q |}.

(** The empty store. *)
Definition initial (random : nat -> string) (convs : list string) (r : ReplicaRouter) : world := {|
  db := {| conversations := convs; threads := []; messages := []; parts := []; events := [] |};
  replica_dbs := []; router := r; uuids := random; used := 0; now := 0 |}.

Definition reachable (random : nat -> string) (convs : list string) (r : ReplicaRouter)
  : world -> Prop := rtc step (initial random convs r).

#[export] Instance read_session_shape {A} keys (q : database -> A) :
  Respects same_shape (_read_session keys q).
Proof. intros w. unfold _read_session. by destruct (get_read_session _ _ _ _) as [[?|?] ?]. Qed.

Lemma keeps_inv_snd {A} (c : store A) w : keeps_inv c -> log_inv w -> log_inv (snd (c w)).
Proof. intros Hc Hw. specialize (Hc w Hw). by destruct (c w) as [[?|?] ?]. Qed.

Lemma step_inv w w' : step w w' -> log_inv w -> log_inv w'.
Proof.
  intros [].
  - apply keeps_inv_snd, create_thread_inv.
  - apply keeps_inv_snd, get_or_create_inv.
  - apply keeps_inv_snd, delete_inv.
  - apply keeps_inv_snd, append_message_inv.
  - apply keeps_inv_snd, keeps_inv_shape, append_event_shape.
  - apply keeps_inv_snd, keeps_inv_shape, set_summary_shape.
  - apply keeps_inv_snd, keeps_inv_shape, set_archived_shape.
  - apply keeps_inv_snd, keeps_inv_shape, clear_shape.
  - apply keeps_inv_snd, fork_inv.
  - apply keeps_inv_snd, keeps_inv_shape, read_session_shape.
  - by apply log_inv_shape.
Qed.

Lemma step_appends w w' : step w w' -> appends w w'.
Proof.
  intros [].
  - apply create_thread_appends.
  - apply get_or_create_appends.
  - apply delete_appends.
  - apply append_message_appends.
  - apply same_shape_appends, append_event_shape.
  - apply same_shape_appends, set_summary_shape.
  - apply same_shape_appends, set_archived_shape.
  - apply same_shape_appends, clear_shape.
  - apply fork_appends.
  - apply same_shape_appends, read_session_shape.
  - unfold appends. done.
Qed.

Lemma initial_inv random convs r : Inj eq eq random -> log_inv (initial random convs r).
Proof.
  intros Hi. constructor.
  - intros th. constructor.
  - intros m tn Hm. by apply not_elem_of_nil in Hm.
  - constructor.
  - exact Hi.
  - intros n _. split; apply not_elem_of_nil.
Qed.

Lemma reachable_inv random convs r w : Inj eq eq random -> reachable random convs r w -> log_inv w.
Proof.
  intros Hi Hr. assert (H := initial_inv random convs r Hi). unfold reachable in Hr.
  induction Hr as [|w1 w2 w3 Hs _ IH]; [done|]. apply IH. by eapply step_inv.
Qed.

Lemma steps_inv w w' : rtc step w w' -> log_inv w -> log_inv w'.
Proof. induction 1; [done|]. intros. apply IHrtc. by eapply step_inv. Qed.

Lemma steps_appends w w' : rtc step w w' -> appends w w'.
Proof. induction 1 as [|w1 w2 w3 Hs _ IH]; [by unfold appends|]. etrans; [by apply step_appends|done]. Qed.

(** ** Logs as lists *)

Lemma log_lookup tn th w i m :
  owned th tn w -> log tn th (db w) !! i = Some m -> m_seq m = Z.of_nat i + 1.
Proof.
  intros Hw Hm. pose proof (log_seqs tn th w Hw) as Hl.
  assert (Hi : map m_seq (log tn th (db w)) !! i = Some (m_seq m)).
  { change (map m_seq ?l) with (m_seq <$> l). by rewrite list_lookup_fmap, Hm. }
  rewrite Hl in Hi. unfold upto in Hi. change (map Z.of_nat ?l) with (Z.of_nat <$> l) in Hi.
  rewrite list_lookup_fmap in Hi. apply fmap_Some in Hi as (k & Hk & ->).
  apply lookup_seq in Hk as [-> _]. lia.
Qed.

Lemma elem_of_log tn th d m :
  m ∈ log tn th d <-> m ∈ messages d /\ m_thread_id m = th /\ m_tenant_id m = tn.
Proof.
  unfold log. rewrite elem_of_sort_by, list_elem_of_In, filter_In, <- list_elem_of_In.
  unfold in_thread. by rewrite andb_true_iff, !bool_decide_eq_true.
Qed.

Lemma log_prefix tn th w w' :
  owned th tn w -> owned th tn w' -> appends w w' ->
  log tn th (db w) `prefix_of` log tn th (db w').
Proof.
  intros Hw Hw' Ha.
  assert (Hin : forall i m, log tn th (db w) !! i = Some m -> log tn th (db w') !! i = Some m).
  { intros i m Hm. pose proof (log_lookup _ _ _ _ _ Hw Hm) as Hs.
    assert (Hm' : m ∈ log tn th (db w')).
    { apply list_elem_of_lookup_2, elem_of_log in Hm as (Hm & Ht). apply elem_of_log.
      split; [|done]. destruct Ha as [k ->]. apply elem_of_app. by left. }
    apply list_elem_of_lookup_1 in Hm' as [j Hj].
    pose proof (log_lookup _ _ _ _ _ Hw' Hj). by replace i with j by lia. }
  generalize dependent (log tn th (db w')). generalize (log tn th (db w)).
  clear. intros l. induction l as [|m l IH]; intros l' Hin; [apply prefix_nil|].
  destruct l' as [|m' l']; [by specialize (Hin 0%nat m eq_refl)|].
  pose proof (Hin 0%nat m eq_refl) as [= ->]. apply prefix_cons, IH.
  intros i x Hx. exact (Hin (S i) x Hx).
Qed.

(** ** Inverting a computation that returned *)

Lemma bind_ret {A B} (c : store A) (f : A -> store B) w b w' :
  (c ≫= f) w = (Ret b, w') -> exists a w1, c w = (Ret a, w1) /\ f a w1 = (Ret b, w').
Proof. unfold mbind, io_bind. destruct (c w) as [[a|e] w1]; [|done]. by exists a, w1. Qed.

Lemma session_ret {A} (c : store A) w a w' : get_session c w = (Ret a, w') -> c w = (Ret a, w').
Proof. unfold get_session. by destruct (c w) as [[?|?] ?]. Qed.

Lemma session_raise {A} (c : store A) w e w' : get_session c w = (Raise e, w') -> db w' = db w.
Proof. unfold get_session. destruct (c w) as [[?|?] ?]; [done|]. by intros [= _ <-]. Qed.

(** [w'] differs from [w] by the tables and the consumed random source. *)
Definition wrote (d : database) (w w' : world) : Prop :=
  db w' = d /\ router w' = router w /\ replica_dbs w' = replica_dbs w /\ now w' = now w.

Lemma uuid4_ret w id w' : uuid4 w = (Ret id, w') -> wrote (db w) w w'.
Proof. by intros [= _ <-]. Qed.

Lemma lock_ret tn th w t w' :
  lock_thread tn th w = (Ret t, w') -> w' = w /\ (th, tn) ∈ thread_keys (db w)
  /\ select_thread tn th (db w) = [t].
Proof.
  intros H. unfold lock_thread, query, mbind, io_bind in H.
  destruct (select_thread tn th (db w)) as [|t' [|? ?]] eqn:E; cbn in H; simplify_eq.
  injection H as -> ->. split_and!; [done| |done]. by eapply select_thread_owned.
Qed.

Lemma insert_message_ret m w u w' :
  insert_message m w = (Ret u, w') -> wrote (with_messages (messages (db w) ++ [m]) (db w)) w w'.
Proof. unfold insert_message. destruct (_ || _); [done|]. by intros [= _ <-]. Qed.

Lemma insert_event_ret e w u w' :
  insert_event e w = (Ret u, w') -> wrote (with_events (events (db w) ++ [e]) (db w)) w w'.
Proof. unfold insert_event. destruct (_ || _); [done|]. by intros [= _ <-]. Qed.

Lemma insert_part_ret p w u w' :
  insert_part p w = (Ret u, w') -> wrote (with_parts (parts (db w) ++ [p]) (db w)) w w'.
Proof. unfold insert_part. destruct (_ || _); [done|]. by intros [= _ <-]. Qed.

Lemma wrote_trans d d' w w1 w2 : wrote d w w1 -> wrote d' w1 w2 -> wrote d' w w2.
Proof. intros (? & ? & ? & ?) (? & ? & ? & ?). split_and!; congruence. Qed.

Lemma add_event_ret tn th s ty r data w e w' :
  add_event tn th s ty r data w = (Ret e, w') ->
  wrote (with_events (events (db w) ++ [e]) (db w)) w w'
  /\ e_seq e = s /\ e_thread_id e = th /\ e_tenant_id e = tn /\ event_type e = ty /\ payload e = data.
Proof.
  intros H. unfold add_event in H. apply bind_ret in H as (id & w1 & Hu%uuid4_ret & H).
  apply bind_ret in H as (w1' & ? & [= <- <-] & H).
  apply bind_ret in H as ([] & w2 & Hi%insert_event_ret & [= <- <-]).
  split; [|done]. pose proof (wrote_trans _ _ _ _ _ Hu Hi) as Hw. by destruct Hu as (<- & _).
Qed.

(** The parts of a message, numbered from [index]. *)
Definition part_row (p : MessagePartModel) : Z * (string * json * json) :=
  (part_index p, (part_type p, p_content p, p_redacted_content p)).

Fixpoint numbered {A} (index : Z) (l : list A) : list (Z * A) :=
  match l with [] => [] | x :: l' => (index, x) :: numbered (index + 1) l' end.

Lemma add_parts_ret tn th m i l w u w' :
  add_parts tn th m i l w = (Ret u, w') ->
  exists ps, wrote (with_parts (parts (db w) ++ ps) (db w)) w w'
    /\ map part_row ps = numbered i l
    /\ Forall (fun p => p_message_id p = m /\ p_thread_id p = th /\ p_tenant_id p = tn) ps.
Proof.
  revert i w. induction l as [|[[ty c] rc] l IH]; intros i w H; cbn [add_parts] in H.
  - exists []. injection H as <- <-. split_and!; [|done|done].
    rewrite app_nil_r. destruct w as [[]]. done.
  - apply bind_ret in H as (id & w1 & Hu%uuid4_ret & H).
    apply bind_ret in H as (w1' & ? & [= <- <-] & H).
    apply bind_ret in H as ([] & w2 & Hi%insert_part_ret & H).
    apply IH in H as (ps & Hw & Hps & Ha).
    set (p := Build_MessagePartModel _ _ _ _ _ _ _ _ _) in Hi.
    pose proof (wrote_trans _ _ _ _ _ Hu Hi) as Hi'. destruct Hu as (Ed & _).
    exists (p :: ps). split_and!.
    + eapply wrote_trans; [exact Hi'|]. destruct Hi' as (Ed2 & _). rewrite Ed2, Ed in Hw.
      cbn [parts with_parts] in Hw. by rewrite <- app_assoc in Hw.
    + simpl. by f_equal.
    + by constructor.
Qed.

Lemma append_new_ret tn th a w m w' :
  append_new tn th a w = (Ret m, w') ->
  (th, tn) ∈ thread_keys (db w)
  /\ m_thread_id m = th /\ m_tenant_id m = tn
  /\ m_seq m = _max_message_seq th (db w) + 1
  /\ role m = a_role a /\ content m = a_content a /\ m_request_id m = a_request_id a
  /\ parent_message_id m = a_parent_message_id a
  /\ exists ps e,
       db w' = with_events (events (db w) ++ [e])
                 (with_parts (parts (db w) ++ ps) (with_messages (messages (db w) ++ [m]) (db w)))
       /\ map part_row ps = numbered 0 (message_parts (a_content a) (a_redacted_content a) (a_extra_parts a))
       /\ Forall (fun p => p_message_id p = m_id m) ps
       /\ e_thread_id e = th /\ e_seq e = _max_event_seq th (db w)
       /\ router w' = mark_write (now w) [tn; th; m_id m] (router w) /\ now w' = now w.
Proof.
  intros H. unfold append_new in H.
  apply bind_ret in H as (t & w1 & (-> & Hk & _)%lock_ret & H).
  apply bind_ret in H as (last & ? & [= <- <-] & H).
  apply bind_ret in H as (es & ? & [= <- <-] & H).
  apply bind_ret in H as (id & w1 & Hu%uuid4_ret & H).
  apply bind_ret in H as (w1' & ? & [= <- <-] & H).
  apply bind_ret in H as ([] & w2 & Hi%insert_message_ret & H).
  set (row := Build_MessageModel _ _ _ _ _ _ _ _ _ _ _ _ _ _) in H, Hi.
  apply bind_ret in H as ([] & w3 & (ps & Hp & Hrows & Hown)%add_parts_ret & H).
  apply bind_ret in H as (e & w4 & (He & Hes & Het & _)%add_event_ret & H).
  apply bind_ret in H as ([] & w5 & [= <-] & [= <- <-]).
  destruct Hu as (Du & Ru & _ & Nu), Hi as (Di & Ri & _ & Ni), Hp as (Dp & Rp & _ & Np),
    He as (De & Re & _ & Ne).
  split_and!; try done. exists ps, e.
  cbn [db with_router router now]. rewrite De, Dp, Di, Du, Ne, Np, Ni, Nu, Re, Rp, Ri, Ru.
  split_and!; try done. eapply Forall_impl; [exact Hown|]. by intros p [? _].
Qed.

(** ** Properties of the log *)

(** C16: Whatever calls were made on an initially empty store, in any order
    and however each of them ended, the log of a thread holds every message
    of that thread, all of them its owner's, and reads 1, 2, ..., n in
    sequence: no number is skipped or used twice, whether the messages were
    appended or copied by a fork. *)
Theorem thread_log_contiguous (random : nat -> string) (convs : list string) (r : ReplicaRouter)
    (w : world) (tn th : string) :
  Inj eq eq random -> reachable random convs r w -> (th, tn) ∈ thread_keys (db w) ->
  let l := log tn th (db w) in
  l ≡ₚ List.filter (fun m => bool_decide (m_thread_id m = th)) (messages (db w))
  /\ map m_seq l = upto (length l).
Proof.
  intros Hi Hr Hk. assert (Hw : owned th tn w) by (split; [by eapply reachable_inv|done]).
  cbn zeta. split.
  - unfold log. rewrite sort_by_perm. by rewrite (filter_owner tn th w).
  - by rewrite (length_log tn th w), (log_seqs tn th w).
Qed.

(** C17: What was once in a thread's log stays there unchanged, at the same
    place, through every later call: the log of a thread that still exists is
    an extension of what it was. *)
Theorem thread_log_append_only (random : nat -> string) (convs : list string) (r : ReplicaRouter)
    (w w' : world) (tn th : string) :
  Inj eq eq random -> reachable random convs r w -> rtc step w w' ->
  (th, tn) ∈ thread_keys (db w) -> (th, tn) ∈ thread_keys (db w') ->
  log tn th (db w) `prefix_of` log tn th (db w').
Proof.
  intros Hi Hr Hs Hk Hk'. assert (Hw : log_inv w) by by eapply reachable_inv.
  apply log_prefix; [by split|split; [by eapply steps_inv|done]|by apply steps_appends].
Qed.

Lemma log_other tn th th' m d ps e :
  m_thread_id m = th -> th' <> th ->
  log tn th' (with_events (events d ++ [e]) (with_parts (parts d ++ ps) (with_messages (messages d ++ [m]) d)))
  = log tn th' d.
Proof.
  intros Hm Hne. unfold log. cbn [messages with_events with_parts with_messages].
  rewrite List.filter_app. cbn [List.filter]. 
  assert (Hf : in_thread tn th' m = false).
  { unfold in_thread. by rewrite bool_decide_false by congruence. }
  by rewrite Hf, app_nil_r.
Qed.

Lemma log_snoc tn th m w d' :
  owned th tn w -> messages d' = messages (db w) ++ [m] ->
  m_thread_id m = th -> m_tenant_id m = tn -> m_seq m = _max_message_seq th (db w) + 1 ->
  log tn th d' = log tn th (db w) ++ [m].
Proof.
  intros Hw Hd Ht Hn Hm. unfold log. rewrite Hd, List.filter_app. cbn [List.filter].
  assert (Hin : in_thread tn th m = true).
  { unfold in_thread. by rewrite !bool_decide_true by done. }
  rewrite Hin. apply sort_by_snoc. apply Forall_forall. intros x Hx. unfold by_seq. apply Z.leb_le.
  rewrite <- (elem_of_sort_by by_seq) in Hx.
  apply list_elem_of_lookup_1 in Hx as [i Hi].
  pose proof (log_lookup _ _ _ _ _ Hw Hi) as Hxs. apply lookup_lt_Some in Hi.
  pose proof (length_log tn th w Hw) as Hlen. unfold log in Hlen.
  rewrite Hm. unfold _max_message_seq. rewrite contiguous_max by apply Hw. lia.
Qed.

Lemma append_message_new tn th a w m w' :
  append_message tn th a w = (Ret (m, false), w') ->
  append_new tn th a w = (Ret m, w').
Proof.
  intros H%session_ret. apply bind_ret in H as (o & w1 & He & H).
  assert (w1 = w) as ->.
  { destruct (truthy_opt _); [|by injection He as _ <-].
    apply bind_ret in He as (l & ? & [= <- <-] & He).
    by destruct (select_request _ _ _) as [|? [|? ?]]; injection He as _ <-. }
  destruct o as [m0|]; [by inversion H|].
  apply bind_ret in H as (m0 & w1 & H & [= <- <-]). done.
Qed.

Lemma append_message_new_spec tn th a w m w' :
  log_inv w -> append_message tn th a w = (Ret (m, false), w') ->
  log tn th (db w') = log tn th (db w) ++ [m]
  /\ m_seq m = Z.of_nat (length (log tn th (db w))) + 1
  /\ role m = a_role a /\ content m = a_content a /\ m_request_id m = a_request_id a
  /\ (forall tn' th', th' <> th -> log tn' th' (db w') = log tn' th' (db w))
  /\ threads (db w') = threads (db w)
  /\ (exists ps, parts (db w') = parts (db w) ++ ps
        /\ map part_row ps =
           numbered 0 (message_parts (a_content a) (a_redacted_content a) (a_extra_parts a))
        /\ Forall (fun p => p_message_id p = m_id m) ps)
  /\ exists e, events (db w') = events (db w) ++ [e] /\ e_thread_id e = th
               /\ e_seq e = default 0 (sql_max (event_seqs th (db w))) + 1.
Proof.
  intros Hi E. apply append_message_new, append_new_ret in E
    as (Hk & Ht & Hn & Hs & Hr & Hc & Hq & _ & ps & e & Hd & Hp & Ha & He1 & He2 & _).
  assert (Hw : owned th tn w) by by split.
  rewrite Hd. split_and!; try done.
  - by apply (log_snoc _ _ _ w).
  - rewrite Hs, (length_log tn th w) by done. unfold _max_message_seq.
    by rewrite contiguous_max by apply Hi.
  - intros tn' th' Hne. by apply (log_other _ th).
  - by exists ps.
  - by exists e.
Qed.

(** C18: An append that was not a duplicate adds exactly one message, at the
    end of its thread's log with the next number, with the text part first
    and the extra parts numbered after it, and one event; every other log is
    left as it is.  An append that raises changes no table. *)
Theorem append_message_spec (tn th : string) (a : append_args) (w : world) :
  log_inv w ->
  match append_message tn th a w with
  | (Ret (m, false), w') =>
      log tn th (db w') = log tn th (db w) ++ [m]
      /\ m_seq m = Z.of_nat (length (log tn th (db w))) + 1
      /\ role m = a_role a /\ content m = a_content a /\ m_request_id m = a_request_id a
      /\ (forall tn' th', th' <> th -> log tn' th' (db w') = log tn' th' (db w))
      /\ threads (db w') = threads (db w)
      /\ (exists ps, parts (db w') = parts (db w) ++ ps
            /\ map part_row ps =
               numbered 0 (message_parts (a_content a) (a_redacted_content a) (a_extra_parts a))
            /\ Forall (fun p => p_message_id p = m_id m) ps)
      /\ exists e, events (db w') = events (db w) ++ [e] /\ e_thread_id e = th
                   /\ e_seq e = default 0 (sql_max (event_seqs th (db w))) + 1
  | (Ret (m, true), w') => db w' = db w /\ m ∈ messages (db w)
  | (Raise _, w') => db w' = db w
  end.
Proof.
  intros Hi. destruct (append_message tn th a w) as [[[m [|]]|e] w'] eqn:E.
  - apply session_ret, bind_ret in E as (o & w1 & He & H).
    destruct (truthy_opt _); [|injection He as <- <-;
      by apply bind_ret in H as (? & ? & _ & [=])].
    apply bind_ret in He as (l & ? & [= <- <-] & He).
    unfold select_request in He. destruct (List.filter _ _) as [|m0 [|? ?]] eqn:Ef; [| |done];
      injection He as <- <-.
    + by apply bind_ret in H as (? & ? & _ & [=]).
    + injection H as <- <-. split; [done|]. assert (Hm : In m0 [m0]) by by left. rewrite <- Ef in Hm.
      by apply filter_In in Hm as [Hm%list_elem_of_In _].
  - by apply append_message_new_spec.
  - by eapply session_raise.
Qed.

(** ** Request ids *)

(** The unique index on request ids, as a fact of the table. *)
Definition requests_unique (w : world) : Prop := NoDup (omap m_request_id (messages (db w))).
Definition keeps_requests (w w' : world) : Prop := requests_unique w -> requests_unique w'.

#[export] Instance keeps_requests_preorder : PreOrder keeps_requests.
Proof. split; [intros w; unfold keeps_requests; done|]. intros w1 w2 w3 H1 H2 H. auto. Qed.
#[export] Instance keeps_requests_rollback : Rollback keeps_requests.
Proof. intros w w' _ H. exact H. Qed.

Lemma same_messages_requests w w' : messages (db w') = messages (db w) -> keeps_requests w w'.
Proof. intros Hm. unfold keeps_requests, requests_unique. by rewrite Hm. Qed.

#[export] Instance shape_requests {A} (c : store A) : Respects same_shape c -> Respects keeps_requests c | 20.
Proof. apply respects_weaken. intros w w' (_ & Hm & _). by apply same_messages_requests. Qed.

#[export] Instance insert_thread_requests t : Respects keeps_requests (insert_thread t).
Proof. intros w. apply same_messages_requests. unfold insert_thread. by destruct (existsb _ _). Qed.

Lemma conflict_free_request m l :
  existsb (message_conflict m) l = false ->
  forall q, m_request_id m = Some q -> q ∉ omap m_request_id l.
Proof.
  intros He q Hq (m' & Hm' & Hq')%list_elem_of_omap.
  assert (Hc : existsb (message_conflict m) l = true); [|congruence].
  apply existsb_exists. exists m'. split; [by apply list_elem_of_In|].
  unfold message_conflict. rewrite Hq, Hq'. cbn [opt_same].
  rewrite (bool_decide_true (q = q)) by done. by rewrite orb_true_r.
Qed.

#[export] Instance insert_message_requests m : Respects keeps_requests (insert_message m).
Proof.
  intros w H. unfold insert_message. destruct (existsb _ _) eqn:E; [done|].
  cbn [orb]. destruct (negb _); [done|]. unfold requests_unique in *. cbn.
  rewrite omap_app. apply NoDup_app. cbn. destruct (m_request_id m) as [q|] eqn:Eq.
  - split_and!; [done| |apply NoDup_singleton].
    intros q' Hq' ->%list_elem_of_singleton. by eapply conflict_free_request.
  - split_and!; [done| |constructor]. intros q _. apply not_elem_of_nil.
Qed.

#[export] Instance copy_messages_requests t s n c a im l :
  Respects keeps_requests (copy_messages t s n c a im l).
Proof. revert im. induction l; intros im; simpl; solve_respects. Qed.
#[export] Instance append_new_requests t th a : Respects keeps_requests (append_new t th a).
Proof. unfold append_new. solve_respects. Qed.
#[export] Instance append_message_requests t th a : Respects keeps_requests (append_message t th a).
Proof. unfold append_message. solve_respects. Qed.
#[export] Instance create_thread_requests t c s e r : Respects keeps_requests (create_thread t c s e r).
Proof. unfold create_thread. solve_respects. Qed.
#[export] Instance get_or_create_requests t c s e :
  Respects keeps_requests (get_or_create_for_conversation t c s e).
Proof. unfold get_or_create_for_conversation. solve_respects. Qed.
#[export] Instance fork_requests t s a c r : Respects keeps_requests (fork_thread t s a c r).
Proof. unfold fork_thread. solve_respects. Qed.

Lemma step_requests w w' : step w w' -> keeps_requests w w'.
Proof.
  intros [].
  - apply create_thread_requests.
  - apply get_or_create_requests.
  - by apply same_messages_requests.
  - apply append_message_requests.
  - apply shape_requests, append_event_shape.
  - apply shape_requests, set_summary_shape.
  - apply shape_requests, set_archived_shape.
  - apply shape_requests, clear_shape.
  - apply fork_requests.
  - apply shape_requests, read_session_shape.
  - by apply same_messages_requests.
Qed.

Lemma steps_requests w w' : rtc step w w' -> keeps_requests w w'.
Proof. induction 1 as [|w1 w2 w3 Hs _ IH]; [done|]. intros ?. by apply IH, (step_requests w1). Qed.

Lemma opt_same_spec a b : opt_same a b = true <-> exists q, a = Some q /\ b = Some q.
Proof.
  destruct a as [x|], b as [y|]; simpl; split; try done; try (by intros (? & ? & ?)).
  - intros ->%bool_decide_eq_true. eauto.
  - intros (q & [= ->] & [= ->]). by apply bool_decide_true.
Qed.

(** At most one message carries a request id. *)
Lemma request_same q a b l :
  NoDup (omap m_request_id l) -> a ∈ l -> b ∈ l ->
  m_request_id a = Some q -> m_request_id b = Some q -> a = b.
Proof.
  intros Hn Ha Hb Hqa Hqb. apply list_elem_of_split in Ha as (l1 & l2 & ->).
  rewrite omap_app in Hn. cbn in Hn. rewrite Hqa in Hn.
  apply NoDup_app in Hn as (_ & Hd & Hn). apply NoDup_cons in Hn as [Hn _].
  apply elem_of_app in Hb as [Hb|[->|Hb]%elem_of_cons]; [exfalso|done|exfalso].
  - apply (Hd q); [apply list_elem_of_omap; by exists b|apply elem_of_cons; by left].
  - apply Hn. apply list_elem_of_omap. by exists b.
Qed.

Lemma select_request_unique tn q m d :
  NoDup (omap m_request_id (messages d)) -> m ∈ messages d ->
  m_tenant_id m = tn -> m_request_id m = Some q ->
  select_request tn (Some q) d = [m].
Proof.
  unfold select_request. intros Hn Hm Ht Hq.
  apply list_elem_of_split in Hm as (l1 & l2 & Hl). rewrite Hl in *. clear Hl.
  rewrite omap_app in Hn. cbn in Hn. rewrite Hq in Hn.
  apply NoDup_app in Hn as (_ & Hd & Hn). apply NoDup_cons in Hn as [Hn _].
  assert (Hout : forall l, q ∉ omap m_request_id l ->
    List.filter (fun m0 => bool_decide (m_tenant_id m0 = tn) && opt_same (m_request_id m0) (Some q)) l = []).
  { intros l Hl. induction l as [|x l IH]; [done|]. cbn [List.filter].
    destruct (opt_same (m_request_id x) (Some q)) eqn:E.
    - apply opt_same_spec in E as (q' & Hx & [= <-]). destruct Hl. cbn. rewrite Hx.
      apply elem_of_cons. by left.
    - rewrite andb_false_r. apply IH. intros Hin. apply Hl. cbn.
      destruct (m_request_id x); [|done]. apply elem_of_cons. by right. }
  rewrite List.filter_app, Hout.
  - cbn [List.filter app]. rewrite Hq, Ht, bool_decide_true by done. cbn [opt_same].
    rewrite bool_decide_true by done. cbn [andb]. by rewrite Hout.
  - intros Hin. apply (Hd q Hin). apply elem_of_cons. by left.
Qed.

(** Request deduplication: once an append with a request id has written
    its message, any later append of the tenant with that request id, after
    any further calls, returns that message marked as deduplicated and
    writes nothing. *)
Theorem append_message_dedup (random : nat -> string) (convs : list string) (r : ReplicaRouter)
    (w w1 w2 : world) (tn th th' q : string) (a a' : append_args) (m : MessageModel) :
  Inj eq eq random -> reachable random convs r w ->
  truthy q = true -> a_request_id a = Some q -> a_request_id a' = Some q ->
  append_message tn th a w = (Ret (m, false), w1) -> rtc step w1 w2 ->
  append_message tn th' a' w2 = (Ret (m, true), w2).
Proof.
  intros Hi Hr Hq Ha Ha' Happ Hs.
  assert (Hu : requests_unique w) by (eapply steps_requests; [exact Hr|constructor]).
  assert (Hu2 : requests_unique w2).
  { eapply steps_requests; [exact Hs|]. eapply step_requests; [|exact Hu].
    pose proof (step_append w tn th a) as Hst. by rewrite Happ in Hst. }
  apply append_message_new, append_new_ret in Happ
    as (_ & _ & Hn & _ & _ & _ & Hm & _ & ps & e & Hd & _).
  assert (Hm2 : m ∈ messages (db w2)).
  { destruct (steps_appends _ _ Hs) as [k ->]. apply elem_of_app. left. rewrite Hd. cbn.
    apply elem_of_app. right. by apply list_elem_of_singleton. }
  unfold append_message, get_session. rewrite Ha'. cbn [truthy_opt]. rewrite Hq.
  unfold mbind, io_bind, query. rewrite (select_request_unique tn q m); try done. congruence.
Qed.

(** ** Reading the log page by page *)

(** A reader that follows the cursor: the next page starts after
    [messages[-1].seq] for as long as [has_more] says so. *)
Fixpoint page_through (fuel : nat) (tn th : string) (limit : Z) (from : option Z) (d : database)
  : list MessageModel :=
  match fuel with
  | O => []
  | S fuel =>
      let '(page, has_more) := messages_page tn th from limit d in
      if has_more then
        match last page with
        | Some m => page ++ page_through fuel tn th limit (Some (m_seq m)) d
        | None => page
        end
      else page
  end.

Lemma filter_after_drop tn th w a :
  owned th tn w -> 0 <= a ->
  List.filter (after (Some a)) (log tn th (db w)) = drop (Z.to_nat a) (log tn th (db w)).
Proof.
  intros Hw Ha. set (l := log tn th (db w)).
  assert (Hl : forall i m, l !! i = Some m -> m_seq m = Z.of_nat i + 1) by (intros; by eapply log_lookup).
  clearbody l. rewrite <- (take_drop (Z.to_nat a) l) at 1. rewrite List.filter_app.
  assert (H1 : List.filter (after (Some a)) (take (Z.to_nat a) l) = []).
  { apply filter_none. intros m (i & Hi)%list_elem_of_In%list_elem_of_lookup.
    apply lookup_take_Some in Hi as [Hi Hlt]. apply Hl in Hi. cbn [after]. apply Z.ltb_ge. lia. }
  assert (H2 : List.filter (after (Some a)) (drop (Z.to_nat a) l) = drop (Z.to_nat a) l).
  { apply filter_all. intros m (i & Hi)%list_elem_of_In%list_elem_of_lookup.
    rewrite lookup_drop in Hi. apply Hl in Hi. cbn [after]. apply Z.ltb_lt. lia. }
  by rewrite H1, H2.
Qed.

(** A page that starts after the first [p] messages. *)
Lemma messages_page_at tn th w limit p from :
  owned th tn w -> 0 < limit ->
  from = None /\ p = 0%nat \/ from = Some (Z.of_nat p) ->
  let l := drop p (log tn th (db w)) in
  messages_page tn th from limit (db w) = (take (Z.to_nat limit) l, limit <? Z.of_nat (length l)).
Proof.
  intros Hw Hlim Hfrom. unfold messages_page, sql_limit. cbn zeta.
  assert (Hf : List.filter (after from) (log tn th (db w)) = drop p (log tn th (db w))).
  { destruct Hfrom as [[-> ->]| ->]; [by apply filter_all|].
    rewrite (filter_after_drop _ _ _ _ Hw) by lia. by rewrite Nat2Z.id. }
  rewrite Hf. f_equal; [by rewrite take_take; f_equal; lia|].
  rewrite length_take. destruct (limit <? Z.of_nat (length (drop p (log tn th (db w))))) eqn:E; to_prop.
  - apply Z.ltb_lt. lia.
  - apply Z.ltb_ge. lia.
Qed.

Lemma page_through_at tn th w limit fuel p from :
  owned th tn w -> 0 < limit ->
  from = None /\ p = 0%nat \/ from = Some (Z.of_nat p) ->
  (length (log tn th (db w)) < p + fuel)%nat ->
  page_through fuel tn th limit from (db w) = drop p (log tn th (db w)).
Proof.
  intros Hw Hlim. revert p from. induction fuel as [|fuel IH]; intros p from Hfrom Hfuel.
  { rewrite drop_ge; [done|lia]. }
  cbn [page_through]. rewrite (messages_page_at tn th w limit p from Hw Hlim Hfrom).
  set (l := log tn th (db w)) in *.
  destruct (limit <? Z.of_nat (length (drop p l))) eqn:E; to_prop; [|apply take_ge; lia].
  rewrite length_drop in E.
  assert (Hlast : exists m, last (take (Z.to_nat limit) (drop p l)) = Some m
                            /\ m_seq m = Z.of_nat (p + Z.to_nat limit)).
  { destruct (lookup_lt_is_Some_2 l (p + Z.to_nat limit - 1)) as [m Hm]; [lia|].
    exists m. split.
    - rewrite last_lookup, length_take, length_drop.
      rewrite lookup_take_lt by lia. rewrite lookup_drop, <- Hm. f_equal. lia.
    - rewrite (log_lookup _ _ _ _ _ Hw Hm). lia. }
  destruct Hlast as (m & -> & ->).
  rewrite (IH (p + Z.to_nat limit)%nat); [|by right|lia].
  rewrite <- drop_drop. apply take_drop.
Qed.

(** Following the cursor of [list_messages] reads the whole log, in order,
    each message once, for every page size; one page more than the log has
    messages is fuel enough. *)
Theorem list_messages_complete (random : nat -> string) (convs : list string) (r : ReplicaRouter)
    (w : world) (tn th : string) (limit : Z) :
  Inj eq eq random -> reachable random convs r w -> (th, tn) ∈ thread_keys (db w) -> 0 < limit ->
  page_through (S (length (log tn th (db w)))) tn th limit None (db w) = log tn th (db w).
Proof.
  intros Hi Hr Hk Hlim. rewrite (page_through_at tn th w limit _ 0); [done| |done|by left|lia].
  split; [by eapply reachable_inv|done].
Qed.

(** ** Locking a thread that is there *)

Lemma owned_thread tn th w : owned th tn w -> exists t, select_thread tn th (db w) = [t].
Proof.
  intros [[_ _ Hd _ _] Hk]. unfold select_thread, thread_keys in *. induction (threads (db w)) as [|t l IH].
  - by apply not_elem_of_nil in Hk.
  - cbn [map fmap list_fmap fst] in Hd. apply NoDup_cons in Hd as [Hn Hd].
    cbn [map] in Hk. apply elem_of_cons in Hk as [[= -> ->]|Hk].
    + exists t. cbn [List.filter]. unfold is_thread at 1. rewrite !bool_decide_true by done.
      cbn [andb]. f_equal. apply filter_none. intros t' Ht'. unfold is_thread.
      apply andb_false_iff. right. apply bool_decide_false. intros Heq. apply Hn.
      apply list_elem_of_fmap. exists (t_id t', t_tenant_id t'). split; [by rewrite Heq|].
      apply list_elem_of_In, in_map_iff. by exists t'.
    + destruct (IH Hd Hk) as [t0 Ht0]. exists t0. cbn [List.filter].
      assert (Hf : is_thread tn th t = false); [|by rewrite Hf].
      unfold is_thread. apply andb_false_iff. right. apply bool_decide_false. intros Heq.
      apply Hn. apply list_elem_of_fmap. exists (th, tn). by split.
Qed.

Lemma lock_succeeds tn th w : owned th tn w -> exists t, lock_thread tn th w = (Ret t, w).
Proof.
  intros Hw. unfold lock_thread, query, mbind, io_bind. destruct (owned_thread tn th w Hw) as [t ->]. by exists t.
Qed.

(** ** Event numbers and tool results *)

Lemma map_if_none {A} (sel : A -> bool) (f : A -> A) l :
  List.filter sel l = [] -> map (fun x => if sel x then f x else x) l = l.
Proof.
  induction l as [|x l IH]; [done|]. cbn [List.filter map].
  destruct (sel x); [done|]. intros Hl. by rewrite IH.
Qed.

Lemma clear_ret tn th k ph r w n j oe w' :
  clear_tool_results tn th k ph r w = (Ret (n, j, oe), w') ->
  let el := eligible tn th (_max_message_seq th (db w) - k) (db w) in
  (th, tn) ∈ thread_keys (db w)
  /\ n = Z.of_nat (length (List.filter el (parts (db w))))
  /\ parts (db w') = map (fun p => if el p then clear_part ph p else p) (parts (db w))
  /\ messages (db w') = messages (db w) /\ threads (db w') = threads (db w)
  /\ (oe = None -> n = 0 /\ j = 0 /\ db w' = db w)
  /\ (forall e, oe = Some e -> e_seq e = default 0 (sql_max (event_seqs th (db w))) + 2).
Proof.
  intros (t & w1 & (-> & Hk & _)%lock_ret & H)%session_ret%bind_ret. cbn zeta.
  apply bind_ret in H as (latest & ? & [= <- <-] & H).
  apply bind_ret in H as (d & ? & [= <- <-] & H). cbv zeta in H.
  set (el := eligible _ _ _ _) in *. destruct (List.filter el (parts (db w))) as [|x l] eqn:Ef.
  - injection H as <- <- <- <-. rewrite map_if_none by done. by split_and!.
  - apply bind_ret in H as (? & w1 & [= _ <-] & H).
    apply bind_ret in H as (next & ? & [= <- <-] & H).
    apply bind_ret in H as (e' & w2 & ((Hd & _) & Hs & _)%add_event_ret & H).
    apply bind_ret in H as (? & w3 & [= _ <-] & [= <- <- <- <-]).
    cbn [db with_router]. rewrite Hd. split_and!; try done.
    intros e [= <-]. rewrite Hs. unfold _max_event_seq. by rewrite <- Z.add_assoc.
Qed.


(** The three mutations that go through [_max_event_seq], which already
    adds one, add one again: their events leave a gap in a thread's event
    numbers, while appended messages and events take the next number. *)
Theorem mutation_events_skip_a_number (tn th : string) (w w' : world) (e : ThreadEventModel) :
  let last := default 0 (sql_max (event_seqs th (db w))) in
  (forall b r, set_archived tn th b r w = (Ret e, w') -> e_seq e = last + 2)
  /\ (forall b p m r dg s, set_summary tn th b p m r dg w = (Ret s, w') -> e_seq (sr_event s) = last + 2)
  /\ (forall k p r n j, clear_tool_results tn th k p r w = (Ret (n, j, Some e), w') -> e_seq e = last + 2)
  /\ (forall ty d r, append_event tn th ty d r w = (Ret e, w') -> e_seq e = last + 1).
Proof.
  cbn zeta. split_and!.
  - intros b r (t & w1 & (-> & _)%lock_ret & H)%session_ret%bind_ret.
    apply bind_ret in H as (w1 & ? & [= <- <-] & H).
    apply bind_ret in H as (? & w1 & [= _ <-] & H).
    apply bind_ret in H as (next & ? & [= <- <-] & H).
    apply bind_ret in H as (e' & w2 & (_ & Hs & _)%add_event_ret & H).
    apply bind_ret in H as (? & w3 & _ & [= <- _]). rewrite Hs. unfold _max_event_seq. by rewrite <- Z.add_assoc.
  - intros b p m r dg s (t & w1 & (-> & _)%lock_ret & H)%session_ret%bind_ret.
    apply bind_ret in H as (w1 & ? & [= <- <-] & H).
    apply bind_ret in H as (? & w1 & [= _ <-] & H).
    apply bind_ret in H as (next & ? & [= <- <-] & H).
    apply bind_ret in H as (e' & w2 & (_ & Hs & _)%add_event_ret & H).
    do 4 (apply bind_ret in H as (? & ? & _ & H)). injection H as <- _. cbn [sr_event].
    rewrite Hs. unfold _max_event_seq. by rewrite <- Z.add_assoc.
  - intros k p r n j (_ & _ & _ & _ & _ & _ & He)%clear_ret. by apply He.
  - intros ty d r (t & w1 & (-> & _)%lock_ret & H)%session_ret%bind_ret.
    apply bind_ret in H as (last & ? & [= <- <-] & H).
    apply bind_ret in H as (e' & w2 & (_ & Hs & _)%add_event_ret & H).
    by apply bind_ret in H as (? & w3 & _ & [= <- _]).
Qed.

Lemma eligible_clear tn th z d d' ph p :
  messages d' = messages d ->
  eligible tn th z d' (if eligible tn th z d p then clear_part ph p else p) = false.
Proof.
  intros Hm. destruct (eligible tn th z d p) eqn:E.
  - unfold eligible. assert (Hc : cleared (clear_part ph p) = true) by done.
    rewrite Hc. by rewrite andb_false_r.
  - revert E. unfold eligible, message_of. by rewrite Hm.
Qed.

(** Reclaiming tool results is idempotent and touches nothing else: the
    eligible payloads are replaced, keeping the tool's id, every other part
    and every message stays, and a second call clears nothing, writes no
    event and leaves every table as it is. *)
Theorem clear_tool_results_idempotent (tn th : string) (k : Z) (ph : string) (r r' : option string)
    (w w1 : world) (n j : Z) (oe : option ThreadEventModel) :
  log_inv w -> clear_tool_results tn th k ph r w = (Ret (n, j, oe), w1) ->
  parts (db w1) =
    map (fun p => if eligible tn th (_max_message_seq th (db w) - k) (db w) p
                  then clear_part ph p else p) (parts (db w))
  /\ messages (db w1) = messages (db w)
  /\ exists w2, clear_tool_results tn th k ph r' w1 = (Ret (0, 0, None), w2) /\ db w2 = db w1.
Proof.
  intros Hi Hc. pose proof Hc as (Hk & _ & Hp & Hm & Ht & _)%clear_ret.
  split_and!; [exact Hp|exact Hm|].
  assert (Hw1 : owned th tn w1).
  { split; [|unfold thread_keys; by rewrite Ht].
    eapply keeps_inv_snd in Hi as Hi1; [|apply keeps_inv_shape, (clear_shape tn th k ph r)].
    by rewrite Hc in Hi1. }
  destruct (lock_succeeds _ _ _ Hw1) as [t Hl].
  exists w1. split; [|done]. unfold clear_tool_results, get_session, query, mbind, io_bind.
  rewrite Hl. cbv zeta.
  assert (Hmax : _max_message_seq th (id (db w1)) = _max_message_seq th (db w)).
  { unfold _max_message_seq. cbn [id]. by rewrite (message_seqs_eq th (db w) (db w1) Hm). }
  change (db w1) with (id (db w1)) at 1. rewrite Hmax.
  rewrite filter_none; [done|].
  intros p Hin. unfold id in *. rewrite Hp in Hin. apply in_map_iff in Hin as (p0 & <- & _).
  by apply eligible_clear.
Qed.

(** ** Reads after writes *)

(** Read-your-writes through the replicas: for as long as the window
    lasts, the log read after an append, whatever the replicas hold by then,
    is the log of the primary and ends with the appended message. *)
Theorem append_then_list (tn th : string) (a : append_args) (w w1 : world) (m : MessageModel)
    (later : Q) (rs : list (option database)) (limit : Z) :
  log_inv w -> truthy th = true ->
  append_message tn th a w = (Ret (m, false), w1) ->
  (length (put_keys (now w) [tn; th; m_id m] (last_write (router w))) <= _MAX_TRACKED_WRITE_KEYS)%nat ->
  (later - now w < window_seconds (router w))%Q ->
  Z.of_nat (length (log tn th (db w))) < limit ->
  exists w3,
    list_messages tn th None limit
      {| db := db w1; replica_dbs := rs; router := router w1; uuids := uuids w1; used := used w1;
         now := later |}
    = (Ret (log tn th (db w) ++ [m], false), w3).
Proof.
  intros Hi Hth Happ Hlen Hwin Hlim.
  pose proof (append_message_spec tn th a w Hi) as Hspec. rewrite Happ in Hspec.
  destruct Hspec as (Hlog & _). apply append_message_new, append_new_ret in Happ
    as (_ & _ & _ & _ & _ & _ & _ & _ & ps & e & _ & _ & _ & _ & _ & Hr & _).
  unfold list_messages, _read_session, get_read_session. cbn [db replica_dbs router now]. rewrite Hr.
  rewrite (read_route_marked (now w) later th [tn; th; m_id m] [tn; th]);
    [|done|set_solver|set_solver|done|done].
  eexists. f_equal. f_equal. unfold messages_page, sql_limit. rewrite Hlog, (filter_all (after None)) by done.
  assert (Hle : (length (log tn th (db w) ++ [m]) <= Z.to_nat limit)%nat)
    by (rewrite length_app; cbn [length]; lia).
  rewrite (take_ge _ (Z.to_nat (limit + 1))) by lia. rewrite take_ge by done. f_equal.
  apply Z.ltb_ge. lia.
Qed.

(** ** One index for every tenant *)

Lemma select_request_other tn q m d :
  NoDup (omap m_request_id (messages d)) -> m ∈ messages d ->
  m_tenant_id m <> tn -> m_request_id m = Some q -> select_request tn (Some q) d = [].
Proof.
  intros Hn Hm Ht Hq. unfold select_request. apply filter_none. intros x Hx%list_elem_of_In.
  destruct (opt_same (m_request_id x) (Some q)) eqn:E; [|by rewrite andb_false_r].
  apply opt_same_spec in E as (q' & Hxq & [= <-]).
  rewrite (request_same q x m (messages d)) by done. by rewrite bool_decide_false.
Qed.

(** The request-id test is made per tenant, the unique index is over all
    tenants: a request id another tenant has used makes every append with it
    fail with an integrity error, for as long as that message exists. *)
Theorem request_id_taken_by_other_tenant (tn th q : string) (a : append_args) (w : world) (m : MessageModel) :
  owned th tn w -> requests_unique w ->
  m ∈ messages (db w) -> m_request_id m = Some q -> m_tenant_id m <> tn ->
  truthy q = true -> a_request_id a = Some q ->
  exists w', append_message tn th a w = (Raise IntegrityError, w') /\ db w' = db w.
Proof.
  intros Hw Hu Hm Hq Ht Htr Ha. destruct (lock_succeeds _ _ _ Hw) as [t Hl].
  assert (He : exists w', append_message tn th a w = (Raise IntegrityError, w')).
  2:{ destruct He as [w' He]. exists w'. split; [done|]. by eapply session_raise. }
  unfold append_message, get_session. rewrite Ha. cbn [truthy_opt]. rewrite Htr.
  unfold mbind at 1, io_bind at 1. unfold mbind at 1, io_bind at 1. cbn [query].
  rewrite (select_request_other _ _ _ _ Hu Hm Ht Hq). cbn [scalar_one_or_none mret io_ret].
  unfold append_new, mbind, io_bind. rewrite Hl. cbn [query uuid4 get_st].
  rewrite (surjective_pairing (insert_message _ _)).
  match goal with |- context [insert_message ?row ?w0] =>
    assert (Hins : insert_message row w0 = (Raise IntegrityError, w0)) end.
  { unfold insert_message.
    match goal with |- context [existsb ?f ?l] => assert (Hex : existsb f l = true) end.
    { apply existsb_exists. exists m. split; [by apply list_elem_of_In|].
      unfold message_conflict. cbn [m_request_id]. rewrite Hq, Ha. cbn [opt_same].
      rewrite (bool_decide_true (q = q)) by done. by rewrite orb_true_r. }
    by rewrite Hex. }
  rewrite Hins. cbn [fst snd]. by eexists.
Qed.
