(* ===== verification/ThreadFork.v ===== *)
(** * Forks of a thread

    [fork_thread] copies a prefix of a log under new ids; the theorems relate
    the new log to the old one, message by message and parent by parent. *)

From S2P Require Import Prelude Json Replicas Threads ThreadLog ThreadProps.

(** What a copy keeps of its source. *)
Definition view (m : MessageModel) :=
  (m_seq m, role m, content m, redacted_content m, m_surface_id m, m_end_user_id m, m_created_at m).

(** The copies of a list of messages, with the ids replaced so far. *)
Inductive copied (tn new : string) : gmap string string -> list MessageModel -> list MessageModel -> Prop :=
| copied_nil im : copied tn new im [] []
| copied_cons im m c l l' :
    view c = view m -> m_request_id c = None -> m_thread_id c = new -> m_tenant_id c = tn ->
    parent_message_id c =
      match parent_message_id m with
      | Some p => if truthy p then <[m_id m := m_id c]> im !! p else None
      | None => None
      end ->
    copied tn new (<[m_id m := m_id c]> im) l l' ->
    copied tn new im (m :: l) (c :: l').

Lemma copy_parts_messages tn new id l w u w' :
  copy_parts tn new id l w = (Ret u, w') ->
  messages (db w') = messages (db w) /\ thread_keys (db w') = thread_keys (db w).
Proof.
  intros H. pose proof (copy_parts_shape tn new id l w) as (_ & ? & ?). by rewrite H in *.
Qed.

Lemma copy_messages_ret tn src new conv at_ im l w u w' :
  copy_messages tn src new conv at_ im l w = (Ret u, w') ->
  exists ms, messages (db w') = messages (db w) ++ ms /\ copied tn new im l ms
             /\ thread_keys (db w') = thread_keys (db w).
Proof.
  revert im w. induction l as [|m l IH]; intros im w H; cbn [copy_messages] in H.
  - injection H as _ <-. exists []. rewrite app_nil_r. split_and!; [done|constructor|done].
  - apply bind_ret in H as (id & w1 & (Hu & _)%uuid4_ret & H). cbv zeta in H.
    apply bind_ret in H as (? & w2 & (Hi & _)%insert_message_ret & H).
    set (c := forked_message _ _ _ _ _ _ _ _) in Hi.
    apply bind_ret in H as (ps & ? & [= <- <-] & H).
    apply bind_ret in H as (? & w3 & (Hp & Hk)%copy_parts_messages & H).
    apply IH in H as (ms & Hms & Hc & Hk'). exists (c :: ms). split_and!.
    + rewrite Hms, Hp, Hi, Hu. cbn. by rewrite <- app_assoc.
    + by constructor.
    + rewrite Hk', Hk, Hi, Hu. done.
Qed.

Section copied_facts.
Context (tn new : string).

Lemma copied_view im l l' : copied tn new im l l' -> map view l' = map view l.
Proof. induction 1; simpl; congruence. Qed.

Lemma copied_rows im l l' :
  copied tn new im l l' ->
  Forall (fun c => m_request_id c = None /\ m_thread_id c = new /\ m_tenant_id c = tn) l'.
Proof. by induction 1; constructor. Qed.

Lemma copied_parent_from im l l' i s c p' :
  copied tn new im l l' -> l !! i = Some s -> l' !! i = Some c -> parent_message_id c = Some p' ->
  (exists p, parent_message_id s = Some p /\ im !! p = Some p')
  \/ exists j s' c', (j <= i)%nat /\ l !! j = Some s' /\ l' !! j = Some c'
       /\ parent_message_id s = Some (m_id s') /\ p' = m_id c'.
Proof.
  intros Hc. revert i s c. induction Hc as [|im m c0 l l' Hv Hq Ht Hn Hp Hc IH]; intros i s c Hs Hc' Hpar.
  - done.
  - assert (Hput : forall p, parent_message_id s = Some p -> <[m_id m := m_id c0]> im !! p = Some p' ->
      (exists p, parent_message_id s = Some p /\ im !! p = Some p')
      \/ exists j s' c', (j <= i)%nat /\ (m :: l) !! j = Some s' /\ (c0 :: l') !! j = Some c'
           /\ parent_message_id s = Some (m_id s') /\ p' = m_id c').
    { intros p Hsp Hl. destruct (decide (m_id m = p)) as [<-|Hne].
      - rewrite lookup_insert_eq in Hl. injection Hl as <-. right. exists 0%nat, m, c0.
        split_and!; [lia|done..].
      - rewrite lookup_insert_ne in Hl by done. left. by exists p. }
    destruct i as [|i].
    + injection Hs as <-. injection Hc' as <-. rewrite Hp in Hpar.
      destruct (parent_message_id m) as [p|] eqn:Em; [|done].
      destruct (truthy p); [|done]. by apply (Hput p).
    + destruct (IH i s c Hs Hc' Hpar) as [(p & Hsp & Hl)|(j & s' & c' & ? & ? & ? & ? & ?)].
      * by apply (Hput p).
      * right. exists (S j), s', c'. split_and!; [lia|done..].
Qed.

Lemma copied_parent_kept im l l' i s c k v :
  copied tn new im l l' -> im !! k = Some v -> k ∉ map m_id l -> truthy k = true ->
  l !! i = Some s -> l' !! i = Some c -> parent_message_id s = Some k -> parent_message_id c = Some v.
Proof.
  intros Hc. revert i s c. induction Hc as [|im m c0 l l' Hv Hq Ht Hn Hp Hc IH];
    intros i s c Hk Hnot Htr Hs Hc' Hpar; [done|].
  cbn [map] in Hnot. apply not_elem_of_cons in Hnot as [Hne Hnot].
  destruct i as [|i].
  - injection Hs as <-. injection Hc' as <-. rewrite Hp, Hpar, Htr. by rewrite lookup_insert_ne.
  - apply (IH i s c); try done. by rewrite lookup_insert_ne.
Qed.

Lemma copied_parent_to im l l' i j s c s' c' :
  copied tn new im l l' -> NoDup (map m_id l) -> (j <= i)%nat ->
  l !! i = Some s -> l' !! i = Some c -> l !! j = Some s' -> l' !! j = Some c' ->
  truthy (m_id s') = true -> parent_message_id s = Some (m_id s') ->
  parent_message_id c = Some (m_id c').
Proof.
  intros Hc. revert i j. induction Hc as [|im m c0 l l' Hv Hq Ht Hn Hp Hc IH];
    intros i j Hd Hle Hs Hc1 Hs' Hc2 Htr Hpar; [done|].
  cbn [map] in Hd. apply NoDup_cons in Hd as [Hnot Hd].
  destruct j as [|j].
  - injection Hs' as <-. injection Hc2 as <-. destruct i as [|i].
    + injection Hs as <-. injection Hc1 as <-. rewrite Hp, Hpar, Htr. by rewrite lookup_insert_eq.
    + eapply (copied_parent_kept _ l l' i); try done. by rewrite lookup_insert_eq.
  - destruct i as [|i]; [lia|]. apply (IH i j); try done. lia.
Qed.

End copied_facts.

Lemma raise_bind {A B} (c : store A) (f : A -> store B) w e w' :
  c w = (Raise e, w') -> (c ≫= f) w = (Raise e, w').
Proof. unfold mbind, io_bind. by intros ->. Qed.

Lemma filter_copied tn new im l l' :
  copied tn new im l l' -> List.filter (in_thread tn new) l' = l'.
Proof.
  intros Hc. pose proof (copied_rows _ _ _ _ _ Hc) as Ha. apply filter_all.
  intros c Hin%list_elem_of_In. rewrite Forall_forall in Ha.
  destruct (Ha c Hin) as (_ & Ht & Hn). unfold in_thread. by rewrite !bool_decide_true.
Qed.

Lemma filter_copied_other tn tn' new th im l l' :
  th <> new -> copied tn new im l l' -> List.filter (in_thread tn' th) l' = [].
Proof.
  intros Hne Hc. pose proof (copied_rows _ _ _ _ _ Hc) as Ha. apply filter_none.
  intros c Hin%list_elem_of_In. rewrite Forall_forall in Ha.
  destruct (Ha c Hin) as (_ & Ht & _). unfold in_thread. rewrite bool_decide_false; [done|].
  congruence.
Qed.

Lemma filter_unseen tn new l :
  new ∉ map m_thread_id l -> List.filter (in_thread tn new) l = [].
Proof.
  intros Hn. apply filter_none. intros m Hm. unfold in_thread. rewrite bool_decide_false; [done|].
  intros <-. apply Hn. apply list_elem_of_In. by apply in_map.
Qed.

Lemma seqs_sorted l n : map m_seq l = upto n -> StronglySorted (fun m m' => by_seq m m' = true) l.
Proof.
  intros Hl. pose proof (upto_sorted n) as Hs. rewrite <- Hl in Hs. clear Hl.
  induction l as [|m l IH]; [constructor|]. cbn [map] in Hs. inversion Hs as [|?? Hs' Ha]; subst.
  constructor; [by apply IH|]. rewrite Forall_map in Ha. eapply Forall_impl; [exact Ha|].
  intros m' Hm'. by apply Z.leb_le.
Qed.

Lemma sublist_filter {A} (f : A -> bool) (l : list A) : List.filter f l `sublist_of` l.
Proof.
  induction l as [|x l IH]; [done|]. cbn [List.filter].
  destruct (f x); [by apply sublist_skip|by apply sublist_cons].
Qed.

(** The first messages of a log are those up to a number. *)
Lemma filter_le_take tn th w at_ :
  owned th tn w ->
  List.filter (fun m => m_seq m <=? at_) (log tn th (db w)) = take (Z.to_nat at_) (log tn th (db w)).
Proof.
  intros Hw. set (l := log tn th (db w)).
  assert (Hl : forall i m, l !! i = Some m -> m_seq m = Z.of_nat i + 1) by (intros; by eapply log_lookup).
  clearbody l. rewrite <- (take_drop (Z.to_nat at_) l) at 1. rewrite List.filter_app.
  rewrite (filter_none _ (drop _ _)), app_nil_r; [apply filter_all|].
  - intros m (i & Hi)%list_elem_of_In%list_elem_of_lookup.
    apply lookup_take_Some in Hi as [Hi Hlt]. apply Hl in Hi. apply Z.leb_le. lia.
  - intros m (i & Hi)%list_elem_of_In%list_elem_of_lookup.
    rewrite lookup_drop in Hi. apply Hl in Hi. apply Z.leb_gt. lia.
Qed.

Lemma get_thread_messages tn th w o w' :
  get_thread tn th w = (Ret o, w') -> messages (db w') = messages (db w).
Proof. intros H. pose proof (get_thread_shape tn th w) as (_ & Hm & _). by rewrite H in Hm. Qed.

Lemma insert_thread_messages t w u w' :
  insert_thread t w = (Ret u, w') -> messages (db w') = messages (db w).
Proof. unfold insert_thread. destruct (existsb _ _); [done|]. by intros [= _ <-]. Qed.

(** What a fork that returned did to the messages. *)
Lemma fork_ret tn src at_ conv r w o w' :
  log_inv w -> fork_thread tn src at_ conv r w = (Ret o, w') ->
  owned src tn w /\ at_ <= Z.of_nat (length (log tn src (db w)))
  /\ exists ms,
       messages (db w') = messages (db w) ++ ms
       /\ copied tn (uuids w (used w)) ∅ (List.filter (fun m => m_seq m <=? at_) (log tn src (db w))) ms.
Proof.
  intros Hi H. apply bind_ret in H as (new & w1 & Hu & H).
  assert (Hnew : new = uuids w (used w)) by by injection Hu as <- _.
  pose proof (uuid4_ret _ _ _ Hu) as (Hd & _).
  apply bind_ret in H as (? & w2 & H%session_ret & Hget).
  apply bind_ret in H as (t & w3 & (-> & Hk & _)%lock_ret & H).
  rewrite Hd in Hk. assert (Hw : owned src tn w) by by split.
  apply bind_ret in H as (pre & ? & [= <- <-] & H).
  apply bind_ret in H as (mx & ? & [= <- <-] & H).
  apply bind_ret in H as (? & w3 & H1 & H). destruct (_ && _); [done|]. injection H1 as _ <-.
  apply bind_ret in H as (? & w3 & H1 & H).
  destruct (_ <? at_) eqn:Hat; [done|]. injection H1 as _ <-.
  apply bind_ret in H as (? & ? & [= <- <-] & H).
  apply bind_ret in H as (? & w3 & Hm3%insert_thread_messages & H). rewrite Hd in Hm3.
  apply bind_ret in H as (e1 & w4 & ((Hd4 & _) & _)%add_event_ret & H).
  apply bind_ret in H as (e2 & w5 & ((Hd5 & _) & _)%add_event_ret & H).
  apply bind_ret in H as (? & w6 & (ms & Hms & Hc & _)%copy_messages_ret & H).
  apply bind_ret in H as (? & ? & [= <- <-] & H).
  apply bind_ret in H as (e3 & w7 & ((Hd7 & _) & _)%add_event_ret & H).
  apply bind_ret in H as (? & w8 & [= _ <-] & [= _ <-]).
  split_and!; [exact Hw| |exists ms; split].
  - rewrite Hd in Hat. to_prop. rewrite (length_log tn src w) by done.
    unfold _max_message_seq in Hat. by rewrite contiguous_max in Hat by apply Hi.
  - rewrite (get_thread_messages _ _ _ _ _ Hget). cbn. rewrite Hd7. cbn. rewrite Hms, Hd5. cbn.
    by rewrite Hd4, <- Hm3.
  - rewrite <- Hnew. by rewrite Hd in Hc.
Qed.

(** The two logs after a fork. *)
Lemma fork_logs tn src at_ conv r w o w' :
  log_inv w -> fork_thread tn src at_ conv r w = (Ret o, w') ->
  let new := uuids w (used w) in
  let pre := take (Z.to_nat at_) (log tn src (db w)) in
  copied tn new ∅ pre (log tn new (db w'))
  /\ Z.of_nat (length pre) = Z.max 0 at_
  /\ log tn src (db w') = log tn src (db w).
Proof.
  intros Hi Hf. cbn zeta. set (new := uuids w (used w)).
  destruct (fork_ret _ _ _ _ _ _ _ _ Hi Hf) as (Hw & Hat & ms & Hms & Hc). fold new in Hc.
  assert (Hunseen : new ∉ map m_thread_id (messages (db w))) by (apply Hi; lia).
  assert (Hsrc : src <> new).
  { intros E. destruct (inv_fresh w Hi (used w)) as [Hnk _]; [lia|]. fold new in Hnk.
    apply Hnk. rewrite <- E. apply list_elem_of_fmap. exists (src, tn). split; [done|apply Hw]. }
  rewrite <- (filter_le_take tn src w) by done.
  pose proof (fork_source_seqs tn src at_ w Hw) as Hseq.
  set (pre := List.filter _ _) in *.
  assert (Hseq' : map m_seq ms = map m_seq pre).
  { pose proof (copied_view _ _ _ _ _ Hc) as Hv. apply (f_equal (map (fun v => v.1.1.1.1.1.1))) in Hv.
    by rewrite !map_map in Hv. }
  split_and!.
  - assert (Hcopy : log tn new (db w') = ms); [|by rewrite Hcopy].
    unfold log. rewrite Hms, List.filter_app, filter_unseen, (filter_copied _ _ _ _ _ Hc) by done.
    eapply sort_by_id, seqs_sorted. by rewrite Hseq', Hseq.
  - rewrite <- (length_map m_seq pre), Hseq, length_upto.
    rewrite (length_log tn src w) in Hat by done. lia.
  - unfold log. rewrite Hms, List.filter_app, (filter_copied_other _ _ _ _ _ _ _ Hsrc Hc).
    by rewrite app_nil_r.
Qed.

Lemma NoDup_log_ids tn th d : NoDup (map m_id (messages d)) -> NoDup (map m_id (log tn th d)).
Proof.
  intros Hn. unfold log. rewrite (Permutation_map m_id (sort_by_perm by_seq _)).
  eapply sublist_NoDup; [exact Hn|]. apply fmap_sublist, sublist_filter.
Qed.

(** C19: A fork holds exactly the first [at_seq] messages of its source, in
    order and with the same numbers, roles, contents and authors, under new
    ids and without their request ids; a copy's parent is the copy of the
    source's parent whenever that parent precedes the message, and never a
    message outside the fork; the source's log is what it was. *)
Theorem fork_thread_spec (tn src conv : string) (at_ : Z) (r : option string) (w w' : world)
    (o : option ThreadModel) :
  log_inv w -> NoDup (map m_id (messages (db w))) ->
  fork_thread tn src at_ conv r w = (Ret o, w') ->
  let new := uuids w (used w) in
  let pre := take (Z.to_nat at_) (log tn src (db w)) in
  let copy := log tn new (db w') in
  map view copy = map view pre
  /\ Z.of_nat (length copy) = Z.max 0 at_
  /\ Forall (fun c => m_request_id c = None) copy
  /\ (forall i j s c s' c', (j <= i)%nat ->
        pre !! i = Some s -> copy !! i = Some c -> pre !! j = Some s' -> copy !! j = Some c' ->
        truthy (m_id s') = true -> parent_message_id s = Some (m_id s') ->
        parent_message_id c = Some (m_id c'))
  /\ (forall i c p, copy !! i = Some c -> parent_message_id c = Some p ->
        exists j c', (j <= i)%nat /\ copy !! j = Some c' /\ p = m_id c')
  /\ log tn src (db w') = log tn src (db w).
Proof.
  intros Hi Hids Hf. destruct (fork_logs _ _ _ _ _ _ _ _ Hi Hf) as (Hc & Hlen & Hsrc).
  cbn zeta in *. set (pre := take _ _) in *. set (copy := log tn (uuids w (used w)) (db w')) in *.
  pose proof (copied_view _ _ _ _ _ Hc) as Hv.
  assert (Hl : length copy = length pre) by by rewrite <- (length_map view copy), Hv, length_map.
  split_and!; [done|by rewrite Hl| | | |done].
  - eapply Forall_impl; [by eapply copied_rows|]. by intros c [? _].
  - intros i j s c s' c' Hle Hs Hc1 Hs' Hc2 Htr Hpar.
    eapply (copied_parent_to _ _ ∅ pre copy i j); try done.
    eapply sublist_NoDup; [by apply NoDup_log_ids|]. apply fmap_sublist, sublist_take.
  - intros i c p Hc1 Hpar.
    assert (Hs : exists s, pre !! i = Some s).
    { apply lookup_lt_is_Some_2. apply lookup_lt_Some in Hc1. lia. }
    destruct Hs as [s Hs].
    destruct (copied_parent_from _ _ ∅ pre copy i s c p Hc Hs Hc1 Hpar)
      as [(k & _ & Hk)|(j & s' & c' & ? & _ & ? & _ & ?)]; [by rewrite lookup_empty in Hk|].
    by exists j, c'.
Qed.

(** A fork point beyond the thread's length is refused and nothing is
    written. *)
Theorem fork_out_of_range (tn src conv : string) (at_ : Z) (r : option string) (w : world) :
  owned src tn w -> Z.of_nat (length (log tn src (db w))) < at_ ->
  exists w', fork_thread tn src at_ conv r w = (Raise (ForkPointOutOfRange at_), w') /\ db w' = db w.
Proof.
  intros Hw Hat. destruct (uuid4 w) as [[new|e] w1] eqn:Eu; [|done].
  assert (Hw1 : owned src tn w1).
  { pose proof (owned_stable src tn w (snd (uuid4 w)) (uuid4_shape w) Hw) as H. by rewrite Eu in H. }
  pose proof (uuid4_ret _ _ _ Eu) as (Hd & _). destruct (lock_succeeds _ _ _ Hw1) as [t Hl].
  exists w1. split; [|done]. unfold fork_thread. unfold mbind at 1, io_bind at 1. rewrite Eu.
  apply raise_bind. unfold get_session. unfold mbind at 1, io_bind at 1. rewrite Hl.
  unfold mbind at 1, io_bind at 1. cbn [query]. unfold mbind at 1, io_bind at 1. cbn [query].
  assert (Hmax : _max_message_seq src (db w1) = Z.of_nat (length (log tn src (db w)))).
  { rewrite Hd, (length_log tn src w) by done. unfold _max_message_seq.
    rewrite contiguous_max; [done|apply Hw]. }
  rewrite Hmax. destruct ((0 <? at_) && _); unfold mbind at 1, io_bind at 1; cbn [throw mret io_ret].
  - by destruct w1, w.
  - unfold mbind at 1, io_bind at 1. replace (_ <? at_) with true by (symmetry; by apply Z.ltb_lt).
    cbn [throw]. by destruct w1, w.
Qed.
