(* ===== verification/ThreadTotal.v ===== *)
(** * Appends succeed

    The constraints of the tables cannot stop an append to a thread that
    exists: the numbers it draws are free by construction, so with fresh ids
    and a request id nobody used, the call returns. *)

From S2P Require Import Prelude Json Replicas Threads ThreadLog ThreadProps.

(** The ids still to be drawn are not in use. *)
Definition ids_fresh (w : world) : Prop :=
  forall n, (used w <= n)%nat ->
    uuids w n ∉ map m_id (messages (db w)) /\ uuids w n ∉ map p_id (parts (db w))
    /\ uuids w n ∉ map p_message_id (parts (db w)) /\ uuids w n ∉ map e_id (events (db w)).

Lemma sql_max_lt l : Forall (fun x => x < default 0 (sql_max l) + 1) l.
Proof.
  destruct (sql_max l) as [z|] eqn:E; [|by destruct l].
  apply sql_max_spec in E as [_ Ha]. eapply Forall_impl; [exact Ha|]. simpl. lia.
Qed.

Lemma existsb_false {A} (f : A -> bool) l : (forall x, In x l -> f x = false) -> existsb f l = false.
Proof.
  induction l as [|x l IH]; intros Hf; [done|]. cbn. rewrite (Hf x) by by left.
  apply IH. intros y Hy. apply Hf. by right.
Qed.

Lemma thread_exists th tn w :
  (th, tn) ∈ thread_keys (db w) -> existsb (fun t => bool_decide (t_id t = th)) (threads (db w)) = true.
Proof.
  intros (t & [= <- <-] & Ht)%list_elem_of_In%in_map_iff. apply existsb_exists.
  exists t. split; [done|]. by apply bool_decide_true.
Qed.

Lemma insert_event_ok e tn w :
  e_id e ∉ map e_id (events (db w)) -> (e_thread_id e, tn) ∈ thread_keys (db w) ->
  e_seq e = _max_event_seq (e_thread_id e) (db w) ->
  exists w', insert_event e w = (Ret tt, w').
Proof.
  intros Hid Hk Hs. unfold insert_event. rewrite (thread_exists _ tn w Hk), orb_false_r.
  rewrite existsb_false; [by eexists|]. intros e' He'. unfold event_conflict.
  apply orb_false_iff. split.
  - apply bool_decide_false. intros Heq. apply Hid. rewrite <- Heq. apply list_elem_of_In. by apply in_map.
  - case_bool_decide as Ht; [|done]. cbn [andb]. apply Z.eqb_neq. rewrite Hs.
    pose proof (sql_max_lt (event_seqs (e_thread_id e) (db w))) as Ha. rewrite Forall_forall in Ha.
    assert (Hin : e_seq e' ∈ event_seqs (e_thread_id e) (db w)).
    { apply list_elem_of_In, in_map_iff. exists e'. split; [done|]. apply filter_In.
      split; [done|]. by apply bool_decide_true. }
    specialize (Ha _ Hin). simpl in Ha. unfold _max_event_seq. lia.
Qed.

Lemma add_parts_ok tn th id i l w :
  Inj eq eq (uuids w) ->
  (forall n, (used w <= n)%nat -> uuids w n ∉ map p_id (parts (db w))) ->
  id ∈ map m_id (messages (db w)) -> (th, tn) ∈ thread_keys (db w) ->
  Forall (fun p => p_message_id p = id -> part_index p < i) (parts (db w)) ->
  exists w', add_parts tn th id i l w = (Ret tt, w').
Proof.
  revert i w. induction l as [|[[ty c] rc] l IH]; intros i w Hi Hf Hid Hk Ha; [by eexists|].
  cbn [add_parts]. unfold mbind at 1, io_bind at 1. cbn [uuid4].
  unfold mbind at 1, io_bind at 1. cbn [get_st].
  unfold mbind at 1, io_bind at 1. unfold insert_part at 1. cbn [db].
  set (p := Build_MessagePartModel _ _ _ _ _ _ _ _ _).
  rewrite existsb_false; cbn [orb].
  2:{ intros p' Hp'. unfold part_conflict. apply orb_false_iff. split.
      - apply bool_decide_false. intros Heq. apply (Hf (used w)); [lia|].
        apply list_elem_of_In, in_map_iff. by exists p'.
      - case_bool_decide as Hm; [|done]. cbn [andb]. apply Z.eqb_neq.
        rewrite Forall_forall in Ha. apply list_elem_of_In in Hp'. specialize (Ha p' Hp' Hm).
        simpl in *. lia. }
  assert (Hm : existsb (fun m => bool_decide (m_id m = p_message_id p)) (messages (db w)) = true).
  { apply list_elem_of_In, in_map_iff in Hid as (m & <- & Hm). apply existsb_exists.
    exists m. split; [done|]. by apply bool_decide_true. }
  assert (Ht : existsb (fun t => bool_decide (t_id t = p_thread_id p)) (threads (db w)) = true)
    by exact (thread_exists th tn w Hk).
  rewrite Hm, Ht. cbn [negb orb].
  apply IH; cbn [uuids used db with_db parts with_parts messages].
  - done.
  - intros n Hn Hin. rewrite map_app in Hin. apply elem_of_app in Hin as [Hin|Hin].
    + apply (Hf n); [lia|done].
    + apply list_elem_of_singleton in Hin. apply Hi in Hin. lia.
  - done.
  - done.
  - apply Forall_app. split; [|repeat constructor; simpl; lia].
    eapply Forall_impl; [exact Ha|]. simpl. intros p' Hlt Hp'. specialize (Hlt Hp'). lia.
Qed.

Lemma insert_message_ok m w :
  log_inv w -> m_seq m = _max_message_seq (m_thread_id m) (db w) + 1 ->
  m_id m ∉ map m_id (messages (db w)) ->
  (forall q, m_request_id m = Some q -> q ∉ omap m_request_id (messages (db w))) ->
  m_conversation_id m ∈ conversations (db w) ->
  insert_message m w = (Ret tt, with_db (with_messages (messages (db w) ++ [m]) (db w)) w).
Proof.
  intros Hi Hs Hid Hq Hc. unfold insert_message. rewrite (bool_decide_true _ Hc).
  rewrite existsb_false; [done|]. intros m' Hm'. unfold message_conflict.
  rewrite !orb_false_iff. split_and!.
  - apply bool_decide_false. intros Heq. apply Hid. rewrite <- Heq. apply list_elem_of_In. by apply in_map.
  - case_bool_decide as Ht; [|done]. cbn [andb]. apply Z.eqb_neq. rewrite Hs.
    pose proof (sql_max_lt (message_seqs (m_thread_id m) (db w))) as Ha. rewrite Forall_forall in Ha.
    assert (Hin : m_seq m' ∈ message_seqs (m_thread_id m) (db w)).
    { apply list_elem_of_In, in_map_iff. exists m'. split; [done|]. apply filter_In.
      split; [done|]. by apply bool_decide_true. }
    specialize (Ha _ Hin). simpl in Ha. unfold _max_message_seq. lia.
  - destruct (opt_same _ _) eqn:E; [|done]. apply opt_same_spec in E as (q & Hm & Hq').
    destruct (Hq q Hq'). apply list_elem_of_omap. exists m'. split; [by apply list_elem_of_In|done].
Qed.

(** An append to an existing thread of the tenant, in an existing
    conversation, with a request id nobody used (or none) and fresh ids,
    returns: it is neither refused by a constraint of the tables nor taken
    for a duplicate. *)
Theorem append_message_succeeds (tn th : string) (a : append_args) (w : world) :
  owned th tn w -> ids_fresh w ->
  a_conversation_id a ∈ conversations (db w) ->
  (forall q, a_request_id a = Some q -> q ∉ omap m_request_id (messages (db w))) ->
  exists m w', append_message tn th a w = (Ret (m, false), w').
Proof.
  intros Hw Hf Hc Hq. destruct (lock_succeeds _ _ _ Hw) as [t Hl].
  assert (Hnew : exists m w', append_new tn th a w = (Ret m, w')).
  2:{ destruct Hnew as (m & w' & Hnew). exists m, w'. unfold append_message, get_session.
      assert (Hsel : select_request tn (a_request_id a) (db w) = []).
      { apply filter_none. intros x Hx%list_elem_of_In. apply andb_false_iff. right.
        destruct (opt_same _ _) eqn:E; [|done]. apply opt_same_spec in E as (q & Hxq & Haq).
        destruct (Hq q Haq). apply list_elem_of_omap. by exists x. }
      destruct (truthy_opt (a_request_id a)); unfold mbind, io_bind; cbn [query];
        rewrite ?Hsel; cbn [scalar_one_or_none mret io_ret]; by rewrite Hnew. }
  unfold append_new. unfold mbind at 1, io_bind at 1. rewrite Hl.
  do 2 (unfold mbind at 1, io_bind at 1; cbn [query]).
  unfold mbind at 1, io_bind at 1. cbn [uuid4].
  unfold mbind at 1, io_bind at 1. cbn [get_st].
  set (w1 := Build_world _ _ _ _ _ _).
  assert (Hs1 : same_shape w w1) by exact (uuid4_shape w).
  pose proof (owned_stable _ _ _ _ Hs1 Hw) as Hw1.
  destruct (Hf (used w)) as (Hf1 & Hf2 & Hf3 & Hf4); [lia|].
  unfold mbind at 1, io_bind at 1. rewrite insert_message_ok; try done; [|by apply Hw1].
  set (m := Build_MessageModel _ _ _ _ _ _ _ _ _ _ _ _ _ _). set (w2 := with_db _ _).
  destruct (add_parts_ok tn th (uuids w (used w)) 0
    (message_parts (a_content a) (a_redacted_content a) (a_extra_parts a)) w2) as [w3 H3].
  - apply Hw.
  - intros n Hn. simpl in Hn. apply (Hf n). lia.
  - cbn. rewrite map_app. apply elem_of_app. right. by apply list_elem_of_singleton.
  - apply Hw.
  - apply Forall_forall. intros p Hp Heq. destruct Hf3. rewrite <- Heq.
    apply list_elem_of_In, in_map. by apply list_elem_of_In.
  - unfold mbind at 1, io_bind at 1. rewrite H3.
    pose proof (add_parts_ret _ _ _ _ _ _ _ _ H3) as (ps & (Hd3 & _) & _).
    pose proof (add_parts_shape tn th (uuids w (used w)) 0
      (message_parts (a_content a) (a_redacted_content a) (a_extra_parts a)) w2) as ((Hu3 & Hn3) & _ & Hk3).
    rewrite H3 in Hu3, Hn3, Hk3. cbn [snd] in Hu3, Hn3, Hk3.
    unfold mbind at 1, io_bind at 1, add_event at 1.
    unfold mbind at 1, io_bind at 1. cbn [uuid4]. unfold mbind at 1, io_bind at 1. cbn [get_st].
    unfold mbind at 1, io_bind at 1.
    match goal with |- context [insert_event ?e ?w4] =>
      destruct (insert_event_ok e tn w4) as [w5 H5] end; cbn [db e_id e_thread_id e_seq].
    + rewrite Hd3, Hu3. cbn. apply (Hf (used w3)). simpl in Hn3. lia.
    + rewrite Hk3. apply Hw.
    + by rewrite Hd3.
    + rewrite H5. by eexists _, _.
Qed.
