(* ===== verification/ThreadExamples.v ===== *)
(** * A store at work

    The theorems on the thread store at concrete histories: a store built by
    calls from the empty one, with a random source that counts. *)

From S2P Require Import Prelude Json Replicas Threads ThreadLog ThreadProps ThreadFork ThreadTotal.

(** The random source of the examples. *)
Definition counting (n : nat) : string := "u" +:+ pretty n.

#[export] Instance counting_inj : Inj eq eq counting.
Proof.
  intros n m H. unfold counting in H. change (String "u" (pretty n) = String "u" (pretty m)) in H.
  injection H as H. by apply (inj pretty).
Qed.

Definition urls : list string := ["postgres://replica"].
Definition sample_router : ReplicaRouter := initialize (fun _ => true) (new_router urls 5).

Definition start : world := initial counting ["c1"; "c2"] sample_router.

Definition say (who text : string) (request_id : option string) (parent : option string)
    (extra : list extra_part) : append_args := {|
  a_role := who; a_content := text; a_redacted_content := None; a_conversation_id := "c1";
  a_request_id := request_id; a_parent_message_id := parent; a_surface_id := None;
  a_end_user_id := Some "eu1"; a_metadata := None; a_extra_parts := extra |}.

Definition tool_result : extra_part := {|
  x_part_type := TOOL_RESULT_PART_TYPE;
  x_content := Some (JObj [("tool_use_id", JStr "call1"); ("output", JStr "42")]);
  x_redacted_content := None |}.

Definition w1 : world := snd (create_thread "t1" "c1" None (Some "eu1") None start).
Definition ask : append_args := say "user" "hello" (Some "req1") None [].
Definition w2 : world := snd (append_message "t1" "u0" ask w1).
Definition answer : append_args := say "assistant" "hi" None (Some "u2") [tool_result].
Definition w3 : world := snd (append_message "t1" "u0" answer w2).

Lemma w1_reachable : reachable counting ["c1"; "c2"] sample_router w1.
Proof. apply rtc_once, step_create. Qed.
Lemma w2_reachable : reachable counting ["c1"; "c2"] sample_router w2.
Proof. eapply rtc_r; [exact w1_reachable|apply step_append]. Qed.
Lemma w3_reachable : reachable counting ["c1"; "c2"] sample_router w3.
Proof. eapply rtc_r; [exact w2_reachable|apply step_append]. Qed.

(** The thread and the sequence numbers of the example. *)
Example sample_keys : thread_keys (db w3) = [("u0", "t1")].
Proof. by vm_compute. Qed.
Example sample_log : map m_seq (log "t1" "u0" (db w3)) = [1; 2].
Proof. by vm_compute. Qed.

Lemma w2_owned : owned "u0" "t1" w2.
Proof.
  split; [by eapply reachable_inv; [apply _|exact w2_reachable]|]. vm_compute. constructor.
Qed.
Lemma w3_owned : owned "u0" "t1" w3.
Proof.
  split; [by eapply reachable_inv; [apply _|exact w3_reachable]|]. vm_compute. constructor.
Qed.

(** ** Witnesses *)

Lemma thread_log_contiguous_witness :
  map m_seq (log "t1" "u0" (db w3)) = upto (length (log "t1" "u0" (db w3))).
Proof.
  apply (thread_log_contiguous counting ["c1"; "c2"] sample_router w3 "t1" "u0" counting_inj
           w3_reachable). apply w3_owned.
Defined.

Lemma thread_log_append_only_witness :
  log "t1" "u0" (db w2) `prefix_of` log "t1" "u0" (db w3).
Proof.
  apply (thread_log_append_only counting ["c1"; "c2"] sample_router w2 w3 "t1" "u0" counting_inj
           w2_reachable); [apply rtc_once, step_append|apply w2_owned|apply w3_owned].
Defined.

Lemma append_message_spec_witness :
  match append_message "t1" "u0" answer w2 with
  | (Ret (m, false), w') => log "t1" "u0" (db w') = log "t1" "u0" (db w2) ++ [m]
  | _ => False
  end.
Proof.
  assert (Hspec := append_message_spec "t1" "u0" answer w2 (proj1 w2_owned)).
  destruct (append_message "t1" "u0" answer w2) as [[[m [|]]|e] w'] eqn:E.
  - apply (f_equal fst) in E. vm_compute in E. discriminate E.
  - apply Hspec.
  - apply (f_equal fst) in E. vm_compute in E. discriminate E.
Defined.

(** The message the first append wrote. *)
Definition asked : MessageModel := {|
  m_id := "u2"; m_conversation_id := "c1"; m_tenant_id := "t1"; m_thread_id := "u0"; m_seq := 1;
  m_request_id := Some "req1"; parent_message_id := None; m_surface_id := None;
  m_end_user_id := Some "eu1"; role := "user"; content := "hello"; redacted_content := "hello";
  metadata_json := []; m_created_at := 0 |}.

Lemma asked_appended : append_message "t1" "u0" ask w1 = (Ret (asked, false), w2).
Proof.
  unfold w2. rewrite (surjective_pairing (append_message "t1" "u0" ask w1)) at 1. f_equal.
Qed.

Lemma append_message_dedup_witness :
  append_message "t1" "other" (say "user" "again" (Some "req1") None []) w3 = (Ret (asked, true), w3).
Proof.
  apply (append_message_dedup counting ["c1"; "c2"] sample_router w1 w2 w3 "t1" "u0" "other" "req1"
           ask (say "user" "again" (Some "req1") None []) asked counting_inj w1_reachable
           eq_refl eq_refl eq_refl asked_appended).
  apply rtc_once, step_append.
Defined.

Lemma list_messages_complete_witness :
  page_through 3 "t1" "u0" 1 None (db w3) = log "t1" "u0" (db w3).
Proof.
  apply (list_messages_complete counting ["c1"; "c2"] sample_router w3 "t1" "u0" 1 counting_inj
           w3_reachable); [apply w3_owned|lia].
Defined.

Lemma clear_tool_results_idempotent_witness :
  exists w4 e w5,
    clear_tool_results "t1" "u0" 0 TOOL_RESULT_PLACEHOLDER None w3 = (Ret (1, 1, Some e), w4)
    /\ clear_tool_results "t1" "u0" 0 TOOL_RESULT_PLACEHOLDER None w4 = (Ret (0, 0, None), w5)
    /\ db w5 = db w4.
Proof.
  destruct (clear_tool_results "t1" "u0" 0 TOOL_RESULT_PLACEHOLDER None w3)
    as [[[[n j] [e|]]|x] w4] eqn:E; pose proof (f_equal fst E) as E'; vm_compute in E'; try discriminate E'.
  injection E' as <- <- _.
  destruct (clear_tool_results_idempotent "t1" "u0" 0 TOOL_RESULT_PLACEHOLDER None None w3 w4 1 1 (Some e)
              (proj1 w3_owned) E) as (_ & _ & w5 & H & Hd).
  exists w4, e, w5. split_and!; [done|exact H|exact Hd].
Defined.

(** The replica is empty, the clock is four seconds on: the log is read from
    the primary. *)
Lemma append_then_list_witness :
  exists w',
    list_messages "t1" "u0" None 10
      {| db := db w2; replica_dbs := [Some (db start)]; router := router w2; uuids := uuids w2;
         used := used w2; now := 4 |}
    = (Ret (log "t1" "u0" (db w1) ++ [asked], false), w').
Proof.
  apply (append_then_list "t1" "u0" ask w1 w2 asked 4 [Some (db start)] 10).
  - eapply reachable_inv; [apply counting_inj|exact w1_reachable].
  - reflexivity.
  - exact asked_appended.
  - apply Nat.leb_le. by vm_compute.
  - by vm_compute.
  - by vm_compute.
Defined.

(** Tenant t2 has used the request id; t1 is refused. *)
Definition v1 : world := snd (create_thread "t2" "c2" None None None w1).
Definition other_ask : append_args := {|
  a_role := "user"; a_content := "x"; a_redacted_content := None; a_conversation_id := "c2";
  a_request_id := Some "req1"; a_parent_message_id := None; a_surface_id := None;
  a_end_user_id := None; a_metadata := None; a_extra_parts := [] |}.
Definition v2 : world := snd (append_message "t2" "u2" other_ask v1).

Lemma v2_reachable : reachable counting ["c1"; "c2"] sample_router v2.
Proof.
  eapply rtc_r; [eapply rtc_r; [exact w1_reachable|apply step_create]|apply step_append].
Qed.

Lemma request_id_taken_by_other_tenant_witness :
  exists w', append_message "t1" "u0" ask v2 = (Raise IntegrityError, w') /\ db w' = db v2.
Proof.
  destruct (messages (db v2)) as [|m l] eqn:E; [by vm_compute in E|].
  assert (Hm : m_request_id m = Some "req1" /\ m_tenant_id m = "t2").
  { assert (Hall : Forall (fun m => m_request_id m = Some "req1" /\ m_tenant_id m = "t2") (messages (db v2)))
      by (vm_compute; by repeat constructor).
    rewrite E in Hall. by apply Forall_cons in Hall as [? _]. }
  destruct Hm as [Hq Ht].
  apply (request_id_taken_by_other_tenant "t1" "u0" "req1" ask v2 m).
  - split; [eapply reachable_inv; [apply counting_inj|exact v2_reachable]|].
    vm_compute. constructor.
  - eapply (steps_requests start v2); [exact v2_reachable|constructor].
  - rewrite E. constructor.
  - exact Hq.
  - by rewrite Ht.
  - reflexivity.
  - reflexivity.
Defined.

Lemma append_message_succeeds_witness :
  exists m w', append_message "t1" "u0" answer w2 = (Ret (m, false), w').
Proof.
  apply (append_message_succeeds "t1" "u0" answer w2 w2_owned); [|vm_compute; constructor|done].
  intros n Hn. change (uuids w2 n) with (counting n).
  assert (Hu : used w2 = 5%nat) by by vm_compute. rewrite Hu in Hn.
  assert (Hout : forall l, Forall (fun s => exists i, (i < 5)%nat /\ s = counting i) l -> counting n ∉ l).
  { intros l Hl Hin. rewrite Forall_forall in Hl. destruct (Hl _ Hin) as (i & Hi & Heq).
    apply (inj counting) in Heq. lia. }
  split_and!; apply Hout; vm_compute; repeat constructor;
    (by exists 1%nat; split; [lia|]) || (by exists 2%nat; split; [lia|])
    || (by exists 3%nat; split; [lia|]) || (by exists 4%nat; split; [lia|]).
Defined.

Lemma fork_thread_spec_witness :
  exists o w4, fork_thread "t1" "u0" 2 "c2" None w3 = (Ret o, w4)
    /\ map view (log "t1" (uuids w3 (used w3)) (db w4)) = map view (log "t1" "u0" (db w3))
    /\ log "t1" "u0" (db w4) = log "t1" "u0" (db w3).
Proof.
  destruct (fork_thread "t1" "u0" 2 "c2" None w3) as [[o|e] w4] eqn:E;
    [|apply (f_equal fst) in E; vm_compute in E; discriminate E].
  exists o, w4. split; [done|].
  destruct (fork_thread_spec "t1" "u0" "c2" 2 None w3 w4 o (proj1 w3_owned)) as (Hv & _ & _ & _ & _ & Hs).
  - vm_compute. apply NoDup_cons; split; [by intros ?%list_elem_of_singleton|apply NoDup_singleton].
  - exact E.
  - split; [|exact Hs]. rewrite Hv. f_equal.
Defined.

Lemma fork_out_of_range_witness :
  exists w', fork_thread "t1" "u0" 3 "c2" None w3 = (Raise (ForkPointOutOfRange 3), w') /\ db w' = db w3.
Proof.
  apply (fork_out_of_range "t1" "u0" "c2" 3 None w3 w3_owned). by vm_compute.
Defined.
