(* ===== verification/AuditTrail.v ===== *)
(** * Audit trail (backend/app/infrastructure/db/repositories.py, AuditRepository)

    The hash-chained trail of administrative actions.  SHA-256 and the ISO
    format of an instant are arguments; an instant is a number of
    microseconds.  An [add] reads its predecessor's hash and inserts its row in
    two transactions, so other adds can come in between. *)

From S2P Require Import Prelude Json.

Record AuditEvent := {
  au_id : string;
  au_tenant_id : option string;
  actor_type : string;
  actor_id : option string;
  action : string;
  resource_type : string;
  resource_id : option string;
  details : json;
  prev_hash : option string;
  event_hash : option string;
  au_created_at : Z;
}.

(** What a caller passes to [add]. *)
Record audit_args := {
  ar_action : string;
  ar_resource_type : string;
  ar_resource_id : option string;
  ar_tenant_id : option string;
  ar_actor_type : string;
  ar_actor_id : option string;
  ar_details : json;
}.

(** Canonical order: [created_at], then [id]. *)
Definition before (created_at : Z) (id : string) (e : AuditEvent) : bool :=
  (au_created_at e <? created_at)
  || (au_created_at e =? created_at) && String.ltb (au_id e) id.

Definition audit_leb (e e' : AuditEvent) : bool :=
  (au_created_at e <? au_created_at e')
  || (au_created_at e =? au_created_at e') && String.leb (au_id e) (au_id e').

Definition or_empty (o : option string) : string := default EmptyString o.

Section audit.
Context (sha256 : string -> string) (utc_iso : Z -> string).

(** The fields a hash covers, in order. *)
Definition hash_parts (prev : option string) (e : AuditEvent) : list string :=
  [or_empty prev; au_id e; or_empty (au_tenant_id e); actor_type e; or_empty (actor_id e);
   action e; resource_type e; or_empty (resource_id e); dumps (details e);
   utc_iso (au_created_at e)].

Definition _compute_hash (prev : option string) (e : AuditEvent) : string :=
  sha256 (join "|" (hash_parts prev e)).

(** [order_by(desc, desc).limit(1)]: the last row in canonical order. *)
Definition _previous_hash (id : string) (created_at : Z) (rows : list AuditEvent) : option string :=
  match last (sort_by audit_leb (List.filter (before created_at id) rows)) with
  | Some e => event_hash e
  | None => None
  end.

(** The row [add] computes from the rows of its first transaction. *)
Definition chained (id : string) (created_at : Z) (a : audit_args) (rows : list AuditEvent) : AuditEvent :=
  let prev := _previous_hash id created_at rows in
  let row hash := {|
    au_id := id; au_tenant_id := ar_tenant_id a; actor_type := ar_actor_type a;
    actor_id := ar_actor_id a; action := ar_action a; resource_type := ar_resource_type a;
    resource_id := ar_resource_id a; details := ar_details a; prev_hash := prev;
    event_hash := hash; au_created_at := created_at |} in
  row (Some (_compute_hash prev (row None))).

(** An add nothing interferes with; [None] for a duplicate primary key. *)
Definition add (id : string) (created_at : Z) (a : audit_args) (rows : list AuditEvent)
  : option (list AuditEvent) :=
  if existsb (fun e => bool_decide (au_id e = id)) rows then None
  else Some (rows ++ [chained id created_at a rows]).

(** The loop of [verify_chain] from the hash of the previous row. *)
Fixpoint verify_from (prev : option string) (rows : list AuditEvent) : bool * option string :=
  match rows with
  | [] => (true, None)
  | e :: rows' =>
      match event_hash e with
      | None => verify_from None rows'
      | Some h =>
          if bool_decide (h = _compute_hash prev e) then verify_from (Some h) rows'
          else (false, Some (au_id e))
      end
  end.

Definition verify_chain (tenant_id : option string) (rows : list AuditEvent) : bool * option string :=
  let rows := if truthy_opt tenant_id
              then List.filter (fun e => bool_decide (au_tenant_id e = tenant_id)) rows
              else rows in
  verify_from None (sort_by audit_leb rows).

Definition audit_list_events (tenant_id : option string) (limit : Z) (action_ : option string)
    (rows : list AuditEvent) : list AuditEvent :=
  let rows := if truthy_opt tenant_id
              then List.filter (fun e => bool_decide (au_tenant_id e = tenant_id)) rows else rows in
  let rows := if truthy_opt action_
              then List.filter (fun e => bool_decide (Some (action e) = action_)) rows else rows in
  take (Z.to_nat limit) (sort_by (fun e e' => au_created_at e' <=? au_created_at e) rows).

Definition audit_get_by_id (id : string) (rows : list AuditEvent) : option AuditEvent :=
  List.find (fun e => bool_decide (au_id e = id)) rows.

(** A history of adds, each after every row that is there. *)
Inductive trail : list AuditEvent -> Prop :=
| trail_nil : trail []
| trail_add rows id created_at a rows' :
    trail rows -> Forall (fun e => before created_at id e = true) rows ->
    add id created_at a rows = Some rows' -> trail rows'.

(** ** Lemmas *)

Definition last_hash (prev : option string) (rows : list AuditEvent) : option string :=
  match last rows with Some e => event_hash e | None => prev end.

Lemma before_leb created_at id e e' :
  before created_at id e = true -> au_created_at e' = created_at -> au_id e' = id ->
  audit_leb e e' = true.
Proof.
  unfold before, audit_leb. intros Hb -> ->. apply orb_true_iff in Hb as [Hb|Hb].
  - by rewrite Hb.
  - apply andb_true_iff in Hb as [Hc Hl]. rewrite Hc. apply orb_true_iff. right. cbn [andb].
    unfold String.ltb, String.leb in *. by destruct (String.compare _ _).
Qed.

Lemma last_hash_cons prev x rows : last_hash prev (x :: rows) = last_hash (event_hash x) rows.
Proof.
  destruct rows as [|y rows]; [done|]. unfold last_hash.
  change (last (x :: y :: rows)) with (last (y :: rows)).
  destruct (last (y :: rows)) eqn:E; [done|]. by apply last_None in E.
Qed.

Lemma verify_from_snoc prev rows e :
  fst (verify_from prev rows) = true ->
  event_hash e = Some (_compute_hash (last_hash prev rows) e) ->
  fst (verify_from prev (rows ++ [e])) = true.
Proof.
  revert prev. induction rows as [|x rows IH]; intros prev Hv He.
  - cbn. cbn in He. rewrite He. by rewrite bool_decide_true.
  - rewrite last_hash_cons in He. cbn [app verify_from] in *.
    destruct (event_hash x) as [h|]; [|by apply IH].
    case_bool_decide; [by apply IH|done].
Qed.

Lemma verify_from_broken prev rows : fst (verify_from prev rows) = true -> snd (verify_from prev rows) = None.
Proof.
  revert prev. induction rows as [|e rows IH]; intros prev; [done|]. cbn [verify_from].
  destruct (event_hash e); [|apply IH]. case_bool_decide; [apply IH|done].
Qed.

Lemma chained_hash id c a rows :
  StronglySorted (fun e e' => audit_leb e e' = true) rows ->
  Forall (fun e => before c id e = true) rows ->
  event_hash (chained id c a rows) = Some (_compute_hash (last_hash None rows) (chained id c a rows)).
Proof.
  intros Hs Hb. unfold chained. cbn [event_hash]. f_equal.
  assert (Hp : _previous_hash id c rows = last_hash None rows).
  { unfold _previous_hash. rewrite filter_all, sort_by_id; [done|done|].
    intros e He. rewrite Forall_forall in Hb. apply Hb. by apply list_elem_of_In. }
  by rewrite Hp.
Qed.

Lemma trail_sorted rows :
  trail rows ->
  StronglySorted (fun e e' => audit_leb e e' = true) rows /\ fst (verify_from None rows) = true.
Proof.
  induction 1 as [|rows id c a rows' Ht [IHs IHv] Hb Ha]; [by repeat constructor|].
  unfold add in Ha. destruct (existsb _ _); [done|]. injection Ha as <-. split.
  - apply StronglySorted_snoc; [done|]. eapply Forall_impl; [exact Hb|].
    intros x Hx. by apply (before_leb c id).
  - apply verify_from_snoc; [done|]. by apply chained_hash.
Qed.

(** ** Properties *)

(** A trail built by adds that follow one another verifies: the chain is
    found intact whatever the rows say and whoever they belong to. *)
Theorem verify_chain_intact (rows : list AuditEvent) :
  trail rows -> verify_chain None rows = (true, None).
Proof.
  intros [Hs Hv]%trail_sorted. unfold verify_chain. cbn [truthy_opt]. rewrite sort_by_id by done.
  rewrite (surjective_pairing (verify_from None rows)), Hv. f_equal. by apply verify_from_broken.
Qed.

(** *** With the digest's documented length and no collision *)

Context (sha256_length : forall s, String.length (sha256 s) = 64%nat).

Lemma trail_hashes rows :
  trail rows -> Forall (fun e => exists s, event_hash e = Some (sha256 s)) rows.
Proof.
  induction 1 as [|rows id c a rows' Ht IH Hb Ha]; [constructor|].
  unfold add in Ha. destruct (existsb _ _); [done|]. injection Ha as <-.
  apply Forall_app. split; [done|]. repeat constructor. by eexists.
Qed.

Lemma join_hash_parts prev e :
  join "|" (hash_parts prev e) = or_empty prev +:+ "|" +:+ join "|" (tail (hash_parts prev e)).
Proof. done. Qed.

(** The previous hash can be read off the text. *)
Lemma text_prev_inj (h h' : string) e e' :
  String.length h = String.length h' ->
  join "|" (hash_parts (Some h) e) = join "|" (hash_parts (Some h') e') -> h = h'.
Proof. rewrite !join_hash_parts. cbn [or_empty default]. apply string_app_prefix_length. Qed.

Lemma text_prev_length prev prev' e :
  join "|" (hash_parts prev e) = join "|" (hash_parts prev' e) ->
  String.length (or_empty prev) = String.length (or_empty prev').
Proof.
  rewrite !join_hash_parts. intros H%(f_equal String.length).
  rewrite !string_length_app in H. cbn [hash_parts tail] in H. lia.
Qed.

(** No two of these texts have the same digest. *)
Definition collision_free (texts : list string) : Prop :=
  forall x y, x ∈ texts -> y ∈ texts -> sha256 x = sha256 y -> x = y.

(** The texts a verified trail was hashed from. *)
Fixpoint hashed_texts (prev : option string) (rows : list AuditEvent) : list string :=
  match rows with
  | [] => []
  | e :: rows' => join "|" (hash_parts prev e) :: hashed_texts (event_hash e) rows'
  end.

Lemma hashed_texts_snoc prev rows e :
  hashed_texts prev (rows ++ [e]) = hashed_texts prev rows ++ [join "|" (hash_parts (last_hash prev rows) e)].
Proof.
  revert prev. induction rows as [|x rows IH]; intros prev; [done|].
  cbn [app hashed_texts]. by rewrite IH, last_hash_cons.
Qed.

Lemma verify_snoc_inv prev rows e :
  fst (verify_from prev (rows ++ [e])) = true -> is_Some (event_hash e) ->
  Forall (fun x => is_Some (event_hash x)) rows ->
  fst (verify_from prev rows) = true
  /\ event_hash e = Some (sha256 (join "|" (hash_parts (last_hash prev rows) e))).
Proof.
  intros Hv He Ha. revert prev Hv. induction Ha as [|x rows [h Hx] Ha IH]; intros prev Hv.
  - cbn in Hv. destruct He as [h Hh]. rewrite Hh in *. case_bool_decide as Hd; [|done].
    by rewrite Hd.
  - rewrite last_hash_cons. cbn [app verify_from] in *. rewrite Hx in *.
    case_bool_decide; [by apply IH|done].
Qed.

Lemma collision_free_sub l l' : l ⊆ l' -> collision_free l' -> collision_free l.
Proof. intros Hs Hc x y Hx Hy. apply Hc; by apply Hs. Qed.

Lemma same_tail_same_texts rows rows' :
  collision_free (hashed_texts None rows ++ hashed_texts None rows') ->
  Forall (fun x => is_Some (event_hash x)) rows -> Forall (fun x => is_Some (event_hash x)) rows' ->
  fst (verify_from None rows) = true -> fst (verify_from None rows') = true ->
  length rows = length rows' -> last_hash None rows = last_hash None rows' ->
  hashed_texts None rows = hashed_texts None rows'.
Proof.
  revert rows'. induction rows as [|e rows IH] using rev_ind; intros rows' Hcf Ha Ha' Hv Hv' Hl Hlast.
  { by destruct rows'. }
  destruct rows' as [|e' rows' _] using rev_ind; [rewrite length_app in Hl; simpl in Hl; lia|].
  rewrite !length_app in Hl. cbn [length] in Hl. assert (Hlen : length rows = length rows') by lia.
  apply Forall_app in Ha as [Ha He], Ha' as [Ha' He'].
  rewrite Forall_singleton in He, He'.
  destruct (verify_snoc_inv _ _ _ Hv He Ha) as [Hv1 Heq].
  destruct (verify_snoc_inv _ _ _ Hv' He' Ha') as [Hv1' Heq'].
  unfold last_hash in Hlast. rewrite !last_snoc, Heq, Heq' in Hlast.
  injection Hlast as Htext. rewrite !hashed_texts_snoc in *.
  apply Hcf in Htext; [|set_solver|set_solver].
  f_equal; [|by f_equal]. apply IH; try done; [eapply collision_free_sub; [|exact Hcf]; set_solver|].
  destruct rows as [|x rows _] using rev_ind; [by destruct rows'|].
  destruct rows' as [|x' rows' _] using rev_ind; [rewrite length_app in Hlen; simpl in Hlen; lia|].
  apply Forall_app in Ha as [Ha Hx], Ha' as [Ha' Hx'].
  rewrite Forall_singleton in Hx, Hx'.
  destruct (verify_snoc_inv _ _ _ Hv1 Hx Ha) as [_ Hxe].
  destruct (verify_snoc_inv _ _ _ Hv1' Hx' Ha') as [_ Hxe'].
  unfold last_hash in *. rewrite !last_snoc, Hxe, Hxe' in *. f_equal.
  eapply text_prev_inj; [by rewrite !sha256_length|exact Htext].
Qed.

(** C30: Tamper evidence: two trails of chained rows that both verify, have as
    many rows and end in the same hash were hashed from the same texts, row
    for row: no row of a verified trail can be changed without changing the
    last hash, unless the change leaves the hashed text as it is. *)
Theorem verified_trails_agree (rows rows' : list AuditEvent) :
  let canonical := sort_by audit_leb in
  collision_free (hashed_texts None (canonical rows) ++ hashed_texts None (canonical rows')) ->
  Forall (fun e => is_Some (event_hash e)) rows -> Forall (fun e => is_Some (event_hash e)) rows' ->
  verify_chain None rows = (true, None) -> verify_chain None rows' = (true, None) ->
  length rows = length rows' ->
  last_hash None (canonical rows) = last_hash None (canonical rows') ->
  hashed_texts None (canonical rows) = hashed_texts None (canonical rows').
Proof.
  cbn zeta. intros Hcf Ha Ha' Hv Hv' Hl Hlast.
  apply same_tail_same_texts; [done|by rewrite sort_by_perm|by rewrite sort_by_perm| | | |done].
  - by apply (f_equal fst) in Hv.
  - by apply (f_equal fst) in Hv'.
  - by rewrite !length_sort_by.
Qed.

(** Two adds that read the same predecessor before either of them wrote,
    which nothing prevents, break the chain for good: the second row fails
    verification although nobody tampered with the trail. *)
Theorem concurrent_adds_break_chain (id1 id2 : string) (c1 c2 : Z) (a1 a2 : audit_args) :
  let e1 := chained id1 c1 a1 [] in
  let e2 := chained id2 c2 a2 [] in
  collision_free [join "|" (hash_parts None e2); join "|" (hash_parts (event_hash e1) e2)] ->
  before c2 id2 e1 = true ->
  verify_chain None [e1; e2] = (false, Some id2).
Proof.
  cbn zeta. intros Hcf Hb. unfold verify_chain. cbn [truthy_opt].
  rewrite sort_by_id.
  2:{ repeat constructor. by apply (before_leb c2 id2). }
  cbn [verify_from event_hash chained]. rewrite bool_decide_true by done.
  rewrite bool_decide_false; [done|]. intros H. apply Hcf in H; [|set_solver|set_solver].
  apply (text_prev_length _ _ (chained id2 c2 a2 [])) in H.
  change (_previous_hash id2 c2 []) with (@None string) in H.
  unfold _compute_hash in H. cbn [or_empty default] in H. unfold id in H. by rewrite sha256_length in H.
Qed.

(** The chain links the rows of all tenants, but the verification of one
    tenant walks that tenant's rows only: an untampered trail in which
    another tenant's row comes first is reported broken. *)
Theorem tenant_verification_false_alarm (rows : list AuditEvent) (id1 id2 t1 t2 : string) (c1 c2 : Z)
    (a1 a2 : audit_args) :
  ar_tenant_id a1 = Some t1 -> ar_tenant_id a2 = Some t2 -> t1 <> t2 -> truthy t2 = true ->
  add id1 c1 a1 [] = Some [chained id1 c1 a1 []] ->
  before c2 id2 (chained id1 c1 a1 []) = true ->
  add id2 c2 a2 [chained id1 c1 a1 []] = Some rows ->
  (let e1 := chained id1 c1 a1 [] in let e2 := chained id2 c2 a2 [e1] in
   collision_free [join "|" (hash_parts None e2); join "|" (hash_parts (event_hash e1) e2)]) ->
  verify_chain None rows = (true, None) /\ verify_chain (Some t2) rows = (false, Some id2).
Proof.
  intros Ht1 Ht2 Hne Htr H1 Hb H2 Hcf. split.
  - apply verify_chain_intact. eapply trail_add; [|by apply Forall_singleton|exact H2].
    by eapply trail_add; [apply trail_nil|constructor|exact H1].
  - unfold add in H2. destruct (existsb _ _); [done|]. injection H2 as <-.
    cbn zeta in Hcf. set (e1 := chained id1 c1 a1 []) in *. set (e2 := chained id2 c2 a2 [e1]) in *.
    assert (He2 : event_hash e2 = Some (_compute_hash (event_hash e1) e2)).
    { apply (chained_hash id2 c2 a2 [e1]); [repeat constructor|by apply Forall_singleton]. }
    unfold verify_chain. cbn [truthy_opt]. rewrite Htr. cbn [app List.filter].
    change (au_tenant_id e1) with (ar_tenant_id a1). change (au_tenant_id e2) with (ar_tenant_id a2).
    rewrite Ht1, Ht2, bool_decide_false by congruence. rewrite bool_decide_true by done.
    cbn [sort_by foldr insert_by verify_from]. rewrite He2.
    rewrite bool_decide_false; [done|]. intros H. apply Hcf in H; [|set_solver|set_solver].
    apply (text_prev_length _ _ e2) in H. change (event_hash e1) with (Some (_compute_hash (prev_hash e1) e1)) in H.
    unfold _compute_hash in H. cbn [or_empty default] in H. unfold id in H.
    by rewrite sha256_length in H.
Qed.

(** The hashed text joins the fields with a bar that the fields may
    themselves contain: moving text across a boundary gives another row with
    the same hash, so that change goes unnoticed. *)
Theorem field_boundaries_not_hashed (e e' : AuditEvent) (prev : option string) (a b c : string) :
  actor_id e = Some (a +:+ "|" +:+ b) -> action e = c ->
  actor_id e' = Some a -> action e' = b +:+ "|" +:+ c ->
  au_id e' = au_id e -> au_tenant_id e' = au_tenant_id e -> actor_type e' = actor_type e ->
  resource_type e' = resource_type e -> resource_id e' = resource_id e -> details e' = details e ->
  au_created_at e' = au_created_at e ->
  _compute_hash prev e' = _compute_hash prev e.
Proof.
  intros H1 H2 H3 H4 H5 H6 H7 H8 H9 H10 H11. unfold _compute_hash, hash_parts.
  rewrite H1, H2, H3, H4, H5, H6, H7, H8, H9, H10, H11. cbn [join or_empty default].
  unfold id. rewrite !string_app_assoc. done.
Qed.

End audit.

(** ** Witnesses: a digest of 64 characters to run the definitions with *)

Fixpoint checksum (acc : Z) (s : string) : Z :=
  match s with
  | EmptyString => acc
  | String a s' => checksum ((acc * 257 + Z.of_nat (Ascii.nat_of_ascii a)) mod (2 ^ 61 - 1)) s'
  end.

Fixpoint zeros (n : nat) : string :=
  match n with O => EmptyString | S n => String "0"%char (zeros n) end.

(** The checksum in decimal, padded or cut to 64 characters. *)
Definition toy_sha256 (s : string) : string := String.substring 0 64 (pretty (checksum 7 s) +:+ zeros 64).

Definition toy_iso (t : Z) : string := pretty t.

Definition sample_args (action tenant : string) : audit_args := {|
  ar_action := action; ar_resource_type := "thread"; ar_resource_id := None;
  ar_tenant_id := Some tenant; ar_actor_type := "system"; ar_actor_id := None;
  ar_details := JObj [] |}.

Lemma zeros_length n : String.length (zeros n) = n.
Proof. induction n as [|n IH]; [done|]. simpl. by rewrite IH. Qed.

Lemma toy_sha256_length s : String.length (toy_sha256 s) = 64%nat.
Proof.
  unfold toy_sha256. apply string_length_take. rewrite string_length_app, zeros_length. lia.
Qed.

Definition sample_trail : list AuditEvent :=
  let e1 := chained toy_sha256 toy_iso "i1" 100 (sample_args "a" "t1") [] in
  [e1; chained toy_sha256 toy_iso "i2" 200 (sample_args "b" "t2") [e1]].

Lemma sample_trail_ok : trail toy_sha256 toy_iso sample_trail.
Proof.
  eapply (trail_add _ _ (take 1 sample_trail) "i2" 200 (sample_args "b" "t2")).
  - eapply (trail_add _ _ [] "i1" 100 (sample_args "a" "t1")); [apply trail_nil|constructor|].
    by vm_compute.
  - by repeat constructor.
  - by vm_compute.
Qed.

Lemma verify_chain_intact_witness :
  verify_chain toy_sha256 toy_iso None sample_trail = (true, None).
Proof. apply (verify_chain_intact toy_sha256 toy_iso sample_trail), sample_trail_ok. Defined.

Lemma collision_free_check sha256 texts :
  forallb (fun x => forallb (fun y => implb (String.eqb (sha256 x) (sha256 y)) (String.eqb x y)) texts)
    texts = true -> collision_free sha256 texts.
Proof.
  intros Hall x y Hx%list_elem_of_In Hy%list_elem_of_In Heq.
  rewrite forallb_forall in Hall. specialize (Hall x Hx). rewrite forallb_forall in Hall.
  specialize (Hall y Hy). rewrite Heq, String.eqb_refl in Hall. by apply String.eqb_eq.
Qed.

Ltac no_collision := apply collision_free_check; by vm_compute.

Lemma concurrent_adds_break_chain_witness :
  verify_chain toy_sha256 toy_iso None
    [chained toy_sha256 toy_iso "i1" 100 (sample_args "a" "t1") [];
     chained toy_sha256 toy_iso "i2" 200 (sample_args "b" "t1") []] = (false, Some "i2").
Proof.
  apply (concurrent_adds_break_chain toy_sha256 toy_iso toy_sha256_length); [|by vm_compute].
  no_collision.
Defined.

Lemma tenant_verification_false_alarm_witness :
  verify_chain toy_sha256 toy_iso None sample_trail = (true, None)
  /\ verify_chain toy_sha256 toy_iso (Some "t2") sample_trail = (false, Some "i2").
Proof.
  apply (tenant_verification_false_alarm toy_sha256 toy_iso toy_sha256_length sample_trail "i1" "i2" "t1" "t2"
           100 200 (sample_args "a" "t1") (sample_args "b" "t2")); [done|done|done|done|..].
  - by vm_compute.
  - by vm_compute.
  - by vm_compute.
  - cbn zeta. no_collision.
Defined.

(** A trail that verifies and its twin whose second row was changed without
    changing the hashed text. *)
Definition tampered_trail : list AuditEvent :=
  map (fun e => if bool_decide (au_id e = "i2")
                then {| au_id := au_id e; au_tenant_id := au_tenant_id e; actor_type := actor_type e;
                        actor_id := None; action := action e; resource_type := resource_type e;
                        resource_id := Some EmptyString; details := details e; prev_hash := None;
                        event_hash := event_hash e; au_created_at := au_created_at e |}
                else e) sample_trail.

Lemma verified_trails_agree_witness :
  hashed_texts toy_iso None sample_trail = hashed_texts toy_iso None tampered_trail.
Proof.
  apply (verified_trails_agree toy_sha256 toy_iso toy_sha256_length sample_trail tampered_trail).
  - no_collision.
  - vm_compute. repeat constructor; by eexists.
  - vm_compute. repeat constructor; by eexists.
  - by vm_compute.
  - by vm_compute.
  - done.
  - by vm_compute.
Defined.

Lemma field_boundaries_not_hashed_witness :
  let e a x := {| au_id := "i1"; au_tenant_id := None; actor_type := "api_key"; actor_id := Some a;
                  action := x; resource_type := "thread"; resource_id := None; details := JObj [];
                  prev_hash := None; event_hash := None; au_created_at := 5 |} in
  _compute_hash toy_sha256 toy_iso None (e "ann" "bob|delete")
  = _compute_hash toy_sha256 toy_iso None (e "ann|bob" "delete").
Proof.
  apply (field_boundaries_not_hashed toy_sha256 toy_iso _ _ None "ann" "bob" "delete"); reflexivity.
Defined.
