(* ===== verification/ThreadMutation.v ===== *)
(** * Thread mutations (backend/app/session/service.py)

    Regenerate, fork and edit, over the thread store, the conversations table
    (ConversationRepository of repositories.py) and the audit trail.  Each
    operation is a sequence of transactions: what was committed before an
    exception stays. *)

From S2P Require Import Prelude Json Replicas Threads ThreadLog ThreadProps ThreadExamples AuditTrail.

Record ConversationModel := {
  cv_id : string;
  cv_tenant_id : string;
  session_id : string;
  cv_status : string;
  is_escalated : bool;
}.

(** The store, the rows of the conversations table (whose ids the store's
    foreign keys see) and those of the audit trail. *)
Record mutation_world := {
  mw : world;
  conversation_rows : list ConversationModel;
  audit_rows : list AuditEvent;
}.

Inductive mutation_exc :=
| StoreError (e : store_exc)
| InvalidTargetError (message : string)
| NoSuchKey.                            (* [None["id"]] *)

Definition PENDING_GENERATION : string := "pending_generation".

Section service.
Context (sha256 : string -> string) (utc_iso : Z -> string).

Abbreviation service A := (io mutation_world mutation_exc A).

Definition put_mw (x : world) (w : mutation_world) : mutation_world :=
  {| mw := x; conversation_rows := conversation_rows w; audit_rows := audit_rows w |}.

Definition on_threads {A} (c : store A) : service A := lift mw put_mw StoreError c.

(** [_now()], in microseconds. *)
Definition audit_instant (w : world) : Z := py_int (now w * 1000000).

(** [AuditRepository.add] with a fresh id, at the present instant. *)
Definition audit_add (a : audit_args) : service unit :=
  id ← on_threads uuid4;
  w ← get_st;
  match add sha256 utc_iso id (audit_instant (mw w)) a (audit_rows w) with
  | Some rows => modify (fun w => {| mw := mw w; conversation_rows := conversation_rows w; audit_rows := rows |})
  | None => throw (StoreError IntegrityError)
  end.

(** ** ConversationRepository *)

Definition select_conversation (tenant_id session : string) (l : list ConversationModel) :=
  List.filter (fun c => bool_decide (cv_tenant_id c = tenant_id) && bool_decide (session_id c = session)) l.

(** models.py: the primary key and [uq_conversation_session]. *)
Definition insert_conversation (c : ConversationModel) : service unit := fun w =>
  if existsb (fun c' => bool_decide (cv_id c' = cv_id c)
                        || bool_decide (cv_tenant_id c' = cv_tenant_id c)
                           && bool_decide (session_id c' = session_id c)) (conversation_rows w)
  then (Raise (StoreError IntegrityError), w)
  else
    let d := db (mw w) in
    (Ret tt, {| mw := with_db {| conversations := conversations d ++ [cv_id c]; threads := threads d;
                                 messages := messages d; parts := parts d; events := events d |} (mw w);
                conversation_rows := conversation_rows w ++ [c]; audit_rows := audit_rows w |}).

Definition get_or_create_conversation (tenant_id session : string) : service (ConversationModel * bool) :=
  w ← get_st;
  row ← on_threads (scalar_one_or_none (select_conversation tenant_id session (conversation_rows w)));
  match row with
  | Some c => mret (c, false)
  | None =>
      id ← on_threads uuid4;
      let c := {| cv_id := id; cv_tenant_id := tenant_id; session_id := session;
                  cv_status := "active"; is_escalated := false |} in
      _ ← insert_conversation c;
      mret (c, true)
  end.

(** [delete_messages_by_end_user]; the parts of a message go with it. *)
Definition delete_messages_by_end_user (tenant_id end_user_id : string) (d : database) : Z * database :=
  let gone m := bool_decide (m_tenant_id m = tenant_id) && bool_decide (m_end_user_id m = Some end_user_id) in
  let kept := List.filter (fun m => negb (gone m)) (messages d) in
  (Z.of_nat (length (List.filter gone (messages d))),
   with_parts (List.filter (fun p => existsb (fun m => bool_decide (m_id m = p_message_id p)) kept) (parts d))
     (with_messages kept d)).

(** ** The mutations *)

Definition pending_args (role content conversation_id : string) (redacted : string)
    (parent : option string) (meta : list (string * json)) : append_args := {|
  a_role := role; a_content := content; a_redacted_content := Some redacted;
  a_conversation_id := conversation_id; a_request_id := None; a_parent_message_id := parent;
  a_surface_id := None; a_end_user_id := None; a_metadata := Some meta; a_extra_parts := [] |}.

Definition audit_of (action tenant_id thread_id actor_type : string) (actor_id : option string)
    (details : list (string * json)) : audit_args := {|
  ar_action := action; ar_resource_type := "thread"; ar_resource_id := Some thread_id;
  ar_tenant_id := Some tenant_id; ar_actor_type := actor_type; ar_actor_id := actor_id;
  ar_details := JObj details |}.

(** Returns the original and the new message. *)
Definition regenerate (tenant_id thread_id message_id actor_type : string) (actor_id : option string) :
    service (MessageModel * MessageModel) :=
  thread ← on_threads (get_thread tenant_id thread_id);
  match thread with
  | None => throw (StoreError (ThreadNotFoundError thread_id))
  | Some thread =>
      original ← on_threads (get_message tenant_id message_id);
      match original with
      | None => throw (StoreError (MessageNotFoundError message_id))
      | Some original =>
          if negb (bool_decide (role original = "assistant")) then
            throw (InvalidTargetError ("message " +:+ message_id +:+ " is " +:+ role original
                                       +:+ ", expected assistant"))
          else
            out ← on_threads (append_message tenant_id thread_id
                    (pending_args "assistant" EmptyString (t_conversation_id thread) EmptyString
                       (Some (m_id original))
                       [("status", JStr PENDING_GENERATION); ("regenerated_from", JStr (m_id original))]));
            let replacement := fst out in
            let payload := [("original_message_id", JStr (m_id original));
                            ("new_message_id", JStr (m_id replacement))] in
            _ ← on_threads (append_event tenant_id thread_id "message.regenerated" payload None);
            _ ← audit_add (audit_of "thread.regenerated" tenant_id thread_id actor_type actor_id payload);
            mret (original, replacement)
      end
  end.

Definition fork (tenant_id thread_id : string) (at_seq : Z) (actor_type : string)
    (actor_id : option string) : service ThreadModel :=
  thread ← on_threads (get_thread tenant_id thread_id);
  match thread with
  | None => throw (StoreError (ThreadNotFoundError thread_id))
  | Some _ =>
      name ← on_threads uuid4;
      conversation ← get_or_create_conversation tenant_id ("fork-" +:+ name);
      new_thread ← try_catch (on_threads (fork_thread tenant_id thread_id at_seq (cv_id (fst conversation)) None))
        (fun e => match e with
                  | StoreError (ForkPointOutOfRange n) =>
                      (* the text goes on with the length, when it was counted *)
                      throw (InvalidTargetError ("fork point " +:+ pretty n +:+ " exceeds thread length"))
                  | e => throw e
                  end);
      match new_thread with
      | None => throw NoSuchKey
      | Some t =>
          _ ← audit_add (audit_of "thread.forked" tenant_id thread_id actor_type actor_id
                [("at_seq", JNum at_seq); ("new_thread_id", JStr (t_id t))]);
          mret t
      end
  end.

(** Returns the original, the edited message and its successor. *)
Definition edit (tenant_id thread_id message_id content : string) (redacted_content : option string)
    (actor_type : string) (actor_id : option string) :
    service (MessageModel * MessageModel * MessageModel) :=
  original ← on_threads (get_message tenant_id message_id);
  match original with
  | None => throw (StoreError (MessageNotFoundError message_id))
  | Some original =>
      if negb (bool_decide (m_thread_id original = thread_id)) then
        throw (StoreError (ThreadNotFoundError thread_id))
      else
        thread ← on_threads (get_thread tenant_id thread_id);
        match thread with
        | None => throw (StoreError (ThreadNotFoundError thread_id))
        | Some thread =>
            if negb (bool_decide (role original = "user")) then
              throw (InvalidTargetError ("message " +:+ message_id +:+ " is " +:+ role original
                                         +:+ ", expected user"))
            else if negb (truthy content) || negb (truthy (strip content)) then
              throw (InvalidTargetError "edited content must not be empty")
            else
              out ← on_threads (append_message tenant_id thread_id
                      (pending_args "user" content (t_conversation_id thread)
                         (or_else redacted_content content) (parent_message_id original)
                         [("status", JStr "applied"); ("edited_from", JStr (m_id original))]));
              let edited_user := fst out in
              out ← on_threads (append_message tenant_id thread_id
                      (pending_args "assistant" EmptyString (t_conversation_id thread) EmptyString
                         (Some (m_id edited_user))
                         [("status", JStr PENDING_GENERATION); ("generated_from", JStr (m_id edited_user))]));
              let successor := fst out in
              let payload := [("original_message_id", JStr (m_id original));
                              ("new_user_message_id", JStr (m_id edited_user));
                              ("new_assistant_message_id", JStr (m_id successor))] in
              _ ← on_threads (append_event tenant_id thread_id "message.edited" payload None);
              _ ← audit_add (audit_of "thread.message_edited" tenant_id thread_id actor_type actor_id payload);
              mret (original, edited_user, successor)
        end
  end.

(** ** The calls are steps of the store *)

Class Steps {A} (c : service A) : Prop :=
  all_steps : forall w, rtc step (mw w) (mw (snd (c w))).

#[local] Instance steps_ret {A} (a : A) : Steps (mret a).
Proof. intros w. apply rtc_refl. Qed.
#[local] Instance steps_throw {A} e : Steps (@throw mutation_world mutation_exc A e).
Proof. intros w. apply rtc_refl. Qed.
#[local] Instance steps_get : Steps get_st.
Proof. intros w. apply rtc_refl. Qed.
#[local] Instance steps_bind {A B} (c : service A) (f : A -> service B) :
  Steps c -> (forall a, Steps (f a)) -> Steps (c ≫= f).
Proof.
  intros Hc Hf w. specialize (Hc w). unfold mbind, io_bind. destruct (c w) as [[a|e] w1]; [|exact Hc].
  etrans; [exact Hc|apply Hf].
Qed.
#[local] Instance steps_try {A} (c : service A) (h : mutation_exc -> service A) :
  Steps c -> (forall e, Steps (h e)) -> Steps (try_catch c h).
Proof.
  intros Hc Hh w. specialize (Hc w). unfold try_catch. destruct (c w) as [[a|e] w1]; [exact Hc|].
  etrans; [exact Hc|apply Hh].
Qed.

Lemma on_threads_steps {A} (c : store A) : (forall w, rtc step w (snd (c w))) -> Steps (on_threads c).
Proof. intros Hc w. specialize (Hc (mw w)). unfold on_threads, lift. by destruct (c (mw w)) as [[a|e] x]. Qed.

Lemma rollback_same w : with_db (db w) w = w.
Proof. by destruct w. Qed.

Lemma session_read {A} (c : store A) w : snd (c w) = w -> snd (get_session c w) = w.
Proof. unfold get_session. destruct (c w) as [[a|e] w1]; cbn; intros ->; [done|apply rollback_same]. Qed.

Lemma scalar_read {A} (l : list A) w : snd (scalar_one_or_none l w) = w.
Proof. by destruct l as [|x [|y l]]. Qed.

Lemma get_thread_same tn th w : snd (get_thread tn th w) = w.
Proof. apply session_read. unfold mbind, io_bind, query. apply scalar_read. Qed.

Lemma get_message_same tn m w : snd (get_message tn m w) = w.
Proof. apply session_read. unfold mbind, io_bind, query. apply scalar_read. Qed.

#[local] Instance steps_get_thread tn th : Steps (on_threads (get_thread tn th)).
Proof. apply on_threads_steps. intros w. rewrite get_thread_same. apply rtc_refl. Qed.
#[local] Instance steps_get_message tn m : Steps (on_threads (get_message tn m)).
Proof. apply on_threads_steps. intros w. rewrite get_message_same. apply rtc_refl. Qed.
#[local] Instance steps_scalar {A} (l : list A) : Steps (on_threads (scalar_one_or_none l)).
Proof. apply on_threads_steps. intros w. rewrite scalar_read. apply rtc_refl. Qed.
#[local] Instance steps_append tn th a : Steps (on_threads (append_message tn th a)).
Proof. apply on_threads_steps. intros w. apply rtc_once, step_append. Qed.
#[local] Instance steps_event tn th ty d r : Steps (on_threads (append_event tn th ty d r)).
Proof. apply on_threads_steps. intros w. apply rtc_once, step_event. Qed.
#[local] Instance steps_fork tn th n c r : Steps (on_threads (fork_thread tn th n c r)).
Proof. apply on_threads_steps. intros w. apply rtc_once, step_fork. Qed.

#[local] Instance steps_uuid4 : Steps (on_threads uuid4).
Proof.
  apply on_threads_steps. intros w. apply rtc_once.
  pose proof (step_env w (S (used w)) (now w) (replica_dbs w) (conversations (db w)) ltac:(lia)) as Hs.
  destruct w as [[] ? ? ? ? ?]. exact Hs.
Qed.

#[local] Instance steps_insert_conversation c : Steps (insert_conversation c).
Proof.
  intros w. unfold insert_conversation. destruct (existsb _ _); [apply rtc_refl|]. cbn. apply rtc_once.
  pose proof (step_env (mw w) (used (mw w)) (now (mw w)) (replica_dbs (mw w))
    (conversations (db (mw w)) ++ [cv_id c]) ltac:(lia)) as Hs.
  exact Hs.
Qed.

#[local] Instance steps_audit a : Steps (audit_add a).
Proof.
  unfold audit_add. apply steps_bind; [apply _|]. intros id. apply steps_bind; [apply _|]. intros w w'.
  destruct (add _ _ _ _ _ _); apply rtc_refl.
Qed.

Ltac steps :=
  repeat first [ apply _ | apply steps_bind; [|intros ?] | apply steps_try; [|intros ?]
               | progress case_match ].

#[local] Instance steps_get_or_create tn s : Steps (get_or_create_conversation tn s).
Proof. unfold get_or_create_conversation. steps. Qed.

Lemma regenerate_steps tn th m at_ ai : Steps (regenerate tn th m at_ ai).
Proof. unfold regenerate. steps. Qed.
Lemma edit_steps tn th m c rc at_ ai : Steps (edit tn th m c rc at_ ai).
Proof. unfold edit. steps. Qed.
Lemma fork_steps tn th n at_ ai : Steps (fork tn th n at_ ai).
Proof. unfold fork. steps. Qed.

(** ** Inverting a mutation that returned *)

Lemma service_bind {A B} (c : service A) (f : A -> service B) w b w' :
  (c ≫= f) w = (Ret b, w') -> exists a w1, c w = (Ret a, w1) /\ f a w1 = (Ret b, w').
Proof. unfold mbind, io_bind. destruct (c w) as [[a|e] w1]; [|done]. by exists a, w1. Qed.

Lemma threads_ret {A} (c : store A) w a w' :
  on_threads c w = (Ret a, w') -> exists x, c (mw w) = (Ret a, x) /\ w' = put_mw x w.
Proof. unfold on_threads, lift. destruct (c (mw w)) as [[a'|e] x]; [|done]. intros [= -> <-]. by exists x. Qed.

Lemma read_ret {A} (c : store A) w a w' :
  (forall x, snd (c x) = x) -> on_threads c w = (Ret a, w') -> w' = w /\ fst (c (mw w)) = Ret a.
Proof.
  intros Hc (x & E & ->)%threads_ret. specialize (Hc (mw w)). rewrite E in Hc |- *. cbn in Hc. subst x.
  split; [by destruct w|done].
Qed.

Lemma get_message_found tn mid w m :
  fst (get_message tn mid w) = Ret (Some m) -> m ∈ messages (db w) /\ m_tenant_id m = tn /\ m_id m = mid.
Proof.
  unfold get_message, get_session, mbind, io_bind, query.
  destruct (List.filter _ (messages (db w))) as [|m' [|m'' l]] eqn:E; cbn; [done| |done]. intros [= ->].
  assert (Hm : In m [m]) by by left. rewrite <- E in Hm. apply filter_In in Hm as [Hm Ht].
  apply andb_true_iff in Ht as [H1%bool_decide_eq_true H2%bool_decide_eq_true].
  split_and!; [by apply list_elem_of_In|done|done].
Qed.

(** Without a request id an append is never taken for a duplicate. *)
Lemma append_plain tn th a w m d w' :
  a_request_id a = None -> append_message tn th a w = (Ret (m, d), w') -> d = false.
Proof.
  intros Ha H%session_ret. rewrite Ha in H. cbn in H. apply bind_ret in H as (o & w1 & [= <- <-] & H).
  by apply bind_ret in H as (m0 & w2 & _ & [= _ <- _]).
Qed.

Lemma append_fields tn th a w m w' :
  append_message tn th a w = (Ret (m, false), w') ->
  parent_message_id m = a_parent_message_id a /\ metadata_json m = default [] (a_metadata a)
  /\ m_end_user_id m = a_end_user_id a /\ m_conversation_id m = a_conversation_id a /\ m_tenant_id m = tn.
Proof.
  intros H%append_message_new. unfold append_new in H.
  apply bind_ret in H as (t & w1 & _ & H). apply bind_ret in H as (? & ? & [= <- <-] & H).
  apply bind_ret in H as (? & ? & [= <- <-] & H). apply bind_ret in H as (id & w2 & _ & H).
  apply bind_ret in H as (? & ? & [= <- <-] & H). apply bind_ret in H as (? & w3 & _ & H).
  apply bind_ret in H as (? & w4 & _ & H). apply bind_ret in H as (? & w5 & _ & H).
  apply bind_ret in H as (? & w6 & _ & [= <- _]). done.
Qed.

(** What one append of a mutation does to the store. *)
Lemma append_ret tn th a w m d w' :
  log_inv (mw w) -> a_request_id a = None ->
  on_threads (append_message tn th a) w = (Ret (m, d), w') ->
  log_inv (mw w') /\ log tn th (db (mw w')) = log tn th (db (mw w)) ++ [m]
  /\ (forall tn' th', th' <> th -> log tn' th' (db (mw w')) = log tn' th' (db (mw w)))
  /\ role m = a_role a /\ content m = a_content a
  /\ parent_message_id m = a_parent_message_id a /\ metadata_json m = default [] (a_metadata a)
  /\ m_end_user_id m = a_end_user_id a /\ m_tenant_id m = tn
  /\ conversation_rows w' = conversation_rows w /\ audit_rows w' = audit_rows w.
Proof.
  intros Hi Ha (x & Hx & ->)%threads_ret. assert (d = false) as -> by by eapply append_plain.
  pose proof (append_message_inv tn th a (mw w) Hi) as Hi'. rewrite Hx in Hi'.
  destruct (append_fields _ _ _ _ _ _ Hx) as (? & ? & ? & ? & ?).
  destruct (append_message_new_spec tn th a (mw w) m x Hi Hx) as (? & ? & ? & ? & ? & ? & _).
  cbn. by split_and!.
Qed.

Lemma event_ret tn th ty d r w e w' :
  on_threads (append_event tn th ty d r) w = (Ret e, w') ->
  (forall tn' th', log tn' th' (db (mw w')) = log tn' th' (db (mw w)))
  /\ conversation_rows w' = conversation_rows w /\ audit_rows w' = audit_rows w.
Proof.
  intros (x & Hx & ->)%threads_ret. split_and!; [|done|done]. intros tn' th'. cbn.
  pose proof (append_event_shape tn th ty d r (mw w)) as (_ & Hm & _). rewrite Hx in Hm. cbn in Hm.
  unfold log. by rewrite Hm.
Qed.

Lemma audit_ret a w u w' :
  audit_add a w = (Ret u, w') ->
  (forall tn' th', log tn' th' (db (mw w')) = log tn' th' (db (mw w)))
  /\ exists id, audit_rows w' = audit_rows w ++ [chained sha256 utc_iso id (audit_instant (mw w)) a (audit_rows w)].
Proof.
  intros H. apply service_bind in H as (id & w1 & (x & [= Hid <-] & ->)%threads_ret & H).
  apply service_bind in H as (w1' & ? & [= <- <-] & H). cbn in H.
  unfold add in H. destruct (existsb _ _); [done|]. injection H as _ <-. split; [done|]. by exists id.
Qed.

(** ** Where a target is refused *)

Class StoreOnly {A} (c : service A) : Prop :=
  store_only : forall w msg w', c w <> (Raise (InvalidTargetError msg), w').

#[local] Instance only_threads {A} (c : store A) : StoreOnly (on_threads c).
Proof. intros w msg w'. unfold on_threads, lift. by destruct (c (mw w)) as [[a|e] x]. Qed.
#[local] Instance only_ret {A} (a : A) : StoreOnly (mret a).
Proof. by intros w msg w'. Qed.
#[local] Instance only_bind {A B} (c : service A) (f : A -> service B) :
  StoreOnly c -> (forall a, StoreOnly (f a)) -> StoreOnly (c ≫= f).
Proof.
  intros Hc Hf w msg w'. specialize (Hc w). unfold mbind, io_bind. destruct (c w) as [[a|e] w1]; [apply Hf|].
  intros [= -> ->]. by apply (Hc msg w').
Qed.
#[local] Instance only_audit a : StoreOnly (audit_add a).
Proof.
  apply only_bind; [apply _|]. intros id w msg w'. unfold mbind, io_bind, get_st.
  by destruct (add _ _ _ _ _ _).
Qed.

Lemma refused_bind {A B} (c : service A) (f : A -> service B) w msg w' :
  StoreOnly c -> (c ≫= f) w = (Raise (InvalidTargetError msg), w') ->
  exists a w1, c w = (Ret a, w1) /\ f a w1 = (Raise (InvalidTargetError msg), w').
Proof.
  intros Hc. specialize (Hc w). unfold mbind, io_bind. destruct (c w) as [[a|e] w1]; [by exists a, w1|].
  intros [= -> ->]. by destruct (Hc msg w').
Qed.

Lemma regenerate_refused tn th mid at_ ai w msg w' :
  regenerate tn th mid at_ ai w = (Raise (InvalidTargetError msg), w') -> w' = w.
Proof.
  intros E. unfold regenerate in E.
  apply refused_bind in E as (t & w1 & [-> _]%(read_ret _ _ _ _ (get_thread_same tn th)) & E); [|apply _].
  destruct t as [t|]; [|done].
  apply refused_bind in E as (o & w1 & [-> _]%(read_ret _ _ _ _ (get_message_same tn mid)) & E); [|apply _].
  destruct o as [o|]; [|done]. destruct (bool_decide _); [|by injection E]. cbn [negb] in E.
  exfalso. revert E. match goal with |- ?c w = _ -> _ => change (c w <> (Raise (InvalidTargetError msg), w')) end.
  apply store_only.
Qed.

Lemma edit_refused tn th mid ct rc at_ ai w msg w' :
  edit tn th mid ct rc at_ ai w = (Raise (InvalidTargetError msg), w') -> w' = w.
Proof.
  intros E. unfold edit in E.
  apply refused_bind in E as (o & w1 & [-> _]%(read_ret _ _ _ _ (get_message_same tn mid)) & E); [|apply _].
  destruct o as [o|]; [|done]. destruct (bool_decide _); [|done]. cbn [negb] in E.
  apply refused_bind in E as (t & w1 & [-> _]%(read_ret _ _ _ _ (get_thread_same tn th)) & E); [|apply _].
  destruct t as [t|]; [|done]. destruct (bool_decide _); [|by injection E]. cbn [negb] in E.
  destruct (negb (truthy ct) || _); [by injection E|].
  exfalso. revert E. match goal with |- ?c w = _ -> _ => change (c w <> (Raise (InvalidTargetError msg), w')) end.
  apply store_only.
Qed.

Lemma edit_ret tn th mid ct rc at_ ai w orig m s w' :
  log_inv (mw w) -> edit tn th mid ct rc at_ ai w = (Ret (orig, m, s), w') ->
      orig ∈ messages (db (mw w)) /\ m_tenant_id orig = tn /\ m_id orig = mid
      /\ m_thread_id orig = th /\ role orig = "user" /\ truthy (strip ct) = true
      /\ log tn th (db (mw w')) = log tn th (db (mw w)) ++ [m; s]
      /\ (forall tn' th', th' <> th -> log tn' th' (db (mw w')) = log tn' th' (db (mw w)))
      /\ role m = "user" /\ content m = ct /\ parent_message_id m = parent_message_id orig
      /\ role s = "assistant" /\ content s = EmptyString /\ parent_message_id s = Some (m_id m)
      /\ m_end_user_id m = None /\ m_tenant_id m = tn
      /\ exists row, audit_rows w' = audit_rows w ++ [row] /\ action row = "thread.message_edited"
                     /\ resource_id row = Some th.
Proof.
  intros Hi E.
  unfold edit in E. apply service_bind in E as (o & w1 & [-> Ho]%(read_ret _ _ _ _ (get_message_same tn mid)) & E).
  destruct o as [o|]; [|done]. apply get_message_found in Ho as (Hm & Ht & Hid).
  destruct (bool_decide (m_thread_id o = th)) eqn:Eth; [|done]. apply bool_decide_eq_true in Eth. cbn [negb] in E.
  apply service_bind in E as (t & w1 & [-> _]%(read_ret _ _ _ _ (get_thread_same tn th)) & E).
  destruct t as [t|]; [|done].
  destruct (bool_decide _) eqn:Er; [|done]. apply bool_decide_eq_true in Er. cbn [negb] in E.
  destruct (negb (truthy ct) || negb (truthy (strip ct))) eqn:Eblank; [done|].
  apply orb_false_iff in Eblank as [_ Eblank%negb_false_iff].
  apply service_bind in E as ([m' d] & w1 & Ha%append_ret & E); [|done|done].
  destruct Ha as (Hi1 & Hlog & Hother & Hrole & Hcont & Hpar & _ & Heu & Htn & _ & Hau).
  apply service_bind in E as ([s' d'] & w2 & Ha%append_ret & E); [|done|done].
  destruct Ha as (Hi2 & Hlog2 & Hother2 & Hrole2 & Hcont2 & Hpar2 & _ & _ & _ & _ & Hau2).
  apply service_bind in E as (ev & w3 & (Hlog3 & _ & Hau3)%event_ret & E).
  apply service_bind in E as (u & w4 & (Hlog4 & id & Hau4)%audit_ret & E). injection E as <- <- <- <-.
  cbn in Hrole, Hcont, Hpar, Heu, Hrole2, Hcont2, Hpar2 |- *.
  split_and!; try done.
  - rewrite Hlog4, Hlog3, Hlog2, Hlog. by rewrite <- app_assoc.
  - intros tn' th' Hne. rewrite Hlog4, Hlog3, Hother2 by done. by apply Hother.
  - eexists. rewrite Hau4, Hau3, Hau2, Hau. by split_and!.
Qed.

(** ** Properties *)

(** A mutation is a history of the thread store, however it ends: whatever is
    proved of every history (contiguous logs, append-only logs) holds through
    regenerations, edits and forks. *)
Theorem mutations_are_histories (tn th mid content_ at_ : string) (rc ai : option string) (n : Z)
    (w : mutation_world) :
  rtc step (mw w) (mw (snd (regenerate tn th mid at_ ai w)))
  /\ rtc step (mw w) (mw (snd (edit tn th mid content_ rc at_ ai w)))
  /\ rtc step (mw w) (mw (snd (fork tn th n at_ ai w))).
Proof. split_and!; [apply regenerate_steps|apply edit_steps|apply fork_steps]. Qed.

(** Regenerate adds one pending assistant message to the end of the thread's
    log, whose parent is the original, an assistant message of the tenant (in
    whatever thread), and one audit row; the other logs are left as they are.
    A target that is no assistant message changes nothing. *)
Theorem regenerate_spec (tn th mid at_ : string) (ai : option string) (w : mutation_world) :
  log_inv (mw w) ->
  match regenerate tn th mid at_ ai w with
  | (Ret (orig, r), w') =>
      orig ∈ messages (db (mw w)) /\ m_tenant_id orig = tn /\ m_id orig = mid /\ role orig = "assistant"
      /\ log tn th (db (mw w')) = log tn th (db (mw w)) ++ [r]
      /\ (forall tn' th', th' <> th -> log tn' th' (db (mw w')) = log tn' th' (db (mw w)))
      /\ role r = "assistant" /\ content r = EmptyString /\ parent_message_id r = Some mid
      /\ metadata_json r = [("status", JStr PENDING_GENERATION); ("regenerated_from", JStr mid)]
      /\ exists row, audit_rows w' = audit_rows w ++ [row] /\ action row = "thread.regenerated"
                     /\ resource_id row = Some th
  | (Raise (InvalidTargetError _), w') => w' = w
  | (Raise _, w') => messages (db (mw w)) `prefix_of` messages (db (mw w'))
  end.
Proof.
  intros Hi. destruct (regenerate tn th mid at_ ai w) as [[[orig r]|e] w'] eqn:E.
  - unfold regenerate in E. apply service_bind in E as (t & w1 & [-> _]%(read_ret _ _ _ _ (get_thread_same tn th)) & E).
    destruct t as [t|]; [|done].
    apply service_bind in E as (o & w1 & [-> Ho]%(read_ret _ _ _ _ (get_message_same tn mid)) & E).
    destruct o as [o|]; [|done]. apply get_message_found in Ho as (Hm & Ht & Hid).
    destruct (bool_decide _) eqn:Er; [|done]. apply bool_decide_eq_true in Er. cbn [negb] in E.
    apply service_bind in E as ([r' d] & w1 & Ha%append_ret & E); [|done|done].
    destruct Ha as (_ & Hlog & Hother & Hrole & Hcont & Hpar & Hmeta & _ & _ & _ & Hau).
    apply service_bind in E as (ev & w2 & (Hlog2 & _ & Hau2)%event_ret & E).
    apply service_bind in E as (u & w3 & (Hlog3 & id & Hau3)%audit_ret & E). injection E as <- <- <-.
    cbn in Hrole, Hcont, Hpar, Hmeta |- *. rewrite Hid in Hpar, Hmeta.
    split_and!; try done.
    + by rewrite Hlog3, Hlog2.
    + intros tn' th' Hne. rewrite Hlog3, Hlog2. by apply Hother.
    + eexists. rewrite Hau3, Hau2, Hau. by split_and!.
  - assert (Hpre : messages (db (mw w)) `prefix_of` messages (db (mw w'))).
    { pose proof (steps_appends _ _ (regenerate_steps tn th mid at_ ai w)) as Ha. by rewrite E in Ha. }
    destruct e as [e|msg|]; [done| |done]. by eapply regenerate_refused.
Qed.

(** Edit adds, at the end of the thread's log, the new user message, with the
    parent of the original, and a pending assistant message whose parent it
    is; the original, a user message of the same thread, stays, and so do the
    other logs.  A target that is no user message, or a blank text, changes
    nothing. *)
Theorem edit_spec (tn th mid ct at_ : string) (rc ai : option string) (w : mutation_world) :
  log_inv (mw w) ->
  match edit tn th mid ct rc at_ ai w with
  | (Ret (orig, m, s), w') =>
      orig ∈ messages (db (mw w)) /\ m_tenant_id orig = tn /\ m_id orig = mid
      /\ m_thread_id orig = th /\ role orig = "user" /\ truthy (strip ct) = true
      /\ log tn th (db (mw w')) = log tn th (db (mw w)) ++ [m; s]
      /\ (forall tn' th', th' <> th -> log tn' th' (db (mw w')) = log tn' th' (db (mw w)))
      /\ role m = "user" /\ content m = ct /\ parent_message_id m = parent_message_id orig
      /\ role s = "assistant" /\ content s = EmptyString /\ parent_message_id s = Some (m_id m)
      /\ m_end_user_id m = None /\ m_tenant_id m = tn
      /\ exists row, audit_rows w' = audit_rows w ++ [row] /\ action row = "thread.message_edited"
                     /\ resource_id row = Some th
  | (Raise (InvalidTargetError _), w') => w' = w
  | (Raise _, w') => messages (db (mw w)) `prefix_of` messages (db (mw w'))
  end.
Proof.
  intros Hi. destruct (edit tn th mid ct rc at_ ai w) as [[[[orig m] s]|e] w'] eqn:E.
  - by eapply edit_ret.
  - assert (Hpre : messages (db (mw w)) `prefix_of` messages (db (mw w'))).
    { pose proof (steps_appends _ _ (edit_steps tn th mid ct rc at_ ai w)) as Ha. by rewrite E in Ha. }
    destruct e as [e|msg|]; [done| |done]. by eapply edit_refused.
Qed.

(** Erasure misses edits: the text a user sent by editing a message is not
    recorded as the user's, so erasing the user's messages leaves it. *)
Theorem edited_text_survives_erasure (tn th mid ct at_ eu : string) (rc ai : option string)
    (w w' : mutation_world) (orig m s : MessageModel) :
  log_inv (mw w) -> m_end_user_id orig = Some eu ->
  edit tn th mid ct rc at_ ai w = (Ret (orig, m, s), w') ->
  let d := snd (delete_messages_by_end_user tn eu (db (mw w'))) in
  m ∈ messages d /\ content m = ct /\ orig ∉ messages d.
Proof.
  intros Hi Heu E. destruct (edit_ret _ _ _ _ _ _ _ _ _ _ _ _ Hi E) as (_ & Ht & _ & _ & _ & _ & Hlog & _ & _ & Hct & _ & _ & _ & _ & Hnone & Htn & _).
  assert (Hm : m ∈ messages (db (mw w'))).
  { assert (Hin : m ∈ log tn th (db (mw w'))) by (rewrite Hlog; set_solver).
    by apply elem_of_log in Hin as [Hin _]. }
  cbn zeta. split_and!; [|done|].
  - cbn. apply list_elem_of_In, filter_In. split; [by apply list_elem_of_In|]. rewrite Hnone.
    by rewrite andb_false_r.
  - cbn. intros Hin%list_elem_of_In. apply filter_In in Hin as [_ Hin]. revert Hin.
    rewrite Ht, Heu. by rewrite !bool_decide_true.
Qed.

End service.

(** ** Mutations of the example store *)

Definition sample_mutations : mutation_world := {|
  mw := w3;
  conversation_rows := [{| cv_id := "c1"; cv_tenant_id := "t1"; session_id := "s1"; cv_status := "active";
                           is_escalated := false |}];
  audit_rows := [] |}.

Lemma sample_mutations_inv : log_inv (mw sample_mutations).
Proof. apply w3_owned. Qed.

Definition after_edit :=
  edit toy_sha256 toy_iso "t1" "u0" "u2" "hello again" None "user" None sample_mutations.

Lemma regenerate_spec_witness :
  match regenerate toy_sha256 toy_iso "t1" "u0" "u5" "user" None sample_mutations with
  | (Ret (orig, r), w') =>
      log "t1" "u0" (db (mw w')) = log "t1" "u0" (db w3) ++ [r] /\ parent_message_id r = Some "u5"
  | _ => False
  end.
Proof.
  pose proof (regenerate_spec toy_sha256 toy_iso "t1" "u0" "u5" "user" None sample_mutations
                sample_mutations_inv) as Hs.
  assert (Hr : match regenerate toy_sha256 toy_iso "t1" "u0" "u5" "user" None sample_mutations with
               | (Ret _, _) => True | _ => False end) by (vm_compute; exact I).
  destruct (regenerate _ _ _ _ _ _ _ _) as [[[orig r]|e] w']; [|destruct Hr].
  destruct Hs as (_ & _ & _ & _ & Hlog & _ & _ & _ & Hp & _). split; [exact Hlog|exact Hp].
Defined.

Lemma edit_spec_witness :
  match after_edit with
  | (Ret (orig, m, s), w') =>
      log "t1" "u0" (db (mw w')) = log "t1" "u0" (db w3) ++ [m; s] /\ content m = "hello again"
  | _ => False
  end.
Proof.
  pose proof (edit_spec toy_sha256 toy_iso "t1" "u0" "u2" "hello again" "user" None None sample_mutations
                sample_mutations_inv) as Hs.
  fold after_edit in Hs.
  assert (Hr : match after_edit with (Ret _, _) => True | _ => False end) by (vm_compute; exact I).
  destruct after_edit as [[[[orig m] s]|e] w']; [|destruct Hr].
  destruct Hs as (_ & _ & _ & _ & _ & _ & Hlog & _ & _ & Hc & _). split; [exact Hlog|exact Hc].
Defined.

Lemma edited_text_survives_erasure_witness :
  match after_edit with
  | (Ret (orig, m, s), w') =>
      m ∈ messages (snd (delete_messages_by_end_user "t1" "eu1" (db (mw w')))) /\ content m = "hello again"
  | _ => False
  end.
Proof.
  pose proof (fun orig m s w' => edited_text_survives_erasure toy_sha256 toy_iso "t1" "u0" "u2" "hello again"
    "user" "eu1" None None sample_mutations w' orig m s sample_mutations_inv) as Hs.
  fold after_edit in Hs.
  assert (Hr : match after_edit with (Ret (orig, _, _), _) => m_end_user_id orig = Some "eu1" | _ => False end)
    by (vm_compute; reflexivity).
  destruct after_edit as [[[[orig m] s]|e] w']; [|destruct Hr].
  destruct (Hs orig m s w' Hr eq_refl) as (Hm & Hc & _). split; [exact Hm|exact Hc].
Defined.

(** A fork that is refused leaves its conversation behind. *)
Example refused_fork_leaves_conversation :
  match fork toy_sha256 toy_iso "t1" "u0" 9 "user" None sample_mutations with
  | (Raise (InvalidTargetError _), w') => length (conversation_rows w') = 2%nat /\ length (threads (db (mw w'))) = 1%nat
  | _ => False
  end.
Proof. vm_compute. by split. Qed.

(** The message of one thread, regenerated in another. *)
Example regenerate_crosses_threads :
  let other := put_mw (snd (create_thread "t1" "c2" None None None w3)) sample_mutations in
  match regenerate toy_sha256 toy_iso "t1" "u9" "u5" "user" None other with
  | (Ret (orig, r), _) => m_thread_id orig = "u0" /\ m_thread_id r = "u9" /\ parent_message_id r = Some "u5"
  | _ => False
  end.
Proof. vm_compute. by split_and!. Qed.
