(* ===== verification/SessionTokens.v ===== *)
(** * Session tokens (backend/app/session/tokens.py)

    End-user identities and the registry of session tokens (EndUserRepository
    and SessionTokenRepository of repositories.py), and the service that mints
    a bearer token, resolves it and revokes it.  Fernet, a third-party cipher,
    is a parameter; what the code relies on is that it decrypts what it
    encrypted.  Instants are microseconds. *)

From S2P Require Import Prelude.

Record EndUserModel := {
  eu_id : string;
  eu_tenant_id : string;
  external_id : option string;
  anonymous_identity : option string;
  display_name : option string;
  eu_status : string;
}.

Record SessionTokenModel := {
  st_id : string;                       (* jti *)
  st_tenant_id : string;
  st_end_user_id : string;
  st_surface_id : option string;
  st_device_id : option string;
  st_scopes : list string;
  st_expires_at : Z;
  revoked_at : option Z;
}.

(** The encrypted payload. *)
Record claims := {
  jti : string;
  c_tenant_id : string;
  c_end_user_id : string;
  c_surface_id : option string;
  c_device_id : option string;
  c_scopes : list string;
  c_iat : Z;
  c_exp : Z;
}.

Record SessionPrincipal := {
  token_id : string;
  sp_tenant_id : string;
  sp_end_user_id : string;
  sp_surface_id : option string;
  sp_device_id : option string;
  sp_scopes : list string;
  sp_expires_at : Z;
}.

Inductive token_exc :=
| SessionTokenError (message : string)
| InvalidSessionToken (message : string)
| ExpiredSessionToken
| RevokedSessionToken
| UnknownEndUserError (message : string)
| TokenIntegrityError                   (* the database's *)
| TokenMultipleResults.

(** The tables, the random source of ids and of the cipher, the clock. *)
Record token_world := {
  end_users : list EndUserModel;
  session_tokens : list SessionTokenModel;
  tk_uuids : nat -> string;
  tk_used : nat;
  tk_now : Z;
}.

Abbreviation tokens A := (io token_world token_exc A).

Definition with_end_users (l : list EndUserModel) (w : token_world) : token_world :=
  {| end_users := l; session_tokens := session_tokens w; tk_uuids := tk_uuids w; tk_used := tk_used w;
     tk_now := tk_now w |}.
Definition with_tokens (l : list SessionTokenModel) (w : token_world) : token_world :=
  {| end_users := end_users w; session_tokens := l; tk_uuids := tk_uuids w; tk_used := tk_used w;
     tk_now := tk_now w |}.

Definition tk_uuid4 : tokens string := fun w =>
  (Ret (tk_uuids w (tk_used w)),
   {| end_users := end_users w; session_tokens := session_tokens w; tk_uuids := tk_uuids w;
      tk_used := S (tk_used w); tk_now := tk_now w |}).

Definition tk_one {A} (l : list A) : tokens (option A) :=
  match l with [] => mret None | [x] => mret (Some x) | _ => throw TokenMultipleResults end.

(** ** EndUserRepository *)

Definition select_end_user (tenant_id end_user_id : string) (l : list EndUserModel) :=
  List.filter (fun e => bool_decide (eu_tenant_id e = tenant_id) && bool_decide (eu_id e = end_user_id)) l.

Definition select_anonymous (tenant_id identity : string) (l : list EndUserModel) :=
  List.filter (fun e => bool_decide (eu_tenant_id e = tenant_id)
                        && bool_decide (anonymous_identity e = Some identity)) l.

Definition eu_get_by_id (tenant_id end_user_id : string) : tokens (option EndUserModel) :=
  w ← get_st; tk_one (select_end_user tenant_id end_user_id (end_users w)).

(** models.py: the primary key and the two unique constraints (NULLs differ). *)
Definition same_key (a b : option string) : bool :=
  match a, b with Some x, Some y => bool_decide (x = y) | _, _ => false end.
Definition end_user_conflict (e e' : EndUserModel) : bool :=
  bool_decide (eu_id e' = eu_id e)
  || bool_decide (eu_tenant_id e' = eu_tenant_id e)
     && (same_key (external_id e') (external_id e) || same_key (anonymous_identity e') (anonymous_identity e)).

Definition insert_end_user (e : EndUserModel) : tokens unit := fun w =>
  if existsb (end_user_conflict e) (end_users w) then (Raise TokenIntegrityError, w)
  else (Ret tt, with_end_users (end_users w ++ [e]) w).

(** [race] is what other transactions commit between the look-up and the
    insert: a row they insert first makes this one fail, and is read back. *)
Definition get_or_create_anonymous (race : list EndUserModel) (tenant_id identity : string)
    (name : option string) : tokens EndUserModel :=
  w ← get_st;
  row ← tk_one (select_anonymous tenant_id identity (end_users w));
  match row with
  | Some e => mret e
  | None =>
      id ← tk_uuid4;
      _ ← modify (fun w => with_end_users (end_users w ++ race) w);
      let e := {| eu_id := id; eu_tenant_id := tenant_id; external_id := None;
                  anonymous_identity := Some identity; display_name := name; eu_status := "active" |} in
      try_catch (_ ← insert_end_user e; mret e)
        (fun exc => w ← get_st;
                    row ← tk_one (select_anonymous tenant_id identity (end_users w));
                    match row with Some e => mret e | None => throw exc end)
  end.

Definition create_authenticated (tenant_id ext : string) (name : option string) : tokens EndUserModel :=
  id ← tk_uuid4;
  let e := {| eu_id := id; eu_tenant_id := tenant_id; external_id := Some ext;
              anonymous_identity := None; display_name := name; eu_status := "active" |} in
  _ ← insert_end_user e;
  mret e.

Definition eu_set_status (tenant_id end_user_id status : string) : tokens bool := fun w =>
  let hit e := bool_decide (eu_tenant_id e = tenant_id) && bool_decide (eu_id e = end_user_id) in
  (Ret (existsb hit (end_users w)),
   with_end_users (map (fun e => if hit e then
     {| eu_id := eu_id e; eu_tenant_id := eu_tenant_id e; external_id := external_id e;
        anonymous_identity := anonymous_identity e; display_name := display_name e;
        eu_status := status |} else e) (end_users w)) w).

(** ** SessionTokenRepository *)

Definition st_create (row : SessionTokenModel) : tokens unit := fun w =>
  if existsb (fun r => bool_decide (st_id r = st_id row)) (session_tokens w)
     || negb (existsb (fun e => bool_decide (eu_id e = st_end_user_id row)) (end_users w))
  then (Raise TokenIntegrityError, w)
  else (Ret tt, with_tokens (session_tokens w ++ [row]) w).

Definition st_get (id : string) : tokens (option SessionTokenModel) :=
  w ← get_st; tk_one (List.filter (fun r => bool_decide (st_id r = id)) (session_tokens w)).

Definition revoked (t : Z) (r : SessionTokenModel) : SessionTokenModel := {|
  st_id := st_id r; st_tenant_id := st_tenant_id r; st_end_user_id := st_end_user_id r;
  st_surface_id := st_surface_id r; st_device_id := st_device_id r; st_scopes := st_scopes r;
  st_expires_at := st_expires_at r; revoked_at := Some t |}.

Definition live (r : SessionTokenModel) : bool := match revoked_at r with None => true | Some _ => false end.

(** UPDATE of the live rows that match, to the present instant. *)
Definition revoke_where (sel : SessionTokenModel -> bool) : tokens Z := fun w =>
  let hit r := sel r && live r in
  (Ret (Z.of_nat (length (List.filter hit (session_tokens w)))),
   with_tokens (map (fun r => if hit r then revoked (tk_now w) r else r) (session_tokens w)) w).

Definition st_revoke (id : string) : tokens bool :=
  n ← revoke_where (fun r => bool_decide (st_id r = id)); mret (0 <? n).

Definition revoke_all_for_end_user (tenant_id end_user_id : string) : tokens Z :=
  revoke_where (fun r => bool_decide (st_tenant_id r = tenant_id) && bool_decide (st_end_user_id r = end_user_id)).

Definition prune_expired (tenant_id : string) (before : Z) : tokens Z := fun w =>
  let gone r := bool_decide (st_tenant_id r = tenant_id) && (st_expires_at r <? before) && negb (live r) in
  (Ret (Z.of_nat (length (List.filter gone (session_tokens w)))),
   with_tokens (List.filter (fun r => negb (gone r)) (session_tokens w)) w).

(** ** The service *)

Section service.
Context (key_setting key_file : option string) (valid_key : string -> bool) (generated_key : string).
Context (is_production : bool) (default_ttl : Z).
(** Fernet: the key, the randomness of the call and the payload. *)
Context (encrypt : string -> nat -> claims -> string) (decrypt : string -> string -> option claims).

Definition _token_key : string + token_exc :=
  if truthy_opt key_setting then
    let k := default EmptyString key_setting in
    if valid_key k then inl k
    else inr (SessionTokenError "SESSION_TOKEN_ENCRYPTION_KEY is not a valid Fernet key")
  else
    match key_file with
    | Some k => inl (strip k)
    | None =>
        if is_production then
          inr (SessionTokenError ("SESSION_TOKEN_ENCRYPTION_KEY is not set; refusing to auto-generate"
                                  +:+ " a token key in production"))
        else inl generated_key
    end.

Definition the_key : tokens string :=
  match _token_key with inl k => mret k | inr e => throw e end.

Record minted := { token : string; mi_expires_at : Z; mi_end_user_id : string }.

Definition mint_user (race : list EndUserModel) (tenant_id : string) (device_id end_user_id : option string) :
    tokens EndUserModel :=
  if truthy_opt end_user_id then
    let id := default EmptyString end_user_id in
    e ← eu_get_by_id tenant_id id;
    match e with
    | None => throw (UnknownEndUserError ("end user " +:+ id +:+ " does not exist for tenant " +:+ tenant_id))
    | Some e => mret e
    end
  else if truthy_opt device_id then
    get_or_create_anonymous race tenant_id ("anon:" +:+ default EmptyString device_id) None
  else throw (UnknownEndUserError "device_id is required for anonymous bootstrap").

(** [ttl_seconds or settings.SESSION_TOKEN_TTL_SECONDS] *)
Definition token_ttl (ttl_seconds : option Z) : Z :=
  match ttl_seconds with Some t => if t =? 0 then default_ttl else t | None => default_ttl end.

Definition mint (race : list EndUserModel) (tenant_id : string)
    (device_id end_user_id surface_id : option string) (scopes : option (list string))
    (ttl_seconds : option Z) : tokens minted :=
  end_user ← mint_user race tenant_id device_id end_user_id;
  id ← tk_uuid4;
  w ← get_st;
  let issued_at := tk_now w in
  let expires_at := issued_at + token_ttl ttl_seconds * 1000000 in
  let payload := {| jti := id; c_tenant_id := tenant_id; c_end_user_id := eu_id end_user;
                    c_surface_id := surface_id; c_device_id := device_id;
                    c_scopes := default [] scopes; c_iat := issued_at; c_exp := expires_at |} in
  key ← the_key;
  let text := encrypt key (tk_used w) payload in
  _ ← st_create {| st_id := id; st_tenant_id := tenant_id; st_end_user_id := eu_id end_user;
                   st_surface_id := surface_id; st_device_id := device_id;
                   st_scopes := default [] scopes; st_expires_at := expires_at; revoked_at := None |};
  mret {| token := text; mi_expires_at := expires_at; mi_end_user_id := eu_id end_user |}.

(** Any failure to decrypt, the key's included, is an invalid token. *)
Definition decrypted (text : string) : option claims :=
  match _token_key with inl k => decrypt k text | inr _ => None end.

Definition principal_of (c : claims) : SessionPrincipal := {|
  token_id := jti c; sp_tenant_id := c_tenant_id c; sp_end_user_id := c_end_user_id c;
  sp_surface_id := c_surface_id c; sp_device_id := c_device_id c; sp_scopes := c_scopes c;
  sp_expires_at := c_exp c |}.

Definition resolve (text : string) : tokens SessionPrincipal :=
  match decrypted text with
  | None => throw (InvalidSessionToken "token is not a valid session token")
  | Some c =>
      w ← get_st;
      if c_exp c <=? tk_now w then throw ExpiredSessionToken
      else
        row ← st_get (jti c);
        match row with
        | None => throw (InvalidSessionToken "token not found in registry")
        | Some row =>
            if negb (live row) then throw RevokedSessionToken
            else if negb (bool_decide (st_tenant_id row = c_tenant_id c)) then
              throw (InvalidSessionToken "token claims do not match registry")
            else mret (principal_of c)
        end
  end.

(** [except SessionTokenError]: the service's own exceptions, no others. *)
Definition is_token_error (e : token_exc) : bool :=
  match e with TokenIntegrityError | TokenMultipleResults => false | _ => true end.

Definition revoke (text : string) : tokens bool :=
  found ← try_catch (p ← resolve text; mret (Some p))
            (fun e => if is_token_error e then mret None else throw e);
  match found with
  | None => mret false
  | Some p => st_revoke (token_id p)
  end.

(** ** Histories of calls *)

Inductive event :=
| DoMint (race : list EndUserModel) (tenant_id : string) (device_id end_user_id surface_id : option string)
    (scopes : option (list string)) (ttl_seconds : option Z)
| DoRevoke (text : string)
| DoRevokeAll (tenant_id end_user_id : string)
| DoPrune (tenant_id : string) (before : Z)
| DoStatus (tenant_id end_user_id status : string)
| DoAuthenticate (tenant_id ext : string) (name : option string)
| DoWait (microseconds : N).

Definition run_event (w : token_world) (ev : event) : token_world :=
  match ev with
  | DoMint race tn d e s sc ttl => snd (mint race tn d e s sc ttl w)
  | DoRevoke text => snd (revoke text w)
  | DoRevokeAll tn e => snd (revoke_all_for_end_user tn e w)
  | DoPrune tn before => snd (prune_expired tn before w)
  | DoStatus tn e s => snd (eu_set_status tn e s w)
  | DoAuthenticate tn x n => snd (create_authenticated tn x n w)
  | DoWait us => {| end_users := end_users w; session_tokens := session_tokens w; tk_uuids := tk_uuids w;
                    tk_used := tk_used w; tk_now := tk_now w + Z.of_N us |}
  end.

(** The event asks for the revocation of this token. *)
Definition revokes (row : SessionTokenModel) (ev : event) : bool :=
  match ev with
  | DoRevoke text => match decrypted text with Some c => bool_decide (jti c = st_id row) | None => false end
  | DoRevokeAll tn e => bool_decide (st_tenant_id row = tn) && bool_decide (st_end_user_id row = e)
  | _ => false
  end.

(** ** What the calls do to the registry *)

(** Calls that leave the registry alone; they may draw from the random source. *)
Definition same_registry (w w' : token_world) : Prop :=
  session_tokens w' = session_tokens w /\ tk_uuids w' = tk_uuids w /\ (tk_used w <= tk_used w')%nat
  /\ tk_now w' = tk_now w.

#[local] Instance same_registry_preorder : PreOrder same_registry.
Proof.
  split; [intros w; split_and!; [done|done|lia|done]|]. intros w1 w2 w3 (? & ? & ? & ?) (? & ? & ? & ?). split_and!; try congruence. lia.
Qed.

(** Every end user stays, with the same identity. *)
Definition users_stay (w w' : token_world) : Prop :=
  forall e, e ∈ end_users w ->
    exists e', e' ∈ end_users w' /\ eu_id e' = eu_id e /\ eu_tenant_id e' = eu_tenant_id e
               /\ anonymous_identity e' = anonymous_identity e.

#[local] Instance users_stay_preorder : PreOrder users_stay.
Proof.
  split; [intros w e He; by exists e|]. intros w1 w2 w3 H12 H23 e He.
  destruct (H12 e He) as (e2 & He2 & ? & ? & ?). destruct (H23 e2 He2) as (e3 & He3 & ? & ? & ?).
  exists e3. split_and!; [done|congruence..].
Qed.

Lemma users_stay_eq w w' : end_users w' = end_users w -> users_stay w w'.
Proof. intros E e He. exists e. by rewrite E. Qed.

Lemma users_stay_app w w' l : end_users w' = end_users w ++ l -> users_stay w w'.
Proof. intros E e He. exists e. rewrite E. split_and!; [|done..]. apply elem_of_app. by left. Qed.

(** [R] relates the states before and after the call, however it ends. *)
Class Keeps {A} (R : token_world -> token_world -> Prop) (c : tokens A) : Prop :=
  keeps : forall w, R w (snd (c w)).

#[local] Instance keeps_bind {A B} R `{!PreOrder R} (c : tokens A) (f : A -> tokens B) :
  Keeps R c -> (forall a, Keeps R (f a)) -> Keeps R (c ≫= f).
Proof.
  intros Hc Hf w. specialize (Hc w). unfold mbind, io_bind. destruct (c w) as [[a|e] w1]; [|exact Hc].
  etrans; [exact Hc|apply Hf].
Qed.
#[local] Instance keeps_try {A} R `{!PreOrder R} (c : tokens A) (h : token_exc -> tokens A) :
  Keeps R c -> (forall e, Keeps R (h e)) -> Keeps R (try_catch c h).
Proof.
  intros Hc Hh w. specialize (Hc w). unfold try_catch. destruct (c w) as [[a|e] w1]; [exact Hc|].
  etrans; [exact Hc|apply Hh].
Qed.
#[local] Instance keeps_ret {A} R `{!PreOrder R} (a : A) : Keeps R (mret a).
Proof. intros w. exact (reflexivity w). Qed.
#[local] Instance keeps_throw {A} R `{!PreOrder R} e : Keeps R (@throw token_world token_exc A e).
Proof. intros w. exact (reflexivity w). Qed.
#[local] Instance keeps_get R `{!PreOrder R} : Keeps R get_st.
Proof. intros w. exact (reflexivity w). Qed.
#[local] Instance keeps_one {A} R `{!PreOrder R} (l : list A) : Keeps R (tk_one l).
Proof. intros w. destruct l as [|x [|y l]]; exact (reflexivity w). Qed.
#[local] Instance keeps_key R `{!PreOrder R} : Keeps R the_key.
Proof. unfold the_key. destruct _token_key; apply _. Qed.

#[local] Instance quiet_uuid : Keeps same_registry tk_uuid4.
Proof. intros w. split_and!; cbn; [done|done|lia|done]. Qed.
#[local] Instance quiet_insert e : Keeps same_registry (insert_end_user e).
Proof.
  intros w. unfold insert_end_user. destruct (existsb _ _); [exact (reflexivity w)|].
  split_and!; [done|done|cbn; lia|done].
Qed.
#[local] Instance quiet_users f : Keeps same_registry (modify (fun w => with_end_users (f w) w)).
Proof. intros w. split_and!; [done|done|cbn; lia|done]. Qed.
#[local] Instance quiet_status tn e s : Keeps same_registry (eu_set_status tn e s).
Proof. intros w. split_and!; [done|done|cbn; lia|done]. Qed.

#[local] Instance stay_uuid : Keeps users_stay tk_uuid4.
Proof. intros w. by apply users_stay_eq. Qed.
#[local] Instance stay_insert e : Keeps users_stay (insert_end_user e).
Proof.
  intros w. unfold insert_end_user. destruct (existsb _ _); [exact (reflexivity w)|]. by eapply users_stay_app.
Qed.
#[local] Instance stay_race l : Keeps users_stay (modify (fun w => with_end_users (end_users w ++ l) w)).
Proof. intros w. by eapply users_stay_app. Qed.
#[local] Instance stay_status tn e s : Keeps users_stay (eu_set_status tn e s).
Proof.
  intros w u Hu. eexists. cbn. split; [apply list_elem_of_fmap; exists u; split; [reflexivity|done]|].
  by destruct (_ && _).
Qed.
#[local] Instance stay_create r : Keeps users_stay (st_create r).
Proof. intros w. unfold st_create. destruct (_ || _); [exact (reflexivity w)|by apply users_stay_eq]. Qed.
#[local] Instance stay_revoke sel : Keeps users_stay (revoke_where sel).
Proof. intros w. by apply users_stay_eq. Qed.
#[local] Instance stay_prune tn b : Keeps users_stay (prune_expired tn b).
Proof. intros w. by apply users_stay_eq. Qed.

Ltac keeps :=
  repeat first [ apply _ | apply keeps_bind; [apply _| |intros ?] | apply keeps_try; [apply _| |intros ?]
               | progress case_match ].

#[local] Instance quiet_anonymous race tn i n : Keeps same_registry (get_or_create_anonymous race tn i n).
Proof. unfold get_or_create_anonymous. keeps. Qed.
#[local] Instance quiet_authenticated tn x n : Keeps same_registry (create_authenticated tn x n).
Proof. unfold create_authenticated. keeps. Qed.
#[local] Instance quiet_mint_user race tn d e : Keeps same_registry (mint_user race tn d e).
Proof. unfold mint_user, eu_get_by_id. keeps. Qed.
#[local] Instance keeps_resolve R `{!PreOrder R} text : Keeps R (resolve text).
Proof. unfold resolve, st_get. keeps. Qed.

#[local] Instance stay_anonymous race tn i n : Keeps users_stay (get_or_create_anonymous race tn i n).
Proof. unfold get_or_create_anonymous. keeps. Qed.
#[local] Instance stay_authenticated tn x n : Keeps users_stay (create_authenticated tn x n).
Proof. unfold create_authenticated. keeps. Qed.
#[local] Instance stay_mint race tn d e s sc ttl : Keeps users_stay (mint race tn d e s sc ttl).
Proof. unfold mint, mint_user, eu_get_by_id. keeps. Qed.
#[local] Instance stay_revoke_text text : Keeps users_stay (revoke text).
Proof. unfold revoke, st_revoke. keeps. Qed.

(** Every other change: a new row under a fresh id, revocations, removals of
    revoked rows. *)
Inductive registry_change (w w' : token_world) : Prop :=
| rc_same : session_tokens w' = session_tokens w -> registry_change w w'
| rc_added row k : session_tokens w' = session_tokens w ++ [row] -> st_id row = tk_uuids w k ->
    (tk_used w <= k < tk_used w')%nat -> st_id row ∉ map st_id (session_tokens w) -> registry_change w w'
| rc_revoked sel t :
    session_tokens w' = map (fun r => if sel r && live r then revoked t r else r) (session_tokens w) ->
    registry_change w w'
| rc_pruned gone : (forall r, gone r = true -> live r = false) ->
    session_tokens w' = List.filter (fun r => negb (gone r)) (session_tokens w) -> registry_change w w'.

Definition advances (w w' : token_world) : Prop :=
  tk_uuids w' = tk_uuids w /\ (tk_used w <= tk_used w')%nat /\ tk_now w <= tk_now w'.

Lemma same_change w w' : same_registry w w' -> advances w w' /\ registry_change w w'.
Proof. intros (? & ? & ? & ?). split; [split_and!; [done|done|lia]|by apply rc_same]. Qed.

Lemma mint_shape race tn d e s sc ttl w o w' :
  mint race tn d e s sc ttl w = (o, w') ->
  advances w w' /\ (session_tokens w' = session_tokens w
    \/ exists row k, session_tokens w' = session_tokens w ++ [row] /\ st_id row = tk_uuids w k
         /\ (tk_used w <= k < tk_used w')%nat /\ st_id row ∉ map st_id (session_tokens w)).
Proof.
  unfold mint. unfold mbind at 1, io_bind at 1. intros E.
  pose proof (keeps (R := same_registry) (c := mint_user race tn d e) w) as Hq.
  destruct (mint_user race tn d e w) as [[u|x] w1]; cbn [snd] in Hq; destruct Hq as (Ht & Hu & Hn & Hnow).
  2:{ injection E as _ <-. split; [split_and!; [done|done|lia]|by left]. }
  unfold mbind at 1, io_bind at 1 in E. cbn [tk_uuid4] in E. unfold mbind at 1, io_bind at 1 in E. cbn [get_st] in E.
  unfold mbind at 1, io_bind at 1, the_key in E. destruct _token_key as [k|x]; cbn [mret io_ret throw] in E.
  2:{ injection E as _ <-. split; [split_and!; cbn; [done|lia|lia]|by left]. }
  unfold mbind, io_bind, st_create in E. cbn [session_tokens end_users] in E. destruct (existsb _ _ || _) eqn:Ex.
  { injection E as _ <-. split; [split_and!; cbn; [done|lia|lia]|by left]. }
  injection E as _ <-. split; [split_and!; cbn; [done|lia|lia]|]. right. eexists _, (tk_used w1).
  cbn [session_tokens with_tokens tk_used st_id]. rewrite Ht. split_and!; [done|by rewrite Hu|lia|lia|].
  apply orb_false_iff in Ex as [Ex _]. rewrite Ht in Ex. intros (r & Hid & Hr)%list_elem_of_fmap.
  apply not_true_iff_false in Ex. apply Ex. apply existsb_exists. exists r.
  split; [by apply list_elem_of_In|]. by apply bool_decide_true.
Qed.

Lemma resolve_principal text w p w1 :
  resolve text w = (Ret p, w1) -> exists c, decrypted text = Some c /\ p = principal_of c.
Proof.
  intros E. unfold resolve in E. destruct (decrypted text) as [c|]; [|done]. exists c. split; [done|].
  unfold mbind, io_bind, get_st in E. destruct (c_exp c <=? _); [done|].
  destruct (st_get (jti c) w) as [[[row|]|x] w2]; [|done|done].
  destruct (negb (live row)); [done|]. destruct (negb _); [done|]. by injection E.
Qed.

Lemma revoke_shape text w o w' :
  revoke text w = (o, w') ->
  advances w w' /\ (session_tokens w' = session_tokens w
    \/ exists c, decrypted text = Some c
         /\ session_tokens w' = map (fun r => if bool_decide (st_id r = jti c) && live r
                                              then revoked (tk_now w) r else r) (session_tokens w)).
Proof.
  unfold revoke, try_catch, mbind, io_bind. intros E.
  pose proof (keeps (R := same_registry) (c := resolve text) w) as Hq. pose proof (resolve_principal text w) as Hp.
  destruct (resolve text w) as [[p|x] w1]; cbn [snd] in Hq; destruct Hq as (Ht & Hu & Hn & Hnow).
  - destruct (Hp p w1 eq_refl) as (c & Hc & ->). cbn in E. injection E as _ <-.
    split; [split_and!; cbn; [done|done|lia]|]. right. exists c. split; [done|]. cbn. by rewrite Ht, Hnow.
  - destruct (is_token_error x); cbn in E; injection E as _ <-;
      (split; [split_and!; [done|done|lia]|by left]).
Qed.

Lemma event_change w ev : advances w (run_event w ev) /\ registry_change w (run_event w ev).
Proof.
  destruct ev as [race tn d e s sc ttl|text|tn e|tn before|tn e s|tn x n|us]; cbn [run_event].
  - destruct (mint_shape race tn d e s sc ttl w _ _ (surjective_pairing _)) as (Ha & [Hs|(row & k & Hs & Hid & Hk & Hnew)]);
      (split; [done|]); [by apply rc_same|by eapply rc_added].
  - destruct (revoke_shape text w _ _ (surjective_pairing _)) as (Ha & [Hs|(c & _ & Hs)]);
      (split; [done|]); [by apply rc_same|].
    by apply (rc_revoked _ _ (fun r => bool_decide (st_id r = jti c)) (tk_now w)).
  - split; [split_and!; [done|done|cbn; lia]|].
    by apply (rc_revoked _ _ (fun r => bool_decide (st_tenant_id r = tn) && bool_decide (st_end_user_id r = e)) (tk_now w)).
  - split; [split_and!; [done|done|cbn; lia]|]. eapply rc_pruned; [|reflexivity].
    intros r Hr. cbn in Hr. apply andb_true_iff in Hr as [_ Hr]. by apply negb_true_iff in Hr.
  - apply same_change. apply (keeps (R := same_registry) (c := eu_set_status tn e s)).
  - apply same_change. apply (keeps (R := same_registry) (c := create_authenticated tn x n)).
  - split; [split_and!; cbn; [done|lia|lia]|by apply rc_same].
Qed.

(** ** Invariants of the registry *)

Definition registry_ok (w : token_world) : Prop :=
  Inj eq eq (tk_uuids w) /\ NoDup (map st_id (session_tokens w))
  /\ forall r, r ∈ session_tokens w -> exists k, (k < tk_used w)%nat /\ st_id r = tk_uuids w k.

(** No live row has this id. *)
Definition dead (id : string) (w : token_world) : Prop :=
  forall r, r ∈ session_tokens w -> st_id r = id -> live r = false.

Definition drawn (id : string) (w : token_world) : Prop :=
  exists k, (k < tk_used w)%nat /\ id = tk_uuids w k.

Lemma revoked_ids sel t l :
  map st_id (map (fun r => if sel r && live r then revoked t r else r) l) = map st_id l.
Proof. rewrite map_map. apply map_ext. intros r. by destruct (sel r && live r). Qed.

Lemma change_ok w w' : advances w w' -> registry_change w w' -> registry_ok w -> registry_ok w'.
Proof.
  intros (Hu & Hn & _) Hc (Hi & Hnd & Hd). unfold registry_ok. rewrite Hu. split; [done|].
  destruct Hc as [Hs|row k Hs Hid Hk Hnew|sel t Hs|gone Hg Hs]; rewrite Hs.
  - split; [done|]. intros r Hr. destruct (Hd r Hr) as (k & ? & ?). exists k. split; [lia|done].
  - split.
    + rewrite map_app. apply NoDup_app. split_and!; [done|set_solver|apply NoDup_singleton].
    + intros r [Hr|Hr%list_elem_of_singleton]%elem_of_app.
      * destruct (Hd r Hr) as (j & ? & ?). exists j. split; [lia|done].
      * subst r. exists k. split; [lia|done].
  - rewrite revoked_ids. split; [done|]. intros r' (r & -> & Hr)%list_elem_of_fmap.
    destruct (Hd r Hr) as (k & ? & ?). exists k. split; [lia|]. by destruct (sel r && live r).
  - split.
    + eapply sublist_NoDup; [exact Hnd|]. apply fmap_sublist. clear. induction (session_tokens w) as [|r l IH]; [constructor|].
      cbn. destruct (negb (gone r)); by constructor.
    + intros r Hr%list_elem_of_In. apply filter_In in Hr as [Hr%list_elem_of_In _].
      destruct (Hd r Hr) as (k & ? & ?). exists k. split; [lia|done].
Qed.

Lemma change_dead id w w' :
  advances w w' -> registry_change w w' -> Inj eq eq (tk_uuids w) -> drawn id w -> dead id w -> dead id w'.
Proof.
  intros (Hu & Hn & _) Hc Hi (j & Hj & Hid) Hdead r Hr Hrid.
  destruct Hc as [Hs|row k Hs Hrow Hk Hnew|sel t Hs|gone Hg Hs]; rewrite Hs in Hr.
  - by apply Hdead.
  - apply elem_of_app in Hr as [Hr|Hr%list_elem_of_singleton]; [by apply Hdead|]. subst r.
    rewrite Hrow, Hid in Hrid. apply Hi in Hrid. lia.
  - apply list_elem_of_fmap in Hr as (r0 & -> & Hr0). destruct (sel r0 && live r0); [done|by apply Hdead].
  - apply list_elem_of_In, filter_In in Hr as [Hr%list_elem_of_In _]. by apply Hdead.
Qed.

Lemma run_ok evs w : registry_ok w -> registry_ok (foldl run_event w evs).
Proof.
  revert w. induction evs as [|ev evs IH]; intros w Hok; [done|]. cbn [foldl]. apply IH.
  destruct (event_change w ev). by eapply change_ok.
Qed.

Lemma run_dead id evs w :
  registry_ok w -> drawn id w -> dead id w -> dead id (foldl run_event w evs).
Proof.
  revert w. induction evs as [|ev evs IH]; intros w Hok Hdr Hdead; [done|]. cbn [foldl].
  destruct (event_change w ev) as [Ha Hc]. apply IH.
  - by eapply change_ok.
  - destruct Ha as (Hu & Hn & _), Hdr as (k & Hk & ->). exists k. rewrite Hu. split; [lia|done].
  - eapply change_dead; [exact Ha|exact Hc|apply Hok|exact Hdr|exact Hdead].
Qed.

Lemma resolve_dead text c w :
  decrypted text = Some c -> dead (jti c) w ->
  exists e, fst (resolve text w) = Raise e.
Proof.
  intros Hc Hdead. unfold resolve. rewrite Hc. unfold mbind, io_bind, get_st.
  destruct (c_exp c <=? tk_now w); [by eexists|]. unfold st_get, mbind, io_bind, get_st.
  destruct (List.filter _ (session_tokens w)) as [|r [|r' l]] eqn:E; cbn; [by eexists| |by eexists].
  assert (Hr : In r [r]) by by left. rewrite <- E in Hr. apply filter_In in Hr as [Hr%list_elem_of_In Hid].
  apply bool_decide_eq_true in Hid. rewrite (Hdead r Hr Hid). by eexists.
Qed.

(** A live row stays until an event asks for its revocation. *)
Lemma event_spares row w ev :
  row ∈ session_tokens w -> live row = true -> revokes row ev = false -> row ∈ session_tokens (run_event w ev).
Proof.
  intros Hr Hl Hno. destruct ev as [race tn d e s sc ttl|text|tn e|tn before|tn e s|tn x n|us]; cbn [run_event].
  - destruct (mint_shape race tn d e s sc ttl w _ _ (surjective_pairing _)) as (_ & [Hs|(row' & k & Hs & _)]);
      rewrite Hs; [done|]. apply elem_of_app. by left.
  - destruct (revoke_shape text w _ _ (surjective_pairing _)) as (_ & [Hs|(c & Hc & Hs)]); rewrite Hs; [done|].
    cbn in Hno. rewrite Hc in Hno. apply list_elem_of_fmap. exists row. split; [|done].
    apply bool_decide_eq_false in Hno. by rewrite bool_decide_false.
  - cbn in Hno |- *. apply list_elem_of_fmap. exists row. split; [|done]. by rewrite Hno.
  - cbn. apply list_elem_of_In, filter_In. split; [by apply list_elem_of_In|]. by rewrite Hl, andb_false_r.
  - destruct (keeps (R := same_registry) (c := eu_set_status tn e s) w) as (Hs & _). by rewrite Hs.
  - destruct (keeps (R := same_registry) (c := create_authenticated tn x n) w) as (Hs & _). by rewrite Hs.
  - done.
Qed.

Lemma run_spares row evs w :
  row ∈ session_tokens w -> live row = true -> Forall (fun ev => revokes row ev = false) evs ->
  row ∈ session_tokens (foldl run_event w evs).
Proof.
  revert w. induction evs as [|ev evs IH]; intros w Hr Hl Hno; [done|]. apply Forall_cons in Hno as [Hev Hno].
  cbn [foldl]. apply IH; [|done|done]. by apply event_spares.
Qed.

Lemma resolve_live text c row w :
  decrypted text = Some c -> registry_ok w -> row ∈ session_tokens w -> live row = true ->
  st_id row = jti c -> st_tenant_id row = c_tenant_id c ->
  fst (resolve text w) = if c_exp c <=? tk_now w then Raise ExpiredSessionToken else Ret (principal_of c).
Proof.
  intros Hc (_ & Hnd & _) Hr Hl Hid Htn. unfold resolve. rewrite Hc. unfold mbind, io_bind, get_st.
  destruct (c_exp c <=? tk_now w); [done|]. unfold st_get, mbind, io_bind, get_st.
  assert (Hf : List.filter (fun r => bool_decide (st_id r = jti c)) (session_tokens w) = [row]).
  { rewrite <- Hid. by apply filter_unique. }
  rewrite Hf. cbn. rewrite Hl. cbn. rewrite Htn, bool_decide_true by done. done.
Qed.

(** ** What a mint leaves *)

Lemma mint_ret race tn d e s sc ttl w m w' :
  mint race tn d e s sc ttl w = (Ret m, w') ->
  exists k rnd c row u w0,
    _token_key = inl k /\ token m = encrypt k rnd c /\ session_tokens w' = session_tokens w ++ [row]
    /\ live row = true /\ st_id row = jti c /\ st_tenant_id row = tn /\ st_end_user_id row = mi_end_user_id m
    /\ mi_expires_at m = tk_now w + token_ttl ttl * 1000000
    /\ principal_of c = {| token_id := jti c; sp_tenant_id := tn; sp_end_user_id := mi_end_user_id m;
                           sp_surface_id := s; sp_device_id := d; sp_scopes := default [] sc;
                           sp_expires_at := mi_expires_at m |}
    /\ mint_user race tn d e w = (Ret u, w0) /\ mi_end_user_id m = eu_id u /\ end_users w' = end_users w0.
Proof.
  unfold mint. unfold mbind at 1, io_bind at 1. intros E.
  pose proof (keeps (R := same_registry) (c := mint_user race tn d e) w) as Hq.
  destruct (mint_user race tn d e w) as [[u|x] w1]; [|done]. cbn [snd] in Hq. destruct Hq as (Ht & Hu & Hn & Hnow).
  unfold mbind at 1, io_bind at 1 in E. cbn [tk_uuid4] in E. unfold mbind at 1, io_bind at 1 in E. cbn [get_st] in E.
  unfold mbind at 1, io_bind at 1, the_key in E. destruct _token_key as [k|x]; [|done]. cbn [mret io_ret] in E.
  unfold mbind, io_bind, st_create in E. cbn [session_tokens end_users] in E. destruct (existsb _ _ || _); [done|].
  injection E as <- <-. cbn. rewrite Ht, Hnow. eexists k, _, _, _, u, w1. split_and!; try reflexivity.
Qed.

Lemma event_users w ev : users_stay w (run_event w ev).
Proof.
  destruct ev as [race tn d e s sc ttl|text|tn e|tn before|tn e s|tn x n|us]; cbn [run_event].
  - apply (keeps (R := users_stay) (c := mint race tn d e s sc ttl)).
  - apply (keeps (R := users_stay) (c := revoke text)).
  - by apply users_stay_eq.
  - by apply users_stay_eq.
  - apply (keeps (R := users_stay) (c := eu_set_status tn e s)).
  - apply (keeps (R := users_stay) (c := create_authenticated tn x n)).
  - by apply users_stay_eq.
Qed.

Lemma run_users evs w : users_stay w (foldl run_event w evs).
Proof.
  revert w. induction evs as [|ev evs IH]; intros w; [exact (reflexivity w)|]. cbn [foldl].
  etrans; [apply event_users|apply IH].
Qed.

Lemma revoke_true text w w' c :
  revoke text w = (Ret true, w') -> decrypted text = Some c ->
  session_tokens w' = map (fun r => if bool_decide (st_id r = jti c) && live r
                                    then revoked (tk_now w) r else r) (session_tokens w).
Proof.
  unfold revoke, try_catch, mbind, io_bind. intros E Hc.
  pose proof (keeps (R := same_registry) (c := resolve text) w) as (Ht & _ & _ & Hnow).
  pose proof (resolve_principal text w) as Hp.
  destruct (resolve text w) as [[p|x] w1]; cbn [snd] in Ht, Hnow.
  - destruct (Hp p w1 eq_refl) as (c' & Hc' & ->). rewrite Hc in Hc'. injection Hc' as <-.
    cbn in E. injection E as _ <-. cbn. by rewrite Ht, Hnow.
  - by destruct (is_token_error x).
Qed.

(** An anonymous mint answers with the end user of the device. *)
Lemma anonymous_ret race tn i n w e w' :
  get_or_create_anonymous race tn i n w = (Ret e, w') ->
  e ∈ end_users w' /\ eu_tenant_id e = tn /\ anonymous_identity e = Some i
  /\ (select_anonymous tn i (end_users w) <> [] -> select_anonymous tn i (end_users w) = [e]).
Proof.
  assert (Hone : forall l u, select_anonymous tn i l = [u] -> u ∈ l /\ eu_tenant_id u = tn /\ anonymous_identity u = Some i).
  { intros l u E. assert (Hu : In u [u]) by by left. rewrite <- E in Hu. apply filter_In in Hu as [Hu Ht].
    apply andb_true_iff in Ht as [? ?]. rewrite bool_decide_eq_true in *. split_and!; [by apply list_elem_of_In|done|done]. }
  unfold get_or_create_anonymous. intros E. unfold mbind at 1, io_bind at 1, get_st at 1 in E.
  destruct (select_anonymous tn i (end_users w)) as [|u [|u' l]] eqn:Es; [| |done].
  2:{ injection E as <- <-. destruct (Hone _ _ Es) as (? & ? & ?). by split_and!. }
  unfold mbind, io_bind, tk_one, mret, io_ret, tk_uuid4, modify, try_catch in E. cbn [with_end_users] in E.
  unfold insert_end_user in E. cbn [end_users] in E. destruct (existsb _ _).
  - cbn [get_st] in E. unfold get_st in E. cbn [end_users with_end_users] in E.
    destruct (select_anonymous tn i (end_users w ++ race)) as [|u [|u' l]] eqn:Er; [done| |done].
    injection E as <- <-. destruct (Hone _ _ Er) as (? & ? & ?). by split_and!.
  - injection E as <- <-. cbn. split_and!; [set_solver|done|done|done].
Qed.

(** ** Properties *)

Context (decrypt_encrypt : forall k n c, decrypt k (encrypt k n c) = Some c).

(** A minted token resolves to exactly the principal it was minted for, tenant
    and end user included, through any history of calls that does not revoke
    it, until it expires; from then on it is refused as expired. *)
Theorem minted_token_resolves race tn d e s sc ttl w m w1 :
  registry_ok w -> mint race tn d e s sc ttl w = (Ret m, w1) ->
  exists row id, session_tokens w1 = session_tokens w ++ [row]
  /\ forall evs, Forall (fun ev => revokes row ev = false) evs ->
       let w2 := foldl run_event w1 evs in
       fst (resolve (token m) w2)
       = if mi_expires_at m <=? tk_now w2 then Raise ExpiredSessionToken
         else Ret {| token_id := id; sp_tenant_id := tn; sp_end_user_id := mi_end_user_id m;
                     sp_surface_id := s; sp_device_id := d; sp_scopes := default [] sc;
                     sp_expires_at := mi_expires_at m |}.
Proof.
  intros Hok E. destruct (mint_ret _ _ _ _ _ _ _ _ _ _ E)
    as (k & rnd & c & row & u & w0 & Hk & Htok & Hs & Hl & Hid & Htn & _ & _ & Hp & _).
  exists row, (jti c). split; [done|]. intros evs Hno. cbn zeta. rewrite <- Hp.
  assert (Hexp : mi_expires_at m = c_exp c) by by injection Hp.
  assert (Hct : c_tenant_id c = tn) by by injection Hp.
  rewrite Hexp. apply (resolve_live _ c row).
  - unfold decrypted. by rewrite Hk, Htok.
  - apply run_ok. pose proof (event_change w (DoMint race tn d e s sc ttl)) as [Ha Hc]. cbn in Ha, Hc.
    rewrite E in Ha, Hc. by eapply change_ok.
  - apply run_spares; [|done|done]. rewrite Hs. apply elem_of_app. right. by apply list_elem_of_singleton.
  - done.
  - done.
  - by rewrite Htn.
Qed.

(** Revocation is for good: once a token was revoked, by its bearer or with
    all the tokens of its end user, no later history makes it resolve. *)
Theorem revoked_for_good text c row w w1 evs :
  registry_ok w -> decrypted text = Some c -> row ∈ session_tokens w -> st_id row = jti c ->
  revoke text w = (Ret true, w1)
  \/ revoke_all_for_end_user (st_tenant_id row) (st_end_user_id row) w = (Ret (Z.of_nat (length
       (List.filter (fun r => bool_decide (st_tenant_id r = st_tenant_id row)
                              && bool_decide (st_end_user_id r = st_end_user_id row) && live r)
          (session_tokens w)))), w1) ->
  exists e, fst (resolve text (foldl run_event w1 evs)) = Raise e.
Proof.
  intros Hok Hc Hr Hid Hrev. apply (resolve_dead _ c); [done|].
  assert (Hdead : dead (jti c) w1 /\ advances w w1 /\ registry_change w w1).
  { destruct Hrev as [E|E].
    - assert (Hsame : w1 = run_event w (DoRevoke text)) by (cbn; by rewrite E). rewrite Hsame.
      split; [|apply event_change]. rewrite <- Hsame.
      intros r' Hr' Hid'. rewrite (revoke_true text w w1 c E Hc) in Hr'.
      apply list_elem_of_fmap in Hr' as (r & -> & Hin). destruct (_ && live r) eqn:Eh; [done|].
      cbn in Hid'. by rewrite bool_decide_true in Eh.
    - assert (Hsame : w1 = run_event w (DoRevokeAll (st_tenant_id row) (st_end_user_id row))) by (cbn; by injection E).
      rewrite Hsame. split; [|apply event_change]. intros r' Hr' Hid'. cbn in Hr'.
      apply list_elem_of_fmap in Hr' as (r & -> & Hin).
      destruct (_ && live r) eqn:Eh; [done|]. cbn in Hid'.
      assert (r = row) as ->.
      { destruct Hok as (_ & Hnd & _). pose proof (filter_unique st_id _ row Hnd Hr) as Hf.
        assert (Hin' : In r (List.filter (fun y => bool_decide (st_id y = st_id row)) (session_tokens w))).
        { apply filter_In. split; [by apply list_elem_of_In|]. apply bool_decide_true. congruence. }
        rewrite Hf in Hin'. by destruct Hin' as [->|[]]. }
      rewrite !bool_decide_true in Eh by done. done. }
  destruct Hdead as (Hdead & Ha & Hch). apply run_dead; [by eapply change_ok| |done].
  destruct Hok as (_ & _ & Hd), Ha as (Hu & Hn & _). destruct (Hd row Hr) as (k & ? & ?). exists k.
  rewrite Hu. split; [lia|congruence].
Qed.

(** Device continuity: two anonymous mints of one device name the same end
    user, whatever happens in between and whatever other transactions insert
    meanwhile. *)
Theorem device_keeps_its_user race race' tn d s s' sc sc' ttl ttl' w m w1 evs m' w3 :
  mint race tn (Some d) None s sc ttl w = (Ret m, w1) ->
  mint race' tn (Some d) None s' sc' ttl' (foldl run_event w1 evs) = (Ret m', w3) ->
  mi_end_user_id m' = mi_end_user_id m.
Proof.
  intros E E'.
  destruct (mint_ret _ _ _ _ _ _ _ _ _ _ E) as (_ & _ & _ & _ & u & w0 & _ & _ & _ & _ & _ & _ & _ & _ & _ & Hu & Hm & Hw1).
  destruct (mint_ret _ _ _ _ _ _ _ _ _ _ E') as (_ & _ & _ & _ & u' & w0' & _ & _ & _ & _ & _ & _ & _ & _ & _ & Hu' & Hm' & _).
  rewrite Hm, Hm'. unfold mint_user in Hu, Hu'. cbn in Hu, Hu'. destruct (truthy d); [|done].
  apply anonymous_ret in Hu as (Hin & Ht & Hi & _). apply anonymous_ret in Hu' as (_ & _ & _ & Hsel).
  rewrite <- Hw1 in Hin. destruct (run_users evs w1 u Hin) as (v & Hv & Hid & Htv & Hiv).
  assert (Hvs : In v (select_anonymous tn ("anon:" +:+ d) (end_users (foldl run_event w1 evs)))).
  { apply filter_In. split; [by apply list_elem_of_In|]. rewrite !bool_decide_true by congruence. done. }
  rewrite Hsel in Hvs.
  - destruct Hvs as [<-|[]]. done.
  - intros E0. by rewrite E0 in Hvs.
Qed.

End service.

(** ** Witnesses: a cipher that writes the payload in bits *)

Fixpoint bits (p : positive) : string :=
  match p with
  | xH => EmptyString
  | xO p => String "0"%char (bits p)
  | xI p => String "1"%char (bits p)
  end.

Fixpoint unbits (s : string) : positive :=
  match s with
  | EmptyString => xH
  | String a s => if decide (a = "1"%char) then xI (unbits s) else xO (unbits s)
  end.

Lemma unbits_bits p : unbits (bits p) = p.
Proof. induction p as [p IH|p IH|]; cbn; [by rewrite IH|by rewrite IH|done]. Qed.

Definition claims_fields (c : claims) :=
  (jti c, c_tenant_id c, c_end_user_id c, c_surface_id c, c_device_id c, c_scopes c, c_iat c, c_exp c).
Definition fields_claims (f : string * string * string * option string * option string * list string * Z * Z) : claims :=
  let '(j, tn, e, s, d, sc, i, x) := f in
  {| jti := j; c_tenant_id := tn; c_end_user_id := e; c_surface_id := s; c_device_id := d;
     c_scopes := sc; c_iat := i; c_exp := x |}.

Definition plain_encrypt (k : string) (n : nat) (c : claims) : string := bits (encode (claims_fields c)).
Definition plain_decrypt (k text : string) : option claims := fields_claims <$> decode (unbits text).

Lemma plain_decrypt_encrypt k n c : plain_decrypt k (plain_encrypt k n c) = Some c.
Proof. unfold plain_decrypt, plain_encrypt. rewrite unbits_bits, decode_encode. by destruct c. Qed.

Definition jti_of (n : nat) : string := "id" +:+ pretty n.

#[export] Instance jti_of_inj : Inj eq eq jti_of.
Proof.
  intros n m E. change (String "i" (String "d" (pretty n)) = String "i" (String "d" (pretty m))) in E.
  injection E as E. by apply (inj pretty).
Qed.

Definition no_tokens : token_world :=
  {| end_users := []; session_tokens := []; tk_uuids := jti_of; tk_used := 0; tk_now := 1000 |}.

Lemma no_tokens_ok : registry_ok no_tokens.
Proof. split_and!; [apply _|constructor|]. intros r Hr. by apply not_elem_of_nil in Hr. Qed.

Abbreviation ex_mint := (mint (Some "key") None (fun _ => true) EmptyString true 60 plain_encrypt).
Abbreviation ex_resolve := (resolve (Some "key") None (fun _ => true) EmptyString true plain_decrypt).
Abbreviation ex_revoke := (revoke (Some "key") None (fun _ => true) EmptyString true plain_decrypt).
Abbreviation ex_run := (run_event (Some "key") None (fun _ => true) EmptyString true 60 plain_encrypt plain_decrypt).

Definition mint_phone := ex_mint [] "t1" (Some "phone") None None (Some ["chat"]) None.

(** What the first mint answers. *)
Lemma phone_minted :
  match mint_phone no_tokens with
  | (Ret m, w) => mi_end_user_id m = "id0" /\ mi_expires_at m = 60001000 /\ tk_now w = 1000
  | _ => False
  end.
Proof. vm_compute. by split_and!. Qed.

Lemma minted_token_resolves_witness :
  match mint_phone no_tokens with
  | (Ret m, w) =>
      (exists id, fst (ex_resolve (token m) w)
         = Ret {| token_id := id; sp_tenant_id := "t1"; sp_end_user_id := "id0"; sp_surface_id := None;
                  sp_device_id := Some "phone"; sp_scopes := ["chat"]; sp_expires_at := 60001000 |})
      /\ fst (ex_resolve (token m) (ex_run w (DoWait 60000000))) = Raise ExpiredSessionToken
  | _ => False
  end.
Proof.
  pose proof phone_minted as Hm. destruct (mint_phone no_tokens) as [[m|e] w1] eqn:E; [|destruct Hm].
  destruct Hm as (Hu & Hx & Hn).
  destruct (minted_token_resolves (Some "key") None (fun _ => true) EmptyString true 60 plain_encrypt
    plain_decrypt plain_decrypt_encrypt [] "t1" (Some "phone") None None (Some ["chat"]) None no_tokens m w1
    no_tokens_ok E) as (row & id & _ & Hr).
  split.
  - exists id. pose proof (Hr [] (List.Forall_nil _)) as Hr0. cbv zeta in Hr0. cbn [foldl] in Hr0.
    by rewrite Hx, Hn, Hu in Hr0.
  - pose proof (Hr [DoWait 60000000] ltac:(constructor; [reflexivity|constructor])) as Hr1.
    cbv zeta in Hr1. cbn [foldl] in Hr1.
    assert (Hn1 : tk_now (ex_run w1 (DoWait 60000000)) = 60001000) by (cbn; by rewrite Hn).
    by rewrite Hx, Hn1 in Hr1.
Defined.

Lemma revoked_for_good_witness :
  match mint_phone no_tokens with
  | (Ret m, w) =>
      exists w', ex_revoke (token m) w = (Ret true, w')
        /\ exists e, fst (ex_resolve (token m) (ex_run w' (DoPrune "t1" 99000000))) = Raise e
  | _ => False
  end.
Proof.
  assert (Hm : match mint_phone no_tokens with
    | (Ret m, w) => fst (ex_revoke (token m) w) = Ret true
        /\ registry_ok w /\ exists c row, decrypted (Some "key") None (fun _ => true) EmptyString true plain_decrypt (token m) = Some c
             /\ session_tokens w = [row] /\ st_id row = jti c
    | _ => False end).
  { pose proof (event_change (Some "key") None (fun _ => true) EmptyString true 60 plain_encrypt plain_decrypt
      no_tokens (DoMint [] "t1" (Some "phone") None None (Some ["chat"]) None)) as [Ha Hc].
    cbn [run_event] in Ha, Hc. fold mint_phone in Ha, Hc. pose proof (change_ok (fun _ => true) plain_encrypt plain_decrypt _ _ Ha Hc no_tokens_ok) as Hok.
    assert (Hrest : match mint_phone no_tokens with
      | (Ret m, w) => fst (ex_revoke (token m) w) = Ret true
          /\ exists c row, decrypted (Some "key") None (fun _ => true) EmptyString true plain_decrypt (token m) = Some c
               /\ session_tokens w = [row] /\ st_id row = jti c
      | _ => False end).
    { vm_compute. split; [reflexivity|]. eexists _, _. by split_and!. }
    destruct (mint_phone no_tokens) as [[m|e] w]; [|destruct Hrest]. cbn [snd] in Hok. destruct Hrest as (Hr & Hrest).
    by split_and!. }
  destruct (mint_phone no_tokens) as [[m|e] w]; [|destruct Hm].
  destruct Hm as (Hr & Hok & c & row & Hc & Hs & Hid).
  destruct (ex_revoke (token m) w) as [o w'] eqn:E. cbn [fst] in Hr. subst o. exists w'. split; [reflexivity|].
  refine (revoked_for_good (Some "key") None (fun _ => true) EmptyString true 60 plain_encrypt plain_decrypt
    (token m) c row w w' [DoPrune "t1" 99000000] Hok Hc _ Hid (or_introl E)).
  rewrite Hs. constructor.
Defined.

(** An erased end user gets a new token by the device alone. *)
Example erased_user_mints_again :
  let w := ex_run (snd (mint_phone no_tokens)) (DoStatus "t1" "id0" "erased") in
  let w := ex_run w (DoRevokeAll "t1" "id0") in
  match mint_phone w with
  | (Ret m, w') => mi_end_user_id m = "id0"
                   /\ match fst (ex_resolve (token m) w') with Ret _ => True | _ => False end
  | _ => False
  end.
Proof. vm_compute. by split. Qed.
