(* ===== verification/Context.v ===== *)
(** * Context assembly (backend/app/context/assembler.py, estimator.py)

    The prompt of a turn within the model's token budget: system prefix,
    summary layers, memory, recent tail, retrieved knowledge and the current
    message, in this order.  Character counts are of ASCII text; ratios and
    scores are exact rationals. *)

From S2P Require Import Prelude Json Catalog.

(** ** Token estimation *)

Definition DEFAULT_CHARS_PER_TOKEN : Q := 4.

(** The overrides by normalised key: [provider:model], [provider], [default]. *)
Abbreviation TokenEstimator := (gmap string Q).

Definition norm (s : string) : string := lower (strip s).

Definition new_estimator (overrides : list (string * Q)) : TokenEstimator :=
  foldl (fun m '(k, v) => <[norm k := v]> m) ∅ overrides.

Definition estimator_key (provider model : string) : string := norm provider +:+ ":" +:+ norm model.

Definition chars_per_token (est : TokenEstimator) (provider model : option string) : Q :=
  let or_default := default DEFAULT_CHARS_PER_TOKEN (est !! "default") in
  let by_provider :=
    if truthy_opt provider then
      match est !! norm (default EmptyString provider) with
      | Some v => v
      | None => or_default
      end
    else or_default in
  if truthy_opt provider && truthy_opt model then
    match est !! estimator_key (default EmptyString provider) (default EmptyString model) with
    | Some v => v
    | None => by_provider
    end
  else by_provider.

(** [math.ceil(len(text) / per)] *)
Definition estimate (est : TokenEstimator) (text : string) (provider model : option string) : Z :=
  match text with
  | EmptyString => 0
  | _ =>
      let per := chars_per_token est provider model in
      if per <=?q 0 then 0
      else Qceiling (inject_Z (Z.of_nat (String.length text)) / per)
  end.

#[global] Arguments estimate : simpl never.

Definition register_override (key : string) (v : Q) (est : TokenEstimator) : TokenEstimator :=
  <[norm key := v]> est.

(** ** The blocks of a prompt *)

Definition SUMMARY_BLOCK_HEADER : string :=
  "Summary of the conversation so far (compaction checkpoint; immutable).".
Definition MEMORY_BLOCK_HEADER : string := "End-user memory (opt-in facts about the customer):".
Definition TOOL_RESULT_PLACEHOLDER : string := "[tool result cleared; re-fetch on demand]".
Definition CACHE_CONTROL_METADATA : json :=
  JObj [("cache_control", JObj [("type", JStr "ephemeral")])].

Record ContextTurn := {
  ct_role : string;
  ct_content : string;
  ct_seq : option Z;
  ct_message_id : option string;
  has_tool_payload : bool;
  raw_content : option string;
}.

(** A provider message; the stable prefix carries metadata. *)
Record prompt_message := { pm_role : string; pm_content : string; pm_metadata : option json }.

Record layer := { layer_content : option string }.

(** A retrieved document: a bare text, or a dictionary whose content and score
    may be missing. *)
Inductive retrieved_doc :=
| DocText (text : string)
| DocDict (content : option string) (score : option Q).

Record doc := { doc_content : string; doc_score : Q }.

Record AssembledContext := {
  ctx_messages : list prompt_message;
  token_counts : list (string * Z);
  omitted_turns : list string;
  omitted_docs : list nat;
  omitted_blocks : list string;
  total_tokens : Z;
  ctx_window : Z;
  budget_tokens : Z;
}.

Inductive context_error :=
| ContextBudgetExceeded (what : string) (needed available : Z)
| RedactionViolation (label : string).

Definition newline : string := String (Ascii.ascii_of_nat 10) EmptyString.

(** [f"{q:.2f}"]: two decimals, ties to even. *)
Definition round_half_even (q : Q) : Z :=
  let f := Qfloor q in
  let r := (q - inject_Z f)%Q in
  if r <?q (1 # 2) then f else if (1 # 2) <?q r then f + 1 else if Z.even f then f else f + 1.

Definition fixed2 (q : Q) : string :=
  let n := round_half_even (q * 100) in
  let m := Z.abs n in
  (if n <? 0 then "-" else EmptyString) +:+ pretty (m / 100) +:+ "."
  +:+ (if m mod 100 <? 10 then "0" else EmptyString) +:+ pretty (m mod 100).

(** [d[k] = d.get(k, 0) + n] *)
Fixpoint count (k : string) (n : Z) (l : list (string * Z)) : list (string * Z) :=
  match l with
  | [] => [(k, n)]
  | (k', v) :: l' => if decide (k' = k) then (k', v + n) :: l' else (k', v) :: count k n l'
  end.

Definition sum_counts (l : list (string * Z)) : Z := foldr (fun p acc => p.2 + acc) 0 l.

Section assemble.
Context (est : TokenEstimator) (catalog : ModelCatalog) (output_reserve_tokens : Z) (default_markers : bool).

Definition _normalize_layers (summary_layers : option (list layer)) (summary : option string) : list layer :=
  match summary_layers with
  | Some (l :: ls) => l :: ls
  | _ => if truthy_opt summary then [{| layer_content := summary |}] else []
  end.

(** Newest first: by sequence number, then by position, descending. *)
Definition turn_key (p : nat * ContextTurn) : Z * nat := (default 0 (ct_seq p.2), p.1).
Definition newer (p p' : nat * ContextTurn) : bool :=
  let '(s, i) := turn_key p in
  let '(s', i') := turn_key p' in
  (s' <? s) || (s' =? s) && (i' <=? i)%nat.

Definition is_chat_turn (t : ContextTurn) : bool :=
  bool_decide (ct_role t = "user") || bool_decide (ct_role t = "assistant").

Definition _recent_turns_first (turns : list ContextTurn) : list ContextTurn :=
  (sort_by newer (List.filter (fun p => is_chat_turn p.2) (zip (seq 0 (length turns)) turns))).*2.

Definition turn_label (t : ContextTurn) : string :=
  if truthy_opt (ct_message_id t) then default EmptyString (ct_message_id t)
  else match ct_seq t with Some s => "seq:" +:+ pretty s | None => "?" end.

(** [turn.message_id or turn.seq or '?'] *)
Definition violation_label (t : ContextTurn) : string :=
  if truthy_opt (ct_message_id t) then default EmptyString (ct_message_id t)
  else match ct_seq t with Some s => if s =? 0 then "?" else pretty s | None => "?" end.

Definition _turn_content (t : ContextTurn) (clear_tool_payloads : bool) : string + context_error :=
  if clear_tool_payloads && has_tool_payload t then inl TOOL_RESULT_PLACEHOLDER
  else if truthy (ct_content t) then inl (ct_content t)
  else if truthy_opt (raw_content t) then inr (RedactionViolation (violation_label t))
  else inl EmptyString.

Definition as_doc (d : retrieved_doc) : doc :=
  match d with
  | DocText t => {| doc_content := t; doc_score := 0 |}
  | DocDict c s => {| doc_content := default EmptyString c; doc_score := default 0%Q s |}
  end.

(** [sorted(..., key=score, reverse=True)] keeps the order of equal scores. *)
Definition _sorted_docs (docs : list retrieved_doc) : list doc :=
  sort_by (fun d d' => doc_score d' <=?q doc_score d) (map as_doc docs).

(** The part of the result built so far, and what is left of the budget. *)
Record progress := {
  pr_messages : list prompt_message;
  pr_counts : list (string * Z);
  pr_turns : list string;
  pr_docs : list nat;
  pr_blocks : list string;
  remaining : Z;
}.

Definition spend (k : string) (n : Z) (ms : list prompt_message) (p : progress) : progress := {|
  pr_messages := pr_messages p ++ ms; pr_counts := count k n (pr_counts p); pr_turns := pr_turns p;
  pr_docs := pr_docs p; pr_blocks := pr_blocks p; remaining := remaining p - n |}.
Definition omit_block (b : string) (p : progress) : progress := {|
  pr_messages := pr_messages p; pr_counts := pr_counts p; pr_turns := pr_turns p;
  pr_docs := pr_docs p; pr_blocks := pr_blocks p ++ [b]; remaining := remaining p |}.
Definition omit_turn (t : ContextTurn) (p : progress) : progress := {|
  pr_messages := pr_messages p; pr_counts := pr_counts p; pr_turns := pr_turns p ++ [turn_label t];
  pr_docs := pr_docs p; pr_blocks := pr_blocks p; remaining := remaining p |}.
Definition omit_docs (l : list nat) (p : progress) : progress := {|
  pr_messages := pr_messages p; pr_counts := pr_counts p; pr_turns := pr_turns p;
  pr_docs := pr_docs p ++ l; pr_blocks := pr_blocks p; remaining := remaining p |}.
Definition add_messages (ms : list prompt_message) (p : progress) : progress := {|
  pr_messages := pr_messages p ++ ms; pr_counts := pr_counts p; pr_turns := pr_turns p;
  pr_docs := pr_docs p; pr_blocks := pr_blocks p; remaining := remaining p |}.

Section turn.
Context (provider model : string).

Abbreviation tokens_of text := (estimate est text (Some provider) (Some model)).

Definition plain (role text : string) : prompt_message :=
  {| pm_role := role; pm_content := text; pm_metadata := None |}.

(** *** 2. Summary: all its layers, or none. *)
Fixpoint summary_texts (idx : nat) (layers : list layer) : list string :=
  match layers with
  | [] => []
  | l :: ls =>
      let content := default EmptyString (layer_content l) in
      (match idx with O => SUMMARY_BLOCK_HEADER +:+ newline +:+ content | S _ => content end)
      :: summary_texts (S idx) ls
  end.

Definition sum_tokens (texts : list string) : Z := foldr (fun t acc => tokens_of t + acc) 0 texts.

Definition summary_block (metadata : json) (layers : list layer) (p : progress) : progress :=
  match layers with
  | [] => p
  | _ =>
      let texts := summary_texts 0 layers in
      let n := sum_tokens texts in
      if n <=? remaining p
      then spend "summary" n (map (fun t => {| pm_role := "system"; pm_content := t;
                                               pm_metadata := Some metadata |}) texts) p
      else omit_block "summary" p
  end.

(** *** 3. Memory *)
Definition memory_text (facts : list string) : string :=
  MEMORY_BLOCK_HEADER +:+ newline +:+ join newline (map (fun f => "- " +:+ f) facts).

Definition memory_block (facts : list string) (p : progress) : progress :=
  match facts with
  | [] => p
  | _ =>
      let n := tokens_of (memory_text facts) in
      if n <=? remaining p then spend "memory" n [plain "system" (memory_text facts)] p
      else omit_block "memory" p
  end.

(** *** 4. Tail: newest first within the budget, rendered oldest first. *)
Definition summarised (position : option Z) (t : ContextTurn) : bool :=
  match position, ct_seq t with Some z, Some s => s <=? z | _, _ => false end.

Fixpoint tail_loop (position : option Z) (clear : bool) (turns : list ContextTurn)
    (tail : list prompt_message) (p : progress) : (list prompt_message * progress) + context_error :=
  match turns with
  | [] => inl (tail, p)
  | t :: ts =>
      if summarised position t then tail_loop position clear ts tail p
      else
        match _turn_content t clear with
        | inr e => inr e
        | inl content =>
            if negb (truthy content) then tail_loop position clear ts tail p
            else
              let n := tokens_of content in
              if remaining p <? n then tail_loop position clear ts tail (omit_turn t p)
              else tail_loop position clear ts (tail ++ [plain (ct_role t) content]) (spend "tail" n [] p)
        end
  end.

(** *** 5. Knowledge: highest score first, until one does not fit. *)
Definition doc_block (idx : nat) (d : doc) : string :=
  "[Source " +:+ pretty (Z.of_nat idx + 1) +:+ "] (Score: " +:+ fixed2 (doc_score d) +:+ ")"
  +:+ newline +:+ doc_content d.

Fixpoint knowledge_loop (idx : nat) (docs : list doc) (p : progress) : progress :=
  match docs with
  | [] => p
  | d :: ds =>
      let block := doc_block idx d in
      let n := tokens_of block in
      if remaining p <? n then omit_docs (seq idx (length docs)) p
      else knowledge_loop (S idx) ds (spend "knowledge" n [plain "system" block] p)
  end.

Definition assemble (system_prompt current_message : string) (history : list ContextTurn)
    (summary : option string) (summary_position : option Z) (summary_layers : option (list layer))
    (memory_facts : list string) (retrieved_docs : list retrieved_doc) (clear_tool_payloads : bool)
    (context_window_override : option Z) (cache_markers : option bool) : AssembledContext + context_error :=
  let window := match context_window_override with
                | Some w => if w =? 0 then window_of catalog provider model else w
                | None => window_of catalog provider model
                end in
  let budget := window - output_reserve_tokens in
  if budget <=? 0 then inr (ContextBudgetExceeded "window" output_reserve_tokens window)
  else
    let metadata := if default default_markers cache_markers then CACHE_CONTROL_METADATA else JObj [] in
    let sys_tokens := tokens_of system_prompt in
    if budget <? sys_tokens then inr (ContextBudgetExceeded "system" sys_tokens budget)
    else
      let p := {| pr_messages := []; pr_counts := []; pr_turns := []; pr_docs := []; pr_blocks := [];
                  remaining := budget |} in
      let p := spend "system" sys_tokens [{| pm_role := "system"; pm_content := system_prompt;
                                             pm_metadata := Some metadata |}] p in
      let p := summary_block metadata (_normalize_layers summary_layers summary) p in
      let p := memory_block memory_facts p in
      match tail_loop summary_position clear_tool_payloads (_recent_turns_first history) [] p with
      | inr e => inr e
      | inl (tail, p) =>
          let p := add_messages (rev tail) p in
          let p := knowledge_loop 0 (_sorted_docs retrieved_docs) p in
          let current_tokens := tokens_of current_message in
          if remaining p <? current_tokens
          then inr (ContextBudgetExceeded "current" current_tokens (remaining p))
          else
            let p := spend "current" current_tokens [plain "user" current_message] p in
            inl {| ctx_messages := pr_messages p; token_counts := pr_counts p;
                   omitted_turns := pr_turns p; omitted_docs := pr_docs p; omitted_blocks := pr_blocks p;
                   total_tokens := sum_counts (pr_counts p); ctx_window := window; budget_tokens := budget |}
      end.

(** ** Accounting *)

Definition message_tokens (ms : list prompt_message) : Z := sum_tokens (map pm_content ms).

Lemma sum_tokens_app l l' : sum_tokens (l ++ l') = sum_tokens l + sum_tokens l'.
Proof. unfold sum_tokens. induction l as [|x l IH]; cbn; [done|]. rewrite IH. lia. Qed.

Lemma message_tokens_app l l' : message_tokens (l ++ l') = message_tokens l + message_tokens l'.
Proof. unfold message_tokens. by rewrite map_app, sum_tokens_app. Qed.

Lemma message_tokens_texts role md texts :
  message_tokens (map (fun t => {| pm_role := role; pm_content := t; pm_metadata := md |}) texts) = sum_tokens texts.
Proof. unfold message_tokens. rewrite map_map. cbn. by rewrite map_id. Qed.

Lemma message_tokens_rev l : message_tokens (rev l) = message_tokens l.
Proof.
  induction l as [|m l IH]; [done|]. cbn [rev].
  rewrite message_tokens_app, IH, (message_tokens_app [m] l : message_tokens (m :: l) = _). lia.
Qed.

Lemma sum_count k n l : sum_counts (count k n l) = sum_counts l + n.
Proof.
  unfold sum_counts. induction l as [|[k' v] l IH]; cbn; [lia|]. case_decide; cbn; [lia|]. rewrite IH. lia.
Qed.

(** What was spent is the estimate of the messages, [pending] ones included;
    what is left is not negative. *)
Definition accounted (budget pending : Z) (p : progress) : Prop :=
  sum_counts (pr_counts p) = message_tokens (pr_messages p) + pending
  /\ sum_counts (pr_counts p) + remaining p = budget /\ 0 <= remaining p.

Lemma spend_accounted budget pending k n ms p :
  accounted budget pending p -> n <= remaining p ->
  accounted budget (pending + n - message_tokens ms) (spend k n ms p).
Proof.
  intros (Hm & Hb & Hr) Hn. unfold accounted, spend. cbn [pr_counts pr_messages remaining].
  rewrite sum_count, message_tokens_app. lia.
Qed.

(** The blocks between the system prompt and the tail. *)
Inductive block_of (texts : list string) (metadata : option json) (name : string) (p : progress) : progress -> Prop :=
| block_none : texts = [] -> block_of texts metadata name p p
| block_kept p' : sum_tokens texts <= remaining p ->
    p' = spend name (sum_tokens texts)
           (map (fun t => {| pm_role := "system"; pm_content := t; pm_metadata := metadata |}) texts) p ->
    block_of texts metadata name p p'
| block_omitted : remaining p < sum_tokens texts -> block_of texts metadata name p (omit_block name p).

Lemma block_accounted texts md name budget p p' :
  block_of texts md name p p' -> accounted budget 0 p -> accounted budget 0 p'.
Proof.
  intros Hb Hp. destruct Hb as [_|p' Hn ->|_]; [done| |exact Hp].
  pose proof (spend_accounted budget 0 name _ (map (fun t => {| pm_role := "system"; pm_content := t;
    pm_metadata := md |}) texts) p Hp Hn) as Hs.
  rewrite message_tokens_texts in Hs. by rewrite Z.add_simpl_r in Hs.
Qed.

Lemma summary_block_of md layers p :
  block_of (summary_texts 0 layers) (Some md) "summary" p (summary_block md layers p).
Proof.
  unfold summary_block. destruct layers as [|l ls]; [by apply block_none|].
  destruct (_ <=? remaining p) eqn:E; to_prop; [by eapply block_kept|by apply block_omitted].
Qed.

Definition memory_texts (facts : list string) : list string :=
  match facts with [] => [] | _ => [memory_text facts] end.

Lemma memory_block_of facts p : block_of (memory_texts facts) None "memory" p (memory_block facts p).
Proof.
  unfold memory_block. destruct facts as [|f fs]; [by apply block_none|].
  assert (Hs : sum_tokens (memory_texts (f :: fs)) = tokens_of (memory_text (f :: fs))) by (cbn; lia).
  destruct (_ <=? remaining p) eqn:E; to_prop.
  - eapply block_kept; [by rewrite Hs|]. by rewrite Hs.
  - apply block_omitted. by rewrite Hs.
Qed.

(** ** The tail *)

Definition rendered_text (clear : bool) (t : ContextTurn) : string :=
  if clear && has_tool_payload t then TOOL_RESULT_PLACEHOLDER else ct_content t.

(** The turn carries raw text and no redacted text. *)
Definition unredacted (clear : bool) (t : ContextTurn) : bool :=
  negb (truthy (rendered_text clear t)) && truthy_opt (raw_content t).

Definition render (clear : bool) (t : ContextTurn) : prompt_message := plain (ct_role t) (rendered_text clear t).

Lemma turn_content_cases clear t :
  _turn_content t clear = if unredacted clear t then inr (RedactionViolation (violation_label t))
                          else inl (rendered_text clear t).
Proof.
  unfold _turn_content, unredacted, rendered_text. destruct (clear && has_tool_payload t); [done|].
  destruct (ct_content t); cbn; [|done]. by destruct (truthy_opt (raw_content t)).
Qed.

(** What became of each turn of the walk. *)
Inductive walk (position : option Z) (clear : bool) :
    list ContextTurn -> list ContextTurn -> list string -> Prop :=
| walk_nil : walk position clear [] [] []
| walk_summarised t ts kept gone : summarised position t = true ->
    walk position clear ts kept gone -> walk position clear (t :: ts) kept gone
| walk_blank t ts kept gone : rendered_text clear t = EmptyString -> unredacted clear t = false ->
    walk position clear ts kept gone -> walk position clear (t :: ts) kept gone
| walk_kept t ts kept gone : summarised position t = false -> truthy (rendered_text clear t) = true ->
    walk position clear ts kept gone -> walk position clear (t :: ts) (t :: kept) gone
| walk_omitted t ts kept gone : summarised position t = false -> truthy (rendered_text clear t) = true ->
    walk position clear ts kept gone -> walk position clear (t :: ts) kept (turn_label t :: gone).

Lemma tail_loop_walk position clear ts tail p tail' p' budget :
  tail_loop position clear ts tail p = inl (tail', p') ->
  accounted budget (message_tokens tail) p ->
  exists kept gone, walk position clear ts kept gone
    /\ tail' = tail ++ map (render clear) kept
    /\ pr_messages p' = pr_messages p /\ pr_turns p' = pr_turns p ++ gone
    /\ pr_docs p' = pr_docs p /\ pr_blocks p' = pr_blocks p
    /\ accounted budget (message_tokens tail') p'.
Proof.
  revert tail p. induction ts as [|t ts IH]; intros tail p E Hacc; cbn [tail_loop] in E.
  - injection E as <- <-. exists [], []. rewrite !app_nil_r. by split_and!; [constructor|..].
  - destruct (summarised position t) eqn:Es.
    { destruct (IH _ _ E Hacc) as (kept & gone & Hw & Hrest). exists kept, gone. by split; [by apply walk_summarised|]. }
    rewrite turn_content_cases in E. destruct (unredacted clear t) eqn:Eu; [done|].
    destruct (truthy (rendered_text clear t)) eqn:Et; cbn [negb] in E.
    2:{ destruct (IH _ _ E Hacc) as (kept & gone & Hw & Hrest). exists kept, gone.
        split; [|done]. apply walk_blank; [by destruct (rendered_text clear t)|done|done]. }
    destruct (remaining p <? _) eqn:En; to_prop.
    + destruct (IH _ _ E Hacc) as (kept & gone & Hw & Htail & Hm & Ht & Hd & Hb & Hacc').
      exists kept, (turn_label t :: gone). cbn in Ht. rewrite <- app_assoc in Ht.
      by split_and!; [by apply walk_omitted|..].
    + apply IH in E as (kept & gone & Hw & Htail & Hm & Ht & Hd & Hb & Hacc').
      * exists (t :: kept), gone. cbn in Hm. rewrite app_nil_r in Hm.
        assert (Htail' : tail' = tail ++ map (render clear) (t :: kept)) by by rewrite Htail, <- app_assoc.
        by split_and!; [by apply walk_kept|..].
      * pose proof (spend_accounted budget _ "tail" (tokens_of (rendered_text clear t)) [] p Hacc ltac:(lia)) as Hs.
        assert (Hone : message_tokens (tail ++ [plain (ct_role t) (rendered_text clear t)])
                       = message_tokens tail + tokens_of (rendered_text clear t) - message_tokens []).
        { rewrite message_tokens_app. unfold message_tokens. cbn. lia. }
        by rewrite Hone.
Qed.

(** ** Knowledge *)

Fixpoint doc_texts (idx : nat) (docs : list doc) : list string :=
  match docs with [] => [] | d :: ds => doc_block idx d :: doc_texts (S idx) ds end.

Lemma knowledge_loop_spec idx docs p budget :
  accounted budget 0 p ->
  exists k, (k <= length docs)%nat
    /\ pr_messages (knowledge_loop idx docs p)
       = pr_messages p ++ map (plain "system") (take k (doc_texts idx docs))
    /\ pr_docs (knowledge_loop idx docs p) = pr_docs p ++ seq (idx + k) (length docs - k)
    /\ pr_turns (knowledge_loop idx docs p) = pr_turns p
    /\ pr_blocks (knowledge_loop idx docs p) = pr_blocks p
    /\ accounted budget 0 (knowledge_loop idx docs p).
Proof.
  revert idx p. induction docs as [|d ds IH]; intros idx p Hacc; cbn [knowledge_loop].
  { exists 0%nat. cbn. rewrite !app_nil_r. by split_and!; [lia|..]. }
  destruct (remaining p <? _) eqn:En; to_prop.
  - exists 0%nat. cbn [take map app pr_messages omit_docs pr_docs pr_turns pr_blocks].
    rewrite app_nil_r, Nat.add_0_r, Nat.sub_0_r. by split_and!; [lia|..].
  - pose proof (spend_accounted budget 0 "knowledge" (tokens_of (doc_block idx d)) [plain "system" (doc_block idx d)]
      p Hacc ltac:(lia)) as Hs.
    assert (Hone : message_tokens [plain "system" (doc_block idx d)] = tokens_of (doc_block idx d))
      by (unfold message_tokens, sum_tokens; cbn [map foldr pm_content plain]; lia).
    rewrite Hone in Hs. replace (0 + tokens_of (doc_block idx d) - tokens_of (doc_block idx d)) with 0 in Hs by lia.
    destruct (IH (S idx) _ Hs) as (k & Hk & Hm & Hd & Ht & Hb & Ha). exists (S k). cbn [length doc_texts take map].
    rewrite Hm, Hd, Ht, Hb. cbn [spend pr_messages pr_docs pr_turns pr_blocks]. rewrite <- app_assoc.
    replace (S idx + k)%nat with (idx + S k)%nat by lia. by split_and!; [lia|..].
Qed.

(** ** What a successful assembly is made of *)

Section assembled.
Context (system_prompt current_message : string) (history : list ContextTurn) (summary : option string)
  (position : option Z) (layers : option (list layer)) (facts : list string) (docs : list retrieved_doc)
  (clear : bool) (window : option Z) (markers : option bool).

Abbreviation run := (assemble system_prompt current_message history summary position layers facts docs
                       clear window markers).

Definition system_messages (md : option json) (texts : list string) : list prompt_message :=
  map (fun t => {| pm_role := "system"; pm_content := t; pm_metadata := md |}) texts.

Definition stable_metadata : json :=
  if default default_markers markers then CACHE_CONTROL_METADATA else JObj [].

Definition layer_texts : list string := summary_texts 0 (_normalize_layers layers summary).

Lemma block_messages texts md name p p' :
  block_of texts md name p p' ->
  exists ms bs, pr_messages p' = pr_messages p ++ ms /\ pr_blocks p' = pr_blocks p ++ bs
    /\ pr_turns p' = pr_turns p /\ pr_docs p' = pr_docs p
    /\ (ms = system_messages md texts \/ ms = [] /\ name ∈ bs).
Proof.
  intros [->|p'' Hn ->|Hn].
  - exists [], []. rewrite !app_nil_r. by split_and!; [..|left].
  - exists (system_messages md texts), []. rewrite app_nil_r. by split_and!; [..|left].
  - exists [], [name]. cbn. rewrite app_nil_r. split_and!; [done..|]. right. split; [done|].
    by apply list_elem_of_singleton.
Qed.

Lemma one_message_tokens m : message_tokens [m] = tokens_of (pm_content m).
Proof. unfold message_tokens, sum_tokens. cbn [map foldr]. lia. Qed.

Lemma spend_one budget k m p :
  accounted budget 0 p -> tokens_of (pm_content m) <= remaining p ->
  accounted budget 0 (spend k (tokens_of (pm_content m)) [m] p).
Proof.
  intros Hp Hn. pose proof (spend_accounted budget 0 k _ [m] p Hp Hn) as Hs.
  rewrite one_message_tokens in Hs. by rewrite Z.add_simpl_r in Hs.
Qed.

Definition system_message : prompt_message :=
  {| pm_role := "system"; pm_content := system_prompt; pm_metadata := Some stable_metadata |}.

(** The blocks before the tail. *)
Lemma prefix_spec budget :
  tokens_of system_prompt <= budget ->
  let p := {| pr_messages := []; pr_counts := []; pr_turns := []; pr_docs := []; pr_blocks := [];
              remaining := budget |} in
  let p3 := memory_block facts (summary_block stable_metadata (_normalize_layers layers summary)
              (spend "system" (tokens_of system_prompt) [system_message] p)) in
  exists S M, pr_messages p3 = system_message :: S ++ M /\ pr_turns p3 = [] /\ pr_docs p3 = []
    /\ (S = system_messages (Some stable_metadata) layer_texts \/ S = [] /\ "summary" ∈ pr_blocks p3)
    /\ (M = system_messages None (memory_texts facts) \/ M = [] /\ "memory" ∈ pr_blocks p3)
    /\ accounted budget 0 p3.
Proof.
  intros Hle. cbn zeta. set (p0 := Build_progress _ _ _ _ _ _). set (p1 := spend _ _ _ p0).
  assert (H0 : accounted budget 0 p0).
  { split_and!; [done|done|]. etrans; [|exact Hle]. unfold estimate. destruct system_prompt; [done|].
    destruct (_ <=?q 0) eqn:E; [done|]. q_prop.
    rewrite <- (Qceiling_Z 0). apply Qceiling_resp_le. apply Qle_shift_div_l; [done|]. cbn. unfold Qle. cbn. lia. }
  assert (H1 : accounted budget 0 p1) by (apply (spend_one budget "system" system_message p0 H0); exact Hle).
  pose proof (summary_block_of stable_metadata (_normalize_layers layers summary) p1) as B2.
  set (p2 := summary_block _ _ _) in *. pose proof (block_accounted _ _ _ _ _ _ B2 H1) as H2.
  pose proof (memory_block_of facts p2) as B3. pose proof (block_accounted _ _ _ _ _ _ B3 H2) as H3.
  destruct (block_messages _ _ _ _ _ B2) as (S & bs & Hm & Hb & Ht & Hd & HS).
  destruct (block_messages _ _ _ _ _ B3) as (M & bs' & Hm' & Hb' & Ht' & Hd' & HM).
  exists S, M. rewrite Hm', Hb', Ht', Hd', Hm, Hb, Ht, Hd, <- app_assoc. split_and!; [done|done|done| | |done].
  - destruct HS as [->|[-> Hin]]; [by left|right]. split; [done|]. set_solver.
  - destruct HM as [->|[-> Hin]]; [by left|right]. split; [done|]. set_solver.
Qed.

Lemma assemble_inv ctx :
  run = inl ctx ->
  exists S M kept k,
    ctx_messages ctx = system_message :: S ++ M ++ rev (map (render clear) kept)
      ++ map (plain "system") (take k (doc_texts 0 (_sorted_docs docs))) ++ [plain "user" current_message]
    /\ (S = system_messages (Some stable_metadata) layer_texts \/ S = [] /\ "summary" ∈ omitted_blocks ctx)
    /\ (M = system_messages None (memory_texts facts) \/ M = [] /\ "memory" ∈ omitted_blocks ctx)
    /\ walk position clear (_recent_turns_first history) kept (omitted_turns ctx)
    /\ (k <= length docs)%nat /\ omitted_docs ctx = seq k (length docs - k)
    /\ total_tokens ctx = message_tokens (ctx_messages ctx) /\ total_tokens ctx <= budget_tokens ctx
    /\ budget_tokens ctx = ctx_window ctx - output_reserve_tokens.
Proof.
  unfold assemble. set (win := match window with Some _ => _ | None => _ end).
  destruct (_ <=? 0) eqn:E0; [done|]. destruct (_ <? tokens_of system_prompt) eqn:E1; [done|]. to_prop.
  fold stable_metadata. fold system_message. set (budget := win - output_reserve_tokens) in *.
  destruct (prefix_spec budget E1) as (S & M & Hm & Ht & Hd & HS & HM & H3). cbn zeta in Hm, Ht, Hd, HS, HM, H3.
  set (p3 := memory_block _ _) in *.
  destruct (tail_loop _ _ _ _ p3) as [[tail p4]|e] eqn:Etail; [|done].
  destruct (tail_loop_walk _ _ _ _ _ _ _ budget Etail H3)
    as (kept & gone & Hwalk & Htail & Hm4 & Ht4 & Hd4 & Hb4 & H4). cbn [app] in Htail. subst tail.
  assert (H5 : accounted budget 0 (add_messages (rev (map (render clear) kept)) p4)).
  { destruct H4 as (? & ? & ?). unfold accounted. cbn [add_messages pr_counts pr_messages remaining].
    rewrite message_tokens_app, message_tokens_rev. lia. }
  destruct (knowledge_loop_spec 0 (_sorted_docs docs) _ budget H5) as (k & Hk & Hm6 & Hd6 & Ht6 & Hb6 & H6).
  set (p6 := knowledge_loop 0 _ _) in *. destruct (remaining p6 <? _) eqn:E7; [done|]. to_prop.
  assert (Hlen : length (_sorted_docs docs) = length docs) by (unfold _sorted_docs; by rewrite length_sort_by, length_map).
  rewrite Hlen in Hk, Hd6. intros [= <-].
  destruct (spend_one budget "current" (plain "user" current_message) p6 H6 E7) as (Hm7 & Hb7 & Hr7).
  exists S, M, kept, k. cbn [ctx_messages omitted_turns omitted_docs omitted_blocks total_tokens budget_tokens ctx_window].
  cbn [spend add_messages pr_messages pr_turns pr_docs pr_blocks pr_counts remaining pm_content plain] in *.
  rewrite Hm6, Hd6, Ht6, Hb6, Hm4, Hd4, Ht4, Hb4, Hm, Hd, Ht in *. cbn [app] in *. rewrite <- !app_assoc in *.
  split_and!; try done; lia.
Qed.

Lemma recent_turns t : t ∈ _recent_turns_first history <-> t ∈ history /\ is_chat_turn t = true.
Proof.
  unfold _recent_turns_first. rewrite list_elem_of_fmap. setoid_rewrite elem_of_sort_by.
  setoid_rewrite list_elem_of_In. setoid_rewrite filter_In. setoid_rewrite <- list_elem_of_In. split.
  - intros ([i t'] & -> & Hin & Hc). split; [|done]. by eapply elem_of_zip_r.
  - intros [[i Hi]%list_elem_of_lookup_1 Hc]. exists (i, t). split_and!; [done| |done].
    apply list_elem_of_lookup. exists i. apply lookup_zip_Some. split; [|done].
    apply lookup_seq. split; [done|]. by apply lookup_lt_Some in Hi.
Qed.

Lemma walk_turns ts kept gone :
  walk position clear ts kept gone ->
  kept `sublist_of` ts
  /\ Forall (fun t => summarised position t = false) kept
  /\ forall t, t ∈ ts -> summarised position t = true
       \/ rendered_text clear t = EmptyString /\ unredacted clear t = false
       \/ truthy (rendered_text clear t) = true /\ (t ∈ kept \/ turn_label t ∈ gone).
Proof.
  induction 1 as [|t ts kept gone Hs Hw (H1 & H2 & H3)|t ts kept gone Hb Hu Hw (H1 & H2 & H3)
    |t ts kept gone Hs Ht Hw (H1 & H2 & H3)|t ts kept gone Hs Ht Hw (H1 & H2 & H3)].
  - split_and!; [constructor|constructor|]. intros t Ht. by apply not_elem_of_nil in Ht.
  - split_and!; [by apply sublist_cons|done|]. intros t' [->|Hin]%elem_of_cons; [by left|by apply H3].
  - split_and!; [by apply sublist_cons|done|]. intros t' [->|Hin]%elem_of_cons; [by right; left|by apply H3].
  - split_and!; [by apply sublist_skip|by constructor|].
    intros t' [->|Hin]%elem_of_cons; [right; right; by repeat (left || split)|].
    rewrite !elem_of_cons. destruct (H3 t' Hin) as [?|[?|[? [?|?]]]]; tauto.
  - split_and!; [by apply sublist_cons|done|].
    intros t' [->|Hin]%elem_of_cons; rewrite !elem_of_cons; [tauto|].
    destruct (H3 t' Hin) as [?|[?|[? [?|?]]]]; tauto.
Qed.

Lemma system_messages_role md texts m : m ∈ system_messages md texts -> pm_role m = "system".
Proof. unfold system_messages. by intros (t & -> & _)%list_elem_of_fmap. Qed.

(** ** Properties *)

(** C34: The token budget: what an assembled prompt is accounted for is the sum of
    the estimates of its messages, and it fits the model's window with the
    output reserve kept free. *)
Theorem assembled_within_budget (ctx : AssembledContext) :
  run = inl ctx ->
  total_tokens ctx = message_tokens (ctx_messages ctx)
  /\ total_tokens ctx + output_reserve_tokens <= ctx_window ctx.
Proof.
  intros E. destruct (assemble_inv ctx E) as (S & M & kept & k & _ & _ & _ & _ & _ & _ & Ht & Hle & Hb).
  split; [done|]. lia.
Qed.

(** The order of the blocks: system prompt first, then the whole summary or,
    reported, none of it, the memory or, reported, none, the kept turns oldest
    first, the best documents, the others reported, and the current message
    last: the mandatory blocks are never dropped. *)
Theorem assembled_blocks (ctx : AssembledContext) :
  run = inl ctx ->
  exists S M kept k,
    ctx_messages ctx = system_message :: S ++ M ++ rev (map (render clear) kept)
      ++ map (plain "system") (take k (doc_texts 0 (_sorted_docs docs))) ++ [plain "user" current_message]
    /\ (S = system_messages (Some stable_metadata) layer_texts \/ S = [] /\ "summary" ∈ omitted_blocks ctx)
    /\ (M = system_messages None (memory_texts facts) \/ M = [] /\ "memory" ∈ omitted_blocks ctx)
    /\ kept `sublist_of` _recent_turns_first history
    /\ omitted_docs ctx = seq k (length docs - k).
Proof.
  intros E. destruct (assemble_inv ctx E) as (S & M & kept & k & Hm & HS & HM & Hw & _ & Hd & _).
  exists S, M, kept, k. split_and!; [done|done|done|by apply (walk_turns _ _ _ Hw)|done].
Qed.

(** C35: Redaction: when a prompt is assembled, no turn to render carried raw text
    without redacted text, and a message of a user or of the assistant is the
    current one, or a turn after the summary position with its redacted text
    or, for a cleared tool payload, the placeholder. *)
Theorem no_raw_text_in_prompt (ctx : AssembledContext) :
  run = inl ctx ->
  (forall t, t ∈ history -> is_chat_turn t = true -> summarised position t = false ->
     unredacted clear t = false)
  /\ forall m, m ∈ ctx_messages ctx -> pm_role m <> "system" ->
       m = plain "user" current_message
       \/ exists t, t ∈ history /\ summarised position t = false /\ pm_role m = ct_role t
            /\ (pm_content m = ct_content t
                \/ clear = true /\ has_tool_payload t = true /\ pm_content m = TOOL_RESULT_PLACEHOLDER).
Proof.
  intros E. destruct (assemble_inv ctx E) as (S & M & kept & k & Hm & HS & HM & Hw & _).
  destruct (walk_turns _ _ _ Hw) as (Hsub & Hkept & Hall). rewrite Forall_forall in Hkept. split.
  - intros t Hin Hc Hs. destruct (Hall t) as [Ht|[[_ Ht]|[Ht _]]]; [by apply recent_turns|congruence|done|].
    unfold unredacted. by rewrite Ht.
  - intros m Hin Hrole. rewrite Hm in Hin. rewrite elem_of_cons, !elem_of_app, list_elem_of_singleton in Hin.
    destruct Hin as [->|[HinS|[HinM|[Hk|[Hd|Hc]]]]]; [done| | | | |by left].
    + destruct HS as [->|[-> _]]; [by apply system_messages_role in HinS|by apply not_elem_of_nil in HinS].
    + destruct HM as [->|[-> _]]; [by apply system_messages_role in HinM|by apply not_elem_of_nil in HinM].
    + right. rewrite list_elem_of_In, <- in_rev, <- list_elem_of_In in Hk.
      apply list_elem_of_fmap in Hk as (t & -> & Ht). exists t.
      split_and!; [|by apply Hkept|done|].
      * by apply recent_turns, (elem_of_sublist _ _ _ Ht).
      * cbn. unfold rendered_text. destruct clear, (has_tool_payload t); cbn; auto.
    + by apply list_elem_of_fmap in Hd as (d & -> & _).
Qed.

End assembled.
End turn.
End assemble.

(** ** Concrete runs

    One character is one token; the window leaves 90 tokens. *)

Module Sample.
Definition est : TokenEstimator := new_estimator [(" Default ", 1%Q)].

Definition turn (s : Z) (role text : string) : ContextTurn :=
  {| ct_role := role; ct_content := text; ct_seq := Some s; ct_message_id := None; has_tool_payload := false;
     raw_content := Some "raw" |}.

Definition history : list ContextTurn :=
  [turn 1 "user" "old"; turn 2 "assistant" "a long answer of forty characters .... "; turn 3 "user" "thanks"].

Definition run (current : string) (history : list ContextTurn) : AssembledContext + context_error :=
  assemble est ∅ 20 true "p" "m" "be kind" current history None (Some 0) None ["likes tea"]
    [DocText "doc"; DocDict (Some "better") (Some (7 # 8))] false (Some 110) None.

Definition ok (r : AssembledContext + context_error) : AssembledContext :=
  match r with
  | inl ctx => ctx
  | inr _ => {| ctx_messages := []; token_counts := []; omitted_turns := []; omitted_docs := [];
                omitted_blocks := []; total_tokens := 0; ctx_window := 0; budget_tokens := 0 |}
  end.
End Sample.

(** The loop does not stop at the first turn that does not fit: an older turn
    is rendered after a newer one was left out, so the tail has a gap. *)
Example tail_has_gap :
  let ctx := Sample.ok (Sample.run "why?" Sample.history) in
  map pm_content (ctx_messages ctx) = ["be kind"; memory_text ["likes tea"]; "old"; "thanks"; "why?"]
  /\ omitted_turns ctx = ["seq:2"] /\ omitted_docs ctx = [0; 1]%nat.
Proof. vm_compute. done. Qed.

(** The best-effort blocks are taken from the budget before the mandatory
    current message: one that fits beside the system prompt is refused when
    there is something to remember. *)
Example history_crowds_out_message :
  let long := "a question of thirty characters" in
  Sample.run long [] = inr (ContextBudgetExceeded "current" 31 21)
  /\ length (ctx_messages (Sample.ok (assemble Sample.est ∅ 20 true "p" "m" "be kind" long [] None None None []
                                        [] false (Some 110) None))) = 2%nat.
Proof. vm_compute. done. Qed.

Lemma assembled_within_budget_witness :
  let ctx := Sample.ok (Sample.run "why?" Sample.history) in
  total_tokens ctx = message_tokens Sample.est "p" "m" (ctx_messages ctx)
  /\ total_tokens ctx + 20 <= ctx_window ctx.
Proof.
  apply (assembled_within_budget Sample.est ∅ 20 true "p" "m" "be kind" "why?" Sample.history None (Some 0) None
           ["likes tea"] [DocText "doc"; DocDict (Some "better") (Some (7 # 8))] false (Some 110) None).
  vm_compute. reflexivity.
Defined.

Lemma assembled_blocks_witness :
  let ctx := Sample.ok (Sample.run "why?" Sample.history) in
  exists S M kept k,
    ctx_messages ctx = system_message true "be kind" None :: S ++ M ++ rev (map (render false) kept)
      ++ map (plain "system")
           (take k (doc_texts 0 (_sorted_docs [DocText "doc"; DocDict (Some "better") (Some (7 # 8))])))
      ++ [plain "user" "why?"]
    /\ (S = system_messages (Some (stable_metadata true None)) (layer_texts None None)
        \/ S = [] /\ "summary" ∈ omitted_blocks ctx)
    /\ (M = system_messages None (memory_texts ["likes tea"]) \/ M = [] /\ "memory" ∈ omitted_blocks ctx)
    /\ kept `sublist_of` _recent_turns_first Sample.history
    /\ omitted_docs ctx = seq k (2 - k).
Proof.
  apply (assembled_blocks Sample.est ∅ 20 true "p" "m" "be kind" "why?" Sample.history None (Some 0) None
           ["likes tea"] [DocText "doc"; DocDict (Some "better") (Some (7 # 8))] false (Some 110) None).
  vm_compute. reflexivity.
Defined.

Lemma no_raw_text_in_prompt_witness :
  let ctx := Sample.ok (Sample.run "why?" Sample.history) in
  (forall t, t ∈ Sample.history -> is_chat_turn t = true -> summarised (Some 0) t = false ->
     unredacted false t = false)
  /\ forall m, m ∈ ctx_messages ctx -> pm_role m <> "system" ->
       m = plain "user" "why?"
       \/ exists t, t ∈ Sample.history /\ summarised (Some 0) t = false /\ pm_role m = ct_role t
            /\ (pm_content m = ct_content t
                \/ false = true /\ has_tool_payload t = true /\ pm_content m = TOOL_RESULT_PLACEHOLDER).
Proof.
  apply (no_raw_text_in_prompt Sample.est ∅ 20 true "p" "m" "be kind" "why?" Sample.history None (Some 0) None
           ["likes tea"] [DocText "doc"; DocDict (Some "better") (Some (7 # 8))] false (Some 110) None).
  vm_compute. reflexivity.
Defined.
