(* ===== verification/Tenant.v ===== *)
(** * Tenants and policies (backend/app/domain/tenant, domain/policy, modules/tenant_config)

    The configuration of a tenant with its rehydration from stored data and
    the file-backed service around it, and the policy rules of a tenant with
    their evaluation.  An id is the canonical text of a UUID. *)

From S2P Require Import Prelude Json.

(** ** TenantConfig *)

Record TenantConfig := {
  tc_id : string;
  tc_name : string;
  tc_slug : string;
  allowed_topics : list string;
  blocked_topics : list string;
  escalation_threshold : Q;
  knowledge_allowlist : list string;
  default_provider : string;
  default_model : string;
  budgets : gmap string Q;
  features : gmap string bool;
  tool_clearing : gmap string Q;
  memory : gmap string Q;
  guardrail_config : gmap string bool;
  guardrail_thresholds : gmap string Q;
  stream_moderation_window_chars : option Z;
}.

Definition default_budgets : gmap string Q :=
  {[ "max_redact_iterations" := 2%Q; "max_graph_steps" := 50%Q; "max_duration_s" := 60%Q ]}.
Definition default_tool_clearing : gmap string Q := {[ "keep_recent_turns" := 2%Q ]}.
Definition default_memory : gmap string Q := {[ "max_facts" := 20%Q; "expiry_days" := 30%Q ]}.
Definition default_guardrails : gmap string bool :=
  {[ "regex_fastpath" := true; "classifier" := true; "nemo_rails" := false;
     "jailbreak_detection" := true; "output_validation" := true; "pii_detection" := true;
     "spotlighting" := true ]}.
Definition default_thresholds : gmap string Q :=
  {[ "classifier" := 1 # 2; "jailbreak" := 7 # 10; "pii" := 1 # 2 ]}.

(** The dataclass with its defaults. *)
Definition new_tenant (id name slug : string) (allowed blocked : list string) (threshold : Q) : TenantConfig := {|
  tc_id := id; tc_name := name; tc_slug := slug; allowed_topics := allowed; blocked_topics := blocked;
  escalation_threshold := threshold; knowledge_allowlist := []; default_provider := "openai";
  default_model := "gpt-4"; budgets := default_budgets; features := ∅; tool_clearing := default_tool_clearing;
  memory := default_memory; guardrail_config := default_guardrails; guardrail_thresholds := default_thresholds;
  stream_moderation_window_chars := None |}.

Definition is_topic_allowed (c : TenantConfig) (topic : string) : bool :=
  if decide (topic ∈ blocked_topics c) then false
  else match allowed_topics c with
       | [] => true
       | l => bool_decide (topic ∈ l)
       end.

Definition should_escalate (c : TenantConfig) (confidence : Q) : bool := confidence <?q escalation_threshold c.
Definition is_guardrail_enabled (c : TenantConfig) (name : string) : bool :=
  default true (guardrail_config c !! name).
Definition get_guardrail_threshold (c : TenantConfig) (name : string) : Q :=
  default (1 # 2)%Q (guardrail_thresholds c !! name).
Definition get_allowed_topics (c : TenantConfig) : list string := allowed_topics c.

(** ** Stored configurations

    A row or a JSON file: three required keys, the others may be absent. *)

Record stored_config := {
  sc_id : string;
  sc_name : string;
  sc_slug : string;
  sc_allowed_topics : option (list string);
  sc_blocked_topics : option (list string);
  sc_escalation_threshold : option Q;
  sc_knowledge_allowlist : option (list string);
  sc_default_provider : option string;
  sc_default_model : option string;
  sc_features : option (gmap string bool);
  sc_guardrail_config : option (gmap string bool);
  sc_guardrail_thresholds : option (gmap string Q);
  sc_budgets : option (gmap string Q);
  sc_tool_clearing : option (gmap string Q);
  sc_memory : option (gmap string Q);
  sc_stream_window : option Z;
}.

(** [{**defaults, **data.get(key, {})}] *)
Definition merged {A} (defaults : gmap string A) (stored : option (gmap string A)) : gmap string A :=
  default ∅ stored ∪ defaults.

Definition tenant_config_from_data (d : stored_config) : TenantConfig := {|
  tc_id := sc_id d; tc_name := sc_name d; tc_slug := sc_slug d;
  allowed_topics := default [] (sc_allowed_topics d);
  blocked_topics := default [] (sc_blocked_topics d);
  escalation_threshold := default (7 # 10)%Q (sc_escalation_threshold d);
  knowledge_allowlist := default [] (sc_knowledge_allowlist d);
  default_provider := default "openai" (sc_default_provider d);
  default_model := default "gpt-4" (sc_default_model d);
  budgets := merged default_budgets (sc_budgets d);
  features := default ∅ (sc_features d);
  tool_clearing := merged default_tool_clearing (sc_tool_clearing d);
  memory := merged default_memory (sc_memory d);
  guardrail_config := merged default_guardrails (sc_guardrail_config d);
  guardrail_thresholds := merged default_thresholds (sc_guardrail_thresholds d);
  stream_moderation_window_chars := sc_stream_window d |}.

(** ** TenantConfigService

    The configuration files, in the order the directory lists them, with the
    two caches; a cache is a dictionary in insertion order. *)

Inductive PolicyAction := ALLOW | BLOCK | ESCALATE | REDACT.
#[export] Instance PolicyAction_eq_dec : EqDecision PolicyAction.
Proof. solve_decision. Defined.

Inductive PolicyType := TOPIC_FILTER | PII_REDACTION | TOOL_AUTHORIZATION | OUTPUT_VALIDATION | ESCALATION.
#[export] Instance PolicyType_eq_dec : EqDecision PolicyType.
Proof. solve_decision. Defined.

(** [PolicyAction(value)] and [PolicyType(value)], which raise [ValueError] on
    any other text. *)
Definition action_value (a : PolicyAction) : string :=
  match a with ALLOW => "allow" | BLOCK => "block" | ESCALATE => "escalate" | REDACT => "redact" end.
Definition action_name (a : PolicyAction) : string :=
  match a with ALLOW => "ALLOW" | BLOCK => "BLOCK" | ESCALATE => "ESCALATE" | REDACT => "REDACT" end.
Definition type_value (t : PolicyType) : string :=
  match t with
  | TOPIC_FILTER => "topic_filter" | PII_REDACTION => "pii_redaction"
  | TOOL_AUTHORIZATION => "tool_authorization" | OUTPUT_VALIDATION => "output_validation"
  | ESCALATION => "escalation"
  end.
Definition parse_action (s : string) : option PolicyAction :=
  List.find (fun a => bool_decide (action_value a = s)) [ALLOW; BLOCK; ESCALATE; REDACT].
Definition parse_type (s : string) : option PolicyType :=
  List.find (fun t => bool_decide (type_value t = s))
    [TOPIC_FILTER; PII_REDACTION; TOOL_AUTHORIZATION; OUTPUT_VALIDATION; ESCALATION].

Record PolicyRule := {
  rule_id : string;
  rule_name : string;
  policy_type : PolicyType;
  rule_action : PolicyAction;
  conditions : list (string * json);
  priority : Z;
}.

Record PolicySet := {
  ps_tenant_id : option string;
  ps_name : string;
  rules : list PolicyRule;
  ps_version : Z;
}.

Record service := {
  config_cache : list (string * TenantConfig);
  policy_cache : list (string * PolicySet);
  files : list (string * stored_config);
}.

Definition with_configs (l : list (string * TenantConfig)) (s : service) : service :=
  {| config_cache := l; policy_cache := policy_cache s; files := files s |}.
Definition with_policies (l : list (string * PolicySet)) (s : service) : service :=
  {| config_cache := config_cache s; policy_cache := l; files := files s |}.
Definition with_files (l : list (string * stored_config)) (s : service) : service :=
  {| config_cache := config_cache s; policy_cache := policy_cache s; files := l |}.

Definition create_tenant (id name slug : string) (allowed blocked : option (list string)) (threshold : Q)
    (s : service) : TenantConfig * service :=
  let c := new_tenant id name slug (default [] allowed) (default [] blocked) threshold in
  (c, with_configs (dict_set id c (config_cache s)) s).

(** What [save_config] writes. *)
Definition config_data (c : TenantConfig) : stored_config := {|
  sc_id := tc_id c; sc_name := tc_name c; sc_slug := tc_slug c;
  sc_allowed_topics := Some (allowed_topics c); sc_blocked_topics := Some (blocked_topics c);
  sc_escalation_threshold := Some (escalation_threshold c);
  sc_knowledge_allowlist := Some (knowledge_allowlist c);
  sc_default_provider := Some (default_provider c); sc_default_model := Some (default_model c);
  sc_features := Some (features c); sc_guardrail_config := Some (guardrail_config c);
  sc_guardrail_thresholds := Some (guardrail_thresholds c);
  sc_budgets := None; sc_tool_clearing := None; sc_memory := None;
  sc_stream_window := stream_moderation_window_chars c |}.

Definition save_config (c : TenantConfig) (s : service) : service :=
  with_files (dict_set (tc_slug c) (config_data c) (files s)) s.

Definition load_config (id : string) (s : service) : option TenantConfig * service :=
  match dict_get id (config_cache s) with
  | Some c => (Some c, s)
  | None =>
      match List.find (fun f => bool_decide (sc_id f.2 = id)) (files s) with
      | Some (_, d) =>
          let c := tenant_config_from_data d in
          (Some c, with_configs (dict_set id c (config_cache s)) s)
      | None => (None, s)
      end
  end.

Definition load_config_by_slug (slug : string) (s : service) : option TenantConfig * service :=
  match List.find (fun e => bool_decide (tc_slug e.2 = slug)) (config_cache s) with
  | Some (_, c) => (Some c, s)
  | None =>
      match dict_get slug (files s) with
      | Some d =>
          let c := tenant_config_from_data d in
          (Some c, with_configs (dict_set (tc_id c) c (config_cache s)) s)
      | None => (None, s)
      end
  end.

Definition invalidate_cache (id : string) (s : service) : service :=
  with_policies (dict_pop id (policy_cache s)) (with_configs (dict_pop id (config_cache s)) s).

Definition with_features (f : gmap string bool) (c : TenantConfig) : TenantConfig := {|
  tc_id := tc_id c; tc_name := tc_name c; tc_slug := tc_slug c; allowed_topics := allowed_topics c;
  blocked_topics := blocked_topics c; escalation_threshold := escalation_threshold c;
  knowledge_allowlist := knowledge_allowlist c; default_provider := default_provider c;
  default_model := default_model c; budgets := budgets c; features := f; tool_clearing := tool_clearing c;
  memory := memory c; guardrail_config := guardrail_config c; guardrail_thresholds := guardrail_thresholds c;
  stream_moderation_window_chars := stream_moderation_window_chars c |}.

(** The cached object is updated in place, and then saved. *)
Definition update_tenant_features (id : string) (f : gmap string bool) (s : service) :
    option TenantConfig * service :=
  let '(c, s) := match dict_get id (config_cache s) with
                 | Some c => (Some c, s)
                 | None => load_config id s
                 end in
  match c with
  | Some c =>
      let c := with_features (f ∪ features c) c in
      (Some c, save_config c (with_configs (dict_set id c (config_cache s)) s))
  | None => (None, s)
  end.

Definition delete_tenant (id : string) (s : service) : service :=
  let '(c, s) := match dict_get id (config_cache s) with
                 | Some c => (Some c, s)
                 | None => load_config id s
                 end in
  let s := match c with Some c => with_files (dict_pop (tc_slug c) (files s)) s | None => s end in
  invalidate_cache id s.

(** ** Policies

    The context of an evaluation holds JSON values and floats. *)

Inductive value := Val (v : json) | Float (q : Q).

(** The number a value is to [==]: booleans are integers. *)
Definition as_number (v : json) : option Z :=
  match v with
  | JBool b => Some (Z.b2z b)
  | JNum z => Some z
  | _ => None
  end.

(** [==] on JSON values: numbers by value, dictionaries whatever their order. *)
Fixpoint py_eq (v w : json) {struct v} : bool :=
  match v with
  | JNull => match w with JNull => true | _ => false end
  | JStr s => match w with JStr s' => bool_decide (s = s') | _ => false end
  | JList l =>
      match w with
      | JList l' =>
          (fix go (l l' : list json) : bool :=
             match l, l' with
             | [], [] => true
             | x :: l, y :: l' => py_eq x y && go l l'
             | _, _ => false
             end) l l'
      | _ => false
      end
  | JObj l =>
      match w with
      | JObj l' =>
          (length l =? length l')%nat
          && (fix go (l : list (string * json)) : bool :=
                match l with
                | [] => true
                | (k, x) :: l => match field k l' with Some y => py_eq x y | None => false end && go l
                end) l
      | _ => false
      end
  | JBool _ | JNum _ => bool_decide (as_number v = as_number w)
  end.

Definition value_eq (v : value) (w : json) : bool :=
  match v with
  | Val v => py_eq v w
  | Float q => match as_number w with Some z => Qeq_bool q (inject_Z z) | None => false end
  end.

(** [all(context.get(key) == expected for key, expected in conditions.items())] *)
Definition matches (r : PolicyRule) (context : list (string * value)) : bool :=
  forallb (fun '(k, expected) => value_eq (default (Val JNull) (dict_get k context)) expected) (conditions r).

(** A matching rule as reported to the audit trail. *)
Record rule_detail := {
  rd_rule_id : option string;
  rd_name : string;
  rd_action : PolicyAction;
  rd_policy_type : option PolicyType;
  rd_conditions : list (string * json);
  rd_priority : Z;
  rd_reason : option string;
}.

Definition detail_of (r : PolicyRule) : rule_detail := {|
  rd_rule_id := Some (rule_id r); rd_name := rule_name r; rd_action := rule_action r;
  rd_policy_type := Some (policy_type r); rd_conditions := conditions r; rd_priority := priority r;
  rd_reason := None |}.

Definition denied_by_default (ps : PolicySet) : rule_detail := {|
  rd_rule_id := None; rd_name := "deny-by-default"; rd_action := BLOCK; rd_policy_type := None;
  rd_conditions := []; rd_priority := 0;
  rd_reason := Some (match rules ps with [] => "no_policy_configured" | _ => "no_rule_matched" end) |}.

(** [matching.sort(key=priority, reverse=True)] keeps the order of equals. *)
Definition by_priority : list PolicyRule -> list PolicyRule :=
  sort_by (fun r r' => priority r' <=? priority r).

Definition evaluate_with_results (ps : PolicySet) (context : list (string * value)) :
    PolicyAction * list rule_detail :=
  match by_priority (List.filter (fun r => matches r context) (rules ps)) with
  | [] => (BLOCK, [denied_by_default ps])
  | r :: rs => (rule_action r, map detail_of (r :: rs))
  end.

Definition evaluate (ps : PolicySet) (context : list (string * value)) : PolicyAction :=
  (evaluate_with_results ps context).1.

(** A stored rule: its enumerations are texts, an absent key is [None]. *)
Record stored_rule := {
  sr_name : option string;
  sr_policy_type : option string;
  sr_action : option string;
  sr_conditions : option (list (string * json));
  sr_priority : option Z;
}.

(** A rule whose enumerations do not parse is skipped; [id] is fresh. *)
Definition rule_of_row (id : string) (r : stored_rule) : option PolicyRule :=
  match parse_type (default "topic_filter" (sr_policy_type r)), parse_action (default "allow" (sr_action r)) with
  | Some t, Some a => Some {|
      rule_id := id; rule_name := default EmptyString (sr_name r); policy_type := t; rule_action := a;
      conditions := default [] (sr_conditions r); priority := default 0 (sr_priority r) |}
  | _, _ => None
  end.

Definition policy_set_from_db (tenant : string) (name : string) (version : Z)
    (rows : list (string * stored_rule)) : PolicySet := {|
  ps_tenant_id := Some tenant; ps_name := name;
  rules := omap (fun '(id, r) => rule_of_row id r) rows; ps_version := version |}.

(** [create_policy_set]: here an unknown enumeration raises. *)
Definition create_policy_set (tenant name : string) (rows : list (string * stored_rule)) (s : service) :
    option PolicySet * service :=
  match mapM (fun '(id, r) => rule_of_row id r) rows with
  | Some rs =>
      let ps := {| ps_tenant_id := Some tenant; ps_name := name; rules := rs; ps_version := 1 |} in
      (Some ps, with_policies (dict_set tenant ps (policy_cache s)) s)
  | None => (None, s)
  end.

Definition get_policy_set (tenant : string) (s : service) : option PolicySet := dict_get tenant (policy_cache s).

(** ** Lemmas *)

(** The head of the sorted list is the first of the greatest. *)
Lemma by_priority_head l r rs : by_priority l = r :: rs ->
  exists l1 l2, l = l1 ++ r :: l2 /\ Forall (fun r' => priority r' < priority r) l1
    /\ Forall (fun r' => priority r' <= priority r) l2.
Proof.
  revert r rs. induction l as [|x l IH]; [done|]. intros r rs. unfold by_priority in *. cbn [sort_by foldr].
  fold (sort_by (fun r r' => priority r' <=? priority r) l).
  destruct (sort_by _ l) as [|y ys] eqn:E.
  - intros [= <- <-]. exists [], l. split_and!; [done|constructor|].
    apply (f_equal length) in E. rewrite length_sort_by in E. by destruct l.
  - destruct (IH y ys eq_refl) as (l1 & l2 & -> & H1 & H2). cbn [insert_by].
    destruct (priority y <=? priority x) eqn:Exy; intros [= <- <-]; to_prop.
    + exists [], (l1 ++ y :: l2). split_and!; [done|constructor|]. rewrite Forall_app, Forall_cons.
      split_and!; [|done|]; eapply Forall_impl; [exact H1| |exact H2|]; cbn; lia.
    + exists (x :: l1), l2. split_and!; [done| |done]. by constructor.
Qed.

Lemma filter_split {A} (f : A -> bool) l l1 x l2 : List.filter f l = l1 ++ x :: l2 ->
  exists k1 k2, l = k1 ++ x :: k2 /\ List.filter f k1 = l1 /\ List.filter f k2 = l2 /\ f x = true.
Proof.
  revert l1. induction l as [|y l IH]; intros l1 E; [by destruct l1|]. cbn in E.
  destruct (f y) eqn:Ey.
  - destruct l1 as [|z l1]; injection E as -> E.
    + by exists [], l.
    + destruct (IH l1 E) as (k1 & k2 & -> & <- & <- & ?). exists (z :: k1), k2. cbn. by rewrite Ey.
  - destruct (IH l1 E) as (k1 & k2 & -> & <- & <- & ?). exists (y :: k1), k2. cbn. by rewrite Ey.
Qed.

Lemma Forall_filter {A} (f : A -> bool) (P : A -> Prop) l :
  Forall P (List.filter f l) -> Forall (fun x => f x = true -> P x) l.
Proof.
  induction l as [|x l IH]; [constructor|]. cbn. destruct (f x) eqn:E.
  - rewrite !Forall_cons. naive_solver.
  - intros ?. constructor; [congruence|auto].
Qed.

(** The decision is that of the first matching rule among those of the highest
    priority, and every matching rule is reported, highest priority first;
    without a match, a set of rules blocks. *)
Theorem policy_decision (ps : PolicySet) (context : list (string * value)) :
  let matching := List.filter (fun r => matches r context) (rules ps) in
  match evaluate_with_results ps context with
  | (a, details) =>
      (exists l1 r l2, rules ps = l1 ++ r :: l2 /\ matches r context = true /\ a = rule_action r
         /\ Forall (fun r' => matches r' context = true -> priority r' < priority r) l1
         /\ Forall (fun r' => matches r' context = true -> priority r' <= priority r) l2
         /\ details ≡ₚ map detail_of matching
         /\ StronglySorted (fun d d' => rd_priority d' <= rd_priority d) details)
      \/ (Forall (fun r => matches r context = false) (rules ps) /\ a = BLOCK
          /\ details = [denied_by_default ps])
  end.
Proof.
  cbn zeta. unfold evaluate_with_results. set (m := List.filter _ _).
  destruct (by_priority m) as [|r rs] eqn:E.
  - right. split_and!; [|done|done]. apply Forall_forall. intros r Hr.
    apply (f_equal length) in E. unfold by_priority in E. rewrite length_sort_by in E.
    destruct (matches r context) eqn:Em; [|done]. assert (Hin : r ∈ m).
    { apply list_elem_of_In, List.filter_In. by rewrite <- list_elem_of_In. }
    destruct m; [by apply elem_of_nil in Hin|done].
  - left. destruct (by_priority_head _ _ _ E) as (l1 & l2 & Hm & H1 & H2).
    destruct (filter_split _ _ _ _ _ Hm) as (k1 & k2 & Hk & <- & <- & Hr).
    exists k1, r, k2. split_and!; [done|done|done|by apply Forall_filter|by apply Forall_filter| |].
    + rewrite <- E. by apply Permutation_map, sort_by_perm.
    + assert (Hs : StronglySorted (fun r r' => priority r' <= priority r) (r :: rs)).
      { rewrite <- E. pose proof (sort_by_sorted (fun r r' => priority r' <=? priority r)) as Hs.
        specialize (Hs ltac:(intros x y; rewrite !Z.leb_le; lia) ltac:(intros x y z; rewrite !Z.leb_le; lia) m).
        fold (by_priority m) in Hs. rewrite E in Hs |- *. clear -Hs.
        induction Hs as [|x l Hs IH Hx]; constructor; [done|].
        eapply Forall_impl; [exact Hx|]. cbn. intros. lia. }
      clear -Hs. induction Hs as [|x l Hs IH Hx]; cbn [map]; constructor; [done|].
      apply Forall_map. eapply Forall_impl; [exact Hx|]. done.
Qed.

(** What a configuration becomes once it went through its file. *)
Definition reloaded (c : TenantConfig) : TenantConfig := tenant_config_from_data (config_data c).

Lemma find_saved c l : (forall slug d, (slug, d) ∈ l -> sc_id d = tc_id c -> slug = tc_slug c) ->
  NoDup l.*1 ->
  exists k, List.find (fun f => bool_decide (sc_id f.2 = tc_id c)) (dict_set (tc_slug c) (config_data c) l)
  = Some (k, config_data c).
Proof.
  induction l as [|[k d] l IH]; intros Hids Hnd; cbn.
  { exists (tc_slug c). by rewrite bool_decide_true. }
  cbn in Hnd. apply NoDup_cons in Hnd as [Hk Hnd].
  case_decide as Ek; cbn.
  - exists (tc_slug c). by rewrite bool_decide_true.
  - rewrite bool_decide_false; [apply IH; [|done]; intros ???; apply Hids; by right|].
    intros Hid. apply Ek, (Hids k d); [by left|done].
Qed.

(** A saved configuration that left the cache is read back with its budgets,
    its tool clearing and its memory settings reset to the defaults, since the
    file does not hold them; every other field is as it was saved. *)
Theorem save_then_load (c : TenantConfig) (s : service) :
  NoDup (files s).*1 ->
  (forall slug d, (slug, d) ∈ files s -> sc_id d = tc_id c -> slug = tc_slug c) ->
  let s' := invalidate_cache (tc_id c) (save_config c s) in
  (load_config (tc_id c) s').1 = Some (reloaded c)
  /\ budgets (reloaded c) = default_budgets /\ tool_clearing (reloaded c) = default_tool_clearing
  /\ memory (reloaded c) = default_memory
  /\ (budgets c = default_budgets -> tool_clearing c = default_tool_clearing -> memory c = default_memory ->
      dom default_guardrails ⊆ dom (guardrail_config c) ->
      dom default_thresholds ⊆ dom (guardrail_thresholds c) -> reloaded c = c).
Proof.
  intros Hnd Hids. split_and!.
  - unfold load_config. cbn [config_cache invalidate_cache with_policies with_configs save_config with_files].
    rewrite dict_get_pop, decide_True by done. cbn [files].
    destruct (find_saved c (files s) Hids Hnd) as [k E].
    unfold invalidate_cache, save_config. cbn [with_policies with_configs with_files files]. by rewrite E.
  - unfold reloaded, tenant_config_from_data, merged. cbn [budgets config_data sc_budgets default].
    by rewrite (left_id_L ∅ (∪)).
  - unfold reloaded, tenant_config_from_data, merged. cbn [tool_clearing config_data sc_tool_clearing default].
    by rewrite (left_id_L ∅ (∪)).
  - unfold reloaded, tenant_config_from_data, merged. cbn [memory config_data sc_memory default].
    by rewrite (left_id_L ∅ (∪)).
  - intros Hb Ht Hm Hg Hth. destruct c. cbn in *. subst. unfold reloaded, tenant_config_from_data, merged. cbn.
    assert (Hu : forall A (m d : gmap string A), dom d ⊆ dom m -> m ∪ d = m).
    { intros A m d Hd. apply map_eq. intros k. rewrite lookup_union. destruct (m !! k) eqn:E; [by destruct (d !! k)|].
      assert (Hn : k ∉ dom d) by (intros Hk; apply Hd, elem_of_dom in Hk as [x Hx]; congruence).
      apply not_elem_of_dom in Hn. by rewrite Hn. }
    by rewrite !(left_id_L ∅ (∪)), (Hu _ _ default_guardrails Hg), (Hu _ _ default_thresholds Hth).
Qed.
