(* ===== verification/TextScan.v ===== *)
(** * Scanning the user's text (backend/app/modules/guardrails/)

    The values of domain/safety, the layers and decisions of types.py, and the
    two layers that run on patterns alone: the regular expressions of
    regex_fastpath.py and the jailbreak detector of jailbreak.py.  A search
    runs in a thread under a time limit: which searches pass it is an
    argument.  Processing times are not modelled. *)

From S2P Require Import Prelude Regex Tenant.

(** ** Values (domain/safety, types.py) *)

Inductive SafetyCategory :=
| PROMPT_INJECTION | PROFANITY | OFF_TOPIC | HARMFUL_CONTENT | JAILBREAK_ATTEMPT | SYSTEM_PROMPT_LEAK
| SCHEMA_VALIDATION.

Inductive ViolationSeverity := LOW | MEDIUM | HIGH | CRITICAL.

#[export] Instance severity_eq_dec : EqDecision ViolationSeverity.
Proof. solve_decision. Defined.
#[export] Instance category_eq_dec : EqDecision SafetyCategory.
Proof. solve_decision. Defined.

Inductive GuardrailLayer :=
| REGEX_FASTPATH | CLASSIFIER | NEMO_RAILS | JAILBREAK_SCAN | GUARDRAILS_AI | PII_REDACTION | SPOTLIGHTING.

#[export] Instance layer_eq_dec : EqDecision GuardrailLayer.
Proof. solve_decision. Defined.

Definition layer_name (l : GuardrailLayer) : string :=
  match l with
  | REGEX_FASTPATH => "REGEX_FASTPATH" | CLASSIFIER => "CLASSIFIER" | NEMO_RAILS => "NEMO_RAILS"
  | JAILBREAK_SCAN => "JAILBREAK_SCAN" | GUARDRAILS_AI => "GUARDRAILS_AI"
  | PII_REDACTION => "PII_REDACTION" | SPOTLIGHTING => "SPOTLIGHTING"
  end.

Inductive GuardrailDecision := ALLOW | BLOCK | REDIRECT | REDACT | ESCALATE | REASK.

#[export] Instance decision_eq_dec : EqDecision GuardrailDecision.
Proof. solve_decision. Defined.

(** The values of the metadata dictionaries. *)
Inductive datum :=
| DStr (s : string)
| DNum (q : Q)
| DBool (b : bool)
| DStrs (l : list string)
| DScores (l : list (string * Q))
| DNone
| DSpan (i j : Z)
| DMap (l : list (string * datum)).

Record SafetyViolation := {
  category : SafetyCategory;
  severity : ViolationSeverity;
  description : string;
  matched_text : option string;
  position : option (Z * Z);
  v_metadata : list (string * datum);
}.

(** [SafetyViolation.to_dict]; the names of the enumerations. *)
Definition category_name (c : SafetyCategory) : string :=
  match c with
  | PROMPT_INJECTION => "PROMPT_INJECTION" | PROFANITY => "PROFANITY" | OFF_TOPIC => "OFF_TOPIC"
  | HARMFUL_CONTENT => "HARMFUL_CONTENT" | JAILBREAK_ATTEMPT => "JAILBREAK_ATTEMPT"
  | SYSTEM_PROMPT_LEAK => "SYSTEM_PROMPT_LEAK" | SCHEMA_VALIDATION => "SCHEMA_VALIDATION"
  end.
Definition severity_name (s : ViolationSeverity) : string :=
  match s with LOW => "LOW" | MEDIUM => "MEDIUM" | HIGH => "HIGH" | CRITICAL => "CRITICAL" end.

Definition violation_to_dict (v : SafetyViolation) : list (string * datum) :=
  [("category", DStr (category_name (category v))); ("severity", DStr (severity_name (severity v)));
   ("description", DStr (description v));
   ("matched_text", match matched_text v with Some s => DStr s | None => DNone end);
   ("position", match position v with Some (i, j) => DSpan i j | None => DNone end);
   ("metadata", DMap (v_metadata v))].

Record SafetyCheckResult := {
  passed : bool;
  violations : list SafetyViolation;
  confidence : Q;
  metadata : list (string * datum);
}.

Definition serious (v : SafetyViolation) : bool :=
  bool_decide (severity v = HIGH) || bool_decide (severity v = CRITICAL).

Definition no_violation (vs : list SafetyViolation) : bool := match vs with [] => true | _ => false end.

(** [should_block] and [should_escalate] of a check. *)
Definition check_should_block (r : SafetyCheckResult) : bool := negb (passed r) && existsb serious (violations r).
Definition check_should_escalate (r : SafetyCheckResult) : bool :=
  negb (passed r) && existsb (fun v => bool_decide (severity v = MEDIUM)) (violations r).

(** The exceptions of the module (errors.py), and those of the language it
    lets through. *)
Inductive guard_exc :=
| GuardrailConfigurationError (field message : string)
| GuardrailTimeoutError (layer : string) (timeout : Q)
| GuardrailEngineError (layer message : string)
| PatternError (pattern : string)
| IndexError
| RuntimeError (message : string)
| TimeoutError
| OtherError (message : string).

(** What an empty text gets from every layer. *)
Definition empty_passes : SafetyCheckResult :=
  {| passed := true; violations := []; confidence := 1; metadata := [] |}.

(** ** The regular expressions of the fast path *)

Record RegexPattern := {
  p_name : string;
  pattern : string;
  p_category : SafetyCategory;
  p_severity : ViolationSeverity;
  action : GuardrailDecision;
  p_description : string;
}.

#[export] Instance pattern_eq_dec : EqDecision RegexPattern.
Proof. solve_decision. Defined.

(** [RegexPattern(...)], whose [__post_init__] wants a name and a pattern. *)
Definition new_pattern (name pat : string) (c : SafetyCategory) (s : ViolationSeverity) (a : GuardrailDecision)
    (d : string) : outcome guard_exc RegexPattern :=
  if negb (truthy name) then Raise (GuardrailConfigurationError "name" "RegexPattern name cannot be empty")
  else if negb (truthy pat) then Raise (GuardrailConfigurationError "pattern" "RegexPattern pattern cannot be empty")
  else Ret {| p_name := name; pattern := pat; p_category := c; p_severity := s; action := a; p_description := d |}.

Definition DEFAULT_PATTERNS : list RegexPattern := [
  {| p_name := "obvious_injection";
     pattern := "(?i)(ignore previous|disregard above|system prompt|you are now)";
     p_category := PROMPT_INJECTION; p_severity := HIGH; action := BLOCK;
     p_description := "Obvious injection attempt keywords" |};
  {| p_name := "profanity_basic";
     pattern := "(?i)(fuck|shit|bitch|asshole)";
     p_category := PROFANITY; p_severity := MEDIUM; action := REDIRECT;
     p_description := "Basic profanity detection" |};
  {| p_name := "pii_leak_keywords";
     pattern := "(?i)(credit.card|social.security|ssn|passport|driver.?s license)";
     p_category := HARMFUL_CONTENT; p_severity := HIGH; action := REDACT;
     p_description := "Potential PII leak keywords" |};
  {| p_name := "url_injection";
     pattern := "(?i)(https?://|www\.)\S+";
     p_category := PROMPT_INJECTION; p_severity := MEDIUM; action := REASK;
     p_description := "URL in user input - verify before processing" |}].

Record RegexFastpathEngine := { patterns : list RegexPattern; rf_timeout : Q }.

Definition named (name : string) (p : RegexPattern) : bool := bool_decide (p_name p = name).

(** [add_pattern]: a name that is taken is ignored. *)
Definition append_pattern (ps : list RegexPattern) (p : RegexPattern) : list RegexPattern :=
  if existsb (named (p_name p)) ps then ps else ps ++ [p].

Definition new_fastpath (custom : list RegexPattern) (timeout : Q) : RegexFastpathEngine :=
  {| patterns := foldl append_pattern DEFAULT_PATTERNS custom; rf_timeout := timeout |}.

Definition add_pattern (p : RegexPattern) (e : RegexFastpathEngine) : outcome guard_exc unit * RegexFastpathEngine :=
  let e' := {| patterns := append_pattern (patterns e) p; rf_timeout := rf_timeout e |} in
  if existsb (named (p_name p)) (patterns e) then (Ret tt, e')
  else match re_compile (pattern p) with
       | Some _ => (Ret tt, e')
       | None => (Raise (PatternError (pattern p)), e')
       end.

(** The first pattern of the name that is not a default one is dropped. *)
Fixpoint drop_pattern (name : string) (ps : list RegexPattern) : option (list RegexPattern) :=
  match ps with
  | [] => None
  | p :: ps =>
      if named name p && negb (bool_decide (p ∈ DEFAULT_PATTERNS)) then Some ps
      else cons p <$> drop_pattern name ps
  end.

Definition remove_pattern (name : string) (e : RegexFastpathEngine) : bool * RegexFastpathEngine :=
  match drop_pattern name (patterns e) with
  | Some ps => (true, {| patterns := ps; rf_timeout := rf_timeout e |})
  | None => (false, e)
  end.

(** [_do_initialize] compiles; [_do_close] drops every pattern. *)
Definition fastpath_initialize (e : RegexFastpathEngine) : outcome guard_exc unit :=
  match List.find (fun p => negb (bool_decide (is_Some (re_compile (pattern p))))) (patterns e) with
  | Some p => Raise (PatternError (pattern p))
  | None => Ret tt
  end.
Definition fastpath_close (e : RegexFastpathEngine) : RegexFastpathEngine :=
  {| patterns := []; rf_timeout := rf_timeout e |}.

Definition pattern_violation (p : RegexPattern) (text : string) (span : Z * Z) : SafetyViolation :=
  {| category := p_category p; severity := p_severity p; description := p_description p;
     matched_text := Some (slice text span); position := Some span;
     v_metadata := [("pattern_name", DStr (p_name p))] |}.

Section fastpath.
(** The searches, by the pattern's place, that pass the time limit. *)
Context (slow : nat -> bool) (timeout : Q) (text : string).

(** The loop of [evaluate]; a critical match ends it. *)
Fixpoint scan (i : nat) (ps : list RegexPattern) : outcome guard_exc (list SafetyViolation) :=
  match ps with
  | [] => Ret []
  | p :: ps =>
      match re_compile (pattern p) with
      | None => Raise (PatternError (pattern p))
      | Some r =>
          if slow i then Raise (GuardrailTimeoutError (layer_name REGEX_FASTPATH) timeout)
          else
            match search r text with
            | None => scan (S i) ps
            | Some span =>
                let v := pattern_violation p text span in
                if bool_decide (p_severity p = CRITICAL) then Ret [v]
                else match scan (S i) ps with Ret vs => Ret (v :: vs) | Raise e => Raise e end
            end
      end
  end.
End fastpath.

(** The names [matched_patterns] collects next to the violations. *)
Definition pattern_names (vs : list SafetyViolation) : list string :=
  omap (fun v => match List.find (fun kv => bool_decide (kv.1 = "pattern_name")) (v_metadata v) with
                 | Some (_, DStr n) => Some n
                 | _ => None
                 end) vs.

(** [RegexFastpathEngine.evaluate] *)
Definition fastpath_evaluate (e : RegexFastpathEngine) (slow : nat -> bool) (text : string) (c : TenantConfig) :
    outcome guard_exc SafetyCheckResult :=
  if negb (truthy text) then Ret empty_passes
  else if negb (is_guardrail_enabled c "regex_fastpath") then
    Ret {| passed := true; violations := []; confidence := 1;
           metadata := [("layer", DStr (layer_name REGEX_FASTPATH)); ("reason", DStr "layer_disabled")] |}
  else
    match scan slow (rf_timeout e) text 0 (patterns e) with
    | Raise x => Raise x
    | Ret vs =>
        Ret {| passed := no_violation vs; violations := vs;
               confidence := if no_violation vs then 1 else 0;
               metadata := [("layer", DStr (layer_name REGEX_FASTPATH));
                            ("patterns_checked", DNum (inject_Z (Z.of_nat (length (patterns e)))));
                            ("matched_patterns", DStrs (pattern_names vs))] |}
    end.

(** ** The jailbreak detector *)

Definition JAILBREAK_PATTERNS : list (string * string) := [
  ("(?i)ignore\s+(previous|all)\s+(instructions|rules)", "ignore_instructions");
  ("(?i)disregard\s+(the\s+)?(above|previous)", "disregard_previous");
  ("(?i)you\s+are\s+now\s+(in\s+)?(mode|state|character)", "role_change");
  ("(?i)(system|developer)\s+prompt", "system_prompt_leak");
  ("(?i)bypass\s+(safety|security|filters)", "bypass_attempt");
  ("(?i)(dan|do\s+anything\s+now)", "dan_mode");
  ("(?i)roleplay\s+as\s+(unrestricted|uncensored)", "roleplay_unrestricted");
  ("(?i)print\s+(the\s+)?(system|developer)\s+(message|instruction)", "print_prompt");
  ("(?i)output\s+(your|the)\s+(prompt|instructions|system\s+message)", "output_prompt");
  ("(?i)reveal\s+(your|the)\s+(prompt|instructions|system\s+message|rules)", "reveal_prompt");
  ("(?i)simulate\s+(the\s+)?(ai|assistant|bot)\s+(without|bypassing)", "simulate_bypass");
  ("(?i)you\s+(don.?t|do\s+not)\s+have\s+to\s+(follow|obey)", "refuse_obey");
  ("(?i)new\s+rule[s]?\s*:?\s*you\s+(will\s+)?(now|must)", "new_rule_injection");
  ("(?i)this\s+is\s+(a\s+)?(test|simulation|roleplay|scenario)", "scenario_framing")].

Record JailbreakDetector := {
  scan_timeout : Q;
  heuristic_enabled : bool;
  heuristic_threshold : Q;
  _compiled : list regex;
}.

Definition new_detector (threshold : Q) : JailbreakDetector :=
  {| scan_timeout := 2; heuristic_enabled := true; heuristic_threshold := threshold; _compiled := [] |}.

Definition with_compiled (rs : list regex) (d : JailbreakDetector) : JailbreakDetector :=
  {| scan_timeout := scan_timeout d; heuristic_enabled := heuristic_enabled d;
     heuristic_threshold := heuristic_threshold d; _compiled := rs |}.

Definition detector_initialize (d : JailbreakDetector) : outcome guard_exc JailbreakDetector :=
  match mapM (fun p => re_compile p.1) JAILBREAK_PATTERNS with
  | Some rs => Ret (with_compiled rs d)
  | None => Raise (PatternError "JAILBREAK_PATTERNS")
  end.
Definition detector_close (d : JailbreakDetector) : JailbreakDetector := with_compiled [] d.

Definition jailbreak_violation (name text : string) (span : Z * Z) : SafetyViolation :=
  {| category := PROMPT_INJECTION; severity := HIGH; description := "Jailbreak pattern detected: " +:+ name;
     matched_text := Some (slice text span); position := Some span;
     v_metadata := [("detection_method", DStr "regex_pattern"); ("pattern_name", DStr name)] |}.

(** *** The heuristic score *)

Definition instruction_words : list string :=
  ["ignore"; "disregard"; "override"; "bypass"; "pretend"; "act as"; "you are"; "from now on"].
Definition urgency_words : list string := ["immediately"; "now"; "urgent"; "as fast as possible"].

(** [sum(weight for w in words if w in text.lower())] *)
Definition words_score (weight : Q) (words : list string) (text : string) : Q :=
  inject_Z (Z.of_nat (length (List.filter (fun w => contains w (lower text)) words))) * weight.

(** A quote, an apostrophe, a newline or a tab. *)
Definition formatting_char (a : ascii) : bool :=
  let n := nat_of_ascii a in ((n =? 34) || (n =? 39) || (n =? 10) || (n =? 9))%nat.

Fixpoint count_chars (f : ascii -> bool) (s : string) : Z :=
  match s with
  | EmptyString => 0
  | String a s => (if f a then 1 else 0) + count_chars f s
  end.

Definition length_score (text : string) : Q :=
  let n := Z.of_nat (String.length text) in
  if 500 <? n then Qminb (1 # 5) (inject_Z (n - 500) / 5000 * (1 # 5)) else 0.

Definition _compute_heuristic_score (text : string) : Q :=
  Qminb 1 (length_score text + words_score (1 # 20) instruction_words text
           + words_score (3 # 100) urgency_words text
           + (if 20 <? count_chars formatting_char text then 1 # 10 else 0))%Q.

Section detector.
Context (slow : nat -> bool) (timeout : Q) (text : string) (compiled : list regex).

(** The loop of [evaluate] over the patterns' names. *)
Fixpoint scan_jailbreak (i : nat) (names : list string) : outcome guard_exc (list SafetyViolation) :=
  match names with
  | [] => Ret []
  | name :: names =>
      match nth_error compiled i with
      | None => Raise IndexError
      | Some r =>
          if slow i then Raise (GuardrailTimeoutError (layer_name JAILBREAK_SCAN) timeout)
          else
            match scan_jailbreak (S i) names with
            | Raise e => Raise e
            | Ret vs => Ret (match search r text with
                             | Some span => jailbreak_violation name text span :: vs
                             | None => vs
                             end)
            end
      end
  end.
End detector.

Definition heuristic_violation (score : Q) : SafetyViolation :=
  {| category := PROMPT_INJECTION; severity := MEDIUM; description := "Heuristic jailbreak score exceeded threshold";
     matched_text := None; position := None;
     v_metadata := [("detection_method", DStr "heuristic"); ("score", DNum score)] |}.

(** [JailbreakDetector.evaluate] *)
Definition detector_evaluate (d : JailbreakDetector) (slow : nat -> bool) (text : string) :
    outcome guard_exc SafetyCheckResult :=
  if negb (truthy text) then Ret empty_passes
  else
    match scan_jailbreak slow (scan_timeout d) text (_compiled d) 0 JAILBREAK_PATTERNS.*2 with
    | Raise e => Raise e
    | Ret matched =>
        let score := if heuristic_enabled d then _compute_heuristic_score text else 0%Q in
        let vs := matched ++ (if heuristic_enabled d && (heuristic_threshold d <?q score)
                              then [heuristic_violation score] else []) in
        Ret {| passed := no_violation vs; violations := vs;
               confidence := if no_violation vs then 19 # 20 else 0;
               metadata := [("layer", DStr (layer_name JAILBREAK_SCAN));
                            ("patterns_checked", DNum (inject_Z (Z.of_nat (length (_compiled d)))));
                            ("matched_patterns", DStrs (pattern_names matched));
                            ("heuristic_score", DNum score)] |}
    end.

(** ** Lemmas *)

Definition never (_ : nat) : bool := false.

(** A pattern that compiles and whose language has a word in the text. *)
Definition hits (text : string) (p : RegexPattern) : Prop :=
  exists r, re_compile (pattern p) = Some r /\ occurs r text.

Lemma scan_spec timeout text i ps :
  Forall (fun p => is_Some (re_compile (pattern p))) ps ->
  exists vs, scan never timeout text i ps = Ret vs /\
    (vs = [] <-> Forall (fun p => ~ hits text p) ps) /\
    Forall (fun v => exists p span, p ∈ ps /\ hits text p /\ v = pattern_violation p text span) vs.
Proof.
  intros Hps. revert i. induction Hps as [|p ps [r Hr] Hps IH]; intros i.
  { exists []. split_and!; [done| |done]. split; [by constructor|done]. }
  cbn [scan]. rewrite Hr. cbn [never]. destruct (IH (S i)) as (vs & Hscan & Hnil & Hall).
  assert (Forall (fun v => exists q span, q ∈ p :: ps /\ hits text q /\ v = pattern_violation q text span) vs) as Hall'.
  { eapply Forall_impl; [exact Hall|]. intros v (q & span & Hq & Hh & ->). exists q, span. split; [by right|done]. }
  assert (is_Some (search r text) <-> hits text p) as Hh.
  { rewrite search_occurs. unfold hits. split; [eauto|]. intros (r' & Hr' & Ho). congruence. }
  destruct (search r text) as [span|] eqn:Es.
  - assert (hits text p) as Hp by (by apply Hh).
    assert (exists q sp, q ∈ p :: ps /\ hits text q /\ pattern_violation p text span = pattern_violation q text sp) as Hv.
    { exists p, span. split; [by left|done]. }
    case_bool_decide; [|rewrite Hscan]; eexists; (split; [done|]; split; [|by repeat constructor]);
      (split; [done|]; intros [Hn _]%Forall_cons; done).
  - exists vs. split; [done|]. split; [|done]. rewrite Forall_cons, Hnil. split; [|tauto]. intros Hvs.
    split; [|done]. rewrite <- Hh. by intros [].
Qed.

Lemma no_violation_nil vs : no_violation vs = true <-> vs = [].
Proof. by destruct vs. Qed.

Lemma scan_jailbreak_spec timeout text i names rs :
  length rs = length names ->
  forall compiled, drop i compiled = rs ->
  exists vs, scan_jailbreak never timeout text compiled i names = Ret vs /\
    (vs = [] <-> Forall (fun r => ~ occurs r text) rs).
Proof.
  revert i rs. induction names as [|name names IH]; intros i [|r rs] Hl compiled Hd; try done; cbn [scan_jailbreak].
  { exists []. split; [done|]. split; [by constructor|done]. }
  assert (nth_error compiled i = Some r) as ->.
  { rewrite <- (take_drop i compiled), Hd. assert (length (take i compiled) = i) as Hi.
    { apply length_take_le. assert (length (drop i compiled) <> 0)%nat by by rewrite Hd.
      rewrite length_drop in *. lia. }
    by rewrite nth_error_app2, Hi, Nat.sub_diag by lia. }
  cbn [never]. destruct (IH (S i) rs) with (compiled := compiled) as (vs & -> & Hvs).
  { by injection Hl. }
  { replace (S i) with (i + 1)%nat by lia. by rewrite <- drop_drop, Hd. }
  pose proof (search_absent r text) as Hr.
  destruct (search r text) as [span|]; eexists; (split; [done|]); rewrite Forall_cons.
  - split; [done|]. by intros [?%Hr _].
  - rewrite Hvs, <- Hr. tauto.
Qed.

Lemma jailbreak_patterns_compile :
  exists rs, mapM (fun p => re_compile p.1) JAILBREAK_PATTERNS = Some rs /\ length rs = length JAILBREAK_PATTERNS.*2.
Proof.
  assert (match mapM (fun p => re_compile p.1) JAILBREAK_PATTERNS with
          | Some rs => (length rs =? length JAILBREAK_PATTERNS.*2)%nat
          | None => false
          end = true) as H by (vm_compute; reflexivity).
  destruct (mapM _ JAILBREAK_PATTERNS) as [rs|]; [|done]. exists rs. split; [done|].
  by apply Nat.eqb_eq.
Qed.

Lemma default_patterns_compile : Forall (fun p => is_Some (re_compile (pattern p))) DEFAULT_PATTERNS.
Proof.
  apply Forall_forall. intros p Hp.
  assert (forallb (fun p => match re_compile (pattern p) with Some _ => true | None => false end) DEFAULT_PATTERNS
          = true) as H by (vm_compute; reflexivity).
  rewrite forallb_forall in H. apply list_elem_of_In, H in Hp. by destruct (re_compile (pattern p)).
Qed.

(** *** The score *)

Lemma words_score_bounds w words text :
  (0 <= w -> 0 <= words_score w words text <= inject_Z (Z.of_nat (length words)) * w)%Q.
Proof.
  intros Hw. unfold words_score.
  pose proof (List.filter_length_le (fun w => contains w (lower text)) words) as Hl.
  split; [apply Qmult_le_0_compat; [|done]|apply Qmult_le_compat_r; [|done]].
  - change 0%Q with (inject_Z 0). rewrite <- Zle_Qle. lia.
  - rewrite <- Zle_Qle. lia.
Qed.

Lemma length_score_bounds text :
  (0 <= length_score text <= if 500 <? Z.of_nat (String.length text) then 1 # 5 else 0)%Q.
Proof.
  unfold length_score. destruct (Z.ltb_spec 500 (Z.of_nat (String.length text))); [|split; lra].
  unfold Qminb. destruct (Qle_bool _ _) eqn:E; [split; lra|].
  split; [|apply Qleb_false in E; lra].
  apply Qmult_le_0_compat; [|lra]. apply Qmult_le_0_compat; [|done].
  change 0%Q with (inject_Z 0). rewrite <- Zle_Qle. lia.
Qed.

(** ** Properties *)

(** an enabled fast path passes a text exactly when none of its patterns
    occurs in it, and each violation it reports is of a pattern that does;
    compiled patterns and searches within the limit given, it always
    answers. *)
Theorem fastpath_spec e text c :
  truthy text = true -> is_guardrail_enabled c "regex_fastpath" = true ->
  Forall (fun p => is_Some (re_compile (pattern p))) (patterns e) ->
  exists res, fastpath_evaluate e never text c = Ret res /\
    (passed res = true <-> Forall (fun p => ~ hits text p) (patterns e)) /\
    Forall (fun v => exists p span, p ∈ patterns e /\ hits text p /\ v = pattern_violation p text span)
      (violations res).
Proof.
  intros Ht Hg Hps. unfold fastpath_evaluate. rewrite Ht, Hg. cbn [negb].
  destruct (scan_spec (rf_timeout e) text 0 _ Hps) as (vs & -> & Hnil & Hall).
  eexists. split; [done|]. cbn. by rewrite no_violation_nil.
Qed.

(** an initialized detector passes a text exactly when none of its patterns
    occurs in it and the heuristic score does not pass the threshold. *)
Theorem detector_spec d text :
  truthy text = true -> heuristic_enabled d = true ->
  exists rs d', mapM (fun p => re_compile p.1) JAILBREAK_PATTERNS = Some rs /\
    detector_initialize d = Ret d' /\
    exists res, detector_evaluate d' never text = Ret res /\
      (passed res = true <->
        Forall (fun r => ~ occurs r text) rs /\ (_compute_heuristic_score text <= heuristic_threshold d)%Q).
Proof.
  intros Ht Hh. destruct jailbreak_patterns_compile as (rs & Hrs & Hl). exists rs, (with_compiled rs d).
  unfold detector_initialize. rewrite Hrs. split; [done|]. split; [done|].
  destruct (scan_jailbreak_spec (scan_timeout d) text 0 JAILBREAK_PATTERNS.*2 rs Hl rs eq_refl) as (vs & Hs & Hvs).
  unfold detector_evaluate. rewrite Ht. cbn [negb with_compiled scan_timeout _compiled heuristic_enabled heuristic_threshold].
  rewrite Hs, Hh. eexists. split; [done|]. cbn [passed andb]. rewrite no_violation_nil, <- Hvs.
  unfold Qltb. destruct (Qle_bool (_compute_heuristic_score text) (heuristic_threshold d)) eqn:E; cbn [negb].
  - apply Qle_bool_iff in E. rewrite app_nil_r. tauto.
  - apply Qleb_false in E. split; [by destruct vs|]. intros [_ ?]. lra.
Qed.

(** the heuristic score never passes 0.82, nor 0.62 on a text of at most 500
    characters: the default threshold of 0.7 only applies to longer ones. *)
Theorem heuristic_bounded text :
  (0 <= _compute_heuristic_score text
     <= (if 500 <? Z.of_nat (String.length text) then 41 # 50 else 31 # 50))%Q.
Proof.
  pose proof (length_score_bounds text) as [H1 H2].
  destruct (words_score_bounds (1 # 20) instruction_words text) as [H3 H4]; [lra|].
  destruct (words_score_bounds (3 # 100) urgency_words text) as [H5 H6]; [lra|].
  change (words_score (1 # 20) instruction_words text <= 8 * (1 # 20))%Q in H4.
  change (words_score (3 # 100) urgency_words text <= 4 * (3 # 100))%Q in H6.
  unfold _compute_heuristic_score. set (n := count_chars _ _). split.
  - apply Qminb_glb; [lra|]. destruct (20 <? n); lra.
  - eapply Qle_trans; [apply Qminb_spec|]. destruct (500 <? _), (20 <? n); lra.
Qed.

(** *** The patterns of a fast path *)

Inductive pattern_step (ps : list RegexPattern) : list RegexPattern -> Prop :=
| step_add p : pattern_step ps (append_pattern ps p)
| step_remove name ps' : drop_pattern name ps = Some ps' -> pattern_step ps ps'.

Record patterns_ok (ps : list RegexPattern) : Prop := {
  po_names : NoDup (map p_name ps);
  po_defaults : forall p, p ∈ DEFAULT_PATTERNS -> p ∈ ps;
}.

Lemma append_pattern_ok ps p : patterns_ok ps -> patterns_ok (append_pattern ps p).
Proof.
  intros [Hn Hd]. unfold append_pattern. destruct (existsb _ ps) eqn:E; [by split|].
  split; [|intros q Hq; apply elem_of_app; left; by apply Hd].
  rewrite map_app. apply NoDup_app. split_and!; [done| |apply NoDup_singleton].
  intros x Hx ->%list_elem_of_singleton. apply list_elem_of_fmap in Hx as (q & Hq & Hin).
  apply not_true_iff_false in E. apply E, existsb_exists. exists q. split; [by apply list_elem_of_In|].
  unfold named. by apply bool_decide_eq_true.
Qed.

Lemma drop_pattern_split name ps ps' :
  drop_pattern name ps = Some ps' ->
  exists l p r, ps = l ++ p :: r /\ ps' = l ++ r /\ p ∉ DEFAULT_PATTERNS.
Proof.
  revert ps'. induction ps as [|p ps IH]; intros ps' H; cbn in H; [done|].
  destruct (named name p && _) eqn:E.
  - simplify_eq. apply andb_true_iff in E as [_ E]. apply negb_true_iff, bool_decide_eq_false in E.
    by exists [], p, ps'.
  - destruct (drop_pattern name ps) as [qs|]; [|done]. injection H as <-.
    destruct (IH qs eq_refl) as (l & q & r & -> & -> & Hq). by exists (p :: l), q, r.
Qed.

Lemma drop_pattern_ok name ps ps' : drop_pattern name ps = Some ps' -> patterns_ok ps -> patterns_ok ps'.
Proof.
  intros (l & p & r & -> & -> & Hp)%drop_pattern_split [Hn Hd]. split.
  - revert Hn. rewrite !map_app. cbn [map]. rewrite !NoDup_app, NoDup_cons. set_solver.
  - intros q Hq. specialize (Hd q Hq). rewrite elem_of_app, elem_of_cons in Hd. rewrite elem_of_app.
    destruct Hd as [?|[->|?]]; [by left|done|by right].
Qed.

(** whatever is added and removed, the names of a fast path's patterns stay
    distinct and the default ones stay among them. *)
Theorem default_patterns_kept custom timeout ps :
  rtc pattern_step (patterns (new_fastpath custom timeout)) ps -> patterns_ok ps.
Proof.
  assert (forall ps0, patterns_ok ps0 -> patterns_ok (foldl append_pattern ps0 custom)) as Hfold.
  { induction custom as [|p custom IH]; intros ps0 H; [done|]. apply IH. by apply append_pattern_ok. }
  assert (patterns_ok (patterns (new_fastpath custom timeout))) as H0.
  { apply Hfold. split; [|done]. by apply (bool_decide_unpack _). }
  revert H0. generalize (patterns (new_fastpath custom timeout)) as ps0. intros ps0 H0.
  induction 1 as [ps|ps ps' ps'' Hs _ IH]; [done|]. apply IH. destruct Hs; [by apply append_pattern_ok|].
  by eapply drop_pattern_ok.
Qed.

(** ** Examples and witnesses *)

Module ScanSample.
Definition tenant : TenantConfig := new_tenant "t1" "Acme" "acme" [] [] (1 # 2).
Definition fast : RegexFastpathEngine := new_fastpath [] 1.
End ScanSample.

(** The matched text of each violation. *)
Definition found (o : outcome guard_exc SafetyCheckResult) : list (option string) :=
  match o with Ret r => map matched_text (violations r) | Raise _ => [] end.

Definition detect (text : string) : list (option string) :=
  match detector_initialize (new_detector (7 # 10)) with
  | Ret d => found (detector_evaluate d never text)
  | Raise _ => []
  end.

(** Plain words hold "dan" and "ssn". *)
Example words_inside_words :
  detect "I need guidance" = [Some "dan"] /\
  found (fastpath_evaluate ScanSample.fast never "rename the className" ScanSample.tenant) = [Some "ssN"].
Proof. split; vm_compute; reflexivity. Qed.

(** A closed fast path has no pattern left, so it passes everything when it
    is initialized again. *)
Example reopened_passes :
  found (fastpath_evaluate (fastpath_close ScanSample.fast) never "ignore previous" ScanSample.tenant) = [] /\
  fastpath_initialize (fastpath_close ScanSample.fast) = Ret tt.
Proof. split; vm_compute; reflexivity. Qed.

Lemma fastpath_spec_witness :
  exists res, fastpath_evaluate ScanSample.fast never "hello" ScanSample.tenant = Ret res /\
    Forall (fun p => ~ hits "hello" p) DEFAULT_PATTERNS.
Proof.
  destruct (fastpath_spec ScanSample.fast "hello" ScanSample.tenant) as (res & H & Hp & _); [done|done|apply default_patterns_compile|].
  exists res. split; [done|]. apply Hp. vm_compute in H. injection H as <-. done.
Defined.

Lemma detector_spec_witness :
  exists d', detector_initialize (new_detector (7 # 10)) = Ret d' /\
    exists res, detector_evaluate d' never "hello" = Ret res.
Proof.
  destruct (detector_spec (new_detector (7 # 10)) "hello") as (rs & d' & _ & H & res & Hr & _); [done|done|].
  exists d'. split; [done|]. by exists res.
Defined.

Lemma default_patterns_kept_witness :
  patterns_ok (append_pattern DEFAULT_PATTERNS
    {| p_name := "x"; pattern := "x"; p_category := PROFANITY; p_severity := LOW; action := REASK; p_description := "x" |}).
Proof. apply (default_patterns_kept [] 1). apply rtc_once. apply step_add. Defined.
