(* ===== verification/OutputSchema.v ===== *)
(** * Output schemas (backend/app/modules/guardrails/guardrails_ai.py)

    The schemas a tenant's answers can be validated against: by Guardrails AI,
    for which the JSON schema is written as a RAIL specification, or by
    jsonschema when it is not installed.  Both validators are arguments. *)

From S2P Require Import Prelude Json Regex Tenant TextScan.

Record OutputSchema := {
  os_name : string;
  json_schema : json;
  validators : list string;
  strict_mode : bool;
}.

(** Truthiness of a JSON value. *)
Definition json_truthy (v : json) : bool :=
  match v with
  | JNull => false
  | JBool b => b
  | JNum z => negb (z =? 0)
  | JStr s => truthy s
  | JList l => match l with [] => false | _ => true end
  | JObj l => match l with [] => false | _ => true end
  end.

(** [OutputSchema(...)] with its checks; the error is a [ValueError]. *)
Definition new_schema (name : string) (schema : json) : outcome string OutputSchema :=
  if negb (truthy name) then Raise "OutputSchema name is required"
  else if negb (json_truthy schema) then Raise "OutputSchema json_schema is required"
  else Ret {| os_name := name; json_schema := schema; validators := []; strict_mode := true |}.

Record GuardrailsAIEngine := {
  validation_timeout : Q;
  _schemas : gmap string OutputSchema;
  _gd_available : bool;
}.

Definition new_guardrails_ai : GuardrailsAIEngine :=
  {| validation_timeout := 10; _schemas := ∅; _gd_available := false |}.
Definition with_schemas (m : gmap string OutputSchema) (g : GuardrailsAIEngine) : GuardrailsAIEngine :=
  {| validation_timeout := validation_timeout g; _schemas := m; _gd_available := _gd_available g |}.

Definition register_schema (s : OutputSchema) (g : GuardrailsAIEngine) : GuardrailsAIEngine :=
  with_schemas (<[os_name s := s]> (_schemas g)) g.
Definition unregister_schema (name : string) (g : GuardrailsAIEngine) : bool * GuardrailsAIEngine :=
  (bool_decide (is_Some (_schemas g !! name)), with_schemas (delete name (_schemas g)) g).

(** [_do_initialize]: whether the library imports. *)
Definition gaai_initialize (available : bool) (g : GuardrailsAIEngine) : GuardrailsAIEngine :=
  {| validation_timeout := validation_timeout g; _schemas := _schemas g; _gd_available := available |}.
Definition gaai_close (g : GuardrailsAIEngine) : GuardrailsAIEngine := with_schemas ∅ g.

(** ** The RAIL specification *)

Definition dquote : string := String quote_char EmptyString.
Definition line_end : string := String newline EmptyString.
Definition attr (name value : string) : string := " " +:+ name +:+ "=" +:+ dquote +:+ value +:+ dquote.

(** [_rail_element_name] *)
Fixpoint _rail_element_name (s : string) : string :=
  match s with
  | EmptyString => EmptyString
  | String c s => String (if is_alnum c || bool_decide (c = "_"%char) then c else "_"%char) (_rail_element_name s)
  end.

Definition _rail_type (t : string) : string :=
  if bool_decide (t = "string") then "str"
  else if bool_decide (t = "integer") then "int"
  else if bool_decide (t = "number") then "float"
  else if bool_decide (t = "boolean") then "bool"
  else "str".

(** [type(v).__name__] *)
Definition py_type (v : json) : string :=
  match v with
  | JNull => "NoneType" | JBool _ => "bool" | JNum _ => "int" | JStr _ => "str" | JList _ => "list" | JObj _ => "dict"
  end.

Definition no_attribute (v : json) (a : string) : string :=
  "'" +:+ py_type v +:+ "' object has no attribute '" +:+ a +:+ "'".

(** [v.get(k)]: only a dictionary has it. *)
Definition py_get (v : json) (k : string) : outcome string (option json) :=
  match v with JObj _ => Ret (get_field k v) | _ => Raise (no_attribute v "get") end.

(** [v or d] for the result of a [get]. *)
Definition or_else (v : option json) (d : json) : json :=
  match v with Some v => if json_truthy v then v else d | None => d end.

Fixpoint one_by_one (s : string) : list string :=
  match s with EmptyString => [] | String a s => String a EmptyString :: one_by_one s end.

(** The texts of [set(v)]; what it refuses. *)
Definition text_set (v : json) : outcome string (list string) :=
  match v with
  | JList l =>
      match List.find (fun x => match x with JList _ | JObj _ => true | _ => false end) l with
      | Some x => Raise ("unhashable type: '" +:+ py_type x +:+ "'")
      | None => Ret (omap (fun x => match x with JStr s => Some s | _ => None end) l)
      end
  | JObj fields => Ret fields.*1
  | JStr s => Ret (one_by_one s)
  | _ => Raise ("'" +:+ py_type v +:+ "' object is not iterable")
  end.

Definition outcome_bind {E A B} (o : outcome E A) (f : A -> outcome E B) : outcome E B :=
  match o with Ret a => f a | Raise e => Raise e end.

(** [for x in l] collecting texts that are joined. *)
Fixpoint concat_map {X} (f : X -> outcome string string) (l : list X) : outcome string string :=
  match l with
  | [] => Ret EmptyString
  | x :: l => outcome_bind (f x) (fun s => outcome_bind (concat_map f l) (fun r => Ret (s +:+ r)))
  end.

Definition is_simple (v : option json) : option string :=
  match v with
  | Some (JStr t) => if bool_decide (t ∈ ["string"; "integer"; "number"; "boolean"]) then Some t else None
  | _ => None
  end.

Definition is_text (v : option json) (s : string) : bool :=
  match v with Some (JStr t) => bool_decide (t = s) | _ => false end.

Definition indent : string := "    ".

Fixpoint _rail_object_body (fuel : nat) (schema : json) : outcome string string :=
  match fuel with
  | O => Raise "recursion"
  | S fuel =>
      outcome_bind (py_get schema "properties") (fun p =>
      let properties := or_else p (JObj []) in
      outcome_bind (py_get schema "required") (fun r =>
      outcome_bind (text_set (or_else r (JList []))) (fun required =>
      match properties with
      | JObj fields => concat_map (fun kv => _rail_property fuel kv.1 kv.2 (bool_decide (kv.1 ∈ required))) fields
      | v => Raise (no_attribute v "items")
      end)))
  end
with _rail_property (fuel : nat) (name : string) (schema : json) (is_required : bool) : outcome string string :=
  match fuel with
  | O => Raise "recursion"
  | S fuel =>
      let el := attr "name" (_rail_element_name name) in
      let req := if is_required then attr "required" "true" else EmptyString in
      outcome_bind (py_get schema "type") (fun t =>
      if is_text t "object" then
        outcome_bind (_rail_object_body fuel schema) (fun nested =>
        Ret (indent +:+ "<object" +:+ el +:+ req +:+ ">" +:+ line_end +:+ nested
             +:+ indent +:+ "</object>" +:+ line_end))
      else if is_text t "array" then
        outcome_bind (py_get schema "items") (fun i =>
        let items := or_else i (JObj []) in
        outcome_bind (py_get items "type") (fun it =>
        if is_text it "object" then
          outcome_bind (_rail_object_body fuel items) (fun nested =>
          Ret (indent +:+ "<list" +:+ el +:+ req +:+ ">" +:+ line_end
               +:+ indent +:+ "    <object>" +:+ line_end +:+ nested
               +:+ indent +:+ "    </object>" +:+ line_end +:+ indent +:+ "</list>" +:+ line_end))
        else
          match is_simple it with
          | Some t =>
              Ret (indent +:+ "<list" +:+ el +:+ req +:+ ">" +:+ line_end
                   +:+ indent +:+ "    <element" +:+ attr "type" (_rail_type t) +:+ "/>" +:+ line_end
                   +:+ indent +:+ "</list>" +:+ line_end)
          | None => Ret (indent +:+ "<list" +:+ el +:+ req +:+ "/>" +:+ line_end)
          end))
      else
        match is_simple t with
        | Some t => Ret (indent +:+ "<property" +:+ el +:+ attr "type" (_rail_type t) +:+ req +:+ "/>" +:+ line_end)
        | None => Ret EmptyString
        end)
  end.

(** The nesting of a value: a schema is read no deeper ([rail_enough]). *)
Fixpoint json_depth (v : json) : nat :=
  match v with
  | JList l => S (foldr (fun v n => Nat.max (json_depth v) n) 0%nat l)
  | JObj fields => S (foldr (fun kv n => Nat.max (json_depth kv.2) n) 0%nat fields)
  | _ => 1%nat
  end.

Definition _build_rail_string (s : OutputSchema) : outcome string string :=
  outcome_bind (_rail_object_body (2 * json_depth (json_schema s)) (json_schema s)) (fun body =>
  Ret ("<rail" +:+ attr "version" "0.1" +:+ ">" +:+ line_end +:+ "<output>" +:+ line_end
       +:+ "<object" +:+ attr "name" (_rail_element_name (os_name s)) +:+ ">" +:+ line_end +:+ body
       +:+ "</object>" +:+ line_end +:+ "</output>" +:+ line_end +:+ "</rail>")).

(** ** Validation *)

Inductive gd_answer := GdTimeout | GdError (message : string) | GdRejected | GdAccepted.
Inductive js_answer := JsValid | JsInvalid (message : string) | JsRaises (message : string).

Definition schema_violation (s : ViolationSeverity) (description : string) (m : list (string * datum)) :
    SafetyCheckResult :=
  {| passed := false;
     violations := [{| category := SCHEMA_VALIDATION; severity := s; description := description;
                       matched_text := None; position := None; v_metadata := m |}];
     confidence := 0; metadata := [] |}.
Definition schema_passed (q : Q) : SafetyCheckResult :=
  {| passed := true; violations := []; confidence := q; metadata := [] |}.

Section validation.
(** [json.loads], jsonschema's [validate], and the guard built from a RAIL
    specification; [float_text] writes the time limit. *)
Context (loads : string -> string + json) (js_validate : json -> json -> js_answer)
  (gd_validate : string -> string -> gd_answer) (float_text : Q -> string).

Definition _basic_json_validation (output : string) (s : OutputSchema) : outcome guard_exc SafetyCheckResult :=
  match loads output with
  | inl e => Ret (schema_violation HIGH ("Invalid JSON: " +:+ e) [])
  | inr v =>
      match js_validate v (json_schema s) with
      | JsValid => Ret (schema_passed (9 # 10))
      | JsInvalid m => Ret (schema_violation HIGH m [])
      | JsRaises m => Raise (OtherError m)
      end
  end.

(** [GuardrailsAIEngine.validate_output] *)
Definition validate_output (g : GuardrailsAIEngine) (output schema_name : string) :
    outcome guard_exc SafetyCheckResult :=
  match _schemas g !! schema_name with
  | None => Ret (schema_violation HIGH ("Unknown schema: " +:+ schema_name) [])
  | Some s =>
      if negb (truthy (strip output)) then Ret (schema_violation HIGH "Empty output" [])
      else if negb (_gd_available g) then _basic_json_validation output s
      else
        match _build_rail_string s with
        | Raise e => Ret (schema_violation MEDIUM e [])
        | Ret rail =>
            match gd_validate rail output with
            | GdTimeout =>
                Ret (schema_violation MEDIUM
                       ("Validation timed out after " +:+ float_text (validation_timeout g) +:+ "s") [])
            | GdError e => Ret (schema_violation MEDIUM e [])
            | GdRejected => Ret (schema_violation HIGH "Output failed schema validation" [("schema", DStr schema_name)])
            | GdAccepted => Ret (schema_passed (19 # 20))
            end
        end
  end.
End validation.

(** ** Lemmas *)

Lemma field_depth k fields v :
  field k fields = Some v -> (json_depth v < json_depth (JObj fields))%nat.
Proof.
  induction fields as [|[k' v'] fields IH]; cbn; [done|]. destruct (decide _).
  - intros [= ->]. lia.
  - intros H%IH. cbn in H. lia.
Qed.

Lemma member_depth kv fields : kv ∈ fields -> (json_depth kv.2 < json_depth (JObj fields))%nat.
Proof.
  induction fields as [|kv' fields IH]; [by intros ?%not_elem_of_nil|].
  intros [->|H%IH]%elem_of_cons; cbn in *; lia.
Qed.

(** What [v.get(k) or d] can be. *)
Lemma got_depth v k o d :
  py_get v k = Ret o -> or_else o d = d \/ (json_depth (or_else o d) < json_depth v)%nat.
Proof.
  destruct v; try done. intros [= <-]. unfold or_else, get_field.
  destruct (field k fields) as [w|] eqn:E; [|by left]. apply field_depth in E. destruct (json_truthy w); auto.
Qed.

Lemma outcome_bind_ext {E A B} (o : outcome E A) (f g : A -> outcome E B) :
  (forall a, o = Ret a -> f a = g a) -> outcome_bind o f = outcome_bind o g.
Proof. destruct o; cbn; auto. Qed.

Lemma concat_map_ext {X} (f g : X -> outcome string string) l :
  (forall x, x ∈ l -> f x = g x) -> concat_map f l = concat_map g l.
Proof.
  induction l as [|x l IH]; intros H; [done|]. cbn. rewrite (H x) by by left.
  apply outcome_bind_ext. intros s _. rewrite IH; [done|]. intros y Hy. apply H. by right.
Qed.

(** The specification does not depend on the fuel, if there is enough. *)
Lemma rail_enough f1 :
  (forall v f2, 2 * json_depth v <= f1 -> 2 * json_depth v <= f2 ->
     _rail_object_body f1 v = _rail_object_body f2 v)%nat /\
  (forall n v b f2, 2 * json_depth v + 1 <= f1 -> 2 * json_depth v + 1 <= f2 ->
     _rail_property f1 n v b = _rail_property f2 n v b)%nat.
Proof.
  assert (forall v, 1 <= json_depth v)%nat as Hpos by (intros []; cbn; lia).
  induction f1 as [|f1 [IHb IHp]]; [split; intros; specialize (Hpos v); lia|].
  split.
  - intros v [|f2] H1 H2; [specialize (Hpos v); lia|]. cbn [_rail_object_body].
    apply outcome_bind_ext. intros p Hp. do 2 (apply outcome_bind_ext; intros ? _).
    pose proof (got_depth v "properties" p (JObj []) Hp) as Hd.
    destruct (or_else p (JObj [])) as [| | | | |fields]; try done.
    apply concat_map_ext. intros kv Hkv. apply member_depth in Hkv as Hk.
    destruct Hd as [[= ->]|Hd]; [by apply not_elem_of_nil in Hkv|]. apply IHp; lia.
  - intros n v b [|f2] H1 H2; [lia|]. cbn [_rail_property].
    apply outcome_bind_ext. intros t _. destruct (is_text t "object"); [by rewrite (IHb v f2) by lia|].
    destruct (is_text t "array"); [|done].
    apply outcome_bind_ext. intros i Hi. apply outcome_bind_ext. intros it Hit.
    destruct (got_depth v "items" i (JObj []) Hi) as [Hd|Hd].
    { rewrite Hd in Hit. by injection Hit as <-. }
    by rewrite (IHb (or_else i (JObj [])) f2) by lia.
Qed.

(** *** Names *)

Definition name_char (c : ascii) : bool := is_alnum c || bool_decide (c = "_"%char).

Fixpoint all_chars (f : ascii -> bool) (s : string) : bool :=
  match s with EmptyString => true | String c s => f c && all_chars f s end.

(** an element's name holds only letters, digits and underscores, whatever
    the schema says, and is as long as the name it stands for; such a name is
    kept. *)
Theorem element_name_safe s :
  all_chars name_char (_rail_element_name s) = true /\
  String.length (_rail_element_name s) = String.length s /\
  (all_chars name_char s = true -> _rail_element_name s = s).
Proof.
  induction s as [|c s (IH1 & IH2 & IH3)]; [done|].
  cbn [_rail_element_name all_chars String.length]. rewrite IH1, IH2. fold (name_char c).
  destruct (name_char c) eqn:Ec; cbn [andb].
  - rewrite Ec. split_and!; [done|done|]. intros Hs. by rewrite IH3.
  - by split_and!.
Qed.

(** *** Examples *)

Definition order_schema : json :=
  JObj [("type", JStr "object"); ("required", JList [JStr "id"]);
        ("properties", JObj [("id", JObj [("type", JStr "integer")]);
                             ("tags", JObj [("type", JStr "array"); ("items", JObj [("type", JStr "string")])]);
                             ("note", JObj [("type", JNull)])])].

Example order_rail :
  _rail_object_body 8 order_schema = Ret (
    "    <property" +:+ attr "name" "id" +:+ attr "type" "int" +:+ attr "required" "true" +:+ "/>" +:+ line_end
    +:+ "    <list" +:+ attr "name" "tags" +:+ ">" +:+ line_end
    +:+ "        <element" +:+ attr "type" "str" +:+ "/>" +:+ line_end +:+ "    </list>" +:+ line_end).
Proof. vm_compute. reflexivity. Qed.

(** A schema that is not a dictionary fails inside the validator, which
    refuses every answer. *)
Example broken_schema :
  validate_output (fun _ => inr JNull) (fun _ _ => JsValid) (fun _ _ => GdAccepted) (fun _ => EmptyString)
    (gaai_initialize true (register_schema {| os_name := "s"; json_schema := JList [JNull]; validators := []; strict_mode := true |}
       new_guardrails_ai)) "{}" "s"
  = Ret (schema_violation MEDIUM "'list' object has no attribute 'get'" []).
Proof. vm_compute. reflexivity. Qed.
