(* ===== verification/Governance.v ===== *)
(** * Governance (backend/app/governance, api/routes/surfaces.py)

    The surfaces of a tenant and its tool registry with their repositories,
    the compilation of a tenant's configuration for a surface, the gate that
    authorizes tool calls, the budget hierarchy handed to the gateway, the
    evidence packets of decisions, and the gates of configuration rollouts.
    The JSON-schema validator, the SHA-256 digest and the environment's
    budgets are parameters.  Rows are in the order they were created in. *)

From S2P Require Import Prelude Json Catalog Types Redis Quota RateLimiter Auth Context Tenant.

(** ** Surfaces *)

Record Surface := {
  sf_id : string;
  sf_tenant_id : string;
  sf_name : string;
  surface_type : string;
  persona : option string;
  sf_knowledge_allowlist : list string;
  sf_tool_allowlist : list string;
  model_pin : option string;
  sf_budgets : gmap string Q;
  brand_voice_override : option json;
  active : bool;
}.

(** What a client sends to create a surface. *)
Record SurfaceRequest := {
  rq_name : string;
  rq_surface_type : string;
  rq_persona : option string;
  rq_knowledge_allowlist : list string;
  rq_tool_allowlist : list string;
  rq_model_pin : option string;
  rq_budgets : gmap string Q;
  rq_brand_voice_override : option json;
  rq_active : bool;
}.

(** The fields of an update that are present. *)
Record SurfaceUpdate := {
  up_name : option string;
  up_surface_type : option string;
  up_persona : option string;
  up_knowledge_allowlist : option (list string);
  up_tool_allowlist : option (list string);
  up_model_pin : option string;
  up_budgets : option (gmap string Q);
  up_brand_voice_override : option json;
  up_active : option bool;
}.

Definition is_surface (tenant id : string) (s : Surface) : bool :=
  bool_decide (sf_tenant_id s = tenant) && bool_decide (sf_id s = id).

(** [SurfaceRepository.create]; [id] is a fresh id. *)
Definition surface_create (tenant id : string) (r : SurfaceRequest) (t : list Surface) : Surface * list Surface :=
  let s := {| sf_id := id; sf_tenant_id := tenant; sf_name := rq_name r; surface_type := rq_surface_type r;
              persona := rq_persona r; sf_knowledge_allowlist := rq_knowledge_allowlist r;
              sf_tool_allowlist := rq_tool_allowlist r; model_pin := rq_model_pin r; sf_budgets := rq_budgets r;
              brand_voice_override := rq_brand_voice_override r; active := true |} in
  (s, t ++ [s]).

Definition surface_get (tenant id : string) (t : list Surface) : option Surface := List.find (is_surface tenant id) t.

Definition get_default (tenant : string) (t : list Surface) : option Surface :=
  List.find (fun s => bool_decide (sf_tenant_id s = tenant) && active s) t.

Definition surfaces_of (tenant : string) (t : list Surface) : list Surface :=
  List.filter (fun s => bool_decide (sf_tenant_id s = tenant)) t.

Definition updated (u : SurfaceUpdate) (s : Surface) : Surface := {|
  sf_id := sf_id s; sf_tenant_id := sf_tenant_id s; sf_name := default (sf_name s) (up_name u);
  surface_type := default (surface_type s) (up_surface_type u);
  persona := match up_persona u with Some p => Some p | None => persona s end;
  sf_knowledge_allowlist := default (sf_knowledge_allowlist s) (up_knowledge_allowlist u);
  sf_tool_allowlist := default (sf_tool_allowlist s) (up_tool_allowlist u);
  model_pin := match up_model_pin u with Some p => Some p | None => model_pin s end;
  sf_budgets := default (sf_budgets s) (up_budgets u);
  brand_voice_override := match up_brand_voice_override u with Some b => Some b | None => brand_voice_override s end;
  active := default (active s) (up_active u) |}.

Definition surface_update (tenant id : string) (u : SurfaceUpdate) (t : list Surface) :
    option Surface * list Surface :=
  match surface_get tenant id t with
  | None => (None, t)
  | Some s => (Some (updated u s), map (fun x => if is_surface tenant id x then updated u x else x) t)
  end.

Definition surface_delete (tenant id : string) (t : list Surface) : bool * list Surface :=
  let t' := List.filter (fun s => negb (is_surface tenant id s)) t in
  (bool_decide (length t' < length t)%nat, t').

(** The surface of a request: the named one or the tenant's default. *)
Definition resolve_surface (tenant : string) (surface_id : option string) (t : list Surface) : option Surface :=
  let s := if truthy_opt surface_id then surface_get tenant (default EmptyString surface_id) t
           else get_default tenant t in
  match s with
  | Some s => if active s then Some s else None
  | None => None
  end.

Definition surface_types : list string := ["widget"; "hosted_page"; "public_api"; "admin"; "harness"].

(** The routes, for a principal that auth.py let in; their tenant is a text. *)
Definition surfaces A : Type := io (list Surface) auth_exc A.

Definition on_surfaces {A} (f : list Surface -> A * list Surface) : surfaces A := fun t => let '(a, t) := f t in (Ret a, t).

Definition surface_not_found : auth_exc := HTTPError 404 "surface not found".

Definition create_surface (p : ApiKeyPrincipal) (tenant id : string) (r : SurfaceRequest) : surfaces Surface :=
  _ ← assert_tenant_access p (AsText tenant);
  if bool_decide (rq_surface_type r ∈ surface_types) then on_surfaces (surface_create tenant id r)
  else throw (HTTPError 400 ("unknown surface_type: " +:+ rq_surface_type r)).

Definition list_surfaces (p : ApiKeyPrincipal) (tenant : string) : surfaces (list Surface) :=
  _ ← assert_tenant_access p (AsText tenant); on_surfaces (fun t => (surfaces_of tenant t, t)).

Definition get_default_surface (p : ApiKeyPrincipal) (tenant : string) : surfaces Surface :=
  _ ← assert_tenant_access p (AsText tenant);
  s ← on_surfaces (fun t => (resolve_surface tenant None t, t));
  match s with Some s => mret s | None => throw (HTTPError 404 "no active surface configured") end.

Definition get_surface (p : ApiKeyPrincipal) (tenant id : string) : surfaces Surface :=
  _ ← assert_tenant_access p (AsText tenant);
  s ← on_surfaces (fun t => (surface_get tenant id t, t));
  match s with Some s => mret s | None => throw surface_not_found end.

Definition update_surface (p : ApiKeyPrincipal) (tenant id : string) (u : SurfaceUpdate) : surfaces Surface :=
  _ ← assert_tenant_access p (AsText tenant);
  s ← on_surfaces (surface_update tenant id u);
  match s with Some s => mret s | None => throw surface_not_found end.

Definition delete_surface (p : ApiKeyPrincipal) (tenant id : string) : surfaces unit :=
  _ ← assert_tenant_access p (AsText tenant);
  deleted ← on_surfaces (surface_delete tenant id);
  if negb deleted then throw surface_not_found else mret tt.

(** ** Tool registry *)

Record ToolRow := {
  tl_id : string;
  tl_tenant_id : string;
  tl_name : string;
  description : option string;
  schema : json;
  tl_enabled : bool;
  auth_config : option (list (string * json));
}.

Definition is_tool (tenant name : string) (r : ToolRow) : bool :=
  bool_decide (tl_tenant_id r = tenant) && bool_decide (tl_name r = name).

Definition tools_of (tenant : string) (t : list ToolRow) : list ToolRow :=
  List.filter (fun r => bool_decide (tl_tenant_id r = tenant)) t.

Definition tool_get (tenant name : string) (t : list ToolRow) : option ToolRow := List.find (is_tool tenant name) t.

(** [{t["name"]: bool(t["enabled"]) for t in tools}] *)
Definition enabled_map (tenant : string) (t : list ToolRow) : gmap string bool :=
  foldl (fun m r => <[tl_name r := tl_enabled r]> m) ∅ (tools_of tenant t).

(** [schema or {"type": "object"}] *)
Definition schema_or_default (s : option json) : json :=
  match s with
  | None | Some (JObj []) => JObj [("type", JStr "object")]
  | Some s => s
  end.

(** [None]: the unique constraint on tenant and name refuses the row. *)
Definition register (tenant id name : string) (desc : option string) (sch : option json) (enabled : bool)
    (auth : option (list (string * json))) (t : list ToolRow) : option ToolRow * list ToolRow :=
  match tool_get tenant name t with
  | Some _ => (None, t)
  | None =>
      let r := {| tl_id := id; tl_tenant_id := tenant; tl_name := name; description := desc;
                  schema := schema_or_default sch; tl_enabled := enabled;
                  auth_config := auth |} in
      (Some r, t ++ [r])
  end.

Definition with_enabled (b : bool) (r : ToolRow) : ToolRow := {|
  tl_id := tl_id r; tl_tenant_id := tl_tenant_id r; tl_name := tl_name r; description := description r;
  schema := schema r; tl_enabled := b; auth_config := auth_config r |}.

Definition configured (desc : option string) (auth : option (list (string * json))) (r : ToolRow) : ToolRow := {|
  tl_id := tl_id r; tl_tenant_id := tl_tenant_id r; tl_name := tl_name r;
  description := match desc with Some d => Some d | None => description r end;
  schema := schema r; tl_enabled := tl_enabled r;
  auth_config := match auth with
                 | Some (f :: fs) => Some (foldl (fun d '(k, v) => dict_set k v d) (default [] (auth_config r)) (f :: fs))
                 | _ => auth_config r
                 end |}.

Definition change_tool (f : ToolRow -> ToolRow) (tenant name : string) (t : list ToolRow) :
    option ToolRow * list ToolRow :=
  match tool_get tenant name t with
  | None => (None, t)
  | Some r => (Some (f r), map (fun x => if is_tool tenant name x then f x else x) t)
  end.

Definition set_enabled (tenant name : string) (b : bool) := change_tool (with_enabled b) tenant name.
Definition update_config (tenant name : string) (desc : option string) (auth : option (list (string * json))) :=
  change_tool (configured desc auth) tenant name.
Definition tool_delete (tenant name : string) (t : list ToolRow) : bool * list ToolRow :=
  match tool_get tenant name t with
  | None => (false, t)
  | Some _ => (true, List.filter (fun r => negb (is_tool tenant name r)) t)
  end.

(** ** The tool gate (toolgate.py) *)

Record ToolAuthorization := {
  ta_tool_name : string;
  allowed : bool;
  ta_reason : option string;
  ta_surface_id : option string;
}.

Record gate := {
  g_tenant_id : string;
  registered : gmap string bool;
  allowlist : list string;
  g_surface_id : option string;
}.

Definition authorize (g : gate) (name : option string) : ToolAuthorization :=
  let name := default EmptyString name in
  let deny reason := {| ta_tool_name := name; allowed := false; ta_reason := Some reason;
                        ta_surface_id := g_surface_id g |} in
  if negb (truthy name) then deny "missing tool name"
  else if negb (default false (registered g !! name)) then deny "tool not enabled for tenant"
  else if negb (bool_decide (name ∈ allowlist g)) then deny "tool not in surface allowlist"
  else {| ta_tool_name := name; allowed := true; ta_reason := None; ta_surface_id := g_surface_id g |}.

(** A denial is handed to the audit hook; what the hook raises is dropped. *)
Definition authorize_async {S E} (audit : option (string -> ToolAuthorization -> io S E unit)) (g : gate)
    (name : option string) : io S E ToolAuthorization :=
  let decision := authorize g name in
  match audit with
  | Some audit =>
      if allowed decision then mret decision
      else _ ← try_catch (audit (g_tenant_id g) decision) (fun _ => mret tt); mret decision
  | None => mret decision
  end.

Definition build_authorizer (tenant : string) (tools : list ToolRow) (surface : option Surface) : gate := {|
  g_tenant_id := tenant; registered := enabled_map tenant tools;
  allowlist := match surface with Some s => sf_tool_allowlist s | None => [] end;
  g_surface_id := option_map sf_id surface |}.

(** ** Compiled configurations (compiled.py) *)

Definition INGRESS_RAIL_ORDER : list string :=
  ["regex_fastpath"; "classifier"; "nemo_rails"; "spotlighting"; "pii_detection"].
Definition EGRESS_RAIL_ORDER : list string := ["output_validation"; "pii_detection"; "jailbreak_detection"].

Record RailBinding := { rb_name : string; rb_enabled : bool }.

Record CompiledSurfaceConfig := {
  cc_tenant_id : string;
  cc_surface_id : option string;
  cc_version : Z;
  source_hash : string;
  ingress_rails : list RailBinding;
  egress_rails : list RailBinding;
  tool_allowlist : list string;
  cc_budgets : gmap string Q;
  cc_knowledge_allowlist : list string;
  brand_voice : option json;
  deny_by_default : bool;
}.

Definition allows_tool (c : CompiledSurfaceConfig) (name : string) : bool :=
  match tool_allowlist c with [] => false | l => bool_decide (name ∈ l) end.

Inductive compile_error :=
| ConfigValidationError (message : string)
| AttributeError (message : string).

(** [guardrails = cfg.get("guardrail_config") or {}; bool(guardrails.get(rail, True))],
    where [cfg] is a dictionary of booleans. *)
Definition _rail_enabled (cfg : gmap string bool) (rail : string) : bool + compile_error :=
  match cfg !! "guardrail_config" with
  | Some true => inr (AttributeError "'bool' object has no attribute 'get'")
  | _ => inl true
  end.

Fixpoint _rails (cfg : gmap string bool) (order : list string) : list RailBinding + compile_error :=
  match order with
  | [] => inl []
  | rail :: order =>
      match _rail_enabled cfg rail with
      | inr e => inr e
      | inl b => match _rails cfg order with
                 | inr e => inr e
                 | inl l => inl ({| rb_name := rail; rb_enabled := b |} :: l)
                 end
      end
  end.

(** [vars(tenant_config)]: every key is present. *)
Definition _as_dict (c : TenantConfig + stored_config) : stored_config :=
  match c with
  | inr d => d
  | inl c => {|
      sc_id := tc_id c; sc_name := tc_name c; sc_slug := tc_slug c;
      sc_allowed_topics := Some (allowed_topics c); sc_blocked_topics := Some (blocked_topics c);
      sc_escalation_threshold := Some (escalation_threshold c);
      sc_knowledge_allowlist := Some (knowledge_allowlist c);
      sc_default_provider := Some (default_provider c); sc_default_model := Some (default_model c);
      sc_features := Some (features c); sc_guardrail_config := Some (guardrail_config c);
      sc_guardrail_thresholds := Some (guardrail_thresholds c); sc_budgets := Some (budgets c);
      sc_tool_clearing := Some (tool_clearing c); sc_memory := Some (memory c);
      sc_stream_window := stream_moderation_window_chars c |}
  end.

Definition string_leb (s t : string) : bool := String.leb s t.

Section compile.
(** [jsonschema]: the first violation of the schema; [hashlib.sha256] of the
    payload's canonical text; the settings. *)
Context (schema_violation : stored_config -> option string) (_hash_source : stored_config -> string).
Context (QUOTA_PLATFORM_USD QUOTA_TENANT_USD : Q).

Definition validate_payload (d : stored_config) : unit + compile_error :=
  match schema_violation d with Some e => inr (ConfigValidationError e) | None => inl tt end.

Definition compiled_budgets (tenant : gmap string Q) (surface : option Surface) : gmap string Q :=
  let of_surface k := default 0%Q (match surface with Some s => sf_budgets s !! k | None => None end) in
  <["quota_end_user_usd" := of_surface "end_user_monthly_usd"]>
  (<["quota_surface_usd" := of_surface "monthly_usd"]>
  (<["quota_tenant_usd" := default QUOTA_TENANT_USD (tenant !! "monthly_usd")]>
  (<["quota_platform_usd" := QUOTA_PLATFORM_USD]>
  (delete "quota_platform_usd" (delete "quota_tenant_usd" tenant))))).

Definition compile_surface_config (config : TenantConfig + stored_config) (surface : option Surface) (version : Z) :
    CompiledSurfaceConfig + compile_error :=
  let payload := _as_dict config in
  match validate_payload payload with
  | inr e => inr e
  | inl _ =>
      let tenant_cfg := tenant_config_from_data payload in
      match _rails (guardrail_config tenant_cfg) INGRESS_RAIL_ORDER with
      | inr e => inr e
      | inl ingress =>
          match _rails (guardrail_config tenant_cfg) EGRESS_RAIL_ORDER with
          | inr e => inr e
          | inl egress => inl {|
              cc_tenant_id := sc_id payload; cc_surface_id := option_map sf_id surface; cc_version := version;
              source_hash := _hash_source payload; ingress_rails := ingress; egress_rails := egress;
              tool_allowlist := match surface with Some s => sort_by string_leb (sf_tool_allowlist s) | None => [] end;
              cc_budgets := compiled_budgets (budgets tenant_cfg) surface;
              cc_knowledge_allowlist :=
                match surface with Some s => sort_by string_leb (sf_knowledge_allowlist s) | None => [] end;
              brand_voice := surface ≫= brand_voice_override;
              deny_by_default := match surface with Some s => negb (active s) | None => true end |}
          end
      end
  end.
End compile.

(** ** The budget hierarchy (budgets.py) *)

Definition build_gateway_budget_cfg (b : gmap string Q) : GatewayCfg := {|
  cheap_model := None; fallback_models := None; caching := None; prompt_version := None;
  cross_family_fallback := None;
  quota_platform_usd := Some (default 0%Q (b !! "quota_platform_usd"));
  quota_tenant_usd := Some (default 0%Q (b !! "quota_tenant_usd"));
  quota_surface_usd := Some (default 0%Q (b !! "quota_surface_usd"));
  quota_end_user_usd := Some (default 0%Q (b !! "quota_end_user_usd")) |}.

Definition surface_over_budget_while_tenant_fine (tenant surface tenant_spent surface_spent estimated : Q) : bool :=
  if surface <=?q 0 then false
  else (surface <?q surface_spent + estimated)
       && negb ((0 <?q tenant) && (tenant <?q tenant_spent + estimated)).

Definition BUDGET_LEVEL_LABELS : list (string * string) := [
  ("platform", "The platform budget"); ("tenant", "The tenant budget");
  ("surface", "This surface's budget"); ("end_user", "This user's budget")].

Definition budget_rejection_message (level : string) (limit_usd projected_usd : option Q) : string :=
  let label := match dict_get level BUDGET_LEVEL_LABELS with
               | Some l => l
               | None => if truthy level then level else "budget"
               end in
  let limit := match limit_usd with Some q => "$" +:+ fixed2 q | None => "its monthly limit" end in
  let projected := match projected_usd with
                   | Some q => " (projected $" +:+ fixed2 q +:+ ")"
                   | None => EmptyString
                   end in
  label +:+ " has reached " +:+ limit +:+ projected +:+ " this month. This request was "
  +:+ "rejected. Contact your administrator to raise the budget.".

(** ** Evidence packets (evidence.py) *)

Record EvidencePacket := {
  ep_tenant_id : string;
  ep_conversation_id : option string;
  ep_session_id : string;
  ep_direction : string;
  ep_decision : string;
  ep_allowed : bool;
  ep_input_hash : string;
  violations : list (list (string * json));
  layers_evaluated : list string;
  ep_metadata : list (string * json);
}.

Definition _VALID_DECISIONS : list string := ["ALLOW"; "BLOCK"; "ESCALATE"; "REDACT"].

(** [v or default] for a JSON value that may be absent or null. *)
Definition or_else (v : option json) (d : json) : json :=
  match v with Some v => if json_truthy v then v else d | None => d end.

Definition _violation_from (v : list (string * json)) : list (string * json) := [
  ("rule_id", default JNull (field "rule_id" v));
  ("name", or_else (field "name" v) (JStr "policy"));
  ("action", or_else (field "action" v) (JStr "block"));
  ("policy_type", default JNull (field "policy_type" v));
  ("conditions", or_else (field "conditions" v) (JObj []));
  ("priority", default (JNum 0) (field "priority" v))].

Section evidence.
(** [hashlib.sha256] in hexadecimal; [str] of a float. *)
Context (hash_input : string -> string) (float_text : Q -> string).

Definition normalized_decision (d : PolicyAction + string) : string :=
  let n := match d with inl a => action_name a | inr s => upper s end in
  if bool_decide (n ∈ _VALID_DECISIONS) then n else "ESCALATE".

Definition build_packet (tenant session : string) (decision : PolicyAction + string) (input_hash : string)
    (conversation : option string) (vs : list (list (string * json))) (layers : list string)
    (metadata : list (string * json)) (allow : option bool) : EvidencePacket :=
  let n := normalized_decision decision in {|
  ep_tenant_id := tenant; ep_conversation_id := conversation; ep_session_id := session;
  ep_direction := "policy"; ep_decision := n; ep_allowed := default (bool_decide (n = "ALLOW")) allow;
  ep_input_hash := if truthy input_hash then input_hash else hash_input session;
  violations := map _violation_from vs; layers_evaluated := layers; ep_metadata := metadata |}.

Definition build_tool_gate_packet (tenant session tool : string) (reason conversation surface : option string) :
    EvidencePacket :=
  build_packet tenant session (inr "BLOCK") (hash_input tool) conversation
    [[("rule_id", JNull); ("name", JStr "tool-gate-denied"); ("action", JStr "block");
      ("policy_type", JStr "tool_authorization");
      ("conditions", JObj [("tool", JStr tool); ("reason", JStr (default EmptyString reason));
                           ("surface_id", JStr (default EmptyString surface))]);
      ("priority", JNum 1)]]
    ["tool_authorization"] [("decision_class", JStr "tool_gate"); ("tool", JStr tool)] None.

(** The two amounts of the conditions are floats: they are texts here. *)
Definition build_quota_packet (tenant session : string) (conversation : option string) (level : string)
    (limit_usd projected_usd : Q) : EvidencePacket :=
  build_packet tenant session (inr "BLOCK")
    (hash_input (level +:+ ":" +:+ float_text limit_usd +:+ ":" +:+ float_text projected_usd)) conversation
    [[("rule_id", JNull); ("name", JStr "quota-exceeded"); ("action", JStr "block"); ("policy_type", JStr "budget");
      ("conditions", JObj [("level", JStr level); ("limit_usd", JStr (float_text limit_usd));
                           ("projected_usd", JStr (float_text projected_usd))]);
      ("priority", JNum 1)]]
    ["budget_hierarchy"] [("decision_class", JStr "quota"); ("level", JStr level)] None.
End evidence.

(** ** Rollout gates (promotion.py) *)

Definition promotion_gate (validation_status eval_status : option string) : bool * option string :=
  match validation_status with
  | Some v =>
      if bool_decide (v ∈ ["failed"; "regressed"]) then (false, Some ("failed validation: " +:+ v))
      else if bool_decide (eval_status = Some "failed") then (false, Some "eval suite not passed") else (true, None)
  | None => if bool_decide (eval_status = Some "failed") then (false, Some "eval suite not passed") else (true, None)
  end.

Definition validate_canary_percent (p : option Z) : bool :=
  match p with None => true | Some p => (0 <=? p) && (p <=? 100) end.

(** [digest] gives the first two bytes of the SHA-256 digest. *)
Definition canary_bucket (digest : string -> Z * Z) (request_key : option string) (canary_percent : option Z) : bool :=
  match canary_percent with
  | None => true
  | Some p =>
      if 100 <=? p then true
      else if (p <=? 0) || negb (truthy_opt request_key) then false
      else let '(b0, b1) := digest (default EmptyString request_key) in (256 * b0 + b1) mod 100 <? p
  end.

(** ** Isolation names (isolation.py) *)

Record TenantContext := { ctx_tenant_id : string; ctx_surface_id : option string; ctx_end_user_id : option string }.

Definition redis_prefix (c : TenantContext) : string :=
  if truthy_opt (ctx_end_user_id c)
  then "tenant:" +:+ ctx_tenant_id c +:+ ":end_user:" +:+ default EmptyString (ctx_end_user_id c) +:+ ":"
  else "tenant:" +:+ ctx_tenant_id c +:+ ":".

Definition vector_namespace (c : TenantContext) (kb_id : option string) : string :=
  let base := "tenant_" +:+ ctx_tenant_id c in
  if truthy_opt kb_id then base +:+ "_kb_" +:+ default EmptyString kb_id else base.

Definition storage_prefix (c : TenantContext) : string := "tenant/" +:+ ctx_tenant_id c +:+ "/".

Definition resolve_tenant_context (tenant : string) (surface : option Surface) (end_user : option string) :
    TenantContext :=
  {| ctx_tenant_id := tenant; ctx_surface_id := option_map sf_id surface; ctx_end_user_id := end_user |}.

Definition redis_key (c : TenantContext) (parts : list string) : string := redis_prefix c +:+ join ":" parts.
Definition storage_key (c : TenantContext) (parts : list string) : string := storage_prefix c +:+ join "/" parts.

Definition trace_tags (c : TenantContext) : list (string * string) :=
  [("tenant_id", ctx_tenant_id c)]
  ++ (if truthy_opt (ctx_surface_id c) then [("surface_id", default EmptyString (ctx_surface_id c))] else [])
  ++ (if truthy_opt (ctx_end_user_id c) then [("end_user_id", default EmptyString (ctx_end_user_id c))] else []).

(** ** The registry and the gate *)

Definition tool_key (r : ToolRow) : string * string := (tl_tenant_id r, tl_name r).

Lemma is_tool_key tenant name r : is_tool tenant name r = true <-> tool_key r = (tenant, name).
Proof.
  unfold is_tool, tool_key. rewrite andb_true_iff, !bool_decide_eq_true.
  split; [by intros [-> ->]|by intros [= -> ->]].
Qed.

(** The operations on the registry. *)
Inductive registry_step (t : list ToolRow) : list ToolRow -> Prop :=
| step_register tenant id name d s b a : registry_step t (register tenant id name d s b a t).2
| step_enable tenant name b : registry_step t (set_enabled tenant name b t).2
| step_config tenant name d a : registry_step t (update_config tenant name d a t).2
| step_delete tenant name : registry_step t (tool_delete tenant name t).2.

(** One row per tenant and name, as the unique constraint demands. *)
Definition registry_ok (t : list ToolRow) : Prop := NoDup (map tool_key t).

Lemma change_tool_keys f tenant name t : (forall r, tool_key (f r) = tool_key r) ->
  map tool_key (change_tool f tenant name t).2 = map tool_key t.
Proof.
  intros Hf. unfold change_tool. destruct (tool_get _ _ _); [|done]. cbn [snd].
  rewrite map_map. apply map_ext. intros r. by destruct (is_tool _ _ _).
Qed.

Lemma NoDup_map_filter {A B} (g : A -> B) (f : A -> bool) l : NoDup (map g l) -> NoDup (map g (List.filter f l)).
Proof.
  induction l as [|x l IH]; [done|]. cbn. rewrite NoDup_cons. intros [Hx Hl].
  destruct (f x); [|auto]. cbn. rewrite NoDup_cons. split; [|auto].
  contradict Hx. apply list_elem_of_In, in_map_iff in Hx as (y & <- & Hy).
  apply List.filter_In in Hy as [Hy _]. apply list_elem_of_In, in_map_iff. by exists y.
Qed.

Lemma registry_step_ok t t' : registry_step t t' -> registry_ok t -> registry_ok t'.
Proof.
  unfold registry_ok. intros [tenant id name d s b a|tenant name b|tenant name d a|tenant name] Hok.
  - unfold register. destruct (tool_get tenant name t) as [r|] eqn:E; [done|]. cbn [snd].
    rewrite map_app. apply NoDup_app. split_and!; [done| |apply NoDup_singleton].
    intros k Hk Hk'. cbn in Hk'. apply list_elem_of_singleton in Hk' as ->.
    apply list_elem_of_In, in_map_iff in Hk as (r & Hr & Hin).
    pose proof (find_none _ _ E r Hin) as Hn. apply not_true_iff_false in Hn. by apply Hn, is_tool_key.
  - unfold set_enabled. by rewrite change_tool_keys.
  - unfold update_config. by rewrite change_tool_keys.
  - unfold tool_delete. destruct (tool_get tenant name t); [|done]. cbn [snd]. by apply NoDup_map_filter.
Qed.

Lemma registry_history t : rtc registry_step [] t -> registry_ok t.
Proof.
  intros H. assert (Hg : forall u v, rtc registry_step u v -> registry_ok u -> registry_ok v).
  { induction 1; eauto using registry_step_ok. }
  apply (Hg _ _ H). apply NoDup_nil_2.
Qed.

Lemma NoDup_map_inv_eq {A B} (g : A -> B) l x y : NoDup (map g l) -> x ∈ l -> y ∈ l -> g x = g y -> x = y.
Proof.
  intros Hnd Hx Hy E. induction l as [|z l IH]; [by apply elem_of_nil in Hx|].
  cbn in Hnd. apply NoDup_cons in Hnd as [Hz Hnd].
  assert (Hin : forall w, w ∈ l -> g w = g z -> False).
  { intros w Hw Ew. apply Hz. rewrite <- Ew. by apply list_elem_of_In, in_map, list_elem_of_In. }
  apply elem_of_cons in Hx as [->|Hx]; apply elem_of_cons in Hy as [->|Hy]; naive_solver.
Qed.

Lemma enabled_fold name rows (m : gmap string bool) : NoDup (map tl_name rows) ->
  foldl (fun m r => <[tl_name r := tl_enabled r]> m) m rows !! name
  = match List.find (fun r => bool_decide (tl_name r = name)) rows with
    | Some r => Some (tl_enabled r)
    | None => m !! name
    end.
Proof.
  revert m. induction rows as [|r rows IH]; intros m Hnd; [done|]. cbn [foldl List.find].
  cbn in Hnd. apply NoDup_cons in Hnd as [Hr Hnd]. rewrite IH by done.
  destruct (List.find _ rows) as [r'|] eqn:E.
  - apply List.find_some in E as [Hin Hn]. apply bool_decide_eq_true in Hn.
    rewrite bool_decide_false; [done|]. intros Hrn. apply Hr. rewrite Hrn, <- Hn.
    apply list_elem_of_In. by apply in_map.
  - case_bool_decide as Hn; [by rewrite Hn, lookup_insert_eq|by rewrite lookup_insert_ne].
Qed.

Lemma enabled_map_spec tenant name t : registry_ok t ->
  enabled_map tenant t !! name = Some true
  <-> exists r, r ∈ t /\ tl_tenant_id r = tenant /\ tl_name r = name /\ tl_enabled r = true.
Proof.
  intros Hok. unfold enabled_map, tools_of.
  assert (Hnd : NoDup (map tl_name (List.filter (fun r => bool_decide (tl_tenant_id r = tenant)) t))).
  { unfold registry_ok in Hok. induction t as [|r t IH]; [apply NoDup_nil_2|]. cbn in Hok |- *.
    apply NoDup_cons in Hok as [Hr Hok]. case_bool_decide as Ht; [|auto]. cbn. apply NoDup_cons. split; [|auto].
    contradict Hr. apply list_elem_of_In, in_map_iff in Hr as (r' & Hn & Hin).
    apply List.filter_In in Hin as [Hin Ht']. apply bool_decide_eq_true in Ht'.
    apply list_elem_of_In, in_map_iff. exists r'. split; [|done]. unfold tool_key. congruence. }
  rewrite enabled_fold by done. split.
  - destruct (List.find _ _) as [r|] eqn:E; [|by rewrite lookup_empty]. intros [= He].
    apply List.find_some in E as [Hin Hn]. apply List.filter_In in Hin as [Hin Ht].
    apply bool_decide_eq_true in Hn, Ht. exists r. by rewrite list_elem_of_In.
  - intros (r & Hin & Ht & Hn & He). apply list_elem_of_In in Hin.
    destruct (List.find _ _) as [r'|] eqn:E.
    + apply List.find_some in E as [Hin' Hn']. apply List.filter_In in Hin' as [Hin' Ht'].
      apply bool_decide_eq_true in Hn', Ht'. f_equal. rewrite <- He. f_equal.
      unfold registry_ok in Hok. apply (NoDup_map_inv_eq tool_key t); [done|by apply list_elem_of_In..|]. unfold tool_key. congruence.
    + pose proof (List.find_none _ _ E r) as Hf. cbn in Hf.
      rewrite bool_decide_true in Hf by done. discriminate Hf. apply List.filter_In. by rewrite bool_decide_true.
Qed.

Lemma authorize_allowed g name : allowed (authorize g name) = true <->
  exists n, name = Some n /\ n <> EmptyString /\ registered g !! n = Some true /\ n ∈ allowlist g.
Proof.
  unfold authorize. destruct name as [[|a n]|]; [split; [done|naive_solver]| |split; [done|naive_solver]].
  change (default EmptyString (Some (String a n))) with (String a n). set (n' := String a n).
  change (negb (truthy n')) with false. cbv iota.
  destruct (registered g !! n') as [[|]|] eqn:En; cbn; [|split; [done|naive_solver]..].
  case_bool_decide; cbn; naive_solver.
Qed.

(** A tool call is allowed exactly when it names a tool that some enabled row
    of the tenant registers and that the surface of the request lists; the
    decision does not depend on the audit hook, which sees every denial and
    whose failures change nothing but its own state. *)
Theorem tool_gate_spec {S X} (t : list ToolRow) (tenant : string) (surface : option Surface)
    (audit : string -> ToolAuthorization -> io S X unit) (name : option string) (s : S) :
  rtc registry_step [] t ->
  let g := build_authorizer tenant t surface in
  let d := authorize g name in
  (authorize_async (E := X) (Some audit) g name s).1 = Ret d
  /\ (authorize_async (E := X) (Some audit) g name s).2 = (if allowed d then s else (audit tenant d s).2)
  /\ (allowed d = true <->
      exists n r sf, name = Some n /\ n <> EmptyString /\ surface = Some sf /\ n ∈ sf_tool_allowlist sf
        /\ r ∈ t /\ tl_tenant_id r = tenant /\ tl_name r = n /\ tl_enabled r = true).
Proof.
  intros Ht g d. apply registry_history in Ht.
  assert (Hd : allowed d = true <-> exists n r sf, name = Some n /\ n <> EmptyString /\ surface = Some sf
     /\ n ∈ sf_tool_allowlist sf /\ r ∈ t /\ tl_tenant_id r = tenant /\ tl_name r = n /\ tl_enabled r = true).
  { unfold d. rewrite authorize_allowed. unfold g, build_authorizer. cbn [registered allowlist].
    setoid_rewrite enabled_map_spec; [|done]. split.
    - intros (n & -> & Hn & (r & Hr) & Hal). destruct surface as [sf|]; [|by apply elem_of_nil in Hal].
      exists n, r, sf. naive_solver.
    - intros (n & r & sf & -> & Hn & -> & Hal & Hr). exists n. naive_solver. }
  unfold authorize_async. fold d. destruct (allowed d) eqn:E; [by split_and!|].
  unfold try_catch, mbind, io_bind. change (g_tenant_id g) with tenant.
  destruct (audit tenant d s) as [[[]|e] s'] eqn:Ea; by split_and!.
Qed.

Lemma rails_on cfg order : cfg !! "guardrail_config" <> Some true ->
  _rails cfg order = inl (map (fun r => {| rb_name := r; rb_enabled := true |}) order).
Proof.
  intros H. induction order as [|r order IH]; [done|]. cbn [_rails map].
  assert (E : _rail_enabled cfg r = inl true) by (unfold _rail_enabled; destruct (cfg !! _) as [[|]|]; done).
  by rewrite E, IH.
Qed.

Section compiled.
Context (schema_violation : stored_config -> option string) (hash : stored_config -> string) (platform tenant : Q).
Abbreviation compile := (compile_surface_config schema_violation hash platform tenant).

Lemma compile_inv config surface version c : compile config surface version = inl c ->
  exists ingress egress, let cfg := tenant_config_from_data (_as_dict config) in
    _rails (guardrail_config cfg) INGRESS_RAIL_ORDER = inl ingress
    /\ _rails (guardrail_config cfg) EGRESS_RAIL_ORDER = inl egress
    /\ ingress_rails c = ingress /\ egress_rails c = egress
    /\ cc_budgets c = compiled_budgets platform tenant (budgets cfg) surface
    /\ tool_allowlist c = match surface with Some s => sort_by string_leb (sf_tool_allowlist s) | None => [] end
    /\ deny_by_default c = match surface with Some s => negb (active s) | None => true end.
Proof.
  unfold compile_surface_config. destruct (validate_payload _ _); [|done].
  destruct (_rails _ INGRESS_RAIL_ORDER) as [i|] eqn:Ei; [|done].
  destruct (_rails _ EGRESS_RAIL_ORDER) as [e|] eqn:Ee; [|done]. intros [= <-]. by exists i, e.
Qed.
End compiled.

(** The limits the gateway enforces for a compiled surface are the platform's
    from the settings, the tenant's monthly budget or the settings', and the
    two monthly budgets of the surface, zero where none is set; and the tools
    the compiled configuration allows are those the gate's allowlist holds. *)
Theorem compiled_limits_reach_gateway (violation : stored_config -> option string) (hash : stored_config -> string)
    (platform tenant_default : Q) (config : TenantConfig) (surface : option Surface) (version : Z)
    (c : CompiledSurfaceConfig) :
  compile_surface_config violation hash platform tenant_default (inl config) surface version = inl c ->
  let of_surface k := default 0%Q (match surface with Some s => sf_budgets s !! k | None => None end) in
  quota_limits_from_cfg (effective_cfg (build_gateway_budget_cfg (cc_budgets c)))
  = {| platform_usd := platform; tenant_usd := default tenant_default (budgets config !! "monthly_usd");
       surface_usd := of_surface "monthly_usd"; end_user_usd := of_surface "end_user_monthly_usd" |}
  /\ (forall tenant tools name, allows_tool c name
        = bool_decide (name ∈ allowlist (build_authorizer tenant tools surface))).
Proof.
  intros E. destruct (compile_inv _ _ _ _ _ _ _ _ E) as (i & e & _ & _ & _ & _ & Hb & Ha & _). split.
  - unfold quota_limits_from_cfg, effective_cfg, build_gateway_budget_cfg.
    cbn [quota_platform_usd quota_tenant_usd quota_surface_usd quota_end_user_usd override]. rewrite Hb.
    unfold compiled_budgets, _as_dict, tenant_config_from_data, merged. cbn [budgets sc_budgets].
    assert (Hm : (default ∅ (Some (budgets config)) ∪ default_budgets) !! "monthly_usd" = budgets config !! "monthly_usd").
    { change (default ∅ (Some (budgets config))) with (budgets config). rewrite lookup_union.
      destruct (budgets config !! "monthly_usd") eqn:Em; [by destruct (default_budgets !! _)|]. reflexivity. }
    rewrite Hm. f_equal; by simplify_map_eq.
  - intros tenant tools name. unfold allows_tool, build_authorizer. cbn [allowlist]. rewrite Ha.
    destruct surface as [sf|]; [|done].
    assert (Hiff : name ∈ sort_by string_leb (sf_tool_allowlist sf) <-> name ∈ sf_tool_allowlist sf)
      by apply elem_of_sort_by.
    destruct (sort_by _ _) eqn:Es.
    + symmetry. apply bool_decide_eq_false. rewrite <- Hiff. apply not_elem_of_nil.
    + by apply bool_decide_ext.
Qed.

(** The compiler looks for the rails under a key of the dictionary it was
    handed already: every rail is compiled as enabled, whatever the tenant's
    configuration disables. *)
Theorem compiled_rails_ignore_config (violation : stored_config -> option string) (hash : stored_config -> string)
    (platform tenant_default : Q) (config : TenantConfig) (surface : option Surface) (version : Z)
    (c : CompiledSurfaceConfig) :
  compile_surface_config violation hash platform tenant_default (inl config) surface version = inl c ->
  ingress_rails c = map (fun r => {| rb_name := r; rb_enabled := true |}) INGRESS_RAIL_ORDER
  /\ egress_rails c = map (fun r => {| rb_name := r; rb_enabled := true |}) EGRESS_RAIL_ORDER.
Proof.
  intros E. destruct (compile_inv _ _ _ _ _ _ _ _ E) as (i & e & Hi & He & -> & -> & _).
  set (cfg := guardrail_config _) in *.
  assert (Hc : cfg !! "guardrail_config" <> Some true).
  { intros Hc. unfold INGRESS_RAIL_ORDER in Hi. cbn [_rails] in Hi. unfold _rail_enabled in Hi. by rewrite Hc in Hi. }
  rewrite rails_on in Hi, He by done. by injection Hi as <-; injection He as <-.
Qed.

(** A key stays in the canary when the rollout grows; nobody is in it at zero
    percent and everybody at a hundred. *)
Theorem canary_grows (digest : string -> Z * Z) (key : option string) (p q : Z) :
  p <= q ->
  (canary_bucket digest key (Some p) = true -> canary_bucket digest key (Some q) = true)
  /\ canary_bucket digest key (Some 0) = false
  /\ canary_bucket digest key (Some 100) = true.
Proof.
  intros Hpq. split_and!; [|done..]. unfold canary_bucket.
  destruct (100 <=? p) eqn:E1; to_prop; [by rewrite (proj2 (Z.leb_le 100 q)) by lia|].
  destruct (p <=? 0) eqn:E2; to_prop; [done|]. destruct (truthy_opt key); [|done]. cbn [negb orb].
  destruct (100 <=? q) eqn:E3; [done|]. to_prop. rewrite (proj2 (Z.leb_gt q 0)) by lia. cbn [orb].
  destruct (digest _) as [b0 b1]. rewrite !Z.ltb_lt. lia.
Qed.

Lemma append_eq_length (a b c d : string) :
  String.length a = String.length b -> a +:+ c = b +:+ d -> a = b /\ c = d.
Proof.
  revert b. induction a as [|x a IH]; intros [|y b]; cbn; [done..|]. intros [= Hl] [= -> E].
  by destruct (IH b Hl E) as [-> ->].
Qed.

(** Keys of different tenants never meet: their ids have one length. *)
Theorem tenant_keys_disjoint (c c' : TenantContext) (parts parts' : list string) :
  String.length (ctx_tenant_id c) = String.length (ctx_tenant_id c') ->
  redis_key c parts = redis_key c' parts' \/ storage_key c parts = storage_key c' parts' ->
  ctx_tenant_id c = ctx_tenant_id c'.
Proof.
  intros Hl [E|E].
  - assert (Hp : forall (c : TenantContext) parts, exists rest, redis_key c parts = "tenant:" +:+ (ctx_tenant_id c +:+ rest)).
    { intros d ps. unfold redis_key, redis_prefix. destruct (truthy_opt _).
      - exists (":end_user:" +:+ default EmptyString (ctx_end_user_id d) +:+ ":" +:+ join ":" ps).
        by rewrite !string_app_assoc.
      - exists (":" +:+ join ":" ps). by rewrite !string_app_assoc. }
    destruct (Hp c parts) as [r Hr], (Hp c' parts') as [r' Hr']. rewrite Hr, Hr' in E.
    apply append_eq_length in E as [_ E]; [|done]. by apply append_eq_length in E as [-> _].
  - unfold storage_key, storage_prefix in E. rewrite !string_app_assoc in E.
    apply append_eq_length in E as [_ E]; [|done]. by apply append_eq_length in E as [-> _].
Qed.

(** *** Concrete inputs *)

Module GateSample.
Definition rows : list ToolRow :=
  (set_enabled "t" "mail" false
     (register "t" "2" "mail" None None true None (register "t" "1" "clock" None None true None []).2).2).2.
Definition surface : Surface := (surface_create "t" "web" {|
  rq_name := "web"; rq_surface_type := "web"; rq_persona := None; rq_knowledge_allowlist := [];
  rq_tool_allowlist := ["clock"; "mail"]; rq_model_pin := None; rq_budgets := {["monthly_usd" := 5%Q]};
  rq_brand_voice_override := None; rq_active := true |} []).1.
Definition quiet : TenantConfig := {|
  tc_id := "t"; tc_name := "T"; tc_slug := "t"; allowed_topics := []; blocked_topics := [];
  escalation_threshold := 1 # 2; knowledge_allowlist := []; default_provider := "p"; default_model := "m";
  budgets := ∅; features := ∅; tool_clearing := ∅; memory := ∅;
  guardrail_config := {["classifier" := false]}; guardrail_thresholds := ∅; stream_moderation_window_chars := None |}.
Definition compile (s : option Surface) := compile_surface_config (fun _ => None) (fun _ => "h") 100 50 (inl quiet) s 1.
Definition compiled : CompiledSurfaceConfig :=
  match compile (Some surface) with
  | inl c => c
  | inr _ => {| cc_tenant_id := EmptyString; cc_surface_id := None; cc_version := 0; source_hash := EmptyString;
                ingress_rails := []; egress_rails := []; tool_allowlist := []; cc_budgets := ∅;
                cc_knowledge_allowlist := []; brand_voice := None; deny_by_default := true |}
  end.
End GateSample.

(** An enabled, listed tool runs; a disabled one and an unknown one do not. *)
Example gate_sample :
  let g := build_authorizer "t" GateSample.rows (Some GateSample.surface) in
  map (fun n => allowed (authorize g (Some n))) ["clock"; "mail"; "shell"] = [true; false; false].
Proof. vm_compute. done. Qed.

Lemma tool_gate_spec_witness :
  let g := build_authorizer "t" GateSample.rows (Some GateSample.surface) in
  let d := authorize g (Some "mail") in
  let audit (_ : string) (_ : ToolAuthorization) : io Z string unit := fun n => (Raise "down", n + 1) in
  (authorize_async (Some audit) g (Some "mail") 0).1 = Ret d
  /\ (authorize_async (Some audit) g (Some "mail") 0).2 = (if allowed d then 0 else (audit "t" d 0).2)
  /\ (allowed d = true <->
      exists n r sf, Some "mail" = Some n /\ n <> EmptyString /\ Some GateSample.surface = Some sf
        /\ n ∈ sf_tool_allowlist sf
        /\ r ∈ GateSample.rows /\ tl_tenant_id r = "t" /\ tl_name r = n /\ tl_enabled r = true).
Proof.
  apply (tool_gate_spec GateSample.rows "t" (Some GateSample.surface)).
  eapply rtc_l; [apply (step_register [] "t" "1" "clock" None None true None)|].
  eapply rtc_l; [apply (step_register _ "t" "2" "mail" None None true None)|].
  eapply rtc_l; [apply (step_enable _ "t" "mail" false)|]. apply rtc_refl.
Defined.

Lemma compiled_limits_reach_gateway_witness :
  quota_limits_from_cfg (effective_cfg (build_gateway_budget_cfg (cc_budgets GateSample.compiled)))
  = {| platform_usd := 100; tenant_usd := 50; surface_usd := 5; end_user_usd := 0 |}.
Proof.
  apply (compiled_limits_reach_gateway (fun _ => None) (fun _ => "h") 100 50 GateSample.quiet (Some GateSample.surface) 1
           GateSample.compiled). vm_compute. reflexivity.
Defined.

(** The classifier is off in the configuration and compiled as enabled. *)
Lemma compiled_rails_ignore_config_witness :
  guardrail_config GateSample.quiet !! "classifier" = Some false
  /\ ingress_rails GateSample.compiled = map (fun r => {| rb_name := r; rb_enabled := true |}) INGRESS_RAIL_ORDER
  /\ egress_rails GateSample.compiled = map (fun r => {| rb_name := r; rb_enabled := true |}) EGRESS_RAIL_ORDER.
Proof.
  split; [vm_compute; reflexivity|].
  apply (compiled_rails_ignore_config (fun _ => None) (fun _ => "h") 100 50 GateSample.quiet (Some GateSample.surface) 1
           GateSample.compiled). vm_compute. reflexivity.
Defined.
