(* ===== verification/ConfigVersions.v ===== *)
(** * Versions of a tenant's configuration

    The table of versions and its repository ([TenantConfigVersionRepository]
    of infrastructure/db/repositories.py), the runtime read of a configuration
    (application/compaction/refresh.py), the monitor of canaries
    (worker/canary_monitor.py) and the routes that create, publish, evaluate
    and roll back versions (api/routes/conversations.py), called by a principal
    that auth.py let in (Auth.v).  A call of the
    repository is one transaction; instants are seconds. *)

From S2P Require Import Prelude Json Context Tenant RateLimiter Auth Governance.

(** ** The table *)

Record ConfigVersion := {
  cv_row_id : string;
  cv_tenant_id : string;
  version : Z;
  cv_config : stored_config;
  status : string;
  validation_status : option string;
  validated_at : option Q;
  approved_by : option string;
  approved_at : option Q;
  published_at : option Q;
  promoted_by : option string;
  cv_created_at : Q;
  canary_percent : option Z;
  eval_status : option string;
  eval_details : option (list (string * json));
}.

Definition STATUS_DRAFT : string := "draft".
Definition STATUS_PUBLISHED : string := "published".
Definition STATUS_SUPERSEDED : string := "superseded".

Definition table : Type := list ConfigVersion.

Definition is_version (tenant : string) (v : Z) (r : ConfigVersion) : bool :=
  bool_decide (cv_tenant_id r = tenant) && (version r =? v).
Definition of_tenant (tenant : string) (r : ConfigVersion) : bool := bool_decide (cv_tenant_id r = tenant).
Definition has_status (s : string) (r : ConfigVersion) : bool := bool_decide (status r = s).
(** Published now or before. *)
Definition was_live (r : ConfigVersion) : bool := bool_decide (status r ∈ [STATUS_PUBLISHED; STATUS_SUPERSEDED]).

(** [order_by(version.desc()).limit(1)] of the rows that satisfy a filter. *)
Fixpoint newest (p : ConfigVersion -> bool) (t : table) : option ConfigVersion :=
  match t with
  | [] => None
  | r :: t =>
      match newest p t with
      | None => if p r then Some r else None
      | Some r' => if p r && (version r' <? version r) then Some r else Some r'
      end
  end.

(** Newest first: [order_by(version.desc())]. *)
Definition list_versions (tenant : string) (t : table) : list ConfigVersion :=
  sort_by (fun a b => version b <=? version a) (List.filter (of_tenant tenant) t).

Definition get_latest_published (tenant : string) (t : table) : option ConfigVersion :=
  newest (fun r => of_tenant tenant r && has_status STATUS_PUBLISHED r) t.

Definition get_version (tenant : string) (v : Z) (t : table) : option ConfigVersion :=
  List.find (is_version tenant v) t.

(** The assignments to a row the repository makes. *)
Definition update_row (tenant : string) (v : Z) (f : ConfigVersion -> ConfigVersion) (t : table) : table :=
  map (fun r => if is_version tenant v r then f r else r) t.

Definition set_status (s : string) (r : ConfigVersion) : ConfigVersion := {|
  cv_row_id := cv_row_id r; cv_tenant_id := cv_tenant_id r; version := version r; cv_config := cv_config r; status := s;
  validation_status := validation_status r; validated_at := validated_at r; approved_by := approved_by r;
  approved_at := approved_at r; published_at := published_at r; promoted_by := promoted_by r;
  cv_created_at := cv_created_at r; canary_percent := canary_percent r; eval_status := eval_status r;
  eval_details := eval_details r |}.
Definition put_validation (s : string) (at_ : option Q) (r : ConfigVersion) : ConfigVersion := {|
  cv_row_id := cv_row_id r; cv_tenant_id := cv_tenant_id r; version := version r; cv_config := cv_config r;
  status := status r; validation_status := Some s; validated_at := at_; approved_by := approved_by r;
  approved_at := approved_at r; published_at := published_at r; promoted_by := promoted_by r;
  cv_created_at := cv_created_at r; canary_percent := canary_percent r; eval_status := eval_status r;
  eval_details := eval_details r |}.
Definition put_approval (by_ : option string) (at_ : Q) (r : ConfigVersion) : ConfigVersion := {|
  cv_row_id := cv_row_id r; cv_tenant_id := cv_tenant_id r; version := version r; cv_config := cv_config r;
  status := status r; validation_status := validation_status r; validated_at := validated_at r; approved_by := by_;
  approved_at := Some at_; published_at := published_at r; promoted_by := promoted_by r;
  cv_created_at := cv_created_at r; canary_percent := canary_percent r; eval_status := eval_status r;
  eval_details := eval_details r |}.
Definition put_published (at_ : Q) (by_ : option string) (percent : option Z) (r : ConfigVersion) : ConfigVersion := {|
  cv_row_id := cv_row_id r; cv_tenant_id := cv_tenant_id r; version := version r; cv_config := cv_config r;
  status := STATUS_PUBLISHED; validation_status := validation_status r; validated_at := validated_at r;
  approved_by := approved_by r; approved_at := approved_at r; published_at := Some at_; promoted_by := by_;
  cv_created_at := cv_created_at r; canary_percent := percent; eval_status := eval_status r;
  eval_details := eval_details r |}.
Definition put_eval (s : option string) (d : option (list (string * json))) (r : ConfigVersion) : ConfigVersion := {|
  cv_row_id := cv_row_id r; cv_tenant_id := cv_tenant_id r; version := version r; cv_config := cv_config r;
  status := status r; validation_status := validation_status r; validated_at := validated_at r;
  approved_by := approved_by r; approved_at := approved_at r; published_at := published_at r;
  promoted_by := promoted_by r; cv_created_at := cv_created_at r; canary_percent := canary_percent r; eval_status := s;
  eval_details := d |}.

(** *** Operations: the row returned and the table *)

Definition next_version (tenant : string) (t : table) : Z :=
  max_or_zero (map version (List.filter (of_tenant tenant) t)) + 1.

Definition create_draft (id : string) (now : Q) (tenant : string) (config : stored_config) (by_ : option string)
    (t : table) : ConfigVersion * table :=
  let r := {| cv_row_id := id; cv_tenant_id := tenant; version := next_version tenant t; cv_config := config;
              status := STATUS_DRAFT; validation_status := None; validated_at := None; approved_by := None;
              approved_at := None; published_at := None; promoted_by := by_; cv_created_at := now;
              canary_percent := None; eval_status := None; eval_details := None |} in
  (r, t ++ [r]).

(** Assigns to the row of a version, and returns it. *)
Definition on_version (tenant : string) (v : Z) (f : ConfigVersion -> ConfigVersion) (t : table) :
    option ConfigVersion * table :=
  match get_version tenant v t with
  | None => (None, t)
  | Some r => (Some (f r), update_row tenant v f t)
  end.

Definition set_validation (now : Q) (tenant : string) (v : Z) (s : string) : table -> option ConfigVersion * table :=
  on_version tenant v (put_validation s (Some now)).
Definition approve (now : Q) (tenant : string) (v : Z) (by_ : option string) :
    table -> option ConfigVersion * table := on_version tenant v (put_approval by_ now).
Definition set_eval_result (tenant : string) (v : Z) (s : string) (d : list (string * json)) :
    table -> option ConfigVersion * table := on_version tenant v (put_eval (Some s) (Some d)).

(** [update(...).where(published).values(status=superseded)] *)
Definition supersede (tenant : string) (t : table) : table :=
  map (fun r => if of_tenant tenant r && has_status STATUS_PUBLISHED r then set_status STATUS_SUPERSEDED r else r) t.

Definition full_rollout (percent : option Z) : bool := match percent with None => true | Some p => 100 <=? p end.

Definition promote (now : Q) (tenant : string) (v : Z) (by_ : option string) (percent : option Z) (t : table) :
    option ConfigVersion * table :=
  match get_version tenant v t with
  | None => (None, t)
  | Some _ =>
      let t := if full_rollout percent then supersede tenant t else t in
      on_version tenant v (put_published now by_ (if full_rollout percent then None else percent)) t
  end.

Definition get_previous_published (tenant : string) (before : Z) (t : table) : option ConfigVersion :=
  newest (fun r => of_tenant tenant r && was_live r && negb (version r =? before)) t.

Section bucket.
(** The first two bytes of the SHA-256 digest of a key. *)
Context (digest : string -> Z * Z).

Definition get_effective (tenant : string) (key : option string) (t : table) : option ConfigVersion :=
  match get_latest_published tenant t with
  | None => None
  | Some latest =>
      if full_rollout (canary_percent latest) then Some latest
      else if truthy_opt key && negb (canary_bucket digest key (canary_percent latest)) then
        match get_previous_published tenant (version latest) t with
        | Some baseline => Some baseline
        | None => Some latest
        end
      else Some latest
  end.
End bucket.

Section rollback.
Context (isoformat : Q -> string).

Definition regression_details (now : Q) (reason : string) (r : ConfigVersion) : list (string * json) :=
  dict_set "auto_rolled_back_at" (JStr (isoformat now))
    (dict_set "regression" (JStr reason) (default [] (eval_details r))).

(** [auto_rollback] *)
Definition auto_rollback (now : Q) (tenant : string) (failing : Z) (reason : string) (by_ : option string)
    (t : table) : option ConfigVersion * table :=
  match get_version tenant failing t with
  | None => (None, t)
  | Some f =>
      if negb (has_status STATUS_PUBLISHED f) then (None, t)
      else match get_previous_published tenant failing t with
           | None => (None, t)
           | Some previous =>
               let t := update_row tenant failing (fun r =>
                          put_eval (eval_status r) (Some (regression_details now reason r))
                            (put_validation "regressed" (validated_at r) r)) t in
               let t := supersede tenant t in
               on_version tenant (version previous) (fun r =>
                 put_published now (if truthy_opt by_ then by_ else promoted_by r) None r) t
           end
  end.
End rollback.

(** ** The runtime read *)

Definition over {A} (a b : option A) : option A := match b with Some _ => b | None => a end.

(** [{**tenant_row, **published["config"]}] *)
Definition overlay (row cfg : stored_config) : stored_config := {|
  sc_id := sc_id cfg; sc_name := sc_name cfg; sc_slug := sc_slug cfg;
  sc_allowed_topics := over (sc_allowed_topics row) (sc_allowed_topics cfg);
  sc_blocked_topics := over (sc_blocked_topics row) (sc_blocked_topics cfg);
  sc_escalation_threshold := over (sc_escalation_threshold row) (sc_escalation_threshold cfg);
  sc_knowledge_allowlist := over (sc_knowledge_allowlist row) (sc_knowledge_allowlist cfg);
  sc_default_provider := over (sc_default_provider row) (sc_default_provider cfg);
  sc_default_model := over (sc_default_model row) (sc_default_model cfg);
  sc_features := over (sc_features row) (sc_features cfg);
  sc_guardrail_config := over (sc_guardrail_config row) (sc_guardrail_config cfg);
  sc_guardrail_thresholds := over (sc_guardrail_thresholds row) (sc_guardrail_thresholds cfg);
  sc_budgets := over (sc_budgets row) (sc_budgets cfg);
  sc_tool_clearing := over (sc_tool_clearing row) (sc_tool_clearing cfg);
  sc_memory := over (sc_memory row) (sc_memory cfg);
  sc_stream_window := over (sc_stream_window row) (sc_stream_window cfg) |}.

Definition load_effective_tenant_config (digest : string -> Z * Z) (row : stored_config) (key : option string)
    (t : table) : TenantConfig :=
  let config := tenant_config_from_data row in
  match get_effective digest (tc_id config) key t with
  | Some published => tenant_config_from_data (overlay row (cv_config published))
  | None => config
  end.

(** ** The canary monitor *)

Record CanaryMetrics := { requests : Z; errors : Z; guardrail_blocks : Z; total_latency : Q }.

Definition no_metrics : CanaryMetrics := {| requests := 0; errors := 0; guardrail_blocks := 0; total_latency := 0 |}.

Definition rate (n total : Z) : Q := if 0 <? total then (inject_Z n / inject_Z total)%Q else 0%Q.
Definition error_rate (m : CanaryMetrics) : Q := rate (errors m) (requests m).
Definition block_rate (m : CanaryMetrics) : Q := rate (guardrail_blocks m) (requests m).
Definition avg_latency (m : CanaryMetrics) : Q :=
  if 0 <? requests m then (total_latency m / inject_Z (requests m))%Q else 0%Q.

Definition record_metrics (error blocked : bool) (latency : Q) (m : CanaryMetrics) : CanaryMetrics :=
  {| requests := requests m + 1; errors := errors m + (if error then 1 else 0);
     guardrail_blocks := guardrail_blocks m + (if blocked then 1 else 0); total_latency := total_latency m + latency |}.

Record CanaryRollout := {
  ro_tenant : string;
  canary_version : Z;
  baseline_version : Z;
  ro_percent : Z;
  baseline_metrics : CanaryMetrics;
  canary_metrics : CanaryMetrics;
  error_rate_threshold : Q;
  block_rate_threshold : Q;
  min_samples : Z;
  rolled_back : bool;
  promoted_full : bool;
}.

Definition record_request (is_canary error blocked : bool) (latency : Q) (r : CanaryRollout) : CanaryRollout :=
  let put := record_metrics error blocked latency in {|
  ro_tenant := ro_tenant r; canary_version := canary_version r; baseline_version := baseline_version r;
  ro_percent := ro_percent r;
  baseline_metrics := if is_canary then baseline_metrics r else put (baseline_metrics r);
  canary_metrics := if is_canary then put (canary_metrics r) else canary_metrics r;
  error_rate_threshold := error_rate_threshold r; block_rate_threshold := block_rate_threshold r;
  min_samples := min_samples r; rolled_back := rolled_back r; promoted_full := promoted_full r |}.

(** [f"{q:.4f}"] *)
Definition pad4 (n : Z) : string :=
  (if n <? 1000 then "0" else EmptyString) +:+ (if n <? 100 then "0" else EmptyString)
  +:+ (if n <? 10 then "0" else EmptyString) +:+ pretty n.
Definition fixed4 (q : Q) : string :=
  let n := round_half_even (q * 10000) in
  let m := Z.abs n in
  (if n <? 0 then "-" else EmptyString) +:+ pretty (m / 10000) +:+ "." +:+ pad4 (m mod 10000).

Section monitor.
(** [str] of a float. *)
Context (float_text : Q -> string) (digest : string -> Z * Z) (isoformat : Q -> string).

Definition regression_reason (what : string) (c b threshold : Q) : string :=
  "canary " +:+ what +:+ " " +:+ fixed4 c +:+ " exceeds baseline " +:+ fixed4 b +:+ " by " +:+ fixed4 (c - b)
  +:+ " (threshold " +:+ float_text threshold +:+ ")".

(** [CanaryRollout.evaluate]: the reason to roll back, if there is one. *)
Definition evaluate (r : CanaryRollout) : option string :=
  let c := canary_metrics r in
  let b := baseline_metrics r in
  if rolled_back r || promoted_full r then None
  else if (requests c <? min_samples r) || (requests b <? min_samples r) then None
  else if (error_rate_threshold r <?q error_rate c - error_rate b)%Q
  then Some (regression_reason "error rate" (error_rate c) (error_rate b) (error_rate_threshold r))
  else if (block_rate_threshold r <?q block_rate c - block_rate b)%Q
  then Some (regression_reason "block rate" (block_rate c) (block_rate b) (block_rate_threshold r))
  else None.

(** [_active_rollouts], in insertion order. *)
Definition rollouts : Type := list (string * CanaryRollout).

Fixpoint active_rollout (tenant : string) (l : rollouts) : option CanaryRollout :=
  match l with
  | [] => None
  | (k, r) :: l => if decide (k = tenant) then Some r else active_rollout tenant l
  end.

Definition new_rollout (tenant : string) (canary baseline percent : Z) : CanaryRollout :=
  {| ro_tenant := tenant; canary_version := canary; baseline_version := baseline; ro_percent := percent;
     baseline_metrics := no_metrics; canary_metrics := no_metrics; error_rate_threshold := 1 # 20;
     block_rate_threshold := 1 # 10; min_samples := 50; rolled_back := false; promoted_full := false |}.

Definition start_canary (tenant : string) (canary baseline percent : Z) (l : rollouts) : rollouts :=
  dict_set tenant (new_rollout tenant canary baseline percent) l.

Definition record_outcome (tenant : string) (key : option string) (error blocked : bool) (latency_ms : Q)
    (l : rollouts) : rollouts :=
  match active_rollout tenant l with
  | None => l
  | Some r =>
      dict_set tenant
        (record_request (canary_bucket digest key (Some (ro_percent r))) error blocked (latency_ms / 1000) r) l
  end.

Definition end_canary (tenant : string) (l : rollouts) : rollouts :=
  List.filter (fun kr => negb (bool_decide (kr.1 = tenant))) l.

(** [handle_canary_evaluate]: [up] says whether the database answers; a
    failure is logged, and the rollout ends all the same. *)
Fixpoint evaluate_each (now : Q) (up : string -> bool) (todo : rollouts) (s : rollouts * table) : rollouts * table :=
  match todo with
  | [] => s
  | (tenant, r) :: todo =>
      let '(l, t) := s in
      let s := match evaluate r with
               | None => (l, t)
               | Some reason =>
                   let t := if up tenant
                            then (auto_rollback isoformat now tenant (canary_version r)
                                    (if truthy reason then reason else "canary regression") (Some "canary-monitor") t).2
                            else t in
                   (end_canary tenant l, t)
               end in
      evaluate_each now up todo s
  end.

Definition handle_canary_evaluate (now : Q) (up : string -> bool) (s : rollouts * table) : rollouts * table :=
  evaluate_each now up s.1 s.
End monitor.

(** ** The routes *)

(** An audit record: action, resource, actor and details. *)
Record audit_note := { an_action : string; an_resource : string; an_tenant : string; an_actor : string;
                       an_details : list (string * json) }.

(** The process: the tables, the monitor, the tenants whose caches were
    cleared (with the reason, for the gateway's) and the audit records. *)
Record desk := {
  d_versions : table;
  d_rollouts : rollouts;
  d_tenants : list stored_config;
  d_invalidated : list (string * option string);
  d_audit : list audit_note;
}.

Definition admin := io desk auth_exc.

Definition set_versions (t : table) (d : desk) : desk :=
  {| d_versions := t; d_rollouts := d_rollouts d; d_tenants := d_tenants d; d_invalidated := d_invalidated d;
     d_audit := d_audit d |}.
Definition set_rollouts (l : rollouts) (d : desk) : desk :=
  {| d_versions := d_versions d; d_rollouts := l; d_tenants := d_tenants d; d_invalidated := d_invalidated d;
     d_audit := d_audit d |}.
Definition invalidate (tenant : string) (reason : option string) : admin unit :=
  modify (fun d => {| d_versions := d_versions d; d_rollouts := d_rollouts d; d_tenants := d_tenants d;
                      d_invalidated := d_invalidated d ++ [(tenant, reason)]; d_audit := d_audit d |}).
Definition audit (action id tenant actor : string) (details : list (string * json)) : admin unit :=
  modify (fun d => {| d_versions := d_versions d; d_rollouts := d_rollouts d; d_tenants := d_tenants d;
                      d_invalidated := d_invalidated d;
                      d_audit := d_audit d ++ [{| an_action := action; an_resource := id; an_tenant := tenant;
                                                  an_actor := actor; an_details := details |}] |}).

(** A call of the repository that changes the table. *)
Definition repo {A} (f : table -> A * table) : admin A := fun d =>
  let '(a, t) := f (d_versions d) in (Ret a, set_versions t d).

Record version_response := {
  vr_version : Z;
  vr_status : string;
  vr_validation : option string;
  vr_eval : string;
  vr_percent : option Z;
  vr_published_at : option Q;
  vr_promoted_by : option string;
}.

Definition json_opt_str (o : option string) : json := match o with Some s => JStr s | None => JNull end.
Definition json_opt_num (o : option Z) : json := match o with Some z => JNum z | None => JNull end.

(** [x or ""] *)
Definition or_empty_text (o : option string) : string := default EmptyString o.

Section routes.
Context (float_text : Q -> string) (digest : string -> Z * Z) (isoformat : Q -> string).
(** The compiler's arguments (Governance.v). *)
Context (schema_violation : stored_config -> option string) (hash_source : stored_config -> string)
  (QUOTA_PLATFORM_USD QUOTA_TENANT_USD : Q).

Definition compile_message (e : compile_error) : string :=
  match e with ConfigValidationError m | AttributeError m => m end.

(** [create_tenant_config_version]; [id] is the new row's. *)
Definition create_tenant_config_version (id : string) (now : Q) (p : ApiKeyPrincipal) (tenant : string)
    (config : stored_config) : admin version_response :=
  _ ← assert_tenant_access p (AsUUID tenant);
  d ← get_st;
  match List.find (fun row => bool_decide (sc_id row = tenant)) (d_tenants d) with
  | None => throw (HTTPError 404 ("Tenant not found: " +:+ tenant))
  | Some row =>
      if negb (bool_decide (sc_id config = tenant)) || negb (bool_decide (sc_slug config = sc_slug row))
      then throw (HTTPError 422 "Config id/slug must match the tenant")
      else
        match compile_surface_config schema_violation hash_source QUOTA_PLATFORM_USD QUOTA_TENANT_USD
                (inl (tenant_config_from_data config)) None 0 with
        | inr e => throw (HTTPError 422 ("Config failed validation: " +:+ compile_message e))
        | inl _ =>
            r ← repo (create_draft id now tenant config (Some (key_id p)));
            validated ← repo (set_validation now tenant (version r) "validated");
            approved ← repo (approve now tenant (version r) (Some (key_id p)));
            _ ← audit "config_version.created" (cv_row_id r) tenant (key_id p)
                  [("version", JNum (version r)); ("status", JStr (status r));
                   ("validation_status", json_opt_str (validated ≫= validation_status));
                   ("approved_by", json_opt_str (approved ≫= approved_by))];
            mret {| vr_version := version r; vr_status := status r;
                    vr_validation := Some (or_empty_text (validated ≫= validation_status)); vr_eval := EmptyString;
                    vr_percent := None; vr_published_at := published_at r; vr_promoted_by := promoted_by r |}
        end
  end.

(** What a caller passes for the percentage: a value, or the default of the
    parameter, which outside a request is the framework's [Query] object. *)
Inductive percent_arg := Given (p : option Z) | QueryObject.

(** [canary_percent is not None and not validate_canary_percent(...)] *)
Definition bad_percent (a : percent_arg) : bool :=
  match a with Given None => false | Given p => negb (validate_canary_percent p) | QueryObject => true end.

Definition publish_tenant_config_version (now : Q) (p : ApiKeyPrincipal) (tenant : string) (v : Z) (a : percent_arg) :
    admin version_response :=
  _ ← assert_tenant_access p (AsUUID tenant);
  d ← get_st;
  let draft := get_version tenant v (d_versions d) in
  match promotion_gate (draft ≫= validation_status) (draft ≫= eval_status) with
  | (false, reason) =>
      throw (HTTPError 422 ("Config version " +:+ pretty v +:+ " cannot be promoted: " +:+ or_empty_text reason))
  | (true, _) =>
      if bad_percent a then throw (HTTPError 422 "canary_percent must be between 0 and 100")
      else
        let percent := match a with Given p => p | QueryObject => None end in
        r ← repo (promote now tenant v (Some (key_id p)) percent);
        match r with
        | None => throw (HTTPError 404 ("Config version not found: " +:+ tenant +:+ " v" +:+ pretty v))
        | Some r =>
            _ ← (if full_rollout percent then mret tt
                 else modify (fun d =>
                   let baseline := get_previous_published tenant v (d_versions d) in
                   set_rollouts (start_canary tenant (version r) (default (version r) (version <$> baseline))
                                   (default 0 percent) (d_rollouts d)) d));
            _ ← invalidate tenant None;
            _ ← invalidate tenant (Some ("config.publish:v" +:+ pretty v));
            _ ← audit "config_version.published" (cv_row_id r) tenant (key_id p)
                  [("version", JNum (version r)); ("status", JStr (status r));
                   ("canary_percent", json_opt_num (canary_percent r))];
            mret {| vr_version := version r; vr_status := status r; vr_validation := draft ≫= validation_status;
                    vr_eval := or_empty_text (draft ≫= eval_status); vr_percent := canary_percent r;
                    vr_published_at := published_at r; vr_promoted_by := promoted_by r |}
        end
  end.

Definition shown (r : ConfigVersion) : version_response :=
  {| vr_version := version r; vr_status := status r; vr_validation := Some (or_empty_text (validation_status r));
     vr_eval := or_empty_text (eval_status r); vr_percent := canary_percent r; vr_published_at := published_at r;
     vr_promoted_by := promoted_by r |}.

Definition version_missing {A} (tenant : string) (v : Z) : admin A :=
  throw (HTTPError 404 ("Config version not found: " +:+ tenant +:+ " v" +:+ pretty v)).

Definition evaluate_tenant_config_version (now : Q) (p : ApiKeyPrincipal) (tenant : string) (v : Z) (suite : string)
    (ok : bool) (metrics : json) : admin version_response :=
  _ ← assert_tenant_access p (AsUUID tenant);
  d ← get_st;
  match get_version tenant v (d_versions d) with
  | None => version_missing tenant v
  | Some draft =>
      if negb (has_status STATUS_DRAFT draft) then version_missing tenant v
      else
        let s := if ok then "passed" else "failed" in
        r ← repo (set_eval_result tenant v s
              [("suite", JStr suite); ("evaluated_at", JStr (isoformat now)); ("metrics", metrics)]);
        match r with
        | None => version_missing tenant v
        | Some r =>
            _ ← audit "config_version.evaluated" (cv_row_id r) tenant (key_id p)
                  [("version", JNum (version r)); ("suite", JStr suite); ("eval_status", JStr s)];
            mret (shown r)
        end
  end.

Definition auto_rollback_tenant_config_version (now : Q) (p : ApiKeyPrincipal) (tenant : string) (v : Z) (reason : string) :
    admin version_response :=
  _ ← assert_tenant_access p (AsUUID tenant);
  r ← repo (auto_rollback isoformat now tenant v reason (Some (key_id p)));
  match r with
  | None => throw (HTTPError 404 ("Config version " +:+ tenant +:+ " v" +:+ pretty v +:+ " is not a published rollout"))
  | Some r =>
      _ ← invalidate tenant None;
      _ ← audit "config_version.auto_rolled_back" (cv_row_id r) tenant (key_id p)
            [("version", JNum (version r)); ("reason", JStr reason)];
      mret (shown r)
  end.

(** [rollback_tenant_config_version] calls the publishing route as a function,
    without a percentage. *)
Definition rollback_tenant_config_version (now : Q) (p : ApiKeyPrincipal) (tenant : string) (v : Z) : admin version_response :=
  publish_tenant_config_version now p tenant v QueryObject.

End routes.

(** ** Lemmas *)

(** *** Rows and versions *)

(** What never changes in a row. *)
Definition core (r : ConfigVersion) : string * string * Z * stored_config * Q :=
  (cv_row_id r, cv_tenant_id r, version r, cv_config r, cv_created_at r).

Definition versions_of (tenant : string) (t : table) : list Z := map version (List.filter (of_tenant tenant) t).

(** The versions of each tenant are 1, 2, 3, ... in the order of the table. *)
Definition numbered (t : table) : Prop :=
  forall tenant, exists n, versions_of tenant t = map Z.of_nat (seq 1 n).

Lemma core_tenant r r' : core r = core r' -> cv_tenant_id r = cv_tenant_id r' /\ version r = version r'.
Proof. by intros [= _ ? ? _ _]. Qed.

Lemma core_versions t t' tenant : map core t = map core t' -> versions_of tenant t = versions_of tenant t'.
Proof.
  unfold versions_of. revert t'. induction t as [|r t IH]; intros [|r' t'] H; try done.
  assert (Hr : core r = core r') by (exact (f_equal (hd (core r)) H)).
  assert (Ht : map core t = map core t') by (exact (f_equal tail H)).
  apply core_tenant in Hr as [H1 H2]. cbn [List.filter].
  assert (of_tenant tenant r = of_tenant tenant r') as -> by (unfold of_tenant; by rewrite H1).
  destruct (of_tenant tenant r'); cbn [map]; [rewrite H2; f_equal|]; by apply IH.
Qed.

Lemma numbered_core t t' : map core t = map core t' -> numbered t -> numbered t'.
Proof. intros H Hn tenant. rewrite <- (core_versions t t' tenant H). apply Hn. Qed.

Lemma same_version t r r' :
  numbered t -> r ∈ t -> r' ∈ t -> cv_tenant_id r = cv_tenant_id r' -> version r = version r' -> r = r'.
Proof.
  intros Hn Hr Hr' Ht Hv. destruct (Hn (cv_tenant_id r)) as [n Hl].
  assert (NoDup (versions_of (cv_tenant_id r) t)) as Hd.
  { rewrite Hl. apply NoDup_fmap_2; [by intros ?? ?%Nat2Z.inj|]. apply NoDup_seq. }
  unfold versions_of in Hd.
  assert (forall x, x ∈ t -> cv_tenant_id x = cv_tenant_id r -> x ∈ List.filter (of_tenant (cv_tenant_id r)) t) as Hin.
  { intros x Hx Hxt. apply list_elem_of_In, filter_In. split; [by apply list_elem_of_In|]. by apply bool_decide_eq_true. }
  assert (H1 : r ∈ List.filter (of_tenant (cv_tenant_id r)) t) by auto.
  assert (H2 : r' ∈ List.filter (of_tenant (cv_tenant_id r)) t) by auto.
  apply list_elem_of_lookup in H1 as [i Hi], H2 as [j Hj].
  assert (i = j) as ->; [|congruence]. eapply NoDup_lookup; [exact Hd|..]; rewrite list_lookup_fmap.
  - by rewrite Hi.
  - by rewrite Hj, Hv.
Qed.

(** *** The newest row of a filter *)

Lemma newest_spec p t :
  match newest p t with
  | Some r => r ∈ t /\ p r = true /\ forall r', r' ∈ t -> p r' = true -> version r' <= version r
  | None => forall r', r' ∈ t -> p r' = false
  end.
Proof.
  induction t as [|x t IH]; cbn [newest]; [by intros r' ?%not_elem_of_nil|].
  destruct (newest p t) as [r|].
  - destruct IH as (Hr & Hp & Hmax). destruct (p x) eqn:Ex; cbn [andb].
    + destruct (Z.ltb_spec (version r) (version x)).
      * split; [by left|]. split; [done|]. intros r' [->|Hr']%elem_of_cons Hp'; [lia|].
        specialize (Hmax r' Hr' Hp'). lia.
      * split; [by right|]. split; [done|]. intros r' [->|Hr']%elem_of_cons Hp'; [lia|auto].
    + split; [by right|]. split; [done|]. intros r' [->|Hr']%elem_of_cons Hp'; [congruence|auto].
  - destruct (p x) eqn:Ex.
    + split; [by left|]. split; [done|]. intros r' [->|Hr']%elem_of_cons Hp'; [lia|]. by rewrite IH in Hp'.
    + intros r' [->|Hr']%elem_of_cons; auto.
Qed.

(** The newest row of a tenant's is the one no other passes. *)
Lemma newest_is t p tenant r :
  numbered t -> (forall x, p x = true -> cv_tenant_id x = tenant) -> r ∈ t -> p r = true ->
  (forall x, x ∈ t -> p x = true -> version x <= version r) -> newest p t = Some r.
Proof.
  intros Hn Hp Hr Hpr Hmax. pose proof (newest_spec p t) as Hs. destruct (newest p t) as [r'|].
  - destruct Hs as (Hr' & Hp' & Hmax'). f_equal. apply (same_version t); [done..| |].
    + by rewrite (Hp r), (Hp r').
    + specialize (Hmax r' Hr' Hp'). specialize (Hmax' r Hr Hpr). lia.
  - by rewrite Hs in Hpr.
Qed.

Lemma get_version_spec tenant v t r :
  get_version tenant v t = Some r -> r ∈ t /\ cv_tenant_id r = tenant /\ version r = v.
Proof.
  intros [Hin H]%List.find_some. apply andb_true_iff in H as [H1 H2].
  apply bool_decide_eq_true in H1. apply Z.eqb_eq in H2. split; [by apply list_elem_of_In|done].
Qed.

Lemma get_version_in tenant v t r :
  numbered t -> r ∈ t -> cv_tenant_id r = tenant -> version r = v -> get_version tenant v t = Some r.
Proof.
  intros Hn Hr Ht Hv. unfold get_version. destruct (List.find (is_version tenant v) t) as [r'|] eqn:E.
  - apply get_version_spec in E as (Hr' & Ht' & Hv'). f_equal. apply (same_version t); congruence || done.
  - exfalso. apply List.find_none with (x := r) in E; [|by apply list_elem_of_In].
    apply andb_false_iff in E as [E|E]; [by apply bool_decide_eq_false in E|]. apply Z.eqb_neq in E. congruence.
Qed.

(** *** Updates keep the cores *)

Definition keeps_core (f : ConfigVersion -> ConfigVersion) : Prop := forall r, core (f r) = core r.

Lemma map_core f t : keeps_core f -> map core (map f t) = map core t.
Proof. intros Hf. rewrite map_map. apply map_ext. exact Hf. Qed.

Lemma update_row_core tenant v f t : keeps_core f -> map core (update_row tenant v f t) = map core t.
Proof. intros Hf. apply map_core. intros r. destruct (is_version tenant v r); [apply Hf|done]. Qed.

Lemma on_version_core tenant v f t : keeps_core f -> map core (on_version tenant v f t).2 = map core t.
Proof.
  intros Hf. unfold on_version. destruct (get_version tenant v t); [|done]. by apply update_row_core.
Qed.

Lemma supersede_core tenant t : map core (supersede tenant t) = map core t.
Proof. apply map_core. intros r. by destruct (_ && _). Qed.

Lemma promote_core now tenant v by_ percent t : map core (promote now tenant v by_ percent t).2 = map core t.
Proof.
  unfold promote. destruct (get_version tenant v t); [|done]. rewrite on_version_core by done.
  destruct (full_rollout percent); [apply supersede_core|done].
Qed.

Lemma auto_rollback_core iso now tenant v reason by_ t :
  map core (auto_rollback iso now tenant v reason by_ t).2 = map core t.
Proof.
  unfold auto_rollback. destruct (get_version tenant v t) as [f|]; [|done]. destruct (negb _); [done|].
  destruct (get_previous_published tenant v t); [|done]. rewrite on_version_core by done.
  rewrite supersede_core. by apply update_row_core.
Qed.

(** ** Histories of the table *)

Inductive version_op :=
| OpDraft (id : string) (now : Q) (tenant : string) (config : stored_config) (by_ : option string)
| OpValidate (now : Q) (tenant : string) (v : Z) (s : string)
| OpApprove (now : Q) (tenant : string) (v : Z) (by_ : option string)
| OpEval (tenant : string) (v : Z) (s : string) (d : list (string * json))
| OpPromote (now : Q) (tenant : string) (v : Z) (by_ : option string) (percent : option Z)
| OpRollback (now : Q) (tenant : string) (v : Z) (reason : string) (by_ : option string).

Definition run_op (iso : Q -> string) (t : table) (o : version_op) : table :=
  match o with
  | OpDraft id now tenant config by_ => (create_draft id now tenant config by_ t).2
  | OpValidate now tenant v s => (set_validation now tenant v s t).2
  | OpApprove now tenant v by_ => (approve now tenant v by_ t).2
  | OpEval tenant v s d => (set_eval_result tenant v s d t).2
  | OpPromote now tenant v by_ percent => (promote now tenant v by_ percent t).2
  | OpRollback now tenant v reason by_ => (auto_rollback iso now tenant v reason by_ t).2
  end.

Lemma run_op_core iso t o : exists added, map core (run_op iso t o) = map core t ++ added.
Proof.
  destruct o; cbn [run_op].
  - eexists. unfold create_draft. cbn [snd]. by rewrite map_app.
  - exists []. rewrite app_nil_r. by apply on_version_core.
  - exists []. rewrite app_nil_r. by apply on_version_core.
  - exists []. rewrite app_nil_r. by apply on_version_core.
  - exists []. rewrite app_nil_r. apply promote_core.
  - exists []. rewrite app_nil_r. apply auto_rollback_core.
Qed.

Lemma max_seq n : max_or_zero (map Z.of_nat (seq 1 n)) = Z.of_nat n.
Proof.
  assert (forall a, max_or_zero (map Z.of_nat (seq a n)) = if (n =? 0)%nat then 0 else Z.of_nat (a + n - 1)) as H.
  { unfold max_or_zero. induction n as [|n IH]; intros a; [done|]. cbn [seq map foldr]. rewrite IH.
    cbn [Nat.eqb]. destruct (Nat.eqb_spec n 0); lia. }
  rewrite H. destruct (Nat.eqb_spec n 0); lia.
Qed.

Lemma draft_numbered id now tenant config by_ t :
  numbered t -> numbered (create_draft id now tenant config by_ t).2.
Proof.
  intros Hn tenant'. destruct (Hn tenant') as [n Hl]. unfold create_draft, versions_of in *. cbn [snd].
  rewrite List.filter_app, map_app, Hl. cbn [List.filter of_tenant cv_tenant_id].
  unfold of_tenant. cbn [cv_tenant_id]. case_bool_decide as Ht; cbn [map version].
  - subst. exists (S n). unfold next_version. rewrite Hl, max_seq. rewrite seq_S, map_app. cbn [map].
    by replace (Z.of_nat n + 1) with (Z.of_nat (1 + n)) by lia.
  - exists n. by rewrite app_nil_r.
Qed.

Lemma run_op_numbered iso t o : numbered t -> numbered (run_op iso t o).
Proof.
  intros Hn. destruct o; cbn [run_op]; [by apply draft_numbered|..]; eapply numbered_core; try exact Hn; symmetry.
  - by apply on_version_core.
  - by apply on_version_core.
  - by apply on_version_core.
  - apply promote_core.
  - apply auto_rollback_core.
Qed.

(** ** Properties *)

(** the versions of a tenant are immutable and numbered without gaps: over
    any history rows are only added, what a version was created with (its
    configuration among it) never changes, and the versions of each tenant
    are 1, 2, 3, ... *)
Theorem versions_append_only iso ops t :
  numbered t ->
  numbered (foldl (run_op iso) t ops) /\
  exists added, map core (foldl (run_op iso) t ops) = map core t ++ added.
Proof.
  revert t. induction ops as [|o ops IH]; intros t Hn.
  - split; [done|]. exists []. by rewrite app_nil_r.
  - cbn [foldl]. destruct (IH (run_op iso t o)) as [H1 (a & H2)]; [by apply run_op_numbered|]. split; [done|].
    destruct (run_op_core iso t o) as [b Hb]. exists (b ++ a). by rewrite H2, Hb, <- app_assoc.
Qed.

(** *** What a promotion does to the rows *)

(** The end of a promotion, in full or not, and of a rollback. *)
Definition rollout (now : Q) (tenant : string) (v : Z) (by_ : ConfigVersion -> option string) (percent : option Z)
    (t : table) : option ConfigVersion * table :=
  on_version tenant v (fun r => put_published now (by_ r) (if full_rollout percent then None else percent) r)
    (if full_rollout percent then supersede tenant t else t).

(** The row it leaves for [y]. *)
Definition promoted (now : Q) (tenant : string) (v : Z) (by_ : ConfigVersion -> option string) (percent : option Z)
    (y : ConfigVersion) : ConfigVersion :=
  let y := if full_rollout percent && (of_tenant tenant y && has_status STATUS_PUBLISHED y)
           then set_status STATUS_SUPERSEDED y else y in
  if is_version tenant v y then put_published now (by_ y) (if full_rollout percent then None else percent) y else y.

Lemma promoted_core now tenant v by_ percent y : core (promoted now tenant v by_ percent y) = core y.
Proof. unfold promoted. destruct (full_rollout percent && _); by destruct (is_version _ _ _). Qed.

Lemma rollout_rows now tenant v by_ percent t r t' :
  rollout now tenant v by_ percent t = (Some r, t') ->
  t' = map (promoted now tenant v by_ percent) t /\ r ∈ t' /\ cv_tenant_id r = tenant /\ version r = v /\
  status r = STATUS_PUBLISHED /\ canary_percent r = (if full_rollout percent then None else percent).
Proof.
  unfold rollout, on_version. destruct (get_version tenant v _) as [r1|] eqn:E1; [|done]. intros [= <- <-].
  match goal with |- ?l = _ /\ _ => assert (l = map (promoted now tenant v by_ percent) t) as Ht end.
  { unfold update_row, promoted. destruct (full_rollout percent); cbn [andb]; [|done].
    unfold supersede. rewrite map_map. apply map_ext. done. }
  split; [done|]. destruct (get_version_spec _ _ _ _ E1) as (Hin & Ht1 & Hv1). split; [|done].
  apply list_elem_of_fmap. exists r1. split; [|done].
  unfold is_version. by rewrite Ht1, bool_decide_eq_true_2, Hv1, Z.eqb_refl by done.
Qed.

Lemma promote_rollout now tenant v by_ percent t r t' :
  promote now tenant v by_ percent t = (Some r, t') -> rollout now tenant v (fun _ => by_) percent t = (Some r, t').
Proof. unfold promote. by destruct (get_version tenant v t). Qed.

Lemma rollout_core now tenant v by_ percent t : map core (rollout now tenant v by_ percent t).2 = map core t.
Proof.
  unfold rollout. rewrite on_version_core by done. destruct (full_rollout percent); [apply supersede_core|done].
Qed.

Lemma rollout_numbered now tenant v by_ percent t r t' :
  rollout now tenant v by_ percent t = (Some r, t') -> numbered t -> numbered t'.
Proof.
  intros H. apply numbered_core. pose proof (rollout_core now tenant v by_ percent t) as Hc. by rewrite H in Hc.
Qed.

(** The rows of other tenants, and the other rows of this one. *)
Lemma promoted_other now tenant v by_ percent y :
  cv_tenant_id y <> tenant -> promoted now tenant v by_ percent y = y.
Proof.
  intros Hy. unfold promoted, of_tenant. rewrite bool_decide_eq_false_2 by done. rewrite !andb_false_r.
  unfold is_version. by rewrite bool_decide_eq_false_2 by done.
Qed.

Lemma newest_unmoved p (g : ConfigVersion -> ConfigVersion) t :
  (forall y, p (g y) = p y) -> (forall y, p y = true -> g y = y) -> newest p (map g t) = newest p t.
Proof.
  intros Hp Hg. induction t as [|y t IH]; [done|]. cbn [map newest]. rewrite IH, Hp.
  destruct (newest p t) as [r|], (p y) eqn:Ey; cbn [andb]; by rewrite ?(Hg y Ey).
Qed.

(** What another tenant's rows say does not change. *)
Lemma promoted_newest p now other tenant v by_ percent t :
  other <> tenant -> (forall y, of_tenant other y = false -> p y = false) ->
  newest p (map (promoted now tenant v by_ percent) t) = newest p t.
Proof.
  intros Ho Hp.
  assert (forall y, p y = true -> cv_tenant_id y <> tenant) as Hpt.
  { intros y Hy Et. rewrite Hp in Hy; [done|]. apply bool_decide_eq_false. congruence. }
  apply newest_unmoved.
  - intros y. destruct (decide (cv_tenant_id y = tenant)) as [Hy|Hy]; [|by rewrite promoted_other].
    destruct (core_tenant _ _ (promoted_core now tenant v by_ percent y)) as [Ht _].
    rewrite !Hp; [done|apply bool_decide_eq_false; congruence..].
  - intros y Hy. apply promoted_other. auto.
Qed.

Section effective.
Context (digest : string -> Z * Z).
Abbreviation get_effective := (get_effective digest).

Lemma full_rollout_serves now tenant v by_ percent t r t' :
  numbered t -> full_rollout percent = true -> rollout now tenant v by_ percent t = (Some r, t') ->
  version r = v /\
  (forall key, get_effective tenant key t' = Some r) /\
  (forall other key, other <> tenant -> get_effective other key t' = get_effective other key t).
Proof.
  intros Hn Hf Hp. pose proof (rollout_numbered _ _ _ _ _ _ _ _ Hp Hn) as Hn'.
  apply rollout_rows in Hp as (-> & Hin & Ht & Hv & Hs & Hpc). rewrite Hf in Hpc. split; [done|]. split.
  - intros key. unfold ConfigVersions.get_effective.
    assert (get_latest_published tenant (map (promoted now tenant v by_ percent) t) = Some r) as ->;
      [|by rewrite Hpc].
    apply (newest_is _ _ tenant); [done| |done| |].
    + intros x [Hx _]%andb_true_iff. by apply bool_decide_eq_true in Hx.
    + unfold of_tenant, has_status. by rewrite Ht, Hs, !bool_decide_eq_true_2 by done.
    + intros x (y & -> & _)%list_elem_of_fmap Hx. rewrite Hv. revert Hx. unfold promoted. rewrite Hf. cbn [andb].
      destruct (of_tenant tenant y && has_status STATUS_PUBLISHED y) eqn:Ey.
      * destruct (is_version tenant v (set_status STATUS_SUPERSEDED y)) eqn:Ev.
        { apply andb_true_iff in Ev as [_ Ev]. apply Z.eqb_eq in Ev. intros _. cbn in *. lia. }
        by rewrite andb_false_r.
      * destruct (is_version tenant v y) eqn:Ev; [|congruence].
        apply andb_true_iff in Ev as [_ Ev]. apply Z.eqb_eq in Ev. intros _. cbn. lia.
  - intros other key Ho. unfold ConfigVersions.get_effective, get_latest_published, get_previous_published.
    rewrite (promoted_newest _ _ other) by (done || (intros y Hy; by rewrite Hy)).
    destruct (newest _ t) as [l|]; [|done]. destruct (full_rollout (canary_percent l)); [done|].
    by rewrite (promoted_newest _ _ other) by (done || (intros y Hy; by rewrite Hy)).
Qed.

(** publishing a version in full makes it the configuration of every request
    of the tenant, whatever was published before, and leaves what the other
    tenants are served as it was. *)
Theorem full_publish_serves now tenant v by_ percent t r t' :
  numbered t -> full_rollout percent = true -> promote now tenant v by_ percent t = (Some r, t') ->
  version r = v /\
  (forall key, get_effective tenant key t' = Some r) /\
  (forall other key, other <> tenant -> get_effective other key t' = get_effective other key t).
Proof. intros Hn Hf Hp%promote_rollout. by eapply full_rollout_serves. Qed.

(** Whoever was live and is not the version at hand. *)
Lemma live_of_tenant (tenant : string) (q : ConfigVersion -> bool) x :
  of_tenant tenant x && q x = true -> cv_tenant_id x = tenant.
Proof. intros [Hx _]%andb_true_iff. by apply bool_decide_eq_true in Hx. Qed.

(** C28: a canary splits the requests: when the version published in full is also
    the newest that was ever live, publishing a later one for a percentage
    serves it to the keys of the canary's buckets, and to requests without a
    key, and the version that was live before to all others. *)
Theorem canary_splits now tenant v by_ p t base r t' :
  numbered t -> 0 <= p < 100 ->
  get_latest_published tenant t = Some base ->
  (forall x, x ∈ t -> cv_tenant_id x = tenant -> was_live x = true -> version x <= version base) ->
  version base < v -> promote now tenant v by_ (Some p) t = (Some r, t') ->
  version r = v /\
  forall key, get_effective tenant key t' =
    if truthy_opt key && negb (canary_bucket digest key (Some p)) then Some base else Some r.
Proof.
  intros Hn Hp Hb Hlive Hv Hpr%promote_rollout. assert (full_rollout (Some p) = false) as Hf by (cbn; lia).
  pose proof (rollout_numbered _ _ _ _ _ _ _ _ Hpr Hn) as Hn'.
  apply rollout_rows in Hpr as (-> & Hin & Ht & Hvr & Hs & Hpc). rewrite Hf in Hpc. split; [done|].
  pose proof (newest_spec (fun r => of_tenant tenant r && has_status STATUS_PUBLISHED r) t) as Hnew.
  unfold get_latest_published in Hb. rewrite Hb in Hnew. destruct Hnew as (Hbin & Hbp & _).
  pose proof (live_of_tenant _ _ _ Hbp) as Hbt. apply andb_true_iff in Hbp as [_ Hbs].
  apply bool_decide_eq_true in Hbs.
  set (g := promoted now tenant v (fun _ => by_) (Some p)) in *.
  assert (Hg : forall y, g y = if is_version tenant v y then put_published now by_ (Some p) y else y).
  { intros y. subst g. unfold promoted. by rewrite Hf. }
  assert (Hother : forall y, is_version tenant v y = false -> g y = y) by (intros y Hy; by rewrite Hg, Hy).
  assert (Hbase : is_version tenant v base = false).
  { apply andb_false_iff. right. apply Z.eqb_neq. lia. }
  assert (Hbin' : base ∈ map g t) by (apply list_elem_of_fmap; exists base; by rewrite Hother).
  assert (Hlatest : get_latest_published tenant (map g t) = Some r).
  { apply (newest_is _ _ tenant); [done|by apply live_of_tenant|done| |].
    - unfold of_tenant, has_status. by rewrite Ht, Hs, !bool_decide_eq_true_2 by done.
    - intros x (y & -> & Hy)%list_elem_of_fmap. rewrite Hg, Hvr. destruct (is_version tenant v y) eqn:Ev.
      + apply andb_true_iff in Ev as [_ Ev]. apply Z.eqb_eq in Ev. intros _. cbn. lia.
      + intros Hx. assert (version y <= version base); [|lia]. apply Hlive; [done|by eapply live_of_tenant|].
        apply andb_true_iff in Hx as [_ Hx]. apply bool_decide_eq_true in Hx.
        unfold was_live. rewrite Hx. by apply bool_decide_eq_true_2; left. }
  assert (Hprev : get_previous_published tenant v (map g t) = Some base).
  { apply (newest_is _ _ tenant); [done|intros x [Hx _]%andb_true_iff; by eapply live_of_tenant|done| |].
    - unfold of_tenant, was_live. rewrite Hbt, Hbs, !bool_decide_eq_true_2 by (done || by left). cbn. lia.
    - intros x (y & -> & Hy)%list_elem_of_fmap. rewrite Hg. destruct (is_version tenant v y) eqn:Ev.
      + apply andb_true_iff in Ev as [_ Ev]. cbn [version put_published]. by rewrite Ev, andb_false_r.
      + intros [Hx _]%andb_true_iff. apply Hlive; [done|by eapply live_of_tenant|].
        by apply andb_true_iff in Hx as [_ Hx]. }
  intros key. unfold ConfigVersions.get_effective. rewrite Hlatest, Hpc, Hf, Hvr, Hprev. done.
Qed.

(** *** Rolling back *)

Lemma auto_rollback_rollout iso now tenant v reason by_ t r t' :
  auto_rollback iso now tenant v reason by_ t = (Some r, t') ->
  exists f previous t1,
    get_version tenant v t = Some f /\ status f = STATUS_PUBLISHED /\
    get_previous_published tenant v t = Some previous /\ map core t1 = map core t /\
    t1 = update_row tenant v (fun r => put_eval (eval_status r) (Some (regression_details iso now reason r))
                                         (put_validation "regressed" (validated_at r) r)) t /\
    rollout now tenant (version previous) (fun r => if truthy_opt by_ then by_ else promoted_by r) None t1
    = (Some r, t').
Proof.
  unfold auto_rollback. destruct (get_version tenant v t) as [f|] eqn:Ef; [|done].
  destruct (has_status STATUS_PUBLISHED f) eqn:Es; [|done]. apply bool_decide_eq_true in Es. cbn [negb].
  destruct (get_previous_published tenant v t) as [previous|] eqn:Ep; [|done]. intros H.
  eexists f, previous, _. split_and!; [done..| |done|exact H]. by apply update_row_core.
Qed.

(** a rollback that returns serves one version to every request of the
    tenant, a version that was live and is not the one rolled back, and marks
    that one so that the publishing gate refuses it. *)
Theorem rollback_restores iso now tenant v reason by_ t r t' :
  numbered t -> auto_rollback iso now tenant v reason by_ t = (Some r, t') ->
  version r <> v /\ get_version tenant (version r) t <> None /\
  (forall key, get_effective tenant key t' = Some r) /\
  exists f, get_version tenant v t' = Some f /\ status f = STATUS_SUPERSEDED /\
    (promotion_gate (validation_status f) (eval_status f)).1 = false.
Proof.
  intros Hn Hr. apply auto_rollback_rollout in Hr as (f & previous & t1 & Hf & Hfs & Hprev & Hcore & -> & Hroll).
  assert (numbered (update_row tenant v (fun r => put_eval (eval_status r) (Some (regression_details iso now reason r))
                                         (put_validation "regressed" (validated_at r) r)) t)) as Hn1
    by (by eapply numbered_core; [symmetry; exact Hcore|]).
  pose proof (full_rollout_serves now tenant _ _ None _ r t' Hn1 eq_refl Hroll) as (Hv & Hserve & _).
  pose proof (newest_spec (fun r => of_tenant tenant r && was_live r && negb (version r =? v)) t) as Hnew.
  unfold get_previous_published in Hprev. rewrite Hprev in Hnew. destruct Hnew as (Hpin & Hpp & _).
  apply andb_true_iff in Hpp as [Hpp Hpv]. apply negb_true_iff, Z.eqb_neq in Hpv. pose proof (live_of_tenant _ _ _ Hpp) as Hpt.
  destruct (get_version_spec _ _ _ _ Hf) as (Hfin & Hft & Hfv).
  split; [congruence|]. split; [by rewrite (get_version_in tenant (version r) t previous)|]. split; [done|].
  pose proof (rollout_numbered _ _ _ _ _ _ _ _ Hroll Hn1) as Hn'.
  apply rollout_rows in Hroll as (-> & _).
  set (f1 := put_eval (eval_status f) (Some (regression_details iso now reason f)) (put_validation "regressed" (validated_at f) f)).
  exists (set_status STATUS_SUPERSEDED f1). split; [|done].
  apply get_version_in; [done| |done|done]. unfold update_row. rewrite map_map. apply list_elem_of_fmap.
  exists f. split; [|done].
  assert (is_version tenant v f = true) as -> by (unfold is_version; by rewrite Hft, bool_decide_eq_true_2, Hfv, Z.eqb_refl by done).
  fold f1. unfold promoted. cbn [full_rollout andb].
  assert (of_tenant tenant f1 && has_status STATUS_PUBLISHED f1 = true) as ->.
  { unfold of_tenant, has_status. cbn. by rewrite Hft, Hfs, !bool_decide_eq_true_2 by done. }
  assert (is_version tenant (version previous) (set_status STATUS_SUPERSEDED f1) = false) as ->; [|done].
  apply andb_false_iff. right. apply Z.eqb_neq. cbn. lia.
Qed.
End effective.

(** *** The routes *)

Section route_props.
Context (schema_violation : stored_config -> option string) (hash_source : stored_config -> string).

Lemma find_map {A} (q : A -> bool) (g : A -> A) l :
  (forall y, q (g y) = q y) -> List.find q (map g l) = g <$> List.find q l.
Proof. intros Hq. induction l as [|y l IH]; [done|]. cbn [map List.find]. rewrite Hq. by destruct (q y). Qed.

Lemma promote_found now tenant v by_ percent t r :
  get_version tenant v t = Some r -> exists r', (promote now tenant v by_ percent t).1 = Some r'.
Proof.
  intros H. unfold promote. rewrite H. unfold on_version.
  destruct (full_rollout percent); [|rewrite H; by eexists].
  unfold get_version, supersede in *. rewrite find_map, H; [by eexists|].
  intros y. by destruct (of_tenant tenant y && _).
Qed.

Lemma assert_access_pure p tenant (d : desk) :
  assert_tenant_access p (AsUUID tenant) d = (Ret tt, d) \/
  assert_tenant_access p (AsUUID tenant) d = (Raise other_tenant, d).
Proof. unfold assert_tenant_access. destruct (tenant_allowed p (AsUUID tenant)); auto. Qed.

(** a version is published only through the gate: when the route answers, the
    version exists and had neither failed its validation nor its evaluation,
    and when it refuses, nothing has changed. *)
Theorem publish_gated now p tenant v a d :
  match publish_tenant_config_version now p tenant v a d with
  | (Ret resp, d') =>
      vr_version resp = v /\ vr_status resp = STATUS_PUBLISHED /\
      (exists r, get_version tenant v (d_versions d) = Some r /\
         (promotion_gate (validation_status r) (eval_status r)).1 = true) /\
      map core (d_versions d') = map core (d_versions d)
  | (Raise _, d') => d' = d
  end.
Proof.
  unfold publish_tenant_config_version, mbind, io_bind.
  destruct (assert_access_pure p tenant d) as [-> | ->]; [|done]. unfold get_st.
  destruct (promotion_gate _ _) as [[] reason] eqn:Eg; [|done]. destruct (bad_percent a); [done|].
  set (percent := match a with Given p => p | QueryObject => None end). unfold repo.
  pose proof (promote_core now tenant v (Some (key_id p)) percent (d_versions d)) as Hc.
  destruct (promote now tenant v (Some (key_id p)) percent (d_versions d)) as [[r|] t'] eqn:Ep; cbn [snd] in Hc.
  - assert (exists r0, get_version tenant v (d_versions d) = Some r0) as [r0 H0].
    { revert Ep. unfold promote. destruct (get_version tenant v (d_versions d)); [by eauto|done]. }
    apply promote_rollout, rollout_rows in Ep as (_ & _ & _ & Hv & Hs & _). rewrite H0 in Eg. cbn in Eg.
    unfold invalidate, audit, modify, mret, io_ret. destruct (full_rollout percent); cbn;
      (split; [done|]; split; [done|]; split; [|done]; exists r0; split; [done|]; by rewrite Eg).
  - destruct (get_version tenant v (d_versions d)) as [r|] eqn:E0.
    + by destruct (promote_found now tenant v (Some (key_id p)) percent _ r E0) as (r' & Hr'); rewrite Ep in Hr'.
    + unfold promote in Ep. rewrite E0 in Ep. injection Ep as <-. by destruct d.
Qed.

(** the rollback route never rolls back: called as a function, the publishing
    route takes the framework's default object for its percentage and refuses
    it. *)
Theorem rollback_route_refuses now p tenant v d :
  exists code detail, rollback_tenant_config_version now p tenant v d = (Raise (HTTPError code detail), d).
Proof.
  unfold rollback_tenant_config_version, publish_tenant_config_version, mbind, io_bind.
  destruct (assert_access_pure p tenant d) as [-> | ->]; [|by eexists _, _]. unfold get_st.
  by destruct (promotion_gate _ _) as [[] reason]; eexists _, _.
Qed.

End route_props.

(** *** The monitor *)

Section monitor_props.
Context (float_text : Q -> string) (digest : string -> Z * Z) (isoformat : Q -> string).

Lemma active_set tenant r l : active_rollout tenant (dict_set tenant r l) = Some r.
Proof.
  induction l as [|[k r'] l IH]; cbn; [by rewrite decide_True|].
  destruct (decide (k = tenant)) as [->|Hk]; cbn; [by rewrite decide_True|by rewrite decide_False].
Qed.

(** an outcome is counted for the slice its request was served from: while
    the rollout's percentage is the published one, a request with a key adds
    to the canary's counts exactly when the newest published version is what
    it gets, and to the baseline's otherwise. *)
Theorem outcome_attributed tenant key error blocked ms t l r latest base :
  truthy key = true -> active_rollout tenant l = Some r ->
  get_latest_published tenant t = Some latest -> canary_percent latest = Some (ro_percent r) ->
  ro_percent r < 100 -> get_previous_published tenant (version latest) t = Some base ->
  exists r', active_rollout tenant (record_outcome digest tenant (Some key) error blocked ms l) = Some r' /\
    let served := match get_effective digest tenant (Some key) t with
                  | Some row => version row =? version latest
                  | None => false
                  end in
    requests (canary_metrics r') = requests (canary_metrics r) + (if served then 1 else 0) /\
    requests (baseline_metrics r') = requests (baseline_metrics r) + (if served then 0 else 1).
Proof.
  intros Hk Ha Hl Hp Hlt Hb. unfold record_outcome. rewrite Ha. eexists. split; [apply active_set|].
  pose proof (newest_spec (fun x => of_tenant tenant x && was_live x && negb (version x =? version latest)) t) as Hnew.
  unfold get_previous_published in Hb. unfold get_effective. rewrite Hl, Hp. cbn [full_rollout].
  replace (100 <=? ro_percent r) with false by lia. cbn [truthy_opt]. rewrite Hk. unfold get_previous_published. rewrite Hb in *.
  destruct Hnew as (_ & Hne & _). apply andb_true_iff in Hne as [_ Hne]. apply negb_true_iff in Hne.
  destruct (canary_bucket digest (Some key) (Some (ro_percent r))); cbn [andb negb].
  - rewrite Z.eqb_refl. cbn. lia.
  - rewrite Hne. cbn. lia.
Qed.

Definition regressed (kr : string * CanaryRollout) : bool :=
  match evaluate float_text kr.2 with Some _ => true | None => false end.

Lemma filter_twice {A} (f g : A -> bool) l : List.filter f (List.filter g l) = List.filter (fun x => g x && f x) l.
Proof.
  induction l as [|x l IH]; [done|]. cbn [List.filter]. destruct (g x); cbn [List.filter andb]; [|done].
  by rewrite IH.
Qed.

Lemma evaluate_each_rollouts now up todo l t :
  (evaluate_each float_text isoformat now up todo (l, t)).1
  = List.filter (fun kr => negb (existsb (fun kr' => bool_decide (kr'.1 = kr.1) && regressed kr') todo)) l.
Proof.
  revert l t. induction todo as [|[k r] todo IH]; intros l t; cbn [evaluate_each existsb].
  { symmetry. apply filter_all. done. }
  destruct (evaluate float_text r) as [reason|] eqn:E.
  - rewrite IH. unfold end_canary. rewrite filter_twice. apply filter_ext. intros [k' r']. cbn.
    unfold regressed at 2. cbn. rewrite E, andb_true_r.
    destruct (decide (k = k')) as [->|Hk].
    + by rewrite !bool_decide_eq_true_2.
    + by rewrite !bool_decide_eq_false_2 by congruence.
  - rewrite IH. apply filter_ext. intros [k' r']. cbn. unfold regressed at 2. cbn. by rewrite E, andb_false_r.
Qed.

Lemma existsb_own {B} (f : string * B -> bool) l kr :
  NoDup l.*1 -> kr ∈ l -> existsb (fun kr' => bool_decide (kr'.1 = kr.1) && f kr') l = f kr.
Proof.
  intros Hn Hin. destruct (f kr) eqn:Ef.
  - apply existsb_exists. exists kr. split; [by apply list_elem_of_In|]. by rewrite bool_decide_eq_true_2, Ef.
  - apply not_true_iff_false. intros ([k b] & Hb & H)%existsb_exists. apply andb_true_iff in H as [Hk Hf].
    apply bool_decide_eq_true in Hk. destruct kr as [k' b']. cbn in Hk. subst k'.
    apply list_elem_of_In in Hb. rewrite (NoDup_fst_inj l k b b') in Hf by done. congruence.
Qed.

(** one pass of the monitor ends exactly the rollouts that regressed and
    keeps the others, whether or not the database answers. *)
Theorem monitor_pass now up l t :
  NoDup l.*1 ->
  (handle_canary_evaluate float_text isoformat now up (l, t)).1 = List.filter (fun kr => negb (regressed kr)) l.
Proof.
  intros Hn. unfold handle_canary_evaluate. cbn [fst]. rewrite evaluate_each_rollouts.
  apply filter_ext_in. intros kr Hkr%list_elem_of_In. f_equal. by apply existsb_own.
Qed.
End monitor_props.

(** ** Examples and witnesses *)

Module Rollouts.
Definition config : stored_config := {|
  sc_id := "t"; sc_name := "T"; sc_slug := "t"; sc_allowed_topics := None; sc_blocked_topics := None;
  sc_escalation_threshold := None; sc_knowledge_allowlist := None; sc_default_provider := None;
  sc_default_model := None; sc_features := None; sc_guardrail_config := None; sc_guardrail_thresholds := None;
  sc_budgets := None; sc_tool_clearing := None; sc_memory := None; sc_stream_window := None |}.
Definition iso (_ : Q) : string := "now".
Definition text (_ : Q) : string := "0.05".

(** Every key falls in bucket 50. *)
Definition middle (_ : string) : Z * Z := (0, 50).

Definition draft : version_op := OpDraft "id" 0 "t" config None.
Definition publish (v : Z) : version_op := OpPromote 1 "t" v None None.
Definition canary (v p : Z) : version_op := OpPromote 1 "t" v None (Some p).
Definition roll_back (v : Z) : version_op := OpRollback 2 "t" v "errors" None.

Definition after (ops : list version_op) : table := foldl (run_op iso) [] ops.
Definition served (ops : list version_op) : option Z := version <$> get_effective middle "t" (Some "user") (after ops).
End Rollouts.

(** Version 2 is rolled back to 1; a canary of version 3 then serves version
    2 again, to all who are not in the canary. *)
Example canary_revives_rolled_back :
  Rollouts.served [Rollouts.draft; Rollouts.publish 1; Rollouts.draft; Rollouts.publish 2; Rollouts.roll_back 2] = Some 1 /\
  Rollouts.served [Rollouts.draft; Rollouts.publish 1; Rollouts.draft; Rollouts.publish 2; Rollouts.roll_back 2;
                   Rollouts.draft; Rollouts.canary 3 10] = Some 2.
Proof. split; vm_compute; reflexivity. Qed.

(** A second canary serves the first to everyone outside its own buckets. *)
Example canary_over_canary :
  Rollouts.served [Rollouts.draft; Rollouts.publish 1; Rollouts.draft; Rollouts.canary 2 10] = Some 1 /\
  Rollouts.served [Rollouts.draft; Rollouts.publish 1; Rollouts.draft; Rollouts.canary 2 10;
                   Rollouts.draft; Rollouts.canary 3 10] = Some 2.
Proof. split; vm_compute; reflexivity. Qed.

(** A canary of an older version is served to no one. *)
Example canary_of_older :
  Rollouts.served [Rollouts.draft; Rollouts.publish 1; Rollouts.draft; Rollouts.publish 2; Rollouts.canary 1 90] = Some 2.
Proof. vm_compute. reflexivity. Qed.

(** Rolling back twice publishes the version that was rolled back first, past
    the gate. *)
Example rollback_ping_pong :
  let t := Rollouts.after [Rollouts.draft; Rollouts.publish 1; Rollouts.draft; Rollouts.publish 2;
                           Rollouts.roll_back 2; Rollouts.roll_back 1] in
  (fun r => (version r, validation_status r)) <$> get_latest_published "t" t = Some (2, Some "regressed").
Proof. vm_compute. reflexivity. Qed.

(** A canary with twice as many errors, while the database is down: the
    rollout ends, and the canary is still published. *)
Definition failing_rollout : CanaryRollout :=
  Nat.iter 60 (record_request true true false 0) (Nat.iter 60 (record_request false false false 0)
    (new_rollout "t" 2 1 60)).

Example rollback_lost :
  let t := Rollouts.after [Rollouts.draft; Rollouts.publish 1; Rollouts.draft; Rollouts.canary 2 60] in
  let s := handle_canary_evaluate Rollouts.text Rollouts.iso 9 (fun _ => false) ([("t", failing_rollout)], t) in
  s.1 = [] /\ version <$> get_effective Rollouts.middle "t" (Some "user") s.2 = Some 2.
Proof. split; vm_compute; reflexivity. Qed.

Lemma numbered_nil : numbered [].
Proof. intros tenant. by exists 0%nat. Qed.

Lemma after_numbered ops : numbered (Rollouts.after ops).
Proof.
  unfold Rollouts.after. assert (forall t, numbered t -> numbered (foldl (run_op Rollouts.iso) t ops)) as H.
  { induction ops as [|o ops IH]; intros t Ht; [done|]. apply IH. by apply run_op_numbered. }
  apply H, numbered_nil.
Qed.

Lemma versions_append_only_witness :
  numbered (foldl (run_op Rollouts.iso) [] [Rollouts.draft; Rollouts.publish 1]).
Proof. apply (versions_append_only Rollouts.iso [Rollouts.draft; Rollouts.publish 1] [] numbered_nil). Defined.

Definition canary_table : table := Rollouts.after [Rollouts.draft; Rollouts.publish 1; Rollouts.draft].

Lemma full_publish_serves_witness :
  exists r t', promote 1 "t" 2 None None canary_table = (Some r, t') /\
    forall key, get_effective Rollouts.middle "t" key t' = Some r.
Proof.
  destruct (promote 1 "t" 2 None None canary_table) as [[r|] t'] eqn:E; [|by vm_compute in E].
  exists r, t'. split; [done|].
  apply (full_publish_serves Rollouts.middle 1 "t" 2 None None canary_table r t' (after_numbered _) eq_refl E).
Defined.

Lemma canary_splits_witness :
  exists base r t', promote 1 "t" 2 None (Some 10) canary_table = (Some r, t') /\
    get_effective Rollouts.middle "t" (Some "user") t' = Some base /\ get_effective Rollouts.middle "t" None t' = Some r.
Proof.
  destruct (promote 1 "t" 2 None (Some 10) canary_table) as [[r|] t'] eqn:E; [|by vm_compute in E].
  destruct (get_latest_published "t" canary_table) as [base|] eqn:Eb; [|by vm_compute in Eb].
  destruct (canary_splits Rollouts.middle 1 "t" 2 None 10 canary_table base r t') as [_ H]; [exact (after_numbered _)|done|done| | |done|].
  - intros x Hx _ Hl. vm_compute in Eb. injection Eb as <-.
    assert (forallb (fun x => negb (was_live x) || (version x <=? 1)) canary_table = true) as H by (vm_compute; reflexivity).
    rewrite forallb_forall in H. apply list_elem_of_In, H in Hx. rewrite Hl in Hx. cbn in Hx. cbn. lia.
  - vm_compute in Eb. by injection Eb as <-.
  - exists base, r, t'. split; [done|]. by rewrite !H.
Defined.

Lemma rollback_restores_witness :
  exists r t', auto_rollback Rollouts.iso 2 "t" 2 "errors" None (Rollouts.after [Rollouts.draft; Rollouts.publish 1;
    Rollouts.draft; Rollouts.publish 2]) = (Some r, t') /\ forall key, get_effective Rollouts.middle "t" key t' = Some r.
Proof.
  destruct (auto_rollback Rollouts.iso 2 "t" 2 "errors" None _) as [[r|] t'] eqn:E; [|by vm_compute in E].
  exists r, t'. split; [done|].
  apply (rollback_restores Rollouts.middle Rollouts.iso 2 "t" 2 "errors" None _ r t' (after_numbered _) E).
Defined.

Definition split_table : table := Rollouts.after [Rollouts.draft; Rollouts.publish 1; Rollouts.draft; Rollouts.canary 2 10].

Lemma outcome_attributed_witness :
  exists r', active_rollout "t" (record_outcome Rollouts.middle "t" (Some "user") false false 5 [("t", new_rollout "t" 2 1 10)])
    = Some r' /\ requests (baseline_metrics r') = 1.
Proof.
  destruct (get_latest_published "t" split_table) as [latest|] eqn:El; [|by vm_compute in El].
  destruct (get_previous_published "t" (version latest) split_table) as [base|] eqn:Eb.
  - destruct (outcome_attributed Rollouts.middle "t" "user" false false 5 split_table
      [("t", new_rollout "t" 2 1 10)] (new_rollout "t" 2 1 10) latest base) as (r' & H & _ & Hb); try done.
    + by vm_compute in El; injection El as <-.
    + exists r'. split; [done|]. rewrite Hb. vm_compute in El. injection El as <-. by vm_compute.
  - by vm_compute in El; injection El as <-; vm_compute in Eb.
Defined.

Lemma monitor_pass_witness :
  (handle_canary_evaluate Rollouts.text Rollouts.iso 9 (fun _ => true) ([("t", failing_rollout)], split_table)).1 = [].
Proof.
  rewrite (monitor_pass Rollouts.text Rollouts.iso 9 (fun _ => true) [("t", failing_rollout)] split_table).
  - vm_compute. reflexivity.
  - by apply NoDup_singleton.
Defined.
