(* ===== verification/Moderation.v ===== *)
(** * Output checks (application/validation/streaming.py, modules/grounding/service.py)

    The rolling window that holds the deltas of a stream back until they are
    validated, and the lexical check that an answer is grounded in what was
    retrieved.  The validator is a parameter with a state of its own; it may
    raise.  Scores are exact rationals. *)

From S2P Require Import Prelude Json Catalog Context Tenant Governance.

(** ** The moderation window *)

(** What a validator answers. *)
Record verdict := { v_allowed : bool; v_redacted : option string; v_violations : list json }.

Record WindowRelease := {
  wr_text : string;
  released_raw : bool;
  wr_redacted : bool;
  wr_truncated : bool;
  wr_violations : list json;
}.

Record window := { pending : string; truncated : bool }.

Definition new_window : window := {| pending := EmptyString; truncated := false |}.

Definition raw_release (text : string) : WindowRelease := {|
  wr_text := text; released_raw := true; wr_redacted := false; wr_truncated := false; wr_violations := [] |}.

Section window.
Context {S X : Type}.
(** [validator is None] disables the window. *)
Context (validator : option (string -> io S X verdict)) (window_size : Z) (fallback_text : string).

(** The validated window: the result, and whether the stream ends here. *)
Definition release_of (text : string) (r : outcome X verdict) : WindowRelease :=
  match r with
  | Raise _ => raw_release text
  | Ret v =>
      if v_allowed v then
        match v_redacted v with
        | Some t => {| wr_text := t; released_raw := false; wr_redacted := true; wr_truncated := false;
                       wr_violations := [] |}
        | None => raw_release text
        end
      else {| wr_text := fallback_text; released_raw := false; wr_redacted := false; wr_truncated := true;
              wr_violations := v_violations v |}
  end.

Definition _validate_window (validate : string -> io S X verdict) (w : window) (s : S) :
    WindowRelease * window * S :=
  let '(r, s) := validate (pending w) s in
  let rel := release_of (pending w) r in
  (rel, {| pending := EmptyString; truncated := truncated w || wr_truncated rel |}, s).

Definition push (chunk : string) (w : window) (s : S) : option WindowRelease * window * S :=
  if truncated w then (None, w, s)
  else
    match validator with
    | None => (Some (raw_release chunk), w, s)
    | Some validate =>
        let w := {| pending := pending w +:+ chunk; truncated := truncated w |} in
        if Z.of_nat (String.length (pending w)) <? window_size then (None, w, s)
        else let '(r, w, s) := _validate_window validate w s in (Some r, w, s)
    end.

Definition finish (w : window) (s : S) : option WindowRelease * window * S :=
  if truncated w || negb (truthy (pending w)) then (None, w, s)
  else
    match validator with
    | None => (None, w, s)
    | Some validate => let '(r, w, s) := _validate_window validate w s in (Some r, w, s)
    end.

(** A stream whose chunks are pushed one after the other, then finished. *)
Fixpoint push_all (chunks : list string) (w : window) (s : S) : list WindowRelease * window * S :=
  match chunks with
  | [] => ([], w, s)
  | c :: cs =>
      let '(r, w, s) := push c w s in
      let '(rs, w, s) := push_all cs w s in
      (option_list r ++ rs, w, s)
  end.

Definition run_window (chunks : list string) (s : S) : list WindowRelease * window * S :=
  let '(rs, w, s) := push_all chunks new_window s in
  let '(r, w, s) := finish w s in
  (rs ++ option_list r, w, s).
End window.

(** ** Faithfulness *)

Definition _STOPWORDS : gset string := list_to_set [
  "a"; "an"; "the"; "and"; "or"; "but"; "if"; "then"; "else"; "when"; "while"; "of"; "to"; "in"; "on"; "at";
  "by"; "for"; "with"; "from"; "as"; "is"; "are"; "was"; "were"; "be"; "been"; "being"; "do"; "does"; "did";
  "have"; "has"; "had"; "having"; "it"; "its"; "this"; "that"; "these"; "those"; "i"; "you"; "he"; "she";
  "we"; "they"; "me"; "him"; "her"; "us"; "them"; "my"; "your"; "our"; "their"; "what"; "which"; "who";
  "whom"; "how"; "why"; "not"; "no"; "yes"; "so"; "just"; "very"; "can"; "could"; "would"; "should"; "may";
  "might"; "will"; "shall"; "about"; "into"; "over"; "under"; "again"; "further"; "once"; "here"; "there";
  "all"; "any"; "both"; "each"; "few"; "more"; "most"; "other"; "some"; "such"; "only"; "own"; "same";
  "than"; "too"; "s"; "t"; "don"; "now"].

(** [[a-z0-9']] *)
Definition is_word_char (a : ascii) : bool :=
  let n := Ascii.nat_of_ascii a in
  ((97 <=? n) && (n <=? 122) || (48 <=? n) && (n <=? 57) || (n =? 39))%nat.

(** [re.findall(r"[a-z0-9']+", s)]; [acc] is the word being read. *)
Fixpoint words_from (acc s : string) : list string :=
  let done := if truthy acc then [acc] else [] in
  match s with
  | EmptyString => done
  | String a s => if is_word_char a then words_from (acc +:+ String a EmptyString) s else done ++ words_from EmptyString s
  end.

Definition _tokens (text : string) : gset string :=
  list_to_set (List.filter (fun w => negb (bool_decide (w ∈ _STOPWORDS)) && (1 <? String.length w)%nat)
    (words_from EmptyString (lower text))).

Record FaithfulnessResult := {
  fr_score : Q;
  grounded : bool;
  source_count : Z;
  fr_matches : list string;
  checked : bool;
}.

Definition unchecked (n : nat) : FaithfulnessResult :=
  {| fr_score := 0; grounded := false; source_count := Z.of_nat n; fr_matches := []; checked := false |}.

Section faithfulness.
Context (threshold : Q) (max_matches : nat).

Definition overlap_score (response source : gset string) : Q :=
  (inject_Z (Z.of_nat (size (response ∩ source))) / inject_Z (Z.of_nat (size response)))%Q.

(** The best score with the tokens that gave it. *)
Fixpoint best_overlap (response : gset string) (sources : list string) (best : Q) (found : gset string) :
    Q * gset string :=
  match sources with
  | [] => (best, found)
  | c :: cs =>
      let source := _tokens c in
      if decide (source = ∅) then best_overlap response cs best found
      else if best <?q overlap_score response source
           then best_overlap response cs (overlap_score response source) (response ∩ source)
           else best_overlap response cs best found
  end.

(** [check] on texts; a source that has no text is dropped. *)
Definition check (response : string) (sources : list (option string)) : FaithfulnessResult :=
  let contents := List.filter truthy (omap id sources) in
  if negb (truthy response) || bool_decide (contents = []) then unchecked (length contents)
  else
    let tokens := _tokens response in
    if decide (tokens = ∅) then unchecked (length contents)
    else
      let '(best, found) := best_overlap tokens contents 0 ∅ in
      {| fr_score := (inject_Z (round_half_even (best * 10000)) / 10000)%Q;
         grounded := threshold <=?q best;
         source_count := Z.of_nat (length contents);
         fr_matches := take max_matches (sort_by string_leb (elements found));
         checked := true |}.
End faithfulness.

Definition FaithfulnessChecker_check := check (12 # 100) 8.

(** ** What the window lets through *)

Definition joined (l : list string) : string := foldr String.append EmptyString l.

Lemma joined_app l l' : joined (l ++ l') = joined l +:+ joined l'.
Proof.
  induction l as [|x l IH]; [done|]. change (x +:+ joined (l ++ l') = (x +:+ joined l) +:+ joined l').
  by rewrite IH, string_app_assoc.
Qed.

Lemma joined_snoc l x : joined (l ++ [x]) = joined l +:+ x.
Proof. rewrite joined_app. change (joined [x]) with (x +:+ EmptyString). by rewrite string_app_nil_r. Qed.

Section window_lemmas.
Context {S X : Type} (validate : string -> io S X verdict) (window_size : Z) (fallback : string).

Abbreviation push := (push (Some validate) window_size fallback).
Abbreviation push_all := (push_all (Some validate) window_size fallback).
Abbreviation finish := (finish (Some validate) fallback).

(** A text the validator saw, and what was released for it. *)
Definition validated (text : string) (r : WindowRelease) : Prop :=
  exists s, r = release_of fallback text (validate text s).1.

Definition full (text : string) : Prop := window_size <= Z.of_nat (String.length text).

(** The texts validated so far, and what is still pending. *)
Record passed (chunks texts : list string) (rs : list WindowRelease) (w : window) : Prop := {
  passed_validated : Forall2 validated texts rs;
  passed_all : truncated w = false ->
    joined chunks = joined texts +:+ pending w /\ Forall (fun r => wr_truncated r = false) rs;
  passed_stop : truncated w = true ->
    exists rest rs0 r, joined chunks = joined texts +:+ rest /\ rs = rs0 ++ [r] /\ wr_truncated r = true
      /\ Forall (fun r => wr_truncated r = false) rs0;
}.

Lemma validate_passed chunks texts rs w s r w' s' : truncated w = false -> passed chunks texts rs w ->
  _validate_window fallback validate w s = (r, w', s') -> passed chunks (texts ++ [pending w]) (rs ++ [r]) w'.
Proof.
  intros Ht [H1 H2 H3] E. destruct (H2 Ht) as [Hj Hf]. unfold _validate_window in E.
  destruct (validate (pending w) s) as [o s2] eqn:Ev. injection E as <- <- <-.
  assert (Hjoin : joined chunks = joined (texts ++ [pending w]) +:+ EmptyString).
  { by rewrite joined_snoc, Hj, string_app_nil_r. }
  split.
  - apply Forall2_app; [done|]. constructor; [|constructor]. exists s. by rewrite Ev.
  - cbn [truncated pending]. rewrite Ht. cbn [orb]. intros Hr. split; [done|].
    apply Forall_app. by rewrite Forall_singleton.
  - cbn [truncated]. rewrite Ht. cbn [orb]. intros Hr. by eexists EmptyString, rs, _.
Qed.

Lemma push_passed chunks texts rs w s c r w' s' : passed chunks texts rs w ->
  Forall full texts -> push c w s = (r, w', s') ->
  exists texts', passed (chunks ++ [c]) texts' (rs ++ option_list r) w' /\ Forall full texts'.
Proof.
  intros Hp Hfull. unfold Moderation.push. destruct (truncated w) eqn:Ht.
  - intros [= <- <- <-]. exists texts. cbn [option_list]. rewrite app_nil_r. split; [|done].
    destruct Hp as [H1 H2 H3]. split; [done|congruence|]. intros _.
    destruct (H3 Ht) as (rest & rs0 & r & Hj & Hrest). exists (rest +:+ c), rs0, r.
    split; [|done]. by rewrite joined_snoc, Hj, string_app_assoc.
  - set (w1 := {| pending := pending w +:+ c; truncated := false |}).
    assert (Hp1 : passed (chunks ++ [c]) texts rs w1).
    { destruct Hp as [H1 H2 H3]. destruct (H2 Ht) as [Hj Hf]. split; [done| |done]. intros _. split; [|done].
      by rewrite joined_snoc, Hj, string_app_assoc. }
    destruct (_ <? _) eqn:El.
    + intros [= <- <- <-]. exists texts. by rewrite app_nil_r.
    + destruct (_validate_window _ _ w1 s) as [[r1 w2] s2] eqn:Ev. intros [= <- <- <-].
      exists (texts ++ [pending w1]). split; [by eapply validate_passed|].
      apply Forall_app. split; [done|]. rewrite Forall_singleton. unfold full. to_prop. done.
Qed.

Lemma push_all_passed cs : forall chunks texts rs w s rs' w' s', passed chunks texts rs w -> Forall full texts ->
  push_all cs w s = (rs', w', s') ->
  exists texts', passed (chunks ++ cs) texts' (rs ++ rs') w' /\ Forall full texts'.
Proof.
  induction cs as [|c cs IH]; intros chunks texts rs w s rs' w' s' Hp Hf; cbn [Moderation.push_all].
  - intros [= <- <- <-]. exists texts. by rewrite !app_nil_r.
  - destruct (push c w s) as [[r w1] s1] eqn:Ep. destruct (push_all cs w1 s1) as [[rs2 w2] s2] eqn:Ea.
    intros [= <- <- <-]. destruct (push_passed _ _ _ _ _ _ _ _ _ Hp Hf Ep) as (texts1 & Hp1 & Hf1).
    destruct (IH _ _ _ _ _ _ _ _ Hp1 Hf1 Ea) as (texts2 & Hp2 & Hf2). exists texts2.
    by rewrite <- !(assoc_L (++)) in Hp2.
Qed.
End window_lemmas.

(** With a validator, what a stream lets through is what the validator answered
    for consecutive texts of it, none skipped, repeated or reordered: the whole
    stream unless it is cut, and a prefix of it, ending at the refused window,
    when it is.  Every window but the last holds at least [window_size]
    characters. *)
Theorem window_releases {S X} (validate : string -> io S X verdict) (window_size : Z) (fallback : string)
    (chunks : list string) (s : S) :
  match run_window (Some validate) window_size fallback chunks s with
  | (rs, w, _) =>
      exists texts rest,
        Forall2 (validated validate fallback) texts rs
        /\ joined chunks = joined texts +:+ rest
        /\ Forall (full window_size) (removelast texts)
        /\ Forall (fun r => wr_truncated r = false) (removelast rs)
        /\ truncated w = existsb wr_truncated rs
        /\ (truncated w = false -> rest = EmptyString)
  end.
Proof.
  unfold run_window. destruct (push_all _ _ _ chunks new_window s) as [[rs w] s1] eqn:Ep.
  assert (H0 : passed validate fallback [] [] [] new_window) by (split; [constructor|by split|done]).
  destruct (push_all_passed _ _ _ _ [] [] [] _ _ _ _ _ H0 ltac:(constructor) Ep) as (texts & Hp & Hf).
  cbn [app] in Hp. assert (Hlast : forall (A : Type) (P : A -> Prop) l, Forall P l -> Forall P (removelast l)).
  { intros A P l. induction 1 as [|x l Hx Hl IH]; [constructor|]. cbn. destruct l; [constructor|by constructor]. }
  assert (Hno : forall l, Forall (fun r => wr_truncated r = false) l -> existsb wr_truncated l = false).
  { induction 1 as [|x l Hx _ IH]; [done|]. cbn. by rewrite Hx, IH. }
  assert (Hgoal : forall texts rs w, passed validate fallback chunks texts rs w -> Forall (full window_size) (removelast texts) ->
    (truncated w = false -> pending w = EmptyString) -> exists texts rest,
        Forall2 (validated validate fallback) texts rs /\ joined chunks = joined texts +:+ rest
        /\ Forall (full window_size) (removelast texts) /\ Forall (fun r => wr_truncated r = false) (removelast rs)
        /\ truncated w = existsb wr_truncated rs /\ (truncated w = false -> rest = EmptyString)).
  { clear -Hlast Hno. intros texts rs w [H1 H2 H3] Hf Hpend. exists texts. destruct (truncated w) eqn:Ht.
    - destruct (H3 eq_refl) as (rest & rs0 & r & Hj & -> & Hr & Hr0). exists rest.
      split_and!; [done..| | |done]; [by rewrite removelast_last|]. rewrite existsb_app. cbn. by rewrite Hr, orb_true_r.
    - destruct (H2 eq_refl) as [Hj Hfr]. exists EmptyString. rewrite Hpend in Hj by done.
      split_and!; [done..|by apply Hlast|by rewrite Hno|done]. }
  unfold finish. destruct (truncated w) eqn:Ht; cbn [orb].
  - rewrite app_nil_r. apply (Hgoal texts); [done|by apply Hlast|by rewrite Ht].
  - destruct (pending w) eqn:Epd; cbn [truthy negb].
    + rewrite app_nil_r. apply (Hgoal texts); [done|by apply Hlast|done].
    + destruct (_validate_window fallback validate w s1) as [[r w2] s2] eqn:Ev. cbn [option_list].
      apply (Hgoal (texts ++ [pending w])).
      * by eapply validate_passed.
      * by rewrite removelast_last.
      * unfold _validate_window in Ev. destruct (validate _ _). by injection Ev as <- <- <-.
Qed.

(** ** Groundedness *)

Lemma best_overlap_spec response sources best found :
  let r := (best_overlap response sources best found).1 in
  (best <= r)%Q
  /\ (forall c, c ∈ sources -> _tokens c <> ∅ -> (overlap_score response (_tokens c) <= r)%Q)
  /\ (r = best \/ exists c, c ∈ sources /\ r = overlap_score response (_tokens c)).
Proof.
  revert best found. induction sources as [|c sources IH]; intros best found; cbn [best_overlap].
  - split_and!; [apply Qle_refl|by intros c ?%not_elem_of_nil|by left].
  - destruct (decide (_tokens c = ∅)) as [He|He].
    + destruct (IH best found) as (H1 & H2 & H3). split_and!; [done| |].
      * intros c' [->|Hc]%elem_of_cons; [done|by apply H2].
      * destruct H3 as [|(c' & ? & ?)]; [by left|]. right. exists c'. rewrite elem_of_cons. eauto.
    + destruct (best <?q _) eqn:El; q_prop.
      * destruct (IH (overlap_score response (_tokens c)) (response ∩ _tokens c)) as (H1 & H2 & H3). split_and!.
        -- lra.
        -- intros c' [->|Hc]%elem_of_cons ?; [done|by apply H2].
        -- right. destruct H3 as [H3|(c' & ? & ?)]; [exists c|exists c']; rewrite elem_of_cons; eauto.
      * destruct (IH best found) as (H1 & H2 & H3). split_and!; [done| |].
        -- intros c' [->|Hc]%elem_of_cons ?; [|by apply H2]. lra.
        -- destruct H3 as [|(c' & ? & ?)]; [by left|]. right. exists c'. rewrite elem_of_cons. eauto.
Qed.

Lemma overlap_empty response : (overlap_score response ∅ == 0)%Q.
Proof.
  unfold overlap_score. rewrite (right_id_L ∅ (∩)) || rewrite (right_absorb_L ∅ (∩)). rewrite size_empty. cbn.
  unfold Qdiv. by rewrite Qmult_0_l.
Qed.

(** An answer counts as grounded exactly when some retrieved text shares at
    least the threshold's share of the answer's own significant words. *)
Theorem grounded_spec (threshold : Q) (n : nat) (response : string) (sources : list (option string)) :
  (0 < threshold)%Q ->
  grounded (check threshold n response sources) = true
  <-> exists c, Some c ∈ sources /\ _tokens response <> ∅
      /\ (threshold <= overlap_score (_tokens response) (_tokens c))%Q.
Proof.
  intros Hpos. set (contents := List.filter truthy (omap id sources)).
  assert (Hin : forall c, c ∈ contents <-> Some c ∈ sources /\ truthy c = true).
  { intros c. unfold contents. rewrite list_elem_of_In, List.filter_In, <- list_elem_of_In, list_elem_of_omap.
    split; [intros [(x & Hx & Hc) Ht]; unfold id in Hc; by subst|intros [Hc Ht]; by split; [exists (Some c)|]]. }
  assert (Hpast : forall c, (threshold <= overlap_score (_tokens response) (_tokens c))%Q -> _tokens c <> ∅).
  { intros c Hc E. rewrite E, overlap_empty in Hc. lra. }
  assert (Htok : forall c, _tokens c <> ∅ -> truthy c = true) by (by intros []).
  unfold check. fold contents. destruct (truthy response) eqn:Er; cbn [negb orb].
  - case_bool_decide as Ec.
    + split; [done|]. intros (c & Hc & _ & Hs). assert (Hm : c ∈ contents) by (apply Hin; eauto).
      rewrite Ec in Hm. by apply elem_of_nil in Hm.
    + destruct (decide (_tokens response = ∅)) as [Et|Et]; [split; [done|naive_solver]|].
      destruct (best_overlap _ contents 0 ∅) as [best found] eqn:Eb.
      pose proof (best_overlap_spec (_tokens response) contents 0 ∅) as (H0 & H1 & H2). rewrite Eb in *. cbn [fst grounded] in *.
      rewrite Qle_bool_iff. split.
      * intros Hle. destruct H2 as [->|(c & Hc & ->)]; [lra|]. exists c. apply Hin in Hc as [Hc _]. eauto.
      * intros (c & Hc & _ & Hs). apply (Qle_trans _ _ _ Hs). apply H1; [apply Hin|]; eauto.
  - split; [done|]. intros (c & _ & Ht & _). by destruct response.
Qed.

(** The window is checked text by text: a phrase cut by a window's end is
    never seen whole, and leaves. *)
Definition no_secret (text : string) : io unit string verdict := fun s =>
  (Ret {| v_allowed := negb (contains "secret" text); v_redacted := None; v_violations := [] |}, s).

Example phrase_across_windows :
  (run_window (Some no_secret) 8 "[content withheld]" ["the sec"; "r"; "et is 42"] tt).1.1
  = [raw_release "the secr"; raw_release "et is 42"]
  /\ (run_window (Some no_secret) 8 "[content withheld]" ["a "; "secret"; " is"] tt).1.1
     = [{| wr_text := "[content withheld]"; released_raw := false; wr_redacted := false; wr_truncated := true;
           wr_violations := [] |}].
Proof. split; vm_compute; reflexivity. Qed.
