(* ===== verification/Orchestration.v ===== *)
(** * Orchestration of a turn (backend/app/application/orchestration/service.py)

    The loop of a turn: screen, retrieve, generate, authorize and execute
    tools, verify, check the policy, reply or hand off.  The nodes change the
    turn's state in place; the graph's edges say which node runs next.  What
    the service is given (gateway, retrieval, compaction, memory, tools,
    escalation and the callbacks) is a record of hooks over an environment of
    their own; a hook may raise.  The executor of graphs is a third party's:
    it runs one node per step and raises once as many steps have run as the
    recursion limit allows and a node is still to run. *)

From S2P Require Import Prelude Json Catalog Types Context Tenant Governance Moderation.

(** ** What a turn handles *)

(** A prior turn: a [ContextTurn], or a plain dictionary. *)
Inductive history_entry :=
| HTurn (t : ContextTurn)
| HDict (role content : option string) (seq : option Z) (message_id : option string) (tool_payload : bool).

Record retrieved := {
  rt_content : string;
  rt_score : Q;
  rt_source : option json;
  rt_document_id : option json;
  rt_chunk_id : option json;
}.

Record citation := { ci_source : option json; ci_document_id : option json; ci_chunk_id : option json; ci_score : Q }.

Record tool_part := { part_type : string; part_content : list (string * json) }.

(** What the full-output validator answers: [None] for an object without the
    attributes. *)
Record output_check := {
  oc_allowed : option bool;
  oc_redacted : option string;
  oc_violations : list json;
  oc_decision : option string;
}.

Record output_validation_record := {
  ov_allowed : bool;
  ov_decision : option string;
  ov_violations : list json;
}.

Record handoff_result := { ho_success : bool; ho_ticket_id : option string; ho_message : string }.

(** [state["context"]]; a missing key is [None]. *)
Record turn_context := {
  cx_conversation_id : option string;
  retrieval_context : option string;
  cx_faithfulness : option FaithfulnessResult;
  output_raw : option (option string);
  output_validation : option output_validation_record;
  policy_rules : option (list rule_detail);
  cx_handoff : option handoff_result;
}.

Definition empty_context : turn_context := Build_turn_context None None None None None None None.

Record validation := { vr_valid : bool; vr_length : Z; has_content : bool }.

(** A compaction checkpoint. *)
Record checkpoint := { cp_summary : option string; cp_position : option Z; cp_layers : option (list layer) }.

(** The state of a turn ([AgentState]), its keys grouped by the node that
    writes them. *)

Record turn_input := {
  session_id : string;
  user_message : string;
  redacted_message : string;
  conversation_history : list history_entry;
}.

Record answer := { model_response : option string; confidence : Q; error : option string }.

Record review := {
  validation_result : option validation;
  verify_retries : Z;
  verify_note : option string;
  verify_exhausted : bool;
}.

Record ruling := {
  policy_action : PolicyAction;
  handoff_required : bool;
  redact_attempts : Z;
  budget_exceeded : bool;
}.

Record tooling := {
  tool_calls : list ToolCall;
  tool_parts : list tool_part;
  tool_results : list (list (string * json));
  tool_steps : Z;
  tool_budget_exhausted : bool;
}.

Record AgentState := {
  input : turn_input;
  context : turn_context;
  retrieved_docs : list retrieved;
  citations : list citation;
  context_summary : checkpoint;
  tooled : tooling;
  answered : answer;
  reviewed : review;
  ruled : ruling;
}.

Definition set_context (c : turn_context) (s : AgentState) : AgentState :=
  Build_AgentState (input s) c (retrieved_docs s) (citations s) (context_summary s) (tooled s) (answered s)
    (reviewed s) (ruled s).
Definition set_retrieved (d : list retrieved) (c : list citation) (s : AgentState) : AgentState :=
  Build_AgentState (input s) (context s) d c (context_summary s) (tooled s) (answered s) (reviewed s) (ruled s).
Definition set_summary (c : checkpoint) (s : AgentState) : AgentState :=
  Build_AgentState (input s) (context s) (retrieved_docs s) (citations s) c (tooled s) (answered s) (reviewed s) (ruled s).
Definition set_tools (t : tooling) (s : AgentState) : AgentState :=
  Build_AgentState (input s) (context s) (retrieved_docs s) (citations s) (context_summary s) t (answered s)
    (reviewed s) (ruled s).
Definition set_answer (a : answer) (s : AgentState) : AgentState :=
  Build_AgentState (input s) (context s) (retrieved_docs s) (citations s) (context_summary s) (tooled s) a
    (reviewed s) (ruled s).
Definition set_review (r : review) (s : AgentState) : AgentState :=
  Build_AgentState (input s) (context s) (retrieved_docs s) (citations s) (context_summary s) (tooled s) (answered s)
    r (ruled s).
Definition set_ruling (r : ruling) (s : AgentState) : AgentState :=
  Build_AgentState (input s) (context s) (retrieved_docs s) (citations s) (context_summary s) (tooled s) (answered s)
    (reviewed s) r.

(** Single keys. *)
Definition set_calls (l : list ToolCall) (s : AgentState) : AgentState :=
  let t := tooled s in
  set_tools (Build_tooling l (tool_parts t) (tool_results t) (tool_steps t) (tool_budget_exhausted t)) s.
Definition exhaust_tools (l : list ToolCall) (s : AgentState) : AgentState :=
  let t := tooled s in set_tools (Build_tooling l (tool_parts t) (tool_results t) (tool_steps t) true) s.
Definition set_response (r : option string) (s : AgentState) : AgentState :=
  set_answer (Build_answer r (confidence (answered s)) (error (answered s))) s.
Definition set_confidence (q : Q) (s : AgentState) : AgentState :=
  set_answer (Build_answer (model_response (answered s)) q (error (answered s))) s.
Definition set_note (n : option string) (s : AgentState) : AgentState :=
  let r := reviewed s in
  set_review (Build_review (validation_result r) (verify_retries r) n (verify_exhausted r)) s.
Definition set_handoff_required (s : AgentState) : AgentState :=
  let r := ruled s in
  set_ruling (Build_ruling (policy_action r) true (redact_attempts r) (budget_exceeded r)) s.

(** *** Errors *)

(** What a node can raise; [str] of an exception is a parameter. *)
Inductive turn_exc :=
| TGateway (e : gateway_exc)
| TGatewayKind (message kind : string)
| TContext (e : context_error)
| StreamToolParseError
| TOther (message : string).

(** What the whole run can raise besides: the executor's recursion limit, and
    the fuel of the generate loop, which never runs out. *)
Inductive run_exc :=
| TRaised (e : turn_exc)
| GraphRecursionError
| TNoFuel.

Definition is_gateway_error (e : turn_exc) : bool :=
  match e with
  | TGateway (OtherError _) => false
  | TGateway _ | TGatewayKind _ _ => true
  | _ => false
  end.

(** *** Hooks *)

Record compaction_info := {
  ci_estimated_tokens : option Z;
  ci_budget_tokens : option Z;
  ci_has_summary : bool;
  ci_overflow : bool;
}.

Record usage_record := {
  us_conversation_id : option string;
  us_session_id : string;
  us_provider : string;
  us_model : string;
  us_usage : Usage;
  us_usd : Q;
}.

Record handoff_request := {
  hr_session_id : string;
  hr_user_message : string;
  hr_confidence : Q;
  hr_reason : string;
  hr_policy_action : PolicyAction;
  hr_history : list (string * string);
  hr_model_response : option string;
  hr_conversation_id : option string;
}.

(** The evidence packet of a processed message. *)
Record decision_record := {
  dr_session_id : string;
  dr_decision : string;
  dr_allowed : bool;
  dr_message : string;
  dr_violations : list rule_detail;
  dr_confidence : Q;
  dr_handoff_required : bool;
  dr_redact_attempts : Z;
  dr_has_response : bool;
}.

Section hooks.
Context (E : Type).
Abbreviation effect := (io E turn_exc).

(** [async for event in gateway.stream(request): body]: the body threads the
    loop's variables and says whether the loop goes on; the generator ends, is
    left, or raises, and the variables survive. *)
Definition streamer : Type :=
  GatewayRequest -> forall A : Type, (A -> StreamEvent -> E -> A * bool * E) -> A -> E -> option turn_exc * A * E.

Record registry_hooks := {
  tool_schemas : list json;
  tool_execute : string -> list (string * json) -> E -> list (string * json) * E;
}.

Record hooks := {
  h_request_id : effect string;
  h_retrieve : option (string -> effect (list retrieved * option string));
  h_generate : GatewayRequest -> effect GatewayResult;
  h_stream : streamer;
  h_stream_callback : option (string -> effect unit);
  h_compaction : option (compaction_info -> effect (option checkpoint));
  h_memory : option (string -> effect (list string));
  h_registry : option registry_hooks;
  h_authorizer : option (ToolCall -> effect bool);
  h_tool_callback : option (tool_part -> effect unit);
  h_escalation : option (handoff_request -> effect handoff_result);
  h_evidence : option (decision_record -> effect unit);
  h_usage : option (usage_record -> effect unit);
  h_output_validator : option (string -> effect output_check);
  h_prompt_resolver : option (effect (option string));
}.
End hooks.

Arguments h_request_id {E}. Arguments h_retrieve {E}. Arguments h_generate {E}. Arguments h_stream {E}.
Arguments h_stream_callback {E}. Arguments h_compaction {E}. Arguments h_memory {E}. Arguments h_registry {E}.
Arguments h_authorizer {E}. Arguments h_tool_callback {E}. Arguments h_escalation {E}. Arguments h_evidence {E}.
Arguments h_usage {E}. Arguments h_output_validator {E}. Arguments h_prompt_resolver {E}.
Arguments tool_schemas {E}. Arguments tool_execute {E}.

(** ** The nodes *)

(** [OrchestrationService]: what it is built with, and what the code takes
    from Python: [str] of an exception and of a JSON value that is no text,
    [json.loads], the text of a float.  [s_schedule] is the order in which the
    concurrent tool calls of a turn advance. *)
Record service (E : Type) := {
  s_hooks : hooks E;
  s_estimator : TokenEstimator;
  s_catalog : ModelCatalog;
  s_output_reserve : Z;
  s_cache_markers : bool;
  s_tenant_config : TenantConfig;
  s_policy_set : PolicySet;
  s_model_override : option string;
  s_surface_id : option string;
  s_end_user_id : option string;
  s_preemptive_ratio : Q;
  s_exc_text : turn_exc -> string;
  s_repr : json -> string;
  s_loads : string -> option json;
  s_float_text : Q -> string;
  s_schedule : AgentState -> list nat;
}.
Arguments s_hooks {E}. Arguments s_estimator {E}. Arguments s_catalog {E}. Arguments s_output_reserve {E}.
Arguments s_cache_markers {E}. Arguments s_tenant_config {E}. Arguments s_policy_set {E}.
Arguments s_model_override {E}. Arguments s_surface_id {E}. Arguments s_end_user_id {E}.
Arguments s_preemptive_ratio {E}. Arguments s_exc_text {E}. Arguments s_repr {E}. Arguments s_loads {E}.
Arguments s_float_text {E}. Arguments s_schedule {E}.

Section orchestration.
Context {E : Type}.

(** The state a node works on: the environment, the turn's state, and the
    local variables of the generate node. *)
Record turn := { env : E; st : AgentState; stream_emitted : bool; stream_fallback_used : bool; compacted_this_turn : bool }.

Abbreviation node := (io turn run_exc).

Definition put_env (e : E) (t : turn) : turn :=
  Build_turn e (st t) (stream_emitted t) (stream_fallback_used t) (compacted_this_turn t).
Definition update (f : AgentState -> AgentState) : node unit := modify (fun t =>
  Build_turn (env t) (f (st t)) (stream_emitted t) (stream_fallback_used t) (compacted_this_turn t)).
Definition state_of : node AgentState := fun t => (Ret (st t), t).
Definition set_emitted : node unit := modify (fun t =>
  Build_turn (env t) (st t) true (stream_fallback_used t) (compacted_this_turn t)).
Definition set_fallback_used : node unit := modify (fun t =>
  Build_turn (env t) (st t) (stream_emitted t) true (compacted_this_turn t)).
Definition set_compacted : node unit := modify (fun t =>
  Build_turn (env t) (st t) (stream_emitted t) (stream_fallback_used t) true).
Definition reset_locals : node unit := modify (fun t => Build_turn (env t) (st t) false false false).

(** A call of a hook. *)
Definition call {A} (c : io E turn_exc A) : node A := lift env put_env TRaised c.

(** [try: c] with [except Exception as e]: a value or what was raised. *)
Definition attempt {A} (c : node A) : node (A + turn_exc) := fun t =>
  match c t with
  | (Ret a, t) => (Ret (inl a), t)
  | (Raise (TRaised e), t) => (Ret (inr e), t)
  | (Raise x, t) => (Raise x, t)
  end.

Definition raise {A} (e : turn_exc) : node A := throw (TRaised e).

Context (self : service E).

Abbreviation h := (s_hooks self).
Abbreviation est := (s_estimator self).
Abbreviation catalog := (s_catalog self).
Abbreviation output_reserve_tokens := (s_output_reserve self).
Abbreviation cache_markers := (s_cache_markers self).
Abbreviation config := (s_tenant_config self).
Abbreviation policy_set := (s_policy_set self).
Abbreviation model_override := (s_model_override self).
Abbreviation gateway_surface_id := (s_surface_id self).
Abbreviation gateway_end_user_id := (s_end_user_id self).
Abbreviation preemptive_ratio := (s_preemptive_ratio self).
Abbreviation exc_text := (s_exc_text self).
Abbreviation py_repr := (s_repr self).
Abbreviation json_loads := (s_loads self).
Abbreviation float_text := (s_float_text self).
Abbreviation schedule := (s_schedule self).

(** A hook whose failure is logged and dropped. *)
Definition emit {A} (hook : option (A -> io E turn_exc unit)) (a : A) : node unit :=
  match hook with
  | None => mret tt
  | Some f => _ ← attempt (call (f a)); mret tt
  end.

Definition budget (k : string) (d : Z) : Z := match budgets config !! k with Some q => py_int q | None => d end.
Definition max_tool_steps : Z := budget "max_tool_steps" 4.
Definition max_verify_retries : Z := budget "max_verify_retries" 2.
Definition max_redact_iterations : Z := budget "max_redact_iterations" 2.
Definition max_graph_steps : Z := budget "max_graph_steps" 50.
Definition feature (k : string) : bool := default false (features config !! k).

(** [self.model_override or self.tenant_config.default_model] *)
Definition model : string :=
  if truthy_opt model_override then default EmptyString model_override else default_model config.

Definition _process_input : node unit :=
  update (set_context empty_context).

Definition citation_of (d : retrieved) : citation :=
  {| ci_source := rt_source d; ci_document_id := rt_document_id d; ci_chunk_id := rt_chunk_id d; ci_score := rt_score d |}.

Definition put_retrieval_context (r : string) (c : turn_context) : turn_context :=
  Build_turn_context (cx_conversation_id c) (Some r) (cx_faithfulness c) (output_raw c) (output_validation c)
    (policy_rules c) (cx_handoff c).

Definition _retrieve_context : node unit :=
  match h_retrieve h with
  | None => s ← state_of; update (set_retrieved [] (citations s))
  | Some retrieve =>
      s ← state_of;
      r ← attempt (call (retrieve (redacted_message (input s))));
      match r with
      | inr _ => update (set_retrieved [] [])
      | inl (docs, text) =>
          _ ← update (set_retrieved docs (map citation_of docs));
          if truthy_opt text
          then update (fun s => set_context (put_retrieval_context (default EmptyString text) (context s)) s)
          else mret tt
      end
  end.

(** *** The prompt *)

Definition default_system_prompt : string :=
  let listed l d := let text := join ", " l in if truthy text then text else d in
  join newline [
    "You are a helpful assistant configured for a specific tenant.";
    EmptyString;
    "Tenant Configuration:";
    "- Allowed topics: " +:+ listed (allowed_topics config) "general";
    "- Blocked topics: " +:+ listed (blocked_topics config) "none";
    "- Default provider: " +:+ default_provider config;
    "- Default model: " +:+ default_model config;
    EmptyString;
    "Guidelines:";
    "1. Stay within the allowed topics";
    "2. If asked about blocked topics, politely decline";
    "3. If you're unsure about something, acknowledge uncertainty";
    "4. Do not make up information";
    "5. Base your answer on the provided context when available";
    "6. Be consistent with the prior conversation in this session";
    EmptyString].

Definition _build_system_prompt : node string :=
  match h_prompt_resolver h with
  | None => mret default_system_prompt
  | Some resolve =>
      r ← attempt (call resolve);
      mret (match r with
            | inl o => if truthy_opt o then default EmptyString o else default_system_prompt
            | inr _ => default_system_prompt
            end)
  end.

Definition turn_of_entry (e : history_entry) : ContextTurn :=
  match e with
  | HTurn t => t
  | HDict role content seq mid tool =>
      {| ct_role := default "user" role; ct_content := default EmptyString content; ct_seq := seq;
         ct_message_id := mid; has_tool_payload := tool; raw_content := None |}
  end.

Definition _memory_facts : node (list string) :=
  match h_memory h with
  | Some retrieve =>
      if feature "memory" then
        s ← state_of;
        r ← attempt (call (retrieve (redacted_message (input s))));
        mret (match r with inl l => l | inr _ => [] end)
      else mret []
  | None => mret []
  end.

Definition _assemble_context (system_prompt : string) : node AssembledContext :=
  facts ← _memory_facts;
  s ← state_of;
  match assemble est catalog output_reserve_tokens cache_markers (default_provider config) model system_prompt
          (redacted_message (input s)) (map turn_of_entry (conversation_history (input s)))
          (cp_summary (context_summary s)) (cp_position (context_summary s)) (cp_layers (context_summary s))
          facts (map (fun d => DocDict (Some (rt_content d)) (Some (rt_score d))) (retrieved_docs s))
          (feature "clear_tool_results") None None with
  | inl a => mret a
  | inr e => raise (TContext e)
  end.

(** [str(v)] *)
Definition text_of (v : json) : string := match v with JStr s => s | v => py_repr v end.

Definition render_result (r : list (string * json)) : string :=
  let status := if json_truthy (default JNull (field "is_error" r)) then "error" else "ok" in
  "[tool_result tool_use_id=" +:+ text_of (default JNull (field "tool_use_id" r))
  +:+ " name=" +:+ text_of (default JNull (field "name" r)) +:+ " status=" +:+ status +:+ "]" +:+ newline
  +:+ text_of (default (JStr EmptyString) (field "content" r)) +:+ newline +:+ "[/tool_result]".

Definition _render_tool_results (results : list (list (string * json))) : string :=
  join (newline +:+ newline) (map render_result results).

Definition wire_message (role content : string) (metadata : json) : json :=
  JObj [("role", JStr role); ("content", JStr content); ("metadata", metadata)].

(** The messages of the request; the corrective note is consumed. *)
Definition _messages (a : AssembledContext) : node (list json) :=
  s ← state_of;
  let ms := map (fun m => wire_message (pm_role m) (pm_content m)
                   (or_else (pm_metadata m) (JObj []))) (ctx_messages a) in
  let results := match tool_results (tooled s) with
                 | [] => []
                 | l => [wire_message "user" (_render_tool_results l) (JObj [])]
                 end in
  if truthy_opt (verify_note (reviewed s)) then
    _ ← update (set_note None);
    mret (ms ++ results ++ [wire_message "user" (default EmptyString (verify_note (reviewed s))) (JObj [])])
  else mret (ms ++ results).

Definition _request (msgs : list json) : node GatewayRequest :=
  s ← state_of;
  id ← call (h_request_id h);
  mret {|
    tenant_id := tc_id config; messages := msgs; request_id := id; req_provider := default_provider config;
    req_model := Some model; strategy := "cost";
    tools := match h_registry h with
             | Some r => if tool_budget_exhausted (tooled s) then [] else tool_schemas r
             | None => []
             end;
    structured_output := None; surface_id := gateway_surface_id; end_user_id := gateway_end_user_id;
    conversation_id := cx_conversation_id (context s); Types.session_id := Some (session_id (input s));
    tiered := false; simple_query := false; estimated_input_tokens := None; pinned := None |}.

(** *** Compaction *)

Definition _recover_overflow (assembled : option AssembledContext) : node bool :=
  match h_compaction h with
  | None => mret false
  | Some compaction =>
      s ← state_of;
      c ← call (compaction {| ci_estimated_tokens := option_map total_tokens assembled;
                              ci_budget_tokens := option_map budget_tokens assembled;
                              ci_has_summary := bool_decide (is_Some (cp_summary (context_summary s)));
                              ci_overflow := true |});
      match c with
      | None => mret false
      | Some c => _ ← update (set_summary c); mret true
      end
  end.

(** The trigger before a generation: true when a checkpoint was taken. *)
Definition _preemptive (a : AssembledContext) : node bool :=
  match h_compaction h with
  | None => mret false
  | Some compaction =>
      t ← get_st;
      if compacted_this_turn t
         || negb (inject_Z (budget_tokens a) * preemptive_ratio <?q inject_Z (total_tokens a)) then mret false
      else
        c ← call (compaction {| ci_estimated_tokens := Some (total_tokens a);
                                ci_budget_tokens := Some (budget_tokens a);
                                ci_has_summary := bool_decide (is_Some (cp_summary (context_summary (st t))));
                                ci_overflow := false |});
        match c with
        | None => mret false
        | Some c => _ ← update (set_summary c); _ ← set_compacted; mret true
        end
  end.

Definition overflow_markers : list string := [
  "maximum context length"; "context length exceeded"; "context window"; "prompt is too long";
  "input is too long"; "context_length_exceeded"; "maximum tokens"; "token limit exceeded"].

Definition _is_provider_overflow (e : turn_exc) : bool :=
  existsb (fun m => contains m (lower (exc_text e))) overflow_markers.

(** *** Streaming *)

(** A tool call being put together, by its index. *)
Record tool_fragment := { tf_id : string; tf_name : string; tf_args : string }.

Record stream_acc := {
  sa_parts : list string;
  sa_usage : Usage;
  sa_tools : list (Z * tool_fragment);
  sa_provider : string;
  sa_model : string;
  sa_finish : option string;
}.

Definition new_acc : stream_acc := Build_stream_acc [] no_usage [] EmptyString EmptyString None.

(** [acc.setdefault(index, {...})], then the fields the event carries. *)
Fixpoint add_fragment (i : Z) (id name args : string) (l : list (Z * tool_fragment)) : list (Z * tool_fragment) :=
  let put f := {| tf_id := if truthy id then id else tf_id f; tf_name := if truthy name then name else tf_name f;
                  tf_args := tf_args f +:+ args |} in
  match l with
  | [] => [(i, put {| tf_id := EmptyString; tf_name := EmptyString; tf_args := EmptyString |})]
  | (j, f) :: l => if i =? j then (j, put f) :: l else (j, f) :: add_fragment i id name args l
  end.

Definition with_tools (l : list (Z * tool_fragment)) (a : stream_acc) : stream_acc :=
  Build_stream_acc (sa_parts a) (sa_usage a) l (sa_provider a) (sa_model a) (sa_finish a).
Definition add_usage (u v : Usage) : Usage :=
  Build_Usage (input_tokens u + input_tokens v) (output_tokens u + output_tokens v)
    (reasoning_tokens u + reasoning_tokens v) (cached_tokens u + cached_tokens v).
Definition no_tokens (u : Usage) : bool :=
  (input_tokens u =? 0) && (output_tokens u =? 0) && (reasoning_tokens u =? 0) && (cached_tokens u =? 0).
Definition or_text (s d : string) : string := if truthy s then s else d.

(** The variables of the loop: the accumulators, whether a delta was handed to
    the callback, and what the body raised. *)
Record stream_vars := { sv_acc : stream_acc; sv_emitted : bool; sv_raised : option turn_exc }.

Definition step_acc (ev : StreamEvent) (a : stream_acc) : stream_acc + turn_exc :=
  match ev with
  | EvDelta text =>
      inl (Build_stream_acc (sa_parts a ++ [text]) (sa_usage a) (sa_tools a) (sa_provider a) (sa_model a) (sa_finish a))
  | EvToolStart i id name => inl (with_tools (add_fragment (default 0 i) id name EmptyString (sa_tools a)) a)
  | EvToolDelta i id args =>
      inl (with_tools (add_fragment (default 0 i) id EmptyString (default EmptyString args) (sa_tools a)) a)
  | EvToolEnd _ _ _ _ => inl a
  | EvUsage u _ _ =>
      inl (Build_stream_acc (sa_parts a) (add_usage (sa_usage a) u) (sa_tools a) (sa_provider a) (sa_model a) (sa_finish a))
  | EvDone f u p m =>
      inl (Build_stream_acc (sa_parts a) (if no_tokens u then sa_usage a else u) (sa_tools a)
             (or_text p (sa_provider a)) (or_text m (sa_model a)) f)
  | EvError e c =>
      inr (if bool_decide (c = "chain_exhausted")
           then TGateway (GatewayChainExhausted "unknown" "unknown" (or_text e "chain exhausted") "general" 0)
           else TGatewayKind (or_text e "llm stream failed") (or_text c "general"))
  end.

(** The body: a delta is dropped once a tool call has begun, else it goes to
    the callback, whose exception leaves the loop. *)
Definition on_event (callback : string -> io E turn_exc unit) (v : stream_vars) (ev : StreamEvent) (e : E) :
    stream_vars * bool * E :=
  let stop x := (Build_stream_vars (sv_acc v) (sv_emitted v) (Some x), false, e) in
  let go v e := (v, true, e) in
  match ev with
  | EvDelta text =>
      match sa_tools (sv_acc v) with
      | _ :: _ => go v e
      | [] =>
          match callback text e, step_acc ev (sv_acc v) with
          | (Ret _, e), inl a => go (Build_stream_vars a true None) e
          | (Ret _, e), inr x => (Build_stream_vars (sv_acc v) true (Some x), false, e)
          | (Raise x, e), _ => (Build_stream_vars (sv_acc v) true (Some x), false, e)
          end
      end
  | _ =>
      match step_acc ev (sv_acc v) with
      | inl a => go (Build_stream_vars a (sv_emitted v) None) e
      | inr x => stop x
      end
  end.

Definition fragment_leb (f g : Z * tool_fragment) : bool := f.1 <=? g.1.

Fixpoint finalize_calls (l : list (Z * tool_fragment)) : option (list ToolCall) :=
  match l with
  | [] => Some []
  | (_, f) :: l =>
      if negb (truthy (tf_id f)) || negb (truthy (tf_name f)) then None
      else
        match (if truthy (tf_args f) then json_loads (tf_args f) else Some (JObj [])) with
        | Some (JObj args) =>
            match finalize_calls l with
            | Some cs => Some ({| call_id := tf_id f; call_name := tf_name f; call_arguments := JObj args |} :: cs)
            | None => None
            end
        | _ => None
        end
  end.

Definition _finalize_stream_tool_calls (acc : list (Z * tool_fragment)) : option (list ToolCall) :=
  finalize_calls (sort_by fragment_leb acc).

Definition stream_result (r : GatewayRequest) (a : stream_acc) (finish : option string)
    (calls : option (list ToolCall)) : GatewayResult := {|
  content := String.concat EmptyString (sa_parts a);
  res_model := or_text (sa_model a) (default EmptyString (req_model r));
  res_provider := or_text (sa_provider a) (req_provider r); usage := sa_usage a; finish_reason := finish;
  Types.tool_calls := calls; routed_via := EmptyString; attempts := 1; cached := false |}.

Definition _generate_response_streaming (callback : string -> io E turn_exc unit) (r : GatewayRequest) :
    node GatewayResult := fun t =>
  let '(x, v, e) := h_stream h r stream_vars (on_event callback) (Build_stream_vars new_acc false None) (env t) in
  let t := Build_turn e (st t) (stream_emitted t || sv_emitted v) (stream_fallback_used t) (compacted_this_turn t) in
  match x, sv_raised v with
  | Some x, _ | None, Some x => (Raise (TRaised x), t)
  | None, None =>
      let a := sv_acc v in
      match sa_tools a with
      | [] => (Ret (stream_result r a (sa_finish a) None), t)
      | acc =>
          match _finalize_stream_tool_calls acc with
          | None => (Raise (TRaised StreamToolParseError), t)
          | Some calls =>
              (Ret (stream_result r a (Some (if truthy_opt (sa_finish a) then default EmptyString (sa_finish a)
                                             else "tool_use")) (Some calls)), t)
          end
      end
  end.

(** *** One call of the model, streamed or not *)

Definition _call_model (r : GatewayRequest) : node GatewayResult :=
  match h_stream_callback h with
  | None => call (h_generate h r)
  | Some callback =>
      res ← attempt (_generate_response_streaming callback r);
      match res with
      | inl res => mret res
      | inr StreamToolParseError =>
          t ← get_st;
          if stream_fallback_used t then raise StreamToolParseError
          else _ ← set_fallback_used; call (h_generate h r)
      | inr x => raise x
      end
  end.

(** *** Generation *)

Definition uncertainty_phrases : list string :=
  ["i'm not sure"; "i don't know"; "i cannot"; "i can't"; "unable to"].

Definition _estimate_confidence (text : string) : Q :=
  if negb (truthy text) then 0
  else if existsb (fun p => contains p (lower text)) uncertainty_phrases then 3 # 10
  else if (String.length text <? 20)%nat then 1 # 2
  else 85 # 100.

Definition _record_usage (r : GatewayResult) : node unit :=
  s ← state_of;
  let provider := or_text (res_provider r) (default_provider config) in
  let m := or_text (res_model r) model in
  emit (h_usage h) {|
    us_conversation_id := cx_conversation_id (context s); us_session_id := session_id (input s);
    us_provider := provider; us_model := m; us_usage := usage r;
    us_usd := default 0%Q (estimate_cost catalog provider m (input_tokens (usage r)) (output_tokens (usage r))) |}.

(** What follows a generation: true to generate once more, without tools. *)
Definition _tool_calls_of (r : GatewayResult) : node bool :=
  s ← state_of;
  let calls := default [] (Types.tool_calls r) in
  let calls := if tool_budget_exhausted (tooled s) then [] else calls in
  match calls with
  | _ :: _ =>
      if max_tool_steps <=? tool_steps (tooled s) then _ ← update (exhaust_tools []); mret true
      else _ ← update (set_calls calls); mret false
  | [] => _ ← update (set_calls []); mret false
  end.

(** The loop of the node: again after a compaction, at most once, and after
    the tool budget ran out, at most once; so three rounds are enough. *)
Fixpoint generate_loop (fuel : nat) (system_prompt : string) : node GatewayResult :=
  match fuel with
  | O => throw TNoFuel
  | S fuel =>
      a ← attempt (_assemble_context system_prompt);
      match a with
      | inr x =>
          t ← get_st;
          match x, h_compaction h with
          | TContext (ContextBudgetExceeded _ _ _), Some _ =>
              if compacted_this_turn t then raise x
              else
                _ ← set_compacted;
                ok ← _recover_overflow None;
                if (ok : bool) then generate_loop fuel system_prompt else raise x
          | _, _ => raise x
          end
      | inl a =>
          again ← _preemptive a;
          if (again : bool) then generate_loop fuel system_prompt
          else
            msgs ← _messages a;
            r ← _request msgs;
            res ← attempt (_call_model r);
            match res with
            | inr x =>
                t ← get_st;
                if negb (compacted_this_turn t) && negb (stream_emitted t)
                   && bool_decide (is_Some (h_compaction h)) && _is_provider_overflow x then
                  _ ← set_compacted;
                  ok ← _recover_overflow (Some a);
                  if (ok : bool) then generate_loop fuel system_prompt else raise x
                else raise x
            | inl res =>
                again ← _tool_calls_of res;
                if (again : bool) then generate_loop fuel system_prompt else mret res
            end
      end
  end.

Definition generate_rounds : nat := 3.

Definition _generate_body : node unit :=
  prompt ← _build_system_prompt;
  _ ← reset_locals;
  _ ← update (set_calls []);
  r ← generate_loop generate_rounds prompt;
  _ ← update (set_response (Some (content r)));
  _ ← update (set_confidence (_estimate_confidence (content r)));
  _record_usage r.

(** Failures of the gateway go to the caller; any other is noted in the
    state. *)
Definition _generate_response : node unit :=
  r ← attempt _generate_body;
  match r with
  | inl _ => mret tt
  | inr x =>
      if is_gateway_error x then raise x
      else update (fun s => set_answer (Build_answer (model_response (answered s)) 0 (Some (exc_text x))) s)
  end.

(** *** Tools

    The calls of one generation run concurrently: each is a sequence of
    stages, and a schedule says which call advances next. *)

Inductive stage :=
| SStart
| SAnnounced
| SAuthorized (allow : bool)
| SExecuted (result : list (string * json))
| SReported (result : list (string * json))
| SDone.

Definition tool_use_part (c : ToolCall) : tool_part := {|
  part_type := "tool_use";
  part_content := [("tool_use_id", JStr (call_id c)); ("name", JStr (call_name c)); ("arguments", call_arguments c)] |}.
Definition tool_result_part (r : list (string * json)) : tool_part :=
  {| part_type := "tool_result"; part_content := r |}.

(** [d.setdefault(k, v)] *)
Definition setdefault (k : string) (v : json) (d : list (string * json)) : list (string * json) :=
  match field k d with Some _ => d | None => d ++ [(k, v)] end.

Definition append_part (p : tool_part) (s : AgentState) : AgentState :=
  let t := tooled s in
  set_tools (Build_tooling (tool_calls t) (tool_parts t ++ [p]) (tool_results t) (tool_steps t)
               (tool_budget_exhausted t)) s.
Definition append_result (r : list (string * json)) (s : AgentState) : AgentState :=
  let t := tooled s in
  set_tools (Build_tooling (tool_calls t) (tool_parts t ++ [tool_result_part r]) (tool_results t ++ [r])
               (tool_steps t + 1) (tool_budget_exhausted t)) s.

Definition _authorize_tool (c : ToolCall) : node bool :=
  match h_authorizer h with
  | None => mret true
  | Some authorizer =>
      r ← attempt (call (authorizer c));
      mret (match r with inl b => b | inr _ => false end)
  end.

Definition execute_tool (reg : registry_hooks E) (c : ToolCall) (allow : bool) : node (list (string * json)) :=
  if negb allow then
    mret [("content", JStr "blocked by policy"); ("is_error", JBool true); ("blocked", JBool true)]
  else
    match call_arguments c with
    | JObj args => fun t => let '(r, e) := tool_execute reg (call_name c) args (env t) in (Ret r, put_env e t)
    | _ => mret [("content", JStr "malformed tool arguments"); ("is_error", JBool true)]
    end.

Definition tool_step (reg : registry_hooks E) (c : ToolCall) (g : stage) : node stage :=
  match g with
  | SStart => _ ← emit (h_tool_callback h) (tool_use_part c); mret SAnnounced
  | SAnnounced => _ ← update (append_part (tool_use_part c)); b ← _authorize_tool c; mret (SAuthorized b)
  | SAuthorized allow =>
      r ← execute_tool reg c allow;
      mret (SExecuted (setdefault "name" (JStr (call_name c)) (setdefault "tool_use_id" (JStr (call_id c)) r)))
  | SExecuted r => _ ← emit (h_tool_callback h) (tool_result_part r); mret (SReported r)
  | SReported r => _ ← update (append_result r); mret SDone
  | SDone => mret SDone
  end.

(** The call at a position advances by one stage. *)
Fixpoint advance (reg : registry_hooks E) (i : nat) (l : list (ToolCall * stage)) : node (list (ToolCall * stage)) :=
  match l, i with
  | [], _ => mret []
  | (c, g) :: l, O => g ← tool_step reg c g; mret ((c, g) :: l)
  | x :: l, S i => l ← advance reg i l; mret (x :: l)
  end.

Fixpoint advance_all (reg : registry_hooks E) (order : list nat) (l : list (ToolCall * stage)) :
    node (list (ToolCall * stage)) :=
  match order with
  | [] => mret l
  | i :: order => l ← advance reg i l; advance_all reg order l
  end.

(** Whatever the schedule, every call is brought to its end: five stages
    each. *)
Definition gather (reg : registry_hooks E) (order : list nat) (calls : list ToolCall) : node unit :=
  l ← advance_all reg order (map (fun c => (c, SStart)) calls);
  _ ← advance_all reg (concat (map (fun i => replicate 5 i) (seq 0 (length calls)))) l;
  mret tt.

Definition _execute_tools : node unit :=
  s ← state_of;
  match tool_calls (tooled s), h_registry h with
  | (_ :: _) as calls, Some reg =>
      if max_tool_steps <=? tool_steps (tooled s) then update (exhaust_tools [])
      else
        _ ← gather reg (schedule s) calls;
        update (set_calls [])
  | _, _ => update (exhaust_tools [])
  end.

(** *** Verification *)

Definition put_faithfulness (r : FaithfulnessResult) (c : turn_context) : turn_context :=
  Build_turn_context (cx_conversation_id c) (retrieval_context c) (Some r) (output_raw c) (output_validation c)
    (policy_rules c) (cx_handoff c).
Definition put_output_raw (r : option string) (c : turn_context) : turn_context :=
  Build_turn_context (cx_conversation_id c) (retrieval_context c) (cx_faithfulness c) (Some r) (output_validation c)
    (policy_rules c) (cx_handoff c).
Definition put_output_validation (v : output_validation_record) (c : turn_context) : turn_context :=
  Build_turn_context (cx_conversation_id c) (retrieval_context c) (cx_faithfulness c) (output_raw c) (Some v)
    (policy_rules c) (cx_handoff c).

(** The faithfulness recorded when nothing was retrieved. *)
Definition ungrounded : FaithfulnessResult :=
  {| fr_score := 1; grounded := true; source_count := 0; fr_matches := []; checked := false |}.

(** The first check: not empty, and faithful to what was retrieved. *)
Definition _check_response (text : string) : node (bool * option string) :=
  if negb (truthy text) then mret (false, Some "empty_response")
  else
    s ← state_of;
    match retrieved_docs s with
    | [] => _ ← update (fun s => set_context (put_faithfulness ungrounded (context s)) s); mret (true, None)
    | docs =>
        let r := FaithfulnessChecker_check text (map (fun d => Some (rt_content d)) docs) in
        _ ← update (fun s => set_context (put_faithfulness r (context s)) s);
        if checked r && negb (grounded r) then mret (false, Some ("low_faithfulness=" +:+ float_text (fr_score r)))
        else mret (true, None)
    end.

(** The full-output gate: true unless the validator refuses; a validator that
    raises lets the text through. *)
Definition _gate_output (text : string) : node bool :=
  match h_output_validator h with
  | None => mret true
  | Some validate =>
      r ← attempt (call (validate text));
      match r with
      | inr _ => mret true
      | inl c =>
          let allow := default true (oc_allowed c) in
          _ ← (if truthy_opt (oc_redacted c) then
                 update (fun s => set_response (oc_redacted c)
                                    (set_context (put_output_raw (model_response (answered s)) (context s)) s))
               else mret tt);
          _ ← update (fun s => set_context (put_output_validation {|
                ov_allowed := allow; ov_decision := oc_decision c; ov_violations := oc_violations c |} (context s)) s);
          mret allow
      end
  end.

Definition verify_note_text (reason : string) : string :=
  "Your previous reply failed verification (reason: " +:+ reason +:+ "). "
  +:+ "Re-answer the user's question faithfully, based on the "
  +:+ "provided context. Do not repeat the failed reply.".

Definition set_validation (valid : bool) (text : string) (s : AgentState) : AgentState :=
  let r := reviewed s in
  set_review (Build_review (Some {| vr_valid := valid; vr_length := Z.of_nat (String.length text);
                                    has_content := truthy (strip text) |})
                (verify_retries r) (verify_note r) (verify_exhausted r)) s.

(** One more failed verification. *)
Definition verification_failed (reason : option string) (s : AgentState) : AgentState :=
  let r := reviewed s in
  let n := verify_retries r + 1 in
  if max_verify_retries <=? n
  then set_handoff_required (set_review (Build_review (validation_result r) n (verify_note r) true) s)
  else set_review (Build_review (validation_result r) n
                     (Some (verify_note_text (default "None" reason))) (verify_exhausted r)) s.
Definition verification_passed (s : AgentState) : AgentState :=
  let r := reviewed s in
  set_review (Build_review (validation_result r) 0 (verify_note r) (verify_exhausted r)) s.

Definition _validate_output : node unit :=
  s ← state_of;
  let text := default EmptyString (model_response (answered s)) in
  r ← _check_response text;
  let '(valid, reason) := (r : bool * option string) in
  allow ← (if valid then _gate_output text else mret true);
  let reason := if valid && negb allow then Some "output_moderation_blocked" else reason in
  let valid := valid && allow in
  _ ← update (set_validation valid text);
  if valid then update verification_passed else update (verification_failed reason).

(** *** Policy *)

Definition validation_json (v : option validation) : json :=
  match v with
  | None => JObj []
  | Some v => JObj [("valid", JBool (vr_valid v)); ("length", JNum (vr_length v)); ("has_content", JBool (has_content v))]
  end.

Definition policy_context (s : AgentState) : list (string * value) := [
  ("response", Val (match model_response (answered s) with Some r => JStr r | None => JNull end));
  ("confidence", Float (confidence (answered s)));
  ("validation", Val (validation_json (validation_result (reviewed s))))].

Definition put_policy_rules (l : list rule_detail) (c : turn_context) : turn_context :=
  Build_turn_context (cx_conversation_id c) (retrieval_context c) (cx_faithfulness c) (output_raw c)
    (output_validation c) (Some l) (cx_handoff c).

Definition apply_ruling (s : AgentState) : AgentState :=
  let '(action, details) := evaluate_with_results policy_set (policy_context s) in
  let r := ruled s in
  let n := if decide (action = REDACT) then redact_attempts r + 1 else redact_attempts r in
  let spent := bool_decide (action = REDACT) && (max_redact_iterations <=? n) in
  let low := confidence (answered s) <?q escalation_threshold config in
  set_ruling {| policy_action := action; handoff_required := low || handoff_required r; redact_attempts := n;
                budget_exceeded := spent || budget_exceeded r |}
    (set_context (put_policy_rules details (context s)) s).

Definition _check_policy : node unit := update apply_ruling.

(** *** Handoff *)

Definition entry_role (e : history_entry) : string :=
  match e with HTurn t => ct_role t | HDict r _ _ _ _ => default "user" r end.
Definition entry_content (e : history_entry) : string :=
  match e with HTurn t => ct_content t | HDict _ c _ _ _ => default EmptyString c end.

Definition handoff_reason (s : AgentState) : string :=
  if confidence (answered s) <?q escalation_threshold config
  then "low_confidence=" +:+ fixed2 (confidence (answered s))
       +:+ " (threshold=" +:+ float_text (escalation_threshold config) +:+ ")"
  else "policy_action=" +:+ action_name (policy_action (ruled s)).

Definition put_handoff (r : handoff_result) (c : turn_context) : turn_context :=
  Build_turn_context (cx_conversation_id c) (retrieval_context c) (cx_faithfulness c) (output_raw c)
    (output_validation c) (policy_rules c) (Some r).

Definition _prepare_handoff : node unit :=
  _ ← update set_handoff_required;
  match h_escalation h with
  | None => mret tt
  | Some escalate =>
      s ← state_of;
      r ← attempt (call (escalate {|
             hr_session_id := session_id (input s); hr_user_message := redacted_message (input s);
             hr_confidence := confidence (answered s); hr_reason := handoff_reason s;
             hr_policy_action := policy_action (ruled s);
             hr_history := map (fun e => (entry_role e, entry_content e))
                             (List.filter (fun e => truthy (entry_content e)) (conversation_history (input s)));
             hr_model_response := model_response (answered s);
             hr_conversation_id := cx_conversation_id (context s) |}));
      update (fun s => set_context (put_handoff (match r with
        | inl r => r
        | inr x => {| ho_success := false; ho_ticket_id := None; ho_message := exc_text x |}
        end) (context s)) s)
  end.

(** *** The graph *)

Inductive node_name :=
| process_input | retrieve_context | generate_response | execute_tools | validate_output | check_policy | prepare_handoff.

Definition run_node (n : node_name) : node unit :=
  match n with
  | process_input => _process_input
  | retrieve_context => _retrieve_context
  | generate_response => _generate_response
  | execute_tools => _execute_tools
  | validate_output => _validate_output
  | check_policy => _check_policy
  | prepare_handoff => _prepare_handoff
  end.

Definition _route_after_generate (s : AgentState) : node_name :=
  match tool_calls (tooled s) with [] => validate_output | _ => execute_tools end.

Definition _route_after_validate (s : AgentState) : node_name :=
  let valid := match validation_result (reviewed s) with Some v => vr_valid v | None => true end in
  if valid then check_policy else if verify_exhausted (reviewed s) then prepare_handoff else generate_response.

(** [None] ends the turn. *)
Definition _route_after_policy (s : AgentState) : option node_name :=
  let r := ruled s in
  if budget_exceeded r then None
  else
    match policy_action r with
    | BLOCK | ESCALATE => Some prepare_handoff
    | REDACT => if max_redact_iterations <=? redact_attempts r then None else Some generate_response
    | ALLOW => if handoff_required r then Some prepare_handoff else None
    end.

Definition edge (n : node_name) (s : AgentState) : option node_name :=
  match n with
  | process_input => Some retrieve_context
  | retrieve_context => Some generate_response
  | generate_response => Some (_route_after_generate s)
  | execute_tools => Some generate_response
  | validate_output => Some (_route_after_validate s)
  | check_policy => _route_after_policy s
  | prepare_handoff => None
  end.

(** [graph.ainvoke] with its recursion limit. *)
Fixpoint invoke (limit : nat) (n : node_name) : node unit :=
  match limit with
  | O => throw GraphRecursionError
  | S limit =>
      _ ← run_node n;
      s ← state_of;
      match edge n s with
      | None => mret tt
      | Some n => invoke limit n
      end
  end.

Definition initial_state (i : turn_input) (c : turn_context) (cp : checkpoint) : AgentState := {|
  input := i; context := c; retrieved_docs := []; citations := []; context_summary := cp;
  tooled := Build_tooling [] [] [] 0 false; answered := Build_answer None 0 None;
  reviewed := Build_review None 0 None false; ruled := Build_ruling ALLOW false 0 false |}.

Definition decision_of (s : AgentState) : decision_record := {|
  dr_session_id := session_id (input s); dr_decision := action_name (policy_action (ruled s));
  dr_allowed := negb (bool_decide (policy_action (ruled s) = BLOCK)); dr_message := redacted_message (input s);
  dr_violations := default [] (policy_rules (context s)); dr_confidence := confidence (answered s);
  dr_handoff_required := handoff_required (ruled s); dr_redact_attempts := redact_attempts (ruled s);
  dr_has_response := bool_decide (is_Some (model_response (answered s))) |}.

Definition start (e : E) (s : AgentState) : turn := Build_turn e s false false false.

Definition process_message (i : turn_input) (c : turn_context) (cp : checkpoint) (e : E) :
    outcome run_exc AgentState * E :=
  let body :=
    _ ← invoke (Z.to_nat max_graph_steps) process_input;
    s ← state_of;
    _ ← emit (h_evidence h) (decision_of s);
    mret s in
  let '(r, t) := body (start e (initial_state i c cp)) in (r, env t).

End orchestration.

(** *** Streaming a turn

    [stream_message] hands every delta to a queue of its own, which the caller
    reads while the turn runs, and ends with one event for its outcome; an
    exception of the turn becomes an error event. *)

Inductive message_event :=
| MDelta (text : string)
| MResult (response : string) (conf : Q) (action : string) (handoff over_budget : bool) (cites : list citation)
    (faith : option FaithfulnessResult)
| MError (text : string).

Section stream.
Context {E : Type}.

Definition queued {A} (c : io E turn_exc A) : io (E * list string) turn_exc A :=
  lift fst (fun e p => (e, p.2)) id c.

Definition queued_hooks (h : hooks E) : hooks (E * list string) := {|
  h_request_id := queued (h_request_id h);
  h_retrieve := option_map (fun f x => queued (f x)) (h_retrieve h);
  h_generate r := queued (h_generate h r);
  h_stream r A body a p :=
    let '(x, (a, q), e) := h_stream h r (A * list string)%type
      (fun '(a, q) ev e => let '(a, b, (e, q)) := body a ev (e, q) in ((a, q), b, e)) (a, p.2) p.1 in
    (x, a, (e, q));
  h_stream_callback := Some (fun text p => (Ret tt, (p.1, p.2 ++ [text])));
  h_compaction := option_map (fun f x => queued (f x)) (h_compaction h);
  h_memory := option_map (fun f x => queued (f x)) (h_memory h);
  h_registry := option_map (fun r => {|
    tool_schemas := tool_schemas r;
    tool_execute n a p := let '(res, e) := tool_execute r n a p.1 in (res, (e, p.2)) |}) (h_registry h);
  h_authorizer := option_map (fun f x => queued (f x)) (h_authorizer h);
  h_tool_callback := option_map (fun f x => queued (f x)) (h_tool_callback h);
  h_escalation := option_map (fun f x => queued (f x)) (h_escalation h);
  h_evidence := option_map (fun f x => queued (f x)) (h_evidence h);
  h_usage := option_map (fun f x => queued (f x)) (h_usage h);
  h_output_validator := option_map (fun f x => queued (f x)) (h_output_validator h);
  h_prompt_resolver := option_map queued (h_prompt_resolver h) |}.

Definition streaming (self : service E) : service (E * list string) := {|
  s_hooks := queued_hooks (s_hooks self); s_estimator := s_estimator self; s_catalog := s_catalog self;
  s_output_reserve := s_output_reserve self; s_cache_markers := s_cache_markers self;
  s_tenant_config := s_tenant_config self; s_policy_set := s_policy_set self;
  s_model_override := s_model_override self; s_surface_id := s_surface_id self; s_end_user_id := s_end_user_id self;
  s_preemptive_ratio := s_preemptive_ratio self; s_exc_text := s_exc_text self; s_repr := s_repr self;
  s_loads := s_loads self; s_float_text := s_float_text self; s_schedule := s_schedule self |}.

Definition run_exc_text (self : service E) (x : run_exc) : string :=
  match x with
  | TRaised e => s_exc_text self e
  | GraphRecursionError => "recursion limit reached"
  | TNoFuel => EmptyString
  end.

Definition final_event (self : service E) (r : outcome run_exc AgentState) : message_event :=
  match r with
  | Raise x =>
      let text := run_exc_text self x in
      if truthy text then MError text else MResult EmptyString 0 (action_name ALLOW) false false [] None
  | Ret s =>
      if truthy_opt (error (answered s)) then MError (default EmptyString (error (answered s)))
      else MResult (default EmptyString (model_response (answered s))) (confidence (answered s))
             (action_name (policy_action (ruled s))) (handoff_required (ruled s)) (budget_exceeded (ruled s))
             (citations s) (cx_faithfulness (context s))
  end.

Definition stream_message (self : service E) (i : turn_input) (c : turn_context) (cp : checkpoint) (e : E) :
    list message_event * E :=
  let '(r, (e, q)) := process_message (streaming self) i c cp (e, []) in
  (map MDelta q ++ [final_event self r], e).
End stream.
