(* ===== verification/OrchestrationProps.v ===== *)
(** * What a turn promises

    Frame lemmas for the nodes of Orchestration.v, and the theorems: a turn
    ends within a bound its budgets give, an answer that is not escalated
    passed every check, and the hooks see what the policy and the gate let
    them see. *)

From S2P Require Import Prelude Json Catalog Types Context Tenant Governance Moderation Orchestration.

(** ** Frames

    [Keeps R c]: whatever [c] returns or raises, it takes a state to one that
    [R] relates to it.  [Plain c]: [c] raises nothing but what a node may. *)

Class Keeps {E A} (R : turn (E := E) -> turn (E := E) -> Prop) (c : io (turn (E := E)) run_exc A) : Prop :=
  keeps : forall t, R t (snd (c t)).

Class Plain {E A} (c : io (turn (E := E)) run_exc A) : Prop :=
  plain : forall t, match fst (c t) with Ret _ | Raise (TRaised _) => True | _ => False end.

(** Relations that hold between a state and itself in another environment. *)
Class EnvBlind {E} (R : turn (E := E) -> turn (E := E) -> Prop) : Prop :=
  env_blind : forall t e, R t (put_env e t).

Section frames.
Context {E : Type}.
Implicit Types t : turn (E := E).

Section keeps.
Context (R : turn (E := E) -> turn (E := E) -> Prop) `{HR : !PreOrder R} `{HE : !EnvBlind R}.

#[global] Instance keeps_ret {A} (a : A) : Keeps R (mret a).
Proof. intros t. cbn. reflexivity. Qed.
#[global] Instance keeps_throw {A} e : Keeps R (throw e : io _ _ A).
Proof. intros t. cbn. reflexivity. Qed.
#[global] Instance keeps_raise {A} e : Keeps R (raise e : io _ _ A).
Proof. intros t. cbn. reflexivity. Qed.
#[global] Instance keeps_get : Keeps R get_st.
Proof. intros t. cbn. reflexivity. Qed.
#[global] Instance keeps_state : Keeps R state_of.
Proof. intros t. cbn. reflexivity. Qed.
#[global] Instance keeps_bind {A B} (c : io _ _ A) (f : A -> io _ _ B) :
  Keeps R c -> (forall a, Keeps R (f a)) -> Keeps R (c ≫= f).
Proof.
  intros Hc Hf t. specialize (Hc t). unfold mbind, io_bind. destruct (c t) as [[a|e] t']; cbn in *; [|done].
  etransitivity; [exact Hc|apply Hf].
Qed.
#[global] Instance keeps_attempt {A} (c : io _ _ A) : Keeps R c -> Keeps R (attempt c).
Proof. intros Hc t. specialize (Hc t). unfold attempt. by destruct (c t) as [[a|[]] t']. Qed.
#[global] Instance keeps_call {A} (c : io E turn_exc A) : Keeps R (call c).
Proof. intros t. unfold call, lift. destruct (c (env t)) as [[a|x] e]; apply HE. Qed.
#[global] Instance keeps_emit {A} hook (a : A) : Keeps R (emit hook a).
Proof. unfold emit. destruct hook; apply _. Qed.
End keeps.

#[global] Instance plain_ret {A} (a : A) : Plain (E := E) (mret a).
Proof. by intros t. Qed.
#[global] Instance plain_raise {A} e : Plain (raise e : io (turn (E := E)) _ A).
Proof. by intros t. Qed.
#[global] Instance plain_get : Plain (E := E) get_st.
Proof. by intros t. Qed.
#[global] Instance plain_state : Plain (E := E) state_of.
Proof. by intros t. Qed.
#[global] Instance plain_update f : Plain (E := E) (update f).
Proof. by intros t. Qed.
#[global] Instance plain_bind {A B} (c : io (turn (E := E)) _ A) (f : A -> io _ _ B) :
  Plain c -> (forall a, Plain (f a)) -> Plain (c ≫= f).
Proof.
  intros Hc Hf t. specialize (Hc t). unfold mbind, io_bind. destruct (c t) as [[a|e] t']; cbn in *; [apply Hf|done].
Qed.
#[global] Instance plain_attempt {A} (c : io (turn (E := E)) _ A) : Plain c -> Plain (attempt c).
Proof. intros Hc t. specialize (Hc t). unfold attempt. by destruct (c t) as [[a|[]] t']. Qed.
#[global] Instance plain_call {A} (c : io E turn_exc A) : Plain (call c).
Proof. intros t. unfold call, lift. by destruct (c (env t)) as [[a|x] e]. Qed.
#[global] Instance plain_emit {A} hook (a : A) : Plain (E := E) (emit hook a).
Proof. unfold emit. destruct hook; apply _. Qed.
End frames.

(** Cases on the tests of a node, then instance search. *)
Ltac frame := repeat case_match; try apply _.

(** Relations on the turn's state alone. *)
Class StateOnly {E} (R : turn (E := E) -> turn (E := E) -> Prop) : Prop :=
  state_only : forall t t', st t = st t' -> R t t'.

Section state_only.
Context {E : Type} (R : turn (E := E) -> turn (E := E) -> Prop) `{HR : !PreOrder R} `{HS : !StateOnly R}.
#[global] Instance state_only_env : EnvBlind R.
Proof. intros t e. by apply HS. Qed.
#[global] Instance keeps_emitted : Keeps R set_emitted.
Proof. intros t. by apply HS. Qed.
#[global] Instance keeps_fallback : Keeps R set_fallback_used.
Proof. intros t. by apply HS. Qed.
#[global] Instance keeps_compacted : Keeps R set_compacted.
Proof. intros t. by apply HS. Qed.
#[global] Instance keeps_reset : Keeps R reset_locals.
Proof. intros t. by apply HS. Qed.
End state_only.

(** What a relation on states says about turns. *)
Definition on_state {E} (P : AgentState -> AgentState -> Prop) (t t' : turn (E := E)) : Prop := P (st t) (st t').
#[global] Instance on_state_preorder {E} P : PreOrder P -> PreOrder (on_state (E := E) P).
Proof. intros [Hr Ht]. split; [intros t; apply Hr|intros t1 t2 t3; apply Ht]. Qed.
#[global] Instance on_state_only {E} P : Reflexive P -> StateOnly (on_state (E := E) P).
Proof. intros Hr t t' Hs. unfold on_state. rewrite Hs. reflexivity. Qed.

Lemma keeps_update {E} (P : AgentState -> AgentState -> Prop) f :
  (forall s, P s (f s)) -> Keeps (on_state (E := E) P) (update f).
Proof. intros Hf t. apply Hf. Qed.

(** *** Generation leaves what it does not own *)

Record gen_frame (s s' : AgentState) : Prop := {
  gf_input : input s' = input s;
  gf_context : context s' = context s;
  gf_docs : retrieved_docs s' = retrieved_docs s;
  gf_ruled : ruled s' = ruled s;
  gf_retries : verify_retries (reviewed s') = verify_retries (reviewed s);
  gf_exhausted : verify_exhausted (reviewed s') = verify_exhausted (reviewed s);
  gf_parts : tool_parts (tooled s') = tool_parts (tooled s);
  gf_results : tool_results (tooled s') = tool_results (tooled s);
  gf_steps : tool_steps (tooled s') = tool_steps (tooled s);
  gf_budget : tool_budget_exhausted (tooled s) = true -> tool_budget_exhausted (tooled s') = true;
}.

#[global] Instance gen_frame_preorder : PreOrder gen_frame.
Proof. split; [by intros s|]. intros s1 s2 s3 [] []. split; [congruence..|auto]. Qed.

Ltac gen_update := apply keeps_update; by intros s.

(** What the generate loop does, as a relation: it calls hooks, and makes
    these updates. *)
Class LoopUpdates {E} (self : service E) (R : turn (E := E) -> turn (E := E) -> Prop) : Prop := {
  loop_preorder :: PreOrder R;
  loop_env :: EnvBlind R;
  loop_note n :: Keeps R (update (set_note n));
  loop_summary c :: Keeps R (update (set_summary c));
  loop_tools r :: Keeps R (_tool_calls_of self r);
  loop_fallback :: Keeps R set_fallback_used;
  loop_compacted :: Keeps R set_compacted;
  loop_stream t e b : R t (Build_turn e (st t) (stream_emitted t || b) (stream_fallback_used t) (compacted_this_turn t));
}.

(** What follows a generation, for a relation that allows both updates. *)
Lemma tool_calls_keeps {E} (self : service E) R `{!PreOrder R} `{!EnvBlind R} r :
  (forall l, Keeps R (update (exhaust_tools l))) -> (forall l, Keeps R (update (set_calls l))) ->
  Keeps R (_tool_calls_of self r).
Proof. intros. unfold _tool_calls_of. apply keeps_bind; [apply _..|intros s]. frame. Qed.

#[global] Instance gen_frame_updates {E} (self : service E) : LoopUpdates self (on_state (E := E) gen_frame).
Proof.
  split; try apply _; try (intros; gen_update); [|intros t e b; by apply state_only].
  intros r. apply tool_calls_keeps; [apply _..| |]; intros; gen_update.
Qed.

Section generate.
Context {E : Type} (self : service E).
Context (R : turn (E := E) -> turn (E := E) -> Prop) `{HU : !LoopUpdates self R}.

#[global] Instance prompt_frame : Keeps R (_build_system_prompt self).
Proof. unfold _build_system_prompt. frame. Qed.
#[global] Instance facts_frame : Keeps R (_memory_facts self).
Proof. unfold _memory_facts. frame. Qed.
#[global] Instance assemble_frame p : Keeps R (_assemble_context self p).
Proof. unfold _assemble_context. apply keeps_bind; [apply _|apply _|intros facts]. apply keeps_bind; [apply _|apply _|intros s]. frame. Qed.
#[global] Instance messages_frame a : Keeps R (_messages self a).
Proof. unfold _messages. apply keeps_bind; [apply _..|intros s]. frame. Qed.
#[global] Instance request_frame m : Keeps R (_request self m).
Proof. unfold _request. apply _. Qed.
#[global] Instance recover_frame a : Keeps R (_recover_overflow self a).
Proof.
  unfold _recover_overflow. destruct (h_compaction _); [|apply _]. apply keeps_bind; [apply _..|intros s].
  apply keeps_bind; [apply _..|intros [c|]]; apply _.
Qed.
#[global] Instance preemptive_frame a : Keeps R (_preemptive self a).
Proof.
  unfold _preemptive. destruct (h_compaction _); [|apply _]. apply keeps_bind; [apply _..|intros t].
  destruct (_ || _); [apply _|]. apply keeps_bind; [apply _..|intros [c|]]; apply _.
Qed.
#[global] Instance streaming_frame cb r : Keeps R (_generate_response_streaming self cb r).
Proof.
  intros t. unfold _generate_response_streaming. destruct (h_stream _ _ _ _ _ _) as [[x v] e].
  destruct x, (sv_raised v); try apply loop_stream. destruct (sa_tools _); [apply loop_stream|].
  destruct (_finalize_stream_tool_calls _ _); apply loop_stream.
Qed.
#[global] Instance call_model_frame r : Keeps R (_call_model self r).
Proof.
  unfold _call_model. destruct (h_stream_callback _); [|apply _]. apply keeps_bind; [apply _..|intros [?|[]]]; try apply _.
  apply keeps_bind; [apply _..|intros t]. frame.
Qed.
#[global] Instance loop_frame fuel p : Keeps R (generate_loop self fuel p).
Proof.
  induction fuel as [|fuel IH]; cbn [generate_loop]; [apply _|].
  apply keeps_bind; [apply _..|intros [a|x]].
  - apply keeps_bind; [apply _..|intros []]; [apply IH|]. apply keeps_bind; [apply _..|intros m].
    apply keeps_bind; [apply _..|intros r]. apply keeps_bind; [apply _..|intros [res|x]].
    + apply keeps_bind; [apply _..|intros []]; apply _.
    + apply keeps_bind; [apply _..|intros t]. destruct (_ && _); [|apply _].
      apply keeps_bind; [apply _..|intros _]. apply keeps_bind; [apply _..|intros []]; apply _.
  - apply keeps_bind; [apply _..|intros t]. frame.
    apply keeps_bind; [apply _..|intros _]. apply keeps_bind; [apply _..|intros []]; apply _.
Qed.

End generate.

Section generate_node.
Context {E : Type} (self : service E).
Abbreviation R := (on_state (E := E) gen_frame).

#[global] Instance generate_frame : Keeps R (_generate_response self).
Proof.
  unfold _generate_response. apply keeps_bind; [apply _..| |].
  - apply keeps_attempt. unfold _generate_body. apply keeps_bind; [apply _..|intros p].
    apply keeps_bind; [apply _..|intros _]. apply keeps_bind; [apply _|gen_update|intros _].
    apply keeps_bind; [apply _..|intros r]. apply keeps_bind; [apply _|gen_update|intros _].
    apply keeps_bind; [apply _|gen_update|intros _]. unfold _record_usage. apply _.
  - intros [?|x]; [apply _|]. destruct (is_gateway_error x); [apply _|gen_update].
Qed.
End generate_node.

(** *** The generate loop ends *)

Definition latched {E} (t t' : turn (E := E)) : Prop :=
  (compacted_this_turn t = true -> compacted_this_turn t' = true)
  /\ (tool_budget_exhausted (tooled (st t)) = true -> tool_budget_exhausted (tooled (st t')) = true).

#[global] Instance latched_preorder {E} : PreOrder (latched (E := E)).
Proof. split; [by intros t|]. intros t1 t2 t3 [] []. split; auto. Qed.
#[global] Instance latched_updates {E} (self : service E) : LoopUpdates self (latched (E := E)).
Proof.
  split; try apply _; try (by intros t e); try (by intros t); try (by intros n t); try done.
  intros r. apply tool_calls_keeps; [apply _|by intros t e|by intros l t..].
Qed.

Lemma bind_cases {S X A B} (c : io S X A) (f : A -> io S X B) s :
  (c ≫= f) s = match c s with (Ret a, s') => f a s' | (Raise e, s') => (Raise e, s') end.
Proof. done. Qed.

Lemma attempt_cases {E A} (c : io (turn (E := E)) run_exc A) t : Plain c ->
  exists r, attempt c t = (Ret r, snd (c t)).
Proof. intros Hc. specialize (Hc t). unfold attempt. destruct (c t) as [[a|[]] t']; try done; by eexists. Qed.

Section loop.
Context {E : Type} (self : service E).
Implicit Types t : turn (E := E).

#[global] Instance prompt_plain : Plain (_build_system_prompt self).
Proof. unfold _build_system_prompt. frame. Qed.
#[global] Instance facts_plain : Plain (_memory_facts self).
Proof. unfold _memory_facts. frame. Qed.
#[global] Instance assemble_plain p : Plain (_assemble_context self p).
Proof. unfold _assemble_context. apply plain_bind; [apply _|intros facts]. apply plain_bind; [apply _|intros s]. frame. Qed.
#[global] Instance messages_plain a : Plain (_messages self a).
Proof. unfold _messages. apply plain_bind; [apply _|intros s]. frame. Qed.
#[global] Instance request_plain m : Plain (_request self m).
Proof. unfold _request. apply _. Qed.
#[global] Instance set_compacted_plain : Plain (E := E) set_compacted.
Proof. by intros t. Qed.
#[global] Instance set_fallback_plain : Plain (E := E) set_fallback_used.
Proof. by intros t. Qed.
#[global] Instance reset_plain : Plain (E := E) reset_locals.
Proof. by intros t. Qed.
#[global] Instance recover_plain a : Plain (_recover_overflow self a).
Proof.
  unfold _recover_overflow. destruct (h_compaction _); [|apply _]. apply plain_bind; [apply _|intros s].
  apply plain_bind; [apply _|intros [c|]]; apply _.
Qed.
#[global] Instance preemptive_plain a : Plain (_preemptive self a).
Proof.
  unfold _preemptive. destruct (h_compaction _); [|apply _]. apply plain_bind; [apply _|intros t].
  destruct (_ || _); [apply _|]. apply plain_bind; [apply _|intros [c|]]; apply _.
Qed.
#[global] Instance streaming_plain cb r : Plain (_generate_response_streaming self cb r).
Proof.
  intros t. unfold _generate_response_streaming. destruct (h_stream _ _ _ _ _ _) as [[x v] e].
  destruct x, (sv_raised v); try done. destruct (sa_tools _); [done|]. by destruct (_finalize_stream_tool_calls _ _).
Qed.
#[global] Instance call_model_plain r : Plain (_call_model self r).
Proof.
  unfold _call_model. destruct (h_stream_callback _); [|apply _]. apply plain_bind; [apply _|intros [?|[]]]; try apply _.
  apply plain_bind; [apply _|intros t]. frame.
Qed.
#[global] Instance tool_calls_plain r : Plain (_tool_calls_of self r).
Proof. unfold _tool_calls_of. apply plain_bind; [apply _|intros s]. frame. Qed.

(** The rounds the loop may still need. *)
Definition rounds_left t : nat :=
  (if compacted_this_turn t then 0 else 1) + (if tool_budget_exhausted (tooled (st t)) then 0 else 1).

Lemma latched_rounds t t' : latched t t' -> (rounds_left t' <= rounds_left t)%nat.
Proof.
  intros [H1 H2]. unfold rounds_left.
  destruct (compacted_this_turn t) eqn:?, (compacted_this_turn t') eqn:?,
    (tool_budget_exhausted (tooled (st t))) eqn:?, (tool_budget_exhausted (tooled (st t'))) eqn:?;
    cbn; first [lia | naive_solver].
Qed.

Lemma latched_compacted t t' : compacted_this_turn t = false -> compacted_this_turn t' = true ->
  latched t t' -> (rounds_left t' < rounds_left t)%nat.
Proof.
  intros Hc Hc' [_ H2]. unfold rounds_left. rewrite Hc, Hc'.
  destruct (tool_budget_exhausted (tooled (st t))); [rewrite H2 by done; lia|].
  destruct (tool_budget_exhausted (tooled (st t'))); lia.
Qed.

Lemma preemptive_again a t t' : _preemptive self a t = (Ret true, t') -> (rounds_left t' < rounds_left t)%nat.
Proof.
  intros E1. pose proof (preemptive_frame self latched a t) as Hl. rewrite E1 in Hl. cbn in Hl.
  unfold _preemptive in E1. destruct (h_compaction _); [|done]. rewrite bind_cases in E1. cbn in E1.
  destruct (compacted_this_turn t) eqn:Ec; [done|]. cbn in E1. destruct (negb _); [done|].
  rewrite bind_cases in E1. unfold call, lift in E1. destruct (i _ _) as [[[c|]|x] e]; try done.
  injection E1 as <-. by apply latched_compacted.
Qed.

Lemma tools_again r t t' : _tool_calls_of self r t = (Ret true, t') -> (rounds_left t' < rounds_left t)%nat.
Proof.
  unfold _tool_calls_of. rewrite bind_cases. cbn [state_of]. cbv beta iota.
  destruct (tool_budget_exhausted (tooled (st t))) eqn:Eb; [done|].
  destruct (default [] (Types.tool_calls r)); [done|]. destruct (_ <=? _); [|done]. intros [= <-].
  unfold rounds_left. cbn. rewrite Eb. destruct (compacted_this_turn t); cbn; lia.
Qed.

Lemma recovered a t t1 b t2 : compacted_this_turn t = false ->
  latched t t1 -> compacted_this_turn t1 = true -> _recover_overflow self a t1 = (Ret b, t2) ->
  (rounds_left t2 < rounds_left t)%nat.
Proof.
  intros Hc Hl Hc1 Er. pose proof (recover_frame self latched a t1) as Hr. rewrite Er in Hr. cbn in Hr.
  apply latched_rounds in Hr. pose proof (latched_compacted t t1 Hc Hc1 Hl). lia.
Qed.

Lemma loop_plain fuel p t : (rounds_left t < fuel)%nat ->
  match fst (generate_loop self fuel p t) with Ret _ | Raise (TRaised _) => True | _ => False end.
Proof.
  revert t. induction fuel as [|fuel IH]; intros t Hm; [lia|]. cbn [generate_loop].
  rewrite bind_cases. destruct (attempt_cases (_assemble_context self p) t) as [[a|x] ->]; [apply _|..];
    pose proof (assemble_frame self latched p t) as Ha; set (t1 := (_assemble_context self p t).2) in *.
  - rewrite bind_cases. destruct (_preemptive self a t1) as [[[|]|x] t2] eqn:Ep.
    + apply IH. apply preemptive_again in Ep. apply latched_rounds in Ha. lia.
    + pose proof (preemptive_frame self latched a t1) as Hp. rewrite Ep in Hp. cbn in Hp.
      rewrite bind_cases. pose proof (messages_plain a t2) as Hpm. pose proof (messages_frame self latched a t2) as Hm2.
      destruct (_messages self a t2) as [[msgs|x] t3]; [|done]. cbn in Hm2.
      rewrite bind_cases. pose proof (request_plain msgs t3) as Hpr. pose proof (request_frame self latched msgs t3) as Hr.
      destruct (_request self msgs t3) as [[req|x] t4]; [|done]. cbn in Hr.
      rewrite bind_cases. destruct (attempt_cases (_call_model self req) t4) as [[res|x] ->]; [apply _|..];
        pose proof (call_model_frame self latched req t4) as Hcm; set (t5 := (_call_model self req t4).2) in *;
        assert (Hle : (rounds_left t5 <= rounds_left t)%nat)
          by (apply latched_rounds in Ha, Hp, Hm2, Hr, Hcm; lia).
      * rewrite bind_cases. pose proof (tool_calls_plain res t5) as Htp.
        destruct (_tool_calls_of self res t5) as [[[|]|x] t6] eqn:Et; [|done|done].
        apply IH. apply tools_again in Et. lia.
      * rewrite bind_cases. cbn [get_st]. cbv beta iota.
        destruct (negb (compacted_this_turn t5) && _ && _ && _) eqn:Ec; [|done].
        apply andb_true_iff in Ec as [[[Ec%negb_true_iff _]%andb_true_iff _]%andb_true_iff _].
        rewrite bind_cases. cbn [set_compacted modify]. cbv beta iota. rewrite bind_cases.
        match goal with |- context [_recover_overflow self (Some a) ?u] => set (t6 := u) end.
        pose proof (recover_plain (Some a) t6) as Hrp. destruct (_recover_overflow _ _ t6) as [[b|y] t7] eqn:Er; [|done].
        destruct b; [|done]. apply IH.
        pose proof (recovered (Some a) t5 t6 _ _ Ec ltac:(by split) eq_refl Er). lia.
    + pose proof (preemptive_plain a t1) as Hpp. rewrite Ep in Hpp. done.
  - rewrite bind_cases. cbn [get_st]. cbv beta iota.
    destruct x as [| |[] |  |]; try done. destruct (h_compaction (s_hooks self)) eqn:Ehc; [|done].
    destruct (compacted_this_turn t1) eqn:Ec; [done|].
    rewrite bind_cases. cbn [set_compacted modify]. cbv beta iota. rewrite bind_cases.
    match goal with |- context [_recover_overflow self None ?u] => set (t2 := u) end.
    pose proof (recover_plain None t2) as Hrp. destruct (_recover_overflow _ _ t2) as [[b|y] t3] eqn:Er; [|done].
    destruct b; [|done]. apply IH.
    pose proof (recovered None t1 t2 _ _ Ec ltac:(by split) eq_refl Er).
    apply latched_rounds in Ha. lia.
Qed.
End loop.

(** *** Pending calls *)

Section calls.
Context {E : Type} (self : service E).
Implicit Types t : turn (E := E).

(** Calls are pending only within the tool budget. *)
Definition calls_ok (s : AgentState) : Prop :=
  tool_calls (tooled s) = []
  \/ tool_budget_exhausted (tooled s) = false /\ tool_steps (tooled s) < max_tool_steps self.

Definition keeps_calls (s s' : AgentState) : Prop :=
  tool_steps (tooled s') = tool_steps (tooled s) /\ (calls_ok s -> calls_ok s').

#[global] Instance keeps_calls_preorder : PreOrder keeps_calls.
Proof. split; [by intros s|]. intros s1 s2 s3 [] []. split; [congruence|auto]. Qed.

#[global] Instance keeps_calls_updates : LoopUpdates self (on_state keeps_calls).
Proof.
  split; try apply _; try (by intros n t).
  - intros r t. unfold on_state, keeps_calls, _tool_calls_of. rewrite bind_cases. cbn [state_of]. cbv beta iota.
    destruct (tool_budget_exhausted (tooled (st t))) eqn:Eb; [split; [done|by left]|].
    destruct (default [] (Types.tool_calls r)); [split; [done|by left]|].
    destruct (max_tool_steps self <=? tool_steps (tooled (st t))) eqn:El; [split; [done|by left]|]. to_prop.
    split; [done|]. intros _. by right.
Qed.

Lemma generate_body_calls t : calls_ok (st (_generate_body self t).2).
Proof.
  unfold _generate_body. rewrite bind_cases. pose proof (prompt_plain self t) as Hp.
  destruct (_build_system_prompt self t) as [[prompt|x] t1] eqn:Ep.
  - rewrite bind_cases. cbn [reset_locals modify]. cbv beta iota. rewrite bind_cases.
    cbn [update modify]. cbv beta iota.
    match goal with |- context [(generate_loop _ _ _ ≫= _) ?u] => set (t2 := u) end.
    assert (H2 : calls_ok (st t2)) by by left.
    rewrite bind_cases. pose proof (loop_frame self (on_state keeps_calls) generate_rounds prompt t2) as [_ Hl].
    specialize (Hl H2). destruct (generate_loop _ _ _ t2) as [[r|x] t3]; cbn in Hl; [|done].
    assert (Hk : Keeps (on_state keeps_calls) (_ ← update (set_response (Some (content r)));
       _ ← update (set_confidence (_estimate_confidence (content r))); _record_usage self r)).
    { apply keeps_bind; [apply _|by intros u|intros _]. apply keeps_bind; [apply _|by intros u|intros _].
      unfold _record_usage. apply _. }
    apply (Hk t3), Hl.
  - exfalso. revert Ep. unfold _build_system_prompt. destruct (h_prompt_resolver _) as [c|]; [|done].
    rewrite bind_cases. unfold attempt, call, lift. by destruct (c (env t)) as [[?|?] ?].
Qed.

Lemma generate_calls t t' : _generate_response self t = (Ret tt, t') -> calls_ok (st t').
Proof.
  unfold _generate_response. rewrite bind_cases. pose proof (generate_body_calls t) as Hc. unfold attempt.
  destruct (_generate_body self t) as [[[]|[x| |]] t1]; cbn in Hc; try done; [by intros [= <-]|].
  cbv beta iota. destruct (is_gateway_error x); [done|]. intros [= <-]. exact Hc.
Qed.

Lemma generate_plain : Plain (_generate_response self).
Proof.
  unfold _generate_response. intros t. rewrite bind_cases. unfold attempt.
  assert (Hb : match (_generate_body self t).1 with Ret _ | Raise (TRaised _) => True | _ => False end).
  { unfold _generate_body. rewrite bind_cases. pose proof (prompt_plain self t) as Hp.
    destruct (_build_system_prompt self t) as [[prompt|x] t1]; [|done].
    rewrite bind_cases. cbn [reset_locals modify]. cbv beta iota. rewrite bind_cases. cbn [update modify]. cbv beta iota.
    match goal with |- context [(generate_loop _ _ _ ≫= _) ?u] => set (t2 := u) end.
    rewrite bind_cases. pose proof (loop_plain self generate_rounds prompt t2) as Hl.
    destruct (generate_loop _ _ _ t2) as [[r|x] t3]; [|apply Hl; unfold rounds_left, generate_rounds; repeat case_match; lia].
    assert (Hk : Plain (_ ← update (set_response (Some (content r)));
       _ ← update (set_confidence (_estimate_confidence (content r))); _record_usage self r)).
    { apply plain_bind; [apply _|intros _]. apply plain_bind; [apply _|intros _]. unfold _record_usage. apply _. }
    apply Hk. }
  destruct (_generate_body self t) as [[[]|[x| |]] t1]; try done. cbv beta iota. by destruct (is_gateway_error x).
Qed.
End calls.

(** ** The tools of one generation *)

Definition rank (g : stage) : nat :=
  match g with SStart => 0 | SAnnounced => 1 | SAuthorized _ => 2 | SExecuted _ => 3 | SReported _ => 4 | SDone => 5 end.
Definition next_rank (n : nat) : nat := Nat.min 5 (S n).

Section tools.
Context {E : Type} (self : service E) (reg : registry_hooks E).
Implicit Types t : turn (E := E).

(** The gate lets the call run in some environment. *)
Definition may_run (c : ToolCall) : Prop :=
  match h_authorizer (s_hooks self) with
  | None => True
  | Some authorizer => exists e, (authorizer c e).1 = Ret true
  end.

Definition blocked_result : list (string * json) :=
  [("content", JStr "blocked by policy"); ("is_error", JBool true); ("blocked", JBool true)].
Definition malformed_result : list (string * json) :=
  [("content", JStr "malformed tool arguments"); ("is_error", JBool true)].

(** Where a result comes from: the registry ran the call, which the gate let
    run, or it did not run. *)
Definition result_of (c : ToolCall) (r : list (string * json)) : Prop :=
  exists raw, r = setdefault "name" (JStr (call_name c)) (setdefault "tool_use_id" (JStr (call_id c)) raw)
  /\ (raw = blocked_result \/ raw = malformed_result
      \/ may_run c /\ exists args e, call_arguments c = JObj args /\ raw = (tool_execute reg (call_name c) args e).1).

(** What a call has left in the log of parts and of results at each stage. *)
Inductive logged (c : ToolCall) : stage -> list tool_part -> list (list (string * json)) -> Prop :=
| logged_start : logged c SStart [] []
| logged_announced : logged c SAnnounced [] []
| logged_authorized allow : (allow = true -> may_run c) -> logged c (SAuthorized allow) [tool_use_part c] []
| logged_executed r : result_of c r -> logged c (SExecuted r) [tool_use_part c] []
| logged_reported r : result_of c r -> logged c (SReported r) [tool_use_part c] []
| logged_done r : result_of c r -> logged c SDone [tool_use_part c; tool_result_part r] [r].

(** A step of the tools: new parts and results, and nothing else. *)
Record tool_progress (s s' : AgentState) (ps : list tool_part) (rs : list (list (string * json))) : Prop := {
  tp_input : input s' = input s;
  tp_context : context s' = context s;
  tp_docs : retrieved_docs s' = retrieved_docs s;
  tp_answered : answered s' = answered s;
  tp_reviewed : reviewed s' = reviewed s;
  tp_ruled : ruled s' = ruled s;
  tp_calls : tool_calls (tooled s') = tool_calls (tooled s);
  tp_exhausted : tool_budget_exhausted (tooled s') = tool_budget_exhausted (tooled s);
  tp_parts : tool_parts (tooled s') = tool_parts (tooled s) ++ ps;
  tp_results : tool_results (tooled s') = tool_results (tooled s) ++ rs;
  tp_steps : tool_steps (tooled s') = tool_steps (tooled s) + Z.of_nat (length rs);
}.

Lemma progress_refl s : tool_progress s s [] [].
Proof. split; rewrite ?app_nil_r; cbn; lia || done. Qed.

Lemma progress_trans s1 s2 s3 ps rs ps' rs' :
  tool_progress s1 s2 ps rs -> tool_progress s2 s3 ps' rs' -> tool_progress s1 s3 (ps ++ ps') (rs ++ rs').
Proof.
  intros [] []. split; try congruence; rewrite ?(assoc_L (++)), ?length_app; try congruence. lia.
Qed.

Lemma emit_env {A} hook (a : A) t : exists e, emit hook a t = (Ret tt, put_env e t).
Proof.
  unfold emit. destruct hook as [f|]; [|exists (env t); by destruct t]. rewrite bind_cases. unfold attempt, call, lift.
  destruct (f a (env t)) as [[[]|x] e]; by exists e.
Qed.

Lemma authorize_env c t : exists b e, _authorize_tool self c t = (Ret b, put_env e t) /\ (b = true -> may_run c).
Proof.
  unfold _authorize_tool, may_run. destruct (h_authorizer _) as [f|]; [|exists true, (env t); by destruct t].
  rewrite bind_cases. unfold attempt, call, lift. destruct (f c (env t)) as [[b|x] e] eqn:Ef.
  - exists b, e. split; [done|]. intros ->. exists (env t). by rewrite Ef.
  - by exists false, e.
Qed.

Lemma execute_env c allow t : (allow = true -> may_run c) ->
  exists raw e, execute_tool reg c allow t = (Ret raw, put_env e t)
  /\ (raw = blocked_result \/ raw = malformed_result
      \/ may_run c /\ exists args e, call_arguments c = JObj args /\ raw = (tool_execute reg (call_name c) args e).1).
Proof.
  intros Ha. unfold execute_tool. destruct allow; cbn [negb]; [|eexists _, (env t); split; [by destruct t|by left]].
  destruct (call_arguments c) as [| | | | |args] eqn:Ec; try by (eexists _, (env t); split; [by destruct t|by right; left]).
  destruct (tool_execute reg (call_name c) args (env t)) as [r e] eqn:Er. exists r, e. split; [done|]. right; right.
  split; [by apply Ha|]. exists args, (env t). by rewrite Er.
Qed.

Lemma tool_step_spec c g t ps rs : logged c g ps rs ->
  exists g' t' dp dr, tool_step self reg c g t = (Ret g', t') /\ rank g' = next_rank (rank g)
    /\ logged c g' (ps ++ dp) (rs ++ dr) /\ tool_progress (st t) (st t') dp dr.
Proof.
  intros Hl. inversion Hl as [| |allow Ha|r Hr|r Hr|r Hr]; subst; cbn [tool_step]; try rewrite bind_cases.
  - destruct (emit_env (h_tool_callback (s_hooks self)) (tool_use_part c) t) as [e ->].
    eexists _, _, [], []. split_and!; [done|done|constructor|apply progress_refl].
  - cbn [update modify]. cbv beta iota. rewrite bind_cases.
    match goal with |- context [_authorize_tool self c ?u] => set (t1 := u) end.
    destruct (authorize_env c t1) as (b & e & -> & Hb). eexists _, _, [tool_use_part c], [].
    split_and!; [done|done|by constructor|]. split; cbn; rewrite ?app_nil_r; lia || done.
  - destruct (execute_env c allow t Ha) as (raw & e & -> & Hraw). eexists _, _, [], [].
    split_and!; [done|done| |apply progress_refl]. cbn. constructor. exists raw. done.
  - destruct (emit_env (h_tool_callback (s_hooks self)) (tool_result_part r) t) as [e ->].
    eexists _, _, [], []. split_and!; [done|done|by constructor|apply progress_refl].
  - eexists _, _, [tool_result_part r], [r]. split_and!; [done|done|by constructor|]. by split.
  - eexists _, _, [], []. split_and!; [done|done|by constructor|apply progress_refl].
Qed.

(** The log of several calls. *)
Abbreviation traces := (list (list tool_part * list (list (string * json)))).
Definition all_logged (l : list (ToolCall * stage)) (ys : traces) : Prop :=
  Forall2 (fun x y => logged x.1 x.2 y.1 y.2) l ys.

Lemma advance_spec i l t ys : all_logged l ys ->
  exists l' t' ys' dp dr, advance self reg i l t = (Ret l', t')
    /\ map fst l' = map fst l /\ map (fun x => rank x.2) l' = alter next_rank i (map (fun x => rank x.2) l)
    /\ all_logged l' ys' /\ concat (map fst ys') ≡ₚ concat (map fst ys) ++ dp
    /\ concat (map snd ys') ≡ₚ concat (map snd ys) ++ dr /\ tool_progress (st t) (st t') dp dr.
Proof.
  intros Hl. revert i t. induction Hl as [|[c g] [ps rs] l ys Hx Hl IH]; intros i t.
  - exists [], t, [], [], []. split_and!; [by destruct i|done|by destruct i|constructor|done|done|apply progress_refl].
  - destruct i as [|i]; cbn [advance]; rewrite bind_cases.
    + destruct (tool_step_spec c g t ps rs Hx) as (g' & t' & dp & dr & -> & Hr & Hg & Hp).
      eexists _, t', ((ps ++ dp, rs ++ dr) :: ys), dp, dr. split_and!; [done|done| |by constructor| | |done].
      * cbn. by rewrite Hr.
      * cbn. rewrite <- !(assoc_L (++)). by rewrite (Permutation_app_comm dp).
      * cbn. rewrite <- !(assoc_L (++)). by rewrite (Permutation_app_comm dr).
    + destruct (IH i t) as (l' & t' & ys' & dp & dr & -> & Hf & Hr & Hl' & Hps & Hrs & Hp).
      eexists _, t', ((ps, rs) :: ys'), dp, dr. split_and!; [done|cbn; by rewrite Hf| |by constructor| | |done].
      * cbn in Hr |- *. by rewrite Hr.
      * cbn. rewrite Hps. by rewrite (assoc_L (++)).
      * cbn. rewrite Hrs. by rewrite (assoc_L (++)).
Qed.

Lemma advance_all_spec order l t ys : all_logged l ys ->
  exists l' t' ys' dp dr, advance_all self reg order l t = (Ret l', t')
    /\ map fst l' = map fst l
    /\ map (fun x => rank x.2) l' = foldl (fun rs i => alter next_rank i rs) (map (fun x => rank x.2) l) order
    /\ all_logged l' ys' /\ concat (map fst ys') ≡ₚ concat (map fst ys) ++ dp
    /\ concat (map snd ys') ≡ₚ concat (map snd ys) ++ dr /\ tool_progress (st t) (st t') dp dr.
Proof.
  revert l t ys. induction order as [|i order IH]; intros l t ys Hl; cbn [advance_all].
  - exists l, t, ys, [], []. rewrite !app_nil_r. split_and!; [done..|apply progress_refl].
  - rewrite bind_cases.
    destruct (advance_spec i l t ys Hl) as (l1 & t1 & ys1 & dp & dr & -> & Hf & Hr & Hl1 & Hps & Hrs & Hp).
    destruct (IH l1 t1 ys1 Hl1) as (l2 & t2 & ys2 & dp2 & dr2 & -> & Hf2 & Hr2 & Hl2 & Hps2 & Hrs2 & Hp2).
    exists l2, t2, ys2, (dp ++ dp2), (dr ++ dr2). split_and!; [done|congruence|by rewrite Hr2, Hr|done| | |].
    + by rewrite Hps2, Hps, (assoc_L (++)).
    + by rewrite Hrs2, Hrs, (assoc_L (++)).
    + by eapply progress_trans.
Qed.

Lemma alters_lookup (order : list nat) (rs : list nat) (j r : nat) : rs !! j = Some r ->
  exists k, (length (List.filter (Nat.eqb j) order) <= k)%nat
  /\ foldl (fun rs i => alter next_rank i rs) rs order !! j = Some (if (k =? 0)%nat then r else Nat.min 5 (r + k)).
Proof.
  revert rs r. induction order as [|i order IH]; intros rs r Hr; cbn [List.filter foldl].
  - by exists 0%nat.
  - destruct (Nat.eqb_spec j i) as [->|Hne].
    + destruct (IH (alter next_rank i rs) (next_rank r)) as (k & Hk & E1); [by rewrite list_lookup_alter_eq, Hr|].
      exists (S k). cbn [length]. split; [lia|]. rewrite E1. f_equal. unfold next_rank.
      change (S k =? 0)%nat with false. cbv iota. destruct (Nat.eqb_spec k 0); lia.
    + apply IH. by rewrite list_lookup_alter_ne.
Qed.

Lemma five_each n j : (j < n)%nat ->
  (5 <= length (List.filter (Nat.eqb j) (concat (map (fun i => replicate 5 i) (seq 0 n)))))%nat.
Proof.
  intros Hj. assert (Hin : In j (seq 0 n)) by (apply in_seq; lia).
  induction (seq 0 n) as [|i l IH]; [done|]. cbn [map concat]. rewrite List.filter_app, length_app.
  destruct Hin as [->|Hin]; [|specialize (IH Hin); lia]. cbn. rewrite Nat.eqb_refl. cbn. lia.
Qed.

(** However the calls are interleaved, all of them end, each with its parts
    and its one result. *)
Lemma gather_spec order calls t :
  exists t' ps rs, gather self reg order calls t = (Ret tt, t')
    /\ tool_progress (st t) (st t') ps (snd rs) /\ Forall2 result_of calls (fst rs)
    /\ ps ≡ₚ concat (map (fun '(c, r) => [tool_use_part c; tool_result_part r]) (zip calls (fst rs)))
    /\ snd rs ≡ₚ fst rs.
Proof.
  unfold gather. rewrite bind_cases.
  set (l0 := map (fun c => (c, SStart)) calls). set (ys0 := map (fun _ : ToolCall => ([], [])) calls : traces).
  assert (H0 : all_logged l0 ys0 /\ concat (map fst ys0) = [] /\ concat (map snd ys0) = []).
  { unfold l0, ys0. split; [|clear; induction calls as [|c l IH]; [done|by destruct IH]].
    clear. induction calls as [|c l IH]; constructor; [constructor|done]. }
  destruct H0 as (H0 & Hp0 & Hr0).
  destruct (advance_all_spec order l0 t ys0 H0) as (l1 & t1 & ys1 & dp & dr & -> & Hf & Hr & Hl1 & Hps & Hrs & Hp).
  rewrite bind_cases. set (finish := concat _).
  destruct (advance_all_spec finish l1 t1 ys1 Hl1) as (l2 & t2 & ys2 & dp2 & dr2 & -> & Hf2 & Hr2 & Hl2 & Hps2 & Hrs2 & Hp2).
  rewrite Hp0 in Hps. rewrite Hr0 in Hrs. cbn [app] in Hps, Hrs.
  assert (Hcalls : map fst l2 = calls).
  { rewrite Hf2, Hf. unfold l0. rewrite map_map. apply map_id. }
  assert (Hdone : Forall (fun x => x.2 = SDone) l2).
  { apply Forall_lookup. intros j [c g] Hj. assert (Hlen : (j < length calls)%nat).
    { rewrite <- Hcalls, length_map. by eapply lookup_lt_Some. }
    assert (Hj1 : exists r, map (fun x => rank x.2) l1 !! j = Some r).
    { apply lookup_lt_is_Some. rewrite length_map, <- (length_map fst), <- Hf2, Hcalls. done. }
    destruct Hj1 as [r Hr1]. destruct (alters_lookup finish _ j r Hr1) as (k & Hk & Ek).
    rewrite <- Hr2 in Ek. rewrite list_lookup_fmap, Hj in Ek.
    pose proof (five_each _ _ Hlen) as H5. fold finish in H5. destruct (Nat.eqb_spec k 0); [lia|].
    change (Some (rank g) = Some (Nat.min 5 (r + k))) in Ek.
    assert (Hg : rank g = Nat.min 5 (r + k)) by congruence. clear Ek.
    destruct g; cbn [rank snd] in *; (done || lia). }
  assert (Hfin : exists rs, Forall2 result_of calls rs
    /\ concat (map fst ys2) = concat (map (fun '(c, r) => [tool_use_part c; tool_result_part r]) (zip calls rs))
    /\ concat (map snd ys2) = rs).
  { rewrite <- Hcalls. clear -Hl2 Hdone. induction Hl2 as [|[c g] [ps rs] l ys Hx Hl IH].
    - by exists [].
    - apply Forall_cons in Hdone as [Hg Hd]. cbn in Hg, Hx. subst g. destruct (IH Hd) as (rs' & Hres & Hc & Hs).
      inversion Hx; subst. exists (r :: concat (map snd ys)). split_and!; [by constructor|cbn; by rewrite Hc|done]. }
  destruct Hfin as (rs & Hres & Hc & Hs).
  eexists t2, (dp ++ dp2), (rs, dr ++ dr2). split_and!; [done|by eapply progress_trans|done| |]; cbn [fst snd].
  - by rewrite <- Hc, Hps2, Hps.
  - by rewrite <- Hs, Hrs2, Hrs.
Qed.
End tools.

Section graph.
Context {E : Type} (self : service E).
Implicit Types t : turn (E := E).

(** What a round of tools adds: nothing past the budget or without a registry;
    else, for every call, its two parts and its one result. *)
Definition tool_round (t t' : turn (E := E)) : Prop :=
  let calls := tool_calls (tooled (st t)) in
  exists t1 ps rs, tool_progress (st t) (st t1) ps (snd rs) /\
  ((ps = [] /\ snd rs = [] /\ st t' = exhaust_tools [] (st t1)
      /\ (calls = [] \/ h_registry (s_hooks self) = None \/ max_tool_steps self <= tool_steps (tooled (st t))))
   \/ exists reg, h_registry (s_hooks self) = Some reg /\ calls <> []
      /\ tool_steps (tooled (st t)) < max_tool_steps self /\ st t' = set_calls [] (st t1)
      /\ Forall2 (result_of self reg) calls (fst rs)
      /\ ps ≡ₚ concat (map (fun '(c, r) => [tool_use_part c; tool_result_part r]) (zip calls (fst rs)))
      /\ snd rs ≡ₚ fst rs).

Lemma execute_tools_round t : exists t', _execute_tools self t = (Ret tt, t') /\ tool_round t t'.
Proof.
  unfold _execute_tools, tool_round. rewrite bind_cases. cbn [state_of]. cbv beta iota.
  destruct (tool_calls (tooled (st t))) as [|c calls] eqn:Ec; [|destruct (h_registry _) as [reg|] eqn:Er].
  - eexists. split; [done|]. exists t, [], ([], []). split; [apply progress_refl|]. left. by eauto.
  - destruct (_ <=? _) eqn:El; to_prop.
    + eexists. split; [done|]. exists t, [], ([], []). split; [apply progress_refl|]. left. eauto 10.
    + rewrite bind_cases. destruct (gather_spec self reg (s_schedule self (st t)) (c :: calls) t)
        as (t1 & ps & rs & -> & Hp & Hres & Hps & Hrs).
      eexists. split; [done|]. exists t1, ps, rs. split; [done|]. right. exists reg. by split_and!.
  - eexists. split; [done|]. exists t, [], ([], []). split; [apply progress_refl|]. left. eauto 10.
Qed.

(** ** The turn ends *)

Definition verify_budget : Z := Z.max 1 (max_verify_retries self).
Definition redact_budget : Z := Z.max 1 (max_redact_iterations self).

(** The steps a generation may still lead to. *)
Definition tool_rounds (s : AgentState) : Z :=
  if tool_budget_exhausted (tooled s) then 0 else Z.max 0 (max_tool_steps self - tool_steps (tooled s)).
Definition steps_from_generate (s : AgentState) : Z :=
  let v := verify_budget - verify_retries (reviewed s) in
  let p := redact_budget - redact_attempts (ruled s) in
  2 * tool_rounds s + 2 * (v + verify_budget * (p - 1)) + p + 1.

Definition steps_left (n : node_name) (s : AgentState) : Z :=
  match n with
  | process_input => steps_from_generate s + 2
  | retrieve_context => steps_from_generate s + 1
  | generate_response => steps_from_generate s
  | execute_tools => steps_from_generate s - 1
  | validate_output => steps_from_generate s - 1
  | check_policy =>
      2 * tool_rounds s + 2 * (verify_budget * (redact_budget - redact_attempts (ruled s) - 1))
      + (redact_budget - redact_attempts (ruled s)) + 1
  | prepare_handoff => 1
  end.

(** The text passed the full-output validator, which may have rewritten it:
    it was accepted, or the validator failed. *)
Definition cleared (text : string) (response : option string) : Prop :=
  match h_output_validator (s_hooks self) with
  | None => response = Some text
  | Some validate => exists e,
      match (validate text e).1 with
      | Ret c => default true (oc_allowed c) = true
                 /\ response = if truthy_opt (oc_redacted c) then oc_redacted c else Some text
      | Raise _ => response = Some text
      end
  end.

Definition faithful (text : string) (docs : list retrieved) : Prop :=
  docs = [] \/ let r := FaithfulnessChecker_check text (map (fun d => Some (rt_content d)) docs) in
                checked r = true -> grounded r = true.

(** The answer in the state is a text that passed verification. *)
Definition verified (s : AgentState) : Prop :=
  exists text, truthy text = true /\ faithful text (retrieved_docs s) /\ cleared text (model_response (answered s))
  /\ exists v, validation_result (reviewed s) = Some v /\ vr_valid v = true.

(** What holds when a node is entered. *)
Definition entered (n : node_name) (s : AgentState) : Prop :=
  (n = execute_tools -> tool_calls (tooled s) <> [] /\ calls_ok self s)
  /\ (n = check_policy -> verified s)
  /\ (n <> prepare_handoff -> 0 <= verify_retries (reviewed s) < verify_budget
      /\ 0 <= redact_attempts (ruled s) < redact_budget /\ verify_exhausted (reviewed s) = false
      /\ budget_exceeded (ruled s) = false).

(** How a turn that is not handed off ends. *)
Definition settled (s : AgentState) : Prop :=
  verified s
  /\ confidence (answered s) <?q escalation_threshold (s_tenant_config self) = false
  /\ (policy_action (ruled s), default [] (policy_rules (context s)))
     = evaluate_with_results (s_policy_set self) (policy_context s)
  /\ (policy_action (ruled s) = ALLOW
      \/ policy_action (ruled s) = REDACT /\ max_redact_iterations self <= redact_attempts (ruled s)
         /\ budget_exceeded (ruled s) = true).
Definition finished (s : AgentState) : Prop := handoff_required (ruled s) = true \/ settled s.

(** One step of the graph: a failure of the node, the end, or the next node
    with fewer steps left. *)
Definition step_ok (n : node_name) (t : turn (E := E)) : Prop :=
  match run_node self n t with
  | (Ret _, t') =>
      match edge self n (st t') with
      | None => finished (st t')
      | Some n' => entered n' (st t') /\ steps_left n' (st t') + 1 <= steps_left n (st t)
      end
  | (Raise (TRaised _), _) => True
  | (Raise _, _) => False
  end.

Lemma left_frame s s' : gen_frame s s' -> steps_from_generate s' <= steps_from_generate s.
Proof.
  intros []. unfold steps_from_generate, tool_rounds. rewrite gf_retries0, gf_ruled0, gf_steps0.
  destruct (tool_budget_exhausted (tooled s)) eqn:E1; [rewrite gf_budget0 by done; lia|].
  destruct (tool_budget_exhausted (tooled s')); lia.
Qed.

Lemma products_positive s : entered generate_response s ->
  0 <= verify_budget * (redact_budget - redact_attempts (ruled s) - 1).
Proof. intros (_ & _ & H). destruct H as (? & ? & _ & _); [done|]. unfold verify_budget. nia. Qed.

Lemma tool_rounds_nonneg s : 0 <= tool_rounds s.
Proof. unfold tool_rounds. destruct (tool_budget_exhausted _); lia. Qed.

Lemma steps_positive n s : entered n s -> 1 <= steps_left n s.
Proof.
  intros H. pose proof (tool_rounds_nonneg s). destruct H as (_ & _ & H).
  destruct n; try (destruct H as (? & ? & _ & _); [done|]); [..|done];
    assert (0 <= verify_budget * (redact_budget - redact_attempts (ruled s) - 1)) by (unfold verify_budget; nia);
    unfold steps_left, steps_from_generate; lia.
Qed.

(** What retrieval and the input node leave alone. *)
Record early_frame (s s' : AgentState) : Prop := {
  ef_tooled : tooled s' = tooled s;
  ef_reviewed : reviewed s' = reviewed s;
  ef_ruled : ruled s' = ruled s;
}.
#[local] Instance early_preorder : PreOrder early_frame.
Proof. split; [by intros s|]. intros s1 s2 s3 [] []. split; congruence. Qed.

Ltac early := apply keeps_update; intros ?; by split.

Lemma retrieve_frame : Keeps (on_state (E := E) early_frame) (_retrieve_context self).
Proof.
  unfold _retrieve_context. destruct (h_retrieve _); apply keeps_bind; try apply _; intros s; [|early].
  apply keeps_bind; [apply _..|intros [[docs text]|x]]; [|early].
  apply keeps_bind; [apply _|early|intros _]. destruct (truthy_opt text); [early|apply _].
Qed.

Lemma retrieve_plain : Plain (_retrieve_context self).
Proof. unfold _retrieve_context. frame; apply plain_bind; try apply _; intros s; try apply _. 
  apply plain_bind; [apply _|intros [[docs text]|x]]; [|apply _]. apply plain_bind; [apply _|intros _]. frame.
Qed.

(** *** The steps of the checks *)

Record text_frame (s s' : AgentState) : Prop := {
  xf_tooled : tooled s' = tooled s;
  xf_reviewed : reviewed s' = reviewed s;
  xf_ruled : ruled s' = ruled s;
  xf_docs : retrieved_docs s' = retrieved_docs s;
}.

Lemma check_response_cases text t : exists valid reason t', _check_response self text t = (Ret (valid, reason), t')
  /\ text_frame (st t) (st t') /\ answered (st t') = answered (st t)
  /\ (valid = true -> truthy text = true /\ faithful text (retrieved_docs (st t))).
Proof.
  unfold _check_response, faithful. destruct (truthy text) eqn:Et; cbn [negb]; [|by eexists _, _, t].
  rewrite bind_cases. cbn [state_of]. cbv beta iota. destruct (retrieved_docs (st t)) as [|d docs] eqn:Ed.
  - eexists _, _, _. split; [done|]. split_and!; [by split|done|by auto].
  - set (r := FaithfulnessChecker_check _ _). rewrite bind_cases. cbn [update modify]. cbv beta iota.
    destruct (checked r && negb (grounded r)) eqn:Ec; eexists _, _, _; (split; [done|]); split_and!; try by split.
    intros _. split; [done|]. right. intros Hc. rewrite Hc in Ec. by destruct (grounded r).
Qed.

Lemma gate_cases text t : exists allow t', _gate_output self text t = (Ret allow, t')
  /\ text_frame (st t) (st t') /\ (allow = true -> model_response (answered (st t)) = Some text ->
      cleared text (model_response (answered (st t')))).
Proof.
  unfold _gate_output, cleared. destruct (h_output_validator _) as [validate|] eqn:Ev; [|by exists true, t].
  rewrite bind_cases. unfold attempt, call, lift. destruct (validate text (env t)) as [[c|x] e] eqn:Ec; cbv beta iota.
  - rewrite bind_cases. destruct (truthy_opt (oc_redacted c)) eqn:Er; cbn [update modify]; cbv beta iota;
      (eexists _, _; split; [done|]; split; [by split|]; intros Ha Hm; exists (env t); rewrite Ec; split; [done|]);
      cbn; by rewrite Er.
  - eexists _, _. split; [done|]. split; [by split|]. intros _ Hm. exists (env t). by rewrite Ec.
Qed.

Lemma validate_cases t : exists (valid : bool) reason text s1 t', _validate_output self t = (Ret tt, t')
  /\ text_frame (st t) s1
  /\ st t' = (if valid then verification_passed else verification_failed self reason) (set_validation valid text s1)
  /\ (valid = true -> verified (st t')).
Proof.
  unfold _validate_output. rewrite bind_cases. cbn [state_of]. cbv beta iota.
  set (text := default EmptyString _). rewrite bind_cases.
  destruct (check_response_cases text t) as (valid & reason & t1 & -> & [] & Ha & Hv). rewrite bind_cases.
  destruct valid; cbn [andb negb].
  - destruct Hv as [Ht Hf]; [done|]. destruct (gate_cases text t1) as (allow & t2 & -> & [] & Hc).
    rewrite bind_cases. cbn [update modify]. cbv beta iota.
    assert (Hm : model_response (answered (st t1)) = Some text).
    { rewrite Ha. unfold text in *. by destruct (model_response (answered (st t))). }
    destruct allow; [exists true, reason|exists false, (Some "output_moderation_blocked")];
      exists text, (st t2); eexists; (split; [done|]); split_and!; try done; try (split; congruence).
    intros _; exists text. split_and!; [done| |by apply Hc|by eexists].
    cbn. by rewrite xf_docs1, xf_docs0.
  - eexists false, reason, text, (st t1), _. split; [done|]. split_and!; [by split|done|done].
Qed.

(** *** Every step counts down *)

Lemma plain_step n t : Plain (run_node self n) ->
  (forall t', run_node self n t = (Ret tt, t') ->
     match edge self n (st t') with
     | None => finished (st t')
     | Some n' => entered n' (st t') /\ steps_left n' (st t') + 1 <= steps_left n (st t)
     end) -> step_ok n t.
Proof.
  intros Hp Hr. specialize (Hp t). unfold step_ok. destruct (run_node self n t) as [[[]|[x| |]] t']; cbn in Hp; try done.
  by apply Hr.
Qed.

Lemma process_step t : entered process_input (st t) -> step_ok process_input t.
Proof. intros (_ & _ & H). apply plain_step; [by intros u|]. intros t' [= <-].
  split; [split_and!; [done..|intros _; by apply H]|]. unfold edge, steps_left. match goal with |- context [steps_from_generate ?s + 1] => change (steps_from_generate s) with (steps_from_generate (st t)) end. lia.
Qed.

Lemma retrieve_step t : entered retrieve_context (st t) -> step_ok retrieve_context t.
Proof.
  intros (_ & _ & H). apply plain_step; [apply retrieve_plain|]. intros t' Hr.
  pose proof (retrieve_frame t) as Hf. cbn in Hr. rewrite Hr in Hf. destruct Hf as [Ht Hv Hp]. cbn in Ht, Hv, Hp.
  split; [split_and!; [done..|intros _; rewrite Hv, Hp; by apply H]|]. unfold edge, steps_left, steps_from_generate, tool_rounds.
  rewrite Ht, Hv, Hp. lia.
Qed.

Lemma generate_step t : entered generate_response (st t) -> step_ok generate_response t.
Proof.
  intros (_ & _ & H). apply plain_step; [apply generate_plain|]. intros t' Hr. cbn in Hr.
  pose proof (generate_frame self t) as Hf. rewrite Hr in Hf. apply generate_calls in Hr as Hc.
  cbn in Hf. apply left_frame in Hf as Hl. destruct Hf. cbn [edge].
  assert (H' : forall n, n <> check_policy -> (n = execute_tools -> tool_calls (tooled (st t')) <> []) -> entered n (st t')).
  { intros n Hn Hx. split_and!; [by auto|done|]. intros _. rewrite gf_retries0, gf_exhausted0, gf_ruled0. by apply H. }
  unfold _route_after_generate. destruct (tool_calls (tooled (st t'))) eqn:Et; (split; [by apply H'|cbn [steps_left]; lia]).
Qed.

Lemma tools_step t : entered execute_tools (st t) -> step_ok execute_tools t.
Proof.
  intros (Hc & _ & H). apply plain_step; [intros u; cbn [run_node]; by destruct (execute_tools_round u) as (? & -> & _)|].
  intros t' Hr. cbn in Hr. destruct (execute_tools_round t) as (u & Hu & Hround). rewrite Hr in Hu. injection Hu as <-.
  destruct Hc as [Hn [?|[Hb Hs]]]; [done..|]. destruct H as (Hv & Hp & Hx & Hbe); [done|].
  destruct Hround as (t1 & ps & rs & [] & Hround). cbn [edge].
  assert (Hsame : reviewed (st t') = reviewed (st t) /\ ruled (st t') = ruled (st t)).
  { destruct Hround as [(_ & _ & -> & _)|(reg & _ & _ & _ & -> & _)]; by split. }
  destruct Hsame as [Hrv Hru]. split; [split_and!; [done..|intros _; by rewrite Hrv, Hru]|].
  unfold steps_left, steps_from_generate. rewrite Hrv, Hru.
  enough (tool_rounds (st t') + 1 <= tool_rounds (st t)) by lia. unfold tool_rounds. rewrite Hb.
  destruct Hround as [(_ & _ & -> & _)|(reg & _ & Hcs & _ & -> & Hres & _ & Hperm)]; cbn; [lia|].
  rewrite tp_exhausted0, Hb, tp_steps0. apply Forall2_length in Hres. rewrite Hperm, <- Hres.
  destruct (tool_calls (tooled (st t))); [done|]. cbn [length]. lia.
Qed.

Lemma validate_step t : entered validate_output (st t) -> step_ok validate_output t.
Proof.
  intros (_ & _ & H). destruct H as (Hv & Hp & Hx & Hb); [done|].
  destruct (validate_cases t) as (valid & reason & text & s1 & t' & Hr & [] & Hst & Hver).
  unfold step_ok. cbn [run_node]. rewrite Hr. cbn [edge]. unfold _route_after_validate.
  assert (Hprod : 0 <= verify_budget * (redact_budget - redact_attempts (ruled (st t)) - 1)) by (unfold verify_budget; nia).
  destruct valid.
  - assert (Hd : match validation_result (reviewed (st t')) with Some v => vr_valid v | None => true end = true)
      by (by rewrite Hst).
    rewrite Hd. split.
    + split_and!; [done|by auto|]. intros _. rewrite Hst. cbn. rewrite xf_reviewed0, xf_ruled0.
      unfold verify_budget in *. split_and!; lia || done.
    + rewrite Hst. unfold steps_left, steps_from_generate, tool_rounds. cbn. rewrite xf_tooled0, xf_ruled0. lia.
  - assert (Hd : match validation_result (reviewed (st t')) with Some v => vr_valid v | None => true end = false)
      by (rewrite Hst; unfold verification_failed; by destruct (_ <=? _)).
    rewrite Hd. rewrite Hst. unfold verification_failed. cbn [set_validation reviewed set_review verify_retries].
    rewrite xf_reviewed0. destruct (max_verify_retries self <=? verify_retries (reviewed (st t)) + 1) eqn:Em; to_prop; cbn.
    + split; [by split_and!; intros ?|]. unfold steps_from_generate. pose proof (tool_rounds_nonneg (st t)). lia.
    + rewrite Hx. split.
      * split_and!; [done..|]. intros _. cbn. rewrite xf_ruled0. unfold verify_budget in *. split_and!; lia || done.
      * unfold steps_left, steps_from_generate, tool_rounds. cbn. rewrite xf_tooled0, xf_ruled0. lia.
Qed.

Lemma policy_step t : entered check_policy (st t) -> step_ok check_policy t.
Proof.
  intros (_ & Hver & H). specialize (Hver eq_refl). destruct H as (Hv & Hp & Hx & Hb); [done|].
  unfold step_ok. cbn [run_node]. unfold _check_policy. cbn [update modify st]. cbn [edge].
  set (s := st t) in *. unfold _route_after_policy, apply_ruling.
  destruct (evaluate_with_results _ _) as [action details] eqn:Ee. cbn. rewrite Hb, orb_false_r.
  set (low := _ <?q _). assert (Hl : low || handoff_required (ruled s) = false -> low = false) by by intros [? _]%orb_false_iff.
  set (handoff := low || _) in *.
  assert (Hdone : forall n b, handoff = false ->
    (action = ALLOW \/ action = REDACT /\ max_redact_iterations self <= n /\ b = true) ->
    settled (set_ruling (Build_ruling action handoff n b) (set_context (put_policy_rules details (context s)) s))).
  { intros n b Hn Ha. split_and!; [exact Hver|by apply Hl|exact (eq_sym Ee)|exact Ha]. }
  assert (Hprod : 0 <= verify_budget * (redact_budget - redact_attempts (ruled s) - 1)) by (unfold verify_budget; nia).
  pose proof (tool_rounds_nonneg s).
  assert (Hhand : forall s', entered prepare_handoff s') by (intros s'; by split_and!; intros ?).
  unfold finished. cbn [ruled set_ruling handoff_required].
  destruct action; cbn; [|split; [done|unfold steps_left; lia]..|].
  - destruct handoff; [split; [done|unfold steps_left; lia]|]. right. apply Hdone; auto.
  - rewrite !decide_True by done. destruct (_ <=? _) eqn:Em; to_prop; cbn.
    + destruct handoff; [by left|]. right. apply Hdone; auto.
    + split; [|unfold steps_left, steps_from_generate, tool_rounds in *; cbn; unfold verify_budget in *; lia].
      split_and!; try done. intros _. cbn. unfold redact_budget in *. split_and!; lia || done.
Qed.

Lemma handoff_step t : step_ok prepare_handoff t.
Proof.
  unfold step_ok. cbn [run_node edge]. unfold _prepare_handoff. rewrite bind_cases. cbn [update modify]. cbv beta iota.
  destruct (h_escalation _) as [f|]; [|by left]. rewrite bind_cases. cbn [state_of]. cbv beta iota. rewrite bind_cases.
  unfold attempt, call, lift. destruct (f _ _) as [[r|x] e]; by left.
Qed.

Lemma every_step n t : entered n (st t) -> step_ok n t.
Proof.
  destruct n; [apply process_step|apply retrieve_step|apply generate_step|apply tools_step|apply validate_step
    |apply policy_step|intros _; apply handoff_step].
Qed.

(** A run ends as it should, unless a node fails or it had too few steps. *)
Lemma invoke_ends limit n t : entered n (st t) ->
  match invoke self limit n t with
  | (Ret _, t') => finished (st t')
  | (Raise (TRaised _), _) => True
  | (Raise GraphRecursionError, _) => Z.of_nat limit < steps_left n (st t)
  | (Raise TNoFuel, _) => False
  end.
Proof.
  revert n t. induction limit as [|limit IH]; intros n t He.
  - pose proof (steps_positive n (st t) He). cbn. lia.
  - cbn [invoke]. rewrite bind_cases. pose proof (every_step n t He) as Hn. unfold step_ok in Hn.
    destruct (run_node self n t) as [[[]|[x| |]] t']; try done. rewrite bind_cases. cbn [state_of]. cbv beta iota.
    destruct (edge self n (st t')) as [n'|]; [|done]. destruct Hn as [He' Hs']. specialize (IH n' t' He').
    destruct (invoke self limit n' t') as [[[]|[x| |]] u]; try done. lia.
Qed.

(** The steps a whole turn may take. *)
Definition turn_steps : Z :=
  2 * Z.max 0 (max_tool_steps self) + 2 * verify_budget * redact_budget + redact_budget + 3.

Lemma process_message_ends i c cp e :
  match (process_message self i c cp e).1 with
  | Ret s => finished s
  | Raise (TRaised _) => True
  | Raise GraphRecursionError => max_graph_steps self < turn_steps
  | Raise TNoFuel => False
  end.
Proof.
  unfold process_message. set (t0 := start e _). rewrite bind_cases.
  assert (H0 : entered process_input (st t0)).
  { split_and!; [done..|]. intros _. cbn. unfold verify_budget, redact_budget. split_and!; lia || done. }
  assert (Hst : steps_left process_input (st t0) = turn_steps).
  { unfold steps_left, steps_from_generate, tool_rounds, turn_steps. cbn. lia. }
  pose proof (invoke_ends (Z.to_nat (max_graph_steps self)) _ _ H0) as Hi.
  destruct (invoke _ _ _ t0) as [[[]|[x| |]] t1]; try done; [|cbn; lia].
  rewrite bind_cases. cbn [state_of]. cbv beta iota. rewrite bind_cases.
  by destruct (emit_env (h_evidence (s_hooks self)) (decision_of (st t1)) t1) as [e' ->].
Qed.

(** C7: a turn ends.  Whatever the hooks do, a turn whose budgets fit the
    recursion limit is never cut off by it: the run returns a state or raises
    what a node raised.  The generate loop needs no more rounds than it is
    given. *)
Theorem turn_ends i c cp e : turn_steps <= max_graph_steps self ->
  (exists s, (process_message self i c cp e).1 = Ret s)
  \/ exists x, (process_message self i c cp e).1 = Raise (TRaised x).
Proof.
  intros Hb. pose proof (process_message_ends i c cp e) as H.
  destruct (process_message self i c cp e).1 as [s|[x| |]]; [by left; eexists|by right; eexists|lia|done].
Qed.

(** C6: what a turn answers without a handoff passed every check: the text is
    not empty, it is faithful to what was retrieved, the output validator let
    it through (or failed), its confidence reaches the tenant's threshold, and
    the tenant's policy allows it, or asks for a redaction after the budget of
    redactions is spent. *)
Theorem answer_checked i c cp e s : (process_message self i c cp e).1 = Ret s ->
  handoff_required (ruled s) = false -> settled s.
Proof.
  intros Hr Hh. pose proof (process_message_ends i c cp e) as H. rewrite Hr in H. destruct H as [H|H]; [congruence|done].
Qed.

(** C8: a round of tools.  It runs nothing without a registry, or once the
    tenant's budget of tool calls is spent; else every call ends, in whatever
    order the calls advance, with its two parts and its one result, and a
    tool's own answer stands only where the gate let the call run and its
    arguments are an object. *)
Theorem tools_accounted t : exists t', _execute_tools self t = (Ret tt, t') /\ tool_round t t'.
Proof. apply execute_tools_round. Qed.
End graph.
