(* ===== verification/TurnExamples.v ===== *)
(** * Concrete turns

    A service whose model answers from a script and logs the requests it is
    sent: runs of the turn, the witnesses of its theorems, and what the code
    does in some corners. *)

From S2P Require Import Prelude Json Catalog Types Context Tenant Governance Moderation Orchestration OrchestrationProps.

Module Scripted.

(** What the model still has to answer, and the requests so far. *)
Record world := { script : list (outcome turn_exc string); seen : list GatewayRequest; ran : list string }.

Definition answer_of (text : string) (calls : option (list ToolCall)) : GatewayResult := {|
  content := text; res_model := "m"; res_provider := "openai"; usage := no_usage; finish_reason := Some "stop";
  Types.tool_calls := calls; routed_via := "r"; attempts := 1; cached := false |}.

(** A text that starts with an exclamation mark asks for the tool it names. *)
Definition result_for (text : string) : GatewayResult :=
  match text with
  | String "!" name => answer_of EmptyString (Some [{| call_id := "1"; call_name := name; call_arguments := JObj [] |}])
  | _ => answer_of text None
  end.

Definition generate (r : GatewayRequest) : io world turn_exc GatewayResult := fun w =>
  match script w with
  | [] => (Raise (TOther "no answer"), Build_world [] (seen w ++ [r]) (ran w))
  | Ret text :: l => (Ret (result_for text), Build_world l (seen w ++ [r]) (ran w))
  | Raise x :: l => (Raise x, Build_world l (seen w ++ [r]) (ran w))
  end.

Definition tools : registry_hooks world := {|
  tool_schemas := [JObj [("name", JStr "clock")]];
  tool_execute name args w := ([("content", JStr "noon"); ("is_error", JBool false)],
                               Build_world (script w) (seen w) (ran w ++ [name])) |}.

Definition scripted_hooks (retrieve : option (string -> io world turn_exc (list retrieved * option string)))
    (authorizer : option (ToolCall -> io world turn_exc bool)) : hooks world := {|
  h_request_id := mret "id"; h_retrieve := retrieve; h_generate := generate;
  h_stream r A body a w := (None, a, w); h_stream_callback := None; h_compaction := None; h_memory := None;
  h_registry := Some tools; h_authorizer := authorizer; h_tool_callback := None; h_escalation := None;
  h_evidence := None; h_usage := None; h_output_validator := None; h_prompt_resolver := None |}.

Definition allow_all : PolicySet := {|
  ps_tenant_id := None; ps_name := "open"; ps_version := 1;
  rules := [{| rule_id := "r"; rule_name := "all"; policy_type := OUTPUT_VALIDATION; rule_action := ALLOW;
               conditions := []; priority := 0 |}] |}.
Definition no_rules : PolicySet := {| ps_tenant_id := None; ps_name := "none"; rules := []; ps_version := 1 |}.

Definition tenant : TenantConfig := new_tenant "t1" "T" "t" [] [] (1 # 2).

Definition service_of (h : hooks world) (ps : PolicySet) : service world := {|
  s_hooks := h; s_estimator := new_estimator []; s_catalog := ∅; s_output_reserve := 100; s_cache_markers := false;
  s_tenant_config := tenant; s_policy_set := ps; s_model_override := None; s_surface_id := None;
  s_end_user_id := None; s_preemptive_ratio := 9 # 10;
  s_exc_text x := match x with TOther m => m | _ => "error" end;
  s_repr _ := EmptyString; s_loads _ := None; s_float_text _ := "0"; s_schedule _ := [] |}.

Definition plain_service : service world := service_of (scripted_hooks None None) allow_all.

Definition message : turn_input :=
  {| session_id := "s"; user_message := "hi"; redacted_message := "hi"; conversation_history := [] |}.
Definition conversation : turn_context := Build_turn_context (Some "c1") None None None None None None.
Definition no_checkpoint : checkpoint := {| cp_summary := None; cp_position := None; cp_layers := None |}.
Definition world_of (l : list (outcome turn_exc string)) : world := Build_world l [] [].

Definition run (self : service world) (l : list (outcome turn_exc string)) : outcome run_exc AgentState * world :=
  process_message self message conversation no_checkpoint (world_of l).

(** The state at the end of a run. *)
Definition last (r : outcome run_exc AgentState * world) : AgentState :=
  match r.1 with Ret s => s | Raise _ => initial_state message conversation no_checkpoint end.

Definition fine : string := "The shop opens at nine on weekdays.".
End Scripted.
Import Scripted.

Lemma turn_ends_witness :
  turn_steps plain_service <= max_graph_steps plain_service
  /\ ((exists s, (run plain_service [Ret fine]).1 = Ret s)
      \/ exists x, (run plain_service [Ret fine]).1 = Raise (TRaised x)).
Proof.
  assert (H : turn_steps plain_service <= max_graph_steps plain_service) by by vm_compute.
  split; [exact H|]. exact (turn_ends plain_service message conversation no_checkpoint (world_of [Ret fine]) H).
Defined.

Lemma answer_checked_witness : settled plain_service (last (run plain_service [Ret fine])).
Proof.
  apply (answer_checked plain_service message conversation no_checkpoint (world_of [Ret fine])).
  - vm_compute. reflexivity.
  - vm_compute. reflexivity.
Defined.

(** A tool's answer reaches the model with the next request, and the turn ends
    with the model's text. *)
Example tool_then_answer :
  let r := run plain_service [Ret "!clock"; Ret fine] in
  let s := last r in
  model_response (answered s) = Some fine /\ ran r.2 = ["clock"]
  /\ tool_steps (tooled s) = 1 /\ length (tool_parts (tooled s)) = 2%nat
  /\ map (fun q => length (Types.tools q)) (seen r.2) = [1; 1]%nat.
Proof. vm_compute. done. Qed.

(** A tool the gate refuses does not run; the model is told so. *)
Example refused_tool :
  let r := run (service_of (scripted_hooks None (Some (fun _ => mret false))) allow_all) [Ret "!clock"; Ret fine] in
  ran r.2 = [] /\ map (fun l => field "blocked" l) (tool_results (tooled (last r))) = [Some (JBool true)].
Proof. vm_compute. done. Qed.

(** The fifth tool call is past the budget: the model is asked once more,
    without tools. *)
Example tool_budget :
  let r := run plain_service (replicate 5 (Ret "!clock") ++ [Ret fine]) in
  ran r.2 = replicate 4 "clock" /\ model_response (answered (last r)) = Some fine
  /\ map (fun q => length (Types.tools q)) (seen r.2) = [1; 1; 1; 1; 1; 0]%nat.
Proof. vm_compute. done. Qed.

(** The conversation of a turn is forgotten at its first node: the requests to
    the gateway carry none. *)
Example conversation_lost :
  map conversation_id (seen (run plain_service [Ret fine]).2) = [None]
  /\ cx_conversation_id (context (last (run plain_service [Ret fine]))) = None.
Proof. vm_compute. done. Qed.

(** A failure that the second attempt repairs is still reported: the answer
    passed every check, and the stream ends with an error. *)
Example error_outlives_retry :
  let r := run plain_service [Raise (TOther "timeout"); Ret fine] in
  model_response (answered (last r)) = Some fine /\ handoff_required (ruled (last r)) = false
  /\ error (answered (last r)) = Some "timeout" /\ final_event plain_service r.1 = MError "timeout".
Proof. vm_compute. done. Qed.

(** A blocked turn is handed off, and its text is still in the result. *)
Example blocked_text_released :
  let r := run (service_of (scripted_hooks None None) no_rules) [Ret fine] in
  policy_action (ruled (last r)) = BLOCK /\ handoff_required (ruled (last r)) = true
  /\ final_event plain_service r.1 = MResult fine (85 # 100) "BLOCK" true false [] (Some ungrounded).
Proof. vm_compute. done. Qed.

(** An answer that does not speak of what was retrieved is asked for once
    more, then handed off: a budget of two failures is one second attempt. *)
Example unfaithful_twice :
  let retrieve _ := mret ([{| rt_content := "Parking is free on Sundays."; rt_score := 1; rt_source := None;
                              rt_document_id := None; rt_chunk_id := None |}], None) in
  let r := run (service_of (scripted_hooks (Some retrieve) None) allow_all) [Ret "Quantum chromodynamics explains hadrons."; Ret "Quantum chromodynamics explains hadrons."; Ret fine] in
  length (seen r.2) = 2%nat /\ handoff_required (ruled (last r)) = true /\ verify_exhausted (reviewed (last r)) = true.
Proof. vm_compute. done. Qed.
