(* ===== verification/Summarizer.v ===== *)
(** * Conversation summaries (backend/app/application/compaction/service.py)

    The summary schema with its validation and rendering, and the generator
    that summarises the head of a thread with a language model: one call when
    the head fits the model's window, chunk and merge otherwise.  The adapter
    is a parameter: a call takes the text of the one user message and changes
    a state of the adapter's own.  [loads] is [json.loads]; it is a parameter
    because a reply may hold fractions, which the JSON values here leave out. *)

From S2P Require Import Prelude Json Catalog Context.

(** ** Summaries *)

Definition SUMMARY_FIELDS : list string :=
  ["objective"; "key_facts"; "decisions"; "pending_work"; "next_moves"].

Inductive compaction_exc :=
| SummaryValidationError (errors : list string)
| InvalidJSON
| CompactionAborted (why : string)
| PromptFormatError.

Record CompactionConfig := {
  preemptive_ratio : Q;
  reactive_ratio : Q;
  keep_tokens : Z;
  buffer_tokens : Z;
  max_output_tokens : Z;
  max_snapshot_messages : Z;
  max_failures : Z;
  truncation_keep_turns : Z;
  max_merge_depth : nat;
  max_summary_layers : nat;
  quality_check : bool;
  quality_threshold : Q;
}.

Definition DEFAULT_COMPACTION_CONFIG : CompactionConfig := {|
  preemptive_ratio := 70 # 100; reactive_ratio := 95 # 100; keep_tokens := 8000; buffer_tokens := 20000;
  max_output_tokens := 4096; max_snapshot_messages := 1000; max_failures := 3;
  truncation_keep_turns := 10; max_merge_depth := 4; max_summary_layers := 5; quality_check := false;
  quality_threshold := 6 # 10 |}.

Definition is_string (v : json) : bool := match v with JStr _ => true | _ => false end.

(** The violations of one field. *)
Definition field_errors (payload : list (string * json)) (name : string) : list string :=
  match field name payload with
  | None => ["missing field '" +:+ name +:+ "'"]
  | Some v =>
      if decide (name = "objective") then
        match v with
        | JStr s => if truthy (strip s) then [] else ["'objective' must be a non-empty string"]
        | _ => ["'objective' must be a non-empty string"]
        end
      else match v with
           | JList l => if forallb is_string l then [] else ["'" +:+ name +:+ "' must be a list of strings"]
           | _ => ["'" +:+ name +:+ "' must be a list of strings"]
           end
  end.

Definition validate (payload : json) : list string :=
  match payload with
  | JObj fs => List.flat_map (field_errors fs) SUMMARY_FIELDS
  | _ => ["summary payload must be a JSON object"]
  end.

(** [field_name.replace("_", " ").title()] *)
Fixpoint title_from (start : bool) (s : string) : string :=
  match s with
  | EmptyString => EmptyString
  | String a s' =>
      let n := Ascii.nat_of_ascii a in
      if (n =? 95)%nat then String " " (title_from true s')
      else if start && ((97 <=? n) && (n <=? 122))%nat
      then String (Ascii.ascii_of_nat (n - 32)) (title_from false s')
      else String a (title_from false s')
  end.

Definition label_of (name : string) : string := title_from true name.

(** [payload.get(name) or []] of a valid payload. *)
Definition values_of (payload : json) (name : string) : list string :=
  match get_field name payload with
  | Some (JList l) => omap (fun v => match v with JStr s => Some s | _ => None end) l
  | _ => []
  end.

Definition section_lines (payload : json) (name : string) : list string :=
  match values_of payload name with
  | [] => []
  | vs => (label_of name +:+ ":") :: map (fun v => "- " +:+ v) vs
  end.

Definition objective_of (payload : json) : string :=
  match get_field "objective" payload with Some (JStr s) => s | _ => EmptyString end.

(** [SummarySchema.render]; it is called on valid payloads only. *)
Definition render_summary (payload : json) : string :=
  join newline (("Objective: " +:+ objective_of payload)
                :: List.flat_map (section_lines payload) (tail SUMMARY_FIELDS)).

(** ** Prompts *)

(** [template.format( **fields )] for templates whose replacement fields are
    bare names; anything else between braces is an error. *)
Fixpoint lookup_field (fields : list (string * string)) (t : string) : option (string * string) :=
  match fields with
  | [] => None
  | (name, v) :: fs => if String.prefix (name +:+ "}") t then Some (name, v) else lookup_field fs t
  end.

Fixpoint format_from (fields : list (string * string)) (skip : nat) (t : string) : option string :=
  match t with
  | EmptyString => match skip with O => Some EmptyString | S _ => None end
  | String a t' =>
      match skip with
      | S k => format_from fields k t'
      | O =>
          if decide (a = "{"%char) then
            if String.prefix "{" t' then String "{" <$> format_from fields 1 t'
            else match lookup_field fields t' with
                 | Some (name, v) => String.append v <$> format_from fields (S (String.length name)) t'
                 | None => None
                 end
          else if decide (a = "}"%char) then
            if String.prefix "}" t' then String "}" <$> format_from fields 1 t' else None
          else String a <$> format_from fields 0 t'
      end
  end.

Definition format_prompt (fields : list (string * string)) (t : string) : option string := format_from fields 0 t.

Example format_prompt_example :
  format_prompt [("conversation", "{x}")] "a {{ {conversation}}} b" = Some "a { {x}} b"
  /\ format_prompt [("conversation", "x")] "{ 'objective': 1 }" = None.
Proof. by vm_compute. Qed.

(** [s.strip(chars)] *)
Fixpoint lstrip_if (p : ascii -> bool) (s : string) : string :=
  match s with
  | EmptyString => EmptyString
  | String a s' => if p a then lstrip_if p s' else s
  end.
Definition strip_if (p : ascii -> bool) (s : string) : string :=
  String.rev (lstrip_if p (String.rev (lstrip_if p s))).
Definition one_of (chars : string) (a : ascii) : bool := existsb (Ascii.eqb a) (list_ascii_of_string chars).

Fixpoint drop_chars (n : nat) (s : string) : string :=
  match n, s with
  | S k, String _ s' => drop_chars k s'
  | _, _ => s
  end.

(** The text of a reply without a code fence. *)
Definition unfenced (text : string) : string :=
  let cleaned := strip text in
  if String.prefix "```" cleaned then
    let cleaned := strip_if (one_of "`") cleaned in
    if String.prefix "json" (lower cleaned) then strip (drop_chars 4 cleaned) else cleaned
  else cleaned.

(** ** The generator *)

Record turn := { tr_role : string; tr_text : string }.

(** The role of a pseudo turn that carries the summary of a chunk. *)
Definition summary_turn (text : string) : turn := {| tr_role := "summary"; tr_text := text |}.

Definition has_text (t : turn) : bool := truthy (tr_text t).

Definition transcript (turns : list turn) : string :=
  join newline (map (fun t => tr_role t +:+ ": " +:+ tr_text t) (List.filter has_text turns)).

Section generator.
Context (est : TokenEstimator) (catalog : ModelCatalog) (provider model prompt : string)
  (config : CompactionConfig) (loads : string -> option json).
Context {L : Type} (chat : string -> io L string string).

Definition summarizer_window : Z := window_of catalog provider model - max_output_tokens config - 4096.

Definition turn_tokens (t : turn) : Z := estimate est (tr_text t) None None.

(** [_chunk_turns]: [current] is the chunk being filled, of [acc] tokens. *)
Fixpoint chunk_loop (window : Z) (current : list turn) (acc : Z) (turns : list turn)
  : list (list turn) + compaction_exc :=
  match turns with
  | [] => inl (match current with [] => [] | _ => [current] end)
  | t :: ts =>
      let tokens := turn_tokens t in
      if window <? tokens then inr (CompactionAborted "single turn exceeds summarizer context")
      else
        match current with
        | _ :: _ =>
            if window <? acc + tokens then
              match chunk_loop window [t] tokens ts with
              | inl chunks => inl (current :: chunks)
              | inr e => inr e
              end
            else chunk_loop window (current ++ [t]) (acc + tokens) ts
        | [] => chunk_loop window [t] (acc + tokens) ts
        end
  end.

Definition _chunk_turns (turns : list turn) (window : Z) : list (list turn) + compaction_exc :=
  chunk_loop window [] 0 turns.

Definition _parse_json (text : string) : json + compaction_exc :=
  match loads (unfenced text) with
  | Some v => inl v
  | None => inr InvalidJSON
  end.

Definition of_result {A} (r : A + compaction_exc) : io L compaction_exc A :=
  match r with inl a => mret a | inr e => throw e end.

(** One call; a reply counts only when it is a valid payload. *)
Definition _summarize_turns (turns : list turn) : io L compaction_exc json :=
  text ← of_result (match format_prompt [("conversation", transcript turns)] prompt with
                    | Some t => inl t
                    | None => inr PromptFormatError
                    end);
  reply ← try_catch (chat text) (fun e => throw (CompactionAborted ("summarizer call failed: " +:+ e)));
  payload ← of_result (_parse_json reply);
  match validate payload with
  | [] => mret payload
  | errors => throw (SummaryValidationError errors)
  end.

Fixpoint map_io {A B} (f : A -> io L compaction_exc B) (l : list A) : io L compaction_exc (list B) :=
  match l with
  | [] => mret []
  | x :: l' => y ← f x; ys ← map_io f l'; mret (y :: ys)
  end.

(** [_merge]; [rounds] is [max_merge_depth - depth]. *)
Fixpoint _merge (rounds : nat) (turns : list turn) : io L compaction_exc json :=
  chunks ← of_result (_chunk_turns turns summarizer_window);
  match chunks with
  | [chunk] => _summarize_turns chunk
  | _ =>
      match rounds with
      | O => throw (CompactionAborted "chunk-and-merge did not converge")
      | S r =>
          rendered ← map_io (fun chunk => payload ← _summarize_turns chunk; mret (render_summary payload)) chunks;
          _merge r (map summary_turn rendered)
      end
  end.

Definition summarize (head_turns : list turn) : io L compaction_exc json :=
  match List.filter has_text head_turns with
  | [] => throw (CompactionAborted "nothing to summarize (empty head)")
  | turns => _merge (max_merge_depth config) turns
  end.

(** ** Chunks *)

Definition total_tokens_of (c : list turn) : Z := foldr (fun t acc => turn_tokens t + acc) 0 c.

Lemma total_tokens_app c d : total_tokens_of (c ++ d) = total_tokens_of c + total_tokens_of d.
Proof. unfold total_tokens_of. induction c as [|t c IH]; cbn; [done|]. rewrite IH. lia. Qed.

(** No chunk has room for the first turn of the next one. *)
Fixpoint greedy (window : Z) (chunks : list (list turn)) : Prop :=
  match chunks with
  | c :: (((t :: _) :: _) as chunks') => window < total_tokens_of c + turn_tokens t /\ greedy window chunks'
  | _ => True
  end.

Definition fits (window : Z) (c : list turn) : Prop := c <> [] /\ total_tokens_of c <= window.

Lemma chunk_loop_spec window turns : forall current cs,
  (current = [] \/ fits window current) ->
  chunk_loop window current (total_tokens_of current) turns = inl cs ->
  concat cs = current ++ turns /\ Forall (fits window) cs /\ greedy window cs
  /\ (current <> [] -> exists c cs', cs = (current ++ c) :: cs').
Proof.
  induction turns as [|t ts IH]; intros current cs Hc E; cbn [chunk_loop] in E.
  - injection E as <-. destruct current as [|c cs]; [by repeat split|]. rewrite app_nil_r.
    destruct Hc as [?|Hc]; [done|]. cbn. rewrite app_nil_r. split_and!; [done|by apply Forall_singleton|done|].
    intros _. by exists [], []; rewrite app_nil_r.
  - destruct (window <? turn_tokens t) eqn:Et; [done|]. to_prop.
    assert (Hone : total_tokens_of [t] = turn_tokens t) by (unfold total_tokens_of; cbn; lia).
    assert (Hfit : fits window [t]) by (split; [done|lia]).
    destruct current as [|x current].
    + change (total_tokens_of []) with 0 in E. rewrite Z.add_0_l, <- Hone in E.
      apply IH in E as (H1 & H2 & H3 & _); [by split_and!|by right].
    + destruct Hc as [?|Hc]; [done|]. set (cur := x :: current) in *.
      destruct (window <? _) eqn:Ea; to_prop.
      * rewrite <- Hone in E. destruct (chunk_loop window [t] _ ts) as [cs'|e] eqn:E'; [|done].
        injection E as <-. apply IH in E' as (H1 & H2 & H3 & H4); [|by right].
        destruct (H4 ltac:(done)) as (c & cs'' & ->). cbn [app] in *. split_and!.
        -- by rewrite <- H1.
        -- by constructor.
        -- cbn [greedy]. done.
        -- intros _. exists [], (([t] ++ c) :: cs''). by rewrite app_nil_r.
      * rewrite <- Hone, <- total_tokens_app in E. apply IH in E as (H1 & H2 & H3 & H4).
        -- rewrite <- app_assoc in H1. split_and!; [done|done|done|].
           intros _. destruct (H4 ltac:(by destruct cur)) as (c & cs' & ->).
           exists (t :: c), cs'. by rewrite <- app_assoc.
        -- right. split; [by destruct cur|]. rewrite total_tokens_app. lia.
Qed.

Lemma chunk_loop_total window turns : forall current acc,
  Forall (fun t => turn_tokens t <= window) turns -> exists cs, chunk_loop window current acc turns = inl cs.
Proof.
  induction turns as [|t ts IH]; intros current acc Hall; cbn [chunk_loop]; [by eexists|].
  apply Forall_cons in Hall as [Ht Hall]. replace (window <? turn_tokens t) with false by (symmetry; by apply Z.ltb_ge).
  destruct current as [|x cur]; [by apply IH|]. destruct (_ <? _); [|by apply IH].
  destruct (IH [t] (turn_tokens t) Hall) as [cs ->]. by eexists.
Qed.

Lemma chunk_loop_error window turns : forall current acc e,
  chunk_loop window current acc turns = inr e -> Exists (fun t => window < turn_tokens t) turns.
Proof.
  induction turns as [|t ts IH]; intros current acc e E; cbn [chunk_loop] in E; [done|].
  destruct (window <? turn_tokens t) eqn:Et; to_prop; [by left|right].
  destruct current as [|x cur]; [by eapply IH|]. destruct (_ <? _); [|by eapply IH].
  destruct (chunk_loop window [t] _ ts) as [|e'] eqn:E'; [done|]. by eapply IH.
Qed.

Lemma chunk_loop_error_text window turns : forall current acc e,
  chunk_loop window current acc turns = inr e -> e = CompactionAborted "single turn exceeds summarizer context".
Proof.
  induction turns as [|t ts IH]; intros current acc e E; cbn [chunk_loop] in E; [done|].
  destruct (window <? turn_tokens t); [by simplify_eq|].
  destruct current as [|x cur]; [by eapply IH|]. destruct (_ <? _); [|by eapply IH].
  destruct (chunk_loop window [t] _ ts) as [|e'] eqn:E'; [done|]. simplify_eq. by eapply IH.
Qed.

(** Chunking loses nothing: the chunks are consecutive and non-empty, make up
    the turns, each fits the window, and none could have taken the first turn
    of the next; it is refused exactly when a single turn is too large. *)
Theorem chunk_turns_spec (turns : list turn) (window : Z) :
  match _chunk_turns turns window with
  | inl chunks => concat chunks = turns /\ Forall (fits window) chunks /\ greedy window chunks
  | inr _ => Exists (fun t => window < turn_tokens t) turns
  end.
Proof.
  unfold _chunk_turns. destruct (chunk_loop window [] 0 turns) as [cs|e] eqn:E.
  - change 0 with (total_tokens_of []) in E. by apply chunk_loop_spec in E as (H1 & H2 & H3 & _); [|left].
  - by apply chunk_loop_error in E.
Qed.

(** ** Sizes *)

(** The message of a call over [c]: the prompt around the turns of [c]. *)
Definition prompt_of (c : list turn) : option string := format_prompt [("conversation", transcript c)] prompt.

(** What the transcript of [c] adds to its texts: the roles and the line ends. *)
Definition role_label (t : turn) : string := tr_role t +:+ ": ".
Definition labels (c : list turn) : string := join newline (map role_label c).

Definition chars (l : list string) : nat := sum_list (String.length <$> l).

Lemma length_join sep l :
  String.length (join sep l) = (chars l + pred (length l) * String.length sep)%nat.
Proof.
  unfold chars. induction l as [|x [|y l] IH]; [done|by cbn; lia|].
  change (join sep (x :: y :: l)) with (x +:+ sep +:+ join sep (y :: l)). rewrite !string_length_app, IH. cbn. lia.
Qed.

Lemma transcript_length c :
  (String.length (transcript c) <= chars (map tr_text c) + String.length (labels c))%nat.
Proof.
  unfold transcript, labels. rewrite !length_join, !length_map. change (String.length newline) with 1%nat.
  pose proof (List.filter_length_le has_text c) as Hle.
  enough (chars (map (fun t => tr_role t +:+ ": " +:+ tr_text t) (List.filter has_text c))
          <= chars (map tr_text c) + chars (map role_label c))%nat by lia.
  clear Hle. unfold chars, role_label.
  induction c as [|t c IH]; [done|]. cbn [List.filter]. destruct (has_text t); cbn; rewrite ?string_length_app; cbn; lia.
Qed.

Lemma Qceiling_plus a b : Qceiling (a + b) <= Qceiling a + Qceiling b.
Proof.
  replace (Qceiling a + Qceiling b) with (Qceiling (inject_Z (Qceiling a + Qceiling b))) by apply Qceiling_Z.
  apply Qceiling_resp_le. rewrite inject_Z_plus. apply Qplus_le_compat; apply Qle_ceiling.
Qed.

(** The tokens of a text of [n] characters, as [estimate] counts them. *)
Definition tokens_of (n : nat) : Z :=
  let per := chars_per_token est None None in
  if per <=?q 0 then 0 else Qceiling (inject_Z (Z.of_nat n) / per).

Lemma estimate_tokens text : estimate est text None None = tokens_of (String.length text).
Proof.
  unfold estimate, tokens_of. destruct text as [|a text]; [|done]. destruct (_ <=?q 0) eqn:E; [done|].
  cbn [String.length]. by rewrite (Qceiling_comp _ 0%Q) by (unfold Qdiv; apply Qmult_0_l).
Qed.

Lemma tokens_of_mono n m : (n <= m)%nat -> tokens_of n <= tokens_of m.
Proof.
  intros Hle. unfold tokens_of. destruct (_ <=?q 0) eqn:E; [done|].
  apply Qceiling_resp_le. unfold Qdiv. apply Qmult_le_compat_r.
  - rewrite <- Zle_Qle. lia.
  - apply Qleb_false in E. by apply Qlt_le_weak, Qinv_lt_0_compat.
Qed.

Lemma tokens_of_plus n m : tokens_of (n + m) <= tokens_of n + tokens_of m.
Proof.
  unfold tokens_of. destruct (_ <=?q 0); [done|]. rewrite Nat2Z.inj_add, inject_Z_plus.
  unfold Qdiv. rewrite (Qceiling_comp _ _ (Qmult_plus_distr_l _ _ _)). apply Qceiling_plus.
Qed.

Lemma chars_tokens c : tokens_of (chars (map tr_text c)) <= total_tokens_of c.
Proof.
  unfold chars, total_tokens_of. induction c as [|t c IH]; cbn.
  - pose proof (estimate_tokens EmptyString) as E. cbn in E. by rewrite <- E.
  - unfold turn_tokens at 1. rewrite estimate_tokens. etransitivity; [apply tokens_of_plus|]. lia.
Qed.

(** The transcript of a chunk that fits is at most its labels above the window. *)
Lemma transcript_tokens window c : fits window c ->
  estimate est (transcript c) None None <= window + estimate est (labels c) None None.
Proof.
  intros [_ Hfit]. rewrite !estimate_tokens. etransitivity; [apply tokens_of_mono, transcript_length|].
  etransitivity; [apply tokens_of_plus|]. pose proof (chars_tokens c). lia.
Qed.

(** ** The calls of a run *)

(** What a reply of the model counts for. *)
Definition reading (reply : outcome string string) : outcome compaction_exc json :=
  match reply with
  | Raise e => Raise (CompactionAborted ("summarizer call failed: " +:+ e))
  | Ret text =>
      match loads (unfenced text) with
      | None => Raise InvalidJSON
      | Some payload => match validate payload with [] => Ret payload | es => Raise (SummaryValidationError es) end
      end
  end.

(** One call over the turns [c]: their prompt is the one text sent, and the
    reply of the model decides; a prompt that cannot be written sends nothing. *)
Definition called (c : list turn) (texts : list string) (r : outcome compaction_exc json) : Prop :=
  match prompt_of c with
  | Some text => texts = [text] /\ exists s, r = reading (chat text s).1
  | None => texts = [] /\ r = Raise PromptFormatError
  end.

Inductive all_called : list (list turn) -> list string -> list json -> Prop :=
| called_none : all_called [] [] []
| called_next c cs ts ts' p ps :
    called c ts (Ret p) -> all_called cs ts' ps -> all_called (c :: cs) (ts ++ ts') (p :: ps).

(** The turns cut into consecutive chunks, each as full as the window allows. *)
Definition partition (turns : list turn) (chunks : list (list turn)) : Prop :=
  concat chunks = turns /\ Forall (fits summarizer_window) chunks /\ greedy summarizer_window chunks.

(** A run over [turns] with [rounds] rounds left: the texts it sends, in
    order, and its result. *)
Inductive merge_run : nat -> list turn -> list string -> outcome compaction_exc json -> Prop :=
| run_too_large n turns :
    Exists (fun t => summarizer_window < turn_tokens t) turns ->
    merge_run n turns [] (Raise (CompactionAborted "single turn exceeds summarizer context"))
| run_one n turns c texts r :
    partition turns [c] -> called c texts r -> merge_run n turns texts r
| run_stop turns chunks :
    partition turns chunks -> length chunks <> 1%nat ->
    merge_run 0 turns [] (Raise (CompactionAborted "chunk-and-merge did not converge"))
| run_cut n turns before c after texts ps texts' e :
    partition turns (before ++ c :: after) -> length (before ++ c :: after) <> 1%nat ->
    all_called before texts ps -> called c texts' (Raise e) ->
    merge_run (S n) turns (texts ++ texts') (Raise e)
| run_round n turns chunks texts ps rest r :
    partition turns chunks -> length chunks <> 1%nat -> all_called chunks texts ps ->
    merge_run n (map (fun p => summary_turn (render_summary p)) ps) rest r ->
    merge_run (S n) turns (texts ++ rest) r.

Lemma reading_valid reply p : reading reply = Ret p -> validate p = [].
Proof.
  unfold reading. destruct reply as [text|e]; [|done]. destruct (loads _) as [v|]; [|done].
  destruct (validate v) eqn:E; [|done]. by intros [= <-].
Qed.

Lemma called_valid c texts p : called c texts (Ret p) -> validate p = [].
Proof. unfold called. destruct (prompt_of c); [|by intros [_ ?]]. intros [_ [s0 Hs]]. symmetry in Hs. by eapply reading_valid. Qed.

Lemma called_length c texts r : called c texts r -> (length texts <= 1)%nat.
Proof. unfold called. destruct (prompt_of c); intros [-> _]; cbn; lia. Qed.

Lemma all_called_length cs texts ps :
  all_called cs texts ps -> (length texts <= length cs)%nat /\ length ps = length cs.
Proof.
  induction 1 as [|c cs ts ts' p ps Hc _ [IH1 IH2]]; [done|]. apply called_length in Hc.
  rewrite length_app. cbn. lia.
Qed.

Lemma partition_count turns chunks : partition turns chunks -> (length chunks <= length turns)%nat.
Proof.
  intros (<- & Hf & _). induction Hf as [|c cs [Hc _] _ IH]; [done|]. cbn [concat length]. rewrite length_app.
  destruct c; [done|]. cbn [length]. lia.
Qed.

(** A text sent is the prompt around a chunk that fits the window. *)
Definition sized (text : string) : Prop :=
  exists c, prompt_of c = Some text /\ c <> [] /\ total_tokens_of c <= summarizer_window
    /\ estimate est (transcript c) None None <= summarizer_window + estimate est (labels c) None None.

Lemma called_sized c texts r : fits summarizer_window c -> called c texts r -> Forall sized texts.
Proof.
  unfold called. intros Hc. destruct (prompt_of c) as [text|] eqn:E; intros [-> _]; [|done].
  apply Forall_singleton. exists c. destruct Hc as [Hne Hle]. split_and!; [done..|]. by apply transcript_tokens.
Qed.

Lemma all_called_sized cs texts ps :
  Forall (fits summarizer_window) cs -> all_called cs texts ps -> Forall sized texts.
Proof.
  intros Hf H. induction H as [|c cs ts ts' p ps Hc _ IH]; [done|]. apply Forall_cons in Hf as [Hfc Hf].
  apply Forall_app. split; [by eapply called_sized|by apply IH].
Qed.

Lemma merge_run_facts n turns texts r : merge_run n turns texts r ->
  (length texts <= S n * length turns)%nat /\ Forall sized texts /\ (forall p, r = Ret p -> validate p = []).
Proof.
  induction 1 as [n turns _|n turns c texts r Hp Hc|turns chunks _ _
    |n turns before c after texts ps texts' e Hp _ Ha Hc|n turns chunks texts ps rest r Hp _ Ha _ (IH1 & IH2 & IH3)].
  - split_and!; [cbn; lia|done|done].
  - pose proof (partition_count _ _ Hp) as Hn. destruct Hp as (_ & Hf & _). apply Forall_cons in Hf as [Hf _].
    pose proof (called_length _ _ _ Hc). split_and!; [cbn in *; nia|by eapply called_sized|].
    intros p ->. by eapply called_valid.
  - split_and!; [cbn; lia|done|done].
  - pose proof (partition_count _ _ Hp) as Hn. destruct Hp as (_ & Hf & _).
    apply Forall_app in Hf as [Hf1 Hf2]. apply Forall_cons in Hf2 as [Hf2 _].
    pose proof (called_length _ _ _ Hc). destruct (all_called_length _ _ _ Ha) as [? _].
    rewrite length_app in *. cbn [length] in *. split_and!; [nia| |done].
    apply Forall_app. split; [by eapply all_called_sized|by eapply called_sized].
  - pose proof (partition_count _ _ Hp) as Hn. destruct Hp as (_ & Hf & _).
    destruct (all_called_length _ _ _ Ha) as [? Hps]. rewrite length_map in IH1.
    rewrite length_app. split_and!; [nia| |done]. apply Forall_app. split; [by eapply all_called_sized|done].
Qed.

Context (sent : L -> list string).
Context (chat_sends : forall text s, sent (chat text s).2 = sent s ++ [text]).

Lemma summarize_turns_called c s :
  exists texts, sent (_summarize_turns c s).2 = sent s ++ texts /\ called c texts (_summarize_turns c s).1.
Proof.
  unfold _summarize_turns, called, mbind, io_bind, try_catch, throw. fold (prompt_of c).
  destruct (prompt_of c) as [text|]; cbn [of_result]; unfold mret, io_ret.
  2:{ exists []. by rewrite app_nil_r. }
  exists [text]. pose proof (chat_sends text s) as Hs. destruct (chat text s) as [[reply|e] s'] eqn:E; cbn [snd] in Hs.
  2:{ split; [done|]. split; [done|]. exists s. by rewrite E. }
  unfold _parse_json. enough (Hr : forall c', c' = reading (chat text s).1 -> exists s0, c' = reading (chat text s0).1)
    by (revert Hr; rewrite E; cbn [reading fst]; destruct (loads _) as [v|]; cbn [of_result]; unfold mret, io_ret, throw;
        [destruct (validate v) eqn:Ev|]; cbn; rewrite ?Ev; intros Hr; (split; [done|]; split; [done|]; by apply Hr)).
  intros c' ->. by exists s.
Qed.

Lemma map_called chunks : forall s,
  match map_io (fun chunk => payload ← _summarize_turns chunk; mret (render_summary payload)) chunks s with
  | (Ret ys, s') => exists texts ps, sent s' = sent s ++ texts /\ all_called chunks texts ps /\ ys = map render_summary ps
  | (Raise e, s') => exists before c after texts ps texts', sent s' = sent s ++ texts ++ texts'
      /\ chunks = before ++ c :: after /\ all_called before texts ps /\ called c texts' (Raise e)
  end.
Proof.
  induction chunks as [|c cs IH]; intros s; cbn [map_io]; unfold mbind, io_bind, mret, io_ret in *.
  { exists [], []. rewrite app_nil_r. split_and!; [done|constructor|done]. }
  destruct (summarize_turns_called c s) as (ts & E1 & Hc).
  destruct (_summarize_turns c s) as [[p|e] s1]; cbn [fst snd] in *.
  2:{ exists [], c, cs, [], [], ts. cbn [app]. split_and!; [done|done|constructor|done]. }
  specialize (IH s1). destruct (map_io _ cs s1) as [[ys|e] s2].
  - destruct IH as (ts' & ps & E2 & Ha & ->). exists (ts ++ ts'), (p :: ps). rewrite E2, E1, app_assoc.
    split_and!; [done|by constructor|done].
  - destruct IH as (before & c' & after & ts' & ps & ts'' & E2 & -> & Ha & Hc').
    exists (c :: before), c', after, (ts ++ ts'), (p :: ps), ts''. rewrite E2, E1, !app_assoc.
    split_and!; [done|done|by constructor|done].
Qed.

Lemma merge_runs rounds : forall turns s,
  exists texts, sent (_merge rounds turns s).2 = sent s ++ texts /\ merge_run rounds turns texts (_merge rounds turns s).1.
Proof.
  induction rounds as [|n IH]; intros turns s; cbn [_merge]; unfold mbind at 1, io_bind at 1;
    pose proof (chunk_turns_spec turns summarizer_window) as Hs;
    destruct (_chunk_turns turns summarizer_window) as [chunks|e] eqn:Ec; cbn [of_result]; unfold mret, io_ret, throw.
  - destruct (decide (length chunks = 1%nat)) as [H1|H1].
    + destruct chunks as [|c [|c' cs]]; try done. destruct (summarize_turns_called c s) as (ts & E & Hc).
      exists ts. split; [done|]. by eapply run_one.
    + exists []. assert (Hr := run_stop turns chunks Hs H1). destruct chunks as [|c [|c' cs]]; by rewrite ?app_nil_r.
  - exists []. rewrite app_nil_r. split; [done|]. apply chunk_loop_error_text in Ec as ->. by constructor.
  - destruct (decide (length chunks = 1%nat)) as [H1|H1].
    { destruct chunks as [|c [|c' cs]]; try done. destruct (summarize_turns_called c s) as (ts & E & Hc).
      exists ts. split; [done|]. by eapply run_one. }
    set (many := (rendered ← map_io (fun chunk => payload ← _summarize_turns chunk; mret (render_summary payload)) chunks;
                  _merge n (map summary_turn rendered)) s).
    assert (Hmany : exists texts, sent many.2 = sent s ++ texts /\ merge_run (S n) turns texts many.1).
    { remember many as r eqn:Er. subst many. unfold mbind at 1, io_bind at 1 in Er. pose proof (map_called chunks s) as Hm.
      destruct (map_io _ chunks s) as [[ys|e] s1]; subst r.
      - destruct Hm as (ts & ps & E1 & Ha & ->). destruct (IH (map summary_turn (map render_summary ps)) s1) as (ts' & E2 & Hr).
        exists (ts ++ ts'). rewrite E2, E1, app_assoc. split; [done|]. rewrite map_map in *. by eapply run_round.
      - destruct Hm as (before & c & after & ts & ps & ts' & E & -> & Ha & Hc). exists (ts ++ ts').
        split; [done|]. by eapply run_cut. }
    by destruct chunks as [|c [|c' cs]].
  - exists []. rewrite app_nil_r. split; [done|]. apply chunk_loop_error_text in Ec as ->. by constructor.
Qed.

(** C33: Summarising a head always ends, as a run of [merge_run] over the turns
    that carry text: each round cuts the turns into consecutive chunks that fit
    the window, greedily, sends exactly the prompts around these chunks in
    order, and the next round takes the rendered summaries; a run stops at one
    chunk, a turn that is too large, a failed call or the last round.  So there
    is at most one call per turn and round, each text sent is the prompt around
    turns that fit the window (their transcript exceeds it by the role labels
    at most), and a summary returned passed validation. *)
Theorem summarize_spec (head_turns : list turn) (s : L) :
  match summarize head_turns s with
  | (r, s') =>
      exists texts, sent s' = sent s ++ texts
        /\ match List.filter has_text head_turns with
           | [] => texts = [] /\ r = Raise (CompactionAborted "nothing to summarize (empty head)")
           | turns => merge_run (max_merge_depth config) turns texts r
           end
        /\ (length texts <= S (max_merge_depth config) * length head_turns)%nat
        /\ Forall sized texts
        /\ (forall p, r = Ret p -> validate p = [])
  end.
Proof.
  unfold summarize. pose proof (List.filter_length_le has_text head_turns) as Hle.
  destruct (List.filter has_text head_turns) as [|t ts] eqn:Ef.
  - cbn. exists []. rewrite app_nil_r. split_and!; [done|done|done|cbn; lia|done|done].
  - destruct (merge_runs (max_merge_depth config) (t :: ts) s) as (texts & Hs & Hr).
    destruct (_merge _ _ s) as [r s']. exists texts. destruct (merge_run_facts _ _ _ _ Hr) as (Hn & Hw & Hv).
    split_and!; [done|done|nia|done|done].
Qed.

End generator.

(** ** A concrete generator

    One character is one token; the model answers every call with the same
    payload. *)

Module GeneratorSample.
Definition est : TokenEstimator := new_estimator [("default", 1%Q)].
Definition payload : json :=
  JObj [("objective", JStr "refund"); ("key_facts", JList [JStr "paid"]); ("decisions", JList []);
        ("pending_work", JList []); ("next_moves", JList [])].
Definition loads (s : string) : option json := if decide (s = "P") then Some payload else None.
Definition chat (text : string) (log : list string) : outcome string string * list string :=
  (Ret ("```json P```"), log ++ [text]).
Definition config : CompactionConfig := {|
  preemptive_ratio := 70 # 100; reactive_ratio := 95 # 100; keep_tokens := 10; buffer_tokens := 0;
  max_output_tokens := window_of ∅ "p" "m" - 4096 - 40; max_snapshot_messages := 1000; max_failures := 3;
  truncation_keep_turns := 2; max_merge_depth := 4; max_summary_layers := 2; quality_check := false;
  quality_threshold := 6 # 10 |}.
Definition said (role text : string) : turn := {| tr_role := role; tr_text := text |}.
Definition head : list turn :=
  [said "user" "I want a refund for my order"; said "assistant" "we are looking into it"; said "user" EmptyString].
Definition run (turns : list turn) : outcome compaction_exc json * list string :=
  summarize est ∅ "p" "m" "Summarize: {conversation}" config loads chat turns [].
End GeneratorSample.

(** Two chunks, then rounds that cannot merge the summaries of 35
    characters each: more rounds do not converge. *)
Example merge_does_not_converge :
  (GeneratorSample.run GeneratorSample.head).1 = Raise (CompactionAborted "chunk-and-merge did not converge")
  /\ length (GeneratorSample.run GeneratorSample.head).2 = 8%nat
  /\ (GeneratorSample.run (drop 1 GeneratorSample.head)).1 = Ret GeneratorSample.payload.
Proof. by vm_compute. Qed.

Lemma summarize_spec_witness :
  let '(r, s') := GeneratorSample.run GeneratorSample.head in
  exists texts, s' = [] ++ texts
    /\ match List.filter has_text GeneratorSample.head with
       | [] => texts = [] /\ r = Raise (CompactionAborted "nothing to summarize (empty head)")
       | turns =>
           merge_run GeneratorSample.est ∅ "p" "m" "Summarize: {conversation}" GeneratorSample.config
             GeneratorSample.loads GeneratorSample.chat 4 turns texts r
       end
    /\ (length texts <= 5 * 3)%nat
    /\ Forall (sized GeneratorSample.est ∅ "p" "m" "Summarize: {conversation}" GeneratorSample.config) texts
    /\ (forall p, r = Ret p -> validate p = []).
Proof.
  apply (summarize_spec GeneratorSample.est ∅ "p" "m" "Summarize: {conversation}" GeneratorSample.config
           GeneratorSample.loads GeneratorSample.chat id).
  reflexivity.
Defined.
