(* ===== verification/SummaryQuality.v ===== *)
(** * Quality of summaries (backend/app/application/compaction/eval.py)

    Round-trip fact retention: scorers of a rendered summary, the extraction
    of probes from turns, the evaluation of labelled cases and the tuning
    harness.  The texts of the judge and probe prompts are parameters, and
    ratios are exact rationals; reading and checking dataset files is left
    out. *)

From S2P Require Import Prelude Json Catalog Threads Context Summarizer.

(** ** Scorers *)

Record FactProbe := { fp_id : string; fp_question : string; fp_answer : string }.
Record FactVerdict := { probe_id : string; passed : bool; reason : option string }.

(** [re.sub(r"\s+", " ", text)]; [after_space] says that a space was just written. *)
Fixpoint collapse_spaces (after_space : bool) (s : string) : string :=
  match s with
  | EmptyString => EmptyString
  | String a s' =>
      if is_space a then if after_space then collapse_spaces true s' else String " " (collapse_spaces true s')
      else String a (collapse_spaces false s')
  end.

(** The characters [_normalize] strips: spaces, punctuation, quotes. *)
Definition edge_char (a : ascii) : bool :=
  one_of " .,!?;:'-" a || bool_decide (Ascii.nat_of_ascii a ∈ [9; 10; 34])%nat.

Definition _normalize (text : string) : string := strip_if edge_char (collapse_spaces false (lower text)).

Definition _contains (corpus answer : string) : bool :=
  truthy (_normalize answer) && contains (_normalize answer) (_normalize corpus).

Definition fail_all (why : string) (probes : list FactProbe) : list FactVerdict :=
  map (fun p => {| probe_id := fp_id p; passed := false; reason := Some why |}) probes.

Definition lexical_verdict (summary_text : string) (p : FactProbe) : FactVerdict :=
  if _contains summary_text (fp_answer p)
  then {| probe_id := fp_id p; passed := true; reason := None |}
  else {| probe_id := fp_id p; passed := false; reason := Some "answer absent from summary" |}.

(** [LexicalFactScorer.score] *)
Definition lexical_score (summary_text : string) (probes : list FactProbe) : list FactVerdict :=
  if truthy (strip summary_text) then map (lexical_verdict summary_text) probes
  else fail_all "summary empty" probes.

(** [cleaned.split()[0]] of a text that does not start with a space. *)
Fixpoint first_word (s : string) : string :=
  match s with
  | EmptyString => EmptyString
  | String a s' => if is_space a then EmptyString else String a (first_word s')
  end.

Definition verdict_edge (a : ascii) : bool := one_of ".,!?;:'" a || (Ascii.nat_of_ascii a =? 34)%nat.

Definition _parse_verdict (text : string) : option bool :=
  let first := strip_if verdict_edge (first_word (lower (strip text))) in
  if decide (first = "yes") then Some true
  else if decide (first = "no") then Some false
  else None.

Section adapter.
Context {L : Type} (chat : string -> io L string string) (loads : string -> option json).

Definition _judge (judge_prompt : string) (summary_text : string) (p : FactProbe)
  : io L compaction_exc FactVerdict :=
  text ← of_result (match format_prompt [("summary", summary_text); ("question", fp_question p);
                                          ("answer", fp_answer p)] judge_prompt with
                    | Some t => inl t
                    | None => inr PromptFormatError
                    end);
  verdict ← try_catch (reply ← chat text; mret (_parse_verdict reply)) (fun _ => mret None);
  mret match verdict with
       | None => {| probe_id := fp_id p; passed := false; reason := Some "judge inconclusive (fail closed)" |}
       | Some true => {| probe_id := fp_id p; passed := true; reason := None |}
       | Some false => {| probe_id := fp_id p; passed := false; reason := Some "judge: answer absent" |}
       end.

(** [LLMJudgeScorer.score] *)
Definition judge_score (judge_prompt summary_text : string) (probes : list FactProbe)
  : io L compaction_exc (list FactVerdict) :=
  if truthy (strip summary_text) then map_io (_judge judge_prompt summary_text) probes
  else mret (fail_all "summary empty" probes).

(** ** Probe extraction *)

Definition non_blank (v : option json) : option string :=
  match v with Some (JStr s) => if truthy (strip s) then Some s else None | _ => None end.

(** One item of the model's reply; ungrounded answers are dropped. *)
Definition probe_of (corpus : string) (index : nat) (item : json) : option FactProbe :=
  match item with
  | JObj fs =>
      let id := match field "id" fs with
                | Some v => if json_truthy v then v else JStr ("f" +:+ pretty (Z.of_nat index + 1))
                | None => JStr ("f" +:+ pretty (Z.of_nat index + 1))
                end in
      match non_blank (Some id), non_blank (field "question" fs), non_blank (field "answer" fs) with
      | Some i, Some q, Some a =>
          if _contains corpus a then Some {| fp_id := i; fp_question := q; fp_answer := a |} else None
      | _, _, _ => None
      end
  | _ => None
  end.

(** The loop over the reply, left when [room] probes were taken (the test
    comes after a probe is added). *)
Fixpoint probe_loop (corpus : string) (room : nat) (index : nat) (items : list json) : list FactProbe :=
  match items with
  | [] => []
  | item :: items' =>
      match probe_of corpus index item with
      | None => probe_loop corpus room (S index) items'
      | Some p => match room with
                  | S (S r) => p :: probe_loop corpus (S r) (S index) items'
                  | _ => [p]
                  end
      end
  end.

Inductive probe_exc := ProbeExtractionError (why : string).

Definition generate_probes_from_turns (probes_prompt : string) (turns : list turn) (max_probes : nat)
  : io L probe_exc (list FactProbe) :=
  let conversation := transcript turns in
  if negb (truthy conversation) then mret []
  else
    reply ← (match format_prompt [("conversation", conversation)] probes_prompt with
             | Some text => try_catch (chat text) (fun e => throw (ProbeExtractionError e))
             | None => throw (ProbeExtractionError "prompt")
             end);
    match loads (unfenced reply) with
    | None => throw (ProbeExtractionError "probe extraction returned invalid JSON")
    | Some (JList items) => mret (probe_loop conversation max_probes 0 items)
    | Some _ => throw (ProbeExtractionError "probe extraction returned a non-array payload")
    end.

(** ** Labelled cases *)

Record EvalCase := {
  ec_name : string;
  ec_turns : list turn;
  ec_probes : list FactProbe;
  ec_keep_tokens : option Z;
}.

Record failed_fact := { ff_id : string; ff_question : string; ff_answer : string; ff_reason : option string }.

Record EvalCaseResult := {
  er_name : string;
  retention_ratio : Q;
  er_passed : list string;
  er_failed : list failed_fact;
  er_skipped : list string;
  er_degraded : bool;
  er_summary : option string;
}.

(** [_split_head]: the turns in reverse; the length of the head. *)
Fixpoint head_length (est : TokenEstimator) (keep acc : Z) (rev_turns : list turn) : nat :=
  match rev_turns with
  | [] => 0
  | t :: ts =>
      let tokens := turn_tokens est t in
      if keep <? acc + tokens then S (length ts) else head_length est keep (acc + tokens) ts
  end.

Definition _split_head (est : TokenEstimator) (turns : list turn) (keep : Z) : list turn :=
  take (head_length est keep 0 (rev turns)) turns.

Definition _head_and_skipped (est : TokenEstimator) (c : EvalCase) : list turn * list string :=
  let head := match ec_keep_tokens c with
              | Some k => if k =? 0 then ec_turns c else _split_head est (ec_turns c) k
              | None => ec_turns c
              end in
  let corpus := join newline (map tr_text head) in
  (head, map fp_id (List.filter (fun p => negb (_contains corpus (fp_answer p))) (ec_probes c))).

Definition passed_ids (vs : list FactVerdict) : list string := map probe_id (List.filter passed vs).

Definition failed_facts (vs : list FactVerdict) (ps : list FactProbe) : list failed_fact :=
  map (fun '(v, p) => {| ff_id := probe_id v; ff_question := fp_question p; ff_answer := fp_answer p;
                         ff_reason := reason v |})
    (List.filter (fun '(v, _) => negb (passed v)) (combine vs ps)).

Definition ratio_of (vs : list FactVerdict) : Q :=
  match vs with
  | [] => 0
  | _ => inject_Z (Z.of_nat (length (passed_ids vs))) / inject_Z (Z.of_nat (length vs))
  end.

Definition degraded_case (c : EvalCase) (skipped : list string) : EvalCaseResult := {|
  er_name := ec_name c; retention_ratio := 0; er_passed := []; er_failed := []; er_skipped := skipped;
  er_degraded := true; er_summary := None |}.

Section evaluator.
Context (est : TokenEstimator) (generate : list turn -> io L compaction_exc json)
  (score : string -> list FactProbe -> io L compaction_exc (list FactVerdict)).

Definition evaluate_case (c : EvalCase) : io L compaction_exc EvalCaseResult :=
  let '(head, skipped) := _head_and_skipped est c in
  let scored := List.filter (fun p => negb (bool_decide (fp_id p ∈ skipped))) (ec_probes c) in
  try_catch (
    payload ← generate head;
    match validate payload with
    | _ :: _ => mret (degraded_case c skipped)
    | [] =>
        let rendered := render_summary payload in
        verdicts ← score rendered scored;
        mret {| er_name := ec_name c; retention_ratio := ratio_of verdicts;
                er_passed := passed_ids verdicts; er_failed := failed_facts verdicts scored;
                er_skipped := skipped; er_degraded := false; er_summary := Some rendered |}
    end)
    (fun _ => mret (degraded_case c skipped)).

Definition evaluate_dataset (cases : list EvalCase) : io L compaction_exc (list EvalCaseResult) :=
  map_io evaluate_case cases.
End evaluator.

(** ** The tuning harness *)

Record TuningResult := {
  prompt_label : string;
  tr_keep_tokens : option Z;
  case_results : list EvalCaseResult;
}.

Definition avg_retention (t : TuningResult) : Q :=
  match case_results t with
  | [] => 0
  | rs => foldr (fun r acc => retention_ratio r + acc)%Q 0%Q rs / inject_Z (Z.of_nat (length rs))
  end.

(** The outer loop over prompts, the inner one over the keep options. *)
Definition run_tuning_harness (est : TokenEstimator) (generate : string -> list turn -> io L compaction_exc json)
    (cases : list EvalCase) (prompts : list string) (keep_tokens_options : list (option Z))
  : io L compaction_exc (list TuningResult) :=
  rows ← map_io (fun '(i, prompt) =>
    map_io (fun keep =>
      results ← evaluate_dataset est (generate prompt) (fun s ps => mret (lexical_score s ps)) cases;
      mret {| prompt_label := match i with O => "prompt-base" | _ => "prompt-" +:+ pretty (Z.of_nat i) end;
              tr_keep_tokens := keep; case_results := results |}) keep_tokens_options)
    (combine (seq 0 (length prompts)) prompts);
  mret (concat rows).
End adapter.

Definition round3 (q : Q) : Q := inject_Z (round_half_even (q * 1000)) / 1000.

Record aggregate := {
  case_count : nat;
  ag_avg_retention : Q;
  min_retention : Q;
  facts_passed : nat;
  facts_total : nat;
  degraded_cases : nat;
}.

Definition aggregate_results (results : list EvalCaseResult) : aggregate :=
  match results with
  | [] => {| case_count := 0; ag_avg_retention := 0; min_retention := 0; facts_passed := 0; facts_total := 0;
             degraded_cases := 0 |}
  | r :: rs =>
      let total := foldr (fun r n => length (er_passed r) + length (er_failed r) + n)%nat 0%nat results in
      let ok := foldr (fun r n => length (er_passed r) + n)%nat 0%nat results in
      {| case_count := length results;
         ag_avg_retention := match total with
                             | O => 0
                             | _ => round3 (inject_Z (Z.of_nat ok) / inject_Z (Z.of_nat total))
                             end;
         min_retention := round3 (foldr (fun r m => Qminb (retention_ratio r) m) (retention_ratio r) rs);
         facts_passed := ok; facts_total := total;
         degraded_cases := length (List.filter er_degraded results) |}
  end.

(** ** What the evaluation promises *)

Lemma probe_of_spec corpus i item p :
  probe_of corpus i item = Some p ->
  _contains corpus (fp_answer p) = true /\ truthy (strip (fp_answer p)) = true
  /\ truthy (strip (fp_question p)) = true /\ truthy (strip (fp_id p)) = true.
Proof.
  assert (Hn : forall v s, non_blank v = Some s -> truthy (strip s) = true).
  { intros v s. unfold non_blank. repeat (case_test; try done). by intros [= <-]. }
  unfold probe_of. destruct item; try done. intros E. repeat (case_test_in E; simplify_eq);
    cbn [fp_answer fp_question fp_id]; split_and!; first [done|by eapply Hn].
Qed.

Lemma probe_loop_spec corpus room i items :
  let ps := probe_loop corpus room i items in
  (length ps <= Nat.max 1 room)%nat
  /\ Forall (fun p => _contains corpus (fp_answer p) = true /\ truthy (strip (fp_answer p)) = true) ps.
Proof.
  cbn zeta. revert room i. induction items as [|item items IH]; intros room i; cbn [probe_loop]; [split; [cbn; lia|done]|].
  destruct (probe_of corpus i item) as [p|] eqn:Ep; [|by apply IH].
  apply probe_of_spec in Ep as (Hc & Ha & _).
  destruct room as [|[|r]]; [split; [cbn; lia|by apply Forall_singleton]..|].
  destruct (IH (S r) (S i)) as [Hl Hf]. split; [cbn [length]; lia|by constructor].
Qed.

(** The hallucination guard: whatever the model replies, at most eight probes
    come out, and the answer of each is in the conversation it was asked
    about. *)
Theorem probes_grounded {L : Type} (chat : string -> io L string string) (loads : string -> option json)
    (probes_prompt : string) (turns : list turn) (s : L) :
  match generate_probes_from_turns chat loads probes_prompt turns 8 s with
  | (Ret ps, _) =>
      (length ps <= 8)%nat
      /\ Forall (fun p => _contains (transcript turns) (fp_answer p) = true) ps
  | (Raise _, _) => True
  end.
Proof.
  unfold generate_probes_from_turns. destruct (negb _); [by split; [cbn; lia|]|].
  unfold mbind, io_bind. destruct (format_prompt _ _) as [text|]; cbn; [|done].
  unfold try_catch, throw. destruct (chat text s) as [[reply|e] s']; cbn; [|done].
  destruct (loads (unfenced reply)) as [[]|]; try done. cbn.
  destruct (probe_loop_spec (transcript turns) 8 0 l) as [Hl Hf]. split; [exact Hl|].
  eapply Forall_impl; [exact Hf|]. by intros p [? _].
Qed.

Lemma passed_failed vs ps :
  length vs = length ps -> map probe_id vs = map fp_id ps ->
  passed_ids vs ++ map ff_id (failed_facts vs ps) ≡ₚ map fp_id ps.
Proof.
  revert ps. induction vs as [|v vs IH]; intros [|p ps] Hl Hids; try done.
  injection Hids as Hid Hids. injection Hl as Hl. specialize (IH ps Hl Hids).
  unfold passed_ids, failed_facts in *. cbn [List.filter combine map].
  destruct (passed v); cbn [negb map app ff_id]; rewrite Hid, <- ?IH; [done|].
  by rewrite <- Permutation_middle.
Qed.

Lemma ratio_bounds vs : (0 <= ratio_of vs <= 1)%Q.
Proof.
  unfold ratio_of. destruct vs as [|v vs']; [lra|]. set (vs := v :: vs').
  assert (Hle : (length (passed_ids vs) <= length vs)%nat)
    by (unfold passed_ids; rewrite length_map; apply List.filter_length_le).
  assert (Hpos : (0 < inject_Z (Z.of_nat (length vs)))%Q) by (unfold Qlt; cbn; lia).
  split.
  - apply Qle_shift_div_l; [done|]. unfold Qle; cbn; lia.
  - apply Qle_shift_div_r; [done|]. rewrite Qmult_1_l. rewrite <- Zle_Qle. lia.
Qed.

(** A scorer that judges every probe it is given, in order. *)
Definition judges_all {L} (score : string -> list FactProbe -> io L compaction_exc (list FactVerdict)) : Prop :=
  forall text ps s, match score text ps s with
                    | (Ret vs, _) => length vs = length ps /\ map probe_id vs = map fp_id ps
                    | (Raise _, _) => True
                    end.

Lemma lexical_judges_all {L} : judges_all (L := L) (fun text ps => mret (lexical_score text ps)).
Proof.
  intros text ps s. cbn. unfold lexical_score, fail_all. destruct (truthy _); rewrite length_map, map_map; split; try done.
  apply map_ext. intros p. unfold lexical_verdict. by destruct (_contains _ _).
Qed.

Lemma map_io_judges {L} (chat : string -> io L string string) prompt text ps s vs s' :
  map_io (_judge chat prompt text) ps s = (Ret vs, s') ->
  length vs = length ps /\ map probe_id vs = map fp_id ps.
Proof.
  revert s vs s'. induction ps as [|p ps IH]; intros s vs s' E; cbn [map_io] in E.
  { by injection E as <- _. }
  unfold mbind, io_bind, mret, io_ret in E. destruct (_judge _ _ _ _ s) as [[v|e] s1] eqn:Ej; [|done].
  destruct (map_io _ ps s1) as [[vs'|e] s2] eqn:Em; [|done]. injection E as <- _.
  apply IH in Em as [Hl Hi]. cbn [length map]. split; [by f_equal|]. f_equal; [|done].
  unfold _judge, mbind, io_bind, mret, io_ret in Ej. destruct (of_result _ s) as [[t|e] s3]; [|done].
  destruct (try_catch _ _ s3) as [[[[]|]|e] s4]; try done; by injection Ej as <- _.
Qed.

Lemma judge_judges_all {L} (chat : string -> io L string string) prompt : judges_all (judge_score chat prompt).
Proof.
  intros text ps s. unfold judge_score. destruct (truthy _).
  - destruct (map_io _ ps s) as [[vs|e] s'] eqn:E; [by eapply map_io_judges|done].
  - cbn. unfold fail_all. by rewrite length_map, map_map.
Qed.

Lemma split_skipped (l : list FactProbe) (f : FactProbe -> bool) :
  NoDup (map fp_id l) ->
  let skipped := map fp_id (List.filter f l) in
  map fp_id (List.filter (fun p => negb (bool_decide (fp_id p ∈ skipped))) l) ++ skipped ≡ₚ map fp_id l.
Proof.
  intros Hnd. cbn zeta.
  assert (Hsame : forall p, p ∈ l -> negb (bool_decide (fp_id p ∈ map fp_id (List.filter f l))) = negb (f p)).
  { intros p Hp. f_equal. destruct (f p) eqn:Ef.
    - apply bool_decide_eq_true, list_elem_of_fmap. exists p. split; [done|].
      apply list_elem_of_In, filter_In. split; [by apply list_elem_of_In|done].
    - apply bool_decide_eq_false. intros (q & Hq & Hin)%list_elem_of_fmap.
      apply list_elem_of_In, filter_In in Hin as [Hin Hfq]. apply list_elem_of_In in Hin.
      apply list_elem_of_lookup in Hp as [i Hi], Hin as [j Hj].
      assert (i = j) as ->; [|congruence]. eapply (NoDup_lookup (map fp_id l)); [done|..];
        change (map fp_id ?k) with (fp_id <$> k); rewrite list_lookup_fmap; [by rewrite Hi|by rewrite Hj, Hq]. }
  assert (Hf : List.filter (fun p => negb (bool_decide (fp_id p ∈ map fp_id (List.filter f l)))) l
               = List.filter (fun p => negb (f p)) l).
  { apply filter_ext_in. intros p Hp. by apply Hsame, list_elem_of_In. }
  rewrite Hf. clear. induction l as [|p l IH]; [done|]. cbn [List.filter].
  destruct (f p); cbn [negb map app]; [by rewrite <- Permutation_middle, IH|by rewrite IH].
Qed.

(** Evaluating a case never raises; when a summary was produced, every probe
    of the case is counted exactly once, as passed, failed or skipped, and the
    retention ratio lies between 0 and 1. *)
Theorem evaluate_case_accounts {L : Type} (est : TokenEstimator)
    (generate : list turn -> io L compaction_exc json)
    (score : string -> list FactProbe -> io L compaction_exc (list FactVerdict)) (c : EvalCase) (s : L) :
  judges_all score -> NoDup (map fp_id (ec_probes c)) ->
  exists r s', evaluate_case est generate score c s = (Ret r, s')
    /\ (0 <= retention_ratio r <= 1)%Q
    /\ (er_degraded r = false ->
        er_passed r ++ map ff_id (er_failed r) ++ er_skipped r ≡ₚ map fp_id (ec_probes c)).
Proof.
  intros Hs Hnd. unfold evaluate_case. destruct (_head_and_skipped est c) as [head skipped] eqn:Eh.
  unfold try_catch, mbind, io_bind.
  assert (Hdeg : exists r s', (Ret (degraded_case c skipped) : outcome compaction_exc _, s) = (Ret r, s')
    /\ (0 <= retention_ratio r <= 1)%Q /\ (er_degraded r = false ->
        er_passed r ++ map ff_id (er_failed r) ++ er_skipped r ≡ₚ map fp_id (ec_probes c))).
  { eexists _, _. split; [done|]. cbn. split; [lra|done]. }
  destruct Hdeg as (rd & sd & [= <- _] & Hd & Hd').
  destruct (generate head s) as [[payload|e] s1]; [|by eexists _, _].
  destruct (validate payload); [|by eexists _, _].
  set (scored := List.filter _ _). pose proof (Hs (render_summary payload) scored s1) as Hsc.
  destruct (score _ scored s1) as [[vs|e] s2]; [|by eexists _, _]. destruct Hsc as [Hl Hi].
  eexists _, _. split; [done|]. cbn. split; [apply ratio_bounds|]. intros _.
  rewrite app_assoc, (passed_failed vs scored Hl Hi). injection Eh as _ <-. by apply split_skipped.
Qed.

(** Two computations that differ only in what [f] and [g] forget. *)
Definition same_run {L A B C : Type} (f : A -> C) (g : B -> C) (c : io L compaction_exc A)
    (c' : io L compaction_exc B) : Prop :=
  forall s, match c s, c' s with
            | (Ret a, s1), (Ret b, s2) => f a = g b /\ s1 = s2
            | (Raise e, s1), (Raise e', s2) => e = e' /\ s1 = s2
            | _, _ => False
            end.

Lemma same_run_ret {L A B C : Type} (f : A -> C) (g : B -> C) a b :
  f a = g b -> same_run (L := L) f g (mret a) (mret b).
Proof. by intros Hf s. Qed.

Lemma same_run_bind {L A B A' B' C C' : Type} (f : A -> C) (g : B -> C) (f' : A' -> C') (g' : B' -> C')
    (c : io L compaction_exc A) c' (k : A -> io L compaction_exc A') k' :
  same_run f g c c' -> (forall a b, f a = g b -> same_run f' g' (k a) (k' b)) ->
  same_run f' g' (c ≫= k) (c' ≫= k').
Proof.
  intros Hc Hk s. specialize (Hc s). unfold mbind, io_bind.
  destruct (c s) as [[a|e] s1], (c' s) as [[b|e'] s2]; try done. destruct Hc as [Hc ->]. by apply Hk.
Qed.

Lemma map_io_same {L X Y A B C : Type} (f : A -> C) (g : B -> C) (F : X -> io L compaction_exc A) G
    (l : list X) (l' : list Y) :
  Forall2 (fun x y => same_run f g (F x) (G y)) l l' -> same_run (map f) (map g) (map_io F l) (map_io G l').
Proof.
  induction 1 as [|x y l l' Hxy _ IH]; cbn [map_io]; [by apply same_run_ret|].
  eapply same_run_bind; [exact Hxy|]. intros a b Hab. eapply same_run_bind; [exact IH|].
  intros as_ bs Habs. apply same_run_ret. cbn [map]. by rewrite Hab, Habs.
Qed.

Lemma same_run_refl {L A : Type} (c : io L compaction_exc A) : same_run id id c c.
Proof. intros s. by destruct (c s) as [[a|e] s']. Qed.

(** The tuning harness varies the prompt only: for any two lists of keep
    options of the same length it runs the same summaries and returns the same
    case results. *)
Theorem tuning_ignores_keep {L : Type} (est : TokenEstimator)
    (generate : string -> list turn -> io L compaction_exc json) (cases : list EvalCase) (prompts : list string)
    (keeps keeps' : list (option Z)) :
  length keeps = length keeps' ->
  same_run (map case_results) (map case_results)
    (run_tuning_harness est generate cases prompts keeps)
    (run_tuning_harness est generate cases prompts keeps').
Proof.
  intros Hlen. unfold run_tuning_harness.
  eapply (same_run_bind (map (map case_results)) (map (map case_results))).
  - apply map_io_same. apply Forall_Forall2_diag, Forall_forall. intros [i prompt] _. apply map_io_same.
    clear -Hlen. revert keeps' Hlen. induction keeps as [|k ks IH]; intros [|k' ks'] Hlen; try done.
    constructor; [|apply IH; by injection Hlen].
    eapply same_run_bind; [apply same_run_refl|]. intros a b Hab. apply same_run_ret. exact Hab.
  - intros rows rows' Hr. apply same_run_ret. by rewrite !concat_map, Hr.
Qed.

(** ** A concrete evaluation *)

Definition sample_case : EvalCase := {|
  ec_name := "refund";
  ec_turns := GeneratorSample.head;
  ec_probes := [{| fp_id := "f1"; fp_question := "what?"; fp_answer := " Refund. " |};
                {| fp_id := "f2"; fp_question := "who?"; fp_answer := "looking" |};
                {| fp_id := "f3"; fp_question := "where?"; fp_answer := "nowhere" |}];
  ec_keep_tokens := None |}.

Definition sample_evaluation : outcome compaction_exc EvalCaseResult * list string :=
  evaluate_case GeneratorSample.est
    (summarize GeneratorSample.est (<["p:m" := Build_ModelSpec "p" "m" 200000 0 0]> ∅) "p" "m" "{conversation}"
       GeneratorSample.config GeneratorSample.loads GeneratorSample.chat)
    (fun s ps => mret (lexical_score s ps)) sample_case [].

Example sample_evaluation_result :
  match sample_evaluation with
  | (Ret r, _) => er_passed r = ["f1"] /\ map ff_id (er_failed r) = ["f2"] /\ er_skipped r = ["f3"]
  | _ => False
  end.
Proof. by vm_compute. Qed.

Lemma evaluate_case_accounts_witness :
  exists r s', sample_evaluation = (Ret r, s')
    /\ (0 <= retention_ratio r <= 1)%Q
    /\ (er_degraded r = false ->
        er_passed r ++ map ff_id (er_failed r) ++ er_skipped r ≡ₚ ["f1"; "f2"; "f3"]).
Proof.
  apply (evaluate_case_accounts GeneratorSample.est
    (summarize GeneratorSample.est (<["p:m" := Build_ModelSpec "p" "m" 200000 0 0]> ∅) "p" "m" "{conversation}"
       GeneratorSample.config GeneratorSample.loads GeneratorSample.chat)
    (fun s ps => mret (lexical_score s ps)) sample_case []).
  - apply lexical_judges_all.
  - apply (bool_decide_unpack _). by vm_compute.
Defined.

Lemma tuning_ignores_keep_witness :
  same_run (map case_results) (map case_results)
    (run_tuning_harness GeneratorSample.est (fun _ _ => mret GeneratorSample.payload) [sample_case] ["a"]
       [None] : io (list string) compaction_exc (list TuningResult))
    (run_tuning_harness GeneratorSample.est (fun _ _ => mret GeneratorSample.payload) [sample_case] ["a"]
       [Some 100]).
Proof. apply tuning_ignores_keep. reflexivity. Defined.
