(* ===== verification/Compaction.v ===== *)
(** * Compaction (backend/app/application/compaction)

    The circuit breaker (breaker.py), the service that rolls the head of a
    thread's log into summary layers with one atomic checkpoint (service.py),
    the background refresh (refresh.py) and the check of a live checkpoint
    (eval.py).  The state is the thread store, the breaker's registry, the
    monotonic clock and the state of the model adapter. *)

From S2P Require Import Prelude Json Catalog Replicas Threads ThreadLog ThreadProps ThreadExamples Context Summarizer SummaryQuality.

(** ** The breaker *)

Record CompactionBreakerConfig := { br_max_failures : Z; recovery_timeout : Q }.

(** [_state]: consecutive failures, and when the breaker tripped. *)
Abbreviation breaker := (gmap string (Z * option Q)).

Definition record_failure (c : CompactionBreakerConfig) (mono : Q) (key : string) (b : breaker) : Z * breaker :=
  let failures := match b !! key with Some (n, _) => n | None => 0 end + 1 in
  (failures, <[key := (failures, if br_max_failures c <=? failures then Some mono else None)]> b).

Definition record_success (key : string) (b : breaker) : breaker := delete key b.

Definition is_tripped (c : CompactionBreakerConfig) (mono : Q) (key : string) (b : breaker) : bool * breaker :=
  match b !! key with
  | Some (_, Some tripped_at) =>
      if recovery_timeout c <=?q (mono - tripped_at) then (false, delete key b) else (true, b)
  | _ => (false, b)
  end.

Definition state_summary (key : string) (b : breaker) : Z * bool :=
  match b !! key with
  | Some (n, tripped_at) => (n, bool_decide (tripped_at <> None))
  | None => (0, false)
  end.

(** ** The state of the service *)

Record session (L : Type) := {
  ss_store : world;
  ss_breaker : breaker;
  ss_mono : Q;
  ss_llm : L;
}.
Arguments ss_store {L}. Arguments ss_breaker {L}. Arguments ss_mono {L}. Arguments ss_llm {L}.

Inductive compact_exc :=
| StoreFailed (e : store_exc)
| SummaryFailed (e : compaction_exc)
| BadLayer
| IndexError.

Inductive action := Preemptive | Reactive.

Record CompactionDecision := { cd_action : option action; cd_estimated : Z; cd_budget : Z }.

Record compact_result := {
  cr_compacted : bool;
  cr_summary : option string;
  cr_version : option Z;
  cr_position : option Z;
  cr_degraded : bool;
  cr_layers : option (list json);
}.

Definition _noop_result : compact_result := {|
  cr_compacted := false; cr_summary := None; cr_version := None; cr_position := None; cr_degraded := false;
  cr_layers := None |}.

Definition DEGRADED_SUMMARY_CONTENT : string :=
  "Summary unavailable (compaction degraded; older context truncated).".

Definition turn_of (m : MessageModel) : turn := {| tr_role := role m; tr_text := redacted_content m |}.

(** *** Layers *)

Definition position_of (layer : json) : Z :=
  match get_field "position" layer with Some (JNum z) => z | _ => 0 end.

Definition content_of (layer : json) : option string :=
  match get_field "content" layer with Some (JStr s) => Some s | _ => None end.

Definition layer_of (position : Z) (payload : json) : json :=
  JObj [("position", JNum position); ("content", JStr (render_summary payload)); ("payload", payload)].

(** [(row or {}).get("summary_block") or {}] *)
Definition block_of (row : option ThreadModel) : json :=
  match row with
  | Some t => match Threads.summary_block t with
              | Some b => if json_truthy b then b else JObj []
              | None => JObj []
              end
  | None => JObj []
  end.

Definition stored_layers (row : option ThreadModel) : list json :=
  let block := block_of row in
  match get_field "layers" block with
  | Some (JList (l :: ls)) => l :: ls
  | _ =>
      match get_field "content" block with
      | Some c =>
          if json_truthy c then
            [JObj [("position", JNum (match row with Some t => default 0 (summary_position t) | None => 0 end));
                   ("content", c);
                   ("payload", match get_field "payload" block with
                               | Some p => if json_truthy p then p else JObj []
                               | None => JObj []
                               end)]]
          else []
      | None => []
      end
  end.

Definition last_position (layers : list json) : Z :=
  match last layers with Some l => position_of l | None => 0 end.

Definition _current_layers (tenant_id thread_id : string) : store (list json * Z) :=
  row ← get_thread tenant_id thread_id;
  mret (stored_layers row, last_position (stored_layers row)).

Definition joined (layers : list json) : option string :=
  join (newline +:+ newline) <$> mapM content_of layers.

Definition summary_block_of (content : string) (payload : json) (position : Z) (layers : list json) : json :=
  JObj [("content", JStr content); ("payload", payload); ("head_until_seq", JNum position);
        ("layers", JList layers)].

Definition degraded_block (position : Z) : json :=
  JObj [("content", JStr DEGRADED_SUMMARY_CONTENT); ("payload", JObj []); ("head_until_seq", JNum position);
        ("degraded", JBool true); ("layers", JList [])].

Section service.
Context (est : TokenEstimator) (config : CompactionConfig) (breaker_config : CompactionBreakerConfig).
Context {L : Type} (generate : list turn -> io L compaction_exc json).
Context (chat : string -> io L string string) (loads : string -> option json) (probes_prompt : string).

Abbreviation service A := (io (session L) compact_exc A).

Definition with_store (w : world) (s : session L) : session L := {|
  ss_store := w; ss_breaker := ss_breaker s; ss_mono := ss_mono s; ss_llm := ss_llm s |}.
Definition with_breaker (b : breaker) (s : session L) : session L := {|
  ss_store := ss_store s; ss_breaker := b; ss_mono := ss_mono s; ss_llm := ss_llm s |}.
Definition with_llm (l : L) (s : session L) : session L := {|
  ss_store := ss_store s; ss_breaker := ss_breaker s; ss_mono := ss_mono s; ss_llm := l |}.

Definition in_store {A} (c : store A) : service A := lift ss_store with_store StoreFailed c.
Definition in_llm {A} (c : io L compaction_exc A) : service A := lift ss_llm with_llm SummaryFailed c.

(** Nothing but a call to the model and log lines: a failure is swallowed. *)
Definition _quality_check (source : list turn) : service unit :=
  modify (fun s => with_llm (generate_probes_from_turns chat loads probes_prompt source 8 (ss_llm s)).2 s).

(** ** Triggers *)

Definition evaluate (estimated_tokens budget_tokens : Z) : CompactionDecision :=
  let decide_action :=
    if budget_tokens <=? 0 then None
    else
      let ratio := (inject_Z estimated_tokens / inject_Z budget_tokens)%Q in
      if reactive_ratio config <=?q ratio then Some Reactive
      else if preemptive_ratio config <=?q ratio then Some Preemptive
      else None in
  {| cd_action := decide_action; cd_estimated := estimated_tokens; cd_budget := budget_tokens |}.

(** ** Snapshot and split *)

(** [_snapshot]; every page but the last adds a message, so that the bound on
    the messages is fuel enough. *)
Fixpoint snapshot_loop (fuel : nat) (tenant_id thread_id : string) (messages : list MessageModel)
    (after_seq : option Z) : store (list MessageModel) :=
  match fuel with
  | O => mret messages
  | S fuel =>
      if Z.of_nat (length messages) <? max_snapshot_messages config then
        '(page, has_more) ← list_messages tenant_id thread_id after_seq 200;
        match last (page : list MessageModel) with
        | None => mret messages
        | Some m =>
            if (has_more : bool) then snapshot_loop fuel tenant_id thread_id (messages ++ page) (Some (m_seq m))
            else mret (messages ++ page)
        end
      else mret messages
  end.

Definition _snapshot (tenant_id thread_id : string) : store (list MessageModel) :=
  snapshot_loop (Z.to_nat (max_snapshot_messages config)) tenant_id thread_id [] None.

Definition _split (messages : list MessageModel) : list MessageModel * list MessageModel :=
  let n := head_length est (keep_tokens config) 0 (rev (map turn_of messages)) in
  (take n messages, drop n messages).

(** ** Compaction *)

(** [snapshot[-(keep + 1)]] *)
Definition truncation_boundary (snapshot : list MessageModel) : option MessageModel :=
  let i := - (truncation_keep_turns config + 1) in
  let i := if i <? 0 then Z.of_nat (length snapshot) + i else i in
  if i <? 0 then None else snapshot !! Z.to_nat i.

Definition _truncate_fallback (tenant_id thread_id : string) (snapshot : list MessageModel)
    (request_id : option string) : service compact_result :=
  if Z.of_nat (length snapshot) <=? truncation_keep_turns config then mret _noop_result
  else
    match truncation_boundary snapshot with
    | None => throw IndexError
    | Some boundary =>
        checkpoint ← in_store (set_summary tenant_id thread_id (degraded_block (m_seq boundary))
                                 (m_seq boundary) (m_id boundary) request_id true);
        mret {| cr_compacted := true; cr_summary := Some DEGRADED_SUMMARY_CONTENT;
                cr_version := Some (sr_version checkpoint); cr_position := Some (sr_position checkpoint);
                cr_degraded := true; cr_layers := None |}
    end.

(** The guarded part: the turns to summarise and the layers kept before the
    new one, the summary, the check, the swap. *)
Definition swap (tenant_id thread_id : string) (head head_slice : list MessageModel) (old_layers : list json)
    (boundary : MessageModel) (request_id : option string) : service compact_result :=
  let '(source, kept) := if (max_summary_layers config <=? length old_layers)%nat then (head, [])
                         else (head_slice, old_layers) in
  payload ← in_llm (generate (map turn_of source));
  let layers := kept ++ [layer_of (m_seq boundary) payload] in
  _ ← match validate payload with
      | [] => mret tt
      | errors => throw (SummaryFailed (SummaryValidationError errors))
      end;
  _ ← (if quality_check config
       then _quality_check (map turn_of source)
       else mret tt);
  match joined layers with
  | None => throw BadLayer
  | Some content =>
      checkpoint ← in_store (set_summary tenant_id thread_id
                               (summary_block_of content payload (m_seq boundary) layers)
                               (m_seq boundary) (m_id boundary) request_id false);
      mret {| cr_compacted := true; cr_summary := Some (render_summary payload);
              cr_version := Some (sr_version checkpoint); cr_position := Some (sr_position checkpoint);
              cr_degraded := false; cr_layers := Some layers |}
  end.

(** [except Exception: await breaker.record_failure(key); raise] *)
Definition counting_failures {A} (key : string) (c : service A) : service A := fun s =>
  match c s with
  | (Raise e, s') => (Raise e, with_breaker (record_failure breaker_config (ss_mono s') key (ss_breaker s')).2 s')
  | r => r
  end.

Definition compact (tenant_id thread_id : string) (request_id : option string) : service compact_result :=
  snapshot ← in_store (_snapshot tenant_id thread_id);
  match snapshot, (_split snapshot).1 with
  | [], _ | _, [] => mret _noop_result
  | _, head =>
      let key := tenant_id +:+ ":" +:+ thread_id in
      s ← get_st;
      let '(tripped, b) := is_tripped breaker_config (ss_mono s) key (ss_breaker s) in
      _ ← modify (with_breaker b);
      if tripped then _truncate_fallback tenant_id thread_id snapshot request_id
      else
        '(old_layers, prev_position) ← in_store (_current_layers tenant_id thread_id);
        let head_slice := List.filter (fun m => prev_position <? m_seq m) head in
        match last head_slice with
        | None => mret _noop_result
        | Some boundary =>
            result ← counting_failures key (swap tenant_id thread_id head head_slice old_layers boundary request_id);
            _ ← modify (fun s => with_breaker (record_success key (ss_breaker s)) s);
            mret result
        end
  end.

(** ** Background refresh *)

Record CompactionRefreshConfig := { min_growth_turns : Z; max_threads_per_run : Z }.
Definition DEFAULT_REFRESH_CONFIG : CompactionRefreshConfig :=
  {| min_growth_turns := 10; max_threads_per_run := 50 |}.

(** The rows a page walk can meet, on the primary and on the replicas. *)
Definition rows_everywhere (w : world) : nat :=
  foldr (fun o n => match o with Some d => length (messages d) + n | None => n end)%nat
    (length (messages (db w))) (replica_dbs w).

Fixpoint count_loop (fuel : nat) (tenant_id thread_id : string) (count after_seq : Z) : store Z :=
  match fuel with
  | O => mret count
  | S fuel =>
      '(page, has_more) ← list_messages tenant_id thread_id (Some after_seq) 200;
      let count := count + Z.of_nat (length page) in
      if (has_more : bool) then
        match last (page : list MessageModel) with
        | Some m => count_loop fuel tenant_id thread_id count (m_seq m)
        | None => mret count
        end
      else mret count
  end.

Definition _count_since (tenant_id thread_id : string) (after_seq : Z) : store Z :=
  w ← get_st;
  count_loop (S (rows_everywhere w)) tenant_id thread_id 0 after_seq.

Inductive refresh_result :=
| ThreadNotFound
| InsufficientGrowth (new_turns : Z)
| Refreshed (r : compact_result).

Definition refreshed (r : refresh_result) : bool :=
  match r with Refreshed c => cr_compacted c | _ => false end.

Definition refresh_thread_summary (rc : CompactionRefreshConfig) (tenant_id thread_id : string)
    (request_id : option string) : service refresh_result :=
  thread ← in_store (get_thread tenant_id thread_id);
  match thread with
  | None => mret ThreadNotFound
  | Some t =>
      new_turns ← in_store (_count_since tenant_id thread_id (default 0 (summary_position t)));
      if new_turns <? min_growth_turns rc then mret (InsufficientGrowth new_turns)
      else result ← compact tenant_id thread_id request_id; mret (Refreshed result)
  end.

Definition find_stale_threads (rc : CompactionRefreshConfig) : store (list (ThreadModel * Z)) :=
  list_threads_stale_for_compaction (min_growth_turns rc) (max_threads_per_run rc).

(** ** The check of a live checkpoint *)

Record CheckpointEvalResult := {
  ce_ratio : Q;
  ce_passed : list string;
  ce_failed : list failed_fact;
  ce_degraded : bool;
  low_quality : bool;
}.

Definition evaluate_thread (score : string -> list FactProbe -> io L compaction_exc (list FactVerdict))
    (threshold : Q) (tenant_id thread_id : string) (probes : list FactProbe) : service CheckpointEvalResult :=
  row ← in_store (get_thread tenant_id thread_id);
  let content := strip (default EmptyString (content_of (block_of row))) in
  let degraded := negb (truthy content) in
  verdicts ← (if degraded then mret (fail_all "no summary checkpoint" probes)
              else try_catch (in_llm (score content probes))
                     (fun _ => mret (fail_all "check failed (fail closed)" probes)));
  let ratio := ratio_of verdicts in
  mret {| ce_ratio := ratio; ce_passed := passed_ids verdicts; ce_failed := failed_facts verdicts probes;
          ce_degraded := degraded; low_quality := ratio <?q threshold |}.
End service.

(** ** Reads leave the tables alone *)

Definition quiet (w w' : world) : Prop := db w' = db w /\ same_shape w w'.

#[export] Instance quiet_preorder : PreOrder quiet.
Proof. split; [by intros w; split|]. intros w1 w2 w3 [E1 S1] [E2 S2]. split; [congruence|by etrans]. Qed.
#[export] Instance quiet_rollback : Rollback quiet.
Proof. intros w w' [E S]. split; [done|by apply same_shape_rollback]. Qed.

#[export] Instance read_session_quiet {A} keys (q : database -> A) : Respects quiet (_read_session keys q).
Proof. intros w. unfold _read_session. by destruct (get_read_session _ _ _ _) as [[?|?] ?]. Qed.
#[export] Instance get_thread_quiet t th : Respects quiet (get_thread t th).
Proof. unfold get_thread. solve_respects. Qed.
#[export] Instance list_messages_quiet t th a l : Respects quiet (list_messages t th a l).
Proof. unfold list_messages. apply _. Qed.
#[export] Instance current_layers_quiet t th : Respects quiet (_current_layers t th).
Proof. unfold _current_layers. solve_respects. Qed.

Lemma snapshot_loop_quiet cfg fuel t th : forall ms a, Respects quiet (snapshot_loop cfg fuel t th ms a).
Proof.
  induction fuel as [|fuel IH]; intros ms a; cbn [snapshot_loop]; [apply _|].
  destruct (_ <? _); [|apply _]. apply respects_bind; [apply _..|]. intros [page more].
  destruct (last page); [|apply _]. destruct more; [apply IH|apply _].
Qed.
#[export] Instance snapshot_quiet cfg t th : Respects quiet (_snapshot cfg t th).
Proof. apply snapshot_loop_quiet. Qed.

Lemma count_loop_quiet fuel t th : forall n a, Respects quiet (count_loop fuel t th n a).
Proof.
  induction fuel as [|fuel IH]; intros n a; cbn [count_loop]; [apply _|].
  apply respects_bind; [apply _..|]. intros [page more].
  destruct more; [|apply _]. destruct (last page); [apply IH|apply _].
Qed.
#[export] Instance count_since_quiet t th a : Respects quiet (_count_since t th a).
Proof. unfold _count_since. apply respects_bind; [apply _..|]. intros w. apply count_loop_quiet. Qed.

(** ** The checkpoint a swap writes *)

Lemma select_update tn th f d :
  (forall t, t_id (f t) = t_id t /\ t_tenant_id (f t) = t_tenant_id t) ->
  List.filter (is_thread tn th) (map (fun t => if is_thread tn th t then f t else t) (threads d))
  = map f (select_thread tn th d).
Proof.
  intros Hf. unfold select_thread. induction (threads d) as [|t l IH]; [done|]. cbn [map List.filter].
  assert (Hk : is_thread tn th (f t) = is_thread tn th t)
    by (unfold is_thread; by destruct (Hf t) as [-> ->]).
  destruct (is_thread tn th t) eqn:E; rewrite ?Hk, ?E, IH; done.
Qed.

Lemma set_summary_ret tn th block position mid r dg w s w' :
  set_summary tn th block position mid r dg w = (Ret s, w') ->
  exists row, select_thread tn th (db w) = [row]
    /\ select_thread tn th (db w') = [set_summary_fields block position (summary_version row + 1) (now w) row]
    /\ messages (db w') = messages (db w)
    /\ sr_version s = summary_version row + 1 /\ sr_position s = position.
Proof.
  intros (row & w1 & (-> & _ & Hsel)%lock_ret & H)%session_ret%bind_ret. exists row. split; [done|].
  apply bind_ret in H as (w1 & ? & [= <- <-] & H).
  apply bind_ret in H as (u & w1 & [= _ <-] & H).
  apply bind_ret in H as (next & ? & [= <- <-] & H).
  apply bind_ret in H as (e & w2 & ((He & _) & _)%add_event_ret & H).
  apply bind_ret in H as (n & ? & [= <- <-] & H).
  apply bind_ret in H as (id & w3 & (Hu & _)%uuid4_ret & H). cbn zeta in H.
  apply bind_ret in H as (u' & w4 & (Hp & _)%insert_part_ret & H).
  apply bind_ret in H as (u'' & w5 & [= _ <-] & [= <- <-]).
  cbn [db with_router]. rewrite Hp, Hu, He. split_and!; try done.
  unfold select_thread. cbn [threads with_parts with_events with_threads db with_db].
  rewrite select_update by done. by rewrite Hsel.
Qed.

Lemma set_summary_atomic tn th block position mid r dg w e w' :
  set_summary tn th block position mid r dg w = (Raise e, w') -> db w' = db w.
Proof. apply session_raise. Qed.

(** ** Snapshots over the primary *)

Definition primary_only (w : world) : Prop := configured (router w) = false.

Lemma list_messages_primary tn th a l w :
  primary_only w -> list_messages tn th a l w = (Ret (messages_page tn th a l (db w)), w).
Proof.
  intros Hp. unfold list_messages, _read_session, get_read_session, read_route, replica_eligible.
  rewrite Hp. cbn. by destruct w.
Qed.

(** The first pages a snapshot reads. *)
Definition snapshot_cap (cfg : CompactionConfig) : Z := 200 * ((max_snapshot_messages cfg + 199) / 200).

Lemma whole_pages n : n <= 200 * ((n + 199) / 200) < n + 200.
Proof.
  pose proof (Z.div_mod (n + 199) 200 ltac:(lia)). pose proof (Z.mod_pos_bound (n + 199) 200 ltac:(lia)). lia.
Qed.

Lemma snapshot_loop_at cfg tn th w fuel : forall (q : Z) from,
  owned th tn w -> primary_only w -> 0 <= q ->
  from = None /\ q = 0 \/ from = Some (200 * q) ->
  max_snapshot_messages cfg - 200 * q <= Z.of_nat fuel ->
  200 * q <= Z.of_nat (length (log tn th (db w))) -> (200 * q <= snapshot_cap cfg \/ q = 0) ->
  snapshot_loop cfg fuel tn th (take (Z.to_nat (200 * q)) (log tn th (db w))) from w
  = (Ret (take (Z.to_nat (Z.max (200 * q) (snapshot_cap cfg))) (log tn th (db w))), w).
Proof.
  unfold snapshot_cap. set (l := log tn th (db w)). set (mx := max_snapshot_messages cfg).
  induction fuel as [|fuel IH]; intros q from Ho Hp Hq Hfrom Hfuel Hlen Hcap; cbn [snapshot_loop].
  { unfold mret, io_ret. do 3 f_equal. pose proof (whole_pages mx). lia. }
  rewrite length_take. fold mx.
  destruct (_ <? mx) eqn:E; to_prop.
  2:{ unfold mret, io_ret. do 3 f_equal. pose proof (whole_pages mx). lia. }
  unfold mbind, io_bind. rewrite list_messages_primary by done.
  rewrite (messages_page_at tn th w 200 (Z.to_nat (200 * q)) from Ho); [|lia|destruct Hfrom as [[-> ->]| ->]; [by left|right; f_equal; lia]].
  fold l. assert (Hcap' : 200 * q + 200 <= 200 * ((mx + 199) / 200)).
  { pose proof (whole_pages mx). lia. }
  set (rest := drop (Z.to_nat (200 * q)) l). assert (Hrest : length rest = (length l - Z.to_nat (200 * q))%nat)
    by apply length_drop.
  assert (Happ : take (Z.to_nat (200 * q)) l ++ take (Z.to_nat 200) rest = take (Z.to_nat (200 * q + 200)) l).
  { unfold rest. rewrite take_take_drop. f_equal. lia. }
  destruct (last (take (Z.to_nat 200) rest)) as [m|] eqn:El.
  2:{ apply last_None in El. assert (Hnil : length rest = 0%nat).
      { assert (H0 : length (take (Z.to_nat 200) rest) = 0%nat) by by rewrite El. rewrite length_take in H0. lia. }
      unfold mret, io_ret. by rewrite !take_ge by lia. }
  destruct (200 <? Z.of_nat (length rest)) eqn:Em; to_prop.
  - rewrite Happ. replace (200 * q + 200) with (200 * (q + 1)) by lia.
    assert (Hm : m_seq m = 200 * (q + 1)).
    { rewrite last_lookup, length_take in El. rewrite lookup_take_lt in El by lia. unfold rest in El.
      rewrite lookup_drop in El. apply (log_lookup _ _ _ _ _ Ho) in El. rewrite length_drop in El. lia. }
    rewrite Hm, IH; [|done|done|lia|by right|lia|lia|left; lia]. do 4 f_equal. lia.
  - unfold mret, io_ret. rewrite Happ. by rewrite !take_ge by lia.
Qed.

Lemma snapshot_run cfg tn th w :
  owned th tn w -> primary_only w ->
  _snapshot cfg tn th w = (Ret (take (Z.to_nat (snapshot_cap cfg)) (log tn th (db w))), w).
Proof.
  intros Ho Hp. unfold _snapshot.
  pose proof (snapshot_loop_at cfg tn th w (Z.to_nat (max_snapshot_messages cfg)) 0 None Ho Hp) as Hs.
  rewrite Z.mul_0_r in Hs. change (take (Z.to_nat 0) (log tn th (db w))) with (@nil MessageModel) in Hs. rewrite Hs; [|lia|by left|lia|lia|by right].
  do 3 f_equal. destruct (Z.max_spec 0 (snapshot_cap cfg)) as [[? ->]|[? ->]]; [done|lia].
Qed.

(** The page walk of a snapshot ends, and with reads served by the primary it
    returns the oldest messages of the log, whole pages of 200 up to the
    configured number. *)
Theorem snapshot_oldest (cfg : CompactionConfig) (tn th : string) (w : world) :
  owned th tn w -> primary_only w ->
  _snapshot cfg tn th w = (Ret (take (Z.to_nat (snapshot_cap cfg)) (log tn th (db w))), w).
Proof. apply snapshot_run. Qed.

(** ** The split *)

Lemma head_length_spec est keep : forall rts acc,
  acc <= keep ->
  let n := head_length est keep acc rts in
  (n <= length rts)%nat
  /\ acc + total_tokens_of est (take (length rts - n) rts) <= keep
  /\ (n <> 0%nat -> exists t, rts !! (length rts - n)%nat = Some t
       /\ keep < acc + total_tokens_of est (take (length rts - n) rts) + turn_tokens est t).
Proof.
  induction rts as [|t ts IH]; intros acc Hacc; cbn zeta; cbn [head_length].
  { cbn. split_and!; [lia|lia|done]. }
  destruct (keep <? acc + turn_tokens est t) eqn:E; to_prop.
  - cbn [length]. rewrite Nat.sub_diag. cbn [take total_tokens_of foldr lookup list_lookup].
    split_and!; [lia|cbn; lia|]. intros _. exists t. split; [done|cbn; lia].
  - destruct (IH (acc + turn_tokens est t) ltac:(lia)) as (H1 & H2 & H3). cbn zeta in *.
    set (n := head_length est keep _ ts) in *. cbn [length].
    replace (S (length ts) - n)%nat with (S (length ts - n)) by lia.
    assert (Ht : forall k, total_tokens_of est (take (S k) (t :: ts)) = turn_tokens est t + total_tokens_of est (take k ts))
      by done.
    rewrite !Ht. split_and!; [lia|lia|]. intros Hn. destruct (H3 Hn) as (t' & Hl & Hk). exists t'. split; [done|lia].
Qed.

(** The split keeps every message, its tail holds at most the configured
    tokens, and the newest message of the head would not fit beside it. *)
Theorem split_spec (est : TokenEstimator) (cfg : CompactionConfig) (messages : list MessageModel) :
  0 <= keep_tokens cfg ->
  let '(head, tail) := _split est cfg messages in
  head ++ tail = messages
  /\ total_tokens_of est (map turn_of tail) <= keep_tokens cfg
  /\ forall m, last head = Some m ->
       keep_tokens cfg < turn_tokens est (turn_of m) + total_tokens_of est (map turn_of tail).
Proof.
  intros Hk. unfold _split. set (rts := rev (map turn_of messages)).
  assert (Hlen : length rts = length messages) by (unfold rts; by rewrite length_rev, length_map).
  destruct (head_length_spec est (keep_tokens cfg) rts 0 Hk) as (H1 & H2 & H3). cbn zeta in *.
  set (n := head_length est (keep_tokens cfg) 0 rts) in *.
  assert (Hperm : total_tokens_of est (take (length rts - n) rts) = total_tokens_of est (map turn_of (drop n messages))).
  { assert (Hrev : forall l, total_tokens_of est (rev l) = total_tokens_of est l).
    { intros l. induction l as [|t l IH]; [done|]. cbn [rev]. rewrite total_tokens_app, IH. pose proof (total_tokens_app est [t] l) as Hcons. cbn [app] in Hcons. lia. }
    rewrite <- Hrev. f_equal. unfold rts. rewrite <- (take_drop n messages) at 2.
    rewrite map_app, rev_app_distr, take_app_le.
    2:{ rewrite !length_rev, !length_map, length_drop. lia. }
    rewrite take_ge by (rewrite !length_rev, !length_map, length_drop; lia). by rewrite rev_involutive. }
  rewrite Hperm in *. split_and!; [apply take_drop|lia|]. intros m Hm.
  destruct n as [|n']; [by rewrite take_0 in Hm|]. destruct (H3 ltac:(done)) as (t & Hl & Hlt).
  assert (t = turn_of m) as ->; [|lia].
  rewrite last_lookup, length_take in Hm. replace (S n' `min` length messages)%nat with (S n') in Hm by lia.
  cbn [Nat.pred] in Hm. rewrite lookup_take_lt in Hm by lia.
  assert (Hr : reverse (map turn_of messages) !! (length rts - S n')%nat = Some t)
    by (unfold reverse; rewrite <- rev_alt; exact Hl).
  clear Hl. apply reverse_lookup_Some in Hr as [Hl _].
  change (map turn_of messages) with (turn_of <$> messages) in Hl.
  rewrite length_fmap, list_lookup_fmap in Hl. rewrite Hlen in Hl.
  replace (length messages - S (length messages - S n'))%nat with n' in Hl by lia.
  rewrite Hm in Hl. by injection Hl.
Qed.

(** ** The breaker *)

Fixpoint fail_at (c : CompactionBreakerConfig) (key : string) (times : list Q) (b : breaker) : breaker :=
  match times with
  | [] => b
  | t :: ts => fail_at c key ts (record_failure c t key b).2
  end.

Lemma fail_at_entry c key times b n since t :
  b !! key = Some (n, since) \/ b !! key = None /\ n = 0 ->
  exists m, fail_at c key (times ++ [t]) b !! key
    = Some (m, if br_max_failures c <=? m then Some t else None) /\ m = n + Z.of_nat (S (length times)).
Proof.
  revert n since b. induction times as [|u us IH]; intros n since b Hb; cbn [app fail_at]; unfold record_failure.
  - assert (E : match b !! key with Some (n, _) => n | None => 0 end = n)
      by (by destruct Hb as [->|[-> ->]]).
    rewrite E. cbn. rewrite lookup_insert_eq. exists (n + 1). split; [done|lia].
  - assert (E : match b !! key with Some (n, _) => n | None => 0 end = n)
      by (by destruct Hb as [->|[-> ->]]).
    rewrite E. edestruct (IH (n + 1)) as (m & Hm & Hn).
    { left. apply lookup_insert_eq. }
    exists m. split; [exact Hm|]. cbn [length]. lia.
Qed.

(** From a fresh start, or after a success, the breaker is open exactly when
    as many compactions failed in a row as allowed and the recovery time has
    not passed since the last of them; asking after it has passed closes it. *)
Theorem breaker_trips (c : CompactionBreakerConfig) (key : string) (times : list Q) (last_time now : Q) (b : breaker) :
  let b0 := record_success key b in
  let b1 := fail_at c key (times ++ [last_time]) b0 in
  let expired := recovery_timeout c <=?q (now - last_time) in
  (is_tripped c now key b0).1 = false
  /\ (is_tripped c now key b1).1 = (br_max_failures c <=? Z.of_nat (S (length times))) && negb expired
  /\ (br_max_failures c <= Z.of_nat (S (length times)) -> expired = true ->
      (is_tripped c now key b1).2 !! key = None).
Proof.
  cbn zeta. unfold record_success, is_tripped. rewrite lookup_delete_eq. split; [done|].
  destruct (fail_at_entry c key times (delete key b) 0 None last_time) as (m & -> & Hm).
  { right. by rewrite lookup_delete_eq. }
  replace m with (Z.of_nat (S (length times))) by lia.
  destruct (br_max_failures c <=? _) eqn:E; to_prop; [|split; [done|lia]].
  destruct (recovery_timeout c <=?q _) eqn:Er; cbn; split; try done. intros _ _. by rewrite lookup_delete_eq.
Qed.

(** ** Compaction *)

Section compaction.
Context (est : TokenEstimator) (config : CompactionConfig) (breaker_config : CompactionBreakerConfig).
Context {L : Type} (generate : list turn -> io L compaction_exc json).
Context (chat : string -> io L string string) (loads : string -> option json) (probes_prompt : string).

Abbreviation service A := (io (session L) compact_exc A).
Abbreviation run := (compact est config breaker_config generate chat loads probes_prompt).
Abbreviation swap_run := (swap config generate chat loads probes_prompt).
Definition tables (s : session L) : database := db (ss_store s).

(** A computation that writes no table, and one that writes none unless it
    returns a result that says so. *)
Definition silent {A} (c : service A) : Prop := forall s, tables (c s).2 = tables s.
Definition atomic {A} (committed : A -> bool) (c : service A) : Prop := forall s,
  match c s with
  | (Ret a, s') => committed a = false -> tables s' = tables s
  | (Raise _, s') => tables s' = tables s
  end.

Lemma atomic_bind {A B} committed (c : service A) (f : A -> service B) :
  silent c -> (forall a, atomic committed (f a)) -> atomic committed (c ≫= f).
Proof.
  intros Hc Hf s. unfold mbind, io_bind. specialize (Hc s). destruct (c s) as [[a|e] s']; cbn in Hc; [|done].
  specialize (Hf a s'). destruct (f a s') as [[b|e] s'']; rewrite <- Hc; exact Hf.
Qed.

Lemma atomic_silent {A} committed (c : service A) : silent c -> atomic committed c.
Proof. intros Hc s. specialize (Hc s). by destruct (c s) as [[a|e] s']. Qed.

Lemma silent_bind {A B} (c : service A) (f : A -> service B) :
  silent c -> (forall a, silent (f a)) -> silent (c ≫= f).
Proof.
  intros Hc Hf s. unfold mbind, io_bind. specialize (Hc s). destruct (c s) as [[a|e] s']; cbn in Hc; [|done].
  rewrite (Hf a s'). exact Hc.
Qed.

Lemma silent_store {A} (c : store A) `{!Respects quiet c} : silent (in_store c).
Proof.
  intros s. unfold in_store, lift. pose proof (respects (ss_store s)) as [Hq _]. revert Hq.
  destruct (c (ss_store s)) as [[a|e] w]; by intros Hq.
Qed.

Lemma silent_llm {A} (c : io L compaction_exc A) : silent (in_llm c).
Proof. intros s. unfold in_llm, lift. by destruct (c (ss_llm s)) as [[a|e] l]. Qed.

Lemma in_store_ret {A} (c : store A) (s s' : session L) a : in_store c s = (Ret a, s') -> c (ss_store s) = (Ret a, ss_store s').
Proof. unfold in_store, lift. destruct (c (ss_store s)) as [[b|e] w]; [|done]. by intros [= <- <-]. Qed.

Lemma current_layers_ret tn th w old prev w' row :
  _current_layers tn th w = (Ret (old, prev), w') -> select_thread tn th (db w) = [row] ->
  old = stored_layers (Some row) /\ prev = last_position (stored_layers (Some row)).
Proof.
  intros H Hsel. apply bind_ret in H as (row0 & w1 & E%session_ret & H). injection H as <- <- _.
  apply bind_ret in E as (found & w2 & Hq & E). injection Hq as <- <-. rewrite Hsel in E.
  by injection E as <- _.
Qed.

(** The one write of a compaction. *)
Lemma atomic_commit tn th block p m r dg (f : summary_result -> compact_result) :
  (forall s, cr_compacted (f s) = true) ->
  atomic cr_compacted (c ← in_store (set_summary tn th block p m r dg); mret (f c)).
Proof.
  intros Hf s. unfold mbind, io_bind, in_store, lift.
  destruct (set_summary tn th block p m r dg (ss_store s)) as [[c|e] w] eqn:E; cbn.
  - by rewrite Hf.
  - by apply set_summary_atomic in E.
Qed.

Lemma swap_atomic tn th head slice old m r : atomic cr_compacted (swap_run tn th head slice old m r).
Proof.
  unfold swap. destruct (if (_ <=? _)%nat then _ else _) as [source kept].
  apply atomic_bind; [apply silent_llm|]. intros payload.
  apply atomic_bind; [by intros s; destruct (validate payload)|]. intros [].
  apply atomic_bind; [by intros s; destruct (quality_check config)|]. intros [].
  destruct (joined _); [|by intros s]. by apply atomic_commit.
Qed.

Lemma fallback_atomic tn th snapshot r : atomic cr_compacted (_truncate_fallback config (L := L) tn th snapshot r).
Proof.
  unfold _truncate_fallback. destruct (_ <=? _); [by intros s|].
  destruct (truncation_boundary config snapshot); [|by intros s]. by apply atomic_commit.
Qed.

(** How a call of [compact] ends. *)
Inductive compact_end (tn th : string) (r : option string) (s : session L) :
    outcome compact_exc compact_result -> session L -> Prop :=
| end_noop s' : tables s' = tables s -> ss_llm s' = ss_llm s -> compact_end tn th r s (Ret _noop_result) s'
| end_unread e s' : tables s' = tables s -> ss_llm s' = ss_llm s -> compact_end tn th r s (Raise (StoreFailed e)) s'
| end_fallback snapshot s2 o s' :
    (is_tripped breaker_config (ss_mono s) (tn +:+ ":" +:+ th) (ss_breaker s)).1 = true ->
    tables s2 = tables s -> ss_llm s2 = ss_llm s ->
    _truncate_fallback config tn th snapshot r s2 = (o, s') -> compact_end tn th r s o s'
| end_swapped head old prev w' boundary s3 result s' :
    (is_tripped breaker_config (ss_mono s) (tn +:+ ":" +:+ th) (ss_breaker s)).1 = false -> tables s3 = tables s ->
    _current_layers tn th (ss_store s3) = (Ret (old, prev), w') ->
    last (List.filter (fun m => prev <? m_seq m) head) = Some boundary ->
    swap_run tn th head (List.filter (fun m => prev <? m_seq m) head) old boundary r s3 = (Ret result, s') ->
    compact_end tn th r s (Ret result) (with_breaker (record_success (tn +:+ ":" +:+ th) (ss_breaker s')) s')
| end_failed head old boundary s3 e s' :
    (is_tripped breaker_config (ss_mono s) (tn +:+ ":" +:+ th) (ss_breaker s)).1 = false -> tables s3 = tables s ->
    swap_run tn th head (List.filter (fun m => last_position old <? m_seq m) head) old boundary r s3 = (Raise e, s') ->
    compact_end tn th r s (Raise e)
      (with_breaker (record_failure breaker_config (ss_mono s') (tn +:+ ":" +:+ th) (ss_breaker s')).2 s').

Lemma in_store_llm {A} (c : store A) (s : session L) :
  ss_llm (in_store c s).2 = ss_llm s /\ ss_mono (in_store c s).2 = ss_mono s
  /\ ss_breaker (in_store c s).2 = ss_breaker s.
Proof. unfold in_store, lift. by destruct (c (ss_store s)) as [[a|e] w]. Qed.

Lemma current_layers_prev tn th w old prev w' :
  _current_layers tn th w = (Ret (old, prev), w') -> prev = last_position old.
Proof. intros (row & w1 & _ & H)%bind_ret. by injection H as <- <- _. Qed.

Lemma quiet_again {A} (c : store A) `{!Respects quiet c} (w : world) a w' :
  c w = (Ret a, w') -> db w' = db w.
Proof. intros E. pose proof (respects w) as [Hq _]. rewrite E in Hq. exact Hq. Qed.

Lemma compact_ends tn th r s : compact_end tn th r s (run tn th r s).1 (run tn th r s).2.
Proof.
  destruct (run tn th r s) as [o s'] eqn:H. cbn [fst snd]. revert H.
  unfold compact. set (key := tn +:+ ":" +:+ th). unfold mbind at 1, io_bind at 1.
  pose proof (silent_store (_snapshot config tn th) s) as Hq.
  pose proof (in_store_llm (_snapshot config tn th) s) as (Hl & Hmo & Hbr).
  destruct (in_store (_snapshot config tn th) s) as [[snapshot|e] s1] eqn:E1; cbn [snd] in *.
  2:{ unfold in_store, lift in E1. destruct (_snapshot config tn th (ss_store s)) as [[|e'] w]; [done|].
      injection E1 as <- <-. intros [= <- <-]. by apply end_unread. }
  destruct snapshot as [|m ms]; [intros [= <- <-]; by apply end_noop|].
  destruct (_split est config (m :: ms)).1 as [|h hs]; [intros [= <- <-]; by apply end_noop|].
  cbv [mbind io_bind get_st]. rewrite Hmo, Hbr. destruct (is_tripped _ _ key _) as [tripped b] eqn:Et.
  cbv [modify]. set (s2 := with_breaker b s1). destruct tripped.
  { intros E. eapply (end_fallback _ _ _ _ (m :: ms) s2); [exact (f_equal fst Et)|exact Hq|exact Hl|exact E]. }
  pose proof (silent_store (_current_layers tn th) s2) as Hq2.
  pose proof (in_store_llm (_current_layers tn th) s2) as (Hl2 & _ & _).
  destruct (in_store (_current_layers tn th) s2) as [[[old prev]|e] s3] eqn:El; cbn [snd] in *.
  2:{ unfold in_store, lift in El. destruct (_current_layers tn th (ss_store s2)) as [[|e'] w]; [done|].
      injection El as <- <-. intros [= <- <-]. apply end_unread; [by rewrite Hq2|by rewrite Hl2]. }
  destruct (last (List.filter _ (h :: hs))) as [boundary|] eqn:Eb; [|intros [= <- <-]; apply end_noop; [by rewrite Hq2|by rewrite Hl2]].
  assert (Htab : tables s3 = tables s) by (rewrite Hq2; exact Hq).
  apply in_store_ret in El. assert (El3 : exists w', _current_layers tn th (ss_store s3) = (Ret (old, prev), w')).
  { destruct (_current_layers tn th (ss_store s3)) as [o3 w'] eqn:E3. exists w'. f_equal.
    pose proof (quiet_again _ _ _ _ El) as Hdb. clear -El E3 Hdb.
    apply bind_ret in El as (row & w1 & E%session_ret & H). injection H as <- <- _.
    apply bind_ret in E as (found & w2 & H & E). injection H as <- <-. change (db (ss_store s1)) with (db (ss_store s2)) in E. rewrite <- Hdb in E.
    unfold _current_layers, get_thread, get_session, query, mbind, io_bind in E3.
    destruct (select_thread tn th (db (ss_store s3))) as [|t [|t' ts]]; cbn in E; try done;
      injection E as <- _; cbn in E3; by injection E3 as <- _. }
  destruct El3 as [w3 El3]. pose proof (current_layers_prev _ _ _ _ _ _ El3) as Hprev.
  unfold counting_failures. destruct (swap_run _ _ _ _ _ _ _ s3) as [[res|e] s4] eqn:Es; intros [= <- <-].
  - eapply end_swapped; [exact (f_equal fst Et)|done..].
  - subst prev. eapply end_failed; [exact (f_equal fst Et)|done..].
Qed.

Lemma compact_is_atomic tn th r s :
  match run tn th r s with
  | (Ret result, s') => cr_compacted result = false -> tables s' = tables s
  | (Raise _, s') => tables s' = tables s
  end.
Proof.
  pose proof (compact_ends tn th r s) as He. destruct (run tn th r s) as [o s']. cbn [fst snd] in He.
  destruct He as [s' Ht _|e s' Ht _|snapshot s2 o s' _ Ht _ E|head old prev w' m s3 res s' _ Ht _ _ E
                 |head old m s3 e s' _ Ht E].
  - done.
  - done.
  - pose proof (fallback_atomic tn th snapshot r s2) as Ha. rewrite E in Ha. rewrite <- Ht. by destruct o.
  - pose proof (swap_atomic tn th head (List.filter (fun m => prev <? m_seq m) head) old m r s3) as Ha.
    rewrite E in Ha. rewrite <- Ht. exact Ha.
  - pose proof (swap_atomic tn th head (List.filter (fun m => last_position old <? m_seq m) head) old m r s3) as Ha.
    rewrite E in Ha. rewrite <- Ht. exact Ha.
Qed.

(** C31: Atomicity: a compaction that raises, whatever raised, or reports that
    nothing was compacted leaves every table as it was, so the previous
    checkpoint stays in force. *)
Theorem compact_atomic (tn th : string) (r : option string) (s : session L) :
  match run tn th r s with
  | (Ret result, s') => cr_compacted result = false -> tables s' = tables s
  | (Raise _, s') => tables s' = tables s
  end.
Proof. apply compact_is_atomic. Qed.

(** ** What a swap writes *)

Lemma joined_some layers content : joined layers = Some content -> Forall (fun l => is_Some (content_of l)) layers.
Proof.
  unfold joined. destruct (mapM content_of layers) as [cs|] eqn:E; [|done]. intros _.
  apply mapM_Some in E. induction E; constructor; [by eexists|done].
Qed.

Lemma stored_after content payload position kept version at_ row :
  stored_layers (Some (set_summary_fields (summary_block_of content payload position (kept ++ [layer_of position payload]))
                         position version at_ row))
  = kept ++ [layer_of position payload].
Proof. unfold stored_layers. cbn. by destruct kept. Qed.

Lemma swap_ret tn th head slice old m r s result s' :
  swap_run tn th head slice old m r s = (Ret result, s') ->
  let kept := if (max_summary_layers config <=? length old)%nat then [] else old in
  exists payload row content,
    validate payload = []
    /\ select_thread tn th (tables s) = [row]
    /\ result = {| cr_compacted := true; cr_summary := Some (render_summary payload);
                   cr_version := Some (summary_version row + 1); cr_position := Some (m_seq m);
                   cr_degraded := false; cr_layers := Some (kept ++ [layer_of (m_seq m) payload]) |}
    /\ joined (kept ++ [layer_of (m_seq m) payload]) = Some content
    /\ select_thread tn th (tables s')
       = [set_summary_fields (summary_block_of content payload (m_seq m) (kept ++ [layer_of (m_seq m) payload]))
            (m_seq m) (summary_version row + 1) (now (ss_store s)) row]
    /\ messages (tables s') = messages (tables s).
Proof.
  cbn zeta. unfold swap. set (pair := if (_ <=? _)%nat then _ else _).
  assert (Hk : pair.2 = if (max_summary_layers config <=? length old)%nat then [] else old)
    by (unfold pair; by destruct (_ <=? _)%nat).
  destruct pair as [source kept]. cbn [snd] in Hk. rewrite <- Hk. clear Hk.
  unfold mbind, io_bind, in_llm, lift. destruct (generate _ (ss_llm s)) as [[payload|e] l]; [|done].
  destruct (validate payload) eqn:Ev; cbn; [|done].
  set (s1 := if quality_check config then _ else _). intros H.
  assert (Hs1 : exists l', s1 (with_llm l s) = (Ret tt, with_llm l' s)).
  { unfold s1. destruct (quality_check config); [by eexists|by exists l]. }
  destruct Hs1 as [l' E1]. rewrite E1 in H. clear E1 s1. destruct (joined _) as [content|] eqn:Ej; [|done].
  unfold in_store, lift in H. cbn [ss_store with_llm] in H.
  destruct (set_summary _ _ _ _ _ _ _ (ss_store s)) as [[c|e] w] eqn:Es; [|done].
  apply set_summary_ret in Es as (row & Hsel & Hsel' & Hm & Hv & Hp). injection H as <- <-.
  exists payload, row, content. rewrite Hv, Hp. by split_and!.
Qed.

Definition appended (row : ThreadModel) (layers : list json) (payload : json) (position : Z) : compact_result := {|
  cr_compacted := true; cr_summary := Some (render_summary payload);
  cr_version := Some (summary_version row + 1); cr_position := Some position;
  cr_degraded := false; cr_layers := Some layers |}.

Lemma fallback_ret tn th snapshot r s result s' :
  _truncate_fallback config tn th snapshot r s = (Ret result, s') -> cr_compacted result = true ->
  exists row m, truncation_boundary config snapshot = Some m /\ select_thread tn th (tables s) = [row]
    /\ select_thread tn th (tables s')
       = [set_summary_fields (degraded_block (m_seq m)) (m_seq m) (summary_version row + 1) (now (ss_store s)) row]
    /\ result = {| cr_compacted := true; cr_summary := Some DEGRADED_SUMMARY_CONTENT;
                   cr_version := Some (summary_version row + 1); cr_position := Some (m_seq m);
                   cr_degraded := true; cr_layers := None |}
    /\ messages (tables s') = messages (tables s) /\ ss_llm s' = ss_llm s.
Proof.
  unfold _truncate_fallback. destruct (_ <=? _); [by intros [= <- _]|].
  destruct (truncation_boundary config snapshot) as [m|]; [|done]. unfold mbind, io_bind, in_store, lift.
  destruct (set_summary _ _ _ _ _ _ _ (ss_store s)) as [[c|e] w] eqn:Es; [|done].
  apply set_summary_ret in Es as (row & Hsel & Hsel' & Hm & Hv & Hp). intros [= <- <-] _.
  exists row, m. rewrite Hv, Hp. by split_and!.
Qed.

(** A committed compaction, degraded or not. *)
Lemma compact_committed tn th r s s' result :
  run tn th r s = (Ret result, s') -> cr_compacted result = true ->
  exists row row' position,
    select_thread tn th (tables s) = [row] /\ select_thread tn th (tables s') = [row']
    /\ messages (tables s') = messages (tables s)
    /\ summary_position row' = Some position /\ summary_version row' = summary_version row + 1
    /\ cr_position result = Some position /\ cr_version result = Some (summary_version row + 1)
    /\ (cr_degraded result = true /\ ss_llm s' = ss_llm s
           /\ (is_tripped breaker_config (ss_mono s) (tn +:+ ":" +:+ th) (ss_breaker s)).1 = true
           /\ (exists l, stored_layers (Some row') = [l] /\ position_of l = position)
         \/ exists payload layers, validate payload = []
           /\ last_position (stored_layers (Some row)) < position
           /\ layers = (if (max_summary_layers config <=? length (stored_layers (Some row)))%nat then []
                        else stored_layers (Some row)) ++ [layer_of position payload]
           /\ result = appended row layers payload position
           /\ stored_layers (Some row') = layers
           /\ ss_breaker s' !! (tn +:+ ":" +:+ th) = None).
Proof.
  intros Hrun Hc. pose proof (compact_ends tn th r s) as He. rewrite Hrun in He. cbn [fst snd] in He.
  remember (Ret result) as o eqn:Eo. destruct He as [s' Ht _|e s' Ht _|snapshot s2 o s' Htrip Ht Hl E
    |head old prev w' m s3 res s' _ Ht Hlay Hlast E|head old m s3 e s' _ Ht E]; simplify_eq.
  - apply fallback_ret in E as (row & m & _ & Hsel & Hsel' & -> & Hm & Hllm); [|done].
    eexists row, _, (m_seq m). rewrite <- Ht. split_and!; [done|exact Hsel'|done|done|done|done|done|].
    left. split_and!; [done|congruence|done|]. eexists. by split.
  - apply swap_ret in E as (payload & row & content & Hv & Hsel & -> & Hj & Hsel' & Hmsg).
    assert (Hsel3 : select_thread tn th (db (ss_store s3)) = [row]) by exact Hsel.
    destruct (current_layers_ret tn th (ss_store s3) old prev w' row Hlay Hsel3) as [-> ->].
    assert (Hin : m ∈ List.filter (fun m => last_position (stored_layers (Some row)) <? m_seq m) head)
      by (apply last_Some_elem_of; exact Hlast).
    apply list_elem_of_In, filter_In in Hin as [_ Hlt]. to_prop.
    eexists row, _, (m_seq m). rewrite <- Ht. split_and!; [done|exact Hsel'|exact Hmsg|done|done|done|done|].
    right. exists payload. eexists. split_and!; [done|done|done|done|apply stored_after|apply lookup_delete_eq].
Qed.

(** A successful compaction appends one valid layer that covers messages past
    the previous boundary and leaves the earlier layers as they were; with as
    many layers as allowed it replaces them by one.  The checkpoint written is
    the one reported, the thread's messages are untouched, and the thread's
    failure count is cleared. *)
Theorem compact_appends_layer (tn th : string) (r : option string) (s s' : session L) (result : compact_result) :
  run tn th r s = (Ret result, s') -> cr_compacted result = true -> cr_degraded result = false ->
  exists row row' payload position,
    let old := stored_layers (Some row) in
    let layers := (if (max_summary_layers config <=? length old)%nat then [] else old)
                  ++ [layer_of position payload] in
    select_thread tn th (tables s) = [row] /\ select_thread tn th (tables s') = [row']
    /\ validate payload = [] /\ last_position old < position
    /\ result = appended row layers payload position
    /\ stored_layers (Some row') = layers
    /\ summary_position row' = Some position /\ summary_version row' = summary_version row + 1
    /\ messages (tables s') = messages (tables s)
    /\ ss_breaker s' !! (tn +:+ ":" +:+ th) = None.
Proof.
  intros Hrun Hc Hd. destruct (compact_committed _ _ _ _ _ _ Hrun Hc) as
    (row & row' & position & Hsel & Hsel' & Hm & Hp & Hv & _ & _ & [[Hd' _]|(payload & layers & Hval & Hlt & -> & Hr & Hs & Hb)]).
  { by rewrite Hd in Hd'. }
  by exists row, row', payload, position.
Qed.

(** What holds of a thread's checkpoint: the layers cover ever later parts of
    the log, there are at most as many as configured, and the last one ends at
    the summary position. *)
Definition checkpoint_ok (t : ThreadModel) : Prop :=
  let layers := stored_layers (Some t) in
  StronglySorted Z.lt (map position_of layers)
  /\ (length layers <= Nat.max 1 (max_summary_layers config))%nat
  /\ (layers <> [] -> summary_position t = Some (last_position layers)).

Lemma last_position_snoc ls l : last_position (ls ++ [l]) = position_of l.
Proof. unfold last_position. by rewrite last_snoc. Qed.

Lemma sorted_snoc_position ls l :
  StronglySorted Z.lt (map position_of ls) -> (ls <> [] -> last_position ls < position_of l) ->
  StronglySorted Z.lt (map position_of (ls ++ [l])).
Proof.
  intros Hs Hl. rewrite map_app. apply StronglySorted_snoc; [done|].
  destruct ls as [|l0 ls0]; [constructor|]. specialize (Hl ltac:(done)).
  destruct (exists_last (l := l0 :: ls0) ltac:(done)) as (front & z & E). rewrite E in *.
  rewrite last_position_snoc in Hl. rewrite map_app in Hs |- *. apply StronglySorted_app in Hs as (Hall & _ & _).
  apply Forall_app. split; [|by constructor]. apply Forall_forall. intros x Hx.
  assert (x < position_of z); [|lia]. apply (Hall x); [done|by left].
Qed.

(** Any history of compactions keeps the checkpoint in order, whatever each of
    them ended with. *)
Theorem compact_keeps_checkpoint (tn th : string) (r : option string) (s : session L) (row : ThreadModel) :
  select_thread tn th (tables s) = [row] -> checkpoint_ok row ->
  exists row', select_thread tn th (tables (run tn th r s).2) = [row'] /\ checkpoint_ok row'.
Proof.
  intros Hsel Hok. pose proof (compact_is_atomic tn th r s) as Ha.
  destruct (run tn th r s) as [[result|e] s'] eqn:E; cbn [snd]; [|exists row; by rewrite Ha].
  destruct (cr_compacted result) eqn:Ec; [|exists row; by rewrite Ha].
  destruct (compact_committed _ _ _ _ _ _ E Ec) as
    (row0 & row' & position & Hsel0 & Hsel' & _ & Hp & _ & _ & _ & Hcase).
  rewrite Hsel in Hsel0. injection Hsel0 as <-. exists row'. split; [done|]. unfold checkpoint_ok.
  destruct Hcase as [(_ & _ & _ & l & -> & Hl)|(payload & layers & _ & Hlt & -> & _ & -> & _)].
  - cbn [map length last_position]. split_and!; [repeat constructor|lia|]. intros _.
    unfold last_position. cbn. by rewrite Hp, Hl.
  - destruct Hok as (Hs & Hlen & _). set (old := stored_layers (Some row)) in *.
    rewrite length_app, last_position_snoc. split_and!; [| |by intros _; rewrite Hp].
    + destruct (_ <=? _)%nat; [repeat constructor|]. by apply sorted_snoc_position.
    + destruct (max_summary_layers config <=? length old)%nat eqn:El; cbn [length]; [lia|].
      apply Nat.leb_gt in El. lia.
Qed.

Lemma fallback_llm tn th snapshot r (s : session L) :
  ss_llm (_truncate_fallback config tn th snapshot r s).2 = ss_llm s
  /\ forall result s', _truncate_fallback config tn th snapshot r s = (Ret result, s') ->
       cr_compacted result = true -> cr_degraded result = true.
Proof.
  split.
  - unfold _truncate_fallback. destruct (_ <=? _); [done|]. destruct (truncation_boundary _ _); [|done].
    unfold mbind, io_bind. set (c := in_store _). pose proof (in_store_llm (set_summary tn th
      (degraded_block (m_seq m)) (m_seq m) (m_id m) r true) s) as (Hl & _). fold c in Hl.
    destruct (c s) as [[a|e] s2]; exact Hl.
  - intros result s' E Hc. by apply fallback_ret in E as (row & m & _ & _ & _ & -> & _).
Qed.

(** With the breaker open no call is made to the model: what the compaction
    does, if anything, is the truncation. *)
Theorem tripped_never_summarizes (tn th : string) (r : option string) (s : session L) :
  (is_tripped breaker_config (ss_mono s) (tn +:+ ":" +:+ th) (ss_breaker s)).1 = true ->
  ss_llm (run tn th r s).2 = ss_llm s
  /\ forall result s', run tn th r s = (Ret result, s') -> cr_compacted result = true -> cr_degraded result = true.
Proof.
  intros Ht. pose proof (compact_ends tn th r s) as He. destruct (run tn th r s) as [o s'] eqn:E.
  cbn [fst snd] in *. destruct He as [s' _ Hl|e s' _ Hl|snapshot s2 o s' _ _ Hl Ef|? ? ? ? ? ? ? ? Hn|? ? ? ? ? ? Hn];
    try congruence.
  - split; [done|]. by intros result s'' [= <- <-].
  - split; [done|]. by intros result s'' [=].
  - destruct (fallback_llm tn th snapshot r s2) as [H1 H2]. rewrite Ef in H1, H2. cbn [snd] in H1.
    split; [congruence|exact H2].
Qed.

Lemma current_layers_run tn th w row :
  select_thread tn th (db w) = [row] ->
  _current_layers tn th w = (Ret (stored_layers (Some row), last_position (stored_layers (Some row))), w).
Proof.
  intros Hsel. unfold _current_layers, get_thread, get_session, query, mbind, io_bind. by rewrite Hsel.
Qed.

Lemma head_upto tn th w k m m' :
  owned th tn w -> last (_split est config (take k (log tn th (db w)))).1 = Some m ->
  m' ∈ (_split est config (take k (log tn th (db w)))).1 -> m_seq m' <= m_seq m.
Proof.
  intros Ho Hlast Hin. unfold _split in *. cbn [fst] in *. set (n := head_length _ _ _ _) in *.
  rewrite take_take in *. rewrite last_lookup in Hlast. apply list_elem_of_lookup in Hin as [i Hi].
  pose proof (lookup_lt_Some _ _ _ Hi) as Hlt. apply lookup_take_Some in Hlast as [Hlast _], Hi as [Hi _].
  apply (log_lookup _ _ _ _ _ Ho) in Hlast, Hi. lia.
Qed.

(** Only the oldest messages are ever compacted: over the primary, once the
    summary reaches the last of the oldest messages of the snapshot that would
    be summarised, every further call does nothing, however long the log has
    grown. *)
Theorem compaction_stalls (tn th : string) (r : option string) (s : session L) (row : ThreadModel) (m : MessageModel) :
  owned th tn (ss_store s) -> primary_only (ss_store s) ->
  (is_tripped breaker_config (ss_mono s) (tn +:+ ":" +:+ th) (ss_breaker s)).1 = false ->
  select_thread tn th (tables s) = [row] ->
  last (_split est config (take (Z.to_nat (snapshot_cap config)) (log tn th (tables s)))).1 = Some m ->
  m_seq m <= last_position (stored_layers (Some row)) ->
  (run tn th r s).1 = Ret _noop_result.
Proof.
  intros Ho Hp Ht Hsel Hlast Hle. unfold compact. set (key := tn +:+ ":" +:+ th) in *.
  set (snapshot := take (Z.to_nat (snapshot_cap config)) (log tn th (tables s))) in *.
  assert (E : in_store (_snapshot config tn th) s = (Ret snapshot, s)).
  { unfold in_store, lift. rewrite (snapshot_run config tn th (ss_store s) Ho Hp). by destruct s. }
  unfold mbind at 1, io_bind at 1. rewrite E.
  assert (Hall : forall m', m' ∈ (_split est config snapshot).1 -> m_seq m' <= m_seq m)
    by (intros m'; by apply head_upto).
  destruct snapshot as [|x xs]; [done|].
  destruct (_split est config (x :: xs)).1 as [|h hs] eqn:Eh; [done|].
  cbv [mbind io_bind get_st]. destruct (is_tripped _ _ key _) as [tripped b]. cbn [fst] in Ht. subst tripped.
  cbv [modify]. unfold in_store, lift. change (ss_store (with_breaker b s)) with (ss_store s).
  rewrite (current_layers_run tn th (ss_store s) row Hsel).
  assert (Hnone : List.filter (fun m => last_position (stored_layers (Some row)) <? m_seq m) (h :: hs) = []).
  { apply filter_none. intros m' Hm'%list_elem_of_In. apply Z.ltb_ge. specialize (Hall m' Hm'). lia. }
  cbv iota beta. by rewrite Hnone.
Qed.

End compaction.

(** ** A thread at work

    Four messages over the primary alone; one character is one token, ten
    tokens stay live. *)

Module CompactionSample.
Definition primary : ReplicaRouter := new_router [] 5.
Definition w0 : world := initial counting ["c1"] primary.
Definition w1 : world := snd (create_thread "t1" "c1" None (Some "eu1") None w0).
Definition w2 : world := snd (append_message "t1" "u0" (say "user" "hello" None None []) w1).
Definition w3 : world := snd (append_message "t1" "u0" (say "assistant" "hi there" None None []) w2).
Definition w4 : world := snd (append_message "t1" "u0" (say "user" "refund please" None None []) w3).
Definition w5 : world := snd (append_message "t1" "u0" (say "assistant" "ok" None None []) w4).

Lemma w5_reachable : reachable counting ["c1"] primary w5.
Proof. do 4 (eapply rtc_r; [|apply step_append]). apply rtc_once, step_create. Qed.

Lemma w5_owned : owned "u0" "t1" w5.
Proof. split; [by eapply reachable_inv; [apply _|exact w5_reachable]|]. vm_compute. constructor. Qed.

Definition bc : CompactionBreakerConfig := {| br_max_failures := 3; recovery_timeout := 300 |}.
Definition generate : list turn -> io (list string) compaction_exc json :=
  summarize GeneratorSample.est (<["p:m" := Build_ModelSpec "p" "m" 200000 0 0]> ∅) "p" "m" "{conversation}"
    GeneratorSample.config GeneratorSample.loads GeneratorSample.chat.

Definition fresh : session (list string) :=
  {| ss_store := w5; ss_breaker := ∅; ss_mono := 100; ss_llm := [] |}.

Definition run (s : session (list string)) : outcome compact_exc compact_result * session (list string) :=
  compact GeneratorSample.est GeneratorSample.config bc generate GeneratorSample.chat GeneratorSample.loads
    EmptyString "t1" "u0" None s.

Definition row_of (s : session (list string)) : option ThreadModel :=
  head (select_thread "t1" "u0" (db (ss_store s))).
Definition compacted : session (list string) := (run fresh).2.
Definition tripped : session (list string) :=
  with_breaker (fail_at bc "t1:u0" [1; 2; 100]%Q ∅) compacted.
End CompactionSample.

(** The first call covers the three older messages; a second one finds
    nothing new and makes no call. *)
Example sample_compaction :
  let s := CompactionSample.compacted in
  (CompactionSample.run CompactionSample.fresh).1
  = Ret (appended {| t_id := "u0"; t_tenant_id := "t1"; t_conversation_id := "c1"; t_surface_id := None;
                     t_end_user_id := Some "eu1"; t_status := "active"; Threads.summary_block := None;
                     summary_position := None; summary_version := 0; forked_from := None; archived := false;
                     t_created_at := 0; t_updated_at := 0 |}
           [layer_of 3 GeneratorSample.payload] GeneratorSample.payload 3)
  /\ (CompactionSample.run s).1 = Ret _noop_result
  /\ length (ss_llm (CompactionSample.run s).2) = 1%nat.
Proof. by vm_compute. Qed.

(** The truncation of an open breaker knows nothing of the checkpoint it
    replaces: here the summary of three messages gives way to the degraded
    text and the boundary moves back. *)
Example truncation_moves_back :
  (summary_position <$> CompactionSample.row_of CompactionSample.compacted) = Some (Some 3)
  /\ let s := (CompactionSample.run CompactionSample.tripped).2 in
     (summary_position <$> CompactionSample.row_of s) = Some (Some 2)
     /\ (content_of ∘ block_of) (CompactionSample.row_of s) = Some DEGRADED_SUMMARY_CONTENT.
Proof. by vm_compute. Qed.

Lemma snapshot_oldest_witness :
  _snapshot GeneratorSample.config "t1" "u0" CompactionSample.w5
  = (Ret (take 1000 (log "t1" "u0" (db CompactionSample.w5))), CompactionSample.w5).
Proof.
  apply (snapshot_oldest GeneratorSample.config "t1" "u0" CompactionSample.w5 CompactionSample.w5_owned).
  reflexivity.
Defined.

Lemma split_spec_witness :
  let '(head, tail) := _split GeneratorSample.est GeneratorSample.config
                         (log "t1" "u0" (db CompactionSample.w5)) in
  head ++ tail = log "t1" "u0" (db CompactionSample.w5)
  /\ total_tokens_of GeneratorSample.est (map turn_of tail) <= 10
  /\ forall m, last head = Some m ->
       10 < turn_tokens GeneratorSample.est (turn_of m)
            + total_tokens_of GeneratorSample.est (map turn_of tail).
Proof.
  apply (split_spec GeneratorSample.est GeneratorSample.config (log "t1" "u0" (db CompactionSample.w5))).
  discriminate.
Defined.

Lemma breaker_trips_witness :
  (is_tripped CompactionSample.bc 399 "t1:u0" (fail_at CompactionSample.bc "t1:u0" ([1; 2] ++ [100])%Q
     (record_success "t1:u0" ∅))).1 = true
  /\ (is_tripped CompactionSample.bc 400 "t1:u0" (fail_at CompactionSample.bc "t1:u0" ([1; 2] ++ [100])%Q
        (record_success "t1:u0" ∅))).2 !! "t1:u0" = None.
Proof.
  split.
  - rewrite (proj1 (proj2 (breaker_trips CompactionSample.bc "t1:u0" [1; 2]%Q 100 399 ∅))). reflexivity.
  - apply (proj2 (proj2 (breaker_trips CompactionSample.bc "t1:u0" [1; 2]%Q 100 400 ∅))); [discriminate|reflexivity].
Defined.

Lemma compact_appends_layer_witness :
  exists row row' payload position,
    let old := stored_layers (Some row) in
    let layers := (if (2 <=? length old)%nat then [] else old) ++ [layer_of position payload] in
    select_thread "t1" "u0" (tables CompactionSample.fresh) = [row]
    /\ select_thread "t1" "u0" (tables CompactionSample.compacted) = [row']
    /\ validate payload = [] /\ last_position old < position
    /\ stored_layers (Some row') = layers
    /\ summary_position row' = Some position /\ summary_version row' = summary_version row + 1
    /\ messages (tables CompactionSample.compacted) = messages (tables CompactionSample.fresh)
    /\ ss_breaker CompactionSample.compacted !! "t1:u0" = None.
Proof.
  destruct (compact_appends_layer GeneratorSample.est GeneratorSample.config CompactionSample.bc
    CompactionSample.generate GeneratorSample.chat GeneratorSample.loads EmptyString "t1" "u0" None
    CompactionSample.fresh CompactionSample.compacted
    (appended {| t_id := "u0"; t_tenant_id := "t1"; t_conversation_id := "c1"; t_surface_id := None;
                 t_end_user_id := Some "eu1"; t_status := "active"; Threads.summary_block := None;
                 summary_position := None; summary_version := 0; forked_from := None; archived := false;
                 t_created_at := 0; t_updated_at := 0 |}
       [layer_of 3 GeneratorSample.payload] GeneratorSample.payload 3))
    as (row & row' & payload & position & H1 & H2 & H3 & H4 & _ & H6).
  - vm_compute. reflexivity.
  - reflexivity.
  - reflexivity.
  - exists row, row', payload, position. exact (conj H1 (conj H2 (conj H3 (conj H4 H6)))).
Defined.

Lemma compact_keeps_checkpoint_witness :
  exists row', select_thread "t1" "u0" (tables (CompactionSample.run CompactionSample.fresh).2) = [row']
    /\ checkpoint_ok GeneratorSample.config row'.
Proof.
  eapply (compact_keeps_checkpoint GeneratorSample.est GeneratorSample.config CompactionSample.bc
            CompactionSample.generate GeneratorSample.chat GeneratorSample.loads EmptyString "t1" "u0" None
            CompactionSample.fresh).
  - vm_compute. reflexivity.
  - split; [constructor|split]; [cbn; lia|]. intros Hn. by destruct Hn.
Defined.

Lemma tripped_never_summarizes_witness :
  ss_llm (CompactionSample.run CompactionSample.tripped).2 = ss_llm CompactionSample.tripped
  /\ forall result s', CompactionSample.run CompactionSample.tripped = (Ret result, s') ->
       cr_compacted result = true -> cr_degraded result = true.
Proof.
  apply (tripped_never_summarizes GeneratorSample.est GeneratorSample.config CompactionSample.bc
            CompactionSample.generate GeneratorSample.chat GeneratorSample.loads EmptyString "t1" "u0" None
            CompactionSample.tripped).
  vm_compute. reflexivity.
Defined.

Lemma compaction_stalls_witness : (CompactionSample.run CompactionSample.compacted).1 = Ret _noop_result.
Proof.
  eapply (compaction_stalls GeneratorSample.est GeneratorSample.config CompactionSample.bc
            CompactionSample.generate GeneratorSample.chat GeneratorSample.loads EmptyString "t1" "u0" None
            CompactionSample.compacted).
  - split; [|vm_compute; constructor].
    assert (Hs : step CompactionSample.w5 (ss_store CompactionSample.compacted)).
    { assert (E : ss_store CompactionSample.compacted = snd (set_summary "t1" "u0"
        (summary_block_of (render_summary GeneratorSample.payload) GeneratorSample.payload 3
           [layer_of 3 GeneratorSample.payload]) 3 "u8" None false CompactionSample.w5)) by (vm_compute; reflexivity).
      rewrite E. apply step_summary. }
    apply (step_inv _ _ Hs), CompactionSample.w5_owned.
  - reflexivity.
  - reflexivity.
  - vm_compute. reflexivity.
  - vm_compute. reflexivity.
  - vm_compute. discriminate.
Defined.
