(* ===== verification/Memory.v ===== *)
(** * Durable memory of threads (backend/app/application/memory/service.py)

    The table of facts and its repository (infrastructure/db/memory.py) over
    the tables of Threads.v, the extractor and the extraction of a thread, the
    relevance of a fact to a message, and the worker's job
    (worker/handlers.py).  The language model, [json.loads], the PII service
    and the key of a provider are parameters; a datetime is a rational number
    of seconds. *)

From S2P Require Import Prelude Text Json Replicas Context Tenant ConfigVersions Threads Summarizer Compaction.

Definition JOB_MEMORY_EXTRACT : string := "memory.extract".
Definition MEMORY_FEATURE : string := "memory".
Definition DEFAULT_MAX_FACTS : Q := 20.
Definition DEFAULT_EXPIRY_DAYS : Q := 30.

(** ** Configuration *)

Record MemoryConfig := { mc_enabled : bool; max_facts : Z; expiry_days : Z }.

(** [MemoryConfig()] *)
Definition DEFAULT_MEMORY_CONFIG : MemoryConfig := {|
  mc_enabled := false; max_facts := py_int DEFAULT_MAX_FACTS; expiry_days := py_int DEFAULT_EXPIRY_DAYS |}.

Definition memory_config (c : TenantConfig) : MemoryConfig := {|
  mc_enabled := default false (features c !! MEMORY_FEATURE);
  max_facts := py_int (default DEFAULT_MAX_FACTS (memory c !! "max_facts"));
  expiry_days := py_int (default DEFAULT_EXPIRY_DAYS (memory c !! "expiry_days")) |}.

(** ** The table *)

Record MemoryModel := {
  mm_id : string;
  mm_tenant_id : string;
  mm_end_user_id : option string;
  mm_thread_id : string;
  source_seq : Z;
  mm_content : string;
  mm_version : Z;
  expires_at : option Q;
  erased : bool;
  mm_created_at : Q;
}.

Definition set_erased (m : MemoryModel) : MemoryModel := {|
  mm_id := mm_id m; mm_tenant_id := mm_tenant_id m; mm_end_user_id := mm_end_user_id m; mm_thread_id := mm_thread_id m;
  source_seq := source_seq m; mm_content := mm_content m; mm_version := mm_version m; expires_at := expires_at m;
  erased := true; mm_created_at := mm_created_at m |}.

Inductive extraction_error :=
| EmptyTurns
| CallFailed (why : string)
| FactsNotJSON
| FactsNotAList.

Inductive memory_exc :=
| MemoryExtractionError (e : extraction_error)
| StoreError (e : store_exc)
| PIIError (why : string).

(** The thread store, the facts, and the state of the model behind the
    extractor. *)
Record memory_state {G : Type} := { log_world : world; memories : list MemoryModel; model : G }.
Arguments memory_state : clear implicits.

Section memory.
Context {G : Type}.

Abbreviation remembering A := (io (memory_state G) memory_exc A).

Definition with_log (w : world) (m : memory_state G) : memory_state G := {|
  log_world := w; memories := memories m; model := model m |}.
Definition with_memories (l : list MemoryModel) (m : memory_state G) : memory_state G := {|
  log_world := log_world m; memories := l; model := model m |}.
Definition with_model (g : G) (m : memory_state G) : memory_state G := {|
  log_world := log_world m; memories := memories m; model := g |}.

Definition in_log {A} (c : store A) : remembering A := lift log_world with_log StoreError c.

Definition facts {A} (q : list MemoryModel -> A) : remembering A := fun m => (Ret (q (memories m)), m).

(** ** [MemoryRepository] *)

(** The insert of a row: its thread has to be there, and its id be new. *)
Definition add (tenant_id : string) (end_user_id : option string) (thread_id : string) (seq : Z) (text : string)
    (expires : option Q) : remembering MemoryModel :=
  id ← in_log uuid4;
  m ← get_st;
  let row := {| mm_id := id; mm_tenant_id := tenant_id; mm_end_user_id := end_user_id; mm_thread_id := thread_id;
                source_seq := seq; mm_content := text; mm_version := 1; expires_at := expires; erased := false;
                mm_created_at := now (log_world m) |} in
  if existsb (fun r => bool_decide (mm_id r = id)) (memories m)
     || negb (existsb (fun t => bool_decide (t_id t = thread_id)) (threads (db (log_world m))))
  then throw (StoreError IntegrityError)
  else _ ← modify (with_memories (memories m ++ [row])); mret row.

Definition unexpired (at_ : Q) (r : MemoryModel) : bool :=
  match expires_at r with Some e => at_ <?q e | None => true end.

Definition readable (at_ : Q) (tenant_id : string) (end_user_id : option string) (r : MemoryModel) : bool :=
  bool_decide (mm_tenant_id r = tenant_id) && negb (erased r) && bool_decide (mm_end_user_id r = end_user_id)
  && unexpired at_ r.

Definition newest_fact (r r' : MemoryModel) : bool := mm_created_at r' <=?q mm_created_at r.

Definition retrieve (tenant_id : string) (end_user_id : option string) (limit : Z) : remembering (list MemoryModel) :=
  m ← get_st;
  mret (sql_limit limit (sort_by newest_fact (List.filter (readable (now (log_world m)) tenant_id end_user_id) (memories m)))).

Definition of_thread (tenant_id thread_id : string) (r : MemoryModel) : bool :=
  bool_decide (mm_tenant_id r = tenant_id) && bool_decide (mm_thread_id r = thread_id).

(** [max(source_seq)], zero when no fact was extracted. *)
Definition watermark_of (tenant_id thread_id : string) (l : list MemoryModel) : Z :=
  default 0 (sql_max (map source_seq (List.filter (of_thread tenant_id thread_id) l))).

Definition max_source_seq (tenant_id thread_id : string) : remembering Z := facts (watermark_of tenant_id thread_id).

(** [UPDATE ... SET erased = true WHERE ... AND NOT erased]; the row count. *)
Definition erase_where (which : MemoryModel -> bool) : remembering Z := fun m =>
  let hit r := which r && negb (erased r) in
  (Ret (Z.of_nat (length (List.filter hit (memories m)))),
   with_memories (map (fun r => if hit r then set_erased r else r) (memories m)) m).

Definition erase_by_user (tenant_id end_user_id : string) : remembering Z :=
  erase_where (fun r => bool_decide (mm_tenant_id r = tenant_id) && bool_decide (mm_end_user_id r = Some end_user_id)).

Definition erase_by_thread (tenant_id thread_id : string) : remembering Z := erase_where (of_thread tenant_id thread_id).

Definition erase_by_id (tenant_id id : string) : remembering bool :=
  n ← erase_where (fun r => bool_decide (mm_tenant_id r = tenant_id) && bool_decide (mm_id r = id));
  mret (0 <? n).

Definition prune_expired (tenant_id : string) (at_ : option Q) : remembering Z :=
  m ← get_st;
  let at_ := default (now (log_world m)) at_ in
  erase_where (fun r => bool_decide (mm_tenant_id r = tenant_id)
                        && match expires_at r with Some e => e <=?q at_ | None => false end).

(** The threads a sweep extracts: active, not archived, and with a message
    beyond the watermark. *)
Definition latest_seq (d : database) (t : ThreadModel) : option Z := sql_max (message_seqs (t_id t) d).

Definition extracted_seq (l : list MemoryModel) (t : ThreadModel) : Z :=
  default 0 (sql_max (map source_seq (List.filter (fun r => bool_decide (mm_thread_id r = t_id t)) l))).

Definition sweepable (t : ThreadModel) : bool := bool_decide (t_status t = "active") && negb (archived t).

Definition pending_threads (limit : Z) (d : database) (l : list MemoryModel) : list (ThreadModel * Z) :=
  let joined := omap (fun t => pair t <$> latest_seq d t) (threads d) in
  sql_limit limit (sort_by (fun a b => b.2 <=? a.2)
    (List.filter (fun p => sweepable p.1 && (extracted_seq l p.1 <? p.2)) joined)).

Definition list_threads_pending_extraction (limit : Z) : remembering (list (ThreadModel * Z)) :=
  m ← get_st; mret (pending_threads limit (db (log_world m)) (memories m)).

(** ** [MemoryExtractor] *)

Section extractor.
Context (chat : string -> io G string string) (loads : string -> option json).

Definition quote : string := String (Ascii.ascii_of_nat 34) EmptyString.

Definition MEMORY_PROMPT (conversation : string) : string :=
  join newline
    ["Extract durable, reusable facts about the user from the conversation below.";
     "Keep ONLY facts that will still be true later: preferences, constraints,";
     "decisions, personal context the user volunteered, and standing requests.";
     "Exclude: ephemeral content, raw quotes, anything that could identify a";
     "third party, and anything that looks like personal information (names,";
     "emails, phone numbers, addresses, IDs). If a fact contains such data,";
     "restate it without the sensitive value or drop it.";
     EmptyString;
     "Reply with a JSON array of short strings only, e.g. [" +:+ quote +:+ "fact one" +:+ quote +:+ ", "
       +:+ quote +:+ "fact two" +:+ quote +:+ "].";
     "No prose. At most 20 facts. Empty array is fine.";
     EmptyString;
     "Conversation:";
     conversation].

(** The stripped text of an item that is text and not blank. *)
Definition fact_of (j : json) : option string :=
  match j with
  | JStr s => if truthy (strip s) then Some (strip s) else None
  | _ => None
  end.

Definition _parse_facts (text : string) : extraction_error + list string :=
  match loads (unfenced text) with
  | None => inl FactsNotJSON
  | Some (JList l) => inr (firstn 20 (omap fact_of l))
  | Some _ => inl FactsNotAList
  end.

Definition extract (turns : list turn) : io G extraction_error (list string) :=
  let conversation := transcript turns in
  if negb (truthy (strip conversation)) then throw EmptyTurns
  else
    reply ← try_catch (chat (MEMORY_PROMPT conversation)) (fun e => throw (CallFailed e));
    match _parse_facts reply with
    | inl e => throw e
    | inr l => mret l
    end.
End extractor.

(** ** The extraction of a thread *)

Record extraction := { ex_extracted : Z; ex_reason : string; ex_source_seq : option Z; ex_watermark_from : option Z }.

Definition nothing (reason : string) : extraction := {|
  ex_extracted := 0; ex_reason := reason; ex_source_seq := None; ex_watermark_from := None |}.

(** The pages after the watermark; every page but the last advances, so that
    the rows there are bound their number. *)
Fixpoint read_new (fuel : nat) (tenant_id thread_id : string) (turns : list MessageModel) (after_seq : Z) :
    store (list MessageModel) :=
  match fuel with
  | O => mret turns
  | S fuel =>
      '(page, has_more) ← list_messages tenant_id thread_id (Some after_seq) 200;
      let turns := turns ++ page in
      if (has_more : bool) then
        match last (page : list MessageModel) with
        | Some m => read_new fuel tenant_id thread_id turns (m_seq m)
        | None => mret turns
        end
      else mret turns
  end.

Definition turns_after (tenant_id thread_id : string) (seq : Z) : store (list MessageModel) :=
  w ← get_st; read_new (S (rows_everywhere w)) tenant_id thread_id [] seq.

(** The closed turns that have text: all but the newest message. *)
Definition closed_turns (turns : list MessageModel) : list turn :=
  List.filter has_text (map (fun m => {| tr_role := role m; tr_text := redacted_content m |}) (removelast turns)).

Section extraction.
(** The extractor; the PII service, if there is one, gives a text or raises. *)
Context (generate : list turn -> io G extraction_error (list string)) (pii : option (string -> string + string)).

(** What is stored of a fact. *)
Definition cleaned (fact : string) : string + string :=
  match pii with
  | None => inr fact
  | Some process => match process fact with inl e => inl e | inr text => inr (strip text) end
  end.

Fixpoint store_facts (tenant_id thread_id : string) (end_user_id : option string) (seq : Z) (expires : option Q)
    (l : list string) (stored : Z) : remembering Z :=
  match l with
  | [] => mret stored
  | fact :: l =>
      match cleaned fact with
      | inl e => throw (PIIError e)
      | inr fact =>
          if negb (truthy fact) then store_facts tenant_id thread_id end_user_id seq expires l stored
          else _ ← add tenant_id end_user_id thread_id seq fact expires;
               store_facts tenant_id thread_id end_user_id seq expires l (stored + 1)
      end
  end.

Definition expiry (config : MemoryConfig) (at_ : Q) : option Q :=
  if 0 <? expiry_days config then Some (at_ + 86400 * inject_Z (expiry_days config))%Q else None.

Definition extract_thread_memory (tenant_id thread_id : string) (config : option MemoryConfig) : remembering extraction :=
  let config := default DEFAULT_MEMORY_CONFIG config in
  thread ← in_log (get_thread tenant_id thread_id);
  match thread with
  | None => mret (nothing "thread_not_found")
  | Some t =>
      watermark ← max_source_seq tenant_id thread_id;
      turns ← in_log (turns_after tenant_id thread_id watermark);
      match turns with
      | [] => mret (nothing "no_new_turns")
      | _ =>
          match closed_turns turns, last (removelast turns) with
          | [], _ | _, None => mret (nothing "no_closed_turns")
          | closed, Some newest =>
              found ← lift model with_model MemoryExtractionError (generate closed);
              m ← get_st;
              stored ← store_facts tenant_id thread_id (t_end_user_id t) (m_seq newest)
                         (expiry config (now (log_world m))) found 0;
              mret {| ex_extracted := stored; ex_reason := if stored =? 0 then "no_facts" else "extracted";
                      ex_source_seq := Some (m_seq newest); ex_watermark_from := Some watermark |}
          end
      end
  end.
End extraction.

(** ** Retrieval *)

(** The characters [\w] matches. *)
Definition is_word (a : ascii) : bool :=
  let n := Ascii.nat_of_ascii a in
  is_digit_char a || ((65 <=? n) && (n <=? 90))%nat || ((97 <=? n) && (n <=? 122))%nat || (n =? 95)%nat.

Definition query_tokens (query : option string) : list string :=
  match query with
  | Some q => if truthy q then List.filter (fun t => (3 <=? String.length t)%nat) (runs_of is_word EmptyString (lower q)) else []
  | None => []
  end.

Definition fact_score (tokens : list string) (r : MemoryModel) : Z :=
  Z.of_nat (length (List.filter (fun t => contains t (lower (mm_content r))) (extend_new [] tokens))).

Definition _score_facts (rows : list MemoryModel) (query : option string) (limit : Z) : list MemoryModel :=
  let tokens := query_tokens query in
  let kept := List.filter (fun r => bool_decide (tokens = []) || (0 <? fact_score tokens r)) rows in
  let ranked := sort_by (fun a b => fact_score tokens b <=? fact_score tokens a) kept in
  if limit <? 0 then take (length ranked - Z.to_nat (- limit)) ranked else take (Z.to_nat limit) ranked.

Definition retrieve_facts (tenant_id : string) (end_user_id query : option string) (limit : Z) : remembering (list string) :=
  rows ← retrieve tenant_id end_user_id (Z.max (limit * 3) 30);
  mret (map mm_content (_score_facts rows query limit)).

Definition erase_end_user_memory (tenant_id end_user_id : string) : remembering Z := erase_by_user tenant_id end_user_id.

(** [_build_memory_retriever] of a turn *)
Definition memory_retriever (c : TenantConfig) (end_user_id : option string) (query : string) : remembering (list string) :=
  retrieve_facts (tc_id c) end_user_id (Some query) (max_facts (memory_config c)).

(** ** The job (the ids of its payload are text) *)

Section job.
(** The tenants' rows, the versions of their configurations, the key of a
    provider ([None]: there is none) and the extractor built for it. *)
Context (tenant_row : string -> option stored_config) (digest : string -> Z * Z) (versions : table)
  (resolve : TenantConfig -> option string)
  (builder : TenantConfig -> string -> list turn -> io G extraction_error (list string))
  (pii : option (string -> string + string)).

Definition extract_target (tenant_id thread_id : string) : remembering unit :=
  match tenant_row tenant_id with
  | None => mret tt
  | Some row =>
      let c := load_effective_tenant_config digest row None versions in
      if negb (mc_enabled (memory_config c)) then mret tt
      else match resolve c with
           | None => mret tt
           | Some key =>
               if negb (truthy key) then mret tt
               else _ ← extract_thread_memory (builder c key) pii tenant_id thread_id None; mret tt
           end
  end.

Definition handle_memory_extract (payload : list (string * json)) : remembering unit :=
  let target := match dict_get "tenant_id" payload, dict_get "thread_id" payload with
                | Some (JStr t), Some (JStr th) => if truthy t && truthy th then Some (t, th) else None
                | _, _ => None
                end in
  match target with
  | Some (t, th) => extract_target t th
  | None =>
      targets ← list_threads_pending_extraction 50;
      for_each (fun p : ThreadModel * Z => extract_target (t_tenant_id p.1) (t_id p.1)) targets
  end.
End job.
End memory.
