(* ===== verification/MemoryProps.v ===== *)
(** * Memory: what the definitions of Memory.v do

    What an extraction reads and stores, what a rerun reads again, what is
    never read of a fact that was erased, and what a sweep lists. *)

From S2P Require Import Prelude Text Json Replicas Tenant Threads ThreadLog ThreadProps Summarizer Compaction Memory.

(** ** The page walk *)

Lemma read_new_pages fuel tn th w : primary_only w -> forall turns a,
  read_new fuel tn th turns a w = (Ret (turns ++ page_through fuel tn th 200 (Some a) (db w)), w).
Proof.
  intros Hp. induction fuel as [|fuel IH]; intros turns a; cbn [read_new page_through]; [by rewrite app_nil_r|].
  unfold mbind, io_bind. rewrite list_messages_primary by done.
  destruct (messages_page tn th (Some a) 200 (db w)) as [page more]. destruct more; [|done].
  destruct (last page) as [m|]; [|done]. by rewrite IH, app_assoc.
Qed.

(** With reads served by the primary an extraction sees the whole log after
    its watermark. *)
Lemma turns_after_watermark tn th w a : owned th tn w -> primary_only w -> 0 <= a ->
  turns_after tn th a w = (Ret (drop (Z.to_nat a) (log tn th (db w))), w).
Proof.
  intros Ho Hp Ha. unfold turns_after, mbind, io_bind, get_st. rewrite read_new_pages by done. cbn [app].
  rewrite (page_through_at tn th w 200 _ (Z.to_nat a)); [done|done|lia|right; f_equal; lia|].
  assert (length (log tn th (db w)) <= rows_everywhere w)%nat; [|lia].
  unfold log, rows_everywhere. rewrite length_sort_by.
  pose proof (List.filter_length_le (in_thread tn th) (messages (db w))) as Hl.
  assert (forall l : list (option database), length (messages (db w)) <= foldr (fun o n => match o with Some d => length (messages d) + n
    | None => n end)%nat (length (messages (db w))) l)%nat as Hf by (induction l as [|[d|] l IHl]; cbn; lia).
  specialize (Hf (replica_dbs w)). lia.
Qed.

(** ** One extraction *)

Section extraction.
Context {G : Type} (generate : list turn -> io G extraction_error (list string)) (pii : option (string -> string + string)).
Implicit Types m : memory_state G.

Definition watermark tn th m : Z := watermark_of tn th (memories m).

(** The messages of a thread no fact was extracted from yet. *)
Definition new_messages tn th m : list MessageModel :=
  drop (Z.to_nat (watermark tn th m)) (log tn th (db (log_world m))).

(** A thread that is there, with reads served by the primary. *)
Record extractable (tn th : string) m : Prop := {
  xt_owned : owned th tn (log_world m);
  xt_primary : primary_only (log_world m);
  xt_watermark : 0 <= watermark tn th m;
}.

Lemma extract_unfolds tn th cfg m : extractable tn th m ->
  exists t, select_thread tn th (db (log_world m)) = [t] /\
  extract_thread_memory generate pii tn th cfg m =
    let new := new_messages tn th m in
    match new with
    | [] => (Ret (nothing "no_new_turns"), m)
    | _ =>
        match closed_turns new, last (removelast new) with
        | [], _ | _, None => (Ret (nothing "no_closed_turns"), m)
        | closed, Some newest =>
            match generate closed (model m) with
            | (Raise e, g) => (Raise (MemoryExtractionError e), with_model g m)
            | (Ret found, g) =>
                match store_facts pii tn th (t_end_user_id t) (m_seq newest)
                        (expiry (default DEFAULT_MEMORY_CONFIG cfg) (now (log_world m))) found 0 (with_model g m) with
                | (Ret stored, m') =>
                    (Ret {| ex_extracted := stored; ex_reason := if stored =? 0 then "no_facts" else "extracted";
                            ex_source_seq := Some (m_seq newest); ex_watermark_from := Some (watermark tn th m) |}, m')
                | (Raise e, m') => (Raise e, m')
                end
            end
        end
    end.
Proof.
  intros [Ho Hp Hw]. destruct (owned_thread tn th _ Ho) as [t Ht]. exists t. split; [done|].
  destruct m as [w l g]. cbn [log_world memories model] in *.
  unfold extract_thread_memory, mbind, io_bind, in_log, lift, get_thread, get_session, query, mbind, io_bind.
  cbn [log_world]. rewrite Ht. cbn [scalar_one_or_none mret io_ret with_log log_world memories model max_source_seq facts].
  unfold watermark in *. cbn [memories] in *. rewrite (turns_after_watermark tn th w _ Ho Hp Hw).
  unfold new_messages, watermark. cbn [log_world memories with_log model].
  set (new := drop _ _). destruct new as [|x xs]; [done|].
  destruct (closed_turns (x :: xs)) as [|c cs]; [done|]. destruct (last (removelast (x :: xs))) as [newest|]; [|done].
  cbn [model with_model with_log log_world memories]. destruct (generate (c :: cs) g) as [[found|e] g']; [|reflexivity].
  unfold get_st. cbn [log_world]. by destruct (store_facts _ _ _ _ _ _ _ _ _) as [[stored|e] m'].
Qed.

(** ** What is stored *)

(** A row of an extraction holds what the PII service made of a fact. *)
Record stored_of (tn th : string) (eu : option string) (seq : Z) (expires : option Q) (found : list string) (r : MemoryModel) : Prop := {
  so_tenant : mm_tenant_id r = tn;
  so_thread : mm_thread_id r = th;
  so_user : mm_end_user_id r = eu;
  so_seq : source_seq r = seq;
  so_expires : expires_at r = expires;
  so_erased : erased r = false;
  so_fact : exists fact, fact ∈ found /\ cleaned pii fact = inr (mm_content r) /\ truthy (mm_content r) = true;
}.

Lemma stored_of_more tn th eu seq expires fact found r :
  stored_of tn th eu seq expires found r -> stored_of tn th eu seq expires (fact :: found) r.
Proof.
  intros [? ? ? ? ? ? (f & Hf & ?)]. split; try done. exists f. split; [by right|done].
Qed.

(** Storing only adds rows and consumes ids. *)
Record only_adds (m m' : memory_state G) (rows : list MemoryModel) : Prop := {
  oa_rows : memories m' = memories m ++ rows;
  oa_db : db (log_world m') = db (log_world m);
  oa_router : router (log_world m') = router (log_world m);
  oa_shape : same_shape (log_world m) (log_world m');
  oa_now : now (log_world m') = now (log_world m);
  oa_model : model m' = model m;
}.

Lemma only_adds_refl m : only_adds m m [].
Proof. split; try done. by rewrite app_nil_r. Qed.

Lemma only_adds_trans m1 m2 m3 l l' : only_adds m1 m2 l -> only_adds m2 m3 l' -> only_adds m1 m3 (l ++ l').
Proof.
  intros [? ? ? ? ? ?] [? ? ? ? ? ?]. split; try congruence; [rewrite app_assoc; congruence|by etrans].
Qed.

(** An insert: its row is added, or the insert raises and adds nothing. *)
Lemma add_cases tn eu th seq text expires m :
  match add tn eu th seq text expires m with
  | (Ret r, m') => only_adds m m' [r] /\ mm_id r = uuids (log_world m) (used (log_world m))
      /\ mm_tenant_id r = tn /\ mm_thread_id r = th /\ mm_end_user_id r = eu /\ source_seq r = seq
      /\ expires_at r = expires /\ erased r = false /\ mm_content r = text
  | (Raise _, m') => only_adds m m' []
  end.
Proof.
  unfold add, mbind, io_bind, in_log, lift, uuid4, get_st, throw, modify, mret, io_ret. cbn.
  assert (Hs : same_shape (log_world m) {| db := db (log_world m); replica_dbs := replica_dbs (log_world m);
    router := router (log_world m); uuids := uuids (log_world m); used := S (used (log_world m)); now := now (log_world m) |})
    by (split; [split; [done|cbn; lia]|done]).
  destruct (_ || _); [split; try done; by rewrite app_nil_r|]. split_and!; done.
Qed.

Lemma store_facts_adds tn th eu seq expires : forall found n m,
  exists rows, only_adds m (store_facts pii tn th eu seq expires found n m).2 rows
    /\ Forall (stored_of tn th eu seq expires found) rows
    /\ forall k, (store_facts pii tn th eu seq expires found n m).1 = Ret k -> k = n + Z.of_nat (length rows).
Proof.
  induction found as [|fact found IH]; intros n m; cbn [store_facts].
  { exists []. split_and!; [apply only_adds_refl|constructor|]. intros k [= <-]. cbn. lia. }
  assert (Hmore : forall rows, Forall (stored_of tn th eu seq expires found) rows -> Forall (stored_of tn th eu seq expires (fact :: found)) rows)
    by (intros rows Hr; eapply Forall_impl; [exact Hr|apply stored_of_more]).
  destruct (cleaned pii fact) as [e|text] eqn:Ec; [exists []; split_and!; [apply only_adds_refl|constructor|done]|].
  destruct (truthy text) eqn:Et; cbn [negb].
  2:{ destruct (IH n m) as (rows & Ha & Hr & Hk). exists rows. by split_and!; [|apply Hmore|]. }
  unfold mbind, io_bind. pose proof (add_cases tn eu th seq text expires m) as H.
  destruct (add tn eu th seq text expires m) as [[r|e] m1]; [|exists []; by split_and!; [|constructor|]].
  destruct H as (Ha & _ & H1 & H2 & H3 & H4 & H5 & H6 & H7). destruct (IH (n + 1) m1) as (rows & Ha' & Hr & Hk).
  exists (r :: rows). split_and!; [by apply (only_adds_trans m m1 _ [r])| |].
  - constructor; [|by apply Hmore]. split; try done. exists fact. rewrite H7. split_and!; [left|done|done].
  - intros k E. rewrite (Hk k E). cbn [length]. lia.
Qed.

(** ** Safety of an extraction *)

#[export] Instance read_new_quiet fuel t th : forall ms a, Respects quiet (read_new fuel t th ms a).
Proof.
  induction fuel as [|fuel IH]; intros ms a; cbn [read_new]; [apply _|].
  apply respects_bind; [apply _..|]. intros [page more]. destruct more; [|apply _]. destruct (last page); [apply IH|apply _].
Qed.

#[export] Instance turns_after_quiet t th a : Respects quiet (turns_after t th a).
Proof. unfold turns_after. apply respects_bind; [apply _..|]. intros w. apply read_new_quiet. Qed.

Definition untouched m m' : Prop := db (log_world m') = db (log_world m) /\ memories m' = memories m.

(** What an extraction of a thread may add. *)
Definition grown tn th m m' : Prop :=
  db (log_world m') = db (log_world m)
  /\ exists rows, memories m' = memories m ++ rows
       /\ (rows = [] \/ exists t seq expires found, select_thread tn th (db (log_world m)) = [t]
                         /\ Forall (stored_of tn th (t_end_user_id t) seq expires found) rows).

Lemma untouched_grown tn th m m' : untouched m m' -> grown tn th m m'.
Proof. intros [Hd Hm]. split; [done|]. exists []. split; [by rewrite Hm, app_nil_r|by left]. Qed.

Lemma in_log_untouched {A} (c : store A) `{!Respects quiet c} m :
  triple (untouched m) (in_log c) (fun _ => untouched m) (fun _ => untouched m).
Proof.
  intros m' [Hd Hm]. pose proof (respects (R := quiet) (c := c) (log_world m')) as [Hq _]. unfold in_log, lift.
  destruct (c (log_world m')) as [[a|e] w]; cbn in *; (split; [by etrans|done]).
Qed.

Lemma get_thread_reads tn th m :
  triple (untouched m) (in_log (G := G) (get_thread tn th))
    (fun o m' => untouched m m' /\ forall t, o = Some t -> select_thread tn th (db (log_world m)) = [t]) (fun _ => untouched m).
Proof.
  intros m' [Hd Hm]. unfold in_log, lift, get_thread, get_session, query, mbind, io_bind. rewrite Hd.
  destruct (select_thread tn th _) as [|t [|t' ts]]; cbn; try done. split; [done|]. by intros ? [= <-].
Qed.

Lemma extraction_grows tn th cfg m : grown tn th m (extract_thread_memory generate pii tn th cfg m).2.
Proof.
  assert (H : triple (untouched m) (extract_thread_memory generate pii tn th cfg) (fun _ => grown tn th m) (fun _ => grown tn th m)).
  { pose proof (untouched_grown tn th m) as Hg. unfold extract_thread_memory.
    eapply (triple_bind _ _ _ _ (fun o m' => untouched m m' /\ forall t, o = Some t -> select_thread tn th (db (log_world m)) = [t])).
    { by apply (triple_conseq _ _ _ _ _ _ _ (get_thread_reads tn th m)). }
    intros [t|]; [|intros m' [Hu _]; exact (Hg _ Hu)].
    eapply (triple_bind _ _ _ _ (fun _ m' => untouched m m' /\ select_thread tn th (db (log_world m)) = [t])).
    { intros m' [Hu Ht]. cbn. split; [done|by apply Ht]. }
    intros wm. eapply (triple_bind _ _ _ _ (fun _ m' => untouched m m' /\ select_thread tn th (db (log_world m)) = [t])).
    { intros m' [Hu Ht]. pose proof (in_log_untouched (turns_after tn th wm) m m' Hu) as Hq.
      destruct (in_log _ m') as [[a|e] m2]; [done|by apply Hg]. }
    intros turns. destruct turns as [|x xs]; [intros m' [Hu _]; exact (Hg _ Hu)|].
    destruct (closed_turns (x :: xs)) as [|c cs]; [intros m' [Hu _]; exact (Hg _ Hu)|].
    destruct (last (removelast (x :: xs))) as [newest|]; [|intros m' [Hu _]; exact (Hg _ Hu)].
    intros m' [[Hd Hm] Ht]. unfold mbind, io_bind, lift. destruct (generate (c :: cs) (model m')) as [[found|e] g]; [|by apply Hg].
    unfold get_st. match goal with |- context [store_facts pii tn th ?eu ?seq ?ex found 0 ?mm] =>
      pose proof (store_facts_adds tn th eu seq ex found 0 mm) as (rows & Ha & Hr & _);
      destruct (store_facts pii tn th eu seq ex found 0 mm) as [[k|e] m2]; cbn [snd] in *;
      (split; [rewrite (oa_db _ _ _ Ha); exact Hd|exists rows; split; [rewrite (oa_rows _ _ _ Ha); cbn; by rewrite Hm|right; by exists t, seq, ex, found]]) end. }
  specialize (H m (conj eq_refl eq_refl)). by destruct (extract_thread_memory _ _ _ _ _ m) as [[r|e] m'].
Qed.

(** Whatever it reads and however it ends, an extraction changes nothing
    but the facts and only adds to them: each fact it adds is a text the
    extractor returned, as the PII service cleaned it, and belongs to the
    thread and to its end user. *)
Theorem only_cleaned_facts (tn th : string) (cfg : option MemoryConfig) m :
  let m' := (extract_thread_memory generate pii tn th cfg m).2 in
  db (log_world m') = db (log_world m)
  /\ exists rows, memories m' = memories m ++ rows
       /\ (rows = [] \/ exists t seq expires found, select_thread tn th (db (log_world m)) = [t]
                         /\ Forall (stored_of tn th (t_end_user_id t) seq expires found) rows).
Proof. apply extraction_grows. Qed.

(** ** Running again *)

Lemma sql_max_is l z : z ∈ l -> Forall (fun x => x <= z) l -> sql_max l = Some z.
Proof.
  intros Hz Ha. destruct (sql_max l) as [y|] eqn:E; [|by destruct l; [apply elem_of_nil in Hz|]].
  apply sql_max_spec in E as [Hy Hb]. rewrite Forall_forall in Ha, Hb. f_equal. pose proof (Ha y Hy). pose proof (Hb z Hz). lia.
Qed.

Lemma watermark_le tn th l r : r ∈ l -> of_thread tn th r = true -> source_seq r <= watermark_of tn th l.
Proof.
  intros Hr Ht. unfold watermark_of. destruct (sql_max _) as [z|] eqn:E.
  - apply sql_max_spec in E as [_ Ha]. rewrite Forall_forall in Ha. apply Ha, list_elem_of_fmap_2, list_elem_of_In, List.filter_In.
    split; [by apply list_elem_of_In|done].
  - assert (Hin : r ∈ List.filter (of_thread tn th) l) by (apply list_elem_of_In, List.filter_In; split; [by apply list_elem_of_In|done]).
    by destruct (List.filter (of_thread tn th) l); [apply elem_of_nil in Hin|].
Qed.

Lemma stored_of_thread tn th eu seq ex found r : stored_of tn th eu seq ex found r -> of_thread tn th r = true.
Proof. intros [<- <- _ _ _ _ _]. unfold of_thread. by rewrite !bool_decide_true. Qed.

Lemma watermark_after tn th eu seq ex found rows l :
  Forall (stored_of tn th eu seq ex found) rows -> rows <> [] -> watermark_of tn th l <= seq ->
  watermark_of tn th (l ++ rows) = seq.
Proof.
  intros Hr Hne Hl. unfold watermark_of at 1. rewrite (sql_max_is _ seq); [done| |].
  - destruct rows as [|r rows]; [done|]. inversion_clear Hr as [|? ? H _]. rewrite <- (so_seq _ _ _ _ _ _ _ H).
    apply list_elem_of_fmap_2, list_elem_of_In, List.filter_In. split; [apply in_or_app; right; by left|by eapply stored_of_thread].
  - apply Forall_forall. intros x (r & -> & Hin)%list_elem_of_fmap. apply list_elem_of_In, List.filter_In in Hin as [Hin Ht].
    apply in_app_or in Hin as [Hin|Hin].
    + etrans; [by eapply watermark_le; [apply list_elem_of_In|]|done].
    + rewrite Forall_forall in Hr. apply list_elem_of_In, Hr in Hin. by rewrite (so_seq _ _ _ _ _ _ _ Hin).
Qed.

(** The newest closed message is the last but one of the log. *)
Lemma after_newest tn th m newest : extractable tn th m -> last (removelast (new_messages tn th m)) = Some newest ->
  watermark tn th m < m_seq newest /\ exists z, drop (Z.to_nat (m_seq newest)) (log tn th (db (log_world m))) = [z].
Proof.
  intros [Ho _ Hw] Hl. unfold new_messages in Hl. set (l := log tn th (db (log_world m))) in *. set (k := Z.to_nat (watermark tn th m)) in *.
  destruct (exists_last (l := drop k l)) as (init & z & E); [by intros E; rewrite E in Hl|].
  rewrite E, removelast_last in Hl.
  assert (Hi : init !! (length init - 1)%nat = Some newest) by (rewrite last_lookup in Hl; rewrite <- Hl; f_equal; lia).
  pose proof (lookup_lt_Some _ _ _ Hi) as Hlen.
  assert (Hlk : l !! (k + (length init - 1))%nat = Some newest).
  { rewrite <- lookup_drop, E. by rewrite lookup_app_l by done. }
  pose proof (log_lookup tn th (log_world m) _ _ Ho Hlk) as Hs. split; [unfold k in *; lia|].
  exists z. replace (Z.to_nat (m_seq newest)) with (k + length init)%nat by (unfold k in *; lia).
  rewrite <- drop_drop, E. by rewrite drop_app_length.
Qed.

(** Running an extraction again: once it has stored a fact, a second run
    right away reads no turn and changes nothing; while it has stored none,
    a second run is given the same turns again. *)
Theorem rerun (tn th : string) (cfg cfg' : option MemoryConfig) m m' (r : extraction) :
  extractable tn th m -> extract_thread_memory generate pii tn th cfg m = (Ret r, m') ->
  if 0 <? ex_extracted r
  then extract_thread_memory generate pii tn th cfg' m' = (Ret (nothing "no_closed_turns"), m')
  else new_messages tn th m' = new_messages tn th m /\ extractable tn th m'.
Proof.
  intros Hx. destruct (extract_unfolds tn th cfg m Hx) as (t & Ht & ->). cbn zeta.
  assert (Hsame : forall r0, (Ret (nothing r0), m) = (Ret (E := memory_exc) r, m') -> if 0 <? ex_extracted r
    then extract_thread_memory generate pii tn th cfg' m' = (Ret (nothing "no_closed_turns"), m')
    else new_messages tn th m' = new_messages tn th m /\ extractable tn th m') by (by intros r0 [= <- <-]).
  destruct (new_messages tn th m) as [|x xs] eqn:En; [apply Hsame|]. destruct (closed_turns (x :: xs)) as [|c cs]; [apply Hsame|].
  destruct (last (removelast (x :: xs))) as [newest|] eqn:El; [|apply Hsame]. clear Hsame.
  destruct (generate (c :: cs) (model m)) as [[found|e] g]; [|done]. rewrite <- En in El.
  destruct (after_newest tn th m newest Hx El) as [Hgt [z Hz]].
  match goal with |- context [store_facts pii tn th ?eu ?seq ?ex found 0 ?mm] =>
    pose proof (store_facts_adds tn th eu seq ex found 0 mm) as (rows & Ha & Hr & Hk);
    destruct (store_facts pii tn th eu seq ex found 0 mm) as [[k|e] m2]; [|done] end.
  intros [= <- <-]. cbn [fst snd ex_extracted] in *. specialize (Hk k eq_refl). destruct Ha as [Hrows Hdb Hrt Hsh _ _].
  cbn [memories log_world with_model] in Hrows, Hdb, Hrt, Hsh. destruct Hx as [Ho Hp Hw].
  assert (Ho2 : owned th tn (log_world m2)) by (by eapply owned_stable).
  assert (Hp2 : primary_only (log_world m2)) by (unfold primary_only in *; by rewrite Hrt).
  destruct (Z.ltb_spec 0 k) as [Hpos|Hz0].
  - assert (Hwm : watermark tn th m2 = m_seq newest).
    { unfold watermark. rewrite Hrows. eapply watermark_after; [exact Hr| |unfold watermark in *; lia]. intros ->. cbn in Hk. lia. }
    assert (Hx2 : extractable tn th m2) by (split; [done|done|rewrite Hwm; lia]).
    destruct (extract_unfolds tn th cfg' m2 Hx2) as (t2 & _ & ->). cbn zeta.
    unfold new_messages. rewrite Hwm, Hdb, Hz. done.
  - assert (rows = []) as -> by (destruct rows; [done|cbn in Hk; lia]). rewrite app_nil_r in Hrows.
    assert (Hwm : watermark tn th m2 = watermark tn th m) by (unfold watermark; by rewrite Hrows).
    split; [unfold new_messages; by rewrite <- En, Hwm, Hdb|]. split; [done|done|by rewrite Hwm].
Qed.

(** ** The sweep *)

(** Every fact comes from before the newest message of its thread. *)
Definition behind (d : database) (l : list MemoryModel) : Prop :=
  Forall (fun r => exists z, sql_max (message_seqs (mm_thread_id r) d) = Some z /\ source_seq r < z) l.

Lemma extracted_behind d l t z : behind d l -> latest_seq d t = Some z -> 0 < z -> extracted_seq l t < z.
Proof.
  intros Hb Hz Hp. unfold extracted_seq. destruct (sql_max _) as [y|] eqn:E; [|done]. cbn [default].
  apply sql_max_spec in E as [(r & -> & Hr)%list_elem_of_fmap _]. apply list_elem_of_In, List.filter_In in Hr as [Hr Ht].
  apply bool_decide_eq_true in Ht. unfold behind in Hb. rewrite Forall_forall in Hb.
  destruct (Hb r) as (z' & Hz' & Hlt); [by apply list_elem_of_In|]. unfold latest_seq in Hz. rewrite Ht in Hz'. assert (z' = z) as <- by congruence. done.
Qed.

Lemma latest_positive w t z : log_inv w -> latest_seq (db w) t = Some z -> 0 < z.
Proof.
  intros Hi Hz. unfold latest_seq in Hz. pose proof (contiguous_max _ (inv_contiguous w Hi (t_id t))) as Hm. rewrite Hz in Hm.
  cbn in Hm. destruct (message_seqs (t_id t) (db w)); [done|cbn in Hm; lia].
Qed.

Lemma sweep_ignores w l limit : log_inv w -> behind (db w) l -> pending_threads limit (db w) l = pending_threads limit (db w) [].
Proof.
  intros Hi Hb. unfold pending_threads. do 2 f_equal. apply List.filter_ext_in. intros [t z] Hin. f_equal.
  apply list_elem_of_In, list_elem_of_omap in Hin as (t' & _ & E). destruct (latest_seq (db w) t') as [z'|] eqn:Ez; [|done].
  injection E as -> ->. cbn [fst snd]. pose proof (latest_positive w t z Hi Ez) as Hp.
  transitivity true; [by apply Z.ltb_lt, (extracted_behind (db w))|]. symmetry. by apply Z.ltb_lt.
Qed.

Lemma extraction_behind tn th cfg m : extractable tn th m -> behind (db (log_world m)) (memories m) ->
  let m' := (extract_thread_memory generate pii tn th cfg m).2 in
  log_inv (log_world m') /\ behind (db (log_world m')) (memories m').
Proof.
  intros Hx Hb. destruct (extract_unfolds tn th cfg m Hx) as (t & Ht & ->). cbn zeta.
  assert (Hinv : log_inv (log_world m)) by apply (xt_owned tn th m Hx).
  destruct (new_messages tn th m) as [|x xs] eqn:En; [done|]. destruct (closed_turns (x :: xs)) as [|c cs]; [done|].
  destruct (last (removelast (x :: xs))) as [newest|] eqn:El; [|done].
  destruct (generate (c :: cs) (model m)) as [[found|e] g]; [|done]. rewrite <- En in El.
  destruct (after_newest tn th m newest Hx El) as [Hgt [z Hz]].
  match goal with |- context [store_facts pii tn th ?eu ?seq ?ex found 0 ?mm] =>
    pose proof (store_facts_adds tn th eu seq ex found 0 mm) as (rows & Ha & Hr & _);
    assert (Hgoal : log_inv (log_world (store_facts pii tn th eu seq ex found 0 mm).2)
      /\ behind (db (log_world (store_facts pii tn th eu seq ex found 0 mm).2)) (memories (store_facts pii tn th eu seq ex found 0 mm).2));
    [|by destruct (store_facts pii tn th eu seq ex found 0 mm) as [[k|e] m2]] end.
  split; [eapply log_inv_shape; [apply (oa_shape _ _ _ Ha)|exact Hinv]|].
  rewrite (oa_db _ _ _ Ha), (oa_rows _ _ _ Ha). cbn [log_world with_model memories].
  apply Forall_app. split; [exact Hb|]. eapply Forall_impl; [exact Hr|]. intros r H. rewrite (so_thread _ _ _ _ _ _ _ H), (so_seq _ _ _ _ _ _ _ H).
  assert (Hlk : log tn th (db (log_world m)) !! Z.to_nat (m_seq newest) = Some z).
  { rewrite <- (Nat.add_0_r (Z.to_nat (m_seq newest))), <- lookup_drop, Hz. done. }
  pose proof (log_lookup tn th (log_world m) _ _ (xt_owned tn th m Hx) Hlk) as Hs.
  apply list_elem_of_lookup_2, elem_of_log in Hlk as (Hin & Hth & _).
  assert (Hseq : m_seq z ∈ message_seqs th (db (log_world m))).
  { apply list_elem_of_fmap_2, list_elem_of_In, List.filter_In. split; [by apply list_elem_of_In|by apply bool_decide_eq_true]. }
  destruct (sql_max (message_seqs th (db (log_world m)))) as [y|] eqn:Ey.
  - exists y. split; [done|]. apply sql_max_spec in Ey as [_ Hall]. rewrite Forall_forall in Hall. specialize (Hall _ Hseq). lia.
  - by destruct (message_seqs th (db (log_world m))); [apply elem_of_nil in Hseq|].
Qed.

(** The newest message is left for later, so a thread is behind its newest
    message whatever was extracted from it, and a sweep lists the threads it
    would list had nothing been extracted: those with the most messages,
    each time. *)
Theorem sweep_never_drains (tn th : string) (cfg : option MemoryConfig) (limit : Z) m :
  extractable tn th m -> behind (db (log_world m)) (memories m) ->
  let m' := (extract_thread_memory generate pii tn th cfg m).2 in
  behind (db (log_world m')) (memories m')
  /\ (list_threads_pending_extraction limit m').1 = Ret (pending_threads limit (db (log_world m)) []).
Proof.
  intros Hx Hb m'. destruct (extraction_behind tn th cfg m Hx Hb) as [Hi Hb']. split; [exact Hb'|].
  unfold list_threads_pending_extraction, mbind, io_bind, get_st, mret, io_ret. cbn [fst]. f_equal. fold m'.
  rewrite sweep_ignores by done. destruct (extraction_grows tn th cfg m) as [Hd _]. fold m' in Hd. by rewrite Hd.
Qed.
End extraction.

(** ** Erasure *)

Section erasure.
Context {G : Type} (generate : list turn -> io G extraction_error (list string)) (pii : option (string -> string + string)).
Implicit Types m : memory_state G.

Definition fact_later (r r' : MemoryModel) : Prop := r' = r \/ r' = set_erased r.

(** Facts are added and erased, never removed or brought back. *)
Definition facts_later m m' : Prop :=
  exists l rows, memories m' = l ++ rows /\ Forall2 fact_later (memories m) l.

#[export] Instance fact_later_preorder : PreOrder fact_later.
Proof.
  split; [by left|]. intros r1 r2 r3 [->| ->] [->| ->]; unfold fact_later; [by left|by right|by right|right]. done.
Qed.

#[export] Instance facts_later_preorder : PreOrder facts_later.
Proof.
  split; [intros m; exists (memories m), []; split; [by rewrite app_nil_r|done]|].
  intros m1 m2 m3 (l & rows & E & H) (l' & rows' & E' & H'). rewrite E in H'.
  apply Forall2_app_inv_l in H' as (l1 & l2 & H1 & H2 & ->). exists l1, (l2 ++ rows').
  split; [by rewrite app_assoc|]. by etrans.
Qed.

#[export] Instance erase_where_later which : Preserves facts_later (erase_where (G := G) which).
Proof.
  intros m. unfold erase_where. cbn. exists (map (fun r => if which r && negb (erased r) then set_erased r else r) (memories m)), [].
  split; [by rewrite app_nil_r|]. induction (memories m) as [|r l IH]; cbn; constructor; [|done]. destruct (_ && _); [by right|by left].
Qed.

#[export] Instance extract_later tn th cfg : Preserves facts_later (extract_thread_memory generate pii tn th cfg).
Proof.
  intros m. destruct (extraction_grows generate pii tn th cfg m) as (_ & rows & E & _). by exists (memories m), rows.
Qed.

(** What happens to the facts. *)
Inductive memory_op :=
| Extract (tenant_id thread_id : string) (cfg : option MemoryConfig)
| EraseUser (tenant_id end_user_id : string)
| EraseThread (tenant_id thread_id : string)
| EraseFact (tenant_id id : string)
| Prune (tenant_id : string) (at_ : option Q)
| Meanwhile (w : world).

Definition run_op (o : memory_op) m : memory_state G :=
  match o with
  | Extract tn th cfg => (extract_thread_memory generate pii tn th cfg m).2
  | EraseUser tn eu => (erase_by_user tn eu m).2
  | EraseThread tn th => (erase_by_thread tn th m).2
  | EraseFact tn id => (erase_by_id tn id m).2
  | Prune tn at_ => (prune_expired tn at_ m).2
  | Meanwhile w => with_log w m
  end.

Lemma run_op_later o m : facts_later m (run_op o m).
Proof.
  destruct o; cbn [run_op]; [apply extract_later|apply erase_where_later|apply erase_where_later| | |].
  - unfold erase_by_id. exact (preserves (R := facts_later) (c := erase_where _ ≫= _) m).
  - unfold prune_expired. exact (preserves (R := facts_later) (c := get_st ≫= _) m).
  - exists (memories m), []. split; [by rewrite app_nil_r|done].
Qed.

Lemma run_ops_later l m : facts_later m (foldl (fun m o => run_op o m) m l).
Proof.
  revert m. induction l as [|o l IH]; intros m; cbn [foldl]; [reflexivity|]. etrans; [apply run_op_later|apply IH].
Qed.

Lemma retrieved tn eu limit m r : r ∈ sql_limit limit (sort_by newest_fact (List.filter (readable (now (log_world m)) tn eu) (memories m))) ->
  r ∈ memories m /\ readable (now (log_world m)) tn eu r = true.
Proof.
  unfold sql_limit. intros Hr. assert (Hin : r ∈ sort_by newest_fact (List.filter (readable (now (log_world m)) tn eu) (memories m)))
    by (rewrite <- (take_drop (Z.to_nat limit)); apply elem_of_app; by left).
  rewrite elem_of_sort_by, list_elem_of_In, List.filter_In in Hin. by rewrite list_elem_of_In.
Qed.

(** C32: What was erased for an end user stays unread: whatever happens after,
    a retrieval returns facts that were not there at the erasure or were not
    the user's, and only facts of the tenant and the user it is for that have
    neither been erased nor expired. *)
Theorem erased_stay_unread (tn eu tn' : string) (eu' : option string) (limit : Z) (l : list memory_op) m r rows m'' :
  let m' := foldl (fun m o => run_op o m) (erase_by_user tn eu m).2 l in
  retrieve tn' eu' limit m' = (Ret rows, m'') -> r ∈ rows ->
  (forall i r0, memories m' !! i = Some r -> memories m !! i = Some r0 ->
     ~ (mm_tenant_id r0 = tn /\ mm_end_user_id r0 = Some eu))
  /\ mm_tenant_id r = tn' /\ mm_end_user_id r = eu' /\ erased r = false
  /\ forall e, expires_at r = Some e -> (now (log_world m') < e)%Q.
Proof.
  intros m' [= <- _] Hr. destruct (retrieved tn' eu' limit m' r Hr) as [_ Hread].
  unfold readable in Hread. apply andb_true_iff in Hread as [[[Ht He]%andb_true_iff Hu]%andb_true_iff Hx].
  apply bool_decide_eq_true in Ht, Hu. apply negb_true_iff in He. split_and!; [|done..|].
  - intros i r0 Hi H0 [H1 H2]. destruct (run_ops_later l (erase_by_user tn eu m).2) as (l' & rows & E & Hl).
    fold m' in E. cbn in Hl. rewrite E in Hi. assert (Hlk : (memories (erase_by_user tn eu m).2) !! i = Some (if negb (erased r0) then set_erased r0 else r0)).
    { cbn. change (map ?f ?x) with (f <$> x). rewrite list_lookup_fmap, H0. cbn. by rewrite H1, H2, !bool_decide_true. }
    destruct (Forall2_lookup_l _ _ _ _ _ Hl Hlk) as (r1 & Hr1 & Hlater).
    rewrite lookup_app_l in Hi by (by eapply lookup_lt_Some). rewrite Hi in Hr1. injection Hr1 as ->.
    assert (Her : erased (if negb (erased r0) then set_erased r0 else r0) = true) by (by destruct (erased r0) eqn:?).
    destruct Hlater as [->| ->]; [congruence|done].
  - intros e Ee. unfold unexpired in Hx. rewrite Ee in Hx. by apply Qltb_true.
Qed.
End erasure.

(** ** Relevance *)

Lemma score_sorted tokens l :
  StronglySorted (fun a b => fact_score tokens b <= fact_score tokens a)
    (sort_by (fun a b => fact_score tokens b <=? fact_score tokens a) l).
Proof.
  eapply StronglySorted_weaken; [|apply sort_by_sorted].
  - intros a b H. by apply Z.leb_le.
  - intros a b. rewrite !Z.leb_le. lia.
  - intros a b c. rewrite !Z.leb_le. lia.
Qed.

(** ** Concrete runs *)

Module MemorySample.
Definition thread_owner : memory_state nat := {| log_world := CompactionSample.w5; memories := []; model := 0%nat |}.

(** Extractors that count their calls. *)
Definition finds (l : list string) : list turn -> io nat extraction_error (list string) := fun _ n => (Ret l, S n).

Definition masks (s : string) : string + string :=
  if contains "fails" s then inl "analyzer" else if contains "Ann" s then inr "knows [PERSON]" else inr s.

Definition run (l : list string) (pii : option (string -> string + string)) (m : memory_state nat) :=
  extract_thread_memory (finds l) pii "t1" "u0" None m.

Definition texts (m : memory_state nat) : list string := map mm_content (memories m).

Definition found : memory_state nat := (run ["likes tea"; " "; "knows Ann"] (Some masks) thread_owner).2.

Lemma owner_extractable : extractable "t1" "u0" thread_owner.
Proof. split; [apply CompactionSample.w5_owned|reflexivity|by vm_compute]. Qed.
End MemorySample.

Example sample_extraction :
  MemorySample.texts MemorySample.found = ["likes tea"; "knows [PERSON]"]
  /\ map source_seq (memories MemorySample.found) = [3; 3] /\ model MemorySample.found = 1%nat
  /\ (retrieve_facts "t1" (Some "eu1") (Some "Tea, please") 10 MemorySample.found).1 = Ret ["likes tea"]
  /\ (retrieve_facts "t1" (Some "eu2") (Some "Tea, please") 10 MemorySample.found).1 = Ret [].
Proof. by vm_compute. Qed.

(** While the model finds nothing, it is asked about the same turns again. *)
Example nothing_found_is_asked_again :
  model (MemorySample.run [] None (MemorySample.run [] None MemorySample.thread_owner).2).2 = 2%nat.
Proof. by vm_compute. Qed.

(** A fact the PII service fails on raises, so that the job is retried; but
    the facts before it have moved the watermark, and the retry reads no
    turn: the facts after it are lost. *)
Example failure_loses_the_rest :
  let m := (MemorySample.run ["likes tea"; "fails"; "speaks Welsh"] (Some MemorySample.masks) MemorySample.thread_owner).2 in
  MemorySample.texts m = ["likes tea"]
  /\ MemorySample.run ["likes tea"; "speaks Welsh"] (Some MemorySample.masks) m = (Ret (nothing "no_closed_turns"), m).
Proof. by vm_compute. Qed.

(** Without a PII service the extractor's text is stored as it is. *)
Example unfiltered_fact :
  MemorySample.texts (MemorySample.run ["knows Ann"] None MemorySample.thread_owner).2 = ["knows Ann"].
Proof. by vm_compute. Qed.

Lemma rerun_witness :
  (MemorySample.run ["likes tea"] None (MemorySample.run ["likes tea"] None MemorySample.thread_owner).2).1
  = Ret (nothing "no_closed_turns").
Proof.
  destruct (MemorySample.run ["likes tea"] None MemorySample.thread_owner) as [[r|e] m] eqn:E; [|by vm_compute in E].
  assert (Hpos : 0 <? ex_extracted r = true) by (vm_compute in E; by injection E as <- <-).
  pose proof (rerun (MemorySample.finds ["likes tea"]) None "t1" "u0" None None MemorySample.thread_owner m r
    MemorySample.owner_extractable E) as H.
  rewrite Hpos in H. cbn [snd]. unfold MemorySample.run. by rewrite H.
Defined.

Lemma sweep_never_drains_witness :
  (list_threads_pending_extraction 50 MemorySample.found).1
  = Ret (pending_threads 50 (db CompactionSample.w5) [])
  /\ length (pending_threads 50 (db CompactionSample.w5) []) = 1%nat.
Proof.
  split; [|by vm_compute].
  apply (sweep_never_drains (MemorySample.finds ["likes tea"; " "; "knows Ann"]) (Some MemorySample.masks) "t1" "u0" None 50
    MemorySample.thread_owner MemorySample.owner_extractable). constructor.
Defined.

(** The facts of an end user, erased, then extracted anew: the old stay
    unread. *)
Lemma erased_stay_unread_witness :
  let gen := MemorySample.finds ["likes coffee"] in
  (retrieve "t1" (Some "eu1") 10 (erase_by_user "t1" "eu1" MemorySample.found).2).1 = Ret []
  /\ forall r rows m'', retrieve "t1" (Some "eu1") 10 (foldl (fun m o => run_op gen None o m)
       (erase_by_user "t1" "eu1" MemorySample.found).2 [Extract "t1" "u0" None]) = (Ret rows, m'') ->
     r ∈ rows -> mm_tenant_id r = "t1" /\ erased r = false.
Proof.
  split; [by vm_compute|]. intros r rows m'' E Hr.
  destruct (erased_stay_unread (MemorySample.finds ["likes coffee"]) None "t1" "eu1" "t1" (Some "eu1") 10
    [Extract "t1" "u0" None] MemorySample.found r rows m'' E Hr) as (_ & H1 & _ & H2 & _). exact (conj H1 H2).
Defined.
