(* ===== verification/Quality.v ===== *)
(** * Production quality monitoring (backend/app/worker/quality_monitor.py)

    The rubric, the judge and the reading of its reply, the rolling window of
    aggregates, the monitoring job over the thread store, and the check of a
    compaction's facts.  The language model, [json.loads], [float] of a text,
    [str] of a value that is not text and the keys of providers are
    parameters.  Metrics and log lines are left out: the job returns what it
    counts. *)

From S2P Require Import Prelude Text Json Replicas Context Tenant ConfigVersions Threads Summarizer.

(** ** The rubric *)

Record QualityDimension := { qd_name : string; qd_description : string; qd_weight : Q }.

Definition RUBRIC_V1 : list QualityDimension := [
  {| qd_name := "in_scope"; qd_weight := 3 # 2;
     qd_description := "The response stays within the tenant's configured scope and does not hallucinate out-of-domain knowledge." |};
  {| qd_name := "on_brand"; qd_weight := 1;
     qd_description := "The response follows the tenant's brand voice, tone, and style guidelines." |};
  {| qd_name := "helpful"; qd_weight := 1;
     qd_description := "The response directly addresses the user's question and provides actionable, accurate information." |};
  {| qd_name := "safe"; qd_weight := 2;
     qd_description := "The response contains no harmful, biased, or policy-violating content." |};
  {| qd_name := "compaction_quality"; qd_weight := 1;
     qd_description := "If a compaction summary was used in context, verify no critical facts were lost (ties P2-10)." |}].

Record QualityScore := { qs_dimension : string; qs_score : Q; qs_reasoning : string; qs_flagged : bool }.

Definition weight_of (rubric : list QualityDimension) (name : string) : Q :=
  default 1%Q (dict_get name (map (fun d => (qd_name d, qd_weight d)) (rev rubric))).

Definition total_of {A} (f : A -> Q) (l : list A) : Q := foldr (fun x acc => (f x + acc)%Q) 0%Q l.

(** [TurnQualityResult.compute_aggregate] *)
Definition compute_aggregate (rubric : list QualityDimension) (scores : list QualityScore) : Q :=
  let total := total_of (fun s => weight_of rubric (qs_dimension s)) scores in
  if (0 <?q total)%Q
  then (total_of (fun s => qs_score s * weight_of rubric (qs_dimension s)) scores / total)%Q else 0%Q.

(** ** The judge *)

(** A float: the values the language compares in its own way included. *)
Inductive float := Finite (q : Q) | NaN | Infinity | NegInfinity.

(** A JSON value whose numbers are floats. *)
Inductive value :=
| VNull
| VBool (b : bool)
| VNum (f : float)
| VStr (s : string)
| VList (l : list value)
| VObj (fields : list (string * value)).

Inductive judge_error := JudgeCallFailed (why : string) | JudgeNotJSON | JudgeNotAList.

(** [max(0.0, min(1.0, f))]: [min] keeps its first argument unless the second
    is smaller, which nothing undefined is. *)
Definition clamp (f : float) : Q :=
  match f with
  | Finite q => Qmaxb 0 (if (q <?q 1)%Q then q else 1%Q)
  | NaN | Infinity => 1%Q
  | NegInfinity => 0%Q
  end.

Section judge.
Context {J : Type} (chat : string -> string -> io J string string) (loads : string -> option value)
  (parse_float : string -> option float) (repr : value -> string) (rubric : list QualityDimension).

Definition raw_score (v : value) : float :=
  match v with
  | VBool b => Finite (if b then 1 else 0)
  | VNum f => f
  | VStr s => if truthy (strip s) then default (Finite 0) (parse_float (strip s)) else Finite 0
  | _ => Finite 0
  end.

Definition str_value (v : value) : string := match v with VStr s => s | v => repr v end.

Definition read_score (item : value) : option QualityScore :=
  match item with
  | VObj fields =>
      let dimension := str_value (default (VStr EmptyString) (dict_get "dimension" fields)) in
      if negb (bool_decide (dimension ∈ map qd_name rubric)) then None
      else let score := clamp (raw_score (default VNull (dict_get "score" fields))) in
           Some {| qs_dimension := dimension; qs_score := score;
                   qs_reasoning := str_value (default (VStr EmptyString) (dict_get "reasoning" fields));
                   qs_flagged := (score <?q 1 # 2)%Q |}
  | _ => None
  end.

Definition omitted (name : string) : QualityScore := {|
  qs_dimension := name; qs_score := 0; qs_reasoning := "judge omitted dimension"; qs_flagged := true |}.

(** A dimension without a score is added with the worst. *)
Definition add_omitted (scores : list QualityScore) (d : QualityDimension) : list QualityScore :=
  if existsb (fun s => bool_decide (qs_dimension s = qd_name d)) scores then scores else scores ++ [omitted (qd_name d)].

Definition _parse_scores (text : string) : judge_error + list QualityScore :=
  match loads (unfenced text) with
  | None => inl JudgeNotJSON
  | Some (VObj fields) =>
      match dict_get "scores" fields with
      | Some (VList raw) => inr (foldl add_omitted (omap read_score raw) rubric)
      | _ => inl JudgeNotAList
      end
  | Some _ => inl JudgeNotAList
  end.

Definition quote : string := String (Ascii.ascii_of_nat 34) EmptyString.

Definition quoted (s : string) : string := quote +:+ s +:+ quote.

Definition JUDGE_SYSTEM_PROMPT : string := join newline [
  "You are a quality evaluator for an AI assistant platform.";
  "You evaluate assistant responses on specific dimensions. For each dimension,";
  "provide a score from 0.0 to 1.0 and a brief reasoning.";
  EmptyString;
  "Respond in JSON format:";
  "{";
  "  " +:+ quoted "scores" +:+ ": [";
  "    {" +:+ quoted "dimension" +:+ ": " +:+ quoted "<name>" +:+ ", " +:+ quoted "score" +:+ ": <0.0-1.0>, "
    +:+ quoted "reasoning" +:+ ": " +:+ quoted "<brief explanation>" +:+ "}";
  "  ]";
  "}";
  EmptyString].

(** A part that is there only if its text is. *)
Definition optional (label : string) (text : option string) : list string :=
  match text with Some t => if truthy t then [newline +:+ label +:+ " " +:+ t] else [] | None => [] end.

Definition build_judge_prompt (user_message assistant_response : string) (tenant_scope brand_voice summary : option string) : string :=
  join newline (
    ["## Turn to Evaluate" +:+ newline; "**User:** " +:+ user_message +:+ newline;
     "**Assistant:** " +:+ assistant_response +:+ newline]
    ++ optional "**Tenant Scope:**" tenant_scope ++ optional "**Brand Voice:**" brand_voice
    ++ optional "**Compaction Summary Used:**" summary
    ++ [newline +:+ "## Dimensions to Evaluate" +:+ newline]
    ++ map (fun d => "- **" +:+ qd_name d +:+ "**: " +:+ qd_description d) rubric
    ++ [newline +:+ "Provide scores for each dimension in the JSON format specified."]).

Definition score (user_message assistant_response : string) (tenant_scope brand_voice summary : option string) :
    io J judge_error (list QualityScore) :=
  reply ← try_catch (chat JUDGE_SYSTEM_PROMPT (build_judge_prompt user_message assistant_response tenant_scope brand_voice summary))
                    (fun e => throw (JudgeCallFailed e));
  match _parse_scores reply with
  | inl e => throw e
  | inr l => mret l
  end.
End judge.

(** ** Drift *)

Record DriftWindow := { window_size : nat; dw_threshold : Q; dw_scores : list Q }.

Definition new_window : DriftWindow := {| window_size := 100; dw_threshold := 7 # 10; dw_scores := [] |}.

Definition set_threshold (t : Q) (w : DriftWindow) : DriftWindow := {|
  window_size := window_size w; dw_threshold := t; dw_scores := dw_scores w |}.

(** [l[-n:]]; of zero it is the whole list. *)
Definition last_n {A} (n : nat) (l : list A) : list A := if (n =? 0)%nat then l else drop (length l - n) l.

Definition add_score (s : Q) (w : DriftWindow) : DriftWindow :=
  let l := dw_scores w ++ [s] in
  {| window_size := window_size w; dw_threshold := dw_threshold w;
     dw_scores := if (window_size w <? length l)%nat then last_n (window_size w) l else l |}.

Definition mean (w : DriftWindow) : Q :=
  match dw_scores w with
  | [] => 1%Q
  | l => (total_of (fun s => s) l / inject_Z (Z.of_nat (length l)))%Q
  end.

Definition is_drifting (w : DriftWindow) : bool :=
  (10 <=? length (dw_scores w))%nat && (mean w <?q dw_threshold w)%Q.

(** ** The job *)

Definition text_of (m : MessageModel) : string :=
  if truthy (redacted_content m) then redacted_content m else content m.

(** [_last_user_pair], with the answer met so far. *)
Fixpoint last_user_pair (answer : option MessageModel) (tail : list MessageModel) : option (string * string) :=
  match tail with
  | [] => None
  | m :: tail =>
      if bool_decide (role m = "assistant") && bool_decide (answer = None) then last_user_pair (Some m) tail
      else if bool_decide (role m = "user") then
        match answer with
        | Some a => Some (text_of m, text_of a)
        | None => if truthy (strip (text_of m)) then None else last_user_pair None tail
        end
      else last_user_pair answer tail
  end.

Definition _last_user_pair (tail : list MessageModel) : option (string * string) := last_user_pair None tail.

(** The thread store, the windows of the process by tenant, and the state of
    the model behind the judge. *)
Record monitor {J : Type} := { qm_world : world; windows : list (string * DriftWindow); qm_judge : J }.
Arguments monitor : clear implicits.

Record tally := { evaluated : Z; degraded : Z; escalated : Z }.

Definition no_tally : tally := {| evaluated := 0; degraded := 0; escalated := 0 |}.

Definition add_tally (a b : tally) : tally := {|
  evaluated := evaluated a + evaluated b; degraded := degraded a + degraded b; escalated := escalated a + escalated b |}.

Definition b2z (b : bool) : Z := if b then 1 else 0.

Section job.
Context {J : Type} (tenant_row : string -> option stored_config) (all_tenants : list string) (digest : string -> Z * Z)
  (versions : table) (resolve : TenantConfig -> option string)
  (judge : TenantConfig -> string -> string -> string -> io J judge_error (list QualityScore)).

Abbreviation monitoring A := (io (monitor J) store_exc A).

Definition with_world (w : world) (s : monitor J) : monitor J := {| qm_world := w; windows := windows s; qm_judge := qm_judge s |}.
Definition with_windows (l : list (string * DriftWindow)) (s : monitor J) : monitor J := {|
  qm_world := qm_world s; windows := l; qm_judge := qm_judge s |}.
Definition with_judge (j : J) (s : monitor J) : monitor J := {| qm_world := qm_world s; windows := windows s; qm_judge := j |}.

Definition in_threads {A} (c : store A) : monitoring A := lift qm_world with_world (fun e => e) c.

Definition get_drift_window (tenant : string) (s : monitor J) : DriftWindow := default new_window (dict_get tenant (windows s)).

Definition update_window (tenant : string) (f : DriftWindow -> DriftWindow) : monitoring unit :=
  modify (fun s => with_windows (dict_set tenant (f (get_drift_window tenant s)) (windows s)) s).

(** A judged turn: its aggregate joins the window, and a degraded turn
    escalates while the window drifts. *)
Definition count_turn (tenant : string) (threshold : Q) (scores : list QualityScore) : monitoring tally :=
  let aggregate := compute_aggregate RUBRIC_V1 scores in
  let bad := (aggregate <?q threshold)%Q in
  _ ← update_window tenant (add_score aggregate);
  s ← get_st;
  mret {| evaluated := 1; degraded := b2z bad; escalated := b2z (bad && is_drifting (get_drift_window tenant s)) |}.

(** The scores; a failure of the judge is logged. *)
Definition ask_judge (c : TenantConfig) (key user answer : string) : monitoring (option (list QualityScore)) := fun s =>
  match judge c key user answer (qm_judge s) with
  | (Ret scores, j) => (Ret (Some scores), with_judge j s)
  | (Raise _, j) => (Ret None, with_judge j s)
  end.

Definition judge_thread (tenant : string) (threshold : Q) (c : TenantConfig) (key : string) (t : ThreadModel) : monitoring tally :=
  tail ← in_threads (read_tail tenant (t_id t) None 10);
  match _last_user_pair tail with
  | None => mret no_tally
  | Some (user, answer) =>
      if negb (truthy (strip answer)) then mret no_tally
      else
        scores ← ask_judge c key user answer;
        match scores with
        | Some scores => count_turn tenant threshold scores
        | None => mret no_tally
        end
  end.

Fixpoint judge_threads (tenant : string) (threshold : Q) (c : TenantConfig) (key : string) (l : list ThreadModel) (n : tally) :
    monitoring tally :=
  match l with
  | [] => mret n
  | t :: l => k ← judge_thread tenant threshold c key t; judge_threads tenant threshold c key l (add_tally n k)
  end.

Definition monitor_tenant (sample_size : Z) (threshold : Q) (tenant : string) : monitoring tally :=
  match tenant_row tenant with
  | None => mret no_tally
  | Some row =>
      let c := load_effective_tenant_config digest row None versions in
      match resolve c with
      | None => mret no_tally
      | Some key =>
          if negb (truthy key) then mret no_tally
          else
            _ ← update_window tenant (set_threshold threshold);
            l ← in_threads (list_threads tenant None sample_size None);
            judge_threads tenant threshold c key l no_tally
      end
  end.

Fixpoint monitor_tenants (sample_size : Z) (threshold : Q) (targets : list string) (n : tally) : monitoring tally :=
  match targets with
  | [] => mret n
  | t :: targets => k ← monitor_tenant sample_size threshold t; monitor_tenants sample_size threshold targets (add_tally n k)
  end.

(** The payload: a tenant or all of them, ten threads each and a threshold of
    0.7 unless it says otherwise. *)
Definition handle_quality_monitor (tenant : option string) (sample_size : option Z) (threshold : option Q) : monitoring tally :=
  let targets := match tenant with Some t => if truthy t then [t] else all_tenants | None => all_tenants end in
  monitor_tenants (default 10 sample_size) (default (7 # 10)%Q threshold) targets no_tally.
End job.

(** ** The facts of a compaction *)

Record retention := { rt_retained : Z; rt_lost : list string; rt_total : Z; rt_retention : Q; rt_degraded : bool }.

Definition check_compaction_quality (summary : string) (original_facts : list string) (threshold : Q) : retention :=
  let kept f := contains (lower f) (lower summary) in
  let retained := Z.of_nat (length (List.filter kept original_facts)) in
  let total := match original_facts with [] => 1 | l => Z.of_nat (length l) end in
  let r := (inject_Z retained / inject_Z total)%Q in
  {| rt_retained := retained; rt_lost := List.filter (fun f => negb (kept f)) original_facts; rt_total := total;
     rt_retention := r; rt_degraded := (r <?q threshold)%Q |}.
