(* ===== verification/QualityProps.v ===== *)
(** * Quality monitoring: what the definitions of Quality.v do

    What the reading of a judge's reply guarantees, what a window holds, how
    the counts of a run relate, and which turns are judged. *)

From S2P Require Import Prelude Text Json Replicas Tenant ConfigVersions Threads ThreadLog ThreadProps Summarizer Compaction Quality.

(** ** Scores *)

Lemma clamp_range f : (0 <= clamp f /\ clamp f <= 1)%Q.
Proof.
  destruct f as [q| | |]; cbn [clamp]; [|by split..]. pose proof (Qmaxb_spec 0 (if (q <?q 1)%Q then q else 1%Q)) as [H1 H2].
  split; [done|]. unfold Qmaxb. destruct (Qle_bool _ _); [|done]. destruct (q <?q 1)%Q eqn:E; [|done].
  apply Qltb_true in E. by apply Qlt_le_weak.
Qed.

Section scores.
Context (loads : string -> option value) (parse_float : string -> option float) (repr : value -> string)
  (rubric : list QualityDimension).

(** A score of the rubric in its range. *)
Record sound_score (s : QualityScore) : Prop := {
  ss_known : qs_dimension s ∈ map qd_name rubric;
  ss_range : (0 <= qs_score s /\ qs_score s <= 1)%Q;
  ss_flag : qs_flagged s = (qs_score s <?q 1 # 2)%Q;
}.

Lemma read_score_sound item s : read_score parse_float repr rubric item = Some s -> sound_score s.
Proof.
  destruct item as [| | | | |fields]; try done. cbn [read_score].
  destruct (negb _) eqn:E; [done|]. intros [= <-]. apply negb_false_iff, bool_decide_eq_true in E. split; [exact E|apply clamp_range|done].
Qed.

Lemma add_omitted_spec d l : d ∈ rubric -> Forall sound_score l ->
  Forall sound_score (add_omitted l d) /\ (exists s, s ∈ add_omitted l d /\ qs_dimension s = qd_name d) /\ l `prefix_of` add_omitted l d.
Proof.
  intros Hd Hl. unfold add_omitted. destruct (existsb _ l) eqn:E.
  - apply existsb_exists in E as (s & Hs & Hn). apply bool_decide_eq_true in Hn. split_and!; [done| |done].
    exists s. by rewrite list_elem_of_In.
  - split_and!; [|exists (omitted (qd_name d)); split; [apply elem_of_app; right; by left|done]|by apply prefix_app_r].
    apply Forall_app. split; [done|]. constructor; [|constructor]. split; [exact (list_elem_of_fmap_2 qd_name _ _ Hd)|by split|done].
Qed.

Lemma add_omitted_all ds : forall l, (forall d, d ∈ ds -> d ∈ rubric) -> Forall sound_score l ->
  Forall sound_score (foldl add_omitted l ds) /\ (forall d, d ∈ ds -> exists s, s ∈ foldl add_omitted l ds /\ qs_dimension s = qd_name d)
  /\ l `prefix_of` foldl add_omitted l ds.
Proof.
  induction ds as [|d ds IH]; intros l Hin Hl; cbn [foldl]; [split_and!; [done|by intros ? ?%elem_of_nil|done]|].
  destruct (add_omitted_spec d l (Hin d (list_elem_of_here _ _)) Hl) as (H1 & (s & Hs & Hn) & Hp).
  destruct (IH (add_omitted l d)) as (H2 & H3 & Hp2); [intros d' Hd'; apply Hin; by right|done|].
  split_and!; [done| |by etrans]. intros d' [->|Hd']%elem_of_cons; [|by apply H3].
  exists s. split; [|done]. destruct Hp2 as [k ->]. apply elem_of_app. by left.
Qed.

(** The reading of a judge's reply is total on the rubric: it fails, or
    every score is of a dimension of the rubric, between zero and one, and
    flagged when below one half, and every dimension has a score. *)
Theorem parsed_scores (text : string) (l : list QualityScore) :
  _parse_scores loads parse_float repr rubric text = inr l ->
  Forall sound_score l /\ forall d, d ∈ rubric -> exists s, s ∈ l /\ qs_dimension s = qd_name d.
Proof.
  unfold _parse_scores. destruct (loads (unfenced text)) as [[| | | | |fields]|]; try done.
  destruct (dict_get "scores" fields) as [[| | | |raw|]|]; try done. intros [= <-].
  destruct (add_omitted_all rubric (omap (read_score parse_float repr rubric) raw)) as (H1 & H2 & _); [done| |by split].
  apply Forall_forall. intros s (item & _ & Hs)%list_elem_of_omap. by apply read_score_sound in Hs.
Qed.

Lemma total_bounds {A} (f g : A -> Q) l : Forall (fun x => 0 <= f x /\ f x <= g x)%Q l -> (0 <= total_of f l /\ total_of f l <= total_of g l)%Q.
Proof. induction 1 as [|x l [H1 H2] _ [IH1 IH2]]; cbn [total_of foldr]; [by split|].
  fold (total_of f l). fold (total_of g l). split; lra.
Qed.

(** The aggregate of such scores is between zero and one. *)
Lemma aggregate_range l : Forall (fun d => 0 <= qd_weight d)%Q rubric -> Forall sound_score l ->
  (0 <= compute_aggregate rubric l /\ compute_aggregate rubric l <= 1)%Q.
Proof.
  intros Hw Hl. unfold compute_aggregate. set (w := fun s => weight_of rubric (qs_dimension s)).
  assert (Hpos : forall s, (0 <= w s)%Q).
  { intros s. unfold w, weight_of. destruct (dict_get _ _) as [q|] eqn:E; [|done]. apply dict_get_elem in E.
    apply list_elem_of_fmap in E as (d & Ed & Hd). injection Ed as _ ->. rewrite Forall_forall in Hw. apply Hw.
    by apply list_elem_of_In, in_rev, list_elem_of_In in Hd. }
  destruct (0 <?q total_of w l)%Q eqn:E; [|by split]. apply Qltb_true in E.
  destruct (total_bounds (fun s => qs_score s * w s)%Q w l) as [H1 H2].
  { eapply Forall_impl; [exact Hl|]. intros s [_ [Hs1 Hs2] _]. specialize (Hpos s). split; [by apply Qmult_le_0_compat|].
    eapply Qle_trans; [by apply (Qmult_le_compat_r _ 1)|]. rewrite Qmult_1_l. apply Qle_refl. }
  split; [apply Qle_shift_div_l|apply Qle_shift_div_r]; try done; [by rewrite Qmult_0_l|by rewrite Qmult_1_l].
Qed.
End scores.

(** ** Windows *)

(** A window holds the newest aggregates, as many as its size. *)
Lemma window_holds_last n t l : (0 < n)%nat ->
  dw_scores (foldl (fun w s => add_score s w) {| window_size := n; dw_threshold := t; dw_scores := [] |} l) = drop (length l - n) l
  /\ window_size (foldl (fun w s => add_score s w) {| window_size := n; dw_threshold := t; dw_scores := [] |} l) = n.
Proof.
  intros Hn. induction l as [|s l [IH1 IH2]] using rev_ind; [done|]. rewrite foldl_app. cbn [foldl].
  set (w := foldl _ _ l) in *. unfold add_score. cbn [dw_scores window_size]. split; [|done]. rewrite IH1, IH2.
  rewrite !length_app, length_drop. cbn [length]. unfold last_n. destruct (Nat.eqb_spec n 0); [lia|].
  destruct (Nat.ltb_spec n (length l - (length l - n) + 1)) as [Hlt|Hge].
  - rewrite length_app, length_drop. cbn [length].
    replace (length l - (length l - n) + 1 - n)%nat with 1%nat by lia.
    replace (length l + 1 - n)%nat with ((length l - n) + 1)%nat by lia.
    rewrite !drop_app. rewrite drop_drop, length_drop. replace (1 - (length l - (length l - n)))%nat with 0%nat by lia.
    replace (length l - n + 1 - length l)%nat with 0%nat by lia. done.
  - replace (length l + 1 - n)%nat with 0%nat by lia. replace (length l - n)%nat with 0%nat by lia. done.
Qed.

(** ** Which turns are judged *)

(** [read_tail] gives the end of the log, its oldest message first. *)
Lemma tail_is_end tn th w n : owned th tn w -> 0 <= n ->
  tail_page tn th None n (db w) = drop (length (log tn th (db w)) - Z.to_nat n) (log tn th (db w)).
Proof.
  intros Ho Hn. unfold tail_page, sql_limit. set (rows := List.filter (in_thread tn th) (messages (db w))).
  assert (E : sort_by (fun m m' => m_seq m' <=? m_seq m) rows = rev (log tn th (db w))).
  { apply (StronglySorted_unique_strong (fun m m' => m_seq m' <= m_seq m)).
    - intros m m' Hm Hm' H1 H2. rewrite elem_of_sort_by in Hm. apply list_elem_of_In, in_rev, list_elem_of_In in Hm'.
      assert (Hm2 : m ∈ log tn th (db w)) by (unfold log; by rewrite elem_of_sort_by).
      apply list_elem_of_lookup in Hm2 as [i Hi]. apply list_elem_of_lookup in Hm' as [j Hj].
      pose proof (log_lookup _ _ _ _ _ Ho Hi). pose proof (log_lookup _ _ _ _ _ Ho Hj). assert (i = j) as -> by lia. congruence.
    - eapply StronglySorted_weaken; [|apply sort_by_sorted].
      + intros a b. apply Z.leb_le.
      + intros a b. rewrite !Z.leb_le. lia.
      + intros a b c. rewrite !Z.leb_le. lia.
    - assert (Hs : StronglySorted Z.lt (map m_seq (log tn th (db w)))).
      { rewrite (log_seqs tn th w Ho). unfold upto. generalize (length (message_seqs th (db w))) as k, 1%nat as a.
        induction k as [|k IH]; intros a; cbn; constructor; [apply IH|]. apply Forall_forall.
        intros z (i & -> & Hi)%list_elem_of_fmap. apply elem_of_seq in Hi. lia. }
      clear -Hs. induction (log tn th (db w)) as [|m l IH]; [constructor|]. cbn in *. inversion_clear Hs as [|? ? Hl Hm].
      apply StronglySorted_app. split_and!; [|by apply IH|repeat constructor].
      intros x y Hx ->%list_elem_of_singleton. apply list_elem_of_In, in_rev, list_elem_of_In in Hx.
      rewrite Forall_forall in Hm. apply Z.lt_le_incl, Hm, list_elem_of_fmap_2, Hx.
    - rewrite sort_by_perm, <- Permutation_rev. unfold log. by rewrite sort_by_perm. }
  rewrite E, firstn_rev, rev_involutive. done.
Qed.

Lemma read_tail_primary tn th n w : primary_only w -> read_tail tn th None n w = (Ret (tail_page tn th None n (db w)), w).
Proof.
  intros Hp. unfold read_tail, _read_session, get_read_session, read_route, replica_eligible. rewrite Hp. cbn. by destruct w.
Qed.

(** A question with nothing of the assistant before it ends the search. *)
Lemma question_first m tail : role m = "user" -> truthy (strip (text_of m)) = true -> _last_user_pair (m :: tail) = None.
Proof. intros Hr Ht. unfold _last_user_pair. cbn [last_user_pair]. by rewrite Hr, Ht. Qed.

Section job.
Context {J : Type} (judge : TenantConfig -> string -> string -> string -> io J judge_error (list QualityScore)).

(** The pair to judge is looked for from the oldest message of a tail as
    if it were the newest, so a thread whose last ten messages begin with a
    question of the user, as any thread of at most ten messages that the user
    began does, is not judged: the judge is not called and nothing is
    counted. *)
Theorem question_first_unjudged (tn : string) (threshold : Q) (c : TenantConfig) (key : string) (t : ThreadModel)
    (s : monitor J) (m : MessageModel) :
  owned (t_id t) tn (qm_world s) -> primary_only (qm_world s) ->
  let l := log tn (t_id t) (db (qm_world s)) in
  head (drop (length l - 10) l) = Some m -> role m = "user" -> truthy (strip (text_of m)) = true ->
  judge_thread judge tn threshold c key t s = (Ret no_tally, s).
Proof.
  intros Ho Hp l Hh Hr Ht. unfold judge_thread, in_threads, lift, mbind, io_bind.
  rewrite read_tail_primary, tail_is_end by done. fold l. change (Z.to_nat 10) with 10%nat.
  destruct (drop (length l - 10) l) as [|m' tail]; [done|]. injection Hh as ->. rewrite question_first by done.
  unfold mret, io_ret, with_world. by destruct s.
Qed.

(** ** Counts *)

(** What a run counts: an escalated turn is degraded, a degraded one was
    evaluated. *)
Definition ordered (n : tally) : Prop := 0 <= escalated n <= degraded n /\ degraded n <= evaluated n.

Lemma ordered_turn a b : ordered {| evaluated := 1; degraded := b2z a; escalated := b2z (a && b) |}.
Proof. unfold ordered. destruct a, b; cbn; lia. Qed.

Lemma ordered_add a b : ordered a -> ordered b -> ordered (add_tally a b).
Proof. unfold ordered. cbn. lia. Qed.

Abbreviation counts c := (triple (fun _ => True) c (fun n _ => ordered n) (fun _ _ => True)).

Lemma judge_thread_counts tn threshold c key t : counts (judge_thread judge tn threshold c key t).
Proof.
  assert (Hno : forall s : monitor J, True -> ordered no_tally) by (intros; unfold ordered; cbn; lia).
  unfold judge_thread. apply (triple_bind _ _ _ _ (fun _ _ => True)).
  { intros s _. unfold in_threads, lift. by destruct (read_tail _ _ _ _ _) as [[?|?] ?]. }
  intros tail. destruct (_last_user_pair tail) as [[user answer]|]; [|by apply triple_ret].
  destruct (negb _); [by apply triple_ret|]. apply (triple_bind _ _ _ _ (fun _ _ => True)).
  { intros s _. unfold ask_judge. by destruct (judge _ _ _ _ _) as [[?|?] ?]. }
  intros [scores|]; [|by apply triple_ret]. intros s _. apply ordered_turn.
Qed.

Lemma judge_threads_counts tn threshold c key l : forall n, ordered n -> counts (judge_threads judge tn threshold c key l n).
Proof.
  induction l as [|t l IH]; intros n Hn; cbn [judge_threads]; [by apply triple_ret|].
  apply (triple_bind _ _ _ _ (fun k _ => ordered k)).
  { exact (judge_thread_counts tn threshold c key t). }
  intros k s Hk. exact (IH (add_tally n k) (ordered_add n k Hn Hk) s I).
Qed.

Context (tenant_row : string -> option stored_config) (all_tenants : list string) (digest : string -> Z * Z)
  (versions : table) (resolve : TenantConfig -> option string).

Lemma monitor_tenant_counts sample threshold tn : counts (monitor_tenant tenant_row digest versions resolve judge sample threshold tn).
Proof.
  assert (Hno : ordered no_tally) by (unfold ordered; cbn; lia).
  unfold monitor_tenant. destruct (tenant_row tn) as [row|]; [|by apply triple_ret].
  destruct (resolve _) as [key|]; [|by apply triple_ret]. destruct (negb _); [by apply triple_ret|].
  apply (triple_bind _ _ _ _ (fun _ _ => True)); [by intros s _|]. intros u.
  apply (triple_bind _ _ _ _ (fun _ _ => True)).
  { intros s _. unfold in_threads, lift. by destruct (list_threads _ _ _ _ _) as [[?|?] ?]. }
  intros l. by apply judge_threads_counts.
Qed.

(** Of the turns a run of the monitor evaluates those it escalates are
    degraded ones, whatever the judge and the store do. *)
Theorem monitor_counts (tenant : option string) (sample : option Z) (threshold : option Q) (s s' : monitor J) (n : tally) :
  handle_quality_monitor tenant_row all_tenants digest versions resolve judge tenant sample threshold s = (Ret n, s') ->
  0 <= escalated n <= degraded n /\ degraded n <= evaluated n.
Proof.
  intros E. unfold handle_quality_monitor in E. set (targets := match tenant with Some _ => _ | None => _ end) in E.
  assert (H : forall l k, ordered k -> counts (monitor_tenants tenant_row digest versions resolve judge (default 10 sample)
    (default (7 # 10)%Q threshold) l k)).
  { induction l as [|t l IH]; intros k Hk; cbn [monitor_tenants]; [by apply triple_ret|].
    apply (triple_bind _ _ _ _ (fun k _ => ordered k)); [apply monitor_tenant_counts|].
    intros k' s0 Hk'. exact (IH (add_tally k k') (ordered_add k k' Hk Hk') s0 I). }
  specialize (H targets no_tally). unfold triple in H. specialize (H ltac:(unfold ordered; cbn; lia) s I).
  rewrite E in H. exact H.
Qed.
End job.

(** ** The facts of a compaction *)

(** A fact is retained or listed as lost. *)
Lemma facts_partitioned summary l threshold :
  let r := check_compaction_quality summary l threshold in
  rt_retained r + Z.of_nat (length (rt_lost r)) = Z.of_nat (length l).
Proof.
  cbn. induction l as [|f l IH]; [done|]. cbn [List.filter length]. destruct (contains (lower f) (lower summary)); cbn [negb length]; lia.
Qed.

(** ** Concrete runs *)

(** A judge that counts its calls and finds nothing wrong. *)
Definition pleased : TenantConfig -> string -> string -> string -> io nat judge_error (list QualityScore) := fun _ _ _ _ n =>
  (Ret (map (fun d => {| qs_dimension := qd_name d; qs_score := 1; qs_reasoning := EmptyString; qs_flagged := false |}) RUBRIC_V1), S n).

Definition watched : monitor nat := {| qm_world := CompactionSample.w5; windows := []; qm_judge := 0%nat |}.

Definition the_thread : ThreadModel := default
  {| t_id := EmptyString; t_tenant_id := EmptyString; t_conversation_id := EmptyString; t_surface_id := None; t_end_user_id := None;
     t_status := EmptyString; Threads.summary_block := None; summary_position := None; summary_version := 0; forked_from := None;
     archived := false; t_created_at := 0; t_updated_at := 0 |}
  (head (select_thread "t1" "u0" (db CompactionSample.w5))).

(** Two questions, both answered, and nothing is judged. *)
Example answered_thread_unjudged (c : TenantConfig) :
  judge_thread pleased "t1" (7 # 10) c "key" the_thread watched = (Ret no_tally, watched).
Proof.
  destruct (head (drop (length (log "t1" "u0" (db CompactionSample.w5)) - 10) (log "t1" "u0" (db CompactionSample.w5)))) as [m|] eqn:E;
    [|by vm_compute in E].
  apply (question_first_unjudged pleased "t1" (7 # 10) c "key" the_thread watched m).
  - exact CompactionSample.w5_owned.
  - reflexivity.
  - exact E.
  - vm_compute in E. by injection E as <-.
  - vm_compute in E. by injection E as <-.
Defined.

Definition said (who text : string) : MessageModel := {|
  m_id := EmptyString; m_conversation_id := EmptyString; m_tenant_id := EmptyString; m_thread_id := EmptyString; m_seq := 0;
  m_request_id := None; parent_message_id := None; m_surface_id := None; m_end_user_id := None; role := who; content := text;
  redacted_content := EmptyString; metadata_json := []; m_created_at := 0 |}.

(** When the tail begins with an answer, it is judged as the answer to the
    question that came after it. *)
Example answer_to_the_next_question :
  _last_user_pair [said "assistant" "first answer"; said "user" "second question"; said "assistant" "second answer"]
  = Some ("second question", "first answer").
Proof. reflexivity. Qed.

(** A score that is not a number counts as the best. *)
Example not_a_number_is_best : clamp NaN = 1%Q.
Proof. reflexivity. Qed.

(** A compaction without facts to keep is called degraded. *)
Example no_facts_degraded : rt_degraded (check_compaction_quality "summary" [] (6 # 10)) = true.
Proof. reflexivity. Qed.

Definition one_reply (text : string) : option value := Some (VObj [("scores", VList
  [VObj [("dimension", VStr "safe"); ("score", VNum (Finite (9 # 10)))]; VObj [("dimension", VStr "helpful")]])]).

Lemma parsed_scores_witness :
  exists l, _parse_scores one_reply (fun _ => None) (fun _ => EmptyString) RUBRIC_V1 "{}" = inr l
    /\ (length l = 5)%nat /\ forall d, d ∈ RUBRIC_V1 -> exists s, s ∈ l /\ qs_dimension s = qd_name d.
Proof.
  destruct (_parse_scores one_reply (fun _ => None) (fun _ => EmptyString) RUBRIC_V1 "{}") as [e|l] eqn:E; [by vm_compute in E|].
  exists l. split_and!; [done|vm_compute in E; by injection E as <-|].
  apply (parsed_scores one_reply (fun _ => None) (fun _ => EmptyString) RUBRIC_V1 "{}" l E).
Defined.
