(* ===== verification/Archive.v ===== *)
(** * Archives of threads (backend/app/application/archive/service.py)

    Archiving a thread to the object store and restoring it, the sweep of a
    tenant's old threads, the regions of their keys (governance/residency.py),
    upload, download and deletion of the storage manager
    (infrastructure/storage/manager.py) and the jobs
    (worker/retention.py).  The digest, the serialisation of a dump and its
    reading are parameters; the object store has a schedule of outages; a
    local store is the directory the manager falls back to. *)

From S2P Require Import Prelude Text Json Replicas Threads ThreadLog ThreadProps.

(** ** Regions *)

Definition DEFAULT_REGION : string := "eu-west-1".
Definition SUPPORTED_REGIONS : list string := ["eu-west-1"; "us-east-1"; "us-west-2"; "ap-southeast-1"]%string.

(** [None]: ValueError. *)
Definition resolve_region (region : option string) : option string :=
  match region with
  | None => Some DEFAULT_REGION
  | Some r => let r := lower (strip r) in if bool_decide (r ∈ SUPPORTED_REGIONS) then Some r else None
  end.

Definition archive_prefix (tenant_id : string) (region : option string) : option string :=
  (fun r => "tenant/" +:+ tenant_id +:+ "/archive/" +:+ r +:+ "/") <$> resolve_region region.

Definition archive_key (tenant_id thread_id : string) (region : option string) : option string :=
  (fun p => p +:+ "threads/" +:+ thread_id +:+ ".json") <$> archive_prefix tenant_id region.

(** ** The object store *)

Record stored_object := { ob_body : string; ob_metadata : list (string * string) }.

Record storage := {
  objects : list (string * stored_object);
  remote : bool;
  outages : list bool;                        (* whether the next commands fail *)
}.

Inductive archive_exc :=
| ThreadMissing (thread_id : string)
| UnsupportedRegion
| StorageFailed
| FileNotFound (key : string)
| ChecksumMismatch
| PayloadMismatch
| MissingArguments
| StoreRaised (e : store_exc).

Record archive_world := { ar_world : world; ar_storage : storage }.

Abbreviation archiving A := (io archive_world archive_exc A).

Definition with_store (w : world) (s : archive_world) : archive_world := {| ar_world := w; ar_storage := ar_storage s |}.
Definition with_storage (o : storage) (s : archive_world) : archive_world := {| ar_world := ar_world s; ar_storage := o |}.

Definition in_db {A} (c : store A) : archiving A := lift ar_world with_store StoreRaised c.

(** The next command: whether it fails, and the store after it was tried. *)
Definition attempt (o : storage) : bool * storage :=
  match outages o with
  | [] => (false, o)
  | b :: l => (b, {| objects := objects o; remote := remote o; outages := l |})
  end.

(** A local store keeps no metadata. *)
Definition put_object (key body : string) (metadata : list (string * string)) (o : storage) : storage := {|
  objects := dict_set key {| ob_body := body; ob_metadata := if remote o then metadata else [] |} (objects o);
  remote := remote o; outages := outages o |}.

Definition upload_file (key body : string) (metadata : list (string * string)) : archiving unit := fun s =>
  match attempt (ar_storage s) with
  | (true, o) => (Raise StorageFailed, with_storage o s)
  | (false, o) => (Ret tt, with_storage (put_object key body metadata o) s)
  end.

Definition download_file (key : string) : archiving stored_object := fun s =>
  match attempt (ar_storage s) with
  | (true, o) => (Raise (if remote o then FileNotFound key else StorageFailed), with_storage o s)
  | (false, o) =>
      match dict_get key (objects o) with
      | Some b => (Ret b, with_storage o s)
      | None => (Raise (FileNotFound key), with_storage o s)
      end
  end.

Definition delete_file (key : string) : archiving bool := fun s =>
  match attempt (ar_storage s) with
  | (true, o) => ((if remote o then Ret false else Raise StorageFailed), with_storage o s)
  | (false, o) =>
      (Ret (remote o || bool_decide (is_Some (dict_get key (objects o)))),
       with_storage {| objects := dict_pop key (objects o); remote := remote o; outages := outages o |} s)
  end.

(** ** [ThreadArchiveService] *)

(** What a read payload says: its thread, and how many messages and events
    it holds. *)
Record payload_summary := { ps_thread : string; ps_messages : Z; ps_events : Z }.

Inductive archive_result :=
| AlreadyArchived (key : string)
| Archived (key : string) (bytes : Z) (checksum : string) (event : ThreadEventModel).

Inductive restore_result :=
| AlreadyRestored
| Restored (key : string) (messages events : Z) (checksum : string) (event : ThreadEventModel).

Section service.
Context (sha256 : string -> string) (serialize : thread_dump -> string) (parse : string -> option payload_summary).

Definition key_or_raise (tenant_id thread_id : string) (region : option string) : archiving string :=
  match archive_key tenant_id thread_id region with Some k => mret k | None => throw UnsupportedRegion end.

Definition archive_thread (tenant_id thread_id : string) (region request_id : option string) : archiving archive_result :=
  thread ← in_db (get_thread tenant_id thread_id);
  match thread with
  | None => throw (ThreadMissing thread_id)
  | Some t =>
      if archived t then key ← key_or_raise tenant_id thread_id region; mret (AlreadyArchived key)
      else
        dump ← in_db (dump_thread tenant_id thread_id);
        match dump with
        | None => throw (ThreadMissing thread_id)
        | Some dump =>
            let body := serialize dump in
            key ← key_or_raise tenant_id thread_id region;
            _ ← upload_file key body [("tenant_id", tenant_id); ("thread_id", thread_id); ("checksum_sha256", sha256 body);
                                      ("region", default EmptyString region)];
            event ← in_db (set_archived tenant_id thread_id true request_id);
            mret (Archived key (Z.of_nat (String.length body)) (sha256 body) event)
        end
  end.

(** The check of a downloaded body: no recorded checksum, nothing to compare. *)
Definition verified (b : stored_object) : bool :=
  match dict_get "checksum_sha256" (ob_metadata b) with
  | Some expected => negb (truthy expected) || bool_decide (sha256 (ob_body b) = expected)
  | None => true
  end.

Definition restore_thread (tenant_id thread_id : string) (region request_id : option string) : archiving restore_result :=
  thread ← in_db (get_thread tenant_id thread_id);
  match thread with
  | None => throw (ThreadMissing thread_id)
  | Some t =>
      if negb (archived t) then mret AlreadyRestored
      else
        key ← key_or_raise tenant_id thread_id region;
        b ← download_file key;
        if negb (verified b) then throw ChecksumMismatch
        else
          match parse (ob_body b) with
          | Some p =>
              if negb (bool_decide (ps_thread p = thread_id)) then throw PayloadMismatch
              else
                event ← in_db (set_archived tenant_id thread_id false request_id);
                mret (Restored key (ps_messages p) (ps_events p) (sha256 (ob_body b)) event)
          | None => throw PayloadMismatch
          end
  end.

(** The sweep of a tenant: a failure is recorded. *)
Record sweep := { sw_archived : list archive_result; sw_failed : list string }.

Fixpoint archive_each (tenant_id : string) (region request_id : option string) (l : list ThreadModel) (acc : sweep) :
    archiving sweep :=
  match l with
  | [] => mret acc
  | t :: l =>
      acc ← try_catch (r ← archive_thread tenant_id (t_id t) region request_id;
                       mret {| sw_archived := sw_archived acc ++ [r]; sw_failed := sw_failed acc |})
                      (fun _ => mret {| sw_archived := sw_archived acc; sw_failed := sw_failed acc ++ [t_id t] |});
      archive_each tenant_id region request_id l acc
  end.

Definition archive_tenant_window (tenant_id : string) (older_than_days limit : Z) (region request_id : option string) :
    archiving sweep :=
  candidates ← in_db (list_threads_archivable tenant_id older_than_days limit);
  archive_each tenant_id region request_id candidates {| sw_archived := []; sw_failed := [] |}.

(** ** The jobs *)

Definition required (payload : list (string * option string)) (k : string) : option string :=
  match dict_get k payload with Some (Some s) => if truthy s then Some s else None | _ => None end.

Definition given (payload : list (string * option string)) (k : string) : option string := default None (dict_get k payload).

Definition handle_thread_archive (payload : list (string * option string)) : archiving unit :=
  match required payload "tenant_id", required payload "thread_id" with
  | Some t, Some th => _ ← archive_thread t th (given payload "region") (given payload "request_id"); mret tt
  | _, _ => throw MissingArguments
  end.

Definition handle_thread_restore (payload : list (string * option string)) : archiving unit :=
  match required payload "tenant_id", required payload "thread_id" with
  | Some t, Some th => _ ← restore_thread t th (given payload "region") (given payload "request_id"); mret tt
  | _, _ => throw MissingArguments
  end.

(** The threads of one tenant in a retention run: the row's region and its
    window, ninety days unless it names one; a failure is logged. *)
Definition retain_threads (tenant_id : string) (row : option (option string * option Z)) : archiving Z :=
  let window := match row with Some (_, Some d) => if d =? 0 then 90 else d | _ => 90 end in
  let region := match row with Some (r, _) => Some <$> resolve_region r | None => Some None end in
  match region with
  | None => mret 0
  | Some region =>
      try_catch (s ← archive_tenant_window tenant_id window 100 region (Some ("retention:" +:+ tenant_id));
                 mret (Z.of_nat (length (sw_archived s))))
                (fun _ => mret 0)
  end.
End service.
