(* ===== verification/ArchiveProps.v ===== *)
(** * Archives: what the definitions of Archive.v do

    The keys of two threads differ, a thread is marked only when its copy is
    stored, and every archived thread keeps a copy a restore accepts. *)

From S2P Require Import Prelude Text Json Replicas Threads ThreadLog ThreadProps Compaction Archive.

(** ** Keys *)

(** Text a path separator does not occur in. *)
Definition plain (s : string) : Prop := all_chars (isnt "/"%char) s = true.

Lemma resolved_supported r x : resolve_region r = Some x -> x ∈ SUPPORTED_REGIONS.
Proof.
  destruct r as [q|]; cbn [resolve_region]; [case_bool_decide as Hq; [|done]; by intros [= <-]|intros [= <-]; by left].
Qed.

Lemma supported_plain x : x ∈ SUPPORTED_REGIONS -> plain x.
Proof. unfold SUPPORTED_REGIONS. set_solver. Qed.

Lemma archive_key_inj t t' th th' r r' k :
  plain t -> plain t' -> archive_key t th r = Some k -> archive_key t' th' r' = Some k ->
  t = t' /\ th = th' /\ resolve_region r = resolve_region r'.
Proof.
  intros Ht Ht'. unfold archive_key, archive_prefix. pose proof (resolved_supported r) as Hr. pose proof (resolved_supported r') as Hr'.
  destruct (resolve_region r) as [x|]; [|done]. destruct (resolve_region r') as [x'|]; [|done].
  specialize (Hr x eq_refl). specialize (Hr' x' eq_refl). cbn. intros [= <-] [= E].
  rewrite !string_app_assoc, !string_app_cons, !string_app_nil in E.
  apply (f_equal (split_once "/"%char)) in E. rewrite !split_once_app in E by done. injection E as E1 E2.
  rewrite ?string_app_cons, ?string_app_nil in E2.
  apply (f_equal (split_once "/"%char)) in E2. rewrite !split_once_app in E2 by (by apply supported_plain).
  injection E2 as E2 E3. destruct (string_app_inv_length _ _ _ _ E3 eq_refl) as [-> _]. by subst.
Qed.

(** ** Copies *)

Section service.
Context (sha256 : string -> string) (serialize : thread_dump -> string) (parse : string -> option payload_summary).
(** A dump that was written is read back. *)
Context (parse_serialize : forall d, parse (serialize d) = Some {|
  ps_thread := t_id (du_thread d); ps_messages := Z.of_nat (length (du_messages d)); ps_events := Z.of_nat (length (du_events d)) |}).

Abbreviation archive_thread := (archive_thread sha256 serialize).
Abbreviation restore_thread := (restore_thread sha256 parse).

(** A copy of a thread a restore accepts. *)
Definition copy_at (o : storage) (tn th : string) (region : option string) : Prop :=
  exists key b p, archive_key tn th region = Some key /\ dict_get key (objects o) = Some b
    /\ verified sha256 b = true /\ parse (ob_body b) = Some p /\ ps_thread p = th.

(** Every archived thread has one. *)
Record cold (s : archive_world) : Prop := {
  cd_plain : forall t, t ∈ threads (db (ar_world s)) -> plain (t_tenant_id t);
  cd_copies : forall t, t ∈ threads (db (ar_world s)) -> archived t = true -> exists r, copy_at (ar_storage s) (t_tenant_id t) (t_id t) r;
}.

(** Threads of [w'] are threads of [w] under the same keys, and archived only
    if they were. *)
Definition archived_from (w w' : world) : Prop :=
  forall t', t' ∈ threads (db w') -> plain (t_tenant_id t')
    /\ (archived t' = true -> exists t, t ∈ threads (db w) /\ t_id t = t_id t' /\ t_tenant_id t = t_tenant_id t' /\ archived t = true).

Lemma cold_store s w' : archived_from (ar_world s) w' -> cold s -> cold (with_store w' s).
Proof.
  intros Hf [Hp Hc]. split; cbn.
  - intros t Ht. by apply Hf.
  - intros t' Ht Ha. destruct (Hf t' Ht) as [_ H]. destruct (H Ha) as (t & Hin & H1 & H2 & H3). rewrite <- H1, <- H2. by apply Hc.
Qed.

Lemma same_db_archived_from s w' : cold s -> db w' = db (ar_world s) -> archived_from (ar_world s) w'.
Proof. intros [Hp _] E t. rewrite E. intros Ht. split; [by apply Hp|]. intros Ha. by exists t. Qed.

Lemma cold_same s w' : cold s -> db w' = db (ar_world s) -> cold (with_store w' s).
Proof. intros Hc E. apply cold_store; [|done]. by apply same_db_archived_from. Qed.

Lemma cold_objects s o : cold s -> (forall tn th r, plain tn -> copy_at (ar_storage s) tn th r -> copy_at o tn th r) -> cold (with_storage o s).
Proof.
  intros [Hp Hc] Ho. split; cbn; [done|]. intros t Ht Ha. destruct (Hc t Ht Ha) as [r Hr]. exists r. apply Ho; [by apply Hp|done].
Qed.

(** A valid copy of one thread leaves the copies of the others. *)
Lemma copies_kept o key b tn th r p : plain tn -> archive_key tn th r = Some key -> verified sha256 b = true ->
  parse (ob_body b) = Some p -> ps_thread p = th ->
  forall tn' th' r' o', plain tn' -> objects o' = dict_set key b (objects o) -> copy_at o tn' th' r' -> copy_at o' tn' th' r'.
Proof.
  intros Hpl Hk Hv Hps Hth tn' th' r' o' Hpl' Ho (key' & b' & p' & Hk' & Hb & Hv' & Hps' & Hth').
  destruct (decide (key' = key)) as [->|Hne].
  - destruct (archive_key_inj tn tn' th th' r r' key Hpl Hpl' Hk Hk') as (<- & <- & _).
    exists key, b, p. rewrite Ho, dict_get_set, decide_True by done. done.
  - exists key', b', p'. rewrite Ho, dict_get_set, decide_False by done. done.
Qed.

(** ** Marks *)

Lemma set_archived_ret tn th b q w e w' : set_archived tn th b q w = (Ret e, w') ->
  exists at_, threads (db w') = map (fun t => if is_thread tn th t then set_archived_field b at_ t else t) (threads (db w)).
Proof.
  intros (row & w1 & (-> & _ & Hsel)%lock_ret & H)%session_ret%bind_ret. exists (now w).
  apply bind_ret in H as (w1 & ? & [= <- <-] & H). apply bind_ret in H as (u & w1 & [= _ <-] & H).
  apply bind_ret in H as (next & ? & [= <- <-] & H). apply bind_ret in H as (ev & w2 & ((He & _) & _)%add_event_ret & H).
  apply bind_ret in H as (u'' & w3 & [= _ <-] & [= <- <-]). cbn [db with_router]. by rewrite He.
Qed.

(** A mark only archives a thread that has a copy. *)
Lemma cold_mark s tn th b q : cold s -> (b = true -> exists r, copy_at (ar_storage s) tn th r) ->
  cold (with_store (set_archived tn th b q (ar_world s)).2 s).
Proof.
  intros Hc Hcopy. destruct (set_archived tn th b q (ar_world s)) as [[e|x] w'] eqn:E; cbn [snd].
  2:{ apply cold_same; [done|]. by eapply session_raise. }
  apply set_archived_ret in E as [at_ E]. destruct Hc as [Hp Hcs]. split; cbn; rewrite E.
  - intros t (t0 & -> & Ht)%list_elem_of_fmap. specialize (Hp t0 Ht). by destruct (is_thread tn th t0).
  - intros t (t0 & -> & Ht)%list_elem_of_fmap Ha. destruct (is_thread tn th t0) eqn:Et; [|by apply Hcs].
    unfold is_thread in Et. apply andb_true_iff in Et as [Ei%bool_decide_eq_true En%bool_decide_eq_true].
    cbn in *. rewrite Ei, En. by apply Hcopy.
Qed.

Abbreviation keeps_cold c := (triple cold c (fun _ => cold) (fun _ => cold)).

Lemma in_db_cold {A} (c : store A) `{!Respects quiet c} : keeps_cold (in_db c).
Proof.
  intros s Hs. pose proof (respects (R := quiet) (c := c) (ar_world s)) as [Hq _]. unfold in_db, lift.
  destruct (c (ar_world s)) as [[a|e] w]; by apply cold_same.
Qed.

Lemma attempt_objects o b o' : Archive.attempt o = (b, o') -> objects o' = objects o /\ remote o' = remote o.
Proof. unfold Archive.attempt. destruct (outages o); by intros [= <- <-]. Qed.

#[export] Instance dump_thread_quiet t th : Respects quiet (dump_thread t th).
Proof. unfold dump_thread. apply _. Qed.

Lemma read_session_value {A} keys (f : database -> A) w a w' : _read_session keys f w = (Ret a, w') -> exists d, a = f d.
Proof.
  unfold _read_session, get_read_session. destruct (read_route _ _ _) as [[|e|] r]; [| |done].
  - intros [= <- _]. by eexists.
  - destruct (default None (replica_dbs w !! e)) as [d|]; [|done]. cbn. intros [= <- _]. by eexists.
Qed.

Lemma dumped_thread tn th w d w' : dump_thread tn th w = (Ret (Some d), w') -> t_id (du_thread d) = th.
Proof.
  intros [db0 E]%read_session_value. unfold select_thread in E.
  destruct (List.filter (is_thread tn th) (threads db0)) as [|t0 l] eqn:Ef; [done|]. injection E as ->. cbn.
  assert (Hin : In t0 (List.filter (is_thread tn th) (threads db0))) by (rewrite Ef; by left).
  apply List.filter_In in Hin as [_ Hin]. unfold is_thread in Hin. apply andb_true_iff in Hin as [H1 H2].
  apply bool_decide_eq_true in H1, H2. congruence.
Qed.

(** Archiving a thread keeps every archived thread restorable, however it
    ends: a thread is marked archived only once its copy is stored, under a
    key no other thread uses. *)
Lemma archive_cold tn th region q : plain tn -> keeps_cold (archive_thread tn th region q).
Proof.
  intros Hpl. unfold Archive.archive_thread. eapply triple_bind; [apply (in_db_cold (get_thread tn th))|].
  intros [t|]; [|by apply triple_throw]. destruct (archived t).
  { unfold key_or_raise. destruct (archive_key _ _ _); [by apply triple_ret|by apply triple_throw]. }
  apply (triple_bind _ _ _ _ (fun o s => cold s /\ forall d, o = Some d -> t_id (du_thread d) = th)).
  { intros s Hs. pose proof (in_db_cold (dump_thread tn th) s Hs) as Hq. unfold in_db, lift in *.
    destruct (dump_thread tn th (ar_world s)) as [[o|e] w] eqn:E; [|done]. split; [done|]. intros d ->. by eapply dumped_thread. }
  intros [d|]; [|by apply triple_throw; intros s [? _]]. unfold key_or_raise.
  destruct (archive_key tn th region) as [key|] eqn:Ek; [|by intros s [? _]].
  apply (triple_bind _ _ _ _ (fun k s => k = key /\ cold s /\ t_id (du_thread d) = th)).
  { apply triple_ret. intros s [Hs Hd]. split_and!; [done|done|by apply Hd]. }
  intros key'.
  apply (triple_bind _ _ _ _ (fun _ s => cold s /\ copy_at (ar_storage s) tn th region)).
  { intros s (-> & Hs & Hd). unfold upload_file. destruct (Archive.attempt (ar_storage s)) as [b o] eqn:E.
    destruct (attempt_objects _ _ _ E) as [Ho Hr].
    assert (Hsame : cold (with_storage o s)).
    { apply cold_objects; [done|]. intros tn' th' r' _ (k & b' & p & H1 & H2 & H). exists k, b', p. by rewrite Ho. }
    destruct b; [exact Hsame|]. set (md := [("tenant_id", tn); ("thread_id", th); ("checksum_sha256", sha256 (serialize d));
      ("region", default EmptyString region)]).
    pose (bd := {| ob_body := serialize d; ob_metadata := if remote o then md else [] |}).
    assert (Hv : verified sha256 bd = true).
    { unfold verified, bd. cbn [ob_metadata ob_body]. destruct (remote o); [|done].
      assert (dict_get "checksum_sha256" md = Some (sha256 (serialize d))) as -> by done. by rewrite bool_decide_true, orb_true_r. }
    pose proof (parse_serialize d) as Hp. split.
    - change (cold (with_storage (put_object key (serialize d) md o) (with_storage o s))).
      apply cold_objects; [exact Hsame|]. intros tn' th' r' Hpl'.
      by apply (copies_kept o key bd tn th region _ Hpl Ek Hv Hp Hd).
    - exists key, bd. eexists. cbn. by rewrite dict_get_set, decide_True. }
  intros _. apply (triple_bind _ _ _ _ (fun _ => cold)); [|by intros e; apply triple_ret].
  intros s [Hs Hcopy]. pose proof (cold_mark s tn th true q Hs (fun _ => ex_intro _ region Hcopy)) as Hm. unfold in_db, lift.
  by destruct (set_archived tn th true q (ar_world s)) as [[e|x] w].
Qed.

Lemma set_archived_cold tn th b q : triple (fun s => cold s /\ (b = true -> exists r, copy_at (ar_storage s) tn th r))
  (in_db (set_archived tn th b q)) (fun _ => cold) (fun _ => cold).
Proof.
  intros s [Hs Hcopy]. pose proof (cold_mark s tn th b q Hs Hcopy) as Hm. unfold in_db, lift.
  by destruct (set_archived tn th b q (ar_world s)) as [[e|x] w].
Qed.

Lemma download_cold key : keeps_cold (download_file key).
Proof.
  intros s Hs. unfold download_file. destruct (Archive.attempt (ar_storage s)) as [b o] eqn:E.
  destruct (attempt_objects _ _ _ E) as [Ho _]. assert (cold (with_storage o s)).
  { apply cold_objects; [done|]. intros tn th r _ (k & b' & p & H1 & H2 & H). exists k, b', p. by rewrite Ho. }
  destruct b; [done|]. by destruct (dict_get key (objects o)).
Qed.

Lemma restore_cold tn th region q : keeps_cold (restore_thread tn th region q).
Proof.
  unfold Archive.restore_thread. eapply triple_bind; [apply (in_db_cold (get_thread tn th))|].
  intros [t|]; [|by apply triple_throw]. destruct (negb (archived t)); [by apply triple_ret|].
  eapply (triple_bind _ _ _ _ (fun _ => cold)); [unfold key_or_raise; destruct (archive_key _ _ _); [by apply triple_ret|by apply triple_throw]|].
  intros key. eapply triple_bind; [apply download_cold|]. intros b. destruct (negb (verified sha256 b)); [by apply triple_throw|].
  destruct (parse (ob_body b)) as [p|]; [|by apply triple_throw]. destruct (negb _); [by apply triple_throw|].
  eapply (triple_bind _ _ _ _ (fun _ => cold)); [|by intros e; apply triple_ret].
  eapply triple_conseq; [apply (set_archived_cold tn th false q)| |done|done]. intros s Hs. by split.
Qed.

#[export] Instance archivable_quiet t d l : Respects quiet (list_threads_archivable t d l).
Proof. unfold list_threads_archivable. apply _. Qed.

Lemma archive_each_cold tn region q l : plain tn -> forall acc, keeps_cold (archive_each sha256 serialize tn region q l acc).
Proof.
  intros Hpl. induction l as [|t l IH]; intros acc; cbn [archive_each]; [by apply triple_ret|].
  eapply triple_bind; [|intros a; apply IH].
  apply (triple_try _ _ _ _ (fun _ => cold)); [|by intros e; apply triple_ret].
  eapply triple_bind; [by apply archive_cold|]. intros r. by apply triple_ret.
Qed.

Lemma sweep_cold tn days limit region q : plain tn -> keeps_cold (archive_tenant_window sha256 serialize tn days limit region q).
Proof.
  intros Hpl. unfold archive_tenant_window. eapply triple_bind; [apply (in_db_cold (list_threads_archivable tn days limit))|].
  intros l. by apply archive_each_cold.
Qed.

Lemma cold_after {A} (c : archiving A) s : keeps_cold c -> cold s -> cold (c s).2.
Proof. intros H Hs. specialize (H s Hs). by destruct (c s) as [[a|e] s']. Qed.

(** A restore from the region the copy is in meets no missing, altered or
    foreign copy. *)
Definition copy_refused {A} (o : outcome archive_exc A) : bool :=
  match o with
  | Raise (FileNotFound _) | Raise ChecksumMismatch | Raise PayloadMismatch | Raise UnsupportedRegion => true
  | _ => false
  end.

Lemma restore_accepts tn th r q s : copy_at (ar_storage s) tn th r -> outages (ar_storage s) = [] ->
  copy_refused (restore_thread tn th r q s).1 = false.
Proof.
  intros (key & b & p & Hk & Hb & Hv & Hps & Hth) Ho. unfold Archive.restore_thread, key_or_raise. rewrite Hk.
  unfold in_db, lift, mbind, io_bind. destruct (get_thread tn th (ar_world s)) as [[[t|]|e] w]; [|reflexivity|reflexivity].
  cbv beta iota. destruct (negb (archived t)); [reflexivity|].
  unfold download_file, Archive.attempt. unfold mret, io_ret. cbv beta iota. change (ar_storage (with_store w s)) with (ar_storage s).
  rewrite Ho. cbv beta iota. rewrite Hb. cbv beta iota.
  rewrite Hv. cbn [negb]. rewrite Hps, (bool_decide_eq_true_2 _ Hth). cbn [negb]. cbv beta.
  change (ar_world (with_storage (ar_storage s) (with_store w s))) with w. by destruct (set_archived tn th false q w) as [[e|x] w'].
Qed.

(** Every archived thread can be restored: archiving, restoring and the sweep
    keep, however they end, a copy of each archived thread under its own key,
    and the restore from that region is refused by no check of the copy. *)
Theorem archived_restorable :
  (forall tn th region q, plain tn -> keeps_cold (archive_thread tn th region q))
  /\ (forall tn th region q, keeps_cold (restore_thread tn th region q))
  /\ (forall tn days limit region q, plain tn -> keeps_cold (archive_tenant_window sha256 serialize tn days limit region q))
  /\ forall s t q, cold s -> t ∈ threads (db (ar_world s)) -> archived t = true -> outages (ar_storage s) = [] ->
       exists region, copy_refused (restore_thread (t_tenant_id t) (t_id t) region q s).1 = false.
Proof.
  split_and!; [intros; by apply archive_cold|intros; by apply restore_cold|intros; by apply sweep_cold|].
  intros s t q [_ Hc] Ht Ha Ho. destruct (Hc t Ht Ha) as [r Hr]. exists r. by apply restore_accepts.
Qed.
End service.

(** ** Concrete runs

    A dump is written as its two counts in unary and its thread; the digest is
    the text itself. *)

Module ArchiveSample.
Definition unary (n : nat) : string := string_of_list_ascii (repeat "i"%char n).

Definition code (d : thread_dump) : string :=
  unary (length (du_messages d)) +:+ String "/" (unary (length (du_events d)) +:+ String "/" (t_id (du_thread d))).

Definition decode (b : string) : option payload_summary :=
  '(m, r) ← split_once "/"%char b;
  '(e, th) ← split_once "/"%char r;
  mret {| ps_thread := th; ps_messages := Z.of_nat (String.length m); ps_events := Z.of_nat (String.length e) |}.

Lemma unary_plain n : plain (unary n).
Proof. unfold plain, unary. induction n as [|n IH]; [done|]. cbn in *. done. Qed.

Lemma unary_length n : String.length (unary n) = n.
Proof. unfold unary. induction n as [|n IH]; [done|]. cbn. by rewrite IH. Qed.

Lemma decode_code d : decode (code d) = Some {|
  ps_thread := t_id (du_thread d); ps_messages := Z.of_nat (length (du_messages d)); ps_events := Z.of_nat (length (du_events d)) |}.
Proof.
  unfold decode, code. rewrite split_once_app by apply unary_plain. cbn. rewrite split_once_app by apply unary_plain. cbn.
  by rewrite !unary_length.
Qed.

Definition body : string -> string := fun b => b.

Definition fresh (is_remote : bool) : archive_world := {|
  ar_world := CompactionSample.w5; ar_storage := {| objects := []; remote := is_remote; outages := [] |} |}.

Definition archived_in (region : option string) (is_remote : bool) : archive_world :=
  (archive_thread body code "t1" "u0" region None (fresh is_remote)).2.

(** A sweep puts the copy in the tenant's region; a restore job that names no
    region looks in the default one and finds nothing. *)
Example restore_elsewhere :
  (handle_thread_restore body decode [("tenant_id", Some "t1"); ("thread_id", Some "u0")]%string (archived_in (Some "us-east-1") true)).1
    = Raise (FileNotFound "tenant/t1/archive/eu-west-1/threads/u0.json").
Proof. vm_compute. reflexivity. Qed.

(** The copy of a local directory that lost its messages is restored: no
    checksum is kept beside it. *)
Definition damage (s : archive_world) : archive_world := with_storage
  {| objects := map (fun kb => (kb.1, {| ob_body := "//u0"; ob_metadata := ob_metadata kb.2 |})) (objects (ar_storage s));
     remote := remote (ar_storage s); outages := [] |} s.

Example local_damage_restored :
  (match (restore_thread body decode "t1" "u0" None None (damage (archived_in None false))).1 with
   | Ret (Restored _ n m _ _) => Some (n, m) | _ => None end, 
   match (restore_thread body decode "t1" "u0" None None (damage (archived_in None true))).1 with
   | Raise ChecksumMismatch => true | _ => false end) = (Some (0, 0), true).
Proof. vm_compute. reflexivity. Qed.

Lemma fresh_cold b : cold body decode (fresh b).
Proof.
  assert (H : forallb (fun t => all_chars (isnt "/"%char) (t_tenant_id t) && negb (archived t)) (threads (db (ar_world (fresh b)))) = true)
    by (vm_compute; reflexivity).
  split; intros t Ht%list_elem_of_In; apply (proj1 (forallb_forall _ _) H) in Ht as [Hp Ha]%andb_true_iff; [exact Hp|].
  intros Hb. by rewrite Hb in Ha.
Qed.

Lemma archived_restorable_witness :
  cold body decode (archived_in (Some "us-east-1") true)
  /\ exists t region, t ∈ threads (db (ar_world (archived_in (Some "us-east-1") true))) /\ archived t = true
       /\ copy_refused (restore_thread body decode (t_tenant_id t) (t_id t) region None (archived_in (Some "us-east-1") true)).1 = false.
Proof.
  destruct (archived_restorable body code decode decode_code) as (Ha & _ & _ & Hr).
  assert (Hc : cold body decode (archived_in (Some "us-east-1") true)).
  { apply (cold_after _ _ _ _ (Ha "t1" "u0" (Some "us-east-1") None eq_refl)), fresh_cold. }
  split; [exact Hc|].
  destruct (threads (db (ar_world (archived_in (Some "us-east-1") true)))) as [|t l] eqn:E; [by vm_compute in E|].
  assert (Ht : t ∈ threads (db (ar_world (archived_in (Some "us-east-1") true)))) by (rewrite E; by left).
  assert (Har : archived t = true).
  { assert (forallb archived (threads (db (ar_world (archived_in (Some "us-east-1") true)))) = true) as H by (vm_compute; reflexivity).
    rewrite E in H. cbn in H. by apply andb_true_iff in H as [H _]. }
  destruct (Hr _ t None Hc Ht Har eq_refl) as [region Hx].
  exists t, region. split; [left|split; [exact Har|exact Hx]].
Defined.
End ArchiveSample.
