(* ===== verification/ConversationRoute.v ===== *)
(** * The conversation endpoint (backend/app/api/routes/conversations.py)

    One message of a client: the tenant, its limits and policies, the durable
    user turn, the input guardrails, the wiring of the turn, the thread's lease
    and the admission slot around it, and what is stored and answered.  The
    coordinator, the admission gate and the cache manager, with the idempotency
    keys and the cost ceilings it keeps, are the components of their files; the
    repositories and services the route calls work on a state of their own, so
    they are a record of effects over it.  Tracing and log lines are left out.
    The streamed endpoint is in ConversationStream.v. *)

From S2P Require Import Prelude Json Resilience CacheManager Redis Coordinator Admission Threads Summarizer Compaction ModelCatalog Catalog Types Context Tenant Governance Moderation Orchestration.

(** ** Requests and answers *)

Record ConversationRequest := { cr_tenant_slug : string; cr_message : string; cr_session_id : option string }.

Record ConversationPrincipal := {
  cp_tenant_id : option string;
  cp_end_user_id : option string;
  cp_is_session : bool;
  cp_surface_id : option string;
}.

Record ConversationResponse := {
  rs_response : string;
  rs_confidence : Q;
  rs_handoff_required : bool;
  rs_session_id : string;
  rs_citations : list citation;
  rs_faithfulness : option FaithfulnessResult;
  rs_thread_id : option string;
}.

(** A fresh answer, or a stored status and body as they were stored. *)
Inductive reply :=
| Fresh (r : ConversationResponse)
| Replayed (status body : json).

(** What leaves the route: an HTTP error it chose, or an exception. *)
Inductive route_exc :=
| Http (status : Z) (detail : string)
| Crash (e : run_exc).

Record conversation := { cv_id : string; cv_status : string; cv_created : bool }.

Record input_check := { ic_valid : bool; ic_blocked : bool; ic_violations : list json }.

(** A row of [conversation_repo.add_message]. *)
Record projected_message := {
  pj_conversation : string;
  pj_role : string;
  pj_content : string;
  pj_redacted : option string;
  pj_metadata : list (string * json);
}.

Inductive webhook_event :=
| ConversationCreated (session conversation : string)
| ConversationCompleted (session : string) (streamed handoff : bool) (conf : Q)
| EscalationRaised (session conversation : string)
| EvalFailed (session conversation error : string)
| GuardrailBlocked (session : string) (violations : list json)
| ContentModerated (session reason : string) (violations : list json).

Record canary_outcome := { co_error : bool; co_blocked : bool }.

(** Background jobs the turn schedules. *)
Inductive job_request := ToolClear (thread : string) | MemoryExtract (thread : string) | SummaryRefresh (thread : string).

(** ** The services *)

Section services.
Context (R : Type).
Abbreviation effect := (io R turn_exc).

Record services := {
  sv_uuid : effect string;
  (* tenant, limits, policies *)
  sv_tenant : string -> effect (option string);
  sv_effective : string -> string -> effect TenantConfig;
  sv_rate_limit : list string -> effect unit;
  sv_policy : string -> effect (option PolicySet);
  sv_create_policy : string -> effect unit;
  (* the rows of model_catalog *)
  sv_models : effect (list ModelEntry);
  (* conversations and threads *)
  sv_conversation : string -> string -> effect conversation;
  sv_surfaces : effect (list Surface);
  sv_thread : string -> string -> option string -> option string -> effect string;
  sv_append : string -> string -> append_args -> effect string;
  sv_add_message : projected_message -> effect unit;
  sv_mark_escalated : string -> effect unit;
  sv_read_tail : string -> string -> Z -> effect (list MessageModel);
  sv_tool_result_seqs : string -> string -> effect (list Z);
  sv_cached_summary : string -> string -> effect (option json);
  sv_get_thread : string -> string -> effect (option ThreadModel);
  sv_cache_tail : string -> string -> list MessageModel -> option json -> effect unit;
  (* guardrails; [None] when Presidio is off *)
  sv_presidio : option (effect (option string) * (string -> effect string));
  sv_validate_input : TenantConfig -> string -> string -> string -> effect input_check;
  sv_evaluate_output : TenantConfig -> string -> string -> string -> effect output_check;
  (* what the turn calls *)
  sv_generate : GatewayCfg -> GatewayRequest -> effect GatewayResult;
  sv_stream : GatewayCfg -> streamer R;
  sv_retrieve : option (string -> effect (list retrieved * option string));
  sv_facts : string -> option string -> string -> effect (list string);
  sv_tools : effect (list ToolRow);
  sv_registry : string -> effect (registry_hooks R);
  sv_close_registry : effect unit;
  sv_escalate : handoff_request -> effect handoff_result;
  sv_evidence : EvidencePacket -> effect unit;
  sv_decision : decision_record -> effect unit;
  sv_spend : string -> string -> Q -> effect unit;
  sv_prompt : string -> string -> effect (option string);
  sv_compact : string -> string -> effect compact_result;
  (* best-effort notifications *)
  sv_publish : webhook_event -> effect unit;
  sv_enqueue : job_request -> effect bool;
  sv_canary : string -> string -> canary_outcome -> effect unit;
}.
End services.

Arguments sv_uuid {R}. Arguments sv_models {R}. Arguments sv_tenant {R}.
Arguments sv_effective {R}. Arguments sv_rate_limit {R}. Arguments sv_policy {R}. Arguments sv_create_policy {R}.
Arguments sv_conversation {R}.
Arguments sv_surfaces {R}. Arguments sv_thread {R}. Arguments sv_append {R}. Arguments sv_add_message {R}.
Arguments sv_mark_escalated {R}. Arguments sv_read_tail {R}. Arguments sv_tool_result_seqs {R}.
Arguments sv_cached_summary {R}. Arguments sv_get_thread {R}. Arguments sv_cache_tail {R}. Arguments sv_presidio {R}.
Arguments sv_validate_input {R}. Arguments sv_evaluate_output {R}. Arguments sv_generate {R}. Arguments sv_stream {R}.
Arguments sv_retrieve {R}. Arguments sv_facts {R}. Arguments sv_tools {R}. Arguments sv_registry {R}.
Arguments sv_close_registry {R}. Arguments sv_escalate {R}. Arguments sv_evidence {R}. Arguments sv_decision {R}.
Arguments sv_spend {R}. Arguments sv_prompt {R}. Arguments sv_compact {R}. Arguments sv_publish {R}.
Arguments sv_enqueue {R}. Arguments sv_canary {R}.

(** The settings of the process, and what the code takes from Python. *)
Record settings := {
  st_estimator : TokenEstimator;
  st_catalog : ModelCatalog;
  st_output_reserve : Z;
  st_cache_markers : bool;
  st_compaction : CompactionConfig;
  st_platform_usd : Q;
  st_tenant_usd : Q;
  st_violation : stored_config -> option string;
  st_hash : stored_config -> string;
  st_digest : string -> string;
  st_exc_text : turn_exc -> string;
  st_repr : json -> string;
  st_loads : string -> option json;
  st_float_text : Q -> string;
  st_schedule : AgentState -> list nat;
  st_polls : list Z;
  st_now : Z;
  (* the cache manager, and the instant an answer is stored under its key *)
  st_cache : CacheConfig;
  st_stored : Z;
}.

(** ** The world of a request *)

Section route.
Context {SC SG SD R : Type} `{KC : RedisKV SC string} `{HG : RedisKV SG Z} `{KG : !RedisCounter SG} `{KD : RedisKV SD CacheManager.cached}.
Context (co_cfg : CoordinatorConfig) (adm_cfg : AdmissionConfig) (cfg : settings) (sv : services R).

Record world := {
  w_coordinator : @ThreadCoordinator SC;
  w_gate : @ConcurrencyGate SG;
  w_cache : CacheManager SD;
  w_rest : R;
}.

Abbreviation route := (io world route_exc).
Abbreviation effect := (io R turn_exc).

Definition put_coordinator (c : @ThreadCoordinator SC) (w : world) : world :=
  {| w_coordinator := c; w_gate := w_gate w; w_cache := w_cache w; w_rest := w_rest w |}.
Definition put_gate (g : @ConcurrencyGate SG) (w : world) : world :=
  {| w_coordinator := w_coordinator w; w_gate := g; w_cache := w_cache w; w_rest := w_rest w |}.
Definition put_rest (r : R) (w : world) : world :=
  {| w_coordinator := w_coordinator w; w_gate := w_gate w; w_cache := w_cache w; w_rest := r |}.
Definition put_cache (m : CacheManager SD) (w : world) : world :=
  {| w_coordinator := w_coordinator w; w_gate := w_gate w; w_cache := m; w_rest := w_rest w |}.

(** A call of a service. *)
Definition rest {A} (c : effect A) : route A := lift w_rest put_rest (fun e => Crash (TRaised e)) c.

(** A call of the cache manager; what it raises becomes an error of the route. *)
Definition on_cache {E A} (f : E -> route_exc) (c : io (CacheManager SD) E A) : route A := lift w_cache put_cache f c.

Definition http {A} (status : Z) (detail : string) : route A := throw (Http status detail).

(** [try: c  finally: f]; what [f] raises replaces the outcome. *)
Definition finally {S X A} (c : io S X A) (f : io S X unit) : io S X A := fun s =>
  let '(r, s) := c s in
  match f s with
  | (Ret _, s) => (r, s)
  | (Raise x, s) => (Raise x, s)
  end.

(** A call whose failure is logged and dropped. *)
Definition best_effort {A} (c : effect A) : effect unit := try_catch (_ ← c; mret tt) (fun _ => mret tt).

Definition _publish_webhook_event (e : webhook_event) : effect unit := best_effort (sv_publish sv e).
Definition _record_canary_outcome (tenant key : string) (error blocked : bool) : effect unit :=
  best_effort (sv_canary sv tenant key {| co_error := error; co_blocked := blocked |}).

(** ** The steps both endpoints share *)

Definition or_uuid (o : option string) : effect string :=
  if truthy_opt o then mret (default EmptyString o) else sv_uuid sv.

(** [principal.end_user_id or session_id] *)
Definition request_key (p : ConversationPrincipal) (session : string) : string :=
  if truthy_opt (cp_end_user_id p) then default EmptyString (cp_end_user_id p) else session.

Definition _assert_conversation_tenant (p : ConversationPrincipal) (c : TenantConfig) : route unit :=
  if truthy_opt (cp_tenant_id p) && negb (bool_decide (cp_tenant_id p = Some (tc_id c)))
  then http 403 "principal is scoped to a different tenant" else mret tt.

(** The tenant of the request, its configuration, and the limits it shares. *)
Definition _load_tenant (req : ConversationRequest) (p : ConversationPrincipal) (session : string) :
    route TenantConfig :=
  row ← rest (sv_tenant sv (cr_tenant_slug req));
  match row with
  | None => http 404 ("Tenant not found: " +:+ cr_tenant_slug req)
  | Some row =>
      c ← rest (sv_effective sv row (request_key p session));
      _ ← _assert_conversation_tenant p c;
      _ ← rest (sv_rate_limit sv ["tenant:" +:+ tc_id c;
                                  "model:" +:+ default_provider c +:+ ":" +:+ default_model c]);
      mret c
  end.

Definition _load_or_create_policy_set (c : TenantConfig) : effect PolicySet :=
  row ← sv_policy sv (tc_id c);
  match row with
  | Some ps => mret ps
  | None =>
      _ ← sv_create_policy sv (tc_id c);
      mret {| ps_tenant_id := Some (tc_id c); ps_name := "default"; rules := []; ps_version := 1 |}
  end.

Definition paused_detail : string :=
  "Conversation is paused (human-in-the-loop hold); resume it before sending new messages.".

Definition _open_conversation (c : TenantConfig) (session : string) : route conversation :=
  cv ← rest (sv_conversation sv (tc_id c) session);
  _ ← (if cv_created cv then rest (_publish_webhook_event (ConversationCreated session (cv_id cv))) else mret tt);
  if bool_decide (cv_status cv = "paused") then http 423 paused_detail else mret cv.

(** [None] without a session token. *)
Definition _resolve_request_surface (c : TenantConfig) (p : ConversationPrincipal) : route (option Surface) :=
  if negb (cp_is_session p) then mret None
  else
    t ← rest (sv_surfaces sv);
    match resolve_surface (tc_id c) (cp_surface_id p) t with
    | None => http 403 "No active surface configured for this request"
    | Some s => mret (Some s)
    end.

(** [surface_id or principal.surface_id] *)
Definition bound_surface (s : option Surface) (p : ConversationPrincipal) : option string :=
  match s with
  | Some s => if truthy (sf_id s) then Some (sf_id s) else cp_surface_id p
  | None => cp_surface_id p
  end.

Definition _bind_thread (c : TenantConfig) (conversation : string) (p : ConversationPrincipal)
    (s : option Surface) : effect string :=
  sv_thread sv (tc_id c) conversation (bound_surface s p) (cp_end_user_id p).

(** The text the model may see; Presidio that is not there refuses. *)
Definition _redact (message : string) : route string :=
  match sv_presidio sv with
  | None => mret message
  | Some (service, process) =>
      missing ← rest service;
      match missing with
      | Some e => http 503 e
      | None => rest (process message)
      end
  end.

Definition user_args (message redacted conversation request_id : string) (p : ConversationPrincipal) : append_args := {|
  a_role := "user"; a_content := message; a_redacted_content := Some redacted; a_conversation_id := conversation;
  a_request_id := Some request_id; a_parent_message_id := None; a_surface_id := None;
  a_end_user_id := cp_end_user_id p; a_metadata := None; a_extra_parts := [] |}.

Definition assistant_args (raw redacted conversation parent : string) (metadata : list (string * json)) : append_args := {|
  a_role := "assistant"; a_content := raw; a_redacted_content := Some redacted; a_conversation_id := conversation;
  a_request_id := None; a_parent_message_id := Some parent; a_surface_id := None; a_end_user_id := None;
  a_metadata := Some metadata; a_extra_parts := [] |}.

(** The user's message, in the thread and in the conversation; its id. *)
Definition _record_user_turn (c : TenantConfig) (thread conversation request_id message redacted : string)
    (p : ConversationPrincipal) : effect string :=
  id ← sv_append sv (tc_id c) thread (user_args message redacted conversation request_id p);
  _ ← sv_add_message sv {| pj_conversation := conversation; pj_role := "user"; pj_content := message;
                           pj_redacted := Some redacted; pj_metadata := [] |};
  mret id.

(** [_refresh_hot_tail]: redacted rows only. *)
Definition redacted_row (m : MessageModel) : MessageModel := {|
  m_id := m_id m; m_conversation_id := m_conversation_id m; m_tenant_id := m_tenant_id m;
  m_thread_id := m_thread_id m; m_seq := m_seq m; m_request_id := m_request_id m;
  parent_message_id := parent_message_id m; m_surface_id := m_surface_id m; m_end_user_id := m_end_user_id m;
  Threads.role := Threads.role m; Threads.content := redacted_content m; redacted_content := redacted_content m;
  metadata_json := metadata_json m; m_created_at := m_created_at m |}.
Definition _refresh_hot_tail (tenant thread : string) (summary : option json) : effect unit :=
  best_effort (rows ← sv_read_tail sv tenant thread 10; sv_cache_tail sv tenant thread (map redacted_row rows) summary).

Definition _enqueue (enabled : bool) (j : job_request) : effect bool :=
  if negb enabled then mret false else try_catch (_ ← sv_enqueue sv j; mret true) (fun _ => mret false).
Definition has_feature (c : TenantConfig) (k : string) : bool := default false (features c !! k).
Definition _enqueue_tool_clear (c : TenantConfig) (thread : string) : effect bool :=
  _enqueue (has_feature c "clear_tool_results") (ToolClear thread).
Definition _enqueue_memory_extract (c : TenantConfig) (thread : string) : effect bool :=
  _enqueue (has_feature c "memory") (MemoryExtract thread).

Definition refusal_text : string := "I cannot help with that request.".

Definition blocked_metadata (ic : input_check) : list (string * json) :=
  [("blocked", JBool true); ("violations", JList (ic_violations ic))].

(** The refusal of the guardrails, stored like an answer. *)
Definition _store_refusal (c : TenantConfig) (thread conversation user_turn : string) (ic : input_check) : effect unit :=
  _ ← sv_add_message sv {| pj_conversation := conversation; pj_role := "assistant"; pj_content := refusal_text;
                           pj_redacted := None; pj_metadata := blocked_metadata ic |};
  _ ← sv_append sv (tc_id c) thread (assistant_args refusal_text refusal_text conversation user_turn (blocked_metadata ic));
  _refresh_hot_tail (tc_id c) thread None.

(** ** The model of the turn *)

(** [str(e)] of the catalog's refusals. *)
Definition model_exc_text (e : model_exc) : string :=
  match e with
  | ModelNotAllowed provider model tenant =>
      "model '" +:+ provider +:+ "/" +:+ model +:+ "' is not in tenant '" +:+ tenant +:+ "' catalog"
  | CostCeilingExceeded provider model ceiling used =>
      "cost ceiling exceeded for '" +:+ provider +:+ "/" +:+ model +:+ "': used " +:+ st_float_text cfg used
      +:+ " of " +:+ st_float_text cfg ceiling +:+ " (USD, rolling window)"
  end.

(** [window_seconds] *)
Definition cost_window_seconds : Z := 86400.

Definition _resolve_catalog_model (c : TenantConfig) (message : string) : route (string * option string) :=
  rows ← rest (sv_models sv);
  match resolve_model (tc_id c) (default_provider c) (default_model c) rows with
  | inr e => http 403 (model_exc_text e)
  | inl (provider, model) =>
      rows ← rest (sv_models sv);
      _ ← on_cache (fun e => Http 429 (model_exc_text e))
            (check_cost_ceiling (st_cache cfg) (st_now cfg) (tc_id c) provider model (estimate_tokens [message])
               cost_window_seconds rows);
      mret (provider, if bool_decide (model = default_model c) then None else Some model)
  end.

(** The pin of a surface, after its first colon. *)
Definition pinned_model (s : option Surface) (provider : string) (override : option string) : string * option string :=
  match s with
  | Some s =>
      if truthy_opt (model_pin s) then
        let pin := default EmptyString (model_pin s) in
        match split_once ":" pin with
        | Some (p, m) => (strip p, Some (strip m))
        | None => (provider, Some (strip pin))
        end
      else (provider, override)
  | None => (provider, override)
  end.

(** ** History and summary *)

Definition turn_of_row (tool_seqs : list Z) (m : MessageModel) : ContextTurn := {|
  ct_role := Threads.role m; ct_content := redacted_content m; ct_seq := Some (m_seq m);
  ct_message_id := Some (m_id m); has_tool_payload := bool_decide (m_seq m ∈ tool_seqs); raw_content := None |}.

Definition is_chat_row (m : MessageModel) : bool :=
  bool_decide (Threads.role m ∈ ["user"; "assistant"]) && truthy (redacted_content m).

(** The newest rows but the last, which is taken for the message at hand. *)
Definition _load_history_turns (tenant thread : string) : effect (list ContextTurn) :=
  rows ← sv_read_tail sv tenant thread 201;
  let rows := removelast rows in
  seqs ← sv_tool_result_seqs sv tenant thread;
  mret (map (turn_of_row seqs) (List.filter is_chat_row rows)).

Definition text_field (k : string) (v : json) : option string :=
  match get_field k v with Some (JStr s) => Some s | _ => None end.
Definition layers_of (v : json) : option (list layer) :=
  match get_field "layers" v with
  | Some (JList (_ :: _ as l)) => Some (map (fun x => {| layer_content := text_field "content" x |}) l)
  | _ => None
  end.
Definition number_field (k : string) (v : json) : option Z :=
  match get_field k v with Some (JNum z) => Some z | _ => None end.

Definition no_checkpoint : checkpoint := {| cp_summary := None; cp_position := None; cp_layers := None |}.

(** The block of a thread's row; an old row has a bare text. *)
Definition summary_of_row (row : option ThreadModel) : checkpoint :=
  match row with
  | None => no_checkpoint
  | Some row =>
      match Threads.summary_block row with
      | Some (JObj l) => {| cp_summary := text_field "content" (JObj l); cp_position := Threads.summary_position row;
                            cp_layers := layers_of (JObj l) |}
      | Some (JStr s) => {| cp_summary := if truthy s then Some s else None; cp_position := Threads.summary_position row;
                            cp_layers := None |}
      | _ => {| cp_summary := None; cp_position := Threads.summary_position row; cp_layers := None |}
      end
  end.

(** The hot tier's block first, then the row's. *)
Definition _load_thread_summary (tenant thread : string) : effect checkpoint :=
  cached ← sv_cached_summary sv tenant thread;
  match cached with
  | Some block =>
      if truthy_opt (text_field "content" block)
      then mret {| cp_summary := text_field "content" block; cp_position := number_field "position" block;
                   cp_layers := layers_of block |}
      else row ← sv_get_thread sv tenant thread; mret (summary_of_row row)
  | None => row ← sv_get_thread sv tenant thread; mret (summary_of_row row)
  end.

(** ** The hooks of the turn *)

Definition summary_json (r : compact_result) : json := JObj [
  ("content", match cr_summary r with Some s => JStr s | None => JNull end);
  ("position", match cr_position r with Some p => JNum p | None => JNull end);
  ("layers", match cr_layers r with Some l => JList l | None => JNull end)].

Definition checkpoint_of (r : compact_result) : checkpoint := {|
  cp_summary := cr_summary r; cp_position := cr_position r;
  cp_layers := option_map (map (fun x => {| layer_content := text_field "content" x |})) (cr_layers r) |}.

(** Compacts, and shows the new block to the hot tier. *)
Definition _compact (tenant thread : string) : effect (option checkpoint) :=
  r ← sv_compact sv tenant thread;
  if negb (cr_compacted r) then mret None
  else _ ← _refresh_hot_tail tenant thread (Some (summary_json r)); mret (Some (checkpoint_of r)).

(** [_build_compaction_callback]: a preemptive trigger is left to the worker;
    nothing it raises reaches the turn. *)
Definition _compaction_callback (tenant thread : string) (info : compaction_info) : effect (option checkpoint) :=
  try_catch
    (if ci_overflow info then _compact tenant thread
     else
       match cd_action (Compaction.evaluate (st_compaction cfg) (default 0 (ci_estimated_tokens info))
                          (default 0 (ci_budget_tokens info))) with
       | None => mret None
       | Some Preemptive =>
           _ ← try_catch (sv_enqueue sv (SummaryRefresh thread)) (fun _ => mret false); mret None
       | Some Reactive => _compact tenant thread
       end)
    (fun _ => mret None).

(** The stored form of a tool part: the text of its content is redacted. *)
Definition redacted_part (p : tool_part) : effect (list (string * json)) :=
  match sv_presidio sv, field "content" (part_content p) with
  | Some (service, process), Some (JStr text) =>
      if truthy text then
        missing ← service;
        match missing with
        | Some _ => mret (part_content p)
        | None => t ← process text; mret (dict_set "content" (JStr t) (part_content p))
        end
      else mret (part_content p)
  | _, _ => mret (part_content p)
  end.

Definition tool_part_args (conversation parent request_id suffix : string) (p : tool_part)
    (redacted : list (string * json)) : append_args := {|
  a_role := "assistant"; a_content := EmptyString; a_redacted_content := Some EmptyString;
  a_conversation_id := conversation; a_request_id := Some (request_id +:+ ":tool:" +:+ suffix);
  a_parent_message_id := Some parent; a_surface_id := None; a_end_user_id := None; a_metadata := None;
  a_extra_parts := [{| x_part_type := part_type p; x_content := Some (JObj (part_content p));
                       x_redacted_content := Some (JObj redacted) |}] |}.

(** [_build_tool_callback] *)
Definition _tool_callback (tenant thread conversation parent request_id : string) (p : tool_part) : effect unit :=
  redacted ← redacted_part p;
  id ← sv_uuid sv;
  _ ← sv_append sv tenant thread (tool_part_args conversation parent request_id (String.substring 0 8 id) p redacted);
  mret tt.

(** [_build_governance_wiring]: the authorizer and the budgets; a
    configuration that does not compile is an exception. *)
Definition _audit_denial (tenant session conversation : string) (d : ToolAuthorization) : effect unit :=
  best_effort (sv_evidence sv (build_tool_gate_packet (st_digest cfg) tenant session (ta_tool_name d) (ta_reason d)
                                 (Some conversation) (ta_surface_id d))).

Definition _build_governance_wiring (c : TenantConfig) (surface : option Surface) (session conversation : string) :
    effect ((ToolCall -> effect bool) * GatewayCfg) :=
  match compile_surface_config (st_violation cfg) (st_hash cfg) (st_platform_usd cfg) (st_tenant_usd cfg) (inl c)
          surface 1 with
  | inr (ConfigValidationError m) | inr (AttributeError m) => throw (TOther m)
  | inl compiled =>
      tools ← sv_tools sv;
      let gate := build_authorizer (tc_id c) tools surface in
      mret (fun call : ToolCall =>
              d ← authorize_async (Some (fun tenant d => _audit_denial tenant session conversation d)) gate
                    (Some (call_name call));
              mret (allowed d),
            build_gateway_budget_cfg (cc_budgets compiled))
  end.

Definition _usage (c : TenantConfig) (p : ConversationPrincipal) (u : usage_record) : effect unit :=
  if truthy_opt (cp_end_user_id p)
  then sv_spend sv (tc_id c) (default EmptyString (cp_end_user_id p))
         (inject_Z (input_tokens (us_usage u) + output_tokens (us_usage u)))
  else mret tt.

(** Without Presidio the validator answers nothing. *)
Definition _output_validator (c : TenantConfig) (session conversation text : string) : effect output_check :=
  match sv_presidio sv with
  | Some _ => sv_evaluate_output sv c text conversation session
  | None => mret {| oc_allowed := None; oc_redacted := None; oc_violations := []; oc_decision := None |}
  end.

(** What the endpoints know when the turn is wired. *)
Record prepared := {
  pp_config : TenantConfig;
  pp_policies : PolicySet;
  pp_surface : option Surface;
  pp_session : string;
  pp_conversation : string;
  pp_thread : string;
  pp_request_id : string;
  pp_user_turn : string;
  pp_redacted : string;
  pp_override : option string;
  pp_history : list ContextTurn;
  pp_checkpoint : checkpoint;
  pp_authorizer : ToolCall -> effect bool;
  pp_gateway_cfg : GatewayCfg;
  pp_registry : registry_hooks R;
  pp_prompt : option string;
}.

(** [create_orchestration_service] and the callbacks set on it. *)
Definition orchestration (validate : bool) (p : ConversationPrincipal) (pp : prepared) : Orchestration.service R :=
  let c := pp_config pp in {|
  s_hooks := {|
    h_request_id := sv_uuid sv; h_retrieve := sv_retrieve sv; h_generate := sv_generate sv (pp_gateway_cfg pp);
    h_stream := sv_stream sv (pp_gateway_cfg pp); h_stream_callback := None;
    h_compaction := Some (_compaction_callback (tc_id c) (pp_thread pp));
    h_memory := Some (sv_facts sv (tc_id c) (cp_end_user_id p)); h_registry := Some (pp_registry pp);
    h_authorizer := Some (pp_authorizer pp);
    h_tool_callback := Some (_tool_callback (tc_id c) (pp_thread pp) (pp_conversation pp) (pp_user_turn pp)
                               (pp_request_id pp));
    h_escalation := Some (sv_escalate sv); h_evidence := Some (sv_decision sv); h_usage := Some (_usage c p);
    h_output_validator :=
      if validate then Some (_output_validator c (pp_session pp) (pp_conversation pp)) else None;
    h_prompt_resolver := Some (mret (pp_prompt pp)) |};
  s_estimator := st_estimator cfg; s_catalog := st_catalog cfg; s_output_reserve := st_output_reserve cfg;
  s_cache_markers := st_cache_markers cfg; s_tenant_config := c; s_policy_set := pp_policies pp;
  s_model_override := pp_override pp; s_surface_id := option_map sf_id (pp_surface pp);
  s_end_user_id := cp_end_user_id p; s_preemptive_ratio := preemptive_ratio (st_compaction cfg);
  s_exc_text := st_exc_text cfg; s_repr := st_repr cfg; s_loads := st_loads cfg; s_float_text := st_float_text cfg;
  s_schedule := st_schedule cfg |}.

Definition turn_input_of (req : ConversationRequest) (pp : prepared) : turn_input := {|
  session_id := pp_session pp; user_message := cr_message req; redacted_message := pp_redacted pp;
  conversation_history := map HTurn (pp_history pp) |}.

Definition turn_context_of (pp : prepared) : turn_context :=
  Build_turn_context (Some (pp_conversation pp)) None None None None None None.

(** ** The lease and the slot *)

(** [None] when the thread is busy. *)
Definition try_lease (tenant thread : string) : route (option CoordinatorLease) :=
  token ← rest (sv_uuid sv);
  lift w_coordinator put_coordinator (fun e : route_exc => e)
    (try_catch (l ← acquire co_cfg tenant thread token (st_polls cfg); mret (Some l))
       (fun e => match e with CoordinatorBusy _ => mret None end)).

Definition acquire_lease (tenant thread : string) : route CoordinatorLease :=
  l ← try_lease tenant thread;
  match l with
  | Some l => mret l
  | None => http 429 "Another message is being processed for this thread. Try again shortly."
  end.

Definition release_lease (l : CoordinatorLease) : route unit :=
  lift w_coordinator put_coordinator (fun e : route_exc => e) (lease_release (st_now cfg) l).1.

(** A refusal gives the lease back, and says when to come again; a lost
    command gives nothing back. *)
Definition try_admit (tenant : string) (l : CoordinatorLease) : route (AdmissionHandle + Q) := fun w =>
  match gate_admit adm_cfg (st_now cfg) tenant (w_gate w) with
  | (Ret h, g) => (Ret (inl h), put_gate g w)
  | (Raise (AdmissionLimitExceeded after), g) => (_ ← release_lease l; mret (inr after)) (put_gate g w)
  | (Raise AdmissionRedisError, g) => (Raise (Crash (TRaised (TOther "admission"))), put_gate g w)
  end.

Definition admit_turn (tenant : string) (l : CoordinatorLease) : route AdmissionHandle :=
  r ← try_admit tenant l;
  match r with
  | inl h => mret h
  | inr _ => http 429 "Concurrent generation limit exceeded. Try again shortly."
  end.

Definition release_slot (h : AdmissionHandle) : route unit :=
  lift w_gate put_gate (fun _ => Crash (TRaised (TOther "admission"))) (release_handle adm_cfg (st_now cfg) h).1.

(** The [finally] of both endpoints. *)
Definition give_back (l : CoordinatorLease) (h : AdmissionHandle) : route unit :=
  _ ← release_slot h;
  _ ← release_lease l;
  rest (sv_close_registry sv).

(** ** The endpoint *)

Definition _gateway_http_status (e : turn_exc) : Z :=
  match e with
  | TGateway (GatewayQuotaExceeded _ _ _) => 402
  | TGateway (GatewayConfigurationError _) => 503
  | TGateway (GatewayChainExhausted _ _ _ _ _) => 502
  | _ => 500
  end.

Definition gateway_detail (e : turn_exc) : string :=
  match e with
  | TGateway (GatewayQuotaExceeded level limit projected) =>
      budget_rejection_message level (Some limit) (Some projected)
  | e => st_exc_text cfg e
  end.

(** [str(e)] *)
Definition crash_text (e : run_exc) : string :=
  match e with
  | TRaised e => st_exc_text cfg e
  | GraphRecursionError => "recursion limit reached"
  | TNoFuel => EmptyString
  end.

Definition withheld : string := "[content withheld by compliance]".

(** The text kept and the text shown: the validator's refusal of an escalated
    answer withholds both. *)
Definition response_texts (s : AgentState) : string * string :=
  let shown := default EmptyString (model_response (answered s)) in
  let raw := match output_raw (context s) with
             | Some (Some r) => if truthy r then r else shown
             | _ => shown
             end in
  let blocked := match output_validation (context s) with Some v => negb (ov_allowed v) | None => false end in
  if blocked && handoff_required (ruled s) then (withheld, withheld) else (raw, shown).

(** The confidence is a float: its text here. *)
Definition answer_metadata (s : AgentState) : list (string * json) :=
  [("confidence", JStr (st_float_text cfg (confidence (answered s))));
   ("handoff_required", JBool (handoff_required (ruled s)))].

(** What follows a turn that ended: the answer is stored, then announced. *)
Definition _store_answer (pp : prepared) (raw shown : string) (metadata : list (string * json)) (handoff : bool) :
    effect unit :=
  let tenant := tc_id (pp_config pp) in
  _ ← sv_add_message sv {| pj_conversation := pp_conversation pp; pj_role := "assistant"; pj_content := raw;
                           pj_redacted := Some shown; pj_metadata := metadata |};
  _ ← sv_append sv tenant (pp_thread pp) (assistant_args raw shown (pp_conversation pp) (pp_user_turn pp) metadata);
  _ ← _refresh_hot_tail tenant (pp_thread pp) None;
  _ ← _enqueue_tool_clear (pp_config pp) (pp_thread pp);
  _ ← _enqueue_memory_extract (pp_config pp) (pp_thread pp);
  if (handoff : bool) then
    _ ← sv_mark_escalated sv (pp_conversation pp);
    _publish_webhook_event (EscalationRaised (pp_session pp) (pp_conversation pp))
  else mret tt.

Definition scope_of (req : ConversationRequest) : string := "conv:" +:+ cr_tenant_slug req.

Definition IDEMPOTENCY_TTL_SECONDS : Z := 86400.

(** [response.model_dump()]; floats are their text. *)
Definition citation_json (c : citation) : json := JObj [
  ("source", default JNull (ci_source c)); ("document_id", default JNull (ci_document_id c));
  ("chunk_id", default JNull (ci_chunk_id c)); ("score", JStr (st_float_text cfg (ci_score c)))].
Definition faithfulness_json (f : option FaithfulnessResult) : json :=
  match f with
  | None => JNull
  | Some f => JObj [("score", JStr (st_float_text cfg (fr_score f))); ("grounded", JBool (grounded f));
                    ("source_count", JNum (source_count f)); ("matches", JList (map JStr (fr_matches f)));
                    ("checked", JBool (checked f))]
  end.
Definition model_dump (r : ConversationResponse) : json := JObj [
  ("response", JStr (rs_response r)); ("confidence", JStr (st_float_text cfg (rs_confidence r)));
  ("handoff_required", JBool (rs_handoff_required r)); ("session_id", JStr (rs_session_id r));
  ("citations", JList (map citation_json (rs_citations r)));
  ("faithfulness", faithfulness_json (rs_faithfulness r));
  ("thread_id", match rs_thread_id r with Some t => JStr t | None => JNull end)].

Definition _store_idempotent_response (key : option string) (req : ConversationRequest) (r : ConversationResponse) :
    route unit :=
  if truthy_opt key then
    on_cache (fun e : route_exc => e)
      (store_response (st_cache cfg) (st_digest cfg) IDEMPOTENCY_TTL_SECONDS (st_stored cfg) (default EmptyString key)
         200 (model_dump r) (scope_of req))
  else mret tt.

Definition _run_turn (req : ConversationRequest) (p : ConversationPrincipal) (pp : prepared) : route AgentState :=
  lift w_rest put_rest Crash
    (process_message (orchestration true p pp) (turn_input_of req pp) (turn_context_of pp) (pp_checkpoint pp)).

(** The body of the [try]. *)
Definition _answer (req : ConversationRequest) (p : ConversationPrincipal) (key : option string) (pp : prepared) :
    route ConversationResponse :=
  s ← _run_turn req p pp;
  if truthy_opt (error (answered s)) then http 500 (default EmptyString (error (answered s)))
  else
    let '(raw, shown) := response_texts s in
    let handoff := handoff_required (ruled s) in
    _ ← rest (_store_answer pp raw shown (answer_metadata s) handoff);
    let r := {| rs_response := shown; rs_confidence := confidence (answered s); rs_handoff_required := handoff;
                rs_session_id := pp_session pp; rs_citations := citations s;
                rs_faithfulness := cx_faithfulness (context s); rs_thread_id := Some (pp_thread pp) |} in
    _ ← _store_idempotent_response key req r;
    _ ← rest (_publish_webhook_event (ConversationCompleted (pp_session pp) false handoff (confidence (answered s))));
    _ ← rest (_record_canary_outcome (tc_id (pp_config pp)) (request_key p (pp_session pp)) false false);
    mret r.

(** Its [except] clauses. *)
Definition _report_failure (p : ConversationPrincipal) (pp : prepared) (e : route_exc) : route ConversationResponse :=
  match e with
  | Http _ _ => throw e
  | Crash x =>
      let text := crash_text x in
      _ ← rest (_publish_webhook_event (EvalFailed (pp_session pp) (pp_conversation pp) text));
      _ ← rest (_record_canary_outcome (tc_id (pp_config pp)) (request_key p (pp_session pp)) true false);
      match x with
      | TRaised g => if is_gateway_error g then http (_gateway_http_status g) (gateway_detail g) else http 500 text
      | _ => http 500 text
      end
  end.

(** From the redacted user turn to the wired turn. *)
Definition _prepare (req : ConversationRequest) (p : ConversationPrincipal) (c : TenantConfig) (policies : PolicySet)
    (surface : option Surface) (session conversation thread request_id user_turn redacted : string) : route prepared :=
  '(provider, override) ← _resolve_catalog_model c (cr_message req);
  let '(provider, override) := pinned_model surface provider override in
  history ← rest (_load_history_turns (tc_id c) thread);
  cp ← rest (_load_thread_summary (tc_id c) thread);
  '(authorizer, gateway_cfg) ← rest (_build_governance_wiring c surface session conversation);
  registry ← rest (sv_registry sv (tc_id c));
  prompt ← rest (sv_prompt sv (tc_id c) session);
  mret {| pp_config := c; pp_policies := policies; pp_surface := surface; pp_session := session;
          pp_conversation := conversation; pp_thread := thread; pp_request_id := request_id;
          pp_user_turn := user_turn; pp_redacted := redacted; pp_override := override; pp_history := history;
          pp_checkpoint := cp; pp_authorizer := authorizer; pp_gateway_cfg := gateway_cfg;
          pp_registry := registry; pp_prompt := prompt |}.

(** The lease around the slot around the turn. *)
Definition _guarded_turn (req : ConversationRequest) (p : ConversationPrincipal) (key : option string)
    (pp : prepared) : route ConversationResponse :=
  let tenant := tc_id (pp_config pp) in
  lease ← acquire_lease tenant (pp_thread pp);
  handle ← admit_turn tenant lease;
  finally (try_catch (_answer req p key pp) (_report_failure p pp)) (give_back lease handle).

(** What the guardrails refused. *)
Definition _refuse (req : ConversationRequest) (p : ConversationPrincipal) (key : option string) (c : TenantConfig)
    (session conversation thread user_turn : string) (ic : input_check) : route ConversationResponse :=
  _ ← rest (_store_refusal c thread conversation user_turn ic);
  let r := {| rs_response := refusal_text; rs_confidence := 1; rs_handoff_required := false;
              rs_session_id := session; rs_citations := []; rs_faithfulness := None; rs_thread_id := Some thread |} in
  _ ← _store_idempotent_response key req r;
  _ ← rest (_publish_webhook_event (GuardrailBlocked session (ic_violations ic)));
  _ ← rest (_record_canary_outcome (tc_id c) (request_key p session) false true);
  mret r.

Definition refused (ic : input_check) : bool := negb (ic_valid ic) && ic_blocked ic.

Definition _process (req : ConversationRequest) (key : option string) (p : ConversationPrincipal) :
    route ConversationResponse :=
  session ← rest (or_uuid (cr_session_id req));
  c ← _load_tenant req p session;
  policies ← rest (_load_or_create_policy_set c);
  cv ← _open_conversation c session;
  surface ← _resolve_request_surface c p;
  thread ← rest (_bind_thread c (cv_id cv) p surface);
  request_id ← rest (if truthy_opt key then mret (default EmptyString key)
                     else id ← sv_uuid sv; mret ("req-" +:+ id));
  redacted ← _redact (cr_message req);
  user_turn ← rest (_record_user_turn c thread (cv_id cv) request_id (cr_message req) redacted p);
  ic ← rest (sv_validate_input sv c redacted (cv_id cv) session);
  if refused ic then _refuse req p key c session (cv_id cv) thread user_turn ic
  else
    pp ← _prepare req p c policies surface session (cv_id cv) thread request_id user_turn redacted;
    _guarded_turn req p key pp.

(** A stored answer to the key is returned before anything else. *)
Definition process_conversation (req : ConversationRequest) (key : option string) (p : ConversationPrincipal) :
    route reply :=
  stored ← (if truthy_opt key
            then on_cache (fun e : route_exc => e)
                   (get_response (st_cache cfg) (st_digest cfg) (st_now cfg) (default EmptyString key) (scope_of req))
            else mret None);
  match (stored : option (list (string * json))) with
  | Some l =>
      match field "body" l with
      | Some body => mret (Replayed (default JNull (field "status_code" l)) body)
      | None => rest (throw (TOther "'body'"))
      end
  | None => r ← _process req key p; mret (Fresh r)
  end.

End route.
