(* ===== verification/RouteProps.v ===== *)
(** * What the conversation endpoint promises

    The lease of the thread and the admission slot are given back, whatever
    happens to the turn; an answer that is not handed off was verified; a
    retry under the same key replays the answer. *)

From S2P Require Import Prelude Json Resilience CacheManager Redis Coordinator Admission Threads Summarizer Compaction ModelCatalog Catalog Types Context Tenant Governance Moderation Orchestration OrchestrationProps ConversationRoute.

Section rest_only.
Context {SC SG SD R : Type}.
Implicit Types w : world (SC := SC) (SG := SG) (SD := SD) (R := R).

Abbreviation route := (io (world (SC := SC) (SG := SG) (SD := SD) (R := R)) route_exc).

(** ** Computations on the rest of the world *)

Class RestOnly {A} (c : route A) : Prop :=
  rest_only : forall w, w_coordinator (c w).2 = w_coordinator w /\ w_gate (c w).2 = w_gate w.

#[global] Instance rest_only_rest {A} (c : io R turn_exc A) : RestOnly (rest c).
Proof. intros w. unfold rest, lift. by destruct (c (w_rest w)) as [[a|e] r]. Qed.
#[global] Instance rest_only_cache {E A} (f : E -> route_exc) (c : io (CacheManager SD) E A) : RestOnly (on_cache f c).
Proof. intros w. unfold on_cache, lift. by destruct (c (w_cache w)) as [[a|e] m]. Qed.
#[global] Instance rest_only_ret {A} (a : A) : RestOnly (mret a).
Proof. by intros w. Qed.
#[global] Instance rest_only_throw {A} e : RestOnly (throw e : route A).
Proof. by intros w. Qed.
#[global] Instance rest_only_http {A} n d : RestOnly (http n d : route A).
Proof. by intros w. Qed.
#[global] Instance rest_only_bind {A B} (c : route A) (f : A -> route B) :
  RestOnly c -> (forall a, RestOnly (f a)) -> RestOnly (c ≫= f).
Proof.
  intros Hc Hf w. specialize (Hc w). unfold mbind, io_bind. destruct (c w) as [[a|e] w1]; cbn in *; [|done].
  destruct Hc as [Hc1 Hc2]. destruct (Hf a w1) as [H1 H2]. by rewrite H1, H2.
Qed.
#[global] Instance rest_only_try {A} (c : route A) (h : route_exc -> route A) :
  RestOnly c -> (forall e, RestOnly (h e)) -> RestOnly (try_catch c h).
Proof.
  intros Hc Hf w. specialize (Hc w). unfold try_catch. destruct (c w) as [[a|e] w1]; cbn in *; [done|].
  destruct Hc as [Hc1 Hc2]. destruct (Hf e w1) as [H1 H2]. by rewrite H1, H2.
Qed.

End rest_only.

Ltac rest_only_tac := repeat first [apply _ | case_match | apply rest_only_bind; [|intros ?] | apply rest_only_try; [|intros ?]].

Section route.
Context {SC SG SD R : Type} `{KC : RedisKV SC string} `{HG : RedisKV SG Z} `{KG : !RedisCounter SG}
  `{KD : RedisKV SD CacheManager.cached}.
Context (co_cfg : CoordinatorConfig) (adm_cfg : AdmissionConfig) (cfg : settings) (sv : services R).
Implicit Types w : world (SC := SC) (SG := SG) (SD := SD) (R := R).

Abbreviation route := (io (world (SC := SC) (SG := SG) (SD := SD) (R := R)) route_exc).


#[global] Instance load_tenant_only req p s : RestOnly (SC := SC) (SG := SG) (SD := SD) (_load_tenant sv req p s).
Proof. unfold _load_tenant, _assert_conversation_tenant. rest_only_tac. Qed.
#[global] Instance open_only c s : RestOnly (SC := SC) (SG := SG) (SD := SD) (_open_conversation sv c s).
Proof. unfold _open_conversation. rest_only_tac. Qed.
#[global] Instance surface_only c p : RestOnly (SC := SC) (SG := SG) (SD := SD) (_resolve_request_surface sv c p).
Proof. unfold _resolve_request_surface. rest_only_tac. Qed.
#[global] Instance redact_only m : RestOnly (SC := SC) (SG := SG) (SD := SD) (_redact sv m).
Proof. unfold _redact. rest_only_tac. Qed.
#[global] Instance prepare_only req p c ps sf s cv th rq ut rd :
  RestOnly (SC := SC) (SG := SG) (SD := SD) (_prepare cfg sv req p c ps sf s cv th rq ut rd).
Proof. unfold _prepare, _resolve_catalog_model. rest_only_tac. Qed.
#[global] Instance run_turn_only req p pp : RestOnly (SC := SC) (SG := SG) (SD := SD) (_run_turn cfg sv req p pp).
Proof. intros w. unfold _run_turn, lift. by destruct (process_message _ _ _ _ (w_rest w)) as [[a|e] r]. Qed.
#[global] Instance answer_only req p key pp : RestOnly (SC := SC) (SG := SG) (SD := SD) (_answer cfg sv req p key pp).
Proof. unfold _answer, _store_idempotent_response. rest_only_tac. Qed.
#[global] Instance report_only p pp e : RestOnly (SC := SC) (SG := SG) (SD := SD) (_report_failure cfg sv p pp e).
Proof. unfold _report_failure. rest_only_tac. Qed.
#[global] Instance refuse_only req p key c s cv th ut ic : RestOnly (SC := SC) (SG := SG) (SD := SD) (_refuse cfg sv req p key c s cv th ut ic).
Proof. unfold _refuse, _store_idempotent_response. rest_only_tac. Qed.

(** ** What a request leaves of the locks and the slots *)

Definition no_lost_command (g : @ConcurrencyGate SG) : Prop :=
  adm_redis_available g = true -> healthy (adm_conn g).

(** The locks of the process, the free slots, and the gate's connection. *)
Record kept (w w' : world (SC := SC) (SG := SG) (SD := SD) (R := R)) : Prop := {
  kept_locks : local_locks (w_coordinator w') = local_locks (w_coordinator w);
  kept_platform : platform_semaphore (w_gate w') = platform_semaphore (w_gate w);
  kept_tenants : forall t, _tenant_semaphore adm_cfg t (w_gate w') = _tenant_semaphore adm_cfg t (w_gate w);
  kept_gate : no_lost_command (w_gate w) -> no_lost_command (w_gate w');
}.

#[global] Instance kept_preorder : PreOrder kept.
Proof.
  split; [by intros w; split|]. intros w1 w2 w3 [] []. split; [congruence|congruence| |auto].
  intros t. congruence.
Qed.

Lemma rest_only_kept {A} (c : route A) w : RestOnly c -> kept w (c w).2.
Proof. intros H. destruct (H w) as [H1 H2]. split; by rewrite ?H1, ?H2. Qed.

(** [c] keeps them while no command of the gate is lost. *)
Definition Balanced {A} (c : route A) : Prop := forall w, no_lost_command (w_gate w) -> kept w (c w).2.

Lemma balanced_rest {A} (c : route A) : RestOnly c -> Balanced c.
Proof. intros H w _. by apply rest_only_kept. Qed.
Lemma balanced_bind {A B} (c : route A) (f : A -> route B) :
  Balanced c -> (forall a, Balanced (f a)) -> Balanced (c ≫= f).
Proof.
  intros Hc Hf w Hw. specialize (Hc w Hw). unfold mbind, io_bind. destruct (c w) as [[a|e] w1]; [|done].
  etrans; [exact Hc|]. apply Hf. by apply (kept_gate _ _ Hc).
Qed.

(** A connection that loses nothing. *)
Lemma serving_put r (g : @ConcurrencyGate SG) : healthy r -> no_lost_command (adm_put r g).
Proof. by intros H _. Qed.

Lemma adm_run_serving {A} (f : SG -> A * SG) (g : @ConcurrencyGate SG) :
  adm_redis_available g = true -> no_lost_command g ->
  exists a r, adm_run f g = (Ret a, adm_put r g) /\ no_lost_command (adm_put r g).
Proof.
  intros Ha Hg. destruct (redis_call_healthy f (adm_conn g) (Hg Ha)) as (fs & E & Hfs).
  unfold adm_run, lift. rewrite E. eexists _, _. split; [done|by apply serving_put].
Qed.

Lemma acquire_slot_serving now tenant (g : @ConcurrencyGate SG) : no_lost_command g ->
  exists b g', _acquire_redis_slot adm_cfg now tenant g = (Ret b, g') /\ no_lost_command g'.
Proof.
  intros Hg. unfold _acquire_redis_slot, mbind, io_bind, get_st.
  destruct (adm_redis_available g) eqn:Ha; cbn; [|by eexists _, _].
  destruct (adm_run_serving (incr_with_lease adm_cfg now (adm_key adm_cfg tenant)) g Ha Hg) as (n & r & -> & Hr).
  destruct (_ <? n); [|by eexists _, _].
  destruct (adm_run_serving (incr_reply now (adm_key adm_cfg tenant) (-1)) (adm_put r g) Ha Hr) as (n' & r' & -> & Hr').
  by eexists _, _.
Qed.

Lemma release_slot_serving now tenant (g : @ConcurrencyGate SG) : no_lost_command g ->
  exists g', _release_redis_slot adm_cfg now tenant g = (Ret tt, g') /\ no_lost_command g'.
Proof.
  intros Hg. unfold _release_redis_slot, mbind, io_bind, get_st.
  destruct (adm_redis_available g) eqn:Ha; cbn; [|by eexists].
  destruct (adm_run_serving (incr_reply now (adm_key adm_cfg tenant) (-1)) g Ha Hg) as (n & r & -> & Hr).
  by eexists.
Qed.

Lemma gate_admit_serving now tenant (g : @ConcurrencyGate SG) : no_lost_command g ->
  let '(o, g') := gate_admit adm_cfg now tenant g in
  no_lost_command g' /\ o <> Raise AdmissionRedisError.
Proof.
  intros Hg. unfold gate_admit, mbind, io_bind, get_st, modify, throw.
  destruct (_ <=? 0); [done|]. destruct (_ <=? 0); [done|].
  destruct (acquire_slot_serving now tenant (add_platform (-1) (add_tenant adm_cfg tenant (-1) g)) Hg)
    as (b & g' & -> & Hg').
  by destruct b.
Qed.

Lemma release_handle_serving now tenant (g : @ConcurrencyGate SG) : no_lost_command g ->
  let '(o, g') := (release_handle adm_cfg now {| h_tenant_id := tenant; h_released := false |}).1 g in
  o = Ret tt /\ no_lost_command g'.
Proof.
  intros Hg. cbn. unfold mbind, io_bind, modify.
  by destruct (release_slot_serving now tenant g Hg) as (g' & -> & Hg').
Qed.

(** ** The lease *)

Lemma acquire_fresh tenant thread token polls (c c' : @ThreadCoordinator SC) l :
  acquire co_cfg tenant thread token polls c = (Ret l, c') -> l_released l = false.
Proof.
  unfold acquire, _local_lock_acquire, mbind, io_bind, get_st, modify, throw. case_decide; [done|].
  destruct (_acquire_redis_lock _ _ _ _ _) as [[[]|e] c1]; [|done|done]. by intros [= <- _].
Qed.

Lemma try_lease_spec tenant thread w :
  let '(o, w') := try_lease co_cfg cfg sv tenant thread w in
  w_gate w' = w_gate w /\
  match o with
  | Ret (Some l) => l_released l = false /\ l_key l ∉ local_locks (w_coordinator w)
      /\ local_locks (w_coordinator w') = {[l_key l]} ∪ local_locks (w_coordinator w)
  | _ => local_locks (w_coordinator w') = local_locks (w_coordinator w)
  end.
Proof.
  unfold try_lease. rewrite bind_cases. pose proof (rest_only_rest (sv_uuid sv) w) as [Hc Hg].
  destruct (rest (sv_uuid sv) w) as [[token|e] w1]; cbn in Hc, Hg; [|by rewrite Hc].
  pose proof (acquire_spec co_cfg tenant thread token (st_polls cfg) (w_coordinator w1)) as Hs.
  unfold lift, try_catch. rewrite bind_cases.
  destruct (acquire _ _ _ _ _ _) as [[l|[b]] c] eqn:Ea; cbn in *; rewrite <- Hc; [|done].
  apply acquire_fresh in Ea. destruct Hs as (? & -> & ?). by split_and!.
Qed.

Lemma release_lease_spec l w : l_released l = false ->
  exists w', release_lease cfg l w = (Ret tt, w') /\ w_gate w' = w_gate w
    /\ local_locks (w_coordinator w') = local_locks (w_coordinator w) ∖ {[l_key l]}.
Proof.
  intros Hl. pose proof (release_locks (E:=route_exc) (st_now cfg) l (w_coordinator w) Hl) as Hs.
  unfold release_lease, lift. destruct ((lease_release (st_now cfg) l).1 (w_coordinator w)) as [o c'].
  destruct Hs as [-> Hs]. by eexists.
Qed.

(** What holds while the lease is held: its lock, and the rest as it was. *)
Definition holding (l : CoordinatorLease) (w w' : world (SC := SC) (SG := SG) (SD := SD) (R := R)) : Prop :=
  l_released l = false /\ l_key l ∉ local_locks (w_coordinator w)
  /\ local_locks (w_coordinator w') = {[l_key l]} ∪ local_locks (w_coordinator w).

Lemma released l w w' : holding l w w' ->
  exists w2, release_lease cfg l w' = (Ret tt, w2) /\ w_gate w2 = w_gate w'
    /\ local_locks (w_coordinator w2) = local_locks (w_coordinator w).
Proof.
  intros (Hl & Hn & E). destruct (release_lease_spec l w' Hl) as (w2 & -> & Hg & E2).
  eexists. split_and!; [done..|]. rewrite E2, E. set_solver.
Qed.

(** The slot is refused and the lease is back, or the slot is held. *)
Lemma try_admit_spec tenant l w w1 : holding l w w1 -> w_gate w1 = w_gate w -> no_lost_command (w_gate w) ->
  let '(o, w2) := try_admit adm_cfg cfg tenant l w1 in
  no_lost_command (w_gate w2) /\
  match o with
  | Ret (inl h) => h = {| h_tenant_id := tenant; h_released := false |} /\ holding l w w2
      /\ platform_semaphore (w_gate w2) = platform_semaphore (w_gate w) - 1
      /\ forall t, _tenant_semaphore adm_cfg t (w_gate w2)
           = _tenant_semaphore adm_cfg t (w_gate w) - (if decide (t = tenant) then 1 else 0)
  | Ret (inr _) => kept w w2
  | Raise _ => False
  end.
Proof.
  intros Hh Hg Hw. unfold try_admit. rewrite <- Hg in Hw.
  pose proof (admit_slots adm_cfg (st_now cfg) tenant (w_gate w1)) as Hs.
  pose proof (gate_admit_serving (st_now cfg) tenant (w_gate w1) Hw) as Ha.
  destruct (gate_admit _ _ _ _) as [[h|[ra|]] g]; destruct Ha as [Ha He]; [| |done].
  - rewrite Hg in Hs. destruct Hs as (_ & -> & _ & _ & Hp & Ht). split; [exact Ha|]. by split_and!.
  - destruct Hs as (_ & Hp & Ht). rewrite bind_cases.
    destruct (released l w (put_gate g w1) Hh) as (w2 & -> & Hg2 & Hl2). cbn in Hg2. cbn.
    rewrite Hg2. split; [exact Ha|]. rewrite Hg in Hp, Ht.
    split; rewrite ?Hg2; [exact Hl2|exact Hp|exact Ht|done].
Qed.

(** The [finally] of a turn gives both back. *)
Lemma give_back_spec tenant l w w1 : holding l w w1 -> no_lost_command (w_gate w1) ->
  platform_semaphore (w_gate w1) = platform_semaphore (w_gate w) - 1 ->
  (forall t, _tenant_semaphore adm_cfg t (w_gate w1)
    = _tenant_semaphore adm_cfg t (w_gate w) - (if decide (t = tenant) then 1 else 0)) ->
  kept w (give_back adm_cfg cfg sv l {| h_tenant_id := tenant; h_released := false |} w1).2.
Proof.
  intros Hh Hw Hp Ht. unfold give_back. rewrite bind_cases. unfold release_slot, lift.
  pose proof (release_slots adm_cfg (st_now cfg) tenant (w_gate w1)) as Hs.
  pose proof (release_handle_serving (st_now cfg) tenant (w_gate w1) Hw) as Hr.
  destruct ((release_handle _ _ _).1 (w_gate w1)) as [o g]. destruct Hr as [-> Hr], Hs as [Hp' Ht'].
  rewrite bind_cases. destruct (released l w (put_gate g w1) Hh) as (w2 & -> & Hg2 & Hl2).
  etrans; [|apply (rest_only_kept (rest (sv_close_registry sv)) w2), _]. cbn in Hg2.
  split; rewrite ?Hg2; [exact Hl2|lia| |done]. intros t. rewrite Ht', Ht. lia.
Qed.

Lemma guarded_balanced req p key pp : Balanced (_guarded_turn co_cfg adm_cfg cfg sv req p key pp).
Proof.
  intros w Hw. unfold _guarded_turn. set (tenant := tc_id (pp_config pp)). rewrite bind_cases.
  unfold acquire_lease. rewrite bind_cases.
  pose proof (try_lease_spec tenant (pp_thread pp) w) as Ha.
  destruct (try_lease _ _ _ _ _ w) as [[[l|]|e] w1]; destruct Ha as [Hg Ha]; try (split; cbn; rewrite ?Hg; done).
  cbv beta iota. unfold mret, io_ret. cbv beta iota. rewrite bind_cases. unfold admit_turn. rewrite bind_cases.
  pose proof (try_admit_spec tenant l w w1 Ha Hg Hw) as Hs.
  destruct (try_admit _ _ _ l w1) as [[[h|after]|e] w2]; destruct Hs as [Hw2 Hs]; [|exact Hs|done].
  destruct Hs as (-> & Hh & Hp & Ht). unfold mret, io_ret, finally. cbv beta iota.
  pose proof (rest_only_try (_answer cfg sv req p key pp) (_report_failure cfg sv p pp) _ _ w2) as [Hc Hg3].
  destruct (try_catch _ _ w2) as [o w3]. cbn in Hc, Hg3.
  assert (Hk : kept w (give_back adm_cfg cfg sv l {| h_tenant_id := tenant; h_released := false |} w3).2).
  { apply give_back_spec; unfold holding; rewrite ?Hc, ?Hg3; done. }
  by destruct (give_back _ _ _ _ _ w3) as [[]].
Qed.

(** C12: whatever a request does and however it ends, its thread is not left
    locked in the process and the gate has the free slots it had, while the
    gate's Redis loses no command. *)
Theorem slots_given_back req key p w : no_lost_command (w_gate w) ->
  kept w (process_conversation co_cfg adm_cfg cfg sv req key p w).2.
Proof.
  revert w. change (Balanced (process_conversation co_cfg adm_cfg cfg sv req key p)).
  unfold process_conversation, _process.
  repeat first [apply guarded_balanced | apply balanced_rest; apply _ | case_match | apply balanced_bind; [|intros ?]].
Qed.

(** ** What an answer went through *)

Lemma route_bind_ret {A B} (c : route A) (f : A -> route B) w b w' : (c ≫= f) w = (Ret b, w') ->
  exists a w1, c w = (Ret a, w1) /\ f a w1 = (Ret b, w').
Proof. rewrite bind_cases. destruct (c w) as [[a|e] w1]; [|done]. by eexists _, _. Qed.

Lemma finally_ret {A} (c : route A) f w a w' : finally c f w = (Ret a, w') ->
  exists w1, c w = (Ret a, w1).
Proof. unfold finally. destruct (c w) as [r w1]. destruct (f w1) as [[|] w2]; [|done]. intros [= -> _]. by eexists. Qed.

(** The handler of the turn always raises. *)
Lemma report_raises p pp e w : exists x, (_report_failure cfg sv p pp e w).1 = Raise x.
Proof.
  unfold _report_failure. destruct e as [n d|x]; [by eexists|]. rewrite bind_cases.
  destruct (rest _ w) as [[|] w1]; [|by eexists]. rewrite bind_cases. destruct (rest _ w1) as [[|] w2]; [|by eexists].
  destruct x; [|by eexists..]. destruct (is_gateway_error e); by eexists.
Qed.

(** The answer was read off the last state of a turn that ran to its end. *)
Definition answered_by (req : ConversationRequest) (p : ConversationPrincipal) (r : ConversationResponse)
    (pp : prepared) (s : AgentState) : Prop :=
  (exists e, (process_message (orchestration cfg sv true p pp) (turn_input_of req pp) (turn_context_of pp)
                (pp_checkpoint pp) e).1 = Ret s)
  /\ truthy_opt (error (answered s)) = false
  /\ rs_response r = (response_texts s).2 /\ rs_confidence r = confidence (answered s)
  /\ rs_handoff_required r = handoff_required (ruled s) /\ rs_thread_id r = Some (pp_thread pp).

Lemma answer_ret req p key pp w r w' : _answer cfg sv req p key pp w = (Ret r, w') ->
  exists s, answered_by req p r pp s.
Proof.
  intros H. apply route_bind_ret in H as (s & w1 & Hs & H). exists s.
  destruct (truthy_opt (error (answered s))) eqn:He; [done|].
  destruct (response_texts s) as [raw shown] eqn:Et.
  repeat (apply route_bind_ret in H as ([] & ? & _ & H)). injection H as <- _.
  unfold answered_by. rewrite Et, He. split_and!; try done.
  unfold _run_turn, lift in Hs. exists (w_rest w).
  destruct (process_message _ _ _ _ (w_rest w)) as [[s'|e] r']; by simplify_eq/=.
Qed.

Lemma guarded_ret req p key pp w r w' : _guarded_turn co_cfg adm_cfg cfg sv req p key pp w = (Ret r, w') ->
  exists s, answered_by req p r pp s.
Proof.
  intros H. apply route_bind_ret in H as (l & w1 & _ & H). apply route_bind_ret in H as (h & w2 & _ & H).
  apply finally_ret in H as [w3 H]. unfold try_catch in H.
  destruct (_answer _ _ _ _ _ _ w2) as [[r'|e] w4] eqn:Ea.
  - injection H as -> _. by eapply answer_ret.
  - destruct (report_raises p pp e w4) as [x Hx]. by rewrite H in Hx.
Qed.

(** The principal of a session may only speak to its own tenant. *)
Definition own_tenant (p : ConversationPrincipal) (c : TenantConfig) : Prop :=
  truthy_opt (cp_tenant_id p) = true -> cp_tenant_id p = Some (tc_id c).

Lemma load_tenant_own req p s w c w' : _load_tenant sv req p s w = (Ret c, w') -> own_tenant p c.
Proof.
  intros H. apply route_bind_ret in H as (row & w1 & _ & H). destruct row as [row|]; [|done].
  apply route_bind_ret in H as (c' & w2 & _ & H). apply route_bind_ret in H as ([] & w3 & Ha & H).
  apply route_bind_ret in H as ([] & w4 & _ & [= -> _]). revert Ha. unfold _assert_conversation_tenant, own_tenant.
  destruct (truthy_opt (cp_tenant_id p)); [|done]. cbn. case_bool_decide; [done|]. cbn. done.
Qed.

Lemma prepare_config req p c ps sf s cv th rq ut rd w pp w' :
  _prepare cfg sv req p c ps sf s cv th rq ut rd w = (Ret pp, w') ->
  pp_config pp = c /\ pp_policies pp = ps /\ pp_thread pp = th /\ pp_redacted pp = rd.
Proof.
  intros H. apply route_bind_ret in H as ([pr ov] & w1 & _ & H). destruct (pinned_model sf pr ov) as [pr' ov'].
  repeat (apply route_bind_ret in H as (? & ? & _ & H)). case_match.
  repeat (apply route_bind_ret in H as (? & ? & _ & H)). by injection H as <- _.
Qed.

(** The guardrails refused the text the request carried. *)
Definition refused_input (c : TenantConfig) (session conversation text : string) : Prop :=
  exists ic e e', sv_validate_input sv c text conversation session e = (Ret ic, e') /\ refused ic = true.

Lemma refuse_ret req p key c s cv th ut ic w r w' :
  _refuse cfg sv req p key c s cv th ut ic w = (Ret r, w') -> rs_response r = refusal_text.
Proof.
  intros H. unfold _refuse in H. repeat (apply route_bind_ret in H as ([] & ? & _ & H)). by injection H as <- _.
Qed.

Lemma process_ret req key p w r w' : _process co_cfg adm_cfg cfg sv req key p w = (Ret r, w') ->
  exists c, own_tenant p c /\
  ((rs_response r = refusal_text /\ exists session cv text, refused_input c session cv text)
   \/ exists pp s, pp_config pp = c /\ answered_by req p r pp s).
Proof.
  intros H. unfold _process in H. repeat (apply route_bind_ret in H as (? & ? & ?E & H)).
  match goal with E : _load_tenant _ _ _ _ _ = (Ret ?c, _) |- _ => exists c; apply load_tenant_own in E end.
  split; [done|]. match type of H with (if refused ?i then _ else _) _ = _ => destruct (refused i) eqn:Hi end.
  - left. split; [by eapply refuse_ret|].
    match goal with E : rest (sv_validate_input _ ?c ?t ?cv ?s) ?w0 = _ |- _ =>
      exists s, cv, t; unfold rest, lift in E; destruct (sv_validate_input sv c t cv s (w_rest w0)) as [[ic|] e'] eqn:Ev end;
      [|done]. simplify_eq/=. by eexists _, _, _.
  - right. apply route_bind_ret in H as (pp & ? & Hp & H). apply prepare_config in Hp as [Hp _].
    apply guarded_ret in H as [s Hs]. by exists pp, s.
Qed.

(** C3: a fresh answer that is not handed off is for the principal's own
    tenant, and is the guardrails' refusal of the text, or was read off the
    last state of a turn run to its end without an error, whose state passed
    every check of the turn. *)
Theorem route_answer_checked req key p w r w' :
  process_conversation co_cfg adm_cfg cfg sv req key p w = (Ret (Fresh r), w') ->
  rs_handoff_required r = false ->
  exists c, own_tenant p c /\
  ((rs_response r = refusal_text /\ exists session cv text, refused_input c session cv text)
   \/ exists pp s, pp_config pp = c /\ answered_by req p r pp s /\ settled (orchestration cfg sv true p pp) s
        /\ rs_response r = default EmptyString (model_response (answered s))).
Proof.
  intros H Hr. apply route_bind_ret in H as (stored & w1 & _ & H). destruct stored as [l|]; [by destruct (field "body" l)|].
  apply route_bind_ret in H as (r' & w2 & H & [= -> _]). apply process_ret in H as (c & Hc & H). exists c. split; [done|].
  destruct H as [H|(pp & s & Hp & H)]; [by left|]. right. exists pp, s. split; [done|]. split; [done|].
  destruct H as ([e He] & _ & Hs & _ & Hh & _). rewrite Hr in Hh. split.
  - pose proof (process_message_ends (orchestration cfg sv true p pp) (turn_input_of req pp) (turn_context_of pp)
      (pp_checkpoint pp) e) as Hf. rewrite He in Hf. destruct Hf as [Hf|Hf]; [congruence|done].
  - rewrite Hs. unfold response_texts. rewrite <- Hh, andb_false_r. done.
Qed.

(** ** Retries

    An answer stored under a key is read back by a retry while the cache
    answers and its day is not over: between the two, other requests leave the
    entry, whatever they do to the rest of the cache. *)

(** [c] keeps [P] of the cache. *)
Class KeepsCache (P : CacheManager SD -> Prop) {A} (c : route A) : Prop :=
  keeps_cache : forall w, P (w_cache w) -> P (w_cache (c w).2).

Section keeps.
Context (P : CacheManager SD -> Prop).

#[local] Instance keeps_rest {A} (c : io R turn_exc A) : KeepsCache P (rest c).
Proof. intros w Hw. unfold rest, lift. by destruct (c (w_rest w)) as [[a|e] r]. Qed.
#[local] Instance keeps_ret {A} (a : A) : KeepsCache P (mret a).
Proof. by intros w. Qed.
#[local] Instance keeps_throw {A} e : KeepsCache P (throw e : route A).
Proof. by intros w. Qed.
#[local] Instance keeps_http {A} n d : KeepsCache P (http n d : route A).
Proof. by intros w. Qed.
#[local] Instance keeps_bind {A B} (c : route A) (f : A -> route B) :
  KeepsCache P c -> (forall a, KeepsCache P (f a)) -> KeepsCache P (c ≫= f).
Proof. intros Hc Hf w Hw. specialize (Hc w Hw). rewrite bind_cases. destruct (c w) as [[a|e] w1]; [by apply Hf|done]. Qed.
#[local] Instance keeps_try {A} (c : route A) (h : route_exc -> route A) :
  KeepsCache P c -> (forall e, KeepsCache P (h e)) -> KeepsCache P (try_catch c h).
Proof. intros Hc Hf w Hw. specialize (Hc w Hw). unfold try_catch. destruct (c w) as [[a|e] w1]; [done|by apply Hf]. Qed.
#[local] Instance keeps_finally {A} (c : route A) (f : route unit) :
  KeepsCache P c -> KeepsCache P f -> KeepsCache P (finally c f).
Proof.
  intros Hc Hf w Hw. specialize (Hc w Hw). unfold finally. destruct (c w) as [o w1]. specialize (Hf w1 Hc).
  by destruct (f w1) as [[[]|e] w2].
Qed.
#[local] Instance keeps_coordinator {E A} (f : E -> route_exc) (c : io (@ThreadCoordinator SC) E A) :
  KeepsCache P (lift w_coordinator put_coordinator f c).
Proof. intros w Hw. unfold lift. by destruct (c (w_coordinator w)) as [[a|e] x]. Qed.
#[local] Instance keeps_gate {E A} (f : E -> route_exc) (c : io (@ConcurrencyGate SG) E A) :
  KeepsCache P (lift w_gate put_gate f c).
Proof. intros w Hw. unfold lift. by destruct (c (w_gate w)) as [[a|e] x]. Qed.

Ltac keeps_tac :=
  repeat first [apply _ | case_match | apply keeps_bind; [|intros ?] | apply keeps_try; [|intros ?] | apply keeps_finally].

#[local] Instance keeps_load req p s : KeepsCache P (_load_tenant sv req p s).
Proof. unfold _load_tenant, _assert_conversation_tenant. keeps_tac. Qed.
#[local] Instance keeps_open c s : KeepsCache P (_open_conversation sv c s).
Proof. unfold _open_conversation. keeps_tac. Qed.
#[local] Instance keeps_surface c p : KeepsCache P (_resolve_request_surface sv c p).
Proof. unfold _resolve_request_surface. keeps_tac. Qed.
#[local] Instance keeps_redact m : KeepsCache P (_redact sv m).
Proof. unfold _redact. keeps_tac. Qed.
#[local] Instance keeps_run_turn req p pp : KeepsCache P (_run_turn cfg sv req p pp).
Proof. intros w Hw. unfold _run_turn, lift. by destruct (process_message _ _ _ _ (w_rest w)) as [[a|e] r]. Qed.
#[local] Instance keeps_report p pp e : KeepsCache P (_report_failure cfg sv p pp e).
Proof. unfold _report_failure. keeps_tac. Qed.
#[local] Instance keeps_release_lease l : KeepsCache P (release_lease cfg l).
Proof. unfold release_lease. apply _. Qed.
#[local] Instance keeps_try_admit tenant l : KeepsCache P (try_admit adm_cfg cfg tenant l).
Proof.
  intros w Hw. unfold try_admit. destruct (gate_admit _ _ _ _) as [[h|[after|]] g]; [done| |done].
  refine (keeps_bind (release_lease cfg l) (fun _ => mret (inr after)) _ _ (put_gate g w) Hw).
Qed.
#[local] Instance keeps_give_back l h : KeepsCache P (give_back adm_cfg cfg sv l h).
Proof. unfold give_back, release_slot. keeps_tac. Qed.

(** The calls of the cache itself. *)
Lemma keeps_on_cache {E A} (f : E -> route_exc) (c : io (CacheManager SD) E A) :
  (forall m, P m -> P (c m).2) -> KeepsCache P (on_cache f c).
Proof. intros Hc w Hw. specialize (Hc _ Hw). unfold on_cache, lift. by destruct (c (w_cache w)) as [[a|e] m]. Qed.

Context (ceiling : forall tenant provider model n t m,
  P m -> P (check_cost_ceiling (st_cache cfg) (st_now cfg) tenant provider model n cost_window_seconds t m).2).

#[local] Instance keeps_catalog c message : KeepsCache P (_resolve_catalog_model cfg sv c message).
Proof.
  unfold _resolve_catalog_model. apply keeps_bind; [apply _|intros rows]. destruct (resolve_model _ _ _ _) as [[pr m]|]; [|apply _].
  apply keeps_bind; [apply _|intros rows']. apply keeps_bind; [|intros []; apply _]. apply keeps_on_cache. intros m'. apply ceiling.
Qed.
#[local] Instance keeps_prepare req p c ps sf s cv th rq ut rd :
  KeepsCache P (_prepare cfg sv req p c ps sf s cv th rq ut rd).
Proof. unfold _prepare. keeps_tac. Qed.

Context (req : ConversationRequest) (key : option string).
Context (storing : forall r m, truthy_opt key = true -> P m ->
  P (store_response (E := route_exc) (st_cache cfg) (st_digest cfg) IDEMPOTENCY_TTL_SECONDS (st_stored cfg)
       (default EmptyString key) 200 (model_dump cfg r) (scope_of req) m).2).

#[local] Instance keeps_store r : KeepsCache P (_store_idempotent_response cfg key req r).
Proof.
  unfold _store_idempotent_response. destruct (truthy_opt key) eqn:Hk; [|apply _].
  apply keeps_on_cache. intros m. by apply storing.
Qed.

Lemma keeps_process p : KeepsCache P (_process co_cfg adm_cfg cfg sv req key p).
Proof.
  pose proof keeps_store as Hs. pose proof keeps_prepare as Hp. clear storing ceiling.
  unfold _process, _refuse, _guarded_turn, acquire_lease, try_lease, admit_turn, _answer. keeps_tac.
Qed.
End keeps.

(** What the state of the cache is good for, up to the store. *)
Lemma process_bound P {A B} (c : route A) (f : A -> route B) w b w' : KeepsCache P c -> (c ≫= f) w = (Ret b, w') ->
  P (w_cache w) -> exists a w1, f a w1 = (Ret b, w') /\ P (w_cache w1).
Proof.
  intros Hc H Hw. apply route_bind_ret in H as (a & w1 & H1 & H). exists a, w1. split; [exact H|].
  specialize (Hc w Hw). by rewrite H1 in Hc.
Qed.

Section replay.
Context (req : ConversationRequest) (key : option string) (Hk : truthy_opt key = true) (t : Z).
Context (Ht : st_stored cfg <= t < st_stored cfg + IDEMPOTENCY_TTL_SECONDS * 1000).

Definition entry_key : string := idem_key (st_digest cfg) (default EmptyString key) (scope_of req).
Definition entry (r : ConversationResponse) : CacheManager.cached := stored_response 200 (model_dump cfg r).
Definition kept_for (r : ConversationResponse) w : Prop := holds (st_cache cfg) t entry_key (entry r) (w_cache w).

(** Store, announce, and answer: the end of a turn and of a refusal. *)
Lemma concluded r ev tenant k e b w r' w' : answering (w_cache w) ->
  (_ ← _store_idempotent_response cfg key req r; _ ← rest (_publish_webhook_event sv ev);
   _ ← rest (_record_canary_outcome sv tenant k e b); mret r) w = (Ret r', w') ->
  r' = r /\ kept_for r w'.
Proof.
  intros Ha H. apply route_bind_ret in H as ([] & w1 & H1 & H).
  assert (Hs : kept_for r w1).
  { unfold _store_idempotent_response, on_cache, lift in H1. rewrite Hk in H1.
    pose proof (store_response_holds (E := route_exc) (st_cache cfg) (st_digest cfg) IDEMPOTENCY_TTL_SECONDS (st_stored cfg) t
      (default EmptyString key) 200 (model_dump cfg r) (scope_of req) (w_cache w) Ha (or_intror Ht)) as Hs.
    destruct (store_response _ _ _ _ _ _ _ _ _) as [[[]|] m]; simplify_eq/=. exact Hs. }
  set (P := holds (st_cache cfg) t entry_key (entry r)).
  apply (process_bound P) in H as ([] & w2 & H & H2); [|apply keeps_rest|exact Hs].
  apply (process_bound P) in H as ([] & w3 & [= -> <-] & H3); [|apply keeps_rest|exact H2]. by split.
Qed.

Lemma prepare_answering p c ps sf s cv th rq ut rd w pp w' : resilient (st_cache cfg) (w_cache w) ->
  _prepare cfg sv req p c ps sf s cv th rq ut rd w = (Ret pp, w') -> answering (w_cache w').
Proof.
  intros Hr H. unfold _prepare in H. apply route_bind_ret in H as ([provider override] & w1 & H1 & H).
  assert (Ha : answering (w_cache w1)).
  { unfold _resolve_catalog_model in H1. apply (process_bound (resilient (st_cache cfg))) in H1 as (rows & w2 & H1 & H2);
      [|apply keeps_rest|exact Hr].
    destruct (resolve_model _ _ _ _) as [[pr m]|]; [|done].
    apply (process_bound (resilient (st_cache cfg))) in H1 as (rows' & w3 & H1 & H3); [|apply keeps_rest|exact H2].
    apply route_bind_ret in H1 as ([] & w4 & H4 & [= _ _ <-]). unfold on_cache, lift in H4.
    pose proof (ceiling_answering (st_cache cfg) (tc_id c) pr m (estimate_tokens [cr_message req]) cost_window_seconds rows'
      (st_now cfg) (w_cache w3) H3) as Ha. destruct (check_cost_ceiling _ _ _ _ _ _ _ _ _) as [[[]|] m4]; by simplify_eq/=. }
  destruct (pinned_model _ _ _) as [pr ov]. do 4 (apply (process_bound answering) in H as (? & ? & H & Ha'); [|apply keeps_rest|exact Ha];
    clear Ha; rename Ha' into Ha; repeat match type of H with context [let '(_, _) := ?x in _] => destruct x end).
  apply (process_bound answering) in H as (? & ? & [= _ <-] & Ha'); [done|apply keeps_rest|exact Ha].
Qed.

Lemma process_stores p w r w' : resilient (st_cache cfg) (w_cache w) ->
  _process co_cfg adm_cfg cfg sv req key p w = (Ret r, w') -> kept_for r w'.
Proof.
  intros Hr H. unfold _process in H.
  do 10 (apply (process_bound (resilient (st_cache cfg))) in H as (? & ? & H & Hr');
    [|first [apply keeps_rest|apply keeps_load|apply keeps_open|apply keeps_surface|apply keeps_redact]|exact Hr];
    clear Hr; rename Hr' into Hr).
  match type of H with (if ?b then _ else _) _ = _ => destruct b end.
  - unfold _refuse in H. apply (process_bound answering) in H as ([] & w1 & H & Ha);
      [|apply keeps_rest|by eapply resilient_answering]. apply concluded in H as [-> Hs]; [done|exact Ha].
  - apply route_bind_ret in H as (pp & w1 & H1 & H). apply prepare_answering in H1; [|exact Hr].
    unfold _guarded_turn, acquire_lease, admit_turn in H. apply (process_bound answering) in H as (l & w2 & H & H2);
      [| |exact H1]; cycle 1.
    { apply keeps_bind; [|intros []; [apply keeps_ret|apply keeps_http]]. unfold try_lease.
      apply keeps_bind; [apply keeps_rest|intros; apply keeps_coordinator]. }
    apply (process_bound answering) in H as (h & w3 & H & H3); [| |exact H2]; cycle 1.
    { apply keeps_bind; [apply keeps_try_admit|intros []; [apply keeps_ret|apply keeps_http]]. }
    unfold finally in H. destruct (try_catch _ _ w3) as [o w4] eqn:Et. unfold try_catch in Et.
    assert (Hs : o = Ret r -> kept_for r w4).
    { intros ->. destruct (_answer cfg sv req p key pp w3) as [[a|e] w5] eqn:Ea; cycle 1.
      { destruct (report_raises p pp e w5) as [y Hy]. by rewrite Et in Hy. }
      injection Et as -> <-. apply (process_bound answering) in Ea as (s & w6 & Ea & H6); [|apply keeps_run_turn|exact H3].
      destruct (truthy_opt (error _)); [done|]. destruct (response_texts s) as [raw shown].
      apply (process_bound answering) in Ea as ([] & w7 & Ea & H7); [|apply keeps_rest|exact H6].
      apply concluded in Ea as [-> Hs]; done. }
    pose proof (fun Hs => keeps_give_back (holds (st_cache cfg) t entry_key (entry r)) l h w4 Hs) as Hg.
    destruct (give_back _ _ _ l h w4) as [[[]|e] w5]; [|done]. injection H as -> <-. apply Hg, Hs. done.
Qed.
End replay.

(** ** Between an answer and its retry *)

(** A request to the process: its settings hold the instants it runs at. *)
Record asked := {
  as_cfg : settings;
  as_sv : services R;
  as_req : ConversationRequest;
  as_key : option string;
  as_by : ConversationPrincipal;
}.

Definition posted (q : asked) : route reply :=
  process_conversation co_cfg adm_cfg (as_cfg q) (as_sv q) (as_req q) (as_key q) (as_by q).

(** Requests one after another up to the instant [t], each under another cache
    key than [k], or without a key, or finding the cache answering. *)
Inductive meanwhile (cc : CacheConfig) (k : string) (t : Z) : list asked -> world -> world -> Prop :=
| meanwhile_none w : meanwhile cc k t [] w w
| meanwhile_next q l w w' :
    st_cache (as_cfg q) = cc -> st_now (as_cfg q) <= t -> st_stored (as_cfg q) <= t ->
    (truthy_opt (as_key q) = true ->
     idem_key (st_digest (as_cfg q)) (default EmptyString (as_key q)) (scope_of (as_req q)) <> k \/ answering (w_cache w)) ->
    meanwhile cc k t l (posted q w).2 w' -> meanwhile cc k t (q :: l) w w'.

Lemma cost_is_no_entry digest key scope tenant provider model : cost_key tenant provider model <> idem_key digest key scope.
Proof. unfold idem_key. by destruct (truthy scope). Qed.
End route.

Section replayed.
Context {SC SG SD R : Type} `{KC : RedisKV SC string} `{HG : RedisKV SG Z} `{KG : !RedisCounter SG}
  `{KD : RedisKV SD CacheManager.cached}.
Context (co_cfg : CoordinatorConfig) (adm_cfg : AdmissionConfig).
Implicit Types w : world (SC := SC) (SG := SG) (SD := SD) (R := R).

(** A request under a stored key that finds the cache answering replays it. *)
Lemma replays cfg (sv : services R) req key p w status body : truthy_opt key = true -> answering (w_cache w) ->
  holds (st_cache cfg) (st_now cfg) (idem_key (st_digest cfg) (default EmptyString key) (scope_of req))
    (stored_response status body) (w_cache w) ->
  exists m, process_conversation co_cfg adm_cfg cfg sv req key p w = (Ret (Replayed (JNum status) body), put_cache m w)
    /\ forall t k v, holds (st_cache cfg) t k v (w_cache w) -> holds (st_cache cfg) t k v m.
Proof.
  intros Hk Ha Hh. destruct (get_response_holds (E := route_exc) (st_cache cfg) _ _ _ _ _ _ _ Ha Hh) as (m & Em & Hm).
  exists m. split; [|exact Hm]. unfold process_conversation. rewrite bind_cases, Hk. unfold on_cache, lift. by rewrite Em.
Qed.

(** Any other request leaves the entry. *)
Lemma posted_leaves (q : asked) k t digest key scope status body w : k = idem_key digest key scope ->
  st_now (as_cfg q) <= t -> st_stored (as_cfg q) <= t ->
  (truthy_opt (as_key q) = true ->
   idem_key (st_digest (as_cfg q)) (default EmptyString (as_key q)) (scope_of (as_req q)) <> k \/ answering (w_cache w)) ->
  holds (st_cache (as_cfg q)) t k (stored_response status body) (w_cache w) ->
  holds (st_cache (as_cfg q)) t k (stored_response status body) (w_cache (posted co_cfg adm_cfg q w).2).
Proof.
  intros -> Hn Hs Hother Hh. set (k := idem_key digest key scope) in *.
  destruct (truthy_opt (as_key q)) eqn:Hk; [destruct (decide (idem_key (st_digest (as_cfg q)) (default EmptyString (as_key q)) (scope_of (as_req q)) = k)) as [E|E]|].
  - destruct (Hother eq_refl) as [?|Ha]; [done|]. unfold posted.
    destruct (replays (as_cfg q) (as_sv q) (as_req q) (as_key q) (as_by q) w status body Hk Ha) as (m & -> & Hm).
    + rewrite E. by eapply holds_earlier.
    + cbn. by apply Hm.
  - unfold posted, process_conversation. rewrite Hk.
    refine (keeps_bind (holds (st_cache (as_cfg q)) t k (stored_response status body)) _ _ _ _ w Hh).
    + apply keeps_on_cache. intros m Hm. by apply leaves_get_response.
    + intros [l|]; [destruct (field "body" l); [apply keeps_ret|apply keeps_rest]|].
      apply keeps_bind; [|intros; apply keeps_ret]. apply keeps_process.
      * intros. apply ceiling_leaves; [done|apply cost_is_no_entry|done].
      * intros r m _ Hm. by apply leaves_store_response.
  - unfold posted, process_conversation. rewrite Hk.
    refine (keeps_bind (holds (st_cache (as_cfg q)) t k (stored_response status body)) _ _ _ _ w Hh); [apply keeps_ret|].
    intros [l|]; [destruct (field "body" l); [apply keeps_ret|apply keeps_rest]|].
    apply keeps_bind; [|intros; apply keeps_ret]. apply keeps_process.
    + intros. apply ceiling_leaves; [done|apply cost_is_no_entry|done].
    + intros r m Hk'. congruence.
Qed.

(** C15: an answer given under an idempotency key while the cache is reliable
    (without Redis, or Redis answers and the breaker is closed and tolerates
    the failures of one request) is replayed to a later request with the key
    and the same tenant slug, whoever sends it and whatever it says: up to a
    day after it was stored, after any sequence of other requests, and provided
    the breaker lets the retry's look-up through.  The retry touches the cache
    only: it takes no lease and no slot and runs no turn. *)
Theorem retry_replays cfg (sv : services R) req key p w r w1 : truthy_opt key = true ->
  reliable (st_cache cfg) (w_cache w) ->
  process_conversation co_cfg adm_cfg cfg sv req key p w = (Ret (Fresh r), w1) ->
  forall cfg' sv' req' p' others w2,
  st_cache cfg' = st_cache cfg -> st_digest cfg' = st_digest cfg -> cr_tenant_slug req' = cr_tenant_slug req ->
  st_stored cfg <= st_now cfg' < st_stored cfg + IDEMPOTENCY_TTL_SECONDS * 1000 ->
  meanwhile co_cfg adm_cfg (st_cache cfg) (entry_key cfg req key) (st_now cfg') others w1 w2 ->
  answering (w_cache w2) ->
  exists m, process_conversation co_cfg adm_cfg cfg' sv' req' key p' w2
    = (Ret (Replayed (JNum 200) (model_dump cfg r)), put_cache m w2).
Proof.
  intros Hk Hr H cfg' sv' req' p' others w2 Ecc Edg Eslug Ht Hl Ha.
  assert (H1 : holds (st_cache cfg) (st_now cfg') (entry_key cfg req key) (entry cfg r) (w_cache w1)).
  { unfold process_conversation in H. rewrite Hk in H. apply route_bind_ret in H as (o & w0 & H0 & H).
    assert (Hr0 : resilient (st_cache cfg) (w_cache w0)).
    { unfold on_cache, lift in H0. pose proof (get_response_resilient (E := route_exc) (st_cache cfg) (st_digest cfg)
        (st_now cfg) (default EmptyString key) (scope_of req) (w_cache w) Hr) as Hr0.
      destruct (get_response _ _ _ _ _ _) as [[]]; by simplify_eq/=. }
    destruct o as [l|]; [by destruct (field "body" l)|]. apply route_bind_ret in H as (r' & w3 & H & [= <- <-]).
    by eapply process_stores. }
  assert (H2 : holds (st_cache cfg) (st_now cfg') (entry_key cfg req key) (entry cfg r) (w_cache w2)).
  { clear H Ha Ht. induction Hl as [|q l w1 w2 <- Hn Hs Ho _ IH]; [done|]. apply IH.
    by eapply (posted_leaves q _ _ (st_digest cfg)). }
  unfold entry_key in H2. rewrite <- Ecc, <- Edg in H2. unfold scope_of in *. rewrite <- Eslug in H2.
  destruct (replays cfg' sv' req' key p' w2 200 (model_dump cfg r) Hk Ha H2) as (m & Hm & _). by exists m.
Qed.
End replayed.
