(* ===== verification/RouteExamples.v ===== *)
(** * Concrete requests to the conversation endpoint

    Services over a scripted model and a log of what was told to others: runs of the endpoint, the witnesses of its
    theorems, and what a lost command leaves behind. *)

From S2P Require Import Prelude Json Resilience CacheManager Redis Coordinator Admission Threads Summarizer Compaction ModelCatalog Catalog Types Context Tenant Governance Moderation Orchestration OrchestrationProps TurnExamples ConversationRoute RouteProps.

Module Desk.

(** The model's script, the rows of the conversation, the closed registries. *)
Record office := {
  model : Scripted.world;
  rows : list (string * string);
  closed : nat;
}.
Abbreviation effect := (io office turn_exc).

Definition on_model {A} (c : io Scripted.world turn_exc A) : effect A :=
  lift model (fun m o => Build_office m (rows o) (closed o)) (fun e => e) c.
Definition add_row (role content : string) : effect unit :=
  modify (fun o => Build_office (model o) (rows o ++ [(role, content)]) (closed o)).

Definition clock : ToolRow := {|
  tl_id := "1"; tl_tenant_id := "t1"; tl_name := "clock"; description := None; schema := JObj [];
  tl_enabled := true; auth_config := None |}.

Definition tools : registry_hooks office := {|
  tool_schemas := [JObj [("name", JStr "clock")]];
  tool_execute _ _ o := ([("content", JStr "noon"); ("is_error", JBool false)], o) |}.

(** The words of a stream, one event each. *)
Fixpoint say {A} (body : A -> StreamEvent -> office -> A * bool * office) (words : list string) (a : A) (o : office) :
    option turn_exc * A * office :=
  match words with
  | [] => (None, a, o)
  | t :: words => let '(a, on, o) := body a (EvDelta t) o in if on then say body words a o else (None, a, o)
  end.

Definition words : list string := ["The shop "; "opens at nine "; "on weekdays."].

(** [None] turns Presidio off. *)
Definition services_with (screen : option (string -> output_check)) : services office := {|
  sv_uuid := mret "u";
  sv_tenant slug := mret (if bool_decide (slug = "t") then Some "t1" else None);
  sv_effective _ _ := mret Scripted.tenant;
  sv_rate_limit _ := mret tt;
  sv_policy _ := mret (Some Scripted.allow_all);
  sv_create_policy _ := mret tt;
  sv_models := mret [];
  sv_conversation _ _ := mret {| cv_id := "c1"; cv_status := "active"; cv_created := false |};
  sv_surfaces := mret [];
  sv_thread _ _ _ _ := mret "th1";
  sv_append _ _ _ := mret "m1";
  sv_add_message m := add_row (pj_role m) (pj_content m);
  sv_mark_escalated _ := mret tt;
  sv_read_tail _ _ _ := mret [];
  sv_tool_result_seqs _ _ := mret [];
  sv_cached_summary _ _ := mret None;
  sv_get_thread _ _ := mret None;
  sv_cache_tail _ _ _ _ := mret tt;
  sv_presidio := match screen with Some _ => Some (mret None, fun text => mret text) | None => None end;
  sv_validate_input _ text _ _ :=
    let bad := bool_decide (text = "attack") in
    mret {| ic_valid := negb bad; ic_blocked := bad; ic_violations := [] |};
  sv_evaluate_output _ text _ _ := mret (match screen with
    | Some f => f text
    | None => {| oc_allowed := Some true; oc_redacted := None; oc_violations := []; oc_decision := None |}
    end);
  sv_generate _ r := on_model (Scripted.generate r);
  sv_stream _ r A body a o := say body words a o;
  sv_retrieve := None;
  sv_facts _ _ _ := mret [];
  sv_tools := mret [clock];
  sv_registry _ := mret tools;
  sv_close_registry := modify (fun o => Build_office (model o) (rows o) (S (closed o)));
  sv_escalate _ := mret {| ho_success := true; ho_ticket_id := None; ho_message := EmptyString |};
  sv_evidence _ := mret tt;
  sv_decision _ := mret tt;
  sv_spend _ _ _ := mret tt;
  sv_prompt _ _ := mret None;
  sv_compact _ _ := mret _noop_result;
  sv_publish _ := mret tt;
  sv_enqueue _ := mret true;
  sv_canary _ _ _ := mret tt |}.

Definition services : ConversationRoute.services office := services_with None.

Definition cfg : settings := {|
  st_estimator := new_estimator []; st_catalog := ∅; st_output_reserve := 100; st_cache_markers := false;
  st_compaction := DEFAULT_COMPACTION_CONFIG; st_platform_usd := 100; st_tenant_usd := 50;
  st_violation _ := None; st_hash _ := "h"; st_digest s := s;
  st_exc_text x := match x with TOther m => m | _ => "error" end;
  st_repr _ := EmptyString; st_loads _ := None; st_float_text _ := "0"; st_schedule _ := []; st_polls := [0]; st_now := 5;
  st_cache := default_cache_config; st_stored := 6 |}.

Abbreviation desk := (world (SC := kv_map string) (SG := kv_map Z) (SD := kv_map CacheManager.cached) (R := office)).

Definition world_of (faults : list fault) (script : list (outcome turn_exc string)) : desk := {|
  w_coordinator := {| co_redis := Some (Build_redis ∅ []); co_available := true; local_locks := ∅ |};
  w_gate := gate_on faults true;
  w_cache := new_cache_manager (Some (Build_redis ∅ []));
  w_rest := Build_office (Scripted.world_of script) [] 0 |}.

Definition guest : ConversationPrincipal :=
  {| cp_tenant_id := Some "t1"; cp_end_user_id := None; cp_is_session := false; cp_surface_id := None |}.
Definition stranger : ConversationPrincipal :=
  {| cp_tenant_id := Some "t2"; cp_end_user_id := None; cp_is_session := false; cp_surface_id := None |}.

Definition asking (text : string) : ConversationRequest :=
  {| cr_tenant_slug := "t"; cr_message := text; cr_session_id := Some "s" |}.

Definition post_at (c : settings) (key : option string) (p : ConversationPrincipal) (text : string) (w : desk) :=
  process_conversation default_coordinator_config small_config c services (asking text) key p w.
Definition post := post_at cfg.

(** The settings of a request that is looked up and stored at [t]. *)
Definition at_ (t : Z) : settings := {|
  st_estimator := st_estimator cfg; st_catalog := st_catalog cfg; st_output_reserve := st_output_reserve cfg;
  st_cache_markers := st_cache_markers cfg; st_compaction := st_compaction cfg; st_platform_usd := st_platform_usd cfg;
  st_tenant_usd := st_tenant_usd cfg; st_violation := st_violation cfg; st_hash := st_hash cfg;
  st_digest := st_digest cfg; st_exc_text := st_exc_text cfg; st_repr := st_repr cfg; st_loads := st_loads cfg;
  st_float_text := st_float_text cfg; st_schedule := st_schedule cfg; st_polls := st_polls cfg; st_now := t;
  st_cache := st_cache cfg; st_stored := t |}.

Definition answer_in (o : outcome route_exc reply) : option ConversationResponse :=
  match o with Ret (Fresh r) => Some r | _ => None end.
End Desk.
Import Desk.

Example first_answer :
  let '(o, w) := post (Some "k") guest "hi" (world_of [] [Ret Scripted.fine]) in
  (rs_response <$> answer_in o) = Some Scripted.fine /\ (rs_handoff_required <$> answer_in o) = Some false
  /\ rows (w_rest w) = [("user", "hi"); ("assistant", Scripted.fine)] /\ closed (w_rest w) = 1%nat
  /\ bool_decide (local_locks (w_coordinator w) = ∅) = true /\ platform_semaphore (w_gate w) = 2.
Proof. vm_compute. done. Qed.

(** The guardrails' refusal, and a principal of another tenant. *)
Example refusals :
  (rs_response <$> answer_in (post None guest "attack" (world_of [] [])).1) = Some refusal_text
  /\ (post None stranger "hi" (world_of [] [Ret Scripted.fine])).1
     = Raise (Http 403 "principal is scoped to a different tenant").
Proof. vm_compute. done. Qed.

(** The model's failure is a handoff, not an error of the endpoint. *)
Example model_fails :
  let '(o, w) := post None guest "hi" (world_of [] [Raise (TOther "down"); Raise (TOther "down"); Raise (TOther "down")]) in
  match o with Raise (Http 500 _) => True | Ret (Fresh r) => rs_handoff_required r = true | _ => False end
  /\ bool_decide (local_locks (w_coordinator w) = ∅) = true.
Proof. vm_compute. done. Qed.

Lemma slots_given_back_witness : let w := world_of [NoFault; NoFault] [Ret Scripted.fine] in
  kept small_config w (post (Some "k") guest "hi" w).2.
Proof.
  apply (slots_given_back default_coordinator_config small_config cfg services (asking "hi") (Some "k") guest
           (world_of [NoFault; NoFault] [Ret Scripted.fine])).
  intros _. repeat constructor.
Defined.

Lemma answer_in_eq (x : outcome route_exc reply * desk) r : answer_in x.1 = Some r -> x = (Ret (Fresh r), x.2).
Proof. by destruct x as [[[?|]|] w]; cbn; [intros [= ->]|..]. Qed.

(** The answer to the first message. *)
Definition told : ConversationResponse := {|
  rs_response := Scripted.fine; rs_confidence := 85 # 100; rs_handoff_required := false; rs_session_id := "s";
  rs_citations := []; rs_faithfulness := Some ungrounded; rs_thread_id := Some "th1" |}.

Lemma first_told : answer_in (post (Some "k") guest "hi" (world_of [] [Ret Scripted.fine])).1 = Some told.
Proof. vm_compute. reflexivity. Qed.

Lemma route_answer_checked_witness : exists c pp s r,
  own_tenant guest c /\ pp_config pp = c /\ answered_by cfg services (asking "hi") guest r pp s
  /\ settled (orchestration cfg services true guest pp) s /\ rs_response r = Scripted.fine.
Proof.
  pose proof (route_answer_checked default_coordinator_config small_config cfg services (asking "hi") (Some "k") guest
    (world_of [] [Ret Scripted.fine]) told _ (answer_in_eq _ _ first_told) eq_refl)
    as (c & Hc & [[H _]|(pp & s & Hp & Ha & Hs & _)]).
  - exfalso. vm_compute in H. discriminate H.
  - exists c, pp, s, told. split; [exact Hc|]. split; [exact Hp|]. split; [exact Ha|]. split; [exact Hs|reflexivity].
Defined.

(** Another request of another tenant's guest, hours later. *)
Definition in_between : asked :=
  {| as_cfg := at_ 7200000; as_sv := services; as_req := asking "attack"; as_key := Some "k2"; as_by := guest |}.

Definition first_world : desk := world_of [] [Ret Scripted.fine].

Lemma answering_of {St} (m : CacheManager St) :
  faults <$> cm_client m = Some [] -> Resilience.state (cm_breaker m) = CLOSED -> answering m.
Proof.
  unfold answering. destruct (cm_client m) as [c|]; [|done]. intros [= Hc] Hb. split; [|exact Hb].
  unfold healthy. rewrite Hc. constructor.
Qed.

(** The same key replays the answer to the stranger too, after another request
    and almost a day. *)
Lemma retry_replays_witness :
  let w1 := (post (Some "k") guest "hi" first_world).2 in
  let w2 := (posted default_coordinator_config small_config in_between w1).2 in
  reliable (st_cache cfg) (w_cache first_world) /\ answering (w_cache w2)
  /\ exists m, post_at (at_ 86400005) (Some "k") stranger "what did they say?" w2
       = (Ret (Replayed (JNum 200) (model_dump cfg told)), put_cache m w2).
Proof.
  intros w1 w2.
  assert (Hr : reliable (st_cache cfg) (w_cache first_world)).
  { right. exists 0, ∅. split; [|done]. eexists. split; [split; [reflexivity|constructor|reflexivity]|done]. }
  assert (Ha : answering (w_cache w2)).
  { apply answering_of; vm_compute; reflexivity. }
  split; [exact Hr|]. split; [exact Ha|].
  apply (retry_replays default_coordinator_config small_config cfg services (asking "hi") (Some "k") guest first_world told w1
    eq_refl Hr (answer_in_eq _ _ first_told) (at_ 86400005) services (asking "what did they say?") stranger [in_between] w2
    eq_refl eq_refl eq_refl); [vm_compute; split; [discriminate|reflexivity]| |exact Ha].
  apply (meanwhile_next _ _ _ _ _ in_between); [reflexivity|vm_compute; discriminate..| |apply meanwhile_none].
  intros _. left. vm_compute. discriminate.
Defined.

(** Three look-ups of unknown keys, by requests that are refused, open the
    breaker: the stored answer is not found and the message is processed again. *)
Example misses_lose_replays :
  let w1 := (post (Some "k") guest "hi" first_world).2 in
  let miss t k w := (post_at (at_ t) (Some k) stranger "hi" w).2 in
  let w2 := miss 30 "c" (miss 20 "b" (miss 10 "a" w1)) in
  match (post_at (at_ 40) (Some "k") guest "hi" w1).1 with Ret (Replayed (JNum 200) _) => True | _ => False end
  /\ match (post_at (at_ 40) (Some "k") guest "hi" w2).1 with Ret (Replayed _ _) => False | _ => True end.
Proof. vm_compute. done. Qed.

(** One reply lost while the slot is given back: the request fails, its
    thread stays locked in the process, its registry stays open, and every
    later message of the thread is refused. *)
Example lost_release_locks_thread :
  let '(o1, w1) := post None guest "hi" (world_of [NoFault; LostReply] [Ret Scripted.fine]) in
  let '(o2, w2) := post None guest "again" w1 in
  let '(o3, w3) := post None guest "again" w2 in
  o1 = Raise (Crash (TRaised (TOther "admission"))) /\ closed (w_rest w3) = 0%nat
  /\ bool_decide (local_locks (w_coordinator w3) = ∅) = false
  /\ o2 = o3 /\ o3 = Raise (Http 429 "Another message is being processed for this thread. Try again shortly.")
  /\ rows (w_rest w3) = [("user", "hi"); ("assistant", Scripted.fine); ("user", "again"); ("user", "again")].
Proof. vm_compute. done. Qed.
