(* ===== verification/ConversationStream.v ===== *)
(** * The streamed conversation endpoint (backend/app/api/routes/conversations.py)

    [stream_conversation]: the same preparation as [process_conversation], then
    a generator of Server-Sent Events.  The turn runs as a task of its own and
    hands its events to a queue, a second task adds heartbeats; the generator
    takes the queue's items as they come.  What the tasks do to the services
    between two items is part of the arrival, so every interleaving is one list
    of arrivals; a list that ends leaves the generator waiting, and cancels it.
    The client may leave at any frame. *)

From S2P Require Import Prelude Json Resilience CacheManager Redis Coordinator Admission StreamBuffer Threads Summarizer Compaction ModelCatalog Catalog Types Context Tenant Governance Moderation Orchestration ConversationRoute.

(** ** Frames *)

(** A Server-Sent Event: its name, its data, and its [id:] line. *)
Record frame := { fr_event : string; fr_data : json; fr_id : option Z }.

(** [_sse], with [json.dumps] for a parameter. *)
Definition newline : string := String (ascii_of_nat 10) EmptyString.
Definition _sse (dumps : json -> string) (f : frame) : string :=
  match fr_id f with Some i => "id: " +:+ pretty i +:+ newline | None => EmptyString end
  +:+ "event: " +:+ fr_event f +:+ newline +:+ "data: " +:+ dumps (fr_data f) +:+ newline +:+ newline.

Definition plain (event : string) (data : json) : frame := {| fr_event := event; fr_data := data; fr_id := None |}.
Definition numbered (event : string) (data : json) (id : Z) : frame :=
  {| fr_event := event; fr_data := data; fr_id := Some id |}.

Definition content_json (text : string) : json := JObj [("content", JStr text)].
Definition error_json (text : string) : json := JObj [("error", JStr text)].
Definition violations_json (l : list json) : json := JObj [("violations", JList l)].
Definition number_or_null (o : option Z) : json := match o with Some z => JNum z | None => JNull end.

Definition session_frame (session thread : string) : frame :=
  plain "session" (JObj [("session_id", JStr session); ("thread_id", JStr thread)]).
Definition guardrails_frame (ic : input_check) : frame :=
  plain "guardrails" (JObj [("valid", JBool (ic_valid ic)); ("blocked", JBool (ic_blocked ic));
                            ("violations", JList (ic_violations ic))]).
Definition compaction_frame (position : Z) (layers : option (list layer)) : frame :=
  plain "compaction" (JObj [("position", JNum position);
                            ("layer_count", JNum (Z.of_nat (length (default [] layers))))]).
Definition heartbeat_frame : frame := plain "heartbeat" (JObj []).
Definition error_frame (data : json) : frame := plain "error" data.
Definition delta_frame (text : string) (id : Z) : frame := numbered "delta" (content_json text) id.
Definition redaction_frame (l : list json) : frame := plain "redaction" (violations_json l).
Definition retraction_frame (l : list json) (from : option Z) : frame :=
  plain "retraction" (JObj [("violations", JList l); ("retract_from_event_id", number_or_null from)]).

(** A stored record as it is sent again; a record of another kind is not. *)
Definition replay_frame (r : chunk) : option frame :=
  if bool_decide (c_type r = "delta") then
    Some (numbered "delta" (JObj [("content", default JNull (get_field "content" (c_data r)))]) (c_id r))
  else if bool_decide (c_type r = "result") || bool_decide (c_type r = "error")
  then Some (numbered (c_type r) (c_data r) (c_id r))
  else None.

(** ** Arrivals *)

Inductive item :=
| IEvent (e : message_event)
| IException (x : turn_exc)
| IHeartbeat
| IDone.

Record arrival (R : Type) := { ar_now : Z; ar_meanwhile : R -> R; ar_item : item }.
Arguments ar_now {R}. Arguments ar_meanwhile {R}. Arguments ar_item {R}.

(** The result event of a turn. *)
Record turn_result := {
  tr_response : string;
  tr_confidence : Q;
  tr_handoff : bool;
  tr_citations : list citation;
  tr_faithfulness : option FaithfulnessResult;
}.

(** How a generator stops before its end: the client left, or it raised. *)
Inductive stop := Closed | Thrown (e : route_exc).

Record StreamSettings := {
  buf_prefix : string;
  ttl_seconds : Z;
  overflow_max_chunks : Z;
  uuid5 : string -> string;
  moderation_window_chars : Z;
  int_of : string -> option Z;
}.

Section stream.
Context {SC SG SD SB R : Type} `{KC : RedisKV SC string} `{HG : RedisKV SG Z} `{KG : !RedisCounter SG}
  `{KD : RedisKV SD CacheManager.cached}
  `{HB : RedisKV SB (list chunk)} `{LB : !RedisList SB chunk}.
Context (co_cfg : CoordinatorConfig) (adm_cfg : AdmissionConfig) (cfg : settings) (scfg : StreamSettings) (sv : services R).

Record stream_state := {
  ss_world : world (SC := SC) (SG := SG) (SD := SD) (R := R);
  ss_buffer : @StreamBuffer SB;
  ss_clock : Z;
  ss_out : list frame;
  ss_patience : nat;
}.

Abbreviation gen := (io stream_state stop).
Abbreviation route := (io (world (SC := SC) (SG := SG) (SD := SD) (R := R)) route_exc).

Definition put_world (w : world) (g : stream_state) : stream_state :=
  {| ss_world := w; ss_buffer := ss_buffer g; ss_clock := ss_clock g; ss_out := ss_out g;
     ss_patience := ss_patience g |}.
Definition put_buffer (b : StreamBuffer) (g : stream_state) : stream_state :=
  {| ss_world := ss_world g; ss_buffer := b; ss_clock := ss_clock g; ss_out := ss_out g;
     ss_patience := ss_patience g |}.

Definition on_world {A} (c : route A) : gen A := lift ss_world put_world Thrown c.
Definition on_rest {A} (c : io R turn_exc A) : gen A := on_world (rest c).
Definition on_buffer {A} (c : Z -> io (@StreamBuffer SB) stop A) : gen A := fun g =>
  lift ss_buffer put_buffer (fun e => e) (c (ss_clock g)) g.

(** A client that left does not take the frame. *)
Definition yield_ (f : frame) : gen unit := fun g =>
  match ss_patience g with
  | O => (Raise Closed, g)
  | S n => (Ret tt, {| ss_world := ss_world g; ss_buffer := ss_buffer g; ss_clock := ss_clock g;
                       ss_out := ss_out g ++ [f]; ss_patience := n |})
  end.

Definition arrive (a : arrival R) : gen unit := fun g =>
  (Ret tt, {| ss_world := put_rest (ar_meanwhile a (w_rest (ss_world g))) (ss_world g); ss_buffer := ss_buffer g;
              ss_clock := ar_now a; ss_out := ss_out g; ss_patience := ss_patience g |}).

(** ** The frames of a turn *)

(** The data of the result frame; floats are their text. *)
Definition result_json (text thread : string) (r : turn_result) : json := JObj [
  ("response", JStr text); ("confidence", JStr (st_float_text cfg (tr_confidence r)));
  ("handoff_required", JBool (tr_handoff r)); ("citations", JList (map (citation_json cfg) (tr_citations r)));
  ("faithfulness", faithfulness_json cfg (tr_faithfulness r)); ("thread_id", JStr thread)].
Definition refusal_json (thread : string) : json := JObj [
  ("response", JStr refusal_text); ("confidence", JStr (st_float_text cfg 1)); ("handoff_required", JBool false);
  ("thread_id", JStr thread)].

(** [GatewayError.kind] *)
Definition gateway_kind (e : turn_exc) : string :=
  match e with
  | TGateway (GatewayAdmissionError _) => "admission_exceeded"
  | TGateway (GatewayQuotaExceeded _ _ _) => "quota_exceeded"
  | TGateway (GatewayConfigurationError _) => "gateway_configuration"
  | TGateway (GatewayChainExhausted _ _ _ _ _) => "chain_exhausted"
  | TGatewayKind _ k => k
  | _ => "gateway_error"
  end.

(** The data of the error frame for an exception of the generator. *)
Definition crash_json (x : run_exc) : json :=
  match x with
  | TRaised e =>
      JObj ([("error", JStr (gateway_detail cfg e))]
            ++ (if is_gateway_error e
                then [("kind", JStr (gateway_kind e)); ("status", JNum (_gateway_http_status e))] else [])
            ++ match e with
               | TGateway (GatewayQuotaExceeded level limit projected) =>
                   [("level", JStr level); ("limit_usd", JStr (st_float_text cfg limit));
                    ("projected_usd", JStr (st_float_text cfg projected))]
               | _ => []
               end)
  | _ => error_json (crash_text cfg x)
  end.

Definition busy_json : json :=
  error_json "Another message is being processed for this thread. Retry in 15s.".

Definition refused_slot_json (after : Q) : json :=
  error_json ("Concurrent generation limit exceeded. Retry in "
              +:+ pretty (py_int after) +:+ "s.").

(** ** Releasing the text *)

Definition buffer_append (tenant thread stream type : string) (data : json) : gen Z :=
  on_buffer (fun now => append (uuid5 scfg) (buf_prefix scfg) (ttl_seconds scfg) (overflow_max_chunks scfg) now
                          tenant thread stream type data).
Definition buffer_terminal (tenant thread stream type : string) (data : json) : gen unit :=
  on_buffer (fun now => mark_terminal (uuid5 scfg) (buf_prefix scfg) (ttl_seconds scfg) (overflow_max_chunks scfg)
                          now tenant thread stream type data).

(** The validator of the window; without Presidio there is none. *)
Definition _stream_validator (c : TenantConfig) (session conversation : string) :
    option (string -> io R turn_exc verdict) :=
  match sv_presidio sv with
  | None => None
  | Some _ => Some (fun text =>
      oc ← sv_evaluate_output sv c text conversation session;
      match oc_allowed oc with
      | None => throw (TOther "allowed")
      | Some b => mret {| v_allowed := b; v_redacted := oc_redacted oc; v_violations := oc_violations oc |}
      end)
  end.

(** [tenant_config.stream_moderation_window_chars or settings...] *)
Definition moderation_window (c : TenantConfig) : Z :=
  match stream_moderation_window_chars c with
  | Some n => if n =? 0 then moderation_window_chars scfg else n
  | None => moderation_window_chars scfg
  end.

Definition withheld_window : string := "[content withheld]".

(** A call of the moderation window, whose validator works on the services. *)
Definition moderated (f : R -> option WindowRelease * window * R) : gen (option WindowRelease * window) := fun g =>
  let '(r, w, e) := f (w_rest (ss_world g)) in
  (Ret (r, w), put_world (put_rest e (ss_world g)) g).

Section turn.
Context (p : ConversationPrincipal) (pp : prepared (R := R)).

Definition p_tenant : string := tc_id (pp_config pp).
Definition p_key : string := request_key p (pp_session pp).
Definition validator : option (string -> io R turn_exc verdict) :=
  _stream_validator (pp_config pp) (pp_session pp) (pp_conversation pp).
Definition push_delta (text : string) (w : window) : gen (option WindowRelease * window) :=
  moderated (push validator (moderation_window (pp_config pp)) withheld_window text w).
Definition finish_window (w : window) : gen (option WindowRelease * window) :=
  moderated (finish validator withheld_window w).

Definition stream_append (data : json) : gen Z :=
  buffer_append p_tenant (pp_thread pp) (pp_request_id pp) "delta" data.
Definition stream_terminal (type : string) (data : json) : gen unit :=
  buffer_terminal p_tenant (pp_thread pp) (pp_request_id pp) type data.

(** A refused window ends the stream: the client drops what it was shown. *)
Definition _retract (reason : string) (l : list json) (from : option Z) : gen unit :=
  _ ← stream_terminal "error" (JObj [("error", JStr "output_moderation_redaction"); ("reason", JStr reason);
                                     ("violations", JList l)]);
  _ ← yield_ (redaction_frame l);
  _ ← yield_ (retraction_frame l from);
  _ ← on_rest (_publish_webhook_event sv (ContentModerated (pp_session pp) reason l));
  on_rest (_record_canary_outcome sv p_tenant p_key false true).

Definition _release (text : string) : gen Z :=
  seq ← stream_append (content_json text);
  _ ← yield_ (delta_frame text seq);
  mret seq.

(** The loop over the queue: the result of the turn, if the stream goes on,
    with the window and the last number released. *)
Fixpoint consume (l : list (arrival R)) (w : window) (last : option Z) :
    gen (option turn_result * window * option Z) :=
  match l with
  | [] => throw Closed
  | a :: l =>
      _ ← arrive a;
      match ar_item a with
      | IHeartbeat => _ ← yield_ heartbeat_frame; consume l w last
      | IException x => throw (Thrown (Crash (TRaised x)))
      | IDone => mret (None, w, last)
      | IEvent (MDelta text) =>
          '(release, w) ← push_delta text w;
          match (release : option WindowRelease) with
          | None => consume l w last
          | Some rel =>
              if wr_truncated rel then
                _ ← _retract "content_moderation" (wr_violations rel) last; mret (None, w, last)
              else seq ← _release (wr_text rel); consume l w (Some seq)
          end
      | IEvent (MError text) =>
          _ ← stream_terminal "error" (error_json text);
          _ ← yield_ (error_frame (error_json text));
          mret (None, w, last)
      | IEvent (MResult response conf _ handoff _ cites faith) =>
          mret (Some {| tr_response := response; tr_confidence := conf; tr_handoff := handoff;
                        tr_citations := cites; tr_faithfulness := faith |}, w, last)
      end
  end.

(** The text shown: the validator's redaction of the whole answer; what it
    refuses is shown all the same. *)
Definition final_text (response : string) : gen string :=
  match sv_presidio sv with
  | Some _ =>
      if truthy response then
        oc ← on_rest (sv_evaluate_output sv (pp_config pp) response (pp_conversation pp) (pp_session pp));
        mret (if truthy_opt (oc_redacted oc) then default EmptyString (oc_redacted oc) else response)
      else mret response
  | None => mret response
  end.

Definition streamed_metadata (r : turn_result) : list (string * json) := [
  ("confidence", JStr (st_float_text cfg (tr_confidence r))); ("handoff_required", JBool (tr_handoff r));
  ("streamed", JBool true)].

Definition _complete (r : turn_result) : gen unit :=
  text ← final_text (tr_response r);
  _ ← on_rest (_store_answer sv pp (tr_response r) text (streamed_metadata r) (tr_handoff r));
  _ ← on_rest (_publish_webhook_event sv (ConversationCompleted (pp_session pp) true (tr_handoff r) (tr_confidence r)));
  let data := result_json text (pp_thread pp) r in
  _ ← stream_terminal "result" data;
  _ ← yield_ (plain "result" data);
  on_rest (_record_canary_outcome sv p_tenant p_key false false).

(** What the window still holds goes before the result. *)
Definition _flush (w : window) (last : option Z) (r : turn_result) : gen unit :=
  '(tail, w) ← finish_window w;
  match (tail : option WindowRelease) with
  | Some rel =>
      if wr_truncated rel then _retract "content_moderation_tail" (wr_violations rel) last
      else
        _ ← (if truthy (wr_text rel) then _ ← _release (wr_text rel); mret tt else mret tt);
        _complete r
  | None => _complete r
  end.

(** The [try] and its [except]. *)
Definition _relay (l : list (arrival R)) : gen unit :=
  '(r, w, last) ← consume l new_window None;
  match (r : option turn_result) with
  | None => mret tt
  | Some r => _flush w last r
  end.

Definition _report_stream_failure (e : stop) : gen unit :=
  match e with
  | Thrown (Crash x) =>
      _ ← stream_terminal "error" (crash_json x);
      _ ← yield_ (error_frame (crash_json x));
      on_rest (_record_canary_outcome sv p_tenant p_key true false)
  | e => throw e
  end.

(** The generator: the refusal of the guardrails comes before the lease. *)
Definition _opening (ic : input_check) : gen unit :=
  _ ← yield_ (session_frame (pp_session pp) (pp_thread pp));
  _ ← yield_ (guardrails_frame ic);
  match cp_position (pp_checkpoint pp) with
  | Some n => yield_ (compaction_frame n (cp_layers (pp_checkpoint pp)))
  | None => mret tt
  end.

Definition _refuse_stream (ic : input_check) : gen unit :=
  _ ← on_rest (_store_refusal sv (pp_config pp) (pp_thread pp) (pp_conversation pp) (pp_user_turn pp) ic);
  _ ← yield_ (plain "result" (refusal_json (pp_thread pp)));
  on_rest (_record_canary_outcome sv p_tenant p_key false true).

Definition event_generator (ic : input_check) (l : list (arrival R)) : gen unit :=
  _ ← _opening ic;
  if refused ic then _refuse_stream ic
  else
    lease ← on_world (try_lease co_cfg cfg sv p_tenant (pp_thread pp));
    match (lease : option CoordinatorLease) with
    | None => yield_ (error_frame busy_json)
    | Some lease =>
        slot ← on_world (try_admit adm_cfg cfg p_tenant lease);
        match (slot : AdmissionHandle + Q) with
        | inr after => yield_ (error_frame (refused_slot_json after))
        | inl handle =>
            finally (try_catch (_relay l) _report_stream_failure)
              (on_world (give_back adm_cfg cfg sv lease handle))
        end
    end.
End turn.

(** ** The endpoint *)

(** What both branches need: where the stream is kept. *)
Record opened := {
  op_config : TenantConfig;
  op_policies : PolicySet;
  op_surface : option Surface;
  op_session : string;
  op_conversation : string;
  op_thread : string;
  op_request_id : string;
}.

Definition _open_stream (req : ConversationRequest) (key : option string) (p : ConversationPrincipal) : route opened :=
  session ← rest (or_uuid sv (cr_session_id req));
  c ← _load_tenant sv req p session;
  policies ← rest (_load_or_create_policy_set sv c);
  cv ← _open_conversation sv c session;
  surface ← _resolve_request_surface sv c p;
  thread ← rest (_bind_thread sv c (cv_id cv) p surface);
  request_id ← rest (if truthy_opt key then mret (default EmptyString key)
                     else id ← sv_uuid sv; mret ("req-" +:+ id));
  mret {| op_config := c; op_policies := policies; op_surface := surface; op_session := session;
          op_conversation := cv_id cv; op_thread := thread; op_request_id := request_id |}.

(** The id of [Last-Event-ID]; a text that is no number counts as none. *)
Definition last_event_id (header : option string) : Z :=
  if truthy_opt header then default 0 (int_of scfg (default EmptyString header)) else 0.

(** Whether the buffer answers: a reconnection, or a key whose stream ended. *)
Definition wants_replay (o : opened) (key header : option string) : gen bool :=
  if 0 <? last_event_id header then mret true
  else if truthy_opt key then
    t ← on_buffer (fun now => get_terminal (buf_prefix scfg) (ttl_seconds scfg) now (tc_id (op_config o)) (op_thread o)
                                (op_request_id o));
    mret (bool_decide (is_Some t))
  else mret false.

Fixpoint send_all (l : list frame) : gen unit :=
  match l with
  | [] => mret tt
  | f :: l => _ ← yield_ f; send_all l
  end.

Definition _replay (o : opened) (header : option string) : gen unit :=
  records ← on_buffer (fun now => replay (buf_prefix scfg) (ttl_seconds scfg) now (tc_id (op_config o)) (op_thread o)
                                    (op_request_id o) (last_event_id header));
  send_all (omap replay_frame records).

(** The turn is wired whatever the guardrails said; a window of no characters
    is a [ValueError]. *)
Definition _prepare_stream (req : ConversationRequest) (p : ConversationPrincipal) (o : opened) :
    route (input_check * prepared (R := R)) :=
  let c := op_config o in
  redacted ← _redact sv (cr_message req);
  user_turn ← rest (_record_user_turn sv c (op_thread o) (op_conversation o) (op_request_id o) (cr_message req) redacted p);
  ic ← rest (sv_validate_input sv c redacted (op_conversation o) (op_session o));
  history ← rest (_load_history_turns sv (tc_id c) (op_thread o));
  cp ← rest (_load_thread_summary sv (tc_id c) (op_thread o));
  '(provider, override) ← _resolve_catalog_model cfg sv c (cr_message req);
  let '(provider, override) := pinned_model (op_surface o) provider override in
  '(authorizer, gateway_cfg) ← rest (_build_governance_wiring cfg sv c (op_surface o) (op_session o) (op_conversation o));
  registry ← rest (sv_registry sv (tc_id c));
  prompt ← rest (sv_prompt sv (tc_id c) (op_session o));
  _ ← (match sv_presidio sv with
       | Some _ => if moderation_window c <=? 0 then rest (throw (TOther "window_size must be > 0")) else mret tt
       | None => mret tt
       end);
  mret (ic, {| pp_config := c; pp_policies := op_policies o; pp_surface := op_surface o; pp_session := op_session o;
               pp_conversation := op_conversation o; pp_thread := op_thread o; pp_request_id := op_request_id o;
               pp_user_turn := user_turn; pp_redacted := redacted; pp_override := override; pp_history := history;
               pp_checkpoint := cp; pp_authorizer := authorizer; pp_gateway_cfg := gateway_cfg;
               pp_registry := registry; pp_prompt := prompt |}).

(** What the queue delivers may depend on the turn that was wired. *)
Definition stream_conversation (req : ConversationRequest) (key header : option string) (p : ConversationPrincipal)
    (arrivals : prepared (R := R) -> list (arrival R)) : gen unit :=
  o ← on_world (_open_stream req key p);
  again ← wants_replay o key header;
  if (again : bool) then _replay o header
  else
    '(ic, pp) ← on_world (_prepare_stream req p o);
    event_generator p pp ic (arrivals pp).

(** The events of the turn the generator's producer runs, in their order. *)
Definition turn_events (req : ConversationRequest) (p : ConversationPrincipal) (pp : prepared) (e : R) : list message_event :=
  (stream_message (orchestration cfg sv false p pp) (turn_input_of req pp) (turn_context_of pp) (pp_checkpoint pp) e).1.
End stream.
