(* ===== verification/StreamProps.v ===== *)
(** * What the streamed endpoint promises

    The frames of a stream follow a grammar with one terminal frame at its
    end; a client that stays gets that frame, whatever the services raise; the
    lease and the slot are given back wherever the client leaves; the text of
    the deltas is what the moderation window released. *)

From S2P Require Import Prelude Json Resilience CacheManager Redis Coordinator Admission StreamBuffer Threads Summarizer Compaction ModelCatalog Catalog Types Context Tenant Governance Moderation Orchestration OrchestrationProps ConversationRoute RouteProps ConversationStream.

(** ** Computations that never raise *)

Class Returns {S X A} (c : io S X A) : Prop := returns : forall s, exists a s', c s = (Ret a, s').

#[global] Instance returns_ret {S X A} (a : A) : Returns (mret a : io S X A).
Proof. intros s. by eexists _, _. Qed.
#[global] Instance returns_get {S X} : Returns (get_st : io S X S).
Proof. intros s. by eexists _, _. Qed.
#[global] Instance returns_modify {S X} f : Returns (modify f : io S X unit).
Proof. intros s. by eexists _, _. Qed.
#[global] Instance returns_bind {S X A B} (c : io S X A) (f : A -> io S X B) :
  Returns c -> (forall a, Returns (f a)) -> Returns (c ≫= f).
Proof. intros Hc Hf s. rewrite bind_cases. destruct (Hc s) as (a & s' & ->). apply Hf. Qed.
#[global] Instance returns_try {S X Y A} (c : io S X A) (h : X -> io S Y A) :
  (forall e, Returns (h e)) -> Returns (try_catch c h).
Proof. intros Hh s. unfold try_catch. destruct (c s) as [[a|e] s']; [by eexists _, _|apply Hh]. Qed.

Ltac returns_tac := repeat first [apply _ | case_match | apply returns_bind; [|intros ?] | apply returns_try; intros ?].

Section buffer.
Context {SB : Type} `{HB : RedisKV SB (list chunk)} `{LB : !RedisList SB chunk}.

#[global] Instance mem_get_returns {E} now k : Returns (_mem_get (St := SB) (E := E) now k).
Proof. unfold _mem_get. returns_tac. Qed.
#[global] Instance set_entry_returns {E} k e : Returns (set_entry (St := SB) (E := E) k e).
Proof. unfold set_entry. returns_tac. Qed.
#[global] Instance mem_append_returns {E} ttl now k r : Returns (_mem_append (St := SB) (E := E) ttl now k r).
Proof. unfold _mem_append. returns_tac. Qed.
#[global] Instance mem_read_returns {E} now k a : Returns (_mem_read (St := SB) (E := E) now k a).
Proof. unfold _mem_read. returns_tac. Qed.
#[global] Instance spill_returns {E} u tn th st l : Returns (_spill_overflow u (St := SB) (E := E) tn th st l).
Proof. unfold _spill_overflow. returns_tac. Qed.
#[global] Instance append_returns {E} u pre ttl mx now tn th st ty d :
  Returns (append u (St := SB) pre ttl mx (E := E) now tn th st ty d).
Proof. unfold append. returns_tac. Qed.
#[global] Instance mark_terminal_returns {E} u pre ttl mx now tn th st ty d :
  Returns (mark_terminal u (St := SB) pre ttl mx (E := E) now tn th st ty d).
Proof. unfold mark_terminal. returns_tac. Qed.
#[global] Instance replay_returns {E} pre ttl now tn th st a : Returns (replay (St := SB) pre ttl (E := E) now tn th st a).
Proof. unfold replay, read_hot. returns_tac. Qed.
#[global] Instance get_terminal_returns {E} pre ttl now tn th st :
  Returns (get_terminal (St := SB) pre ttl (E := E) now tn th st).
Proof. unfold get_terminal. returns_tac. Qed.
End buffer.

#[global] Instance best_effort_returns {R A} (c : io R turn_exc A) : Returns (best_effort c).
Proof. unfold best_effort. returns_tac. Qed.

Section stream.
Context {SC SG SD SB R : Type} `{KC : RedisKV SC string} `{HG : RedisKV SG Z} `{KG : !RedisCounter SG}
  `{KD : RedisKV SD CacheManager.cached}
  `{HB : RedisKV SB (list chunk)} `{LB : !RedisList SB chunk}.
Context (co_cfg : CoordinatorConfig) (adm_cfg : AdmissionConfig) (cfg : settings) (scfg : StreamSettings) (sv : services R).

Abbreviation state := (stream_state (SC := SC) (SG := SG) (SD := SD) (SB := SB) (R := R)).
Abbreviation gen := (io state stop).
Implicit Types g : state.

#[global] Instance publish_returns e : Returns (_publish_webhook_event sv e).
Proof. unfold _publish_webhook_event. apply _. Qed.
#[global] Instance canary_returns t k e b : Returns (_record_canary_outcome sv t k e b).
Proof. unfold _record_canary_outcome. apply _. Qed.

(** ** What each step does to the frames *)

Definition same_out g g' : Prop := ss_out g' = ss_out g /\ ss_patience g' = ss_patience g.
#[global] Instance same_out_preorder : PreOrder same_out.
Proof. split; [done|]. intros ??? [] []. split; congruence. Qed.

Lemma on_rest_out {A} (c : io R turn_exc A) g :
  match on_rest (SB := SB) c g with
  | (Ret _, g') => same_out g g'
  | (Raise e, g') => same_out g g' /\ exists x, e = Thrown (Crash (TRaised x))
  end.
Proof.
  unfold on_rest, on_world, rest, lift. destruct (c (w_rest (ss_world g))) as [[a|x] r]; [done|]. split; [done|by eexists].
Qed.

Lemma on_rest_returns {A} (c : io R turn_exc A) g : Returns c -> exists a g', on_rest c g = (Ret a, g') /\ same_out g g'.
Proof.
  intros Hc. unfold on_rest, on_world, rest, lift. destruct (Hc (w_rest (ss_world g))) as (a & r & ->).
  by eexists _, _.
Qed.

Lemma on_buffer_returns {A} (c : Z -> io (@StreamBuffer SB) stop A) g : (forall now, Returns (c now)) ->
  exists a g', on_buffer c g = (Ret a, g') /\ same_out g g'.
Proof.
  intros Hc. unfold on_buffer, lift. destruct (Hc (ss_clock g) (ss_buffer g)) as (a & b & ->). by eexists _, _.
Qed.

Lemma moderated_out f g : exists a g', moderated f g = (Ret a, g') /\ same_out g g'.
Proof. unfold moderated. destruct (f _) as [[r w] e]. by eexists _, _. Qed.

Lemma yield_cases f g :
  (ss_patience g = O /\ yield_ f g = (Raise Closed, g))
  \/ exists g', yield_ f g = (Ret tt, g') /\ ss_out g' = ss_out g ++ [f] /\ ss_patience g = S (ss_patience g').
Proof. unfold yield_. destruct (ss_patience g); [by left|]. right. by eexists. Qed.

(** ** The grammar of a stream *)

Inductive stage := Start | Greeted | Checked | Flowing | Retracting | Over | Broken.

Definition next_stage (s : stage) (event : string) : stage :=
  match s with
  | Start => if bool_decide (event = "session") then Greeted else Broken
  | Greeted => if bool_decide (event = "guardrails") then Checked else Broken
  | Checked | Flowing =>
      if bool_decide (event = "compaction") then match s with Checked => Flowing | _ => Broken end
      else if bool_decide (event ∈ ["delta"; "heartbeat"]) then Flowing
      else if bool_decide (event ∈ ["error"; "result"]) then Over
      else if bool_decide (event = "redaction") then Retracting
      else Broken
  | Retracting => if bool_decide (event = "retraction") then Over else Broken
  | Over | Broken => Broken
  end.

Definition stage_of (l : list frame) : stage := foldl next_stage Start (map fr_event l).

Lemma stage_snoc l f : stage_of (l ++ [f]) = next_stage (stage_of l) (fr_event f).
Proof. unfold stage_of. by rewrite map_app, foldl_app. Qed.

Definition flowing g : Prop := stage_of (ss_out g) = Checked \/ stage_of (ss_out g) = Flowing.
Definition over g : Prop := stage_of (ss_out g) = Over.
Definition legal g : Prop := stage_of (ss_out g) <> Broken.

Lemma same_stage g g' : same_out g g' -> stage_of (ss_out g') = stage_of (ss_out g).
Proof. by intros [-> _]. Qed.
Lemma flowing_same g g' : same_out g g' -> flowing g -> flowing g'.
Proof. intros H. unfold flowing. by rewrite (same_stage _ _ H). Qed.
Lemma over_same g g' : same_out g g' -> over g -> over g'.
Proof. intros H. unfold over. by rewrite (same_stage _ _ H). Qed.
Lemma flowing_legal g : flowing g -> legal g.
Proof. unfold flowing, legal. intros [->| ->]; done. Qed.
Lemma over_legal g : over g -> legal g.
Proof. unfold over, legal. by intros ->. Qed.

(** The outcome of a part of the relay: where it leaves the frames, and, for a
    client with [n] frames of patience left, that it still has [k]; [d] says
    that the queue delivers an end. *)
Definition part {A} (d : bool) (P : A -> state -> Prop) (n k : nat) (r : outcome stop A * state) g : Prop :=
  match r with
  | (Ret a, g') => P a g' /\ (n <= ss_patience g -> k <= ss_patience g')%nat
  | (Raise Closed, g') => legal g' /\ (d = true -> ss_patience g < n)%nat
  | (Raise (Thrown (Crash _)), g') => flowing g' /\ (n <= ss_patience g -> 1 <= ss_patience g')%nat
  | (Raise (Thrown (Http _ _)), _) => False
  end.

Lemma part_bind {A B} d (P : A -> state -> Prop) (Q : B -> state -> Prop) n k j (c : gen A) (f : A -> gen B) g :
  part d P n k (c g) g -> (forall a g', P a g' -> part d Q k j (f a g') g') -> part d Q n j ((c ≫= f) g) g.
Proof.
  intros Hc Hf. rewrite bind_cases. destruct (c g) as [[a|[|[m e|x]]] g1]; try done.
  destruct Hc as [HP Hn]. specialize (Hf a g1 HP). unfold part in Hf |- *.
  destruct (f a g1) as [[b|[|[m e|x]]] g2]; destruct Hf; auto; (split; [done|]); intros; try lia.
  - specialize (H0 ltac:(done)). lia.
Qed.

Lemma part_ret {A} d (P : A -> state -> Prop) n a g : P a g -> part d P n n ((mret a : gen A) g) g.
Proof. done. Qed.

Lemma part_rest {A} d n (c : io R turn_exc A) g : flowing g -> (1 <= n)%nat ->
  part d (fun _ => flowing) n n (on_rest c g) g.
Proof.
  intros Hg Hn. pose proof (on_rest_out c g) as Ho. unfold part. destruct (on_rest c g) as [[a|e] g'].
  - pose proof Ho as [_ Hp]. split; [by eapply flowing_same|lia].
  - destruct Ho as [Ho [x ->]]. pose proof Ho as [_ Hp]. split; [by eapply flowing_same|lia].
Qed.

Lemma part_same {A} d (P : state -> Prop) n (c : gen A) g :
  (forall g1 g2, same_out g1 g2 -> P g1 -> P g2) -> P g ->
  (exists a g', c g = (Ret a, g') /\ same_out g g') -> part d (fun _ => P) n n (c g) g.
Proof. intros HP Hg (a & g' & -> & Hs). pose proof Hs as [_ Hp]. split; [by eapply HP|lia]. Qed.

Lemma part_yield d (P : state -> Prop) n f g : legal g ->
  (forall g', ss_out g' = ss_out g ++ [f] -> P g') -> part d (fun _ => P) (S n) n (yield_ f g) g.
Proof.
  intros Hg HP. destruct (yield_cases f g) as [[H0 ->]|(g' & -> & Ho & Hp)]; (split; [auto|]); lia.
Qed.

Lemma part_weaken {A} d (P Q : A -> state -> Prop) n n' k r g : (n <= n')%nat ->
  (forall a g', P a g' -> Q a g') -> part d P n k r g -> part d Q n' k r g.
Proof.
  intros Hn HPQ. unfold part. destruct r as [[a|[|[m e|x]]] g2]; [|..|done|];
    intros []; (split; [auto|]); intros; try lia. specialize (H0 H1). lia.
Qed.

(** A frame that goes on, and one that ends the stream. *)
Lemma yield_flow d n f g : fr_event f ∈ ["delta"; "heartbeat"] -> flowing g ->
  part d (fun _ => flowing) (S n) n (yield_ f g) g.
Proof.
  intros Hf Hg. apply part_yield; [by apply flowing_legal|]. intros g' Ho. right. rewrite Ho, stage_snoc.
  rewrite !elem_of_cons, elem_of_nil in Hf. destruct Hg as [-> | ->]; destruct Hf as [->|[->|[]]]; done.
Qed.
Lemma yield_over d n f g : fr_event f ∈ ["error"; "result"] -> flowing g ->
  part d (fun _ => over) (S n) n (yield_ f g) g.
Proof.
  intros Hf Hg. apply part_yield; [by apply flowing_legal|]. intros g' Ho. unfold over. rewrite Ho, stage_snoc.
  rewrite !elem_of_cons, elem_of_nil in Hf. destruct Hg as [-> | ->]; destruct Hf as [->|[->|[]]]; done.
Qed.
Lemma yield_redaction d n l g : flowing g ->
  part d (fun _ g' => stage_of (ss_out g') = Retracting) (S n) n (yield_ (redaction_frame l) g) g.
Proof.
  intros Hg. apply part_yield; [by apply flowing_legal|]. intros g' ->. rewrite stage_snoc. by destruct Hg as [-> | ->].
Qed.
Lemma yield_retraction d n l from g : stage_of (ss_out g) = Retracting ->
  part d (fun _ => over) (S n) n (yield_ (retraction_frame l from) g) g.
Proof.
  intros Hg. apply part_yield; [unfold legal; by rewrite Hg|]. intros g' Ho. unfold over. by rewrite Ho, stage_snoc, Hg.
Qed.

(** ** The parts of the relay *)

Section turn.
Context (p : ConversationPrincipal) (pp : prepared (R := R)).
Abbreviation key := (p_key p pp).

Lemma terminal_part d (P : state -> Prop) n ty data g : (forall g1 g2, same_out g1 g2 -> P g1 -> P g2) -> P g ->
  part d (fun _ => P) n n (stream_terminal scfg pp ty data g) g.
Proof.
  intros HP Hg. apply part_same; [exact HP|exact Hg|]. unfold stream_terminal, buffer_terminal.
  apply on_buffer_returns. apply _.
Qed.
Lemma announce_part {A} d (P : state -> Prop) n (c : io R turn_exc A) g : Returns c ->
  (forall g1 g2, same_out g1 g2 -> P g1 -> P g2) -> P g -> part d (fun _ => P) n n (on_rest c g) g.
Proof. intros Hc HP Hg. apply part_same; [exact HP|exact Hg|]. by apply on_rest_returns. Qed.

Lemma retract_part d n reason l from g : flowing g ->
  part d (fun _ => over) (S (S n)) n (_retract scfg sv p pp reason l from g) g.
Proof.
  intros Hg. unfold _retract.
  eapply part_bind; [apply terminal_part, Hg; exact flowing_same|intros ? g1 H1; cbv beta in H1].
  eapply part_bind; [by apply yield_redaction|intros ? g2 H2; cbv beta in H2].
  eapply part_bind; [by apply yield_retraction|intros ? g3 H3; cbv beta in H3].
  eapply part_bind; [apply announce_part, H3; [apply _|exact over_same]|intros ? g4 H4; cbv beta in H4].
  apply announce_part, H4; [apply _|exact over_same].
Qed.

Lemma release_part d n text g : flowing g ->
  part d (fun _ => flowing) (S n) n (_release scfg pp text g) g.
Proof.
  intros Hg. unfold _release.
  eapply (part_bind d (fun _ => flowing)); [apply part_same; [exact flowing_same|exact Hg|]|].
  { unfold stream_append, buffer_append. apply on_buffer_returns. apply _. }
  intros seq g1 H1. cbv beta in H1. eapply part_bind; [by apply yield_flow; [left|]|].
  intros ? g2 H2. by apply part_ret.
Qed.

Lemma complete_part d r g : flowing g -> part d (fun _ => over) 1 0 (_complete cfg scfg sv p pp r g) g.
Proof.
  intros Hg. unfold _complete.
  eapply (part_bind d (fun _ => flowing) _ 1 1).
  { unfold final_text. destruct (sv_presidio sv); [|by apply part_ret]. destruct (truthy _); [|by apply part_ret].
    eapply part_bind; [by apply part_rest|]. intros oc g1 H1. by apply part_ret. }
  intros text g1 H1. cbv beta in H1. eapply part_bind; [by apply part_rest|intros ? g2 H2; cbv beta in H2].
  eapply part_bind; [apply announce_part, H2; [apply _|exact flowing_same]|intros ? g3 H3; cbv beta in H3]. cbv zeta.
  eapply part_bind; [apply terminal_part, H3; exact flowing_same|intros ? g4 H4; cbv beta in H4].
  eapply part_bind; [by apply yield_over; [right; left|]|intros ? g5 H5; cbv beta in H5].
  apply announce_part, H5; [apply _|exact over_same].
Qed.

Lemma flush_part d w last r g : flowing g -> part d (fun _ => over) 2 0 (_flush cfg scfg sv p pp w last r g) g.
Proof.
  intros Hg. unfold _flush. eapply (part_bind d (fun _ => flowing)).
  { apply part_same; [exact flowing_same|exact Hg|]. apply moderated_out. }
  intros [[rel|] w'] g1 H1; cbv beta iota in H1 |- *.
  - destruct (wr_truncated rel); [by apply retract_part|].
    eapply (part_bind d (fun _ => flowing) _ 2 1); [|intros ? g2 H2; by apply complete_part].
    destruct (truthy _); [|by eapply part_weaken; [| |by apply (part_ret d (fun _ => flowing) 1)]; [lia|]].
    eapply part_bind; [by apply release_part|]. intros ? g2 H2. by apply part_ret.
  - eapply part_weaken; [| |by apply complete_part]; [lia|done].
Qed.

(** The queue holds an end. *)
Fixpoint delivers (l : list (arrival R)) : bool :=
  match l with
  | [] => false
  | a :: l =>
      match ar_item a with
      | IHeartbeat | IEvent (MDelta _) => delivers l
      | IDone => false
      | _ => true
      end
  end.

(** What the loop leaves: a stream that goes on, one that is over, or, when
    the queue was done without an end, one that just stops. *)
Definition consumed (d : bool) (x : option turn_result * window * option Z) g : Prop :=
  match x with
  | (Some _, _, _) => flowing g
  | (None, _, _) => over g \/ (d = false /\ flowing g)
  end.

Lemma consume_part l : forall w last g, flowing g ->
  part (delivers l) (consumed (delivers l)) (length l + 3) 2 (consume scfg sv p pp l w last g) g.
Proof.
  induction l as [|a l IH]; intros w last g Hg; cbn [consume].
  - split; [by apply flowing_legal|done].
  - eapply (part_bind _ (fun _ => flowing) _ _ (length (a :: l) + 3)).
    { apply part_same; [exact flowing_same|exact Hg|]. by eexists _, _. }
    intros ? g1 H1. cbv beta in H1. cbn [delivers length]. destruct (ar_item a) as [[text|response conf act handoff ob ci fa|text]|x| |].
    + eapply (part_bind _ (fun _ => flowing)).
      { apply part_same; [exact flowing_same|exact H1|]. apply moderated_out. }
      intros [[rel|] w'] g2 H2; cbv beta iota in H2 |- *.
      * destruct (wr_truncated rel).
        -- eapply (part_weaken _ (consumed _) _ 4); [lia|intros ?? HC; exact HC|].
           eapply part_bind; [by apply retract_part|]. intros ? g3 H3. apply part_ret. by left.
        -- eapply part_bind; [by apply release_part|]. intros seq g3 H3. by apply IH.
      * eapply part_weaken; [|intros ?? HC; exact HC|by apply IH]. lia.
    + eapply (part_weaken _ (consumed _) _ 2); [lia|intros ?? HC; exact HC|]. by apply part_ret.
    + eapply (part_weaken _ (consumed _) _ 3); [lia|intros ?? HC; exact HC|].
      eapply part_bind; [apply terminal_part, H1; exact flowing_same|intros ? g2 H2; cbv beta in H2].
      eapply part_bind; [by apply yield_over; [left|]|]. intros ? g3 H3. apply part_ret. by left.
    + split; [done|]. lia.
    + eapply part_bind; [by apply yield_flow; [right; left|]|]. intros ? g2 H2. by apply IH.
    + eapply (part_weaken _ (consumed _) _ 2); [lia|intros ?? HC; exact HC|]. apply part_ret. by right.
Qed.

Lemma report_part x g : flowing g ->
  match _report_stream_failure cfg scfg sv p pp (Thrown (Crash x)) g with
  | (Ret _, g') => over g'
  | (Raise Closed, g') => legal g' /\ ss_patience g = O
  | (Raise (Thrown _), _) => False
  end.
Proof.
  intros Hg. cbn [_report_stream_failure]. rewrite bind_cases.
  assert (Ht : exists a g1, stream_terminal scfg pp "error" (crash_json cfg x) g = (Ret a, g1) /\ same_out g g1)
    by (apply on_buffer_returns; apply _).
  destruct Ht as (? & g1 & -> & H1). pose proof H1 as [_ Hp]. apply flowing_same in H1; [|done]. rewrite bind_cases.
  destruct (yield_cases (error_frame (crash_json cfg x)) g1) as [[H0 ->]|(g2 & E2 & Ho & _)].
  - split; [by apply flowing_legal|congruence].
  - pose proof (yield_over false 0 (error_frame (crash_json cfg x)) g1 ltac:(left) H1) as H2.
    rewrite E2 in H2 |- *. destruct H2 as [H2 _]. destruct (on_rest_returns (_record_canary_outcome sv (p_tenant pp) key true false) g2 _) as (a & g3 & -> & H3). by eapply over_same.
Qed.

(** The relay with its handler. *)
Lemma relay_part l g : flowing g ->
  match try_catch (_relay cfg scfg sv p pp l) (_report_stream_failure cfg scfg sv p pp) g with
  | (Ret _, g') => over g' \/ (delivers l = false /\ flowing g')
  | (Raise Closed, g') => legal g' /\ (delivers l = true -> ss_patience g < length l + 3)%nat
  | (Raise (Thrown _), _) => False
  end.
Proof.
  intros Hg.
  assert (Hr : part (delivers l) (fun _ g' => over g' \/ (delivers l = false /\ flowing g')) (length l + 3) 0
                 (_relay cfg scfg sv p pp l g) g).
  { unfold _relay. eapply part_bind; [by apply consume_part|]. intros [[[r|] w] last] g1 H1; cbn [consumed] in H1; cbv beta iota.
    - eapply part_weaken; [..|by apply flush_part]; [lia|auto].
    - split; [done|]. lia. }
  unfold try_catch. destruct (_relay _ _ _ _ _ _ g) as [[[]|[|[m e|x]]] g1]; [by destruct Hr|exact Hr|done|].
  destruct Hr as [H1 Hn]. pose proof (report_part x g1 H1) as Hh.
  destruct (_report_stream_failure _ _ _ _ _ _ g1) as [[[]|[|e]] g2]; [by left| |done].
  destruct Hh as [? Hp]. split; [done|]. intros _. lia.
Qed.

(** ** The whole generator *)

Lemma on_world_out {A} (c : io (world (SC := SC) (SG := SG) (SD := SD) (R := R)) route_exc A) g :
  match on_world (SB := SB) c g with (Ret _, g') => same_out g g' | (Raise e, g') => same_out g g' /\ e <> Closed end.
Proof. unfold on_world, lift. by destruct (c (ss_world g)) as [[a|e] w]. Qed.

Lemma opening_part d n ic g : ss_out g = [] ->
  part d (fun _ => flowing) (3 + n) n (_opening pp ic g) g.
Proof.
  intros Hg. unfold _opening.
  eapply (part_bind _ (fun _ g' => stage_of (ss_out g') = Greeted)).
  { apply part_yield; [by unfold legal; rewrite Hg|]. intros g' ->. by rewrite Hg. }
  intros ? g1 H1. cbv beta in H1. eapply (part_bind _ (fun _ g' => stage_of (ss_out g') = Checked)).
  { apply part_yield; [by unfold legal; rewrite H1|]. intros g' ->. by rewrite stage_snoc, H1. }
  intros ? g2 H2. cbv beta in H2. destruct (cp_position _).
  - apply part_yield; [by unfold legal; rewrite H2|]. intros g' Ho. right. by rewrite Ho, stage_snoc, H2.
  - eapply part_weaken; [| |by apply (part_ret _ (fun _ => flowing) n); left]; [lia|done].
Qed.

Lemma finally_out {A} (c : gen A) (f : gen unit) g : (forall g1, same_out g1 (f g1).2) ->
  same_out (c g).2 (finally c f g).2
  /\ ((c g).1 <> Raise Closed -> (forall g1, (f g1).1 <> Raise Closed) -> (finally c f g).1 <> Raise Closed).
Proof.
  intros Hf. unfold finally. destruct (c g) as [r g1]. specialize (Hf g1). cbn in Hf |- *.
  destruct (f g1) as [[[]|x] g2] eqn:E; cbn in Hf |- *; (split; [done|]); [done|]. intros _ H Hx. specialize (H g1).
  rewrite E in H. cbn in H. congruence.
Qed.

Lemma give_back_out lease handle g : same_out g (on_world (SB := SB) (give_back adm_cfg cfg sv lease handle) g).2
  /\ (on_world (SB := SB) (give_back adm_cfg cfg sv lease handle) g).1 <> Raise Closed.
Proof.
  pose proof (on_world_out (give_back adm_cfg cfg sv lease handle) g) as H.
  destruct (on_world _ g) as [[a|e] g']; cbn; [by split|]. destruct H as [H1 H2]. split; [done|congruence].
Qed.

Lemma refuse_legal ic g : flowing g -> legal (_refuse_stream cfg sv p pp ic g).2.
Proof.
  intros Hg.
  assert (H : part true (fun _ => over) 1 0 (_refuse_stream cfg sv p pp ic g) g).
  { unfold _refuse_stream. eapply part_bind; [by apply part_rest|intros ? g1 H1; cbv beta in H1].
    eapply part_bind; [by apply yield_over; [right; left|]|intros ? g2 H2; cbv beta in H2].
    apply announce_part, H2; [apply _|exact over_same]. }
  destruct (_refuse_stream _ _ _ _ _ g) as [[a|[|[m e|x]]] g1]; destruct H; cbn; [by apply over_legal|done|by apply flowing_legal].
Qed.

(** Where the generator leaves the frames. *)
Lemma generator_legal ic l g : ss_out g = [] -> legal (event_generator co_cfg adm_cfg cfg scfg sv p pp ic l g).2.
Proof.
  intros Hg. unfold event_generator. rewrite bind_cases. pose proof (opening_part true 0 ic g Hg) as Ho.
  destruct (_opening pp ic g) as [[[]|[|[m e|x]]] g1]; [|by destruct Ho|done|by destruct Ho; apply flowing_legal].
  destruct Ho as [H1 _]. destruct (refused ic); [by apply refuse_legal|]. rewrite bind_cases.
  pose proof (on_world_out (try_lease co_cfg cfg sv (p_tenant pp) (pp_thread pp)) g1) as Hl.
  destruct (on_world _ g1) as [[[lease|]|e] g2].
  - apply flowing_same in Hl; [|done]. rewrite bind_cases.
    pose proof (on_world_out (try_admit adm_cfg cfg (p_tenant pp) lease) g2) as Ha.
    destruct (on_world _ g2) as [[[h|after]|e] g3].
    + apply flowing_same in Ha; [|done].
      destruct (finally_out (try_catch (_relay cfg scfg sv p pp l) (_report_stream_failure cfg scfg sv p pp))
        (on_world (give_back adm_cfg cfg sv lease h)) g3) as [Hs _]; [intros; apply give_back_out|].
      unfold legal. rewrite (same_stage _ _ Hs). pose proof (relay_part l g3 Ha) as Hr.
      destruct (try_catch _ _ g3) as [[[]|[|e]] g4]; [| |done]; cbn.
      * destruct Hr as [Hr|[_ Hr]]; [by apply over_legal|by apply flowing_legal].
      * by destruct Hr.
    + apply flowing_same in Ha; [|done]. pose proof (yield_over false 0 (error_frame (refused_slot_json after)) g3 ltac:(left) Ha) as Hy.
      destruct (yield_ _ g3) as [[[]|[|[]]] g4]; destruct Hy; cbn; [by apply over_legal|done|by apply flowing_legal].
    + destruct Ha as [Ha _]. apply flowing_legal. by eapply flowing_same.
  - apply flowing_same in Hl; [|done]. pose proof (yield_over false 0 (error_frame busy_json) g2 ltac:(left) Hl) as Hy.
    destruct (yield_ _ g2) as [[[]|[|[]]] g4]; destruct Hy; cbn; [by apply over_legal|done|by apply flowing_legal].
  - destruct Hl as [Hl _]. apply flowing_legal. by eapply flowing_same.
Qed.

(** ** One terminal frame, at the end *)

Definition terminal (f : frame) : bool := bool_decide (fr_event f ∈ ["result"; "error"; "retraction"]).

Lemma next_terminal s f : s <> Broken -> terminal f = true -> next_stage s (fr_event f) = Over \/ next_stage s (fr_event f) = Broken.
Proof.
  unfold terminal. intros Hs H%bool_decide_eq_true. rewrite !elem_of_cons, elem_of_nil in H.
  destruct H as [->|[->|[->|[]]]]; destruct s; cbn; try (by left); by right.
Qed.

Lemma live_stage l : stage_of l <> Over -> stage_of l <> Broken -> Forall (fun f => terminal f = false) l.
Proof.
  induction l as [|f l IH] using rev_ind; [constructor|]. rewrite stage_snoc. intros Ho Hb.
  assert (Hl : stage_of l <> Over /\ stage_of l <> Broken) by (split; intros E; rewrite E in Hb; by apply Hb).
  apply Forall_app. split; [by apply IH; apply Hl|]. constructor; [|constructor].
  destruct (terminal f) eqn:Ht; [|done]. by destruct (next_terminal (stage_of l) f (proj2 Hl) Ht).
Qed.

Lemma legal_shape l : stage_of l <> Broken -> Forall (fun f => terminal f = false) (removelast l).
Proof.
  destruct l as [|f l _] using rev_ind; [constructor|]. rewrite removelast_last, stage_snoc. intros Hb.
  apply live_stage; intros E; rewrite E in Hb; by apply Hb.
Qed.

Lemma over_shape l : stage_of l = Over -> exists pre f, l = pre ++ [f] /\ terminal f = true
  /\ Forall (fun f => terminal f = false) pre.
Proof.
  destruct l as [|f l _] using rev_ind; [done|]. intros H. exists l, f. split; [done|].
  rewrite stage_snoc in H. split.
  - unfold terminal. apply bool_decide_eq_true. rewrite !elem_of_cons.
    destruct (stage_of l); cbn in H; repeat (case_bool_decide; [try discriminate H|]); try discriminate H; set_solver.
  - apply live_stage; intros E; rewrite E in H; discriminate H.
Qed.

(** *** Steps that never fail *)

Lemma yield_world f g : ss_world (yield_ f g).2 = ss_world g.
Proof. unfold yield_. by destruct (ss_patience g). Qed.

Lemma opening_stays ic g :
  let '(o, g') := _opening pp ic g in
  ss_world g' = ss_world g /\ match o with Raise (Thrown _) => False | _ => True end.
Proof.
  assert (Hy : forall f g', let '(o, g2) := yield_ f g' in ss_world g2 = ss_world g' /\ match o with Raise (Thrown _) => False | _ => True end).
  { intros f g'. unfold yield_. by destruct (ss_patience g'). }
  unfold _opening. rewrite bind_cases. pose proof (Hy (session_frame (pp_session pp) (pp_thread pp)) g) as H.
  destruct (yield_ _ g) as [[[]|e] g1]; [|done]. destruct H as [<- _]. rewrite bind_cases.
  pose proof (Hy (guardrails_frame ic) g1) as H. destruct (yield_ _ g1) as [[[]|e] g2]; [|done]. destruct H as [<- _].
  destruct (cp_position _); [|done]. apply Hy.
Qed.

Lemma try_lease_returns tenant thread : Returns (sv_uuid sv) ->
  Returns (try_lease (SG := SG) (SD := SD) co_cfg cfg sv tenant thread).
Proof.
  intros Hu. unfold try_lease. apply returns_bind.
  - intros w. unfold rest, lift. destruct (Hu (w_rest w)) as (a & r & ->). by eexists _, _.
  - intros token w. unfold lift.
    assert (Hr : Returns (try_catch (E := coordinator_exc) (l ← acquire co_cfg tenant thread token (st_polls cfg); mret (Some l))
      (fun e => match e with CoordinatorBusy _ => mret None end) : io (@ThreadCoordinator SC) route_exc (option CoordinatorLease))).
    { apply returns_try. intros []. apply _. }
    destruct (Hr (w_coordinator w)) as (a & c & ->). by eexists _, _.
Qed.

Lemma release_lease_returns lease : Returns (release_lease (SC := SC) (SG := SG) (SD := SD) (R := R) cfg lease).
Proof.
  intros w. unfold release_lease, lift.
  assert (Hr : Returns ((lease_release (E := route_exc) (st_now cfg) lease).1 : io (@ThreadCoordinator SC) _ _)).
  { unfold lease_release, _release_redis_lock. destruct (l_released lease); cbn; returns_tac. }
  destruct (Hr (w_coordinator w)) as (a & c & ->). by eexists _, _.
Qed.

Lemma try_admit_serving tenant lease (w : world (SC := SC) (SG := SG) (SD := SD) (R := R)) : no_lost_command (w_gate w) ->
  exists r w', try_admit adm_cfg cfg tenant lease w = (Ret r, w').
Proof.
  intros Hw. unfold try_admit. pose proof (gate_admit_serving adm_cfg (st_now cfg) tenant (w_gate w) Hw) as Ha.
  destruct (gate_admit _ _ _ _) as [[h|[ra|]] gt]; [by eexists _, _| |by destruct Ha as [_ []]].
  rewrite bind_cases. pose proof (release_lease_returns lease (put_gate gt w)) as (a & w' & ->). by eexists _, _.
Qed.

(** *** The queue of a turn *)

Definition is_heartbeat (i : item) : bool := match i with IHeartbeat => true | _ => false end.

(** The queue's items are the turn's events in their order, then the mark of
    the end, with heartbeats anywhere. *)
Definition queue_of (evs : list message_event) (l : list (arrival R)) : Prop :=
  List.filter (fun i => negb (is_heartbeat i)) (map ar_item l) = map IEvent evs ++ [IDone].

Lemma queue_delivers evs fin l : (forall t, fin <> MDelta t) -> forall ds, evs = map MDelta ds ++ [fin] ->
  queue_of evs l -> delivers l = true.
Proof.
  intros Hfin. revert evs. induction l as [|a l IH]; intros evs ds Hevs Hq; unfold queue_of in Hq; subst evs.
  - destruct ds; discriminate Hq.
  - cbn [map List.filter delivers] in Hq |- *. destruct (ar_item a) as [[text|?|?]|x| |] eqn:Ei; cbn in Hq; try done.
    + destruct ds as [|d ds]; cbn in Hq; [injection Hq as Hq _; by destruct (Hfin text)|].
      injection Hq as _ Hq. by apply (IH _ ds eq_refl).
    + by apply (IH _ ds eq_refl).
    + destruct ds; discriminate Hq.
Qed.

Lemma final_event_ends {E} (self : Orchestration.service E) r t : final_event self r <> MDelta t.
Proof. unfold final_event. repeat case_match; done. Qed.

Lemma turn_queue_delivers req e l : queue_of (turn_events cfg sv req p pp e) l -> delivers l = true.
Proof.
  unfold turn_events, stream_message. destruct (process_message _ _ _ _ _) as [r [e' q]]. cbn [fst].
  eapply queue_delivers; [|reflexivity]. intros t. apply final_event_ends.
Qed.

(** C4: a client that stays to the end of a turn that was let in gets exactly
    one terminal frame, and it is the last, whatever the services raise and
    however the events of the turn and the heartbeats interleave, while the
    gate's Redis loses no command. *)
Theorem stream_ends req e ic l g : ss_out g = [] -> refused ic = false ->
  Returns (sv_uuid sv) -> no_lost_command (w_gate (ss_world g)) ->
  queue_of (turn_events cfg sv req p pp e) l -> (length l + 6 <= ss_patience g)%nat ->
  let '(o, g') := event_generator co_cfg adm_cfg cfg scfg sv p pp ic l g in
  o <> Raise Closed /\ exists pre f, ss_out g' = pre ++ [f] /\ terminal f = true
    /\ Forall (fun f => terminal f = false) pre.
Proof.
  intros Hg Hic Hu Hw Hq Hp. apply turn_queue_delivers in Hq.
  enough (let '(o, g') := event_generator co_cfg adm_cfg cfg scfg sv p pp ic l g in o <> Raise Closed /\ over g') as H.
  { destruct (event_generator _ _ _ _ _ _ _ _ _ g) as [o g']. destruct H as [H1 H2]. split; [done|by apply over_shape]. }
  unfold event_generator. rewrite bind_cases. pose proof (opening_part true (length l + 3) ic g Hg) as Ho.
  pose proof (opening_stays ic g) as Hs.
  destruct (_opening pp ic g) as [[[]|[|x]] g1]; destruct Hs as [Hs Hx]; [|destruct Ho as [_ Ho]; specialize (Ho eq_refl); lia|done].
  destruct Ho as [H1 Hp1]. specialize (Hp1 ltac:(lia)). rewrite Hic, bind_cases. unfold on_world at 1, lift.
  rewrite <- Hs in Hw. pose proof (try_lease_spec co_cfg cfg sv (p_tenant pp) (pp_thread pp) (ss_world g1)) as Hl.
  pose proof (try_lease_returns (p_tenant pp) (pp_thread pp) Hu (ss_world g1)) as (lease & w1 & El). rewrite El in Hl |- *.
  destruct Hl as [Hg1 Hl]. set (g2 := put_world w1 g1). destruct lease as [lease|]; cycle 1.
  { destruct (yield_cases (error_frame busy_json) g2) as [[H0 _]|(g3 & E3 & _)]; [cbn in H0; lia|].
    pose proof (yield_over true 0 (error_frame busy_json) g2 ltac:(left) H1) as Hy. rewrite E3 in Hy |- *. by destruct Hy. }
  rewrite bind_cases. unfold on_world at 1, lift. rewrite <- Hg1 in Hw.
  pose proof (try_admit_serving (p_tenant pp) lease w1 Hw) as (slot & w2 & Ea).
  change (ss_world g2) with w1. rewrite Ea. set (g3 := put_world w2 g2).
  destruct slot as [h|after]; cycle 1.
  { destruct (yield_cases (error_frame (refused_slot_json after)) g3) as [[H0 _]|(g4 & E4 & _)]; [cbn in H0; lia|].
    pose proof (yield_over true 0 (error_frame (refused_slot_json after)) g3 ltac:(left) H1) as Hy.
    rewrite E4 in Hy |- *. by destruct Hy. }
  destruct (finally_out (try_catch (_relay cfg scfg sv p pp l) (_report_stream_failure cfg scfg sv p pp))
    (on_world (give_back adm_cfg cfg sv lease h)) g3) as [Hf Hc]; [intros; apply give_back_out|].
  pose proof (relay_part l g3 H1) as Hr.
  destruct (finally _ _ g3) as [o g5]. cbn [fst snd] in Hf, Hc.
  destruct (try_catch _ _ g3) as [[[]|[|x]] g4]; [| |done]; cbn [fst snd] in Hf, Hc.
  - split; [apply Hc; [done|intros; apply give_back_out]|]. eapply over_same; [exact Hf|].
    destruct Hr as [Hr|[Hr _]]; [done|congruence].
  - destruct Hr as [_ Hr]. specialize (Hr Hq). cbn in Hr. lia.
Qed.
End turn.

(** ** The lease and the slot *)

Class GenRest {A} (c : gen A) : Prop :=
  gen_rest : forall g, w_coordinator (ss_world (c g).2) = w_coordinator (ss_world g)
                       /\ w_gate (ss_world (c g).2) = w_gate (ss_world g).

#[global] Instance gen_rest_ret {A} (a : A) : GenRest (mret a).
Proof. by intros g. Qed.
#[global] Instance gen_rest_throw {A} e : GenRest (throw e : gen A).
Proof. by intros g. Qed.
#[global] Instance gen_rest_bind {A B} (c : gen A) (f : A -> gen B) :
  GenRest c -> (forall a, GenRest (f a)) -> GenRest (c ≫= f).
Proof.
  intros Hc Hf g. rewrite bind_cases. specialize (Hc g). destruct (c g) as [[a|e] g1]; [|done].
  destruct Hc as [H1 H2], (Hf a g1) as [H3 H4]. cbn [snd] in *. by rewrite H3, H4.
Qed.
#[global] Instance gen_rest_try {A} (c : gen A) h : GenRest c -> (forall e, GenRest (h e)) -> GenRest (try_catch c h).
Proof.
  intros Hc Hf g. unfold try_catch. specialize (Hc g). destruct (c g) as [[a|e] g1]; [done|].
  destruct Hc as [H1 H2], (Hf e g1) as [H3 H4]. cbn [snd] in *. by rewrite H3, H4.
Qed.
#[global] Instance gen_rest_yield f : GenRest (yield_ f).
Proof. intros g. unfold yield_. by destruct (ss_patience g). Qed.
#[global] Instance gen_rest_on_rest {A} (c : io R turn_exc A) : GenRest (on_rest c).
Proof. intros g. unfold on_rest, on_world, rest, lift. by destruct (c _) as [[a|e] r]. Qed.
#[global] Instance gen_rest_buffer {A} (c : Z -> io (@StreamBuffer SB) stop A) : GenRest (on_buffer c).
Proof. intros g. unfold on_buffer, lift. by destruct (c _ _) as [[a|e] r]. Qed.
#[global] Instance gen_rest_moderated f : GenRest (moderated f).
Proof. intros g. unfold moderated. by destruct (f _) as [[r w] e]. Qed.
#[global] Instance gen_rest_arrive a : GenRest (arrive a).
Proof. by intros g. Qed.
#[global] Instance gen_rest_world {A} (c : io (world (SC := SC) (SG := SG) (SD := SD) (R := R)) route_exc A) :
  RestOnly c -> GenRest (on_world c).
Proof. intros Hc g. unfold on_world, lift. specialize (Hc (ss_world g)). by destruct (c (ss_world g)) as [[a|e] w]. Qed.

Ltac gen_rest_tac :=
  repeat first [apply _ | case_match | apply gen_rest_bind; [|intros ?] | apply gen_rest_try; [|intros ?]].

#[global] Instance retract_rest p pp reason l from : GenRest (_retract scfg sv p pp reason l from).
Proof. unfold _retract, stream_terminal, buffer_terminal. gen_rest_tac. Qed.
#[global] Instance release_rest pp text : GenRest (_release scfg pp text).
Proof. unfold _release, stream_append, buffer_append. gen_rest_tac. Qed.
#[global] Instance consume_rest p pp l : forall w last, GenRest (consume scfg sv p pp l w last).
Proof.
  induction l as [|a l IH]; intros w last; cbn [consume]; [apply _|].
  apply gen_rest_bind; [apply _|intros _]. unfold push_delta, stream_terminal, buffer_terminal.
  gen_rest_tac; apply IH.
Qed.
#[global] Instance final_text_rest pp text : GenRest (final_text (SC := SC) (SG := SG) (SD := SD) (SB := SB) sv pp text).
Proof. unfold final_text. gen_rest_tac. Qed.
#[global] Instance terminal_rest pp ty d : GenRest (stream_terminal scfg pp ty d).
Proof. unfold stream_terminal, buffer_terminal. apply _. Qed.
#[global] Instance complete_rest p pp r : GenRest (_complete cfg scfg sv p pp r).
Proof. unfold _complete. repeat (apply gen_rest_bind; [apply _|intros ?]). apply _. Qed.
#[global] Instance flush_rest p pp w last r : GenRest (_flush cfg scfg sv p pp w last r).
Proof.
  unfold _flush, finish_window. apply gen_rest_bind; [apply _|]. intros [[rel|] w']; [|apply _].
  destruct (wr_truncated rel); [apply _|]. apply gen_rest_bind; [|intros _; apply _].
  destruct (truthy _); [|apply _]. apply gen_rest_bind; [apply _|intros ?; apply _].
Qed.
#[global] Instance relay_rest p pp l : GenRest (_relay cfg scfg sv p pp l).
Proof. unfold _relay. apply gen_rest_bind; [apply _|]. intros [[[r|] w] last]; apply _. Qed.
#[global] Instance report_rest p pp e : GenRest (_report_stream_failure cfg scfg sv p pp e).
Proof.
  destruct e as [|[m d|x]]; cbn [_report_stream_failure]; [apply _..|].
  repeat (apply gen_rest_bind; [apply _|intros ?]). apply _.
Qed.

Definition stays (g g' : state) : Prop := kept adm_cfg (ss_world g) (ss_world g').
Definition BalancedGen {A} (c : gen A) : Prop :=
  forall g, no_lost_command (w_gate (ss_world g)) -> stays g (c g).2.

Lemma balanced_gen_rest {A} (c : gen A) : GenRest c -> BalancedGen c.
Proof. intros H g Hw. destruct (H g) as [H1 H2]. split; by rewrite ?H1, ?H2. Qed.
Lemma balanced_gen_world {A} (c : io (world (SC := SC) (SG := SG) (SD := SD) (R := R)) route_exc A) :
  Balanced adm_cfg c -> BalancedGen (on_world c).
Proof. intros H g Hw. specialize (H _ Hw). unfold stays, on_world, lift. by destruct (c (ss_world g)) as [[a|e] w]. Qed.
Lemma balanced_gen_bind {A B} (c : gen A) (f : A -> gen B) :
  BalancedGen c -> (forall a, BalancedGen (f a)) -> BalancedGen (c ≫= f).
Proof.
  intros Hc Hf g Hw. specialize (Hc g Hw). rewrite bind_cases. destruct (c g) as [[a|e] g1]; [|done].
  unfold stays in *. etrans; [exact Hc|]. apply Hf. by apply (kept_gate _ _ _ Hc).
Qed.

Lemma generator_balanced p pp ic l : BalancedGen (event_generator co_cfg adm_cfg cfg scfg sv p pp ic l).
Proof.
  unfold event_generator. apply balanced_gen_bind; [apply balanced_gen_rest; unfold _opening; gen_rest_tac|intros _].
  destruct (refused ic); [apply balanced_gen_rest; unfold _refuse_stream; gen_rest_tac|].
  intros g Hw. rewrite bind_cases. unfold on_world at 1, lift.
  pose proof (try_lease_spec co_cfg cfg sv (p_tenant pp) (pp_thread pp) (ss_world g)) as Hl.
  destruct (try_lease _ _ _ _ _ _) as [[lease|e] w1]; destruct Hl as [Hg1 Hl]; cycle 1.
  { split; cbn; rewrite ?Hg1; done. }
  destruct lease as [lease|]; cycle 1.
  { cbn [fst]. assert (Hk : stays g (put_world w1 g)) by (split; cbn; rewrite ?Hg1; done).
    unfold stays in *. by rewrite yield_world. }
  rewrite bind_cases. unfold on_world at 1, lift. change (ss_world (put_world w1 g)) with w1.
  pose proof (try_admit_spec adm_cfg cfg (p_tenant pp) lease (ss_world g) w1 Hl Hg1 Hw) as Ha.
  destruct (try_admit _ _ _ _ w1) as [[[h|after]|e] w2]; destruct Ha as [Hw2 Ha]; [| |done]; cycle 1.
  { unfold stays. by rewrite yield_world. }
  destruct Ha as (-> & Hh & Hp & Ht). set (g2 := put_world w2 (put_world w1 g)). unfold finally.
  pose proof (gen_rest_try (_relay cfg scfg sv p pp l) (_report_stream_failure cfg scfg sv p pp) _ _ g2) as [Hc3 Hg3].
  destruct (try_catch _ _ g2) as [o g3]. cbn in Hc3, Hg3. unfold on_world, lift, stays.
  pose proof (give_back_spec adm_cfg cfg sv (p_tenant pp) lease (ss_world g) (ss_world g3)) as Hb.
  destruct (give_back _ _ _ _ _ (ss_world g3)) as [[[]|e] w4]; (apply Hb; [|by rewrite Hg3..]);
    unfold holding; by rewrite Hc3.
Qed.

(** whatever a stream does and wherever it stops (a client that leaves at
    any frame, a turn that fails, an answer cut by moderation), its thread is
    not left locked in the process and the gate has the free slots it had,
    while the gate's Redis loses no command. *)
Theorem stream_gives_back req key header p arrivals g : no_lost_command (w_gate (ss_world g)) ->
  kept adm_cfg (ss_world g)
    (ss_world (stream_conversation co_cfg adm_cfg cfg scfg sv req key header p arrivals g).2).
Proof.
  revert g. change (BalancedGen (stream_conversation co_cfg adm_cfg cfg scfg sv req key header p arrivals)).
  assert (Hs : forall l, GenRest (send_all (SC := SC) (SG := SG) (SD := SD) (SB := SB) (R := R) l)) by (induction l; cbn [send_all]; gen_rest_tac).
  unfold stream_conversation. apply balanced_gen_bind; [apply balanced_gen_rest|intros o].
  { apply gen_rest_world. unfold _open_stream. rest_only_tac. }
  apply balanced_gen_bind; [apply balanced_gen_rest; unfold wants_replay; gen_rest_tac|intros []].
  { apply balanced_gen_rest. unfold _replay. gen_rest_tac. }
  apply balanced_gen_bind; [|intros [ic pp]; apply generator_balanced].
  apply balanced_gen_rest, gen_rest_world. unfold _prepare_stream, _resolve_catalog_model. rest_only_tac.
Qed.

(** ** The grammar of the endpoint *)

(** What a stream may send: the session, the guardrails, the compaction if any,
    deltas and heartbeats, then a result, an error, or a redaction with its
    retraction; a terminal frame is the last one. *)
Definition grammatical (l : list frame) : Prop :=
  stage_of l <> Broken /\ Forall (fun f => terminal f = false) (removelast l).

(** The frames of the records the buffer returns for this stream in state [g]. *)
Definition resent (o : opened) (header : option string) (g : state) : list frame :=
  match replay (E := stop) (buf_prefix scfg) (ttl_seconds scfg) (ss_clock g) (tc_id (op_config o)) (op_thread o)
          (op_request_id o) (last_event_id scfg header) (ss_buffer g) with
  | (Ret records, _) => omap replay_frame records
  | _ => []
  end.

(** A frame of a replay: an event of the turn under its number. *)
Definition numbered_event (f : frame) : Prop :=
  fr_event f ∈ ["delta"; "result"; "error"] /\ is_Some (fr_id f).

Lemma replay_frame_numbered records : Forall numbered_event (omap replay_frame records).
Proof.
  induction records as [|r rs IH]; [constructor|]. cbn. unfold replay_frame.
  repeat case_bool_decide; cbn; try done; constructor; try done; (split; [cbn|by eexists]).
  all: rewrite !elem_of_cons; try rewrite H0; try rewrite H1; tauto.
Qed.

Lemma send_all_out l : forall g,
  ss_out (send_all (SC := SC) (SG := SG) (SD := SD) (SB := SB) (R := R) l g).2 = ss_out g ++ take (ss_patience g) l.
Proof.
  induction l as [|f l IH]; intros g; cbn [send_all]; [by rewrite take_nil, app_nil_r|]. rewrite bind_cases.
  destruct (yield_cases f g) as [[Hp ->]|(g' & -> & Ho & Hp)]; rewrite Hp; [by rewrite app_nil_r|].
  by rewrite IH, Ho, <- app_assoc.
Qed.

Lemma wants_replay_out o key header g :
  exists b g', wants_replay scfg o key header g = (Ret b, g') /\ same_out g g'
    /\ (last_event_id scfg header <= 0 -> truthy_opt key = false -> b = false).
Proof.
  unfold wants_replay. destruct (0 <? last_event_id scfg header) eqn:El; to_prop.
  { exists true, g. split_and!; [done..|lia]. }
  destruct (truthy_opt key); [|by exists false, g]. rewrite bind_cases.
  edestruct (on_buffer_returns (fun now => get_terminal (buf_prefix scfg) (ttl_seconds scfg) now (tc_id (op_config o))
    (op_thread o) (op_request_id o)) g) as (t & g' & -> & Hs); [intros; apply _|].
  by eexists _, g'.
Qed.

(** C14: the frames the endpoint sends, however the request goes and wherever
    it stops (the client leaves, a service raises, the queue runs dry).  A
    request whose opening fails sends none.  A generated stream follows the
    grammar: the session, the guardrails, the compaction if any, deltas and
    heartbeats, then a result, an error, or a redaction with its retraction,
    and a terminal frame is the last one.  A replay sends no session again: it
    sends the numbered deltas, results and errors the buffer returns for the
    stream, in its order, up to where the client leaves.  Without an id to go
    on from and without a key the stream is always generated. *)
Theorem stream_grammar req key header p arrivals g : ss_out g = [] ->
  let out := ss_out (stream_conversation co_cfg adm_cfg cfg scfg sv req key header p arrivals g).2 in
  match on_world (_open_stream sv req key p) g with
  | (Raise _, _) => out = []
  | (Ret o, g1) =>
      exists again g2, wants_replay scfg o key header g1 = (Ret again, g2)
        /\ (last_event_id scfg header <= 0 -> truthy_opt key = false -> again = false)
        /\ if again then out = take (ss_patience g) (resent o header g2) /\ Forall numbered_event out
           else grammatical out
  end.
Proof.
  intros Hg. cbv zeta. unfold stream_conversation. rewrite bind_cases.
  pose proof (on_world_out (_open_stream sv req key p) g) as Ho.
  destruct (on_world _ g) as [[o|e] g1]; [|destruct Ho as [[Ho _] _]; exact (eq_trans Ho Hg)].
  destruct (wants_replay_out o key header g1) as (again & g2 & Ew & Hs & Hn). exists again, g2.
  rewrite bind_cases, Ew. split_and!; [done|done|].
  assert (Hg2 : ss_out g2 = [] /\ ss_patience g2 = ss_patience g).
  { destruct Ho as [Ho1 Ho2], Hs as [Hs1 Hs2]. split; congruence. }
  destruct Hg2 as [Hg2 Hp2]. destruct again.
  - enough (E : ss_out (_replay scfg o header g2).2 = take (ss_patience g) (resent o header g2)).
    { split; [exact E|]. rewrite E. apply Forall_take. unfold resent.
      destruct (replay _ _ _ _ _ _ _ _) as [[rs|e] b]; [apply replay_frame_numbered|constructor]. }
    unfold _replay, resent. rewrite bind_cases. unfold on_buffer, lift.
    destruct (replay _ _ _ _ _ _ _ _) as [[rs|e] b]; [|by rewrite take_nil].
    rewrite send_all_out. cbn. by rewrite Hg2, Hp2.
  - rewrite bind_cases. pose proof (on_world_out (_prepare_stream cfg scfg sv req p o) g2) as Hw.
    destruct (on_world _ g2) as [[[ic pp]|e] g3].
    + assert (Hl := generator_legal p pp ic (arrivals pp) g3 ltac:(destruct Hw; congruence)).
      split; [exact Hl|by apply legal_shape].
    + destruct Hw as [[Hw _] _]. cbn. rewrite Hw, Hg2. split; [done|constructor].
Qed.

(** ** What the deltas show *)

Definition delta_text (f : frame) : option string :=
  if bool_decide (fr_event f = "delta") then text_field "content" (fr_data f) else None.
Definition delta_texts (l : list frame) : list string := omap delta_text l.

Lemma delta_texts_snoc l f : delta_texts (l ++ [f]) = delta_texts l ++ option_list (delta_text f).
Proof. unfold delta_texts. rewrite omap_app. cbn. by destruct (delta_text f). Qed.

Class NoDelta {A} (c : gen A) : Prop :=
  no_delta : forall g, delta_texts (ss_out (c g).2) = delta_texts (ss_out g).

#[global] Instance no_delta_ret {A} (a : A) : NoDelta (mret a).
Proof. by intros g. Qed.
#[global] Instance no_delta_throw {A} e : NoDelta (throw e : gen A).
Proof. by intros g. Qed.
#[global] Instance no_delta_bind {A B} (c : gen A) (f : A -> gen B) :
  NoDelta c -> (forall a, NoDelta (f a)) -> NoDelta (c ≫= f).
Proof.
  intros Hc Hf g. rewrite bind_cases. specialize (Hc g). destruct (c g) as [[a|e] g1]; [|done].
  rewrite <- Hc. apply Hf.
Qed.
#[global] Instance no_delta_try {A} (c : gen A) h : NoDelta c -> (forall e, NoDelta (h e)) -> NoDelta (try_catch c h).
Proof.
  intros Hc Hf g. unfold try_catch. specialize (Hc g). destruct (c g) as [[a|e] g1]; [done|].
  rewrite <- Hc. apply Hf.
Qed.
#[global] Instance no_delta_yield f : Is_true (negb (bool_decide (fr_event f = "delta"))) -> NoDelta (yield_ f).
Proof.
  intros Hf g. unfold yield_. destruct (ss_patience g); [done|]. cbn [snd ss_out]. rewrite delta_texts_snoc.
  unfold delta_text. case_bool_decide; [done|]. apply app_nil_r.
Qed.
#[global] Instance no_delta_world {A} (c : io (world (SC := SC) (SG := SG) (SD := SD) (R := R)) route_exc A) : NoDelta (on_world c).
Proof. intros g. unfold on_world, lift. by destruct (c (ss_world g)) as [[a|e] w]. Qed.
#[global] Instance no_delta_rest {A} (c : io R turn_exc A) : NoDelta (on_rest c).
Proof. apply no_delta_world. Qed.
#[global] Instance no_delta_buffer {A} (c : Z -> io (@StreamBuffer SB) stop A) : NoDelta (on_buffer c).
Proof. intros g. unfold on_buffer, lift. by destruct (c _ _) as [[a|e] r]. Qed.
#[global] Instance no_delta_arrive a : NoDelta (arrive a).
Proof. by intros g. Qed.

Ltac no_delta_tac := repeat first [apply no_delta_bind; [|intros ?] | apply no_delta_yield; exact I | apply _].

#[global] Instance no_delta_terminal pp ty d : NoDelta (stream_terminal scfg pp ty d).
Proof. unfold stream_terminal, buffer_terminal. apply _. Qed.
#[global] Instance no_delta_retract p pp reason l from : NoDelta (_retract scfg sv p pp reason l from).
Proof. unfold _retract. no_delta_tac. Qed.
#[global] Instance no_delta_final pp text : NoDelta (final_text sv pp text).
Proof. unfold final_text. destruct (sv_presidio sv); [|apply _]. destruct (truthy text); [|apply _]. no_delta_tac. Qed.
#[global] Instance no_delta_complete p pp r : NoDelta (_complete cfg scfg sv p pp r).
Proof. unfold _complete. no_delta_tac. Qed.
#[global] Instance no_delta_report p pp e : NoDelta (_report_stream_failure cfg scfg sv p pp e).
Proof. destruct e as [|[m d|x]]; cbn [_report_stream_failure]; no_delta_tac. Qed.
#[global] Instance no_delta_opening pp ic : NoDelta (_opening pp ic).
Proof. unfold _opening. no_delta_tac. destruct (cp_position _); no_delta_tac. Qed.
#[global] Instance no_delta_refuse p pp ic : NoDelta (_refuse_stream cfg sv p pp ic).
Proof. unfold _refuse_stream. no_delta_tac. Qed.

Section released.
Context (p : ConversationPrincipal) (pp : prepared (R := R)) (validate : string -> io R turn_exc verdict).
Context (Hv : validator sv pp = Some validate).

(** A delta is what the validator let through for a text. *)
Definition shown (text d : string) : Prop :=
  exists r, validated validate withheld_window text r /\ wr_truncated r = false /\ d = wr_text r.

(** The deltas sent are those of consecutive texts, with [rest] to come. *)
Definition shows (chunks rest : string) g : Prop :=
  exists texts, chunks = joined texts +:+ rest /\ Forall2 shown texts (delta_texts (ss_out g)).

(** The loop's invariant: what is pending is the rest. *)
Definition held (chunks : string) (w : window) g : Prop := truncated w = false /\ shows chunks (pending w) g.

Lemma shows_same chunks rest g g' : delta_texts (ss_out g') = delta_texts (ss_out g) ->
  shows chunks rest g -> shows chunks rest g'.
Proof. intros E (texts & H1 & H2). exists texts. by rewrite E. Qed.
Lemma shows_more chunks rest more g : shows chunks rest g -> shows (chunks +:+ more) (rest +:+ more) g.
Proof. intros (texts & -> & H). exists texts. by rewrite string_app_assoc. Qed.

Lemma no_delta_shows {A} (c : gen A) chunks rest g : NoDelta c -> shows chunks rest g -> shows chunks rest (c g).2.
Proof. intros Hc. apply shows_same, Hc. Qed.

(** Pushing or finishing: the window keeps its text, or a verdict for it. *)
Definition verdict_for (text : string) (r : WindowRelease) (w : window) : Prop :=
  validated validate withheld_window text r /\ w = {| pending := EmptyString; truncated := wr_truncated r |}.

Lemma push_delta_cases text w g : truncated w = false -> exists r w' g', push_delta scfg sv pp text w g = (Ret (r, w'), g')
  /\ ss_out g' = ss_out g
  /\ match r with
     | None => w' = {| pending := pending w +:+ text; truncated := false |}
     | Some rel => verdict_for (pending w +:+ text) rel w'
     end.
Proof.
  intros Hw. unfold push_delta, moderated, push. rewrite Hv, Hw. destruct (_ <? _); [by eexists _, _, _|].
  unfold _validate_window. cbn [pending truncated]. destruct (validate _ _) as [o e] eqn:Ev. eexists _, _, _.
  split; [reflexivity|]. split; [done|]. split; [|done]. eexists. by rewrite Ev.
Qed.

Lemma finish_window_cases w g : truncated w = false -> exists r w' g', finish_window sv pp w g = (Ret (r, w'), g')
  /\ ss_out g' = ss_out g
  /\ match r with None => True | Some rel => verdict_for (pending w) rel w' end.
Proof.
  intros Hw. unfold finish_window, moderated, finish. rewrite Hv, Hw. destruct (negb _); [by eexists _, _, _|].
  unfold _validate_window. cbn [orb]. destruct (validate _ _) as [o e] eqn:Ev. eexists _, _, _.
  split; [reflexivity|]. split; [done|]. split; [|by rewrite Hw]. eexists. by rewrite Ev.
Qed.

(** The delta of a verdict joins those sent. *)
Lemma release_shows chunks text rel w g : shows chunks text g -> verdict_for text rel w -> wr_truncated rel = false ->
  match _release scfg pp (wr_text rel) g with
  | (Ret _, g') => shows chunks EmptyString g'
  | (Raise _, g') => shows chunks text g'
  end.
Proof.
  intros Hs [Hr _] Ht. unfold _release, stream_append, buffer_append. rewrite bind_cases.
  assert (Ha : exists a g1, on_buffer (SC := SC) (SG := SG) (SD := SD) (R := R) (fun now => append (uuid5 scfg) (buf_prefix scfg) (ttl_seconds scfg) (overflow_max_chunks scfg)
    now (p_tenant pp) (pp_thread pp) (pp_request_id pp) "delta" (content_json (wr_text rel))) g = (Ret a, g1) /\ same_out g g1)
    by (apply on_buffer_returns; apply _).
  destruct Ha as (seq & g1 & -> & Ho & _). rewrite bind_cases.
  destruct (yield_cases (delta_frame (wr_text rel) seq) g1) as [[_ ->]|(g2 & -> & E & _)].
  - by eapply shows_same; [|exact Hs]; rewrite Ho.
  - destruct Hs as (texts & -> & H2). exists (texts ++ [text]).
    rewrite joined_snoc, string_app_nil_r. split; [done|]. cbn [snd ss_out]. rewrite E, delta_texts_snoc, Ho.
    apply Forall2_app; [done|]. cbn. constructor; [|constructor]. by exists rel.
Qed.

(** The text of the deltas still to come. *)
Fixpoint delta_input (l : list (arrival R)) : string :=
  match l with
  | [] => EmptyString
  | a :: l => match ar_item a with IEvent (MDelta t) => t +:+ delta_input l | _ => delta_input l end
  end.

Lemma consume_shows l : forall chunks w last g, held chunks w g ->
  match consume scfg sv p pp l w last g with
  | (Ret (Some _, w', _), g') => exists more rest, held (chunks +:+ more) w' g' /\ delta_input l = more +:+ rest
  | (_, g') => exists rest, shows (chunks +:+ delta_input l) rest g'
  end.
Proof.
  induction l as [|a l IH]; intros chunks w last g [Hw Hs]; cbn [consume delta_input].
  - cbn. exists (pending w). by rewrite string_app_nil_r.
  - rewrite bind_cases. cbn [arrive]. set (g1 := {| ss_world := _ |}).
    assert (Hs1 : shows chunks (pending w) g1) by exact Hs.
    assert (Hend : forall g' input, shows chunks (pending w) g' -> exists rest, shows (chunks +:+ input) rest g').
    { intros g' input Hs'. eexists. by apply shows_more. }
    destruct (ar_item a) as [[text|response conf act handoff ob ci fa|text]|x| |].
    + assert (Hstep : forall w' g2 last', held (chunks +:+ text) w' g2 ->
        match consume scfg sv p pp l w' last' g2 with
        | (Ret (Some _, w', _), g') => exists more rest, held (chunks +:+ more) w' g' /\ text +:+ delta_input l = more +:+ rest
        | (_, g') => exists rest, shows (chunks +:+ text +:+ delta_input l) rest g'
        end).
      { intros w' g2 last' Hh. specialize (IH _ w' last' g2 Hh). destruct (consume _ _ _ _ _ _ _ g2) as [[[[[r|] w2] z]|e] g3].
        - destruct IH as (more & rest & Hm & ->). rewrite string_app_assoc in Hm. exists (text +:+ more), rest. by rewrite string_app_assoc.
        - by rewrite string_app_assoc in IH.
        - by rewrite string_app_assoc in IH. }
      rewrite bind_cases. destruct (push_delta_cases text w g1 Hw) as (r & w' & g2 & -> & Ho & Hr).
      assert (Hs2 : shows chunks (pending w) g2) by (eapply shows_same; [|exact Hs1]; by rewrite Ho).
      assert (Hs3 : shows (chunks +:+ text) (pending w +:+ text) g2) by by apply shows_more.
      cbv beta iota. destruct r as [rel|]; [|subst w'; by apply Hstep].
      destruct (wr_truncated rel) eqn:Ht.
      * rewrite bind_cases. pose proof (no_delta_shows (_retract scfg sv p pp "content_moderation" (wr_violations rel) last) _ _ _ _ Hs2) as H4.
        destruct (_retract _ _ _ _ _ _ _ g2) as [[[]|e] g3]; by apply Hend.
      * rewrite bind_cases. pose proof (release_shows _ _ _ _ _ Hs3 Hr Ht) as H4.
        destruct (_release _ _ _ g2) as [[seq|e] g3].
        -- apply Hstep. split; [by destruct Hr as [_ ->]|]. by destruct Hr as [_ ->].
        -- eexists. rewrite <- string_app_assoc. by apply shows_more.
    + cbn. exists EmptyString, (delta_input l). rewrite string_app_nil_r. split; [by split|done].
    + rewrite bind_cases. pose proof (no_delta_shows (stream_terminal scfg pp "error" (error_json text)) _ _ _ _ Hs1) as H4.
      destruct (stream_terminal _ _ _ _ g1) as [[[]|e] g3]; [|by apply Hend]. rewrite bind_cases.
      pose proof (no_delta_shows (yield_ (error_frame (error_json text))) _ _ _ (no_delta_yield (error_frame (error_json text)) I) H4) as H5. cbn [snd] in H5.
      destruct (yield_ _ g3) as [[[]|e] g4]; by apply Hend.
    + by apply Hend.
    + rewrite bind_cases. pose proof (no_delta_shows (yield_ heartbeat_frame) _ _ _ (no_delta_yield heartbeat_frame I) Hs1) as H4.
      destruct (yield_ _ g1) as [[[]|e] g2]; [by apply IH|by apply Hend].
    + by apply Hend.
Qed.

Lemma relay_shows l g : delta_texts (ss_out g) = [] ->
  exists rest, shows (delta_input l) rest (_relay cfg scfg sv p pp l g).2.
Proof.
  intros Hg. unfold _relay. rewrite bind_cases.
  assert (H0 : held EmptyString new_window g) by (split; [done|]; exists []; split; [done|]; rewrite Hg; constructor).
  pose proof (consume_shows l EmptyString new_window None g H0) as H.
  destruct (consume _ _ _ _ _ _ _ g) as [[[[[r|] w] last]|e] g1]; [|done..].
  destruct H as (more & rest & [Hw Hs] & E). change (EmptyString +:+ more) with more in Hs. cbv beta iota. unfold _flush. rewrite bind_cases.
  destruct (finish_window_cases w g1 Hw) as (tail & w' & g2 & -> & Ho & Hr). cbv beta iota.
  assert (Hs2 : shows more (pending w) g2) by (eapply shows_same; [|exact Hs]; by rewrite Ho).
  rewrite E. destruct tail as [rel|].
  2: { eexists. apply shows_more. apply (no_delta_shows (_complete cfg scfg sv p pp r)); [apply _|done]. }
  destruct (wr_truncated rel) eqn:Ht.
  { eexists. apply shows_more. apply (no_delta_shows (_retract scfg sv p pp _ _ _)); [apply _|done]. }
  rewrite bind_cases. destruct (truthy (wr_text rel)).
  2: { eexists. apply shows_more. apply (no_delta_shows (_complete cfg scfg sv p pp r)); [apply _|done]. }
  rewrite bind_cases. pose proof (release_shows _ _ _ _ _ Hs2 Hr Ht) as H4.
  destruct (_release _ _ _ g2) as [[seq|e] g3]; [|eexists; by apply shows_more].
  eexists. apply shows_more. apply (no_delta_shows (_complete cfg scfg sv p pp r)); [apply _|done].
Qed.

(** C5: with a validator, what the deltas of a stream show is, one for one,
    what the validator let through or redacted for consecutive texts of the
    turn's output from its start: no text is shown that it did not see, none
    is skipped, repeated or reordered, and nothing follows a text it refused. *)
Theorem stream_shows_verdicts ic l g : ss_out g = [] ->
  exists texts rest,
    delta_input l = joined texts +:+ rest
    /\ Forall2 shown texts (delta_texts (ss_out (event_generator co_cfg adm_cfg cfg scfg sv p pp ic l g).2)).
Proof.
  intros Hg.
  enough (exists rest, shows (delta_input l) rest (event_generator co_cfg adm_cfg cfg scfg sv p pp ic l g).2) as (rest & texts & H)
    by by exists texts, rest.
  assert (Hnone : forall g', delta_texts (ss_out g') = [] -> exists rest, shows (delta_input l) rest g').
  { intros g' E. exists (delta_input l), []. split; [done|]. rewrite E. constructor. }
  assert (H0 : delta_texts (ss_out g) = []) by by rewrite Hg.
  unfold event_generator. rewrite bind_cases. pose proof (no_delta (c := _opening pp ic) g) as H1. rewrite H0 in H1.
  destruct (_opening pp ic g) as [[[]|e] g1]; [|by apply Hnone]. cbn [snd] in H1.
  destruct (refused ic); [apply Hnone; rewrite no_delta; exact H1|]. rewrite bind_cases.
  pose proof (no_delta (c := on_world (try_lease co_cfg cfg sv (p_tenant pp) (pp_thread pp))) g1) as H2. rewrite H1 in H2.
  destruct (on_world _ g1) as [[[lease|]|e] g2]; cbn [snd] in H2; [| |by apply Hnone].
  2: { apply Hnone. rewrite (no_delta_yield (error_frame busy_json) I). exact H2. }
  rewrite bind_cases. pose proof (no_delta (c := on_world (try_admit adm_cfg cfg (p_tenant pp) lease)) g2) as H3. rewrite H2 in H3.
  destruct (on_world _ g2) as [[[h|after]|e] g3]; cbn [snd] in H3; [| |by apply Hnone].
  2: { apply Hnone. rewrite (no_delta_yield (error_frame (refused_slot_json after)) I). exact H3. }
  destruct (finally_out (try_catch (_relay cfg scfg sv p pp l) (_report_stream_failure cfg scfg sv p pp))
    (on_world (give_back adm_cfg cfg sv lease h)) g3) as [[Hf _] _]; [intros; apply give_back_out|].
  destruct (relay_shows l g3 H3) as [rest Hr]. exists rest.
  eapply shows_same; [by rewrite Hf|]. unfold try_catch.
  destruct (_relay _ _ _ _ _ _ g3) as [[[]|e] g4]; [exact Hr|]. by apply no_delta_shows; [apply _|].
Qed.
End released.
End stream.
