(* ===== verification/StreamExamples.v ===== *)
(** * Concrete streams

    The desk of RouteExamples.v with a streamed model: whole streams, the
    witnesses of their theorems, and what a client sees in some corners. *)

From S2P Require Import Prelude Json Resilience CacheManager Redis Coordinator Admission StreamBuffer Threads Summarizer Compaction ModelCatalog Catalog Types Context Tenant Governance Moderation Orchestration OrchestrationProps TurnExamples ConversationRoute RouteProps RouteExamples ConversationStream StreamProps.
Import Desk.

Module Screen.

Definition stream_cfg : StreamSettings := {|
  buf_prefix := "buf:"; ttl_seconds := 600; overflow_max_chunks := 100; uuid5 s := s; moderation_window_chars := 12;
  int_of s := if bool_decide (s = "2") then Some 2 else None |}.

Definition allowed (redacted : option string) : output_check :=
  {| oc_allowed := Some true; oc_redacted := redacted; oc_violations := []; oc_decision := None |}.
Definition refused_check : output_check :=
  {| oc_allowed := Some false; oc_redacted := None; oc_violations := [JStr "toxic"]; oc_decision := Some "BLOCK" |}.

(** A screen that knows the opening hours for a secret. *)
Definition redacts (text : string) : output_check := allowed (if contains "nine" text then Some "opens [time] " else None).
Definition refuses (text : string) : output_check := if contains "nine" text then refused_check else allowed None.

Abbreviation hall := (stream_state (SC := kv_map string) (SG := kv_map Z) (SD := kv_map CacheManager.cached) (SB := kv_map (list chunk)) (R := office)).

Definition hall_of (patience : nat) (faults : list fault) : hall := {|
  ss_world := world_of faults []; ss_buffer := new_buffer true true [] 0; ss_clock := 0; ss_out := [];
  ss_patience := patience |}.

(** The queue of a list of events: a heartbeat, the events, the end. *)
Definition arriving (i : item) : arrival office := {| ar_now := 7; ar_meanwhile o := o; ar_item := i |}.
Definition queue (evs : list message_event) : list (arrival office) :=
  map arriving (IHeartbeat :: map IEvent evs ++ [IDone]).

Definition open_at (screen : option (string -> output_check)) (header : option string) (g : hall) :=
  stream_conversation default_coordinator_config small_config cfg stream_cfg (services_with screen) (asking "hi") (Some "k")
    header guest (fun pp => queue (turn_events cfg (services_with screen) (asking "hi") guest pp (Build_office (Scripted.world_of []) [] 0))) g.

Definition seen (g : hall) : list (string * option string) :=
  map (fun f => (fr_event f, text_field "content" (fr_data f))) (ss_out g).
Definition free (g : hall) : bool :=
  bool_decide (local_locks (w_coordinator (ss_world g)) = ∅) && (platform_semaphore (w_gate (ss_world g)) =? 2).
End Screen.
Import Screen.

(** A whole stream; the same key replays its deltas and its result. *)
Example whole_stream :
  let '(o, g) := open_at None None (hall_of 20 []) in
  let '(o2, g2) := open_at None (Some "2") {| ss_world := ss_world g; ss_buffer := ss_buffer g; ss_clock := 9; ss_out := []; ss_patience := 20 |} in
  o = Ret tt
  /\ seen g = [("session", None); ("guardrails", None); ("heartbeat", None); ("delta", Some "The shop ");
               ("delta", Some "opens at nine "); ("delta", Some "on weekdays."); ("result", None)]
  /\ free g = true /\ o2 = Ret tt.
Proof. vm_compute. done. Qed.

(** A client that comes back after the second number is sent everything again:
    Redis does not look at the number. *)
Example replayed_stream :
  let '(o, g) := open_at None None (hall_of 20 []) in
  let '(o2, g2) := open_at None (Some "2") {| ss_world := ss_world g; ss_buffer := ss_buffer g; ss_clock := 9; ss_out := []; ss_patience := 20 |} in
  seen g2 = [("delta", Some "The shop "); ("delta", Some "opens at nine "); ("delta", Some "on weekdays."); ("result", None)]
  /\ map fr_id (ss_out g2) = [Some 1; Some 2; Some 3; Some 4]
  /\ rows (w_rest (ss_world g2)) = rows (w_rest (ss_world g)).
Proof. vm_compute. done. Qed.

(** A window the screen redacts, and one it refuses. *)
Example screened_streams :
  seen (open_at (Some redacts) None (hall_of 20 [])).2
    = [("session", None); ("guardrails", None); ("heartbeat", None); ("delta", Some "opens [time] ");
       ("delta", Some "on weekdays."); ("result", None)]
  /\ seen (open_at (Some refuses) None (hall_of 20 [])).2
    = [("session", None); ("guardrails", None); ("heartbeat", None); ("redaction", None); ("retraction", None)].
Proof. vm_compute. done. Qed.

(** The client leaves at the fourth frame: nothing is stored of the answer,
    and the lease and the slot are back. *)
Example abandoned_stream :
  let '(o, g) := open_at None None (hall_of 4 []) in
  o = Raise Closed /\ length (ss_out g) = 4%nat /\ free g = true /\ rows (w_rest (ss_world g)) = [("user", "hi")].
Proof. vm_compute. done. Qed.

(** The whole answer is refused and shown all the same: only the windows of a
    stream can cut it, and each of them was allowed. *)
Definition only_short (text : string) : output_check := if (30 <? String.length text)%nat then refused_check else allowed None.
Example refused_whole_is_shown :
  let '(o, g) := open_at (Some only_short) None (hall_of 20 []) in
  last (map fr_event (ss_out g)) = Some "result" /\ only_short Scripted.fine = refused_check
  /\ rows (w_rest (ss_world g)) = [("user", "hi"); ("assistant", Scripted.fine)].
Proof. vm_compute. done. Qed.

(** *** Witnesses *)

Module Wired.
Definition pp (screen : option (string -> output_check)) : prepared (R := office) := {|
  pp_config := Scripted.tenant; pp_policies := Scripted.allow_all; pp_surface := None; pp_session := "s";
  pp_conversation := "c1"; pp_thread := "th1"; pp_request_id := "k"; pp_user_turn := "m1"; pp_redacted := "hi";
  pp_override := None; pp_history := []; pp_checkpoint := no_checkpoint; pp_authorizer _ := mret false;
  pp_gateway_cfg := Governance.build_gateway_budget_cfg ∅; pp_registry := tools; pp_prompt := None |}.
Definition fine_input : input_check := {| ic_valid := true; ic_blocked := false; ic_violations := [] |}.
Definition quiet_office : office := Build_office (Scripted.world_of []) [] 0.
Definition evs (screen : option (string -> output_check)) :=
  turn_events cfg (services_with screen) (asking "hi") guest (pp screen) quiet_office.
Definition generator (screen : option (string -> output_check)) (g : hall) :=
  event_generator default_coordinator_config small_config cfg stream_cfg (services_with screen) guest (pp screen)
    fine_input (queue (evs screen)) g.
End Wired.

Lemma queue_is_of evs : queue_of evs (queue evs).
Proof.
  unfold queue_of, queue. cbn. rewrite map_app, map_map. cbn.
  induction evs as [|e evs IH]; [done|]. cbn. by rewrite IH.
Qed.

(** The state of a client that comes back with a number after a whole stream. *)
Definition returning : hall :=
  let g := (open_at None None (hall_of 20 [])).2 in
  {| ss_world := ss_world g; ss_buffer := ss_buffer g; ss_clock := 9; ss_out := []; ss_patience := 3 |}.

Lemma stream_grammar_witness : let out := ss_out (open_at None (Some "2") returning).2 in
  match on_world (_open_stream (services_with None) (asking "hi") (Some "k") guest) returning with
  | (Raise _, _) => out = []
  | (Ret o, g1) =>
      exists again g2, wants_replay stream_cfg o (Some "k") (Some "2") g1 = (Ret again, g2)
        /\ (last_event_id stream_cfg (Some "2") <= 0 -> truthy_opt (Some "k") = false -> again = false)
        /\ if again then out = take 3 (resent stream_cfg o (Some "2") g2) /\ Forall numbered_event out
           else grammatical out
  end.
Proof.
  exact (stream_grammar default_coordinator_config small_config cfg stream_cfg (services_with None) (asking "hi") (Some "k")
    (Some "2") guest (fun pp => queue (turn_events cfg (services_with None) (asking "hi") guest pp Wired.quiet_office))
    returning eq_refl).
Defined.

(** A generated stream and a replay of it. *)
Example both_grammars :
  map fr_event (ss_out (open_at None (Some "2") returning).2) = ["delta"; "delta"; "delta"]
  /\ grammatical (ss_out (open_at None None (hall_of 20 [])).2).
Proof.
  split; [by vm_compute|]. unfold grammatical. split; [by vm_compute|]. vm_compute. repeat constructor.
Qed.

Lemma stream_gives_back_witness :
  kept small_config (ss_world (hall_of 4 [])) (ss_world (open_at None None (hall_of 4 [])).2).
Proof.
  assert (H : no_lost_command (w_gate (ss_world (hall_of 4 [])))) by (intros _; constructor).
  exact (stream_gives_back default_coordinator_config small_config cfg stream_cfg (services_with None) (asking "hi") (Some "k")
    None guest (fun pp => queue (turn_events cfg (services_with None) (asking "hi") guest pp Wired.quiet_office)) (hall_of 4 []) H).
Defined.

Lemma stream_ends_witness : let '(o, g') := Wired.generator (Some redacts) (hall_of 20 []) in
  o <> Raise Closed /\ exists pre f, ss_out g' = pre ++ [f] /\ terminal f = true
    /\ Forall (fun f => terminal f = false) pre.
Proof.
  apply (stream_ends default_coordinator_config small_config cfg stream_cfg (services_with (Some redacts)) guest
    (Wired.pp (Some redacts)) (asking "hi") Wired.quiet_office Wired.fine_input (queue (Wired.evs (Some redacts))) (hall_of 20 [])).
  - reflexivity.
  - reflexivity.
  - intros s. by eexists _, _.
  - intros _. constructor.
  - apply queue_is_of.
  - vm_compute. lia.
Defined.

Lemma stream_shows_verdicts_witness : exists texts rest,
  Scripted.fine = joined texts +:+ rest
  /\ Forall2 (shown (fun text => oc ← sv_evaluate_output (services_with (Some redacts)) Scripted.tenant text "c1" "s";
        match oc_allowed oc with
        | None => throw (TOther "allowed")
        | Some b => mret {| v_allowed := b; v_redacted := oc_redacted oc; v_violations := oc_violations oc |}
        end)) texts ["opens [time] "; "on weekdays."].
Proof.
  assert (Ed : delta_texts (ss_out (Wired.generator (Some redacts) (hall_of 20 [])).2) = ["opens [time] "; "on weekdays."])
    by (vm_compute; reflexivity).
  assert (Ei : delta_input (queue (Wired.evs (Some redacts))) = Scripted.fine) by (vm_compute; reflexivity).
  rewrite <- Ed, <- Ei.
  apply (stream_shows_verdicts default_coordinator_config small_config cfg stream_cfg (services_with (Some redacts)) guest
    (Wired.pp (Some redacts)) _ eq_refl Wired.fine_input (queue (Wired.evs (Some redacts))) (hall_of 20 [])).
  reflexivity.
Defined.
